(* ===== verification/_CoqProject ===== *)
-Q . S2P
Prelude.v
NtStatus.v
ListEntry.v
KeTypes.v
KeSched.v
KeWait.v
KeInv.v
KeCheck.v
KeWaitSpec.v
KeEvent.v
KeTimer.v
KeApc.v
KeSystem.v
Bytes.v
Memory.v
Phys.v
Mmu.v
Pages.v
Kasan.v
Pool.v
PoolSpec.v
Crc32.v
Rtl.v
FileSharing.v
Atom.v
SeSd.v
SeAccess.v
SeObject.v
ObObject.v
ObHandle.v
ObRun.v
CmTree.v
CmHive.v
CmReplay.v
CmView.v
CmLog.v
CmSim.v
CmRecover.v
CmSave.v
CmResolve.v
CmRegistry.v
CmLive.v
CmAlike.v
CmTouch.v
CmDurable.v
CmCalls.v
CmKeys.v
CmPaths.v
CmHandles.v
CmCreate.v
CmCrash.v
CmQuery.v
CmAnswers.v
