(* ===== verification/Prelude.v ===== *)
(** * proskrnl, verified: the dispatcher, the memory managers, and the object,
    security, file-sharing and registry engines of the kernel.

    proskrnl is a uniprocessor NT-compatible kernel in C (src/kernel), with
    drivers and a test user land around it.  A department of the kernel keeps its
    own state and calls the departments below it; this development follows that
    order, one file or family of files per department, and keeps the names of
    the C code.

    ** How the code is modelled

    A C function is a function on the state its department keeps.  It returns an
    [outcome]: [Ok] with a result, [Panic] (KiPanic, a failed ASSERT), [Fault]
    (an access the C code may not make), or [OutOfFuel] for a loop that used up
    its bound.  A theorem that says [Ok] rules out the other three.  Machine
    integers are [Z], wrapped where the code wraps ([u8] .. [u64], [s32], [s64]);
    pointers are addresses; a LIST_ENTRY queue is the sequence of its entries,
    on the strength of ListEntry.  Fuel is always a quantity of the state or of
    the input that bounds the loop: the length of a list, the number of units of
    a string, the bytes of an image over the size of the smallest record, the 97
    levels a registry tree may not exceed, the 64 steps of the deadlock walk.
    Where a bound might be too small there is a theorem that it is not.  Code that
    is not in the repository, user memory that other threads change, and what the
    pool or the clock answers are interfaces (classes) or arguments; their laws
    are hypotheses with an instance.

    ** The parts

    - Foundations.  Prelude: integers, outcomes, lists.  NtStatus: status codes
      (abi/).  ListEntry: kernel/lib/list.h as a heap of cells, refined by
      sequences.  Bytes, Memory: kernel/lib/string.c, string.h, le.h on a heap of
      bytes, words in it.  Rtl: kernel/lib/rtl.c and the fold of upcase.h.
      Crc32: kernel/lib/crc32.c.
    - The dispatcher (kernel/ke).  KeTypes (ke.h), KeSched (sched.c), KeWait
      (wait.c and the timer queue), KeEvent (event.c, sema.c, mutex.c), KeTimer
      (timer.c, irq.c), KeApc (apc.c, thread.c).  KeInv is the invariant of all
      of it and KeCheck its decision procedure; KeWaitSpec is the contract of the
      waiting calls; KeSystem is boot, the operations as one alphabet, the
      consistency sweep and the deadlock detector (kernel/init/verify.c).
    - Memory (kernel/mm, arch/x86_64).  Phys (phys.c), Mmu (mmu.c), the interface
      Pages between the page tables and the heap, Kasan (kasan.c), Pool (pool.c)
      and PoolSpec, what a client of the heap relies on.
    - Sharing (kernel/io/lock.c, the sharing half of file.c): FileSharing.
      Atoms (kernel/ps/atom.c): Atom.
    - Security (kernel/se).  SeSd (sd.c): capture of descriptors from memory that
      races.  SeAccess (access.c, the tests of token.c): the access check.
      SeObject (secobj.c): set, query and create over stored descriptors.
    - Objects (kernel/ob).  ObObject (object.c, the name link of namespace.c),
      ObHandle (handle.c), ObRun (both in use by any threads).
    - The registry (kernel/cm).  CmTree (the tree primitives of registry.c),
      CmHive (the writer and the reader of hive.c), CmReplay (replay of any
      bytes).  CmView reads a subtree of the heap as a tree of keys and defines
      what each kind of record changes in it; CmLog gives the bytes of every
      record, the same for both passes of the writer; CmSim proves that applying
      a record is its change; CmRecover and CmSave put the two together, for a
      log cut anywhere and for a saved subtree.
    - The registry's calls.  CmResolve (CmpResolvePath and symbolic links) and
      CmRegistry (key bodies, the log's appending half of hive.c, and the seven
      calls that change keys) are the definitions.  CmLive is the invariant of
      the running registry, CmAlike equality of trees up to write times, CmTouch
      what each primitive does to the keys that persist, CmDurable the contract
      every call keeps: no assertion fails, and the log gets the record of the
      change or the console is told.  CmCalls, CmKeys, CmPaths, CmHandles and
      CmCreate prove it call by call; CmCrash runs any sequence of calls from a
      boot on and cuts the log they leave.
    - The registry's queries.  CmQuery is the filling of information classes and
      the four services that query and enumerate, each on a buffer of any length;
      CmAnswers is what their client may rely on, across the calls above.

    ** What the theorems show

    - Invariants over any run: no sequence of dispatcher operations within their
      contracts panics or loses a wake-up (KeSystem); reference counts of objects
      are exactly what refers to them (ObRun); the lock table of a file never
      holds clashing locks (FileSharing).
    - Refinements: lists by sequences, frames by a stack, page tables by a map,
      the pool by disjoint blocks, handle tables by maps, share counters by the
      set of opens, atoms by a reference-counted map, waits by their contract.
    - Functional contracts, every branch: events, semaphores, mutexes, timers,
      APCs, thread life, the access check, the compare and 8.3 tests of Rtl, the
      checksum and the bursts it convicts.
    - Safety against hostile input: descriptor capture under races, the string
      loops, torn reads of the shared clock page, and replay of arbitrary hive
      bytes, which also terminates.
    - Recovery: a registry log cut at any byte replays to the tree its whole
      records spell (CmRecover); the log of a running registry to the tree after
      some prefix of the calls, exactly but for the parent stamps the code makes
      without a record (CmCrash).
    - Termination: replay of any image, and resolution of any name through any
      links (CmPaths).
    - Round trips: descriptors set and queried, values set and queried, atoms
      printed and parsed, gates and threads acquired and released, keys saved and
      loaded.
    - Bounds of replies: a registry query refuses for a listed reason or has one
      reply, never writes behind the buffer, and writes of a reply that does not
      fit exactly the prefix that does (CmAnswers).
    - Exact answers of a service: NtLockFile and NtUnlockFile (FileSharing), the
      registry's queries (CmAnswers), setting and querying descriptors (SeObject)
      are inductive lists of outcomes with the condition of each.

    ** Not modelled, and why

    Context switch, interrupt entry, CR3 and flush instructions, and boot
    (arch/, kernel/init) are machine state.  The drivers, fs/fat32, the page
    cache, sections and virtual memory (kernel/mm/virtual.c, section.c), I/O
    requests and completion (kernel/io), pipes (npfs), processes and their
    queries (kernel/ps but atom.c), the namespace walk, NtQueryObject and
    ob/sync.c, token creation and adjustment, and the registry's
    notifications and loading, unloading and restoring of files are not
    modelled: each needs the layers named here (file system, user memory,
    processes) before its own theorems would say much.  Registry calls are run
    one at a time: a call that parks in the log's mutex or on the disk while
    another changes the key is outside the model, with the mutex itself
    (CmpHiveMutex), and so is a crash inside the rename that commits a compaction.
    The range check the mem* intrinsics make of the sanitizer on entry is left
    out of them; what the check decides is PoolSpec's subject.  Tables (timezones.h,
    ntstatus.h beyond the codes used) and diagnostic text carry no behaviour of
    their own.  Self-tests that only exercise modelled operations are left out,
    except the checksum's. *)

From Stdlib Require Export ZArith Lia Sorted.
From stdpp Require Export base option list strings gmap.
Open Scope Z_scope.

(** ** Machine integers

    A w-bit C integer is a [Z]; the conversions below are the C casts. *)

Definition u8 (z : Z) : Z := z mod 2 ^ 8.
Definition u16 (z : Z) : Z := z mod 2 ^ 16.
Definition u32 (z : Z) : Z := z mod 2 ^ 32.
Definition u64 (z : Z) : Z := z mod 2 ^ 64.
Definition s32 (z : Z) : Z := (z + 2 ^ 31) mod 2 ^ 32 - 2 ^ 31.
Definition s64 (z : Z) : Z := (z + 2 ^ 63) mod 2 ^ 64 - 2 ^ 63.

Definition is_u8 (z : Z) : Prop := 0 <= z < 2 ^ 8.
Definition is_u16 (z : Z) : Prop := 0 <= z < 2 ^ 16.
Definition is_u32 (z : Z) : Prop := 0 <= z < 2 ^ 32.
Definition is_u64 (z : Z) : Prop := 0 <= z < 2 ^ 64.

Definition is_s32 (z : Z) : Prop := - 2 ^ 31 <= z < 2 ^ 31.
Definition is_s64 (z : Z) : Prop := - 2 ^ 63 <= z < 2 ^ 63.

(** A kernel pointer. 0 is the C null pointer. *)
Abbreviation addr := Z (only parsing).

(** ** Outcomes

    A C function of this kernel either returns, stops the machine through
    [KiPanic] or a failed [ASSERT], dereferences something that is not there
    ([Fault], undefined behaviour in C), or, for a loop modelled with a bound,
    exhausts the bound ([OutOfFuel]).  Theorems that an operation is [Ok] rule
    out the last three at once. *)
Inductive outcome (A : Type) : Type :=
  | Ok (a : A)
  | Panic (why : string)
  | Fault (why : string)
  | OutOfFuel.
Arguments Ok {A} a.
Arguments Panic {A} why.
Arguments Fault {A} why.
Arguments OutOfFuel {A}.

#[export] Instance outcome_ret : MRet outcome := fun A a => Ok a.
#[export] Instance outcome_bind : MBind outcome := fun A B f m =>
  match m with
  | Ok a => f a
  | Panic why => Panic why
  | Fault why => Fault why
  | OutOfFuel => OutOfFuel
  end.
#[export] Instance outcome_fmap : FMap outcome := fun A B f m =>
  match m with
  | Ok a => Ok (f a)
  | Panic why => Panic why
  | Fault why => Fault why
  | OutOfFuel => OutOfFuel
  end.

Definition is_Ok {A} (m : outcome A) : Prop := exists a, m = Ok a.

(** [ASSERT(cond)]: always compiled in (kernel/init/panic.h). *)
Definition ASSERT (cond : bool) (why : string) : outcome unit :=
  if cond then Ok tt else Panic why.

(** Follow a pointer: the object it designates, or undefined behaviour. *)
Definition deref {A} (o : option A) (why : string) : outcome A :=
  match o with
  | Some a => Ok a
  | None => Fault why
  end.

(** ** Record update [r <| field := v |>]

    [Eta R] holds the eta expansion of a record; [Setter] abstracts one
    projection out of it. *)
Class Eta (R : Type) := mkEta { eta_expand : R -> R }.
Arguments mkEta {R} eta_expand.
Class Setter {R E : Type} (proj : R -> E) := mkSetter { set_field : (E -> E) -> R -> R }.
Arguments mkSetter {R E proj} set_field.
Arguments set_field {R E} proj {_} f r.

Ltac derive_setter :=
  match goal with
  | |- @Setter ?R ?E ?proj =>
      let inst := constr:(_ : Eta R) in
      let e := eval hnf in inst in
      match e with mkEta ?e =>
      match eval pattern proj in e with
      | ?mk _ =>
          let body := constr:(fun (f : E -> E) (r : R) => mk (fun r => f (proj r)) r) in
          let body := eval cbv beta in body in
          exact (mkSetter body)
      end end
  end.
#[export] Hint Extern 1 (Setter _) => derive_setter : typeclass_instances.

Declare Scope kernel_scope.
Delimit Scope kernel_scope with kernel.
Notation "r <| f := v |>" := (set_field f (fun _ => v) r)
  (at level 12, f at next level, v at level 200, left associativity, format "r <| f  :=  v |>") : kernel_scope.
Open Scope kernel_scope.

(** ** Total correctness of outcomes

    [returns m P]: [m] returns normally, with a result satisfying [P]; it is
    false for a panic, a fault or an exhausted bound. *)
Definition returns {A} (m : outcome A) (P : A -> Prop) : Prop :=
  match m with
  | Ok a => P a
  | _ => False
  end.

Section outcomes.
Context {A B : Type}.
Implicit Types (m : outcome A) (f : A -> outcome B).

Lemma returns_alt m (P : A -> Prop) : returns m P <-> exists a, m = Ok a /\ P a.
Proof.
  destruct m; simpl; split; intros H; try done; try (destruct H as (?&?&?); congruence).
  eauto.
Qed.

Lemma returns_Ok (a : A) (P : A -> Prop) : P a -> returns (Ok a) P.
Proof. done. Qed.

Lemma returns_mono m (P Q : A -> Prop) :
  returns m P -> (forall a, P a -> Q a) -> returns m Q.
Proof. destruct m; simpl; eauto. Qed.

Lemma returns_bind m f (P : B -> Prop) :
  returns m (fun a => returns (f a) P) -> returns (m ≫= f) P.
Proof. by destruct m. Qed.

Lemma returns_bind_inv m f (P : B -> Prop) :
  returns (m ≫= f) P -> returns m (fun a => returns (f a) P).
Proof. by destruct m. Qed.

Lemma bind_Ok m f (b : B) :
  (m ≫= f) = Ok b <-> exists a, m = Ok a /\ f a = Ok b.
Proof.
  destruct m; simpl; split; intros H; try (destruct H as (?&?&?)); try congruence.
  eauto.
Qed.

Lemma returns_bind_ext {C} (m : outcome C) (f g : C -> outcome A) (P : A -> Prop) :
  (forall c, returns (f c) P -> returns (g c) P) -> returns (m ≫= f) P -> returns (m ≫= g) P.
Proof. destruct m; simpl; auto. Qed.

Lemma outcome_bind_assoc {C} (m : outcome C) (f : C -> outcome A) (g : A -> outcome B) :
  (m ≫= f) ≫= g = m ≫= (fun c => f c ≫= g).
Proof. by destruct m. Qed.

Lemma ASSERT_true c why : c = true -> ASSERT c why = Ok tt.
Proof. by intros ->. Qed.

Lemma ASSERT_Ok c why u : ASSERT c why = Ok u <-> c = true.
Proof. destruct c, u; simpl; split; congruence. Qed.

Lemma deref_Ok (o : option A) why a : deref o why = Ok a <-> o = Some a.
Proof. destruct o; simpl; split; congruence. Qed.

Lemma is_Ok_returns m : is_Ok m <-> returns m (fun _ => True).
Proof. unfold is_Ok. destruct m; simpl; split; try done; try (by intros [? ?]). eauto. Qed.
End outcomes.

(** [inv_outcome H] turns a hypothesis [H : prog = Ok v] into the equations of
    the steps of [prog]. *)
Ltac inv_outcome H :=
  repeat match type of H with
  | Ok _ = Ok _ => injection H as H; try subst
  | Panic _ = Ok _ => discriminate H
  | Fault _ = Ok _ => discriminate H
  | OutOfFuel = Ok _ => discriminate H
  | (_ ≫= _) = Ok _ =>
      let a := fresh "v" in let E := fresh "E" in
      apply bind_Ok in H as (a & E & H); simpl in H
  | ASSERT _ _ = Ok _ => apply ASSERT_Ok in H
  | deref _ _ = Ok _ => apply deref_Ok in H
  | (if ?c then _ else _) = Ok _ => let E := fresh "E" in destruct c eqn:E
  | match ?c with _ => _ end = Ok _ => let E := fresh "E" in destruct c eqn:E
  end.

(** [run] steps over the binds of a program whose next step is known. *)
Ltac run := cbn [mbind outcome_bind mret outcome_ret fmap outcome_fmap deref ASSERT negb andb orb].

(** Close a decidable proposition by evaluating its decision. *)
Ltac vm_compute_decide := apply (bool_decide_unpack _); vm_compute; exact I.

Create HintDb kernel discriminated.
#[export] Hint Resolve returns_Ok : kernel.

(** ** Arithmetic of the casts *)

Section words.
Implicit Types z : Z.

Lemma u8_small z : is_u8 z -> u8 z = z.
Proof. apply Z.mod_small. Qed.
Lemma u16_small z : is_u16 z -> u16 z = z.
Proof. apply Z.mod_small. Qed.
Lemma u32_small z : is_u32 z -> u32 z = z.
Proof. apply Z.mod_small. Qed.
Lemma u64_small z : is_u64 z -> u64 z = z.
Proof. apply Z.mod_small. Qed.
Lemma s32_small z : is_s32 z -> s32 z = z.
Proof. unfold is_s32, s32. intros H. rewrite Z.mod_small; lia. Qed.
Lemma s64_u64 z : is_s64 z -> s64 (u64 z) = z.
Proof. unfold is_s64, s64, u64. intros Hz. rewrite Zplus_mod_idemp_l, Z.mod_small; lia. Qed.
Lemma s64_range z : is_s64 (s64 z).
Proof. unfold is_s64, s64. pose proof (Z.mod_pos_bound (z + 2 ^ 63) (2 ^ 64) ltac:(lia)). lia. Qed.
Lemma u8_range z : is_u8 (u8 z).
Proof. apply Z.mod_pos_bound. lia. Qed.
Lemma u16_range z : is_u16 (u16 z).
Proof. apply Z.mod_pos_bound. lia. Qed.
Lemma u32_range z : is_u32 (u32 z).
Proof. apply Z.mod_pos_bound. lia. Qed.
Lemma u64_range z : is_u64 (u64 z).
Proof. apply Z.mod_pos_bound. lia. Qed.

(** One carry, at most. *)
Lemma u64_add a b : is_u64 a -> is_u64 b ->
  u64 (a + b) = if a + b <? 2 ^ 64 then a + b else a + b - 2 ^ 64.
Proof.
  unfold is_u64, u64. intros Ha Hb. destruct (Z.ltb_spec (a + b) (2 ^ 64)).
  - apply Z.mod_small. lia.
  - symmetry. apply Z.mod_unique with 1; lia.
Qed.

Lemma u64_sub a b : is_u64 a -> is_u64 b ->
  u64 (a - b) = if b <=? a then a - b else a - b + 2 ^ 64.
Proof.
  unfold is_u64, u64. intros Ha Hb. destruct (Z.leb_spec b a).
  - apply Z.mod_small. lia.
  - symmetry. apply Z.mod_unique with (-1); lia.
Qed.

(** A number is bounded by its bits. *)
Lemma bits_bound z n : 0 <= z -> 0 <= n ->
  (z < 2 ^ n <-> forall i, n <= i -> Z.testbit z i = false).
Proof.
  intros Hz Hn. split.
  - intros Hlt i Hi. destruct (Z.eq_dec z 0) as [->|]; [apply Z.bits_0|].
    apply Z.bits_above_log2; [done|]. enough (Z.log2 z < n) by lia. apply Z.log2_lt_pow2; lia.
  - intros Hbits. destruct (Z.lt_ge_cases z (2 ^ n)) as [|Hge]; [done|]. exfalso.
    assert (0 < 2 ^ n) by (apply Z.pow_pos_nonneg; lia).
    specialize (Hbits (Z.log2 z)). rewrite Z.bit_log2 in Hbits by lia.
    enough (true = false) by done. apply Hbits. apply Z.log2_le_pow2; lia.
Qed.
End words.

#[export] Hint Resolve u8_range u16_range u32_range u64_range : kernel.
Create Rewrite HintDb words.
#[export] Hint Rewrite u8_small u16_small u32_small u64_small using (auto with kernel; fail) : words.

(** ** Sequences that stand for LIST_ENTRY queues *)

Section sequences.
Context {A : Type} `{EqDecision A}.
Implicit Types (l : list A) (x e : A).

(** The sequence a queue becomes when [e] is unlinked. *)
Definition unlink (e : A) (l : list A) : list A := filter (fun x => x <> e) l.

Lemma elem_of_unlink x e l : x ∈ unlink e l <-> x ∈ l /\ x <> e.
Proof. unfold unlink. rewrite list_elem_of_filter. tauto. Qed.

Lemma NoDup_unlink e l : NoDup l -> NoDup (unlink e l).
Proof. apply NoDup_filter. Qed.

Lemma filter_all (P : A -> Prop) `{!forall x, Decision (P x)} l :
  (forall x, x ∈ l -> P x) -> filter P l = l.
Proof.
  induction l as [|y l IH]; intros HP; [done|].
  rewrite filter_cons_True by (apply HP; left). f_equal. apply IH. intros x Hx.
  apply HP. by right.
Qed.

Lemma unlink_not_elem e l : e ∉ l -> unlink e l = l.
Proof. intros He. apply filter_all. by intros x Hx ->. Qed.

Lemma unlink_middle l1 l2 e :
  NoDup (l1 ++ e :: l2) -> unlink e (l1 ++ e :: l2) = l1 ++ l2.
Proof.
  rewrite NoDup_app, NoDup_cons. intros (_ & Hd & H2 & _). unfold unlink.
  rewrite filter_app, filter_cons_False by naive_solver.
  f_equal; apply unlink_not_elem; [|done]. intros He. apply (Hd e He). left.
Qed.

Lemma unlink_head e l : NoDup (e :: l) -> unlink e (e :: l) = l.
Proof. apply (unlink_middle []). Qed.

Lemma length_unlink e l : NoDup l -> e ∈ l -> length l = S (length (unlink e l)).
Proof.
  intros Hd (l1 & l2 & ->)%list_elem_of_split. rewrite unlink_middle by done.
  rewrite !length_app. simpl. lia.
Qed.
End sequences.

#[export] Hint Resolve NoDup_unlink : kernel.

Lemma StronglySorted_nth {A} (R : A -> A -> Prop) (l : list A) (i j : nat) (x y : A) :
  StronglySorted R l -> (i < j)%nat -> l !! i = Some x -> l !! j = Some y -> R x y.
Proof.
  intros Hl. revert i j. induction Hl as [|z l Hl IH Hall]; intros i j Hij Hx Hy; [done|].
  destruct j as [|j]; [lia|]. destruct i as [|i]; simpl in Hx, Hy.
  - injection Hx as ->. rewrite Forall_forall in Hall. apply Hall. by eapply list_elem_of_lookup_2.
  - apply (IH i j); [lia|done..].
Qed.

(** ** Loops over a sequence *)

Section loops.
Context {A St : Type}.

(** [for (x in l) s = f(s, x);] *)
Fixpoint foldM (f : St -> A -> outcome St) (s : St) (l : list A) : outcome St :=
  match l with
  | [] => Ok s
  | x :: l' => s' ← f s x; foldM f s' l'
  end.

(** [for (x in l) f(x);] where [f] only asserts. *)
Fixpoint checkM (f : A -> outcome unit) (l : list A) : outcome unit :=
  match l with
  | [] => Ok tt
  | x :: l' => _ ← f x; checkM f l'
  end.

Lemma checkM_Ok f l : checkM f l = Ok tt <-> forall x, x ∈ l -> f x = Ok tt.
Proof.
  induction l as [|y l IH]; simpl; [split; [intros _ x Hx; by apply elem_of_nil in Hx|done]|].
  rewrite bind_Ok. split.
  - intros ([] & Hy & Hl) x [->|Hx]%elem_of_cons; [done|by apply IH].
  - intros Hall. exists tt. split; [apply Hall; left|]. apply IH. intros x Hx. apply Hall. by right.
Qed.

(** A loop keeps an invariant that may mention the elements still to come. *)
Lemma foldM_inv (P : St -> list A -> Prop) f s l :
  P s l ->
  (forall s x l', P s (x :: l') -> returns (f s x) (fun s' => P s' l')) ->
  returns (foldM f s l) (fun s' => P s' []).
Proof.
  intros Hs Hstep. revert s Hs. induction l as [|x l IH]; intros s Hs; [done|].
  simpl. apply returns_bind. eapply returns_mono; [by apply Hstep|]. auto.
Qed.
End loops.
