(* ===== verification/NtStatus.v ===== *)
(** * NTSTATUS: the status codes the modelled code returns (abi/ntstatus.h).

    An [NTSTATUS] is a signed 32-bit integer; [NT_SUCCESS] is the sign test of
    abi/ntdef.h, so the 0xC... codes are negative here as they are in C. *)

From S2P Require Import Prelude.

Abbreviation NTSTATUS := Z (only parsing).

Definition STATUS_SUCCESS : NTSTATUS := Eval cbv in s32 0x00000000.
Definition STATUS_WAIT_0 : NTSTATUS := Eval cbv in s32 0x00000000.
Definition STATUS_ABANDONED_WAIT_0 : NTSTATUS := Eval cbv in s32 0x00000080.
Definition STATUS_USER_APC : NTSTATUS := Eval cbv in s32 0x000000C0.
Definition STATUS_ALERTED : NTSTATUS := Eval cbv in s32 0x00000101.
Definition STATUS_TIMEOUT : NTSTATUS := Eval cbv in s32 0x00000102.
Definition STATUS_MORE_ENTRIES : NTSTATUS := Eval cbv in s32 0x00000105.
Definition STATUS_UNSUCCESSFUL : NTSTATUS := Eval cbv in s32 0xC0000001.
Definition STATUS_NOT_IMPLEMENTED : NTSTATUS := Eval cbv in s32 0xC0000002.
Definition STATUS_INVALID_INFO_CLASS : NTSTATUS := Eval cbv in s32 0xC0000003.
Definition STATUS_INFO_LENGTH_MISMATCH : NTSTATUS := Eval cbv in s32 0xC0000004.
Definition STATUS_ACCESS_VIOLATION : NTSTATUS := Eval cbv in s32 0xC0000005.
Definition STATUS_INVALID_HANDLE : NTSTATUS := Eval cbv in s32 0xC0000008.
Definition STATUS_INVALID_PARAMETER : NTSTATUS := Eval cbv in s32 0xC000000D.
Definition STATUS_INVALID_DEVICE_REQUEST : NTSTATUS := Eval cbv in s32 0xC0000010.
Definition STATUS_NO_MEMORY : NTSTATUS := Eval cbv in s32 0xC0000017.
Definition STATUS_INVALID_FILE_FOR_SECTION : NTSTATUS := Eval cbv in s32 0xC0000020.
Definition STATUS_ACCESS_DENIED : NTSTATUS := Eval cbv in s32 0xC0000022.
Definition STATUS_BUFFER_TOO_SMALL : NTSTATUS := Eval cbv in s32 0xC0000023.
Definition STATUS_OBJECT_TYPE_MISMATCH : NTSTATUS := Eval cbv in s32 0xC0000024.
Definition STATUS_OBJECT_NAME_INVALID : NTSTATUS := Eval cbv in s32 0xC0000033.
Definition STATUS_OBJECT_NAME_NOT_FOUND : NTSTATUS := Eval cbv in s32 0xC0000034.
Definition STATUS_THREAD_IS_TERMINATING : NTSTATUS := Eval cbv in s32 0xC000004B.
Definition STATUS_FILE_LOCK_CONFLICT : NTSTATUS := Eval cbv in s32 0xC0000054.
Definition STATUS_UNKNOWN_REVISION : NTSTATUS := Eval cbv in s32 0xC0000058.
Definition STATUS_PRIVILEGE_NOT_HELD : NTSTATUS := Eval cbv in s32 0xC0000061.
Definition STATUS_INVALID_SECURITY_DESCR : NTSTATUS := Eval cbv in s32 0xC0000079.
Definition STATUS_INVALID_IMAGE_FORMAT : NTSTATUS := Eval cbv in s32 0xC000007B.
Definition STATUS_RANGE_NOT_LOCKED : NTSTATUS := Eval cbv in s32 0xC000007E.
Definition STATUS_DISK_FULL : NTSTATUS := Eval cbv in s32 0xC000007F.
Definition STATUS_INSUFFICIENT_RESOURCES : NTSTATUS := Eval cbv in s32 0xC000009A.
Definition STATUS_GENERIC_NOT_MAPPED : NTSTATUS := Eval cbv in s32 0xC00000E6.
Definition STATUS_INVALID_IMAGE_NOT_MZ : NTSTATUS := Eval cbv in s32 0xC000012F.
Definition STATUS_NOT_SAME_OBJECT : NTSTATUS := Eval cbv in s32 0xC00001AC.
Definition STATUS_INVALID_BUFFER_SIZE : NTSTATUS := Eval cbv in s32 0xC0000206.
Definition STATUS_HANDLE_NOT_CLOSABLE : NTSTATUS := Eval cbv in s32 0xC0000235.
Definition STATUS_NO_IMPERSONATION_TOKEN : NTSTATUS := Eval cbv in s32 0xC000005C.
Definition STATUS_BAD_IMPERSONATION_LEVEL : NTSTATUS := Eval cbv in s32 0xC00000A5.
Definition STATUS_DATATYPE_MISALIGNMENT : NTSTATUS := Eval cbv in s32 0x80000002.
Definition STATUS_SHARING_VIOLATION : NTSTATUS := Eval cbv in s32 0xC0000043.
Definition STATUS_CANNOT_DELETE : NTSTATUS := Eval cbv in s32 0xC0000121.
Definition STATUS_USER_MAPPED_FILE : NTSTATUS := Eval cbv in s32 0xC0000243.

Definition STATUS_BUFFER_OVERFLOW : NTSTATUS := Eval cbv in s32 0x80000005.
Definition STATUS_CANT_DISABLE_MANDATORY : NTSTATUS := Eval cbv in s32 0xC000005D.
Definition STATUS_CANT_OPEN_ANONYMOUS : NTSTATUS := Eval cbv in s32 0xC00000A6.
Definition STATUS_INVALID_ACL : NTSTATUS := Eval cbv in s32 0xC0000077.
Definition STATUS_INVALID_PARAMETER_1 : NTSTATUS := Eval cbv in s32 0xC00000EF.
Definition STATUS_INVALID_PARAMETER_2 : NTSTATUS := Eval cbv in s32 0xC00000F0.
Definition STATUS_IN_PAGE_ERROR : NTSTATUS := Eval cbv in s32 0xC0000006.
Definition STATUS_MUTANT_NOT_OWNED : NTSTATUS := Eval cbv in s32 0xC0000046.
Definition STATUS_NAME_TOO_LONG : NTSTATUS := Eval cbv in s32 0xC0000106.
Definition STATUS_NOT_ALL_ASSIGNED : NTSTATUS := Eval cbv in s32 0x00000106.
Definition STATUS_SEMAPHORE_LIMIT_EXCEEDED : NTSTATUS := Eval cbv in s32 0xC0000047.
Definition STATUS_UNRECOGNIZED_VOLUME : NTSTATUS := Eval cbv in s32 0xC000014F.
Definition STATUS_NOT_REGISTRY_FILE : NTSTATUS := Eval cbv in s32 0xC000015C.
Definition STATUS_KEY_DELETED : NTSTATUS := Eval cbv in s32 0xC000017C.
Definition STATUS_CHILD_MUST_BE_VOLATILE : NTSTATUS := Eval cbv in s32 0xC0000181.
Definition STATUS_OBJECT_NAME_COLLISION : NTSTATUS := Eval cbv in s32 0xC0000035.
Definition STATUS_OBJECT_PATH_SYNTAX_BAD : NTSTATUS := Eval cbv in s32 0xC000003B.
Definition STATUS_OBJECT_PATH_NOT_FOUND : NTSTATUS := Eval cbv in s32 0xC000003A.
Definition STATUS_OBJECT_NAME_EXISTS : NTSTATUS := Eval cbv in s32 0x40000000.
Definition STATUS_CANCELLED : NTSTATUS := Eval cbv in s32 0xC0000120.
Definition STATUS_PENDING : NTSTATUS := Eval cbv in s32 0x00000103.
Definition STATUS_NO_MORE_ENTRIES : NTSTATUS := Eval cbv in s32 0x8000001A.

Definition NT_SUCCESS (status : NTSTATUS) : bool := 0 <=? status.
