(* ===== verification/ListEntry.v ===== *)
(** * ListEntry: NT's circular doubly-linked lists (kernel/lib/list.h).

    Every queue of the kernel is threaded on [LIST_ENTRY] cells.  The
    operations are modelled on a heap of cells; [is_list] says which cells a
    list head heads, in order, and the theorems show each operation to be the
    expected operation on that sequence.  The other files model a
    [LIST_ENTRY] queue by the sequence itself, on the strength of these
    theorems. *)

From S2P Require Import Prelude.

(** ** Cells and operations *)

Record LIST_ENTRY := mkLIST_ENTRY { Flink : addr; Blink : addr }.

#[export] Instance eta_LIST_ENTRY : Eta LIST_ENTRY :=
  {| eta_expand := fun e => mkLIST_ENTRY (Flink e) (Blink e) |}.

Abbreviation list_heap := (gmap Z LIST_ENTRY).

Definition load (h : list_heap) (p : addr) : outcome LIST_ENTRY :=
  deref (h !! p) "LIST_ENTRY".

Definition set_Flink (h : list_heap) (p v : addr) : outcome list_heap :=
  e ← load h p; Ok (<[p := e <| Flink := v |>]> h).

Definition set_Blink (h : list_heap) (p v : addr) : outcome list_heap :=
  e ← load h p; Ok (<[p := e <| Blink := v |>]> h).

(** [ASSERT(a->Flink == x && b->Blink == y)] *)
Definition assert_links (h : list_heap) (a x b y : addr) (why : string) : outcome unit :=
  ea ← load h a; eb ← load h b;
  ASSERT ((Flink ea =? x) && (Blink eb =? y)) why.

Definition InitializeListHead (h : list_heap) (head : addr) : outcome list_heap :=
  h1 ← set_Flink h head head; set_Blink h1 head head.

Definition IsListEmpty (h : list_heap) (head : addr) : outcome bool :=
  e ← load h head; Ok (Flink e =? head).

Definition InsertTailList (h : list_heap) (head entry : addr) : outcome list_heap :=
  eh ← load h head;
  let last := Blink eh in
  _ ← assert_links h last head (Flink eh) head "list corruption";
  h1 ← set_Flink h entry head;
  h2 ← set_Blink h1 entry last;
  h3 ← set_Flink h2 last entry;
  set_Blink h3 head entry.

Definition InsertHeadList (h : list_heap) (head entry : addr) : outcome list_heap :=
  eh ← load h head;
  let first := Flink eh in
  _ ← assert_links h (Blink eh) head first head "list corruption";
  h1 ← set_Flink h entry first;
  h2 ← set_Blink h1 entry head;
  h3 ← set_Blink h2 first entry;
  set_Flink h3 head entry.

Definition RemoveEntryList (h : list_heap) (entry : addr) : outcome (bool * list_heap) :=
  e ← load h entry;
  let previous := Blink e in
  let next := Flink e in
  _ ← assert_links h previous entry next entry "double remove";
  h1 ← set_Flink h previous next;
  h2 ← set_Blink h1 next previous;
  Ok (previous =? next, h2).

Definition RemoveHeadList (h : list_heap) (head : addr) : outcome (addr * list_heap) :=
  eh ← load h head;
  let entry := Flink eh in
  empty ← IsListEmpty h head;
  _ ← ASSERT (negb empty) "RemoveHeadList: empty list";
  '(_, h1) ← RemoveEntryList h entry;
  Ok (entry, h1).

(** ** The sequence a head heads *)

Definition next_of (h : list_heap) (p : addr) : option addr := Flink <$> h !! p.
Definition prev_of (h : list_heap) (p : addr) : option addr := Blink <$> h !! p.

Definition link (h : list_heap) (p q : addr) : Prop :=
  next_of h p = Some q /\ prev_of h q = Some p.

Fixpoint chain (h : list_heap) (p : addr) (l : list addr) (q : addr) : Prop :=
  match l with
  | [] => link h p q
  | x :: l' => link h p x /\ chain h x l' q
  end.

Definition is_list (h : list_heap) (head : addr) (l : list addr) : Prop :=
  NoDup (head :: l) /\ chain h head l head.

(** Two lists share no cell. *)
Definition apart (head : addr) (l : list addr) (head' : addr) (l' : list addr) : Prop :=
  forall x, x ∈ head :: l -> x ∈ head' :: l' -> False.

(** [h'] has the cells of [h], and leaves every list alone that shares no cell
    with [head :: l]. *)
Definition frames (h h' : list_heap) (head : addr) (l : list addr) : Prop :=
  (forall x, is_Some (h' !! x) <-> is_Some (h !! x)) /\
  (forall head' l', apart head' l' head l -> is_list h head' l' -> is_list h' head' l').

Section lemmas.
Implicit Types (h : list_heap) (l : list addr).

Lemma set_Flink_spec h p v :
  is_Some (h !! p) ->
  returns (set_Flink h p v) (fun h' =>
    (forall x, next_of h' x = if decide (x = p) then Some v else next_of h x) /\
    (forall x, prev_of h' x = prev_of h x) /\ (forall x, is_Some (h' !! x) <-> is_Some (h !! x))).
Proof.
  intros [e He]. unfold set_Flink, load, next_of, prev_of. rewrite He. simpl.
  split_and!; intros x.
  - case_decide; [subst; by rewrite lookup_insert_eq|by rewrite lookup_insert_ne].
  - destruct (decide (x = p)) as [->|]; [by rewrite lookup_insert_eq, He|by rewrite lookup_insert_ne].
  - rewrite lookup_insert_is_Some. destruct (decide (p = x)) as [->|]; naive_solver.
Qed.

Lemma set_Blink_spec h p v :
  is_Some (h !! p) ->
  returns (set_Blink h p v) (fun h' =>
    (forall x, prev_of h' x = if decide (x = p) then Some v else prev_of h x) /\
    (forall x, next_of h' x = next_of h x) /\ (forall x, is_Some (h' !! x) <-> is_Some (h !! x))).
Proof.
  intros [e He]. unfold set_Blink, load, next_of, prev_of. rewrite He. simpl.
  split_and!; intros x.
  - case_decide; [subst; by rewrite lookup_insert_eq|by rewrite lookup_insert_ne].
  - destruct (decide (x = p)) as [->|]; [by rewrite lookup_insert_eq, He|by rewrite lookup_insert_ne].
  - rewrite lookup_insert_is_Some. destruct (decide (p = x)) as [->|]; naive_solver.
Qed.

Lemma next_of_Some h p q : next_of h p = Some q <-> exists e, h !! p = Some e /\ Flink e = q.
Proof. unfold next_of. rewrite fmap_Some. naive_solver. Qed.
Lemma prev_of_Some h p q : prev_of h p = Some q <-> exists e, h !! p = Some e /\ Blink e = q.
Proof. unfold prev_of. rewrite fmap_Some. naive_solver. Qed.

Lemma next_of_is_Some h p q : next_of h p = Some q -> is_Some (h !! p).
Proof. rewrite next_of_Some. naive_solver. Qed.

Lemma prev_of_is_Some h p q : prev_of h p = Some q -> is_Some (h !! p).
Proof. rewrite prev_of_Some. naive_solver. Qed.

Lemma assert_links_ok h a x b y why :
  next_of h a = Some x -> prev_of h b = Some y -> assert_links h a x b y why = Ok tt.
Proof.
  unfold assert_links, load, next_of, prev_of.
  destruct (h !! a) as [ea|], (h !! b) as [eb|]; simpl; intros; simplify_eq.
  by rewrite !Z.eqb_refl.
Qed.
End lemmas.

(** ** Linking an entry in, and out, of a ring *)

(** Links along [p :: l], with no closing link. *)
Fixpoint seg (h : list_heap) (p : addr) (l : list addr) : Prop :=
  match l with
  | [] => True
  | x :: l' => link h p x /\ seg h x l'
  end.

Section seg.
Implicit Types (h : list_heap) (l : list addr).

Lemma chain_seg h p l q : chain h p l q <-> seg h p (l ++ [q]).
Proof. revert p. induction l as [|x l IH]; intros p; simpl; [tauto|]. by rewrite IH. Qed.

Lemma seg_app h p l1 b m :
  seg h p (l1 ++ b :: m) <->
  exists a, last (p :: l1) = Some a /\ seg h p l1 /\ link h a b /\ seg h b m.
Proof.
  revert p. induction l1 as [|x l1 IH]; intros p; simpl; [naive_solver|].
  rewrite IH. simpl. naive_solver.
Qed.

Lemma seg_ext h h' p l :
  (forall x, x ∈ removelast (p :: l) -> next_of h' x = next_of h x) ->
  (forall x, x ∈ l -> prev_of h' x = prev_of h x) ->
  seg h p l -> seg h' p l.
Proof.
  revert p. induction l as [|y l IH]; intros p Hn Hp; [done|]. simpl. intros [[H1 H2] Hs].
  split.
  - split; [rewrite Hn|rewrite Hp]; try done; simpl; left.
  - apply IH; [|set_solver|done]. intros x Hx. apply Hn. simpl. by right.
Qed.

Lemma removelast_not_last l x p :
  NoDup l -> last l = Some p -> x ∈ removelast l -> x <> p.
Proof.
  destruct l as [|y l _] using rev_ind; [done|].
  rewrite last_snoc, removelast_last, NoDup_app. intros (_ & Hd & _) [= ->] Hx ->.
  apply (Hd p); set_solver.
Qed.

Lemma NoDup_middle l1 l2 x e :
  NoDup (x :: l1 ++ e :: l2) <-> e ∉ x :: l1 ++ l2 /\ NoDup (x :: l1 ++ l2).
Proof.
  rewrite !(app_comm_cons _ _ x), <- Permutation_middle, NoDup_cons. done.
Qed.

Lemma removelast_elem l x : x ∈ removelast l -> x ∈ l.
Proof.
  destruct l as [|y l _] using rev_ind; [done|]. rewrite removelast_last. set_solver.
Qed.

Lemma is_list_frame h h' head l (P : addr -> Prop) :
  (forall x, ~ P x -> next_of h' x = next_of h x) ->
  (forall x, ~ P x -> prev_of h' x = prev_of h x) ->
  (forall x, x ∈ head :: l -> ~ P x) ->
  is_list h head l -> is_list h' head l.
Proof.
  intros Hn Hp HP [Hd Hc]. split; [done|]. rewrite chain_seg in *.
  eapply seg_ext; [..|exact Hc]; intros x Hx.
  - apply Hn, HP. rewrite app_comm_cons, removelast_last in Hx. done.
  - apply Hp, HP. set_solver.
Qed.

(** The two neighbours of a list head. *)
Lemma is_list_ends h head l :
  is_list h head l ->
  exists e, h !! head = Some e /\ list.head (l ++ [head]) = Some (Flink e) /\
    last (head :: l) = Some (Blink e) /\
    next_of h (Blink e) = Some head /\ prev_of h (Flink e) = Some head.
Proof.
  intros [_ Hc]. rewrite chain_seg in Hc. pose proof Hc as Hc'.
  apply seg_app in Hc' as (a & Ha & _ & [Hna Hpa] & _).
  apply prev_of_Some in Hpa as (e & He & <-). exists e.
  assert (Hf : next_of h head = Some (Flink e)) by (unfold next_of; by rewrite He).
  destruct (l ++ [head]) as [|y m] eqn:El; [by destruct l|]. destruct Hc as [[Hny Hpy] _].
  simplify_eq/=. naive_solver.
Qed.
End seg.

Section ring.
Context (h h' : list_heap) (head0 entry : addr) (l1 l2 : list addr) (p q : addr).
Hypothesis Hp : last (head0 :: l1) = Some p.
Hypothesis Hq : head (l2 ++ [head0]) = Some q.

Lemma ring_tail : exists m, l2 ++ [head0] = q :: m /\ removelast (q :: m) = l2.
Proof.
  destruct (l2 ++ [head0]) as [|q' m] eqn:E; [done|]. injection Hq as ->.
  exists m. split; [done|]. by rewrite <- E, removelast_last.
Qed.

(** Outside the four changed links nothing else moved. *)
Lemma ring_halves :
  NoDup (head0 :: l1 ++ l2) ->
  (forall x, x <> p -> x ∈ head0 :: l1 ++ l2 -> next_of h' x = next_of h x) ->
  (forall x, x <> q -> x ∈ head0 :: l1 ++ l2 -> prev_of h' x = prev_of h x) ->
  forall m, l2 ++ [head0] = q :: m ->
  seg h head0 l1 -> seg h q m -> seg h' head0 l1 /\ seg h' q m.
Proof.
  intros Hd Hn Hb m Em H1 H2.
  assert (Hp' : p ∈ head0 :: l1) by (apply last_Some_elem_of; done).
  assert (Hd1 : NoDup (head0 :: l1)) by (rewrite app_comm_cons, NoDup_app in Hd; tauto).
  assert (Hd2 : NoDup (l2 ++ [head0])).
  { rewrite NoDup_cons, NoDup_app in Hd. apply NoDup_app. split_and!; [tauto|set_solver|].
    apply NoDup_singleton. }
  assert (Hdisj : forall x, x ∈ l2 -> x ∉ head0 :: l1).
  { rewrite app_comm_cons, NoDup_app in Hd. set_solver. }
  assert (Hq' : q ∈ l2 ++ [head0]) by (rewrite Em; left).
  assert (Hm : forall x, x ∈ m -> x <> q /\ x ∈ l2 ++ [head0]).
  { rewrite Em in Hd2 |- *. apply NoDup_cons in Hd2. set_solver. }
  split; [eapply seg_ext; [..|exact H1]|eapply seg_ext; [..|exact H2]]; intros x Hx.
  - apply Hn; [by apply (removelast_not_last (head0 :: l1))|]. apply removelast_elem in Hx. set_solver.
  - apply Hb; [|set_solver]. intros ->. apply NoDup_cons in Hd1. set_solver.
  - rewrite <- Em, removelast_last in Hx. apply Hn; [|set_solver].
    intros ->. by apply (Hdisj p).
  - destruct (Hm x Hx). apply Hb; [done|set_solver].
Qed.

Lemma ring_insert :
  entry ∉ head0 :: l1 ++ l2 ->
  (forall x, next_of h' x = if decide (x = p) then Some entry
                            else if decide (x = entry) then Some q else next_of h x) ->
  (forall x, prev_of h' x = if decide (x = q) then Some entry
                            else if decide (x = entry) then Some p else prev_of h x) ->
  is_list h head0 (l1 ++ l2) -> is_list h' head0 (l1 ++ entry :: l2).
Proof.
  intros Hfresh Hn Hb [Hd Hc].
  destruct ring_tail as (m & Em & _).
  assert (p ∈ head0 :: l1) by (apply last_Some_elem_of; done).
  assert (q ∈ l2 ++ [head0]) by (rewrite Em; left).
  rewrite chain_seg, <- app_assoc, Em, seg_app in Hc. destruct Hc as (a & Ha & H1 & _ & H2).
  assert (a = p) as -> by congruence.
  destruct (ring_halves Hd) with (m := m) as [H1' H2']; try done.
  { intros x ??. rewrite Hn. repeat case_decide; set_solver. }
  { intros x ??. rewrite Hb. repeat case_decide; set_solver. }
  split.
  - by apply NoDup_middle.
  - rewrite chain_seg, <- app_assoc. simpl. rewrite Em, seg_app. exists p.
    assert (entry <> p) by set_solver. assert (entry <> q) by set_solver.
    simpl. unfold link. rewrite !Hn, !Hb. by repeat case_decide.
Qed.

Lemma ring_remove :
  (forall x, next_of h' x = if decide (x = p) then Some q else next_of h x) ->
  (forall x, prev_of h' x = if decide (x = q) then Some p else prev_of h x) ->
  is_list h head0 (l1 ++ entry :: l2) -> is_list h' head0 (l1 ++ l2).
Proof.
  intros Hn Hb [Hd Hc].
  destruct ring_tail as (m & Em & _).
  rewrite chain_seg, <- app_assoc in Hc. simpl in Hc. rewrite Em, seg_app in Hc.
  destruct Hc as (a & Ha & H1 & _ & [_ H2]).
  assert (a = p) as -> by congruence.
  assert (Hd' : NoDup (head0 :: l1 ++ l2)).
  { by apply NoDup_middle in Hd as [_ ?]. }
  destruct (ring_halves Hd') with (m := m) as [H1' H2']; try done.
  { intros x ??. rewrite Hn. repeat case_decide; set_solver. }
  { intros x ??. rewrite Hb. repeat case_decide; set_solver. }
  split; [done|]. rewrite chain_seg, <- app_assoc, Em, seg_app. exists p.
  unfold link. rewrite !Hn, !Hb. by repeat case_decide.
Qed.
End ring.

(** ** The operations on sequences *)

Section operations.
Implicit Types (h : list_heap) (l : list addr).

Lemma frames_changed h h' head l :
  (forall x, is_Some (h' !! x) <-> is_Some (h !! x)) ->
  (forall x, x ∉ head :: l -> next_of h' x = next_of h x) ->
  (forall x, x ∉ head :: l -> prev_of h' x = prev_of h x) ->
  frames h h' head l.
Proof.
  intros Hd Hn Hp. split; [done|]. intros head' l' Hap Hl.
  eapply (is_list_frame h h' head' l' (fun x => x ∈ head :: l)); [set_solver..| |done].
  intros x ??. by apply (Hap x).
Qed.

(** The store sequence of an insertion between [p] and [q], in either order
    of the two neighbours. *)
Lemma insert_between h h' head l1 l2 entry p q :
  is_list h head (l1 ++ l2) -> entry ∉ head :: l1 ++ l2 ->
  (forall x, is_Some (h' !! x) <-> is_Some (h !! x)) ->
  last (head :: l1) = Some p -> list.head (l2 ++ [head]) = Some q ->
  (forall x, next_of h' x = if decide (x = p) then Some entry
                            else if decide (x = entry) then Some q else next_of h x) ->
  (forall x, prev_of h' x = if decide (x = q) then Some entry
                            else if decide (x = entry) then Some p else prev_of h x) ->
  is_list h' head (l1 ++ entry :: l2) /\ frames h h' head (l1 ++ entry :: l2).
Proof.
  intros Hl Hf Hd Hp Hq Hn Hb. split; [by eapply ring_insert|].
  assert (p ∈ head :: l1) by (apply last_Some_elem_of; done).
  assert (q ∈ l2 ++ [head]) by (apply head_Some_elem_of; done).
  apply frames_changed; [done|..]; intros x Hx; rewrite ?Hn, ?Hb;
    repeat case_decide; set_solver.
Qed.

Lemma InitializeListHead_list h head :
  is_Some (h !! head) -> returns (InitializeListHead h head) (fun h' =>
    is_list h' head [] /\ frames h h' head []).
Proof.
  intros Hh. unfold InitializeListHead.
  apply returns_bind. eapply returns_mono; [by apply set_Flink_spec|].
  intros h1 (Hn1 & Hp1 & Hd1). eapply returns_mono; [apply set_Blink_spec; by apply Hd1|].
  intros h2 (Hp2 & Hn2 & Hd2). split.
  - split; [apply NoDup_singleton|]. simpl. unfold link. rewrite Hn2, Hn1, Hp2.
    by repeat case_decide.
  - apply frames_changed; [intros x; by rewrite Hd2, Hd1|..];
      intros x Hx; rewrite ?Hn2, ?Hn1, ?Hp2, ?Hp1; case_decide; set_solver.
Qed.

Lemma IsListEmpty_list h head l :
  is_list h head l -> IsListEmpty h head = Ok (bool_decide (l = [])).
Proof.
  intros Hl. destruct (is_list_ends _ _ _ Hl) as (e & He & Hl' & _).
  unfold IsListEmpty, load. rewrite He. simpl. f_equal.
  destruct Hl as [Hd _]. destruct l as [|y l]; simplify_eq/=; [by rewrite Z.eqb_refl|].
  apply NoDup_cons in Hd as [Hd _]. apply Z.eqb_neq. set_solver.
Qed.

Lemma InsertTailList_list h head l entry :
  is_list h head l -> is_Some (h !! entry) -> entry ∉ head :: l ->
  returns (InsertTailList h head entry) (fun h' =>
    is_list h' head (l ++ [entry]) /\ frames h h' head (l ++ [entry])).
Proof.
  intros Hl He Hf. destruct (is_list_ends _ _ _ Hl) as (eh & Hh & Hhd & Hlast & Hn & Hp).
  assert (is_Some (h !! Blink eh)) by (by eapply next_of_is_Some).
  unfold InsertTailList, load. rewrite Hh. cbn [deref mbind outcome_bind].
  rewrite assert_links_ok by done. cbn [mbind outcome_bind].
  apply returns_bind. eapply returns_mono; [by apply set_Flink_spec|].
  intros h1 (Hn1 & Hp1 & Hd1).
  apply returns_bind. eapply returns_mono; [apply set_Blink_spec; by apply Hd1|].
  intros h2 (Hp2 & Hn2 & Hd2).
  apply returns_bind. eapply returns_mono; [apply set_Flink_spec; by apply Hd2, Hd1|].
  intros h3 (Hn3 & Hp3 & Hd3).
  eapply returns_mono; [apply set_Blink_spec; by apply Hd3, Hd2, Hd1|].
  intros h4 (Hp4 & Hn4 & Hd4).
  apply (insert_between h h4 head l [] entry (Blink eh) head); rewrite ?app_nil_r; try done.
  - intros x. by rewrite Hd4, Hd3, Hd2, Hd1.
  - intros x. by rewrite Hn4, Hn3, Hn2, Hn1.
  - intros x. by rewrite Hp4, Hp3, Hp2, Hp1.
Qed.

Lemma InsertHeadList_list h head l entry :
  is_list h head l -> is_Some (h !! entry) -> entry ∉ head :: l ->
  returns (InsertHeadList h head entry) (fun h' =>
    is_list h' head (entry :: l) /\ frames h h' head (entry :: l)).
Proof.
  intros Hl He Hf. destruct (is_list_ends _ _ _ Hl) as (eh & Hh & Hhd & Hlast & Hn & Hp).
  assert (is_Some (h !! Flink eh)) by (by eapply prev_of_is_Some).
  unfold InsertHeadList, load. rewrite Hh. cbn [deref mbind outcome_bind].
  rewrite assert_links_ok by done. cbn [mbind outcome_bind].
  apply returns_bind. eapply returns_mono; [by apply set_Flink_spec|].
  intros h1 (Hn1 & Hp1 & Hd1).
  apply returns_bind. eapply returns_mono; [apply set_Blink_spec; by apply Hd1|].
  intros h2 (Hp2 & Hn2 & Hd2).
  apply returns_bind. eapply returns_mono; [apply set_Blink_spec; by apply Hd2, Hd1|].
  intros h3 (Hp3 & Hn3 & Hd3).
  eapply returns_mono; [apply set_Flink_spec; by apply Hd3, Hd2, Hd1|].
  intros h4 (Hn4 & Hp4 & Hd4).
  apply (insert_between h h4 head [] l entry head (Flink eh)); try done.
  - intros x. by rewrite Hd4, Hd3, Hd2, Hd1.
  - intros x. by rewrite Hn4, Hn3, Hn2, Hn1.
  - intros x. by rewrite Hp4, Hp3, Hp2, Hp1.
Qed.
End operations.

Section removal.
Implicit Types (h : list_heap) (l : list addr).

(** The neighbours of an entry that is on a list. *)
Lemma is_list_entry h head l1 entry l2 :
  is_list h head (l1 ++ entry :: l2) ->
  exists e, h !! entry = Some e /\ list.head (l2 ++ [head]) = Some (Flink e) /\
    last (head :: l1) = Some (Blink e) /\
    next_of h (Blink e) = Some entry /\ prev_of h (Flink e) = Some entry.
Proof.
  intros [_ Hc]. rewrite chain_seg, <- app_assoc in Hc. simpl in Hc.
  apply seg_app in Hc as (a & Ha & _ & [Hna Hpa] & Hc).
  apply prev_of_Some in Hpa as (e & He & <-). exists e.
  assert (Hf : next_of h entry = Some (Flink e)) by (unfold next_of; by rewrite He).
  destruct (l2 ++ [head]) as [|y m] eqn:El; [by destruct l2|].
  destruct Hc as [[Hny Hpy] _]. simplify_eq/=. naive_solver.
Qed.

Lemma is_list_emptied h head l1 entry l2 e :
  is_list h head (l1 ++ entry :: l2) ->
  list.head (l2 ++ [head]) = Some (Flink e) -> last (head :: l1) = Some (Blink e) ->
  (Blink e =? Flink e) = bool_decide (l1 ++ l2 = []).
Proof.
  intros [Hd _] Hhd Hlast. apply NoDup_middle in Hd as [_ Hd].
  destruct (l1 ++ l2) as [|y m] eqn:El.
  { apply app_nil in El as [-> ->]. injection Hhd as <-. injection Hlast as <-.
    by rewrite Z.eqb_refl. }
  apply Z.eqb_neq. intros Heq. rewrite <- El, app_comm_cons, NoDup_app in Hd.
  destruct Hd as (Hd1 & Hd2 & _). apply NoDup_cons in Hd1 as [Hd1 _].
  assert (Blink e = head) as Hbh.
  { apply last_Some_elem_of in Hlast. apply head_Some_elem_of in Hhd.
    rewrite <- Heq in Hhd. specialize (Hd2 _ Hlast). set_solver. }
  destruct l1 as [|x l1].
  - destruct l2 as [|x l2]; [done|]. injection Hhd as ->. apply (Hd2 head); [left|].
    rewrite <- Hbh, Heq. left.
  - rewrite Hbh in Hlast. apply (last_Some_elem_of (x :: l1)) in Hlast. set_solver.
Qed.

Lemma RemoveEntryList_list h head l1 entry l2 :
  is_list h head (l1 ++ entry :: l2) ->
  returns (RemoveEntryList h entry) (fun '(empty, h') =>
    is_list h' head (l1 ++ l2) /\ empty = bool_decide (l1 ++ l2 = []) /\
    frames h h' head (l1 ++ entry :: l2) /\
    exists e, h' !! entry = Some e /\ next_of h' (Blink e) = Some (Flink e) /\
      Flink e <> entry /\ is_Some (h' !! Flink e)).
Proof.
  intros Hl. destruct (is_list_entry _ _ _ _ _ Hl) as (e & He & Hhd & Hlast & Hn & Hp).
  assert (is_Some (h !! Blink e)) by (by eapply next_of_is_Some).
  assert (is_Some (h !! Flink e)) by (by eapply prev_of_is_Some).
  unfold RemoveEntryList, load. rewrite He. cbn [deref mbind outcome_bind].
  rewrite assert_links_ok by done. cbn [mbind outcome_bind].
  apply returns_bind. eapply returns_mono; [by apply set_Flink_spec|].
  intros h1 (Hn1 & Hp1 & Hd1).
  apply returns_bind. eapply returns_mono; [apply set_Blink_spec; by apply Hd1|].
  intros h2 (Hp2 & Hn2 & Hd2). simpl.
  assert (Hb : Blink e ∈ head :: l1) by (apply last_Some_elem_of; done).
  assert (Hf : Flink e ∈ l2 ++ [head]) by (apply head_Some_elem_of; done).
  pose proof Hl as [Hd _]. apply NoDup_middle in Hd as [Hnew Hd].
  assert (Hdom : forall x, is_Some (h2 !! x) <-> is_Some (h !! x)).
  { intros x. by rewrite Hd2, Hd1. }
  split_and!.
  - apply (ring_remove h h2 head entry l1 l2 (Blink e) (Flink e)); try done.
    + intros x. by rewrite Hn2, Hn1.
    + intros x. by rewrite Hp2, Hp1.
  - by eapply is_list_emptied.
  - apply frames_changed; [done|..]; intros x Hx; rewrite ?Hn2, ?Hn1, ?Hp2, ?Hp1;
      case_decide; set_solver.
  - assert (Hx : next_of h2 entry = next_of h entry /\ prev_of h2 entry = prev_of h entry).
    { rewrite Hn2, Hn1, Hp2, Hp1. repeat case_decide; set_solver. }
    unfold next_of, prev_of in Hx. rewrite He in Hx. destruct Hx as [Hx Hy].
    apply fmap_Some in Hx as (e' & E1 & Ef), Hy as (e'' & E2 & Eb). simplify_eq.
    exists e'. rewrite <- Ef, <- Eb, Hn2, Hn1, decide_True by done.
    split_and!; [done|done|set_solver|by apply Hdom].
Qed.

Lemma RemoveHeadList_list h head l entry :
  is_list h head (entry :: l) ->
  returns (RemoveHeadList h head) (fun '(x, h') =>
    x = entry /\ is_list h' head l /\ frames h h' head (entry :: l)).
Proof.
  intros Hl. destruct (is_list_ends _ _ _ Hl) as (eh & Hh & Hhd & _).
  unfold RemoveHeadList. rewrite (IsListEmpty_list _ _ _ Hl). unfold load. rewrite Hh. simpl.
  assert (Flink eh = entry) as -> by (by injection Hhd).
  apply returns_bind. eapply returns_mono; [by apply (RemoveEntryList_list _ head [])|].
  intros [b h'] (? & _ & ? & _). by split_and!.
Qed.
End removal.

(** ** Runs of operations

    A client of a list head issues insertions and removals; [heap_op] is one of
    them on the cells, [seq_op] on the sequence ([None] where the client breaks
    the list's contract: a double insert, a removal of an absent entry). *)

Inductive list_op :=
  | OpInsertTail (entry : addr)
  | OpInsertHead (entry : addr)
  | OpRemove (entry : addr)
  | OpRemoveHead.

Definition heap_op (head : addr) (h : list_heap) (op : list_op) : outcome list_heap :=
  match op with
  | OpInsertTail e => InsertTailList h head e
  | OpInsertHead e => InsertHeadList h head e
  | OpRemove e => '(_, h') ← RemoveEntryList h e; Ok h'
  | OpRemoveHead => '(_, h') ← RemoveHeadList h head; Ok h'
  end.

Fixpoint heap_run (head : addr) (h : list_heap) (ops : list list_op) : outcome list_heap :=
  match ops with
  | [] => Ok h
  | op :: ops' => h' ← heap_op head h op; heap_run head h' ops'
  end.

Definition seq_op (head : addr) (l : list addr) (op : list_op) : option (list addr) :=
  match op with
  | OpInsertTail e => if decide (e ∈ head :: l) then None else Some (l ++ [e])
  | OpInsertHead e => if decide (e ∈ head :: l) then None else Some (e :: l)
  | OpRemove e => if decide (e ∈ l) then Some (unlink e l) else None
  | OpRemoveHead => tail <$> (if decide (l = []) then None else Some l)
  end.

Fixpoint seq_run (head : addr) (l : list addr) (ops : list list_op) : option (list addr) :=
  match ops with
  | [] => Some l
  | op :: ops' => l' ← seq_op head l op; seq_run head l' ops'
  end.

Definition op_entry (op : list_op) : option addr :=
  match op with OpInsertTail e | OpInsertHead e => Some e | _ => None end.

Lemma heap_op_refines head h l op l' :
  is_list h head l -> (forall e, op_entry op = Some e -> is_Some (h !! e)) ->
  seq_op head l op = Some l' ->
  returns (heap_op head h op) (fun h' =>
    is_list h' head l' /\ forall x, is_Some (h' !! x) <-> is_Some (h !! x)).
Proof.
  intros Hl Hmem Hop. destruct op as [e|e|e|]; simpl in *.
  - case_decide; simplify_eq. eapply returns_mono; [apply InsertTailList_list; eauto|].
    intros h' (? & ? & _). done.
  - case_decide; simplify_eq. eapply returns_mono; [apply InsertHeadList_list; eauto|].
    intros h' (? & ? & _). done.
  - case_decide as He; simplify_eq. apply list_elem_of_split in He as (l1 & l2 & ->).
    apply returns_bind. eapply returns_mono; [by eapply RemoveEntryList_list|].
    intros [b h'] (? & _ & [? _] & _). simpl. rewrite unlink_middle; [done|].
    destruct Hl as [Hd _]. by apply NoDup_cons in Hd as [_ ?].
  - case_decide; simplify_eq/=. destruct l as [|e l]; [done|].
    apply returns_bind. eapply returns_mono; [by eapply RemoveHeadList_list|].
    intros [b h'] (_ & ? & ? & _). done.
Qed.

(** C28. Any run of list operations that keeps to the lists' contract (entries
    inserted once, only present entries removed) passes every corruption
    ASSERT of kernel/lib/list.h and leaves in memory exactly the sequence the
    run leaves on paper: the pointer lists refine sequences, which is what
    licenses the other files to model a LIST_ENTRY queue by a list. *)
Theorem list_run_refines head h l ops l' :
  is_list h head l ->
  (forall e op, op ∈ ops -> op_entry op = Some e -> is_Some (h !! e)) ->
  seq_run head l ops = Some l' ->
  returns (heap_run head h ops) (fun h' => is_list h' head l').
Proof.
  revert h l. induction ops as [|op ops IH]; intros h l Hl Hmem Hrun; simplify_eq/=; [done|].
  destruct (seq_op head l op) as [l1|] eqn:Hop; [|done]. simpl in Hrun.
  apply returns_bind. eapply returns_mono.
  - eapply heap_op_refines; [done| |done]. intros e He. eapply Hmem; [left|done].
  - intros h1 [Hl1 Hd]. eapply IH; [done| |done].
    intros e op' Hop' He. apply Hd. eapply Hmem; [by right|done].
Qed.

(** Three cells at 8, 16 and 24, and the run insert 16, insert 24 at the head,
    remove 16. *)
Definition demo_heap : list_heap :=
  <[8 := mkLIST_ENTRY 8 8]> (<[16 := mkLIST_ENTRY 0 0]> {[24 := mkLIST_ENTRY 0 0]}).

Lemma list_run_refines_witness :
  returns (heap_run 8 demo_heap [OpInsertTail 16; OpInsertHead 24; OpRemove 16])
    (fun h' => is_list h' 8 [24]).
Proof.
  apply (list_run_refines 8 demo_heap []).
  - split; [apply NoDup_singleton|]. by split.
  - intros e op Hop He. rewrite !elem_of_cons in Hop.
    destruct Hop as [->|[->|[->|Hop]]]; simplify_eq/=; [by eexists..|by apply not_elem_of_nil in Hop].
  - reflexivity.
Defined.

(** A removed entry cannot be removed again unnoticed: RemoveEntryList
    unlinks an entry of a list, says whether the list became empty, and a
    second RemoveEntryList on the same entry stops at the ASSERT. *)
Theorem RemoveEntryList_double_remove h head l1 entry l2 :
  is_list h head (l1 ++ entry :: l2) ->
  returns (RemoveEntryList h entry) (fun '(empty, h') =>
    is_list h' head (l1 ++ l2) /\ empty = bool_decide (l1 ++ l2 = []) /\
    RemoveEntryList h' entry = Panic "double remove").
Proof.
  intros Hl. eapply returns_mono; [by apply RemoveEntryList_list|].
  intros [empty h'] (? & ? & _ & e & He & Hn & Hne & [f Hf]). split_and!; [done..|].
  apply next_of_Some in Hn as (b & Hb & Hbf).
  unfold RemoveEntryList, assert_links, load. rewrite He. simpl. rewrite Hb. simpl.
  rewrite Hf. simpl. rewrite Hbf. by rewrite (proj2 (Z.eqb_neq _ _) Hne).
Qed.

Lemma RemoveEntryList_double_remove_witness :
  exists h, is_list h 8 [16] /\
    returns (RemoveEntryList h 16) (fun '(empty, h') =>
      is_list h' 8 [] /\ empty = true /\ RemoveEntryList h' 16 = Panic "double remove").
Proof.
  exists (<[8 := mkLIST_ENTRY 16 16]> {[16 := mkLIST_ENTRY 8 8]}).
  assert (Hl : is_list (<[8 := mkLIST_ENTRY 16 16]> {[16 := mkLIST_ENTRY 8 8]}) 8 [16]).
  { split; [|by split_and!]. apply NoDup_cons. split; [|apply NoDup_singleton].
    intros H. by apply list_elem_of_singleton in H. }
  split; [exact Hl|].
  exact (RemoveEntryList_double_remove _ 8 [] 16 [] Hl).
Defined.
