(* ===== verification/KeTypes.v ===== *)
(** * KeTypes: the dispatcher's data (kernel/ke/ke.h).

    Kernel objects are named by their addresses.  [KSTATE] is everything the
    Ke department keeps: the objects that begin with a DISPATCHER_HEADER, the
    threads, the ready queues, the timer list and the clocks.  A LIST_ENTRY
    queue is the sequence of its entries (ListEntry.v says why). *)

From S2P Require Import Prelude NtStatus.

(** ** Dispatcher objects *)

Inductive KI_OBJECT_TYPE :=
  | KI_OBJECT_NOTIFICATION_EVENT
  | KI_OBJECT_SYNCHRONIZATION_EVENT
  | KI_OBJECT_MUTANT
  | KI_OBJECT_PROCESS
  | KI_OBJECT_SEMAPHORE
  | KI_OBJECT_THREAD
  | KI_OBJECT_NOTIFICATION_TIMER
  | KI_OBJECT_SYNCHRONIZATION_TIMER.

Inductive WAIT_TYPE := WaitAll | WaitAny.

#[export] Instance KI_OBJECT_TYPE_eq_dec : EqDecision KI_OBJECT_TYPE.
Proof. solve_decision. Defined.
#[export] Instance WAIT_TYPE_eq_dec : EqDecision WAIT_TYPE.
Proof. solve_decision. Defined.

(** [blockThread] and [blockObject] are the [thread] and [object] fields. *)
Record KWAIT_BLOCK := mkKWAIT_BLOCK {
  blockThread : addr;
  blockObject : addr;
  waitKey : Z;
  waitType : WAIT_TYPE;
}.

#[export] Instance KWAIT_BLOCK_eq_dec : EqDecision KWAIT_BLOCK.
Proof. solve_decision. Defined.

(** A DISPATCHER_HEADER with the fields of the object it leads: [limit] of a
    KSEMAPHORE, [ownerThread], [abandoned] and [apcDisable] of a KMUTANT,
    [dueTime] and [period] of a KTIMER.  The casts of the source read a field
    of the type they cast to; the others keep their initial value. *)
Record KOBJECT := mkKOBJECT {
  type : KI_OBJECT_TYPE;
  inserted : bool;
  signalState : Z;
  waitListHead : list KWAIT_BLOCK;
  limit : Z;
  ownerThread : addr;
  abandoned : bool;
  apcDisable : bool;
  dueTime : Z;
  period : Z;
}.

#[export] Instance eta_KOBJECT : Eta KOBJECT := {| eta_expand := fun o =>
  mkKOBJECT (type o) (inserted o) (signalState o) (waitListHead o) (limit o)
    (ownerThread o) (abandoned o) (apcDisable o) (dueTime o) (period o) |}.

(** ** Threads *)

Inductive KI_THREAD_STATE :=
  | KI_THREAD_STATE_INITIALIZED
  | KI_THREAD_STATE_READY
  | KI_THREAD_STATE_RUNNING
  | KI_THREAD_STATE_WAITING
  | KI_THREAD_STATE_TERMINATED.

#[export] Instance KI_THREAD_STATE_eq_dec : EqDecision KI_THREAD_STATE.
Proof. solve_decision. Defined.

Definition KI_PRIORITY_LEVELS : Z := 32.

(** A queued user APC: the block's address, and the UserApcReserve whose
    storage it is (0 for a pool block). *)
Record KAPC := mkKAPC { apcBlock : addr; reserveObject : addr }.

#[export] Instance KAPC_eq_dec : EqDecision KAPC.
Proof. solve_decision. Defined.

(** What one thread owes the kernel (KI_OBLIGATION). *)
Record KI_OBLIGATION := mkKI_OBLIGATION { obligationName : string; obligationObject : addr }.
Definition KI_MAX_OBLIGATIONS : Z := 8.

Record KTHREAD := mkKTHREAD {
  state : KI_THREAD_STATE;
  priority : Z;
  suspendCount : Z;
  terminating : bool;
  rundownWait : bool;
  threadObject : addr;
  process : addr;
  waitStatus : NTSTATUS;
  waitBlockList : list KWAIT_BLOCK;
  timerArmed : bool;
  timer : addr;
  mutantListHead : list addr;
  userApcListHead : list KAPC;
  userApcPending : bool;
  apcDeliverPending : bool;
  alerted : bool;
  waitAlertable : bool;
  obligations : list KI_OBLIGATION;
  parkGeneration : Z;
  kernelTime100ns : Z;
  userTime100ns : Z;
  suspendGate : addr;
  syncIoCancelEvent : addr;
}.

#[export] Instance eta_KTHREAD : Eta KTHREAD := {| eta_expand := fun t =>
  mkKTHREAD (state t) (priority t) (suspendCount t) (terminating t) (rundownWait t)
    (threadObject t) (process t) (waitStatus t) (waitBlockList t) (timerArmed t) (timer t)
    (mutantListHead t) (userApcListHead t) (userApcPending t) (apcDeliverPending t)
    (alerted t) (waitAlertable t) (obligations t) (parkGeneration t)
    (kernelTime100ns t) (userTime100ns t) (suspendGate t) (syncIoCancelEvent t) |}.

(** ** Schedule strings *)

Definition KI_SCHEDULE_MAX_CHOICES : Z := 96.

Record KI_SCHEDULE_TRACE := mkKI_SCHEDULE_TRACE {
  choiceCount : Z;
  preemptions : Z;
  consumed : Z;
  options : list Z;
  chosen : list Z;
  overflowed : bool;
}.

#[export] Instance eta_KI_SCHEDULE_TRACE : Eta KI_SCHEDULE_TRACE := {| eta_expand := fun t =>
  mkKI_SCHEDULE_TRACE (choiceCount t) (preemptions t) (consumed t) (options t)
    (chosen t) (overflowed t) |}.

(** ** The time fields of the KUSER_SHARED_DATA page *)

Record KSYSTEM_TIME := mkKSYSTEM_TIME { LowPart : Z; High1Time : Z; High2Time : Z }.

#[export] Instance eta_KSYSTEM_TIME : Eta KSYSTEM_TIME := {| eta_expand := fun t =>
  mkKSYSTEM_TIME (LowPart t) (High1Time t) (High2Time t) |}.

Record KUSER_SHARED_TIME := mkKUSER_SHARED_TIME {
  usdInterruptTime : KSYSTEM_TIME;
  usdSystemTime : KSYSTEM_TIME;
  usdTickCount : KSYSTEM_TIME;
  TickCountLowDeprecated : Z;
}.

#[export] Instance eta_KUSER_SHARED_TIME : Eta KUSER_SHARED_TIME := {| eta_expand := fun t =>
  mkKUSER_SHARED_TIME (usdInterruptTime t) (usdSystemTime t) (usdTickCount t)
    (TickCountLowDeprecated t) |}.

(** ** The state of the department

    [reaped] logs the user-APC blocks given back by KiFreeUserApc, in order:
    the pool and the reserve objects they return to belong to Mm and Ob. *)
Record KSTATE := mkKSTATE {
  KiCurrentThread : addr;
  KiIdleThread : addr;
  threads : gmap Z KTHREAD;
  objects : gmap Z KOBJECT;
  KiReadyQueues : list (list addr);
  KiReadySummary : Z;
  KiNoBlockDepth : Z;
  KiScheduleString : option (list Z);
  KiScheduleTrace : KI_SCHEDULE_TRACE;
  KiTimerListHead : list addr;
  KeTickCount : Z;
  KiInterruptTime : Z;
  KiTickTsc : Z;
  KiTscPerMillisecond : Z;
  KiSystemTimeBase : Z;
  KiIdleTime100ns : Z;
  KiTotalKernelTime100ns : Z;
  KiTotalUserTime100ns : Z;
  KiCatchUpTicks : Z;
  reaped : list KAPC;
  KiUserSharedData : option KUSER_SHARED_TIME;
}.

#[export] Instance eta_KSTATE : Eta KSTATE := {| eta_expand := fun s =>
  mkKSTATE (KiCurrentThread s) (KiIdleThread s) (threads s) (objects s)
    (KiReadyQueues s) (KiReadySummary s) (KiNoBlockDepth s) (KiScheduleString s)
    (KiScheduleTrace s) (KiTimerListHead s) (KeTickCount s) (KiInterruptTime s)
    (KiTickTsc s) (KiTscPerMillisecond s) (KiSystemTimeBase s) (KiIdleTime100ns s)
    (KiTotalKernelTime100ns s) (KiTotalUserTime100ns s) (KiCatchUpTicks s) (reaped s) (KiUserSharedData s) |}.

(** ** Reading and writing through a pointer *)

Definition get_thread (s : KSTATE) (t : addr) : outcome KTHREAD :=
  deref (threads s !! t) "KTHREAD".
Definition get_object (s : KSTATE) (o : addr) : outcome KOBJECT :=
  deref (objects s !! o) "DISPATCHER_HEADER".

Definition put_thread (s : KSTATE) (t : addr) (th : KTHREAD) : KSTATE :=
  s <| threads := <[t := th]> (threads s) |>.
Definition put_object (s : KSTATE) (o : addr) (ob : KOBJECT) : KSTATE :=
  s <| objects := <[o := ob]> (objects s) |>.

Definition alter_thread (s : KSTATE) (t : addr) (f : KTHREAD -> KTHREAD) : KSTATE :=
  s <| threads := alter f t (threads s) |>.
Definition alter_object (s : KSTATE) (o : addr) (f : KOBJECT -> KOBJECT) : KSTATE :=
  s <| objects := alter f o (objects s) |>.

(** KiInitializeDispatcherHeader (kernel/ke/wait.c) writes the header; the
    object's own fields are written by the initializers that call it. *)
Definition KiInitializeDispatcherHeader (o : KOBJECT) (ty : KI_OBJECT_TYPE) (signal : Z) : KOBJECT :=
  o <| type := ty |> <| inserted := false |> <| signalState := signal |> <| waitListHead := [] |>.

(** ** Reading back what was written *)

Lemma alter_as_insert {A} (m : gmap Z A) (f : A -> A) (k : Z) (v : A) :
  m !! k = Some v -> alter f k m = <[k := f v]> m.
Proof.
  intros Hk. apply map_eq. intros i. destruct (decide (i = k)) as [->|].
  - by rewrite lookup_alter_eq, lookup_insert_eq, Hk.
  - by rewrite lookup_alter_ne, lookup_insert_ne.
Qed.

Lemma alter_thread_eq (s : KSTATE) (t : addr) (th : KTHREAD) (f : KTHREAD -> KTHREAD) :
  threads s !! t = Some th -> alter_thread s t f = put_thread s t (f th).
Proof. intros H. unfold alter_thread, put_thread. by rewrite (alter_as_insert _ f t th). Qed.

Lemma alter_object_eq (s : KSTATE) (a : addr) (o : KOBJECT) (f : KOBJECT -> KOBJECT) :
  objects s !! a = Some o -> alter_object s a f = put_object s a (f o).
Proof. intros H. unfold alter_object, put_object. by rewrite (alter_as_insert _ f a o). Qed.
