(* ===== verification/KeSched.v ===== *)
(** * KeSched: the priority scheduler (kernel/ke/sched.c).

    32 FIFO ready queues with a summary bitmap, strict highest-priority-first,
    no preemption of kernel code.  A context switch is the change of
    [KiCurrentThread]; programming the machine for the next thread
    (KiLoadThreadHardwareState, KiSwapContext) and the trace and profile hooks
    are hardware and instrumentation, and have no part in the state.  The
    dispatcher lock is interrupt disable on a uniprocessor: each operation here
    is one lock hold, so it is one atomic step, and the lock-held ASSERTs are
    what that means. *)

From S2P Require Import Prelude NtStatus KeTypes.

(** ** Non-blocking regions and release obligations *)

Definition KiEnterNoBlockRegion (s : KSTATE) : KSTATE :=
  s <| KiNoBlockDepth := u32 (KiNoBlockDepth s + 1) |>.

Definition KiLeaveNoBlockRegion (s : KSTATE) : outcome KSTATE :=
  _ ← ASSERT (negb (KiNoBlockDepth s =? 0)) "KiLeaveNoBlockRegion";
  Ok (s <| KiNoBlockDepth := KiNoBlockDepth s - 1 |>).

Definition KiAssertMayBlock (s : KSTATE) : outcome unit :=
  if negb (KiNoBlockDepth s =? 0)
  then Panic "KI_MAY_BLOCK: a park was reached from a non-blocking region"
  else Ok tt.

(** The obligation stack, innermost first. *)
Definition KiPushObligation (s : KSTATE) (name : string) (object : addr) : outcome KSTATE :=
  t ← get_thread s (KiCurrentThread s);
  if KI_MAX_OBLIGATIONS <=? Z.of_nat (length (obligations t))
  then Panic "KiPushObligation: obligation stack overflow"
  else Ok (put_thread s (KiCurrentThread s)
             (t <| obligations := mkKI_OBLIGATION name object :: obligations t |>)).

Definition KiPopObligation (s : KSTATE) (name : string) (object : addr) : outcome KSTATE :=
  t ← get_thread s (KiCurrentThread s);
  match obligations t with
  | [] => Panic "KiPopObligation: release without a matching take"
  | top :: rest =>
      if bool_decide (obligationName top <> name) || negb (obligationObject top =? object)
      then Panic "KiPopObligation: obligations released out of order"
      else Ok (put_thread s (KiCurrentThread s) (t <| obligations := rest |>))
  end.

Definition KiAssertNoObligations (s : KSTATE) : outcome unit :=
  if KiCurrentThread s =? 0 then Ok tt else
  t ← get_thread s (KiCurrentThread s);
  match obligations t with
  | [] => Ok tt
  | _ => Panic "KiAssertNoObligations: the kernel was left holding something"
  end.

(** ** The ready queues *)

Definition ready_queue (s : KSTATE) (level : Z) : list addr :=
  default [] (KiReadyQueues s !! Z.to_nat level).

Definition put_ready_queue (s : KSTATE) (level : Z) (q : list addr) : KSTATE :=
  s <| KiReadyQueues := <[Z.to_nat level := q]> (KiReadyQueues s) |>.

Definition KiThreadIsIdle (s : KSTATE) (thread : addr) : bool := thread =? KiIdleThread s.

Definition KiReadyThread (s : KSTATE) (thread : addr) : outcome KSTATE :=
  if thread =? KiIdleThread s then Panic "KiReadyThread: the idle thread never queues" else
  t ← get_thread s thread;
  _ ← ASSERT ((0 <=? priority t) && (priority t <? KI_PRIORITY_LEVELS)) "priority";
  _ ← ASSERT (bool_decide (state t <> KI_THREAD_STATE_READY)) "already READY";
  _ ← ASSERT (bool_decide (state t <> KI_THREAD_STATE_TERMINATED)) "TERMINATED";
  let s1 := put_thread s thread (t <| state := KI_THREAD_STATE_READY |>) in
  let s2 := put_ready_queue s1 (priority t) (ready_queue s1 (priority t) ++ [thread]) in
  Ok (s2 <| KiReadySummary := Z.lor (KiReadySummary s2) (Z.shiftl 1 (priority t)) |>).

(** Shorten the queue of [level] to [q], dropping the summary bit of a queue
    that becomes empty. *)
Definition dequeue_ready (s : KSTATE) (level : Z) (q : list addr) : KSTATE :=
  let s1 := put_ready_queue s level q in
  match q with
  | [] => s1 <| KiReadySummary := Z.ldiff (KiReadySummary s1) (Z.shiftl 1 level) |>
  | _ => s1
  end.

Definition KiArmSchedule (s : KSTATE) (bytes : list Z) : outcome KSTATE :=
  match KiScheduleString s with
  | Some _ => Panic "KiArmSchedule: not nestable"
  | None => Ok (s <| KiScheduleTrace := mkKI_SCHEDULE_TRACE 0 0 0 [] [] false |>
                  <| KiScheduleString := Some bytes |>)
  end.

Definition KiDisarmSchedule (s : KSTATE) : KI_SCHEDULE_TRACE * KSTATE :=
  (KiScheduleTrace s, s <| KiScheduleString := None |>).

(** The inner loop of KiTakeReadyThread: the [index]-th entry of a queue, or
    what is left of the index past its end. *)
Fixpoint scan_queue (q : list addr) (index : Z) : addr + Z :=
  match q with
  | [] => inr index
  | thread :: q' => if index =? 0 then inl thread else scan_queue q' (index - 1)
  end.

Fixpoint take_ready_below (s : KSTATE) (levels : nat) (index : Z) : outcome (addr * KSTATE) :=
  match levels with
  | O => Panic "KiTakeReadyThread: index past the end of the ready set"
  | S level =>
      match scan_queue (ready_queue s (Z.of_nat level)) index with
      | inl thread => Ok (thread, dequeue_ready s (Z.of_nat level) (unlink thread (ready_queue s (Z.of_nat level))))
      | inr rest => take_ready_below s level rest
      end
  end.

Definition KiTakeReadyThread (s : KSTATE) (index : Z) : outcome (addr * KSTATE) :=
  take_ready_below s (Z.to_nat KI_PRIORITY_LEVELS) index.

Definition KiCountReadyThreads (s : KSTATE) : Z :=
  Z.of_nat (sum_list_with length (KiReadyQueues s)).

(** The armed arm of KiSelectNextThread: consume a schedule byte when there is
    a choice, and record it. *)
Definition schedule_choice (s : KSTATE) (bytes : list Z) : Z * KSTATE :=
  let opts := KiCountReadyThreads s in
  let tr := KiScheduleTrace s in
  if 1 <? opts then
    let choice := choiceCount tr in
    if choice <? KI_SCHEDULE_MAX_CHOICES then
      let steered := choice <? Z.of_nat (length bytes) in
      let index := if steered then default 0 (bytes !! Z.to_nat choice) mod opts else 0 in
      (index,
       s <| KiScheduleTrace :=
              tr <| consumed := if steered then consumed tr + 1 else consumed tr |>
                 <| options := options tr ++ [u8 opts] |>
                 <| chosen := chosen tr ++ [u8 index] |>
                 <| choiceCount := choice + 1 |>
                 <| preemptions := preemptions tr + (if negb (index =? 0) then 1 else 0) |> |>)
    else (0, s <| KiScheduleTrace := tr <| overflowed := true |> |>)
  else (0, s).

(** [31 - __builtin_clz(summary)] of a non-zero summary. *)
Definition highest_bit (summary : Z) : Z := Z.log2 summary.

Definition KiSelectNextThread (s : KSTATE) : outcome (option addr * KSTATE) :=
  if KiReadySummary s =? 0 then Ok (None, s) else
  match KiScheduleString s with
  | Some bytes =>
      let '(index, s1) := schedule_choice s bytes in
      '(thread, s2) ← KiTakeReadyThread s1 index;
      Ok (Some thread, s2)
  | None =>
      let level := highest_bit (KiReadySummary s) in
      match ready_queue s level with
      | [] => Panic "RemoveHeadList: empty list"
      | thread :: rest =>
          t ← get_thread s thread;
          _ ← ASSERT (bool_decide (state t = KI_THREAD_STATE_READY)) "READY";
          _ ← ASSERT (priority t =? level) "queue and summary bit agree";
          Ok (Some thread, dequeue_ready s level rest)
      end
  end.

(** ** Switching *)

Definition KiSwapToNext (s : KSTATE) : outcome KSTATE :=
  let old := KiCurrentThread s in
  told ← get_thread s old;
  _ ← ASSERT (bool_decide (state told <> KI_THREAD_STATE_RUNNING)) "caller re-states first";
  '(selected, s1) ← KiSelectNextThread s;
  let next := default (KiIdleThread s1) selected in
  if next =? old
  then Ok (alter_thread s1 old (fun t => t <| state := KI_THREAD_STATE_RUNNING |>))
  else
    let s2 := alter_thread s1 old (fun t => t <| parkGeneration := u64 (parkGeneration t + 1) |>) in
    tnext ← get_thread s2 next;
    let s3 := put_thread s2 next (tnext <| state := KI_THREAD_STATE_RUNNING |>) in
    Ok (s3 <| KiCurrentThread := next |>).

Definition KiYield (s : KSTATE) : outcome KSTATE :=
  _ ← KiAssertMayBlock s;
  let current := KiCurrentThread s in
  if current =? KiIdleThread s then Panic "KiYield: from the idle thread" else
  s1 ← KiReadyThread s current;
  KiSwapToNext s1.

Definition KiPreemptAtUserReturn (s : KSTATE) : outcome KSTATE :=
  let current := KiCurrentThread s in
  if negb (current =? KiIdleThread s) && negb (KiReadySummary s =? 0) then
    t ← get_thread s current;
    if priority t <=? highest_bit (KiReadySummary s) then
      s1 ← KiReadyThread s current;
      KiSwapToNext s1
    else Ok s
  else Ok s.

(** One turn of KiIdleLoop: hand the CPU to a ready thread, or halt. *)
Definition KiIdleLoop (s : KSTATE) : outcome KSTATE :=
  if negb (KiCurrentThread s =? KiIdleThread s)
  then Panic "KiIdleLoop: not on the boot/idle context" else
  if negb (KiReadySummary s =? 0) then
    let s1 := alter_thread s (KiIdleThread s) (fun t => t <| state := KI_THREAD_STATE_READY |>) in
    KiSwapToNext s1
  else Ok s.

(** ** The consistency sweep's scheduler half *)

Definition KiIsThreadOnReadyQueue (s : KSTATE) (thread : addr) : outcome bool :=
  t ← get_thread s thread;
  if (priority t <? 0) || (KI_PRIORITY_LEVELS <=? priority t) then Ok false
  else Ok (bool_decide (thread ∈ ready_queue s (priority t))).

Definition verify_ready_entry (s : KSTATE) (level : Z) (thread : addr) : outcome unit :=
  t ← get_thread s thread;
  o ← get_object s thread;
  _ ← ASSERT (bool_decide (state t = KI_THREAD_STATE_READY)) "queued thread is READY";
  _ ← ASSERT (priority t =? level) "queued at its priority";
  _ ← ASSERT (bool_decide (type o = KI_OBJECT_THREAD)) "queued object is a thread";
  ASSERT (negb (process t =? 0)) "queued thread has a process".

Definition verify_ready_level (s : KSTATE) (level : Z) : outcome unit :=
  let queued := negb (bool_decide (ready_queue s level = [])) in
  let flagged := Z.testbit (KiReadySummary s) level in
  _ ← ASSERT (Bool.eqb queued flagged) "queue and summary bit agree";
  checkM (verify_ready_entry s level) (ready_queue s level).

Definition KiVerifyScheduler (s : KSTATE) : outcome unit :=
  _ ← ASSERT (negb (KiCurrentThread s =? 0)) "KiCurrentThread";
  t ← get_thread s (KiCurrentThread s);
  _ ← ASSERT (bool_decide (state t = KI_THREAD_STATE_RUNNING)) "current is RUNNING";
  checkM (verify_ready_level s) (Z.of_nat <$> seq 0 (Z.to_nat KI_PRIORITY_LEVELS)).

(** ** The scheduler's invariant

    The queues, the summary bitmap and the threads' states are one fact kept
    in three places. *)

Definition ready_at (s : KSTATE) (level : Z) (t : addr) : Prop :=
  t <> KiIdleThread s /\
  exists th, threads s !! t = Some th /\ state th = KI_THREAD_STATE_READY /\ priority th = level.

Definition is_level (level : Z) : Prop := 0 <= level < KI_PRIORITY_LEVELS.

Record sched_inv (s : KSTATE) : Prop := {
  si_levels : length (KiReadyQueues s) = 32%nat;
  si_nodup : forall level, is_level level -> NoDup (ready_queue s level);
  si_queue : forall level t, is_level level -> t ∈ ready_queue s level <-> ready_at s level t;
  si_flag : forall level, is_level level ->
    Z.testbit (KiReadySummary s) level = negb (bool_decide (ready_queue s level = []));
  si_summary : is_u32 (KiReadySummary s);
  si_priority : forall t th, threads s !! t = Some th -> is_level (priority th);
  si_idle : exists th, threads s !! KiIdleThread s = Some th /\
    (state th = KI_THREAD_STATE_READY \/ state th = KI_THREAD_STATE_RUNNING);
}.

Section sched.
Implicit Types (s : KSTATE) (t level : Z) (th : KTHREAD) (q : list addr).

Lemma ready_queue_put s level level' q :
  length (KiReadyQueues s) = 32%nat -> is_level level -> is_level level' ->
  ready_queue (put_ready_queue s level q) level' =
  if decide (level = level') then q else ready_queue s level'.
Proof.
  unfold is_level, KI_PRIORITY_LEVELS, ready_queue, put_ready_queue. intros Hl H1 H2. simpl.
  destruct (decide (level = level')) as [->|Hne].
  - rewrite list_lookup_insert_eq by lia. done.
  - rewrite list_lookup_insert_ne by lia. done.
Qed.

(** Only readiness, priorities and the queues matter. *)
Lemma sched_inv_ext s s' :
  sched_inv s ->
  KiReadyQueues s' = KiReadyQueues s -> KiReadySummary s' = KiReadySummary s ->
  KiIdleThread s' = KiIdleThread s ->
  (forall t th, threads s !! t = Some th -> exists th', threads s' !! t = Some th' /\
     priority th' = priority th /\
     (t <> KiIdleThread s -> state th' = KI_THREAD_STATE_READY <-> state th = KI_THREAD_STATE_READY) /\
     (t = KiIdleThread s -> state th' = KI_THREAD_STATE_READY \/ state th' = KI_THREAD_STATE_RUNNING)) ->
  (forall t, threads s !! t = None -> threads s' !! t = None) ->
  sched_inv s'.
Proof.
  intros [Hl Hn Hq Hf Hs Hp Hi] Eq Es Ei Hth Hnone.
  assert (Hrq : forall level, ready_queue s' level = ready_queue s level)
    by (intros; unfold ready_queue; by rewrite Eq).
  split; try setoid_rewrite Hrq; rewrite ?Eq, ?Es, ?Ei; auto.
  - intros level t Hlev. rewrite Hq by done. unfold ready_at. rewrite Ei.
    split; intros (Hne & th & Hlk & Hst & Hpr); (split; [done|]).
    + destruct (Hth _ _ Hlk) as (th' & ? & ? & Hiff & _). exists th'. rewrite (Hiff Hne). naive_solver.
    + destruct (threads s !! t) as [th0|] eqn:E.
      * destruct (Hth _ _ E) as (th2 & ? & ? & Hiff & _). exists th0. naive_solver.
      * apply Hnone in E. congruence.
  - intros level Hlev. rewrite Hrq. auto.
  - intros t th' Hlk. destruct (threads s !! t) as [th|] eqn:E.
    + destruct (Hth _ _ E) as (th2 & ? & Hpr & _). simplify_eq. rewrite Hpr. eauto.
    + apply Hnone in E. congruence.
  - destruct Hi as (th & Hlk & _). destruct (Hth _ _ Hlk) as (th' & ? & _ & _ & Hst). eauto.
Qed.

Lemma testbit_shiftl_1 i j : 0 <= i -> 0 <= j -> Z.testbit (Z.shiftl 1 i) j = (i =? j).
Proof.
  intros. rewrite Z.shiftl_1_l, Z.pow2_bits_eqb by done. done.
Qed.

Lemma u32_lor_bit z i : is_u32 z -> is_level i -> is_u32 (Z.lor z (Z.shiftl 1 i)).
Proof.
  unfold is_level, KI_PRIORITY_LEVELS. intros [Hz Hb] Hi.
  assert (0 <= Z.lor z (Z.shiftl 1 i)).
  { apply Z.lor_nonneg. split; [done|]. apply Z.shiftl_nonneg. lia. }
  split; [done|]. apply bits_bound; [done|done|]. intros j Hj.
  rewrite Z.lor_spec, testbit_shiftl_1 by lia.
  rewrite (proj1 (bits_bound z 32 ltac:(lia) ltac:(lia)) Hb) by lia.
  destruct (Z.eqb_spec i j); [lia|done].
Qed.

Lemma u32_ldiff z w : is_u32 z -> is_u32 (Z.ldiff z w).
Proof.
  intros [Hz Hb]. assert (0 <= Z.ldiff z w) by (apply Z.ldiff_nonneg; lia).
  split; [done|]. apply bits_bound; [done|done|]. intros j Hj.
  rewrite Z.ldiff_spec. by rewrite (proj1 (bits_bound z 32 ltac:(lia) ltac:(lia)) Hb) by lia.
Qed.

(** A level with a queued thread is a set bit of the summary, so no level is
    above the highest bit. *)
Lemma summary_zero s level :
  sched_inv s -> is_level level -> KiReadySummary s = 0 -> ready_queue s level = [].
Proof.
  intros Hs Hlev H0. pose proof (si_flag _ Hs _ Hlev) as Hf. rewrite H0, Z.bits_0 in Hf.
  destruct (bool_decide_reflect (ready_queue s level = [])); done.
Qed.

Lemma highest_bit_level s :
  sched_inv s -> KiReadySummary s <> 0 ->
  is_level (highest_bit (KiReadySummary s)) /\
  ready_queue s (highest_bit (KiReadySummary s)) <> [].
Proof.
  unfold highest_bit. intros Hs H0. destruct (si_summary _ Hs) as [Hlo Hhi].
  assert (Hlev : is_level (Z.log2 (KiReadySummary s))).
  { split; [apply Z.log2_nonneg|]. apply Z.log2_lt_pow2; [lia|]. done. }
  split; [done|]. pose proof (si_flag _ Hs _ Hlev) as Hf.
  rewrite Z.bit_log2 in Hf by lia.
  destruct (bool_decide_reflect (ready_queue s (Z.log2 (KiReadySummary s)) = [])); done.
Qed.

Lemma highest_bit_max s level :
  sched_inv s -> is_level level -> ready_queue s level <> [] ->
  level <= highest_bit (KiReadySummary s).
Proof.
  unfold highest_bit. intros Hs Hlev Hne. pose proof (si_flag _ Hs _ Hlev) as Hf.
  rewrite bool_decide_eq_false_2 in Hf by done. simpl in Hf.
  destruct (Z.le_gt_cases level (Z.log2 (KiReadySummary s))) as [|Hgt]; [done|].
  rewrite Z.bits_above_log2 in Hf; [done| |done]. apply (si_summary _ Hs).
Qed.

(** ** Queueing a thread *)

(** What KiReadyThread leaves behind. *)
Definition readied s t th : KSTATE :=
  let s1 := put_thread s t (th <| state := KI_THREAD_STATE_READY |>) in
  let s2 := put_ready_queue s1 (priority th) (ready_queue s1 (priority th) ++ [t]) in
  s2 <| KiReadySummary := Z.lor (KiReadySummary s2) (Z.shiftl 1 (priority th)) |>.

Lemma KiReadyThread_eq s t th :
  sched_inv s -> threads s !! t = Some th -> t <> KiIdleThread s ->
  state th <> KI_THREAD_STATE_READY -> state th <> KI_THREAD_STATE_TERMINATED ->
  KiReadyThread s t = Ok (readied s t th).
Proof.
  intros Hs Hlk Hidle Hr Ht. unfold KiReadyThread, get_thread.
  pose proof (si_priority _ Hs _ _ Hlk) as [? ?].
  destruct (Z.eqb_spec t (KiIdleThread s)); [done|].
  rewrite Hlk. simpl. rewrite !bool_decide_eq_true_2 by done.
  destruct (Z.leb_spec 0 (priority th)), (Z.ltb_spec (priority th) KI_PRIORITY_LEVELS);
    try lia. done.
Qed.

Lemma readied_inv s t th :
  sched_inv s -> threads s !! t = Some th -> t <> KiIdleThread s ->
  state th <> KI_THREAD_STATE_READY -> sched_inv (readied s t th).
Proof.
  intros Hs Hlk Hidle Hst. pose proof (si_priority _ Hs _ _ Hlk) as Hlev.
  assert (Hrq : forall level, is_level level -> ready_queue (readied s t th) level =
    if decide (priority th = level) then ready_queue s level ++ [t] else ready_queue s level).
  { intros level Hl. unfold readied. simpl.
    etransitivity; [apply ready_queue_put; [apply (si_levels _ Hs)|done|done]|].
    by destruct (decide _) as [<-|]. }
  assert (Hnot : t ∉ ready_queue s (priority th)).
  { rewrite (si_queue _ Hs) by done. intros (_ & th0 & ? & ? & _). simplify_eq. }
  split.
  - simpl. rewrite length_insert. apply (si_levels _ Hs).
  - intros level Hl. rewrite Hrq by done. destruct (decide _) as [<-|]; [|by apply (si_nodup _ Hs)].
    apply NoDup_app. split_and!; [by apply (si_nodup _ Hs)| |apply NoDup_singleton].
    intros x Hx ->%list_elem_of_singleton. done.
  - intros level x Hl. rewrite Hrq by done. unfold ready_at. simpl.
    pose proof (si_queue _ Hs level x Hl) as Hq. unfold ready_at in Hq.
    destruct (decide (x = t)) as [->|Hxt].
    + rewrite lookup_insert_eq. destruct (decide _) as [<-|Hne].
      * rewrite elem_of_app, list_elem_of_singleton. naive_solver.
      * rewrite Hq. naive_solver.
    + rewrite lookup_insert_ne by done. destruct (decide _) as [<-|Hne]; [|done].
      rewrite elem_of_app, list_elem_of_singleton. naive_solver.
  - intros level Hl. rewrite Hrq by done. simpl. rewrite Z.lor_spec.
    destruct Hl, Hlev. rewrite testbit_shiftl_1 by lia. rewrite (si_flag _ Hs) by done.
    destruct (decide _) as [<-|Hne].
    + rewrite Z.eqb_refl, orb_true_r.
      rewrite bool_decide_eq_false_2; [done|]. by destruct (ready_queue s _).
    + destruct (Z.eqb_spec (priority th) level); [done|]. by rewrite orb_false_r.
  - apply u32_lor_bit; [apply (si_summary _ Hs)|done].
  - simpl. intros x th'. destruct (decide (x = t)) as [->|].
    + rewrite lookup_insert_eq. intros. simplify_eq. done.
    + rewrite lookup_insert_ne by done. apply (si_priority _ Hs).
  - simpl. rewrite lookup_insert_ne by done. apply (si_idle _ Hs).
Qed.

(** ** Taking a thread off its queue *)

Lemma dequeue_queue s level level' q :
  sched_inv s -> is_level level -> is_level level' ->
  ready_queue (dequeue_ready s level q) level' =
  if decide (level = level') then q else ready_queue s level'.
Proof.
  intros Hs H1 H2. unfold dequeue_ready.
  destruct q; (etransitivity; [apply ready_queue_put; [apply (si_levels _ Hs)|done|done]|done]).
Qed.

Lemma dequeue_frame s level q :
  threads (dequeue_ready s level q) = threads s /\ objects (dequeue_ready s level q) = objects s /\
  KiIdleThread (dequeue_ready s level q) = KiIdleThread s /\
  KiCurrentThread (dequeue_ready s level q) = KiCurrentThread s.
Proof. unfold dequeue_ready. by destruct q. Qed.

(** What selecting [t] from [level] and running it leaves behind. *)
Definition taken s t level th : KSTATE :=
  put_thread (dequeue_ready s level (unlink t (ready_queue s level))) t
    (th <| state := KI_THREAD_STATE_RUNNING |>).

Lemma dequeue_flag s level level' q :
  sched_inv s -> is_level level -> is_level level' ->
  (q <> [] -> ready_queue s level <> []) ->
  Z.testbit (KiReadySummary (dequeue_ready s level q)) level' =
  negb (bool_decide (ready_queue (dequeue_ready s level q) level' = [])).
Proof.
  intros Hs H1 H2 Hq. rewrite dequeue_queue by done. pose proof (si_flag _ Hs _ H2) as Hf.
  unfold dequeue_ready. destruct q as [|x q]; simpl.
  - rewrite Z.ldiff_spec, testbit_shiftl_1 by (destruct H1, H2; done). rewrite Hf.
    destruct (decide (level = level')) as [<-|Hne].
    + rewrite Z.eqb_refl, andb_false_r. done.
    + destruct (Z.eqb_spec level level'); [done|]. by rewrite andb_true_r.
  - rewrite Hf. destruct (decide (level = level')) as [<-|Hne]; [|done].
    rewrite bool_decide_eq_false_2; [done|]. by apply Hq.
Qed.

Lemma taken_inv s t level th :
  sched_inv s -> is_level level -> t ∈ ready_queue s level ->
  threads s !! t = Some th -> sched_inv (taken s t level th).
Proof.
  intros Hs Hlev Hin Hlk. set (q := unlink t (ready_queue s level)).
  assert (Hrq : forall level', is_level level' ->
    ready_queue (taken s t level th) level' = if decide (level = level') then q else ready_queue s level')
    by (intros; by apply dequeue_queue).
  destruct (dequeue_frame s level q) as (Eth & _ & Eidle & _).
  pose proof (proj1 (si_queue _ Hs _ _ Hlev) Hin) as (Hidle & th0 & Hlk0 & Hst & Hpr).
  rewrite Hlk in Hlk0. injection Hlk0 as <-.
  assert (Elk : forall x, threads (taken s t level th) !! x =
    if decide (x = t) then Some (th <| state := KI_THREAD_STATE_RUNNING |>) else threads s !! x).
  { intros x. unfold taken. simpl. fold q. rewrite Eth.
    destruct (decide (x = t)) as [->|]; [by rewrite lookup_insert_eq|by rewrite lookup_insert_ne]. }
  assert (Ei : KiIdleThread (taken s t level th) = KiIdleThread s) by apply Eidle.
  split.
  - unfold taken, dequeue_ready. fold q. pose proof (si_levels _ Hs).
    destruct q; simpl; by rewrite length_insert.
  - intros l Hl. rewrite Hrq by done. destruct (decide _) as [<-|]; [|by apply (si_nodup _ Hs)].
    apply NoDup_unlink, (si_nodup _ Hs), Hl.
  - intros l x Hl. rewrite Hrq by done. unfold ready_at. rewrite Ei, Elk.
    pose proof (si_queue _ Hs l x Hl) as Hq. unfold ready_at in Hq.
    destruct (decide (x = t)) as [->|Hxt].
    + destruct (decide _) as [<-|Hne].
      * unfold q. rewrite elem_of_unlink. naive_solver.
      * rewrite Hq. naive_solver.
    + destruct (decide _) as [<-|Hne]; [|done]. unfold q. rewrite elem_of_unlink. tauto.
  - intros l Hl. apply dequeue_flag; [done..|]. intros _ E. rewrite E in Hin.
    by apply elem_of_nil in Hin.
  - unfold taken, dequeue_ready. fold q. pose proof (si_summary _ Hs).
    destruct q; [by apply u32_ldiff|done].
  - intros x th'. rewrite Elk. destruct (decide _) as [->|]; [|apply (si_priority _ Hs)].
    intros [= <-]. apply (si_priority _ Hs _ _ Hlk).
  - rewrite Ei, Elk. rewrite decide_False by done. apply (si_idle _ Hs).
Qed.

(** *** The schedule string's walk *)


Lemma scan_queue_spec q index : 0 <= index ->
  match scan_queue q index with
  | inl t => q !! Z.to_nat index = Some t
  | inr rest => rest = index - Z.of_nat (length q) /\ 0 <= rest
  end.
Proof.
  revert index. induction q as [|x q IH]; intros index Hi; simpl; [lia|].
  destruct (Z.eqb_spec index 0) as [->|Hne]; [done|].
  specialize (IH (index - 1) ltac:(lia)). destruct (scan_queue q (index - 1)).
  - replace (Z.to_nat index) with (S (Z.to_nat (index - 1))) by lia. done.
  - lia.
Qed.

(** The ready threads at levels below [n], highest level first. *)
Definition ready_below s (n : nat) : list addr :=
  concat (map (fun n => ready_queue s (Z.of_nat n)) (rev (seq 0 n))).

Definition ready_order s : list addr := ready_below s (Z.to_nat KI_PRIORITY_LEVELS).

Lemma ready_order_trace s tr : ready_order (s <| KiScheduleTrace := tr |>) = ready_order s.
Proof. unfold ready_order, ready_below. f_equal. Qed.

Lemma ready_below_S s n : ready_below s (S n) = ready_queue s (Z.of_nat n) ++ ready_below s n.
Proof. unfold ready_below. rewrite seq_S, rev_app_distr. done. Qed.

Lemma take_ready_below_spec s n index : 0 <= index ->
  index < Z.of_nat (length (ready_below s n)) ->
  returns (take_ready_below s n index) (fun '(t, s') =>
    ready_below s n !! Z.to_nat index = Some t /\
    exists level, 0 <= level < Z.of_nat n /\ t ∈ ready_queue s level /\
      s' = dequeue_ready s level (unlink t (ready_queue s level))).
Proof.
  revert index. induction n as [|n IH]; intros index Hi Hlt; [simpl in Hlt; lia|].
  rewrite ready_below_S in Hlt |- *. rewrite length_app in Hlt. cbn [take_ready_below].
  pose proof (scan_queue_spec (ready_queue s (Z.of_nat n)) index Hi) as Hscan.
  destruct (scan_queue _ index) as [t|rest].
  - simpl. split; [by apply lookup_app_l_Some|]. exists (Z.of_nat n). split; [lia|].
    split; [by eapply list_elem_of_lookup_2|done].
  - destruct Hscan as [-> Hr].
    eapply returns_mono; [apply IH; lia|]. intros [t s'] (Hlk & level & Hlev & Hin & ->).
    split; [|exists level; split; [lia|done]].
    rewrite lookup_app_r by lia. rewrite <- Hlk. f_equal. lia.
Qed.

Lemma KiTakeReadyThread_spec s index : 0 <= index ->
  index < Z.of_nat (length (ready_order s)) ->
  returns (KiTakeReadyThread s index) (fun '(t, s') =>
    ready_order s !! Z.to_nat index = Some t /\
    exists level, is_level level /\ t ∈ ready_queue s level /\
      s' = dequeue_ready s level (unlink t (ready_queue s level))).
Proof. apply take_ready_below_spec. Qed.

Lemma sum_list_with_seq {A} (f : list A -> nat) (l : list (list A)) :
  sum_list_with f l = sum_list_with (fun i => f (default [] (l !! i))) (seq 0 (length l)).
Proof.
  induction l as [|x l IH]; [done|]. cbn [sum_list_with length seq]. rewrite IH. f_equal.
  rewrite <- fmap_S_seq. generalize (seq 0 (length l)) as ns.
  induction ns as [|n ns IHn]; [done|]. simpl. by rewrite IHn.
Qed.

Lemma length_ready_below s n :
  length (ready_below s n) = sum_list_with (fun i => length (ready_queue s (Z.of_nat i))) (seq 0 n).
Proof.
  induction n as [|n IH]; [done|].
  rewrite ready_below_S, seq_S, sum_list_with_app, length_app, IH. simpl. lia.
Qed.

Lemma KiCountReadyThreads_eq s :
  length (KiReadyQueues s) = 32%nat ->
  KiCountReadyThreads s = Z.of_nat (length (ready_order s)).
Proof.
  intros Hl. unfold KiCountReadyThreads, ready_order.
  rewrite length_ready_below, sum_list_with_seq, Hl. simpl. done.
Qed.

(** ** Selecting *)

Lemma schedule_choice_spec s bytes :
  exists index tr, schedule_choice s bytes = (index, s <| KiScheduleTrace := tr |>) /\
    (index = 0 \/ 0 <= index < KiCountReadyThreads s).
Proof.
  unfold schedule_choice. destruct (Z.ltb_spec 1 (KiCountReadyThreads s)) as [H1|H1].
  - destruct (_ <? KI_SCHEDULE_MAX_CHOICES).
    + eexists _, _. split; [done|]. destruct (_ <? _); [|by left]. right.
      apply Z.mod_pos_bound. lia.
    + eexists 0, _. split; [done|by left].
  - exists 0, (KiScheduleTrace s). split; [by destruct s|by left].
Qed.

Definition selected s (sel : option addr) s' : Prop :=
  match sel with
  | None => KiReadySummary s = 0 /\ s' = s
  | Some t => exists level tr, is_level level /\ t ∈ ready_queue s level /\
      s' = dequeue_ready (s <| KiScheduleTrace := tr |>) level (unlink t (ready_queue s level))
  end.

Lemma sched_inv_trace s tr : sched_inv s -> sched_inv (s <| KiScheduleTrace := tr |>).
Proof.
  intros Hs. apply (sched_inv_ext s); try done. intros t th Hlk. exists th.
  split_and!; [done..|]. intros ->. destruct (si_idle _ Hs) as (th' & ? & ?). naive_solver.
Qed.

Lemma KiSelectNextThread_spec s :
  sched_inv s -> returns (KiSelectNextThread s) (fun '(sel, s') => selected s sel s').
Proof.
  intros Hs. unfold KiSelectNextThread. destruct (Z.eqb_spec (KiReadySummary s) 0) as [E|E]; [done|].
  destruct (highest_bit_level s Hs E) as [Hlev Hne].
  destruct (KiScheduleString s) as [bytes|].
  - destruct (schedule_choice_spec s bytes) as (index & tr & -> & Hidx).
    set (s1 := s <| KiScheduleTrace := tr |>).
    assert (Hcount : 0 <= index < Z.of_nat (length (ready_order s1))).
    { rewrite (KiCountReadyThreads_eq s (si_levels _ Hs)) in Hidx.
      unfold s1. rewrite ready_order_trace.
      destruct Hidx as [->|]; [|done]. split; [done|].
      destruct (ready_order s) as [|x l] eqn:Eo; [|simpl; lia]. exfalso.
      destruct (ready_queue s (highest_bit (KiReadySummary s))) as [|y q] eqn:Eq; [done|].
      enough (y ∈ ready_order s) as Hin by (rewrite Eo in Hin; by apply elem_of_nil in Hin).
      unfold ready_order, ready_below. apply list_elem_of_In, in_concat. eexists. split.
      - apply in_map, in_rev. rewrite rev_involutive.
        instantiate (1 := Z.to_nat (highest_bit (KiReadySummary s))). apply in_seq.
        destruct Hlev. unfold KI_PRIORITY_LEVELS in *. lia.
      - destruct Hlev. rewrite Z2Nat.id by done. rewrite Eq. by left. }
    apply returns_bind. eapply returns_mono; [apply KiTakeReadyThread_spec; apply Hcount|].
    intros [t s2] (_ & level & Hl & Hin & ->). simpl. exists level, tr. done.
  - destruct (ready_queue s (highest_bit (KiReadySummary s))) as [|t q] eqn:Eq; [done|].
    assert (Hin : t ∈ ready_queue s (highest_bit (KiReadySummary s))) by (rewrite Eq; left).
    pose proof Hin as (_ & th & Hlk & Hst & Hpr)%si_queue; [|done..].
    unfold get_thread. rewrite Hlk. simpl. rewrite bool_decide_eq_true_2, Hpr, Z.eqb_refl by done.
    simpl. exists (highest_bit (KiReadySummary s)), (KiScheduleTrace s).
    pose proof (si_nodup _ Hs _ Hlev) as Hnd. rewrite Eq in Hnd |- *.
    rewrite unlink_head by done. split_and!; [done|left|]. by destruct s.
Qed.

(** ** Switching *)

(** Exactly one thread runs, and it is the current one. *)
Definition cur_inv s : Prop :=
  (exists th, threads s !! KiCurrentThread s = Some th /\ state th = KI_THREAD_STATE_RUNNING) /\
  (forall t th, threads s !! t = Some th -> state th = KI_THREAD_STATE_RUNNING -> t = KiCurrentThread s).

(** Scheduling moves a thread between READY and RUNNING and counts its parks;
    it never takes it out of or into a wait or the grave. *)
Definition schedulable (st : KI_THREAD_STATE) : bool :=
  match st with
  | KI_THREAD_STATE_READY | KI_THREAD_STATE_RUNNING => true
  | _ => false
  end.

Definition rescheduled th th' : Prop :=
  th' = th <| state := state th' |> <| parkGeneration := parkGeneration th' |> /\
  (state th' = state th \/ (schedulable (state th) = true /\ schedulable (state th') = true)).

#[local] Instance rescheduled_refl : Reflexive rescheduled.
Proof. intros th. split; [by destruct th|by left]. Qed.

#[local] Instance rescheduled_trans : Transitive rescheduled.
Proof.
  intros th1 th2 th3 [E1 H1] [E2 H2]. split.
  - rewrite E2. rewrite E1. by destruct th1, th3.
  - destruct H1 as [H1|[H1a H1b]], H2 as [H2|[H2a H2b]]; rewrite ?H1, ?H2 in *; naive_solver.
Qed.

(** Only threads' run states, the ready structures and the schedule trace
    differ. *)
Record scheduled s s' : Prop := {
  sc_threads : forall t, option_Forall2 rescheduled (threads s !! t) (threads s' !! t);
  sc_rest : s' = s <| threads := threads s' |> <| KiReadyQueues := KiReadyQueues s' |>
    <| KiReadySummary := KiReadySummary s' |> <| KiCurrentThread := KiCurrentThread s' |>
    <| KiScheduleTrace := KiScheduleTrace s' |>;
}.

Lemma scheduled_refl s : scheduled s s.
Proof. split; [|by destruct s]. intros t. by destruct (threads s !! t); constructor. Qed.

Lemma scheduled_trans s1 s2 s3 : scheduled s1 s2 -> scheduled s2 s3 -> scheduled s1 s3.
Proof.
  intros [T1 R1] [T2 R2]. split.
  - intros t. specialize (T1 t). specialize (T2 t).
    destruct T1; inversion T2; subst; constructor. by etransitivity.
  - rewrite R2. rewrite R1. by destruct s1, s3.
Qed.

Lemma rescheduled_put s t th th' :
  threads s !! t = Some th -> rescheduled th th' ->
  forall x, option_Forall2 rescheduled (threads s !! x) (<[t := th']> (threads s) !! x).
Proof.
  intros Hlk Hr x. destruct (decide (x = t)) as [->|].
  - rewrite lookup_insert_eq, Hlk. by constructor.
  - rewrite lookup_insert_ne by done. by destruct (threads s !! x); constructor.
Qed.

Lemma scheduled_readied s t th :
  threads s !! t = Some th -> schedulable (state th) = true -> scheduled s (readied s t th).
Proof.
  intros Hlk Hst. split; [|by destruct s]. apply (rescheduled_put s t th); [done|].
  split; [by destruct th|by right].
Qed.

Lemma scheduled_dequeue s tr level q : scheduled s (dequeue_ready (s <| KiScheduleTrace := tr |>) level q).
Proof.
  split; [|by destruct s, q]. unfold dequeue_ready. intros t.
  destruct q; simpl; by destruct (threads s !! t); constructor.
Qed.

(** The tail of KiSwapToNext, once [next] has been chosen. *)
Definition run_next s (old next : addr) : outcome KSTATE :=
  if next =? old
  then Ok (alter_thread s old (fun th => th <| state := KI_THREAD_STATE_RUNNING |>))
  else
    let s2 := alter_thread s old (fun th => th <| parkGeneration := u64 (parkGeneration th + 1) |>) in
    tnext ← get_thread s2 next;
    let s3 := put_thread s2 next (tnext <| state := KI_THREAD_STATE_RUNNING |>) in
    Ok (s3 <| KiCurrentThread := next |>).

Lemma KiSwapToNext_unfold s told :
  threads s !! KiCurrentThread s = Some told -> state told <> KI_THREAD_STATE_RUNNING ->
  KiSwapToNext s = '(sel, s1) ← KiSelectNextThread s;
                   run_next s1 (KiCurrentThread s) (default (KiIdleThread s1) sel).
Proof.
  intros Hold Hst. unfold KiSwapToNext, get_thread. rewrite Hold. simpl.
  by rewrite bool_decide_eq_true_2.
Qed.

(** [next] is READY and off the queues; nothing else runs. *)
Lemma run_next_spec s old next tnext :
  (forall t th, threads s !! t = Some th -> state th <> KI_THREAD_STATE_RUNNING) ->
  is_Some (threads s !! old) -> KiCurrentThread s = old ->
  threads s !! next = Some tnext -> state tnext = KI_THREAD_STATE_READY ->
  sched_inv (put_thread s next (tnext <| state := KI_THREAD_STATE_RUNNING |>)) ->
  returns (run_next s old next) (fun s' => sched_inv s' /\ cur_inv s' /\ scheduled s s').
Proof.
  intros Hnorun [told Hold] Hcur Hnext Hready Hinv.
  assert (Hrun : rescheduled tnext (tnext <| state := KI_THREAD_STATE_RUNNING |>)).
  { split; [by destruct tnext|]. right. by rewrite Hready. }
  unfold run_next. destruct (Z.eqb_spec next old) as [->|Hne].
  - rewrite (alter_thread_eq _ _ tnext) by done. simpl. split_and!; [done| |].
    + split; simpl; rewrite Hcur.
      * exists (tnext <| state := KI_THREAD_STATE_RUNNING |>). by rewrite lookup_insert_eq.
      * intros t th. destruct (decide (t = old)) as [->|]; [done|].
        rewrite lookup_insert_ne by done. intros Hlk Hst. by destruct (Hnorun _ _ Hlk).
    + split; [|by destruct s]. by apply (rescheduled_put s old tnext).
  - unfold get_thread. simpl. rewrite lookup_alter_ne by done. rewrite Hnext. simpl.
    set (s' := put_thread s next _) in Hinv.
    assert (Hlk : forall x, <[next := tnext <| state := KI_THREAD_STATE_RUNNING |>]>
      (alter (fun th => th <| parkGeneration := u64 (parkGeneration th + 1) |>) old (threads s)) !! x =
      (if decide (x = old) then fun th => th <| parkGeneration := u64 (parkGeneration th + 1) |> else id)
      <$> threads s' !! x).
    { intros x. simpl. destruct (decide (x = next)) as [->|].
      - by rewrite !lookup_insert_eq, decide_False.
      - rewrite !lookup_insert_ne by done. destruct (decide (x = old)) as [->|].
        + by rewrite lookup_alter_eq.
        + rewrite lookup_alter_ne by done. by destruct (threads s !! x). }
    split_and!.
    + apply (sched_inv_ext s'); try done.
      * intros t th Ht. simpl. rewrite Hlk, Ht. simpl. eexists. split; [done|].
        split; [by destruct (decide _)|]. split; intros ?; [by destruct (decide _)|].
        subst t. destruct (si_idle _ Hinv) as (th' & Hth' & Hst').
        change (threads s' !! KiIdleThread s = Some th') in Hth'. rewrite Ht in Hth'.
        injection Hth' as <-. by destruct (decide _).
      * intros t Ht. simpl. by rewrite Hlk, Ht.
    + split; simpl.
      * exists (tnext <| state := KI_THREAD_STATE_RUNNING |>). by rewrite lookup_insert_eq.
      * intros t th. rewrite Hlk. destruct (decide (t = next)) as [->|]; [done|]. simpl.
        rewrite lookup_insert_ne by done. destruct (threads s !! t) as [th0|] eqn:E; [|done].
        simpl. intros [= <-] Hst. destruct (Hnorun _ _ E). by destruct (decide (t = old)).
    + split; [|by destruct s]. intros x. simpl. rewrite Hlk.
      pose proof (rescheduled_put s next tnext _ Hnext Hrun x) as Hx.
      change (<[next := _]> (threads s) !! x) with (threads s' !! x) in Hx.
      destruct Hx as [th1 th2 Hx|]; [|constructor]. apply Some_Forall2. etransitivity; [done|].
      split; [by destruct th2, (decide _)|]. left. by destruct (decide _).
Qed.

(** The caller has re-stated the current thread and nothing runs. *)
Lemma KiSwapToNext_spec s :
  sched_inv s -> is_Some (threads s !! KiCurrentThread s) ->
  (forall t th, threads s !! t = Some th -> state th <> KI_THREAD_STATE_RUNNING) ->
  returns (KiSwapToNext s) (fun s' => sched_inv s' /\ cur_inv s' /\ scheduled s s').
Proof.
  intros Hs [told Hold] Hnorun. rewrite (KiSwapToNext_unfold s told) by eauto.
  apply returns_bind. eapply returns_mono; [by apply KiSelectNextThread_spec|].
  intros [sel s1] Hsel. destruct sel as [t|].
  - destruct Hsel as (level & tr & Hlev & Hin & ->).
    pose proof Hin as (_ & th & Hlk & Hst & Hpr)%si_queue; [|done..].
    set (s1 := dequeue_ready _ _ _).
    destruct (dequeue_frame (s <| KiScheduleTrace := tr |>) level (unlink t (ready_queue s level)))
      as (Eth & _ & _ & Ecur). fold s1 in Eth, Ecur. simpl in Eth, Ecur.
    eapply returns_mono.
    + apply (run_next_spec s1 _ t th); rewrite ?Eth; eauto.
      pose proof (taken_inv (s <| KiScheduleTrace := tr |>) t level th
        (sched_inv_trace _ _ Hs) Hlev Hin Hlk) as H. exact H.
    + intros s' (? & ? & ?). split_and!; [done..|]. eapply scheduled_trans; [|done].
      apply scheduled_dequeue.
  - destruct Hsel as [H0 ->]. simpl. destruct (si_idle _ Hs) as (ti & Hidle & Hst).
    destruct Hst as [Hst|Hst]; [|by destruct (Hnorun _ _ Hidle)].
    apply (run_next_spec s _ _ ti); eauto.
    apply (sched_inv_ext s); try done; simpl.
    + intros t th Ht. destruct (decide (t = KiIdleThread s)) as [->|].
      * rewrite lookup_insert_eq. simplify_eq. eexists. split; [done|]. split; [done|]. split; [done|].
        intros _. by right.
      * rewrite lookup_insert_ne by done. exists th. split_and!; done.
    + intros t Ht. destruct (decide (t = KiIdleThread s)) as [->|]; [congruence|].
      by rewrite lookup_insert_ne.
Qed.

(** ** Whole operations *)

Lemma requeue_spec s :
  sched_inv s -> cur_inv s -> KiCurrentThread s <> KiIdleThread s ->
  returns (s1 ← KiReadyThread s (KiCurrentThread s); KiSwapToNext s1)
    (fun s' => sched_inv s' /\ cur_inv s' /\ scheduled s s').
Proof.
  intros Hs [(th & Hlk & Hst) Huniq] Hidle. rewrite (KiReadyThread_eq s _ th) by congruence.
  simpl. eapply returns_mono.
  - apply KiSwapToNext_spec.
    + apply readied_inv; congruence.
    + unfold readied. simpl. rewrite lookup_insert_eq. eauto.
    + intros t th' Ht. unfold readied in Ht. simpl in Ht.
      destruct (decide (t = KiCurrentThread s)) as [->|Hne].
      * rewrite lookup_insert_eq in Ht. injection Ht as <-. done.
      * rewrite lookup_insert_ne in Ht by done. intros Hst'. apply Hne. eauto.
  - intros s' (? & ? & Hsc). split_and!; [done..|]. eapply scheduled_trans; [|apply Hsc].
    apply scheduled_readied; [done|]. by rewrite Hst.
Qed.

Lemma KiYield_spec s :
  sched_inv s -> cur_inv s -> KiCurrentThread s <> KiIdleThread s -> KiNoBlockDepth s = 0 ->
  returns (KiYield s) (fun s' => sched_inv s' /\ cur_inv s' /\ scheduled s s').
Proof.
  intros Hs Hc Hidle Hd. unfold KiYield, KiAssertMayBlock. rewrite Hd. simpl.
  destruct (Z.eqb_spec (KiCurrentThread s) (KiIdleThread s)); [done|]. by apply requeue_spec.
Qed.

Lemma KiPreemptAtUserReturn_spec s :
  sched_inv s -> cur_inv s ->
  returns (KiPreemptAtUserReturn s) (fun s' => sched_inv s' /\ cur_inv s' /\ scheduled s s').
Proof.
  intros Hs Hc. unfold KiPreemptAtUserReturn, get_thread.
  assert (Hnow : sched_inv s /\ cur_inv s /\ scheduled s s) by (split_and!; auto using scheduled_refl).
  destruct Hc as [(th & Hlk & Hst) Huniq]. rewrite Hlk.
  destruct (Z.eqb_spec (KiCurrentThread s) (KiIdleThread s)); [done|].
  destruct (Z.eqb_spec (KiReadySummary s) 0); [done|]. simpl.
  destruct (_ <=? _); [|done]. apply requeue_spec; [done| |done]. split; eauto.
Qed.

Lemma KiIdleLoop_spec s :
  sched_inv s -> cur_inv s -> KiCurrentThread s = KiIdleThread s ->
  returns (KiIdleLoop s) (fun s' => sched_inv s' /\ cur_inv s' /\ scheduled s s').
Proof.
  intros Hs Hc Hidle. unfold KiIdleLoop. rewrite <- Hidle, Z.eqb_refl. simpl.
  destruct (Z.eqb_spec (KiReadySummary s) 0); simpl; [by split_and!; auto using scheduled_refl|].
  destruct Hc as [(th & Hlk & Hst) Huniq]. rewrite (alter_thread_eq _ _ th) by done.
  set (th' := th <| state := KI_THREAD_STATE_READY |>).
  assert (Hother : forall t th0, threads s !! t = Some th0 -> t <> KiCurrentThread s ->
    <[KiCurrentThread s := th']> (threads s) !! t = Some th0) by (intros; by rewrite lookup_insert_ne).
  eapply returns_mono.
  - apply KiSwapToNext_spec.
    + apply (sched_inv_ext s); try done; simpl.
      * intros t th0 Ht. destruct (decide (t = KiCurrentThread s)) as [->|].
        -- rewrite lookup_insert_eq. simplify_eq. exists th'. split_and!; auto. congruence.
        -- rewrite (Hother _ th0) by done. exists th0. split_and!; auto. congruence.
      * intros t Ht. rewrite lookup_insert_ne; [done|]. congruence.
    + simpl. rewrite lookup_insert_eq. eauto.
    + intros t th0 Ht. simpl in Ht. destruct (decide (t = KiCurrentThread s)) as [->|].
      * rewrite lookup_insert_eq in Ht. injection Ht as <-. done.
      * rewrite lookup_insert_ne in Ht by done. eauto.
  - intros s' (? & ? & Hsc). split_and!; [done..|]. eapply scheduled_trans; [|apply Hsc].
    split; [|by destruct s]. apply (rescheduled_put s _ th); [done|].
    split; [by destruct th|]. right. by rewrite Hst.
Qed.

(** The sweep's scheduler half cannot fire on a state with the invariant. *)
Lemma KiVerifyScheduler_Ok s :
  sched_inv s -> cur_inv s -> KiCurrentThread s <> 0 ->
  (forall t th, threads s !! t = Some th -> process th <> 0 /\
     exists o, objects s !! t = Some o /\ type o = KI_OBJECT_THREAD) ->
  KiVerifyScheduler s = Ok tt.
Proof.
  intros Hs [(th & Hlk & Hst) _] Hcur Hobj. unfold KiVerifyScheduler, get_thread.
  destruct (Z.eqb_spec (KiCurrentThread s) 0); [done|]. rewrite Hlk. run.
  rewrite bool_decide_eq_true_2 by done. run. apply checkM_Ok.
  intros level Hin. apply list_elem_of_fmap in Hin as (lv & -> & Hlv%elem_of_seq).
  assert (Hlev : is_level (Z.of_nat lv)) by (unfold is_level, KI_PRIORITY_LEVELS in *; lia).
  unfold verify_ready_level. rewrite (si_flag _ Hs) by done. rewrite eqb_reflx. simpl.
  apply checkM_Ok. intros t Ht.
  pose proof Ht as (_ & th' & Hlk' & Hst' & Hpr)%si_queue; [|done..].
  destruct (Hobj _ _ Hlk') as (Hproc & o & Ho & Hty).
  unfold verify_ready_entry, get_thread, get_object. rewrite Hlk', Ho. simpl.
  rewrite !bool_decide_eq_true_2, Hpr, Z.eqb_refl by done. simpl.
  by destruct (Z.eqb_spec (process th') 0).
Qed.

(** ** Policy *)

Lemma ready_below_above s m n :
  (forall level, Z.of_nat m <= level < Z.of_nat n -> ready_queue s level = []) ->
  (m <= n)%nat -> ready_below s n = ready_below s m.
Proof.
  intros Hempty. induction n as [|n IH]; intros Hle; [by replace m with 0%nat by lia|].
  destruct (decide (m = S n)) as [->|]; [done|]. rewrite ready_below_S, Hempty by lia.
  simpl. apply IH; [|lia]. intros. apply Hempty. lia.
Qed.

Lemma ready_order_highest s :
  sched_inv s -> KiReadySummary s <> 0 ->
  exists rest, ready_order s = ready_queue s (highest_bit (KiReadySummary s)) ++ rest.
Proof.
  intros Hs H0. destruct (highest_bit_level s Hs H0) as [[Hlo Hhi] _].
  unfold KI_PRIORITY_LEVELS in Hhi. set (hb := highest_bit (KiReadySummary s)) in *.
  exists (ready_below s (Z.to_nat hb)). unfold ready_order.
  rewrite (ready_below_above s (S (Z.to_nat hb))), ready_below_S, Z2Nat.id; [done|lia| |].
  - intros level Hlev. destruct (decide (ready_queue s level = [])) as [|Hne]; [done|].
    enough (level <= hb) by lia. apply highest_bit_max; [done| |done].
    unfold is_level, KI_PRIORITY_LEVELS in *. lia.
  - unfold KI_PRIORITY_LEVELS. lia.
Qed.

Lemma ready_order_ready s t th :
  sched_inv s -> threads s !! t = Some th -> state th = KI_THREAD_STATE_READY ->
  t <> KiIdleThread s -> KiReadySummary s <> 0 /\ priority th <= highest_bit (KiReadySummary s).
Proof.
  intros Hs Hlk Hst Hne. pose proof (si_priority _ Hs _ _ Hlk) as Hlev.
  assert (Hin : t ∈ ready_queue s (priority th)) by (apply si_queue; [done..|]; split; eauto).
  assert (Hnil : ready_queue s (priority th) <> []) by (intros E; rewrite E in Hin; by apply elem_of_nil in Hin).
  split.
  - intros E. by apply Hnil, summary_zero.
  - by apply highest_bit_max.
Qed.

(** The index the armed arm takes for this decision. *)
Definition schedule_index s (bytes : list Z) : Z :=
  let choice := choiceCount (KiScheduleTrace s) in
  let n := KiCountReadyThreads s in
  if (1 <? n) && (choice <? KI_SCHEDULE_MAX_CHOICES) && (choice <? Z.of_nat (length bytes))
  then default 0 (bytes !! Z.to_nat choice) mod n else 0.

Lemma schedule_choice_index s bytes : (schedule_choice s bytes).1 = schedule_index s bytes.
Proof.
  unfold schedule_choice, schedule_index.
  destruct (1 <? _), (_ <? KI_SCHEDULE_MAX_CHOICES), (_ <? _); done.
Qed.

Lemma schedule_choice_state s bytes :
  exists tr, (schedule_choice s bytes).2 = s <| KiScheduleTrace := tr |>.
Proof.
  destruct (schedule_choice_spec s bytes) as (index & tr & E & _). exists tr. by rewrite E.
Qed.

(** The position in priority order a decision takes: the oldest thread of the
    highest level, or the one the armed schedule names. *)
Definition choice_index s : Z :=
  match KiScheduleString s with
  | None => 0
  | Some bytes => schedule_index s bytes
  end.

Lemma ready_order_nonempty s :
  sched_inv s -> KiReadySummary s <> 0 -> (0 < length (ready_order s))%nat.
Proof.
  intros Hs H0. destruct (ready_order_highest s Hs H0) as [rest ->].
  destruct (highest_bit_level s Hs H0) as [_ Hne].
  destruct (ready_queue s (highest_bit (KiReadySummary s))); [done|]. simpl. lia.
Qed.

(** What selecting leaves behind, exactly. *)
Definition chosen_from s (t : addr) s' : Prop :=
  ready_order s !! Z.to_nat (choice_index s) = Some t /\
  exists level tr, is_level level /\ t ∈ ready_queue s level /\
    s' = dequeue_ready (s <| KiScheduleTrace := tr |>) level (unlink t (ready_queue s level)) /\
    (KiScheduleString s = None -> tr = KiScheduleTrace s).

Lemma KiSelectNextThread_exact s :
  sched_inv s -> returns (KiSelectNextThread s) (fun '(sel, s') =>
    match sel with
    | None => KiReadySummary s = 0 /\ s' = s
    | Some t => KiReadySummary s <> 0 /\ chosen_from s t s'
    end).
Proof.
  intros Hs. unfold KiSelectNextThread, chosen_from, choice_index.
  destruct (Z.eqb_spec (KiReadySummary s) 0) as [E|H0]; [done|].
  destruct (highest_bit_level s Hs H0) as [Hlev Hne].
  destruct (KiScheduleString s) as [bytes|].
  - destruct (schedule_choice_spec s bytes) as (index & tr & Ec & Hidx). rewrite Ec.
    pose proof (schedule_choice_index s bytes) as Ei. rewrite Ec in Ei. simpl in Ei. rewrite <- Ei.
    assert (Hcount : 0 <= index < Z.of_nat (length (ready_order (s <| KiScheduleTrace := tr |>)))).
    { rewrite (KiCountReadyThreads_eq s (si_levels _ Hs)) in Hidx. rewrite ready_order_trace.
      pose proof (ready_order_nonempty s Hs H0). lia. }
    apply returns_bind. eapply returns_mono; [apply KiTakeReadyThread_spec; apply Hcount|].
    intros [t s2] (Ho & level & Hl & Hin & ->). rewrite ready_order_trace in Ho.
    cbn [returns]. split; [done|]. split; [done|]. by exists level, tr.
  - destruct (ready_order_highest s Hs H0) as [more Ho].
    destruct (ready_queue s (highest_bit (KiReadySummary s))) as [|t q] eqn:Eq; [done|].
    assert (Hin : t ∈ ready_queue s (highest_bit (KiReadySummary s))) by (rewrite Eq; left).
    pose proof Hin as (_ & th & Hlk & Hst & Hpr)%si_queue; [|done..].
    unfold get_thread. rewrite Hlk. simpl. rewrite bool_decide_eq_true_2, Hpr, Z.eqb_refl by done.
    simpl. split; [done|]. rewrite Ho. split; [done|].
    exists (highest_bit (KiReadySummary s)), (KiScheduleTrace s).
    pose proof (si_nodup _ Hs _ Hlev) as Hnd. rewrite Eq in Hnd |- *.
    rewrite unlink_head by done. split_and!; [done|left| |done]. by destruct s.
Qed.

(** Every queue after a choice is the queue before without the chosen thread. *)
Lemma chosen_from_queue s t s' level :
  sched_inv s -> chosen_from s t s' -> is_level level ->
  ready_queue s' level = unlink t (ready_queue s level).
Proof.
  intros Hs (_ & l & tr & Hl & Hin & -> & _) Hlev.
  rewrite dequeue_queue by (apply (sched_inv_trace s tr Hs) || done).
  destruct (decide (l = level)) as [<-|Hne]; [done|].
  change (ready_queue (s <| KiScheduleTrace := tr |>) level) with (ready_queue s level).
  rewrite unlink_not_elem; [done|]. intros Hin'.
  apply (si_queue s Hs _ _ Hl) in Hin as (_ & th & ? & _ & Hpr).
  apply (si_queue s Hs _ _ Hlev) in Hin' as (_ & th' & ? & _ & Hpr'). congruence.
Qed.

(** The summary keeps telling which queues are empty. *)
Lemma chosen_from_flag s t s' level :
  sched_inv s -> chosen_from s t s' -> is_level level ->
  Z.testbit (KiReadySummary s') level = negb (bool_decide (ready_queue s' level = [])).
Proof.
  intros Hs (_ & l & tr & Hl & Hin & -> & _) Hlev.
  apply (dequeue_flag (s <| KiScheduleTrace := tr |>)); [by apply (sched_inv_trace s tr)|done..|].
  change (ready_queue (s <| KiScheduleTrace := tr |>) l) with (ready_queue s l).
  intros _ E. rewrite E in Hin. by apply elem_of_nil in Hin.
Qed.

Lemma chosen_from_frame s t s' : chosen_from s t s' ->
  threads s' = threads s /\ objects s' = objects s /\ KiIdleThread s' = KiIdleThread s /\
  KiCurrentThread s' = KiCurrentThread s.
Proof. intros (_ & l & tr & _ & _ & -> & _). unfold dequeue_ready. by destruct (unlink _ _). Qed.

(** The first of the order is the oldest thread of the highest level. *)
Lemma ready_order_first s t :
  sched_inv s -> KiReadySummary s <> 0 -> ready_order s !! 0%nat = Some t ->
  exists th, threads s !! t = Some th /\ state th = KI_THREAD_STATE_READY /\ t <> KiIdleThread s /\
    ready_queue s (priority th) !! 0%nat = Some t /\
    forall t' th', threads s !! t' = Some th' -> state th' = KI_THREAD_STATE_READY ->
      t' <> KiIdleThread s -> priority th' <= priority th.
Proof.
  intros Hs H0 Ho. destruct (ready_order_highest s Hs H0) as [rest Er]. rewrite Er in Ho.
  destruct (highest_bit_level s Hs H0) as [Hlev Hne].
  destruct (ready_queue s (highest_bit (KiReadySummary s))) as [|x q] eqn:Eq; [done|].
  simpl in Ho. injection Ho as ->.
  assert (Hin : t ∈ ready_queue s (highest_bit (KiReadySummary s))) by (rewrite Eq; left).
  pose proof Hin as (Hidle & th & Hlk & Hst & Hpr)%si_queue; [|done..].
  exists th. split_and!; [done..| |]; rewrite Hpr; [by rewrite Eq|].
  intros t' th' Hlk' Hst' Hne'. by apply (ready_order_ready s t' th').
Qed.

Lemma readied_queue s t th level :
  sched_inv s -> threads s !! t = Some th -> is_level level ->
  ready_queue (readied s t th) level =
    if decide (priority th = level) then ready_queue s level ++ [t] else ready_queue s level.
Proof.
  intros Hs Hlk Hl. unfold readied. simpl.
  etransitivity; [apply ready_queue_put; [apply (si_levels _ Hs)|by apply (si_priority _ Hs t)|done]|].
  by destruct (decide _) as [<-|].
Qed.

Lemma readied_summary s t th : sched_inv s -> threads s !! t = Some th ->
  state th <> KI_THREAD_STATE_READY -> t <> KiIdleThread s -> KiReadySummary (readied s t th) <> 0.
Proof.
  intros Hs Hlk Hst Hidle H0. pose proof (readied_inv s t th Hs Hlk Hidle Hst) as Hs'.
  pose proof (si_priority _ Hs _ _ Hlk) as Hlev.
  pose proof (summary_zero _ (priority th) Hs' Hlev H0) as Hq.
  rewrite readied_queue, decide_True in Hq by done. by destruct (ready_queue s (priority th)).
Qed.

Lemma run_next_eq s next s' :
  run_next s (KiCurrentThread s) next = Ok s' ->
  KiCurrentThread s' = next /\ KiReadyQueues s' = KiReadyQueues s.
Proof.
  unfold run_next. destruct (Z.eqb_spec next (KiCurrentThread s)) as [->|].
  - by intros [= <-].
  - intros (tn & _ & E)%bind_Ok. injection E as <-. done.
Qed.

(** ** Yielding *)

(** The thread [t] went to the end of its level, and the thread the order then
    names runs. *)
Record yielded s th s' : Prop := {
  yd_next : ready_order (readied s (KiCurrentThread s) th) !!
      Z.to_nat (choice_index (readied s (KiCurrentThread s) th)) = Some (KiCurrentThread s');
  yd_queues : forall level, is_level level -> ready_queue s' level =
    unlink (KiCurrentThread s')
      (if decide (priority th = level) then ready_queue s level ++ [KiCurrentThread s] else ready_queue s level);
  yd_rest : scheduled s s';
}.

Lemma KiYield_exact s th :
  sched_inv s -> cur_inv s -> KiCurrentThread s <> KiIdleThread s -> KiNoBlockDepth s = 0 ->
  threads s !! KiCurrentThread s = Some th ->
  returns (KiYield s) (fun s' => sched_inv s' /\ cur_inv s' /\ yielded s th s').
Proof.
  intros Hs Hc Hidle Hd Hlk. pose proof (KiYield_spec s Hs Hc Hidle Hd) as Hy.
  destruct Hc as [(th0 & Hlk0 & Hst) _]. assert (th0 = th) as -> by congruence.
  apply returns_alt in Hy as (s' & E & Hs' & Hc' & Hsc). rewrite E. cbn [returns].
  split_and!; [done..|]. unfold KiYield, KiAssertMayBlock in E. rewrite Hd in E. simpl in E.
  destruct (Z.eqb_spec (KiCurrentThread s) (KiIdleThread s)); [done|].
  rewrite (KiReadyThread_eq s _ th) in E by congruence. cbn [outcome_bind mbind] in E.
  set (r := readied s (KiCurrentThread s) th) in *.
  assert (Hr : sched_inv r) by (apply readied_inv; congruence).
  assert (Hr0 : KiReadySummary r <> 0) by (apply readied_summary; congruence).
  assert (Ecur : KiCurrentThread r = KiCurrentThread s) by done.
  assert (Hold : threads r !! KiCurrentThread r = Some (th <| state := KI_THREAD_STATE_READY |>)).
  { unfold r, readied. simpl. by rewrite lookup_insert_eq. }
  simpl in E. rewrite (KiSwapToNext_unfold r _ Hold) in E by done.
  pose proof (KiSelectNextThread_exact r Hr) as Hsel.
  apply returns_alt in Hsel as ([sel s1] & Esel & Hsel). rewrite Esel in E. cbn in E.
  destruct sel as [t|]; [|by destruct Hsel]. destruct Hsel as [_ Hch]. simpl in E.
  destruct (chosen_from_frame _ _ _ Hch) as (_ & _ & _ & Ecur1). rewrite <- (eq_trans Ecur1 Ecur) in E.
  apply run_next_eq in E as [Et Eq]. split; rewrite ?Et; [apply Hch| |done].
  intros level Hlev. unfold ready_queue at 1. rewrite Eq. fold (ready_queue s1 level).
  rewrite (chosen_from_queue r t s1) by done. f_equal. by apply readied_queue.
Qed.

(** *** Round robin *)

(** [n] threads yield in turn. *)
Fixpoint yield_times (n : nat) s : outcome KSTATE :=
  match n with
  | O => Ok s
  | S n' => s1 ← yield_times n' s; KiYield s1
  end.

(** The level of the current thread is the highest with anything to run. *)
Record at_top s level : Prop := {
  top_inv : sched_inv s;
  top_cur : cur_inv s;
  top_idle : KiCurrentThread s <> KiIdleThread s;
  top_depth : KiNoBlockDepth s = 0;
  top_string : KiScheduleString s = None;
  top_priority : priority <$> threads s !! KiCurrentThread s = Some level;
  top_above : forall level', is_level level' -> level < level' -> ready_queue s level' = [];
}.

Lemma KiYield_head s level t q :
  at_top s level -> ready_queue s level = t :: q ->
  returns (KiYield s) (fun s' => at_top s' level /\ KiCurrentThread s' = t /\
    ready_queue s' level = q ++ [KiCurrentThread s]).
Proof.
  intros [Hs Hc Hidle Hd Hstr Hp Habove] Eq.
  destruct (threads s !! KiCurrentThread s) as [th|] eqn:Hlk; [|done]. simpl in Hp. injection Hp as Hp.
  pose proof (si_priority _ Hs _ _ Hlk) as Hlev. rewrite Hp in Hlev.
  assert (Hst : state th = KI_THREAD_STATE_RUNNING).
  { destruct Hc as [(th0 & ? & ?) _]. congruence. }
  eapply returns_mono; [by apply (KiYield_exact s th)|]. intros s' (Hs' & Hc' & [Hn Hq Hsc]).
  set (r := readied s (KiCurrentThread s) th) in *.
  assert (Hr : sched_inv r) by (apply readied_inv; congruence).
  assert (Hr0 : KiReadySummary r <> 0) by (apply readied_summary; congruence).
  assert (Hi : choice_index r = 0) by (unfold choice_index; change (KiScheduleString r) with (KiScheduleString s); by rewrite Hstr).
  rewrite Hi in Hn. destruct (ready_order_first r _ Hr Hr0 Hn) as (thn & Hlkn & _ & Hidn & Hhd & Hmax).
  assert (Hint : t ∈ ready_queue s level) by (rewrite Eq; left).
  pose proof (proj1 (si_queue _ Hs _ _ Hlev) Hint) as (Hti & tht & Hlkt & Hstt & Hpt).
  assert (Htc : t <> KiCurrentThread s) by (intros ->; congruence).
  assert (Hge : level <= priority thn).
  { rewrite <- Hpt. apply (Hmax t tht); [|done..]. unfold r, readied. simpl. by rewrite lookup_insert_ne. }
  pose proof (si_priority _ Hr _ _ Hlkn) as Hlevn.
  unfold r in Hhd. rewrite readied_queue in Hhd by done.
  assert (Hpn : priority thn = level).
  { destruct (decide (level = priority thn)); [done|]. rewrite decide_False in Hhd by congruence.
    rewrite (Habove (priority thn)) in Hhd by (done || lia). done. }
  rewrite Hpn, Hp, decide_True, Eq in Hhd by done. simpl in Hhd. injection Hhd as Ecur.
  pose proof (si_nodup _ Hs _ Hlev) as Hnd. rewrite Eq in Hnd.
  split_and!; [|done|].
  - pose proof (sc_rest _ _ Hsc) as Er. split; try done; try (by rewrite Er).
    + rewrite <- Ecur. pose proof (sc_threads _ _ Hsc t) as Ht. rewrite Hlkt in Ht.
      inversion Ht as [? thx [E _]|]. simpl. by rewrite <- Hpt, E.
    + intros l Hl Hlt. rewrite Hq by done. rewrite decide_False by lia. by rewrite Habove.
  - rewrite Hq, <- Ecur, Hp, decide_True, Eq by done. apply unlink_head. simpl in *.
    rewrite app_comm_cons. apply NoDup_app. split_and!; [done| |apply NoDup_singleton].
    intros x Hx ->%list_elem_of_singleton. rewrite <- Eq in Hx.
    apply (si_queue _ Hs _ _ Hlev) in Hx as (_ & thx & ? & ? & _). congruence.
Qed.

Lemma yield_times_rotates s level n :
  at_top s level -> (n <= length (ready_queue s level))%nat ->
  returns (yield_times n s) (fun s' => at_top s' level /\
    (KiCurrentThread s :: ready_queue s level) !! n = Some (KiCurrentThread s') /\
    ready_queue s' level =
      drop n (ready_queue s level) ++ take n (KiCurrentThread s :: ready_queue s level)).
Proof.
  intros Htop. induction n as [|n IH]; intros Hle; [simpl; by rewrite app_nil_r|].
  cbn [yield_times]. apply returns_bind. eapply returns_mono; [apply IH; lia|].
  intros s1 (Htop1 & Hn & Hq1).
  destruct (lookup_lt_is_Some_2 (ready_queue s level) n ltac:(lia)) as [t Ht].
  rewrite (drop_S _ t n Ht) in Hq1. rewrite <- app_comm_cons in Hq1.
  eapply returns_mono; [by eapply KiYield_head|]. intros s2 (Htop2 & -> & Hq2).
  split_and!; [done..|]. rewrite Hq2, <- app_assoc. f_equal.
  symmetry. by apply take_S_r.
Qed.

(** C29. The scheduling policy.  On a consistent ready set:
    - KiSelectNextThread never panics.  It answers "none", and changes nothing,
      exactly when no thread is READY.  Otherwise the thread it takes leaves its
      queue, the others of every queue keep their order, the summary bits tell the
      empty queues from the others, and no thread changes.
      With no schedule armed it is the one at the head of its queue, and no READY
      thread has a higher priority; with a schedule armed it is the one at the
      position the schedule byte names, in priority order and oldest first.
    - KiReadyThread puts a thread behind every thread already at its level, and
      leaves every other queue alone.
    - So threads of one level are served oldest first: when the current thread
      and the queue [q] behind it share the highest level, the n-th yield from
      now, n up to the length of the queue, runs the n-th of [q] and leaves those
      before it at the end, in the order they ran. *)
Theorem KiSelectNextThread_policy s :
  sched_inv s ->
  returns (KiSelectNextThread s) (fun '(sel, s') =>
    match sel with
    | None => s' = s /\ forall t th, threads s !! t = Some th ->
        state th = KI_THREAD_STATE_READY -> t = KiIdleThread s
    | Some t => exists th, threads s !! t = Some th /\ state th = KI_THREAD_STATE_READY /\
        threads s' = threads s /\
        (forall level, is_level level -> ready_queue s' level = unlink t (ready_queue s level) /\
           Z.testbit (KiReadySummary s') level = negb (bool_decide (ready_queue s' level = []))) /\
        match KiScheduleString s with
        | None => head (ready_queue s (priority th)) = Some t /\
            forall t' th', threads s !! t' = Some th' -> state th' = KI_THREAD_STATE_READY ->
              t' <> KiIdleThread s -> priority th' <= priority th
        | Some bytes => ready_order s !! Z.to_nat (schedule_index s bytes) = Some t
        end
    end) /\
  (forall t th, threads s !! t = Some th -> t <> KiIdleThread s ->
     state th <> KI_THREAD_STATE_READY -> state th <> KI_THREAD_STATE_TERMINATED ->
     returns (KiReadyThread s t) (fun s' => sched_inv s' /\
       threads s' = <[t := th <| state := KI_THREAD_STATE_READY |>]> (threads s) /\
       ready_queue s' (priority th) = ready_queue s (priority th) ++ [t] /\
       forall level, is_level level -> level <> priority th -> ready_queue s' level = ready_queue s level)) /\
  (forall level n, at_top s level -> (n <= length (ready_queue s level))%nat ->
     returns (yield_times n s) (fun s' =>
       (KiCurrentThread s :: ready_queue s level) !! n = Some (KiCurrentThread s') /\
       ready_queue s' level =
         drop n (ready_queue s level) ++ take n (KiCurrentThread s :: ready_queue s level))).
Proof.
  intros Hs. split_and!.
  - eapply returns_mono; [by apply KiSelectNextThread_exact|]. intros [[t|] s'].
    + intros [H0 Hch]. pose proof Hch as (Ho & l & tr & Hl & Hin & _).
      pose proof Hin as (Hidle & th & Hlk & Hst & Hpr)%si_queue; [|done..].
      exists th. split_and!; [done..|by apply (chosen_from_frame s t)| |].
      { intros level Hlev. split; [by apply chosen_from_queue|by apply (chosen_from_flag s t)]. }
      unfold choice_index in Ho. destruct (KiScheduleString s) as [bytes|]; [done|].
      destruct (ready_order_first s t Hs H0 Ho) as (th' & Hlk' & _ & _ & Hhd & Hmax). simplify_eq.
      split; [|done]. by rewrite head_lookup.
    + intros [H0 ->]. split; [done|]. intros t th Hlk Hst.
      destruct (decide (t = KiIdleThread s)); [done|]. by destruct (ready_order_ready s t th Hs Hlk Hst).
  - intros t th Hlk Hidle Hr Ht. rewrite (KiReadyThread_eq s t th) by done. cbn [returns].
    pose proof (si_priority _ Hs _ _ Hlk) as Hp.
    split_and!; [by apply readied_inv|done| |]; intros; rewrite readied_queue by done;
      [by rewrite decide_True|by rewrite decide_False by congruence].
  - intros level n Htop Hle. eapply returns_mono; [by apply (yield_times_rotates s level n)|].
    intros s' (_ & ? & ?). done.
Qed.

(** *** The trace *)

Record trace_inv (tr : KI_SCHEDULE_TRACE) : Prop := {
  tr_options : Z.of_nat (length (options tr)) = choiceCount tr;
  tr_chosen : Z.of_nat (length (chosen tr)) = choiceCount tr;
  tr_bound : choiceCount tr <= KI_SCHEDULE_MAX_CHOICES;
  tr_preemptions : 0 <= preemptions tr <= choiceCount tr;
  tr_consumed : 0 <= consumed tr <= choiceCount tr;
}.

Lemma schedule_choice_trace s bytes :
  trace_inv (KiScheduleTrace s) -> trace_inv (KiScheduleTrace (schedule_choice s bytes).2).
Proof.
  intros Ht. unfold schedule_choice. destruct (1 <? _); [|done].
  destruct (Z.ltb_spec (choiceCount (KiScheduleTrace s)) KI_SCHEDULE_MAX_CHOICES) as [Hlt|];
    [|destruct Ht; by split].
  destruct Ht. split; simpl; rewrite ?length_app; simpl; try lia;
    destruct (_ <? _); simpl; try lia; destruct (negb _); lia.
Qed.

(** A recorded schedule replays: as long as fewer than 256 threads are
    ready, the choice a decision takes under a schedule string is the choice it
    takes under the string of recorded choices, and the trace arrays never
    outgrow their 96 entries. *)
Theorem schedule_replays s bytes :
  trace_inv (KiScheduleTrace s) -> KiCountReadyThreads s < 256 ->
  let '(index, s1) := schedule_choice s bytes in
  let '(index', s2) := schedule_choice s (chosen (KiScheduleTrace s1)) in
  index' = index /\ s2 <| KiScheduleTrace := KiScheduleTrace s1 |> = s1 /\
  options (KiScheduleTrace s2) = options (KiScheduleTrace s1) /\
  chosen (KiScheduleTrace s2) = chosen (KiScheduleTrace s1) /\
  Z.of_nat (length (chosen (KiScheduleTrace s1))) <= KI_SCHEDULE_MAX_CHOICES.
Proof.
  intros Ht Hn. pose proof (schedule_choice_trace s bytes Ht) as Ht1.
  pose proof (tr_bound _ Ht1) as Hb. rewrite <- (tr_chosen _ Ht1) in Hb.
  unfold schedule_choice in *. destruct (Z.ltb_spec 1 (KiCountReadyThreads s)) as [H1|]; [|by destruct s].
  set (tr := KiScheduleTrace s) in *. pose proof (tr_chosen _ Ht) as Hch. fold tr in Hch.
  destruct (Z.ltb_spec (choiceCount tr) KI_SCHEDULE_MAX_CHOICES) as [Hlt|]; [|done].
  simpl in Hb |- *. set (n := KiCountReadyThreads s) in *.
  set (index := if choiceCount tr <? Z.of_nat (length bytes)
                then default 0 (bytes !! Z.to_nat (choiceCount tr)) mod n else 0) in *.
  assert (Hidx : 0 <= index < n).
  { unfold index. destruct (Z.ltb _ _); [apply Z.mod_pos_bound; lia|lia]. }
  clearbody index.
  rewrite length_app. simpl. destruct (Z.ltb_spec (choiceCount tr) (Z.of_nat (length (chosen tr) + 1))); [|lia].
  replace (Z.to_nat (choiceCount tr)) with (length (chosen tr)) by lia.
  rewrite lookup_app_r, Nat.sub_diag by lia. simpl.
  rewrite (u8_small index), Z.mod_small by (unfold is_u8; lia).
  split_and!; try done; rewrite ?u8_small in * by (unfold is_u8; lia); try done. lia.
Qed.

(** The default arm and the armed arm at index 0 take the same thread. *)
Lemma take_first s tr :
  sched_inv s -> KiReadySummary s <> 0 ->
  exists t rest, ready_queue s (highest_bit (KiReadySummary s)) = t :: rest /\
    KiTakeReadyThread (s <| KiScheduleTrace := tr |>) 0 =
      Ok (t, dequeue_ready (s <| KiScheduleTrace := tr |>) (highest_bit (KiReadySummary s)) rest).
Proof.
  intros Hs H0. destruct (highest_bit_level s Hs H0) as [Hlev Hne].
  destruct (ready_order_highest s Hs H0) as [more Ho].
  destruct (ready_queue s (highest_bit (KiReadySummary s))) as [|t rest] eqn:Eq; [done|].
  exists t, rest. split; [done|].
  assert (Hspec : returns (KiTakeReadyThread (s <| KiScheduleTrace := tr |>) 0) (fun '(t', s') =>
    ready_order s !! 0%nat = Some t' /\ exists level, is_level level /\ t' ∈ ready_queue s level /\
      s' = dequeue_ready (s <| KiScheduleTrace := tr |>) level (unlink t' (ready_queue s level)))).
  { pose proof (KiTakeReadyThread_spec (s <| KiScheduleTrace := tr |>) 0) as Hspec.
    rewrite ready_order_trace in Hspec. apply Hspec; [done|]. rewrite Ho. simpl. lia. }
  apply returns_alt in Hspec as ([t' s'] & -> & Hhd & level & Hl & Hin & ->).
  rewrite Ho in Hhd. simpl in Hhd. injection Hhd as <-.
  assert (level = highest_bit (KiReadySummary s)) as ->.
  { assert (Hin' : t ∈ ready_queue s (highest_bit (KiReadySummary s))) by (rewrite Eq; left).
    apply si_queue in Hin as (_ & th & ? & _ & <-); [|done..].
    apply si_queue in Hin' as (_ & th' & ? & _ & <-); [|done..]. naive_solver. }
  rewrite Eq, unlink_head; [done|]. rewrite <- Eq. by apply (si_nodup _ Hs).
Qed.

(** A schedule string of zeros is the default policy: arming it changes
    nothing but the recorded trace, so a run with no string and a run steered
    by zeros take the same threads in the same order. *)
Theorem zero_schedule_default s bytes :
  sched_inv s -> KiScheduleString s = None -> Forall (fun b => b = 0) bytes ->
  exists tr, KiSelectNextThread (s <| KiScheduleString := Some bytes |>) =
    '(sel, s') ← KiSelectNextThread s;
    Ok (sel, match sel with
             | Some _ => s' <| KiScheduleTrace := tr |> <| KiScheduleString := Some bytes |>
             | None => s' <| KiScheduleString := Some bytes |>
             end).
Proof.
  intros Hs Hnone Hzero. set (sa := s <| KiScheduleString := Some bytes |>).
  assert (Hsa : sched_inv sa).
  { apply (sched_inv_ext s); try done. intros t th Hlk. exists th. split_and!; [done..|]. intros ->.
    destruct (si_idle _ Hs) as (th' & ? & ?). naive_solver. }
  pose proof (KiSelectNextThread_spec s Hs) as Hdef.
  apply returns_alt in Hdef as ([sel s'] & Edef & _). rewrite Edef. run.
  unfold KiSelectNextThread in Edef |- *. 
  change (KiReadySummary sa) with (KiReadySummary s). change (KiScheduleString sa) with (Some bytes).
  destruct (Z.eqb_spec (KiReadySummary s) 0) as [|H0].
  { injection Edef as <- <-. exists (KiScheduleTrace s). done. }
  rewrite Hnone in Edef.
  destruct (schedule_choice_spec sa bytes) as (index & tr & Ec & _).
  pose proof (schedule_choice_index sa bytes) as Ei. rewrite Ec in Ei. simpl in Ei.
  assert (schedule_index sa bytes = 0) as Hidx.
  { unfold schedule_index. destruct (1 <? _), (_ <? KI_SCHEDULE_MAX_CHOICES); try done. simpl.
    destruct (_ <? _); [|done]. destruct (bytes !! _) as [b|] eqn:Eb; [|done].
    rewrite Forall_lookup in Hzero. by rewrite (Hzero _ _ Eb). }
  destruct (take_first sa tr Hsa H0) as (t & rest & Eq & Etk).
  rewrite Hidx in Ei. subst index. rewrite Ec, Etk. run. exists tr.
  change (ready_queue sa (highest_bit (KiReadySummary sa)))
    with (ready_queue s (highest_bit (KiReadySummary s))) in Eq. rewrite Eq in Edef.
  inv_outcome Edef. destruct rest; done.
Qed.
End sched.

(** ** A concrete ready set *)

Definition example_thread (st : KI_THREAD_STATE) (pr : Z) : KTHREAD :=
  mkKTHREAD st pr 0 false false 0 1 0 [] false 0 [] [] false false false false [] 0 0 0 0 0.

(** The idle thread 100 runs; 1 and 2 are READY at 8, 3 at 10. *)
Definition example_sched (bytes : option (list Z)) : KSTATE :=
  mkKSTATE 100 100
    {[ 100 := example_thread KI_THREAD_STATE_RUNNING 0; 1 := example_thread KI_THREAD_STATE_READY 8;
       2 := example_thread KI_THREAD_STATE_READY 8; 3 := example_thread KI_THREAD_STATE_READY 10 ]}
    ∅ (<[8%nat := [1; 2]]> (<[10%nat := [3]]> (replicate 32 [])))
    (2 ^ 8 + 2 ^ 10) 0 bytes (mkKI_SCHEDULE_TRACE 0 0 0 [] [] false) [] 0 0 0 0 0 0 0 0 0 [] None.

(** The invariant, checked by evaluation. *)
Definition queued_ok (s : KSTATE) (level : Z) (t : addr) : Prop :=
  t <> KiIdleThread s /\
  match threads s !! t with
  | Some th => state th = KI_THREAD_STATE_READY /\ priority th = level
  | None => False
  end.

Definition thread_ok (s : KSTATE) (t : addr) (th : KTHREAD) : Prop :=
  (0 <= priority th /\ priority th < 32) /\
  (t <> KiIdleThread s -> state th = KI_THREAD_STATE_READY -> t ∈ ready_queue s (priority th)) /\
  (t = KiIdleThread s -> state th = KI_THREAD_STATE_READY \/ state th = KI_THREAD_STATE_RUNNING).

Definition sched_ok (s : KSTATE) : Prop :=
  length (KiReadyQueues s) = 32%nat /\
  (0 <= KiReadySummary s /\ KiReadySummary s < 2 ^ 32) /\
  Forall (fun level => NoDup (ready_queue s level) /\
    Forall (queued_ok s level) (ready_queue s level) /\
    Z.testbit (KiReadySummary s) level = negb (bool_decide (ready_queue s level = [])))
    (Z.of_nat <$> seq 0 32) /\
  map_Forall (thread_ok s) (threads s) /\
  threads s !! KiIdleThread s <> None.

#[export] Instance queued_ok_dec s level t : Decision (queued_ok s level t).
Proof. unfold queued_ok. destruct (threads s !! t); apply _. Defined.
#[export] Instance thread_ok_dec s t th : Decision (thread_ok s t th).
Proof. unfold thread_ok. apply _. Defined.
#[export] Instance sched_ok_dec s : Decision (sched_ok s).
Proof. unfold sched_ok. apply _. Defined.

Lemma sched_ok_inv s : sched_ok s -> sched_inv s.
Proof.
  intros (Hlen & Hsum & Hlevels & Hthreads & Hidle). rewrite Forall_forall in Hlevels.
  assert (Hlev : forall level, is_level level -> level ∈ Z.of_nat <$> seq 0 32).
  { intros level [? ?]. unfold KI_PRIORITY_LEVELS in *. apply list_elem_of_fmap.
    exists (Z.to_nat level). rewrite elem_of_seq. lia. }
  split; try done.
  - intros level Hl. by apply Hlevels, Hlev.
  - intros level t Hl. destruct (Hlevels _ (Hlev _ Hl)) as (_ & Hq & _).
    rewrite Forall_forall in Hq. split.
    + intros Hin%Hq. destruct Hin as [? Hin]. split; [done|].
      destruct (threads s !! t) as [th|]; [|done]. eauto.
    + intros (Hne & th & Hlk & Hst & <-). by apply (Hthreads _ _ Hlk).
  - intros level Hl. by apply Hlevels, Hlev.
  - intros t th Hlk. by apply (Hthreads _ _ Hlk).
  - destruct (threads s !! KiIdleThread s) as [th|] eqn:E; [|done]. exists th. split; [done|].
    by apply (Hthreads _ _ E).
Qed.

(** Thread 3 runs, 1 and 2 wait behind it at its level. *)
Definition example_round : KSTATE :=
  example_sched None <| KiCurrentThread := 3 |>
    <| threads := {[ 100 := example_thread KI_THREAD_STATE_READY 0; 1 := example_thread KI_THREAD_STATE_READY 8;
         2 := example_thread KI_THREAD_STATE_READY 8; 3 := example_thread KI_THREAD_STATE_RUNNING 8 ]} |>
    <| KiReadyQueues := <[8%nat := [1; 2]]> (replicate 32 []) |> <| KiReadySummary := 2 ^ 8 |>.

Lemma example_round_top : at_top example_round 8.
Proof.
  split; try done; [apply sched_ok_inv; vm_compute_decide| |].
  - split; [by eexists|]. intros t th Ht Hst. simpl in Ht.
    repeat (apply lookup_insert_Some in Ht as [[<- <-]|[_ Ht]]; [done|]). by apply lookup_singleton_Some in Ht as [<- <-].
  - intros level [_ Hlt] Hgt. unfold KI_PRIORITY_LEVELS in Hlt.
    enough (H : Forall (fun n => ready_queue example_round (Z.of_nat n) = []) (seq 9 23)).
    { rewrite Forall_forall in H. rewrite <- (Z2Nat.id level) by lia. apply H, elem_of_seq. lia. }
    vm_compute_decide.
Qed.

(** The armed byte 2 takes the third of the order; two unarmed yields take the
    two that wait, in order. *)
Lemma KiSelectNextThread_policy_witness :
  sched_inv (example_sched (Some [2])) /\
  KiSelectNextThread (example_sched (Some [2])) =
    Ok (Some 2, dequeue_ready (example_sched (Some [2]) <| KiScheduleTrace :=
      mkKI_SCHEDULE_TRACE 1 1 1 [3] [2] false |>) 8 [1]) /\
  returns (KiSelectNextThread (example_sched (Some [2]))) (fun '(sel, s') => sel <> None) /\
  at_top example_round 8 /\
  returns (yield_times 2 example_round) (fun s' => KiCurrentThread s' = 2 /\ ready_queue s' 8 = [3; 1]).
Proof.
  assert (H : sched_inv (example_sched (Some [2]))) by (apply sched_ok_inv; vm_compute_decide).
  split_and!; [done|by vm_compute| |apply example_round_top|].
  - eapply returns_mono; [exact (proj1 (KiSelectNextThread_policy _ H))|]. intros [[t|] s']; [done|].
    intros [-> Hno] _. discriminate (Hno 1 _ eq_refl eq_refl).
  - eapply returns_mono.
    + refine (proj2 (proj2 (KiSelectNextThread_policy _ (top_inv _ _ example_round_top))) 8 2%nat example_round_top _).
      vm_compute. lia.
    + intros s' [E Eq]. simpl in E. injection E as <-. done.
Defined.

Lemma schedule_replays_witness :
  let s := example_sched (Some [2]) in
  trace_inv (KiScheduleTrace s) /\ KiCountReadyThreads s < 256 /\ (schedule_choice s [2]).1 = 2 /\
  (let '(index, s1) := schedule_choice s [2] in (schedule_choice s (chosen (KiScheduleTrace s1))).1 = index).
Proof.
  assert (H1 : trace_inv (KiScheduleTrace (example_sched (Some [2])))) by (split; simpl; done).
  assert (H2 : KiCountReadyThreads (example_sched (Some [2])) < 256) by done.
  split_and!; [done|done|by vm_compute|].
  pose proof (schedule_replays _ [2] H1 H2) as H.
  destruct (schedule_choice _ _) as [i s1], (schedule_choice _ _) as [j s2]. simpl. apply H.
Defined.

Lemma zero_schedule_default_witness :
  let s := example_sched None in
  sched_inv s /\ KiScheduleString s = None /\ Forall (fun b => b = 0) [0; 0] /\
  exists tr, KiSelectNextThread (s <| KiScheduleString := Some [0; 0] |>) =
    '(sel, s') ← KiSelectNextThread s;
    Ok (sel, match sel with
             | Some _ => s' <| KiScheduleTrace := tr |> <| KiScheduleString := Some [0; 0] |>
             | None => s' <| KiScheduleString := Some [0; 0] |>
             end).
Proof.
  assert (H1 : sched_inv (example_sched None)) by (apply sched_ok_inv; vm_compute_decide).
  assert (H2 : Forall (fun b => b = 0) [0; 0]) by (repeat constructor).
  split_and!; [done|done|done|]. exact (zero_schedule_default _ [0; 0] H1 eq_refl H2).
Defined.
