(* ===== verification/KeWait.v ===== *)
(** * KeWait: wait blocks, satisfaction, KeWaitFor* (kernel/ke/wait.c), and the
    timer queue they arm (kernel/ke/timer.c).

    A waiter is satisfied by the signaller.  A call that parks stops at
    KiCommitWait: the model returns [WaitParked], and [KiResumeWait] is the
    rest of the call, run when the scheduler gives the thread the CPU back. *)

From S2P Require Import Prelude NtStatus KeTypes KeSched.

(** ** Satisfaction *)

Definition KiIsSatisfiable (o : KOBJECT) (thread : addr) : bool :=
  (0 <? signalState o) ||
  (bool_decide (type o = KI_OBJECT_MUTANT) && (ownerThread o =? thread)).

(** A LONG decrement; overflow is undefined (and traps, the kernel being built
    with -fsanitize-trap=undefined). *)
Definition decrement_LONG (z : Z) : outcome Z :=
  if z =? - 2 ^ 31 then Fault "signed overflow" else Ok (z - 1).

Definition KiSatisfyObject (s : KSTATE) (object thread : addr) : outcome (bool * KSTATE) :=
  o ← get_object s object;
  match type o with
  | KI_OBJECT_SYNCHRONIZATION_EVENT
  | KI_OBJECT_SYNCHRONIZATION_TIMER =>
      Ok (false, put_object s object (o <| signalState := 0 |>))
  | KI_OBJECT_SEMAPHORE =>
      _ ← ASSERT (0 <? signalState o) "a wait may only consume a count";
      n ← decrement_LONG (signalState o);
      Ok (false, put_object s object (o <| signalState := n |>))
  | KI_OBJECT_MUTANT =>
      let wasAbandoned := abandoned o in
      n ← decrement_LONG (signalState o);
      let o1 := o <| signalState := n |> in
      if negb (ownerThread o =? thread) then
        let o2 := o1 <| ownerThread := thread |> <| abandoned := false |> in
        t ← get_thread s thread;
        let t1 := t <| mutantListHead := mutantListHead t ++ [object] |> in
        Ok (wasAbandoned, put_thread (put_object s object o2) thread t1)
      else Ok (wasAbandoned, put_object s object o1)
  | _ => Ok (false, s)
  end.

(** ** The timer queue *)

(** The position KiInsertTimer finds: before the first timer due strictly
    later, FIFO among equal deadlines. *)
Fixpoint insert_due (s : KSTATE) (l : list addr) (timer : addr) (due : Z) : outcome (list addr) :=
  match l with
  | [] => Ok [timer]
  | x :: l' =>
      o ← get_object s x;
      if dueTime o <=? due then l'' ← insert_due s l' timer due; Ok (x :: l'')
      else Ok (timer :: l)
  end.

Definition KiInsertTimer (s : KSTATE) (timer : addr) (dueInterruptTime : Z) : outcome KSTATE :=
  o ← get_object s timer;
  _ ← ASSERT (negb (inserted o)) "double insert corrupts the list";
  let s1 := put_object s timer (o <| dueTime := dueInterruptTime |> <| inserted := true |>) in
  l ← insert_due s1 (KiTimerListHead s1) timer dueInterruptTime;
  Ok (s1 <| KiTimerListHead := l |>).

Definition KiRemoveTimer (s : KSTATE) (timer : addr) : outcome KSTATE :=
  o ← get_object s timer;
  _ ← ASSERT (inserted o) "KiRemoveTimer";
  if decide (timer ∈ KiTimerListHead s) then
    let s1 := s <| KiTimerListHead := unlink timer (KiTimerListHead s) |> in
    Ok (put_object s1 timer (o <| inserted := false |>))
  else Panic "double remove".

(** KiComputeDueTime, without its rate-limited diagnostic line. *)
Definition KiComputeDueTime (s : KSTATE) (timeout : Z) : Z :=
  if timeout <? 0 then u64 (KiInterruptTime s + u64 (0 - u64 timeout))
  else if u64 timeout <=? KiSystemTimeBase s then KiInterruptTime s
  else u64 (u64 timeout - KiSystemTimeBase s).

(** ** Leaving a wait *)

(** RemoveEntryList on a wait block's link. *)
Definition unlink_block (s : KSTATE) (b : KWAIT_BLOCK) : outcome KSTATE :=
  o ← get_object s (blockObject b);
  if decide (b ∈ waitListHead o)
  then Ok (put_object s (blockObject b) (o <| waitListHead := unlink b (waitListHead o) |>))
  else Panic "double remove".

(** The embedded timeout block of a thread whose timeout is armed. *)
Definition timerWaitBlock (thread : addr) (t : KTHREAD) : KWAIT_BLOCK :=
  mkKWAIT_BLOCK thread (timer t) STATUS_TIMEOUT WaitAny.

Definition disarm_timeout (s : KSTATE) (thread : addr) (t : KTHREAD) : outcome KSTATE :=
  s1 ← unlink_block s (timerWaitBlock thread t);
  tm ← get_object s1 (timer t);
  if inserted tm then KiRemoveTimer s1 (timer t) else Ok s1.

Definition KiUnwaitThread (s : KSTATE) (thread : addr) (status : NTSTATUS) : outcome KSTATE :=
  t ← get_thread s thread;
  _ ← ASSERT (bool_decide (state t = KI_THREAD_STATE_WAITING)) "KiUnwaitThread";
  s1 ← foldM unlink_block s (waitBlockList t);
  s2 ← (if timerArmed t then disarm_timeout s1 thread t else Ok s1);
  let s3 := put_thread s2 thread
    (t <| waitBlockList := [] |> <| timerArmed := false |> <| waitStatus := status |>) in
  KiReadyThread s3 thread.

Definition KiUnwaitThreadWithStatus (s : KSTATE) (thread : addr) (status : NTSTATUS) : outcome KSTATE :=
  KiUnwaitThread s thread status.

Definition KiAlertWaitingThread (s : KSTATE) (thread : addr) : outcome KSTATE :=
  t ← get_thread s thread;
  _ ← ASSERT (bool_decide (state t = KI_THREAD_STATE_WAITING)) "KiAlertWaitingThread";
  KiUnwaitThread s thread STATUS_ALERTED.

Definition KiAbortThreadWait (s : KSTATE) (thread : addr) : outcome KSTATE :=
  t ← get_thread s thread;
  _ ← ASSERT (negb (threadObject t =? 0)) "KiAbortThreadWait";
  if rundownWait t then Ok s
  else if bool_decide (state t = KI_THREAD_STATE_WAITING)
  then KiUnwaitThread s thread STATUS_THREAD_IS_TERMINATING
  else Ok s.

Definition KiWaitAbortedForTermination (t : KTHREAD) : bool :=
  terminating t && negb (threadObject t =? 0) && negb (rundownWait t).

(** ** The signaller's side *)

Fixpoint all_satisfiable (s : KSTATE) (thread : addr) (objs : list addr) : outcome bool :=
  match objs with
  | [] => Ok true
  | a :: objs' =>
      o ← get_object s a;
      if KiIsSatisfiable o thread then all_satisfiable s thread objs' else Ok false
  end.

Definition KiIsWaitAllSatisfiable (s : KSTATE) (thread : addr) : outcome bool :=
  t ← get_thread s thread;
  all_satisfiable s thread (blockObject <$> waitBlockList t).

(** Satisfy [objs] in order; STATUS_ABANDONED_WAIT_0, bare, once an abandoned
    mutant is acquired. *)
Fixpoint satisfy_all (s : KSTATE) (thread : addr) (objs : list addr) (status : NTSTATUS)
    : outcome (NTSTATUS * KSTATE) :=
  match objs with
  | [] => Ok (status, s)
  | a :: objs' =>
      '(wasAbandoned, s') ← KiSatisfyObject s a thread;
      satisfy_all s' thread objs'
        (if wasAbandoned && (status =? STATUS_SUCCESS) then STATUS_ABANDONED_WAIT_0 else status)
  end.

Definition KiSatisfyWaitAll (s : KSTATE) (thread : addr) : outcome (NTSTATUS * KSTATE) :=
  t ← get_thread s thread;
  satisfy_all s thread (blockObject <$> waitBlockList t) STATUS_SUCCESS.

(** The body of KiWaitTest's loop: walk the wait list to the first waiter that
    can be completed, complete it and report a restart; [None] when the walk
    falls off the end. *)
Fixpoint wait_test_scan (s : KSTATE) (object : addr) (blocks : list KWAIT_BLOCK)
    : outcome (option KSTATE) :=
  match blocks with
  | [] => Ok None
  | block :: blocks' =>
      let thread := blockThread block in
      match waitType block with
      | WaitAny =>
          '(wasAbandoned, s1) ← KiSatisfyObject s object thread;
          let status := if (wasAbandoned : bool) then STATUS_ABANDONED_WAIT_0 + waitKey block
                        else waitKey block in
          s2 ← KiUnwaitThread s1 thread status;
          Ok (Some s2)
      | WaitAll =>
          ready ← KiIsWaitAllSatisfiable s thread;
          if (ready : bool) then
            '(status, s1) ← KiSatisfyWaitAll s thread;
            s2 ← KiUnwaitThread s1 thread status;
            Ok (Some s2)
          else wait_test_scan s object blocks'
      end
  end.

Fixpoint wait_test_loop (fuel : nat) (s : KSTATE) (object : addr) : outcome KSTATE :=
  match fuel with
  | O => OutOfFuel
  | S fuel' =>
      o ← get_object s object;
      if signalState o <=? 0 then Ok s else
      r ← wait_test_scan s object (waitListHead o);
      match r with
      | Some s' => wait_test_loop fuel' s' object
      | None => Ok s
      end
  end.

(** Each restart takes a waiter off the object's list, so the waiters and one
    last look bound the loop. *)
Definition KiWaitTest (s : KSTATE) (object : addr) : outcome KSTATE :=
  o ← get_object s object;
  wait_test_loop (S (length (waitListHead o))) s object.

(** ** Mutants *)

Definition KiReleaseMutant (s : KSTATE) (mutant : addr) (abandon : bool) : outcome (Z * KSTATE) :=
  o ← get_object s mutant;
  _ ← ASSERT (bool_decide (type o = KI_OBJECT_MUTANT)) "KiReleaseMutant";
  let previous := signalState o in
  o1 ← (if abandon then Ok (o <| signalState := 1 |> <| abandoned := true |>)
        else if negb (ownerThread o =? KiCurrentThread s)
        then Panic "KeReleaseMutex: caller does not own the mutex (STATUS_MUTANT_NOT_OWNED)"
        else
          _ ← ASSERT (signalState o <=? 0) "owned: 0 or recursion-negative";
          Ok (o <| signalState := signalState o + 1 |>));
  if signalState o1 =? 1 then
    t ← get_thread s (ownerThread o);
    if decide (mutant ∈ mutantListHead t) then
      let s1 := put_object s mutant (o1 <| ownerThread := 0 |>) in
      let s2 := put_thread s1 (ownerThread o)
                  (t <| mutantListHead := unlink mutant (mutantListHead t) |>) in
      s3 ← KiWaitTest s2 mutant;
      Ok (previous, s3)
    else Panic "double remove"
  else Ok (previous, put_object s mutant o1).

(** ** The waiter's side *)

Inductive wait_result :=
  | WaitReturned (status : NTSTATUS)
  | WaitParked.

(** Park the current thread and switch away. *)
Definition KiCommitWait (s : KSTATE) (thread : addr) : outcome KSTATE :=
  _ ← KiAssertMayBlock s;
  KiSwapToNext (alter_thread s thread (fun t => t <| state := KI_THREAD_STATE_WAITING |>)).

Definition KiArmWaitTimeout (s : KSTATE) (thread : addr) (timeout : Z) : outcome KSTATE :=
  t ← get_thread s thread;
  o ← get_object s (timer t);
  let s1 := put_object s (timer t)
    (o <| signalState := 0 |> <| waitListHead := waitListHead o ++ [timerWaitBlock thread t] |>) in
  s2 ← KiInsertTimer s1 (timer t) (KiComputeDueTime s1 timeout);
  Ok (alter_thread s2 thread (fun t => t <| timerArmed := true |>)).

Definition MAXIMUM_WAIT_OBJECTS : Z := 64.
Definition KI_THREAD_WAIT_OBJECTS : Z := 3.

(** objects[i] == objects[j] for some j < i. *)
Fixpoint has_duplicate (objs : list addr) : bool :=
  match objs with
  | [] => false
  | a :: objs' => bool_decide (a ∈ objs') || has_duplicate objs'
  end.

(** The first satisfiable object of a wait-any, from index [i] on. *)
Fixpoint first_satisfiable (s : KSTATE) (thread : addr) (objs : list addr) (i : Z)
    : outcome (option (Z * addr)) :=
  match objs with
  | [] => Ok None
  | a :: objs' =>
      o ← get_object s a;
      if KiIsSatisfiable o thread then Ok (Some (i, a))
      else first_satisfiable s thread objs' (i + 1)
  end.

(** Immediate satisfaction: the status and the state, or [None]. *)
Definition satisfy_now (s : KSTATE) (thread : addr) (objs : list addr) (waitType : WAIT_TYPE)
    : outcome (option (NTSTATUS * KSTATE)) :=
  match waitType with
  | WaitAny =>
      r ← first_satisfiable s thread objs 0;
      match r with
      | Some (i, a) =>
          '(wasAbandoned, s1) ← KiSatisfyObject s a thread;
          Ok (Some (if (wasAbandoned : bool) then STATUS_ABANDONED_WAIT_0 + i else STATUS_WAIT_0 + i, s1))
      | None => Ok None
      end
  | WaitAll =>
      allReady ← all_satisfiable s thread objs;
      if (allReady : bool) then
        r ← satisfy_all s thread objs STATUS_SUCCESS;
        Ok (Some r)
      else Ok None
  end.

(** A pending user APC or alert completes an alertable wait at once. *)
Definition alert_now (s : KSTATE) (thread : addr) (t : KTHREAD) : NTSTATUS * KSTATE :=
  if userApcPending t
  then (STATUS_USER_APC, put_thread s thread (t <| apcDeliverPending := true |>))
  else (STATUS_ALERTED, put_thread s thread (t <| alerted := false |>)).

Fixpoint wait_blocks (thread : addr) (objs : list addr) (i : Z) (waitType : WAIT_TYPE)
    : list KWAIT_BLOCK :=
  match objs with
  | [] => []
  | a :: objs' => mkKWAIT_BLOCK thread a i waitType :: wait_blocks thread objs' (i + 1) waitType
  end.

(** InsertTailList of one block on its object's list. *)
Definition link_block (s : KSTATE) (b : KWAIT_BLOCK) : outcome KSTATE :=
  o ← get_object s (blockObject b);
  Ok (put_object s (blockObject b) (o <| waitListHead := waitListHead o ++ [b] |>)).

(** [callerBlocks]: the caller passed its own wait block array.
    [timeout]: [None] for an infinite wait. *)
Definition KeWaitForMultipleObjects (s : KSTATE) (objs : list addr) (waitType : WAIT_TYPE)
    (alertable : bool) (timeout : option Z) (callerBlocks : bool) : outcome (wait_result * KSTATE) :=
  let thread := KiCurrentThread s in
  let count := Z.of_nat (length objs) in
  _ ← KiAssertMayBlock s;
  if (count =? 0) || (MAXIMUM_WAIT_OBJECTS <? count)
  then Panic "KeWaitForMultipleObjects: invalid object count" else
  if negb callerBlocks && (KI_THREAD_WAIT_OBJECTS <? count)
  then Panic "KeWaitForMultipleObjects: > 3 objects need a wait block array" else
  if bool_decide (waitType = WaitAll) && has_duplicate objs
  then Ok (WaitReturned STATUS_INVALID_PARAMETER, s) else
  t ← get_thread s thread;
  if KiWaitAbortedForTermination t
  then Ok (WaitReturned STATUS_THREAD_IS_TERMINATING, s) else
  now ← satisfy_now s thread objs waitType;
  match now with
  | Some (status, s1) => Ok (WaitReturned status, s1)
  | None =>
      if alertable && (userApcPending t || alerted t) then
        let '(status, s1) := alert_now s thread t in Ok (WaitReturned status, s1)
      else if bool_decide (timeout = Some 0) then Ok (WaitReturned STATUS_TIMEOUT, s)
      else
        let blocks := wait_blocks thread objs 0 waitType in
        s1 ← foldM link_block s blocks;
        let s2 := alter_thread s1 thread (fun t => t <| waitBlockList := blocks |>) in
        s3 ← (match timeout with
              | Some due => KiArmWaitTimeout s2 thread due
              | None => Ok s2
              end);
        let s4 := alter_thread s3 thread (fun t => t <| waitAlertable := alertable |>) in
        s5 ← KiCommitWait s4 thread;
        Ok (WaitParked, s5)
  end.

(** What a parked call does once the thread runs again. *)
Definition KiResumeWait (s : KSTATE) (thread : addr) : outcome (NTSTATUS * KSTATE) :=
  t ← get_thread s thread;
  Ok (waitStatus t, put_thread s thread (t <| waitAlertable := false |>)).

Definition KeWaitForSingleObject (s : KSTATE) (object : addr) (alertable : bool)
    (timeout : option Z) : outcome (wait_result * KSTATE) :=
  KeWaitForMultipleObjects s [object] WaitAny alertable timeout false.

Definition KeDelayExecutionThread (s : KSTATE) (alertable : bool) (interval : Z)
    : outcome (wait_result * KSTATE) :=
  let thread := KiCurrentThread s in
  _ ← KiAssertMayBlock s;
  t ← get_thread s thread;
  if KiWaitAbortedForTermination t
  then Ok (WaitReturned STATUS_THREAD_IS_TERMINATING, s)
  else if alertable && (userApcPending t || alerted t) then
    let '(status, s1) := alert_now s thread t in Ok (WaitReturned status, s1)
  else if interval =? 0 then
    s1 ← KiYield s; Ok (WaitReturned STATUS_SUCCESS, s1)
  else
    let s1 := put_thread s thread (t <| waitBlockList := [] |>) in
    s2 ← KiArmWaitTimeout s1 thread interval;
    let s3 := alter_thread s2 thread (fun t => t <| waitAlertable := alertable |>) in
    s4 ← KiCommitWait s3 thread;
    Ok (WaitParked, s4).

(** The status a resumed delay reports. *)
Definition delay_status (status : NTSTATUS) : NTSTATUS :=
  if status =? STATUS_TIMEOUT then STATUS_SUCCESS else status.

Lemma decrement_LONG_Ok z : - 2 ^ 31 < z -> decrement_LONG z = Ok (z - 1).
Proof. intros H. unfold decrement_LONG. destruct (Z.eqb_spec z (- 2 ^ 31)); [lia|done]. Qed.
