(* ===== verification/KeInv.v ===== *)
(** * KeInv: the invariant of the dispatcher, and what a wake does to it.

    The facts kernel/ke keeps in two places at once: a thread's blocks and the
    objects' wait lists, a timer's [inserted] flag and the timer queue, a
    mutant's owner and the owner's mutant list, a thread's state and the ready
    queues; and [quiet], which says that no wait that could complete is still
    parked.  KiUnwaitThread, KiSatisfyObject and KiWaitTest are shown to keep
    them. *)

From S2P Require Import Prelude NtStatus KeTypes KeSched KeWait.

(** ** Wait state: who waits on what *)

(** Every block a thread has armed: its wait's blocks and the timeout block. *)
Definition all_blocks (t : addr) (th : KTHREAD) : list KWAIT_BLOCK :=
  waitBlockList th ++ (if timerArmed th then [timerWaitBlock t th] else []).

(** A block is on the list of the object it names. *)
Definition linked (s : KSTATE) (b : KWAIT_BLOCK) : Prop :=
  exists o, objects s !! blockObject b = Some o /\ b ∈ waitListHead o.

(** The wait lists hold exactly the blocks [W]. *)
Record links (s : KSTATE) (W : KWAIT_BLOCK -> Prop) : Prop := {
  lk_nodup : forall a o, objects s !! a = Some o -> NoDup (waitListHead o);
  lk_here : forall a o b, objects s !! a = Some o -> b ∈ waitListHead o -> blockObject b = a;
  lk_iff : forall b, linked s b <-> W b;
}.

(** The blocks the threads say they have armed. *)
Definition armed (s : KSTATE) (b : KWAIT_BLOCK) : Prop :=
  exists th, threads s !! blockThread b = Some th /\ b ∈ all_blocks (blockThread b) th.

(** One thread's view of its own wait. *)
Record wait_ok (t : addr) (th : KTHREAD) : Prop := {
  wo_thread : forall b, b ∈ waitBlockList th -> blockThread b = t;
  wo_nodup : NoDup (all_blocks t th);
  wo_waiting : state th = KI_THREAD_STATE_WAITING <-> all_blocks t th <> [];
  wo_all : forall b b', b ∈ waitBlockList th -> b' ∈ waitBlockList th -> waitType b = waitType b';
  wo_distinct : forall b, b ∈ waitBlockList th -> waitType b = WaitAll ->
    NoDup (blockObject <$> waitBlockList th);
}.

Record wait_inv (s : KSTATE) : Prop := {
  wi_links : links s (armed s);
  wi_threads : forall t th, threads s !! t = Some th -> wait_ok t th;
}.

(** ** Timers *)

Definition due (s : KSTATE) (a : addr) : Z := default 0 (dueTime <$> objects s !! a).

Definition is_timer (ty : KI_OBJECT_TYPE) : Prop :=
  ty = KI_OBJECT_NOTIFICATION_TIMER \/ ty = KI_OBJECT_SYNCHRONIZATION_TIMER.

(** [exc]: a timer just taken off the queue whose thread is about to be woken. *)
Record timer_inv (exc : option addr) (s : KSTATE) : Prop := {
  ti_nodup : NoDup (KiTimerListHead s);
  ti_mem : forall a, a ∈ KiTimerListHead s <-> exists o, objects s !! a = Some o /\ inserted o = true;
  ti_sorted : StronglySorted (fun x y => due s x <= due s y) (KiTimerListHead s);
  ti_type : forall a o, objects s !! a = Some o -> inserted o = true ->
    is_timer (type o) /\ 0 <= dueTime o;
  ti_period : forall a o, objects s !! a = Some o -> 0 <= period o < 2 ^ 31;
  ti_thread : forall t th, threads s !! t = Some th -> exists o, objects s !! timer th = Some o /\
    type o = KI_OBJECT_NOTIFICATION_TIMER /\ period o = 0 /\
    (Some (timer th) <> exc -> inserted o = timerArmed th);
  ti_distinct : forall t t' th th', threads s !! t = Some th -> threads s !! t' = Some th' ->
    timer th = timer th' -> t = t';
}.

(** ** Mutants *)

Record mutant_ok (s : KSTATE) (m : addr) (o : KOBJECT) : Prop := {
  mo_free : ownerThread o = 0 -> signalState o = 1;
  mo_owned : ownerThread o <> 0 -> - 2 ^ 31 <= signalState o <= 0 /\
    exists th, threads s !! ownerThread o = Some th /\ m ∈ mutantListHead th;
}.

Record mutant_inv (s : KSTATE) : Prop := {
  mi_object : forall m o, objects s !! m = Some o -> type o = KI_OBJECT_MUTANT -> mutant_ok s m o;
  mi_list : forall t th m, threads s !! t = Some th -> m ∈ mutantListHead th ->
    exists o, objects s !! m = Some o /\ type o = KI_OBJECT_MUTANT /\ ownerThread o = t;
  mi_nodup : forall t th, threads s !! t = Some th -> NoDup (mutantListHead th);
  mi_dead : forall t th, threads s !! t = Some th -> state th = KI_THREAD_STATE_TERMINATED ->
    mutantListHead th = [];
}.

(** A waiting thread can take each of its mutants once more without wrapping
    the recursion count. *)
Definition room (s : KSTATE) (t : addr) (a : addr) : Prop :=
  forall o, objects s !! a = Some o -> type o = KI_OBJECT_MUTANT -> ownerThread o = t ->
    - 2 ^ 31 < signalState o.

Definition room_except (x : addr) (s : KSTATE) : Prop :=
  forall t th b, threads s !! t = Some th -> b ∈ waitBlockList th -> t <> x -> room s t (blockObject b).

Definition room_inv (s : KSTATE) : Prop :=
  forall t th b, threads s !! t = Some th -> b ∈ waitBlockList th -> room s t (blockObject b).

(** ** Objects *)

Record object_ok (o : KOBJECT) : Prop := {
  oo_semaphore : type o = KI_OBJECT_SEMAPHORE -> 0 <= signalState o <= limit o /\ limit o < 2 ^ 31;
  oo_flag : type o <> KI_OBJECT_SEMAPHORE -> type o <> KI_OBJECT_MUTANT -> 0 <= signalState o <= 1;
}.

Record object_inv (s : KSTATE) : Prop := {
  oi_object : forall a o, objects s !! a = Some o -> object_ok o;
  oi_thread : forall t th, threads s !! t = Some th -> t <> 0 /\ process th <> 0 /\
    exists o, objects s !! t = Some o /\ type o = KI_OBJECT_THREAD /\
      (state th = KI_THREAD_STATE_TERMINATED -> signalState o = 1);
}.

(** ** No missed wakeup *)

Definition sat (s : KSTATE) (a t : addr) : Prop :=
  exists o, objects s !! a = Some o /\ KiIsSatisfiable o t = true.

(** Block [b] of [th] could complete the wait right now. *)
Definition ready_block (s : KSTATE) (t : addr) (th : KTHREAD) (b : KWAIT_BLOCK) : Prop :=
  match waitType b with
  | WaitAny => sat s (blockObject b) t
  | WaitAll => forall b', b' ∈ waitBlockList th -> sat s (blockObject b') t
  end.

(** No wait that could complete is still parked. *)
Definition quiet (s : KSTATE) : Prop :=
  forall t th b, threads s !! t = Some th -> b ∈ all_blocks t th -> ~ ready_block s t th b.

(** Only a signal on [x] can have made a parked wait completable. *)
Definition quiet_but (x : addr) (s : KSTATE) : Prop :=
  forall t th b, threads s !! t = Some th -> b ∈ all_blocks t th -> ready_block s t th b ->
    match waitType b with
    | WaitAny => blockObject b = x
    | WaitAll => x ∈ blockObject <$> waitBlockList th
    end.

(** ** The invariant of the department *)

Record ke_body (exc : option addr) (s : KSTATE) : Prop := {
  kb_sched : sched_inv s;
  kb_wait : wait_inv s;
  kb_timer : timer_inv exc s;
  kb_mutant : mutant_inv s;
  kb_object : object_inv s;
}.

Definition ke_core (exc : option addr) (s : KSTATE) : Prop := ke_body exc s /\ room_inv s.

(** ** Leaving a wait *)

Section unwait.
Implicit Types (s : KSTATE) (t a : Z) (th : KTHREAD) (o : KOBJECT) (b : KWAIT_BLOCK).

Definition strip_object (bs : list KWAIT_BLOCK) o : KOBJECT :=
  o <| waitListHead := filter (fun b => b ∉ bs) (waitListHead o) |>.

(** Take the blocks [bs] off every list. *)
Definition strip (bs : list KWAIT_BLOCK) s : KSTATE :=
  s <| objects := strip_object bs <$> objects s |>.

Lemma strip_object_none bs o : (forall b, b ∈ bs -> b ∉ waitListHead o) -> strip_object bs o = o.
Proof.
  intros H. unfold strip_object. rewrite filter_all; [by destruct o|]. intros x Hx Hin. by eapply H.
Qed.

Lemma strip_nil s : strip [] s = s.
Proof.
  unfold strip. replace (strip_object [] <$> objects s) with (objects s); [by destruct s|].
  apply map_eq. intros i. rewrite lookup_fmap. destruct (objects s !! i) as [o|]; [|done]. simpl.
  rewrite strip_object_none; [done|]. intros b Hb. by apply elem_of_nil in Hb.
Qed.

Lemma strip_object_app bs bs' o : strip_object bs' (strip_object bs o) = strip_object (bs ++ bs') o.
Proof.
  unfold strip_object. destruct o as [ty ins sg l]; simpl.
  enough (filter (fun x => x ∉ bs') (filter (fun x => x ∉ bs) l) = filter (fun x => x ∉ bs ++ bs') l)
    as -> by done.
  rewrite list_filter_filter. apply list_filter_iff. intros x. rewrite elem_of_app. tauto.
Qed.

Lemma strip_app bs bs' s : strip bs' (strip bs s) = strip (bs ++ bs') s.
Proof.
  unfold strip. simpl. rewrite <- map_fmap_compose.
  replace (strip_object bs' ∘ strip_object bs <$> objects s)
    with (strip_object (bs ++ bs') <$> objects s); [by destruct s|].
  apply map_fmap_ext. intros i o _. simpl. by rewrite strip_object_app.
Qed.

Lemma links_strip s W bs : links s W -> links (strip bs s) (fun b => W b /\ b ∉ bs).
Proof.
  intros [Hn Hh Hi].
  assert (Hlk : forall a o', objects (strip bs s) !! a = Some o' ->
    exists o, objects s !! a = Some o /\ o' = strip_object bs o).
  { intros a o'. unfold strip. simpl. rewrite lookup_fmap. intros H%fmap_Some. naive_solver. }
  split.
  - intros a o' (o & Ho & ->)%Hlk. simpl. apply NoDup_filter. eauto.
  - intros a o' b (o & Ho & ->)%Hlk Hb. simpl in Hb. apply list_elem_of_filter in Hb. eapply Hh; naive_solver.
  - intros b. rewrite <- Hi. split.
    + intros (o' & (o & Ho & ->)%Hlk & Hb). simpl in Hb. apply list_elem_of_filter in Hb as [? ?].
      split; [|done]. by exists o.
    + intros [(o & Ho & Hb) Hbs]. exists (strip_object bs o). unfold strip. simpl.
      rewrite lookup_fmap, Ho. split; [done|]. apply list_elem_of_filter. done.
Qed.

Lemma unlink_block_eq s W b : links s W -> W b -> unlink_block s b = Ok (strip [b] s).
Proof.
  intros [Hn Hh Hi] Hb. apply Hi in Hb as (o & Ho & Hb). unfold unlink_block, get_object.
  rewrite Ho. run. rewrite decide_True by done. f_equal. unfold strip, put_object.
  enough (<[blockObject b := o <| waitListHead := unlink b (waitListHead o) |>]> (objects s) =
    strip_object [b] <$> objects s) as -> by done.
  apply map_eq. intros i. rewrite lookup_fmap. destruct (decide (i = blockObject b)) as [->|Hne].
  - rewrite lookup_insert_eq, Ho. simpl. f_equal. unfold strip_object, unlink.
    destruct o; simpl. f_equal. apply list_filter_iff. intros x. by rewrite list_elem_of_singleton.
  - rewrite lookup_insert_ne by done. destruct (objects s !! i) as [o'|] eqn:E; [|done]. simpl.
    rewrite strip_object_none; [done|]. intros x ->%list_elem_of_singleton Hin. apply Hne.
    symmetry. by eapply Hh.
Qed.

Lemma unlink_blocks_eq s W bs :
  links s W -> NoDup bs -> (forall b, b ∈ bs -> W b) -> foldM unlink_block s bs = Ok (strip bs s).
Proof.
  revert s W. induction bs as [|b bs IH]; intros s W Hl Hn HW; [by rewrite strip_nil|].
  apply NoDup_cons in Hn as [Hb Hn]. cbn [foldM].
  rewrite (unlink_block_eq s W); [|done|apply HW; left]. run. rewrite <- (strip_app [b] bs).
  eapply IH; [by apply links_strip|done|]. intros b' Hb'. split; [apply HW; by right|].
  by intros ->%list_elem_of_singleton.
Qed.

(** What KiUnwaitThread leaves of an object. *)
Definition unwait_object t th a o : KOBJECT :=
  strip_object (all_blocks t th) o
    <| inserted := if timerArmed th && (a =? timer th) then false else inserted o |>.

Definition unwait_thread th (status : NTSTATUS) : KTHREAD :=
  th <| waitBlockList := [] |> <| timerArmed := false |> <| waitStatus := status |>.

Definition unwaited s t th (status : NTSTATUS) : KSTATE :=
  let s1 := s <| objects := map_imap (fun a o => Some (unwait_object t th a o)) (objects s) |>
              <| KiTimerListHead := if timerArmed th then unlink (timer th) (KiTimerListHead s)
                                    else KiTimerListHead s |> in
  readied (put_thread s1 t (unwait_thread th status)) t (unwait_thread th status).

Lemma all_blocks_thread t th b : wait_ok t th -> b ∈ all_blocks t th -> blockThread b = t.
Proof.
  intros Hok. unfold all_blocks. rewrite elem_of_app. intros [Hb|Hb]; [by eapply wo_thread|].
  destruct (timerArmed th); [|by apply elem_of_nil in Hb]. by apply list_elem_of_singleton in Hb as ->.
Qed.

Lemma armed_blocks s t th b :
  wait_inv s -> threads s !! t = Some th -> b ∈ all_blocks t th -> armed s b.
Proof.
  intros [_ Hok] Hlk Hb. pose proof (all_blocks_thread _ _ _ (Hok _ _ Hlk) Hb) as <-.
  exists th. done.
Qed.

(** The blocks part of KiUnwaitThread, and the timer with it. *)
Definition cancel_waits s t th : outcome KSTATE :=
  s1 ← foldM unlink_block s (waitBlockList th);
  if timerArmed th then disarm_timeout s1 t th else Ok s1.

Lemma cancel_waits_eq exc s t th :
  wait_inv s -> timer_inv exc s -> threads s !! t = Some th ->
  cancel_waits s t th =
    Ok (s <| objects := map_imap (fun a o => Some (unwait_object t th a o)) (objects s) |>
          <| KiTimerListHead := if timerArmed th then unlink (timer th) (KiTimerListHead s)
                                else KiTimerListHead s |>).
Proof.
  intros Hw Ht Hlk. pose proof (wi_threads _ Hw _ _ Hlk) as Hok.
  pose proof (wo_nodup _ _ Hok) as Hnd. unfold cancel_waits.
  assert (Harm : forall b, b ∈ all_blocks t th -> armed s b) by (intros; by eapply armed_blocks).
  unfold all_blocks in *. apply NoDup_app in Hnd as (Hn1 & Hd & Hn2).
  rewrite (unlink_blocks_eq s (armed s)); [|by apply wi_links|done|].
  2:{ intros b Hb. apply Harm, elem_of_app. by left. }
  run. destruct (timerArmed th) eqn:Earm.
  2:{ f_equal. unfold strip.
      enough (strip_object (waitBlockList th) <$> objects s =
        map_imap (fun a o => Some (unwait_object t th a o)) (objects s)) as -> by (by destruct s).
      apply map_eq. intros i. rewrite lookup_fmap, map_lookup_imap.
      destruct (objects s !! i) as [o|]; [|done]. simpl. f_equal. unfold unwait_object, all_blocks.
      rewrite Earm, app_nil_r. simpl. by destruct o. }
  unfold disarm_timeout.
  rewrite (unlink_block_eq _ (fun b => armed s b /\ b ∉ waitBlockList th)).
  2:{ apply links_strip, wi_links, Hw. }
  2:{ split; [apply Harm, elem_of_app; right; left|]. intros Hin. apply (Hd _ Hin). left. }
  run. rewrite strip_app. destruct (ti_thread _ _ Ht _ _ Hlk) as (o & Ho & _).
  assert (Hlk1 : objects (strip (waitBlockList th ++ [timerWaitBlock t th]) s) !! timer th =
    Some (strip_object (all_blocks t th) o)).
  { unfold strip, all_blocks. simpl. by rewrite lookup_fmap, Ho, Earm. }
  unfold KiRemoveTimer, get_object. rewrite Hlk1. run. simpl (inserted _).
  assert (Hmap : forall i o', objects s !! i = Some o' -> (i <> timer th \/ inserted o' = false) ->
    strip_object (all_blocks t th) o' = unwait_object t th i o').
  { intros i o' _ Hi. unfold unwait_object. rewrite Earm. simpl. destruct (Z.eqb_spec i (timer th)).
    - destruct Hi as [|Hi]; [done|]. destruct o'; simpl in *. by subst.
    - by destruct o'. }
  destruct (inserted o) eqn:Eins.
  - run. rewrite decide_True by (apply (ti_mem _ _ Ht); eauto). f_equal.
    enough (<[timer th := strip_object (all_blocks t th) o <| inserted := false |>]>
       (strip_object (waitBlockList th ++ [timerWaitBlock t th]) <$> objects s) =
       map_imap (fun a o => Some (unwait_object t th a o)) (objects s)) as Hm.
    { unfold put_object, strip. destruct s. simpl in *. by rewrite Hm. }
    apply map_eq. intros i. rewrite map_lookup_imap. destruct (decide (i = timer th)) as [->|].
    + rewrite lookup_insert_eq, Ho. simpl. unfold unwait_object. by rewrite Earm, Z.eqb_refl.
    + rewrite lookup_insert_ne, lookup_fmap by done. destruct (objects s !! i) as [o'|] eqn:E; [|done].
      simpl. f_equal. rewrite <- (Hmap i) by auto. unfold all_blocks. by rewrite Earm.
  - f_equal. rewrite unlink_not_elem.
    2:{ rewrite (ti_mem _ _ Ht). intros (o' & ? & ?). congruence. }
    unfold strip. enough (strip_object (waitBlockList th ++ [timerWaitBlock t th]) <$> objects s =
       map_imap (fun a o => Some (unwait_object t th a o)) (objects s)) as -> by (by destruct s).
    apply map_eq. intros i. rewrite map_lookup_imap, lookup_fmap.
    destruct (objects s !! i) as [o'|] eqn:E; [|done]. simpl. f_equal. rewrite <- (Hmap i); [|done|].
    + unfold all_blocks. by rewrite Earm.
    + destruct (decide (i = timer th)) as [->|]; [right; congruence|by left].
Qed.

(** The state before the thread is queued. *)
Definition unwait_base s t th (status : NTSTATUS) : KSTATE :=
  put_thread (s <| objects := map_imap (fun a o => Some (unwait_object t th a o)) (objects s) |>
              <| KiTimerListHead := if timerArmed th then unlink (timer th) (KiTimerListHead s)
                                    else KiTimerListHead s |>) t (unwait_thread th status).

Lemma waiting_not_idle s t th :
  sched_inv s -> threads s !! t = Some th -> state th = KI_THREAD_STATE_WAITING -> t <> KiIdleThread s.
Proof. intros Hs Hlk Hst ->. destruct (si_idle _ Hs) as (th' & ? & [|]); congruence. Qed.

Lemma unwait_base_sched s t th status :
  sched_inv s -> threads s !! t = Some th -> state th = KI_THREAD_STATE_WAITING ->
  sched_inv (unwait_base s t th status).
Proof.
  intros Hs Hlk Hst. pose proof (waiting_not_idle _ _ _ Hs Hlk Hst) as Hidle.
  apply (sched_inv_ext s); try done; simpl.
  - intros x thx Hx. destruct (decide (x = t)) as [->|].
    + rewrite lookup_insert_eq. simplify_eq. eexists. split; [done|]. by split_and!.
    + rewrite lookup_insert_ne by done. exists thx. split_and!; [done..|]. intros ->.
      destruct (si_idle _ Hs) as (th' & ? & ?). naive_solver.
  - intros x Hx. destruct (decide (x = t)) as [->|]; [congruence|]. by rewrite lookup_insert_ne.
Qed.

Lemma KiUnwaitThread_eq exc s t th status :
  sched_inv s -> wait_inv s -> timer_inv exc s ->
  threads s !! t = Some th -> state th = KI_THREAD_STATE_WAITING ->
  KiUnwaitThread s t status = Ok (unwaited s t th status).
Proof.
  intros Hs Hw Ht Hlk Hst. pose proof (cancel_waits_eq exc s t th Hw Ht Hlk) as Hc.
  unfold KiUnwaitThread, get_thread. rewrite Hlk. run. rewrite bool_decide_eq_true_2 by done. run.
  unfold cancel_waits in Hc. apply bind_Ok in Hc as (s1 & E1 & E2). rewrite E1. run. rewrite E2. run.
  pose proof (unwait_base_sched s t th status Hs Hlk Hst) as Hsb.
  apply (KiReadyThread_eq (unwait_base s t th status) t (unwait_thread th status)).
  - done.
  - simpl. by rewrite lookup_insert_eq.
  - simpl. by eapply waiting_not_idle.
  - simpl. congruence.
  - simpl. congruence.
Qed.

Lemma unwaited_sched s t th status :
  sched_inv s -> threads s !! t = Some th -> state th = KI_THREAD_STATE_WAITING ->
  sched_inv (unwaited s t th status).
Proof.
  intros Hs Hlk Hst. apply (readied_inv (unwait_base s t th status)).
  - by apply unwait_base_sched.
  - simpl. by rewrite lookup_insert_eq.
  - simpl. by eapply waiting_not_idle.
  - simpl. congruence.
Qed.

Definition awake th (status : NTSTATUS) : KTHREAD :=
  unwait_thread th status <| state := KI_THREAD_STATE_READY |>.

Lemma unwaited_threads s t th status x :
  threads (unwaited s t th status) !! x =
  if decide (x = t) then Some (awake th status) else threads s !! x.
Proof.
  unfold unwaited, readied. simpl. destruct (decide (x = t)) as [->|].
  - by rewrite lookup_insert_eq.
  - by rewrite !lookup_insert_ne.
Qed.

Lemma unwaited_objects s t th status a :
  objects (unwaited s t th status) !! a = unwait_object t th a <$> objects s !! a.
Proof. unfold unwaited, readied. simpl. rewrite map_lookup_imap. by destruct (objects s !! a). Qed.

Lemma unwaited_object_inv s t th status a o' :
  objects (unwaited s t th status) !! a = Some o' ->
  exists o, objects s !! a = Some o /\ o' = unwait_object t th a o.
Proof. rewrite unwaited_objects. intros (o & ? & ?)%fmap_Some. eauto. Qed.

Lemma unwaited_wait s t th status :
  wait_inv s -> threads s !! t = Some th -> wait_inv (unwaited s t th status).
Proof.
  intros Hw Hlk. pose proof (wi_threads _ Hw) as Hok. destruct (wi_links _ Hw) as [Hn Hh Hi].
  split; [split|].
  - intros a o' (o & Ho & ->)%unwaited_object_inv. simpl. apply NoDup_filter. eauto.
  - intros a o' b (o & Ho & ->)%unwaited_object_inv Hb. simpl in Hb.
    apply list_elem_of_filter in Hb. eapply Hh; naive_solver.
  - intros b. transitivity (armed s b /\ b ∉ all_blocks t th).
    + rewrite <- Hi. split.
      * intros (o' & (o & Ho & ->)%unwaited_object_inv & Hb). simpl in Hb.
        apply list_elem_of_filter in Hb as [? ?]. split; [|done]. by exists o.
      * intros [(o & Ho & Hb) Hnb]. exists (unwait_object t th (blockObject b) o).
        rewrite unwaited_objects, Ho. split; [done|]. by apply list_elem_of_filter.
    + unfold armed. rewrite unwaited_threads. destruct (decide (blockThread b = t)) as [<-|Hne].
      * split; [intros [(th' & ? & ?) ?]; simplify_eq; done|]. intros (th' & [= <-] & Hb).
        by apply elem_of_nil in Hb.
      * split; [naive_solver|]. intros Ha. split; [done|]. intros Hb. apply Hne.
        eapply all_blocks_thread; [|done]. eauto.
  - intros x thx. rewrite unwaited_threads. destruct (decide (x = t)) as [->|]; [|eauto].
    intros [= <-]. split; simpl; try done; try (by constructor);
      first [intros b Hb; by apply elem_of_nil in Hb | intros b b' Hb; by apply elem_of_nil in Hb].
Qed.

Lemma StronglySorted_filter {A} (R : A -> A -> Prop) (P : A -> Prop) `{!forall x, Decision (P x)} l :
  StronglySorted R l -> StronglySorted R (filter P l).
Proof.
  induction 1 as [|x l Hl IH Hx]; [constructor|]. rewrite filter_cons. destruct (decide (P x)); [|done].
  constructor; [done|]. rewrite Forall_forall in Hx |- *. intros y Hy%list_elem_of_filter. naive_solver.
Qed.

Lemma StronglySorted_mono {A} (R R' : A -> A -> Prop) l :
  (forall x y, x ∈ l -> y ∈ l -> R x y -> R' x y) -> StronglySorted R l -> StronglySorted R' l.
Proof.
  intros H Hl. induction Hl as [|x l Hl IH Hx]; constructor.
  - apply IH. intros y z Hy Hz. apply H; by right.
  - rewrite Forall_forall in Hx |- *. intros y Hy. apply H; [left|by right|auto].
Qed.

Lemma unwaited_due s t th status a : due (unwaited s t th status) a = due s a.
Proof. unfold due. rewrite unwaited_objects. by destruct (objects s !! a). Qed.

Lemma unwaited_timer exc s t th status :
  timer_inv exc s -> threads s !! t = Some th -> timer_inv exc (unwaited s t th status).
Proof.
  intros Ht Hlk. set (s' := unwaited s t th status).
  assert (El : KiTimerListHead s' =
    if timerArmed th then unlink (timer th) (KiTimerListHead s) else KiTimerListHead s) by done.
  assert (Ein : forall a o, inserted (unwait_object t th a o) = true <->
    inserted o = true /\ ~ (timerArmed th = true /\ a = timer th)).
  { intros a o. simpl. destruct (timerArmed th), (Z.eqb_spec a (timer th)); simpl; naive_solver. }
  split.
  - rewrite El. destruct (timerArmed th); [apply NoDup_unlink|]; apply (ti_nodup _ _ Ht).
  - intros a. rewrite El. transitivity (a ∈ KiTimerListHead s /\ ~ (timerArmed th = true /\ a = timer th)).
    + destruct (timerArmed th); [rewrite elem_of_unlink|]; naive_solver.
    + rewrite (ti_mem _ _ Ht). split.
      * intros [(o & Ho & Hi) Hn]. exists (unwait_object t th a o). unfold s'.
        rewrite unwaited_objects, Ho. split; [done|]. by apply Ein.
      * intros (o' & (o & Ho & ->)%unwaited_object_inv & Hi). apply Ein in Hi. naive_solver.
  - rewrite El. eapply (StronglySorted_mono (fun x y => due s x <= due s y)).
    + intros x y _ _. unfold s'. by rewrite !unwaited_due.
    + destruct (timerArmed th); [apply StronglySorted_filter|]; apply (ti_sorted _ _ Ht).
  - intros a o' (o & Ho & ->)%unwaited_object_inv Hi%Ein. apply (ti_type _ _ Ht _ _ Ho). apply Hi.
  - intros a o' (o & Ho & ->)%unwaited_object_inv. apply (ti_period _ _ Ht _ _ Ho).
  - intros x thx Hx. unfold s' in Hx. rewrite unwaited_threads in Hx. destruct (decide (x = t)) as [->|Hne].
    + injection Hx as <-. destruct (ti_thread _ _ Ht _ _ Hlk) as (o & Ho & Hty & Hp & Hi).
      exists (unwait_object t th (timer th) o). unfold s'. rewrite unwaited_objects. simpl. rewrite Ho.
      split_and!; [done..|]. intros Hexc. destruct (timerArmed th) eqn:E; simpl.
      * by rewrite Z.eqb_refl.
      * by apply Hi.
    + destruct (ti_thread _ _ Ht _ _ Hx) as (o & Ho & Hty & Hp & Hi).
      exists (unwait_object t th (timer thx) o). unfold s'. rewrite unwaited_objects, Ho.
      split_and!; [done..|]. intros Hexc. simpl. rewrite <- Hi by done.
      destruct (Z.eqb_spec (timer thx) (timer th)) as [E|]; [|by rewrite andb_false_r].
      destruct Hne. by eapply ti_distinct.
  - intros x y thx thy. unfold s'. rewrite !unwaited_threads.
    pose proof (ti_distinct _ _ Ht) as Hd.
    destruct (decide (x = t)) as [->|], (decide (y = t)) as [->|]; intros Hx Hy; simplify_eq/=; eauto.
Qed.

(** A wake leaves every mutant with its owner. *)
Lemma unwaited_mutant s t th status :
  mutant_inv s -> threads s !! t = Some th -> mutant_inv (unwaited s t th status).
Proof.
  intros [Ho Hl Hn Hd] Hlk. split.
  - intros m o' (o & Hm & ->)%unwaited_object_inv Hty. destruct (Ho _ _ Hm Hty) as [Hf Hw].
    split; [done|]. intros Hne. destruct (Hw Hne) as (Hr & th0 & Hth0 & Hin). split; [done|].
    change (ownerThread (unwait_object t th m o)) with (ownerThread o).
    rewrite unwaited_threads. destruct (decide (ownerThread o = t)) as [E|]; [|eauto].
    eexists. split; [done|]. simpl. naive_solver.
  - intros x thx m. rewrite unwaited_threads. intros Hx Hm.
    assert (exists th0, threads s !! x = Some th0 /\ m ∈ mutantListHead th0) as (th0 & Hth0 & Hin).
    { destruct (decide (x = t)) as [->|]; [|eauto]. injection Hx as <-. exists th. done. }
    destruct (Hl _ _ _ Hth0 Hin) as (o & Hom & Hty & How).
    exists (unwait_object t th m o). rewrite unwaited_objects, Hom. done.
  - intros x thx. rewrite unwaited_threads. destruct (decide (x = t)) as [->|]; [|eauto].
    intros [= <-]. simpl. eauto.
  - intros x thx. rewrite unwaited_threads. destruct (decide (x = t)) as [->|]; [|eauto].
    by intros [= <-].
Qed.

Lemma unwaited_room s t th status :
  room_except t s -> threads s !! t = Some th -> room_inv (unwaited s t th status).
Proof.
  intros Hr Hlk x thx b. rewrite unwaited_threads. destruct (decide (x = t)) as [->|Hne].
  - intros [= <-] Hb. by apply elem_of_nil in Hb.
  - intros Hx Hb o' (o & Ho & ->)%unwaited_object_inv. exact (Hr _ _ _ Hx Hb Hne o Ho).
Qed.

Lemma unwaited_object_inv' s t th status :
  object_inv s -> threads s !! t = Some th -> object_inv (unwaited s t th status).
Proof.
  intros [Ho Ht] Hlk. split.
  - intros a o' (o & Hoa & ->)%unwaited_object_inv. destruct (Ho _ _ Hoa). by split.
  - intros x thx. rewrite unwaited_threads. intros Hx.
    assert (exists th0, threads s !! x = Some th0 /\ process thx = process th0 /\
      (state thx = KI_THREAD_STATE_TERMINATED -> state th0 = KI_THREAD_STATE_TERMINATED))
      as (th0 & Hth0 & Hp & Hst).
    { destruct (decide (x = t)) as [->|]; [|eauto]. injection Hx as <-. by exists th. }
    destruct (Ht _ _ Hth0) as (H0 & Hproc & o & Hox & Hty & Hsig). rewrite Hp. split_and!; [done..|].
    exists (unwait_object t th x o). rewrite unwaited_objects, Hox. split_and!; [done..|]. simpl. auto.
Qed.

Lemma unwaited_core exc s t th status :
  ke_body exc s -> room_except t s -> threads s !! t = Some th -> state th = KI_THREAD_STATE_WAITING ->
  ke_core exc (unwaited s t th status).
Proof.
  intros [Hs Hw Ht Hm Ho] Hr Hlk Hst. split; [split|]; auto using unwaited_sched, unwaited_wait,
    unwaited_timer, unwaited_mutant, unwaited_room, unwaited_object_inv'.
Qed.
End unwait.

(** ** Frames: what each invariant does not look at *)

Section frames.
Implicit Types (s : KSTATE) (t a : Z) (th : KTHREAD) (o : KOBJECT) (b : KWAIT_BLOCK).

Record wait_thread_frame th th' : Prop := {
  wf_blocks : waitBlockList th' = waitBlockList th;
  wf_armed : timerArmed th' = timerArmed th;
  wf_timer : timer th' = timer th;
  wf_waiting : state th' = KI_THREAD_STATE_WAITING <-> state th = KI_THREAD_STATE_WAITING;
}.

Record wait_object_frame o o' : Prop := {
  wf_list : waitListHead o' = waitListHead o;
  wf_inserted : inserted o' = inserted o;
  wf_due : dueTime o' = dueTime o;
  wf_period : period o' = period o;
  wf_type : type o' = type o;
  wf_limit : limit o' = limit o;
}.

Record wait_frame s s' : Prop := {
  wf_threads : forall t, option_Forall2 wait_thread_frame (threads s !! t) (threads s' !! t);
  wf_objects : forall a, option_Forall2 wait_object_frame (objects s !! a) (objects s' !! a);
  wf_timers : KiTimerListHead s' = KiTimerListHead s;
}.

Lemma Forall2_Some_l {A B} (R : A -> B -> Prop) mx my x :
  option_Forall2 R mx my -> mx = Some x -> exists y, my = Some y /\ R x y.
Proof. intros [? ? ?|]; naive_solver. Qed.
Lemma Forall2_Some_r {A B} (R : A -> B -> Prop) mx my y :
  option_Forall2 R mx my -> my = Some y -> exists x, mx = Some x /\ R x y.
Proof. intros [? ? ?|]; naive_solver. Qed.

Lemma frame_blocks t th th' : wait_thread_frame th th' -> all_blocks t th' = all_blocks t th.
Proof.
  intros [E1 E2 E3 _]. unfold all_blocks, timerWaitBlock. by rewrite E1, E2, E3.
Qed.

Lemma wait_inv_frame s s' : wait_frame s s' -> wait_inv s -> wait_inv s'.
Proof.
  intros [Ft Fo _] [[Hn Hh Hi] Hok]. split; [split|].
  - intros a o' Ho'. destruct (Forall2_Some_r _ _ _ _ (Fo a) Ho') as (o & Ho & F).
    rewrite (wf_list _ _ F). eauto.
  - intros a o' b Ho'. destruct (Forall2_Some_r _ _ _ _ (Fo a) Ho') as (o & Ho & F).
    rewrite (wf_list _ _ F). eauto.
  - intros b. transitivity (armed s b); [transitivity (linked s b)|]; [|apply Hi|].
    + split.
      * intros (o' & Ho' & Hb). destruct (Forall2_Some_r _ _ _ _ (Fo _) Ho') as (o & Ho & F).
        rewrite (wf_list _ _ F) in Hb. by exists o.
      * intros (o & Ho & Hb). destruct (Forall2_Some_l _ _ _ _ (Fo _) Ho) as (o' & Ho' & F).
        rewrite <- (wf_list _ _ F) in Hb. by exists o'.
    + split.
      * intros (th & Hth & Hb). destruct (Forall2_Some_l _ _ _ _ (Ft _) Hth) as (th' & Hth' & F).
        rewrite <- (frame_blocks _ _ _ F) in Hb. by exists th'.
      * intros (th' & Hth' & Hb). destruct (Forall2_Some_r _ _ _ _ (Ft _) Hth') as (th & Hth & F).
        rewrite (frame_blocks _ _ _ F) in Hb. by exists th.
  - intros t th' Hth'. destruct (Forall2_Some_r _ _ _ _ (Ft t) Hth') as (th & Hth & F).
    destruct (Hok _ _ Hth). split; rewrite ?(wf_blocks _ _ F), ?(frame_blocks _ _ _ F), ?(wf_waiting _ _ F); auto.
Qed.

Lemma frame_due s s' a : wait_frame s s' -> due s' a = due s a.
Proof.
  intros [_ Fo _]. unfold due. destruct (Fo a) as [o o' F|]; [|done]. simpl. apply (wf_due _ _ F).
Qed.

Lemma timer_inv_frame exc s s' : wait_frame s s' -> timer_inv exc s -> timer_inv exc s'.
Proof.
  intros F [Hn Hm Hs Hty Hp Hth Hd]. pose proof F as [Ft Fo Fl].
  assert (Hr : forall a o', objects s' !! a = Some o' ->
    exists o, objects s !! a = Some o /\ wait_object_frame o o') by (intros; by eapply Forall2_Some_r).
  split; rewrite ?Fl; try done.
  - intros a. rewrite Hm. split.
    + intros (o & Ho & E). destruct (Forall2_Some_l _ _ _ _ (Fo _) Ho) as (o' & Ho' & Fr).
      exists o'. rewrite (wf_inserted _ _ Fr). done.
    + intros (o' & (o & Ho & Fr)%Hr & E). exists o. rewrite <- (wf_inserted _ _ Fr). done.
  - eapply StronglySorted_mono; [|apply Hs]. intros x y _ _. by rewrite !(frame_due _ _ _ F).
  - intros a o' (o & Ho & Fr)%Hr E. rewrite (wf_inserted _ _ Fr) in E.
    rewrite (wf_type _ _ Fr), (wf_due _ _ Fr). eauto.
  - intros a o' (o & Ho & Fr)%Hr. rewrite (wf_period _ _ Fr). eauto.
  - intros t th' Hth'. destruct (Forall2_Some_r _ _ _ _ (Ft t) Hth') as (th & Hlk & Fr).
    destruct (Hth _ _ Hlk) as (o & Ho & E1 & E2 & E3).
    destruct (Forall2_Some_l _ _ _ _ (Fo _) Ho) as (o' & Ho' & Fro). exists o'.
    rewrite (wf_timer _ _ Fr), (wf_type _ _ Fro), (wf_period _ _ Fro), (wf_inserted _ _ Fro),
      (wf_armed _ _ Fr). done.
  - intros t t' th1 th2 H1 H2. destruct (Forall2_Some_r _ _ _ _ (Ft t) H1) as (? & ? & F1).
    destruct (Forall2_Some_r _ _ _ _ (Ft t') H2) as (? & ? & F2).
    rewrite (wf_timer _ _ F1), (wf_timer _ _ F2). eauto.
Qed.

(** *** The mutants' view *)

Record mutant_thread_frame th th' : Prop := {
  mf_list : mutantListHead th' = mutantListHead th;
  mf_dead : state th' = KI_THREAD_STATE_TERMINATED -> state th = KI_THREAD_STATE_TERMINATED;
}.

Record mutant_object_frame o o' : Prop := {
  mf_type : type o' = type o;
  mf_owner : type o = KI_OBJECT_MUTANT -> ownerThread o' = ownerThread o;
  mf_signal : type o = KI_OBJECT_MUTANT -> signalState o' = signalState o;
}.

Record mutant_frame s s' : Prop := {
  mf_threads : forall t, option_Forall2 mutant_thread_frame (threads s !! t) (threads s' !! t);
  mf_objects : forall a, option_Forall2 mutant_object_frame (objects s !! a) (objects s' !! a);
}.

Lemma mutant_inv_frame s s' : mutant_frame s s' -> mutant_inv s -> mutant_inv s'.
Proof.
  intros [Ft Fo] [Ho Hl Hn Hd]. split.
  - intros m o' Hm' Hty'. destruct (Forall2_Some_r _ _ _ _ (Fo m) Hm') as (o & Hm & Fr).
    assert (Hty : type o = KI_OBJECT_MUTANT) by (by rewrite <- (mf_type _ _ Fr)).
    destruct (Ho _ _ Hm Hty) as [Hf Hw].
    split; rewrite (mf_owner _ _ Fr Hty), (mf_signal _ _ Fr Hty); [done|]. intros Hne.
    destruct (Hw Hne) as (Hr & th & Hth & Hin). split; [done|].
    destruct (Forall2_Some_l _ _ _ _ (Ft _) Hth) as (th' & Hth' & Frt). exists th'.
    by rewrite (mf_list _ _ Frt).
  - intros t th' m Hth' Hin. destruct (Forall2_Some_r _ _ _ _ (Ft t) Hth') as (th & Hth & Fr).
    rewrite (mf_list _ _ Fr) in Hin. destruct (Hl _ _ _ Hth Hin) as (o & Hm & Hty & How).
    destruct (Forall2_Some_l _ _ _ _ (Fo m) Hm) as (o' & Hm' & Fro). exists o'.
    by rewrite (mf_type _ _ Fro), (mf_owner _ _ Fro).
  - intros t th' Hth'. destruct (Forall2_Some_r _ _ _ _ (Ft t) Hth') as (th & Hth & Fr).
    rewrite (mf_list _ _ Fr). eauto.
  - intros t th' Hth' Hst. destruct (Forall2_Some_r _ _ _ _ (Ft t) Hth') as (th & Hth & Fr).
    rewrite (mf_list _ _ Fr). eauto using mf_dead.
Qed.

(** Waits of other threads see satisfiability only through objects. *)
Lemma quiet_mono s s' :
  (forall t th', threads s' !! t = Some th' -> all_blocks t th' <> [] ->
     exists th, threads s !! t = Some th /\ all_blocks t th' = all_blocks t th /\
       waitBlockList th' = waitBlockList th /\
       forall b, b ∈ all_blocks t th -> sat s' (blockObject b) t -> sat s (blockObject b) t) ->
  (quiet s -> quiet s') /\ forall x, quiet_but x s -> quiet_but x s'.
Proof.
  intros H.
  assert (Hr : forall t th' b, threads s' !! t = Some th' -> b ∈ all_blocks t th' ->
    ready_block s' t th' b -> exists th, threads s !! t = Some th /\ b ∈ all_blocks t th /\
      waitBlockList th' = waitBlockList th /\ ready_block s t th b).
  { intros t th' b Hth' Hb Hready.
    destruct (H _ _ Hth') as (th & Hth & Eb & Ew & Hsat); [by intros E; rewrite E in Hb; apply elem_of_nil in Hb|].
    exists th. rewrite <- Eb. split_and!; [done..|]. unfold ready_block in *.
    rewrite Eb in Hb. destruct (waitType b).
    - intros b' Hb'. apply Hsat; [apply elem_of_app; by left|]. apply Hready. by rewrite Ew.
    - by apply Hsat. }
  split.
  - intros Hq t th' b Hth' Hb Hready. destruct (Hr _ _ _ Hth' Hb Hready) as (th & ? & ? & _ & ?).
    by eapply Hq.
  - intros x Hq t th' b Hth' Hb Hready. destruct (Hr _ _ _ Hth' Hb Hready) as (th & ? & ? & -> & ?).
    by eapply Hq.
Qed.
End frames.

(** ** Consuming a signal *)

Section satisfaction.
Implicit Types (s : KSTATE) (t a x : Z) (th : KTHREAD) (o : KOBJECT) (b : KWAIT_BLOCK).

Lemma option_Forall2_refl {A} (R : A -> A -> Prop) (mx : option A) :
  (forall y, mx = Some y -> R y y) -> option_Forall2 R mx mx.
Proof. intros H. destruct mx; constructor; auto. Qed.

Lemma wait_thread_frame_refl th : wait_thread_frame th th.
Proof. by split. Qed.
Lemma wait_object_frame_refl o : wait_object_frame o o.
Proof. by split. Qed.

Lemma wait_frame_refl s : wait_frame s s.
Proof. split; [| |done]; intros; apply option_Forall2_refl; by split. Qed.

(** Writing one object, one thread. *)
Lemma put_object_forall2 (R : KOBJECT -> KOBJECT -> Prop) s a o o' :
  (forall o, R o o) -> objects s !! a = Some o -> R o o' ->
  forall i, option_Forall2 R (objects s !! i) (objects (put_object s a o') !! i).
Proof.
  intros Hrefl Ho Hr i. simpl. destruct (decide (i = a)) as [->|].
  - rewrite lookup_insert_eq, Ho. by constructor.
  - rewrite lookup_insert_ne by done. by apply option_Forall2_refl.
Qed.

Lemma put_thread_forall2 (R : KTHREAD -> KTHREAD -> Prop) s t th th' :
  (forall th, R th th) -> threads s !! t = Some th -> R th th' ->
  forall i, option_Forall2 R (threads s !! i) (threads (put_thread s t th') !! i).
Proof.
  intros Hrefl Ho Hr i. simpl. destruct (decide (i = t)) as [->|].
  - rewrite lookup_insert_eq, Ho. by constructor.
  - rewrite lookup_insert_ne by done. by apply option_Forall2_refl.
Qed.

Lemma put_object_wait_frame s a o o' :
  objects s !! a = Some o -> wait_object_frame o o' -> wait_frame s (put_object s a o').
Proof.
  intros Ho F. split; [|by apply (put_object_forall2 _ _ _ o); auto using wait_object_frame_refl|done].
  intros t. apply option_Forall2_refl. by split.
Qed.

Lemma put_object_sched s a o' : sched_inv s -> sched_inv (put_object s a o').
Proof.
  intros Hs. apply (sched_inv_ext s); try done. intros t th Hlk. exists th. split_and!; [done..|].
  intros ->. destruct (si_idle _ Hs) as (th' & ? & ?). naive_solver.
Qed.

Lemma put_object_object_inv s a o o' :
  object_inv s -> objects s !! a = Some o -> type o' = type o -> object_ok o' ->
  (type o = KI_OBJECT_THREAD -> signalState o = 1 -> signalState o' = 1) ->
  object_inv (put_object s a o').
Proof.
  intros [Ho Ht] Ha Hty Hok Hdead. split; simpl.
  - intros i oi. destruct (decide (i = a)) as [->|].
    + rewrite lookup_insert_eq. by intros [= <-].
    + rewrite lookup_insert_ne by done. eauto.
  - intros t th Hth. destruct (Ht _ _ Hth) as (H0 & Hp & ot & Hot & Hot1 & Hot2). split_and!; [done..|].
    destruct (decide (t = a)) as [->|].
    + rewrite lookup_insert_eq. exists o'. split; [done|]. rewrite Hty. simplify_eq. split; [done|]. auto.
    + rewrite lookup_insert_ne by done. eauto.
Qed.

(** An object that is not a mutant changes its signal. *)
Lemma put_signal_body exc s a o v :
  ke_body exc s -> objects s !! a = Some o -> type o <> KI_OBJECT_MUTANT ->
  object_ok (o <| signalState := v |>) ->
  (type o = KI_OBJECT_THREAD -> signalState o = 1 -> v = 1) ->
  ke_body exc (put_object s a (o <| signalState := v |>)).
Proof.
  intros [Hs Hw Ht Hm Ho] Ha Hty Hok Hdead.
  assert (F : wait_frame s (put_object s a (o <| signalState := v |>))).
  { by apply (put_object_wait_frame s a o). }
  split.
  - by apply put_object_sched.
  - by eapply wait_inv_frame.
  - by eapply timer_inv_frame.
  - apply (mutant_inv_frame s); [|done]. split.
    + intros. apply option_Forall2_refl. by split.
    + apply (put_object_forall2 _ _ _ o); [by split|done|]. by split.
  - by apply (put_object_object_inv s a o).
Qed.

Lemma put_signal_room x s a o v :
  type o <> KI_OBJECT_MUTANT -> room_except x s ->
  room_except x (put_object s a (o <| signalState := v |>)).
Proof.
  intros Hty Hr t th b Hth Hb Hne o' Ho' Hty'. simpl in Ho'.
  destruct (decide (blockObject b = a)) as [E|].
  - rewrite E, lookup_insert_eq in Ho'. by injection Ho' as <-.
  - rewrite lookup_insert_ne in Ho' by done. by eapply Hr.
Qed.

(** The signal one completed wait leaves. *)
Definition signal_after (ty : KI_OBJECT_TYPE) (v : Z) : Z :=
  match ty with
  | KI_OBJECT_SYNCHRONIZATION_EVENT | KI_OBJECT_SYNCHRONIZATION_TIMER => 0
  | KI_OBJECT_SEMAPHORE | KI_OBJECT_MUTANT => v - 1
  | _ => v
  end.

(** What completing a wait of [t] on the objects [objs] may change. *)
Record consumed t (objs : list addr) s s' : Prop := {
  cs_threads : forall x, option_Forall2 (fun th th' =>
    th' = th <| mutantListHead := mutantListHead th' |> /\ (x <> t -> th' = th))
    (threads s !! x) (threads s' !! x);
  cs_objects : forall a, option_Forall2 (fun o o' => wait_object_frame o o' /\ (a ∉ objs -> o' = o) /\
    (a ∈ objs -> signalState o' = signal_after (type o) (signalState o)) /\
    (type o = KI_OBJECT_MUTANT -> a ∈ objs -> ownerThread o' = t /\
       (ownerThread o <> t -> abandoned o' = false)) /\
    (forall x, x <> t -> KiIsSatisfiable o' x = true -> KiIsSatisfiable o x = true))
    (objects s !! a) (objects s' !! a);
  cs_rest : s' = s <| threads := threads s' |> <| objects := objects s' |>;
}.

Lemma consumed_nil t s : consumed t [] s s.
Proof.
  split; [| |by destruct s].
  - intros x. apply option_Forall2_refl. intros th _. split; [by destruct th|done].
  - intros a. apply option_Forall2_refl. intros o _. split_and!; [by split|done| | |done].
    + intros H. by apply elem_of_nil in H.
    + intros _ H. by apply elem_of_nil in H.
Qed.

Lemma consumed_object t a s o o' :
  objects s !! a = Some o -> wait_object_frame o o' ->
  signalState o' = signal_after (type o) (signalState o) ->
  (type o = KI_OBJECT_MUTANT -> ownerThread o' = t /\ (ownerThread o <> t -> abandoned o' = false)) ->
  (forall x, x <> t -> KiIsSatisfiable o' x = true -> KiIsSatisfiable o x = true) ->
  consumed t [a] s (put_object s a o').
Proof.
  intros Ho F Hsignal How Hsat. split; [| |by destruct s].
  - intros x. apply option_Forall2_refl. intros th _. split; [by destruct th|done].
  - intros i. simpl. destruct (decide (i = a)) as [->|].
    + rewrite lookup_insert_eq, Ho. constructor. split_and!; auto. intros Hn. exfalso. apply Hn. left.
    + rewrite lookup_insert_ne by done. apply option_Forall2_refl. intros x _.
      split_and!; auto using wait_object_frame_refl.
      * by intros ->%list_elem_of_singleton.
      * by intros _ ->%list_elem_of_singleton.
Qed.

Lemma consumed_app t objs objs' s1 s2 s3 :
  (forall a, a ∈ objs -> a ∉ objs') ->
  consumed t objs s1 s2 -> consumed t objs' s2 s3 -> consumed t (objs ++ objs') s1 s3.
Proof.
  intros Hdis [T1 O1 R1] [T2 O2 R2]. split.
  - intros x. specialize (T1 x). specialize (T2 x). destruct T1 as [th1 th2 [E1 N1]|];
      inversion T2 as [? th3 [E2 N2]|]; subst; constructor. split.
    + rewrite E2. rewrite E1. by destruct th1, th3.
    + intros Hne. rewrite N2 by done. auto.
  - intros a. specialize (O1 a). specialize (O2 a).
    destruct O1 as [o1 o2 (F1 & N1 & G1 & W1 & S1)|]; inversion O2 as [? o3 (F2 & N2 & G2 & W2 & S2)|]; subst; constructor.
    destruct F1, F2. split_and!.
    + split; congruence.
    + rewrite elem_of_app. intros Hn. rewrite N2 by tauto. apply N1. tauto.
    + intros Hin. destruct (decide (a ∈ objs)) as [Hin1|Hin1].
      * rewrite N2 by auto. auto.
      * apply elem_of_app in Hin as [|Hin]; [done|]. rewrite (G2 Hin). rewrite N1 by done. done.
    + intros Hty Hin. destruct (decide (a ∈ objs)) as [Hin1|Hin1]; [rewrite N2 by auto; auto|].
      apply elem_of_app in Hin as [|Hin]; [done|]. rewrite <- (N1 Hin1). apply W2; [congruence|done].
    + auto.
  - rewrite R2. rewrite R1. by destruct s1, s3.
Qed.

Lemma put_thread_sched s t th th' :
  sched_inv s -> threads s !! t = Some th -> state th' = state th -> priority th' = priority th ->
  sched_inv (put_thread s t th').
Proof.
  intros Hs Hlk Hst Hpr. apply (sched_inv_ext s); try done; simpl.
  - intros x thx Hx. destruct (decide (x = t)) as [->|].
    + rewrite lookup_insert_eq. simplify_eq. exists th'. split; [done|]. split; [done|].
      rewrite Hst. split; [done|]. intros ->. destruct (si_idle _ Hs) as (? & ? & ?). naive_solver.
    + rewrite lookup_insert_ne by done. exists thx. split_and!; [done..|]. intros ->.
      destruct (si_idle _ Hs) as (? & ? & ?). naive_solver.
  - intros x Hx. destruct (decide (x = t)) as [->|]; [congruence|]. by rewrite lookup_insert_ne.
Qed.

Lemma put_thread_wait_frame s t th th' :
  threads s !! t = Some th -> wait_thread_frame th th' -> wait_frame s (put_thread s t th').
Proof.
  intros Ho F. split; [by apply (put_thread_forall2 _ _ _ th); auto using wait_thread_frame_refl| |done].
  intros i. apply option_Forall2_refl. by split.
Qed.

Lemma put_thread_object_inv s t th th' :
  object_inv s -> threads s !! t = Some th -> process th' = process th ->
  (state th' = KI_THREAD_STATE_TERMINATED -> state th = KI_THREAD_STATE_TERMINATED) ->
  object_inv (put_thread s t th').
Proof.
  intros [Ho Ht] Hlk Hp Hst. split; [done|]. simpl. intros x thx. destruct (decide (x = t)) as [->|].
  - rewrite lookup_insert_eq. intros [= <-]. destruct (Ht _ _ Hlk) as (H0 & Hpr & o & ? & ? & ?).
    rewrite Hp. split_and!; [done..|]. exists o. split_and!; auto.
  - rewrite lookup_insert_ne by done. eauto.
Qed.

(** A free mutant passes to [t]. *)
Lemma acquire_body exc s t th a o :
  ke_body exc s -> threads s !! t = Some th -> state th <> KI_THREAD_STATE_TERMINATED ->
  objects s !! a = Some o -> type o = KI_OBJECT_MUTANT -> ownerThread o = 0 ->
  ke_body exc (put_thread
    (put_object s a (o <| signalState := 0 |> <| ownerThread := t |> <| abandoned := false |>)) t
    (th <| mutantListHead := mutantListHead th ++ [a] |>)).
Proof.
  intros [Hs Hw Ht Hm Ho] Hlk Hst Ha Hty How.
  set (o' := o <| signalState := 0 |> <| ownerThread := t |> <| abandoned := false |>).
  set (s1 := put_object s a o').
  assert (F : wait_frame s s1) by (by apply (put_object_wait_frame s a o)).
  assert (Hlk1 : threads s1 !! t = Some th) by done.
  pose proof (oi_thread _ Ho _ _ Hlk) as (Ht0 & _).
  assert (Ha_notin : forall x thx, threads s !! x = Some thx -> a ∉ mutantListHead thx).
  { intros x thx Hx Hin. destruct (mi_list _ Hm _ _ _ Hx Hin) as (o2 & ? & ? & E).
    destruct (oi_thread _ Ho _ _ Hx). by simplify_eq. }
  set (th' := th <| mutantListHead := mutantListHead th ++ [a] |>).
  assert (F' : wait_frame s1 (put_thread s1 t th')) by (by apply (put_thread_wait_frame s1 t th)).
  split.
  - apply (put_thread_sched s1 t th); [by apply put_object_sched|done..].
  - eapply wait_inv_frame; [done|]. by eapply wait_inv_frame.
  - eapply timer_inv_frame; [done|]. by eapply timer_inv_frame.
  - destruct Hm as [Hmo Hml Hmn Hmd]. split.
    + intros m om Hom Htym. simpl in Hom. destruct (decide (m = a)) as [->|].
      * rewrite lookup_insert_eq in Hom. injection Hom as <-. split; [done|]. intros _. split; [simpl; lia|].
        simpl. rewrite lookup_insert_eq. exists th'. split; [done|]. apply elem_of_app. right. left.
      * rewrite lookup_insert_ne in Hom by done. destruct (Hmo _ _ Hom Htym) as [Hf Hwn]. split; [done|].
        intros Hne. destruct (Hwn Hne) as (Hr & thw & Hthw & Hin). split; [done|]. simpl.
        destruct (decide (ownerThread om = t)) as [E|]; [|rewrite lookup_insert_ne by done; eauto].
        rewrite E, lookup_insert_eq. exists th'. split; [done|]. apply elem_of_app. left. naive_solver.
    + intros x thx m Hx Hin. simpl in Hx.
      assert (m = a /\ x = t \/ exists thx0, threads s !! x = Some thx0 /\ m ∈ mutantListHead thx0)
        as [[-> ->]|(thx0 & Hx0 & Hin0)].
      { destruct (decide (x = t)) as [->|]; [|rewrite lookup_insert_ne in Hx by done; eauto].
        rewrite lookup_insert_eq in Hx. injection Hx as <-. apply elem_of_app in Hin as [|Hin]; [by eauto|].
        apply list_elem_of_singleton in Hin. by auto. }
      * exists o'. simpl. rewrite lookup_insert_eq. done.
      * simpl. rewrite lookup_insert_ne; [eauto|]. intros ->. by eapply Ha_notin.
    + intros x thx Hx. simpl in Hx. destruct (decide (x = t)) as [->|].
      * rewrite lookup_insert_eq in Hx. injection Hx as <-. simpl. apply NoDup_app.
        split_and!; [eauto| |apply NoDup_singleton]. intros y Hy ->%list_elem_of_singleton.
        by eapply Ha_notin.
      * rewrite lookup_insert_ne in Hx by done. eauto.
    + intros x thx Hx Hdead. simpl in Hx. destruct (decide (x = t)) as [->|].
      * rewrite lookup_insert_eq in Hx. injection Hx as <-. done.
      * rewrite lookup_insert_ne in Hx by done. eauto.
  - apply (put_thread_object_inv s1 t th); try done.
    apply (put_object_object_inv s a o); try done.
    + split; simpl; by rewrite Hty.
    + by rewrite Hty.
Qed.

(** The owner takes its mutant once more. *)
Lemma recurse_body exc s t a o :
  ke_body exc s -> objects s !! a = Some o -> type o = KI_OBJECT_MUTANT -> ownerThread o = t -> t <> 0 ->
  - 2 ^ 31 < signalState o ->
  ke_body exc (put_object s a (o <| signalState := signalState o - 1 |>)).
Proof.
  intros [Hs Hw Ht Hm Ho] Ha Hty How Ht0 Hroom.
  set (o' := o <| signalState := signalState o - 1 |>).
  assert (F : wait_frame s (put_object s a o')) by (by apply (put_object_wait_frame s a o)).
  split.
  - by apply put_object_sched.
  - by eapply wait_inv_frame.
  - by eapply timer_inv_frame.
  - destruct Hm as [Hmo Hml Hmn Hmd]. split; try done.
    + intros m om Hom Htym. simpl in Hom. destruct (decide (m = a)) as [->|].
      * rewrite lookup_insert_eq in Hom. injection Hom as <-. destruct (Hmo _ _ Ha Hty) as [Hf Hwn].
        split; [simpl; congruence|]. intros Hne. destruct (Hwn Hne) as (Hr & ?). split; [simpl; lia|done].
      * rewrite lookup_insert_ne in Hom by done. by destruct (Hmo _ _ Hom Htym).
    + intros x thx m Hx Hin. destruct (Hml _ _ _ Hx Hin) as (om & Hom & ? & ?). simpl.
      destruct (decide (m = a)) as [->|]; [|rewrite lookup_insert_ne by done; eauto].
      rewrite lookup_insert_eq. exists o'. simplify_eq. done.
  - apply (put_object_object_inv s a o); try done; [|by rewrite Hty].
    split; simpl; by rewrite Hty.
Qed.
End satisfaction.

(** ** KiSatisfyObject and the wait-all loop *)

Section satisfy.
Implicit Types (s : KSTATE) (t a x : Z) (th : KTHREAD) (o : KOBJECT) (b : KWAIT_BLOCK).

Lemma put_object_room x s a o o' :
  room_except x s -> objects s !! a = Some o ->
  (type o' = KI_OBJECT_MUTANT -> ownerThread o' = x) -> room_except x (put_object s a o').
Proof.
  intros Hr Ho How t th b Hth Hb Hne o2 Ho2 Hty2 How2. simpl in Ho2.
  destruct (decide (blockObject b = a)) as [E|].
  - rewrite E, lookup_insert_eq in Ho2. injection Ho2 as <-. rewrite How in How2 by done. congruence.
  - rewrite lookup_insert_ne in Ho2 by done. by eapply Hr.
Qed.

Lemma put_thread_room x s t th th' :
  room_except x s -> threads s !! t = Some th -> waitBlockList th' = waitBlockList th ->
  room_except x (put_thread s t th').
Proof.
  intros Hr Ht E i thi b Hi Hb Hne. simpl in Hi. destruct (decide (i = t)) as [->|].
  - rewrite lookup_insert_eq in Hi. injection Hi as <-. rewrite E in Hb. by eapply Hr.
  - rewrite lookup_insert_ne in Hi by done. by eapply Hr.
Qed.

Lemma KiIsSatisfiable_signal o t : KiIsSatisfiable o t = true ->
  0 < signalState o \/ (type o = KI_OBJECT_MUTANT /\ ownerThread o = t).
Proof.
  unfold KiIsSatisfiable. destruct (Z.ltb_spec 0 (signalState o)); [auto|]. simpl.
  intros [H1%bool_decide_eq_true H2%Z.eqb_eq]%andb_true_iff. auto.
Qed.

Lemma KiIsSatisfiable_zero o v t : type o <> KI_OBJECT_MUTANT -> v <= signalState o ->
  KiIsSatisfiable (o <| signalState := v |>) t = true -> KiIsSatisfiable o t = true.
Proof.
  intros Hty Hv H. unfold KiIsSatisfiable in *. simpl in H.
  rewrite (bool_decide_eq_false_2 (type o = KI_OBJECT_MUTANT)), andb_false_l, orb_false_r in H |- * by done.
  destruct (Z.ltb_spec 0 v), (Z.ltb_spec 0 (signalState o)); done || lia.
Qed.

(** The signal of a non-mutant goes down to [v]. *)
Lemma put_consumed exc s t a o v :
  ke_body exc s -> room_except t s -> objects s !! a = Some o -> type o <> KI_OBJECT_MUTANT ->
  type o <> KI_OBJECT_THREAD -> object_ok (o <| signalState := v |>) -> v <= signalState o ->
  v = signal_after (type o) (signalState o) ->
  let s' := put_object s a (o <| signalState := v |>) in
  consumed t [a] s s' /\ ke_body exc s' /\ room_except t s'.
Proof.
  intros Hb Hr Ho Hm Ht Hok Hv Hafter. split_and!.
  - apply (consumed_object t a s o); [done|done|done|done|]. intros x _. by apply KiIsSatisfiable_zero.
  - by apply put_signal_body.
  - by apply put_signal_room.
Qed.

Lemma KiSatisfyObject_spec exc s t a th o :
  ke_body exc s -> room_except t s -> threads s !! t = Some th ->
  state th <> KI_THREAD_STATE_TERMINATED ->
  objects s !! a = Some o -> KiIsSatisfiable o t = true -> room s t a ->
  returns (KiSatisfyObject s a t) (fun '(wasAbandoned, s') =>
    wasAbandoned = bool_decide (type o = KI_OBJECT_MUTANT) && abandoned o /\
    consumed t [a] s s' /\ ke_body exc s' /\ room_except t s').
Proof.
  intros Hb Hr Hlk Hst Ho Hsat Hroom.
  pose proof (oi_object _ (kb_object _ _ Hb) _ _ Ho) as [Hsem Hflag].
  pose proof (oi_thread _ (kb_object _ _ Hb) _ _ Hlk) as (Ht0 & _).
  pose proof (KiIsSatisfiable_signal _ _ Hsat) as Hsig.
  assert (Hsame : type o <> KI_OBJECT_MUTANT -> signal_after (type o) (signalState o) = signalState o -> consumed t [a] s s /\ ke_body exc s /\ room_except t s).
  { intros Hm Hafter. split_and!; [|done..]. pose proof (consumed_object t a s o o Ho) as H.
    assert (put_object s a o = s) as E by (unfold put_object; rewrite insert_id by done; by destruct s).
    rewrite E in H. apply H; auto using wait_object_frame_refl. done. }
  unfold KiSatisfyObject, get_object. rewrite Ho. run.
  destruct (type o) eqn:Ety; cbn [returns]; try (split; [done|]); cbn [signal_after] in Hsame.
  - by apply Hsame.
  - apply (put_consumed exc s t a o 0); try assumption; try congruence; try (by rewrite Ety); [split; simpl; intros; [congruence|lia]|destruct Hsig as [?|[? _]]; [lia|congruence]].
  - (* mutant *)
    destruct (mi_object _ (kb_mutant _ _ Hb) _ _ Ho Ety) as [Hfree Howned].
    destruct (Z.eqb_spec (ownerThread o) t) as [E|E].
    + rewrite decrement_LONG_Ok by (by apply Hroom). run. simpl.
      split_and!; [done| |eapply recurse_body; eauto; by apply Hroom|].
      * apply (consumed_object t a s o); [done|done|by rewrite Ety; simpl; lia|done|]. intros x Hx.
        unfold KiIsSatisfiable. simpl. destruct (Howned ltac:(congruence)) as [? _].
        destruct (Z.ltb_spec 0 (signalState o - 1)); [lia|]. simpl. intros Hx2.
        apply orb_true_iff. by right.
      * by apply (put_object_room t s a o).
    + destruct Hsig as [Hpos|[_ ?]]; [|done].
      assert (How : ownerThread o = 0).
      { destruct (decide (ownerThread o = 0)); [done|]. destruct (Howned ltac:(done)); lia. }
      assert (Hsignal : signalState o = 1) by auto.
      rewrite decrement_LONG_Ok by lia. run. simpl (ownerThread _).
      destruct (Z.eqb_spec (ownerThread o) t); [done|]. run. unfold get_thread.
      rewrite Hlk. run. rewrite Hsignal. change (1 - 1) with 0. cbn [returns]. split_and!; [done|..].
      * set (o' := o <| signalState := 0 |> <| ownerThread := t |> <| abandoned := false |>).
        assert (Hc : consumed t [a] s (put_object s a o')).
        { apply (consumed_object t a s o); [done|done|by rewrite Ety; simpl; lia|done|]. intros x Hx. unfold KiIsSatisfiable. simpl.
          destruct (Z.eqb_spec t x); [congruence|]. by rewrite andb_false_r. }
        rewrite <- (app_nil_r [a]). eapply consumed_app; [|exact Hc|].
        { intros i _ Hi. by apply elem_of_nil in Hi. }
        split; [| |done].
        -- intros x. simpl. destruct (decide (x = t)) as [->|].
           ++ rewrite lookup_insert_eq, Hlk. constructor. by split.
           ++ rewrite lookup_insert_ne by done. apply option_Forall2_refl. intros y _. split; [by destruct y|done].
        -- intros i. apply option_Forall2_refl. intros y _. split_and!; auto using wait_object_frame_refl.
           ++ intros Hi. by apply elem_of_nil in Hi.
           ++ intros _ Hi. by apply elem_of_nil in Hi.
      * by apply acquire_body.
      * eapply put_thread_room; [|done|done]. by apply (put_object_room t s a o).
  - by apply Hsame.
  - destruct Hsem as [? ?]; [done|]. destruct Hsig as [Hpos|[? _]]; [|congruence].
    destruct (Z.ltb_spec 0 (signalState o)); [|lia]. run.
    rewrite decrement_LONG_Ok by lia. run. cbn [returns]. split; [done|].
    apply (put_consumed exc s t a o (signalState o - 1)); try assumption; try congruence; try (by rewrite Ety); [split; simpl; intros; lia || congruence|lia].
  - by apply Hsame.
  - by apply Hsame.
  - apply (put_consumed exc s t a o 0); try assumption; try congruence; try (by rewrite Ety); [split; simpl; intros; [congruence|lia]|destruct Hsig as [?|[? _]]; [lia|congruence]].
Qed.

(** Some mutant among [objs] was abandoned by the thread that owned it. *)
Definition abandoned_in s (objs : list addr) : Prop :=
  exists a o, a ∈ objs /\ objects s !! a = Some o /\ type o = KI_OBJECT_MUTANT /\ abandoned o = true.

(** The status of a completed wait-all: abandoned exactly if a mutant was. *)
Definition all_status s (objs : list addr) (status : NTSTATUS) : Prop :=
  (status = STATUS_ABANDONED_WAIT_0 /\ abandoned_in s objs) \/
  (status = STATUS_SUCCESS /\ ~ abandoned_in s objs).

Lemma abandoned_in_cons s a objs o : objects s !! a = Some o ->
  abandoned_in s (a :: objs) <->
  (bool_decide (type o = KI_OBJECT_MUTANT) && abandoned o = true \/ abandoned_in s objs).
Proof.
  intros Ho. split.
  - intros (x & ox & [->|Hx]%elem_of_cons & Hox & Ht & Hab); [left|right; by exists x, ox].
    simplify_eq. by rewrite bool_decide_eq_true_2 by done.
  - intros [[Ht%bool_decide_eq_true Hab]%andb_true_iff|(x & ox & Hx & H)].
    + exists a, o. split; [left|done].
    + exists x, ox. split; [by right|done].
Qed.

Lemma abandoned_in_ext s s' objs :
  (forall a, a ∈ objs -> objects s' !! a = objects s !! a) -> abandoned_in s' objs <-> abandoned_in s objs.
Proof.
  intros E. split; intros (a & o & Ha & Ho & H); exists a, o; split_and!; try done; try apply H.
  - by rewrite <- E.
  - by rewrite E.
Qed.

(** Satisfying distinct objects, all of them satisfiable now. *)
Lemma satisfy_all_spec exc s t objs status :
  NoDup objs -> ke_body exc s -> room_except t s ->
  (exists th, threads s !! t = Some th /\ state th <> KI_THREAD_STATE_TERMINATED) ->
  (forall a, a ∈ objs -> sat s a t /\ room s t a) ->
  returns (satisfy_all s t objs status) (fun '(st, s') =>
    (status <> STATUS_SUCCESS -> st = status) /\
    (status = STATUS_SUCCESS -> all_status s objs st) /\
    consumed t objs s s' /\ ke_body exc s' /\ room_except t s').
Proof.
  revert s status. induction objs as [|a objs IH]; intros s status Hnd Hb Hr (th & Hlk & Hst) Hall.
  { simpl. split_and!; auto using consumed_nil. intros ->. right. split; [done|].
    intros (a & o & Ha & _). by apply elem_of_nil in Ha. }
  apply NoDup_cons in Hnd as [Ha Hnd]. cbn [satisfy_all].
  destruct (Hall a ltac:(left)) as [(o & Ho & Hsat) Hroom].
  apply returns_bind. eapply returns_mono; [by eapply KiSatisfyObject_spec|].
  intros [wasAbandoned s1] (Ew & Hc & Hb1 & Hr1).
  pose proof (cs_threads _ _ _ _ Hc t) as Ht1. rewrite Hlk in Ht1.
  inversion Ht1 as [? th1 [Eth _] Etmp Hlk1|]; subst. symmetry in Hlk1.
  assert (Hsame : forall a', a' ∈ objs -> objects s1 !! a' = objects s !! a').
  { intros a' Ha'. pose proof (cs_objects _ _ _ _ Hc a') as Ho1.
    destruct Ho1 as [o' o1 (_ & Esame & _)|]; [|done]. f_equal. apply Esame.
    by intros ->%list_elem_of_singleton. }
  eapply returns_mono.
  - apply IH; [done..| |].
    + exists th1. split; [done|]. rewrite Eth. done.
    + intros a' Ha'. destruct (Hall a' ltac:(by right)) as [(o' & Ho' & Hsat') Hroom'].
      pose proof (Hsame a' Ha') as E. rewrite Ho' in E. split; [by exists o'|].
      intros o2 Ho2. rewrite E in Ho2. injection Ho2 as <-. by apply Hroom'.
  - intros [st s2] (Hkeep & Hstatus & Hc2 & Hb2 & Hr2). split_and!; [| |by apply (consumed_app t [a] objs s s1 s2);
      [intros i ->%list_elem_of_singleton|..]|done..].
    + intros Hne. rewrite Hkeep; destruct (Z.eqb_spec status STATUS_SUCCESS); rewrite ?andb_false_r; done.
    + intros ->. change (STATUS_SUCCESS =? STATUS_SUCCESS) with true in *. rewrite andb_true_r in *.
      unfold all_status in *. rewrite (abandoned_in_cons s a objs o Ho).
      rewrite (abandoned_in_ext s s1 objs Hsame) in Hstatus.
      destruct (bool_decide (type o = KI_OBJECT_MUTANT) && abandoned o).
      * left. split; [by apply Hkeep|by left].
      * destruct (Hstatus eq_refl) as [[? ?]|[? ?]]; [left; tauto|right].
        split; [done|]. by intros [?|?].
Qed.
End satisfy.

(** ** KiWaitTest *)

Section wait_test.
Implicit Types (s : KSTATE) (t a x : Z) (th : KTHREAD) (o : KOBJECT) (b : KWAIT_BLOCK).

(** What a wait test may change: waiters become READY, signals are consumed,
    wait lists and the timer queue shrink. *)
Definition tested_thread th th' : Prop :=
  th' = th \/
  (state th = KI_THREAD_STATE_WAITING /\
   th' = th <| state := KI_THREAD_STATE_READY |> <| waitBlockList := [] |> <| timerArmed := false |>
     <| waitStatus := waitStatus th' |> <| mutantListHead := mutantListHead th' |>).

Record tested_object o o' : Prop := {
  to_type : type o' = type o;
  to_limit : limit o' = limit o;
  to_due : dueTime o' = dueTime o;
  to_period : period o' = period o;
  to_inserted : inserted o = false -> inserted o' = false;
  to_list : (length (waitListHead o') <= length (waitListHead o))%nat;
}.

Record tested s s' : Prop := {
  te_threads : forall x, option_Forall2 tested_thread (threads s !! x) (threads s' !! x);
  te_objects : forall a, option_Forall2 tested_object (objects s !! a) (objects s' !! a);
  te_timers : sublist (KiTimerListHead s') (KiTimerListHead s);
  te_free : forall a o o', objects s !! a = Some o -> objects s' !! a = Some o' ->
    (forall t th, threads s !! t = Some th -> timer th <> a) -> inserted o' = inserted o;
  te_rest : s' = s <| threads := threads s' |> <| objects := objects s' |>
    <| KiReadyQueues := KiReadyQueues s' |> <| KiReadySummary := KiReadySummary s' |>
    <| KiTimerListHead := KiTimerListHead s' |>;
}.

Lemma tested_refl s : tested s s.
Proof.
  split; [| |done| |by destruct s].
  - intros x. apply option_Forall2_refl. by left.
  - intros a. apply option_Forall2_refl. by split.
  - intros a o o' Ho Ho' _. congruence.
Qed.

Lemma tested_trans s1 s2 s3 : tested s1 s2 -> tested s2 s3 -> tested s1 s3.
Proof.
  intros [T1 O1 L1 F1 R1] [T2 O2 L2 F2 R2]. split.
  - intros x. specialize (T1 x). specialize (T2 x).
    destruct T1 as [th1 th2 H1|]; inversion T2 as [? th3 H2|]; subst; constructor.
    destruct H1 as [->|[Hw1 E1]]; [done|]. destruct H2 as [->|[Hw2 E2]]; [by right|].
    rewrite E1 in Hw2. discriminate Hw2.
  - intros a. specialize (O1 a). specialize (O2 a).
    destruct O1 as [o1 o2 H1|]; inversion O2 as [? o3 H2|]; subst; constructor.
    destruct H1, H2. split; try congruence; [by auto|lia].
  - by etransitivity.
  - intros a o o3 Ho Ho3 Hfree. destruct (Forall2_Some_l _ _ _ _ (O1 a) Ho) as (o2 & Ho2 & _).
    rewrite (F2 a o2 o3 Ho2 Ho3), (F1 a o o2 Ho Ho2 Hfree); [done|]. intros t th2 Hth2.
    destruct (Forall2_Some_r _ _ _ _ (T1 t) Hth2) as (th & Hth & [->|[_ E]]); [by apply (Hfree t)|].
    rewrite E. by apply (Hfree t th).
  - rewrite R2. rewrite R1. by destruct s1, s3.
Qed.

Lemma tested_thread_same s s' t th :
  tested s s' -> threads s !! t = Some th -> state th <> KI_THREAD_STATE_WAITING ->
  threads s' !! t = Some th.
Proof.
  intros Ht Hlk Hst. destruct (Forall2_Some_l _ _ _ _ (te_threads _ _ Ht t) Hlk) as (th' & Hth' & [->|[? _]]);
    done.
Qed.

(** The owner of a mutant that is not signalled is not parked. *)
Definition owner_awake (x : addr) s : Prop :=
  forall o th, objects s !! x = Some o -> type o = KI_OBJECT_MUTANT ->
    threads s !! ownerThread o = Some th -> state th <> KI_THREAD_STATE_WAITING.

Lemma all_satisfiable_spec s t objs :
  (forall a, a ∈ objs -> is_Some (objects s !! a)) ->
  returns (all_satisfiable s t objs) (fun r => r = true <-> forall a, a ∈ objs -> sat s a t).
Proof.
  induction objs as [|a objs IH]; intros Hdom; simpl.
  { split; [|done]. intros _ a Ha. by apply elem_of_nil in Ha. }
  destruct (Hdom a ltac:(left)) as [o Ho]. unfold get_object. rewrite Ho. run.
  destruct (KiIsSatisfiable o t) eqn:E.
  - eapply returns_mono; [apply IH; intros; apply Hdom; by right|]. intros r Hr. rewrite Hr. split.
    + intros H i [->|Hi]%elem_of_cons; [by exists o|auto].
    + intros H i Hi. apply H. by right.
  - simpl. split; [done|]. intros H. destruct (H a ltac:(left)) as (o' & Ho' & Hs). congruence.
Qed.

Lemma filter_length_le {A} (P : A -> Prop) `{!forall y, Decision (P y)} (l : list A) :
  (length (filter P l) <= length l)%nat.
Proof. induction l as [|y l IH]; [done|]. rewrite filter_cons. destruct (decide (P y)); simpl; lia. Qed.

Lemma filter_length_lt {A} (P : A -> Prop) `{!forall y, Decision (P y)} (l : list A) y :
  y ∈ l -> ~ P y -> (length (filter P l) < length l)%nat.
Proof.
  induction l as [|z l IH]; intros Hin HP; [by apply elem_of_nil in Hin|]. rewrite filter_cons.
  apply elem_of_cons in Hin as [->|Hin].
  - destruct (decide (P z)); [done|]. pose proof (filter_length_le P l). simpl. lia.
  - destruct (decide (P z)); simpl; [|pose proof (filter_length_le P l); lia].
    specialize (IH Hin HP). lia.
Qed.

Lemma sublist_filter' {A} (P : A -> Prop) `{!forall y, Decision (P y)} (l : list A) : sublist (filter P l) l.
Proof. induction l as [|z l IH]; [done|]. rewrite filter_cons. by destruct (decide (P z)); constructor. Qed.

Lemma unwaited_rest s t th status :
  let s' := unwaited s t th status in
  s' = s <| threads := threads s' |> <| objects := objects s' |>
    <| KiReadyQueues := KiReadyQueues s' |> <| KiReadySummary := KiReadySummary s' |>
    <| KiTimerListHead := KiTimerListHead s' |>.
Proof. by destruct s. Qed.

Lemma unwaited_timers s t th status : sublist (KiTimerListHead (unwaited s t th status)) (KiTimerListHead s).
Proof. unfold unwaited, readied. simpl. destruct (timerArmed th); [apply sublist_filter'|done]. Qed.

(** [t] alone leaves its wait. *)
(** The status [object], of type [ty], completes the wait of [t] with. *)
Definition wake_status (ty : KI_OBJECT_TYPE) object t th (status : NTSTATUS) : Prop :=
  exists b, b ∈ all_blocks t th /\
  match waitType b with
  | WaitAny => blockObject b = object /\
      (status = waitKey b \/ (ty = KI_OBJECT_MUTANT /\ status = STATUS_ABANDONED_WAIT_0 + waitKey b))
  | WaitAll => object ∈ blockObject <$> waitBlockList th /\
      (status = STATUS_SUCCESS \/ status = STATUS_ABANDONED_WAIT_0)
  end.

Definition wakes (ty : KI_OBJECT_TYPE) object t s s' : Prop :=
  exists th th', threads s !! t = Some th /\ state th = KI_THREAD_STATE_WAITING /\
    threads s' !! t = Some th' /\ state th' = KI_THREAD_STATE_READY /\
    wake_status ty object t th (waitStatus th').

Definition woke (ty : KI_OBJECT_TYPE) object t s s' : Prop :=
  (forall x, x <> t -> threads s' !! x = threads s !! x) /\ wakes ty object t s s'.

(** The threads [l], and no others, have left their waits, and each reports
    what [object] did for it. *)
Definition woken (ty : KI_OBJECT_TYPE) object (l : list addr) s s' : Prop :=
  NoDup l /\ (forall x, x ∉ l -> threads s' !! x = threads s !! x) /\
  forall t, t ∈ l -> wakes ty object t s s'.

Lemma woken_nil ty object s : woken ty object [] s s.
Proof. split_and!; [constructor|done|]. intros t Ht. by apply elem_of_nil in Ht. Qed.

Lemma woken_cons ty object t l s1 s2 s3 :
  woke ty object t s1 s2 -> woken ty object l s2 s3 -> woken ty object (t :: l) s1 s3.
Proof.
  intros [Hsame (th & th' & Hth & Hst & Hth' & Hst' & Hwake)] (Hnd & Hsame2 & Hl).
  assert (Ht : t ∉ l) by (intros Hin; destruct (Hl _ Hin) as (? & ? & ? & ? & _); congruence).
  split_and!; [by constructor| |].
  - intros x Hx. rewrite not_elem_of_cons in Hx. destruct Hx as [Hne Hx]. rewrite Hsame2 by done. auto.
  - intros x [->|Hx]%elem_of_cons.
    + exists th, th'. rewrite Hsame2 by done. done.
    + destruct (Hl _ Hx) as (thx & thx' & Hthx & ?). exists thx, thx'. rewrite Hsame in Hthx; [done|].
      by intros ->.
Qed.

(** Completing the wait of [t], whose objects have been consumed. *)
Lemma complete_wait exc s s1 ty object t th objs status :
  wake_status ty object t th status -> ke_core exc s -> threads s !! t = Some th -> state th = KI_THREAD_STATE_WAITING ->
  consumed t objs s s1 -> ke_body exc s1 -> room_except t s1 ->
  returns (KiUnwaitThread s1 t status) (fun s2 =>
    ke_core exc s2 /\ tested s s2 /\
    (forall x, quiet_but x s -> quiet_but x s2) /\
    (forall x, x ∈ objs -> owner_awake x s2) /\
    woke ty object t s s2 /\
    (forall x o, x ∈ objs -> objects s !! x = Some o -> exists o2, objects s2 !! x = Some o2 /\
       signalState o2 = signal_after (type o) (signalState o)) /\
    (forall b x o, b ∈ all_blocks t th -> objects s !! x = Some o -> b ∈ waitListHead o ->
       exists o2, objects s2 !! x = Some o2 /\ (length (waitListHead o2) < length (waitListHead o))%nat)).
Proof.
  intros Hwake Hcore Hlk Hst Hc Hb1 Hr1.
  destruct (Forall2_Some_l _ _ _ _ (cs_threads _ _ _ _ Hc t) Hlk) as (th1 & Hlk1 & Eth1 & _).
  assert (Hst1 : state th1 = KI_THREAD_STATE_WAITING) by (by rewrite Eth1).
  assert (Hblocks : all_blocks t th1 = all_blocks t th) by (by rewrite Eth1).
  rewrite (KiUnwaitThread_eq exc s1 t th1) by (done || apply Hb1). cbn [returns].
  set (s2 := unwaited s1 t th1 status).
  assert (Hobj : forall a, option_Forall2 (fun o o2 => exists o1, objects s1 !! a = Some o1 /\
      o2 = unwait_object t th1 a o1 /\ wait_object_frame o o1 /\
      (a ∈ objs -> signalState o1 = signal_after (type o) (signalState o)) /\
      (type o = KI_OBJECT_MUTANT -> a ∈ objs -> ownerThread o1 = t) /\
      (forall x, x <> t -> KiIsSatisfiable o1 x = true -> KiIsSatisfiable o x = true))
      (objects s !! a) (objects s2 !! a)).
  { intros a. unfold s2. rewrite unwaited_objects.
    destruct (cs_objects _ _ _ _ Hc a) as [o o1 (F & _ & G & W & S)|]; [|constructor].
    constructor. exists o1. split_and!; try done. intros Hty Ha. by apply W. }
  split_and!.
  - by apply unwaited_core.
  - split.
    + intros x. unfold s2. rewrite unwaited_threads. destruct (decide (x = t)) as [->|Hne].
      * rewrite Hlk. constructor. right. split; [done|]. rewrite Eth1. by destruct th.
      * destruct (cs_threads _ _ _ _ Hc x) as [thx thx1 [_ E]|]; constructor. left. by apply E.
    + intros a. destruct (Hobj a) as [o o2 (o1 & Ho1 & -> & F & _)|]; constructor.
      destruct F as [Fl Fi Fd Fp Fty Flim].
      split; simpl; try done.
      * rewrite Fi. intros ->. by destruct (_ && _).
      * rewrite Fl. apply filter_length_le.
    + assert (KiTimerListHead s1 = KiTimerListHead s) as <- by (by rewrite (cs_rest _ _ _ _ Hc)).
      apply unwaited_timers.
    + intros a o o2 Ho Ho2 Hfree. destruct (Hobj a) as [o0 o3 (o1 & Ho1 & -> & F & _)|]; [|done].
      simplify_eq. simpl. rewrite (wf_inserted _ _ F), Eth1. simpl.
      rewrite (proj2 (Z.eqb_neq a (timer th))); [by rewrite andb_false_r|].
      intros ->. by eapply Hfree.
    + pose proof (unwaited_rest s1 t th1 status) as Hr2. fold s2 in Hr2. cbn zeta in Hr2.
      clearbody s2. rewrite Hr2. rewrite (cs_rest _ _ _ _ Hc). by destruct s, s2.
  - intros x. apply quiet_mono. intros y thy Hy Hne. unfold s2 in Hy. rewrite unwaited_threads in Hy.
    destruct (decide (y = t)) as [->|Hyt]; [by injection Hy as <-|].
    destruct (Forall2_Some_r _ _ _ _ (cs_threads _ _ _ _ Hc y) Hy) as (thy0 & Hy0 & _ & E).
    rewrite E by done. exists thy0. split_and!; [done..|]. intros b Hb (o2 & Ho2 & Hs2).
    destruct (Forall2_Some_r _ _ _ _ (Hobj (blockObject b)) Ho2) as (o & Ho & o1 & Ho1 & -> & _ & _ & _ & S).
    exists o. split; [done|]. by apply (S y).
  - intros x Hx o2 thx Ho2 Hty How. 
    destruct (Forall2_Some_r _ _ _ _ (Hobj x) Ho2) as (o & Ho & o1 & Ho1 & -> & F & _ & W & _).
    change (ownerThread (unwait_object t th1 x o1)) with (ownerThread o1) in How.
    change (type o1 = KI_OBJECT_MUTANT) in Hty. rewrite (wf_type _ _ F) in Hty.
    rewrite (W Hty Hx) in How. unfold s2 in How. rewrite unwaited_threads, decide_True in How by done.
    by injection How as <-.
  - split.
    + intros x Hx. unfold s2. rewrite unwaited_threads, decide_False by done.
      destruct (cs_threads _ _ _ _ Hc x) as [thx thx1 [_ E]|]; [|done]. by rewrite E.
    + exists th, (awake th1 status). unfold s2. by rewrite unwaited_threads, decide_True.
  - intros x o Hx Ho.
    destruct (Forall2_Some_l _ _ _ _ (Hobj x) Ho) as (o2 & Ho2 & o1 & Ho1 & -> & F & G & _).
    exists (unwait_object t th1 x o1). split; [done|]. by apply G.
  - intros b x o Hb Ho Hin.
    destruct (Forall2_Some_l _ _ _ _ (Hobj x) Ho) as (o2 & Ho2 & o1 & Ho1 & -> & F & _).
    exists (unwait_object t th1 x o1). split; [done|]. simpl. rewrite (wf_list _ _ F).
    eapply filter_length_lt; [done|]. rewrite Hblocks. naive_solver.
Qed.
End wait_test.

Section wait_test_loop.
Implicit Types (s : KSTATE) (t a x : Z) (th : KTHREAD) (o : KOBJECT) (b : KWAIT_BLOCK).

(** A block on a list belongs to a parked thread. *)
Lemma block_waiter s a o b :
  wait_inv s -> objects s !! a = Some o -> b ∈ waitListHead o ->
  blockObject b = a /\ exists th, threads s !! blockThread b = Some th /\
    state th = KI_THREAD_STATE_WAITING /\ b ∈ all_blocks (blockThread b) th.
Proof.
  intros Hw Ho Hb. destruct (wi_links _ Hw) as [_ Hh Hi]. pose proof (Hh _ _ _ Ho Hb) as E.
  split; [done|]. destruct (proj1 (Hi b)) as (th & Hth & Hin).
  { exists o. by rewrite E. }
  exists th. split_and!; [done| |done]. apply (wo_waiting _ _ (wi_threads _ Hw _ _ Hth)).
  intros Enil. rewrite Enil in Hin. by apply elem_of_nil in Hin.
Qed.

(** A block a thread has armed is on the list of its object. *)
Lemma block_linked s t th b :
  wait_inv s -> threads s !! t = Some th -> b ∈ all_blocks t th ->
  blockThread b = t /\ exists o, objects s !! blockObject b = Some o /\ b ∈ waitListHead o.
Proof.
  intros Hw Hth Hb. split; [by eapply all_blocks_thread, Hb; apply Hw|].
  apply (lk_iff _ _ (wi_links _ Hw)). by eapply armed_blocks.
Qed.

Lemma waitall_block t th b : wait_ok t th -> b ∈ all_blocks t th -> waitType b = WaitAll -> b ∈ waitBlockList th.
Proof.
  intros Hok Hb Hty. apply elem_of_app in Hb as [|Hb]; [done|].
  destruct (timerArmed th); [|by apply elem_of_nil in Hb].
  by apply list_elem_of_singleton in Hb as ->.
Qed.

(** Only the timeout block, on a timer, is outside waitBlockList. *)
Lemma block_room exc s t th b :
  timer_inv exc s -> room_inv s -> threads s !! t = Some th -> b ∈ all_blocks t th ->
  room s t (blockObject b).
Proof.
  intros Ht Hr Hth Hb. apply elem_of_app in Hb as [Hb|Hb]; [by eapply Hr|].
  destruct (timerArmed th); [|by apply elem_of_nil in Hb].
  apply list_elem_of_singleton in Hb as ->. intros o Ho Hty.
  destruct (ti_thread _ _ Ht _ _ Hth) as (o' & ? & ? & _). simpl in Ho. congruence.
Qed.

Lemma waiter_objects s t th b b' :
  wait_inv s -> threads s !! t = Some th -> b' ∈ waitBlockList th -> is_Some (objects s !! blockObject b').
Proof.
  intros Hw Hth Hb. destruct (block_linked s t th b' Hw Hth) as (_ & o & Ho & _); [|eauto].
  apply elem_of_app. by left.
Qed.

Lemma room_inv_except x s : room_inv s -> room_except x s.
Proof. intros H t th b Hth Hb _. by eapply H. Qed.

(** The walk of the wait list. *)
Definition scan_post exc s object (blocks : list KWAIT_BLOCK) (n : nat) (r : option KSTATE) : Prop :=
  match r with
  | None => forall b, b ∈ blocks -> waitType b = WaitAll /\
      forall th, threads s !! blockThread b = Some th -> ~ ready_block s (blockThread b) th b
  | Some s' => ke_core exc s' /\ tested s s' /\ owner_awake object s' /\
      (forall x, quiet_but x s -> quiet_but x s') /\
      exists t o o', woke (type o) object t s s' /\ objects s !! object = Some o /\ objects s' !! object = Some o' /\
        type o' = type o /\ signalState o' = signal_after (type o) (signalState o) /\
        (length (waitListHead o') < n)%nat
  end.

Lemma wait_test_scan_spec exc s object o blocks :
  ke_core exc s -> objects s !! object = Some o -> 0 < signalState o ->
  (forall b, b ∈ blocks -> b ∈ waitListHead o) ->
  returns (wait_test_scan s object blocks) (scan_post exc s object blocks (length (waitListHead o))).
Proof.
  intros Hcore Ho Hsig Hsub. induction blocks as [|b blocks IH].
  { cbn. intros b Hb. by apply elem_of_nil in Hb. }
  pose proof Hcore as [Hbody Hroom]. pose proof (kb_wait _ _ Hbody) as Hw.
  pose proof (Hsub b ltac:(left)) as Hb.
  destruct (block_waiter s object o b Hw Ho Hb) as (Eobj & th & Hth & Hst & Hin).
  pose proof (wi_threads _ Hw _ _ Hth) as Hok.
  assert (Hdone : forall s1 objs status,
    consumed (blockThread b) objs s s1 -> ke_body exc s1 -> room_except (blockThread b) s1 ->
    object ∈ objs -> wake_status (type o) object (blockThread b) th status ->
    returns (s2 ← KiUnwaitThread s1 (blockThread b) status; Ok (Some s2))
      (scan_post exc s object (b :: blocks) (length (waitListHead o)))).
  { intros s1 objs status Hc Hb1 Hr1 Hinobjs Hwake. apply returns_bind.
    eapply returns_mono; [by eapply complete_wait|].
    intros s2 (H1 & H2 & H3 & H4 & H5 & H6 & H7). cbn. split_and!; auto.
    destruct (H6 object o Hinobjs Ho) as (o2 & Ho2 & Hs2). destruct (H7 b object o Hin Ho Hb) as (o3 & Ho3 & Hlen).
    destruct (Forall2_Some_l _ _ _ _ (te_objects _ _ H2 object) Ho) as (o4 & Ho4 & Ho4').
    exists (blockThread b), o, o2. simplify_eq. split_and!; try done. by apply to_type. }
  cbn [wait_test_scan]. destruct (waitType b) eqn:Ety.
  - (* wait-all *)
    pose proof (waitall_block _ _ _ Hok Hin Ety) as Hinw.
    unfold KiIsWaitAllSatisfiable, get_thread. rewrite Hth. run.
    assert (Hdom : forall a, a ∈ blockObject <$> waitBlockList th -> is_Some (objects s !! a)).
    { intros a (b' & -> & Hb')%list_elem_of_fmap. by eapply waiter_objects. }
    pose proof (all_satisfiable_spec s (blockThread b) _ Hdom) as Hall.
    apply returns_alt in Hall as (r & -> & Hr). run. destruct r.
    + unfold KiSatisfyWaitAll, get_thread. rewrite Hth. run.
      assert (Hsat : returns (satisfy_all s (blockThread b) (blockObject <$> waitBlockList th) STATUS_SUCCESS)
        (fun '(st, s') => (st = STATUS_SUCCESS \/ (STATUS_SUCCESS = STATUS_SUCCESS /\ st = STATUS_ABANDONED_WAIT_0)) /\
          consumed (blockThread b) (blockObject <$> waitBlockList th) s s' /\ ke_body exc s' /\
          room_except (blockThread b) s')).
      { eapply returns_mono; [apply (satisfy_all_spec exc); [by eapply wo_distinct|done|by apply room_inv_except| |]|].
        - exists th. rewrite Hst. done.
        - intros a Ha. split; [by apply Hr|]. apply list_elem_of_fmap in Ha as (b' & -> & Hb').
          by eapply Hroom.
        - intros [st s'] (_ & Hst' & H). split; [|done]. destruct (Hst' eq_refl) as [[? _]|[? _]]; auto. }
      apply returns_alt in Hsat as ([st s1] & -> & Est & Hc & Hb1 & Hr1). run.
      assert (Hobjs : object ∈ blockObject <$> waitBlockList th) by (apply list_elem_of_fmap; by exists b).
      eapply Hdone; [done..|]. exists b. rewrite Ety. split; [done|]. split; [done|]. tauto.
    + eapply returns_mono; [apply IH; intros; apply Hsub; by right|]. intros [s'|]; [done|].
      cbn. intros Hno b' [->|Hb']%elem_of_cons; [|by apply Hno]. split; [done|].
      intros th' Hth' Hready. unfold ready_block in Hready. rewrite Ety in Hready.
      assert (th' = th) as -> by congruence.
      enough (false = true) by done. apply Hr. intros a (b2 & -> & Hb2)%list_elem_of_fmap. by apply Hready.
  - (* wait-any *)
    assert (Hsat : returns (KiSatisfyObject s object (blockThread b)) (fun '(w, s') =>
      w = bool_decide (type o = KI_OBJECT_MUTANT) && abandoned o /\
      consumed (blockThread b) [object] s s' /\ ke_body exc s' /\ room_except (blockThread b) s')).
    { eapply KiSatisfyObject_spec; try done.
      - by apply room_inv_except.
      - rewrite Hst. done.
      - unfold KiIsSatisfiable. destruct (Z.ltb_spec 0 (signalState o)); [done|lia].
      - rewrite <- Eobj. eapply block_room; try done. apply Hbody. }
    apply returns_alt in Hsat as ([w s1] & -> & Ew & Hc & Hb1 & Hr1). run.
    eapply Hdone; [done..|left|]. exists b. rewrite Ety. split; [done|]. split; [done|].
    destruct w; [right|by left]. symmetry in Ew. apply andb_true_iff in Ew as [Ew _].
    split; [by apply bool_decide_eq_true in Ew|done].
Qed.

(** The waiters [l] of [object] were released, one signal each, while there
    was a signal to consume. *)
Definition signals_spent object (l : list addr) s s' : Prop :=
  exists o o', woken (type o) object l s s' /\ objects s !! object = Some o /\ objects s' !! object = Some o' /\
    signalState o' = Nat.iter (length l) (signal_after (type o)) (signalState o) /\
    forall k, (k < length l)%nat -> 0 < Nat.iter k (signal_after (type o)) (signalState o).

Lemma signals_spent_nil object s o : objects s !! object = Some o -> signals_spent object [] s s.
Proof. intros Ho. exists o, o. split_and!; [apply woken_nil|done..|]. simpl. lia. Qed.

Lemma signals_spent_cons object t l s1 s2 s3 o1 o2 :
  woke (type o1) object t s1 s2 -> objects s1 !! object = Some o1 -> objects s2 !! object = Some o2 -> type o2 = type o1 ->
  signalState o2 = signal_after (type o1) (signalState o1) -> 0 < signalState o1 ->
  signals_spent object l s2 s3 -> signals_spent object (t :: l) s1 s3.
Proof.
  intros Ht H1 H2 Hty Hs Hpos (o & o' & Hl & Ho & Ho' & Hend & Hall).
  assert (o = o2) as -> by congruence. exists o1, o'. rewrite Hty, Hs in *.
  split_and!; [by eapply woken_cons|done..| |].
  - rewrite Hend. simpl. by rewrite Nat.iter_swap.
  - intros [|k] Hk; [done|]. simpl. rewrite <- Nat.iter_swap. apply Hall. simpl in Hk. lia.
Qed.

(** The restart loop ends with nothing left to wake. *)
Lemma wait_test_loop_spec exc fuel s object o :
  ke_core exc s -> quiet_but object s -> objects s !! object = Some o ->
  (signalState o <= 0 -> owner_awake object s) ->
  (length (waitListHead o) < fuel)%nat ->
  returns (wait_test_loop fuel s object) (fun s' => ke_core exc s' /\ quiet s' /\ tested s s' /\
    exists l, signals_spent object l s s').
Proof.
  revert s o. induction fuel as [|fuel IH]; intros s o Hcore Hq Ho Hawake Hfuel; [lia|].
  pose proof Hcore as [Hbody Hroom]. pose proof (kb_wait _ _ Hbody) as Hw.
  cbn [wait_test_loop]. unfold get_object. rewrite Ho. run.
  destruct (Z.leb_spec (signalState o) 0) as [Hsig|Hsig].
  - cbn. split_and!; [done| |apply tested_refl|exists []; by eapply signals_spent_nil]. intros t th b Hth Hb Hready.
    pose proof (Hq _ _ _ Hth Hb Hready) as Hx.
    assert (Hst : state th = KI_THREAD_STATE_WAITING).
    { apply (wo_waiting _ _ (wi_threads _ Hw _ _ Hth)). intros E. rewrite E in Hb. by apply elem_of_nil in Hb. }
    assert (sat s object t) as (o' & Ho' & Hs).
    { unfold ready_block in Hready. destruct (waitType b); [|by rewrite <- Hx].
      apply list_elem_of_fmap in Hx as (b' & -> & Hb'). by apply Hready. }
    assert (o' = o) as -> by congruence.
    apply KiIsSatisfiable_signal in Hs as [?|[Hm How]]; [lia|].
    apply (Hawake Hsig o th); [done|done| |done]. by rewrite How.
  - pose proof (wait_test_scan_spec exc s object o (waitListHead o) Hcore Ho Hsig ltac:(done)) as Hscan.
    apply returns_alt in Hscan as (r & -> & Hr). run. destruct r as [s'|].
    + destruct Hr as (Hcore' & Ht & Haw & Hq' & t & o0 & o' & Hwoke & Ho0 & Ho' & Hty & Hs & Hlen).
      assert (o0 = o) as -> by congruence.
      eapply returns_mono; [apply (IH s' o'); auto; lia|]. intros s'' (H1 & H2 & H3 & l & H4).
      split_and!; [done..|by eapply tested_trans|]. exists (t :: l). by eapply signals_spent_cons.
    + cbn. split_and!; [done| |apply tested_refl|exists []; by eapply signals_spent_nil]. intros t th b Hth Hb Hready.
      pose proof (Hq _ _ _ Hth Hb Hready) as Hx.
      destruct (block_linked s t th b Hw Hth Hb) as (Et & ob & Hob & Hinb).
      pose proof (wi_threads _ Hw _ _ Hth) as Hok.
      destruct (waitType b) eqn:Ety.
      * apply list_elem_of_fmap in Hx as (b' & Eb' & Hb').
        assert (Hall' : b' ∈ all_blocks t th) by (apply elem_of_app; by left).
        destruct (block_linked s t th b' Hw Hth Hall') as (Et' & ob' & Hob' & Hinb').
        rewrite <- Eb', Ho in Hob'. injection Hob' as <-.
        destruct (Hr _ Hinb') as [Ety' Hno]. rewrite Et' in Hno. apply (Hno _ Hth).
        unfold ready_block in Hready |- *. rewrite Ety in Hready. by rewrite Ety'.
      * rewrite Hx, Ho in Hob. injection Hob as <-. destruct (Hr _ Hinb). congruence.
Qed.

(** KiWaitTest always terminates without a panic, whatever mix of
    wait-any and wait-all waiters the object has, keeps every invariant of the
    dispatcher, and leaves no wait parked that could complete: no wakeup is
    missed. *)
Lemma KiWaitTest_quiet exc s object o :
  ke_core exc s -> quiet_but object s -> objects s !! object = Some o ->
  (signalState o <= 0 -> owner_awake object s) ->
  returns (KiWaitTest s object) (fun s' => ke_core exc s' /\ quiet s' /\ tested s s' /\
    exists l, signals_spent object l s s').
Proof.
  intros Hcore Hq Ho Haw. unfold KiWaitTest, get_object. rewrite Ho. run.
  eapply wait_test_loop_spec; eauto.
Qed.
End wait_test_loop.

(** ** The invariant of a state between two operations *)

(** Every accounted tick is in exactly one bucket. *)
Definition clock_inv (s : KSTATE) : Prop :=
  KiInterruptTime s = u64 (KiIdleTime100ns s + KiTotalKernelTime100ns s + KiTotalUserTime100ns s).

Record ke_inv (s : KSTATE) : Prop := {
  ki_core : ke_core None s;
  ki_quiet : quiet s;
  ki_cur : cur_inv s;
  ki_clock : clock_inv s;
}.

Section signals.
Implicit Types (s : KSTATE) (t a x : Z) (th : KTHREAD) (o : KOBJECT) (b : KWAIT_BLOCK).

Lemma blocks_waiting s t th b :
  wait_inv s -> threads s !! t = Some th -> b ∈ all_blocks t th -> state th = KI_THREAD_STATE_WAITING.
Proof.
  intros Hw Hth Hb. apply (wo_waiting _ _ (wi_threads _ Hw _ _ Hth)).
  intros E. rewrite E in Hb. by apply elem_of_nil in Hb.
Qed.

Lemma not_waiting_blocks s t th :
  wait_inv s -> threads s !! t = Some th -> state th <> KI_THREAD_STATE_WAITING ->
  waitBlockList th = [] /\ timerArmed th = false.
Proof.
  intros Hw Hth Hst. pose proof (wo_waiting _ _ (wi_threads _ Hw _ _ Hth)) as Hiff.
  assert (E : all_blocks t th = []).
  { destruct (all_blocks t th); [done|]. destruct Hst. by apply Hiff. }
  unfold all_blocks in E. apply app_nil in E as [? E]. split; [done|]. by destruct (timerArmed th).
Qed.

(** Changing the satisfiability of [a] alone leaves only waits on [a] to look
    at. *)
Lemma quiet_signal a s s' :
  quiet s ->
  (forall t th', threads s' !! t = Some th' -> all_blocks t th' <> [] ->
     exists th, threads s !! t = Some th /\ all_blocks t th' = all_blocks t th /\
       waitBlockList th' = waitBlockList th) ->
  (forall x t, x <> a -> sat s' x t -> sat s x t) ->
  quiet_but a s'.
Proof.
  intros Hq Hth Hsat t th' b Hth' Hb Hready.
  destruct (Hth _ _ Hth') as (th & Hlk & Eb & Ew); [by intros E; rewrite E in Hb; apply elem_of_nil in Hb|].
  rewrite Eb in Hb. rewrite Ew. pose proof (Hq _ _ _ Hlk Hb) as Hno. unfold ready_block in *.
  destruct (waitType b).
  - destruct (decide (a ∈ blockObject <$> waitBlockList th)) as [|Hn]; [done|]. destruct Hno.
    intros b' Hb'. apply Hsat; [|apply Hready; by rewrite Ew].
    intros E. apply Hn, list_elem_of_fmap. by exists b'.
  - destruct (decide (blockObject b = a)); [done|]. destruct Hno. by apply Hsat.
Qed.

(** If [a] does not become more satisfiable, nothing wakes. *)
Lemma quiet_weaken s s' :
  quiet s ->
  (forall t th', threads s' !! t = Some th' -> all_blocks t th' <> [] ->
     exists th, threads s !! t = Some th /\ all_blocks t th' = all_blocks t th /\
       waitBlockList th' = waitBlockList th) ->
  (forall x t, sat s' x t -> sat s x t) -> quiet s'.
Proof.
  intros Hq Hth Hsat. eapply quiet_mono; [|done]. intros t th' H1 H2.
  destruct (Hth _ _ H1 H2) as (th & ? & ? & ?). exists th. split_and!; auto.
Qed.

Lemma sat_put_ne s a o' x t : x <> a -> sat (put_object s a o') x t -> sat s x t.
Proof. intros Hne (o & Ho & Hs). simpl in Ho. rewrite lookup_insert_ne in Ho by done. by exists o. Qed.

Lemma sat_put s a o o' :
  objects s !! a = Some o ->
  (forall t, KiIsSatisfiable o' t = true -> KiIsSatisfiable o t = true) ->
  forall x t, sat (put_object s a o') x t -> sat s x t.
Proof.
  intros Ho Hw x t. destruct (decide (x = a)) as [->|]; [|by apply sat_put_ne].
  intros (o2 & Ho2 & Hs). simpl in Ho2. rewrite lookup_insert_eq in Ho2. injection Ho2 as <-.
  exists o. auto.
Qed.

Lemma same_threads_blocks s s' :
  threads s' = threads s ->
  forall t th', threads s' !! t = Some th' -> all_blocks t th' <> [] ->
     exists th, threads s !! t = Some th /\ all_blocks t th' = all_blocks t th /\
       waitBlockList th' = waitBlockList th.
Proof. intros E t th' Hth' _. exists th'. by rewrite <- E. Qed.

Lemma cur_inv_tested s s' : tested s s' -> cur_inv s -> cur_inv s'.
Proof.
  intros Ht [(th & Hth & Hst) Hu].
  assert (Ec : KiCurrentThread s' = KiCurrentThread s) by (by rewrite (te_rest _ _ Ht)).
  split; rewrite Ec.
  - exists th. split; [|done]. by eapply tested_thread_same; [|done|rewrite Hst].
  - intros t th' Hth' Hst'. destruct (Forall2_Some_r _ _ _ _ (te_threads _ _ Ht t) Hth') as (th0 & Hth0 & [->|[_ E]]).
    + by apply (Hu t th0).
    + rewrite E in Hst'. discriminate Hst'.
Qed.

Lemma tested_object_at s s' a o :
  tested s s' -> objects s !! a = Some o -> exists o', objects s' !! a = Some o' /\ tested_object o o'.
Proof. intros Ht. apply Forall2_Some_l, (te_objects _ _ Ht). Qed.

(** The timer just expired has woken its thread. *)
Lemma expired_settled s a :
  ke_core (Some a) s -> quiet s ->
  (forall o, objects s !! a = Some o -> 0 < signalState o /\ inserted o = false) ->
  ke_core None s.
Proof.
  intros [[Hs Hw Ht Hm Ho] Hr] Hq Ha. split; [|done]. split; try done. destruct Ht as [? ? ? ? ? Hth ?].
  split; try done. intros t th Hlk. destruct (Hth _ _ Hlk) as (o & Hoa & ? & ? & Hi).
  exists o. split_and!; [done..|]. intros _. destruct (decide (timer th = a)) as [E|].
  - rewrite E in Hoa. destruct (Ha _ Hoa) as [Hsig ->]. destruct (timerArmed th) eqn:Earm; [|done].
    exfalso. apply (Hq t th (timerWaitBlock t th) Hlk).
    + unfold all_blocks. rewrite Earm. apply elem_of_app. right. left.
    + exists o. simpl. rewrite E. split; [done|]. unfold KiIsSatisfiable.
      by destruct (Z.ltb_spec 0 (signalState o)); [|lia].
  - apply Hi. congruence.
Qed.

(** Raising or lowering the signal of an object that is not a mutant, and
    testing its waiters. *)
Lemma signal_then_test s a o v :
  ke_inv s -> objects s !! a = Some o -> type o <> KI_OBJECT_MUTANT ->
  object_ok (o <| signalState := v |>) -> (type o = KI_OBJECT_THREAD -> signalState o = 1 -> v = 1) ->
  returns (KiWaitTest (put_object s a (o <| signalState := v |>)) a)
    (fun s' => ke_inv s' /\ tested (put_object s a (o <| signalState := v |>)) s' /\
       exists l, signals_spent a l (put_object s a (o <| signalState := v |>)) s').
Proof.
  intros [[Hb Hr] Hq Hc Hclk] Ho Hty Hok Hdead. set (s1 := put_object s a (o <| signalState := v |>)).
  assert (Hb1 : ke_body None s1) by (by apply put_signal_body).
  assert (Hr1 : room_inv s1).
  { intros t th b Hth Hbb o2 Ho2 Hty2. simpl in Ho2. destruct (decide (blockObject b = a)) as [E|].
    - rewrite E, lookup_insert_eq in Ho2. by injection Ho2 as <-.
    - rewrite lookup_insert_ne in Ho2 by done. by eapply Hr. }
  eapply returns_mono.
  - eapply KiWaitTest_quiet; [done| | |].
    + apply (quiet_signal a s); [done|by apply same_threads_blocks|]. intros x t. apply sat_put_ne.
    + unfold s1. simpl. by rewrite lookup_insert_eq.
    + intros _ o2 th Ho2 Hty2. simpl in Ho2. rewrite lookup_insert_eq in Ho2. by injection Ho2 as <-.
  - intros s' (Hcore & Hq' & Ht & Hl). split; [|done]. split; [done|done|by apply (cur_inv_tested s1)|].
    unfold clock_inv. by rewrite (te_rest _ _ Ht).
Qed.

(** Lowering a signal wakes nobody. *)
Lemma lower_signal s a o v :
  ke_inv s -> objects s !! a = Some o -> type o <> KI_OBJECT_MUTANT -> type o <> KI_OBJECT_THREAD ->
  object_ok (o <| signalState := v |>) -> v <= signalState o ->
  ke_inv (put_object s a (o <| signalState := v |>)).
Proof.
  intros [[Hb Hr] Hq Hc Hclk] Ho Hty Hth Hok Hv. split; [split| |done|done].
  - by apply put_signal_body.
  - intros t th b Hlk Hbb o2 Ho2 Hty2. simpl in Ho2. destruct (decide (blockObject b = a)) as [E|].
    + rewrite E, lookup_insert_eq in Ho2. by injection Ho2 as <-.
    + rewrite lookup_insert_ne in Ho2 by done. by eapply Hr.
  - apply (quiet_weaken s); [done|by apply same_threads_blocks|]. apply (sat_put s a o); [done|].
    intros t. by apply KiIsSatisfiable_zero.
Qed.
End signals.

(** ** Releasing a mutant *)

Section mutants.
Implicit Types (s : KSTATE) (t a m x : Z) (th : KTHREAD) (o : KOBJECT) (b : KWAIT_BLOCK).

(** [m], owned by [t], becomes free, with [o'] its new contents. *)
Definition freed s t th m o' : KSTATE :=
  put_thread (put_object s m o') t (th <| mutantListHead := unlink m (mutantListHead th) |>).

Lemma freed_core s t th m o o' :
  ke_core None s -> objects s !! m = Some o -> type o = KI_OBJECT_MUTANT -> ownerThread o = t ->
  threads s !! t = Some th -> wait_object_frame o o' -> signalState o' = 1 -> ownerThread o' = 0 ->
  ke_core None (freed s t th m o').
Proof.
  intros [[Hs Hw Ht Hm Ho] Hr] Hom Hty How Hth Hf Hsig How'. set (s1 := put_object s m o').
  assert (F1 : wait_frame s s1) by (by apply (put_object_wait_frame s m o)).
  assert (Hty' : type o' = KI_OBJECT_MUTANT) by (by rewrite (wf_type _ _ Hf)).
  pose proof (oi_thread _ Ho _ _ Hth) as (Ht0 & _).
  set (th' := th <| mutantListHead := unlink m (mutantListHead th) |>).
  assert (F2 : wait_frame s1 (put_thread s1 t th')) by (by apply (put_thread_wait_frame s1 t th)).
  assert (Hthreads : forall x thx, threads (put_thread s1 t th') !! x = Some thx ->
    exists thx0, threads s !! x = Some thx0 /\ state thx = state thx0 /\
      (mutantListHead thx = if decide (x = t) then unlink m (mutantListHead thx0) else mutantListHead thx0)).
  { intros x thx. simpl. destruct (decide (x = t)) as [->|].
    - rewrite lookup_insert_eq. intros [= <-]. by exists th.
    - rewrite lookup_insert_ne by done. eauto. }
  destruct Hm as [Hmo Hml Hmn Hmd].
  assert (Hother : forall x thx, threads s !! x = Some thx -> m ∈ mutantListHead thx -> x = t).
  { intros x thx Hx Hin. destruct (Hml _ _ _ Hx Hin) as (o2 & ? & _ & ?). congruence. }
  split; [split|].
  - apply (put_thread_sched s1 t th); [by apply put_object_sched|done..].
  - eapply wait_inv_frame; [exact F2|]. by eapply wait_inv_frame.
  - eapply timer_inv_frame; [exact F2|]. by eapply timer_inv_frame.
  - split.
    + intros m2 o2 Ho2 Hty2. simpl in Ho2. destruct (decide (m2 = m)) as [->|Hne].
      * rewrite lookup_insert_eq in Ho2. injection Ho2 as <-. by split.
      * rewrite lookup_insert_ne in Ho2 by done. destruct (Hmo _ _ Ho2 Hty2) as [Hf2 Hw2]. split; [done|].
        intros Hn0. destruct (Hw2 Hn0) as (Hrange & thw & Hthw & Hin). split; [done|]. simpl.
        destruct (decide (ownerThread o2 = t)) as [E|]; [|rewrite lookup_insert_ne by done; eauto].
        rewrite E, lookup_insert_eq. exists th'. split; [done|]. apply elem_of_unlink.
        rewrite E, Hth in Hthw. injection Hthw as <-. done.
    + intros x thx m2 (thx0 & Hx0 & _ & El)%Hthreads Hin.
      assert (m2 ∈ mutantListHead thx0 /\ m2 <> m) as [Hin0 Hne].
      { rewrite El in Hin. destruct (decide (x = t)) as [->|Hxt]; [by apply elem_of_unlink|].
        split; [done|]. intros ->. by eapply Hxt, Hother. }
      destruct (Hml _ _ _ Hx0 Hin0) as (o2 & ? & ? & ?). exists o2. simpl.
      by rewrite lookup_insert_ne.
    + intros x thx (thx0 & Hx0 & _ & El)%Hthreads. rewrite El.
      destruct (decide (x = t)); [apply NoDup_unlink|]; eauto.
    + intros x thx (thx0 & Hx0 & Est & El)%Hthreads Hdead. rewrite El.
      rewrite (Hmd _ _ Hx0) by congruence. by destruct (decide _).
  - apply (put_thread_object_inv s1 t th); try done.
    apply (put_object_object_inv s m o); try done; [by rewrite (wf_type _ _ Hf)|].
    split; by rewrite Hty'.
  - intros x thx b Hx Hb o2 Ho2 Hty2 How2. simpl in Ho2, Hx.
    assert (exists thx0, threads s !! x = Some thx0 /\ b ∈ waitBlockList thx0) as (thx0 & Hx0 & Hb0).
    { destruct (decide (x = t)) as [->|]; [|rewrite lookup_insert_ne in Hx by done; eauto].
      rewrite lookup_insert_eq in Hx. injection Hx as <-. by exists th. }
    destruct (decide (blockObject b = m)) as [E|].
    + rewrite E, lookup_insert_eq in Ho2. injection Ho2 as <-. lia.
    + rewrite lookup_insert_ne in Ho2 by done. by eapply Hr.
Qed.

Lemma freed_quiet s t th m o' :
  quiet s -> threads s !! t = Some th -> quiet_but m (freed s t th m o').
Proof.
  intros Hq Hth. apply (quiet_signal m s); [done| |].
  - intros x thx Hx _. simpl in Hx. destruct (decide (x = t)) as [->|].
    + rewrite lookup_insert_eq in Hx. injection Hx as <-. by exists th.
    + rewrite lookup_insert_ne in Hx by done. by exists thx.
  - intros x y Hne (o2 & Ho2 & Hs). simpl in Ho2. rewrite lookup_insert_ne in Ho2 by done. by exists o2.
Qed.

(** Free [m] and test its waiters. *)
Lemma free_then_test s t th m o o' :
  ke_core None s -> quiet s -> objects s !! m = Some o -> type o = KI_OBJECT_MUTANT ->
  ownerThread o = t -> threads s !! t = Some th -> wait_object_frame o o' ->
  signalState o' = 1 -> ownerThread o' = 0 ->
  returns (KiWaitTest (freed s t th m o') m)
    (fun s' => ke_core None s' /\ quiet s' /\ tested (freed s t th m o') s' /\
       exists l, signals_spent m l (freed s t th m o') s').
Proof.
  intros Hcore Hq Ho Hty How Hth Hf Hsig How'. eapply KiWaitTest_quiet.
  - by eapply freed_core.
  - by apply freed_quiet.
  - simpl. by rewrite lookup_insert_eq.
  - lia.
Qed.

(** An owned mutant and its owner. *)
Lemma mutant_owned s m o :
  mutant_inv s -> objects s !! m = Some o -> type o = KI_OBJECT_MUTANT -> ownerThread o <> 0 ->
  - 2 ^ 31 <= signalState o <= 0 /\ exists th, threads s !! ownerThread o = Some th /\ m ∈ mutantListHead th.
Proof. intros Hm Ho Hty. by apply (mi_object _ Hm). Qed.

(** A mutant nobody owns any more. *)
Definition free_mutant (abandon : bool) o : KOBJECT :=
  o <| signalState := 1 |> <| abandoned := abandon || abandoned o |> <| ownerThread := 0 |>.

(** The final release wakes a waiter; an inner release only counts. *)
Definition released s (abandon : bool) t th m o s' : Prop :=
  if abandon || (signalState o =? 0)
  then tested (freed s t th m (free_mutant abandon o)) s' /\
    exists l, signals_spent m l (freed s t th m (free_mutant abandon o)) s'
  else s' = put_object s m (o <| signalState := signalState o + 1 |>).

Lemma KiReleaseMutant_spec s m o (abandon : bool) :
  ke_core None s -> quiet s -> objects s !! m = Some o -> type o = KI_OBJECT_MUTANT ->
  ownerThread o = KiCurrentThread s -> ownerThread o <> 0 ->
  returns (KiReleaseMutant s m abandon) (fun '(previous, s') =>
    previous = signalState o /\ ke_core None s' /\ quiet s' /\
    exists th, threads s !! ownerThread o = Some th /\ m ∈ mutantListHead th /\
      released s abandon (ownerThread o) th m o s').
Proof.
  intros Hcore Hq Ho Hty Hcur Hn0.
  destruct (mutant_owned s m o (kb_mutant _ _ (proj1 Hcore)) Ho Hty Hn0) as (Hrange & th & Hth & Hin).
  unfold KiReleaseMutant, get_object. rewrite Ho. run. rewrite bool_decide_eq_true_2 by done. run.
  set (o1 := if abandon then o <| signalState := 1 |> <| abandoned := true |>
             else o <| signalState := signalState o + 1 |>).
  assert (E1 : (if abandon then Ok (o <| signalState := 1 |> <| abandoned := true |>)
        else if negb (ownerThread o =? KiCurrentThread s)
        then Panic "KeReleaseMutex: caller does not own the mutex (STATUS_MUTANT_NOT_OWNED)"
        else (_ ← ASSERT (signalState o <=? 0) "owned: 0 or recursion-negative";
          Ok (o <| signalState := signalState o + 1 |>))) = Ok o1).
  { unfold o1. destruct abandon; [done|]. rewrite Hcur, Z.eqb_refl. run.
    by destruct (Z.leb_spec (signalState o) 0); [|lia]. }
  rewrite E1. run. unfold get_thread, released.
  assert (Eone : (signalState o1 =? 1) = abandon || (signalState o =? 0)).
  { unfold o1. destruct abandon; [done|]. simpl.
    destruct (Z.eqb_spec (signalState o + 1) 1), (Z.eqb_spec (signalState o) 0); lia || done. }
  rewrite Eone. destruct (abandon || (signalState o =? 0)) eqn:Efree.
  - rewrite Hth. run. rewrite decide_True by done.
    set (o' := free_mutant abandon o).
    assert (Eo : o1 <| ownerThread := 0 |> = o').
    { unfold o', o1, free_mutant in *. destruct abandon; [by destruct o|]. simpl in Eone |- *.
      apply Z.eqb_eq in Eone. rewrite Eone. by destruct o. }
    pose proof (free_then_test s _ th m o o' Hcore Hq Ho Hty eq_refl Hth ltac:(done) eq_refl eq_refl) as Htest.
    apply returns_alt in Htest as (s' & E & Hcore' & Hq' & Ht & Hl).
    rewrite Eo. unfold freed in E. rewrite E. run. cbn [returns]. split_and!; [done..|].
    by exists th.
  - cbn [returns]. destruct abandon; [done|]. simpl in Efree. apply Z.eqb_neq in Efree.
    destruct Hcore as [Hb Hr]. unfold o1.
    assert (Hs1 : - 2 ^ 31 <= signalState o + 1 <= 0) by lia. split_and!; [done| | |exists th; done].
    + split; [destruct Hb as [Hs Hw Ht Hm Hob]; split|].
      * by apply put_object_sched.
      * eapply wait_inv_frame; [|done]. by apply (put_object_wait_frame s m o).
      * eapply timer_inv_frame; [|done]. by apply (put_object_wait_frame s m o).
      * destruct Hm as [Hmo Hml Hmn Hmd]. split; try done.
        -- intros m2 o2 Ho2 Hty2. simpl in Ho2. destruct (decide (m2 = m)) as [->|].
           ++ rewrite lookup_insert_eq in Ho2. injection Ho2 as <-. destruct (Hmo _ _ Ho Hty).
              split; simpl; [done|]. intros _. split; [done|]. by exists th.
           ++ rewrite lookup_insert_ne in Ho2 by done. by destruct (Hmo _ _ Ho2 Hty2).
        -- intros x thx m2 Hx Hin2. destruct (Hml _ _ _ Hx Hin2) as (o2 & ? & ? & ?). simpl.
           destruct (decide (m2 = m)) as [->|]; [|rewrite lookup_insert_ne by done; eauto].
           rewrite lookup_insert_eq. eexists. split; [done|]. simplify_eq. done.
      * apply (put_object_object_inv s m o); try done; [|by rewrite Hty]. split; simpl; by rewrite Hty.
      * intros x thx b Hx Hbb o2 Ho2 Hty2 How2. simpl in Ho2. destruct (decide (blockObject b = m)) as [E|].
        -- rewrite E, lookup_insert_eq in Ho2. injection Ho2 as <-. simpl. lia.
        -- rewrite lookup_insert_ne in Ho2 by done. by eapply Hr.
    + apply (quiet_weaken s); [done|by apply same_threads_blocks|]. apply (sat_put s m o); [done|].
      intros t. unfold KiIsSatisfiable. simpl.
      destruct (Z.ltb_spec 0 (signalState o + 1)); [lia|]. intros Hx. apply orb_true_iff. by right.
Qed.
End mutants.

(** ** Parking *)

Section park.
Implicit Types (s : KSTATE) (t a x : Z) (th : KTHREAD) (o : KOBJECT) (b : KWAIT_BLOCK).

(** Only wait lists differ. *)
Record relisted s s' : Prop := {
  rl_objects : forall a, option_Forall2 (fun o o' => o' = o <| waitListHead := waitListHead o' |>)
    (objects s !! a) (objects s' !! a);
  rl_rest : s' = s <| objects := objects s' |>;
}.

Lemma relisted_refl s : relisted s s.
Proof. split; [|by destruct s]. intros a. apply option_Forall2_refl. intros o _. by destruct o. Qed.

Lemma relisted_trans s1 s2 s3 : relisted s1 s2 -> relisted s2 s3 -> relisted s1 s3.
Proof.
  intros [O1 R1] [O2 R2]. split.
  - intros a. specialize (O1 a). specialize (O2 a).
    destruct O1 as [o1 o2 E1|]; inversion O2 as [? o3 E2|]; subst; constructor.
    rewrite E2. rewrite E1. by destruct o1, o3.
  - rewrite R2. rewrite R1. by destruct s1, s3.
Qed.

Lemma link_block_spec s W b :
  links s W -> ~ W b -> is_Some (objects s !! blockObject b) ->
  returns (link_block s b) (fun s' => relisted s s' /\ links s' (fun b' => W b' \/ b' = b)).
Proof.
  intros [Hn Hh Hi] Hb [o Ho]. unfold link_block, get_object. rewrite Ho. run. cbn [returns].
  assert (Hnew : b ∉ waitListHead o) by (intros Hin; apply Hb, Hi; by exists o).
  set (o' := o <| waitListHead := waitListHead o ++ [b] |>).
  assert (Hlk : forall a oa, objects (put_object s (blockObject b) o') !! a = Some oa ->
    exists oa0, objects s !! a = Some oa0 /\
      waitListHead oa = if decide (a = blockObject b) then waitListHead oa0 ++ [b] else waitListHead oa0).
  { intros a oa. simpl. destruct (decide (a = blockObject b)) as [->|].
    - rewrite lookup_insert_eq. intros [= <-]. by exists o.
    - rewrite lookup_insert_ne by done. eauto. }
  split; [split; [|by destruct s]|split].
  - apply (put_object_forall2 _ _ _ o); [|done|].
    + intros x. by destruct x.
    + by destruct o.
  - intros a oa (oa0 & Ho0 & ->)%Hlk. destruct (decide (a = blockObject b)) as [->|]; [|eauto].
    apply NoDup_app. split_and!; [eauto| |apply NoDup_singleton]. intros y Hy ->%list_elem_of_singleton.
    simplify_eq. done.
  - intros a oa y (oa0 & Ho0 & ->)%Hlk Hy. destruct (decide (a = blockObject b)) as [->|]; [|eauto].
    apply elem_of_app in Hy as [Hy|Hy]; [eauto|]. by apply list_elem_of_singleton in Hy as ->.
  - intros y. rewrite <- Hi. split.
    + intros (oa & (oa0 & Ho0 & E)%Hlk & Hy). rewrite E in Hy.
      destruct (decide (blockObject y = blockObject b)) as [Eb|]; [|left; by exists oa0].
      apply elem_of_app in Hy as [Hy|Hy]; [left; by exists oa0|]. right. by apply list_elem_of_singleton in Hy.
    + intros [(oa & Hoa & Hy)| ->].
      * destruct (decide (blockObject y = blockObject b)) as [Eb|Hne].
        -- exists o'. simpl. rewrite Eb, lookup_insert_eq. split; [done|]. apply elem_of_app. left.
           rewrite Eb in Hoa. simplify_eq. done.
        -- exists oa. simpl. by rewrite lookup_insert_ne.
      * exists o'. simpl. rewrite lookup_insert_eq. split; [done|]. apply elem_of_app. right. left.
Qed.

Lemma links_ext s W W' : (forall b, W b <-> W' b) -> links s W -> links s W'.
Proof. intros E [? ? Hi]. split; [done..|]. intros b. by rewrite Hi. Qed.

Lemma link_blocks_spec s W bs :
  links s W -> NoDup bs -> (forall b, b ∈ bs -> ~ W b /\ is_Some (objects s !! blockObject b)) ->
  returns (foldM link_block s bs) (fun s' => relisted s s' /\ links s' (fun b => W b \/ b ∈ bs)).
Proof.
  revert s W. induction bs as [|b bs IH]; intros s W Hl Hn Hb.
  { cbn. split; [apply relisted_refl|]. eapply links_ext; [|done]. intros b. rewrite elem_of_nil. tauto. }
  apply NoDup_cons in Hn as [Hnb Hn]. destruct (Hb b ltac:(left)) as [Hw Hdom]. cbn [foldM].
  apply returns_bind. eapply returns_mono; [by apply link_block_spec|]. intros s1 [Hr1 Hl1].
  eapply returns_mono.
  - apply (IH s1 _ Hl1 Hn). intros y Hy. destruct (Hb y ltac:(by right)) as [Hwy [oy Hoy]]. split.
    + intros [?| ->]; done.
    + destruct (Forall2_Some_l _ _ _ _ (rl_objects _ _ Hr1 _) Hoy) as (oy' & ? & _). eauto.
  - intros s2 [Hr2 Hl2]. split; [by eapply relisted_trans|]. eapply links_ext; [|done].
    intros y. rewrite elem_of_cons. tauto.
Qed.

(** *** The timer queue *)

Lemma insert_due_spec s l a v :
  (forall y, y ∈ l -> is_Some (objects s !! y)) -> due s a = v ->
  StronglySorted (fun x y => due s x <= due s y) l ->
  returns (insert_due s l a v) (fun l' =>
    StronglySorted (fun x y => due s x <= due s y) l' /\ Permutation l' (a :: l) /\
    exists l1 l2, l = l1 ++ l2 /\ l' = l1 ++ a :: l2 /\
      Forall (fun y => due s y <= v) l1 /\ Forall (fun y => v < due s y) l2).
Proof.
  intros Hdom Hv Hs. induction Hs as [|y l Hs IH Hy]; cbn [insert_due].
  - cbn. split_and!; [repeat constructor|done|]. exists [], []. done.
  - destruct (Hdom y ltac:(left)) as [o Ho]. unfold get_object. rewrite Ho. run.
    assert (Edue : dueTime o = due s y) by (unfold due; by rewrite Ho). rewrite Edue.
    destruct (Z.leb_spec (due s y) v) as [Hle|Hgt].
    + apply returns_bind. eapply returns_mono; [apply IH; intros; apply Hdom; by right|].
      intros l' (Hs' & Hp & l1 & l2 & -> & -> & H1 & H2). cbn. split_and!.
      * constructor; [done|]. rewrite Hp. constructor; [lia|done].
      * rewrite Hp. apply perm_swap.
      * exists (y :: l1), l2. split_and!; [done..| |done]. by constructor.
    + cbn. split_and!; [|done|].
      * constructor; [by constructor|]. constructor; [lia|].
        eapply Forall_impl; [apply Hy|]. simpl. intros. lia.
      * exists [], (y :: l). split_and!; [done..|]. constructor; [done|].
        eapply Forall_impl; [apply Hy|]. simpl. intros. lia.
Qed.

(** Arming timer [a], which is not on the queue. *)
Lemma KiInsertTimer_spec s a o v :
  NoDup (KiTimerListHead s) ->
  (forall x, x ∈ KiTimerListHead s <-> exists o, objects s !! x = Some o /\ inserted o = true) ->
  StronglySorted (fun x y => due s x <= due s y) (KiTimerListHead s) ->
  objects s !! a = Some o -> inserted o = false ->
  returns (KiInsertTimer s a v) (fun s' => exists l',
    s' = put_object s a (o <| dueTime := v |> <| inserted := true |>) <| KiTimerListHead := l' |> /\
    Permutation l' (a :: KiTimerListHead s) /\
    StronglySorted (fun x y => due s' x <= due s' y) l' /\
    exists l1 l2, KiTimerListHead s = l1 ++ l2 /\ l' = l1 ++ a :: l2 /\
      Forall (fun y => due s y <= v) l1 /\ Forall (fun y => v < due s y) l2).
Proof.
  intros Hn Hm Hs Ho Hi. unfold KiInsertTimer, get_object. rewrite Ho. run. rewrite Hi. run.
  set (s1 := put_object s a (o <| dueTime := v |> <| inserted := true |>)).
  assert (Ha : a ∉ KiTimerListHead s) by (rewrite Hm; intros (o2 & ? & ?); congruence).
  assert (Hdue : forall x, x ∈ KiTimerListHead s -> due s1 x = due s x).
  { intros x Hx. unfold due, s1. simpl. rewrite lookup_insert_ne; [done|]. by intros ->. }
  apply returns_bind. eapply returns_mono.
  - apply (insert_due_spec s1 (KiTimerListHead s) a v).
    + intros x Hx. pose proof Hx as (ox & Hox & _)%Hm. unfold s1. simpl.
      rewrite lookup_insert_ne; [eauto|]. by intros ->.
    + unfold due, s1. simpl. by rewrite lookup_insert_eq.
    + eapply StronglySorted_mono; [|apply Hs]. intros x y Hx Hy. by rewrite !Hdue.
  - intros l' (Hs' & Hp & l1 & l2 & El & El' & H1 & H2). cbn [returns]. exists l'.
    split_and!; [done..|]. exists l1, l2. split_and!; [done..| |].
    + rewrite Forall_forall in H1 |- *. intros y Hy. rewrite <- Hdue; [auto|]. rewrite El. apply elem_of_app. by left.
    + rewrite Forall_forall in H2 |- *. intros y Hy. rewrite <- Hdue; [auto|]. rewrite El. apply elem_of_app. by right.
Qed.
End park.

(** *** The parked state *)

Section parked.
Implicit Types (s : KSTATE) (t a x : Z) (th : KTHREAD) (o : KOBJECT) (b : KWAIT_BLOCK).

Definition parked_thread th (blocks : list KWAIT_BLOCK) (timed alertable : bool) : KTHREAD :=
  th <| waitBlockList := blocks |> <| timerArmed := timed |> <| waitAlertable := alertable |>
     <| state := KI_THREAD_STATE_WAITING |>.

Definition parked_object (tm v : Z) (timed : bool) a o o' : Prop :=
  o' = if timed && (a =? tm)
       then o <| signalState := 0 |> <| waitListHead := waitListHead o' |> <| dueTime := v |>
              <| inserted := true |>
       else o <| waitListHead := waitListHead o' |>.

(** [s'] is [s] with thread [t], alone, parked on [blocks] and, if [timed],
    on its own timer due at [v]. *)
Record parked s t th blocks (timed alertable : bool) (v : Z) s' : Prop := {
  pk_threads : threads s' = <[t := parked_thread th blocks timed alertable]> (threads s);
  pk_objects : forall a, option_Forall2 (parked_object (timer th) v timed a) (objects s !! a) (objects s' !! a);
  pk_links : links s' (fun b => armed s b \/ b ∈ all_blocks t (parked_thread th blocks timed alertable));
  pk_timers : if timed
    then Permutation (KiTimerListHead s') (timer th :: KiTimerListHead s) /\
         StronglySorted (fun x y => due s' x <= due s' y) (KiTimerListHead s')
    else KiTimerListHead s' = KiTimerListHead s;
  pk_rest : s' = s <| threads := threads s' |> <| objects := objects s' |>
                   <| KiTimerListHead := KiTimerListHead s' |>;
}.

Context (s : KSTATE) (t : Z) (th : KTHREAD) (blocks : list KWAIT_BLOCK) (timed alertable : bool) (v : Z).
Context (s' : KSTATE).
Let th' := parked_thread th blocks timed alertable.
Hypothesis Hinv : ke_inv s.
Hypothesis Hth : threads s !! t = Some th.
Hypothesis Hcur : KiCurrentThread s = t.
Hypothesis Hidle : t <> KiIdleThread s.
Hypothesis Hok : wait_ok t th'.
Hypothesis Hv : 0 <= v.
Hypothesis Hroom : forall b, b ∈ blocks -> room s t (blockObject b).
Hypothesis Hno : forall b, b ∈ blocks -> ~ ready_block s t th' b.
Hypothesis Hp : parked s t th blocks timed alertable v s'.

Lemma parked_running : state th = KI_THREAD_STATE_RUNNING.
Proof.
  destruct (ki_cur _ Hinv) as [(th0 & Hth0 & Hst) _]. rewrite Hcur in Hth0. congruence.
Qed.

Lemma parked_lookup x : threads s' !! x = if decide (x = t) then Some th' else threads s !! x.
Proof.
  rewrite (pk_threads _ _ _ _ _ _ _ _ Hp). destruct (decide (x = t)) as [->|].
  - by rewrite lookup_insert_eq.
  - by rewrite lookup_insert_ne.
Qed.

Lemma parked_object_at a o' : objects s' !! a = Some o' ->
  exists o, objects s !! a = Some o /\ parked_object (timer th) v timed a o o'.
Proof. apply Forall2_Some_r, (pk_objects _ _ _ _ _ _ _ _ Hp). Qed.

Lemma parked_object_of a o : objects s !! a = Some o ->
  exists o', objects s' !! a = Some o' /\ parked_object (timer th) v timed a o o'.
Proof. apply Forall2_Some_l, (pk_objects _ _ _ _ _ _ _ _ Hp). Qed.

(** Nothing but the thread's own timer changes its signal, and only down. *)
Lemma parked_object_frame a o o' : objects s !! a = Some o -> parked_object (timer th) v timed a o o' ->
  type o' = type o /\ ownerThread o' = ownerThread o /\ limit o' = limit o /\ period o' = period o /\
  abandoned o' = abandoned o /\
  ((signalState o' = signalState o /\ dueTime o' = dueTime o /\ inserted o' = inserted o /\
     ~ (timed = true /\ a = timer th)) \/
   (timed = true /\ a = timer th /\ type o = KI_OBJECT_NOTIFICATION_TIMER /\ signalState o' = 0 /\
     dueTime o' = v /\ inserted o' = true)).
Proof.
  intros Ho E. unfold parked_object in E. destruct timed eqn:Et; simpl in E.
  - destruct (Z.eqb_spec a (timer th)) as [->|].
    + destruct (ti_thread _ _ (kb_timer _ _ (proj1 (ki_core _ Hinv))) _ _ Hth) as (o2 & Ho2 & Hty & _).
      assert (o2 = o) as -> by congruence. rewrite E. split_and!; try done. by right.
    + rewrite E. split_and!; try done. left. naive_solver.
  - rewrite E. split_and!; try done. left. naive_solver.
Qed.

Lemma parked_sat a x : sat s' a x -> sat s a x.
Proof.
  intros (o' & Ho' & Hs). destruct (parked_object_at _ _ Ho') as (o & Ho & E). exists o. split; [done|].
  destruct (parked_object_frame _ _ _ Ho E) as (Ety & Eow & _ & _ & _ & [(Esig & _)|(_ & _ & Hty & Esig & _)]);
    unfold KiIsSatisfiable in *; rewrite Ety, Eow, Esig in Hs; [done|]. rewrite Hty in Hs. done.
Qed.

Lemma parked_sched : sched_inv s'.
Proof.
  pose proof (kb_sched _ _ (proj1 (ki_core _ Hinv))) as Hs. pose proof parked_running as Hrun.
  apply (sched_inv_ext s); [done|by rewrite (pk_rest _ _ _ _ _ _ _ _ Hp)..| |].
  - intros x thx Hx. rewrite parked_lookup. destruct (decide (x = t)) as [->|].
    + assert (thx = th) as -> by congruence. exists th'. split_and!; [done|done| |done].
      intros _. rewrite Hrun. done.
    + exists thx. split_and!; [done..|]. intros ->. destruct (si_idle _ Hs) as (? & ? & ?). naive_solver.
  - intros x Hx. rewrite parked_lookup. destruct (decide (x = t)) as [->|]; [congruence|done].
Qed.

Lemma parked_not_armed b : armed s b -> blockThread b <> t.
Proof.
  intros (th0 & Hth0 & Hb) E. rewrite E in Hth0, Hb.
  assert (th0 = th) as -> by congruence.
  pose proof (blocks_waiting _ _ _ _ (kb_wait _ _ (proj1 (ki_core _ Hinv))) Hth Hb) as Hst.
  rewrite parked_running in Hst. done.
Qed.

Lemma parked_wait : wait_inv s'.
Proof.
  pose proof (kb_wait _ _ (proj1 (ki_core _ Hinv))) as Hw. split.
  - eapply links_ext; [|apply (pk_links _ _ _ _ _ _ _ _ Hp)]. intros b. unfold armed.
    rewrite parked_lookup. destruct (decide (blockThread b = t)) as [E|Hne].
    + split.
      * intros [Ha|Hb]; [by apply parked_not_armed in Ha|]. exists th'. by rewrite E.
      * intros (th0 & [= <-] & Hb). right. by rewrite E in Hb.
    + split; [|by left]. intros [Ha|Hb]; [done|]. destruct Hne. by apply (all_blocks_thread t th').
  - intros x thx. rewrite parked_lookup. destruct (decide (x = t)) as [->|]; [by intros [= <-]|].
    apply (wi_threads _ Hw).
Qed.

Lemma parked_timer : timer_inv None s'.
Proof.
  pose proof (kb_timer _ _ (proj1 (ki_core _ Hinv))) as Ht.
  pose proof (kb_wait _ _ (proj1 (ki_core _ Hinv))) as Hw.
  assert (Hun : timerArmed th = false) by (eapply not_waiting_blocks; [done..|]; by rewrite parked_running).
  destruct (ti_thread _ _ Ht _ _ Hth) as (otm & Hotm & Htym & Hpm & Him).
  rewrite Hun in Him. specialize (Him ltac:(done)).
  assert (Hnin : timer th ∉ KiTimerListHead s).
  { rewrite (ti_mem _ _ Ht). intros (o & ? & ?). congruence. }
  assert (Hdue : forall x, ~ (timed = true /\ x = timer th) -> due s' x = due s x).
  { intros x Hx. unfold due. destruct (objects s !! x) as [o|] eqn:Eo.
    - destruct (parked_object_of _ _ Eo) as (o' & -> & E).
      destruct (parked_object_frame _ _ _ Eo E) as (_ & _ & _ & _ & _ & [(_ & Ed & _)|(? & ? & _)]);
        [simpl; congruence|tauto].
    - pose proof (pk_objects _ _ _ _ _ _ _ _ Hp x) as HF. rewrite Eo in HF. by inversion HF. }
  pose proof (pk_timers _ _ _ _ _ _ _ _ Hp) as Hl. split.
  - destruct timed; [|rewrite Hl; apply (ti_nodup _ _ Ht)]. rewrite (proj1 Hl). constructor; [done|].
    apply (ti_nodup _ _ Ht).
  - intros a. transitivity ((timed = true /\ a = timer th) \/ a ∈ KiTimerListHead s).
    { destruct timed; [rewrite (proj1 Hl), elem_of_cons|rewrite Hl]; naive_solver. }
    rewrite (ti_mem _ _ Ht). split.
    + intros [[Htm ->]|(o & Ho & Hi)].
      * destruct (parked_object_of _ _ Hotm) as (o' & Ho' & E). exists o'. split; [done|].
        destruct (parked_object_frame _ _ _ Hotm E) as (_ & _ & _ & _ & _ & [(_ & _ & _ & Hn)|(_ & _ & _ & _ & _ & ?)]);
          [by destruct Hn|done].
      * destruct (parked_object_of _ _ Ho) as (o' & Ho' & E). exists o'. split; [done|].
        destruct (parked_object_frame _ _ _ Ho E) as (_ & _ & _ & _ & _ & [(_ & _ & Ei & _)|(_ & _ & _ & _ & _ & ?)]);
          [congruence|done].
    + intros (o' & Ho' & Hi). destruct (parked_object_at _ _ Ho') as (o & Ho & E).
      destruct (parked_object_frame _ _ _ Ho E) as (_ & _ & _ & _ & _ & [(_ & _ & Ei & _)|(? & ? & _)]);
        [|by left]. right. exists o. split; [done|congruence].
  - destruct timed; [apply Hl|]. rewrite Hl. eapply StronglySorted_mono; [|apply (ti_sorted _ _ Ht)].
    intros x y _ _. rewrite !Hdue by naive_solver. done.
  - intros a o' Ho' Hi. destruct (parked_object_at _ _ Ho') as (o & Ho & E).
    destruct (parked_object_frame _ _ _ Ho E) as (Ety & _ & _ & _ & _ & [(_ & Ed & Ei & _)|(? & ? & Hty & _ & -> & _)]).
    + rewrite Ety, Ed. apply (ti_type _ _ Ht _ _ Ho). congruence.
    + split; [|done]. rewrite Ety, Hty. by left.
  - intros a o' Ho'. destruct (parked_object_at _ _ Ho') as (o & Ho & E).
    destruct (parked_object_frame _ _ _ Ho E) as (_ & _ & _ & -> & _). by eapply ti_period.
  - intros x thx. rewrite parked_lookup. intros Hx.
    assert (exists thx0, threads s !! x = Some thx0 /\ timer thx = timer thx0 /\
      timerArmed thx = if decide (x = t) then timed else timerArmed thx0) as (thx0 & Hx0 & -> & ->).
    { destruct (decide (x = t)) as [->|]; [|eauto]. injection Hx as <-. by exists th. }
    destruct (ti_thread _ _ Ht _ _ Hx0) as (o & Ho & Hty & Hpe & Hi).
    destruct (parked_object_of _ _ Ho) as (o' & Ho' & E).
    destruct (parked_object_frame _ _ _ Ho E) as (Ety & _ & _ & Epe & _ & Hcase). exists o'.
    rewrite Ety, Epe. split_and!; [done..|]. intros _.
    specialize (Hi ltac:(done)). destruct (decide (x = t)) as [->|Hne].
    + assert (thx0 = th) as -> by congruence.
      destruct Hcase as [(_ & _ & Ei & Hnt)|(Htm & _ & _ & _ & _ & Ei)]; [|congruence].
      rewrite Ei, Hi, Hun. destruct timed; [by destruct Hnt|done].
    + destruct Hcase as [(_ & _ & Ei & Hnt)|(_ & Etm & _)]; [congruence|].
      destruct Hne. by eapply (ti_distinct _ _ Ht).
  - intros x y thx thy. rewrite !parked_lookup. pose proof (ti_distinct _ _ Ht) as Hd.
    destruct (decide (x = t)) as [->|], (decide (y = t)) as [->|]; intros Hx Hy; simplify_eq/=; eauto.
Qed.

Lemma parked_mutant : mutant_inv s'.
Proof.
  apply (mutant_inv_frame s); [|apply (kb_mutant _ _ (proj1 (ki_core _ Hinv)))]. split.
  - intros x. rewrite parked_lookup. destruct (decide (x = t)) as [->|].
    + rewrite Hth. constructor. split; [done|]. intros H. discriminate H.
    + apply option_Forall2_refl. by split.
  - intros a. destruct (objects s !! a) as [o|] eqn:Eo.
    + destruct (parked_object_of _ _ Eo) as (o' & -> & E). constructor.
      destruct (parked_object_frame _ _ _ Eo E) as (Ety & Eow & _ & _ & _ & [(Es & _)|(_ & _ & Hty & _)]);
        split; try done. intros Hm. congruence.
    + pose proof (pk_objects _ _ _ _ _ _ _ _ Hp a) as HF. rewrite Eo in HF. inversion HF. constructor.
Qed.

Lemma parked_object_inv : object_inv s'.
Proof.
  destruct (kb_object _ _ (proj1 (ki_core _ Hinv))) as [Hob Hoth]. split.
  - intros a o' Ho'. destruct (parked_object_at _ _ Ho') as (o & Ho & E).
    destruct (parked_object_frame _ _ _ Ho E) as (Ety & _ & El & _ & _ & [(Es & _)|(_ & _ & Hty & Es & _)]);
      destruct (Hob _ _ Ho); split; rewrite Ety, Es, ?El; try done.
    + intros H. congruence.
  - intros x thx. rewrite parked_lookup. intros Hx.
    assert (exists thx0, threads s !! x = Some thx0 /\ process thx = process thx0 /\
      (state thx = KI_THREAD_STATE_TERMINATED -> state thx0 = KI_THREAD_STATE_TERMINATED))
      as (thx0 & Hx0 & -> & Hst).
    { destruct (decide (x = t)) as [->|]; [|eauto]. injection Hx as <-. by exists th. }
    destruct (Hoth _ _ Hx0) as (H0 & Hpr & o & Ho & Hty & Hsig). split_and!; [done..|].
    destruct (parked_object_of _ _ Ho) as (o' & Ho' & E). exists o'. split; [done|].
    destruct (parked_object_frame _ _ _ Ho E) as (Ety & _ & _ & _ & _ & [(Es & _)|(_ & _ & Hty2 & _)]);
      [|congruence]. rewrite Ety, Es. auto.
Qed.

Lemma parked_room : room_inv s'.
Proof.
  intros x thx b. rewrite parked_lookup. intros Hx Hb.
  assert (Hr : room s x (blockObject b)).
  { destruct (decide (x = t)) as [->|]; [injection Hx as <-; by apply Hroom|].
    by apply (proj2 (ki_core _ Hinv) x thx). }
  intros o' Ho' Hty How. destruct (parked_object_at _ _ Ho') as (o & Ho & E).
  destruct (parked_object_frame _ _ _ Ho E) as (Ety & Eow & _ & _ & _ & [(Es & _)|(_ & _ & Hty2 & _)]).
  - rewrite Es. apply (Hr o Ho); congruence.
  - congruence.
Qed.

Lemma parked_quiet : quiet s'.
Proof.
  intros x thx b. rewrite parked_lookup. destruct (decide (x = t)) as [->|Hne].
  - intros [= <-] Hb Hready. apply elem_of_app in Hb as [Hb|Hb].
    + apply (Hno b Hb). unfold ready_block in *. destruct (waitType b); [|by apply parked_sat].
      intros b' Hb'. by apply parked_sat, Hready.
    + assert (timed = true /\ b = timerWaitBlock t th') as [Etm ->].
      { change (timerArmed th') with timed in Hb. destruct timed; [|by apply elem_of_nil in Hb].
        by apply list_elem_of_singleton in Hb. }
      destruct Hready as (o' & Ho' & Hs). simpl in Ho'.
      destruct (parked_object_at _ _ Ho') as (o & Ho & E).
      destruct (parked_object_frame _ _ _ Ho E) as (Ety & _ & _ & _ & _ & [(_ & _ & _ & Hn)|(_ & _ & Hty & Es & _)]).
      * by destruct Hn.
      * unfold KiIsSatisfiable in Hs. rewrite Es, Ety, Hty in Hs. done.
  - intros Hx Hb Hready. apply (ki_quiet _ Hinv x thx b Hx Hb). unfold ready_block in *.
    destruct (waitType b); [|by apply parked_sat]. intros b' Hb'. by apply parked_sat, Hready.
Qed.

Lemma parked_core : ke_core None s'.
Proof.
  split; [split|]; auto using parked_sched, parked_wait, parked_timer, parked_mutant, parked_object_inv,
    parked_room.
Qed.

Lemma parked_none_running x thx :
  threads s' !! x = Some thx -> state thx <> KI_THREAD_STATE_RUNNING.
Proof.
  rewrite parked_lookup. destruct (decide (x = t)) as [->|Hne]; [by intros [= <-]|].
  intros Hx Hst. apply Hne. rewrite <- Hcur. by apply (proj2 (ki_cur _ Hinv) x thx).
Qed.
End parked.

(** ** Scheduling keeps the rest of the invariant *)

Section scheduling.
Implicit Types (s : KSTATE) (t a x : Z) (th : KTHREAD) (o : KOBJECT) (b : KWAIT_BLOCK).

Lemma scheduled_objects s s' : scheduled s s' -> objects s' = objects s.
Proof. intros [_ ->]. done. Qed.

Lemma scheduled_wait_frame s s' : scheduled s s' -> wait_frame s s'.
Proof.
  intros Hsc. pose proof Hsc as [Ht Hr]. split.
  - intros t. destruct (Ht t) as [th th' [E Hst]|]; constructor. rewrite E. split; try done. simpl.
    destruct Hst as [->|[H1 H2]]; [done|]. split; intros Hw; rewrite Hw in *; done.
  - intros a. rewrite (scheduled_objects _ _ Hsc). apply option_Forall2_refl. by split.
  - by rewrite Hr.
Qed.

Lemma scheduled_mutant_frame s s' : scheduled s s' -> mutant_frame s s'.
Proof.
  intros Hsc. pose proof Hsc as [Ht _]. split.
  - intros t. destruct (Ht t) as [th th' [E Hst]|]; constructor. rewrite E. split; [done|]. simpl.
    intros Hd. destruct Hst as [<-|[H1 H2]]; [done|]. by rewrite Hd in H2.
  - intros a. rewrite (scheduled_objects _ _ Hsc). apply option_Forall2_refl. by split.
Qed.

Lemma scheduled_thread s s' t th' : scheduled s s' -> threads s' !! t = Some th' ->
  exists th, threads s !! t = Some th /\ rescheduled th th'.
Proof. intros [Ht _]. apply Forall2_Some_r, Ht. Qed.

Lemma scheduled_core s s' : ke_core None s -> scheduled s s' -> sched_inv s' -> ke_core None s'.
Proof.
  intros [[Hs Hw Ht Hm [Hob Hoth]] Hr] Hsc Hs'. pose proof (scheduled_objects _ _ Hsc) as Eo.
  pose proof (scheduled_wait_frame _ _ Hsc) as Fw. split; [split|].
  - done.
  - by eapply wait_inv_frame.
  - by eapply timer_inv_frame.
  - eapply mutant_inv_frame; [by apply scheduled_mutant_frame|done].
  - split; rewrite Eo; [done|]. intros t th' Hth'.
    destruct (scheduled_thread _ _ _ _ Hsc Hth') as (th & Hth & E & Hst).
    destruct (Hoth _ _ Hth) as (? & ? & o & ? & ? & Hd). rewrite E. split_and!; [done..|].
    exists o. split_and!; [done..|]. simpl. intros Hdead. apply Hd.
    destruct Hst as [<-|[_ Hsch]]; [done|]. by rewrite Hdead in Hsch.
  - intros t th' b Hth' Hb. destruct (scheduled_thread _ _ _ _ Hsc Hth') as (th & Hth & E & _).
    rewrite E in Hb. unfold room. rewrite Eo. by eapply Hr.
Qed.

Lemma scheduled_quiet s s' : quiet s -> scheduled s s' -> quiet s'.
Proof.
  intros Hq Hsc. apply (quiet_weaken s); [done| |].
  - intros t th' Hth' _. destruct (scheduled_thread _ _ _ _ Hsc Hth') as (th & Hth & E & _).
    exists th. split; [done|]. by rewrite E.
  - intros x t (o & Ho & Hs). rewrite (scheduled_objects _ _ Hsc) in Ho. by exists o.
Qed.

Lemma scheduled_inv s s' :
  ke_core None s -> quiet s -> clock_inv s -> sched_inv s' -> cur_inv s' -> scheduled s s' -> ke_inv s'.
Proof.
  intros Hc Hq Hclk Hs Hcur Hsc. split; [by eapply scheduled_core|by eapply scheduled_quiet|done|].
  unfold clock_inv. by rewrite (sc_rest _ _ Hsc).
Qed.
End scheduling.

(** ** The waits *)

Section waits.
Implicit Types (s : KSTATE) (t a x : Z) (th : KTHREAD) (o : KOBJECT) (b : KWAIT_BLOCK).

Lemma due_nonneg s timeout : clock_inv s -> 0 <= KiComputeDueTime s timeout.
Proof.
  intros Hc. unfold KiComputeDueTime. pose proof (u64_range (KiInterruptTime s + u64 (0 - u64 timeout))) as [? _].
  pose proof (u64_range (u64 timeout - KiSystemTimeBase s)) as [? _].
  pose proof (u64_range (KiIdleTime100ns s + KiTotalKernelTime100ns s + KiTotalUserTime100ns s)) as [? _].
  unfold clock_inv in Hc. destruct (timeout <? 0); [done|]. destruct (_ <=? _); [lia|done].
Qed.

Lemma put_thread_put_thread s t th th' : put_thread (put_thread s t th) t th' = put_thread s t th'.
Proof. unfold put_thread. simpl. by rewrite insert_insert_eq. Qed.

Lemma put_object_put_object s a o o' : put_object (put_object s a o) a o' = put_object s a o'.
Proof. unfold put_object. simpl. by rewrite insert_insert_eq. Qed.

Lemma links_objects s s' W :
  (forall a, option_Forall2 (fun o o' => waitListHead o' = waitListHead o) (objects s !! a) (objects s' !! a)) ->
  links s W -> links s' W.
Proof.
  intros Hf [Hn Hh Hi]. split.
  - intros a o' Ho'. destruct (Forall2_Some_r _ _ _ _ (Hf a) Ho') as (o & Ho & ->). eauto.
  - intros a o' b Ho'. destruct (Forall2_Some_r _ _ _ _ (Hf a) Ho') as (o & Ho & ->). eauto.
  - intros b. rewrite <- Hi. split.
    + intros (o' & Ho' & Hb). destruct (Forall2_Some_r _ _ _ _ (Hf _) Ho') as (o & Ho & E).
      exists o. by rewrite <- E.
    + intros (o & Ho & Hb). destruct (Forall2_Some_l _ _ _ _ (Hf _) Ho) as (o' & Ho' & E).
      exists o'. by rewrite E.
Qed.

Lemma links_put_object s a o o' W :
  objects s !! a = Some o -> waitListHead o' = waitListHead o -> links s W -> links (put_object s a o') W.
Proof. intros Ho E. apply links_objects. by apply (put_object_forall2 _ _ _ o). Qed.

(** KiArmWaitTimeout links the timeout block and queues the timer. *)
Lemma arm_split s t th o timeout :
  threads s !! t = Some th -> objects s !! timer th = Some o ->
  KiArmWaitTimeout s t timeout =
    s1 ← link_block (put_object s (timer th) (o <| signalState := 0 |>)) (timerWaitBlock t th);
    s2 ← KiInsertTimer s1 (timer th) (KiComputeDueTime s timeout);
    Ok (alter_thread s2 t (fun th => th <| timerArmed := true |>)).
Proof.
  intros Hth Ho. unfold KiArmWaitTimeout, get_thread, get_object. rewrite Hth. run. rewrite Ho. run.
  unfold link_block, get_object. cbn [blockObject timerWaitBlock].
  change (objects (put_object s (timer th) (o <| signalState := 0 |>)) !! timer th)
    with (<[timer th := o <| signalState := 0 |>]> (objects s) !! timer th).
  rewrite lookup_insert_eq. run. rewrite put_object_put_object. done.
Qed.

Definition park_program s t (blocks : list KWAIT_BLOCK) (timeout : option Z) (alertable : bool)
    : outcome KSTATE :=
  s1 ← foldM link_block s blocks;
  let s2 := alter_thread s1 t (fun th => th <| waitBlockList := blocks |>) in
  s3 ← (match timeout with
        | Some d => KiArmWaitTimeout s2 t d
        | None => Ok s2
        end);
  KiCommitWait (alter_thread s3 t (fun th => th <| waitAlertable := alertable |>)) t.

(** Everything up to the switch. *)
Definition park_links s t (blocks : list KWAIT_BLOCK) (timeout : option Z) : outcome KSTATE :=
  s1 ← foldM link_block s blocks;
  let s2 := alter_thread s1 t (fun th => th <| waitBlockList := blocks |>) in
  match timeout with
  | Some d => KiArmWaitTimeout s2 t d
  | None => Ok s2
  end.

Definition is_timed (timeout : option Z) : bool := bool_decide (is_Some timeout).

Lemma relisted_threads s s' : relisted s s' -> threads s' = threads s.
Proof. by intros [_ ->]. Qed.

(** What arming the timeout does to the objects. *)
Definition armed_object (tm v : Z) a o o' : Prop :=
  o' = if a =? tm
       then o <| signalState := 0 |> <| waitListHead := waitListHead o' |> <| dueTime := v |>
              <| inserted := true |>
       else o <| waitListHead := waitListHead o' |>.

Definition timer_queue_ok s : Prop :=
  NoDup (KiTimerListHead s) /\
  (forall a, a ∈ KiTimerListHead s <-> exists o, objects s !! a = Some o /\ inserted o = true) /\
  StronglySorted (fun x y => due s x <= due s y) (KiTimerListHead s).

(** The queue facts look only at [inserted] and [dueTime]. *)
Lemma timer_queue_frame s s' :
  KiTimerListHead s' = KiTimerListHead s ->
  (forall a, option_Forall2 (fun o o' => inserted o' = inserted o /\ dueTime o' = dueTime o)
     (objects s !! a) (objects s' !! a)) ->
  timer_queue_ok s -> timer_queue_ok s'.
Proof.
  intros El Hf (Hn & Hm & Hs). unfold timer_queue_ok. rewrite El. split_and!; [done| |].
  - intros a. rewrite Hm. split.
    + intros (o & Ho & Hi). destruct (Forall2_Some_l _ _ _ _ (Hf a) Ho) as (o' & ? & E & _).
      exists o'. by rewrite E.
    + intros (o' & Ho' & Hi). destruct (Forall2_Some_r _ _ _ _ (Hf a) Ho') as (o & ? & E & _).
      exists o. by rewrite <- E.
  - eapply StronglySorted_mono; [|apply Hs]. intros x y _ _.
    assert (Hd : forall z, due s' z = due s z).
    { intros z. unfold due. destruct (Hf z) as [o o' [_ E]|]; [|done]. exact E. }
    by rewrite !Hd.
Qed.

Lemma timer_inv_queue exc s : timer_inv exc s -> timer_queue_ok s.
Proof. intros Ht. split_and!; [apply (ti_nodup _ _ Ht)|apply (ti_mem _ _ Ht)|apply (ti_sorted _ _ Ht)]. Qed.

Lemma arm_spec s t th o W timeout :
  threads s !! t = Some th -> objects s !! timer th = Some o -> inserted o = false ->
  links s W -> ~ W (timerWaitBlock t th) -> timer_queue_ok s ->
  returns (KiArmWaitTimeout s t timeout) (fun s' =>
    threads s' = <[t := th <| timerArmed := true |>]> (threads s) /\
    (forall a, option_Forall2 (armed_object (timer th) (KiComputeDueTime s timeout) a)
       (objects s !! a) (objects s' !! a)) /\
    links s' (fun b => W b \/ b = timerWaitBlock t th) /\
    Permutation (KiTimerListHead s') (timer th :: KiTimerListHead s) /\
    StronglySorted (fun x y => due s' x <= due s' y) (KiTimerListHead s') /\
    s' = s <| threads := threads s' |> <| objects := objects s' |>
           <| KiTimerListHead := KiTimerListHead s' |>).
Proof.
  intros Hth Ho Hi Hl HW Hq. rewrite (arm_split s t th o timeout Hth Ho).
  set (o1 := o <| signalState := 0 |>). set (s1 := put_object s (timer th) o1).
  assert (Ho1 : objects s1 !! timer th = Some o1) by (unfold s1; simpl; by rewrite lookup_insert_eq).
  apply returns_bind. eapply returns_mono.
  { apply (link_block_spec s1 W (timerWaitBlock t th)); [by apply (links_put_object s (timer th) o)|done|].
    simpl. eauto. }
  intros s2 [Hr Hl2].
  destruct (Forall2_Some_l _ _ _ _ (rl_objects _ _ Hr (timer th)) Ho1) as (o2 & Ho2 & Eo2).
  assert (Hlist : KiTimerListHead s2 = KiTimerListHead s) by (by rewrite (rl_rest _ _ Hr)).
  assert (Hq2 : timer_queue_ok s2).
  { eapply timer_queue_frame; [exact Hlist| |exact Hq]. intros a. pose proof (rl_objects _ _ Hr a) as F.
    unfold s1 in F. simpl in F. destruct (decide (a = timer th)) as [->|].
    - rewrite Ho2, Ho. constructor. rewrite Eo2. done.
    - rewrite lookup_insert_ne in F by done. destruct F as [oa oa' E|]; constructor. by rewrite E. }
  destruct Hq2 as (Hn2 & Hm2 & Hs2).
  apply returns_bind. eapply returns_mono.
  { apply (KiInsertTimer_spec s2 (timer th) o2 (KiComputeDueTime s timeout)); try done. by rewrite Eo2. }
  intros s3 (l' & -> & Hperm & Hsort & _). cbn [returns].
  set (o3 := o2 <| dueTime := KiComputeDueTime s timeout |> <| inserted := true |>) in *.
  set (s3 := put_object s2 (timer th) o3 <| KiTimerListHead := l' |>) in *.
  rewrite (alter_thread_eq s3 t th) by (unfold s3; simpl; by rewrite (relisted_threads _ _ Hr)).
  split_and!.
  - unfold s3. simpl. by rewrite (relisted_threads _ _ Hr).
  - intros a. unfold s3. simpl. pose proof (rl_objects _ _ Hr a) as F. unfold s1 in F. simpl in F.
    unfold armed_object. destruct (Z.eqb_spec a (timer th)) as [->|].
    + rewrite lookup_insert_eq, Ho. constructor. unfold o3. rewrite Eo2. by destruct o, o2.
    + rewrite lookup_insert_ne in F |- * by done. done.
  - apply (links_objects (put_object s2 (timer th) o3)).
    + intros a. apply option_Forall2_refl. done.
    + by apply (links_put_object s2 (timer th) o2).
  - by rewrite <- Hlist.
  - exact Hsort.
  - unfold s3. simpl. rewrite (rl_rest _ _ Hr). by destruct s.
Qed.

Lemma park_links_spec s t th blocks timeout alertable :
  ke_inv s -> threads s !! t = Some th -> KiCurrentThread s = t ->
  wait_ok t (parked_thread th blocks (is_timed timeout) alertable) ->
  (forall b, b ∈ blocks -> is_Some (objects s !! blockObject b)) ->
  exists v, 0 <= v /\ (forall d, timeout = Some d -> v = KiComputeDueTime s d) /\
  returns (park_links s t blocks timeout) (fun s3 =>
    parked s t th blocks (is_timed timeout) alertable v
      (put_thread s3 t (parked_thread th blocks (is_timed timeout) alertable)) /\
    threads s3 = <[t := th <| waitBlockList := blocks |> <| timerArmed := is_timed timeout |>]> (threads s) /\
    KiNoBlockDepth s3 = KiNoBlockDepth s).
Proof.
  intros Hinv Hth Hcur Hok Hdom. pose proof (proj1 (ki_core _ Hinv)) as Hb.
  pose proof (kb_wait _ _ Hb) as Hw. pose proof (kb_timer _ _ Hb) as Ht.
  assert (Hst : state th = KI_THREAD_STATE_RUNNING).
  { destruct (ki_cur _ Hinv) as [(? & Hx & Hs) _]. rewrite Hcur in Hx. congruence. }
  destruct (not_waiting_blocks _ _ _ Hw Hth) as [_ Hun]; [by rewrite Hst|].
  assert (Hnew : forall b, b ∈ all_blocks t (parked_thread th blocks (is_timed timeout) alertable) -> ~ armed s b).
  { intros b Hbb (th0 & Hth0 & Hb0). pose proof (all_blocks_thread _ _ _ Hok Hbb) as E.
    rewrite E in Hth0, Hb0. assert (th0 = th) as -> by congruence.
    pose proof (blocks_waiting _ _ _ _ Hw Hth Hb0). congruence. }
  exists (match timeout with Some d => KiComputeDueTime s d | None => 0 end).
  split; [destruct timeout; [apply due_nonneg, Hinv|done]|]. split; [by intros d ->|].
  pose proof (wo_nodup _ _ Hok) as Hnd. unfold all_blocks in Hnd. apply NoDup_app in Hnd as (Hnd1 & Hdis & _).
  pose proof (link_blocks_spec s (armed s) blocks (wi_links _ Hw) Hnd1) as Hlink.
  unfold park_links. apply returns_bind. eapply returns_mono; [apply Hlink|].
  { intros b Hbb. split; [apply Hnew, elem_of_app; by left|auto]. }
  clear Hlink. intros s1 [Hr1 Hl1]. pose proof (relisted_threads _ _ Hr1) as Eth1.
  set (th2 := th <| waitBlockList := blocks |>).
  rewrite (alter_thread_eq s1 t th) by (by rewrite Eth1). fold th2.
  destruct timeout as [d|]; cbn [is_timed] in *.
  - destruct (ti_thread _ _ Ht _ _ Hth) as (o & Ho & Hty & Hpe & Hi). rewrite Hun in Hi.
    destruct (Forall2_Some_l _ _ _ _ (rl_objects _ _ Hr1 (timer th)) Ho) as (o1 & Ho1 & Eo1).
    assert (Hl2 : links (put_thread s1 t th2) (fun b => armed s b \/ b ∈ blocks)).
    { apply (links_objects s1); [|done]. intros a. by apply option_Forall2_refl. }
    eapply returns_mono.
    { eapply (arm_spec (put_thread s1 t th2) t th2 o1 _ d); [|exact Ho1| |exact Hl2| |].
      - simpl. by rewrite lookup_insert_eq.
      - rewrite Eo1. by apply Hi.
      - intros [Ha|Hbb]; [|by apply (Hdis _ Hbb); left].
        revert Ha. apply Hnew. unfold all_blocks. apply elem_of_app. right. left.
      - eapply timer_queue_frame; [| |by eapply timer_inv_queue].
        + simpl. by rewrite (rl_rest _ _ Hr1).
        + intros a. simpl. destruct (rl_objects _ _ Hr1 a) as [oa oa' E|]; constructor. by rewrite E. }
    assert (Hclk : KiComputeDueTime (put_thread s1 t th2) d = KiComputeDueTime s d).
    { unfold KiComputeDueTime. simpl. by rewrite (rl_rest _ _ Hr1). }
    rewrite Hclk. intros s3 (Eth3 & Hobj3 & Hl3 & Hperm & Hsort & Hrest). simpl in Eth3.
    rewrite Eth1, insert_insert_eq in Eth3. split_and!; [|done|].
    + split.
      * simpl. by rewrite Eth3, insert_insert_eq.
      * intros a. simpl. specialize (Hobj3 a). simpl in Hobj3.
        destruct (rl_objects _ _ Hr1 a) as [oa oa1 E1|]; inversion Hobj3 as [? oa3 E3|]; subst; constructor.
        unfold parked_object, armed_object in *. simpl in *. rewrite E3, E1.
        destruct (_ =? _); by destruct oa, oa3.
      * apply (links_objects s3); [intros a; by apply option_Forall2_refl|].
        eapply links_ext; [|exact Hl3]. intros b. unfold all_blocks. simpl.
        rewrite elem_of_app, list_elem_of_singleton. unfold timerWaitBlock. simpl. tauto.
      * simpl. simpl in Hperm. rewrite (rl_rest _ _ Hr1) in Hperm. done.
      * simpl. rewrite Hrest. simpl. rewrite (rl_rest _ _ Hr1). by destruct s.
    + rewrite Hrest. simpl. by rewrite (rl_rest _ _ Hr1).
  - cbn [returns]. split_and!.
    + rewrite put_thread_put_thread. split.
      * simpl. by rewrite Eth1.
      * intros a. simpl. apply (rl_objects _ _ Hr1 a).
      * apply (links_objects s1); [intros a; by apply option_Forall2_refl|].
        eapply links_ext; [|apply Hl1]. intros b. unfold all_blocks. simpl. by rewrite app_nil_r.
      * simpl. by rewrite (rl_rest _ _ Hr1).
      * simpl. rewrite (rl_rest _ _ Hr1). by destruct s.
    + simpl. rewrite Eth1. unfold th2. f_equal. destruct th; simpl in *. by rewrite Hun.
    + simpl. by rewrite (rl_rest _ _ Hr1).
Qed.
End waits.

(** ** KeWaitForMultipleObjects *)

Section wait_for.
Implicit Types (s : KSTATE) (t a x i : Z) (th : KTHREAD) (o : KOBJECT) (b : KWAIT_BLOCK) (objs : list addr).

Lemma wait_blocks_in t objs i wt b : b ∈ wait_blocks t objs i wt ->
  blockThread b = t /\ waitType b = wt /\ blockObject b ∈ objs /\ i <= waitKey b < i + Z.of_nat (length objs).
Proof.
  revert i. induction objs as [|a objs IH]; intros i Hb; [by apply elem_of_nil in Hb|].
  apply elem_of_cons in Hb as [->|Hb].
  - simpl. split_and!; try done; [left|lia..].
  - destruct (IH _ Hb) as (? & ? & ? & ?). simpl. split_and!; try done; [by right|lia..].
Qed.

Lemma wait_blocks_objects t objs i wt : blockObject <$> wait_blocks t objs i wt = objs.
Proof. revert i. induction objs as [|a objs IH]; intros i; [done|]. simpl. by rewrite IH. Qed.

Lemma wait_blocks_NoDup t objs i wt : NoDup (wait_blocks t objs i wt).
Proof.
  revert i. induction objs as [|a objs IH]; intros i; [constructor|]. simpl. constructor; [|done].
  intros Hb%wait_blocks_in. simpl in Hb. lia.
Qed.

Lemma has_duplicate_NoDup objs : has_duplicate objs = false <-> NoDup objs.
Proof.
  induction objs as [|a objs IH]; simpl; [split; [constructor|done]|].
  rewrite orb_false_iff, bool_decide_eq_false, IH, NoDup_cons. done.
Qed.

(** The blocks of a parked thread are well formed. *)
Lemma wait_blocks_ok t th objs wt timed alertable :
  (objs <> [] \/ timed = true) -> Z.of_nat (length objs) <= MAXIMUM_WAIT_OBJECTS ->
  (wt = WaitAll -> NoDup objs) -> state th = KI_THREAD_STATE_RUNNING ->
  wait_ok t (parked_thread th (wait_blocks t objs 0 wt) timed alertable).
Proof.
  intros Hne Hlen Hnd Hst. split; simpl.
  - intros b Hb. by apply wait_blocks_in in Hb as (? & _).
  - unfold all_blocks. simpl. apply NoDup_app. split_and!; [apply wait_blocks_NoDup| |].
    + intros b Hb%wait_blocks_in Hb2. destruct timed; [|by apply elem_of_nil in Hb2].
      apply list_elem_of_singleton in Hb2 as ->. simpl in Hb.
      unfold MAXIMUM_WAIT_OBJECTS, STATUS_TIMEOUT in *. lia.
    + destruct timed; [apply NoDup_singleton|constructor].
  - split; [intros _|done]. unfold all_blocks. simpl. destruct objs; [|done].
    destruct Hne as [| ->]; done.
  - intros b b' Hb%wait_blocks_in Hb'%wait_blocks_in. destruct Hb as (_ & -> & _), Hb' as (_ & -> & _). done.
  - intros b Hb%wait_blocks_in Hty. rewrite wait_blocks_objects. apply Hnd.
    destruct Hb as (_ & <- & _). done.
Qed.

(** Park and switch. *)
Lemma park_spec s t th blocks timeout alertable :
  ke_inv s -> threads s !! t = Some th -> KiCurrentThread s = t -> t <> KiIdleThread s ->
  KiNoBlockDepth s = 0 ->
  wait_ok t (parked_thread th blocks (is_timed timeout) alertable) ->
  (forall b, b ∈ blocks -> is_Some (objects s !! blockObject b) /\ room s t (blockObject b) /\
     ~ ready_block s t (parked_thread th blocks (is_timed timeout) alertable) b) ->
  returns (park_program s t blocks timeout alertable) (fun s' => ke_inv s' /\
    exists v sp, (forall d, timeout = Some d -> v = KiComputeDueTime s d) /\
      parked s t th blocks (is_timed timeout) alertable v sp /\ scheduled sp s').
Proof.
  intros Hinv Hth Hcur Hidle Hdepth Hok Hblocks.
  destruct (park_links_spec s t th blocks timeout alertable Hinv Hth Hcur Hok) as (v & Hv & Hdue & Hlinks).
  { intros b Hb. by apply Hblocks. }
  apply returns_alt in Hlinks as (s3 & E3 & Hp & Eth3 & Ed3).
  unfold park_program. unfold park_links in E3. apply bind_Ok in E3 as (s1 & E1 & E3).
  rewrite E1. run. cbv zeta in E3. rewrite E3. run.
  unfold KiCommitWait, KiAssertMayBlock.
  set (th2 := th <| waitBlockList := blocks |> <| timerArmed := is_timed timeout |>).
  rewrite (alter_thread_eq s3 t th2) by (by rewrite Eth3, lookup_insert_eq).
  change (KiNoBlockDepth (put_thread s3 t (th2 <| waitAlertable := alertable |>))) with (KiNoBlockDepth s3).
  rewrite Ed3, Hdepth. run. cbn [Z.eqb negb].
  rewrite (alter_thread_eq _ t (th2 <| waitAlertable := alertable |>)) by (simpl; by rewrite lookup_insert_eq).
  rewrite put_thread_put_thread. set (sp := put_thread s3 t _).
  change (parked s t th blocks (is_timed timeout) alertable v sp) in Hp.
  assert (Hroom : forall b, b ∈ blocks -> room s t (blockObject b)) by (intros b Hb; by apply Hblocks).
  assert (Hno : forall b, b ∈ blocks -> ~ ready_block s t (parked_thread th blocks (is_timed timeout) alertable) b)
    by (intros b Hb; by apply Hblocks).
  assert (Hcore : ke_core None sp) by (by eapply parked_core).
  assert (Hq : quiet sp) by (by eapply parked_quiet).
  assert (Hcur' : KiCurrentThread sp = t) by (rewrite (pk_rest _ _ _ _ _ _ _ _ Hp); done).
  eapply returns_mono; [apply KiSwapToNext_spec|].
  - apply Hcore.
  - rewrite Hcur', (pk_threads _ _ _ _ _ _ _ _ Hp), lookup_insert_eq. eauto.
  - intros x thx. by eapply parked_none_running.
  - intros s' (Hs' & Hc' & Hsc). split; [|by exists v, sp]. eapply scheduled_inv; try done.
    unfold clock_inv. rewrite (pk_rest _ _ _ _ _ _ _ _ Hp). apply (ki_clock _ Hinv).
Qed.

(** Completing a wait on the spot. *)
Lemma consumed_inv s s' t objs :
  ke_inv s -> KiCurrentThread s = t -> consumed t objs s s' -> ke_body None s' -> room_except t s' ->
  ke_inv s'.
Proof.
  intros Hinv Hcur Hc Hb' Hr'. pose proof (kb_wait _ _ (proj1 (ki_core _ Hinv))) as Hw.
  destruct (ki_cur _ Hinv) as [(th & Hth & Hst) Hu]. rewrite Hcur in Hth.
  destruct (not_waiting_blocks _ _ _ Hw Hth) as [Ebl Etm]; [by rewrite Hst|].
  assert (Hthreads : forall x thx', threads s' !! x = Some thx' -> exists thx, threads s !! x = Some thx /\
    thx' = thx <| mutantListHead := mutantListHead thx' |>).
  { intros x thx' Hx. destruct (Forall2_Some_r _ _ _ _ (cs_threads _ _ _ _ Hc x) Hx) as (thx & ? & ? & _). eauto. }
  assert (Hcur' : KiCurrentThread s' = t) by (by rewrite (cs_rest _ _ _ _ Hc)).
  split; [split; [done|]| | |].
  - intros x thx' b Hx Hb. destruct (decide (x = t)) as [->|Hne]; [|by eapply Hr'].
    destruct (Hthreads _ _ Hx) as (thx & Hx0 & E). rewrite E in Hb. assert (thx = th) as -> by congruence.
    simpl in Hb. rewrite Ebl in Hb. by apply elem_of_nil in Hb.
  - eapply quiet_mono; [|apply (ki_quiet _ Hinv)]. intros x thx' Hx Hne.
    destruct (Hthreads _ _ Hx) as (thx & Hx0 & E). exists thx. split; [done|].
    assert (all_blocks x thx' = all_blocks x thx) as Eb by (by rewrite E).
    split_and!; [done|by rewrite E|]. intros b Hb (o' & Ho' & Hs).
    destruct (Forall2_Some_r _ _ _ _ (cs_objects _ _ _ _ Hc _) Ho') as (o & Ho & _ & _ & _ & _ & S).
    exists o. split; [done|]. apply (S x); [|done]. intros ->. assert (thx = th) as -> by congruence.
    apply Hne. rewrite Eb. unfold all_blocks. by rewrite Ebl, Etm.
  - split; rewrite Hcur'.
    + destruct (Forall2_Some_l _ _ _ _ (cs_threads _ _ _ _ Hc t) Hth) as (th' & Hth' & E & _).
      exists th'. split; [done|]. by rewrite E.
    + intros x thx' Hx Hst'. destruct (Hthreads _ _ Hx) as (thx & Hx0 & E). rewrite E in Hst'.
      rewrite <- Hcur. by apply (Hu x thx).
  - unfold clock_inv. rewrite (cs_rest _ _ _ _ Hc). apply (ki_clock _ Hinv).
Qed.
End wait_for.
