(* ===== verification/KeCheck.v ===== *)
(** * KeCheck: the dispatcher invariant, decided on a concrete state.

    [ke_ok] restates [ke_inv] with every quantifier bounded by the threads and
    objects of the state, so that it evaluates.  The concrete states of the
    later files are checked with it. *)

From S2P Require Import Prelude NtStatus KeTypes KeSched KeWait KeInv.

Section ke_ok.
Context (s : KSTATE).

Definition satb (a t : addr) : bool :=
  match objects s !! a with
  | Some o => KiIsSatisfiable o t
  | None => false
  end.

Definition ready_blockb (t : addr) (th : KTHREAD) (b : KWAIT_BLOCK) : bool :=
  match waitType b with
  | WaitAny => satb (blockObject b) t
  | WaitAll => forallb (fun b' => satb (blockObject b') t) (waitBlockList th)
  end.

Definition list_okb (a : addr) (o : KOBJECT) : bool :=
  bool_decide (NoDup (waitListHead o)) &&
  forallb (fun b => (blockObject b =? a) &&
    match threads s !! blockThread b with
    | Some th => bool_decide (b ∈ all_blocks (blockThread b) th)
    | None => false
    end) (waitListHead o).

Definition wait_okb (t : addr) (th : KTHREAD) : bool :=
  forallb (fun b => (blockThread b =? t) &&
    match objects s !! blockObject b with
    | Some o => bool_decide (b ∈ waitListHead o)
    | None => false
    end && negb (ready_blockb t th b)) (all_blocks t th) &&
  bool_decide (NoDup (all_blocks t th)) &&
  Bool.eqb (bool_decide (state th = KI_THREAD_STATE_WAITING)) (negb (bool_decide (all_blocks t th = []))) &&
  forallb (fun b => forallb (fun b' => bool_decide (waitType b = waitType b')) (waitBlockList th) &&
    (bool_decide (waitType b = WaitAny) || bool_decide (NoDup (blockObject <$> waitBlockList th))) &&
    match objects s !! blockObject b with
    | Some o => negb (bool_decide (type o = KI_OBJECT_MUTANT)) || negb (ownerThread o =? t) ||
                (- 2 ^ 31 <? signalState o)
    | None => true
    end) (waitBlockList th).

Fixpoint sortedb (l : list addr) : bool :=
  match l with
  | [] => true
  | x :: l' => forallb (fun y => due s x <=? due s y) l' && sortedb l'
  end.

Definition object_okb (a : addr) (o : KOBJECT) : bool :=
  (negb (inserted o) || bool_decide (a ∈ KiTimerListHead s) &&
     (bool_decide (type o = KI_OBJECT_NOTIFICATION_TIMER) || bool_decide (type o = KI_OBJECT_SYNCHRONIZATION_TIMER)) &&
     (0 <=? dueTime o)) &&
  (0 <=? period o) && (period o <? 2 ^ 31) &&
  match type o with
  | KI_OBJECT_MUTANT =>
      if ownerThread o =? 0 then signalState o =? 1
      else (- 2 ^ 31 <=? signalState o) && (signalState o <=? 0) &&
        match threads s !! ownerThread o with
        | Some th => bool_decide (a ∈ mutantListHead th)
        | None => false
        end
  | KI_OBJECT_SEMAPHORE => (0 <=? signalState o) && (signalState o <=? limit o) && (limit o <? 2 ^ 31)
  | _ => (0 <=? signalState o) && (signalState o <=? 1)
  end.

Definition thread_okb (t : addr) (th : KTHREAD) : bool :=
  match objects s !! timer th with
  | Some o => bool_decide (type o = KI_OBJECT_NOTIFICATION_TIMER) && (period o =? 0) &&
              Bool.eqb (inserted o) (timerArmed th)
  | None => false
  end &&
  bool_decide (map_Forall (fun t' th' => timer th' = timer th -> t' = t) (threads s)) &&
  forallb (fun m => match objects s !! m with
    | Some o => bool_decide (type o = KI_OBJECT_MUTANT) && (ownerThread o =? t)
    | None => false
    end) (mutantListHead th) &&
  bool_decide (NoDup (mutantListHead th)) &&
  (negb (bool_decide (state th = KI_THREAD_STATE_TERMINATED)) || bool_decide (mutantListHead th = [])) &&
  negb (t =? 0) && negb (process th =? 0) &&
  match objects s !! t with
  | Some o => bool_decide (type o = KI_OBJECT_THREAD) &&
              (negb (bool_decide (state th = KI_THREAD_STATE_TERMINATED)) || (signalState o =? 1))
  | None => false
  end &&
  (negb (bool_decide (state th = KI_THREAD_STATE_RUNNING)) || (t =? KiCurrentThread s)).

Definition ke_ok : Prop :=
  sched_ok s /\
  map_Forall (fun a o => list_okb a o && object_okb a o = true) (objects s) /\
  map_Forall (fun t th => wait_okb t th && thread_okb t th = true) (threads s) /\
  (NoDup (KiTimerListHead s) /\
   forallb (fun a => match objects s !! a with Some o => inserted o | None => false end) (KiTimerListHead s) = true /\
   sortedb (KiTimerListHead s) = true) /\
  match threads s !! KiCurrentThread s with
  | Some th => state th = KI_THREAD_STATE_RUNNING
  | None => False
  end /\
  KiInterruptTime s = u64 (KiIdleTime100ns s + KiTotalKernelTime100ns s + KiTotalUserTime100ns s).

#[global] Instance ke_ok_dec : Decision ke_ok.
Proof.
  unfold ke_ok. repeat (apply and_dec; [apply _|]). apply and_dec; [|apply _].
  destruct (threads s !! KiCurrentThread s); apply _.
Defined.
End ke_ok.

Section soundness.
Implicit Types (s : KSTATE) (t a : Z) (th : KTHREAD) (o : KOBJECT) (b : KWAIT_BLOCK).

Lemma satb_spec s a t : satb s a t = true <-> sat s a t.
Proof.
  unfold satb, sat. destruct (objects s !! a) as [o|]; [|naive_solver]. split; [by exists o|].
  by intros (o' & [= <-] & ?).
Qed.

Lemma ready_blockb_spec s t th b : ready_blockb s t th b = true <-> ready_block s t th b.
Proof.
  unfold ready_blockb, ready_block. destruct (waitType b); [|apply satb_spec].
  rewrite forallb_forall. setoid_rewrite satb_spec. setoid_rewrite list_elem_of_In. done.
Qed.

Lemma forallb_elem {A} (f : A -> bool) (l : list A) (x : A) : forallb f l = true -> x ∈ l -> f x = true.
Proof. rewrite forallb_forall. setoid_rewrite <- list_elem_of_In. auto. Qed.

Lemma sortedb_spec s l : sortedb s l = true -> StronglySorted (fun x y => due s x <= due s y) l.
Proof.
  induction l as [|x l IH]; [constructor|]. simpl. intros [H1 H2]%andb_true_iff. constructor; [auto|].
  rewrite Forall_forall. intros y Hy. pose proof (forallb_elem _ _ _ H1 Hy) as H. by apply Z.leb_le in H.
Qed.

(** Split a boolean conjunction into its conjuncts. *)
Ltac split_andb :=
  repeat match goal with
  | H : _ && _ = true |- _ => apply andb_true_iff in H as [? ?]
  end.

Lemma ke_ok_wait s : ke_ok s -> wait_inv s.
Proof.
  intros (_ & Hobj & Hthr & _). split; [split|].
  - intros a o Ho. specialize (Hobj _ _ Ho). unfold list_okb in Hobj. split_andb.
    by eapply bool_decide_eq_true.
  - intros a o b Ho Hb. specialize (Hobj _ _ Ho). unfold list_okb in Hobj. split_andb.
    pose proof (forallb_elem _ _ b ltac:(eassumption) Hb) as Hbb. cbn beta in Hbb. split_andb. by apply Z.eqb_eq.
  - intros b. split.
    + intros (o & Ho & Hb). specialize (Hobj _ _ Ho). unfold list_okb in Hobj. split_andb.
      pose proof (forallb_elem _ _ b ltac:(eassumption) Hb) as Hbb. cbn beta in Hbb. split_andb.
      unfold armed. destruct (threads s !! blockThread b) as [th|]; [|done]. exists th. split; [done|].
      by eapply bool_decide_eq_true.
    + intros (th & Hth & Hb). specialize (Hthr _ _ Hth). unfold wait_okb in Hthr. split_andb.
      match goal with H : forallb _ (all_blocks _ th) = true |- _ => pose proof (forallb_elem _ _ b H Hb) as Hbb end.
      cbn beta in Hbb. split_andb. unfold linked. destruct (objects s !! blockObject b) as [o|]; [|done]. exists o. split; [done|].
      by eapply bool_decide_eq_true.
  - intros t th Hth. specialize (Hthr _ _ Hth). unfold wait_okb in Hthr. split_andb.
    match goal with H : forallb _ (all_blocks t th) = true |- _ => rename H into Hall end.
    match goal with H : forallb _ (waitBlockList th) = true |- _ => rename H into Hwb end.
    match goal with H : Bool.eqb _ _ = true |- _ => rename H into Heq end.
    split.
    + intros b Hb. assert (Hb' : b ∈ all_blocks t th) by (apply elem_of_app; by left).
      pose proof (forallb_elem _ _ b Hall Hb') as Hbb. cbn beta in Hbb. split_andb. by apply Z.eqb_eq.
    + by eapply bool_decide_eq_true.
    + apply Bool.eqb_prop in Heq.
      destruct (bool_decide_reflect (state th = KI_THREAD_STATE_WAITING)),
        (bool_decide_reflect (all_blocks t th = [])); simpl in Heq; try done; naive_solver.
    + intros b b' Hb Hb'. pose proof (forallb_elem _ _ b Hwb Hb) as Hbb. cbn beta in Hbb. split_andb.
      match goal with H : forallb _ _ = true |- _ => pose proof (forallb_elem _ _ b' H Hb') as Hbb end.
      by eapply bool_decide_eq_true.
    + intros b Hb Hty. pose proof (forallb_elem _ _ b Hwb Hb) as Hbb. cbn beta in Hbb. split_andb.
      match goal with H : _ || _ = true |- _ => rewrite bool_decide_eq_false_2 in H by congruence end.
      by eapply bool_decide_eq_true.
Qed.

Lemma ke_ok_timer s : ke_ok s -> timer_inv None s.
Proof.
  intros (_ & Hobj & Hthr & (Hnd & Hins & Hsort) & _). split.
  - done.
  - intros a. split.
    + intros Ha. pose proof (forallb_elem _ _ a Hins Ha) as H. cbn beta in H.
      destruct (objects s !! a) as [o|]; [by exists o|done].
    + intros (o & Ho & Hi). specialize (Hobj _ _ Ho). unfold object_okb in Hobj. split_andb.
      rewrite Hi in *. simpl in *. split_andb. by eapply bool_decide_eq_true.
  - by apply sortedb_spec.
  - intros a o Ho Hi. specialize (Hobj _ _ Ho). unfold object_okb in Hobj. split_andb.
    rewrite Hi in *. simpl in *. split_andb. split; [|by apply Z.leb_le].
    match goal with H : _ || _ = true |- _ => apply orb_true_iff in H as [H|H]; apply bool_decide_eq_true in H end;
      [by left|by right].
  - intros a o Ho. specialize (Hobj _ _ Ho). unfold object_okb in Hobj. split_andb.
    split; [by apply Z.leb_le|by apply Z.ltb_lt].
  - intros t th Hth. specialize (Hthr _ _ Hth). unfold thread_okb in Hthr. split_andb.
    destruct (objects s !! timer th) as [o|]; [|done]. split_andb. exists o.
    split_and!; [done|by eapply bool_decide_eq_true|by apply Z.eqb_eq|]. intros _. by apply Bool.eqb_prop.
  - intros t t' th th' Hth Hth' E. specialize (Hthr _ _ Hth'). unfold thread_okb in Hthr. split_andb.
    match goal with H : bool_decide (map_Forall _ _) = true |- _ => apply bool_decide_eq_true in H; by apply (H _ _ Hth) end.
Qed.

Lemma ke_ok_mutant s : ke_ok s -> mutant_inv s.
Proof.
  intros (_ & Hobj & Hthr & _). split.
  - intros m o Ho Hty. specialize (Hobj _ _ Ho). unfold object_okb in Hobj. split_andb.
    rewrite Hty in *. destruct (Z.eqb_spec (ownerThread o) 0) as [E|E].
    + split; [intros _; by apply Z.eqb_eq|done].
    + split_andb. split; [done|]. intros _.
      destruct (threads s !! ownerThread o) as [th|]; [|done].
      split; [split; by apply Z.leb_le|]. exists th. split; [done|]. by eapply bool_decide_eq_true.
  - intros t th m Hth Hm. specialize (Hthr _ _ Hth). unfold thread_okb in Hthr. split_andb.
    match goal with H : forallb _ _ = true |- _ => pose proof (forallb_elem _ _ m H Hm) as Hmm end.
    cbn beta in Hmm. destruct (objects s !! m) as [o|]; [|done]. split_andb. exists o.
    split_and!; [done|by eapply bool_decide_eq_true|by apply Z.eqb_eq].
  - intros t th Hth. specialize (Hthr _ _ Hth). unfold thread_okb in Hthr. split_andb. by eapply bool_decide_eq_true.
  - intros t th Hth Hst. specialize (Hthr _ _ Hth). unfold thread_okb in Hthr. split_andb.
    repeat match goal with H : negb (bool_decide (state th = _)) || _ = true |- _ =>
      rewrite (bool_decide_eq_true_2 _ Hst) in H; simpl in H end.
    match goal with H : bool_decide (mutantListHead th = []) = true |- _ => by apply bool_decide_eq_true in H end.
Qed.

Lemma ke_ok_object s : ke_ok s -> object_inv s.
Proof.
  intros (_ & Hobj & Hthr & _). split.
  - intros a o Ho. specialize (Hobj _ _ Ho). unfold object_okb in Hobj. split_andb.
    destruct (type o) eqn:Ety; split_andb; split; intros; try congruence;
      repeat match goal with
      | H : (_ <=? _) = true |- _ => apply Z.leb_le in H
      | H : (_ <? _) = true |- _ => apply Z.ltb_lt in H
      end; lia.
  - intros t th Hth. specialize (Hthr _ _ Hth). unfold thread_okb in Hthr. split_andb.
    destruct (objects s !! t) as [o|]; [|done]. split_andb.
    split_and!; [by apply Z.eqb_neq, negb_true_iff..|]. exists o.
    split_and!; [done|by eapply bool_decide_eq_true|]. intros Hst.
    repeat match goal with H : negb (bool_decide (state th = _)) || _ = true |- _ =>
      rewrite (bool_decide_eq_true_2 _ Hst) in H; simpl in H end. by apply Z.eqb_eq.
Qed.

Lemma ke_ok_inv s : ke_ok s -> ke_inv s.
Proof.
  intros Hok. pose proof Hok as (Hsched & Hobj & Hthr & _ & Hcur & Hclk).
  split; [split; [split|]| | |done].
  - by apply sched_ok_inv.
  - by apply ke_ok_wait.
  - by apply ke_ok_timer.
  - by apply ke_ok_mutant.
  - by apply ke_ok_object.
  - intros t th b Hth Hb o Ho Hty How. specialize (Hthr _ _ Hth). unfold wait_okb in Hthr. split_andb.
    match goal with H : forallb _ (waitBlockList th) = true |- _ => pose proof (forallb_elem _ _ b H Hb) as Hbb end.
    cbn beta in Hbb. rewrite Ho in Hbb. split_andb.
    match goal with H : negb _ || _ || _ = true |- _ =>
      rewrite (bool_decide_eq_true_2 _ Hty), How, Z.eqb_refl in H; simpl in H; by apply Z.ltb_lt end.
  - intros t th b Hth Hb Hready. specialize (Hthr _ _ Hth). unfold wait_okb in Hthr. split_andb.
    match goal with H : forallb _ (all_blocks t th) = true |- _ => pose proof (forallb_elem _ _ b H Hb) as Hbb end.
    cbn beta in Hbb. split_andb. apply ready_blockb_spec in Hready.
    match goal with H : negb _ = true |- _ => rewrite Hready in H; done end.
  - split.
    + destruct (threads s !! KiCurrentThread s) as [th|]; [by exists th|done].
    + intros t th Hth Hst. specialize (Hthr _ _ Hth). unfold thread_okb in Hthr. split_andb.
      repeat match goal with H : negb (bool_decide (state th = _)) || _ = true |- _ =>
        rewrite Hst in H; simpl in H end. by apply Z.eqb_eq.
Qed.
End soundness.

(** ** A concrete machine

    The idle thread 1 is READY; 2 runs and holds mutant 50; 3 waits for event
    40 and semaphore 41 together; 4 waits for event 40 with a timeout due at
    500.  42 is a signalled notification event, 43 a mutant nobody holds, 60 a
    periodic synchronization timer due at 700. *)

Definition ex_object (ty : KI_OBJECT_TYPE) (signal : Z) (l : list KWAIT_BLOCK) : KOBJECT :=
  mkKOBJECT ty false signal l 5 0 false false 0 0.

Definition ex_timer (ty : KI_OBJECT_TYPE) (d p : Z) (l : list KWAIT_BLOCK) : KOBJECT :=
  mkKOBJECT ty true 0 l 0 0 false false d p.

Definition ex_thread (st : KI_THREAD_STATE) (pr : Z) (tm : addr) (blocks : list KWAIT_BLOCK)
    (timed : bool) (owned : list addr) : KTHREAD :=
  mkKTHREAD st pr 0 false false 0 1 0 blocks timed tm owned [] false false false false [] 0 0 0 0 0.

Definition block3a := mkKWAIT_BLOCK 3 40 0 WaitAll.
Definition block3b := mkKWAIT_BLOCK 3 41 1 WaitAll.
Definition block4 := mkKWAIT_BLOCK 4 40 0 WaitAny.
Definition block4t := mkKWAIT_BLOCK 4 14 STATUS_TIMEOUT WaitAny.

Definition ex_ke : KSTATE :=
  mkKSTATE 2 1
    {[ 1 := ex_thread KI_THREAD_STATE_READY 0 11 [] false [];
       2 := ex_thread KI_THREAD_STATE_RUNNING 8 12 [] false [50];
       3 := ex_thread KI_THREAD_STATE_WAITING 9 13 [block3a; block3b] false [];
       4 := ex_thread KI_THREAD_STATE_WAITING 8 14 [block4] true [] ]}
    (list_to_map [(1, ex_object KI_OBJECT_THREAD 0 []); (2, ex_object KI_OBJECT_THREAD 0 []);
       (3, ex_object KI_OBJECT_THREAD 0 []); (4, ex_object KI_OBJECT_THREAD 0 []);
       (11, ex_object KI_OBJECT_NOTIFICATION_TIMER 0 []); (12, ex_object KI_OBJECT_NOTIFICATION_TIMER 0 []);
       (13, ex_object KI_OBJECT_NOTIFICATION_TIMER 0 []);
       (14, ex_timer KI_OBJECT_NOTIFICATION_TIMER 500 0 [block4t]);
       (40, ex_object KI_OBJECT_SYNCHRONIZATION_EVENT 0 [block3a; block4]);
       (41, ex_object KI_OBJECT_SEMAPHORE 1 [block3b]);
       (42, ex_object KI_OBJECT_NOTIFICATION_EVENT 1 []);
       (43, ex_object KI_OBJECT_MUTANT 1 []);
       (50, ex_object KI_OBJECT_MUTANT 0 [] <| ownerThread := 2 |>);
       (60, ex_timer KI_OBJECT_SYNCHRONIZATION_TIMER 700 10 [])])
    (replicate 32 []) 0 0 None (mkKI_SCHEDULE_TRACE 0 0 0 [] [] false) [14; 60]
    0 100 0 0 0 60 30 10 0 [] None.

Lemma ex_ke_inv : ke_inv ex_ke.
Proof. apply ke_ok_inv. vm_compute_decide. Qed.
