(* ===== verification/KeWaitSpec.v ===== *)
(** * KeWaitSpec: what the waiting calls promise.

    The contract of KeWaitForMultipleObjects, KeWaitForSingleObject and
    KeDelayExecutionThread as a relation between the call and its outcome
    ([wait_outcome]), and the theorem that the code of kernel/ke/wait.c meets
    it from any state with the dispatcher invariant. *)

From S2P Require Import Prelude NtStatus KeTypes KeSched KeWait KeInv KeCheck.

(** What a caller of a waiting primitive owes: it is not the idle thread, no
    non-blocking region is open, the count is in range, the objects exist, and
    no mutant is at the bottom of its 2^31 recursions. *)
Record wait_call (s : KSTATE) (objs : list addr) (callerBlocks : bool) : Prop := {
  wc_inv : ke_inv s;
  wc_idle : KiCurrentThread s <> KiIdleThread s;
  wc_depth : KiNoBlockDepth s = 0;
  wc_count : 0 < Z.of_nat (length objs) <= MAXIMUM_WAIT_OBJECTS;
  wc_blocks : callerBlocks = true \/ Z.of_nat (length objs) <= KI_THREAD_WAIT_OBJECTS;
  wc_objects : forall a, a ∈ objs -> is_Some (objects s !! a);
  wc_room : forall a, a ∈ objs -> room s (KiCurrentThread s) a;
}.

Definition satisfiable (s : KSTATE) (objs : list addr) (wt : WAIT_TYPE) (t : addr) : Prop :=
  match wt with
  | WaitAny => exists a, a ∈ objs /\ sat s a t
  | WaitAll => forall a, a ∈ objs -> sat s a t
  end.

(** A thread that is being terminated begins no wait, its rundown apart. *)
Definition aborted (th : KTHREAD) : Prop :=
  terminating th = true /\ threadObject th <> 0 /\ rundownWait th = false.

(** Neither an APC nor an alert is there to end an alertable wait. *)
Definition undisturbed (alertable : bool) (th : KTHREAD) : Prop :=
  alertable = true -> userApcPending th = false /\ alerted th = false.

(** The wait gets as far as looking at the objects. *)
Definition begins (th : KTHREAD) (objs : list addr) (wt : WAIT_TYPE) : Prop :=
  (wt = WaitAll -> NoDup objs) /\ ~ aborted th.

(** The outcomes of a wait by the current thread [th].  The conditions of two
    constructors exclude each other (two parked outcomes apart, which differ in
    the thread the scheduler gives the processor to), so each says exactly when
    its outcome is the one. *)
Inductive wait_outcome (s : KSTATE) (th : KTHREAD) (objs : list addr) (wt : WAIT_TYPE)
    (alertable : bool) (timeout : option Z) : wait_result -> KSTATE -> Prop :=
  | outcome_duplicate :
      wt = WaitAll -> ~ NoDup objs ->
      wait_outcome s th objs wt alertable timeout (WaitReturned STATUS_INVALID_PARAMETER) s
  | outcome_terminating :
      (wt = WaitAll -> NoDup objs) -> aborted th ->
      wait_outcome s th objs wt alertable timeout (WaitReturned STATUS_THREAD_IS_TERMINATING) s
  | outcome_any i a o s' :
      begins th objs wt -> wt = WaitAny -> objs !! i = Some a -> objects s !! a = Some o ->
      KiIsSatisfiable o (KiCurrentThread s) = true ->
      (forall j a', (j < i)%nat -> objs !! j = Some a' -> ~ sat s a' (KiCurrentThread s)) ->
      consumed (KiCurrentThread s) [a] s s' ->
      wait_outcome s th objs wt alertable timeout
        (WaitReturned ((if bool_decide (type o = KI_OBJECT_MUTANT) && abandoned o
                        then STATUS_ABANDONED_WAIT_0 else STATUS_WAIT_0) + Z.of_nat i)) s'
  | outcome_all status s' :
      begins th objs wt -> wt = WaitAll -> satisfiable s objs WaitAll (KiCurrentThread s) ->
      consumed (KiCurrentThread s) objs s s' -> all_status s objs status ->
      wait_outcome s th objs wt alertable timeout (WaitReturned status) s'
  | outcome_apc :
      begins th objs wt -> ~ satisfiable s objs wt (KiCurrentThread s) ->
      alertable = true -> userApcPending th = true ->
      wait_outcome s th objs wt alertable timeout (WaitReturned STATUS_USER_APC)
        (put_thread s (KiCurrentThread s) (th <| apcDeliverPending := true |>))
  | outcome_alerted :
      begins th objs wt -> ~ satisfiable s objs wt (KiCurrentThread s) ->
      alertable = true -> userApcPending th = false -> alerted th = true ->
      wait_outcome s th objs wt alertable timeout (WaitReturned STATUS_ALERTED)
        (put_thread s (KiCurrentThread s) (th <| alerted := false |>))
  | outcome_timeout :
      begins th objs wt -> ~ satisfiable s objs wt (KiCurrentThread s) ->
      undisturbed alertable th -> timeout = Some 0 ->
      wait_outcome s th objs wt alertable timeout (WaitReturned STATUS_TIMEOUT) s
  | outcome_parked v sp s' :
      begins th objs wt -> ~ satisfiable s objs wt (KiCurrentThread s) ->
      undisturbed alertable th -> timeout <> Some 0 ->
      (forall d, timeout = Some d -> v = KiComputeDueTime s d) ->
      parked s (KiCurrentThread s) th (wait_blocks (KiCurrentThread s) objs 0 wt)
        (is_timed timeout) alertable v sp ->
      scheduled sp s' ->
      wait_outcome s th objs wt alertable timeout WaitParked s'.

(** The outcomes of a delay, likewise. *)
Inductive delay_outcome (s : KSTATE) (th : KTHREAD) (alertable : bool) (interval : Z)
    : wait_result -> KSTATE -> Prop :=
  | delay_terminating :
      aborted th -> delay_outcome s th alertable interval (WaitReturned STATUS_THREAD_IS_TERMINATING) s
  | delay_apc :
      ~ aborted th -> alertable = true -> userApcPending th = true ->
      delay_outcome s th alertable interval (WaitReturned STATUS_USER_APC)
        (put_thread s (KiCurrentThread s) (th <| apcDeliverPending := true |>))
  | delay_alerted :
      ~ aborted th -> alertable = true -> userApcPending th = false -> alerted th = true ->
      delay_outcome s th alertable interval (WaitReturned STATUS_ALERTED)
        (put_thread s (KiCurrentThread s) (th <| alerted := false |>))
  | delay_yield s' :
      ~ aborted th -> undisturbed alertable th -> interval = 0 -> yielded s th s' ->
      delay_outcome s th alertable interval (WaitReturned STATUS_SUCCESS) s'
  | delay_parked sp s' :
      ~ aborted th -> undisturbed alertable th -> interval <> 0 ->
      parked s (KiCurrentThread s) th [] true alertable (KiComputeDueTime s interval) sp ->
      scheduled sp s' ->
      delay_outcome s th alertable interval WaitParked s'.

Section wait_spec.
Implicit Types (s : KSTATE) (t a x i : Z) (th : KTHREAD) (o : KOBJECT) (b : KWAIT_BLOCK) (objs : list addr).

Lemma aborted_spec th : KiWaitAbortedForTermination th = true <-> aborted th.
Proof.
  unfold KiWaitAbortedForTermination, aborted. rewrite !andb_true_iff, !negb_true_iff, Z.eqb_neq. tauto.
Qed.

Lemma not_aborted_spec th : KiWaitAbortedForTermination th = false -> ~ aborted th.
Proof. intros E H%aborted_spec. congruence. Qed.

Lemma undisturbed_spec alertable th :
  alertable && (userApcPending th || alerted th) = false -> undisturbed alertable th.
Proof. intros E ->. by apply orb_false_iff in E. Qed.

Lemma first_satisfiable_spec s t objs i :
  (forall a, a ∈ objs -> is_Some (objects s !! a)) ->
  returns (first_satisfiable s t objs i) (fun r =>
    match r with
    | Some (j, a) => exists k, j = i + Z.of_nat k /\ objs !! k = Some a /\ sat s a t /\
        forall k' a', (k' < k)%nat -> objs !! k' = Some a' -> ~ sat s a' t
    | None => forall a, a ∈ objs -> ~ sat s a t
    end).
Proof.
  revert i. induction objs as [|a objs IH]; intros i Hdom; cbn [first_satisfiable].
  { cbn. intros a Ha. by apply elem_of_nil in Ha. }
  destruct (Hdom a ltac:(left)) as [o Ho]. unfold get_object. rewrite Ho. run.
  destruct (KiIsSatisfiable o t) eqn:E.
  - cbn. exists 0%nat. split_and!; [lia|done|by exists o|]. intros. lia.
  - assert (Hns : ~ sat s a t) by (intros (o' & ? & ?); congruence).
    eapply returns_mono; [apply (IH (i + 1)); intros; apply Hdom; by right|].
    intros [[j a']|].
    + intros (k & -> & Hk & Hsat & Hbefore). exists (S k). split_and!; [lia|done|done|].
      intros [|k'] a2 Hlt; simpl; [by intros [= <-]|]. apply Hbefore. lia.
    + intros Hno a' [->|Ha']%elem_of_cons; auto.
Qed.

Lemma current_thread s : ke_inv s ->
  exists th, threads s !! KiCurrentThread s = Some th /\ state th = KI_THREAD_STATE_RUNNING.
Proof. intros Hinv. apply (ki_cur _ Hinv). Qed.

(** Immediate satisfaction. *)
Lemma satisfy_now_spec s th objs wt :
  ke_inv s -> threads s !! KiCurrentThread s = Some th -> state th = KI_THREAD_STATE_RUNNING ->
  (wt = WaitAll -> NoDup objs) ->
  (forall a, a ∈ objs -> is_Some (objects s !! a)) ->
  (forall a, a ∈ objs -> room s (KiCurrentThread s) a) ->
  returns (satisfy_now s (KiCurrentThread s) objs wt) (fun r =>
    match r with
    | Some (status, s') => ke_inv s' /\
        forall alertable timeout, ~ aborted th -> wait_outcome s th objs wt alertable timeout (WaitReturned status) s'
    | None => ~ satisfiable s objs wt (KiCurrentThread s)
    end).
Proof.
  intros Hinv Hth Hst Hnd Hdom Hroom. destruct (ki_core _ Hinv) as [Hb Hr].
  pose proof (room_inv_except (KiCurrentThread s) _ Hr) as Hr'. destruct wt; cbn [satisfy_now].
  - pose proof (all_satisfiable_spec s (KiCurrentThread s) objs Hdom) as Hall.
    apply returns_alt in Hall as (r & -> & Hiff). run. destruct r.
    + apply returns_bind. eapply returns_mono.
      * apply satisfy_all_spec; [by apply Hnd|done|done| |].
        -- exists th. by rewrite Hst.
        -- intros a Ha. split; [by apply Hiff|auto].
      * intros [status s'] (_ & Hstatus & Hc & Hb' & Hrx). cbn [returns]. split.
        -- by eapply consumed_inv.
        -- intros alertable timeout Hab. apply outcome_all; [done|done|exact (proj1 Hiff eq_refl)|done|].
           by apply Hstatus.
    + cbn. intros H. specialize (proj2 Hiff H). done.
  - apply returns_bind. eapply returns_mono; [by apply first_satisfiable_spec|].
    intros [[j a]|]; [|cbn; intros Hno (a & Ha & Hs); by eapply Hno].
    intros (k & -> & Hk & (o & Ho & Hs) & Hbefore).
    assert (Ha : a ∈ objs) by (by eapply list_elem_of_lookup_2).
    apply returns_bind. eapply returns_mono.
    + eapply (KiSatisfyObject_spec None s (KiCurrentThread s) a th o); try done; [by rewrite Hst|auto].
    + intros [w s'] (-> & Hc & Hb' & Hrx). cbn [returns]. split; [by eapply consumed_inv|].
      intros alertable timeout Hab. rewrite Z.add_0_l.
      pose proof (outcome_any s th objs WaitAny alertable timeout k a o s' (conj Hnd Hab) eq_refl Hk Ho Hs Hbefore Hc) as H.
      by destruct (_ && _).
Qed.

(** Fields of a thread the invariant does not read. *)
Lemma put_thread_inv s t th th' :
  ke_inv s -> threads s !! t = Some th ->
  state th' = state th -> priority th' = priority th -> process th' = process th ->
  waitBlockList th' = waitBlockList th -> timerArmed th' = timerArmed th -> timer th' = timer th ->
  mutantListHead th' = mutantListHead th ->
  ke_inv (put_thread s t th').
Proof.
  intros [[[Hs Hw Ht Hm Ho] Hr] Hq Hc Hclk] Hth Est Epr Epc Ebl Earm Etm Eml.
  assert (F : wait_frame s (put_thread s t th')) by (apply (put_thread_wait_frame s t th); [done|split; try done; by rewrite Est]).
  assert (Hthreads : forall x thx, threads (put_thread s t th') !! x = Some thx ->
    exists thx0, threads s !! x = Some thx0 /\ all_blocks x thx = all_blocks x thx0 /\
      waitBlockList thx = waitBlockList thx0 /\ state thx = state thx0).
  { intros x thx. simpl. destruct (decide (x = t)) as [->|].
    - rewrite lookup_insert_eq. intros [= <-]. exists th. split_and!; try done.
      unfold all_blocks, timerWaitBlock. by rewrite Ebl, Earm, Etm.
    - rewrite lookup_insert_ne by done. by exists thx. }
  split; [split; [split|]| | |done].
  - by apply (put_thread_sched s t th).
  - by eapply wait_inv_frame.
  - by eapply timer_inv_frame.
  - apply (mutant_inv_frame s); [|done]. split.
    + apply (put_thread_forall2 _ s t th); [by split|done|]. split; [done|congruence].
    + intros a. apply option_Forall2_refl. by split.
  - apply (put_thread_object_inv s t th); [done..|congruence].
  - intros x thx b (thx0 & Hx0 & _ & E & _)%Hthreads Hb. rewrite E in Hb. by apply (Hr x thx0).
  - apply (quiet_weaken s); [done| |done]. intros x thx Hx _. destruct (Hthreads _ _ Hx) as (thx0 & ? & ? & ? & _).
    by exists thx0.
  - destruct Hc as [(th0 & Hth0 & Hst0) Honly]. split; simpl.
    + destruct (decide (KiCurrentThread s = t)) as [E|].
      * rewrite E, lookup_insert_eq. exists th'. split; [done|]. rewrite Est. congruence.
      * rewrite lookup_insert_ne by done. by exists th0.
    + intros x thx Hx Hst. destruct (Hthreads _ _ Hx) as (thx0 & Hx0 & _ & _ & E).
      apply (Honly x thx0); [done|]. by rewrite <- E.
Qed.

Lemma alert_now_inv s th th' :
  ke_inv s -> threads s !! KiCurrentThread s = Some th ->
  state th' = state th -> priority th' = priority th -> process th' = process th ->
  waitBlockList th' = waitBlockList th -> timerArmed th' = timerArmed th -> timer th' = timer th ->
  mutantListHead th' = mutantListHead th ->
  ke_inv (put_thread s (KiCurrentThread s) th').
Proof. intros. by apply (put_thread_inv s _ th). Qed.
End wait_spec.

Section wait_theorems.
Implicit Types (s : KSTATE) (t a x i : Z) (th : KTHREAD) (o : KOBJECT) (b : KWAIT_BLOCK) (objs : list addr).

(** The tail of a wait that could not complete at once: alert, time out, or
    park. *)
Lemma wait_tail_spec s th objs wt alertable timeout :
  wait_call s objs true -> threads s !! KiCurrentThread s = Some th ->
  begins th objs wt -> ~ satisfiable s objs wt (KiCurrentThread s) ->
  returns (if alertable && (userApcPending th || alerted th) then
      let '(status, s1) := alert_now s (KiCurrentThread s) th in Ok (WaitReturned status, s1)
    else if bool_decide (timeout = Some 0) then Ok (WaitReturned STATUS_TIMEOUT, s)
    else s' ← park_program s (KiCurrentThread s) (wait_blocks (KiCurrentThread s) objs 0 wt) timeout alertable;
         Ok (WaitParked, s'))
    (fun '(r, s') => ke_inv s' /\ wait_outcome s th objs wt alertable timeout r s').
Proof.
  intros [Hinv Hidle Hdepth Hcount _ Hdom Hroom] Hth Hbeg Hns.
  pose proof Hbeg as [Hnd _].
  assert (Hst : state th = KI_THREAD_STATE_RUNNING).
  { destruct (current_thread s Hinv) as (th0 & ? & ?). congruence. }
  destruct (alertable && (userApcPending th || alerted th)) eqn:Ealert.
  - apply andb_true_iff in Ealert as [-> Hal]. unfold alert_now.
    destruct (userApcPending th) eqn:Eapc; cbn [returns].
    + split; [by apply (alert_now_inv s th)|by apply outcome_apc].
    + split; [by apply (alert_now_inv s th)|by apply outcome_alerted].
  - pose proof (undisturbed_spec _ _ Ealert) as Hun.
    destruct (bool_decide_reflect (timeout = Some 0)) as [->|Hto].
    { cbn. split; [done|by apply outcome_timeout]. }
    apply returns_bind. eapply returns_mono.
    + apply (park_spec s (KiCurrentThread s) th); try done.
      * apply wait_blocks_ok; try done; [left; intros ->; simpl in Hcount; lia|lia].
      * intros b Hb. destruct (wait_blocks_in _ _ _ _ _ Hb) as (_ & Hty & Ho & _).
        split; [auto|]. split; [auto|]. intros Hready. apply Hns. unfold ready_block in Hready.
        rewrite Hty in Hready. destruct wt; simpl.
        -- intros a Ha. rewrite <- (wait_blocks_objects (KiCurrentThread s) objs 0 WaitAll) in Ha.
           apply list_elem_of_fmap in Ha as (b' & -> & Hb'). by apply Hready.
        -- eauto.
    + intros s' (Hinv' & v & sp & Hdue & Hp & Hsc). cbn [returns]. split; [done|].
      by eapply outcome_parked.
Qed.

Lemma wait_contract s th objs wt alertable timeout callerBlocks :
  wait_call s objs callerBlocks -> threads s !! KiCurrentThread s = Some th ->
  returns (KeWaitForMultipleObjects s objs wt alertable timeout callerBlocks)
    (fun '(r, s') => ke_inv s' /\ wait_outcome s th objs wt alertable timeout r s').
Proof.
  intros Hcall Hth. pose proof Hcall as [Hinv Hidle Hdepth Hcount Hblocks Hdom Hroom].
  assert (Hst : state th = KI_THREAD_STATE_RUNNING).
  { destruct (current_thread s Hinv) as (th0 & ? & ?). congruence. }
  unfold KeWaitForMultipleObjects, KiAssertMayBlock. rewrite Hdepth. cbn [Z.eqb negb]. run.
  destruct (Z.eqb_spec (Z.of_nat (length objs)) 0); [lia|].
  destruct (Z.ltb_spec MAXIMUM_WAIT_OBJECTS (Z.of_nat (length objs))); [lia|]. cbn [orb].
  assert (negb callerBlocks && (KI_THREAD_WAIT_OBJECTS <? Z.of_nat (length objs)) = false) as ->.
  { destruct Hblocks as [-> |]; [done|]. apply andb_false_iff. right. apply Z.ltb_ge. done. }
  destruct (bool_decide (wt = WaitAll) && has_duplicate objs) eqn:Edup.
  { apply andb_true_iff in Edup as [Hwt%bool_decide_eq_true Hd]. cbn. split; [done|].
    apply outcome_duplicate; [done|]. intros Hnd%has_duplicate_NoDup. congruence. }
  assert (Hnd : wt = WaitAll -> NoDup objs).
  { intros ->. simpl in Edup. by apply has_duplicate_NoDup. }
  unfold get_thread. rewrite Hth. run. destruct (KiWaitAbortedForTermination th) eqn:Eterm.
  { cbn. split; [done|]. apply outcome_terminating; [done|]. by apply aborted_spec. }
  apply not_aborted_spec in Eterm.
  pose proof (satisfy_now_spec s th objs wt Hinv Hth Hst Hnd Hdom Hroom) as Hnow.
  apply returns_alt in Hnow as (r & -> & Hr). run. destruct r as [[status s1]|].
  - cbn. destruct Hr as [Hi Ho]. split; [done|by apply Ho].
  - assert (Hcall' : wait_call s objs true) by (split; auto).
    pose proof (wait_tail_spec s th objs wt alertable timeout Hcall' Hth (conj Hnd Eterm) Hr) as Htail.
    revert Htail. destruct (alertable && _); [done|]. destruct (bool_decide (timeout = Some 0)); [done|].
    unfold park_program. rewrite !outcome_bind_assoc. apply returns_bind_ext. intros s1.
    rewrite !outcome_bind_assoc. apply returns_bind_ext. intros s3. done.
Qed.

(** C11. KeWaitForMultipleObjects meets its contract.  From any state with the
    dispatcher invariant it never panics, keeps the invariant, and its outcome
    is the one the conditions name, which exclude each other: a wait-all that
    names an object twice is refused; a thread marked for termination begins no
    wait, unless it is in its rundown; a wait-any takes the first satisfiable
    object and consumes that one alone, reporting its index, on the abandoned
    base exactly if it is an abandoned mutant; a wait-all takes every object or
    none, and reports abandonment exactly if one of them is an abandoned mutant;
    nothing is parked that could have completed; an alertable call with an APC
    or an alert pending, and only such a call, ends with it before the timeout
    is looked at; a zero timeout never parks; and a parked call is linked on
    exactly its objects (and its timeout timer, due where the clock says)
    before another thread runs. *)
Theorem KeWaitForMultipleObjects_correct s th objs wt alertable timeout callerBlocks :
  wait_call s objs callerBlocks -> threads s !! KiCurrentThread s = Some th ->
  returns (KeWaitForMultipleObjects s objs wt alertable timeout callerBlocks)
    (fun '(r, s') => ke_inv s' /\ wait_outcome s th objs wt alertable timeout r s').
Proof. apply wait_contract. Qed.

Lemma park_program_nil s t interval alertable :
  park_program s t [] (Some interval) alertable =
    s3 ← KiArmWaitTimeout (alter_thread s t (fun th => th <| waitBlockList := [] |>)) t interval;
    KiCommitWait (alter_thread s3 t (fun th => th <| waitAlertable := alertable |>)) t.
Proof. done. Qed.

Lemma delay_contract s th alertable interval :
  ke_inv s -> KiCurrentThread s <> KiIdleThread s -> KiNoBlockDepth s = 0 ->
  threads s !! KiCurrentThread s = Some th ->
  returns (KeDelayExecutionThread s alertable interval) (fun '(r, s') =>
    ke_inv s' /\ delay_outcome s th alertable interval r s').
Proof.
  intros Hinv Hidle Hdepth Hth.
  assert (Hst : state th = KI_THREAD_STATE_RUNNING).
  { destruct (current_thread s Hinv) as (th0 & ? & ?). congruence. }
  unfold KeDelayExecutionThread. unfold KiAssertMayBlock at 1. rewrite Hdepth. cbn [Z.eqb negb]. run.
  unfold get_thread. rewrite Hth. run. destruct (KiWaitAbortedForTermination th) eqn:Eterm.
  { cbn. split; [done|]. apply delay_terminating. by apply aborted_spec. }
  apply not_aborted_spec in Eterm.
  destruct (alertable && (userApcPending th || alerted th)) eqn:Ealert.
  { apply andb_true_iff in Ealert as [-> Hal]. unfold alert_now.
    destruct (userApcPending th) eqn:Eapc; cbn [returns]; (split; [by apply (alert_now_inv s th)|]).
    - by apply delay_apc.
    - by apply delay_alerted. }
  apply undisturbed_spec in Ealert.
  destruct (Z.eqb_spec interval 0) as [->|Hne].
  - apply returns_bind. eapply returns_mono.
    + apply (KiYield_exact s th); [apply Hinv|apply Hinv|done..].
    + intros s' (Hs' & Hc' & Hy). pose proof (yd_rest _ _ _ Hy) as Hsc. cbn [returns]. split; [|by apply delay_yield].
      eapply scheduled_inv; try done; apply Hinv.
  - assert (Hpark : returns (park_program s (KiCurrentThread s) [] (Some interval) alertable) (fun s' => ke_inv s' /\
      exists v sp, (forall d, Some interval = Some d -> v = KiComputeDueTime s d) /\
      parked s (KiCurrentThread s) th [] true alertable v sp /\ scheduled sp s')).
    { apply park_spec; try done.
      - apply (wait_blocks_ok _ th [] WaitAny true); try done. by right.
      - intros b Hb. by apply elem_of_nil in Hb. }
    rewrite park_program_nil, (alter_thread_eq s _ th) in Hpark by done.
    apply returns_alt in Hpark as (s' & E & Hinv' & v & sp & Hv & Hp & Hsc).
    apply bind_Ok in E as (s3 & E3 & E). rewrite E3. run. rewrite E. run. cbn [returns].
    split; [done|]. apply (delay_parked s th alertable interval sp); try done. by rewrite <- (Hv interval).
Qed.

(** C30. KeDelayExecutionThread never panics and keeps the invariant, and its
    outcome is the one whose conditions hold: a thread marked for termination
    (its rundown apart) is refused with the state as it was; otherwise an
    alertable delay ends at once on a pending user APC, which it marks for
    delivery, or on an alert, which it consumes; otherwise a zero interval
    succeeds after a yield, which puts the thread behind those of its level and
    runs the one the priority order then names; and any other interval parks the thread on its own
    timer alone, due where the clock says. *)
Theorem KeDelayExecutionThread_correct s th alertable interval :
  ke_inv s -> KiCurrentThread s <> KiIdleThread s -> KiNoBlockDepth s = 0 ->
  threads s !! KiCurrentThread s = Some th ->
  returns (KeDelayExecutionThread s alertable interval) (fun '(r, s') =>
    ke_inv s' /\ delay_outcome s th alertable interval r s').
Proof. apply delay_contract. Qed.
End wait_theorems.

(** ** Concrete calls *)

Lemma ex_wait_call objs : objs = [40; 43] \/ objs = [42; 40] -> wait_call ex_ke objs false.
Proof.
  intros Hobjs. split; try (destruct Hobjs as [->| ->]; done).
  - apply ex_ke_inv.
  - destruct Hobjs as [->| ->]; by right.
  - intros a Ha. destruct Hobjs as [->| ->];
      repeat (apply elem_of_cons in Ha as [->|Ha]; [by eexists|]); by apply elem_of_nil in Ha.
  - intros a Ha o Ho Hty How. destruct Hobjs as [->| ->];
      repeat (apply elem_of_cons in Ha as [->|Ha]; [by injection Ho as <-|]); by apply elem_of_nil in Ha.
Qed.

(** The running thread takes the free mutant out of [40; 43]: index 1. *)
Lemma KeWaitForMultipleObjects_correct_witness :
  (exists s', KeWaitForMultipleObjects ex_ke [40; 43] WaitAny false None false =
     Ok (WaitReturned (STATUS_WAIT_0 + 1), s') /\ ownerThread <$> objects s' !! 43 = Some 2) /\
  returns (KeWaitForMultipleObjects ex_ke [40; 43] WaitAny false None false)
    (fun '(r, s') => ke_inv s' /\
       wait_outcome ex_ke (ex_thread KI_THREAD_STATE_RUNNING 8 12 [] false [50]) [40; 43] WaitAny false None r s').
Proof.
  split.
  - eexists. split; [by vm_compute|]. by vm_compute.
  - exact (KeWaitForMultipleObjects_correct ex_ke _ [40; 43] WaitAny false None false
      (ex_wait_call [40; 43] (or_introl eq_refl)) eq_refl).
Defined.

(** A delay of 10 units parks the running thread; the idle thread runs. *)
Lemma KeDelayExecutionThread_correct_witness :
  (exists s', KeDelayExecutionThread ex_ke false (-10) = Ok (WaitParked, s') /\
     KiCurrentThread s' = 1 /\ KiTimerListHead s' = [12; 14; 60]) /\
  returns (KeDelayExecutionThread ex_ke false (-10)) (fun '(r, s') => ke_inv s').
Proof.
  split.
  - eexists. split; [by vm_compute|]. by vm_compute.
  - eapply returns_mono; [exact (KeDelayExecutionThread_correct ex_ke _ false (-10) ex_ke_inv
      ltac:(done) eq_refl eq_refl)|]. intros [r s'] [H _]. exact H.
Defined.
