(* ===== verification/KeEvent.v ===== *)
(** * KeEvent: events, semaphores and mutexes (kernel/ke/event.c, sema.c, mutex.c).

    Each operation is one lock hold: read the state, write the signal, test the
    waiters.  [KeInitialize*] work on the object's own memory, so they are
    functions on its contents. *)

From S2P Require Import Prelude NtStatus KeTypes KeSched KeWait KeInv KeCheck KeWaitSpec.

(** ** Events *)

Inductive EVENT_TYPE := NotificationEvent | SynchronizationEvent.

Definition is_event (ty : KI_OBJECT_TYPE) : bool :=
  match ty with
  | KI_OBJECT_NOTIFICATION_EVENT | KI_OBJECT_SYNCHRONIZATION_EVENT => true
  | _ => false
  end.

Definition KiAssertIsEvent (o : KOBJECT) : outcome unit := ASSERT (is_event (type o)) "KiAssertIsEvent".

Definition KeInitializeEvent (o : KOBJECT) (ty : EVENT_TYPE) (signalled : bool) : KOBJECT :=
  KiInitializeDispatcherHeader o
    (match ty with
     | NotificationEvent => KI_OBJECT_NOTIFICATION_EVENT
     | SynchronizationEvent => KI_OBJECT_SYNCHRONIZATION_EVENT
     end) (if signalled then 1 else 0).

Definition KiSetEventLocked (s : KSTATE) (event : addr) : outcome KSTATE :=
  o ← get_object s event;
  _ ← KiAssertIsEvent o;
  KiWaitTest (put_object s event (o <| signalState := 1 |>)) event.

Definition KiClearEventLocked (s : KSTATE) (event : addr) : outcome KSTATE :=
  o ← get_object s event;
  _ ← KiAssertIsEvent o;
  Ok (put_object s event (o <| signalState := 0 |>)).

Definition KeSetEvent (s : KSTATE) (event : addr) : outcome (Z * KSTATE) :=
  o ← get_object s event;
  _ ← KiAssertIsEvent o;
  s1 ← KiSetEventLocked s event;
  Ok (signalState o, s1).

Definition KiPulseEvent (s : KSTATE) (event : addr) : outcome (Z * KSTATE) :=
  o ← get_object s event;
  _ ← KiAssertIsEvent o;
  s1 ← KiWaitTest (put_object s event (o <| signalState := 1 |>)) event;
  o1 ← get_object s1 event;
  Ok (signalState o, put_object s1 event (o1 <| signalState := 0 |>)).

Definition KeResetEvent (s : KSTATE) (event : addr) : outcome (Z * KSTATE) :=
  o ← get_object s event;
  _ ← KiAssertIsEvent o;
  s1 ← KiClearEventLocked s event;
  Ok (signalState o, s1).

Definition KeClearEvent (s : KSTATE) (event : addr) : outcome KSTATE :=
  '(_, s1) ← KeResetEvent s event;
  Ok s1.

Definition KeReadStateEvent (s : KSTATE) (event : addr) : outcome Z :=
  o ← get_object s event;
  Ok (signalState o).

(** ** Event gates

    KiAcquireEventGate loops over two waits; [GateFirst] and [GateRundown] are
    the two program points at which a wait's status comes back. *)
Definition KI_OBLIGATION_GATE : string := "gate".

Inductive gate_phase := GateFirst | GateRundown.

Inductive gate_result :=
  | GateHeld
  | GateWait (next : gate_phase).

#[export] Instance gate_phase_eq_dec : EqDecision gate_phase.
Proof. solve_decision. Defined.
#[export] Instance gate_result_eq_dec : EqDecision gate_result.
Proof. solve_decision. Defined.

Definition KiAcquireEventGate_status (s : KSTATE) (event : addr) (phase : gate_phase) (status : NTSTATUS)
    : outcome (gate_result * KSTATE) :=
  let thread := KiCurrentThread s in
  t ← get_thread s thread;
  match phase with
  | GateFirst =>
      if status =? STATUS_SUCCESS then
        s1 ← KiPushObligation s KI_OBLIGATION_GATE event;
        Ok (GateHeld, s1)
      else
        _ ← ASSERT (status =? STATUS_THREAD_IS_TERMINATING) "KiAcquireEventGate";
        _ ← ASSERT (negb (rundownWait t)) "gates never nest";
        Ok (GateWait GateRundown, put_thread s thread (t <| rundownWait := true |>))
  | GateRundown =>
      let s1 := put_thread s thread (t <| rundownWait := false |>) in
      if status =? STATUS_SUCCESS then
        s2 ← KiPushObligation s1 KI_OBLIGATION_GATE event;
        Ok (GateHeld, s2)
      else Ok (GateWait GateFirst, s1)
  end.

(** One wait of the gate and what its immediate status leads to; [None] when
    the thread parked. *)
Definition KiAcquireEventGate_step (s : KSTATE) (event : addr) (phase : gate_phase)
    : outcome (option gate_result * KSTATE) :=
  o ← get_object s event;
  _ ← ASSERT (bool_decide (type o = KI_OBJECT_SYNCHRONIZATION_EVENT)) "KiAcquireEventGate";
  '(r, s1) ← KeWaitForSingleObject s event false None;
  match r with
  | WaitParked => Ok (None, s1)
  | WaitReturned status =>
      '(g, s2) ← KiAcquireEventGate_status s1 event phase status;
      Ok (Some g, s2)
  end.

Definition KiReleaseEventGate (s : KSTATE) (event : addr) : outcome KSTATE :=
  o ← get_object s event;
  _ ← ASSERT (bool_decide (type o = KI_OBJECT_SYNCHRONIZATION_EVENT)) "KiReleaseEventGate";
  _ ← ASSERT (signalState o =? 0) "held: release must pair";
  s1 ← KiPopObligation s KI_OBLIGATION_GATE event;
  '(_, s2) ← KeSetEvent s1 event;
  Ok s2.

(** ** Semaphores *)

Definition KeInitializeSemaphore (o : KOBJECT) (count lim : Z) : outcome KOBJECT :=
  if (count <? 0) || (lim <? 1) || (lim <? count)
  then Panic "KeInitializeSemaphore: invalid count/limit"
  else Ok (KiInitializeDispatcherHeader o KI_OBJECT_SEMAPHORE count <| limit := lim |>).

(** [previous + count] in LONG: an overflow is undefined, and traps. *)
Definition KeReleaseSemaphore (s : KSTATE) (semaphore : addr) (count : Z) : outcome (Z * KSTATE) :=
  o ← get_object s semaphore;
  _ ← ASSERT (bool_decide (type o = KI_OBJECT_SEMAPHORE)) "KeReleaseSemaphore";
  let previous := signalState o in
  if count <? 1 then Panic "KeReleaseSemaphore: limit exceeded (STATUS_SEMAPHORE_LIMIT_EXCEEDED)"
  else if 2 ^ 31 <=? previous + count then Fault "signed overflow"
  else if (limit o <? previous + count) || (previous + count <? previous)
  then Panic "KeReleaseSemaphore: limit exceeded (STATUS_SEMAPHORE_LIMIT_EXCEEDED)"
  else
    s1 ← KiWaitTest (put_object s semaphore (o <| signalState := previous + count |>)) semaphore;
    Ok (previous, s1).

(** ** Mutexes *)

Definition KeInitializeMutex (o : KOBJECT) : KOBJECT :=
  KiInitializeDispatcherHeader o KI_OBJECT_MUTANT 1
    <| ownerThread := 0 |> <| abandoned := false |> <| apcDisable := true |>.

Definition KeReleaseMutex (s : KSTATE) (mutex : addr) : outcome (Z * KSTATE) :=
  KiReleaseMutant s mutex false.

(** ** What they guarantee *)

Section events.
Implicit Types (s : KSTATE) (t a x : Z) (th : KTHREAD) (o : KOBJECT) (b : KWAIT_BLOCK).

(** No thread is parked on [a] in a wait [a] alone could complete. *)
Definition no_single_waiter s a : Prop :=
  forall t th b, threads s !! t = Some th -> b ∈ all_blocks t th -> blockObject b = a -> waitType b = WaitAll.

Lemma quiet_no_single_waiter s a o :
  quiet s -> objects s !! a = Some o -> 0 < signalState o -> no_single_waiter s a.
Proof.
  intros Hq Ho Hs t th b Hth Hb Ha. destruct (waitType b) eqn:E; [done|]. exfalso.
  apply (Hq t th b Hth Hb). unfold ready_block. rewrite E, Ha. exists o. split; [done|].
  unfold KiIsSatisfiable. by destruct (Z.ltb_spec 0 (signalState o)); [|lia].
Qed.

Lemma is_event_cases o : is_event (type o) = true ->
  type o = KI_OBJECT_NOTIFICATION_EVENT \/ type o = KI_OBJECT_SYNCHRONIZATION_EVENT.
Proof. destruct (type o); simpl; auto; discriminate. Qed.

(** Who is released by raising the signal of [a] to [v]. *)
Lemma signals_spent_put s s' a o v l :
  signals_spent a l (put_object s a (o <| signalState := v |>)) s' ->
  objects s !! a = Some o ->
  woken (type o) a l s s' /\ exists o', objects s' !! a = Some o' /\
    signalState o' = Nat.iter (length l) (signal_after (type o)) v /\
    forall k, (k < length l)%nat -> 0 < Nat.iter k (signal_after (type o)) v.
Proof.
  intros (o1 & o' & Hw & Ho1 & Ho' & Hend & Hall) Ho.
  simpl in Ho1. rewrite lookup_insert_eq in Ho1. injection Ho1 as <-. split; [done|]. by exists o'.
Qed.

Lemma iter_stay (v : Z) n : Nat.iter n (fun v : Z => v) v = v.
Proof. induction n; simpl; auto. Qed.

Lemma set_event_spec s a o :
  ke_inv s -> objects s !! a = Some o -> is_event (type o) = true ->
  returns (KiWaitTest (put_object s a (o <| signalState := 1 |>)) a) (fun s' =>
    ke_inv s' /\ tested (put_object s a (o <| signalState := 1 |>)) s' /\
    exists l o', woken (type o) a l s s' /\ objects s' !! a = Some o' /\
      match type o with
      | KI_OBJECT_SYNCHRONIZATION_EVENT =>
          (l = [] /\ signalState o' = 1 /\ no_single_waiter s' a) \/
          (length l = 1%nat /\ signalState o' = 0)
      | _ => signalState o' = 1 /\ no_single_waiter s' a
      end).
Proof.
  intros Hinv Ho Hty. eapply returns_mono.
  - apply (signal_then_test s a o 1 Hinv Ho).
    + by destruct (is_event_cases _ Hty) as [->| ->].
    + split; simpl; [by destruct (is_event_cases _ Hty) as [->| ->]|done].
    + done.
  - intros s' (Hinv' & Ht & l & Hl). split; [done|]. split; [done|].
    destruct (signals_spent_put _ _ _ _ _ _ Hl Ho) as (Hw & o' & Ho' & Hend & Hall).
    exists l, o'. split; [done|]. split; [done|].
    destruct (is_event_cases _ Hty) as [E|E]; rewrite E in *; cbn [signal_after] in *.
    + rewrite iter_stay in Hend. split; [done|].
      eapply quiet_no_single_waiter; [apply Hinv'|done|lia].
    + destruct l as [|t l]; [left|right].
      * split_and!; [done..|]. eapply quiet_no_single_waiter; [apply Hinv'|done|].
        rewrite Hend. simpl. lia.
      * destruct l as [|t2 l]; [done|]. specialize (Hall 1%nat ltac:(simpl; lia)). simpl in Hall. lia.
Qed.

Lemma set_event_contract s a o :
  ke_inv s -> objects s !! a = Some o -> is_event (type o) = true ->
  returns (KeSetEvent s a) (fun '(previous, s') =>
    previous = signalState o /\ ke_inv s' /\
    exists l o', woken (type o) a l s s' /\ objects s' !! a = Some o' /\
      match type o with
      | KI_OBJECT_SYNCHRONIZATION_EVENT =>
          (l = [] /\ signalState o' = 1 /\ no_single_waiter s' a) \/
          (length l = 1%nat /\ signalState o' = 0)
      | _ => signalState o' = 1 /\ no_single_waiter s' a
      end).
Proof.
  intros Hinv Ho Hty. unfold KeSetEvent, KiSetEventLocked, KiAssertIsEvent, get_object.
  rewrite Ho. run. rewrite Hty. run.
  apply returns_bind. eapply returns_mono; [by apply set_event_spec|].
  intros s' (Hinv' & _ & Hl). cbn [returns]. done.
Qed.

(** C26. KeSetEvent never panics and keeps the dispatcher invariant.  A
    notification event stays signalled and leaves no wait parked that it could
    complete alone; a synchronization event releases exactly one thread and
    resets, or, when there was nobody to release, stays signalled. *)
Theorem KeSetEvent_correct s a o :
  ke_inv s -> objects s !! a = Some o -> is_event (type o) = true ->
  returns (KeSetEvent s a) (fun '(previous, s') =>
    previous = signalState o /\ ke_inv s' /\
    exists l o', woken (type o) a l s s' /\ objects s' !! a = Some o' /\
      match type o with
      | KI_OBJECT_SYNCHRONIZATION_EVENT =>
          (l = [] /\ signalState o' = 1 /\ no_single_waiter s' a) \/
          (length l = 1%nat /\ signalState o' = 0)
      | _ => signalState o' = 1 /\ no_single_waiter s' a
      end).
Proof. apply set_event_contract. Qed.

Lemma clear_event_inv s a o :
  ke_inv s -> objects s !! a = Some o -> is_event (type o) = true ->
  ke_inv (put_object s a (o <| signalState := 0 |>)).
Proof.
  intros Hinv Ho Hty. pose proof (oi_object _ (kb_object _ _ (proj1 (ki_core _ Hinv))) _ _ Ho) as [_ Hf].
  apply lower_signal; try done; try (by destruct (is_event_cases _ Hty) as [->| ->]).
  - split; simpl; [by destruct (is_event_cases _ Hty) as [->| ->]|done].
  - destruct (is_event_cases _ Hty) as [E|E]; rewrite E in Hf; destruct Hf; done.
Qed.

(** Were the event [a] signalled now, it would complete no wait, alone or with
    others: the threads still parked are those the signal could not release. *)
Definition nobody_wanted s a o : Prop :=
  quiet (put_object s a (o <| signalState := 1 |>)) /\ no_single_waiter s a.

Lemma nobody_wanted_reset s a o :
  ke_inv s -> objects s !! a = Some o -> signalState o = 1 -> no_single_waiter s a ->
  nobody_wanted (put_object s a (o <| signalState := 0 |>)) a (o <| signalState := 0 |>).
Proof.
  intros Hinv Ho Hs Hno. split; [|done].
  assert (E : put_object (put_object s a (o <| signalState := 0 |>)) a
    (o <| signalState := 0 |> <| signalState := 1 |>) = s).
  { assert (Eo : o <| signalState := 0 |> <| signalState := 1 |> = o) by (destruct o; simpl in *; by subst).
    rewrite Eo. unfold put_object. simpl. rewrite insert_insert_eq, (insert_id _ _ _ Ho). by destruct s. }
  rewrite E. apply (ki_quiet _ Hinv).
Qed.

Lemma reset_pulse_contract s a o :
  ke_inv s -> objects s !! a = Some o -> is_event (type o) = true ->
  KeResetEvent s a = Ok (signalState o, put_object s a (o <| signalState := 0 |>)) /\
  ke_inv (put_object s a (o <| signalState := 0 |>)) /\
  returns (KiPulseEvent s a) (fun '(previous, s') =>
    previous = signalState o /\ ke_inv s' /\
    exists l o', woken (type o) a l s s' /\ objects s' !! a = Some o' /\ signalState o' = 0 /\
      match type o with
      | KI_OBJECT_SYNCHRONIZATION_EVENT => length l = 1%nat \/ (l = [] /\ nobody_wanted s' a o')
      | _ => nobody_wanted s' a o'
      end).
Proof.
  intros Hinv Ho Hty. split_and!.
  - unfold KeResetEvent, KiClearEventLocked, KiAssertIsEvent, get_object.
    rewrite Ho. run. by rewrite Hty.
  - by apply clear_event_inv.
  - unfold KiPulseEvent, KiAssertIsEvent, get_object. rewrite Ho. run. rewrite Hty. run.
    apply returns_bind. eapply returns_mono; [by apply set_event_spec|].
    intros s' (Hinv' & Ht & l & o' & Hw & Ho' & Hcases). rewrite Ho'. run. cbn [returns].
    destruct (tested_object_at _ _ a (o <| signalState := 1 |>) Ht) as (o2 & Ho2 & Hto);
      [simpl; by rewrite lookup_insert_eq|].
    assert (o2 = o') as -> by congruence.
    assert (Hty' : is_event (type o') = true) by (by rewrite (to_type _ _ Hto)).
    split_and!; [done|by apply clear_event_inv|].
    exists l, (o' <| signalState := 0 |>). split_and!; [exact Hw|simpl; by rewrite lookup_insert_eq|done|].
    destruct (is_event_cases _ Hty) as [E|E]; rewrite E in *.
    + apply nobody_wanted_reset; naive_solver.
    + destruct Hcases as [(-> & ? & ?)|[? _]]; [right|by left].
      split; [done|]. by apply nobody_wanted_reset.
Qed.

(** C31. Resetting an event reports the old state and clears the signal, and
    changes nothing else.  Pulsing reports the old state, leaves the event reset
    and wakes whom the signal could release in between: a synchronization event
    wakes exactly one thread, or none because nobody could be released; after a
    pulsed notification event the threads still parked are those the signal
    could not have completed.  Both keep the dispatcher invariant. *)
Theorem KeResetEvent_KiPulseEvent_correct s a o :
  ke_inv s -> objects s !! a = Some o -> is_event (type o) = true ->
  KeResetEvent s a = Ok (signalState o, put_object s a (o <| signalState := 0 |>)) /\
  ke_inv (put_object s a (o <| signalState := 0 |>)) /\
  returns (KiPulseEvent s a) (fun '(previous, s') =>
    previous = signalState o /\ ke_inv s' /\
    exists l o', woken (type o) a l s s' /\ objects s' !! a = Some o' /\ signalState o' = 0 /\
      match type o with
      | KI_OBJECT_SYNCHRONIZATION_EVENT => length l = 1%nat \/ (l = [] /\ nobody_wanted s' a o')
      | _ => nobody_wanted s' a o'
      end).
Proof. apply reset_pulse_contract. Qed.

Lemma iter_pred n (v : Z) : Nat.iter n (fun v : Z => v - 1) v = v - Z.of_nat n.
Proof. induction n; simpl; lia. Qed.

Lemma release_semaphore_contract s a o count :
  ke_inv s -> objects s !! a = Some o -> type o = KI_OBJECT_SEMAPHORE -> signalState o + count < 2 ^ 31 ->
  if (1 <=? count) && (signalState o + count <=? limit o)
  then returns (KeReleaseSemaphore s a count) (fun '(previous, s') =>
    previous = signalState o /\ ke_inv s' /\
    exists l o', woken (type o) a l s s' /\ objects s' !! a = Some o' /\
      signalState o' + Z.of_nat (length l) = signalState o + count /\ 0 <= signalState o' /\
      (0 < signalState o' -> no_single_waiter s' a))
  else exists why, KeReleaseSemaphore s a count = Panic why.
Proof.
  intros Hinv Ho Hty Hov. unfold KeReleaseSemaphore, get_object. rewrite Ho. run.
  rewrite (bool_decide_eq_true_2 _ Hty). run.
  pose proof (oi_object _ (kb_object _ _ (proj1 (ki_core _ Hinv))) _ _ Ho) as [Hsem _].
  specialize (Hsem Hty).
  destruct (Z.leb_spec 1 count); cbn [andb]; [|by rewrite (proj2 (Z.ltb_lt count 1)) by lia; eauto].
  rewrite (proj2 (Z.ltb_ge count 1)) by lia. rewrite (proj2 (Z.leb_gt (2 ^ 31) _)) by lia.
  rewrite (proj2 (Z.ltb_ge _ (signalState o))) by lia. rewrite orb_false_r.
  destruct (Z.leb_spec (signalState o + count) (limit o)).
  - rewrite (proj2 (Z.ltb_ge (limit o) _)) by lia.
    apply returns_bind. eapply returns_mono.
    + apply (signal_then_test s a o (signalState o + count) Hinv Ho); try congruence.
      split; simpl; [intros _; lia|congruence].
    + intros s' (Hinv' & Ht & l & Hl). cbn [returns]. split; [done|]. split; [done|].
      destruct (signals_spent_put _ _ _ _ _ _ Hl Ho) as (Hw & o' & Ho' & Hend & _).
      rewrite Hty in Hend. cbn [signal_after] in Hend. rewrite iter_pred in Hend.
      destruct (tested_object_at _ _ a (o <| signalState := signalState o + count |>) Ht) as (o2 & Ho2 & Hto);
        [simpl; by rewrite lookup_insert_eq|].
      assert (o2 = o') as -> by congruence.
      pose proof (oi_object _ (kb_object _ _ (proj1 (ki_core _ Hinv'))) _ _ Ho') as [Hsem' _].
      specialize (Hsem' ltac:(by rewrite (to_type _ _ Hto))).
      exists l, o'. split_and!; [done|done|lia|lia|].
      intros Hpos. eapply quiet_no_single_waiter; [apply Hinv'|done..].
  - rewrite (proj2 (Z.ltb_lt (limit o) _)) by lia. eauto.
Qed.

(** C24. Releasing a semaphore keeps the dispatcher invariant and conserves its
    count: every unit released is either still on the semaphore or was taken by
    exactly one of the threads woken, and units remain only when no parked
    thread could take one alone.  Asking for more than the limit, or for
    nothing, panics. *)
Theorem KeReleaseSemaphore_correct s a o count :
  ke_inv s -> objects s !! a = Some o -> type o = KI_OBJECT_SEMAPHORE -> signalState o + count < 2 ^ 31 ->
  if (1 <=? count) && (signalState o + count <=? limit o)
  then returns (KeReleaseSemaphore s a count) (fun '(previous, s') =>
    previous = signalState o /\ ke_inv s' /\
    exists l o', woken (type o) a l s s' /\ objects s' !! a = Some o' /\
      signalState o' + Z.of_nat (length l) = signalState o + count /\ 0 <= signalState o' /\
      (0 < signalState o' -> no_single_waiter s' a))
  else exists why, KeReleaseSemaphore s a count = Panic why.
Proof. apply release_semaphore_contract. Qed.

Lemma freed_cur s t th m o' :
  cur_inv s -> threads s !! t = Some th -> cur_inv (freed s t th m o').
Proof.
  intros [(th0 & Hth0 & Hst0) Honly] Hth. split; simpl.
  - destruct (decide (KiCurrentThread s = t)) as [E|].
    + rewrite E, lookup_insert_eq. eexists. split; [done|]. simpl. congruence.
    + rewrite lookup_insert_ne by done. by exists th0.
  - intros x thx. destruct (decide (x = t)) as [->|].
    + rewrite lookup_insert_eq. intros [= <-]. simpl. by apply Honly.
    + rewrite lookup_insert_ne by done. apply Honly.
Qed.

Lemma tested_clock s s' : tested s s' -> clock_inv s -> clock_inv s'.
Proof. intros [_ _ _ _ E] H. rewrite E. exact H. Qed.

Lemma KiReleaseMutant_inv s m o (abandon : bool) :
  ke_inv s -> objects s !! m = Some o -> type o = KI_OBJECT_MUTANT ->
  ownerThread o = KiCurrentThread s -> ownerThread o <> 0 ->
  returns (KiReleaseMutant s m abandon) (fun '(previous, s') =>
    previous = signalState o /\ ke_inv s' /\
    exists th, threads s !! ownerThread o = Some th /\ m ∈ mutantListHead th /\
      released s abandon (ownerThread o) th m o s').
Proof.
  intros [Hc Hq Hcur Hclk] Ho Hty How Hn0.
  eapply returns_mono; [by apply (KiReleaseMutant_spec s m o abandon)|].
  intros [previous s'] (Hp & Hc' & Hq' & th & Hth & Hin & Hrel). split; [done|].
  split; [|by exists th]. unfold released in Hrel. destruct (abandon || _).
  - destruct Hrel as (Ht & _). split; try done.
    + eapply cur_inv_tested; [done|]. by apply freed_cur.
    + by eapply tested_clock.
  - subst s'. by split.
Qed.

(** Whoever owns a mutant after its release was woken by it. *)
Lemma new_owner_woken s s' t th m o oF o' l :
  ke_inv s -> ke_inv s' -> objects s !! m = Some o -> type o = KI_OBJECT_MUTANT -> ownerThread o = t ->
  threads s !! t = Some th -> woken KI_OBJECT_MUTANT m l (freed s t th m oF) s' ->
  objects s' !! m = Some o' -> type o' = KI_OBJECT_MUTANT -> ownerThread o' <> 0 -> ownerThread o' ∈ l.
Proof.
  intros Hinv Hinv' Ho Hty How Hth (_ & Hsame & _) Ho' Hty' Hn0.
  destruct (mutant_owned s' m o' (kb_mutant _ _ (proj1 (ki_core _ Hinv'))) Ho' Hty' Hn0) as (_ & u & Hu & Hin).
  destruct (decide (ownerThread o' ∈ l)) as [|Hnot]; [done|]. exfalso.
  rewrite (Hsame _ Hnot) in Hu. unfold freed in Hu. simpl in Hu.
  destruct (decide (ownerThread o' = t)) as [E|Hne].
  - rewrite E, lookup_insert_eq in Hu. injection Hu as <-. simpl in Hin. rewrite elem_of_unlink in Hin. naive_solver.
  - rewrite lookup_insert_ne in Hu by done.
    destruct (mi_list _ (kb_mutant _ _ (proj1 (ki_core _ Hinv))) _ _ _ Hu Hin) as (o2 & ? & _ & ?). congruence.
Qed.

(** C25. Releasing a mutex the current thread owns keeps the dispatcher
    invariant and reports the old state.  An inner release of a recursive
    acquisition only moves the count towards zero, and nothing else changes.  The
    outermost one frees the mutex and takes it off the owner's list; from that
    state either nobody is woken, the mutex stays free and no parked thread could
    take it alone, or exactly one waiter is woken and owns it.  A thread that does
    not own it panics. *)
Theorem KeReleaseMutex_correct s m o :
  ke_inv s -> objects s !! m = Some o -> type o = KI_OBJECT_MUTANT -> ownerThread o <> 0 ->
  if ownerThread o =? KiCurrentThread s
  then returns (KeReleaseMutex s m) (fun '(previous, s') =>
    previous = signalState o /\ ke_inv s' /\
    if signalState o <? 0
    then s' = put_object s m (o <| signalState := signalState o + 1 |>)
    else exists th l o', threads s !! KiCurrentThread s = Some th /\ m ∈ mutantListHead th /\
      (let sf := put_thread (put_object s m (o <| signalState := 1 |> <| ownerThread := 0 |>))
                   (KiCurrentThread s) (th <| mutantListHead := unlink m (mutantListHead th) |>) in
       woken KI_OBJECT_MUTANT m l sf s' /\ tested sf s') /\
      objects s' !! m = Some o' /\
      ((l = [] /\ signalState o' = 1 /\ ownerThread o' = 0 /\ no_single_waiter s' m) \/
       (exists t, l = [t] /\ signalState o' = 0 /\ ownerThread o' = t)))
  else exists why, KeReleaseMutex s m = Panic why.
Proof.
  intros Hinv Ho Hty Hn0. destruct (Z.eqb_spec (ownerThread o) (KiCurrentThread s)) as [How|How].
  - eapply returns_mono; [by apply (KiReleaseMutant_inv s m o false)|].
    intros [previous s'] (Hp & Hinv' & th & Hth & Hin & Hrel). split; [done|]. split; [done|].
    destruct (mutant_owned s m o (kb_mutant _ _ (proj1 (ki_core _ Hinv))) Ho Hty Hn0) as (Hrange & _).
    unfold released in Hrel. cbn [orb] in Hrel.
    destruct (Z.ltb_spec (signalState o) 0).
    + by rewrite (proj2 (Z.eqb_neq (signalState o) 0)) in Hrel by lia.
    + rewrite (proj2 (Z.eqb_eq (signalState o) 0)) in Hrel by lia.
      destruct Hrel as (Ht & l & o2 & o3 & Hw & Ho2 & Ho3 & Hend & Hall).
      assert (o2 = free_mutant false o) as ->.
      { unfold freed in Ho2. simpl in Ho2. rewrite lookup_insert_eq in Ho2. congruence. }
      change (type (free_mutant false o)) with (type o) in Hw, Hend, Hall. rewrite Hty in Hw, Hend, Hall.
      cbn [signal_after] in Hend, Hall. rewrite iter_pred in Hend. simpl in Hend.
      assert (Hty3 : type o3 = KI_OBJECT_MUTANT).
      { destruct (tested_object_at _ _ m _ Ht Ho2) as (o4 & Ho4 & Hto). rewrite Ho3 in Ho4. injection Ho4 as <-.
        by rewrite (to_type _ _ Hto). }
      pose proof (new_owner_woken s s' _ th m o _ o3 l Hinv Hinv' Ho Hty eq_refl Hth Hw Ho3 Hty3) as Hnew.
      destruct (mi_object _ (kb_mutant _ _ (proj1 (ki_core _ Hinv'))) m o3 Ho3 Hty3) as [Hfree _].
      assert (Efree : free_mutant false o = o <| signalState := 1 |> <| ownerThread := 0 |>) by (by destruct o).
      rewrite <- How. exists th, l, o3. split_and!; [done|done|by rewrite <- Efree|done|].
      destruct l as [|t l]; [left|right].
      * simpl in Hend. split_and!; [done|lia| |].
        -- destruct (decide (ownerThread o3 = 0)) as [|Hn]; [done|]. by apply Hnew, elem_of_nil in Hn.
        -- eapply quiet_no_single_waiter; [apply Hinv'|done|]. lia.
      * destruct l as [|t2 l].
        -- simpl in Hend. exists t. split_and!; [done|lia|]. apply list_elem_of_singleton, Hnew.
           intros E. specialize (Hfree E). lia.
        -- specialize (Hall 1%nat ltac:(simpl; lia)). simpl in Hall. lia.
  - unfold KeReleaseMutex, KiReleaseMutant, get_object. rewrite Ho. run.
    rewrite (bool_decide_eq_true_2 _ Hty). run.
    rewrite (proj2 (Z.eqb_neq (ownerThread o) (KiCurrentThread s))) by done. run. eauto.
Qed.

(** *** Gates *)

Lemma wait_free_gate s a o th :
  KiNoBlockDepth s = 0 -> threads s !! KiCurrentThread s = Some th -> KiWaitAbortedForTermination th = false ->
  objects s !! a = Some o -> type o = KI_OBJECT_SYNCHRONIZATION_EVENT -> signalState o = 1 ->
  KeWaitForSingleObject s a false None =
    Ok (WaitReturned STATUS_SUCCESS, put_object s a (o <| signalState := 0 |>)).
Proof.
  intros Hd Hth Hab Ho Hty Hs. unfold KeWaitForSingleObject, KeWaitForMultipleObjects, KiAssertMayBlock.
  rewrite Hd. cbn [Z.eqb negb]. run. cbn [length Z.of_nat]. cbn -[get_thread satisfy_now].
  unfold get_thread. rewrite Hth. run. rewrite Hab. unfold satisfy_now, first_satisfiable, get_object.
  rewrite Ho. run. unfold KiIsSatisfiable. rewrite Hs. cbn [Z.ltb Z.compare orb]. run.
  unfold KiSatisfyObject, get_object. rewrite Ho. run. rewrite Hty. run. destruct o; simpl in *; by subst.
Qed.

Lemma wait_refused_gate s a th :
  KiNoBlockDepth s = 0 -> threads s !! KiCurrentThread s = Some th -> KiWaitAbortedForTermination th = true ->
  KeWaitForSingleObject s a false None = Ok (WaitReturned STATUS_THREAD_IS_TERMINATING, s).
Proof.
  intros Hd Hth Hab. unfold KeWaitForSingleObject, KeWaitForMultipleObjects, KiAssertMayBlock.
  rewrite Hd. cbn [Z.eqb negb]. run. cbn [length Z.of_nat]. cbn -[get_thread satisfy_now].
  unfold get_thread. rewrite Hth. run. by rewrite Hab.
Qed.

Lemma gate_refused s a th :
  threads s !! KiCurrentThread s = Some th -> rundownWait th = false ->
  KiAcquireEventGate_status s a GateFirst STATUS_THREAD_IS_TERMINATING =
    Ok (GateWait GateRundown, put_thread s (KiCurrentThread s) (th <| rundownWait := true |>)).
Proof. intros Hth Hrd. unfold KiAcquireEventGate_status, get_thread. rewrite Hth. run. by rewrite Hrd. Qed.

Lemma gate_taken s a th phase :
  threads s !! KiCurrentThread s = Some th -> Z.of_nat (length (obligations th)) < KI_MAX_OBLIGATIONS ->
  KiAcquireEventGate_status s a phase STATUS_SUCCESS =
    Ok (GateHeld, put_thread s (KiCurrentThread s)
      (th <| rundownWait := match phase with GateFirst => rundownWait th | GateRundown => false end |>
          <| obligations := mkKI_OBLIGATION KI_OBLIGATION_GATE a :: obligations th |>)).
Proof.
  intros Hth Hob. apply Z.leb_gt in Hob.
  unfold KiAcquireEventGate_status, KiPushObligation, get_thread. rewrite Hth. run.
  destruct phase; replace (STATUS_SUCCESS =? STATUS_SUCCESS) with true by done.
  - run. rewrite Hob. by destruct th.
  - simpl threads. rewrite lookup_insert_eq. run. cbn [obligations set_field]. simpl obligations.
    rewrite Hob. run. f_equal. f_equal. by rewrite put_thread_put_thread.
Qed.

Lemma obligations_inv s th l :
  ke_inv s -> threads s !! KiCurrentThread s = Some th ->
  ke_inv (put_thread s (KiCurrentThread s) (th <| obligations := l |>)).
Proof. intros Hinv Hth. by apply (alert_now_inv s th). Qed.

Lemma release_gate_spec s a o th l :
  ke_inv s -> objects s !! a = Some o -> type o = KI_OBJECT_SYNCHRONIZATION_EVENT -> signalState o = 0 ->
  threads s !! KiCurrentThread s = Some th -> obligations th = mkKI_OBLIGATION KI_OBLIGATION_GATE a :: l ->
  returns (KiReleaseEventGate s a) (fun s' => ke_inv s' /\ KiCurrentThread s' = KiCurrentThread s /\
    threads s' !! KiCurrentThread s = Some (th <| obligations := l |>) /\
    exists w o', woken (type o) a w (put_thread s (KiCurrentThread s) (th <| obligations := l |>)) s' /\
      objects s' !! a = Some o' /\
      ((w = [] /\ signalState o' = 1 /\ no_single_waiter s' a) \/
       (length w = 1%nat /\ signalState o' = 0))).
Proof.
  intros Hinv Ho Hty Hs Hth Hob. unfold KiReleaseEventGate, get_object. rewrite Ho. run.
  rewrite (bool_decide_eq_true_2 _ Hty), Hs. run. cbn [Z.eqb]. run.
  unfold KiPopObligation, get_thread. rewrite Hth. run. rewrite Hob. cbn [obligationName obligationObject].
  rewrite bool_decide_eq_false_2, Z.eqb_refl by naive_solver. run.
  set (sp := put_thread s (KiCurrentThread s) (th <| obligations := l |>)).
  assert (Hsp : ke_inv sp) by (by apply obligations_inv).
  assert (Hty' : is_event (type o) = true) by (by rewrite Hty).
  unfold KeSetEvent, KiSetEventLocked, KiAssertIsEvent, get_object.
  change (objects sp) with (objects s). rewrite Ho. run. rewrite Hty'. run.
  apply returns_bind. apply returns_bind. eapply returns_mono; [by apply set_event_spec|].
  intros s' (Hinv' & Ht & w & o' & Hw & Ho' & Hcase). cbn [returns]. split; [done|].
  pose proof (te_rest _ _ Ht) as E. split; [by rewrite E|]. split.
  - apply (tested_thread_same _ _ _ _ Ht); [simpl; by rewrite lookup_insert_eq|]. simpl.
    destruct (current_thread s Hinv) as (th0 & ? & ?). congruence.
  - rewrite Hty in Hcase. by exists w, o'.
Qed.

Lemma woken_from ty a l s1 s s' : threads s1 = threads s -> woken ty a l s1 s' -> woken ty a l s s'.
Proof. intros E. unfold woken, wakes. by rewrite E. Qed.

End events.

(** ** Concrete calls on [ex_ke] *)

(** Setting event 40 completes thread 3's wait-all on 40 and 41. *)
Lemma KeSetEvent_correct_witness :
  (exists s', KeSetEvent ex_ke 40 = Ok (0, s') /\ state <$> threads s' !! 3 = Some KI_THREAD_STATE_READY /\
     signalState <$> objects s' !! 41 = Some 0) /\
  returns (KeSetEvent ex_ke 40) (fun '(previous, s') => previous = 0 /\ ke_inv s').
Proof.
  split.
  - eexists. split; [by vm_compute|]. by vm_compute.
  - eapply returns_mono; [exact (KeSetEvent_correct ex_ke 40
      (ex_object KI_OBJECT_SYNCHRONIZATION_EVENT 0 [block3a; block4]) ex_ke_inv eq_refl eq_refl)|].
    intros [previous s'] (-> & H & _). split; [reflexivity|exact H].
Defined.

Lemma KeResetEvent_KiPulseEvent_correct_witness :
  returns (KiPulseEvent ex_ke 40) (fun '(previous, s') => previous = 0 /\ ke_inv s').
Proof.
  eapply returns_mono; [exact (proj2 (proj2 (KeResetEvent_KiPulseEvent_correct ex_ke 40
      (ex_object KI_OBJECT_SYNCHRONIZATION_EVENT 0 [block3a; block4]) ex_ke_inv eq_refl eq_refl)))|].
  intros [previous s'] (-> & H & _). split; [reflexivity|exact H].
Defined.

(** Three more units make 4 of 5 on semaphore 41; five more panic. *)
Lemma KeReleaseSemaphore_correct_witness :
  returns (KeReleaseSemaphore ex_ke 41 3) (fun '(previous, s') => previous = 1 /\ ke_inv s') /\
  exists why, KeReleaseSemaphore ex_ke 41 5 = Panic why.
Proof.
  split.
  - eapply returns_mono; [exact (KeReleaseSemaphore_correct ex_ke 41
      (ex_object KI_OBJECT_SEMAPHORE 1 [block3b]) 3 ex_ke_inv eq_refl eq_refl eq_refl)|].
    intros [previous s'] (-> & H & _). split; [reflexivity|exact H].
  - exact (KeReleaseSemaphore_correct ex_ke 41 (ex_object KI_OBJECT_SEMAPHORE 1 [block3b]) 5
      ex_ke_inv eq_refl eq_refl eq_refl).
Defined.

Lemma KeReleaseMutex_correct_witness :
  returns (KeReleaseMutex ex_ke 50) (fun '(previous, s') => previous = 0 /\ ke_inv s').
Proof.
  eapply returns_mono; [exact (KeReleaseMutex_correct ex_ke 50
      (ex_object KI_OBJECT_MUTANT 0 [] <| ownerThread := 2 |>) ex_ke_inv eq_refl eq_refl ltac:(done))|].
  intros [previous s'] (-> & H & _). split; [reflexivity|exact H].
Defined.

(** [ex_ke] with a free gate, 44. *)
Definition ex_gate : KSTATE := put_object ex_ke 44 (ex_object KI_OBJECT_SYNCHRONIZATION_EVENT 1 []).

Lemma ex_gate_inv : ke_inv ex_gate.
Proof. apply ke_ok_inv. vm_compute_decide. Qed.

