(* ===== verification/KeTimer.v ===== *)
(** * KeTimer: timers and the clock (kernel/ke/timer.c, irq.c).

    The queue's own operations are in KeWait.v, where timed waits arm it.  A
    function that reads the time stamp counter takes the value read.  The
    device drain at the end of a tick is the sequence of request events the
    devices completed: the drivers' own work is not Ke's. *)

From S2P Require Import Prelude NtStatus KeTypes KeSched KeWait KeInv KeCheck KeWaitSpec KeEvent.

Definition KI_100NS_PER_TICK : Z := 10000.
Definition KI_MAX_FRACTION_TICKS : Z := 40.
Definition KI_MAX_CATCHUP_TICKS : Z := 1000.

(** ** The clocks *)

Definition KiInitializeTimerList (s : KSTATE) (tsc : Z) : KSTATE :=
  s <| KiTimerListHead := [] |> <| KeTickCount := 0 |> <| KiInterruptTime := 0 |> <| KiTickTsc := tsc |>.

Definition KiTickFraction (s : KSTATE) (tsc : Z) : Z :=
  let rate := KiTscPerMillisecond s in
  if rate =? 0 then 0 else
  let delta := u64 (tsc - KiTickTsc s) in
  if u64 (rate * KI_MAX_FRACTION_TICKS) <=? delta then KI_MAX_FRACTION_TICKS * KI_100NS_PER_TICK - 1
  else u64 (delta * KI_100NS_PER_TICK) / rate.

Definition KiResetTickBase (s : KSTATE) (tsc : Z) : KSTATE := s <| KiTickTsc := tsc |>.

(** (LONGLONG)due - (LONGLONG)now, a signed subtraction. *)
Definition KiQueryTimerRemainingTime (s : KSTATE) (timer : addr) : outcome Z :=
  o ← get_object s timer;
  if negb (inserted o) then Ok 0 else
  let d := s64 (dueTime o) - s64 (KiInterruptTime s) in
  if (d <? - 2 ^ 63) || (2 ^ 63 <=? d) then Fault "signed overflow" else Ok d.

Definition KeQueryInterruptTime (s : KSTATE) (tsc : Z) : Z :=
  u64 (KiInterruptTime s + KiTickFraction s tsc).

Definition KeQuerySystemTime (s : KSTATE) (tsc : Z) : Z :=
  s64 (u64 (KiSystemTimeBase s + KeQueryInterruptTime s tsc)).

(** ** The shared page

    One KSYSTEM_TIME is written by three stores, in this order. *)

Inductive store := StoreHigh2 (v : Z) | StoreLow (v : Z) | StoreHigh1 (v : Z).

Definition apply_store (t : KSYSTEM_TIME) (x : store) : KSYSTEM_TIME :=
  match x with
  | StoreHigh2 v => t <| High2Time := v |>
  | StoreLow v => t <| LowPart := v |>
  | StoreHigh1 v => t <| High1Time := v |>
  end.

Definition KiWriteKSystemTime_stores (value : Z) : list store :=
  [StoreHigh2 (s32 (Z.shiftr value 32)); StoreLow (u32 value); StoreHigh1 (s32 (Z.shiftr value 32))].

Definition KiWriteKSystemTime (target : KSYSTEM_TIME) (value : Z) : KSYSTEM_TIME :=
  foldl apply_store target (KiWriteKSystemTime_stores value).

Definition KiUpdateUserSharedDataTime (s : KSTATE) : KSTATE :=
  match KiUserSharedData s with
  | None => s
  | Some usd =>
      let tickMs := KiInterruptTime s / 10000 in
      s <| KiUserSharedData := Some (mkKUSER_SHARED_TIME
             (KiWriteKSystemTime (usdInterruptTime usd) (KiInterruptTime s))
             (KiWriteKSystemTime (usdSystemTime usd) (u64 (KiSystemTimeBase s + KiInterruptTime s)))
             (KiWriteKSystemTime (usdTickCount usd) tickMs)
             (u32 tickMs)) |>
  end.

Definition KeSetSystemTime (s : KSTATE) (tsc newTime : Z) : KSTATE :=
  KiUpdateUserSharedDataTime
    (s <| KiSystemTimeBase := u64 (u64 newTime - u64 (KiInterruptTime s + KiTickFraction s tsc)) |>).

Definition KiSeedUserSharedDataTime (s : KSTATE) : KSTATE := KiUpdateUserSharedDataTime s.

(** ** The tick *)

Definition KiTicksElapsed (elapsed rate : Z) : Z :=
  if rate =? 0 then 1 else
  let ticks := elapsed / rate in
  if ticks =? 0 then 1
  else if KI_MAX_CATCHUP_TICKS <? ticks then KI_MAX_CATCHUP_TICKS
  else ticks.

(** Move the clocks by the ticks the TSC says have passed. *)
Definition advance_clock (s : KSTATE) (now ticks : Z) : KSTATE :=
  let rate := KiTscPerMillisecond s in
  let elapsed := u64 (now - KiTickTsc s) in
  s <| KeTickCount := u64 (KeTickCount s + ticks) |>
    <| KiInterruptTime := u64 (KiInterruptTime s + ticks * KI_100NS_PER_TICK) |>
    <| KiCatchUpTicks := u64 (KiCatchUpTicks s + (ticks - 1)) |>
    <| KiTickTsc := if negb (rate =? 0) && (u64 (ticks * rate) <=? elapsed)
                    then u64 (KiTickTsc s + ticks * rate) else now |>.

(** Charge the ticks to exactly one bucket. *)
Definition charge_tick (s : KSTATE) (advance : Z) (interruptedUser : bool) : outcome KSTATE :=
  let current := KiCurrentThread s in
  if (current =? 0) || KiThreadIsIdle s current
  then Ok (s <| KiIdleTime100ns := u64 (KiIdleTime100ns s + advance) |>)
  else
    t ← get_thread s current;
    if interruptedUser
    then Ok (put_thread s current (t <| userTime100ns := u64 (userTime100ns t + advance) |>)
               <| KiTotalUserTime100ns := u64 (KiTotalUserTime100ns s + advance) |>)
    else Ok (put_thread s current (t <| kernelTime100ns := u64 (kernelTime100ns t + advance) |>)
               <| KiTotalKernelTime100ns := u64 (KiTotalKernelTime100ns s + advance) |>).

(** One expired timer: off the queue, back on it if periodic, signalled. *)
Definition expire_timer (s : KSTATE) (timer : addr) (o : KOBJECT) : outcome KSTATE :=
  s1 ← KiRemoveTimer s timer;
  s2 ← (if negb (period o =? 0)
        then KiInsertTimer s1 timer (u64 (KiInterruptTime s + u64 (period o) * KI_100NS_PER_TICK))
        else Ok s1);
  o2 ← get_object s2 timer;
  KiWaitTest (put_object s2 timer (o2 <| signalState := 1 |>)) timer.

(** The loop over expired timers; a re-armed timer is due later than now, so
    the queue's length bounds it. *)
Fixpoint expire_timers (fuel : nat) (s : KSTATE) : outcome KSTATE :=
  match KiTimerListHead s with
  | [] => Ok s
  | timer :: _ =>
      o ← get_object s timer;
      if KiInterruptTime s <? dueTime o then Ok s else
      match fuel with
      | O => OutOfFuel
      | S fuel' => s' ← expire_timer s timer o; expire_timers fuel' s'
      end
  end.

(** The device completions harvested, each waking its request's owner, inside
    a no-block region. *)
Definition IoDrainDeviceCompletions (s : KSTATE) (completed : list addr) : outcome KSTATE :=
  s1 ← foldM (fun s event => '(_, s') ← KeSetEvent s event; Ok s') (KiEnterNoBlockRegion s) completed;
  KiLeaveNoBlockRegion s1.

Definition KiUpdateClock (s : KSTATE) (now : Z) (interruptedUser : bool) (completed : list addr)
    : outcome KSTATE :=
  let ticks := KiTicksElapsed (u64 (now - KiTickTsc s)) (KiTscPerMillisecond s) in
  let s1 := advance_clock s now ticks in
  s2 ← charge_tick s1 (ticks * KI_100NS_PER_TICK) interruptedUser;
  _ ← ASSERT (u64 (KiIdleTime100ns s2 + KiTotalKernelTime100ns s2 + KiTotalUserTime100ns s2)
              =? KiInterruptTime s2) "one tick, one bucket";
  let s3 := KiUpdateUserSharedDataTime s2 in
  s4 ← expire_timers (length (KiTimerListHead s3)) s3;
  IoDrainDeviceCompletions s4 completed.

(** KiDispatchInterrupt (kernel/ke/irq.c): the clock and the disk are the only
    vectors. *)
Inductive interrupt := TIMER_VECTOR | BLK_VECTOR | OTHER_VECTOR.

Definition KiDispatchInterrupt (s : KSTATE) (vector : interrupt) (now : Z) (interruptedUser : bool)
    (completed : list addr) : outcome KSTATE :=
  let s1 := KiEnterNoBlockRegion s in
  match vector with
  | TIMER_VECTOR =>
      s2 ← KiUpdateClock s1 now interruptedUser completed;
      KiLeaveNoBlockRegion s2
  | BLK_VECTOR =>
      s2 ← IoDrainDeviceCompletions s1 completed;
      KiLeaveNoBlockRegion s2
  | OTHER_VECTOR => Panic "KiDispatchInterrupt: unexpected interrupt vector"
  end.

(** ** Timer objects *)

Inductive TIMER_TYPE := NotificationTimer | SynchronizationTimer.

Definition KeInitializeTimerEx (o : KOBJECT) (ty : TIMER_TYPE) : KOBJECT :=
  KiInitializeDispatcherHeader o
    (match ty with
     | NotificationTimer => KI_OBJECT_NOTIFICATION_TIMER
     | SynchronizationTimer => KI_OBJECT_SYNCHRONIZATION_TIMER
     end) 0
    <| dueTime := 0 |> <| period := 0 |>.

Definition KeInitializeTimer (o : KOBJECT) : KOBJECT := KeInitializeTimerEx o NotificationTimer.

Definition KeSetTimerEx (s : KSTATE) (timer : addr) (due_time period_ms : Z) (dpc : addr)
    : outcome (bool * KSTATE) :=
  if negb (dpc =? 0) then Panic "KeSetTimerEx: DPCs are dropped by design (docs/03)" else
  if period_ms <? 0 then Panic "KeSetTimerEx: negative period" else
  o ← get_object s timer;
  let wasPending := inserted o in
  s1 ← (if wasPending then KiRemoveTimer s timer else Ok s);
  o1 ← get_object s1 timer;
  let s2 := put_object s1 timer (o1 <| signalState := 0 |> <| period := period_ms |>) in
  s3 ← KiInsertTimer s2 timer (KiComputeDueTime s2 due_time);
  Ok (wasPending, s3).

Definition KeSetTimer (s : KSTATE) (timer : addr) (due_time : Z) (dpc : addr) : outcome (bool * KSTATE) :=
  KeSetTimerEx s timer due_time 0 dpc.

Definition KeCancelTimer (s : KSTATE) (timer : addr) : outcome (bool * KSTATE) :=
  o ← get_object s timer;
  let wasPending := inserted o in
  s1 ← (if wasPending then KiRemoveTimer s timer else Ok s);
  Ok (wasPending, s1).

(** ** Retiming one timer *)

Section retime.
Implicit Types (s : KSTATE) (t a x : Z) (th : KTHREAD) (o : KOBJECT) (b : KWAIT_BLOCK).

(** No thread's private timeout timer. *)
Definition free_timer s a : Prop := forall t th, threads s !! t = Some th -> timer th <> a.

Definition retimed_object o (v : Z) (i : bool) (d p : Z) : KOBJECT :=
  o <| signalState := v |> <| inserted := i |> <| dueTime := d |> <| period := p |>.

Definition retimed s a o v i d p (l : list addr) : KSTATE :=
  put_object s a (retimed_object o v i d p) <| KiTimerListHead := l |>.

Record retime_ok exc s a o v i d p (l : list addr) : Prop := {
  rt_object : objects s !! a = Some o;
  rt_type : is_timer (type o);
  rt_signal : 0 <= v <= 1;
  rt_due : i = true -> 0 <= d;
  rt_period : 0 <= p < 2 ^ 31;
  rt_nodup : NoDup l;
  rt_mem : forall x, x ∈ l <-> (x <> a /\ x ∈ KiTimerListHead s) \/ (x = a /\ i = true);
  rt_sorted : StronglySorted (fun x y => due (retimed s a o v i d p l) x <= due (retimed s a o v i d p l) y) l;
  rt_thread : forall t th, threads s !! t = Some th -> timer th = a -> exc = Some a /\ p = 0;
}.

Lemma retimed_lookup s a o v i d p l x : objects (retimed s a o v i d p l) !! x =
  if decide (x = a) then Some (retimed_object o v i d p) else objects s !! x.
Proof.
  simpl. destruct (decide (x = a)) as [->|]; [by rewrite lookup_insert_eq|by rewrite lookup_insert_ne].
Qed.

Lemma is_timer_ne ty : is_timer ty ->
  ty <> KI_OBJECT_MUTANT /\ ty <> KI_OBJECT_SEMAPHORE /\ ty <> KI_OBJECT_THREAD.
Proof. by intros [->| ->]. Qed.

Lemma retimed_timer exc s a o v i d p l :
  timer_inv None s -> retime_ok exc s a o v i d p l -> timer_inv exc (retimed s a o v i d p l).
Proof.
  intros [Hnd Hmem Hsort Hty Hper Hth Hdis] [Ho Hoty Hv Hd Hp Hnd' Hmem' Hsort' Hthr]. split.
  - done.
  - intros x. change (x ∈ l <-> exists o', objects (retimed s a o v i d p l) !! x = Some o' /\ inserted o' = true).
    rewrite Hmem', retimed_lookup. destruct (decide (x = a)) as [->|Hne].
    + split; [intros [[? _]|[_ ->]]; [done|by eexists]|]. intros (o' & [= <-] & Hi). by right.
    + rewrite Hmem. naive_solver.
  - done.
  - intros x o'. rewrite retimed_lookup. destruct (decide (x = a)) as [->|]; [|apply Hty].
    intros [= <-] Hi. split; [done|]. by apply Hd.
  - intros x o'. rewrite retimed_lookup. destruct (decide (x = a)) as [->|]; [|apply Hper]. by intros [= <-].
  - intros t th Hlk. simpl in Hlk. destruct (Hth t th Hlk) as (o' & Ho' & Hty' & Hp' & Hi').
    rewrite retimed_lookup. destruct (decide (timer th = a)) as [E|Hne].
    + destruct (Hthr t th Hlk E) as [-> ->]. rewrite E in *. assert (o' = o) as -> by congruence.
      eexists. split; [done|]. split; [done|]. split; [done|]. done.
    + exists o'. split_and!; try done. intros _. by apply Hi'.
  - done.
Qed.

Lemma retimed_core exc s a o v i d p l :
  ke_core None s -> retime_ok exc s a o v i d p l -> ke_core exc (retimed s a o v i d p l).
Proof.
  intros [[Hs Hw Ht Hm Hob] Hr] Hok. pose proof Hok as [Ho Hoty _ _ _ _ _ _ _].
  destruct (is_timer_ne _ Hoty) as (Hn1 & Hn2 & Hn3).
  split; [split|].
  - eapply (sched_inv_ext s); try done. intros t th Hth. exists th. split; [done|]. split; [done|].
    split; [done|]. intros ->. destruct (si_idle _ Hs) as (thi & Hi & Hst). simpl in Hth. congruence.
  - destruct Hw as [Hl Hwt]. split; [|done]. apply (links_objects s); [|done].
    intros x. rewrite retimed_lookup. destruct (decide (x = a)) as [->|].
    + rewrite Ho. by constructor.
    + by apply option_Forall2_refl.
  - by apply retimed_timer.
  - apply (mutant_inv_frame s); [|done]. split.
    + intros x. apply option_Forall2_refl. by split.
    + intros x. rewrite retimed_lookup. destruct (decide (x = a)) as [->|].
      * rewrite Ho. constructor. split; done.
      * apply option_Forall2_refl. by split.
  - destruct Hob as [H1 H2]. split.
    + intros x o'. rewrite retimed_lookup. destruct (decide (x = a)) as [->|]; [|apply H1].
      intros [= <-]. split; simpl; [done|]. intros _ _. apply Hok.
    + intros t th Hth. destruct (H2 t th Hth) as (? & ? & o' & Ho' & Hty' & Hst). split_and!; [done..|].
      rewrite retimed_lookup. destruct (decide (t = a)) as [->|]; [congruence|]. by exists o'.
  - intros t th b Hth Hb o' Ho' Hty'. rewrite retimed_lookup in Ho'.
    destruct (decide (blockObject b = a)) as [E|]; [|by apply (Hr t th b Hth Hb)].
    injection Ho' as <-. done.
Qed.

Lemma retimed_quiet exc s a o v i d p l :
  quiet s -> retime_ok exc s a o v i d p l ->
  quiet_but a (retimed s a o v i d p l) /\ (v <= signalState o -> quiet (retimed s a o v i d p l)).
Proof.
  intros Hq [Ho Hoty Hv _ _ _ _ _ _]. destruct (is_timer_ne _ Hoty) as (Hn1 & _ & _). split.
  - apply (quiet_signal a s); [done|by apply same_threads_blocks|]. intros x t Hne (o' & Ho' & Hs).
    rewrite retimed_lookup, decide_False in Ho' by done. by exists o'.
  - intros Hle. apply (quiet_weaken s); [done|by apply same_threads_blocks|]. intros x t (o' & Ho' & Hs).
    rewrite retimed_lookup in Ho'. destruct (decide (x = a)) as [->|]; [|by exists o'].
    injection Ho' as <-. exists o. split; [done|]. by apply (KiIsSatisfiable_zero o v t).
Qed.
End retime.

(** ** Taking a timer off the queue and putting it on *)

Section queue.
Implicit Types (s : KSTATE) (t a x : Z) (th : KTHREAD) (o : KOBJECT) (b : KWAIT_BLOCK).

Definition timer_exc s a : option addr :=
  if bool_decide (map_Forall (fun _ th => timer th <> a) (threads s)) then None else Some a.

Lemma timer_exc_free s a : free_timer s a -> timer_exc s a = None.
Proof. intros H. unfold timer_exc. by rewrite bool_decide_eq_true_2. Qed.

Lemma timer_exc_thread s t th a : threads s !! t = Some th -> timer th = a -> timer_exc s a = Some a.
Proof.
  intros Hth Ha. unfold timer_exc. rewrite bool_decide_eq_false_2; [done|].
  intros H. by apply (H t th).
Qed.

Lemma retimed_due s a o v i d p l x :
  due (retimed s a o v i d p l) x = if decide (x = a) then d else due s x.
Proof. unfold due. rewrite retimed_lookup. by destruct (decide (x = a)). Qed.

Lemma removed_ok s a o v p :
  timer_inv None s -> objects s !! a = Some o -> is_timer (type o) -> 0 <= v <= 1 ->
  0 <= p < 2 ^ 31 -> (timer_exc s a <> None -> p = 0) ->
  retime_ok (timer_exc s a) s a o v false (dueTime o) p (unlink a (KiTimerListHead s)).
Proof.
  intros Ht Ho Hty Hv Hp Hexc. split; try done.
  - apply NoDup_unlink, Ht.
  - intros x. rewrite elem_of_unlink. naive_solver.
  - eapply StronglySorted_mono; [|apply StronglySorted_filter, Ht].
    intros x y Hx Hy. apply elem_of_unlink in Hx, Hy. rewrite !retimed_due, !decide_False by tauto. done.
  - intros t th Hth Ha. rewrite (timer_exc_thread s t th a) in * by done. split; [done|]. by apply Hexc.
Qed.

Lemma KiRemoveTimer_eq s a o :
  timer_inv None s -> objects s !! a = Some o -> inserted o = true ->
  KiRemoveTimer s a =
    Ok (retimed s a o (signalState o) false (dueTime o) (period o) (unlink a (KiTimerListHead s))).
Proof.
  intros Ht Ho Hi. unfold KiRemoveTimer, get_object. rewrite Ho. run. rewrite Hi. run.
  rewrite decide_True by (apply (ti_mem _ _ Ht); by exists o). by destruct o.
Qed.

Lemma KiInsertTimer_retimed exc s a o v d p l d' :
  timer_inv None s -> retime_ok exc s a o v false d p l -> 0 <= d' ->
  returns (KiInsertTimer (retimed s a o v false d p l) a d') (fun s' => exists l1 l2,
    l = l1 ++ l2 /\ s' = retimed s a o v true d' p (l1 ++ a :: l2) /\
    retime_ok exc s a o v true d' p (l1 ++ a :: l2) /\
    Forall (fun y => due s y <= d') l1 /\ Forall (fun y => d' < due s y) l2).
Proof.
  intros Ht Hok Hd'. pose proof Hok as [Ho Hty Hv Hd Hp Hnd Hmem Hsort Hthr].
  set (s1 := retimed s a o v false d p l) in *.
  assert (Ho1 : objects s1 !! a = Some (retimed_object o v false d p)).
  { unfold s1. by rewrite retimed_lookup, decide_True. }
  assert (Ha : a ∉ l) by (rewrite Hmem; naive_solver).
  eapply returns_mono.
  - apply (KiInsertTimer_spec s1 a (retimed_object o v false d p) d'); try done.
    intros x. change (KiTimerListHead s1) with l. rewrite Hmem. unfold s1. rewrite retimed_lookup.
    destruct (decide (x = a)) as [->|Hne].
    + split; [naive_solver|]. intros (o' & [= <-] & Hi). done.
    + rewrite (ti_mem _ _ Ht). naive_solver.
  - intros s' (l' & -> & Hperm & Hsort' & l1 & l2 & El & -> & Hl1 & Hl2).
    change (KiTimerListHead s1) with l in *. exists l1, l2.
    assert (E : put_object s1 a (retimed_object o v false d p <| dueTime := d' |> <| inserted := true |>)
        <| KiTimerListHead := l1 ++ a :: l2 |> = retimed s a o v true d' p (l1 ++ a :: l2)).
    { unfold s1, retimed, put_object, retimed_object. simpl. rewrite insert_insert_eq. by destruct o. }
    split; [done|]. split; [done|]. rewrite E in Hsort'.
    assert (Hdue : forall y, y ∈ l -> due s1 y = due s y).
    { intros y Hy. unfold s1. rewrite retimed_due, decide_False; [done|]. by intros ->. }
    split; [|split].
    + split; try done.
      * rewrite Hperm. by constructor.
      * intros x. rewrite Hperm, elem_of_cons, Hmem. naive_solver.
    + rewrite Forall_forall in Hl1 |- *. intros y Hy. rewrite <- Hdue; [by apply Hl1|].
      subst l. apply elem_of_app. by left.
    + rewrite Forall_forall in Hl2 |- *. intros y Hy. rewrite <- Hdue; [by apply Hl2|].
      subst l. apply elem_of_app. by right.
Qed.

(** A core left open only at a timer no thread waits on is closed. *)
Lemma ke_core_free s a : ke_core (Some a) s -> free_timer s a -> ke_core None s.
Proof.
  intros [[Hs Hw Ht Hm Ho] Hr] Hfree. split; [|done]. split; try done.
  destruct Ht as [? ? ? ? ? Hth ?]. split; try done.
  intros t th Hlk. destruct (Hth t th Hlk) as (o & ? & ? & ? & Hi). exists o. split_and!; try done.
  intros _. apply Hi. intros [= E]. by eapply Hfree.
Qed.

Lemma ke_core_weaken s exc : ke_core None s -> ke_core exc s.
Proof.
  intros [[Hs Hw Ht Hm Ho] Hr]. split; [|done]. split; try done.
  destruct Ht as [? ? ? ? ? Hth ?]. split; try done.
  intros t th Hlk. destruct (Hth t th Hlk) as (o & ? & ? & ? & Hi). exists o. split_and!; try done.
  intros _. by apply Hi.
Qed.
End queue.

(** ** Expiry *)

Section expiry.
Implicit Types (s : KSTATE) (t a x now : Z) (th : KTHREAD) (o : KOBJECT) (b : KWAIT_BLOCK).

(** What an expiry pass at [now] does to a timer: nothing, or one firing. *)
Definition fires now o o' : Prop :=
  (inserted o' = inserted o /\ dueTime o' = dueTime o) \/
  (inserted o = true /\ dueTime o <= now /\
   if period o =? 0 then inserted o' = false /\ dueTime o' = dueTime o
   else inserted o' = true /\ dueTime o' = now + period o * KI_100NS_PER_TICK).

Record ticked_object o o' : Prop := {
  tko_type : type o' = type o;
  tko_period : period o' = period o;
  tko_limit : limit o' = limit o;
  tko_due : period o = 0 -> dueTime o' = dueTime o;
}.

Record ticked now s s' : Prop := {
  tk_threads : forall x, option_Forall2 tested_thread (threads s !! x) (threads s' !! x);
  tk_objects : forall a, option_Forall2 ticked_object (objects s !! a) (objects s' !! a);
  tk_free : forall a o o', objects s !! a = Some o -> objects s' !! a = Some o' -> free_timer s a ->
    is_timer (type o) -> fires now o o';
  tk_rest : s' = s <| threads := threads s' |> <| objects := objects s' |>
    <| KiReadyQueues := KiReadyQueues s' |> <| KiReadySummary := KiReadySummary s' |>
    <| KiTimerListHead := KiTimerListHead s' |>;
}.

Lemma fires_trans now o1 o2 o3 : 0 <= period o1 -> period o2 = period o1 ->
  fires now o1 o2 -> fires now o2 o3 -> fires now o1 o3.
Proof.
  unfold fires, KI_100NS_PER_TICK. intros Hp E [[Hi Hd]|(Hi & Hd & H)] [[Hi' Hd']|(Hi' & Hd' & H')].
  - left. split; congruence.
  - right. rewrite Hi, Hd, E in *. done.
  - right. split; [done|]. split; [done|]. rewrite Hi', Hd'. done.
  - revert H. destruct (Z.eqb_spec (period o1) 0); intros [H1 H2]; [congruence|]. lia.
Qed.

Lemma tested_thread_trans th1 th2 th3 :
  tested_thread th1 th2 -> tested_thread th2 th3 -> tested_thread th1 th3.
Proof.
  intros [->|[Hw1 E1]]; [done|]. intros [->|[Hw2 E2]]; [by right|]. rewrite E1 in Hw2. discriminate Hw2.
Qed.

Lemma tested_thread_timer th th' : tested_thread th th' -> timer th' = timer th.
Proof. intros [->|[_ E]]; [done|]. by rewrite E. Qed.

Lemma free_timer_tested s s' a :
  (forall x, option_Forall2 tested_thread (threads s !! x) (threads s' !! x)) ->
  free_timer s a -> free_timer s' a.
Proof.
  intros Ht Hf t th' Hth'. destruct (Forall2_Some_r _ _ _ _ (Ht t) Hth') as (th & Hth & E).
  rewrite (tested_thread_timer _ _ E). by apply (Hf t).
Qed.

Lemma ticked_refl now s : ticked now s s.
Proof.
  split; [| | |by destruct s].
  - intros x. apply option_Forall2_refl. by left.
  - intros a. apply option_Forall2_refl. by split.
  - intros a o o' Ho Ho' _ _. left. split; congruence.
Qed.

Lemma ticked_trans now s1 s2 s3 :
  (forall a o, objects s1 !! a = Some o -> 0 <= period o) ->
  ticked now s1 s2 -> ticked now s2 s3 -> ticked now s1 s3.
Proof.
  intros Hper [T1 O1 F1 R1] [T2 O2 F2 R2]. split.
  - intros x. specialize (T1 x). specialize (T2 x).
    destruct T1 as [th1 th2 H1|]; inversion T2 as [? th3 H2|]; subst; constructor.
    by eapply tested_thread_trans.
  - intros a. specialize (O1 a). specialize (O2 a).
    destruct O1 as [o1 o2 H1|]; inversion O2 as [? o3 H2|]; subst; constructor.
    destruct H1, H2. split; try congruence. intros E. rewrite tko_due1 by congruence. auto.
  - intros a o1 o3 Ho1 Ho3 Hfree Hty.
    destruct (Forall2_Some_l _ _ _ _ (O1 a) Ho1) as (o2 & Ho2 & [Ety Eper _ _]).
    eapply (fires_trans now o1 o2 o3); [by apply (Hper a)|done|by apply (F1 a)|].
    apply (F2 a); [done..|by eapply free_timer_tested|by rewrite Ety].
  - rewrite R2, R1. by destruct s1, s3.
Qed.

(** The retimed state of a fired timer, and what KiWaitTest makes of it. *)
Lemma retimed_ticked now s a o i d l s' :
  objects s !! a = Some o -> inserted o = true -> dueTime o <= now ->
  (if period o =? 0 then i = false /\ d = dueTime o
   else i = true /\ d = now + period o * KI_100NS_PER_TICK) ->
  tested (retimed s a o 1 i d (period o) l) s' -> ticked now s s'.
Proof.
  intros Ho Hi Hd Hcase [T O _ F R]. split.
  - intros x. apply (T x).
  - intros x. specialize (O x). rewrite retimed_lookup in O.
    destruct (decide (x = a)) as [->|].
    + rewrite Ho. inversion O as [? o' [E1 E2 E3 E4 _ _]|]; subst. constructor. simpl in *.
      split; try done. intros E. rewrite E in *. cbn [Z.eqb] in Hcase. destruct Hcase as [_ ->]. done.
    + destruct O as [? ? []|]; constructor. by split.
  - intros x ox o' Hox Ho' Hfree Hty.
    destruct (decide (x = a)) as [->|Hne].
    + assert (ox = o) as -> by congruence. right. split_and!; [done..|].
      assert (Ho1 : objects (retimed s a o 1 i d (period o) l) !! a = Some (retimed_object o 1 i d (period o))).
      { by rewrite retimed_lookup, decide_True. }
      specialize (F a _ o' Ho1 Ho' Hfree). simpl in F.
      specialize (O a). rewrite Ho1, Ho' in O. inversion O as [? ? [_ _ Ed _ _ _]|]; subst. simpl in Ed.
      destruct (period o =? 0); destruct Hcase as [-> ->]; done.
    + left. assert (Hox1 : objects (retimed s a o 1 i d (period o) l) !! x = Some ox).
      { by rewrite retimed_lookup, decide_False. }
      split; [by apply (F x)|]. specialize (O x). rewrite Hox1, Ho' in O.
      inversion O as [? ? [_ _ Ed _ _ _]|]; subst. done.
  - rewrite R. by destruct s, s'.
Qed.

Lemma ti_head s a l : timer_inv None s -> KiTimerListHead s = a :: l ->
  exists o, objects s !! a = Some o /\ inserted o = true /\ is_timer (type o) /\ 0 <= dueTime o /\
    0 <= period o < 2 ^ 31.
Proof.
  intros Ht E. assert (Ha : a ∈ KiTimerListHead s) by (rewrite E; left).
  apply (ti_mem _ _ Ht) in Ha as (o & Ho & Hi). exists o.
  destruct (ti_type _ _ Ht _ _ Ho Hi). split_and!; try done; by apply (ti_period _ _ Ht a).
Qed.

Definition now_ok s : Prop := 0 <= KiInterruptTime s /\ KiInterruptTime s + 2 ^ 31 * KI_100NS_PER_TICK < 2 ^ 64.

Lemma rearm_due s p : now_ok s -> 0 <= p < 2 ^ 31 ->
  u64 (KiInterruptTime s + u64 p * KI_100NS_PER_TICK) = KiInterruptTime s + p * KI_100NS_PER_TICK.
Proof.
  unfold now_ok, KI_100NS_PER_TICK. intros [H1 H2] Hp. rewrite (u64_small p) by (unfold is_u64; lia).
  apply u64_small. unfold is_u64. lia.
Qed.

Lemma cur_inv_retimed s a o v i d p l : cur_inv s -> cur_inv (retimed s a o v i d p l).
Proof. done. Qed.

(** The tail of the step: signal the retimed timer and test its waiters. *)
Lemma fire_spec s a o i d l :
  ke_core None s -> quiet s -> cur_inv s ->
  retime_ok (timer_exc s a) s a o 1 i d (period o) l ->
  (period o = 0 -> i = false) ->
  returns (KiWaitTest (retimed s a o 1 i d (period o) l) a) (fun s' =>
    ke_core None s' /\ quiet s' /\ cur_inv s' /\ tested (retimed s a o 1 i d (period o) l) s').
Proof.
  intros Hc Hq Hcur Hok Hi. destruct (retimed_quiet _ _ _ _ _ _ _ _ _ Hq Hok) as [Hqb _].
  pose proof (retimed_core _ _ _ _ _ _ _ _ _ Hc Hok) as Hcore.
  assert (Ho1 : objects (retimed s a o 1 i d (period o) l) !! a = Some (retimed_object o 1 i d (period o))).
  { by rewrite retimed_lookup, decide_True. }
  eapply returns_mono; [apply (KiWaitTest_quiet _ _ _ _ Hcore Hqb Ho1); simpl; lia|].
  intros s' (Hcore' & Hq' & Htest & lw & Hspent). split; [|split; [done|split; [|done]]].
  - unfold timer_exc in Hcore'. case_bool_decide as Hfree; [done|].
    apply expired_settled with a; [done..|].
    assert (Hthr : exists t th, threads s !! t = Some th /\ timer th = a).
    { apply map_not_Forall in Hfree as (t & th & Hth & Hn); [|intros; apply _]. exists t, th.
      split; [done|]. destruct (decide (timer th = a)); [done|tauto]. }
    destruct Hthr as (t & th & Hth & Ea). pose proof (rt_object _ _ _ _ _ _ _ _ _ Hok) as Ho.
    destruct (ti_thread _ _ (kb_timer _ _ (proj1 Hc)) t th Hth) as (o0 & Ho0 & Hty0 & Hp0 & _).
    rewrite Ea in Ho0. assert (o0 = o) as -> by congruence. intros o' Ho'.
    destruct Hspent as (o1 & o2 & _ & Ho1' & Ho2 & Hs & _). rewrite Ho1 in Ho1'. injection Ho1' as <-.
    assert (o2 = o') as -> by congruence. simpl in Hs. rewrite Hty0 in Hs. cbn [signal_after] in Hs.
    rewrite iter_stay in Hs. split; [lia|].
    destruct (tested_object_at _ _ _ _ Htest Ho1) as (o3 & Ho3 & Hto). assert (o3 = o') as -> by congruence.
    apply (to_inserted _ _ Hto). simpl. by apply Hi.
  - by eapply cur_inv_tested.
Qed.

Lemma expire_timer_spec s a rest o :
  ke_core None s -> quiet s -> cur_inv s -> now_ok s ->
  KiTimerListHead s = a :: rest -> objects s !! a = Some o -> dueTime o <= KiInterruptTime s ->
  returns (expire_timer s a o) (fun s' =>
    ke_core None s' /\ quiet s' /\ cur_inv s' /\ ticked (KiInterruptTime s) s s' /\
    (length (filter (fun x => (due s' x <= KiInterruptTime s)%Z) (KiTimerListHead s')) <
     length (filter (fun x => (due s x <= KiInterruptTime s)%Z) (KiTimerListHead s)))%nat).
Proof.
  intros Hc Hq Hcur Hnow EL Ho Hdue. pose proof (kb_timer _ _ (proj1 Hc)) as Ht.
  destruct (ti_head s a rest Ht EL) as (o' & Ho' & Hi & Hty & Hd0 & Hp).
  assert (o' = o) as -> by congruence. set (now := KiInterruptTime s) in *.
  assert (Hexc : timer_exc s a <> None -> period o = 0).
  { unfold timer_exc. case_bool_decide as Hfree; [done|]. intros _.
    apply map_not_Forall in Hfree as (t & th & Hth & Hn); [|intros; apply _].
    destruct (decide (timer th = a)) as [Ea|]; [|tauto].
    destruct (ti_thread _ _ Ht t th Hth) as (o0 & Ho0 & _ & Hp0 & _). congruence. }
  set (L := unlink a (KiTimerListHead s)).
  assert (Hend : forall i d l,
    retime_ok (timer_exc s a) s a o 1 i d (period o) l ->
    (if period o =? 0 then i = false /\ d = dueTime o else i = true /\ d = now + period o * KI_100NS_PER_TICK) ->
    (forall x, x ∈ l -> x <> a -> x ∈ L) -> NoDup l ->
    returns (KiWaitTest (retimed s a o 1 i d (period o) l) a) (fun s' =>
      ke_core None s' /\ quiet s' /\ cur_inv s' /\ ticked now s s' /\
      (length (filter (fun x => (due s' x <= now)%Z) (KiTimerListHead s')) <
       length (filter (fun x => (due s x <= now)%Z) (KiTimerListHead s)))%nat)).
  { intros i d l Hok Hcase Hsub Hnd. eapply returns_mono; [apply (fire_spec s a o i d l Hc Hq Hcur Hok)|].
    - intros E. rewrite E in Hcase. by destruct Hcase.
    - intros s' (H1 & H2 & H3 & H4). split_and!; try done; [by eapply retimed_ticked|].
      assert (Hdue' : forall x, x ∈ KiTimerListHead s' -> x <> a -> due s' x = due s x).
      { intros x _ Hne. unfold due. pose proof (te_objects _ _ H4 x) as Hx. rewrite retimed_lookup, decide_False in Hx by done.
        destruct Hx as [ox ox' [_ _ E _ _ _]|]; [|done]. simpl. by rewrite E. }
      assert (Ha' : a ∈ KiTimerListHead s' -> now < due s' a).
      { intros Ha. pose proof (te_objects _ _ H4 a) as Hx. rewrite retimed_lookup, decide_True in Hx by done.
        apply (ti_mem _ _ (kb_timer _ _ (proj1 H1))) in Ha as (oa & Hoa & Hia). unfold due. rewrite Hoa in Hx |- *.
        inversion Hx as [? ? [_ _ E _ Ei _]|]; subst. simpl in *. rewrite E. unfold KI_100NS_PER_TICK in *.
        destruct (Z.eqb_spec (period o) 0); destruct Hcase as [-> ->]; [|lia]. rewrite Ei in Hia; done. }
      assert (Hnd' : NoDup (KiTimerListHead s')) by apply H1.
      apply (Nat.le_lt_trans _ (length (filter (fun x => due s x <= now) L))).
      + apply submseteq_length, NoDup_submseteq; [by apply NoDup_filter|]. intros x.
        rewrite !list_elem_of_filter. intros [Hx Hin]. destruct (decide (x = a)) as [->|Hne]; [specialize (Ha' Hin); lia|].
        rewrite <- Hdue' by done. split; [done|]. apply Hsub; [|done].
        eapply elem_of_sublist; [|apply H4]; done.
      + unfold L. rewrite EL, unlink_head by (rewrite <- EL; apply Ht).
        rewrite filter_cons_True; [simpl; lia|]. unfold due. by rewrite Ho. }
  unfold expire_timer. rewrite (KiRemoveTimer_eq s a o Ht Ho Hi). run. fold L.
  assert (Hok1 : retime_ok (timer_exc s a) s a o (signalState o) false (dueTime o) (period o) L).
  { apply removed_ok; try done. destruct (oi_object _ (kb_object _ _ (proj1 Hc)) _ _ Ho) as [_ Hf].
    apply Hf; by destruct Hty as [-> | ->]. }
  destruct (Z.eqb_spec (period o) 0) as [Ep|Ep]; cbn [negb].
  - run. unfold get_object. rewrite retimed_lookup, decide_True by done. run.
    assert (E : put_object (retimed s a o (signalState o) false (dueTime o) (period o) L) a
       (retimed_object o (signalState o) false (dueTime o) (period o) <| signalState := 1 |>) =
       retimed s a o 1 false (dueTime o) (period o) L).
    { unfold retimed, put_object. simpl. rewrite insert_insert_eq. by destruct o. }
    rewrite E. apply Hend; try done.
    + by apply removed_ok.
    + by apply NoDup_unlink, Ht.
  - rewrite rearm_due by done. fold now.
    apply returns_bind. eapply returns_mono.
    + apply (KiInsertTimer_retimed _ s a o (signalState o) (dueTime o) (period o) L _ Ht Hok1).
      unfold KI_100NS_PER_TICK, now_ok in *. lia.
    + intros s' (l1 & l2 & EL' & -> & Hok2 & _). unfold get_object. rewrite retimed_lookup, decide_True by done. run.
      match goal with |- returns (KiWaitTest ?s2 a) _ =>
        assert (E : s2 = retimed s a o 1 true (now + period o * KI_100NS_PER_TICK) (period o) (l1 ++ a :: l2)) end.
      { unfold retimed, put_object. simpl. rewrite insert_insert_eq. by destruct o. }
      rewrite E. destruct Hok2 as [X1 X2 X3 X4 X5 X6 X7 X8 X9]. apply Hend; try done.
      * split; try done. eapply StronglySorted_mono; [|exact X8]. intros x y _ _. by rewrite !retimed_due.
      * intros x Hx Hne. rewrite EL'. revert Hx. rewrite !elem_of_app, elem_of_cons. naive_solver.
Qed.
End expiry.

(** ** A whole tick *)

Section tick.
Implicit Types (s : KSTATE) (t a x now : Z) (th : KTHREAD) (o : KOBJECT) (b : KWAIT_BLOCK).

Lemma tested_ticked now s s' : tested s s' -> ticked now s s'.
Proof.
  intros [T O _ F R]. split.
  - done.
  - intros a. specialize (O a). destruct O as [? ? []|]; constructor. by split.
  - intros a o o' Ho Ho' Hfree _. left. split; [by apply (F a)|].
    specialize (O a). rewrite Ho, Ho' in O. inversion O as [? ? [_ _ Ed _ _ _]|]; by subst.
  - rewrite R. by destruct s, s'.
Qed.

Lemma expire_timers_spec fuel s :
  ke_core None s -> quiet s -> cur_inv s -> now_ok s ->
  (length (filter (fun x => (due s x <= KiInterruptTime s)%Z) (KiTimerListHead s)) <= fuel)%nat ->
  returns (expire_timers fuel s) (fun s' => ke_core None s' /\ quiet s' /\ cur_inv s' /\
    ticked (KiInterruptTime s) s s' /\
    forall a, a ∈ KiTimerListHead s' -> KiInterruptTime s < due s' a).
Proof.
  revert s. induction fuel as [|fuel IH]; intros s Hc Hq Hcur Hnow Hlen;
    cbn [expire_timers]; destruct (KiTimerListHead s) as [|a l] eqn:EL.
  1,3: cbn; split_and!; try done; [apply ticked_refl|]; intros a; rewrite EL; by intros ?%elem_of_nil.
  all: destruct (ti_head s a l (kb_timer _ _ (proj1 Hc)) EL) as (o & Ho & Hi & _);
    unfold get_object; rewrite Ho; run; destruct (Z.ltb_spec (KiInterruptTime s) (dueTime o)) as [Hlt|Hle].
  1,3: cbn; split_and!; try done; [apply ticked_refl|]; intros x Hx;
    pose proof (ti_sorted _ _ (kb_timer _ _ (proj1 Hc))) as Hsort; rewrite EL in Hsort, Hx;
    apply StronglySorted_inv in Hsort as [_ Hall]; apply elem_of_cons in Hx as [->|Hx];
    [unfold due; by rewrite Ho|]; rewrite Forall_forall in Hall; specialize (Hall x Hx);
    unfold due in Hall at 1; rewrite Ho in Hall; simpl in Hall; lia.
  - rewrite filter_cons_True in Hlen; [simpl in Hlen; lia|]. unfold due. by rewrite Ho.
  - apply returns_bind. eapply returns_mono; [by apply (expire_timer_spec s a l o)|].
    intros s' (Hc' & Hq' & Hcur' & Ht & Hless).
    assert (Enow : KiInterruptTime s' = KiInterruptTime s) by (by rewrite (tk_rest _ _ _ Ht)).
    rewrite EL in Hless. eapply returns_mono.
    + apply IH; try done; [by unfold now_ok; rewrite Enow|]. rewrite Enow. lia.
    + rewrite Enow. intros s'' (H1 & H2 & H3 & H4 & H5). split_and!; try done.
      eapply ticked_trans; [|done..]. intros x ox Hox.
      by apply (ti_period _ _ (kb_timer _ _ (proj1 Hc)) x).
Qed.

(** Fields the invariant does not read. *)
Lemma ke_inv_fields s s' :
  ke_inv s -> threads s' = threads s -> objects s' = objects s -> KiTimerListHead s' = KiTimerListHead s ->
  KiReadyQueues s' = KiReadyQueues s -> KiReadySummary s' = KiReadySummary s ->
  KiIdleThread s' = KiIdleThread s -> KiCurrentThread s' = KiCurrentThread s -> clock_inv s' -> ke_inv s'.
Proof.
  intros [[[Hs Hw Ht Hm Ho] Hr] Hq Hc _] Eth Eob Etl Erq Ers Eid Ecu Hclk.
  assert (F : wait_frame s s').
  { split; [intros t; rewrite Eth|intros a; rewrite Eob|done]; apply option_Forall2_refl; by split. }
  split; [split; [split|]| | |done].
  - eapply (sched_inv_ext s); try done; rewrite Eth; [|done]. intros t th Hth. exists th.
    split_and!; try done. intros ->. destruct (si_idle _ Hs) as (thi & Hi & Hst). congruence.
  - by eapply wait_inv_frame.
  - by eapply timer_inv_frame.
  - apply (mutant_inv_frame s); [|done]. split; intros x; rewrite ?Eth, ?Eob; apply option_Forall2_refl; by split.
  - destruct Ho as [H1 H2]. split; rewrite ?Eth, ?Eob; done.
  - intros t th b. rewrite Eth. intros Hth Hb o. rewrite Eob. by apply (Hr t th b).
  - apply (quiet_weaken s); [done|by apply same_threads_blocks|]. intros x t. unfold sat. by rewrite Eob.
  - destruct Hc. split; rewrite Ecu, Eth; done.
Qed.

Lemma tested_put_signal s a o v :
  objects s !! a = Some o -> tested s (put_object s a (o <| signalState := v |>)).
Proof.
  intros Ho. split.
  - intros x. apply option_Forall2_refl. by left.
  - intros x. simpl. destruct (decide (x = a)) as [->|].
    + rewrite Ho, lookup_insert_eq. constructor. by split.
    + rewrite lookup_insert_ne by done. apply option_Forall2_refl. by split.
  - done.
  - intros x ox ox' Hox. simpl. destruct (decide (x = a)) as [->|].
    + rewrite lookup_insert_eq. intros [= <-] _. assert (ox = o) as -> by congruence. done.
    + rewrite lookup_insert_ne by done. congruence.
  - by destruct s.
Qed.

Definition all_events s (l : list addr) : Prop :=
  forall a, a ∈ l -> exists o, objects s !! a = Some o /\ is_event (type o) = true.

Lemma all_events_tested s s' l : tested s s' -> all_events s l -> all_events s' l.
Proof.
  intros Ht Hl a Ha. destruct (Hl a Ha) as (o & Ho & Hty).
  destruct (tested_object_at _ _ _ _ Ht Ho) as (o' & Ho' & E). exists o'. by rewrite (to_type _ _ E).
Qed.

Lemma set_events_spec s l :
  ke_inv s -> all_events s l ->
  returns (foldM (fun s event => '(_, s') ← KeSetEvent s event; Ok s') s l) (fun s' => ke_inv s' /\ tested s s').
Proof.
  revert s. induction l as [|a l IH]; intros s Hinv Hl; cbn [foldM]; [split; [done|apply tested_refl]|].
  destruct (Hl a ltac:(left)) as (o & Ho & Hty).
  assert (Hset : returns ('(_, s') ← KeSetEvent s a; Ok s') (fun s' => ke_inv s' /\ tested s s')).
  { unfold KeSetEvent, KiSetEventLocked, KiAssertIsEvent, get_object. rewrite Ho. run. rewrite Hty. run.
    apply returns_bind. apply returns_bind. eapply returns_mono; [by apply set_event_spec|].
    intros s' (Hinv' & Ht & _). cbn [returns]. split; [done|]. eapply tested_trans; [by apply tested_put_signal|done]. }
  apply returns_bind. eapply returns_mono; [exact Hset|]. intros s1 [Hinv1 Ht1].
  eapply returns_mono; [apply IH; [done|]|].
  - eapply all_events_tested; [done|]. intros x Hx. apply Hl. by right.
  - intros s' [? Ht']. split; [done|]. by eapply tested_trans.
Qed.

Definition depth_ok s : Prop := 0 <= KiNoBlockDepth s < 2 ^ 32 - 1.

Lemma ke_inv_depth s d : ke_inv s -> ke_inv (s <| KiNoBlockDepth := d |>).
Proof. intros H. eapply (ke_inv_fields s); try done. apply H. Qed.

Lemma tested_depth s s' d : tested (s <| KiNoBlockDepth := d |>) s' ->
  tested s (s' <| KiNoBlockDepth := KiNoBlockDepth s |>).
Proof.
  intros [T O L F R]. split; try done. rewrite R. by destruct s, s'.
Qed.

Lemma drain_spec s l :
  ke_inv s -> all_events s l -> depth_ok s ->
  returns (IoDrainDeviceCompletions s l) (fun s' => ke_inv s' /\ tested s s').
Proof.
  intros Hinv Hl [Hd1 Hd2]. unfold IoDrainDeviceCompletions, KiEnterNoBlockRegion.
  rewrite u32_small by (unfold is_u32; lia). apply returns_bind.
  eapply returns_mono; [apply set_events_spec; [by apply ke_inv_depth|done]|].
  intros s' [Hinv' Ht]. unfold KiLeaveNoBlockRegion.
  assert (E : KiNoBlockDepth s' = KiNoBlockDepth s + 1) by (by rewrite (te_rest _ _ Ht)).
  rewrite E. destruct (Z.eqb_spec (KiNoBlockDepth s + 1) 0); [lia|]. run. cbn [returns].
  rewrite Z.add_simpl_r. split; [by apply ke_inv_depth|by eapply tested_depth].
Qed.

(** The accounting half of a tick: one bucket takes the whole advance. *)
Definition charges s (interruptedUser : bool) (advance : Z) s' : Prop :=
  let idle := bool_decide (KiCurrentThread s = KiIdleThread s) in
  KiIdleTime100ns s' = (if idle then u64 (KiIdleTime100ns s + advance) else KiIdleTime100ns s) /\
  KiTotalUserTime100ns s' = (if negb idle && interruptedUser
     then u64 (KiTotalUserTime100ns s + advance) else KiTotalUserTime100ns s) /\
  KiTotalKernelTime100ns s' = (if negb idle && negb interruptedUser
     then u64 (KiTotalKernelTime100ns s + advance) else KiTotalKernelTime100ns s).

Definition clocked_thread th th' : Prop :=
  th' = th <| kernelTime100ns := kernelTime100ns th' |> <| userTime100ns := userTime100ns th' |>.

Record charged s now (ticks : Z) (interruptedUser : bool) s' : Prop := {
  ch_inv : ke_inv s';
  ch_buckets : charges s interruptedUser (ticks * KI_100NS_PER_TICK) s';
  ch_threads : forall x, option_Forall2 clocked_thread (threads s !! x) (threads s' !! x);
  ch_rest : s' = advance_clock s now ticks <| threads := threads s' |>
    <| KiIdleTime100ns := KiIdleTime100ns s' |> <| KiTotalKernelTime100ns := KiTotalKernelTime100ns s' |>
    <| KiTotalUserTime100ns := KiTotalUserTime100ns s' |>;
}.

Lemma clock_step i k u d : u64 (u64 (i + k + u) + d) = u64 (i + d + k + u).
Proof. unfold u64. rewrite Zplus_mod_idemp_l. f_equal. lia. Qed.

Lemma u64_absorb_l (a c : Z) : u64 (u64 a + c) = u64 (a + c).
Proof. apply Zplus_mod_idemp_l. Qed.
Lemma u64_absorb_r (a c : Z) : u64 (a + u64 c) = u64 (a + c).
Proof. apply Zplus_mod_idemp_r. Qed.

Lemma charge_spec s now ticks interruptedUser :
  ke_inv s ->
  returns (charge_tick (advance_clock s now ticks) (ticks * KI_100NS_PER_TICK) interruptedUser)
    (charged s now ticks interruptedUser).
Proof.
  intros Hinv. destruct (current_thread s Hinv) as (th & Hth & Hst).
  assert (Hn0 : KiCurrentThread s <> 0) by apply (oi_thread _ (kb_object _ _ (proj1 (ki_core _ Hinv))) _ _ Hth).
  set (adv := ticks * KI_100NS_PER_TICK). set (s1 := advance_clock s now ticks).
  pose proof (ki_clock _ Hinv) as Hclk. unfold clock_inv in Hclk.
  unfold charge_tick. change (KiCurrentThread s1) with (KiCurrentThread s).
  rewrite (proj2 (Z.eqb_neq (KiCurrentThread s) 0)) by done. cbn [orb].
  unfold KiThreadIsIdle. change (KiIdleThread s1) with (KiIdleThread s).
  destruct (Z.eqb_spec (KiCurrentThread s) (KiIdleThread s)) as [Eidle|Eidle].
  - cbn [returns]. split.
    + eapply (ke_inv_fields s); try done. unfold clock_inv. simpl. fold adv. rewrite Hclk.
      rewrite clock_step, <- (Z.add_assoc (u64 _)), u64_absorb_l. f_equal. lia.
    + unfold charges. rewrite bool_decide_eq_true_2 by done. done.
    + intros x. simpl. apply option_Forall2_refl. intros y _. by destruct y.
    + by destruct s.
  - unfold get_thread. change (threads s1) with (threads s). rewrite Hth. run.
    assert (Hclocked : forall k u x, option_Forall2 clocked_thread (threads s !! x)
      (<[KiCurrentThread s := th <| kernelTime100ns := k |> <| userTime100ns := u |>]> (threads s) !! x)).
    { intros k u x. destruct (decide (x = KiCurrentThread s)) as [->|].
      - rewrite Hth, lookup_insert_eq. by constructor.
      - rewrite lookup_insert_ne by done. apply option_Forall2_refl. intros y _. by destruct y. }
    destruct interruptedUser; cbn [returns].
    + split.
      * eapply (ke_inv_fields (put_thread s (KiCurrentThread s)
          (th <| userTime100ns := u64 (userTime100ns th + adv) |>))); try done; [by apply (alert_now_inv s th)|].
        unfold clock_inv. simpl. fold adv. rewrite Hclk, clock_step, u64_absorb_r. f_equal. lia.
      * unfold charges. rewrite bool_decide_eq_false_2 by done. done.
      * intros x. specialize (Hclocked (kernelTime100ns th) (u64 (userTime100ns th + adv)) x). by destruct th.
      * by destruct s.
    + split.
      * eapply (ke_inv_fields (put_thread s (KiCurrentThread s)
          (th <| kernelTime100ns := u64 (kernelTime100ns th + adv) |>))); try done; [by apply (alert_now_inv s th)|].
        unfold clock_inv. simpl. fold adv. rewrite Hclk, clock_step.
        rewrite (Z.add_comm (KiIdleTime100ns s) (u64 (_ + adv))), <- (Z.add_assoc (u64 (_ + adv))), u64_absorb_l.
        f_equal. lia.
      * unfold charges. rewrite bool_decide_eq_false_2 by done. done.
      * intros x. specialize (Hclocked (u64 (kernelTime100ns th + adv)) (userTime100ns th) x). by destruct th.
      * by destruct s.
Qed.

Lemma KiTicksElapsed_range elapsed rate : 0 <= elapsed -> 0 <= rate ->
  1 <= KiTicksElapsed elapsed rate <= KI_MAX_CATCHUP_TICKS.
Proof.
  intros He Hr. unfold KiTicksElapsed, KI_MAX_CATCHUP_TICKS.
  destruct (Z.eqb_spec rate 0); [lia|].
  assert (0 <= elapsed / rate) by (apply Z.div_pos; lia).
  destruct (Z.eqb_spec (elapsed / rate) 0); [lia|]. destruct (Z.ltb_spec 1000 (elapsed / rate)); lia.
Qed.

(** The interpolation base after a tick: never past the reading, and moved by
    whole ticks whenever the reading has them. *)
Lemma tick_base s now : 0 <= KiTickTsc s <= now -> is_u64 now -> is_u64 (KiTscPerMillisecond s) ->
  let rate := KiTscPerMillisecond s in
  let ticks := KiTicksElapsed (u64 (now - KiTickTsc s)) rate in
  KiTickTsc (advance_clock s now ticks) =
    (if negb (rate =? 0) && (ticks * rate <=? now - KiTickTsc s) then KiTickTsc s + ticks * rate else now).
Proof.
  unfold is_u64. intros Hb Hn Hr. cbn zeta. rewrite (u64_small (now - KiTickTsc s)) by (unfold is_u64; lia).
  unfold advance_clock. cbn -[u64 KiTicksElapsed Z.mul Z.leb Z.eqb negb andb].
  rewrite (u64_small (now - KiTickTsc s)) by (unfold is_u64; lia).
  set (elapsed := now - KiTickTsc s). set (rate := KiTscPerMillisecond s) in *.
  destruct (Z.eqb_spec rate 0) as [E|Hr0]; [done|]. cbn [negb andb].
  assert (Hsmall : is_u64 (KiTicksElapsed elapsed rate * rate)).
  { unfold is_u64, KiTicksElapsed. rewrite (proj2 (Z.eqb_neq rate 0)) by done.
    pose proof (Z.mul_div_le elapsed rate ltac:(lia)). assert (0 <= elapsed / rate) by (apply Z.div_pos; lia).
    destruct (Z.eqb_spec (elapsed / rate) 0); [lia|]. unfold KI_MAX_CATCHUP_TICKS.
    destruct (Z.ltb_spec 1000 (elapsed / rate)); nia. }
  rewrite (u64_small _ Hsmall). destruct (Z.leb_spec (KiTicksElapsed elapsed rate * rate) elapsed); [|done].
  apply u64_small. unfold is_u64 in *. lia.
Qed.
End tick.

Section clock_theorems.
Implicit Types (s : KSTATE) (t a x now : Z) (th : KTHREAD) (o : KOBJECT) (b : KWAIT_BLOCK).

(** What the clock interrupt is entitled to: a counter that has not run
    backwards, clocks far from wrapping, and completions that name events. *)
Record tick_call s now (completed : list addr) : Prop := {
  tc_inv : ke_inv s;
  tc_now : 0 <= KiTickTsc s <= now;
  tc_width : is_u64 now;
  tc_rate : is_u64 (KiTscPerMillisecond s);
  tc_room : 0 <= KiInterruptTime s /\
    KiInterruptTime s + (KI_MAX_CATCHUP_TICKS + 2 ^ 31) * KI_100NS_PER_TICK < 2 ^ 64;
  tc_events : all_events s completed;
  tc_depth : depth_ok s;
}.

Lemma usd_inv s : ke_inv s -> ke_inv (KiUpdateUserSharedDataTime s).
Proof.
  intros H. unfold KiUpdateUserSharedDataTime. destruct (KiUserSharedData s); [|done].
  eapply (ke_inv_fields s); try done. apply H.
Qed.

Lemma usd_rest s : exists p, KiUpdateUserSharedDataTime s = s <| KiUserSharedData := p |>.
Proof.
  unfold KiUpdateUserSharedDataTime. destruct (KiUserSharedData s) eqn:E; [by eexists|].
  exists None. rewrite <- E. by destruct s.
Qed.

(** Everything one tick does, before its reading as a theorem. *)
Lemma KiUpdateClock_spec s now interruptedUser completed :
  tick_call s now completed ->
  let ticks := KiTicksElapsed (u64 (now - KiTickTsc s)) (KiTscPerMillisecond s) in
  returns (KiUpdateClock s now interruptedUser completed) (fun s' => ke_inv s' /\
    1 <= ticks <= KI_MAX_CATCHUP_TICKS /\
    exists s3, ke_inv s3 /\ charges s interruptedUser (ticks * KI_100NS_PER_TICK) s3 /\
      (forall x, option_Forall2 clocked_thread (threads s !! x) (threads s3 !! x)) /\
      s3 = advance_clock s now ticks <| threads := threads s3 |> <| KiUserSharedData := KiUserSharedData s3 |>
        <| KiIdleTime100ns := KiIdleTime100ns s3 |> <| KiTotalKernelTime100ns := KiTotalKernelTime100ns s3 |>
        <| KiTotalUserTime100ns := KiTotalUserTime100ns s3 |> /\
      ticked (KiInterruptTime s3) s3 s' /\
      (forall a, a ∈ KiTimerListHead s' -> KiInterruptTime s3 < due s' a)).
Proof.
  intros [Hinv Hb Hw Hrate [Hr1 Hr2] Hev Hd]. set (ticks := KiTicksElapsed _ _).
  assert (Hticks : 1 <= ticks <= KI_MAX_CATCHUP_TICKS).
  { apply KiTicksElapsed_range; [apply u64_range|apply Hrate]. }
  unfold KiUpdateClock. fold ticks. apply returns_bind. eapply returns_mono; [by apply charge_spec|].
  intros s2 [Hinv2 Hbuck Hthr Hrest]. pose proof (ki_clock _ Hinv2) as Hclk. unfold clock_inv in Hclk.
  rewrite <- Hclk, Z.eqb_refl. run. destruct (usd_rest s2) as [page Epage].
  set (s3 := KiUpdateUserSharedDataTime s2) in *. assert (Hinv3 : ke_inv s3) by (by apply usd_inv).
  assert (Enow : KiInterruptTime s3 = KiInterruptTime s + ticks * KI_100NS_PER_TICK).
  { rewrite Epage, Hrest. simpl. apply u64_small. unfold is_u64, KI_MAX_CATCHUP_TICKS, KI_100NS_PER_TICK in *. lia. }
  apply returns_bind. eapply returns_mono.
  - apply (expire_timers_spec _ s3); [apply Hinv3..| |].
    + unfold now_ok. rewrite Enow. unfold KI_MAX_CATCHUP_TICKS, KI_100NS_PER_TICK in *. lia.
    + apply filter_length_le.
  - intros s4 (Hc4 & Hq4 & Hcur4 & Ht4 & Hdue4).
    assert (Hinv4 : ke_inv s4).
    { split; try done. pose proof (ki_clock _ Hinv3) as H. unfold clock_inv in *.
      by rewrite (tk_rest _ _ _ Ht4). }
    assert (Hev4 : all_events s4 completed).
    { intros a Ha. destruct (Hev a Ha) as (o & Ho & Hty).
      assert (Ho3 : objects s3 !! a = Some o) by (by rewrite Epage, Hrest).
      destruct (Forall2_Some_l _ _ _ _ (tk_objects _ _ _ Ht4 a) Ho3) as (o4 & Ho4 & [E _ _ _]).
      exists o4. by rewrite E. }
    assert (Hd4 : depth_ok s4) by (unfold depth_ok in *; by rewrite (tk_rest _ _ _ Ht4), Epage, Hrest).
    eapply returns_mono; [by apply drain_spec|]. intros s' [Hinv' Ht']. split; [done|]. split; [done|].
    exists s3. split_and!; try done.
    + unfold charges in *. by rewrite Epage.
    + intros x. rewrite Epage. apply Hthr.
    + clearbody s3. rewrite Epage. rewrite Hrest at 1. by destruct s2.
    + eapply ticked_trans; [|done|by apply tested_ticked]. intros x ox Hox.
      by apply (ti_period _ _ (kb_timer _ _ (proj1 (ki_core _ Hinv3))) x).
    + intros a Ha.
      assert (Ha4 : a ∈ KiTimerListHead s4) by (by eapply elem_of_sublist; [|apply Ht']).
      specialize (Hdue4 a Ha4). unfold due in *. destruct (te_objects _ _ Ht' a) as [o4 o' [_ _ E _ _ _]|]; [|done].
      simpl in *. by rewrite E.
Qed.

(** C18. A clock interrupt never panics and keeps the dispatcher invariant.
    The clock moves by between 1 and 1000 ticks, all charged to one bucket (so
    the accounting assertion holds), the interpolation base never passes the
    counter, and no thread is switched.  Exactly the timers that are due fire:
    a one-shot timer leaves the queue, a periodic one is due one period after
    now, every other keeps its deadline; afterwards every queued timer is due
    later than now, and every thread whose timeout was due is READY. *)
Theorem KiUpdateClock_correct s now interruptedUser completed :
  tick_call s now completed ->
  returns (KiUpdateClock s now interruptedUser completed) (fun s' => exists ticks,
    ke_inv s' /\ 1 <= ticks <= KI_MAX_CATCHUP_TICKS /\
    KiInterruptTime s' = KiInterruptTime s + ticks * KI_100NS_PER_TICK /\
    KeTickCount s' = u64 (KeTickCount s + ticks) /\
    charges s interruptedUser (ticks * KI_100NS_PER_TICK) s' /\
    KiTickTsc s' <= now /\ KiCurrentThread s' = KiCurrentThread s /\
    (forall a, a ∈ KiTimerListHead s' -> KiInterruptTime s' < due s' a) /\
    (forall a o, objects s !! a = Some o -> is_timer (type o) -> free_timer s a ->
       exists o', objects s' !! a = Some o' /\
       if inserted o && (dueTime o <=? KiInterruptTime s')
       then if period o =? 0 then inserted o' = false
            else inserted o' = true /\ dueTime o' = KiInterruptTime s' + period o * KI_100NS_PER_TICK
       else inserted o' = inserted o /\ dueTime o' = dueTime o) /\
    (forall t th, threads s !! t = Some th -> timerArmed th = true -> due s (timer th) <= KiInterruptTime s' ->
       exists th', threads s' !! t = Some th' /\ state th' = KI_THREAD_STATE_READY)).
Proof.
  intros Hcall. eapply returns_mono; [by apply KiUpdateClock_spec|]. cbn beta zeta.
  set (ticks := KiTicksElapsed _ _).
  intros s' (Hinv' & Hticks & s3 & Hinv3 & Hbuck & Hthr & Hrest & Htk & Hdue). exists ticks.
  pose proof Hcall as [Hinv Hb Hw Hrate [Hr1 Hr2] _ _].
  assert (Enow : KiInterruptTime s3 = KiInterruptTime s + ticks * KI_100NS_PER_TICK).
  { rewrite Hrest. simpl. apply u64_small. unfold is_u64, KI_MAX_CATCHUP_TICKS, KI_100NS_PER_TICK in *. lia. }
  assert (Enow' : KiInterruptTime s' = KiInterruptTime s3) by (by rewrite (tk_rest _ _ _ Htk)).
  assert (Eobj : objects s3 = objects s) by (by rewrite Hrest).
  assert (Hother : forall a o, objects s !! a = Some o -> is_timer (type o) -> free_timer s a ->
    exists o', objects s' !! a = Some o' /\ fires (KiInterruptTime s') o o').
  { intros a o Ho Hty Hfree. rewrite <- Eobj in Ho.
    destruct (Forall2_Some_l _ _ _ _ (tk_objects _ _ _ Htk a) Ho) as (o' & Ho' & _).
    exists o'. split; [done|]. rewrite Enow'. apply (tk_free _ _ _ Htk a); try done.
    intros t th3 Hth3. destruct (Forall2_Some_r _ _ _ _ (Hthr t) Hth3) as (th & Hth & E).
    rewrite E. change (timer th <> a). by apply (Hfree t). }
  assert (Hlate : forall a o', objects s' !! a = Some o' -> inserted o' = true -> KiInterruptTime s' < dueTime o').
  { intros a o' Ho' Hi. rewrite Enow'.
    assert (Ha : a ∈ KiTimerListHead s') by (apply (ti_mem _ _ (kb_timer _ _ (proj1 (ki_core _ Hinv')))); by exists o').
    specialize (Hdue a Ha). unfold due in Hdue. by rewrite Ho' in Hdue. }
  split_and!; try done; try (by rewrite Enow'); try lia.
  - rewrite (tk_rest _ _ _ Htk), Hrest. done.
  - unfold charges in *. by rewrite (tk_rest _ _ _ Htk).
  - assert (E : KiTickTsc s' = KiTickTsc (advance_clock s now ticks)) by (by rewrite (tk_rest _ _ _ Htk), Hrest).
    rewrite E. unfold ticks. rewrite (tick_base s now Hb Hw Hrate). cbn zeta. fold ticks.
    destruct (Z.eqb_spec (KiTscPerMillisecond s) 0); cbn [negb andb]; [lia|].
    destruct (Z.leb_spec (ticks * KiTscPerMillisecond s) (now - KiTickTsc s)); lia.
  - rewrite (tk_rest _ _ _ Htk), Hrest. done.
  - intros a o Ho Hty Hfree. destruct (Hother a o Ho Hty Hfree) as (o' & Ho' & Hf). exists o'. split; [done|].
    unfold fires in Hf. destruct (inserted o) eqn:Ei; cbn [andb].
    + destruct (Z.leb_spec (dueTime o) (KiInterruptTime s')) as [Hle|Hgt].
      * destruct Hf as [[Hi' Hd']|(_ & _ & Hcase)].
        -- specialize (Hlate a o' Ho' Hi'). lia.
        -- destruct (period o =? 0); [by destruct Hcase|done].
      * destruct Hf as [?|(_ & ? & _)]; [done|lia].
    + destruct Hf as [?|(? & _)]; done.
  - intros t th Hth Harm Hle.
    destruct (Forall2_Some_l _ _ _ _ (Hthr t) Hth) as (th3 & Hth3 & E3).
    destruct (Forall2_Some_l _ _ _ _ (tk_threads _ _ _ Htk t) Hth3) as (th' & Hth' & Ht').
    exists th'. split; [done|]. destruct Ht' as [->|[_ ->]]; [|done]. exfalso.
    destruct (ti_thread _ _ (kb_timer _ _ (proj1 (ki_core _ Hinv'))) t th3 Hth') as (o' & Ho' & _ & _ & Hi').
    assert (Etm : timer th3 = timer th) by (by rewrite E3).
    assert (Earm : timerArmed th3 = timerArmed th) by (by rewrite E3).
    rewrite Etm in Ho'. specialize (Hi' ltac:(done)). rewrite Earm, Harm in Hi'.
    specialize (Hlate _ _ Ho' Hi').
    destruct (ti_thread _ _ (kb_timer _ _ (proj1 (ki_core _ Hinv))) t th Hth) as (o & Ho & _ & Hp & _).
    pose proof (tk_objects _ _ _ Htk (timer th)) as Hx. rewrite Eobj, Ho, Ho' in Hx.
    inversion Hx as [? ? [_ _ _ Ed]|]; subst. specialize (Ed Hp). unfold due in Hle. rewrite Ho in Hle. simpl in Hle. lia.
Qed.

(** *** Reading the clock *)

Definition max_fraction : Z := KI_MAX_FRACTION_TICKS * KI_100NS_PER_TICK - 1.

Lemma KiTickFraction_eq s tsc :
  0 <= KiTickTsc s <= tsc -> is_u64 tsc -> 0 <= KiTscPerMillisecond s < 2 ^ 40 ->
  KiTickFraction s tsc =
    if KiTscPerMillisecond s =? 0 then 0
    else if KiTscPerMillisecond s * KI_MAX_FRACTION_TICKS <=? tsc - KiTickTsc s then max_fraction
    else (tsc - KiTickTsc s) * KI_100NS_PER_TICK / KiTscPerMillisecond s.
Proof.
  unfold is_u64, KiTickFraction, max_fraction, KI_MAX_FRACTION_TICKS, KI_100NS_PER_TICK. intros Hb Ht Hr.
  destruct (Z.eqb_spec (KiTscPerMillisecond s) 0); [done|].
  rewrite (u64_small (tsc - KiTickTsc s)), (u64_small (KiTscPerMillisecond s * 40)) by (unfold is_u64; lia).
  destruct (Z.leb_spec (KiTscPerMillisecond s * 40) (tsc - KiTickTsc s)); [done|].
  rewrite u64_small by (unfold is_u64; nia). done.
Qed.

Lemma KiTickFraction_range s tsc :
  0 <= KiTickTsc s <= tsc -> is_u64 tsc -> 0 <= KiTscPerMillisecond s < 2 ^ 40 ->
  0 <= KiTickFraction s tsc <= max_fraction.
Proof.
  intros Hb Ht Hr. rewrite KiTickFraction_eq by done.
  unfold max_fraction, KI_MAX_FRACTION_TICKS, KI_100NS_PER_TICK.
  destruct (Z.eqb_spec (KiTscPerMillisecond s) 0); [lia|].
  destruct (Z.leb_spec (KiTscPerMillisecond s * 40) (tsc - KiTickTsc s)); [lia|].
  split; [apply Z.div_pos; lia|]. apply Z.lt_succ_r. apply Z.div_lt_upper_bound; lia.
Qed.

Lemma KiTickFraction_mono s tsc tsc' :
  0 <= KiTickTsc s <= tsc -> tsc <= tsc' -> is_u64 tsc' -> 0 <= KiTscPerMillisecond s < 2 ^ 40 ->
  KiTickFraction s tsc <= KiTickFraction s tsc'.
Proof.
  intros Hb Hle Ht Hr. unfold is_u64 in Ht.
  pose proof (KiTickFraction_range s tsc ltac:(lia) ltac:(unfold is_u64; lia) Hr) as Hrange.
  rewrite KiTickFraction_eq in Hrange |- * by (unfold is_u64; lia).
  rewrite KiTickFraction_eq by (unfold is_u64; lia).
  destruct (Z.eqb_spec (KiTscPerMillisecond s) 0); [done|].
  destruct (Z.leb_spec (KiTscPerMillisecond s * KI_MAX_FRACTION_TICKS) (tsc' - KiTickTsc s)); [lia|].
  destruct (Z.leb_spec (KiTscPerMillisecond s * KI_MAX_FRACTION_TICKS) (tsc - KiTickTsc s)); [lia|].
  apply Z.div_le_mono; [lia|]. unfold KI_100NS_PER_TICK. lia.
Qed.

(** The fraction a tick leaves behind makes up for the ticks it accounted. *)
Lemma tick_keeps_time s now tsc tsc' :
  0 <= KiTickTsc s <= tsc -> tsc <= now -> now <= tsc' -> is_u64 tsc' -> 0 <= KiTscPerMillisecond s < 2 ^ 40 ->
  let ticks := KiTicksElapsed (u64 (now - KiTickTsc s)) (KiTscPerMillisecond s) in
  KiTickFraction s tsc <= ticks * KI_100NS_PER_TICK + KiTickFraction (advance_clock s now ticks) tsc'.
Proof.
  intros Hb Hle Hle' Ht Hr. cbn zeta. set (ticks := KiTicksElapsed _ _). unfold is_u64 in Ht.
  set (s1 := advance_clock s now ticks). set (rate := KiTscPerMillisecond s) in *.
  assert (Hticks : 1 <= ticks <= KI_MAX_CATCHUP_TICKS).
  { apply KiTicksElapsed_range; [apply u64_range|lia]. }
  assert (Ebase : KiTickTsc s1 = if negb (rate =? 0) && (ticks * rate <=? now - KiTickTsc s)
      then KiTickTsc s + ticks * rate else now).
  { apply (tick_base s now); unfold is_u64; fold rate; lia. }
  assert (Eticks : ticks = KiTicksElapsed (now - KiTickTsc s) rate).
  { unfold ticks. rewrite u64_small; [done|]. unfold is_u64. lia. }
  pose proof (KiTickFraction_range s tsc ltac:(lia) ltac:(unfold is_u64; lia) Hr) as Hrange.
  assert (Hb1 : 0 <= KiTickTsc s1 <= now).
  { rewrite Ebase. destruct (Z.eqb_spec rate 0); cbn [negb andb]; [lia|].
    destruct (Z.leb_spec (ticks * rate) (now - KiTickTsc s)); nia. }
  pose proof (KiTickFraction_range s1 tsc' ltac:(lia) ltac:(unfold is_u64; lia) Hr) as Hrange1.
  rewrite (KiTickFraction_eq s) by (unfold is_u64; lia). fold rate.
  pose proof (KiTickFraction_eq s1 tsc' ltac:(lia) ltac:(unfold is_u64; lia) Hr) as E1.
  change (KiTscPerMillisecond s1) with rate in E1. rewrite E1 in Hrange1 |- *. clear E1.
  destruct (Z.eqb_spec rate 0) as [E0|E0]; [unfold KI_100NS_PER_TICK; lia|]. cbn [negb andb] in Ebase.
  rewrite (KiTickFraction_eq s) in Hrange by (unfold is_u64; lia). fold rate in Hrange.
  rewrite (proj2 (Z.eqb_neq rate 0)) in Hrange by done.
  destruct (Z.leb_spec (rate * KI_MAX_FRACTION_TICKS) (tsc' - KiTickTsc s1)) as [_|Hlt].
  { unfold KI_100NS_PER_TICK in *. lia. }
  unfold KI_100NS_PER_TICK, KI_MAX_FRACTION_TICKS in *.
  destruct (Z.leb_spec (ticks * rate) (now - KiTickTsc s)) as [Hwhole|Hshort].
  - rewrite Ebase in *. rewrite <- Z.div_add_l by lia.
    assert (Hnum : (tsc - KiTickTsc s) * 10000 <=
      ticks * 10000 * rate + (tsc' - (KiTickTsc s + ticks * rate)) * 10000) by nia.
    destruct (Z.leb_spec (rate * 40) (tsc - KiTickTsc s)) as [Hclamp|_].
    + unfold max_fraction, KI_MAX_FRACTION_TICKS, KI_100NS_PER_TICK in *.
      apply Z.div_le_lower_bound; [lia|]. nia.
    + by apply Z.div_le_mono; [lia|].
  - assert (Hsmall : now - KiTickTsc s < rate).
    { rewrite Eticks in Hshort. unfold KiTicksElapsed, KI_MAX_CATCHUP_TICKS in Hshort.
      rewrite (proj2 (Z.eqb_neq rate 0)) in Hshort by done.
      pose proof (Z.mul_div_le (now - KiTickTsc s) rate ltac:(lia)).
      destruct (Z.eqb_spec ((now - KiTickTsc s) / rate) 0) as [Ez|]; [lia|].
      destruct (Z.ltb_spec 1000 ((now - KiTickTsc s) / rate)); nia. }
    destruct (Z.leb_spec (rate * 40) (tsc - KiTickTsc s)); [nia|].
    assert ((tsc - KiTickTsc s) * 10000 / rate < 10000) by (apply Z.div_lt_upper_bound; nia).
    assert (0 <= (tsc' - KiTickTsc s1) * 10000 / rate) by (apply Z.div_pos; nia). lia.
Qed.

(** The clock queries never run backwards: not between two reads, and not
    across a tick, whatever ticks the platform failed to deliver, early or late.
    A system clock set to an instant reads that instant. *)
Theorem clock_queries_monotone s now tsc tsc' interruptedUser completed newTime :
  tick_call s now completed -> KiTscPerMillisecond s < 2 ^ 40 ->
  KiTickTsc s <= tsc -> tsc <= now -> now <= tsc' -> is_u64 tsc' -> - 2 ^ 63 <= newTime < 2 ^ 63 ->
  KeQueryInterruptTime s tsc <= KeQueryInterruptTime s now /\
  returns (KiUpdateClock s now interruptedUser completed) (fun s' =>
    KeQueryInterruptTime s tsc <= KeQueryInterruptTime s' tsc') /\
  KeQuerySystemTime (KeSetSystemTime s tsc newTime) tsc = newTime.
Proof.
  intros Hcall Hrate Hb Hle Hle' Ht Hnew. pose proof Hcall as [Hinv Hbase Hw Hr [Hr1 Hr2] _ _].
  unfold is_u64 in *.
  pose proof (KiTickFraction_range s tsc ltac:(lia) ltac:(unfold is_u64; lia) ltac:(lia)) as Hf.
  pose proof (KiTickFraction_range s now ltac:(lia) ltac:(unfold is_u64; lia) ltac:(lia)) as Hfn.
  unfold max_fraction, KI_MAX_CATCHUP_TICKS, KI_MAX_FRACTION_TICKS, KI_100NS_PER_TICK in *.
  assert (Eq : KeQueryInterruptTime s tsc = KiInterruptTime s + KiTickFraction s tsc).
  { apply u64_small. unfold is_u64. lia. }
  split_and!.
  - rewrite Eq. unfold KeQueryInterruptTime. rewrite u64_small by (unfold is_u64; lia).
    enough (KiTickFraction s tsc <= KiTickFraction s now) by lia.
    apply KiTickFraction_mono; unfold is_u64; lia.
  - eapply returns_mono; [by apply KiUpdateClock_spec|]. cbn beta zeta.
    intros s' (_ & Hticks & s3 & _ & _ & _ & Hrest & Htk & _).
    pose proof (tick_keeps_time s now tsc tsc' ltac:(lia) Hle Hle' Ht ltac:(lia)) as Hkeep. cbn zeta in Hkeep.
    set (ticks := KiTicksElapsed _ _) in *. set (s1 := advance_clock s now ticks) in *.
    assert (Ef : KiTickFraction s' tsc' = KiTickFraction s1 tsc').
    { unfold KiTickFraction. by rewrite (tk_rest _ _ _ Htk), Hrest. }
    assert (Ei : KiInterruptTime s' = KiInterruptTime s + ticks * KI_100NS_PER_TICK).
    { rewrite (tk_rest _ _ _ Htk), Hrest. simpl. apply u64_small.
      unfold is_u64, KI_MAX_CATCHUP_TICKS, KI_100NS_PER_TICK in *. lia. }
    assert (Hb1 : 0 <= KiTickTsc s1 <= now).
    { unfold s1, ticks. rewrite (tick_base s now) by (unfold is_u64; lia). fold ticks.
      destruct (Z.eqb_spec (KiTscPerMillisecond s) 0); cbn [negb andb]; [lia|].
      destruct (Z.leb_spec (ticks * KiTscPerMillisecond s) (now - KiTickTsc s)); nia. }
    pose proof (KiTickFraction_range s1 tsc' ltac:(lia) ltac:(unfold is_u64; lia)
      ltac:(change (0 <= KiTscPerMillisecond s < 2 ^ 40); lia)) as Hf1.
    rewrite Eq. unfold KeQueryInterruptTime. rewrite Ei, Ef.
    unfold max_fraction, KI_MAX_CATCHUP_TICKS, KI_MAX_FRACTION_TICKS, KI_100NS_PER_TICK in *.
    rewrite u64_small by (unfold is_u64; lia). lia.
  - unfold KeSetSystemTime. set (s1 := s <| KiSystemTimeBase := _ |>).
    destruct (usd_rest s1) as [page ->]. unfold KeQuerySystemTime.
    change (KeQueryInterruptTime (s1 <| KiUserSharedData := page |>) tsc) with (KeQueryInterruptTime s tsc).
    change (KiSystemTimeBase (s1 <| KiUserSharedData := page |>))
      with (u64 (u64 newTime - KeQueryInterruptTime s tsc)).
    rewrite u64_absorb_l, Z.sub_add, (u64_small (u64 newTime)) by apply u64_range. by apply s64_u64.
Qed.
End clock_theorems.

(** *** The shared page under a concurrent reader

    User mode reads High1Time, LowPart and High2Time, in that order, and
    retries unless the two high words agree.  [page_after t l n] is the page
    after the first [n] stores of a series of writes of the values [l]. *)

Section shared_page.
Implicit Types (t : KSYSTEM_TIME) (v : Z) (l : list Z).

Definition page_stores l : list store := concat (map KiWriteKSystemTime_stores l).

Definition page_after t l (n : nat) : KSYSTEM_TIME := foldl apply_store t (take n (page_stores l)).

Definition high v : Z := s32 (Z.shiftr v 32).

Lemma page_after_spec t v0 l n :
  (n <= length (page_stores l))%nat ->
  let p := page_after (KiWriteKSystemTime t v0) l n in
  exists v1 v2 v3, (v0 :: l) !! (n / 3)%nat = Some v1 /\ (v0 :: l) !! ((n + 1) / 3)%nat = Some v2 /\
    (v0 :: l) !! ((n + 2) / 3)%nat = Some v3 /\
    High1Time p = high v1 /\ LowPart p = u32 v2 /\ High2Time p = high v3.
Proof.
  revert t v0 n. induction l as [|v l IH]; intros t v0 n Hn.
  { destruct n; [|simpl in Hn; lia]. exists v0, v0, v0. by split_and!. }
  destruct n as [|[|[|n]]].
  - exists v0, v0, v0. by split_and!.
  - exists v0, v0, v. by split_and!.
  - exists v0, v, v. by split_and!.
  - assert (E : forall k, ((S (S (S n)) + k) / 3 = S ((n + k) / 3))%nat).
    { intros k. replace (S (S (S n)) + k)%nat with ((n + k) + 1 * 3)%nat by lia. rewrite Nat.div_add by lia. lia. }
    pose proof (E 0%nat) as E0. rewrite !Nat.add_0_r in E0.
    rewrite E0, E, E. simpl in Hn. apply (IH (KiWriteKSystemTime t v0) v n). unfold page_stores. lia.
Qed.

Lemma high_inj v v' : is_u64 v -> is_u64 v' -> high v = high v' -> v / 2 ^ 32 = v' / 2 ^ 32.
Proof.
  unfold high, s32, is_u64. rewrite !Z.shiftr_div_pow2 by lia. intros Hv Hv' E.
  assert (0 <= v / 2 ^ 32 < 2 ^ 32) by (split; [apply Z.div_pos; lia|apply Z.div_lt_upper_bound; lia]).
  assert (0 <= v' / 2 ^ 32 < 2 ^ 32) by (split; [apply Z.div_pos; lia|apply Z.div_lt_upper_bound; lia]).
  set (x := v / 2 ^ 32) in *. set (y := v' / 2 ^ 32) in *.
  destruct (Z.lt_ge_cases x (2 ^ 31)), (Z.lt_ge_cases y (2 ^ 31));
    rewrite ?(Z.mod_small (x + _)), ?(Z.mod_small (y + _)) in E by lia;
    rewrite <- ?(Z.mod_unique (x + 2 ^ 31) (2 ^ 32) 1 (x - 2 ^ 31)), <- ?(Z.mod_unique (y + 2 ^ 31) (2 ^ 32) 1 (y - 2 ^ 31)) in E by lia;
    lia.
Qed.

(** A reader of a shared time never sees a torn value: whatever the
    interleaving of its three reads with any series of clock writes, as long as
    the clock does not run backwards, two agreeing high words mean that the
    three words are one value that was on the page during the read. *)
Theorem KiWriteKSystemTime_no_torn_read t v0 l (i j k : nat) :
  Forall is_u64 (v0 :: l) -> StronglySorted Z.le (v0 :: l) ->
  (i <= j)%nat -> (j <= k)%nat -> (k <= length (page_stores l))%nat ->
  High1Time (page_after (KiWriteKSystemTime t v0) l i) =
  High2Time (page_after (KiWriteKSystemTime t v0) l k) ->
  exists m v, (i / 3 <= m <= (k + 2) / 3)%nat /\ (v0 :: l) !! m = Some v /\
    High1Time (page_after (KiWriteKSystemTime t v0) l i) = high v /\
    LowPart (page_after (KiWriteKSystemTime t v0) l j) = u32 v.
Proof.
  intros Hu Hsort Hij Hjk Hk Eq.
  destruct (page_after_spec t v0 l i ltac:(lia)) as (v1 & _ & _ & H1 & _ & _ & E1 & _ & _).
  destruct (page_after_spec t v0 l j ltac:(lia)) as (_ & v2 & _ & _ & H2 & _ & _ & E2 & _).
  destruct (page_after_spec t v0 l k ltac:(lia)) as (_ & _ & v3 & _ & _ & H3 & _ & _ & E3).
  rewrite E1, E3 in Eq. rewrite E1, E2.
  assert (Hle : forall a b va vb, (a <= b)%nat -> (v0 :: l) !! a = Some va -> (v0 :: l) !! b = Some vb -> va <= vb).
  { intros a b va vb Hab Ha Hb. destruct (decide (a = b)) as [->|Hne]; [assert (va = vb) as -> by congruence; lia|].
    apply (StronglySorted_nth Z.le (v0 :: l) a b); [done|lia|done..]. }
  assert (M1 : (i / 3 <= (j + 1) / 3)%nat) by (apply Nat.Div0.div_le_mono; lia).
  assert (M2 : ((j + 1) / 3 <= (k + 2) / 3)%nat) by (apply Nat.Div0.div_le_mono; lia).
  exists ((j + 1) / 3)%nat, v2. split; [lia|]. split; [done|]. split; [|done].
  pose proof (Hle _ _ _ _ M1 H1 H2). pose proof (Hle _ _ _ _ M2 H2 H3).
  rewrite Forall_forall in Hu.
  apply high_inj in Eq; [|apply Hu; by eapply list_elem_of_lookup_2..].
  unfold high. rewrite !Z.shiftr_div_pow2 by lia. f_equal.
  assert (v1 / 2 ^ 32 <= v2 / 2 ^ 32) by (apply Z.div_le_mono; lia).
  assert (v2 / 2 ^ 32 <= v3 / 2 ^ 32) by (apply Z.div_le_mono; lia). lia.
Qed.
End shared_page.

(** *** Setting and cancelling *)

Section set_timer.
Implicit Types (s : KSTATE) (t a x now : Z) (th : KTHREAD) (o : KOBJECT) (b : KWAIT_BLOCK).

(** The state with [a], a timer no thread owns, off the queue. *)
Definition cancelled s a o : KSTATE :=
  retimed s a o (signalState o) false (dueTime o) (period o) (unlink a (KiTimerListHead s)).

Lemma remove_if_pending s a o :
  timer_inv None s -> objects s !! a = Some o ->
  (if inserted o then KiRemoveTimer s a else Ok s) = Ok (cancelled s a o).
Proof.
  intros Ht Ho. destruct (inserted o) eqn:Ei; [by apply KiRemoveTimer_eq|].
  unfold cancelled, retimed, put_object, retimed_object. rewrite unlink_not_elem.
  - f_equal. destruct s; simpl in *. f_equal. symmetry. apply insert_id. rewrite Ho. f_equal.
    destruct o; simpl in *. by subst.
  - intros Hin. apply (ti_mem _ _ Ht) in Hin as (o' & ? & ?). congruence.
Qed.

Lemma timer_signal s a o : ke_inv s -> objects s !! a = Some o -> is_timer (type o) -> 0 <= signalState o <= 1.
Proof.
  intros Hinv Ho Hty. destruct (oi_object _ (kb_object _ _ (proj1 (ki_core _ Hinv))) _ _ Ho) as [_ Hf].
  apply Hf; by destruct Hty as [-> | ->].
Qed.

Lemma retimed_inv s a o v i d p l :
  ke_inv s -> retime_ok None s a o v i d p l -> v <= signalState o -> ke_inv (retimed s a o v i d p l).
Proof.
  intros [Hc Hq Hcur Hclk] Hok Hle. split; [by apply retimed_core| |done|done].
  by apply (retimed_quiet None).
Qed.

Lemma set_timer_contract s a o d p dpc :
  ke_inv s -> objects s !! a = Some o -> is_timer (type o) -> free_timer s a -> p < 2 ^ 31 ->
  (if (dpc =? 0) && (0 <=? p)
   then returns (KeSetTimerEx s a d p dpc) (fun '(was, s') => was = inserted o /\ ke_inv s' /\
     exists l1 l2, unlink a (KiTimerListHead s) = l1 ++ l2 /\
       s' = retimed s a o 0 true (KiComputeDueTime s d) p (l1 ++ a :: l2) /\
       Forall (fun y => due s y <= KiComputeDueTime s d) l1 /\
       Forall (fun y => KiComputeDueTime s d < due s y) l2)
   else exists why, KeSetTimerEx s a d p dpc = Panic why) /\
  KeCancelTimer s a = Ok (inserted o, cancelled s a o) /\ ke_inv (cancelled s a o).
Proof.
  intros Hinv Ho Hty Hfree Hp. pose proof (kb_timer _ _ (proj1 (ki_core _ Hinv))) as Ht.
  pose proof (timer_signal s a o Hinv Ho Hty) as Hsig.
  assert (Hoff : forall v q, 0 <= v <= 1 -> 0 <= q < 2 ^ 31 ->
    retime_ok None s a o v false (dueTime o) q (unlink a (KiTimerListHead s))).
  { intros v q Hv Hq. rewrite <- (timer_exc_free s a Hfree). apply removed_ok; try done.
    by rewrite timer_exc_free. }
  split_and!.
  - destruct (Z.eqb_spec dpc 0) as [->|Hdpc]; cbn [andb].
    2: { unfold KeSetTimerEx. rewrite (proj2 (Z.eqb_neq dpc 0)) by done. cbn. eauto. }
    unfold KeSetTimerEx. cbn [Z.eqb negb]. destruct (Z.leb_spec 0 p).
    2: { rewrite (proj2 (Z.ltb_lt p 0)) by lia. eauto. }
    rewrite (proj2 (Z.ltb_ge p 0)) by lia. unfold get_object. rewrite Ho. run.
    rewrite (remove_if_pending s a o Ht Ho). run. unfold cancelled. rewrite !retimed_lookup, decide_True by done. run.
    match goal with |- returns (KiInsertTimer ?s2 a ?dd ≫= _) _ =>
      assert (E : s2 = retimed s a o 0 false (dueTime o) p (unlink a (KiTimerListHead s))); [|rewrite !E; clear E] end.
    { unfold retimed, put_object. simpl. rewrite insert_insert_eq. by destruct o. }
    change (KiComputeDueTime (retimed s a o 0 false (dueTime o) p (unlink a (KiTimerListHead s))) d)
      with (KiComputeDueTime s d).
    apply returns_bind. eapply returns_mono.
    + apply (KiInsertTimer_retimed None s a o 0 (dueTime o) p _ (KiComputeDueTime s d) Ht).
      * apply Hoff; lia.
      * apply due_nonneg, Hinv.
    + intros s' (l1 & l2 & El & -> & Hok & Hl1 & Hl2). cbn [returns]. split; [done|].
      split; [apply retimed_inv; [done..|lia]|]. by exists l1, l2.
  - unfold KeCancelTimer, get_object. rewrite Ho. run. by rewrite (remove_if_pending s a o Ht Ho).
  - apply retimed_inv; [done| |lia]. apply Hoff; [done|]. by apply (ti_period _ _ Ht a).
Qed.

(** C33. Setting a timer that belongs to no thread reports whether it was
    pending, and leaves it reset, with its period, queued behind every timer
    due no later and before every timer due strictly later; cancelling takes it
    off the queue and leaves its signal alone.  Neither touches anything else,
    wakes anybody or breaks the invariant; a DPC or a negative period panics. *)
Theorem KeSetTimerEx_KeCancelTimer_correct s a o d p dpc :
  ke_inv s -> objects s !! a = Some o -> is_timer (type o) -> free_timer s a -> p < 2 ^ 31 ->
  (if (dpc =? 0) && (0 <=? p)
   then returns (KeSetTimerEx s a d p dpc) (fun '(was, s') => was = inserted o /\ ke_inv s' /\
     exists l1 l2, unlink a (KiTimerListHead s) = l1 ++ l2 /\
       s' = retimed s a o 0 true (KiComputeDueTime s d) p (l1 ++ a :: l2) /\
       Forall (fun y => due s y <= KiComputeDueTime s d) l1 /\
       Forall (fun y => KiComputeDueTime s d < due s y) l2)
   else exists why, KeSetTimerEx s a d p dpc = Panic why) /\
  KeCancelTimer s a = Ok (inserted o, cancelled s a o) /\ ke_inv (cancelled s a o).
Proof. apply set_timer_contract. Qed.
End set_timer.

(** ** Concrete ticks *)

(** [ex_ke] with 1000 cycles per millisecond and a counter based at 0. *)
Definition ex_tick : KSTATE := ex_ke <| KiTscPerMillisecond := 1000 |>.

Lemma ex_tick_call : tick_call ex_tick 2500 [42].
Proof.
  split; try (unfold is_u64; vm_compute; repeat split; discriminate); try (vm_compute; repeat split; discriminate).
  - eapply (ke_inv_fields ex_ke); try done; apply ex_ke_inv.
  - intros a [->|Ha]%elem_of_cons; [|by apply elem_of_nil in Ha]. by eexists.
Qed.

(** Two whole ticks: the timeout of thread 4 and the periodic timer fire. *)
Lemma KiUpdateClock_correct_witness :
  (exists s', KiUpdateClock ex_tick 2500 true [42] = Ok s' /\ KiInterruptTime s' = 20100 /\ KiTickTsc s' = 2000 /\
     waitStatus <$> threads s' !! 4 = Some STATUS_TIMEOUT /\ KiTimerListHead s' = [60] /\
     dueTime <$> objects s' !! 60 = Some 120100) /\
  returns (KiUpdateClock ex_tick 2500 true [42]) (fun s' => exists ticks,
     ke_inv s' /\ 1 <= ticks <= KI_MAX_CATCHUP_TICKS).
Proof.
  split.
  - eexists. split; [by vm_compute|]. by vm_compute.
  - eapply returns_mono; [exact (KiUpdateClock_correct ex_tick 2500 true [42] ex_tick_call)|].
    intros s' (ticks & H1 & H2 & _). exists ticks. split; [exact H1|exact H2].
Defined.

Lemma clock_queries_monotone_witness :
  KeQueryInterruptTime ex_tick 700 = 7100 /\
  (KeQueryInterruptTime ex_tick 700 <= KeQueryInterruptTime ex_tick 2500 /\
   returns (KiUpdateClock ex_tick 2500 true [42]) (fun s' =>
     KeQueryInterruptTime ex_tick 700 <= KeQueryInterruptTime s' 2600) /\
   KeQuerySystemTime (KeSetSystemTime ex_tick 700 5) 700 = 5).
Proof.
  split; [reflexivity|].
  exact (clock_queries_monotone ex_tick 2500 700 2600 true [42] 5 ex_tick_call
    ltac:(reflexivity) ltac:(done) ltac:(done) ltac:(done) ltac:(split; done) ltac:(split; done)).
Defined.

(** A write from 2^32-1 to 2^32+6 caught between its stores. *)
Lemma KiWriteKSystemTime_no_torn_read_witness :
  let t := mkKSYSTEM_TIME 0 0 0 in
  exists m v, (3 / 3 <= m <= (3 + 2) / 3)%nat /\ [2 ^ 32 - 1; 2 ^ 32 + 6] !! m = Some v /\
    High1Time (page_after (KiWriteKSystemTime t (2 ^ 32 - 1)) [2 ^ 32 + 6] 3) = high v /\
    LowPart (page_after (KiWriteKSystemTime t (2 ^ 32 - 1)) [2 ^ 32 + 6] 3) = u32 v.
Proof.
  exact (KiWriteKSystemTime_no_torn_read (mkKSYSTEM_TIME 0 0 0) (2 ^ 32 - 1) [2 ^ 32 + 6] 3 3 3
    ltac:(repeat constructor; done)
    ltac:(repeat constructor; vm_compute; discriminate) ltac:(lia) ltac:(lia) ltac:(vm_compute; lia) eq_refl).
Defined.

Lemma KeSetTimerEx_KeCancelTimer_correct_witness :
  returns (KeSetTimerEx ex_ke 60 (-400) 7 0) (fun '(was, s') => was = true /\ ke_inv s') /\
  KeCancelTimer ex_ke 60 = Ok (true, cancelled ex_ke 60 (ex_timer KI_OBJECT_SYNCHRONIZATION_TIMER 700 10 [])).
Proof.
  pose proof (KeSetTimerEx_KeCancelTimer_correct ex_ke 60 (ex_timer KI_OBJECT_SYNCHRONIZATION_TIMER 700 10 [])
    (-400) 7 0 ex_ke_inv eq_refl (or_intror eq_refl)
    ltac:(apply (bool_decide_unpack (map_Forall (fun _ th => timer th <> 60) (threads ex_ke))); vm_compute; exact I)
    ltac:(reflexivity)) as (H1 & H2 & _).
  split; [|exact H2]. eapply returns_mono; [exact H1|]. intros [was s'] (-> & H & _). split; [reflexivity|exact H].
Defined.
