(* ===== verification/KeApc.v ===== *)
(** * KeApc: user APCs, alerts, and the life of a thread (kernel/ke/apc.c,
    thread.c).

    A user-APC block's storage goes back through KiFreeUserApc; [reaped] is the
    log of those releases.  A KTHREAD's stack, register images and user-start
    fields are not part of the model: nothing here reads them. *)

From S2P Require Import Prelude NtStatus KeTypes KeSched KeWait KeInv KeCheck KeWaitSpec KeEvent KeTimer.

(** ** User APCs *)

Definition KiFreeUserApc (s : KSTATE) (apc : option KAPC) : KSTATE :=
  match apc with
  | None => s
  | Some a => s <| reaped := reaped s ++ [a] |>
  end.

Definition KiInsertQueueUserApc (s : KSTATE) (thread : addr) (apc : option KAPC) : outcome (bool * KSTATE) :=
  t ← get_thread s thread;
  if bool_decide (state t = KI_THREAD_STATE_TERMINATED) then Ok (false, KiFreeUserApc s apc) else
  match apc with
  | None => Ok (true, s)
  | Some a =>
      let t1 := t <| userApcListHead := userApcListHead t ++ [a] |> <| userApcPending := true |> in
      if bool_decide (state t1 = KI_THREAD_STATE_WAITING) && waitAlertable t1 then
        s1 ← KiUnwaitThreadWithStatus
               (put_thread s thread (t1 <| apcDeliverPending := true |> <| waitAlertable := false |>))
               thread STATUS_USER_APC;
        Ok (true, s1)
      else Ok (true, put_thread s thread t1)
  end.

Definition KiUserApcPending (t : KTHREAD) : bool :=
  apcDeliverPending t && negb (bool_decide (userApcListHead t = [])).

Definition KiTestAlertCurrentThread (s : KSTATE) : outcome (bool * KSTATE) :=
  t ← get_thread s (KiCurrentThread s);
  let '(result, t1) := if alerted t then (true, t <| alerted := false |>) else (false, t) in
  let '(result, t2) := if bool_decide (userApcListHead t1 <> [])
                       then (true, t1 <| apcDeliverPending := true |>) else (result, t1) in
  Ok (result, put_thread s (KiCurrentThread s) t2).

Fixpoint drain_apcs (s : KSTATE) (l : list KAPC) : KSTATE :=
  match l with
  | [] => s
  | apc :: l' => drain_apcs (KiFreeUserApc s (Some apc)) l'
  end.

Definition KiDrainUserApcQueue (s : KSTATE) (thread : addr) : outcome KSTATE :=
  t ← get_thread s thread;
  let s1 := drain_apcs s (userApcListHead t) in
  Ok (put_thread s1 thread
        (t <| userApcListHead := [] |> <| userApcPending := false |> <| apcDeliverPending := false |>)).

(** ** Creation *)

(** The addresses of a new KTHREAD: itself and its embedded dispatcher
    objects. *)
Record thread_storage := mkthread_storage {
  stThread : addr;
  stTimer : addr;
  stGate : addr;
  stCancel : addr;
}.

Definition blank_object : KOBJECT :=
  mkKOBJECT KI_OBJECT_NOTIFICATION_EVENT false 0 [] 0 0 false false 0 0.

(** The KTHREAD MiAllocatePool returned, as KiCreateThreadSuspended writes it. *)
Definition created_thread (st : thread_storage) (pr : Z) (proc : addr) : KTHREAD :=
  mkKTHREAD KI_THREAD_STATE_INITIALIZED pr 0 false false 0 proc 0 [] false (stTimer st) [] []
    false false false false [] 0 0 0 (stGate st) (stCancel st).

(** [storage]: what MiAllocatePool returned, [None] when the pool is empty.
    [process]: 0 for PsInitialSystemProcess. *)
Definition KiCreateThreadSuspended (s : KSTATE) (pr : Z) (process PsInitialSystemProcess : addr)
    (storage : option thread_storage) : outcome (addr * KSTATE) :=
  if (pr <? 0) || (KI_PRIORITY_LEVELS <=? pr) then Panic "KiCreateThread: priority out of range" else
  match storage with
  | None => Panic "KiCreateThread: out of pool"
  | Some st =>
      let proc := if negb (process =? 0) then process else PsInitialSystemProcess in
      _ ← ASSERT (negb (proc =? 0)) "Ps init precedes every thread";
      let s1 := put_object s (stThread st) (KiInitializeDispatcherHeader blank_object KI_OBJECT_THREAD 0) in
      let s2 := put_object s1 (stGate st) (KeInitializeEvent blank_object NotificationEvent true) in
      let s3 := put_object s2 (stCancel st) (KeInitializeEvent blank_object NotificationEvent false) in
      let s4 := put_object s3 (stTimer st) (KeInitializeTimerEx blank_object NotificationTimer) in
      Ok (stThread st, put_thread s4 (stThread st) (created_thread st pr proc))
  end.

Definition KiReadyCreatedThread (s : KSTATE) (thread : addr) : outcome KSTATE := KiReadyThread s thread.

Definition KiCreateThreadEx (s : KSTATE) (pr : Z) (process PsInitialSystemProcess : addr)
    (storage : option thread_storage) : outcome (addr * KSTATE) :=
  '(thread, s1) ← KiCreateThreadSuspended s pr process PsInitialSystemProcess storage;
  s2 ← KiReadyCreatedThread s1 thread;
  Ok (thread, s2).

Definition KiCreateThread (s : KSTATE) (pr : Z) (PsInitialSystemProcess : addr)
    (storage : option thread_storage) : outcome (addr * KSTATE) :=
  KiCreateThreadEx s pr 0 PsInitialSystemProcess storage.

(** Free the KTHREAD with everything embedded in it. *)
Definition KiDeleteThread (s : KSTATE) (thread : addr) : outcome KSTATE :=
  _ ← ASSERT (negb (thread =? KiCurrentThread s)) "KiDeleteThread: the running thread";
  t ← get_thread s thread;
  if bool_decide (state t <> KI_THREAD_STATE_TERMINATED) && bool_decide (state t <> KI_THREAD_STATE_INITIALIZED)
  then Panic "KiDeleteThread: thread still schedulable"
  else Ok (s <| threads := delete thread (threads s) |>
             <| objects := delete (timer t) (delete (syncIoCancelEvent t)
                  (delete (suspendGate t) (delete thread (objects s)))) |>).

(** ** Termination *)

(** The loop that abandons the mutants the thread still owns. *)
Fixpoint abandon_mutants (fuel : nat) (s : KSTATE) (thread : addr) : outcome KSTATE :=
  t ← get_thread s thread;
  match mutantListHead t with
  | [] => Ok s
  | mutant :: _ =>
      match fuel with
      | O => OutOfFuel
      | S fuel' => '(_, s1) ← KiReleaseMutant s mutant true; abandon_mutants fuel' s1 thread
      end
  end.

Definition KiTerminateThread (s : KSTATE) : outcome KSTATE :=
  let thread := KiCurrentThread s in
  t ← get_thread s thread;
  s1 ← abandon_mutants (length (mutantListHead t)) s thread;
  s2 ← KiDrainUserApcQueue s1 thread;
  t2 ← get_thread s2 thread;
  o ← get_object s2 thread;
  let s3 := put_object (put_thread s2 thread (t2 <| state := KI_THREAD_STATE_TERMINATED |>)) thread
              (o <| signalState := 1 |>) in
  s4 ← KiWaitTest s3 thread;
  s5 ← KiSwapToNext s4;
  if KiCurrentThread s5 =? thread
  then Panic "KiTerminateThread: terminated thread was rescheduled"
  else Ok s5.

(** ** Breaking a wait from outside *)

Section interrupts.
Implicit Types (s : KSTATE) (t a x : Z) (th : KTHREAD) (o : KOBJECT) (b : KWAIT_BLOCK) (apc : KAPC).

Lemma unwaited_quiet s t th status :
  quiet s -> threads s !! t = Some th -> quiet (unwaited s t th status).
Proof.
  intros Hq Hth. apply (quiet_weaken s); [done| |].
  - intros x thx Hx Hne. rewrite unwaited_threads in Hx. destruct (decide (x = t)) as [->|].
    + by injection Hx as <-.
    + by exists thx.
  - intros x y (o' & Ho' & Hs). destruct (unwaited_object_inv _ _ _ _ _ _ Ho') as (o & Ho & ->). by exists o.
Qed.

(** Only [t] left its wait, with [status]. *)
Record interrupted s t th (status : NTSTATUS) s' : Prop := {
  in_thread : threads s' !! t = Some (awake th status);
  in_others : forall x, x <> t -> threads s' !! x = threads s !! x;
  in_objects : forall a, option_Forall2 (fun o o' => signalState o' = signalState o /\
    ownerThread o' = ownerThread o) (objects s !! a) (objects s' !! a);
}.

Lemma KiUnwaitThread_inv s t th status :
  ke_inv s -> threads s !! t = Some th -> state th = KI_THREAD_STATE_WAITING ->
  returns (KiUnwaitThread s t status) (fun s' => ke_inv s' /\ interrupted s t th status s' /\
    reaped s' = reaped s).
Proof.
  intros [Hc Hq Hcur Hclk] Hth Hst. pose proof Hc as [[Hs Hw Ht _ _] Hr].
  rewrite (KiUnwaitThread_eq None s t th) by done. cbn [returns].
  pose proof (unwaited_rest s t th status) as Hrest. cbn zeta in Hrest.
  split; [|split].
  - split.
    + apply unwaited_core; try done; [apply Hc|by apply room_inv_except].
    + by apply unwaited_quiet.
    + destruct Hcur as [(th0 & Hth0 & Hst0) Honly].
      assert (Ecur : KiCurrentThread (unwaited s t th status) = KiCurrentThread s) by (by rewrite Hrest).
      split.
      * rewrite Ecur, unwaited_threads. exists th0. rewrite decide_False; [done|]. intros E. congruence.
      * intros x thx. rewrite unwaited_threads, Ecur. destruct (decide (x = t)) as [->|].
        -- by intros [= <-].
        -- apply Honly.
    + unfold clock_inv in *. by rewrite Hrest.
  - split.
    + by rewrite unwaited_threads, decide_True.
    + intros x Hx. by rewrite unwaited_threads, decide_False.
    + intros a. rewrite unwaited_objects. destruct (objects s !! a); by constructor.
  - by rewrite Hrest.
Qed.

(** Every user-APC block the department holds or has given back. *)
Definition apc_blocks s : list KAPC :=
  concat (userApcListHead <$> (map_to_list (threads s)).*2) ++ reaped s.

Lemma apc_blocks_put s t th th' l :
  threads s !! t = Some th -> userApcListHead th' = userApcListHead th ++ l ->
  Permutation (apc_blocks (put_thread s t th')) (l ++ apc_blocks s).
Proof.
  intros Hth E. unfold apc_blocks. simpl.
  rewrite <- (insert_delete_id (threads s) t th Hth) at 2. rewrite <- insert_delete_eq.
  rewrite !map_to_list_insert by apply lookup_delete_eq. simpl. rewrite E.
  rewrite !app_assoc. by rewrite (Permutation_app_comm (userApcListHead th) l).
Qed.
End interrupts.

(** ** Queueing, alerting and breaking waits *)

Section apc_theorems.
Implicit Types (s : KSTATE) (t a x : Z) (th : KTHREAD) (o : KOBJECT) (b : KWAIT_BLOCK).

Lemma apc_lists_map (m : gmap Z KTHREAD) :
  userApcListHead <$> (map_to_list m).*2 = (map_to_list (userApcListHead <$> m)).*2.
Proof. rewrite map_to_list_fmap, <- !list_fmap_compose. apply list_fmap_ext. by intros i [k th]. Qed.

Lemma apc_lists_eq s' (m : gmap Z KTHREAD) :
  (forall t, option_Forall2 (fun th th' => userApcListHead th' = userApcListHead th) (m !! t) (threads s' !! t)) ->
  userApcListHead <$> threads s' = userApcListHead <$> m.
Proof.
  intros Ht. apply map_eq. intros t. rewrite !lookup_fmap.
  destruct (Ht t) as [th th' E|]; simpl; [by rewrite E|done].
Qed.

(** The blocks of [t]'s queue have moved to the log. *)
Lemma apc_blocks_drained s s' t th :
  threads s !! t = Some th ->
  userApcListHead <$> threads s' = <[t := []]> (userApcListHead <$> threads s) ->
  reaped s' = reaped s ++ userApcListHead th -> Permutation (apc_blocks s') (apc_blocks s).
Proof.
  intros Hth E Hre. unfold apc_blocks. rewrite Hre, !apc_lists_map, E.
  rewrite <- (insert_delete_id (userApcListHead <$> threads s) t (userApcListHead th)) at 2
    by (by rewrite lookup_fmap, Hth).
  rewrite <- insert_delete_eq. rewrite !map_to_list_insert by apply lookup_delete_eq. simpl.
  rewrite !app_assoc. rewrite (Permutation_app_comm _ (userApcListHead th)). by rewrite !app_assoc.
Qed.

Lemma apc_blocks_threads s s' :
  (forall t, option_Forall2 (fun th th' => userApcListHead th' = userApcListHead th) (threads s !! t) (threads s' !! t)) ->
  reaped s' = reaped s -> Permutation (apc_blocks s') (apc_blocks s).
Proof.
  intros Ht Hr. unfold apc_blocks. rewrite Hr. apply Permutation_app; [|done].
  by rewrite !apc_lists_map, (apc_lists_eq s' (threads s)).
Qed.

Lemma queue_apc_contract s t th apc :
  ke_inv s -> threads s !! t = Some th ->
  returns (KiInsertQueueUserApc s t apc) (fun '(accepted, s') => ke_inv s' /\
    Permutation (apc_blocks s') (option_list apc ++ apc_blocks s) /\
    if bool_decide (state th = KI_THREAD_STATE_TERMINATED)
    then accepted = false /\ s' = KiFreeUserApc s apc
    else accepted = true /\
    match apc with
    | None => s' = s
    | Some a => exists th', threads s' !! t = Some th' /\
        userApcListHead th' = userApcListHead th ++ [a] /\ userApcPending th' = true /\
        (forall x, x <> t -> threads s' !! x = threads s !! x) /\
        if bool_decide (state th = KI_THREAD_STATE_WAITING) && waitAlertable th
        then state th' = KI_THREAD_STATE_READY /\ waitStatus th' = STATUS_USER_APC /\
             apcDeliverPending th' = true /\ waitAlertable th' = false
        else state th' = state th /\ objects s' = objects s
    end).
Proof.
  intros Hinv Hth. unfold KiInsertQueueUserApc, get_thread. rewrite Hth. run.
  case_bool_decide as Hterm.
  { destruct apc as [a|]; cbn [returns KiFreeUserApc option_list]; (split; [|split; [|done]]); try done.
    - eapply (ke_inv_fields s); try done. apply Hinv.
    - unfold apc_blocks. simpl. rewrite app_assoc. by rewrite (Permutation_app_comm _ [a]). }
  destruct apc as [a|]; [|cbn; by split_and!].
  set (th1 := th <| userApcListHead := userApcListHead th ++ [a] |> <| userApcPending := true |>).
  change (state th1) with (state th). change (waitAlertable th1) with (waitAlertable th).
  destruct (bool_decide (state th = KI_THREAD_STATE_WAITING) && waitAlertable th) eqn:E.
  - apply andb_true_iff in E as [Hst%bool_decide_eq_true Hal].
    set (th2 := th1 <| apcDeliverPending := true |> <| waitAlertable := false |>).
    assert (Hinv2 : ke_inv (put_thread s t th2)) by (by apply (put_thread_inv s t th)).
    assert (Hth2 : threads (put_thread s t th2) !! t = Some th2) by (simpl; by rewrite lookup_insert_eq).
    apply returns_bind. unfold KiUnwaitThreadWithStatus. eapply returns_mono; [by apply KiUnwaitThread_inv|].
    intros s' (Hinv' & [Hin Hoth _] & Hre). cbn [returns]. split; [done|]. split.
    + etrans; [|by apply (apc_blocks_put s t th th2 [a])]. apply apc_blocks_threads; [|done].
      intros x. destruct (decide (x = t)) as [->|Hne].
      * rewrite Hin, Hth2. by constructor.
      * rewrite Hoth by done. by apply option_Forall2_refl.
    + split; [done|]. exists (awake th2 STATUS_USER_APC). split_and!; try done.
      intros x Hne. rewrite Hoth by done. simpl. by rewrite lookup_insert_ne.
  - cbn [returns]. split; [by apply (put_thread_inv s t th)|]. split; [by apply (apc_blocks_put s t th)|].
    split; [done|]. exists th1. simpl. rewrite lookup_insert_eq. split_and!; try done.
    intros x Hne. by rewrite lookup_insert_ne.
Qed.

(** C34. Queueing a user APC keeps the dispatcher invariant and accounts for
    the block exactly once: a terminated target refuses it and its storage is
    given back; otherwise it is queued last, and an alertable wait of the target,
    and nothing else, ends with STATUS_USER_APC. *)
Theorem KiInsertQueueUserApc_correct s t th apc :
  ke_inv s -> threads s !! t = Some th ->
  returns (KiInsertQueueUserApc s t apc) (fun '(accepted, s') => ke_inv s' /\
    Permutation (apc_blocks s') (option_list apc ++ apc_blocks s) /\
    if bool_decide (state th = KI_THREAD_STATE_TERMINATED)
    then accepted = false /\ s' = KiFreeUserApc s apc
    else accepted = true /\
    match apc with
    | None => s' = s
    | Some a => exists th', threads s' !! t = Some th' /\
        userApcListHead th' = userApcListHead th ++ [a] /\ userApcPending th' = true /\
        (forall x, x <> t -> threads s' !! x = threads s !! x) /\
        if bool_decide (state th = KI_THREAD_STATE_WAITING) && waitAlertable th
        then state th' = KI_THREAD_STATE_READY /\ waitStatus th' = STATUS_USER_APC /\
             apcDeliverPending th' = true /\ waitAlertable th' = false
        else state th' = state th /\ objects s' = objects s
    end).
Proof. apply queue_apc_contract. Qed.

Lemma interruption_contract s t th status :
  ke_inv s -> threads s !! t = Some th ->
  (state th = KI_THREAD_STATE_WAITING ->
   returns (KiUnwaitThreadWithStatus s t status) (fun s' => ke_inv s' /\ interrupted s t th status s') /\
   returns (KiAlertWaitingThread s t) (fun s' => ke_inv s' /\ interrupted s t th STATUS_ALERTED s')) /\
  (threadObject th <> 0 ->
   returns (KiAbortThreadWait s t) (fun s' => ke_inv s' /\
     if negb (rundownWait th) && bool_decide (state th = KI_THREAD_STATE_WAITING)
     then interrupted s t th STATUS_THREAD_IS_TERMINATING s' else s' = s)) /\
  (t = KiCurrentThread s ->
   returns (KiTestAlertCurrentThread s) (fun '(result, s') => ke_inv s' /\
     result = alerted th || negb (bool_decide (userApcListHead th = [])) /\
     exists th', threads s' !! t = Some th' /\ alerted th' = false /\
       KiUserApcPending th' = negb (bool_decide (userApcListHead th = [])) /\
       userApcListHead th' = userApcListHead th)).
Proof.
  intros Hinv Hth. split_and!.
  - intros Hst. unfold KiUnwaitThreadWithStatus, KiAlertWaitingThread, get_thread. rewrite Hth. run.
    rewrite (bool_decide_eq_true_2 _ Hst). run.
    split; (eapply returns_mono; [by apply KiUnwaitThread_inv|]); by intros s' (? & ? & _).
  - intros Hn. unfold KiAbortThreadWait, get_thread. rewrite Hth. run.
    rewrite (proj2 (Z.eqb_neq (threadObject th) 0)) by done. run.
    destruct (rundownWait th); cbn [negb andb]; [done|].
    case_bool_decide as Hst; [|done].
    eapply returns_mono; [by apply KiUnwaitThread_inv|]. by intros s' (? & ? & _).
  - intros ->. unfold KiTestAlertCurrentThread, get_thread. rewrite Hth. run. unfold KiUserApcPending.
    destruct (alerted th) eqn:Eal; cbn [orb];
      destruct (bool_decide_reflect (userApcListHead th = [])) as [E|E]; simpl bool_decide in *;
      simpl userApcListHead; rewrite ?E;
      [rewrite bool_decide_eq_false_2 by (by intros H)|rewrite bool_decide_eq_true_2 by done
      |rewrite bool_decide_eq_false_2 by (by intros H)|rewrite bool_decide_eq_true_2 by done]; cbn [returns];
      (split; [by apply (put_thread_inv s _ th)|]); (split; [done|]);
      eexists; (split; [simpl; by rewrite lookup_insert_eq|]); simpl;
      rewrite ?E, ?Eal; split_and!; try done; by rewrite ?bool_decide_eq_true_2, ?bool_decide_eq_false_2, ?andb_false_r by done.
Qed.

(** C35. The three ways to break a wait from outside never panic on a thread
    they apply to, keep the invariant, and touch nobody else: an APC or alert
    status is delivered as given; a terminating thread leaves its wait with
    STATUS_THREAD_IS_TERMINATING unless it is parked for its own rundown; and
    testing an alert consumes it, and schedules delivery of whatever is queued. *)
Theorem wait_interruption_correct s t th status :
  ke_inv s -> threads s !! t = Some th ->
  (state th = KI_THREAD_STATE_WAITING ->
   returns (KiUnwaitThreadWithStatus s t status) (fun s' => ke_inv s' /\ interrupted s t th status s') /\
   returns (KiAlertWaitingThread s t) (fun s' => ke_inv s' /\ interrupted s t th STATUS_ALERTED s')) /\
  (threadObject th <> 0 ->
   returns (KiAbortThreadWait s t) (fun s' => ke_inv s' /\
     if negb (rundownWait th) && bool_decide (state th = KI_THREAD_STATE_WAITING)
     then interrupted s t th STATUS_THREAD_IS_TERMINATING s' else s' = s)) /\
  (t = KiCurrentThread s ->
   returns (KiTestAlertCurrentThread s) (fun '(result, s') => ke_inv s' /\
     result = alerted th || negb (bool_decide (userApcListHead th = [])) /\
     exists th', threads s' !! t = Some th' /\ alerted th' = false /\
       KiUserApcPending th' = negb (bool_decide (userApcListHead th = [])) /\
       userApcListHead th' = userApcListHead th)).
Proof. apply interruption_contract. Qed.
End apc_theorems.

(** ** The end of a thread *)

Section termination.
Implicit Types (s : KSTATE) (t a x m : Z) (th : KTHREAD) (o : KOBJECT) (b : KWAIT_BLOCK).

(** Nothing of the APC queues, nor of who runs, has changed. *)
Record apc_frame s s' : Prop := {
  af_lists : forall t, option_Forall2 (fun th th' => userApcListHead th' = userApcListHead th)
    (threads s !! t) (threads s' !! t);
  af_reaped : reaped s' = reaped s;
  af_current : KiCurrentThread s' = KiCurrentThread s;
  af_idle : KiIdleThread s' = KiIdleThread s;
}.

Lemma apc_frame_refl s : apc_frame s s.
Proof. split; try done. intros t. by apply option_Forall2_refl. Qed.

Lemma apc_frame_trans s1 s2 s3 : apc_frame s1 s2 -> apc_frame s2 s3 -> apc_frame s1 s3.
Proof.
  intros [L1 R1 C1 I1] [L2 R2 C2 I2]. split; try congruence. intros t. specialize (L1 t). specialize (L2 t).
  destruct L1 as [th1 th2 E1|]; inversion L2 as [? th3 E2|]; subst; constructor. congruence.
Qed.

Lemma tested_apc_frame s s' : tested s s' -> apc_frame s s'.
Proof.
  intros [T _ _ _ R]. split; try (by rewrite R). intros t.
  destruct (T t) as [th th' [->|[_ E]]|]; constructor; [done|by rewrite E].
Qed.

(** The mutants [l] of [t], abandoned one after the other: each is freed and
    flagged abandoned, whatever its recursion depth, and then offered to its
    waiters. *)
Inductive abandons t : list addr -> KSTATE -> KSTATE -> Prop :=
  | abandons_nil s : abandons t [] s s
  | abandons_cons m l s s1 s2 o th :
      objects s !! m = Some o -> type o = KI_OBJECT_MUTANT -> ownerThread o = t ->
      threads s !! t = Some th -> released s true t th m o s1 ->
      abandons t l s1 s2 -> abandons t (m :: l) s s2.

Lemma abandon_mutants_spec fuel s t th :
  ke_inv s -> KiCurrentThread s = t -> threads s !! t = Some th ->
  (length (mutantListHead th) <= fuel)%nat ->
  returns (abandon_mutants fuel s t) (fun s' => ke_inv s' /\
    threads s' !! t = Some (th <| mutantListHead := [] |>) /\
    abandons t (mutantListHead th) s s' /\ apc_frame s s').
Proof.
  revert s th. induction fuel as [|fuel IH]; intros s th Hinv Hcur Hth Hlen; cbn [abandon_mutants];
    unfold get_thread; rewrite Hth; run; destruct (mutantListHead th) as [|m l] eqn:El.
  1,3: cbn; split_and!; [done| |constructor|apply apc_frame_refl]; rewrite Hth; f_equal; destruct th; simpl in *; by subst.
  { simpl in Hlen. lia. }
  pose proof (kb_mutant _ _ (proj1 (ki_core _ Hinv))) as Hm.
  destruct (mi_list _ Hm t th m Hth ltac:(rewrite El; left)) as (o & Ho & Hty & How).
  assert (Hn0 : t <> 0) by apply (oi_thread _ (kb_object _ _ (proj1 (ki_core _ Hinv))) _ _ Hth).
  apply returns_bind. eapply returns_mono; [apply (KiReleaseMutant_inv s m o true); try done; congruence|].
  intros [previous s1] (_ & Hinv1 & th0 & Hth0 & _ & Hrel). rewrite How in Hth0, Hrel.
  assert (th0 = th) as -> by congruence. pose proof Hrel as (Ht & _). set (o' := free_mutant true o) in *.
  assert (Hfr : threads (freed s t th m o') !! t = Some (th <| mutantListHead := l |>)).
  { unfold freed. simpl. rewrite lookup_insert_eq, El, unlink_head; [done|]. rewrite <- El. apply (mi_nodup _ Hm t th Hth). }
  assert (Hst : state th = KI_THREAD_STATE_RUNNING).
  { destruct (ki_cur _ Hinv) as [(thc & Hc & Hs) _]. congruence. }
  assert (Hth1 : threads s1 !! t = Some (th <| mutantListHead := l |>)).
  { apply (tested_thread_same _ _ _ _ Ht Hfr). simpl. by rewrite Hst. }
  assert (Hframe : apc_frame s s1).
  { eapply apc_frame_trans; [|by apply tested_apc_frame]. split; try done. intros x. unfold freed. simpl.
    destruct (decide (x = t)) as [->|]; [rewrite Hth, lookup_insert_eq; by constructor|].
    rewrite lookup_insert_ne by done. by apply option_Forall2_refl. }
  eapply returns_mono; [apply (IH s1 (th <| mutantListHead := l |>)); try done|].
  - rewrite (af_current _ _ Hframe). done.
  - simpl in *. lia.
  - intros s' (Hinv' & Hth' & Hab & Hfr'). split; [done|]. split; [by rewrite Hth'|].
    split; [by eapply abandons_cons|by eapply apc_frame_trans].
Qed.

Lemma drain_apcs_eq s l : drain_apcs s l = s <| reaped := reaped s ++ l |>.
Proof.
  revert s. induction l as [|a l IH]; intros s; simpl.
  - rewrite app_nil_r. by destruct s.
  - rewrite IH. simpl. by rewrite <- app_assoc.
Qed.

(** The thread as it is buried. *)
Definition dead_thread th : KTHREAD :=
  th <| mutantListHead := [] |> <| userApcListHead := [] |> <| userApcPending := false |>
     <| apcDeliverPending := false |> <| state := KI_THREAD_STATE_TERMINATED |>.

Definition buried s t th o : KSTATE :=
  put_object (put_thread (s <| reaped := reaped s ++ userApcListHead th |>) t (dead_thread th)) t
    (o <| signalState := 1 |>).

Lemma buried_core s t th o :
  ke_inv s -> threads s !! t = Some th -> KiCurrentThread s = t -> t <> KiIdleThread s ->
  mutantListHead th = [] -> objects s !! t = Some o ->
  ke_core None (buried s t th o) /\ quiet_but t (buried s t th o) /\
  (forall x thx, threads (buried s t th o) !! x = Some thx -> state thx <> KI_THREAD_STATE_RUNNING).
Proof.
  intros [[[Hs Hw Ht Hm Hob] Hr] Hq Hc Hclk] Hth Hcur Hidle Hml Ho.
  destruct Hc as [(th0 & Hth0 & Hst0) Honly]. assert (th0 = th) as -> by congruence.
  destruct (oi_thread _ Hob _ _ Hth) as (Hn0 & Hpr & o0 & Ho0 & Hoty & _). assert (o0 = o) as -> by congruence.
  assert (Hblocks : waitBlockList th = [] /\ timerArmed th = false).
  { apply (not_waiting_blocks s t); [done..|]. by rewrite Hst0. }
  destruct Hblocks as [Hb1 Hb2].
  assert (Hlk : forall x thx, threads (buried s t th o) !! x = Some thx ->
    (x = t /\ thx = dead_thread th) \/ (x <> t /\ threads s !! x = Some thx)).
  { intros x thx. simpl. destruct (decide (x = t)) as [->|]; [rewrite lookup_insert_eq; intros [= <-]; by left|].
    rewrite lookup_insert_ne by done. by right. }
  assert (F : wait_frame s (buried s t th o)).
  { split; [| |done].
    - intros x. simpl. destruct (decide (x = t)) as [->|].
      + rewrite Hth, lookup_insert_eq. constructor. split; try done. simpl. by rewrite Hst0.
      + rewrite lookup_insert_ne by done. apply option_Forall2_refl. by split.
    - intros x. simpl. destruct (decide (x = t)) as [->|].
      + rewrite Ho, lookup_insert_eq. constructor. by split.
      + rewrite lookup_insert_ne by done. apply option_Forall2_refl. by split. }
  split; [split; [split|]|split].
  - eapply (sched_inv_ext s); try done.
    + intros x thx Hx. destruct (decide (x = t)) as [->|].
      * assert (thx = th) as -> by congruence. exists (dead_thread th). simpl. rewrite lookup_insert_eq.
        split_and!; try done. intros _. by rewrite Hst0.
      * exists thx. simpl. rewrite lookup_insert_ne by done. split_and!; try done.
        intros ->. destruct (si_idle _ Hs) as (thi & Hi & ?). congruence.
    + intros x Hx. simpl. rewrite lookup_insert_ne; [done|]. congruence.
  - by eapply wait_inv_frame.
  - by eapply timer_inv_frame.
  - destruct Hm as [Mo Ml Mn Md]. split.
    + intros m om Hom Hty. simpl in Hom. destruct (decide (m = t)) as [->|].
      { rewrite lookup_insert_eq in Hom. injection Hom as <-. simpl in Hty. congruence. }
      rewrite lookup_insert_ne in Hom by done. destruct (Mo m om Hom Hty) as [M1 M2]. split; [done|].
      intros Hn. destruct (M2 Hn) as (? & thm & Hthm & Hin). split; [done|].
      assert (ownerThread om <> t) by (intros E; rewrite E in Hthm; assert (thm = th) as -> by congruence;
        rewrite Hml in Hin; by apply elem_of_nil in Hin).
      exists thm. simpl. by rewrite lookup_insert_ne.
    + intros x thx m Hx Hin. destruct (Hlk x thx Hx) as [[-> ->]|[Hne Hx']]; [by apply elem_of_nil in Hin|].
      destruct (Ml x thx m Hx' Hin) as (om & Hom & Hty & How). exists om.
      simpl. rewrite lookup_insert_ne; [done|]. intros <-. congruence.
    + intros x thx Hx. destruct (Hlk x thx Hx) as [[-> ->]|[Hne Hx']]; [constructor|by apply (Mn x)].
    + intros x thx Hx Hst. destruct (Hlk x thx Hx) as [[-> ->]|[Hne Hx']]; [done|by apply (Md x)].
  - destruct Hob as [H1 H2]. split.
    + intros x ox. simpl. destruct (decide (x = t)) as [->|]; [|rewrite lookup_insert_ne by done; apply H1].
      rewrite lookup_insert_eq. intros [= <-]. split; simpl; [by rewrite Hoty|lia].
    + intros x thx Hx. destruct (Hlk x thx Hx) as [[-> ->]|[Hne Hx']].
      * split_and!; [done..|]. simpl. rewrite lookup_insert_eq. eexists. split; [done|]. by split.
      * destruct (H2 x thx Hx') as (? & ? & ox & ? & ? & ?). split_and!; [done..|]. exists ox.
        simpl. by rewrite lookup_insert_ne.
  - intros x thx b Hx Hb ob Hob2 Hty How. destruct (Hlk x thx Hx) as [[-> ->]|[Hne Hx']].
    { simpl in Hb. rewrite Hb1 in Hb. by apply elem_of_nil in Hb. }
    simpl in Hob2. destruct (decide (blockObject b = t)) as [E|].
    + rewrite E, lookup_insert_eq in Hob2. injection Hob2 as <-. simpl in Hty. congruence.
    + rewrite lookup_insert_ne in Hob2 by done. by apply (Hr x thx b).
  - apply (quiet_signal t s); [done| |].
    + intros x thx Hx Hne. destruct (Hlk x thx Hx) as [[-> ->]|[Hne' Hx']]; [|by exists thx].
      unfold all_blocks in Hne. simpl in Hne. by rewrite Hb1, Hb2 in Hne.
    + intros x y Hne (ox & Hox & Hsat). simpl in Hox. rewrite lookup_insert_ne in Hox by done. by exists ox.
  - intros x thx Hx. destruct (Hlk x thx Hx) as [[-> ->]|[Hne Hx']]; [done|]. intros Hst.
    apply Hne. rewrite <- Hcur. by apply (Honly x thx).
Qed.

Lemma terminate_contract s t th :
  ke_inv s -> KiCurrentThread s = t -> t <> KiIdleThread s -> threads s !! t = Some th ->
  returns (KiTerminateThread s) (fun s' => ke_inv s' /\ KiCurrentThread s' <> t /\
    Permutation (apc_blocks s') (apc_blocks s) /\
    reaped s' = reaped s ++ userApcListHead th /\
    (exists th', threads s' !! t = Some th' /\ state th' = KI_THREAD_STATE_TERMINATED /\
       mutantListHead th' = [] /\ userApcListHead th' = []) /\
    (exists o', objects s' !! t = Some o' /\ signalState o' = 1) /\ no_single_waiter s' t /\
    exists s1 o s4 l, abandons t (mutantListHead th) s s1 /\
      woken KI_OBJECT_THREAD t l (buried s1 t (th <| mutantListHead := [] |>) o) s4 /\ scheduled s4 s').
Proof.
  intros Hinv Hcur Hidle Hth. unfold KiTerminateThread. rewrite Hcur.
  unfold get_thread. rewrite Hth. run.
  apply returns_bind. eapply returns_mono; [by apply abandon_mutants_spec|].
  intros s1 (Hinv1 & Hth1 & Hab & [Hl1 Hre1 Hcur1 Hidle1]).
  set (th1 := th <| mutantListHead := [] |>) in *.
  destruct (oi_thread _ (kb_object _ _ (proj1 (ki_core _ Hinv1))) _ _ Hth1) as (Hn0 & _ & o & Ho & Hoty & _).
  unfold KiDrainUserApcQueue, get_thread, get_object. rewrite Hth1. run. rewrite drain_apcs_eq.
  cbn [threads put_thread set_field]. simpl threads. rewrite lookup_insert_eq. run.
  simpl objects. rewrite Ho. run.
  match goal with |- returns (KiWaitTest ?s3 t ≫= _) _ => assert (E : s3 = buried s1 t th1 o) end.
  { unfold buried, put_thread, put_object. simpl. rewrite insert_insert_eq. by destruct th. }
  rewrite E. clear E.
  destruct (buried_core s1 t th1 o Hinv1 Hth1 ltac:(congruence) ltac:(congruence) eq_refl Ho)
    as (Hcore & Hqb & Hnorun).
  assert (Ho3 : objects (buried s1 t th1 o) !! t = Some (o <| signalState := 1 |>)).
  { simpl. by rewrite lookup_insert_eq. }
  assert (Hth3 : threads (buried s1 t th1 o) !! t = Some (dead_thread th1)).
  { simpl. by rewrite lookup_insert_eq. }
  apply returns_bind. eapply returns_mono; [apply (KiWaitTest_quiet _ _ _ _ Hcore Hqb Ho3); simpl; lia|].
  intros s4 (Hcore4 & Hq4 & Ht4 & l & o1 & o4 & Hw4 & Ho1 & Ho4 & Hsig4 & _).
  rewrite Ho3 in Ho1. injection Ho1 as <-. simpl type in *. rewrite Hoty in *.
  cbn [signal_after] in Hsig4. rewrite iter_stay in Hsig4.
  pose proof (tested_thread_same _ _ _ _ Ht4 Hth3 ltac:(done)) as Hth4.
  pose proof (te_rest _ _ Ht4) as R4.
  assert (Hcur4 : KiCurrentThread s4 = t) by (rewrite R4; simpl; congruence).
  apply returns_bind. eapply returns_mono.
  { apply (KiSwapToNext_spec s4); [apply Hcore4|by rewrite Hcur4, Hth4|].
    intros x thx Hx Hst. destruct (Forall2_Some_r _ _ _ _ (te_threads _ _ Ht4 x) Hx) as (thx0 & Hx0 & [->|[_ E]]).
    - by apply (Hnorun x thx0).
    - rewrite E in Hst. discriminate Hst. }
  intros s5 (Hs5 & Hcur5 & Hsc). destruct (scheduled_thread s4 s5 t) with (th' := default th (threads s5 !! t)) as (thx & Hthx & Hre).
  { done. }
  { pose proof (sc_threads _ _ Hsc t) as Hx. rewrite Hth4 in Hx. by inversion Hx as [? th5 ? Heq|]. }
  assert (thx = dead_thread th1) as -> by congruence.
  destruct (threads s5 !! t) as [th5|] eqn:Hth5; simpl in Hre.
  2: { pose proof (sc_threads _ _ Hsc t) as Hx. rewrite Hth4, Hth5 in Hx. inversion Hx. }
  destruct Hre as [E5 [Est|[Hbad _]]]; [|done].
  assert (Hne : KiCurrentThread s5 <> t).
  { intros E. destruct Hcur5 as [(thc & Hc & Hst) _]. rewrite E, Hth5 in Hc. injection Hc as <-.
    rewrite Est in Hst. discriminate Hst. }
  rewrite (proj2 (Z.eqb_neq _ _) Hne). cbn [returns].
  assert (Hinv5 : ke_inv s5).
  { eapply scheduled_inv; try done. pose proof (ki_clock _ Hinv1) as H. unfold clock_inv in *. by rewrite R4. }
  assert (Hobj5 : objects s5 = objects s4) by (by rewrite (sc_rest _ _ Hsc)).
  assert (Hlists : forall x, option_Forall2 (fun th th' => userApcListHead th' = userApcListHead th)
      (<[t := dead_thread th1]> (threads s1) !! x) (threads s5 !! x)).
  { intros x. pose proof (af_lists _ _ (tested_apc_frame _ _ Ht4) x) as H4. simpl in H4.
    pose proof (sc_threads _ _ Hsc x) as H5. destruct H4 as [y z E4|]; inversion H5 as [? w [E _]|]; subst; constructor.
    rewrite E. simpl. done. }
  assert (Hre5 : reaped s5 = reaped s ++ userApcListHead th).
  { rewrite (sc_rest _ _ Hsc), R4. simpl. by rewrite Hre1. }
  split_and!; try done.
  - etrans; [|by apply (apc_blocks_threads s s1)]. apply (apc_blocks_drained s1 s5 t th1 Hth1).
    + rewrite (apc_lists_eq s5 _ Hlists). by rewrite fmap_insert.
    + by rewrite Hre1.
  - exists th5. split; [done|]. rewrite Est, E5. done.
  - exists o4. by rewrite Hobj5.
  - eapply quiet_no_single_waiter; [apply Hinv5|by rewrite Hobj5|]. simpl in Hsig4. lia.
  - exists s1, o, s4, l. done.
Qed.

(** C27. A thread other than the idle one that terminates never panics, is
    never rescheduled, and keeps the dispatcher invariant.  Its mutants are
    abandoned one by one, whatever their recursion depth, its undelivered APC
    blocks are given back once each, in order, its header stays signalled with
    no thread parked on it alone, and some other thread runs. *)
Theorem KiTerminateThread_correct s t th :
  ke_inv s -> KiCurrentThread s = t -> t <> KiIdleThread s -> threads s !! t = Some th ->
  returns (KiTerminateThread s) (fun s' => ke_inv s' /\ KiCurrentThread s' <> t /\
    Permutation (apc_blocks s') (apc_blocks s) /\
    reaped s' = reaped s ++ userApcListHead th /\
    (exists th', threads s' !! t = Some th' /\ state th' = KI_THREAD_STATE_TERMINATED /\
       mutantListHead th' = [] /\ userApcListHead th' = []) /\
    (exists o', objects s' !! t = Some o' /\ signalState o' = 1) /\ no_single_waiter s' t /\
    exists s1 o s4 l, abandons t (mutantListHead th) s s1 /\
      woken KI_OBJECT_THREAD t l (buried s1 t (th <| mutantListHead := [] |>) o) s4 /\ scheduled s4 s').
Proof. apply terminate_contract. Qed.
End termination.

(** ** The beginning of a thread *)

Section creation.
Implicit Types (s : KSTATE) (t a x m : Z) (th : KTHREAD) (o : KOBJECT) (b : KWAIT_BLOCK) (st : thread_storage).

Definition storage_addrs st : list addr := [stThread st; stTimer st; stGate st; stCancel st].

(** What the pool returned is fresh memory. *)
Record fresh_storage s st : Prop := {
  fs_distinct : NoDup (storage_addrs st);
  fs_nonzero : stThread st <> 0;
  fs_objects : forall a, a ∈ storage_addrs st -> objects s !! a = None;
  fs_thread : threads s !! stThread st = None;
}.

Definition created_objects st (m : gmap Z KOBJECT) : gmap Z KOBJECT :=
  <[stTimer st := KeInitializeTimerEx blank_object NotificationTimer]>
  (<[stCancel st := KeInitializeEvent blank_object NotificationEvent false]>
  (<[stGate st := KeInitializeEvent blank_object NotificationEvent true]>
  (<[stThread st := KiInitializeDispatcherHeader blank_object KI_OBJECT_THREAD 0]> m))).

Definition created s st th : KSTATE :=
  s <| threads := <[stThread st := th]> (threads s) |> <| objects := created_objects st (objects s) |>.

Lemma created_lookup st (m : gmap Z KOBJECT) a o : created_objects st m !! a = Some o ->
  (a ∉ storage_addrs st /\ m !! a = Some o) \/
  (a ∈ storage_addrs st /\ waitListHead o = [] /\ inserted o = false /\ object_ok o /\
   type o <> KI_OBJECT_MUTANT /\ period o = 0).
Proof.
  unfold created_objects, storage_addrs. intros H.
  repeat (apply lookup_insert_Some in H as [[<- <-]|[? H]]; [right; split_and!; try done; rewrite !elem_of_cons; auto 10|]).
  left. split; [|done]. rewrite !not_elem_of_cons. repeat split; auto using not_elem_of_nil.
Qed.

Lemma created_old st (m : gmap Z KOBJECT) a : a ∉ storage_addrs st -> created_objects st m !! a = m !! a.
Proof.
  unfold created_objects, storage_addrs. rewrite !not_elem_of_cons. intros (? & ? & ? & ? & _). by rewrite !lookup_insert_ne.
Qed.

Lemma created_new st (m : gmap Z KOBJECT) : NoDup (storage_addrs st) ->
  created_objects st m !! stTimer st = Some (KeInitializeTimerEx blank_object NotificationTimer) /\
  created_objects st m !! stThread st = Some (KiInitializeDispatcherHeader blank_object KI_OBJECT_THREAD 0).
Proof.
  unfold storage_addrs. rewrite !NoDup_cons, !not_elem_of_cons.
  intros ((? & ? & ? & _) & _). unfold created_objects. split.
  - by rewrite lookup_insert_eq.
  - rewrite !lookup_insert_ne by done. by rewrite lookup_insert_eq.
Qed.

Context (s : KSTATE) (st : thread_storage) (pr : Z) (proc : Z).
Hypothesis Hinv : ke_inv s.
Hypothesis Hfresh : fresh_storage s st.
Hypothesis Hpr : is_level pr.
Hypothesis Hproc : proc <> 0.
Let th := created_thread st pr proc.
Let s' := created s st th.

Lemma created_thread_lookup x thx : threads s' !! x = Some thx ->
  (x = stThread st /\ thx = th) \/ (x <> stThread st /\ threads s !! x = Some thx).
Proof using. intros H. change (<[stThread st := th]> (threads s) !! x = Some thx) in H. apply lookup_insert_Some in H as [[<- <-]|[? H]]; auto. Qed.

Lemma created_known a o : objects s !! a = Some o -> objects s' !! a = Some o /\ a ∉ storage_addrs st.
Proof using Hfresh.
  intros Ho. assert (Ha : a ∉ storage_addrs st).
  { intros Ha. pose proof (fs_objects _ _ Hfresh a Ha). congruence. }
  split; [|done]. unfold s'. simpl. by rewrite created_old.
Qed.

Lemma created_thread_known x thx : threads s !! x = Some thx -> threads s' !! x = Some thx /\ x <> stThread st.
Proof using Hfresh.
  intros Hx. assert (Hne : x <> stThread st) by (intros ->; pose proof (fs_thread _ _ Hfresh); congruence).
  split; [|done]. simpl. by rewrite lookup_insert_ne.
Qed.

Lemma created_sched : sched_inv s'.
Proof using Hinv Hfresh Hpr.
  destruct (kb_sched _ _ (proj1 (ki_core _ Hinv))) as [H1 H2 H3 H4 H5 H6 H7]. split; try done.
  - intros level x Hl. change (ready_queue s' level) with (ready_queue s level). rewrite (H3 level x Hl).
    unfold ready_at. change (KiIdleThread s') with (KiIdleThread s). split; intros (Hn & thx & Hx & Hst & Hp); (split; [done|]).
    + destruct (created_thread_known _ _ Hx). by exists thx.
    + destruct (created_thread_lookup _ _ Hx) as [[-> ->]|[_ ?]]; [done|by exists thx].
  - intros x thx Hx. destruct (created_thread_lookup _ _ Hx) as [[-> ->]|[_ ?]]; [done|by apply (H6 x)].
  - destruct H7 as (thi & Hi & Hst). destruct (created_thread_known _ _ Hi). by exists thi.
Qed.

Lemma created_wait : wait_inv s'.
Proof using Hinv Hfresh.
  destruct (kb_wait _ _ (proj1 (ki_core _ Hinv))) as [[L1 L2 L3] Ht]. split.
  - split.
    + intros a o Ho. destruct (created_lookup _ _ _ _ Ho) as [[_ Ho']|(_ & -> & _)]; [by apply (L1 a)|constructor].
    + intros a o b Ho Hb. destruct (created_lookup _ _ _ _ Ho) as [[_ Ho']|(_ & E & _)]; [by apply (L2 a o)|].
      rewrite E in Hb. by apply elem_of_nil in Hb.
    + intros b. specialize (L3 b). split.
      * intros (o & Ho & Hb). destruct (created_lookup _ _ _ _ Ho) as [[_ Ho']|(_ & E & _)].
        -- destruct (proj1 L3) as (thb & Hthb & Hin); [by exists o|].
           destruct (created_thread_known _ _ Hthb). by exists thb.
        -- rewrite E in Hb. by apply elem_of_nil in Hb.
      * intros (thb & Hthb & Hin). destruct (created_thread_lookup _ _ Hthb) as [[_ ->]|[_ Hthb']].
        -- by apply elem_of_nil in Hin.
        -- destruct (proj2 L3) as (o & Ho & Hb); [by exists thb|]. destruct (created_known _ _ Ho). by exists o.
  - intros x thx Hx. destruct (created_thread_lookup _ _ Hx) as [[-> ->]|[_ ?]]; [|by apply Ht].
    split; try (intros b Hb; by apply elem_of_nil in Hb).
    + constructor.
    + split; [done|]. by intros [].
    + intros b b' Hb. by apply elem_of_nil in Hb.
Qed.

Lemma created_timer : timer_inv None s'.
Proof using Hinv Hfresh.
  destruct (kb_timer _ _ (proj1 (ki_core _ Hinv))) as [T1 T2 T3 T4 T5 T6 T7].
  destruct (created_new st (objects s) (fs_distinct _ _ Hfresh)) as [Hnew _].
  assert (Hdue : forall a, a ∈ KiTimerListHead s -> due s' a = due s a).
  { intros a Ha. apply T2 in Ha as (o & Ho & _). destruct (created_known _ _ Ho) as [Ho' _]. unfold due. by rewrite Ho, Ho'. }
  split.
  - done.
  - intros a. change (KiTimerListHead s') with (KiTimerListHead s). rewrite T2. split; intros (o & Ho & Hi).
    + destruct (created_known _ _ Ho). by exists o.
    + destruct (created_lookup _ _ _ _ Ho) as [[_ ?]|(_ & _ & ? & _)]; [by exists o|congruence].
  - eapply StronglySorted_mono; [|exact T3]. intros x y Hx Hy. by rewrite !Hdue.
  - intros a o Ho Hi. destruct (created_lookup _ _ _ _ Ho) as [[_ ?]|(_ & _ & ? & _)]; [by apply (T4 a)|congruence].
  - intros a o Ho. destruct (created_lookup _ _ _ _ Ho) as [[_ ?]|(_ & _ & _ & _ & _ & ->)]; [by apply (T5 a)|lia].
  - intros x thx Hx. destruct (created_thread_lookup _ _ Hx) as [[-> ->]|[_ Hx']].
    + eexists. split; [exact Hnew|]. done.
    + destruct (T6 x thx Hx') as (o & Ho & H). destruct (created_known _ _ Ho). by exists o.
  - assert (Hnot : forall x thx, threads s !! x = Some thx -> timer thx <> stTimer st).
    { intros x thx Hx E. destruct (T6 x thx Hx) as (o & Ho & _). rewrite E in Ho.
      rewrite (fs_objects _ _ Hfresh) in Ho; [done|]. right. left. }
    intros x y thx thy Hx Hy E.
    destruct (created_thread_lookup _ _ Hx) as [[-> ->]|[_ Hx']], (created_thread_lookup _ _ Hy) as [[-> ->]|[_ Hy']]; try done.
    + by destruct (Hnot _ _ Hy').
    + by destruct (Hnot _ _ Hx').
    + by apply (T7 x y thx thy).
Qed.

Lemma created_mutant : mutant_inv s'.
Proof using Hinv Hfresh.
  destruct (kb_mutant _ _ (proj1 (ki_core _ Hinv))) as [M1 M2 M3 M4]. split.
  - intros m o Ho Hty. destruct (created_lookup _ _ _ _ Ho) as [[_ Ho']|(_ & _ & _ & _ & ? & _)]; [|done].
    destruct (M1 m o Ho' Hty) as [A B]. split; [done|]. intros Hn. destruct (B Hn) as (? & thm & Hthm & Hin). split; [done|].
    destruct (created_thread_known _ _ Hthm). by exists thm.
  - intros x thx m Hx Hin. destruct (created_thread_lookup _ _ Hx) as [[-> ->]|[_ Hx']]; [by apply elem_of_nil in Hin|].
    destruct (M2 x thx m Hx' Hin) as (o & Ho & H). destruct (created_known _ _ Ho). by exists o.
  - intros x thx Hx. destruct (created_thread_lookup _ _ Hx) as [[-> ->]|[_ Hx']]; [constructor|by apply (M3 x)].
  - intros x thx Hx Hst. destruct (created_thread_lookup _ _ Hx) as [[-> ->]|[_ Hx']]; [done|by apply (M4 x)].
Qed.

Lemma created_inv : ke_inv s'.
Proof using Hinv Hfresh Hpr Hproc.
  destruct (ki_core _ Hinv) as [Hb Hr]. split; [split; [split|]| | |].
  - apply created_sched.
  - apply created_wait.
  - apply created_timer.
  - apply created_mutant.
  - destruct (kb_object _ _ Hb) as [O1 O2]. destruct (created_new st (objects s) (fs_distinct _ _ Hfresh)) as [_ Hnew]. split.
    + intros a o Ho. destruct (created_lookup _ _ _ _ Ho) as [[_ ?]|(_ & _ & _ & ? & _)]; [by apply (O1 a)|done].
    + intros x thx Hx. destruct (created_thread_lookup _ _ Hx) as [[-> ->]|[_ Hx']].
      * split_and!; [apply Hfresh|done|]. eexists. split; [exact Hnew|]. done.
      * destruct (O2 x thx Hx') as (? & ? & o & Ho & H). split_and!; [done..|].
        destruct (created_known _ _ Ho). by exists o.
  - intros x thx b Hx Hbb o Ho Hty How. destruct (created_thread_lookup _ _ Hx) as [[-> ->]|[_ Hx']]; [by apply elem_of_nil in Hbb|].
    destruct (created_lookup _ _ _ _ Ho) as [[_ ?]|(_ & _ & _ & _ & ? & _)]; [by apply (Hr x thx b)|done].
  - intros x thx b Hx Hbb Hready. destruct (created_thread_lookup _ _ Hx) as [[-> ->]|[_ Hx']]; [by apply elem_of_nil in Hbb|].
    apply (ki_quiet _ Hinv x thx b Hx' Hbb).
    assert (Hs : forall b', b' ∈ all_blocks x thx -> sat s' (blockObject b') x -> sat s (blockObject b') x).
    { intros b' Hb' (o & Ho & Hsat). destruct (block_linked s x thx b' (kb_wait _ _ Hb) Hx' Hb') as (_ & o' & Ho' & _).
      destruct (created_known _ _ Ho') as [Ho2 _]. exists o'. split; [done|]. congruence. }
    unfold ready_block in *. destruct (waitType b); [|by apply Hs].
    intros b' Hb'. apply Hs; [apply elem_of_app; by left|by apply Hready].
  - destruct (ki_cur _ Hinv) as [(thc & Hc & Hst) Honly]. split.
    + destruct (created_thread_known _ _ Hc). by exists thc.
    + intros x thx Hx Hrun. destruct (created_thread_lookup _ _ Hx) as [[-> ->]|[_ Hx']]; [done|by apply (Honly x thx)].
  - apply Hinv.
Qed.
End creation.

Section creation_theorems.
Implicit Types (s : KSTATE) (t a x m : Z) (th : KTHREAD) (o : KOBJECT) (b : KWAIT_BLOCK) (st : thread_storage).

(** Readying a thread that never ran. *)
Lemma readied_ke_inv s t th :
  ke_inv s -> threads s !! t = Some th -> state th = KI_THREAD_STATE_INITIALIZED -> t <> KiIdleThread s ->
  ke_inv (readied s t th).
Proof.
  intros [[[Hs Hw Ht Hm Hob] Hr] Hq Hc Hclk] Hth Hst Hidle.
  assert (Hthr : threads (readied s t th) = <[t := th <| state := KI_THREAD_STATE_READY |>]> (threads s)) by done.
  assert (Hobj : objects (readied s t th) = objects s) by done.
  assert (Etl : KiTimerListHead (readied s t th) = KiTimerListHead s) by done.
  assert (Ecur : KiCurrentThread (readied s t th) = KiCurrentThread s) by done.
  assert (Eclk : clock_inv (readied s t th)) by done.
  pose proof (readied_inv s t th Hs Hth Hidle ltac:(by rewrite Hst)) as Hs'.
  set (s' := readied s t th) in *. clearbody s'.
  assert (Hlk : forall x thx, threads s' !! x = Some thx ->
    exists thx0, threads s !! x = Some thx0 /\ thx = thx0 <| state := state thx |> /\
      (state thx <> state thx0 -> x = t /\ state thx = KI_THREAD_STATE_READY)).
  { intros x thx. rewrite Hthr, lookup_insert_Some. intros [[<- <-]|[Hne Hx]].
    - exists th. done.
    - exists thx. split_and!; [done|by destruct thx|done]. }
  assert (F : wait_frame s s').
  { split; [| |done].
    - intros x. rewrite Hthr. destruct (decide (x = t)) as [->|].
      + rewrite Hth, lookup_insert_eq. constructor. split; try done. simpl. by rewrite Hst.
      + rewrite lookup_insert_ne by done. apply option_Forall2_refl. by split.
    - intros x. rewrite Hobj. apply option_Forall2_refl. by split. }
  split; [split; [split|]| | |done].
  - done.
  - by eapply wait_inv_frame.
  - by eapply timer_inv_frame.
  - apply (mutant_inv_frame s); [|done]. split.
    + intros x. rewrite Hthr. destruct (decide (x = t)) as [->|].
      * rewrite Hth, lookup_insert_eq. by constructor.
      * rewrite lookup_insert_ne by done. apply option_Forall2_refl. by split.
    + intros x. rewrite Hobj. apply option_Forall2_refl. by split.
  - destruct Hob as [H1 H2]. split; [by rewrite Hobj|]. intros x thx Hx.
    destruct (Hlk x thx Hx) as (thx0 & Hx0 & E & Hd). destruct (H2 x thx0 Hx0) as (? & ? & o & Ho & Hty & Hdead).
    rewrite Hobj. split_and!; [done|by rewrite E|]. exists o. split_and!; [done|done|]. intros Hst'.
    apply Hdead. destruct (decide (state thx = state thx0)) as [<-|Hne]; [done|].
    destruct (Hd Hne). congruence.
  - intros x thx b Hx Hb o. rewrite Hobj. destruct (Hlk x thx Hx) as (thx0 & Hx0 & E & _). rewrite E in Hb.
    by apply (Hr x thx0 b).
  - apply (quiet_weaken s); [done| |].
    + intros x thx Hx _. destruct (Hlk x thx Hx) as (thx0 & Hx0 & E & _). exists thx0. by rewrite E.
    + intros x y. unfold sat. by rewrite Hobj.
  - destruct Hc as [(thc & Hcc & Hstc) Honly]. split; rewrite Ecur.
    + exists thc. split; [|done]. rewrite Hthr, lookup_insert_ne; [done|]. congruence.
    + intros x thx Hx Hrun. destruct (Hlk x thx Hx) as (thx0 & Hx0 & E & Hd).
      apply (Honly x thx0); [done|]. destruct (decide (state thx = state thx0)) as [<-|Hne]; [done|].
      destruct (Hd Hne). congruence.
Qed.

Lemma creation_contract s st pr process psinit :
  ke_inv s -> fresh_storage s st ->
  let proc := if negb (process =? 0) then process else psinit in proc <> 0 ->
  if (0 <=? pr) && (pr <? KI_PRIORITY_LEVELS)
  then exists s', KiCreateThreadSuspended s pr process psinit (Some st) = Ok (stThread st, s') /\ ke_inv s' /\
    state <$> threads s' !! stThread st = Some KI_THREAD_STATE_INITIALIZED /\
    KiDeleteThread s' (stThread st) = Ok s /\
    returns (KiReadyCreatedThread s' (stThread st)) (fun s'' => ke_inv s'' /\
      ready_queue s'' pr = ready_queue s pr ++ [stThread st] /\
      exists why, KiDeleteThread s'' (stThread st) = Panic why)
  else exists why, KiCreateThreadSuspended s pr process psinit (Some st) = Panic why.
Proof.
  intros Hinv Hfresh proc Hproc. unfold KiCreateThreadSuspended. fold proc.
  destruct (Z.leb_spec 0 pr); [|rewrite (proj2 (Z.ltb_lt pr 0)) by lia; cbn; eauto].
  rewrite (proj2 (Z.ltb_ge pr 0)) by lia. cbn [andb orb].
  destruct (Z.ltb_spec pr KI_PRIORITY_LEVELS); [|rewrite (proj2 (Z.leb_le _ _)) by lia; eauto].
  rewrite (proj2 (Z.leb_gt _ _)) by lia. rewrite (proj2 (Z.eqb_neq proc 0)) by done. run.
  set (th := created_thread st pr proc).
  assert (Hinv' : ke_inv (created s st th)) by (apply created_inv; done).
  assert (Hth : threads (created s st th) !! stThread st = Some th) by (simpl; by rewrite lookup_insert_eq).
  pose proof (fs_thread _ _ Hfresh) as Hnone.
  assert (Hcur : stThread st <> KiCurrentThread s).
  { intros E. destruct (ki_cur _ Hinv) as [(thc & Hc & _) _]. congruence. }
  assert (Hidle : stThread st <> KiIdleThread s).
  { intros E. destruct (si_idle _ (kb_sched _ _ (proj1 (ki_core _ Hinv)))) as (thi & Hi & _). congruence. }
  exists (created s st th). split_and!.
  - done.
  - done.
  - by rewrite Hth.
  - unfold KiDeleteThread, get_thread. change (KiCurrentThread (created s st th)) with (KiCurrentThread s).
    rewrite (proj2 (Z.eqb_neq _ _)) by done. run. rewrite Hth. run.
    rewrite (bool_decide_eq_false_2 (state th <> KI_THREAD_STATE_INITIALIZED)) by (intros Hn; by apply Hn).
    rewrite andb_false_r. f_equal. unfold created, created_objects. simpl.
    rewrite delete_insert_id by done. destruct s as [? ? ? ob]. simpl in *. f_equal.
    assert (Hn : forall a, a ∈ storage_addrs st -> ob !! a = None) by apply Hfresh.
    apply map_eq. intros a. destruct (decide (a ∈ storage_addrs st)) as [Ha|Ha].
    + rewrite (Hn a Ha). unfold storage_addrs in Ha. rewrite !lookup_delete_None.
      rewrite !elem_of_cons in Ha. destruct Ha as [->|[->|[->|[->|Ha%elem_of_nil]]]]; tauto.
    + unfold storage_addrs in Ha. rewrite !not_elem_of_cons in Ha. destruct Ha as (? & ? & ? & ? & _).
      by rewrite !lookup_delete_ne, !lookup_insert_ne.
  - unfold KiReadyCreatedThread. rewrite (KiReadyThread_eq _ _ th); try done; [|apply Hinv'].
    cbn [returns]. split; [by apply readied_ke_inv|]. split.
    + unfold readied. change (priority th) with pr. unfold ready_queue, put_ready_queue. simpl.
      rewrite list_lookup_insert_eq; [done|].
      pose proof (si_levels _ (kb_sched _ _ (proj1 (ki_core _ Hinv)))) as ->. unfold KI_PRIORITY_LEVELS in *. lia.
    + unfold KiDeleteThread, get_thread.
      change (KiCurrentThread (readied (created s st th) (stThread st) th)) with (KiCurrentThread s).
      rewrite (proj2 (Z.eqb_neq _ _)) by done. run.
      change (threads (readied (created s st th) (stThread st) th)) with
        (<[stThread st := th <| state := KI_THREAD_STATE_READY |>]> (threads (created s st th))).
      rewrite lookup_insert_eq. run. eauto.
Qed.

(** C36. Creating a thread on fresh storage keeps the dispatcher invariant and
    leaves it INITIALIZED, on no queue; deleting it undoes the creation exactly;
    readying it puts it last on its level's queue.  A priority off the scale, or
    an empty pool, panics, and so does deleting a thread that may still run. *)
Theorem KiCreateThread_KiDeleteThread_roundtrip s st pr process psinit :
  ke_inv s -> fresh_storage s st ->
  let proc := if negb (process =? 0) then process else psinit in proc <> 0 ->
  if (0 <=? pr) && (pr <? KI_PRIORITY_LEVELS)
  then exists s', KiCreateThreadSuspended s pr process psinit (Some st) = Ok (stThread st, s') /\ ke_inv s' /\
    state <$> threads s' !! stThread st = Some KI_THREAD_STATE_INITIALIZED /\
    KiDeleteThread s' (stThread st) = Ok s /\
    returns (KiReadyCreatedThread s' (stThread st)) (fun s'' => ke_inv s'' /\
      ready_queue s'' pr = ready_queue s pr ++ [stThread st] /\
      exists why, KiDeleteThread s'' (stThread st) = Panic why)
  else exists why, KiCreateThreadSuspended s pr process psinit (Some st) = Panic why.
Proof. apply creation_contract. Qed.
End creation_theorems.

(** ** Concrete threads *)

(** Thread 4 is parked, alertable, on event 40 in this machine. *)
Definition ex_apc : KSTATE := alter_thread ex_ke 4 (fun th => th <| waitAlertable := true |>).

Lemma ex_apc_inv : ke_inv ex_apc.
Proof. apply ke_ok_inv. vm_compute_decide. Qed.

Lemma KiInsertQueueUserApc_correct_witness :
  (exists s', KiInsertQueueUserApc ex_apc 4 (Some (mkKAPC 900 0)) = Ok (true, s') /\
     waitStatus <$> threads s' !! 4 = Some STATUS_USER_APC /\ KiTimerListHead s' = [60]) /\
  returns (KiInsertQueueUserApc ex_apc 4 (Some (mkKAPC 900 0))) (fun '(_, s') => ke_inv s').
Proof.
  split.
  - eexists. split; [by vm_compute|]. by vm_compute.
  - eapply returns_mono; [exact (KiInsertQueueUserApc_correct ex_apc 4
      (ex_thread KI_THREAD_STATE_WAITING 8 14 [block4] true [] <| waitAlertable := true |>)
      (Some (mkKAPC 900 0)) ex_apc_inv eq_refl)|]. intros [r s'] [H _]. exact H.
Defined.

Lemma wait_interruption_correct_witness :
  returns (KiAlertWaitingThread ex_ke 3) (fun s' => ke_inv s').
Proof.
  eapply returns_mono; [exact (proj2 (proj1 (wait_interruption_correct ex_ke 3
    (ex_thread KI_THREAD_STATE_WAITING 9 13 [block3a; block3b] false []) 0 ex_ke_inv eq_refl) eq_refl))|].
  intros s' [H _]. exact H.
Defined.

(** Thread 2 dies holding mutant 50: it is left free and flagged. *)
Lemma KiTerminateThread_correct_witness :
  (exists s', KiTerminateThread ex_ke = Ok s' /\ KiCurrentThread s' = 1 /\ abandoned <$> objects s' !! 50 = Some true) /\
  returns (KiTerminateThread ex_ke) (fun s' => ke_inv s' /\ KiCurrentThread s' <> 2).
Proof.
  split.
  - eexists. split; [by vm_compute|]. by vm_compute.
  - eapply returns_mono; [exact (KiTerminateThread_correct ex_ke 2
      (ex_thread KI_THREAD_STATE_RUNNING 8 12 [] false [50]) ex_ke_inv eq_refl ltac:(done) eq_refl)|].
    intros s' (H1 & H2 & _). split; [exact H1|exact H2].
Defined.

Lemma KiCreateThread_KiDeleteThread_roundtrip_witness :
  exists s', KiCreateThreadSuspended ex_ke 5 0 1 (Some (mkthread_storage 70 71 72 73)) = Ok (70, s') /\
    KiDeleteThread s' 70 = Ok ex_ke.
Proof.
  assert (Hfresh : fresh_storage ex_ke (mkthread_storage 70 71 72 73)).
  { split; [repeat constructor; set_solver|done| |done].
    intros a Ha. repeat (apply elem_of_cons in Ha as [->|Ha]; [reflexivity|]). by apply elem_of_nil in Ha. }
  destruct (KiCreateThread_KiDeleteThread_roundtrip ex_ke (mkthread_storage 70 71 72 73) 5 0 1
    ex_ke_inv Hfresh ltac:(done)) as (s' & H1 & _ & _ & H2 & _).
  exists s'. split; [exact H1|exact H2].
Defined.
