(* ===== verification/KeSystem.v ===== *)
(** * KeSystem: the department as a whole.

    The boot state, the operations as one alphabet, the consistency sweep
    (kernel/ke/wait.c, timer.c, kernel/init/verify.c), and what holds in every
    state the operations can reach. *)

From S2P Require Import Prelude NtStatus KeTypes KeSched KeWait KeInv KeCheck KeWaitSpec KeEvent KeTimer KeApc.

(** ** Boot *)

(** KiIdleThread and the objects embedded in it live at [st]. *)
Definition KiInitializeScheduler (s : KSTATE) (PsInitialSystemProcess : addr) (st : thread_storage)
    : outcome KSTATE :=
  _ ← ASSERT (negb (PsInitialSystemProcess =? 0)) "Ps init precedes the scheduler";
  Ok (s <| KiReadyQueues := replicate (Z.to_nat KI_PRIORITY_LEVELS) [] |>
        <| KiReadySummary := 0 |>
        <| objects := created_objects st (objects s) |>
        <| threads := <[stThread st :=
              created_thread st 0 PsInitialSystemProcess <| state := KI_THREAD_STATE_RUNNING |>]> (threads s) |>
        <| KiIdleThread := stThread st |> <| KiCurrentThread := stThread st |>).

(** Everything the department keeps, zeroed. *)
Definition zero_state (rate base : Z) (page : option KUSER_SHARED_TIME) : KSTATE :=
  mkKSTATE 0 0 ∅ ∅ [] 0 0 None (mkKI_SCHEDULE_TRACE 0 0 0 [] [] false) [] 0 0 0 rate base 0 0 0 0 [] page.

Definition boot (rate base tsc : Z) (page : option KUSER_SHARED_TIME) (PsInitialSystemProcess : addr)
    (st : thread_storage) : outcome KSTATE :=
  s ← KiInitializeScheduler (zero_state rate base page) PsInitialSystemProcess st;
  Ok (KiInitializeTimerList s tsc).

(** ** The consistency sweep *)

Definition KiIsDispatcherType (ty : KI_OBJECT_TYPE) : bool :=
  match ty with
  | KI_OBJECT_NOTIFICATION_EVENT | KI_OBJECT_SYNCHRONIZATION_EVENT | KI_OBJECT_MUTANT | KI_OBJECT_PROCESS
  | KI_OBJECT_SEMAPHORE | KI_OBJECT_THREAD | KI_OBJECT_NOTIFICATION_TIMER
  | KI_OBJECT_SYNCHRONIZATION_TIMER => true
  end.

Definition KiWaitListContains (s : KSTATE) (object : addr) (block : KWAIT_BLOCK) : outcome bool :=
  o ← get_object s object;
  Ok (bool_decide (block ∈ waitListHead o)).

Definition verify_wait_block (s : KSTATE) (object : addr) (block : KWAIT_BLOCK) : outcome unit :=
  _ ← ASSERT (blockObject block =? object) "block->object == object";
  _ ← ASSERT (negb (blockThread block =? 0)) "thread != 0";
  t ← get_thread s (blockThread block);
  _ ← ASSERT (bool_decide (state t = KI_THREAD_STATE_WAITING)) "waiter is WAITING";
  ASSERT ((bool_decide (block = timerWaitBlock (blockThread block) t) && timerArmed t)
          || bool_decide (block ∈ waitBlockList t)) "owned".

Definition KiVerifyWaitList (s : KSTATE) (object : addr) : outcome unit :=
  o ← get_object s object;
  _ ← ASSERT (KiIsDispatcherType (type o)) "KiIsDispatcherType";
  checkM (verify_wait_block s object) (waitListHead o).

(** [block->object != 0] is the lookup: the heap has no object at null. *)
Definition verify_armed_block (s : KSTATE) (thread : addr) (block : KWAIT_BLOCK) : outcome unit :=
  _ ← ASSERT (blockThread block =? thread) "block->thread == thread";
  o ← get_object s (blockObject block);
  _ ← ASSERT (KiIsDispatcherType (type o)) "KiIsDispatcherType";
  c ← KiWaitListContains s (blockObject block) block;
  ASSERT c "KiWaitListContains".

Definition verify_owned_mutant (s : KSTATE) (thread : addr) (mutant : addr) : outcome unit :=
  o ← get_object s mutant;
  _ ← ASSERT (bool_decide (type o = KI_OBJECT_MUTANT)) "mutant";
  _ ← ASSERT (ownerThread o =? thread) "ownerThread == thread";
  ASSERT (signalState o <=? 0) "owned mutants are not signalled".

Definition KiVerifyThreadWaitState (s : KSTATE) (thread : addr) : outcome unit :=
  t ← get_thread s thread;
  o ← get_object s thread;
  _ ← (match state t with
       | KI_THREAD_STATE_INITIALIZED =>
           _ ← ASSERT (bool_decide (waitBlockList t = [])) "no blocks";
           ASSERT (0 <=? suspendCount t) "suspendCount"
       | KI_THREAD_STATE_READY =>
           _ ← ASSERT (bool_decide (waitBlockList t = [])) "no blocks";
           on ← KiIsThreadOnReadyQueue s thread;
           ASSERT on "on its ready queue"
       | KI_THREAD_STATE_RUNNING => ASSERT (thread =? KiCurrentThread s) "current"
       | KI_THREAD_STATE_WAITING =>
           _ ← ASSERT (negb (bool_decide (waitBlockList t = [])) || timerArmed t) "waits on something";
           _ ← checkM (verify_armed_block s thread) (waitBlockList t);
           if timerArmed t then
             tm ← get_object s (timer t);
             _ ← ASSERT (inserted tm) "armed timer is queued";
             c ← KiWaitListContains s (timer t) (timerWaitBlock thread t);
             ASSERT c "timeout block linked"
           else Ok tt
       | KI_THREAD_STATE_TERMINATED => ASSERT (signalState o =? 1) "joined"
       end);
  checkM (verify_owned_mutant s thread) (mutantListHead t).

Fixpoint verify_timers (s : KSTATE) (l : list addr) (previousDue : Z) : outcome unit :=
  match l with
  | [] => Ok tt
  | timer :: l' =>
      o ← get_object s timer;
      _ ← ASSERT (inserted o) "inserted";
      _ ← ASSERT (bool_decide (is_timer (type o))) "timer type";
      _ ← ASSERT (previousDue <=? dueTime o) "due-time order";
      _ ← ASSERT (0 <=? period o) "period";
      _ ← KiVerifyWaitList s timer;
      verify_timers s l' (dueTime o)
  end.

Definition KiVerifyTimerList (s : KSTATE) : outcome unit := verify_timers s (KiTimerListHead s) 0.

(** ** The sweep's assertions are consequences of the invariant *)

Section sweep.
Implicit Types (s : KSTATE) (t a x : Z) (th : KTHREAD) (o : KOBJECT) (b : KWAIT_BLOCK).

Lemma KiVerifyWaitList_Ok s a o : ke_inv s -> objects s !! a = Some o -> KiVerifyWaitList s a = Ok tt.
Proof.
  intros Hinv Ho. destruct (ki_core _ Hinv) as [[_ Hw _ _ Hob] _].
  unfold KiVerifyWaitList, get_object. rewrite Ho. run.
  replace (KiIsDispatcherType (type o)) with true by (by destruct (type o)). run.
  apply checkM_Ok. intros b Hb. destruct (block_waiter s a o b Hw Ho Hb) as (<- & th & Hth & Hst & Hin).
  unfold verify_wait_block, get_thread. rewrite Z.eqb_refl. run.
  rewrite (proj2 (Z.eqb_neq (blockThread b) 0)) by apply (oi_thread _ Hob _ _ Hth). run. rewrite Hth. run.
  rewrite (bool_decide_eq_true_2 _ Hst). run. apply ASSERT_true.
  unfold all_blocks in Hin. apply elem_of_app in Hin as [Hin|Hin].
  - rewrite (bool_decide_eq_true_2 (b ∈ waitBlockList th)) by done. apply orb_true_r.
  - destruct (timerArmed th); [|by apply elem_of_nil in Hin]. apply list_elem_of_singleton in Hin.
    rewrite bool_decide_eq_true_2 by done. done.
Qed.

Lemma KiWaitListContains_Ok s t th b :
  wait_inv s -> threads s !! t = Some th -> b ∈ all_blocks t th ->
  KiWaitListContains s (blockObject b) b = Ok true.
Proof.
  intros Hw Hth Hb. destruct (block_linked s t th b Hw Hth Hb) as (_ & o & Ho & Hin).
  unfold KiWaitListContains, get_object. rewrite Ho. run. by rewrite bool_decide_eq_true_2.
Qed.

Lemma KiIsThreadOnReadyQueue_Ok s t th :
  sched_inv s -> threads s !! t = Some th -> state th = KI_THREAD_STATE_READY -> t <> KiIdleThread s ->
  KiIsThreadOnReadyQueue s t = Ok true.
Proof.
  intros Hs Hth Hst Hid. pose proof (si_priority _ Hs _ _ Hth) as [H1 H2].
  unfold KiIsThreadOnReadyQueue, get_thread. rewrite Hth. run.
  rewrite (proj2 (Z.ltb_ge _ _)) by lia. rewrite (proj2 (Z.leb_gt _ _)) by lia. cbn [orb].
  rewrite bool_decide_eq_true_2; [done|]. apply (si_queue _ Hs); [done|]. split; [done|]. by exists th.
Qed.

Lemma KiVerifyThreadWaitState_Ok s t th :
  ke_inv s -> threads s !! t = Some th -> t <> KiIdleThread s -> 0 <= suspendCount th ->
  KiVerifyThreadWaitState s t = Ok tt.
Proof.
  intros Hinv Hth Hid Hsus. destruct (ki_core _ Hinv) as [[Hs Hw Ht Hm Hob] _].
  pose proof (wi_threads _ Hw _ _ Hth) as Hok.
  destruct (oi_thread _ Hob _ _ Hth) as (_ & _ & o & Ho & _ & Hdead).
  unfold KiVerifyThreadWaitState, get_thread, get_object. rewrite Hth. run. rewrite Ho. run.
  assert (Hmut : checkM (verify_owned_mutant s t) (mutantListHead th) = Ok tt).
  { apply checkM_Ok. intros m Hin. destruct (mi_list _ Hm t th m Hth Hin) as (om & Hom & Hty & How).
    unfold verify_owned_mutant, get_object. rewrite Hom. run. rewrite (bool_decide_eq_true_2 _ Hty). run.
    rewrite How, Z.eqb_refl. run. apply ASSERT_true, Z.leb_le.
    destruct (mi_object _ Hm m om Hom Hty) as [_ Howned]. apply Howned. rewrite How.
    by apply (oi_thread _ Hob _ _ Hth). }
  assert (Hnb : state th <> KI_THREAD_STATE_WAITING -> waitBlockList th = []).
  { intros Hn. by apply (not_waiting_blocks s t th Hw Hth Hn). }
  destruct (state th) eqn:Est.
  - rewrite bool_decide_eq_true_2 by auto. run. rewrite (proj2 (Z.leb_le _ _)) by done. by run.
  - rewrite bool_decide_eq_true_2 by auto. run. rewrite (KiIsThreadOnReadyQueue_Ok s t th) by done. by run.
  - destruct (ki_cur _ Hinv) as [_ Honly]. rewrite (Honly t th Hth Est), Z.eqb_refl. run.
    rewrite <- (Honly t th Hth Est). done.
  - assert (Hne : all_blocks t th <> []) by exact (proj1 (wo_waiting _ _ Hok) Est).
    assert (E : negb (bool_decide (waitBlockList th = [])) || timerArmed th = true).
    { case_bool_decide as E; [|done]. unfold all_blocks in Hne. rewrite E in Hne. by destruct (timerArmed th). }
    rewrite E. run.
    rewrite (proj2 (checkM_Ok (verify_armed_block s t) (waitBlockList th))).
    2: { intros b Hb. assert (Hb' : b ∈ all_blocks t th) by (apply elem_of_app; by left).
         unfold verify_armed_block, get_object. rewrite (wo_thread _ _ Hok b Hb), Z.eqb_refl. run.
         destruct (block_linked s t th b Hw Hth Hb') as (_ & ob & Hob' & _). rewrite Hob'. run.
         replace (KiIsDispatcherType (type ob)) with true by (by destruct (type ob)). run.
         by rewrite (KiWaitListContains_Ok s t th b). }
    run. destruct (timerArmed th) eqn:Earm; [|done].
    destruct (ti_thread _ _ Ht t th Hth) as (tm & Htm & _ & _ & Hi). rewrite Htm. run.
    rewrite Hi by done. rewrite Earm. run.
    change (timer th) with (blockObject (timerWaitBlock t th)).
    rewrite (KiWaitListContains_Ok s t th); [done..|]. unfold all_blocks. rewrite Earm.
    apply elem_of_app. right. left.
  - rewrite Hdead by done. done.
Qed.

Lemma verify_timers_Ok s l d :
  ke_inv s -> (forall a, a ∈ l -> a ∈ KiTimerListHead s) ->
  StronglySorted (fun x y => due s x <= due s y) l -> Forall (fun a => d <= due s a) l ->
  verify_timers s l d = Ok tt.
Proof.
  intros Hinv. pose proof (kb_timer _ _ (proj1 (ki_core _ Hinv))) as Ht. revert d.
  induction l as [|a l IH]; intros d Hin Hsort Hd; [done|]. cbn [verify_timers].
  pose proof (Hin a ltac:(left)) as Ha. apply (ti_mem _ _ Ht) in Ha as (o & Ho & Hi).
  destruct (ti_type _ _ Ht _ _ Ho Hi) as [Hty _]. pose proof (ti_period _ _ Ht _ _ Ho).
  apply StronglySorted_inv in Hsort as [Hsort Hall]. apply Forall_cons in Hd as [Hda Hd].
  assert (Edue : due s a = dueTime o) by (unfold due; by rewrite Ho). rewrite Edue in Hda.
  unfold get_object. rewrite Ho. run. rewrite Hi. run. rewrite (bool_decide_eq_true_2 _ Hty). run.
  rewrite (proj2 (Z.leb_le d (dueTime o))) by done. run. rewrite (proj2 (Z.leb_le 0 (period o))) by lia. run.
  rewrite (KiVerifyWaitList_Ok s a o) by done. run. apply IH; [|done|by rewrite <- Edue].
  intros x Hx. apply Hin. by right.
Qed.

Lemma KiVerifyTimerList_Ok s : ke_inv s -> KiVerifyTimerList s = Ok tt.
Proof.
  intros Hinv. pose proof (kb_timer _ _ (proj1 (ki_core _ Hinv))) as Ht.
  apply verify_timers_Ok; [done|done|apply Ht|]. apply Forall_forall. intros a Ha.
  apply (ti_mem _ _ Ht) in Ha as (o & Ho & Hi). unfold due. rewrite Ho. by apply (ti_type _ _ Ht a).
Qed.
End sweep.

(** ** Objects that come and go *)

Section objects.
Implicit Types (s : KSTATE) (t a x m : Z) (th : KTHREAD) (o : KOBJECT) (b : KWAIT_BLOCK).

(** An object just initialised. *)
Record new_ok o : Prop := {
  no_list : waitListHead o = [];
  no_inserted : inserted o = false;
  no_object : object_ok o;
  no_mutant : type o = KI_OBJECT_MUTANT -> ownerThread o = 0 /\ signalState o = 1;
  no_period : period o = 0;
}.

Lemma new_object_inv s a o : ke_inv s -> objects s !! a = None -> new_ok o -> ke_inv (put_object s a o).
Proof.
  intros [[[Hs Hw Ht Hm Hob] Hr] Hq Hc Hclk] Hnone [N1 N2 N3 N4 N5].
  assert (Hold : forall x ox, objects s !! x = Some ox -> objects (put_object s a o) !! x = Some ox).
  { intros x ox Hx. simpl. rewrite lookup_insert_ne; [done|]. congruence. }
  assert (Hlk : forall x ox, objects (put_object s a o) !! x = Some ox ->
    (x = a /\ ox = o) \/ objects s !! x = Some ox).
  { intros x ox. simpl. rewrite lookup_insert_Some. naive_solver. }
  split; [split; [split|]| | |done].
  - by apply put_object_sched.
  - destruct Hw as [[L1 L2 L3] Hwt]. split; [|done]. split.
    + intros x ox Hx. destruct (Hlk x ox Hx) as [[_ ->]|Hx']; [rewrite N1; constructor|by apply (L1 x)].
    + intros x ox b Hx Hb. destruct (Hlk x ox Hx) as [[_ ->]|Hx']; [rewrite N1 in Hb; by apply elem_of_nil in Hb|by apply (L2 x ox)].
    + intros b. specialize (L3 b). change (armed (put_object s a o) b) with (armed s b). rewrite <- L3. split.
      * intros (ox & Hx & Hb). destruct (Hlk _ ox Hx) as [[_ ->]|Hx']; [rewrite N1 in Hb; by apply elem_of_nil in Hb|by exists ox].
      * intros (ox & Hx & Hb). exists ox. split; [by apply Hold|done].
  - destruct Ht as [T1 T2 T3 T4 T5 T6 T7].
    assert (Hdue : forall x, x ∈ KiTimerListHead s -> due (put_object s a o) x = due s x).
    { intros x Hx. apply T2 in Hx as (ox & Hx & _). unfold due. by rewrite Hx, (Hold x ox Hx). }
    split; try done.
    + intros x. simpl KiTimerListHead. rewrite T2. split; intros (ox & Hx & Hi).
      * exists ox. split; [by apply Hold|done].
      * destruct (Hlk x ox Hx) as [[_ ->]|Hx']; [congruence|by exists ox].
    + eapply StronglySorted_mono; [|exact T3]. intros x y Hx Hy. by rewrite !Hdue.
    + intros x ox Hx Hi. destruct (Hlk x ox Hx) as [[_ ->]|Hx']; [congruence|by apply (T4 x)].
    + intros x ox Hx. destruct (Hlk x ox Hx) as [[_ ->]|Hx']; [rewrite N5; lia|by apply (T5 x)].
    + intros t th Hth. destruct (T6 t th Hth) as (ox & Hx & H). exists ox. split; [by apply Hold|done].
  - destruct Hm as [M1 M2 M3 M4]. split; try done.
    + intros x ox Hx Hty. destruct (Hlk x ox Hx) as [[_ ->]|Hx']; [|by destruct (M1 x ox Hx' Hty)].
      destruct (N4 Hty) as [E1 E2]. split; [done|by rewrite E1].
    + intros t th m Hth Hin. destruct (M2 t th m Hth Hin) as (ox & Hx & H). exists ox. split; [by apply Hold|done].
  - destruct Hob as [O1 O2]. split.
    + intros x ox Hx. destruct (Hlk x ox Hx) as [[_ ->]|Hx']; [done|by apply (O1 x)].
    + intros t th Hth. destruct (O2 t th Hth) as (? & ? & ox & Hx & H). split_and!; [done..|].
      exists ox. split; [by apply Hold|done].
  - intros t th b Hth Hb ox Hx Hty How. destruct (Hlk _ ox Hx) as [[_ ->]|Hx']; [|by apply (Hr t th b)].
    destruct (N4 Hty) as [_ ->]. lia.
  - apply (quiet_mono s); [|done]. intros t th Hth Hne. exists th. split_and!; try done.
    intros b Hb (ox & Hx & Hsat). destruct (block_linked s t th b Hw Hth Hb) as (_ & ob & Hob' & _).
    exists ob. split; [done|]. rewrite (Hold _ _ Hob') in Hx. by injection Hx as <-.
  - done.
Qed.

(** [s'] is [s] less some threads that can no longer run and some objects
    nobody uses. *)
Record shrunk s s' : Prop := {
  sh_threads : forall t th, threads s' !! t = Some th -> threads s !! t = Some th;
  sh_gone : forall t th, threads s !! t = Some th -> threads s' !! t = None ->
    state th = KI_THREAD_STATE_TERMINATED \/ state th = KI_THREAD_STATE_INITIALIZED;
  sh_objects : forall a o, objects s' !! a = Some o -> objects s !! a = Some o;
  sh_unused : forall a o, objects s !! a = Some o -> objects s' !! a = None ->
    waitListHead o = [] /\ inserted o = false /\ (type o = KI_OBJECT_MUTANT -> ownerThread o = 0) /\
    forall t th, threads s' !! t = Some th -> a <> t /\ a <> timer th;
  sh_owner : forall t th, threads s !! t = Some th -> threads s' !! t = None -> mutantListHead th = [];
  sh_rest : s' = s <| threads := threads s' |> <| objects := objects s' |>;
}.

Lemma shrunk_inv s s' : ke_inv s -> shrunk s s' -> ke_inv s'.
Proof.
  intros [[[Hs Hw Ht Hm Hob] Hr] Hq Hc Hclk] [S1 S2 S3 S4 S5 S6].
  assert (Eq : KiReadyQueues s' = KiReadyQueues s /\ KiReadySummary s' = KiReadySummary s /\
    KiIdleThread s' = KiIdleThread s /\ KiCurrentThread s' = KiCurrentThread s /\
    KiTimerListHead s' = KiTimerListHead s) by (rewrite S6; done).
  destruct Eq as (E1 & E2 & E3 & E4 & E5).
  assert (Eclk : clock_inv s') by (unfold clock_inv in *; by rewrite S6). clear S6.
  assert (Hkeep : forall t th, threads s !! t = Some th ->
    state th <> KI_THREAD_STATE_TERMINATED -> state th <> KI_THREAD_STATE_INITIALIZED -> threads s' !! t = Some th).
  { intros t th Hth Hn1 Hn2. destruct (threads s' !! t) as [th'|] eqn:E; [pose proof (S1 _ _ E); congruence|].
    destruct (S2 t th Hth E); done. }
  assert (Hin : forall a o, objects s !! a = Some o -> waitListHead o <> [] \/ inserted o = true \/
      (type o = KI_OBJECT_MUTANT /\ ownerThread o <> 0) \/
      (exists t th, threads s' !! t = Some th /\ (a = t \/ a = timer th)) -> objects s' !! a = Some o).
  { intros a o Ho Hu. destruct (objects s' !! a) as [o'|] eqn:E; [pose proof (S3 _ _ E); congruence|].
    destruct (S4 a o Ho E) as (U1 & U2 & U3 & U4). destruct Hu as [?|[?|[[? ?]|(t & th & Hth & [Ea|Ea])]]];
      [done|congruence|by destruct U3|by destruct (U4 t th Hth)|by destruct (U4 t th Hth)]. }
  split; [split; [split|]| | |done].
  - destruct Hs as [H1 H2 H3 H4 H5 H6 H7]. split; rewrite ?E1, ?E2, ?E3; try done.
    + intros level Hl. unfold ready_queue. rewrite E1. by apply H2.
    + intros level x Hl. unfold ready_queue. rewrite E1. fold (ready_queue s level). rewrite (H3 level x Hl).
      unfold ready_at. rewrite E3. split; intros (? & th & Hth & Hst & ?); (split; [done|]); exists th; (split; [|done]).
      * apply Hkeep; [done|by rewrite Hst..].
      * by apply S1.
    + intros level Hl. unfold ready_queue. rewrite E1. by apply H4.
    + intros t th Hth. by apply (H6 t), S1.
    + destruct H7 as (th & Hth & Hst). exists th. split; [|done]. apply Hkeep; [done|destruct Hst as [->| ->]; done..].
  - destruct Hw as [[L1 L2 L3] Hwt]. split; [|intros t th Hth; by apply Hwt, S1]. split.
    + intros a o Ho. by apply (L1 a), S3.
    + intros a o b Ho. by apply (L2 a o), S3.
    + intros b. specialize (L3 b). split.
      * intros (o & Ho & Hb). destruct (proj1 L3) as (th & Hth & Hb'); [exists o; split; [by apply S3|done]|].
        exists th. split; [|done]. assert (Hst : state th = KI_THREAD_STATE_WAITING).
        { apply (wo_waiting _ _ (Hwt _ _ Hth)). intros E. rewrite E in Hb'. by apply elem_of_nil in Hb'. }
        apply Hkeep; [done|by rewrite Hst..].
      * intros (th & Hth & Hb). destruct (proj2 L3) as (o & Ho & Hb'); [exists th; split; [by apply S1|done]|].
        exists o. split; [|done]. apply Hin; [done|]. left. intros E. rewrite E in Hb'. by apply elem_of_nil in Hb'.
  - destruct Ht as [T1 T2 T3 T4 T5 T6 T7].
    assert (Hdue : forall x, x ∈ KiTimerListHead s -> due s' x = due s x).
    { intros x Hx. apply T2 in Hx as (o & Ho & Hi). unfold due. rewrite Ho, (Hin x o Ho); auto. }
    split; rewrite ?E5; try done.
    + intros x. rewrite T2. split; intros (o & Ho & Hi); exists o; (split; [|done]); [apply Hin; auto|by apply S3].
    + eapply StronglySorted_mono; [|exact T3]. intros x y Hx Hy. by rewrite !Hdue.
    + intros a o Ho. by apply (T4 a), S3.
    + intros a o Ho. by apply (T5 a), S3.
    + intros t th Hth. destruct (T6 t th (S1 _ _ Hth)) as (o & Ho & H). exists o. split; [|done].
      apply Hin; [done|]. right. right. right. exists t, th. auto.
    + intros t t' th th' Hth Hth'. apply T7; by apply S1.
  - destruct Hm as [M1 M2 M3 M4]. split.
    + intros m o Ho Hty. destruct (M1 m o (S3 _ _ Ho) Hty) as [A B]. split; [done|]. intros Hn.
      destruct (B Hn) as (? & th & Hth & Hl). split; [done|]. exists th. split; [|done].
      destruct (threads s' !! ownerThread o) as [th'|] eqn:E; [pose proof (S1 _ _ E); congruence|].
      rewrite (S5 _ _ Hth E) in Hl. by apply elem_of_nil in Hl.
    + intros t th m Hth Hl. destruct (M2 t th m (S1 _ _ Hth) Hl) as (o & Ho & Hty & How). exists o.
      split; [|done]. apply Hin; [done|]. right. right. left. split; [done|]. rewrite How.
      by apply (oi_thread _ Hob _ _ (S1 _ _ Hth)).
    + intros t th Hth. by apply (M3 t), S1.
    + intros t th Hth. by apply (M4 t), S1.
  - destruct Hob as [O1 O2]. split.
    + intros a o Ho. by apply (O1 a), S3.
    + intros t th Hth. destruct (O2 t th (S1 _ _ Hth)) as (? & ? & o & Ho & H). split_and!; [done..|].
      exists o. split; [|done]. apply Hin; [done|]. right. right. right. exists t, th. auto.
  - intros t th b Hth Hb o Ho. apply (Hr t th b); [by apply S1|done|by apply S3].
  - apply (quiet_weaken s); [done| |].
    + intros t th Hth _. exists th. split; [by apply S1|done].
    + intros x t (o & Ho & Hsat). exists o. split; [by apply S3|done].
  - destruct Hc as [(th & Hth & Hst) Honly]. split; rewrite E4.
    + exists th. split; [|done]. apply Hkeep; [done|by rewrite Hst..].
    + intros t thx Hx. by apply Honly, S1.
Qed.
End objects.

(** ** The deadlock detector (kernel/init/verify.c)

    [tcb] reads the tcb field of the ETHREAD whose header a thread object is:
    that structure belongs to Ps. *)

Fixpoint edge_scan (tcb : addr -> addr) (s : KSTATE) (thread : addr) (blocks : list KWAIT_BLOCK) : outcome addr :=
  match blocks with
  | [] => Ok 0
  | block :: blocks' =>
      o ← get_object s (blockObject block);
      match type o with
      | KI_OBJECT_MUTANT =>
          if negb (ownerThread o =? 0) && negb (ownerThread o =? thread) then Ok (ownerThread o)
          else edge_scan tcb s thread blocks'
      | KI_OBJECT_THREAD =>
          let target := tcb (blockObject block) in
          if negb (target =? 0) && negb (target =? thread) then Ok target
          else edge_scan tcb s thread blocks'
      | _ => edge_scan tcb s thread blocks'
      end
  end.

Definition KiWaitEdge (tcb : addr -> addr) (s : KSTATE) (thread : addr) : outcome addr :=
  t ← get_thread s thread;
  if negb (bool_decide (state t = KI_THREAD_STATE_WAITING)) || timerArmed t || waitAlertable t then Ok 0 else
  match waitBlockList t with
  | [] => Ok 0
  | block :: rest =>
      if bool_decide (waitType block = WaitAny) && negb (bool_decide (rest = [])) then Ok 0
      else edge_scan tcb s thread (waitBlockList t)
  end.

(** [fuel] is the loop bound, 64 steps. *)
Fixpoint find_cycle (tcb : addr -> addr) (fuel : nat) (s : KSTATE) (start walk : addr) (steps : Z) : outcome Z :=
  match fuel with
  | O => Ok 0
  | S fuel' =>
      if walk =? 0 then Ok 0
      else if walk =? start then Ok (steps + 1)
      else next ← KiWaitEdge tcb s walk; find_cycle tcb fuel' s start next (steps + 1)
  end.

Definition KiFindWaitCycle (tcb : addr -> addr) (s : KSTATE) (start : addr) : outcome Z :=
  walk ← KiWaitEdge tcb s start;
  find_cycle tcb 64 s start walk 0.

(** Without the diagnostic lines, KiDetectKernelDeadlock is one assertion. *)
Definition KiDetectKernelDeadlock (tcb : addr -> addr) (s : KSTATE) (tcbOfThread : addr) : outcome unit :=
  members ← KiFindWaitCycle tcb s tcbOfThread;
  ASSERT (members =? 0) "kernel wait-for cycle (deadlock)".

Section deadlock.
Context (tcb : addr -> addr).
Implicit Types (s : KSTATE) (t a x u m : Z) (th : KTHREAD) (o : KOBJECT) (b : KWAIT_BLOCK).

(** [t] is parked, nothing but its objects can end its wait, and it cannot end
    before object [a] is signalled: for a mutant, held by [u]; for a join, the
    thread object of [u]. *)
Definition needs s t u : Prop :=
  exists th b o, threads s !! t = Some th /\ state th = KI_THREAD_STATE_WAITING /\
    timerArmed th = false /\ waitAlertable th = false /\ b ∈ waitBlockList th /\
    objects s !! blockObject b = Some o /\ u <> t /\ u <> 0 /\
    (satisfiable s (blockObject <$> waitBlockList th) (waitType b) t -> sat s (blockObject b) t) /\
    ((type o = KI_OBJECT_MUTANT /\ ownerThread o = u /\ ~ sat s (blockObject b) t) \/
     (type o = KI_OBJECT_THREAD /\ tcb (blockObject b) = u)).

(** Object [a] keeps [t] waiting for thread [u]: a mutant another thread owns,
    or the thread object of another thread. *)
Definition blocks_on s t a u : Prop :=
  u <> 0 /\ u <> t /\ exists o, objects s !! a = Some o /\
    ((type o = KI_OBJECT_MUTANT /\ ownerThread o = u) \/ (type o = KI_OBJECT_THREAD /\ tcb a = u)).

(** The wait-for edge of [t]: it is parked with neither a timeout nor an
    alertable wait to end it, on one object or for all of several, and [u] is
    the thread behind the first of them that keeps it waiting for another. *)
Definition edge s t u : Prop :=
  exists th, threads s !! t = Some th /\ state th = KI_THREAD_STATE_WAITING /\
    timerArmed th = false /\ waitAlertable th = false /\
    (length (waitBlockList th) = 1%nat \/ forall b, b ∈ waitBlockList th -> waitType b = WaitAll) /\
    exists i b, waitBlockList th !! i = Some b /\ blocks_on s t (blockObject b) u /\
      forall j b' v, (j < i)%nat -> waitBlockList th !! j = Some b' -> ~ blocks_on s t (blockObject b') v.

Definition thread_objects_ok s : Prop :=
  forall a o, objects s !! a = Some o -> type o = KI_OBJECT_THREAD -> tcb a <> 0 -> is_Some (threads s !! tcb a).

Lemma blocks_on_eq s t a u v o :
  objects s !! a = Some o ->
  (type o = KI_OBJECT_MUTANT -> ownerThread o = u) -> (type o = KI_OBJECT_THREAD -> tcb a = u) ->
  blocks_on s t a v -> v = u.
Proof. intros Ho Hm Ht (_ & _ & o' & Ho' & [[? ?]|[? ?]]); simplify_eq; auto. Qed.

(** The scan stops at the first object that blocks. *)
Lemma edge_scan_spec s t th blocks :
  ke_inv s -> threads s !! t = Some th -> (forall b, b ∈ blocks -> b ∈ waitBlockList th) ->
  returns (edge_scan tcb s t blocks) (fun u =>
    (u = 0 /\ forall b v, b ∈ blocks -> ~ blocks_on s t (blockObject b) v) \/
    exists i b, blocks !! i = Some b /\ blocks_on s t (blockObject b) u /\
      (forall v, blocks_on s t (blockObject b) v -> v = u) /\
      forall j b' v, (j < i)%nat -> blocks !! j = Some b' -> ~ blocks_on s t (blockObject b') v).
Proof.
  intros Hinv Hth. pose proof (ki_core _ Hinv) as [[_ Hw _ Hm _] _].
  induction blocks as [|b l IH]; intros Hin.
  { left. split; [done|]. intros b v Hb. by apply elem_of_nil in Hb. }
  cbn [edge_scan].
  assert (Hb : b ∈ all_blocks t th) by (apply elem_of_app; left; apply Hin; left).
  destruct (block_linked s t th b Hw Hth Hb) as (_ & o & Ho & _). unfold get_object. rewrite Ho. run.
  specialize (IH ltac:(intros x Hx; apply Hin; by right)).
  assert (Hskip : (forall v, ~ blocks_on s t (blockObject b) v) ->
    returns (edge_scan tcb s t l) (fun u =>
      (u = 0 /\ forall b0 v, b0 ∈ b :: l -> ~ blocks_on s t (blockObject b0) v) \/
      exists i b0, (b :: l) !! i = Some b0 /\ blocks_on s t (blockObject b0) u /\
        (forall v, blocks_on s t (blockObject b0) v -> v = u) /\
        forall j b' v, (j < i)%nat -> (b :: l) !! j = Some b' -> ~ blocks_on s t (blockObject b') v)).
  { intros Hno. eapply returns_mono; [apply IH|]. intros u [[-> H]|(i & b0 & Hi & Hu & Heq & Hbefore)].
    - left. split; [done|]. intros b0 v [->|Hb0]%elem_of_cons; [apply Hno|by apply H].
    - right. exists (S i), b0. split_and!; [done..|]. intros [|j] b' v Hlt; simpl.
      + intros [= <-]. apply Hno.
      + apply Hbefore. lia. }
  assert (Hstop : forall u, blocks_on s t (blockObject b) u -> (forall v, blocks_on s t (blockObject b) v -> v = u) ->
    exists i b0, (b :: l) !! i = Some b0 /\ blocks_on s t (blockObject b0) u /\
      (forall v, blocks_on s t (blockObject b0) v -> v = u) /\
      forall j b' v, (j < i)%nat -> (b :: l) !! j = Some b' -> ~ blocks_on s t (blockObject b') v).
  { intros u Hu Heq. exists 0%nat, b. split_and!; [done..|]. intros. lia. }
  destruct (type o) eqn:Hty; try (apply Hskip; intros v (_ & _ & o' & Ho' & [[? _]|[? _]]); congruence).
  - destruct (Z.eqb_spec (ownerThread o) 0) as [|Hn0];
      [|destruct (Z.eqb_spec (ownerThread o) t) as [|Hnt]]; cbn [negb andb];
      try (apply Hskip; intros v Hv; pose proof (blocks_on_eq s t _ (ownerThread o) v o Ho ltac:(done) ltac:(congruence) Hv);
        destruct Hv as (? & ? & _); congruence).
    cbn [returns]. right. apply Hstop; [split_and!; [done..|]; exists o; auto|].
    intros v. by apply (blocks_on_eq s t _ _ v o Ho); [|congruence].
  - destruct (Z.eqb_spec (tcb (blockObject b)) 0) as [|Hn0];
      [|destruct (Z.eqb_spec (tcb (blockObject b)) t) as [|Hnt]]; cbn [negb andb];
      try (apply Hskip; intros v Hv; pose proof (blocks_on_eq s t _ (tcb (blockObject b)) v o Ho ltac:(congruence) ltac:(done) Hv);
        destruct Hv as (? & ? & _); congruence).
    cbn [returns]. right. apply Hstop; [split_and!; [done..|]; exists o; auto|].
    intros v. by apply (blocks_on_eq s t _ _ v o Ho); [congruence|].
Qed.

(** The code computes the edge, if there is one. *)
Lemma KiWaitEdge_spec s t :
  ke_inv s -> is_Some (threads s !! t) ->
  returns (KiWaitEdge tcb s t) (fun u => (u <> 0 -> edge s t u) /\ forall v, edge s t v -> v = u /\ u <> 0).
Proof.
  intros Hinv [th Hth]. unfold KiWaitEdge, get_thread. rewrite Hth. run.
  assert (Hnone : (forall v, ~ edge s t v) -> returns (Ok 0) (fun u =>
    (u <> 0 -> edge s t u) /\ forall v, edge s t v -> v = u /\ u <> 0)).
  { intros Hno. cbn. split; [done|]. intros v Hv. by apply Hno in Hv. }
  case_bool_decide as Hst; [|apply Hnone; intros v (th' & ? & ? & _); simplify_eq].
  destruct (timerArmed th) eqn:Earm; [apply Hnone; intros v (th' & ? & ? & ? & _); simplify_eq; congruence|].
  destruct (waitAlertable th) eqn:Ealert; [apply Hnone; intros v (th' & ? & ? & ? & ? & _); simplify_eq; congruence|].
  cbn [negb orb]. destruct (waitBlockList th) as [|b0 rest] eqn:El.
  { apply Hnone. intros v (th' & ? & _ & _ & _ & _ & i & b & Hb & _). simplify_eq. by rewrite El in Hb. }
  pose proof (wi_threads _ (kb_wait _ _ (proj1 (ki_core _ Hinv))) _ _ Hth) as Hok.
  destruct (bool_decide (waitType b0 = WaitAny) && negb (bool_decide (rest = []))) eqn:Ewt.
  { apply andb_true_iff in Ewt as [E1%bool_decide_eq_true E2%negb_true_iff%bool_decide_eq_false].
    apply Hnone. intros v (th' & ? & _ & _ & _ & [Hlen|Hall] & _); simplify_eq; rewrite El in *.
    - by destruct rest.
    - specialize (Hall b0 ltac:(left)). congruence. }
  assert (Hshape : length (waitBlockList th) = 1%nat \/ forall b, b ∈ waitBlockList th -> waitType b = WaitAll).
  { apply andb_false_iff in Ewt as [E%bool_decide_eq_false|E%negb_false_iff%bool_decide_eq_true].
    - right. intros b Hb. rewrite (wo_all _ _ Hok b b0); [by destruct (waitType b0)|done|rewrite El; left].
    - left. rewrite El. by subst. }
  rewrite <- El. eapply returns_mono; [by apply (edge_scan_spec s t th)|].
  intros u [[-> Hno]|(i & b & Hi & Hu & Heq & Hbefore)].
  - split; [done|]. intros v (th' & Hth' & _ & _ & _ & _ & i & b & Hi & Hb & _). simplify_eq.
    exfalso. by eapply Hno, Hb; eapply list_elem_of_lookup_2.
  - split.
    + intros _. exists th. split_and!; [done..|]. by exists i, b.
    + intros v (th' & Hth' & _ & _ & _ & _ & i' & b' & Hi' & Hv & Hbefore'). simplify_eq.
      split; [|apply Hu]. destruct (lt_eq_lt_dec i i') as [[Hlt| ->]|Hlt].
      * by destruct (Hbefore' i b u Hlt Hi).
      * simplify_eq. by apply Heq.
      * by destruct (Hbefore i' b' v Hlt Hi').
Qed.

Lemma edge_needs s t u : ke_inv s -> edge s t u -> needs s t u.
Proof.
  intros Hinv (th & Hth & Hst & Harm & Hal & Hshape & i & b & Hi & (Hn0 & Hne & o & Ho & Hcase) & _).
  assert (Hb : b ∈ waitBlockList th) by (by eapply list_elem_of_lookup_2).
  exists th, b, o. split_and!; try done.
  - destruct Hshape as [Hlen|Hall].
    + destruct (waitBlockList th) as [|b0 [|]]; try done. apply list_elem_of_singleton in Hb as ->.
      destruct (waitType b0); cbn; [intros H; apply H; left|].
      intros (a & Ha & H). by apply list_elem_of_singleton in Ha as ->.
    + rewrite (Hall b Hb). intros H. apply H. by apply list_elem_of_fmap_2.
  - destruct Hcase as [[Hty How]|[? ?]]; [left|by right]. split_and!; [done..|].
    destruct (mi_object _ (kb_mutant _ _ (proj1 (ki_core _ Hinv))) _ _ Ho Hty) as [_ Howned].
    destruct (Howned ltac:(congruence)) as [[_ Hsig] _]. intros (o' & Ho' & Hsat). simplify_eq.
    apply KiIsSatisfiable_signal in Hsat as [|[_ ?]]; [lia|congruence].
Qed.

Lemma needs_thread s t u : ke_inv s -> thread_objects_ok s -> needs s t u -> is_Some (threads s !! u).
Proof.
  intros Hinv Hjoin (th & b & o & _ & _ & _ & _ & _ & Ho & _ & Hn0 & _ & [(Hty & <- & _)|(Hty & <-)]).
  - destruct (mi_object _ (kb_mutant _ _ (proj1 (ki_core _ Hinv))) _ _ Ho Hty) as [_ Howned].
    destruct (Howned Hn0) as (_ & thu & ? & _). by exists thu.
  - by apply (Hjoin _ _ Ho Hty).
Qed.

Lemma edges_need s k t u : ke_inv s -> nsteps (edge s) k t u -> nsteps (needs s) k t u.
Proof.
  intros Hinv H. induction H as [|k t v u He _ IH]; [constructor|]. econstructor; [by apply edge_needs|done].
Qed.

Lemma edge_steps_S s t v k u : (v <> 0 -> edge s t v) -> (forall w, edge s t w -> w = v /\ v <> 0) ->
  nsteps (edge s) (S k) t u <-> v <> 0 /\ nsteps (edge s) k v u.
Proof.
  intros Hv Hall. split.
  - intros H. inversion_clear H as [|? ? w ? He H']. by destruct (Hall w He) as [-> ?].
  - intros [Hn H]. econstructor; [by apply Hv|done].
Qed.

(** The loop finds the first return to [start] among its [fuel] steps. *)
Lemma find_cycle_spec fuel s start walk steps :
  ke_inv s -> thread_objects_ok s -> is_Some (threads s !! start) -> walk = 0 \/ is_Some (threads s !! walk) ->
  returns (find_cycle tcb fuel s start walk steps) (fun n =>
    (n = 0 /\ forall k, (k < fuel)%nat -> walk <> 0 -> ~ nsteps (edge s) k walk start) \/
    exists k, (k < fuel)%nat /\ n = steps + 1 + Z.of_nat k /\ walk <> 0 /\ nsteps (edge s) k walk start /\
      forall j, (j < k)%nat -> ~ nsteps (edge s) j walk start).
Proof.
  intros Hinv Hjoin Hstart. revert walk steps. induction fuel as [|fuel IH]; intros walk steps Hwalk; cbn [find_cycle].
  { left. split; [done|]. lia. }
  destruct (Z.eqb_spec walk 0) as [->|Hn0]; [by left|]. destruct Hwalk as [?|Hwalk]; [done|].
  destruct (Z.eqb_spec walk start) as [->|Hne].
  { right. exists 0%nat. split_and!; [lia|lia|done|constructor|lia]. }
  pose proof (KiWaitEdge_spec s walk Hinv Hwalk) as (next & E & Hnext & Hall)%returns_alt. rewrite E. run.
  assert (Hnext' : next = 0 \/ is_Some (threads s !! next)).
  { destruct (Z.eq_dec next 0); [by left|right]. eapply needs_thread; [done..|by apply edge_needs, Hnext]. }
  eapply returns_mono; [by apply IH|]. intros n [[-> H]|(k & Hk & -> & Hn & Hp & Hmin)].
  - left. split; [done|]. intros [|k] Hk _ Hp.
    + inversion Hp. congruence.
    + apply (edge_steps_S s walk next) in Hp as [? Hp]; [|done..]. by apply (H k ltac:(lia)).
  - right. exists (S k). split_and!; [lia|lia|done|by apply (edge_steps_S s walk next)|].
    intros [|j] Hj Hpj; [inversion Hpj; congruence|].
    apply (edge_steps_S s walk next) in Hpj as [_ Hpj]; [|done..]. by apply (Hmin j ltac:(lia)).
Qed.

(** C21. The deadlock detector is exact on cycles of up to 64 threads.  An edge
    leads from a thread parked without timeout or alertability, on one object or
    for all of several, to the thread behind the first object that blocks it: the
    owner of a mutant, or the thread whose end it joins.  A positive answer is
    the length of the shortest cycle of edges through the thread, and each
    member of it waits for something only the next member can release; zero means
    no cycle of 64 edges or fewer comes back to the thread, so a longer one goes
    unseen.  KiDetectKernelDeadlock panics exactly when there is one. *)
Theorem KiFindWaitCycle_exact s start :
  ke_inv s -> thread_objects_ok s -> is_Some (threads s !! start) ->
  returns (KiFindWaitCycle tcb s start) (fun n =>
    if n =? 0
    then (forall k, (1 <= k <= 64)%nat -> ~ nsteps (edge s) k start start) /\
         KiDetectKernelDeadlock tcb s start = Ok tt
    else 1 <= n <= 64 /\ nsteps (edge s) (Z.to_nat n) start start /\
         nsteps (needs s) (Z.to_nat n) start start /\
         (forall k, (1 <= k)%nat -> Z.of_nat k < n -> ~ nsteps (edge s) k start start) /\
         exists why, KiDetectKernelDeadlock tcb s start = Panic why).
Proof.
  intros Hinv Hjoin Hstart. unfold KiDetectKernelDeadlock, KiFindWaitCycle.
  pose proof (KiWaitEdge_spec s start Hinv Hstart) as (walk & E & Hwalk & Hall)%returns_alt. rewrite E. run.
  assert (Hwalk' : walk = 0 \/ is_Some (threads s !! walk)).
  { destruct (Z.eq_dec walk 0); [by left|right]. eapply needs_thread; [done..|by apply edge_needs, Hwalk]. }
  pose proof (find_cycle_spec 64 s start walk 0 Hinv Hjoin Hstart Hwalk') as (n & En & Hn)%returns_alt.
  rewrite En. cbn [returns]. run.
  destruct Hn as [[-> H]|(k & Hk & -> & Hn0 & Hp & Hmin)].
  - cbn [Z.eqb]. split; [|done]. intros [|k] Hk Hp; [lia|].
    apply (edge_steps_S s start walk) in Hp as [? Hp]; [|done..]. by apply (H k ltac:(lia)).
  - rewrite (proj2 (Z.eqb_neq _ 0)) by lia. cbn.
    assert (Hcycle : nsteps (edge s) (Z.to_nat (0 + 1 + Z.of_nat k)) start start).
    { replace (Z.to_nat (0 + 1 + Z.of_nat k)) with (S k) by lia. by apply (edge_steps_S s start walk). }
    split_and!; [lia|lia|done|by apply edges_need| |by eexists].
    + intros [|j] Hj Hjk Hpj; [lia|]. apply (edge_steps_S s start walk) in Hpj as [_ Hpj]; [|done..].
      by apply (Hmin j ltac:(lia)).
Qed.
End deadlock.

(** ** The alphabet of the department *)

Inductive initializer :=
  | InitializeEvent (ty : EVENT_TYPE) (signalled : bool)
  | InitializeTimer (ty : TIMER_TYPE)
  | InitializeSemaphore (count lim : Z)
  | InitializeMutex.

Definition initialize (i : initializer) : outcome KOBJECT :=
  match i with
  | InitializeEvent ty signalled => Ok (KeInitializeEvent blank_object ty signalled)
  | InitializeTimer ty => Ok (KeInitializeTimerEx blank_object ty)
  | InitializeSemaphore count lim => KeInitializeSemaphore blank_object count lim
  | InitializeMutex => Ok (KeInitializeMutex blank_object)
  end.

Inductive ke_op :=
  | OpWait (objs : list addr) (wt : WAIT_TYPE) (alertable : bool) (timeout : option Z) (callerBlocks : bool)
  | OpDelay (alertable : bool) (interval : Z)
  | OpYield
  | OpPreempt
  | OpIdle
  | OpSetEvent (event : addr)
  | OpResetEvent (event : addr)
  | OpPulseEvent (event : addr)
  | OpReleaseSemaphore (semaphore : addr) (count : Z)
  | OpReleaseMutex (mutex : addr)
  | OpSetTimer (timer : addr) (due_time period_ms : Z)
  | OpCancelTimer (timer : addr)
  | OpInterrupt (vector : interrupt) (now : Z) (interruptedUser : bool) (completed : list addr)
  | OpQueueApc (thread : addr) (apc : option KAPC)
  | OpAlert (thread : addr)
  | OpAbortWait (thread : addr)
  | OpTestAlert
  | OpTerminate
  | OpCreateThread (pr : Z) (process psinit : addr) (st : thread_storage)
  | OpReadyCreated (thread : addr)
  | OpDeleteThread (thread : addr)
  | OpInitialize (object : addr) (i : initializer)
  | OpFree (object : addr).

Definition silent {A} (m : outcome (A * KSTATE)) : outcome KSTATE := '(_, s) ← m; Ok s.

Definition run_op (s : KSTATE) (op : ke_op) : outcome KSTATE :=
  match op with
  | OpWait objs wt alertable timeout cb => silent (KeWaitForMultipleObjects s objs wt alertable timeout cb)
  | OpDelay alertable interval => silent (KeDelayExecutionThread s alertable interval)
  | OpYield => KiYield s
  | OpPreempt => KiPreemptAtUserReturn s
  | OpIdle => KiIdleLoop s
  | OpSetEvent a => silent (KeSetEvent s a)
  | OpResetEvent a => silent (KeResetEvent s a)
  | OpPulseEvent a => silent (KiPulseEvent s a)
  | OpReleaseSemaphore a count => silent (KeReleaseSemaphore s a count)
  | OpReleaseMutex a => silent (KeReleaseMutex s a)
  | OpSetTimer a d p => silent (KeSetTimerEx s a d p 0)
  | OpCancelTimer a => silent (KeCancelTimer s a)
  | OpInterrupt v now user completed => KiDispatchInterrupt s v now user completed
  | OpQueueApc t apc => silent (KiInsertQueueUserApc s t apc)
  | OpAlert t => KiAlertWaitingThread s t
  | OpAbortWait t => KiAbortThreadWait s t
  | OpTestAlert => silent (KiTestAlertCurrentThread s)
  | OpTerminate => KiTerminateThread s
  | OpCreateThread pr process psinit st => silent (KiCreateThreadSuspended s pr process psinit (Some st))
  | OpReadyCreated t => KiReadyCreatedThread s t
  | OpDeleteThread t => KiDeleteThread s t
  | OpInitialize a i => o ← initialize i; Ok (put_object s a o)
  | OpFree a => Ok (s <| objects := delete a (objects s) |>)
  end.

(** An object nobody waits on, owns, queues or embeds, other than thread [t]. *)
Definition disused (s : KSTATE) (t a : addr) : Prop :=
  exists o, objects s !! a = Some o /\ waitListHead o = [] /\ inserted o = false /\
    (type o = KI_OBJECT_MUTANT -> ownerThread o = 0) /\
    forall x th, threads s !! x = Some th -> x <> t -> a <> x /\ a <> timer th.

(** What the callers of each operation owe. *)
Definition op_ok (s : KSTATE) (op : ke_op) : Prop :=
  match op with
  | OpWait objs wt alertable timeout cb =>
      KiCurrentThread s <> KiIdleThread s /\ KiNoBlockDepth s = 0 /\
      0 < Z.of_nat (length objs) <= MAXIMUM_WAIT_OBJECTS /\
      (cb = true \/ Z.of_nat (length objs) <= KI_THREAD_WAIT_OBJECTS) /\
      (forall a, a ∈ objs -> is_Some (objects s !! a)) /\
      (forall a, a ∈ objs -> room s (KiCurrentThread s) a)
  | OpDelay _ _ | OpYield => KiCurrentThread s <> KiIdleThread s /\ KiNoBlockDepth s = 0
  | OpPreempt | OpTestAlert => True
  | OpIdle => KiCurrentThread s = KiIdleThread s
  | OpSetEvent a | OpResetEvent a | OpPulseEvent a =>
      exists o, objects s !! a = Some o /\ is_event (type o) = true
  | OpReleaseSemaphore a count =>
      exists o, objects s !! a = Some o /\ type o = KI_OBJECT_SEMAPHORE /\
        1 <= count /\ signalState o + count <= limit o
  | OpReleaseMutex a =>
      exists o, objects s !! a = Some o /\ type o = KI_OBJECT_MUTANT /\
        ownerThread o = KiCurrentThread s /\ ownerThread o <> 0
  | OpSetTimer a _ p =>
      (exists o, objects s !! a = Some o /\ is_timer (type o)) /\ free_timer s a /\ 0 <= p < 2 ^ 31
  | OpCancelTimer a => (exists o, objects s !! a = Some o /\ is_timer (type o)) /\ free_timer s a
  | OpInterrupt v now user completed =>
      v <> OTHER_VECTOR /\ 0 <= KiTickTsc s <= now /\ is_u64 now /\ is_u64 (KiTscPerMillisecond s) /\
      (0 <= KiInterruptTime s /\
       KiInterruptTime s + (KI_MAX_CATCHUP_TICKS + 2 ^ 31) * KI_100NS_PER_TICK < 2 ^ 64) /\
      all_events s completed /\ 0 <= KiNoBlockDepth s < 2 ^ 32 - 2
  | OpQueueApc t _ => is_Some (threads s !! t)
  | OpAlert t => exists th, threads s !! t = Some th /\ state th = KI_THREAD_STATE_WAITING
  | OpAbortWait t => exists th, threads s !! t = Some th /\ threadObject th <> 0
  | OpTerminate => KiCurrentThread s <> KiIdleThread s
  | OpCreateThread pr process psinit st =>
      fresh_storage s st /\ is_level pr /\ (process <> 0 \/ psinit <> 0)
  | OpReadyCreated t =>
      t <> KiIdleThread s /\ exists th, threads s !! t = Some th /\ state th = KI_THREAD_STATE_INITIALIZED
  | OpDeleteThread t =>
      exists th, threads s !! t = Some th /\
        (state th = KI_THREAD_STATE_TERMINATED \/ state th = KI_THREAD_STATE_INITIALIZED) /\
        mutantListHead th = [] /\
        disused s t t /\ disused s t (timer th) /\ disused s t (suspendGate th) /\ disused s t (syncIoCancelEvent th)
  | OpInitialize a i =>
      objects s !! a = None /\
      match i with InitializeSemaphore count lim => 0 <= count <= lim /\ 1 <= lim < 2 ^ 31 | _ => True end
  | OpFree a => disused s 0 a
  end.

Inductive reachable (s0 : KSTATE) : KSTATE -> Prop :=
  | reachable_boot : reachable s0 s0
  | reachable_step s op s' : reachable s0 s -> op_ok s op -> run_op s op = Ok s' -> reachable s0 s'.

Section system.
Implicit Types (s : KSTATE) (t a x m : Z) (th : KTHREAD) (o : KOBJECT) (b : KWAIT_BLOCK).

Lemma silent_returns {A} (m : outcome (A * KSTATE)) (P : A * KSTATE -> Prop) (Q : KSTATE -> Prop) :
  returns m P -> (forall (a : A) s, P (a, s) -> Q s) -> returns (silent m) Q.
Proof. intros H HQ. unfold silent. apply returns_bind. eapply returns_mono; [exact H|]. intros [a s]. cbn. apply HQ. Qed.

Lemma sched_op s (m : outcome KSTATE) :
  ke_inv s -> returns m (fun s' => sched_inv s' /\ cur_inv s' /\ scheduled s s') -> returns m ke_inv.
Proof.
  intros [Hc Hq _ Hclk] H. eapply returns_mono; [exact H|]. intros s' (Hs & Hcur & Hsc). by eapply scheduled_inv.
Qed.

Lemma interrupt_spec s v now user completed :
  ke_inv s -> op_ok s (OpInterrupt v now user completed) ->
  returns (KiDispatchInterrupt s v now user completed) (fun s' => ke_inv s' /\ KiNoBlockDepth s' = KiNoBlockDepth s).
Proof.
  intros Hinv (Hv & Htsc & Hnow & Hrate & Hroom & Hev & Hd).
  set (s1 := KiEnterNoBlockRegion s).
  assert (E1 : KiNoBlockDepth s1 = KiNoBlockDepth s + 1).
  { unfold s1, KiEnterNoBlockRegion. cbn. apply u32_small. unfold is_u32. lia. }
  assert (Hinv1 : ke_inv s1) by (by apply ke_inv_depth).
  assert (Hd1 : depth_ok s1) by (unfold depth_ok; rewrite E1; lia).
  assert (Hleave : forall s2, ke_inv s2 -> KiNoBlockDepth s2 = KiNoBlockDepth s1 ->
    returns (KiLeaveNoBlockRegion s2) (fun s' => ke_inv s' /\ KiNoBlockDepth s' = KiNoBlockDepth s)).
  { intros s2 Hinv2 E2. unfold KiLeaveNoBlockRegion. rewrite E2, E1, (proj2 (Z.eqb_neq _ 0)) by lia. run.
    cbn [returns]. split; [by apply ke_inv_depth|]. cbn. lia. }
  unfold KiDispatchInterrupt. fold s1. destruct v; [| |done].
  - apply returns_bind. eapply returns_mono.
    + apply KiUpdateClock_spec. split; try done.
    + intros s2 (Hinv2 & _ & s3 & _ & _ & _ & E3 & Ht & _). apply Hleave; [done|].
      rewrite (tk_rest _ _ _ Ht). cbn. by rewrite E3.
  - apply returns_bind. eapply returns_mono; [by apply drain_spec|].
    intros s2 [Hinv2 Ht]. apply Hleave; [done|]. by rewrite (te_rest _ _ Ht).
Qed.

Lemma initialize_new i : op_ok (zero_state 0 0 None) (OpInitialize 1 i) -> exists o, initialize i = Ok o /\ new_ok o.
Proof.
  intros [_ Hi]. destruct i as [ty v|ty|count lim|]; cbn in Hi |- *.
  - eexists. split; [done|]. destruct ty, v; by repeat split.
  - eexists. split; [done|]. destruct ty; by repeat split.
  - unfold KeInitializeSemaphore. rewrite (proj2 (Z.ltb_ge count 0)) by lia. rewrite (proj2 (Z.ltb_ge lim 1)) by lia.
    rewrite (proj2 (Z.ltb_ge lim count)) by lia. cbn [orb]. eexists. split; [done|]. repeat split; cbn; try done; lia.
  - eexists. split; [done|]. by repeat split.
Qed.

Lemma free_inv s a : ke_inv s -> disused s 0 a -> ke_inv (s <| objects := delete a (objects s) |>).
Proof.
  intros Hinv (o & Ho & D1 & D2 & D3 & D4). apply (shrunk_inv s); [done|].
  pose proof (kb_object _ _ (proj1 (ki_core _ Hinv))) as Hob. split.
  - done.
  - intros t th H1 H2. cbn in H2. congruence.
  - intros x ox. cbn. rewrite lookup_delete_Some. naive_solver.
  - intros x ox Hx. cbn. rewrite lookup_delete_None. intros [<-|]; [|congruence].
    assert (ox = o) as -> by congruence. split_and!; try done. intros t th Hth.
    apply (D4 t th Hth). by apply (oi_thread _ Hob _ _ Hth).
  - intros t th H1 H2. cbn in H2. congruence.
  - by destruct s.
Qed.

Lemma delete_thread_inv s t th : 
  ke_inv s -> threads s !! t = Some th -> op_ok s (OpDeleteThread t) -> returns (KiDeleteThread s t) ke_inv.
Proof.
  intros Hinv Hth (th' & Hth' & Hst & Hm & Hd1 & Hd2 & Hd3 & Hd4). assert (th' = th) as -> by congruence.
  unfold KiDeleteThread, get_thread. destruct (Z.eqb_spec t (KiCurrentThread s)) as [E|_].
  { destruct (ki_cur _ Hinv) as [(thc & Hc & Hrun) _]. subst t. assert (thc = th) as -> by congruence.
    destruct Hst; congruence. }
  cbn [negb]. run. rewrite Hth. run.
  assert (bool_decide (state th <> KI_THREAD_STATE_TERMINATED) &&
          bool_decide (state th <> KI_THREAD_STATE_INITIALIZED) = false) as ->.
  { destruct Hst as [-> | ->]; [by rewrite bool_decide_eq_false_2 by auto|].
    rewrite (bool_decide_eq_false_2 (KI_THREAD_STATE_INITIALIZED <> KI_THREAD_STATE_INITIALIZED)) by auto.
    apply andb_false_r. }
  cbn [returns]. apply (shrunk_inv s); [done|].
  assert (Hgone : forall x o, objects s !! x = Some o ->
    delete (timer th) (delete (syncIoCancelEvent th) (delete (suspendGate th) (delete t (objects s)))) !! x = None ->
    disused s t x).
  { intros x o Hx. rewrite !lookup_delete_None. intros [<-|[<-|[<-|[<-|]]]]; [done..|congruence]. }
  split.
  - intros x thx. cbn. rewrite lookup_delete_Some. naive_solver.
  - intros x thx Hx. cbn. rewrite lookup_delete_None. intros [<-|]; [|congruence].
    assert (thx = th) as -> by congruence. done.
  - intros x ox. cbn. rewrite !lookup_delete_Some. naive_solver.
  - intros x ox Hx Hn. destruct (Hgone x ox Hx Hn) as (o & Ho & D1 & D2 & D3 & D4).
    assert (ox = o) as -> by congruence. split_and!; try done. intros y thy. cbn.
    rewrite lookup_delete_Some. intros [Hne Hy]. by apply (D4 y thy).
  - intros x thx Hx. cbn. rewrite lookup_delete_None. intros [<-|]; [|congruence].
    by assert (thx = th) as -> by congruence.
  - by destruct s.
Qed.

Lemma boot_inv rate base tsc page ps st :
  NoDup (storage_addrs st) -> stThread st <> 0 -> ps <> 0 ->
  exists s0, boot rate base tsc page ps st = Ok s0 /\ ke_inv s0.
Proof.
  intros Hnd Ht Hps. unfold boot, KiInitializeScheduler. rewrite (proj2 (Z.eqb_neq ps 0)) by done. run.
  eexists. split; [done|].
  match goal with |- ke_inv ?s => set (s0 := s) end.
  set (th := created_thread st 0 ps <| state := KI_THREAD_STATE_RUNNING |>).
  assert (Hthr : threads s0 = {[stThread st := th]}) by done.
  assert (Hobj : objects s0 = created_objects st ∅) by done.
  assert (Hlk : forall x thx, threads s0 !! x = Some thx -> x = stThread st /\ thx = th).
  { intros x thx. rewrite Hthr, lookup_singleton_Some. naive_solver. }
  assert (Ho : forall a o, objects s0 !! a = Some o -> waitListHead o = [] /\ inserted o = false /\ object_ok o /\
    type o <> KI_OBJECT_MUTANT /\ period o = 0).
  { intros a o. rewrite Hobj. intros [[_ H]|(_ & H)]%created_lookup; [by rewrite lookup_empty in H|done]. }
  assert (Hq : forall level, is_level level -> ready_queue s0 level = []).
  { intros level Hl. unfold ready_queue, s0. cbn -[replicate]. unfold is_level, KI_PRIORITY_LEVELS in *.
    rewrite lookup_replicate_2 by lia. done. }
  destruct (created_new st ∅ Hnd) as [Htm Hhd].
  split; [split; [split|]| | |done].
  - split.
    + done.
    + intros level Hl. rewrite Hq by done. constructor.
    + intros level t Hl. rewrite Hq by done. split; [by intros ?%elem_of_nil|].
      intros (_ & thx & Hx & Hst & _). by destruct (Hlk _ _ Hx) as [_ ->].
    + intros level Hl. rewrite Hq by done. cbn. by rewrite Z.testbit_0_l.
    + done.
    + intros t thx Hx. by destruct (Hlk _ _ Hx) as [_ ->].
    + exists th. split; [by rewrite Hthr, lookup_singleton_eq|by right].
  - split.
    + split.
      * intros a o Hx. destruct (Ho a o Hx) as [-> _]. constructor.
      * intros a o b Hx. destruct (Ho a o Hx) as [-> _]. by intros ?%elem_of_nil.
      * intros b. split.
        -- intros (o & Hx & Hb). destruct (Ho _ o Hx) as [E _]. rewrite E in Hb. by apply elem_of_nil in Hb.
        -- intros (thx & Hx & Hb). destruct (Hlk _ _ Hx) as [_ ->]. by apply elem_of_nil in Hb.
    + intros t thx Hx. destruct (Hlk _ _ Hx) as [-> ->]. split.
      * by intros b ?%elem_of_nil.
      * constructor.
      * done.
      * by intros b b' ?%elem_of_nil.
      * by intros b ?%elem_of_nil.
  - split; cbn [KiTimerListHead].
    + constructor.
    + intros a. split; [by intros ?%elem_of_nil|]. intros (o & Hx & Hi). destruct (Ho a o Hx) as (_ & E & _). congruence.
    + constructor.
    + intros a o Hx Hi. destruct (Ho a o Hx) as (_ & E & _). congruence.
    + intros a o Hx. destruct (Ho a o Hx) as (_ & _ & _ & _ & ->). lia.
    + intros t thx Hx. destruct (Hlk _ _ Hx) as [-> ->]. eexists. rewrite Hobj. split; [exact Htm|]. by repeat split.
    + intros t t' th1 th2 H1 H2 _. destruct (Hlk _ _ H1), (Hlk _ _ H2). congruence.
  - split.
    + intros a o Hx Hty. by destruct (Ho a o Hx) as (_ & _ & _ & ? & _).
    + intros t thx m Hx Hm. destruct (Hlk _ _ Hx) as [-> ->]. by apply elem_of_nil in Hm.
    + intros t thx Hx. destruct (Hlk _ _ Hx) as [-> ->]. constructor.
    + intros t thx Hx. by destruct (Hlk _ _ Hx) as [-> ->].
  - split.
    + intros a o Hx. apply (Ho a o Hx).
    + intros t thx Hx. destruct (Hlk _ _ Hx) as [-> ->]. split_and!; [done..|]. eexists. rewrite Hobj.
      split; [exact Hhd|]. by repeat split.
  - intros t thx b Hx Hb. destruct (Hlk _ _ Hx) as [-> ->]. by apply elem_of_nil in Hb.
  - intros t thx b Hx Hb. destruct (Hlk _ _ Hx) as [-> ->]. by apply elem_of_nil in Hb.
  - split; [exists th; split; [by rewrite Hthr, lookup_singleton_eq|done]|].
    intros t thx Hx _. by destruct (Hlk _ _ Hx) as [-> _].
Qed.

(** No operation, called as its callers must, stops the machine or breaks the
    invariant. *)
Lemma run_op_inv s op : ke_inv s -> op_ok s op -> returns (run_op s op) ke_inv.
Proof.
  intros Hinv Hop. pose proof (kb_sched _ _ (proj1 (ki_core _ Hinv))) as Hs. pose proof (ki_cur _ Hinv) as Hc.
  destruct (current_thread s Hinv) as (thc & Hthc & Hrun).
  destruct op; cbn [run_op op_ok] in *.
  - destruct Hop as (? & ? & ? & ? & ? & ?).
    eapply silent_returns; [by apply (wait_contract s thc); [split|]|]. by intros r s' [? _].
  - destruct Hop. eapply silent_returns; [by apply (delay_contract s thc)|]. by intros r s' [? _].
  - destruct Hop. by apply (sched_op s), KiYield_spec.
  - by apply (sched_op s), KiPreemptAtUserReturn_spec.
  - by apply (sched_op s), KiIdleLoop_spec.
  - destruct Hop as (o & Ho & Hty). eapply silent_returns; [by apply (set_event_contract s _ o)|]. by intros r s' (_ & ? & _).
  - destruct Hop as (o & Ho & Hty). destruct (reset_pulse_contract s _ o Hinv Ho Hty) as (E & ? & _).
    unfold silent. by rewrite E.
  - destruct Hop as (o & Ho & Hty). destruct (reset_pulse_contract s _ o Hinv Ho Hty) as (_ & _ & H).
    eapply silent_returns; [exact H|]. by intros r s' (_ & ? & _).
  - destruct Hop as (o & Ho & Hty & H1 & H2).
    pose proof (oi_object _ (kb_object _ _ (proj1 (ki_core _ Hinv))) _ _ Ho) as [Hsem _]. specialize (Hsem Hty).
    pose proof (release_semaphore_contract s _ o count Hinv Ho Hty ltac:(lia)) as H.
    rewrite (proj2 (Z.leb_le 1 count)), (proj2 (Z.leb_le _ (limit o))) in H by lia. cbn [andb] in H.
    eapply silent_returns; [exact H|]. by intros r s' (_ & ? & _).
  - destruct Hop as (o & Ho & Hty & How & Hn). eapply silent_returns.
    + by apply (KiReleaseMutant_inv s _ o false).
    + by intros r s' (_ & ? & _).
  - destruct Hop as ((o & Ho & Hty) & Hf & Hp).
    destruct (set_timer_contract s _ o due_time period_ms 0 Hinv Ho Hty Hf ltac:(lia)) as (H & _).
    rewrite (proj2 (Z.leb_le 0 period_ms)) in H by lia. cbn [andb Z.eqb] in H.
    eapply silent_returns; [exact H|]. by intros r s' (_ & ? & _).
  - destruct Hop as ((o & Ho & Hty) & Hf).
    destruct (set_timer_contract s _ o 0 0 0 Hinv Ho Hty Hf ltac:(lia)) as (_ & E & ?). unfold silent. by rewrite E.
  - eapply returns_mono; [by apply interrupt_spec|]. by intros s' [? _].
  - destruct Hop as (th & Hth). eapply silent_returns; [by apply queue_apc_contract|]. by intros r s' (? & _).
  - destruct Hop as (th & Hth & Hst). destruct (interruption_contract s _ th 0 Hinv Hth) as (H & _).
    eapply returns_mono; [apply (H Hst)|]. by intros s' [? _].
  - destruct Hop as (th & Hth & Hst). destruct (interruption_contract s _ th 0 Hinv Hth) as (_ & H & _).
    eapply returns_mono; [apply (H Hst)|]. by intros s' [? _].
  - destruct (interruption_contract s _ thc 0 Hinv Hthc) as (_ & _ & H).
    eapply silent_returns; [by apply H|]. by intros r s' [? _].
  - eapply returns_mono; [by apply (terminate_contract s (KiCurrentThread s) thc)|]. by intros s' [? _].
  - destruct Hop as (Hf & [Hp1 Hp2] & Hpr).
    pose proof (creation_contract s st pr process psinit Hinv Hf) as H. cbv zeta in H.
    rewrite (proj2 (Z.leb_le 0 pr)), (proj2 (Z.ltb_lt pr _)) in H by done. cbn [andb] in H.
    destruct H as (s' & E & ? & _); [|unfold silent; by rewrite E].
    destruct (Z.eqb_spec process 0); cbn [negb]; [|done]. by destruct Hpr.
  - destruct Hop as (Hid & th & Hth & Hst). unfold KiReadyCreatedThread.
    rewrite (KiReadyThread_eq s _ th) by (try done; by rewrite ?Hst). by apply readied_ke_inv.
  - destruct Hop as (th & Hth & Hop). apply (delete_thread_inv s _ th Hinv Hth). by exists th.
  - destruct Hop as [Hnone Hi]. destruct (initialize_new i) as (o & E & Hnew); [by split|].
    rewrite E. run. by apply new_object_inv.
  - by apply free_inv.
Qed.

(** What the consistency sweep checks, thread by thread and list by list. *)
Definition sweep_silent s : Prop :=
  KiVerifyScheduler s = Ok tt /\ KiVerifyTimerList s = Ok tt /\
  (forall a, is_Some (objects s !! a) -> KiVerifyWaitList s a = Ok tt) /\
  (forall t th, threads s !! t = Some th -> t <> KiIdleThread s -> 0 <= suspendCount th ->
     KiVerifyThreadWaitState s t = Ok tt).

Lemma sweep_silent_inv s : ke_inv s -> sweep_silent s.
Proof.
  intros Hinv. pose proof (ki_core _ Hinv) as [[Hs _ _ _ Hob] _]. split_and!.
  - destruct (current_thread s Hinv) as (th & Hth & _).
    apply KiVerifyScheduler_Ok; [done|apply Hinv|by apply (oi_thread _ Hob _ _ Hth)|].
    intros t thx Hx. destruct (oi_thread _ Hob _ _ Hx) as (_ & ? & o & ? & ? & _). eauto.
  - by apply KiVerifyTimerList_Ok.
  - intros a [o Ho]. by apply (KiVerifyWaitList_Ok s a o).
  - intros t th Hth Hid Hsus. by apply (KiVerifyThreadWaitState_Ok s t th).
Qed.

(** C1. From boot on, whatever operations of the dispatcher are performed in
    whatever order, each called as its callers must: the dispatcher invariant
    holds, the consistency sweep finds nothing, and no operation panics, faults
    or runs out of fuel. *)
Theorem dispatcher_never_fails rate base tsc page ps st :
  NoDup (storage_addrs st) -> stThread st <> 0 -> ps <> 0 ->
  exists s0, boot rate base tsc page ps st = Ok s0 /\
  forall s, reachable s0 s ->
    ke_inv s /\ sweep_silent s /\ forall op, op_ok s op -> exists s', run_op s op = Ok s' /\ reachable s0 s'.
Proof.
  intros Hnd Ht Hps. destruct (boot_inv rate base tsc page ps st Hnd Ht Hps) as (s0 & Eb & Hb).
  exists s0. split; [done|]. intros s Hr. assert (Hinv : ke_inv s).
  { induction Hr as [|s op s' Hr IH Hop E]; [done|]. pose proof (run_op_inv s op IH Hop) as H. by rewrite E in H. }
  split; [done|]. split; [by apply sweep_silent_inv|]. intros op Hop.
  pose proof (run_op_inv s op Hinv Hop) as (s' & E & _)%returns_alt.
  exists s'. split; [done|]. by apply (reachable_step s0 s op).
Qed.
End system.

(** Boot, create two threads, let the idle loop run the first, park it on a
    fresh event, and set the event from the second. *)
Definition ex_storage (n : Z) : thread_storage := mkthread_storage (10 * n) (10 * n + 1) (10 * n + 2) (10 * n + 3).

Definition ex_ops : list ke_op :=
  [OpCreateThread 8 0 7 (ex_storage 2); OpReadyCreated 20; OpCreateThread 8 0 7 (ex_storage 3); OpReadyCreated 30;
   OpInitialize 50 (InitializeEvent SynchronizationEvent false); OpIdle; OpWait [50] WaitAny false None false;
   OpSetEvent 50; OpYield].

Lemma dispatcher_never_fails_witness :
  (s0 ← boot 1000 0 0 None 7 (ex_storage 1); s ← foldM run_op s0 ex_ops;
   Ok (KiCurrentThread s, waitStatus <$> threads s !! 20)) = Ok (20, Some STATUS_WAIT_0) /\
  exists s0, boot 1000 0 0 None 7 (ex_storage 1) = Ok s0 /\ forall s, reachable s0 s -> ke_inv s.
Proof.
  split; [by vm_compute|].
  edestruct (dispatcher_never_fails 1000 0 0 None 7 (ex_storage 1)) as (s0 & E & H).
  - vm_compute_decide.
  - done.
  - done.
  - exists s0. split; [exact E|]. intros s Hr. apply (H s Hr).
Defined.

(** Two threads that each hold the mutant the other waits for. *)
Definition ex_abba : KSTATE :=
  mkKSTATE 1 1
    {[ 1 := ex_thread KI_THREAD_STATE_RUNNING 0 11 [] false [];
       2 := ex_thread KI_THREAD_STATE_WAITING 8 12 [mkKWAIT_BLOCK 2 51 0 WaitAny] false [50];
       3 := ex_thread KI_THREAD_STATE_WAITING 8 13 [mkKWAIT_BLOCK 3 50 0 WaitAny] false [51] ]}
    {[ 1 := ex_object KI_OBJECT_THREAD 0 []; 2 := ex_object KI_OBJECT_THREAD 0 [];
       3 := ex_object KI_OBJECT_THREAD 0 [];
       11 := ex_object KI_OBJECT_NOTIFICATION_TIMER 0 []; 12 := ex_object KI_OBJECT_NOTIFICATION_TIMER 0 [];
       13 := ex_object KI_OBJECT_NOTIFICATION_TIMER 0 [];
       50 := ex_object KI_OBJECT_MUTANT 0 [mkKWAIT_BLOCK 3 50 0 WaitAny] <| ownerThread := 2 |>;
       51 := ex_object KI_OBJECT_MUTANT 0 [mkKWAIT_BLOCK 2 51 0 WaitAny] <| ownerThread := 3 |> ]}
    (replicate 32 []) 0 0 None (mkKI_SCHEDULE_TRACE 0 0 0 [] [] false) [] 0 0 0 1000 0 0 0 0 0 [] None.

Lemma KiFindWaitCycle_exact_witness :
  KiFindWaitCycle (fun _ => 0) ex_abba 2 = Ok 2 /\
  returns (KiFindWaitCycle (fun _ => 0) ex_abba 2) (fun n => n = 2 -> nsteps (needs (fun _ => 0) ex_abba) 2 2 2).
Proof.
  split; [by vm_compute|]. eapply returns_mono.
  - apply (KiFindWaitCycle_exact (fun _ => 0) ex_abba 2).
    + apply ke_ok_inv. vm_compute_decide.
    + by intros a o _ _ [].
    + by eexists.
  - intros n H ->. apply H.
Defined.
