(* ===== verification/Bytes.v ===== *)
(** * Bytes: memory as the C library of the kernel sees it.

    The mem* intrinsics (kernel/lib/string.c) on a heap of bytes, the
    NUL-terminated string loops (kernel/lib/string.h) on the bytes a pointer
    leads to, and the little-endian accessors (kernel/lib/le.h).  A byte that is
    not mapped faults.  The KASAN range checks, which report accesses to pool bytes
    no allocation owns, are the subject of file Kasan and left out here. *)

From S2P Require Import Prelude.

(** ** The intrinsics *)

Abbreviation mem := (gmap Z Z) (only parsing).

Definition load (m : mem) (a : addr) : outcome Z := deref (m !! a) "load".
Definition store (m : mem) (a : addr) (v : Z) : outcome mem := _ ← deref (m !! a) "store"; Ok (<[a := v]> m).

(** The three loops, [length] iterations each. *)
Fixpoint fill_up (m : mem) (out : addr) (value : Z) (length : nat) : outcome mem :=
  match length with
  | O => Ok m
  | S length' => m' ← store m out value; fill_up m' (out + 1) value length'
  end.

Fixpoint copy_up (m : mem) (out src : addr) (length : nat) : outcome mem :=
  match length with
  | O => Ok m
  | S length' => v ← load m src; m' ← store m out v; copy_up m' (out + 1) (src + 1) length'
  end.

Fixpoint copy_down (m : mem) (out src : addr) (length : nat) : outcome mem :=
  match length with
  | O => Ok m
  | S length' =>
      v ← load m (src + Z.of_nat length'); m' ← store m (out + Z.of_nat length') v; copy_down m' out src length'
  end.

Fixpoint compare_up (m : mem) (a b : addr) (length : nat) : outcome Z :=
  match length with
  | O => Ok 0
  | S length' =>
      x ← load m a; y ← load m b;
      if negb (x =? y) then Ok (if x <? y then -1 else 1) else compare_up m (a + 1) (b + 1) length'
  end.

Definition memset (m : mem) (destination : addr) (value length : Z) : outcome mem :=
  fill_up m destination (u8 value) (Z.to_nat length).
Definition memcpy (m : mem) (destination source : addr) (length : Z) : outcome mem :=
  copy_up m destination source (Z.to_nat length).
Definition memmove (m : mem) (destination source : addr) (length : Z) : outcome mem :=
  if destination <? source
  then copy_up m destination source (Z.to_nat length)
  else copy_down m destination source (Z.to_nat length).
Definition memcmp (m : mem) (left right : addr) (length : Z) : outcome Z :=
  compare_up m left right (Z.to_nat length).

(** ** Little-endian fields, as byte sequences *)

Fixpoint le_bytes (n : nat) (v : Z) : list Z :=
  match n with
  | O => []
  | S n' => u8 v :: le_bytes n' (Z.shiftr v 8)
  end.

Fixpoint le_value (l : list Z) : Z :=
  match l with
  | [] => 0
  | b :: l' => Z.lor b (Z.shiftl (le_value l') 8)
  end.

Fixpoint load_bytes (m : mem) (a : addr) (n : nat) : outcome (list Z) :=
  match n with
  | O => Ok []
  | S n' => b ← load m a; l ← load_bytes m (a + 1) n'; Ok (b :: l)
  end.

Fixpoint store_bytes (m : mem) (a : addr) (l : list Z) : outcome mem :=
  match l with
  | [] => Ok m
  | b :: l' => m' ← store m a b; store_bytes m' (a + 1) l'
  end.

Definition KiReadLe16 (m : mem) (p : addr) : outcome Z := l ← load_bytes m p 2; Ok (le_value l).
Definition KiReadLe32 (m : mem) (p : addr) : outcome Z := l ← load_bytes m p 4; Ok (le_value l).
Definition KiReadLe64 (m : mem) (p : addr) : outcome Z := l ← load_bytes m p 8; Ok (le_value l).
Definition KiWriteLe16 (m : mem) (p : addr) (v : Z) : outcome mem := store_bytes m p (le_bytes 2 v).
Definition KiWriteLe32 (m : mem) (p : addr) (v : Z) : outcome mem := store_bytes m p (le_bytes 4 v).
Definition KiWriteLe64 (m : mem) (p : addr) (v : Z) : outcome mem := store_bytes m p (le_bytes 8 v).

(** ** NUL-terminated strings

    A string argument is the sequence of units from its pointer to the end of
    the memory that may be read there; running off it faults. *)

Definition at_unit (s : list Z) : outcome (Z * list Z) :=
  match s with
  | [] => Fault "string"
  | c :: s' => Ok (c, s')
  end.

Fixpoint KiStringLength (s : list Z) : outcome Z :=
  match s with
  | [] => Fault "string"
  | c :: s' => if c =? 0 then Ok 0 else n ← KiStringLength s'; Ok (n + 1)
  end.

(** The same loop over 16-bit units. *)
Definition KiWideStringLength (s : list Z) : outcome Z := KiStringLength s.

Fixpoint KiStringEquals (a b : list Z) : outcome bool :=
  match a with
  | [] => Fault "string"
  | x :: a' =>
      '(y, b') ← at_unit b;
      if negb (x =? 0) && (x =? y) then KiStringEquals a' b' else Ok (x =? y)
  end.

(** [i] counts up to [bBytes]; [fuel] iterations are left. *)
Fixpoint equals_within (a b : list Z) (fuel : nat) : outcome bool :=
  match fuel with
  | O => Ok false
  | S fuel' =>
      '(x, a') ← at_unit a;
      '(y, b') ← at_unit b;
      if negb (x =? y) then Ok false
      else if x =? 0 then Ok true
      else equals_within a' b' fuel'
  end.

Definition KiStringEqualsWithin (a b : list Z) (bBytes : Z) : outcome bool := equals_within a b (Z.to_nat bBytes).

Fixpoint KiStringStartsWith (s prefix : list Z) : outcome bool :=
  match prefix with
  | [] => Fault "string"
  | p :: prefix' =>
      if p =? 0 then Ok true else
      '(c, s') ← at_unit s;
      if c =? p then KiStringStartsWith s' prefix' else Ok false
  end.

(** ** Numbers in bytes *)

Section numbers.
Implicit Types (v x : Z) (n : nat).

Lemma le_value_bytes n v : 0 <= v < 2 ^ (8 * Z.of_nat n) -> le_value (le_bytes n v) = v.
Proof.
  revert v. induction n as [|n IH]; intros v Hv; cbn [le_bytes le_value]; [cbn in Hv; lia|].
  rewrite Z.shiftr_div_pow2 by lia. rewrite IH.
  - unfold u8. rewrite <- Z.land_ones by lia.
    rewrite <- Z.shiftr_div_pow2 by lia. apply Z.bits_inj'. intros k Hk. rewrite Z.lor_spec, Z.land_spec, Z.testbit_ones_nonneg by lia.
    rewrite Z.shiftl_spec by lia. destruct (Z.ltb_spec k 8).
    + rewrite (Z.testbit_neg_r _ (k - 8)) by lia. by rewrite andb_true_r, orb_false_r.
    + rewrite andb_false_r, Z.shiftr_spec by lia. cbn [orb]. f_equal. lia.
  - split; [apply Z.div_pos; lia|]. apply Z.div_lt_upper_bound; [lia|].
    replace (2 ^ 8 * 2 ^ (8 * Z.of_nat n)) with (2 ^ (8 * Z.of_nat (S n))); [lia|]. rewrite <- Z.pow_add_r by lia. f_equal. lia.
Qed.

Lemma length_le_bytes n v : length (le_bytes n v) = n.
Proof. revert v. induction n as [|n IH]; intros v; [done|]. cbn. by rewrite IH. Qed.

Lemma le_bytes_u8 n v : Forall is_u8 (le_bytes n v).
Proof. revert v. induction n as [|n IH]; intros v; cbn; [done|]. constructor; [apply u8_range|apply IH]. Qed.

Lemma le_value_bounds (b : list Z) : Forall is_u8 b -> 0 <= le_value b < 2 ^ (8 * Z.of_nat (length b)).
Proof.
  induction 1 as [|x b Hx Hb IH]; cbn [le_value length]; [done|]. unfold is_u8 in Hx.
  rewrite Nat2Z.inj_succ. replace (8 * Z.succ (Z.of_nat (length b))) with (8 + 8 * Z.of_nat (length b)) by lia.
  rewrite Z.pow_add_r by lia. rewrite Z.shiftl_mul_pow2 by lia.
  assert (E : Z.lor x (le_value b * 2 ^ 8) = x + le_value b * 2 ^ 8).
  { assert (Hland : Z.land x (le_value b * 2 ^ 8) = 0).
    { rewrite <- Z.shiftl_mul_pow2 by lia. apply Z.bits_inj'. intros i Hi. rewrite Z.land_spec, Z.bits_0.
      destruct (decide (i < 8)); [rewrite Z.shiftl_spec_low by lia; apply andb_false_r|].
      by rewrite (proj1 (bits_bound x 8 ltac:(lia) ltac:(lia)) ltac:(lia) i ltac:(lia)). }
    pose proof (Z.add_lor_land x (le_value b * 2 ^ 8)). lia. }
  rewrite E. lia.
Qed.
End numbers.

(** ** What the loops do *)

Section intrinsics.
Implicit Types (m : mem) (a d s : addr) (n : nat).

Definition mapped m a (length : Z) : Prop := forall i, 0 <= i < length -> is_Some (m !! (a + i)).

(** [m'] is [m] with [length] bytes from [d] replaced by [f 0], [f 1], ... *)
Record written m d (length : Z) (f : Z -> option Z) m' : Prop := {
  wr_in : forall i, 0 <= i < length -> m' !! (d + i) = f i;
  wr_out : forall x, ~ (d <= x < d + length) -> m' !! x = m !! x;
}.

Lemma written_unique m d length f m1 m2 : written m d length f m1 -> written m d length f m2 -> m1 = m2.
Proof.
  intros [I1 O1] [I2 O2]. apply map_eq. intros x.
  destruct (decide (d <= x < d + length)) as [Hx|Hx]; [|by rewrite O1, O2].
  replace x with (d + (x - d)) by lia. rewrite I1, I2 by lia. done.
Qed.

Lemma written_nil m d f : written m d 0 f m.
Proof. split; [lia|done]. Qed.

Lemma mapped_head m a n : mapped m a (Z.of_nat (S n)) -> exists v, m !! a = Some v.
Proof. intros H. destruct (H 0 ltac:(lia)) as [v Hv]. rewrite Z.add_0_r in Hv. by exists v. Qed.

Lemma mapped_tail m a x v n : mapped m a (Z.of_nat (S n)) -> mapped (<[x := v]> m) (a + 1) (Z.of_nat n).
Proof.
  intros H i Hi. destruct (decide (x = a + 1 + i)) as [->|]; [by rewrite lookup_insert_eq|].
  rewrite lookup_insert_ne by done. replace (a + 1 + i) with (a + (i + 1)) by lia. apply H. lia.
Qed.

Lemma mapped_init m a x v n : mapped m a (Z.of_nat (S n)) -> mapped (<[x := v]> m) a (Z.of_nat n).
Proof.
  intros H i Hi. destruct (decide (x = a + i)) as [->|]; [by rewrite lookup_insert_eq|].
  rewrite lookup_insert_ne by done. apply H. lia.
Qed.

Lemma fill_up_spec m d value n : mapped m d (Z.of_nat n) ->
  returns (fill_up m d value n) (written m d (Z.of_nat n) (fun _ => Some value)).
Proof.
  revert m d. induction n as [|n IH]; intros m d Hd; [apply written_nil|]. cbn [fill_up].
  destruct (mapped_head m d n Hd) as [v Hv]. unfold store. rewrite Hv. run.
  eapply returns_mono; [apply IH; by apply mapped_tail|]. intros m' [Hin Hout]. split.
  - intros i Hi. destruct (Z.eq_dec i 0) as [->|].
    + rewrite Z.add_0_r, Hout by lia. by rewrite lookup_insert_eq.
    + replace (d + i) with (d + 1 + (i - 1)) by lia. apply Hin. lia.
  - intros x Hx. rewrite Hout by lia. rewrite lookup_insert_ne by lia. done.
Qed.

Lemma copy_up_spec m d s n : mapped m d (Z.of_nat n) -> mapped m s (Z.of_nat n) ->
  d <= s \/ s + Z.of_nat n <= d ->
  returns (copy_up m d s n) (written m d (Z.of_nat n) (fun i => m !! (s + i))).
Proof.
  revert m d s. induction n as [|n IH]; intros m d s Hd Hs Hov; [apply written_nil|]. cbn [copy_up].
  destruct (mapped_head m d n Hd) as [w Hw], (mapped_head m s n Hs) as [v Hv].
  unfold load, store. rewrite Hv. run. rewrite Hw. run.
  eapply returns_mono; [apply IH; [by apply mapped_tail..|lia]|]. intros m' [Hin Hout]. split.
  - intros i Hi. destruct (Z.eq_dec i 0) as [->|].
    + rewrite !Z.add_0_r, Hout by lia. by rewrite lookup_insert_eq.
    + replace (d + i) with (d + 1 + (i - 1)) by lia. rewrite Hin by lia.
      rewrite lookup_insert_ne by lia. f_equal. lia.
  - intros x Hx. rewrite Hout by lia. rewrite lookup_insert_ne by lia. done.
Qed.

Lemma copy_down_spec m d s n : mapped m d (Z.of_nat n) -> mapped m s (Z.of_nat n) ->
  s <= d \/ d + Z.of_nat n <= s ->
  returns (copy_down m d s n) (written m d (Z.of_nat n) (fun i => m !! (s + i))).
Proof.
  revert m. induction n as [|n IH]; intros m Hd Hs Hov; [apply written_nil|]. cbn [copy_down].
  destruct (Hd (Z.of_nat n) ltac:(lia)) as [w Hw], (Hs (Z.of_nat n) ltac:(lia)) as [v Hv].
  unfold load, store. rewrite Hv. run. rewrite Hw. run.
  eapply returns_mono; [apply IH; [by apply mapped_init..|lia]|]. intros m' [Hin Hout]. split.
  - intros i Hi. destruct (Z.eq_dec i (Z.of_nat n)) as [->|].
    + rewrite Hout by lia. by rewrite lookup_insert_eq.
    + rewrite Hin by lia. rewrite lookup_insert_ne by lia. done.
  - intros x Hx. rewrite Hout by lia. rewrite lookup_insert_ne by lia. done.
Qed.

(** The order memcmp decides: that of the first bytes that differ. *)
Inductive bytes_order m a (b : addr) : Z -> Z -> Prop :=
  | order_equal (n : Z) : (forall i, 0 <= i < n -> m !! (a + i) = m !! (b + i)) -> bytes_order m a b n 0
  | order_differ (n i x y : Z) : 0 <= i < n -> (forall j, 0 <= j < i -> m !! (a + j) = m !! (b + j)) ->
      m !! (a + i) = Some x -> m !! (b + i) = Some y -> x <> y ->
      bytes_order m a b n (if x <? y then -1 else 1).

Lemma compare_up_spec m a b n : mapped m a (Z.of_nat n) -> mapped m b (Z.of_nat n) ->
  returns (compare_up m a b n) (bytes_order m a b (Z.of_nat n)).
Proof.
  revert a b. induction n as [|n IH]; intros a b Ha Hb; [constructor; lia|]. cbn [compare_up].
  destruct (mapped_head m a n Ha) as [x Hx], (mapped_head m b n Hb) as [y Hy].
  unfold load. rewrite Hx. run. rewrite Hy. run.
  destruct (Z.eqb_spec x y) as [->|Hne]; cbn [negb].
  - assert (Htail : forall c, mapped m c (Z.of_nat (S n)) -> mapped m (c + 1) (Z.of_nat n)).
    { intros c Hc i Hi. replace (c + 1 + i) with (c + (i + 1)) by lia. apply Hc. lia. }
    assert (Hup : forall k, (forall i, 0 <= i < k -> m !! (a + 1 + i) = m !! (b + 1 + i)) ->
      forall i, 0 <= i < k + 1 -> m !! (a + i) = m !! (b + i)).
    { intros k Hk i Hi. destruct (Z.eq_dec i 0) as [->|]; [by rewrite !Z.add_0_r, Hx, Hy|].
      specialize (Hk (i - 1) ltac:(lia)). by replace (a + 1 + (i - 1)) with (a + i) in Hk by lia;
        replace (b + 1 + (i - 1)) with (b + i) in Hk by lia. }
    eapply returns_mono; [apply IH; by apply Htail|].
    replace (Z.of_nat (S n)) with (Z.of_nat n + 1) by lia.
    intros r [k Heq|k i x' y' Hi Heq Hx' Hy' Hne].
    + constructor. by apply Hup.
    + apply (order_differ m a b _ (i + 1)); [lia|by apply Hup| |by rewrite <- Hy'; f_equal; lia|done].
      rewrite <- Hx'. f_equal. lia.
  - apply (order_differ m a b _ 0); [lia|lia|by rewrite Z.add_0_r..|done].
Qed.

(** C37. On mapped memory the four intrinsics never fault: memset fills exactly
    the range; memmove makes the destination a copy of what the source was,
    however the two overlap, and changes nothing else; memcpy is memmove when
    the destination does not start inside the source; memcmp orders two ranges
    by their first difference. *)
Theorem intrinsics_correct m d s value length :
  0 <= length -> mapped m d length -> mapped m s length ->
  returns (memset m d value length) (written m d length (fun _ => Some (u8 value))) /\
  returns (memmove m d s length) (written m d length (fun i => m !! (s + i))) /\
  (d <= s \/ s + length <= d -> memcpy m d s length = memmove m d s length) /\
  returns (memcmp m d s length) (bytes_order m d s length).
Proof.
  intros Hn Hd Hs. rewrite <- (Z2Nat.id length Hn) in Hd, Hs |- *.
  set (n := Z.to_nat length) in *. clearbody n. unfold memset, memmove, memcpy, memcmp. rewrite !Nat2Z.id.
  assert (Hmove : returns (if d <? s then copy_up m d s n else copy_down m d s n)
                    (written m d (Z.of_nat n) (fun i => m !! (s + i)))).
  { destruct (Z.ltb_spec d s); [apply copy_up_spec|apply copy_down_spec]; try done; lia. }
  split_and!; [by apply fill_up_spec|done| |by apply compare_up_spec].
  intros Hov. pose proof (copy_up_spec m d s n Hd Hs Hov) as (m1 & E1 & H1)%returns_alt.
  apply returns_alt in Hmove as (m2 & E2 & H2). transitivity (Ok m1); [done|].
  rewrite E2. f_equal. by eapply written_unique.
Qed.
End intrinsics.

(** Four bytes moved up by one, over themselves. *)
Definition ex_mem : mem := {[ 10 := 1; 11 := 2; 12 := 3; 13 := 4; 14 := 5 ]}.

Lemma intrinsics_correct_witness :
  (m ← memmove ex_mem 11 10 4; load_bytes m 10 5) = Ok [1; 1; 2; 3; 4] /\
  (m ← memcpy ex_mem 11 10 4; load_bytes m 10 5) = Ok [1; 1; 1; 1; 1] /\
  returns (memmove ex_mem 11 10 4) (written ex_mem 11 4 (fun i => ex_mem !! (10 + i))).
Proof.
  split; [by vm_compute|]. split; [by vm_compute|].
  apply (intrinsics_correct ex_mem 11 10 0 4); [done|intros i Hi..];
    (assert (i = 0 \/ i = 1 \/ i = 2 \/ i = 3) as [->|[->|[->| ->]]] by lia; by eexists).
Defined.

(** ** Strings *)

Section strings.
Implicit Types (s a b p : list Z) (n : nat).

(** [s] starts with the units [c] and then a NUL. *)
Definition c_string s (c : list Z) : Prop := (0 ∉ c) /\ exists rest, s = c ++ 0 :: rest.

Lemma KiStringLength_spec s c : c_string s c -> KiStringLength s = Ok (Z.of_nat (length c)).
Proof.
  intros [Hc [rest ->]]. induction c as [|x c IH]; [done|]. apply not_elem_of_cons in Hc as [Hx Hc].
  cbn [app KiStringLength]. rewrite (proj2 (Z.eqb_neq x 0)) by done. rewrite IH by done. run.
  f_equal. simpl length. lia.
Qed.

Lemma equals_within_spec c rest b n : 0 ∉ c -> (n <= length b)%nat ->
  equals_within (c ++ 0 :: rest) b n = Ok (bool_decide (c ++ [0] = take (S (length c)) b /\ (length c < n)%nat)).
Proof.
  revert b n. induction c as [|x c IH]; intros b n Hc Hn.
  - destruct n as [|n]; cbn [app equals_within at_unit].
    + rewrite bool_decide_eq_false_2; [done|]. cbn. lia.
    + destruct b as [|y b]; [cbn in Hn; lia|]. cbn [at_unit]. run. destruct (Z.eqb_spec 0 y) as [<-|Hne]; cbn [negb Z.eqb].
      * rewrite bool_decide_eq_true_2; [done|]. cbn. split; [done|lia].
      * rewrite bool_decide_eq_false_2; [done|]. cbn. intros [[= <-] _]. done.
  - apply not_elem_of_cons in Hc as [Hx Hc]. destruct n as [|n]; cbn [app equals_within].
    + rewrite bool_decide_eq_false_2; [done|]. cbn. lia.
    + destruct b as [|y b]; [cbn in Hn; lia|]. cbn [at_unit]. run. destruct (Z.eqb_spec x y) as [<-|Hne]; cbn [negb].
      * rewrite (proj2 (Z.eqb_neq x 0)) by done. rewrite IH by (done || (cbn in Hn; lia)).
        f_equal. apply bool_decide_ext. cbn [length take app]. split.
        -- intros [E ?]. rewrite E. split; [done|lia].
        -- intros [[= E] ?]. split; [done|lia].
      * rewrite bool_decide_eq_false_2; [done|]. cbn. intros [[= ? _] _]. done.
Qed.

Lemma KiStringEquals_spec ca ra cb rb : 0 ∉ ca -> 0 ∉ cb ->
  KiStringEquals (ca ++ 0 :: ra) (cb ++ 0 :: rb) = Ok (bool_decide (ca = cb)).
Proof.
  revert cb. induction ca as [|x ca IH]; intros cb Ha Hb.
  - cbn [app KiStringEquals]. destruct cb as [|y cb]; cbn [app at_unit]; run; [done|].
    apply not_elem_of_cons in Hb as [Hy _]. rewrite (proj2 (Z.eqb_neq 0 y)) by done.
    by rewrite bool_decide_eq_false_2.
  - apply not_elem_of_cons in Ha as [Hx Ha]. cbn [app KiStringEquals].
    destruct cb as [|y cb]; cbn [app at_unit]; run.
    + rewrite (proj2 (Z.eqb_neq x 0)) by done. by rewrite bool_decide_eq_false_2.
    + apply not_elem_of_cons in Hb as [Hy Hb]. rewrite (proj2 (Z.eqb_neq x 0)) by done. cbn [negb andb].
      destruct (Z.eqb_spec x y) as [<-|Hne].
      * rewrite IH by done. f_equal. apply bool_decide_ext. split; congruence.
      * rewrite bool_decide_eq_false_2 by congruence. done.
Qed.

Lemma KiStringStartsWith_spec cs rs cp rp : 0 ∉ cs -> 0 ∉ cp ->
  KiStringStartsWith (cs ++ 0 :: rs) (cp ++ 0 :: rp) = Ok (bool_decide (cp `prefix_of` cs)).
Proof.
  revert cs. induction cp as [|y cp IH]; intros cs Hs Hp.
  - done.
  - apply not_elem_of_cons in Hp as [Hy Hp]. cbn [app KiStringStartsWith].
    rewrite (proj2 (Z.eqb_neq y 0)) by done. destruct cs as [|x cs]; cbn [app at_unit]; run.
    + rewrite (proj2 (Z.eqb_neq 0 y)) by done. rewrite bool_decide_eq_false_2; [done|].
      by intros ?%prefix_nil_not.
    + apply not_elem_of_cons in Hs as [Hx Hs]. destruct (Z.eqb_spec x y) as [<-|Hne].
      * rewrite IH by done. f_equal. apply bool_decide_ext. split.
        -- apply prefix_cons.
        -- apply prefix_cons_inv_2.
      * rewrite bool_decide_eq_false_2; [done|]. intros H. apply Hne. symmetry. by eapply prefix_cons_inv_1.
Qed.

(** The string loops compute what their names say on NUL-terminated strings;
    and KiStringEqualsWithin, whose second string comes from an untrusted image
    and may not be terminated at all, never reads past its window: it answers
    yes exactly when the whole name, NUL included, lies within it. *)
Theorem string_loops_correct s cs p cp untrusted bBytes :
  c_string s cs -> c_string p cp -> 0 <= bBytes <= Z.of_nat (length untrusted) ->
  KiStringLength s = Ok (Z.of_nat (length cs)) /\
  KiStringEquals s p = Ok (bool_decide (cs = cp)) /\
  KiStringStartsWith s p = Ok (bool_decide (cp `prefix_of` cs)) /\
  KiStringEqualsWithin s untrusted bBytes =
    Ok (bool_decide ((cs ++ [0]) `prefix_of` take (Z.to_nat bBytes) untrusted)).
Proof.
  intros Hs Hp Hb. split_and!; [by apply KiStringLength_spec| | |].
  - destruct Hs as [? [? ->]], Hp as [? [? ->]]. by apply KiStringEquals_spec.
  - destruct Hs as [? [? ->]], Hp as [? [? ->]]. by apply KiStringStartsWith_spec.
  - destruct Hs as [Hc [rest ->]]. unfold KiStringEqualsWithin. rewrite equals_within_spec by (done || lia).
    f_equal. apply bool_decide_ext. set (n := Z.to_nat bBytes). assert (Hn : (n <= length untrusted)%nat) by lia.
    split.
    + intros [E Hlt]. rewrite E. replace n with (S (length cs) + (n - S (length cs)))%nat by lia.
      rewrite <- (take_take_drop untrusted (S (length cs)) (n - S (length cs))). by apply prefix_app_r.
    + intros [k E]. assert (Hlen : length (take n untrusted) = length ((cs ++ [0]) ++ k)) by (by rewrite E).
      rewrite length_take, !length_app in Hlen. cbn [length] in Hlen. split; [|lia].
      assert (E' : take (S (length cs)) (take n untrusted) = take (S (length cs)) ((cs ++ [0]) ++ k)) by (by rewrite E).
      rewrite take_take, Nat.min_l in E' by lia. rewrite E', take_app_le by (rewrite length_app; cbn; lia).
      rewrite take_ge; [done|]. rewrite length_app. cbn. lia.
Qed.
End strings.

(** "ab" against an unterminated "ab" of an image, and against "ab\0". *)
Lemma string_loops_correct_witness :
  KiStringEqualsWithin [97; 98; 0] [97; 98] 2 = Ok false /\
  KiStringEqualsWithin [97; 98; 0] [97; 98; 0; 7] 3 = Ok true /\
  KiStringEquals [97; 98; 0] [97; 98; 0] = Ok true.
Proof.
  assert (H : c_string [97; 98; 0] [97; 98]).
  { split; [|by exists []]. rewrite !not_elem_of_cons. repeat split; try done. apply not_elem_of_nil. }
  split_and!; [done| |].
  - apply (string_loops_correct [97; 98; 0] [97; 98] [97; 98; 0] [97; 98] [97; 98; 0; 7] 3 H H). cbn. lia.
  - apply (string_loops_correct [97; 98; 0] [97; 98] [97; 98; 0] [97; 98] [97; 98; 0; 7] 3 H H). cbn. lia.
Defined.
