(* ===== verification/Memory.v ===== *)
(** * Memory: 64-bit words in the byte heap of file Bytes.

    A [uint64_t *] access is eight little-endian bytes.  The lemmas give words
    their store/load laws, pages their disjointness, and the mem* intrinsics
    their effect on words. *)

From S2P Require Import Prelude Bytes.

Definition load64 (m : mem) (a : addr) : outcome Z := KiReadLe64 m a.
Definition store64 (m : mem) (a : addr) (v : Z) : outcome mem := KiWriteLe64 m a v.

#[global] Arguments load64 : simpl never.
#[global] Arguments store64 : simpl never.

Definition PAGE_SIZE : Z := 4096.

Section words.
Implicit Types (m : mem) (a b x v : Z) (n : nat) (l : list Z).

Lemma mapped_le m a (n k : Z) : mapped m a k -> n <= k -> mapped m a n.
Proof. intros H Hn i Hi. apply H. lia. Qed.

Lemma mapped_sub m a b (n k : Z) : mapped m a k -> a <= b -> b + n <= a + k -> mapped m b n.
Proof. intros H H1 H2 i Hi. replace (b + i) with (a + (b - a + i)) by lia. apply H. lia. Qed.

Lemma load_bytes_ext m m' a n : (forall x, a <= x < a + Z.of_nat n -> m' !! x = m !! x) -> load_bytes m' a n = load_bytes m a n.
Proof.
  revert a. induction n as [|n IH]; intros a H; [done|]. cbn [load_bytes]. unfold load. rewrite H by lia.
  by rewrite IH by (intros x Hx; apply H; lia).
Qed.

Lemma load_bytes_mapped m a n : mapped m a (Z.of_nat n) -> exists l, load_bytes m a n = Ok l /\ length l = n /\
  forall i, (i < n)%nat -> l !! i = m !! (a + Z.of_nat i).
Proof.
  revert a. induction n as [|n IH]; intros a H; [exists []; split_and!; [done..|lia]|]. cbn [load_bytes].
  destruct (mapped_head m a n H) as [v Hv]. unfold load. rewrite Hv. run.
  destruct (IH (a + 1)) as (l & -> & Hl & Hi); [by apply (mapped_sub m a _ _ _ H); lia|]. run.
  exists (v :: l). split_and!; [done|cbn; lia|]. intros [|i] Hlt; [by rewrite Z.add_0_r, Hv|]. cbn. rewrite Hi by lia. f_equal. lia.
Qed.

Lemma store_bytes_spec m a l : mapped m a (Z.of_nat (length l)) ->
  returns (store_bytes m a l) (written m a (Z.of_nat (length l)) (fun i => l !! Z.to_nat i)).
Proof.
  revert m a. induction l as [|v l IH]; intros m a H; [apply written_nil|]. cbn [store_bytes length] in *.
  destruct (mapped_head m a _ H) as [w Hw]. unfold store. rewrite Hw. run.
  eapply returns_mono; [apply IH; by apply mapped_tail|]. intros m' [Hin Hout]. split.
  - intros i Hi. destruct (Z.eq_dec i 0) as [->|].
    + rewrite Z.add_0_r, Hout by lia. by rewrite lookup_insert_eq.
    + replace (a + i) with (a + 1 + (i - 1)) by lia. rewrite Hin by lia.
      replace (Z.to_nat i) with (S (Z.to_nat (i - 1))) by lia. done.
  - intros x Hx. rewrite Hout by lia. rewrite lookup_insert_ne by lia. done.
Qed.

Lemma written_load m a l m' : written m a (Z.of_nat (length l)) (fun i => l !! Z.to_nat i) m' ->
  load_bytes m' a (length l) = Ok l.
Proof.
  intros W. destruct (load_bytes_mapped m' a (length l)) as (l' & -> & Hlen & Hl').
  - intros i Hi. rewrite (wr_in _ _ _ _ _ W) by lia. apply lookup_lt_is_Some_2. lia.
  - f_equal. apply list_eq_same_length with (length l); [done..|]. intros i x y Hi Hx Hy.
    rewrite Hl' in Hx by lia. rewrite (wr_in _ _ _ _ _ W) in Hx by lia. rewrite Nat2Z.id in Hx. congruence.
Qed.

(** [m'] is [m] with the word at [a] replaced by [v]. *)
Record stored m a v m' : Prop := {
  st_word : load64 m' a = Ok v;
  st_out : forall x, ~ (a <= x < a + 8) -> m' !! x = m !! x;
  st_dom : forall x, is_Some (m' !! x) <-> is_Some (m !! x);
}.

Lemma store64_spec m a v : mapped m a 8 -> is_u64 v -> returns (store64 m a v) (stored m a v).
Proof.
  intros H Hv. unfold store64, KiWriteLe64. eapply returns_mono; [apply store_bytes_spec; by rewrite length_le_bytes|].
  intros m' W. assert (E : load_bytes m' a 8 = Ok (le_bytes 8 v)) by (rewrite <- (length_le_bytes 8 v) at 1; exact (written_load _ _ _ _ W)).
  rewrite length_le_bytes in W. split.
  - unfold load64, KiReadLe64. rewrite E. run. by rewrite le_value_bytes.
  - intros x Hx. by apply (wr_out _ _ _ _ _ W).
  - intros x. destruct (decide (a <= x < a + 8)) as [Hx|Hx]; [|by rewrite (wr_out _ _ _ _ _ W)].
    replace x with (a + (x - a)) by lia. rewrite (wr_in _ _ _ _ _ W) by lia. split; intros _; [apply H; lia|].
    apply lookup_lt_is_Some_2. rewrite length_le_bytes. lia.
Qed.

Lemma load_bytes_shift m m' a b n : (forall j, 0 <= j < Z.of_nat n -> m' !! (a + j) = m !! (b + j)) -> load_bytes m' a n = load_bytes m b n.
Proof.
  revert a b. induction n as [|n IH]; intros a b H; [done|]. cbn [load_bytes]. unfold load.
  pose proof (H 0 ltac:(lia)) as H0. rewrite !Z.add_0_r in H0. rewrite H0. rewrite (IH (a + 1) (b + 1)); [done|].
  intros j Hj. specialize (H (j + 1) ltac:(lia)). by replace (a + 1 + j) with (a + (j + 1)) by lia; replace (b + 1 + j) with (b + (j + 1)) by lia.
Qed.

Lemma load64_shift m m' a b : (forall j, 0 <= j < 8 -> m' !! (a + j) = m !! (b + j)) -> load64 m' a = load64 m b.
Proof. intros H. unfold load64, KiReadLe64. by rewrite (load_bytes_shift m m' a b 8). Qed.

Lemma load64_ext m m' b : (forall x, b <= x < b + 8 -> m' !! x = m !! x) -> load64 m' b = load64 m b.
Proof. intros H. unfold load64, KiReadLe64. by rewrite (load_bytes_ext m m' b 8). Qed.

Lemma stored_load m a v m' b : stored m a v m' -> b + 8 <= a \/ a + 8 <= b -> load64 m' b = load64 m b.
Proof. intros S Hb. apply load64_ext. intros x Hx. apply (st_out _ _ _ _ S). lia. Qed.

Lemma stored_mapped m a v m' b (n : Z) : stored m a v m' -> mapped m' b n <-> mapped m b n.
Proof. intros S. unfold mapped. split; intros H i Hi; apply (st_dom m a v m' S); by apply H. Qed.

Lemma load64_mapped m a : mapped m a 8 -> exists v, load64 m a = Ok v.
Proof. intros H. destruct (load_bytes_mapped m a 8 H) as (l & E & _). unfold load64, KiReadLe64. rewrite E. by exists (le_value l). Qed.

(** A range filled with zero bytes reads as zero words. *)
Lemma filled_word m a (n : Z) m' b : written m a n (fun _ => Some 0) m' -> a <= b -> b + 8 <= a + n -> load64 m' b = Ok 0.
Proof.
  intros W H1 H2. assert (E : forall i, 0 <= i < 8 -> m' !! (b + i) = Some 0).
  { intros i Hi. replace (b + i) with (a + (b - a + i)) by lia. apply (wr_in _ _ _ _ _ W). lia. }
  unfold load64, KiReadLe64. cbn [load_bytes]. unfold load.
  rewrite <- (Z.add_0_r b) at 1. rewrite <- !Z.add_assoc. cbn [Z.add Pos.add Pos.succ]. rewrite !E by lia. done.
Qed.

Lemma written_dom m a (n : Z) f m' x : mapped m a n -> (forall i, 0 <= i < n -> is_Some (f i)) -> written m a n f m' ->
  is_Some (m' !! x) <-> is_Some (m !! x).
Proof.
  intros Hm Hf W. destruct (decide (a <= x < a + n)) as [Hx|Hx]; [|by rewrite (wr_out _ _ _ _ _ W)].
  replace x with (a + (x - a)) by lia. rewrite (wr_in _ _ _ _ _ W) by lia. split; intros _; [apply Hm|apply Hf]; lia.
Qed.

Lemma memcpy_spec m d a (n : Z) : 0 <= n -> mapped m d n -> mapped m a n -> d + n <= a \/ a + n <= d ->
  returns (memcpy m d a n) (written m d n (fun i => m !! (a + i))).
Proof.
  intros Hn Hd Ha Hov. unfold memcpy. rewrite <- (Z2Nat.id n Hn) in Hd, Ha.
  pose proof (copy_up_spec m d a (Z.to_nat n) Hd Ha ltac:(lia)) as F. by rewrite (Z2Nat.id n Hn) in F.
Qed.

Lemma memset_spec m a value (n : Z) : 0 <= n -> mapped m a n ->
  returns (memset m a value n) (written m a n (fun _ => Some (u8 value))).
Proof.
  intros Hn H. unfold memset. rewrite <- (Z2Nat.id n Hn) in H. pose proof (fill_up_spec m a (u8 value) (Z.to_nat n) H) as F.
  by rewrite (Z2Nat.id n Hn) in F.
Qed.
End words.

(** ** Pages *)

Definition aligned (p : Z) : bool := Z.land p (PAGE_SIZE - 1) =? 0.

Section pages.
Implicit Types (p q : Z) (l : list Z).

Lemma aligned_spec p : aligned p = true <-> p mod PAGE_SIZE = 0.
Proof. unfold aligned. change (PAGE_SIZE - 1) with (Z.ones 12). rewrite Z.land_ones by lia. apply Z.eqb_eq. Qed.

(** Distinct pages do not overlap. *)
Lemma aligned_apart p q : aligned p = true -> aligned q = true -> p <> q -> p + PAGE_SIZE <= q \/ q + PAGE_SIZE <= p.
Proof.
  rewrite !aligned_spec. unfold PAGE_SIZE. intros Hp Hq Hne. Z.to_euclidean_division_equations. lia.
Qed.

(** Distinct numbers below a bound are at most as many as the bound. *)
Lemma NoDup_bounded l (n : Z) : NoDup l -> Forall (fun x => 0 <= x < n) l -> Z.of_nat (length l) <= Z.max 0 n.
Proof.
  intros Hnd Hl. assert (Hs : l ⊆+ seqZ 0 n).
  { apply NoDup_submseteq; [done|]. intros x Hx. rewrite Forall_forall in Hl. apply elem_of_seqZ. apply Hl in Hx. lia. }
  apply submseteq_length in Hs. rewrite length_seqZ in Hs. lia.
Qed.

Lemma NoDup_pages l (n : Z) : NoDup l -> Forall (fun p => aligned p = true /\ 0 <= p < n * PAGE_SIZE) l -> Z.of_nat (length l) <= Z.max 0 n.
Proof.
  intros Hnd Hl. rewrite <- (length_map (fun p => p / PAGE_SIZE) l). apply NoDup_bounded.
  - apply NoDup_fmap_2_strong; [|done]. intros p q Hp Hq E. rewrite Forall_forall in Hl.
    destruct (Hl p Hp) as [Ap _], (Hl q Hq) as [Aq _]. rewrite aligned_spec in Ap, Aq. unfold PAGE_SIZE in *.
    Z.to_euclidean_division_equations. lia.
  - apply Forall_map. eapply Forall_impl; [exact Hl|]. cbn. unfold PAGE_SIZE. intros p [_ Hp].
    Z.to_euclidean_division_equations. lia.
Qed.
End pages.
