(* ===== verification/Phys.v ===== *)
(** * Phys: the physical page frame allocator (kernel/mm/phys.c).

    A stack of 4 KiB frames threaded through the frames themselves and reached
    through the direct map at [MiHhdmOffset].  The boot loader's memory map is an
    argument; the value of LIMINE_MEMMAP_USABLE comes from its header, which is
    not part of the repository, and is an argument too. *)

From S2P Require Import Prelude Bytes Memory.

Record phys_state := mkphys {
  MiHhdmOffset : Z;
  MiFreeListHead : Z;
  MiFreePageCount : Z;
  MiTotalPageCount : Z;
  KiInCompletionDrain : bool;
  memory : mem;
}.

#[export] Instance eta_phys_state : Eta phys_state := {| eta_expand := fun s =>
  mkphys (MiHhdmOffset s) (MiFreeListHead s) (MiFreePageCount s) (MiTotalPageCount s) (KiInCompletionDrain s) (memory s) |}.

Definition MiFrameToVirtual (s : phys_state) (physical : Z) : addr := u64 (MiHhdmOffset s + physical).
Definition MiPhysicalToVirtual (s : phys_state) (physical : Z) : addr := u64 (MiHhdmOffset s + physical).

Definition MiFreePage (s : phys_state) (page : Z) : outcome phys_state :=
  _ ← ASSERT (negb (KiInCompletionDrain s)) "!KiInCompletionDrain";
  _ ← ASSERT (negb (page =? 0)) "page != 0";
  _ ← ASSERT (aligned page) "(page & (PAGE_SIZE - 1)) == 0";
  m ← store64 (memory s) (MiFrameToVirtual s page) (MiFreeListHead s);
  Ok (s <| memory := m |> <| MiFreeListHead := page |> <| MiFreePageCount := u64 (MiFreePageCount s + 1) |>).

Definition MiAllocatePage (s : phys_state) : outcome (Z * phys_state) :=
  _ ← ASSERT (negb (KiInCompletionDrain s)) "!KiInCompletionDrain";
  if MiFreeListHead s =? 0 then Ok (0, s) else
  _ ← ASSERT (0 <? MiFreePageCount s) "MiFreePageCount > 0";
  let page := MiFreeListHead s in
  head ← load64 (memory s) (MiFrameToVirtual s page);
  _ ← ASSERT (aligned head) "(MiFreeListHead & (PAGE_SIZE - 1)) == 0";
  Ok (page, s <| MiFreeListHead := head |> <| MiFreePageCount := u64 (MiFreePageCount s - 1) |>).

Definition MiGetFreePageCount (s : phys_state) : Z := MiFreePageCount s.
Definition MiGetTotalPageCount (s : phys_state) : Z := MiTotalPageCount s.

(** One entry of the boot loader's memory map. *)
Record limine_memmap_entry := mkmemmap_entry {
  entry_base : Z;
  entry_length : Z;
  entry_type : Z;
}.

Definition page_floor (a : Z) : Z := Z.land a (2 ^ 64 - PAGE_SIZE).

(** The frames of one entry, from [page] on; [fuel] bounds the loop. *)
Fixpoint free_range (fuel : nat) (s : phys_state) (page end_ : Z) : outcome phys_state :=
  match fuel with
  | O => OutOfFuel
  | S fuel' =>
      if u64 (page + PAGE_SIZE) <=? end_ then
        if page =? 0 then free_range fuel' s (u64 (page + PAGE_SIZE)) end_ else
        s ← MiFreePage s page;
        free_range fuel' (s <| MiTotalPageCount := u64 (MiTotalPageCount s + 1) |>) (u64 (page + PAGE_SIZE)) end_
      else Ok s
  end.

Fixpoint free_entries (fuel : nat) (LIMINE_MEMMAP_USABLE : Z) (s : phys_state) (entries : list limine_memmap_entry) : outcome phys_state :=
  match entries with
  | [] => Ok s
  | entry :: entries' =>
      if negb (entry_type entry =? LIMINE_MEMMAP_USABLE) then free_entries fuel LIMINE_MEMMAP_USABLE s entries' else
      s ← free_range fuel s (page_floor (u64 (entry_base entry + PAGE_SIZE - 1))) (page_floor (u64 (entry_base entry + entry_length entry)));
      free_entries fuel LIMINE_MEMMAP_USABLE s entries'
  end.

Definition MiInitializePhysicalMemory (fuel : nat) (LIMINE_MEMMAP_USABLE : Z) (s : phys_state) (hhdmOffset : Z)
    (memoryMap : list limine_memmap_entry) : outcome phys_state :=
  free_entries fuel LIMINE_MEMMAP_USABLE
    (s <| MiHhdmOffset := hhdmOffset |> <| MiFreeListHead := 0 |> <| MiFreePageCount := 0 |> <| MiTotalPageCount := 0 |>) memoryMap.

Definition MiTestPhysicalAllocator (s : phys_state) : outcome (Z * phys_state) :=
  let before := MiFreePageCount s in
  '(a, s) ← MiAllocatePage s;
  '(b, s) ← MiAllocatePage s;
  if (a =? 0) || (b =? 0) || (a =? b) then Ok (0, s) else
  let mapped := MiFrameToVirtual s a in
  m ← store64 (memory s) mapped 0xDEADBEEFCAFEBABE;
  m ← store64 m (mapped + 8 * 511) 0x0123456789ABCDEF;
  first ← load64 m mapped;
  last ← load64 m (mapped + 8 * 511);
  let s := s <| memory := m |> in
  if negb (first =? 0xDEADBEEFCAFEBABE) || negb (last =? 0x0123456789ABCDEF) then Ok (0, s) else
  s ← MiFreePage s a;
  s ← MiFreePage s b;
  '(c, s) ← MiAllocatePage s;
  if negb (c =? b) then Ok (0, s) else
  s ← MiFreePage s c;
  Ok (if MiFreePageCount s =? before then 1 else 0, s).

(** ** The stack of frames *)

Section frames.
Implicit Types (s : phys_state) (p q : Z) (free : list Z) (m : mem).

(** A frame the allocator may hold: not 0, page-aligned, wholly in the direct map. *)
Record frame_ok s p : Prop := {
  fr_pos : 0 < p;
  fr_aligned : aligned p = true;
  fr_top : MiHhdmOffset s + p + PAGE_SIZE <= 2 ^ 64;
  fr_mapped : mapped (memory s) (MiHhdmOffset s + p) PAGE_SIZE;
}.

(** The links from [head] spell [free]. *)
Fixpoint chain (m : mem) (offset head : Z) (free : list Z) : Prop :=
  match free with
  | [] => head = 0
  | p :: free' => head = p /\ exists next, load64 m (offset + p) = Ok next /\ chain m offset next free'
  end.

Record phys_ok s free : Prop := {
  po_offset : 0 <= MiHhdmOffset s;
  po_drain : KiInCompletionDrain s = false;
  po_frames : Forall (frame_ok s) free;
  po_nodup : NoDup free;
  po_chain : chain (memory s) (MiHhdmOffset s) (MiFreeListHead s) free;
  po_count : MiFreePageCount s = Z.of_nat (length free);
}.

Lemma frame_virtual s p : 0 <= MiHhdmOffset s -> frame_ok s p -> MiFrameToVirtual s p = MiHhdmOffset s + p.
Proof. intros H F. apply u64_small. pose proof (fr_top _ _ F). pose proof (fr_pos _ _ F). unfold is_u64, PAGE_SIZE in *. lia. Qed.

Lemma phys_count s free : phys_ok s free -> Z.of_nat (length free) <= 2 ^ 52.
Proof.
  intros P. transitivity (Z.max 0 (2 ^ 52)); [|lia]. apply NoDup_pages; [apply (po_nodup _ _ P)|].
  eapply Forall_impl; [apply (po_frames _ _ P)|]. intros p F. split; [apply (fr_aligned _ _ F)|].
  pose proof (fr_pos _ _ F). pose proof (fr_top _ _ F). pose proof (po_offset _ _ P). unfold PAGE_SIZE in *. lia.
Qed.

Lemma chain_ext m m' offset head free : (forall p, p ∈ free -> load64 m' (offset + p) = load64 m (offset + p)) ->
  chain m offset head free -> chain m' offset head free.
Proof.
  revert head. induction free as [|p free IH]; intros head H; [done|]. cbn. intros (-> & next & Hl & Hc). split; [done|].
  exists next. split; [rewrite H by left; done|]. apply IH; [|done]. intros q Hq. apply H. by right.
Qed.

Lemma chain_head m offset head free : chain m offset head free -> Forall (fun p => 0 < p) free -> head = 0 <-> free = [].
Proof. destruct free as [|p free]; cbn; [done|]. intros (-> & _) H%Forall_cons_1%proj1. split; [lia|done]. Qed.

(** The allocator's memory may be changed anywhere but in the free frames. *)
Lemma phys_ok_memory s m free : phys_ok s free ->
  (forall x, is_Some (m !! x) <-> is_Some (memory s !! x)) ->
  (forall p, p ∈ free -> load64 m (MiHhdmOffset s + p) = load64 (memory s) (MiHhdmOffset s + p)) ->
  phys_ok (s <| memory := m |>) free.
Proof.
  intros [P1 P2 P3 P4 P5 P6] Hdom Hl. split; cbn; try done.
  - eapply Forall_impl; [exact P3|]. intros p [F1 F2 F3 F4]. split; cbn; [done..|]. intros i Hi. by apply Hdom, F4.
  - by apply (chain_ext (memory s)).
Qed.

Lemma MiAllocatePage_spec s free : phys_ok s free ->
  match free with
  | [] => MiAllocatePage s = Ok (0, s)
  | p :: free' => exists s', MiAllocatePage s = Ok (p, s') /\ phys_ok s' free' /\
      s' = s <| MiFreeListHead := MiFreeListHead s' |> <| MiFreePageCount := MiFreePageCount s' |>
  end.
Proof.
  intros P. pose proof (phys_count _ _ P) as Hc. destruct P as [P1 P2 P3 P4 P5 P6]. unfold MiAllocatePage. rewrite P2. run.
  destruct free as [|p free]; cbn in P5; [by rewrite P5|]. destruct P5 as (Hp & next & Hl & Hch).
  apply Forall_cons in P3 as [F P3]. apply NoDup_cons in P4 as [Hnp P4]. rewrite Hp.
  rewrite (proj2 (Z.eqb_neq p 0)) by (pose proof (fr_pos _ _ F); lia). rewrite P6. cbn [length] in *.
  rewrite (proj2 (Z.ltb_lt _ _)) by lia. run. rewrite frame_virtual by done. rewrite Hl. run.
  assert (An : aligned next = true).
  { destruct free as [|q free]; cbn in Hch; [by subst next|]. destruct Hch as (-> & _). apply Forall_cons in P3 as [Fq _]. apply (fr_aligned _ _ Fq). }
  rewrite An. run. eexists. split; [reflexivity|]. split; [|done]. split; cbn; try done.
  - eapply Forall_impl; [exact P3|]. intros q [? ? ? ?]. by split.
  - rewrite u64_small by (unfold is_u64; lia). lia.
Qed.

(** Freeing [p] changes its first word and nothing else in memory. *)
Lemma MiFreePage_spec s free p : phys_ok s free -> frame_ok s p -> p ∉ free ->
  exists s', MiFreePage s p = Ok s' /\ phys_ok s' (p :: free) /\
    s' = s <| memory := memory s' |> <| MiFreeListHead := p |> <| MiFreePageCount := MiFreePageCount s + 1 |> /\
    stored (memory s) (MiHhdmOffset s + p) (MiFreeListHead s) (memory s').
Proof.
  intros P F Hp. pose proof (phys_count _ _ P) as Hc. destruct P as [P1 P2 P3 P4 P5 P6]. unfold MiFreePage. rewrite P2.
  rewrite (proj2 (Z.eqb_neq p 0)) by (pose proof (fr_pos _ _ F); lia). rewrite (fr_aligned _ _ F). run.
  rewrite frame_virtual by done.
  assert (Hh : is_u64 (MiFreeListHead s)).
  { destruct free as [|q free]; cbn in P5; [rewrite P5; by unfold is_u64|]. destruct P5 as (-> & _).
    apply Forall_cons in P3 as [Fq _]. pose proof (fr_pos _ _ Fq). pose proof (fr_top _ _ Fq). unfold is_u64, PAGE_SIZE in *. lia. }
  assert (Hm : mapped (memory s) (MiHhdmOffset s + p) 8) by (apply (mapped_le _ _ _ _ (fr_mapped _ _ F)); unfold PAGE_SIZE; lia).
  destruct (proj1 (returns_alt _ _) (store64_spec _ _ _ Hm Hh)) as (m & -> & S). run.
  rewrite u64_small by (unfold is_u64; lia). eexists. split; [reflexivity|]. cbn. split; [|split; [done|exact S]].
  assert (Hfr : forall q, frame_ok s q -> frame_ok (s <| memory := m |> <| MiFreeListHead := p |> <| MiFreePageCount := MiFreePageCount s + 1 |>) q).
  { intros q [F1 F2 F3 F4]. split; cbn; [done..|]. by apply (stored_mapped _ _ _ _ _ _ S). }
  split; cbn; try done.
  - constructor; [by apply Hfr|]. eapply Forall_impl; [exact P3|done].
  - by constructor.
  - split; [done|]. exists (MiFreeListHead s). split; [apply (st_word _ _ _ _ S)|].
    apply (chain_ext (memory s)); [|done]. intros q Hq. apply (stored_load _ _ _ _ _ S).
    rewrite Forall_forall in P3. destruct (aligned_apart p q (fr_aligned _ _ F) (fr_aligned _ _ (P3 q Hq))) as [H|H];
      [by intros ->|unfold PAGE_SIZE in H; lia..].
  - lia.
Qed.

(** The state changed, the frames it could hold are the same. *)
Definition same_window s s' : Prop := MiHhdmOffset s' = MiHhdmOffset s /\ forall x, is_Some (memory s' !! x) <-> is_Some (memory s !! x).

Lemma frame_ok_window s s' p : same_window s s' -> frame_ok s p -> frame_ok s' p.
Proof.
  intros [Ho Hd] [F1 F2 F3 F4]. split; [done..|by rewrite Ho|]. rewrite Ho. intros i Hi. by apply Hd, F4.
Qed.

Lemma page_floor_spec a : is_u64 a -> page_floor a = a - a mod PAGE_SIZE.
Proof.
  intros Ha. unfold page_floor. replace (2 ^ 64 - PAGE_SIZE) with (Z.shiftl (Z.ones 52) 12) by done.
  transitivity (Z.shiftl (Z.shiftr a 12) 12).
  - apply Z.bits_inj'. intros k Hk. rewrite Z.land_spec, !Z.shiftl_spec, Z.testbit_ones by lia.
    destruct (Z.leb_spec 0 (k - 12)); cbn [andb].
    + rewrite Z.shiftr_spec by lia. replace (k - 12 + 12) with k by lia. destruct (Z.ltb_spec (k - 12) 52); [by rewrite andb_true_r|].
      rewrite andb_false_r. symmetry. rewrite <- (Z.mod_small a (2 ^ 64)) by (unfold is_u64 in Ha; lia). apply Z.mod_pow2_bits_high. lia.
    + rewrite andb_false_r. symmetry. apply Z.testbit_neg_r. lia.
  - rewrite Z.shiftr_div_pow2, Z.shiftl_mul_pow2 by lia. unfold PAGE_SIZE. Z.to_euclidean_division_equations. lia.
Qed.

Lemma aligned_floor a : is_u64 a -> aligned (page_floor a) = true /\ a - PAGE_SIZE < page_floor a <= a.
Proof.
  intros Ha. rewrite aligned_spec, page_floor_spec by done. unfold PAGE_SIZE. Z.to_euclidean_division_equations. lia.
Qed.

Lemma aligned_next p : aligned p = true -> aligned (p + PAGE_SIZE) = true.
Proof. rewrite !aligned_spec. unfold PAGE_SIZE. Z.to_euclidean_division_equations. lia. Qed.

Lemma free_range_spec fuel s free page end_ : phys_ok s free -> MiTotalPageCount s = MiFreePageCount s ->
  aligned page = true -> aligned end_ = true -> 0 <= page -> page + PAGE_SIZE < 2 ^ 64 -> 0 <= end_ -> end_ + PAGE_SIZE < 2 ^ 64 ->
  Z.max 0 ((end_ - page) / PAGE_SIZE) < Z.of_nat fuel ->
  (forall p, aligned p = true -> p <> 0 -> page <= p < end_ -> frame_ok s p /\ p ∉ free) ->
  exists s' fresh, free_range fuel s page end_ = Ok s' /\ phys_ok s' (fresh ++ free) /\ MiTotalPageCount s' = MiFreePageCount s' /\
    same_window s s' /\ forall p, p ∈ fresh <-> aligned p = true /\ p <> 0 /\ page <= p < end_.
Proof.
  revert s free page. induction fuel as [|fuel IH]; intros s free page P Ht Ap Ae Hp Hpt He Het Hf Hall; [lia|].
  cbn [free_range]. rewrite u64_small by (unfold is_u64, PAGE_SIZE in *; lia).
  assert (Hstep : page + PAGE_SIZE <= end_ -> forall q, aligned q = true -> page <= q < end_ -> q = page \/ page + PAGE_SIZE <= q < end_).
  { intros _ q Aq Hq. destruct (decide (q = page)); [by left|]. destruct (aligned_apart q page) as [H|H]; unfold PAGE_SIZE in *; [done..|lia|lia]. }
  destruct (Z.leb_spec (page + PAGE_SIZE) end_) as [Hle|Hgt].
  - assert (Hf' : Z.max 0 ((end_ - (page + PAGE_SIZE)) / PAGE_SIZE) < Z.of_nat fuel)
      by (unfold PAGE_SIZE in *; Z.to_euclidean_division_equations; lia).
    destruct (Z.eqb_spec page 0) as [->|Hne].
    + destruct (IH s free (0 + PAGE_SIZE)) as (s' & fresh & E & P' & T' & W & Hfr);
        [first [done|by apply aligned_next|unfold PAGE_SIZE in *; lia]..| |].
      { intros p A0 Hp0 Hr. apply Hall; [done..|unfold PAGE_SIZE in *; lia]. }
      exists s', fresh. split_and!; [done..|]. intros p. rewrite Hfr. split; [intros (?&?&?); split_and!; try done; unfold PAGE_SIZE in *; lia|].
      intros (A0 & Hp0 & Hr). destruct (Hstep Hle p A0 Hr) as [->|]; [done|]. done.
    + destruct (Hall page Ap Hne ltac:(unfold PAGE_SIZE in *; lia)) as [F Hnf].
      destruct (MiFreePage_spec s free page P F Hnf) as (s1 & -> & P1 & E1 & S1). run.
      assert (W1 : same_window s s1) by (split; [by rewrite E1|apply (st_dom _ _ _ _ S1)]).
      assert (C1 : MiFreePageCount s1 = MiFreePageCount s + 1) by (by rewrite E1).
      assert (T1 : MiTotalPageCount s1 = MiFreePageCount s) by (by rewrite E1).
      pose proof (phys_count _ _ P1) as Hc1. rewrite <- (po_count _ _ P1) in Hc1.
      assert (P2 : phys_ok (s1 <| MiTotalPageCount := u64 (MiTotalPageCount s1 + 1) |>) (page :: free)).
      { destruct P1 as [Q1 Q2 Q3 Q4 Q5 Q6]. split; cbn; try done. eapply Forall_impl; [exact Q3|]. intros q [? ? ? ?]. by split. }
      destruct (IH _ (page :: free) (page + PAGE_SIZE) P2) as (s' & fresh & E & P' & T' & W & Hfr);
        [|first [done|by apply aligned_next|unfold PAGE_SIZE in *; lia]..| |].
      * cbn. rewrite T1, C1. apply u64_small. pose proof (po_count _ _ P). unfold is_u64. lia.
      * intros p A0 Hp0 Hr. destruct (Hall p A0 Hp0 ltac:(unfold PAGE_SIZE in *; lia)) as [F0 N0]. split.
        -- by apply (frame_ok_window s).
        -- intros [->|]%elem_of_cons; [unfold PAGE_SIZE in *; lia|done].
      * exists s', (fresh ++ [page]). rewrite <- app_assoc. split_and!; [done|done|done| |].
        -- destruct W as [W0 W2], W1 as [W3 W4]. split; [by rewrite W0, <- W3|]. intros x. by rewrite W2, <- W4.
        -- intros p. rewrite elem_of_app, list_elem_of_singleton, Hfr. split.
           ++ intros [(?&?&?)| ->]; split_and!; try done; unfold PAGE_SIZE in *; lia.
           ++ intros (A0 & Hp0 & Hr). destruct (Hstep Hle p A0 Hr) as [->|]; [by right|by left].
  - exists s, []. split_and!; try done. intros p. rewrite elem_of_nil. split; [done|]. intros (A0 & Hp0 & Hr).
    rewrite aligned_spec in A0, Ap, Ae. unfold PAGE_SIZE in *. Z.to_euclidean_division_equations. lia.
Qed.

(** [p] is a whole frame of a usable entry, and not frame 0. *)
Definition usable (LIMINE_MEMMAP_USABLE : Z) (e : limine_memmap_entry) p : Prop :=
  entry_type e = LIMINE_MEMMAP_USABLE /\ aligned p = true /\ p <> 0 /\ entry_base e <= p /\ p + PAGE_SIZE <= entry_base e + entry_length e.

(** A usable entry lies below the top of the address space. *)
Definition entry_ok (e : limine_memmap_entry) : Prop := 0 <= entry_base e /\ 0 <= entry_length e /\ entry_base e + entry_length e + 2 * PAGE_SIZE <= 2 ^ 64.

Lemma usable_range e p : entry_ok e -> aligned p = true ->
  page_floor (u64 (entry_base e + PAGE_SIZE - 1)) <= p < page_floor (u64 (entry_base e + entry_length e)) <-> entry_base e <= p /\ p + PAGE_SIZE <= entry_base e + entry_length e.
Proof.
  intros (Hb & Hl & Ht) Ap. unfold PAGE_SIZE in Ht.
  rewrite !u64_small by (unfold is_u64, PAGE_SIZE; lia). rewrite !page_floor_spec by (unfold is_u64, PAGE_SIZE; lia).
  rewrite aligned_spec in Ap. unfold PAGE_SIZE in *. Z.to_euclidean_division_equations. lia.
Qed.

Lemma free_entries_spec fuel USABLE entries s free : phys_ok s free -> MiTotalPageCount s = MiFreePageCount s ->
  Forall (fun e => entry_type e = USABLE -> entry_ok e /\ entry_length e / PAGE_SIZE < Z.of_nat fuel) entries ->
  ForallOrdPairs (fun e e' => forall p, usable USABLE e p -> ~ usable USABLE e' p) entries ->
  (forall e p, e ∈ entries -> usable USABLE e p -> frame_ok s p /\ p ∉ free) ->
  exists s' fresh, free_entries fuel USABLE s entries = Ok s' /\ phys_ok s' (fresh ++ free) /\ MiTotalPageCount s' = MiFreePageCount s' /\
    same_window s s' /\ forall p, p ∈ fresh <-> exists e, e ∈ entries /\ usable USABLE e p.
Proof.
  revert s free. induction entries as [|e entries IH]; intros s free P Ht Hok Hdis Hall; cbn [free_entries].
  { exists s, []. split_and!; try done. intros p. rewrite elem_of_nil. split; [done|]. intros (e & He%elem_of_nil & _). done. }
  apply Forall_cons in Hok as [He Hok]. inversion Hdis as [|? ? Hde Hdis']; subst.
  assert (Hcons : forall p, (exists e0, e0 ∈ e :: entries /\ usable USABLE e0 p) <->
    usable USABLE e p \/ exists e0, e0 ∈ entries /\ usable USABLE e0 p).
  { intros p. split; [intros (e0 & [->|]%elem_of_cons & ?); eauto|]. intros [?|(e0 & ? & ?)]; eexists; (split; [|done]); [left|by right]. }
  destruct (Z.eqb_spec (entry_type e) USABLE) as [Hu|Hu]; cbn [negb].
  2: { destruct (IH s free P Ht Hok Hdis') as (s' & fresh & E & P' & T' & W & Hfr); [by intros e0 p H0; apply (Hall e0); right|].
       exists s', fresh. split_and!; try done. intros p. rewrite Hcons, Hfr. split; [by right|]. by intros [[? _]|]. }
  destruct (He Hu) as [Hb Hfu]. destruct Hb as (Hb0 & Hl0 & Hbt). unfold PAGE_SIZE in Hbt.
  set (page := page_floor (u64 (entry_base e + PAGE_SIZE - 1))). set (end_ := page_floor (u64 (entry_base e + entry_length e))).
  assert (Hp : aligned page = true /\ entry_base e <= page < entry_base e + PAGE_SIZE).
  { subst page. rewrite u64_small by (unfold is_u64, PAGE_SIZE; lia).
    destruct (aligned_floor (entry_base e + PAGE_SIZE - 1)) as [? ?]; [unfold is_u64, PAGE_SIZE; lia|]. split; [done|]. unfold PAGE_SIZE in *. lia. }
  assert (Hend : aligned end_ = true /\ entry_base e + entry_length e - PAGE_SIZE < end_ <= entry_base e + entry_length e).
  { subst end_. rewrite u64_small by (unfold is_u64, PAGE_SIZE; lia). apply aligned_floor. unfold is_u64. lia. }
  assert (He0 : 0 <= end_).
  { destruct (decide (0 <= end_)); [done|]. destruct Hend as [A Hend]. rewrite aligned_spec in A. unfold PAGE_SIZE in *. Z.to_euclidean_division_equations. lia. }
  assert (Hrange : forall p, aligned p = true -> p <> 0 -> page <= p < end_ -> usable USABLE e p).
  { intros p A0 H0 Hr. split_and!; try done; by apply (usable_range e p). }
  destruct (free_range_spec fuel s free page end_ P Ht (proj1 Hp) (proj1 Hend)) as (s1 & fresh & E & P1 & T1 & W1 & Hfr);
    [unfold PAGE_SIZE in *; lia..| | |].
  { unfold PAGE_SIZE in *. Z.to_euclidean_division_equations. lia. }
  { intros p A0 H0 Hr. apply (Hall e p); [left|by apply Hrange]. }
  rewrite E. run. assert (Hfr' : forall p, p ∈ fresh <-> usable USABLE e p).
  { intros p. rewrite Hfr. split; [intros (?&?&?); by apply Hrange|]. intros (_ & A0 & H0 & Hr). split; [done|]. split; [done|]. by apply usable_range. }
  destruct (IH s1 (fresh ++ free) P1 T1 Hok Hdis') as (s' & fresh' & E' & P' & T' & W' & Hfresh').
  { intros e0 p H0 Hup. destruct (Hall e0 p ltac:(by right) Hup) as [F N]. split; [by apply (frame_ok_window s)|].
    rewrite elem_of_app, Hfr'. intros [Hue|]; [|done]. rewrite Forall_forall in Hde. by apply (Hde e0 H0 p). }
  exists s', (fresh' ++ fresh). rewrite <- app_assoc. split_and!; [done..| |].
  - destruct W1 as [? W1], W' as [? W']. split; [congruence|]. intros x. by rewrite W', W1.
  - intros p. rewrite elem_of_app, Hfresh', Hfr', Hcons. tauto.
Qed.


(** Writing inside frame [p], which is not free, keeps the stack. *)
Lemma phys_ok_stored s free p a v m : phys_ok s free -> frame_ok s p -> p ∉ free ->
  MiHhdmOffset s + p <= a -> a + 8 <= MiHhdmOffset s + p + PAGE_SIZE -> stored (memory s) a v m -> phys_ok (s <| memory := m |>) free.
Proof.
  intros P F Hp H1 H2 S. apply phys_ok_memory; [done|apply (st_dom _ _ _ _ S)|]. intros q Hq. apply (stored_load _ _ _ _ _ S).
  pose proof (po_frames _ _ P) as Hf. rewrite Forall_forall in Hf.
  destruct (aligned_apart p q (fr_aligned _ _ F) (fr_aligned _ _ (Hf q Hq))) as [H|H]; [by intros ->|unfold PAGE_SIZE in *; lia..].
Qed.

Lemma MiTestPhysicalAllocator_spec s a b free : phys_ok s (a :: b :: free) ->
  exists s', MiTestPhysicalAllocator s = Ok (1, s') /\ phys_ok s' (b :: a :: free).
Proof.
  intros P. unfold MiTestPhysicalAllocator.
  destruct (MiAllocatePage_spec s _ P) as (s1 & -> & P1 & E1). run. destruct (MiAllocatePage_spec s1 _ P1) as (s2 & -> & P2 & E2). run.
  destruct (proj1 (NoDup_cons _ _) (po_nodup _ _ P)) as [Na Nd]. apply NoDup_cons in Nd as [Nb _].
  rewrite not_elem_of_cons in Na. destruct Na as [Hab Na].
  pose proof (po_frames _ _ P) as Hf. apply Forall_cons in Hf as [Fa Hf]. apply Forall_cons in Hf as [Fb _].
  assert (W : same_window s s2) by (split; [by rewrite E2, E1|intros x; by rewrite E2, E1]).
  apply (frame_ok_window _ _ _ W) in Fa, Fb. clear W.
  assert (Hbefore : MiFreePageCount s = Z.of_nat (length (a :: b :: free))) by apply (po_count _ _ P). clear P P1 E1 E2 s1.
  pose proof (fr_pos _ _ Fa) as Pa. pose proof (fr_pos _ _ Fb) as Pb. pose proof (po_offset _ _ P2) as H0.
  rewrite (proj2 (Z.eqb_neq a 0)), (proj2 (Z.eqb_neq b 0)), (proj2 (Z.eqb_neq a b)) by (lia || done). run.
  rewrite frame_virtual by done. set (v := MiHhdmOffset s2 + a).
  assert (Hm : mapped (memory s2) v PAGE_SIZE) by apply (fr_mapped _ _ Fa).
  destruct (proj1 (returns_alt _ _) (store64_spec (memory s2) v 0xDEADBEEFCAFEBABE ltac:(apply (mapped_le _ _ _ _ Hm); unfold PAGE_SIZE; lia) ltac:(unfold is_u64; lia))) as (m1 & -> & S1). run.
  apply (stored_mapped _ _ _ _ _ _ S1) in Hm.
  destruct (proj1 (returns_alt _ _) (store64_spec m1 (v + 8 * 511) 0x0123456789ABCDEF ltac:(apply (mapped_sub _ _ _ _ _ Hm); unfold PAGE_SIZE; lia) ltac:(unfold is_u64; lia))) as (m2 & -> & S2). run.
  rewrite (stored_load _ _ _ _ v S2) by lia. rewrite (st_word _ _ _ _ S1), (st_word _ _ _ _ S2). run. rewrite !Z.eqb_refl. run.
  assert (P3 : phys_ok (s2 <| memory := m2 |>) free).
  { change (s2 <| memory := m2 |>) with ((s2 <| memory := m1 |>) <| memory := m2 |>).
    apply (phys_ok_stored (s2 <| memory := m1 |>) free a (v + 8 * 511) 0x0123456789ABCDEF m2); cbn; [|by apply (frame_ok_window s2); [split; [done|apply (st_dom _ _ _ _ S1)]|]|done|unfold v, PAGE_SIZE; lia..|done].
    apply (phys_ok_stored s2 free a v 0xDEADBEEFCAFEBABE m1); unfold v, PAGE_SIZE; try done; lia. }
  assert (W3 : same_window s2 (s2 <| memory := m2 |>)).
  { split; [done|]. intros x. cbn. by rewrite (st_dom _ _ _ _ S2), (st_dom _ _ _ _ S1). }
  apply (frame_ok_window _ _ _ W3) in Fa, Fb.
  destruct (MiFreePage_spec _ free a P3 Fa Na) as (s4 & -> & P4 & E4 & S4). run.
  assert (W4 : same_window (s2 <| memory := m2 |>) s4) by (split; [by rewrite E4|apply (st_dom _ _ _ _ S4)]).
  apply (frame_ok_window _ _ _ W4) in Fb.
  assert (Nb' : b ∉ a :: free) by (rewrite not_elem_of_cons; split; [by intros ->|done]).
  destruct (MiFreePage_spec s4 (a :: free) b P4 Fb Nb') as (s5 & -> & P5 & E5 & S5). run.
  destruct (MiAllocatePage_spec s5 _ P5) as (s6 & -> & P6 & E6). run. rewrite Z.eqb_refl. run.
  assert (W6 : same_window s4 s6) by (split; [by rewrite E6, E5|intros x; rewrite E6; apply (st_dom _ _ _ _ S5)]).
  apply (frame_ok_window _ _ _ W6) in Fb.
  destruct (MiFreePage_spec s6 (a :: free) b P6 Fb Nb') as (s7 & -> & P7 & E7 & S7). run.
  rewrite Hbefore, (po_count _ _ P7). rewrite Z.eqb_refl. by exists s7.
Qed.

(** C22. The frame allocator is a stack of distinct whole frames.  From the boot
    loader's map (usable entries apart, below the top of the address space and
    inside the direct map) initialisation frees exactly the frames that lie whole
    in a usable entry, frame 0 excepted, and counts them as free and as the total.
    On any stack, allocation takes the top frame and touches no memory, or answers
    0 exactly when none is left; freeing a frame not on the stack pushes it and
    writes only its first word; the counters are the size of the stack, so
    allocation answers a frame while the count is positive.  With two free frames the
    self-test passes and gives both back. *)
Theorem physical_frames_refine_stack s free USABLE fuel hhdmOffset memoryMap :
  phys_ok s free ->
  Forall (fun e => entry_type e = USABLE -> entry_ok e /\ entry_length e / PAGE_SIZE < Z.of_nat fuel) memoryMap ->
  ForallOrdPairs (fun e e' => forall p, usable USABLE e p -> ~ usable USABLE e' p) memoryMap ->
  0 <= hhdmOffset ->
  (forall e p, e ∈ memoryMap -> usable USABLE e p -> frame_ok (s <| MiHhdmOffset := hhdmOffset |>) p) ->
  (exists s' frames, MiInitializePhysicalMemory fuel USABLE s hhdmOffset memoryMap = Ok s' /\ phys_ok s' frames /\
    MiHhdmOffset s' = hhdmOffset /\
    MiGetFreePageCount s' = Z.of_nat (length frames) /\ MiGetTotalPageCount s' = Z.of_nat (length frames) /\
    forall p, p ∈ frames <-> exists e, e ∈ memoryMap /\ usable USABLE e p) /\
  match free with
  | [] => MiAllocatePage s = Ok (0, s)
  | p :: free' => exists s', MiAllocatePage s = Ok (p, s') /\ phys_ok s' free' /\ memory s' = memory s /\ p <> 0 /\ p ∉ free'
  end /\
  (forall p, frame_ok s p -> p ∉ free -> exists s', MiFreePage s p = Ok s' /\ phys_ok s' (p :: free) /\
    forall x, ~ (MiHhdmOffset s + p <= x < MiHhdmOffset s + p + 8) -> memory s' !! x = memory s !! x) /\
  (forall a b rest, free = a :: b :: rest ->
    exists s', MiTestPhysicalAllocator s = Ok (1, s') /\ phys_ok s' (b :: a :: rest)).
Proof.
  intros P Hmap Hdis Ho Hfr. split_and!.
  - destruct (free_entries_spec fuel USABLE memoryMap
      (s <| MiHhdmOffset := hhdmOffset |> <| MiFreeListHead := 0 |> <| MiFreePageCount := 0 |> <| MiTotalPageCount := 0 |>) [])
      as (s' & fresh & E & P' & T' & [W _] & Hfresh); try done.
    + split; cbn; try done; first [exact (po_drain _ _ P)|by constructor].
    + intros e p He Hu. split; [|apply not_elem_of_nil]. destruct (Hfr e p He Hu) as [? ? ? ?]. by split.
    + rewrite app_nil_r in P'. exists s', fresh. split_and!; try done; [apply (po_count _ _ P')|].
      unfold MiGetTotalPageCount. rewrite T'. apply (po_count _ _ P').
  - pose proof (MiAllocatePage_spec s free P) as H. destruct free as [|p free]; [done|]. destruct H as (s' & E & P' & Es).
    exists s'. split_and!; [done..|by rewrite Es| |].
    + pose proof (po_frames _ _ P) as Hf. apply Forall_cons in Hf as [F _]. pose proof (fr_pos _ _ F). lia.
    + by apply (proj1 (NoDup_cons _ _) (po_nodup _ _ P)).
  - intros p F Hp. destruct (MiFreePage_spec s free p P F Hp) as (s' & E & P' & _ & S). exists s'. split_and!; [done..|]. apply (st_out _ _ _ _ S).
  - intros a b rest ->. by apply MiTestPhysicalAllocator_spec.
Qed.
End frames.

(** Two frames behind a direct map at 0, and the empty stack over them. *)
Definition example_phys : phys_state :=
  mkphys 0 0 0 0 false (list_to_map ((fun i => (i, 0)) <$> seqZ 0 12288)).

Lemma physical_frames_refine_stack_witness :
  phys_ok example_phys [] /\
  exists s' frames, MiInitializePhysicalMemory 4 0 example_phys 0 [mkmemmap_entry 0 4096 1; mkmemmap_entry 100 12188 0] = Ok s' /\ phys_ok s' frames /\
    MiHhdmOffset s' = 0 /\
    MiGetFreePageCount s' = Z.of_nat (length frames) /\ MiGetTotalPageCount s' = Z.of_nat (length frames) /\
    forall p, p ∈ frames <-> exists e, e ∈ [mkmemmap_entry 0 4096 1; mkmemmap_entry 100 12188 0] /\ usable 0 e p.
Proof.
  assert (P : phys_ok example_phys []) by (split; cbn; try done; by constructor).
  split; [exact P|].
  refine (proj1 (physical_frames_refine_stack example_phys [] 0 4 0 _ P _ _ _ _)).
  - repeat constructor; cbn; try done; unfold PAGE_SIZE; lia.
  - repeat constructor. intros p [Hp _]. discriminate Hp.
  - done.
  - intros e p He (Ht & A & Hp & Hb & Hl). apply elem_of_cons in He as [->|He]; [discriminate Ht|].
    apply list_elem_of_singleton in He as ->. cbn in Hb, Hl. unfold PAGE_SIZE in *. split; cbn; [lia|done|unfold PAGE_SIZE; lia|].
    intros i Hi. unfold PAGE_SIZE in Hi. exists 0. apply elem_of_list_to_map_1.
    + rewrite <- list_fmap_compose. cbn. change (NoDup ((fun x : Z => x) <$> seqZ 0 12288)). rewrite list_fmap_id. apply NoDup_seqZ.
    + apply list_elem_of_fmap. exists (0 + p + i). split; [done|]. apply elem_of_seqZ. lia.
Defined.
