(* ===== verification/Mmu.v ===== *)
(** * Mmu: the page tables (arch/x86_64/mmu.c).

    Four-level x86-64 tables built in frames of the allocator of file Phys and
    reached through the direct map.  Table entries are the words of memory the
    code reads and writes; the flush instruction is its counter, the loads of CR3
    and of the EFER register are hardware and left out, and so is the self-test,
    which goes through the mapping it makes. *)

From S2P Require Import Prelude Bytes Memory Phys.

Definition PTE_PRESENT : Z := 1.
Definition PTE_WRITE : Z := 2.
Definition PTE_USER : Z := 4.
Definition PTE_PWT : Z := 8.
Definition PTE_PCD : Z := 16.
Definition PTE_LARGE : Z := 128.
Definition PTE_NX : Z := 2 ^ 63.
Definition PTE_ADDRESS : Z := 0x000FFFFFFFFFF000.
Definition LARGE_PAGE_SIZE : Z := 2 * 1024 * 1024.

(** [entry & FLAG], as a condition. *)
Definition has (entry flag : Z) : bool := negb (Z.land entry flag =? 0).

Record mmu_state := mkmmu {
  phys : phys_state;
  MiKernelPml4 : Z;
  MiKernelPml4IsFrozen : bool;
  MiInvlpgCount : Z;
  MiChargeFailNextTable : bool;
}.

#[export] Instance eta_mmu_state : Eta mmu_state := {| eta_expand := fun s =>
  mkmmu (phys s) (MiKernelPml4 s) (MiKernelPml4IsFrozen s) (MiInvlpgCount s) (MiChargeFailNextTable s) |}.

Definition with_memory (s : mmu_state) (m : mem) : mmu_state := s <| phys := phys s <| memory := m |> |>.

Definition read_entry (s : mmu_state) (entry : addr) : outcome Z := load64 (memory (phys s)) entry.
Definition write_entry (s : mmu_state) (entry : addr) (value : Z) : outcome mmu_state :=
  m ← store64 (memory (phys s)) entry value; Ok (with_memory s m).
Definition flush (s : mmu_state) : mmu_state := s <| MiInvlpgCount := u64 (MiInvlpgCount s + 1) |>.

Definition MiTableEntry (s : mmu_state) (tablePhysical index : Z) : addr := u64 (MiPhysicalToVirtual (phys s) tablePhysical + 8 * index).

Definition MipTryEnsureTable (s : mmu_state) (entry : addr) (tableFlags : Z) : outcome (Z * mmu_state) :=
  e ← read_entry s entry;
  if has e PTE_PRESENT then
    if has e PTE_LARGE then Panic "MiEnsureTable: 4 KiB mapping inside an existing 2 MiB page"
    else Ok (Z.land e PTE_ADDRESS, s)
  else
    '(table, p) ← MiAllocatePage (phys s);
    let s := s <| phys := p |> in
    if table =? 0 then Ok (0, s) else
    m ← memset (memory p) (MiPhysicalToVirtual p table) 0 PAGE_SIZE;
    s ← write_entry (with_memory s m) entry (Z.lor table tableFlags);
    Ok (table, s).

Definition MiEnsureTable (s : mmu_state) (entry : addr) (tableFlags : Z) : outcome (Z * mmu_state) :=
  '(table, s) ← MipTryEnsureTable s entry tableFlags;
  if table =? 0 then Panic "MiEnsureTable: out of physical pages" else Ok (table, s).

(** The index of [va] in a table of the given level, 4 for the PML4. *)
Definition table_index (level : nat) (va : Z) : Z := Z.land (Z.shiftr va (12 + 9 * (Z.of_nat level - 1))) 0x1FF.

Definition MiMapPageInternal (s : mmu_state) (virtualAddress physicalAddress flags : Z) : outcome mmu_state :=
  let pageMask := (if has flags PTE_LARGE then LARGE_PAGE_SIZE else PAGE_SIZE) - 1 in
  _ ← ASSERT (Z.land virtualAddress pageMask =? 0) "(virtualAddress & pageMask) == 0";
  _ ← ASSERT (Z.land physicalAddress pageMask =? 0) "(physicalAddress & pageMask) == 0";
  let pml4Entry := MiTableEntry s (MiKernelPml4 s) (table_index 4 virtualAddress) in
  e ← read_entry s pml4Entry;
  if MiKernelPml4IsFrozen s && negb (has e PTE_PRESENT)
  then Panic "MiMapPage: new kernel PML4 slot after the kernel half was frozen" else
  '(pdpt, s) ← MiEnsureTable s pml4Entry (Z.lor PTE_PRESENT PTE_WRITE);
  '(pd, s) ← MiEnsureTable s (MiTableEntry s pdpt (table_index 3 virtualAddress)) (Z.lor PTE_PRESENT PTE_WRITE);
  let pde := MiTableEntry s pd (table_index 2 virtualAddress) in
  if has flags PTE_LARGE then
    e ← read_entry s pde;
    if has e PTE_PRESENT then Ok s else write_entry s pde (Z.lor physicalAddress flags)
  else
    '(pt, s) ← MiEnsureTable s pde (Z.lor PTE_PRESENT PTE_WRITE);
    let pte := MiTableEntry s pt (table_index 1 virtualAddress) in
    e ← read_entry s pte;
    if has e PTE_PRESENT then Panic "MiMapPage: virtual address already mapped"
    else write_entry s pte (Z.lor physicalAddress flags).

Definition MiMapPage (s : mmu_state) (virtualAddress physicalAddress : Z) (writable : bool) : outcome mmu_state :=
  MiMapPageInternal s virtualAddress physicalAddress
    (Z.lor (Z.lor PTE_PRESENT PTE_NX) (if writable then PTE_WRITE else 0)).

Definition MiMapDevicePage (s : mmu_state) (virtualAddress physicalAddress : Z) : outcome mmu_state :=
  MiMapPageInternal s virtualAddress physicalAddress
    (Z.lor (Z.lor (Z.lor (Z.lor PTE_PRESENT PTE_WRITE) PTE_NX) PTE_PCD) PTE_PWT).

(** The live entry and [*largePage], or address 0. *)
Definition MiFindEntry (s : mmu_state) (virtualAddress : Z) : outcome (addr * bool) :=
  e ← read_entry s (MiTableEntry s (MiKernelPml4 s) (table_index 4 virtualAddress));
  if negb (has e PTE_PRESENT) then Ok (0, false) else
  e ← read_entry s (MiTableEntry s (Z.land e PTE_ADDRESS) (table_index 3 virtualAddress));
  if negb (has e PTE_PRESENT) then Ok (0, false) else
  let entry := MiTableEntry s (Z.land e PTE_ADDRESS) (table_index 2 virtualAddress) in
  e ← read_entry s entry;
  if negb (has e PTE_PRESENT) then Ok (0, false) else
  if has e PTE_LARGE then Ok (entry, true) else
  let entry := MiTableEntry s (Z.land e PTE_ADDRESS) (table_index 1 virtualAddress) in
  e ← read_entry s entry;
  if negb (has e PTE_PRESENT) then Ok (0, false) else Ok (entry, false).

Definition MiUnmapPage (s : mmu_state) (virtualAddress : Z) : outcome mmu_state :=
  '(entry, largePage) ← MiFindEntry s virtualAddress;
  if (entry =? 0) || largePage then Panic "MiUnmapPage: address not mapped as a 4 KiB page" else
  s ← write_entry s entry 0;
  Ok (flush s).

Definition MiVirtualToPhysical (s : mmu_state) (virtualAddress : Z) : outcome Z :=
  '(entry, largePage) ← MiFindEntry s virtualAddress;
  if entry =? 0 then Ok 0 else
  e ← read_entry s entry;
  if (largePage : bool)
  then Ok (Z.land (Z.land e PTE_ADDRESS) (2 ^ 64 - LARGE_PAGE_SIZE) + Z.land virtualAddress (LARGE_PAGE_SIZE - 1))
  else Ok (Z.land e PTE_ADDRESS + Z.land virtualAddress (PAGE_SIZE - 1)).

(** ** Boot *)

Fixpoint map_image (fuel : nat) (s : mmu_state) (virt imageEnd kernelPhysicalBase kernelVirtualBase : Z) : outcome mmu_state :=
  match fuel with
  | O => OutOfFuel
  | S fuel' =>
      if virt <? imageEnd then
        s ← MiMapPageInternal s virt (u64 (kernelPhysicalBase + (virt - kernelVirtualBase))) (Z.lor PTE_PRESENT PTE_WRITE);
        map_image fuel' s (u64 (virt + PAGE_SIZE)) imageEnd kernelPhysicalBase kernelVirtualBase
      else Ok s
  end.

Fixpoint map_region (fuel : nat) (s : mmu_state) (hhdmOffset physical end_ : Z) : outcome mmu_state :=
  match fuel with
  | O => OutOfFuel
  | S fuel' =>
      if physical <? end_ then
        s ← MiMapPageInternal s (u64 (hhdmOffset + physical)) physical (Z.lor (Z.lor (Z.lor PTE_PRESENT PTE_WRITE) PTE_LARGE) PTE_NX);
        map_region fuel' s hhdmOffset (u64 (physical + LARGE_PAGE_SIZE)) end_
      else Ok s
  end.

Fixpoint map_regions (fuel : nat) (s : mmu_state) (hhdmOffset : Z) (entries : list limine_memmap_entry) : outcome mmu_state :=
  match entries with
  | [] => Ok s
  | entry :: entries' =>
      s ← map_region fuel s hhdmOffset (Z.land (entry_base entry) (2 ^ 64 - LARGE_PAGE_SIZE)) (u64 (entry_base entry + entry_length entry));
      map_regions fuel s hhdmOffset entries'
  end.

Definition MiInitializeVirtualMemory (fuel : nat) (s : mmu_state) (KiImageEnd kernelPhysicalBase kernelVirtualBase : Z)
    (memoryMap : list limine_memmap_entry) : outcome mmu_state :=
  '(pml4, p) ← MiAllocatePage (phys s);
  let s := s <| phys := p |> <| MiKernelPml4 := pml4 |> in
  if pml4 =? 0 then Panic "MiInitializeVirtualMemory: out of physical pages" else
  m ← memset (memory p) (MiPhysicalToVirtual p pml4) 0 PAGE_SIZE;
  s ← map_image fuel (with_memory s m) kernelVirtualBase KiImageEnd kernelPhysicalBase kernelVirtualBase;
  map_regions fuel s (MiPhysicalToVirtual (phys s) 0) memoryMap.

(** ** Address spaces of processes *)

Definition MiGetKernelPml4 (s : mmu_state) : Z := MiKernelPml4 s.
Definition MiFreezeKernelPml4 (s : mmu_state) : mmu_state := s <| MiKernelPml4IsFrozen := true |>.

Definition MiCreateUserPml4 (s : mmu_state) : outcome (Z * mmu_state) :=
  _ ← ASSERT (MiKernelPml4IsFrozen s) "MiKernelPml4IsFrozen";
  '(pml4, p) ← MiAllocatePage (phys s);
  let s := s <| phys := p |> in
  if pml4 =? 0 then Ok (0, s) else
  let table := MiPhysicalToVirtual p pml4 in
  let kernelTable := MiPhysicalToVirtual p (MiKernelPml4 s) in
  m ← memset (memory p) table 0 (PAGE_SIZE / 2);
  m ← memcpy m (table + 8 * 256) (kernelTable + 8 * 256) (PAGE_SIZE / 2);
  Ok (pml4, with_memory s m).

(** [for (index = ...)] over [indices]. *)
Fixpoint for_each (indices : list Z) (body : mmu_state -> Z -> outcome mmu_state) (s : mmu_state) : outcome mmu_state :=
  match indices with
  | [] => Ok s
  | index :: indices' => s ← body s index; for_each indices' body s
  end.

Definition free_page (s : mmu_state) (page : Z) : outcome mmu_state := p ← MiFreePage (phys s) page; Ok (s <| phys := p |>).

Fixpoint MipFreeTableTree (level : nat) (s : mmu_state) (tablePhysical : Z) : outcome mmu_state :=
  let table := MiPhysicalToVirtual (phys s) tablePhysical in
  s ← match level with
      | S (S _ as level') =>
          for_each (seqZ 0 512) (fun s index =>
            e ← read_entry s (table + 8 * index);
            if has e PTE_PRESENT then
              _ ← ASSERT (Z.land e PTE_LARGE =? 0) "(table[index] & PTE_LARGE) == 0";
              MipFreeTableTree level' s (Z.land e PTE_ADDRESS)
            else Ok s) s
      | _ =>
          for_each (seqZ 0 512) (fun s index =>
            e ← read_entry s (table + 8 * index);
            _ ← ASSERT (e =? 0) "table[index] == 0";
            Ok s) s
      end;
  free_page s tablePhysical.

Definition MiDeleteUserPml4 (s : mmu_state) (pml4Physical : Z) : outcome mmu_state :=
  _ ← ASSERT (negb (pml4Physical =? MiKernelPml4 s)) "pml4Physical != MiKernelPml4";
  let table := MiPhysicalToVirtual (phys s) pml4Physical in
  s ← for_each (seqZ 0 256) (fun s index =>
        e ← read_entry s (table + 8 * index);
        if has e PTE_PRESENT then MipFreeTableTree 3 s (Z.land e PTE_ADDRESS) else Ok s) s;
  free_page s pml4Physical.

Definition MipChargeTable (s : mmu_state) (entry : addr) (tableFlags : Z) : outcome (Z * mmu_state) :=
  e ← read_entry s entry;
  if negb (has e PTE_PRESENT) && MiChargeFailNextTable s then Ok (0, s <| MiChargeFailNextTable := false |>)
  else MipTryEnsureTable s entry tableFlags.

Definition user_flags : Z := Z.lor (Z.lor PTE_PRESENT PTE_WRITE) PTE_USER.

(** The three tables one address needs: 0 when one is refused. *)
Definition charge_address (s : mmu_state) (pml4Physical address : Z) : outcome (Z * mmu_state) :=
  '(pdpt, s) ← MipChargeTable s (MiTableEntry s pml4Physical (table_index 4 address)) user_flags;
  if pdpt =? 0 then Ok (0, s) else
  '(pd, s) ← MipChargeTable s (MiTableEntry s pdpt (table_index 3 address)) user_flags;
  if pd =? 0 then Ok (0, s) else
  '(pt, s) ← MipChargeTable s (MiTableEntry s pd (table_index 2 address)) user_flags;
  if pt =? 0 then Ok (0, s) else Ok (1, s).

Fixpoint charge_range (fuel : nat) (s : mmu_state) (pml4Physical address end_ : Z) : outcome (Z * mmu_state) :=
  match fuel with
  | O => OutOfFuel
  | S fuel' =>
      if address <? end_ then
        _ ← ASSERT (address <? 2 ^ 47) "address < (1ULL << 47)";
        '(charged, s) ← charge_address s pml4Physical address;
        if charged =? 0 then Ok (0, s) else
        charge_range fuel' s pml4Physical (u64 (Z.land address (2 ^ 64 - LARGE_PAGE_SIZE) + LARGE_PAGE_SIZE)) end_
      else Ok (1, s)
  end.

Definition MiChargeUserTables (fuel : nat) (s : mmu_state) (pml4Physical virtualAddress size : Z) : outcome (Z * mmu_state) :=
  _ ← ASSERT (aligned virtualAddress) "(virtualAddress & (PAGE_SIZE - 1)) == 0";
  charge_range fuel s pml4Physical virtualAddress (u64 (virtualAddress + size)).

(** The entry MiMapUserPage writes. *)
Definition user_entry (physicalAddress : Z) (present writable executable : bool) : Z :=
  let entry := Z.lor physicalAddress PTE_USER in
  let entry := if present then Z.lor entry PTE_PRESENT else entry in
  let entry := if writable then Z.lor entry PTE_WRITE else entry in
  if negb executable then Z.lor entry PTE_NX else entry.

Definition MiMapUserPage (s : mmu_state) (pml4Physical virtualAddress physicalAddress : Z)
    (present writable executable : bool) : outcome mmu_state :=
  _ ← ASSERT (aligned virtualAddress) "(virtualAddress & (PAGE_SIZE - 1)) == 0";
  _ ← ASSERT (aligned physicalAddress) "(physicalAddress & (PAGE_SIZE - 1)) == 0";
  _ ← ASSERT (virtualAddress <? 2 ^ 47) "virtualAddress < (1ULL << 47)";
  '(pdpt, s) ← MiEnsureTable s (MiTableEntry s pml4Physical (table_index 4 virtualAddress)) user_flags;
  '(pd, s) ← MiEnsureTable s (MiTableEntry s pdpt (table_index 3 virtualAddress)) user_flags;
  '(pt, s) ← MiEnsureTable s (MiTableEntry s pd (table_index 2 virtualAddress)) user_flags;
  let pte := MiTableEntry s pt (table_index 1 virtualAddress) in
  e ← read_entry s pte;
  if negb (e =? 0) then Panic "MiMapUserPage: user address already mapped" else
  s ← write_entry s pte (user_entry physicalAddress present writable executable);
  Ok (flush s).

Definition MipFindUserEntry (s : mmu_state) (pml4Physical virtualAddress : Z) : outcome addr :=
  e ← read_entry s (MiTableEntry s pml4Physical (table_index 4 virtualAddress));
  if negb (has e PTE_PRESENT) then Ok 0 else
  e ← read_entry s (MiTableEntry s (Z.land e PTE_ADDRESS) (table_index 3 virtualAddress));
  if negb (has e PTE_PRESENT) then Ok 0 else
  e ← read_entry s (MiTableEntry s (Z.land e PTE_ADDRESS) (table_index 2 virtualAddress));
  if negb (has e PTE_PRESENT) then Ok 0 else
  Ok (MiTableEntry s (Z.land e PTE_ADDRESS) (table_index 1 virtualAddress)).

Definition MiUnmapUserPage (s : mmu_state) (pml4Physical virtualAddress : Z) : outcome mmu_state :=
  pte ← MipFindUserEntry s pml4Physical virtualAddress;
  e ← (if pte =? 0 then Ok 0 else read_entry s pte);
  if e =? 0 then Panic "MiUnmapUserPage: user address not mapped" else
  s ← write_entry s pte 0;
  Ok (flush s).

(** The frame, [*writable] and [*present]. *)
Definition MiTranslateUserPage (s : mmu_state) (pml4Physical virtualAddress : Z) : outcome (Z * bool * bool) :=
  pte ← MipFindUserEntry s pml4Physical virtualAddress;
  e ← (if pte =? 0 then Ok 0 else read_entry s pte);
  if e =? 0 then Ok (0, false, false) else
  Ok (Z.land e PTE_ADDRESS, has e PTE_WRITE, has e PTE_PRESENT).

(** ** Address arithmetic *)

Section arithmetic.
Implicit Types (va p e c : Z) (l : nat).

(** What the tables above level [l] have resolved of an address: the prefix that
    names a table of level [l]. *)
Definition prefix l va : Z := (va mod 2 ^ 48) / 2 ^ (12 + 9 * Z.of_nat l).

Lemma prefix_step l va : (l <= 3)%nat -> prefix l va = prefix (S l) va * 512 + table_index (S l) va.
Proof.
  intros Hl. unfold prefix, table_index. change 0x1FF with (Z.ones 9). rewrite Z.land_ones, Z.shiftr_div_pow2 by lia.
  do 4 (destruct l as [|l]; [cbn; Z.to_euclidean_division_equations; lia|]). lia.
Qed.

Lemma prefix_top va : prefix 4 va = 0.
Proof. unfold prefix. cbn. apply Z.div_small. apply Z.mod_pos_bound. lia. Qed.

Lemma table_index_bounds l va : 0 <= table_index l va < 512.
Proof. unfold table_index. change 0x1FF with (Z.ones 9). rewrite Z.land_ones by lia. apply Z.mod_pos_bound. lia. Qed.

Lemma prefix_split p i p' i' : 0 <= i < 512 -> 0 <= i' < 512 -> p * 512 + i = p' * 512 + i' -> p = p' /\ i = i'.
Proof. intros. lia. Qed.

(** Two page addresses resolve alike exactly when they are the same page. *)
Lemma prefix_0 va va' : 0 <= va < 2 ^ 48 -> 0 <= va' < 2 ^ 48 -> prefix 0 va = prefix 0 va' <-> va / PAGE_SIZE = va' / PAGE_SIZE.
Proof. intros H H'. unfold prefix. by rewrite !Z.mod_small by done. Qed.

Lemma aligned_low p c : aligned p = true -> 0 <= c < PAGE_SIZE -> Z.land p c = 0.
Proof.
  intros Ap Hc. unfold aligned in Ap. apply Z.eqb_eq in Ap. change (PAGE_SIZE - 1) with (Z.ones 12) in Ap.
  replace c with (Z.land (Z.ones 12) c); [by rewrite Z.land_assoc, Ap|]. rewrite Z.land_comm, Z.land_ones by lia.
  apply Z.mod_small. done.
Qed.

Lemma aligned_address p : aligned p = true -> 0 <= p < 2 ^ 52 -> Z.land p PTE_ADDRESS = p.
Proof.
  rewrite aligned_spec. unfold PAGE_SIZE. intros Ap Hp. change PTE_ADDRESS with (Z.shiftl (Z.ones 40) 12).
  replace p with (Z.shiftl (p / 4096) 12) by (rewrite Z.shiftl_mul_pow2 by lia; Z.to_euclidean_division_equations; lia).
  rewrite <- Z.shiftl_land, Z.land_ones by lia. f_equal. apply Z.mod_small. Z.to_euclidean_division_equations; lia.
Qed.

(** The flags of an entry that leads to a lower table. *)
Record table_flags rights c : Prop := {
  tf_range : 0 <= c < PAGE_SIZE;
  tf_present : has c PTE_PRESENT = true;
  tf_large : has c PTE_LARGE = false;
  tf_rights : Z.land c rights = rights;
}.

Lemma table_entry rights p c : aligned p = true -> 0 <= p < 2 ^ 52 -> table_flags rights c ->
  Z.land (Z.lor p c) rights = rights /\
  has (Z.lor p c) PTE_PRESENT = true /\ has (Z.lor p c) PTE_LARGE = false /\ Z.land (Z.lor p c) PTE_ADDRESS = p /\ is_u64 (Z.lor p c).
Proof.
  intros Ap Hp [Fr Fp Fl Frt].
  split.
  { rewrite Z.land_lor_distr_l, Frt. apply Z.bits_inj'. intros k _. rewrite Z.lor_spec, Z.land_spec.
    by destruct (Z.testbit p k), (Z.testbit rights k). }
  unfold has in *. rewrite !Z.land_lor_distr_l, !(aligned_low p) by (done || (unfold PTE_PRESENT, PTE_LARGE, PAGE_SIZE; lia)).
  rewrite !Z.lor_0_l. split_and!; [done|done| |].
  - rewrite aligned_address by done. rewrite (Z.land_comm c), aligned_low by done. apply Z.lor_0_r.
  - unfold PAGE_SIZE in Fr. split; [apply Z.lor_nonneg; lia|]. destruct (decide (Z.lor p c = 0)) as [->|]; [lia|].
    apply Z.log2_lt_pow2; [pose proof (proj2 (Z.lor_nonneg p c)); lia|]. rewrite Z.log2_lor by lia. apply Z.max_lub_lt.
    + destruct (decide (p = 0)) as [->|]; [done|]. apply Z.log2_lt_pow2; lia.
    + destruct (decide (c = 0)) as [->|]; [done|]. apply Z.log2_lt_pow2; lia.
Qed.

Lemma has_0 c : has 0 c = false.
Proof. done. Qed.
End arithmetic.

(** ** A tree of tables *)

Section space.
Implicit Types (s : mmu_state) (t p i e va f : Z) (l : nat) (free : list Z) (tables : gmap (nat * Z) Z).
(** [region]: the top-level slots the tree owns; [large]: whether 2 MiB pages may
    occur; [rights]: what every entry that leads to a table grants. *)
Variables (region : Z -> Prop) (large : bool) (rights : Z).

Definition slot s t i : addr := MiHhdmOffset (phys s) + t + 8 * i.
Definition word s t i : outcome Z := load64 (memory (phys s)) (slot s t i).

(** The tables of one address space by level and prefix, from the PML4 [root] on:
    distinct frames, none of them free, each reached by the entry of its parent,
    which grants [rights], and every present entry leading to a table (or a 2 MiB page). *)
Record space s tables root free : Prop := {
  sp_phys : phys_ok (phys s) free;
  sp_low : Forall (fun f => f < 2 ^ 52) free;
  sp_root : tables !! (4%nat, 0) = Some root;
  sp_level : forall l p t, tables !! (l, p) = Some t -> (1 <= l <= 4)%nat;
  sp_inj : forall k k' t, tables !! k = Some t -> tables !! k' = Some t -> k = k';
  sp_frame : forall k t, tables !! k = Some t -> frame_ok (phys s) t /\ t < 2 ^ 52 /\ t ∉ free;
  sp_entry : forall l p t i e, tables !! (S (S l), p) = Some t -> 0 <= i < 512 -> (l = 2%nat -> region i) ->
    word s t i = Ok e -> has e PTE_PRESENT = true ->
    (large = true /\ l = 0%nat /\ has e PTE_LARGE = true /\ tables !! (S l, p * 512 + i) = None) \/
    (has e PTE_LARGE = false /\ tables !! (S l, p * 512 + i) = Some (Z.land e PTE_ADDRESS));
  sp_parent : forall l p t, tables !! (S l, p) = Some t -> (l < 3)%nat -> exists t' e,
    tables !! (S (S l), p / 512) = Some t' /\ (l = 2%nat -> region (p mod 512)) /\ word s t' (p mod 512) = Ok e /\ has e PTE_PRESENT = true /\
    Z.land e rights = rights;
}.

(** What an address resolves to: the entry that maps it, and whether that is a
    2 MiB page; entry 0 when a table is missing. *)
Definition leaf_of s tables va : outcome (Z * bool) :=
  match tables !! (1%nat, prefix 1 va) with
  | Some t => e ← word s t (table_index 1 va); Ok (e, false)
  | None =>
      match tables !! (2%nat, prefix 2 va) with
      | Some t => e ← word s t (table_index 2 va); Ok (if has e PTE_PRESENT then (e, true) else (0, false))
      | None => Ok (0, false)
      end
  end.

Lemma entry_slot s t i : 0 <= MiHhdmOffset (phys s) -> frame_ok (phys s) t -> 0 <= i < 512 ->
  MiTableEntry s t i = slot s t i /\ mapped (memory (phys s)) (slot s t i) 8 /\ slot s t i <> 0.
Proof.
  intros H0 F Hi. pose proof (fr_pos _ _ F). pose proof (fr_top _ _ F). unfold PAGE_SIZE in *. split_and!.
  - unfold MiTableEntry, MiPhysicalToVirtual, slot. rewrite (u64_small (MiHhdmOffset (phys s) + t)) by (unfold is_u64; lia).
    apply u64_small. unfold is_u64. lia.
  - apply (mapped_sub _ _ _ _ _ (fr_mapped _ _ F)); unfold slot, PAGE_SIZE; lia.
  - unfold slot. lia.
Qed.

Lemma slot_apart s t t' i i' : frame_ok (phys s) t -> frame_ok (phys s) t' -> 0 <= i < 512 -> 0 <= i' < 512 ->
  (t, i) <> (t', i') -> slot s t i + 8 <= slot s t' i' \/ slot s t' i' + 8 <= slot s t i.
Proof.
  intros F F' Hi Hi' Hne. unfold slot. destruct (decide (t = t')) as [->|Ht].
  - assert (i <> i') by congruence. lia.
  - destruct (aligned_apart t t' (fr_aligned _ _ F) (fr_aligned _ _ F') Ht) as [H|H]; unfold PAGE_SIZE in H; lia.
Qed.

Lemma space_word s tables root free k t i : space s tables root free -> tables !! k = Some t -> 0 <= i < 512 ->
  exists e, word s t i = Ok e.
Proof.
  intros [P _ _ _ _ Hf _ _] Ht Hi. destruct (Hf k t Ht) as (F & _). apply load64_mapped.
  by apply (entry_slot s t i (po_offset _ _ P) F Hi).
Qed.

(** Everything but frames and their contents is as before. *)
Record shape s s' : Prop := {
  sh_window : same_window (phys s) (phys s');
  sh_pml4 : MiKernelPml4 s' = MiKernelPml4 s;
  sh_frozen : MiKernelPml4IsFrozen s' = MiKernelPml4IsFrozen s;
  sh_knob : MiChargeFailNextTable s' = MiChargeFailNextTable s;
}.

Lemma shape_refl s : shape s s.
Proof. by split; [split|..]. Qed.

Lemma shape_trans s1 s2 s3 : shape s1 s2 -> shape s2 s3 -> shape s1 s3.
Proof.
  intros [[O1 D1] A1 B1 C1] [[O2 D2] A2 B2 C2]. split; [split; [congruence|]|congruence..]. intros x. by rewrite D2.
Qed.

(** No byte outside the tables is written. *)
Definition outside s s' tables : Prop := forall x,
  (forall k t, tables !! k = Some t -> ~ (MiHhdmOffset (phys s) + t <= x < MiHhdmOffset (phys s) + t + PAGE_SIZE)) ->
  memory (phys s') !! x = memory (phys s) !! x.

Definition in_region va : Prop := region (table_index 4 va).

(** The tree grown by the tables an operation needed. *)
Record extends s tables free s' tables' free' : Prop := {
  ex_tables : tables ⊆ tables';
  ex_shape : shape s s';
  ex_leaf : forall va, in_region va -> leaf_of s' tables' va = leaf_of s tables va;
  ex_out : outside s s' tables';
  ex_free : exists taken, free = taken ++ free';
  ex_flush : MiInvlpgCount s' = MiInvlpgCount s;
}.

Lemma extends_refl s tables free : extends s tables free s tables free.
Proof. split; [done|apply shape_refl|done|done|by exists []|done]. Qed.

Lemma extends_trans s1 tables1 free1 s2 tables2 free2 s3 tables3 free3 : extends s1 tables1 free1 s2 tables2 free2 ->
  extends s2 tables2 free2 s3 tables3 free3 -> extends s1 tables1 free1 s3 tables3 free3.
Proof.
  intros [T1 S1 L1 O1 [k1 F1] I1] [T2 S2 L2 O2 [k2 F2] I2]. split.
  - by transitivity tables2.
  - by apply (shape_trans s1 s2).
  - intros va Hva. by rewrite L2, L1.
  - intros x Hx. rewrite O2.
    + apply O1. intros k t Hk. apply (Hx k t). by apply (lookup_weaken _ _ _ _ Hk).
    + intros k t Hk. rewrite (proj1 (sh_window _ _ S1)). by apply (Hx k t).
  - exists (k1 ++ k2). by rewrite F1, F2, app_assoc.
  - congruence.
Qed.

(** An entry that is not present leads to no table. *)
Lemma absent_table s tables root free l p t i e : space s tables root free -> tables !! (S (S l), p) = Some t -> 0 <= i < 512 ->
  word s t i = Ok e -> has e PTE_PRESENT = false -> tables !! (S l, p * 512 + i) = None.
Proof.
  intros SP Ht Hi He Hnp.
  destruct (tables !! (S l, p * 512 + i)) as [c|] eqn:E; [|done].
  pose proof (sp_level _ _ _ _ SP _ _ _ Ht) as Hl.
  destruct (sp_parent _ _ _ _ SP l _ c E ltac:(lia)) as (t' & e' & Ht' & _ & He' & Hp' & _).
  assert (Hq : (p * 512 + i) / 512 = p /\ (p * 512 + i) mod 512 = i) by (Z.to_euclidean_division_equations; lia).
  destruct Hq as [Hq1 Hq2]. rewrite Hq1 in Ht'. rewrite Hq2 in He'. congruence.
Qed.

(** A fresh frame [f], zeroed, entered in the absent slot [i] of table [t]. *)
Section grown.
Variables (s : mmu_state) (tables : gmap (nat * Z) Z) (root f : Z) (free : list Z) (l : nat) (p t i flags : Z).
Hypothesis SP : space s tables root (f :: free).
Hypothesis Ht : tables !! (S (S l), p) = Some t.
Hypothesis Hi : 0 <= i < 512.
Hypothesis Hreg : l = 2%nat -> region i.
Hypothesis Hfl : table_flags rights flags.
Variable e : Z.
Hypothesis He : word s t i = Ok e.
Hypothesis Hnp : has e PTE_PRESENT = false.

Variables (s1 s' : mmu_state).
Hypothesis Hs1 : phys_ok (phys s1) free.
Hypothesis Hsh1 : shape s s1.
Hypothesis Hm1 : memory (phys s1) = memory (phys s).
Variables (m m' : mem).
Hypothesis Hz : written (memory (phys s1)) (MiHhdmOffset (phys s) + f) PAGE_SIZE (fun _ => Some 0) m.
Hypothesis Hst : stored m (slot s t i) (Z.lor f flags) m'.
Hypothesis Hs' : s' = with_memory s1 m'.
Hypothesis Hfl1 : MiInvlpgCount s1 = MiInvlpgCount s.

Let tables' := <[(S l, p * 512 + i) := f]> tables.

Lemma grown_frame : frame_ok (phys s) f /\ f < 2 ^ 52 /\ (f ∉ free) /\ (forall k, tables !! k <> Some f).
Proof.
  pose proof (po_frames _ _ (sp_phys _ _ _ _ SP)) as Hf. apply Forall_cons in Hf as [F _].
  pose proof (sp_low _ _ _ _ SP) as Hlow. apply Forall_cons in Hlow as [Hlow _].
  pose proof (po_nodup _ _ (sp_phys _ _ _ _ SP)) as Hnd. apply NoDup_cons in Hnd as [Hnd _].
  split_and!; [done..|]. intros k Hk. destruct (sp_frame _ _ _ _ SP k f Hk) as (_ & _ & Hnf). apply Hnf. left.
Qed.

Lemma grown_offset : MiHhdmOffset (phys s') = MiHhdmOffset (phys s).
Proof. rewrite Hs'. cbn. apply (proj1 (sh_window _ _ Hsh1)). Qed.

Lemma grown_memory : memory (phys s') = m'.
Proof. by rewrite Hs'. Qed.

Lemma grown_dom x : is_Some (m' !! x) <-> is_Some (memory (phys s) !! x).
Proof.
  rewrite (st_dom _ _ _ _ Hst). destruct grown_frame as (F & _).
  rewrite (written_dom (memory (phys s1)) (MiHhdmOffset (phys s) + f) PAGE_SIZE (fun _ => Some 0) m x); [by rewrite Hm1|rewrite Hm1; apply (fr_mapped _ _ F)|done|exact Hz].
Qed.

(** A word of another frame, other than the entry written. *)
Lemma grown_other q j : frame_ok (phys s) q -> 0 <= j < 512 -> q <> f -> (q, j) <> (t, i) -> word s' q j = word s q j.
Proof.
  intros Fq Hj Hq Hne. unfold word, slot. rewrite grown_offset, grown_memory.
  destruct grown_frame as (F & _). destruct (sp_frame _ _ _ _ SP _ _ Ht) as (Ft & _).
  rewrite (stored_load _ _ _ _ _ Hst) by (by apply slot_apart).
  apply load64_ext. intros x Hx. rewrite <- Hm1. apply (wr_out _ _ _ _ _ Hz).
  destruct (aligned_apart q f (fr_aligned _ _ Fq) (fr_aligned _ _ F) Hq); unfold PAGE_SIZE in *; lia.
Qed.

Lemma grown_new j : 0 <= j < 512 -> word s' f j = Ok 0.
Proof.
  intros Hj. unfold word, slot. rewrite grown_offset, grown_memory.
  destruct grown_frame as (F & _ & _ & Hnt). destruct (sp_frame _ _ _ _ SP _ _ Ht) as (Ft & _).
  rewrite (stored_load _ _ _ _ _ Hst).
  - apply (filled_word _ _ _ _ _ Hz); unfold PAGE_SIZE; lia.
  - assert (f <> t) by (intros ->; by apply (Hnt _ Ht)).
    destruct (aligned_apart f t (fr_aligned _ _ F) (fr_aligned _ _ Ft)); [done|unfold slot, PAGE_SIZE in *; lia..].
Qed.

Lemma grown_entry : word s' t i = Ok (Z.lor f flags).
Proof. unfold word. unfold slot. rewrite grown_offset, grown_memory. apply (st_word _ _ _ _ Hst). Qed.

Lemma grown_same k q j : tables !! k = Some q -> 0 <= j < 512 -> (k, j) <> ((S (S l), p), i) -> word s' q j = word s q j.
Proof.
  intros Hk Hj Hne. destruct grown_frame as (_ & _ & _ & Hnt). destruct (sp_frame _ _ _ _ SP _ _ Hk) as (Fq & _).
  apply grown_other; [done..|by intros ->; apply (Hnt k)|]. intros [= -> ->]. apply Hne. f_equal.
  apply (sp_inj _ _ _ _ SP _ _ t Hk Ht).
Qed.

Lemma grown_space : space s' tables' root free.
Proof.
  destruct grown_frame as (F & Hlow & Hnf & Hnt). pose proof (absent_table s tables root (f :: free) l p t i e SP Ht Hi He Hnp) as Habs.
  assert (Hl : (S (S l) <= 4)%nat) by apply (sp_level _ _ _ _ SP _ _ _ Ht).
  assert (Hwin : same_window (phys s) (phys s')) by (split; [apply grown_offset|rewrite grown_memory; apply grown_dom]).
  assert (Hfr : forall k q, tables' !! k = Some q -> (k = (S l, p * 512 + i) /\ q = f) \/ (k <> (S l, p * 512 + i) /\ tables !! k = Some q))
    by (intros k q; unfold tables'; rewrite lookup_insert_Some; intuition congruence).
  assert (Hup : forall k q, tables !! k = Some q -> tables' !! k = Some q).
  { intros k q Hk. unfold tables'. rewrite lookup_insert_ne; [done|]. intros <-. congruence. }
  split.
  - rewrite Hs'. apply phys_ok_memory; [done|intros x; rewrite Hm1; apply grown_dom|]. intros q Hq.
    rewrite Hm1, (proj1 (sh_window _ _ Hsh1)).
    pose proof (po_frames _ _ (sp_phys _ _ _ _ SP)) as Hff. apply Forall_cons in Hff as [_ Hff]. rewrite Forall_forall in Hff.
    pose proof (grown_other q 0 (Hff q Hq) ltac:(lia)) as Ho. unfold word, slot in Ho. rewrite grown_offset, grown_memory, Z.mul_0_r, Z.add_0_r in Ho.
    apply Ho; [by intros ->|]. intros [= -> _]. destruct (sp_frame _ _ _ _ SP _ _ Ht) as (_ & _ & Hn). apply Hn. by right.
  - pose proof (sp_low _ _ _ _ SP) as H. by apply Forall_cons in H as [_ H].
  - apply Hup, (sp_root _ _ _ _ SP).
  - intros l0 p0 q [[[= -> ->] ->]|[_ Hk]]%Hfr; [lia|]. by apply (sp_level _ _ _ _ SP _ _ _ Hk).
  - intros k k' q [[-> ->]|[_ Hk]]%Hfr [[-> Hq]|[_ Hk']]%Hfr; [done|by apply Hnt in Hk'|subst q; by apply Hnt in Hk|].
    by apply (sp_inj _ _ _ _ SP k k' q).
  - intros k q [[-> ->]|[_ Hk]]%Hfr; [split; [by apply (frame_ok_window (phys s))|done]|].
    destruct (sp_frame _ _ _ _ SP k q Hk) as (F1 & F2 & F3). split_and!; [by apply (frame_ok_window (phys s))|done|].
    intros H. apply F3. by right.
  - intros l0 p0 q j e0 Hk Hj Hr He0 Hp0. apply Hfr in Hk as [[_ ->]|[_ Hk]].
    { rewrite grown_new in He0 by done. injection He0 as <-. discriminate Hp0. }
    destruct (decide ((S (S l0), p0, j) = (S (S l), p, i))) as [[= -> -> ->]|Hne].
    + assert (q = t) as -> by congruence. rewrite grown_entry in He0. injection He0 as <-.
      destruct (table_entry rights f flags (fr_aligned _ _ F) ltac:(pose proof (fr_pos _ _ F); lia) Hfl) as (_ & _ & Hlg & Had & _).
      right. split; [done|]. rewrite Had. unfold tables'. by rewrite lookup_insert_eq.
    + rewrite (grown_same _ _ _ Hk Hj Hne) in He0.
      destruct (sp_entry _ _ _ _ SP l0 p0 q j e0 Hk Hj Hr He0 Hp0) as [(H1 & H2 & H3 & H4)|[H1 H2]]; [left|right; split; [done|by apply Hup]].
      split_and!; [done..|]. unfold tables'. rewrite lookup_insert_ne; [done|]. intros [= <- Heq].
      apply prefix_split in Heq as [-> ->]; [|done..]. by apply Hne.
  - intros l0 p0 q Hk Hl0. apply Hfr in Hk as [[[= -> ->] ->]|[Hk0 Hk]].
    + assert (Hq : (p * 512 + i) / 512 = p /\ (p * 512 + i) mod 512 = i) by (Z.to_euclidean_division_equations; lia).
      destruct Hq as [-> ->]. exists t, (Z.lor f flags). split_and!; [by apply Hup|done|apply grown_entry| |];
      by apply (table_entry rights); [apply (fr_aligned _ _ F)|pose proof (fr_pos _ _ F); lia|].
    + destruct (sp_parent _ _ _ _ SP l0 p0 q Hk Hl0) as (t' & e' & Ht' & Hr' & He' & Hp' & Hrt'). exists t', e'.
      split_and!; [by apply Hup|done| |done|done]. rewrite (grown_same _ _ _ Ht'); [done|apply Z.mod_pos_bound; lia|].
      intros [= -> Hdiv Hmod]. apply Hk0. f_equal. rewrite <- Hdiv, <- Hmod. Z.to_euclidean_division_equations; lia.
Qed.

Lemma grown_leaf va : in_region va -> leaf_of s' tables' va = leaf_of s tables va.
Proof.
  intros Hva. pose proof (absent_table s tables root (f :: free) l p t i e SP Ht Hi He Hnp) as Habs. unfold leaf_of, tables'.
  pose proof (table_index_bounds 1 va) as B1. pose proof (table_index_bounds 2 va) as B2.
  pose proof (prefix_step 1 va ltac:(lia)) as E1. 
  destruct (decide ((S l, p * 512 + i) = (1%nat, prefix 1 va))) as [Hk|Hk].
  { rewrite Hk, lookup_insert_eq. rewrite grown_new by done. run. injection Hk as -> Hk. rewrite E1 in Hk.
    apply prefix_split in Hk as [-> ->]; [|done..]. rewrite E1, Habs, Ht, He. run. by rewrite Hnp. }
  rewrite lookup_insert_ne by done. destruct (tables !! (1%nat, prefix 1 va)) as [t1|] eqn:E.
  { by rewrite (grown_same _ _ _ E) by (done || congruence). }
  destruct (decide ((S l, p * 512 + i) = (2%nat, prefix 2 va))) as [Hk2|Hk2].
  { rewrite Hk2, lookup_insert_eq. rewrite grown_new by done. run. by rewrite <- Hk2, Habs. }
  rewrite lookup_insert_ne by done. destruct (tables !! (2%nat, prefix 2 va)) as [t2|] eqn:E'; [|done].
  rewrite (grown_same _ _ _ E'); [done|done|]. intros [= <- Hp2 Hi2]. apply Hk. by rewrite E1, Hp2, Hi2.
Qed.
End grown.

(** One table, found or built. *)
Lemma try_ensure s tables root free l p t i flags : space s tables root free -> tables !! (S (S l), p) = Some t ->
  0 <= i < 512 -> (l = 2%nat -> region i) -> table_flags rights flags ->
  let run_ensure := MipTryEnsureTable s (MiTableEntry s t i) flags in
  match tables !! (S l, p * 512 + i) with
  | Some c => run_ensure = Ok (c, s) /\ c <> 0 /\ exists e, read_entry s (MiTableEntry s t i) = Ok e /\ has e PTE_PRESENT = true
  | None => exists e, read_entry s (MiTableEntry s t i) = Ok e /\
      if has e PTE_PRESENT then large = true /\ l = 0%nat /\ has e PTE_LARGE = true /\ run_ensure = Panic "MiEnsureTable: 4 KiB mapping inside an existing 2 MiB page"
      else match free with
      | [] => run_ensure = Ok (0, s)
      | f :: free' => exists s', run_ensure = Ok (f, s') /\ f <> 0 /\ let tables' := <[(S l, p * 512 + i) := f]> tables in
          space s' tables' root free' /\ extends s tables free s' tables' free'
      end
  end.
Proof.
  intros SP Ht Hi Hr Hfl. cbn zeta. destruct (sp_frame _ _ _ _ SP _ _ Ht) as (Ft & _). pose proof (sp_phys _ _ _ _ SP) as P.
  pose proof (po_offset _ _ P) as H0. destruct (entry_slot s t i H0 Ft Hi) as (Es & Hm & _). rewrite Es. unfold MipTryEnsureTable, read_entry.
  fold (word s t i). destruct (space_word _ _ _ _ _ _ _ SP Ht Hi) as [e He].
  pose proof (sp_level _ _ _ _ SP _ _ _ Ht) as Hl.
  destruct (tables !! (S l, p * 512 + i)) as [c|] eqn:Ec.
  { destruct (sp_parent _ _ _ _ SP l _ c Ec ltac:(lia)) as (t' & e' & Ht' & _ & He' & Hp' & _).
    assert (Hq : (p * 512 + i) / 512 = p /\ (p * 512 + i) mod 512 = i) by (Z.to_euclidean_division_equations; lia).
    destruct Hq as [Hq1 Hq2]. rewrite Hq1 in Ht'. rewrite Hq2 in He'. assert (t' = t) as -> by congruence.
    rewrite He'. run. rewrite Hp'. destruct (sp_entry _ _ _ _ SP l p t i e' Ht Hi Hr He' Hp') as [(_ & _ & _ & ?)|[Hlg Hc]]; [congruence|].
    rewrite Hlg. assert (c = Z.land e' PTE_ADDRESS) as -> by congruence. split; [done|]. split; [|by exists e'].
    destruct (sp_frame _ _ _ _ SP _ _ Ec) as (Fc & _). pose proof (fr_pos _ _ Fc). lia. }
  exists e. rewrite He. split; [done|]. run. destruct (has e PTE_PRESENT) eqn:Hp.
  { destruct (sp_entry _ _ _ _ SP l p t i e Ht Hi Hr He Hp) as [(-> & -> & -> & _)|[_ ?]]; [done|congruence]. }
  pose proof (MiAllocatePage_spec (phys s) free P) as Ha. destruct free as [|f free']; [rewrite Ha; run; by destruct s|].
  destruct Ha as (ph & -> & P' & Eph). run. destruct (grown_frame s tables root f free' SP) as (F & Hlow & Hnf & Hnt).
  pose proof (fr_pos _ _ F) as Hfpos. rewrite (proj2 (Z.eqb_neq f 0)) by lia.
  assert (Ho : MiHhdmOffset ph = MiHhdmOffset (phys s)) by (by rewrite Eph).
  assert (Hm0 : memory ph = memory (phys s)) by (by rewrite Eph). clear Eph.
  set (s1 := s <| phys := ph |>). assert (Hsh1 : shape s s1) by (split; [split; [exact Ho|intros x; cbn; by rewrite Hm0]|done..]).
  assert (Hm1 : memory (phys s1) = memory (phys s)) by exact Hm0.
  assert (Hv : MiPhysicalToVirtual ph f = MiHhdmOffset (phys s) + f).
  { unfold MiPhysicalToVirtual. rewrite Ho. fold (MiFrameToVirtual (phys s) f). by apply frame_virtual. }
  rewrite Hv. destruct (proj1 (returns_alt _ _) (memset_spec (memory ph) (MiHhdmOffset (phys s) + f) 0 PAGE_SIZE ltac:(done)
    ltac:(rewrite Hm0; apply (fr_mapped _ _ F)))) as (m & -> & Hz). run.
  assert (Hmap : mapped m (slot s t i) 8).
  { intros j Hj. apply (written_dom (memory ph) (MiHhdmOffset (phys s) + f) PAGE_SIZE (fun _ => Some 0) m); [|done|exact Hz|].
    - rewrite Hm0. apply (fr_mapped _ _ F).
    - rewrite Hm0. by apply Hm. }
  destruct (table_entry rights f flags (fr_aligned _ _ F) ltac:(lia) Hfl) as (_ & _ & _ & _ & Hu).
  destruct (proj1 (returns_alt _ _) (store64_spec m (slot s t i) (Z.lor f flags) Hmap Hu)) as (m' & E & Hst).
  unfold write_entry. change (memory (phys (with_memory s1 m))) with m. rewrite E. run.
  exists (with_memory s1 m'). split; [reflexivity|]. split; [lia|]. cbn zeta. split.
  - by eapply (grown_space s tables root f free' l p t i flags SP Ht Hi Hr Hfl e He Hp s1 (with_memory s1 m')).
  - split.
    + apply insert_subseteq. exact Ec.
    + destruct Hsh1 as [[W1 W2] ? ? ?]. split; [split; [done|]|done..].
      by apply (grown_dom s tables root f free' t i flags SP s1 Hm1 m m' Hz Hst).
    + intros va Hva. by eapply (grown_leaf s tables root f free' l p t i flags SP Ht Hi Hr e He Hp s1 (with_memory s1 m')).
    + intros x Hx. change (memory (phys (with_memory s1 m'))) with m'. rewrite (st_out _ _ _ _ Hst).
      * rewrite <- Hm0. apply (wr_out _ _ _ _ _ Hz). apply (Hx (S l, p * 512 + i) f). by rewrite lookup_insert_eq.
      * intros H. apply (Hx (S (S l), p) t); [by rewrite lookup_insert_ne by (intros [=]; lia)|]. unfold slot, PAGE_SIZE in *. lia.
    + by exists [f].
    + done.
Qed.

(** The tables an address still lacks. *)
Definition lacks tables (k : nat * Z) : nat := match tables !! k with Some _ => 0 | None => 1 end.
Definition missing tables va : nat :=
  lacks tables (3%nat, prefix 3 va) + lacks tables (2%nat, prefix 2 va) + lacks tables (1%nat, prefix 1 va).

Definition out_of_tables : string := "MiEnsureTable: out of physical pages".

Lemma ensure_step s tables root free l p t i flags : space s tables root free -> tables !! (S (S l), p) = Some t ->
  0 <= i < 512 -> (l = 2%nat -> region i) -> table_flags rights flags ->
  (l = 0%nat -> forall e, word s t i = Ok e -> has e PTE_PRESENT = true -> has e PTE_LARGE = false) ->
  let k := (S l, p * 512 + i) in
  if decide (lacks tables k <= length free)%nat then
    exists c s' tables' free', MiEnsureTable s (MiTableEntry s t i) flags = Ok (c, s') /\ space s' tables' root free' /\
      tables' !! k = Some c /\ extends s tables free s' tables' free' /\
      length free = (lacks tables k + length free')%nat /\ forall k', k' <> k -> tables' !! k' = tables !! k'
  else MiEnsureTable s (MiTableEntry s t i) flags = Panic out_of_tables.
Proof.
  intros SP Ht Hi Hr Hfl Hlarge k. pose proof (try_ensure s tables root free l p t i flags SP Ht Hi Hr Hfl) as H. cbn zeta in H.
  unfold MiEnsureTable, lacks. fold k in H. destruct (tables !! k) as [c|] eqn:Ec.
  - destruct H as (-> & Hc & _). rewrite decide_True by lia. run. rewrite (proj2 (Z.eqb_neq c 0)) by done.
    exists c, s, tables, free. split_and!; try done. apply extends_refl.
  - destruct H as (e & He & H). destruct (has e PTE_PRESENT) eqn:Hp.
    { destruct H as (_ & Hl & Hlg & _). rewrite (Hlarge Hl e) in Hlg; [done| |done].
      destruct (sp_frame _ _ _ _ SP _ _ Ht) as (Ft & _). destruct (entry_slot s t i (po_offset _ _ (sp_phys _ _ _ _ SP)) Ft Hi) as (Es & _).
      unfold read_entry in He. by rewrite Es in He. }
    destruct free as [|f free']; [by rewrite H|]. destruct H as (s' & -> & Hf & SP' & X). rewrite decide_True by (cbn; lia). run.
    rewrite (proj2 (Z.eqb_neq f 0)) by done. exists f, s', (<[k:=f]> tables), free'. split_and!; try done.
    + by rewrite lookup_insert_eq.
    + intros k' Hk. by rewrite lookup_insert_ne.
Qed.

(** The three tables of one address, as the mapping functions ask for them. *)
Definition descend s root va flags : outcome (Z * mmu_state) :=
  '(pdpt, s) ← MiEnsureTable s (MiTableEntry s root (table_index 4 va)) flags;
  '(pd, s) ← MiEnsureTable s (MiTableEntry s pdpt (table_index 3 va)) flags;
  MiEnsureTable s (MiTableEntry s pd (table_index 2 va)) flags.

Lemma descend_spec s tables root free va flags : space s tables root free -> in_region va -> table_flags rights flags ->
  (forall e, leaf_of s tables va <> Ok (e, true)) ->
  if decide (missing tables va <= length free)%nat then
    exists pt s' tables' free', descend s root va flags = Ok (pt, s') /\ space s' tables' root free' /\
      tables' !! (1%nat, prefix 1 va) = Some pt /\ extends s tables free s' tables' free' /\
      length free = (missing tables va + length free')%nat
  else descend s root va flags = Panic out_of_tables.
Proof.
  intros SP Hva Hfl Hleaf. unfold descend, missing.
  pose proof (prefix_step 3 va ltac:(lia)) as E3. pose proof (prefix_step 2 va ltac:(lia)) as E2. pose proof (prefix_step 1 va ltac:(lia)) as E1.
  rewrite prefix_top in E3.
  pose proof (ensure_step s tables root free 2 0 root (table_index 4 va) flags SP (sp_root _ _ _ _ SP) (table_index_bounds 4 va)
    ltac:(done) Hfl ltac:(done)) as H. cbn zeta in H. rewrite <- E3 in H. case_decide as D3; [|by rewrite decide_False, H by lia].
  destruct H as (pdpt & s1 & tb1 & free1 & -> & SP1 & T1 & X1 & F1 & K1). run.
  pose proof (ensure_step s1 tb1 root free1 1 (prefix 3 va) pdpt (table_index 3 va) flags SP1 T1 (table_index_bounds 3 va)
    ltac:(done) Hfl ltac:(done)) as H. cbn zeta in H. rewrite <- E2 in H.
  assert (L2 : lacks tb1 (2%nat, prefix 2 va) = lacks tables (2%nat, prefix 2 va)) by (unfold lacks; by rewrite K1). rewrite L2 in H.
  case_decide as D2; [|by rewrite decide_False, H by lia].
  destruct H as (pd & s2 & tb2 & free2 & -> & SP2 & T2 & X2 & F2 & K2). run.
  pose proof (extends_trans _ _ _ _ _ _ _ _ _ X1 X2) as X12.
  assert (L1 : lacks tb2 (1%nat, prefix 1 va) = lacks tables (1%nat, prefix 1 va)) by (unfold lacks; by rewrite K2, K1).
  pose proof (ensure_step s2 tb2 root free2 0 (prefix 2 va) pd (table_index 2 va) flags SP2 T2 (table_index_bounds 2 va)
    ltac:(done) Hfl) as H. cbn zeta in H. rewrite <- E1, L1 in H.
  assert (Hnl : 0%nat = 0%nat -> forall e, word s2 pd (table_index 2 va) = Ok e -> has e PTE_PRESENT = true -> has e PTE_LARGE = false).
  { intros _ e He Hp. destruct (sp_entry _ _ _ _ SP2 0 _ _ _ e T2 (table_index_bounds 2 va) ltac:(done) He Hp) as [(_ & _ & _ & Hn)|[Hn _]]; [|done].
    rewrite <- E1 in Hn. destruct (Hleaf e). rewrite <- (ex_leaf _ _ _ _ _ _ X12 va Hva). unfold leaf_of. rewrite Hn, T2, He. run. by rewrite Hp. }
  specialize (H Hnl). case_decide as D1; [|by rewrite decide_False, H by lia].
  destruct H as (pt & s3 & tb3 & free3 & -> & SP3 & T3 & X3 & F3 & K3). rewrite decide_True by lia.
  exists pt, s3, tb3, free3. split_and!; [done..|by apply (extends_trans _ _ _ _ _ _ _ _ _ X12 X3)|lia].
Qed.

(** An entry of a last-level table rewritten. *)
Lemma leaf_write s tables root free p t i v : space s tables root free -> tables !! (1%nat, p) = Some t -> 0 <= i < 512 -> is_u64 v ->
  exists s', write_entry s (MiTableEntry s t i) v = Ok s' /\ space s' tables root free /\ shape s s' /\
    MiInvlpgCount s' = MiInvlpgCount s /\ outside s s' tables /\
    forall va, leaf_of s' tables va = if decide (prefix 0 va = p * 512 + i) then Ok (v, false) else leaf_of s tables va.
Proof.
  intros SP Ht Hi Hv. destruct (sp_frame _ _ _ _ SP _ _ Ht) as (Ft & _ & Hnf). pose proof (sp_phys _ _ _ _ SP) as P.
  destruct (entry_slot s t i (po_offset _ _ P) Ft Hi) as (Es & Hm & _). rewrite Es. unfold write_entry.
  destruct (proj1 (returns_alt _ _) (store64_spec _ _ v Hm Hv)) as (m & -> & S). run. exists (with_memory s m). split; [done|].
  assert (W : same_window (phys s) (phys (with_memory s m))) by (split; [done|apply (st_dom _ _ _ _ S)]).
  assert (Hsame : forall k q j, tables !! k = Some q -> 0 <= j < 512 -> (k, j) <> ((1%nat, p), i) -> word (with_memory s m) q j = word s q j).
  { intros k q j Hk Hj Hne. destruct (sp_frame _ _ _ _ SP _ _ Hk) as (Fq & _). apply (stored_load _ _ _ _ _ S). change (slot (with_memory s m) q j) with (slot s q j).
    apply slot_apart; [done..|]. intros [= -> ->]. apply Hne. f_equal. apply (sp_inj _ _ _ _ SP _ _ t Hk Ht). }
  split_and!.
  - destruct SP as [_ A1 A2 A3 A4 A5 A6 A7]. split; try done.
    + apply phys_ok_memory; [done|apply (st_dom _ _ _ _ S)|]. intros q Hq. pose proof (po_frames _ _ P) as Hf. rewrite Forall_forall in Hf.
      apply (stored_load _ _ _ _ _ S). unfold slot.
      destruct (aligned_apart q t (fr_aligned _ _ (Hf q Hq)) (fr_aligned _ _ Ft)); [by intros ->|unfold PAGE_SIZE in *; lia..].
    + intros k q Hk. destruct (A5 k q Hk) as (F & ? & ?). split; [by apply (frame_ok_window (phys s))|done].
    + intros l0 p0 q j e Hk Hj Hr He Hp. apply (A6 l0 p0 q j e); try done. rewrite <- He. symmetry. by apply (Hsame _ _ _ Hk).
    + intros l0 p0 q Hk Hl. destruct (A7 l0 p0 q Hk Hl) as (t' & e & Ht' & ? & He & ? & ?). exists t', e. split_and!; try done.
      rewrite <- He. apply (Hsame _ _ _ Ht'); [apply Z.mod_pos_bound; lia|done].
  - done.
  - done.
  - intros x Hx. apply (st_out _ _ _ _ S). intros H. apply (Hx _ _ Ht). unfold slot, PAGE_SIZE in *. lia.
  - intros va. pose proof (prefix_step 0 va ltac:(lia)) as E0. pose proof (table_index_bounds 1 va) as B1. pose proof (table_index_bounds 2 va) as B2.
    unfold leaf_of. case_decide as D.
    + rewrite E0 in D. apply prefix_split in D as [-> ->]; [|done..]. rewrite Ht. unfold word at 1, slot. cbn [with_memory phys].
      pose proof (st_word _ _ _ _ S) as Hw. unfold slot in Hw. change (MiHhdmOffset (phys (with_memory s m))) with (MiHhdmOffset (phys s)).
      change (memory (phys (with_memory s m))) with m. by rewrite Hw.
    + destruct (tables !! (1%nat, prefix 1 va)) as [t1|] eqn:E1.
      * rewrite (Hsame _ _ _ E1); [done|done|]. intros [= Hp Hj]. apply D. by rewrite E0, Hp, Hj.
      * destruct (tables !! (2%nat, prefix 2 va)) as [t2|] eqn:E2; [|done]. by rewrite (Hsame _ _ _ E2).
Qed.
End space.

(** ** User address spaces *)

Section user.
Implicit Types (s : mmu_state) (t p i e va root : Z) (l : nat) (free : list Z) (tables : gmap (nat * Z) Z).

Abbreviation user_space := (space (fun i => i < 256) false (Z.lor PTE_WRITE PTE_USER)).

(** The entry of a user page, 0 when there is none. *)
Definition user_pte s root va : outcome Z :=
  pte ← MipFindUserEntry s root va; if pte =? 0 then Ok 0 else read_entry s pte.

Lemma user_region va : 0 <= va < 2 ^ 47 -> in_region (fun i => i < 256) va.
Proof.
  intros H. unfold in_region, table_index. change 0x1FF with (Z.ones 9). rewrite Z.land_ones, Z.shiftr_div_pow2 by lia. cbn.
  Z.to_euclidean_division_equations; lia.
Qed.

Lemma user_child s tables root free l p t i : user_space s tables root free -> tables !! (S (S l), p) = Some t -> 0 <= i < 512 ->
  (l = 2%nat -> i < 256) -> exists e, read_entry s (MiTableEntry s t i) = Ok e /\ word s t i = Ok e /\ MiTableEntry s t i <> 0 /\
  tables !! (S l, p * 512 + i) = if has e PTE_PRESENT then Some (Z.land e PTE_ADDRESS) else None.
Proof.
  intros SP Ht Hi Hr. destruct (sp_frame _ _ _ _ _ _ _ SP _ _ Ht) as (Ft & _).
  destruct (entry_slot s t i (po_offset _ _ (sp_phys _ _ _ _ _ _ _ SP)) Ft Hi) as (Es & _ & Hn).
  destruct (space_word _ _ _ _ _ _ _ _ _ _ SP Ht Hi) as [e He]. exists e. unfold read_entry. rewrite Es. split_and!; [done..|].
  destruct (has e PTE_PRESENT) eqn:Hp.
  - by destruct (sp_entry _ _ _ _ _ _ _ SP l p t i e Ht Hi Hr He Hp) as [[? _]|[_ ?]].
  - exact (absent_table _ _ _ s tables root free l p t i e SP Ht Hi He Hp).
Qed.

(** A missing table hides every table below it. *)
Lemma parent_absent s tables root free l p : user_space s tables root free -> (l < 3)%nat ->
  tables !! (S (S l), p) = None -> forall i, 0 <= i < 512 -> tables !! (S l, p * 512 + i) = None.
Proof.
  intros SP Hl Hn i Hi. destruct (tables !! (S l, p * 512 + i)) as [c|] eqn:E; [|done].
  destruct (sp_parent _ _ _ _ _ _ _ SP l _ c E Hl) as (t' & e & Ht & _). replace ((p * 512 + i) / 512) with p in Ht by (Z.to_euclidean_division_equations; lia). congruence.
Qed.

Lemma MipFindUserEntry_spec s tables root free va : user_space s tables root free -> 0 <= va < 2 ^ 47 ->
  match tables !! (1%nat, prefix 1 va) with
  | Some t => MipFindUserEntry s root va = Ok (MiTableEntry s t (table_index 1 va)) /\ MiTableEntry s t (table_index 1 va) <> 0
  | None => MipFindUserEntry s root va = Ok 0
  end.
Proof.
  intros SP Hva. pose proof (user_region va Hva) as Hr. unfold MipFindUserEntry.
  pose proof (prefix_step 3 va ltac:(lia)) as E3. pose proof (prefix_step 2 va ltac:(lia)) as E2. pose proof (prefix_step 1 va ltac:(lia)) as E1.
  rewrite prefix_top in E3.
  destruct (user_child s tables root free 2 0 root (table_index 4 va) SP (sp_root _ _ _ _ _ _ _ SP) (table_index_bounds 4 va) ltac:(done)) as (e4 & -> & _ & _ & T3).
  rewrite <- E3 in T3. run. destruct (has e4 PTE_PRESENT); cbn [negb].
  2: { pose proof (parent_absent s tables root free 1 (prefix 3 va) SP ltac:(lia) T3 _ (table_index_bounds 3 va)) as T2. rewrite <- E2 in T2.
       pose proof (parent_absent s tables root free 0 (prefix 2 va) SP ltac:(lia) T2 _ (table_index_bounds 2 va)) as T1. rewrite <- E1 in T1.
       by rewrite T1. }
  destruct (user_child s tables root free 1 _ _ (table_index 3 va) SP T3 (table_index_bounds 3 va) ltac:(done)) as (e3 & -> & _ & _ & T2).
  rewrite <- E2 in T2. run. destruct (has e3 PTE_PRESENT); cbn [negb].
  2: { pose proof (parent_absent s tables root free 0 (prefix 2 va) SP ltac:(lia) T2 _ (table_index_bounds 2 va)) as T1. rewrite <- E1 in T1.
       by rewrite T1. }
  destruct (user_child s tables root free 0 _ _ (table_index 2 va) SP T2 (table_index_bounds 2 va) ltac:(done)) as (e2 & -> & W2 & _ & T1).
  rewrite <- E1 in T1. run. destruct (has e2 PTE_PRESENT) eqn:Hp; cbn [negb]; rewrite T1; [|done].
  split; [done|]. destruct (sp_frame _ _ _ _ _ _ _ SP _ _ T1) as (Ft & _).
  by destruct (entry_slot s _ (table_index 1 va) (po_offset _ _ (sp_phys _ _ _ _ _ _ _ SP)) Ft (table_index_bounds 1 va)) as (-> & _ & Hn).
Qed.

Lemma user_pte_leaf s tables root free va : user_space s tables root free -> 0 <= va < 2 ^ 47 ->
  exists e, user_pte s root va = Ok e /\ leaf_of s tables va = Ok (e, false).
Proof.
  intros SP Hva. pose proof (MipFindUserEntry_spec s tables root free va SP Hva) as H. unfold user_pte, leaf_of.
  destruct (tables !! (1%nat, prefix 1 va)) as [t|] eqn:T1.
  - destruct H as [-> Hn]. run. rewrite (proj2 (Z.eqb_neq _ 0)) by done. destruct (sp_frame _ _ _ _ _ _ _ SP _ _ T1) as (Ft & _).
    destruct (entry_slot s t (table_index 1 va) (po_offset _ _ (sp_phys _ _ _ _ _ _ _ SP)) Ft (table_index_bounds 1 va)) as (Es & _ & _).
    destruct (space_word _ _ _ _ _ _ _ _ _ _ SP T1 (table_index_bounds 1 va)) as [e He]. exists e. unfold read_entry. rewrite Es.
    fold (word s t (table_index 1 va)). by rewrite He.
  - rewrite H. run. exists 0. split; [done|]. destruct (tables !! (2%nat, prefix 2 va)) as [t|] eqn:T2; [|done].
    destruct (user_child s tables root free 0 _ t (table_index 2 va) SP T2 (table_index_bounds 2 va) ltac:(done)) as (e & _ & -> & _ & T).
    rewrite <- (prefix_step 1 va), T1 in T by lia. run. by destruct (has e PTE_PRESENT).
Qed.

Lemma user_flags_ok : table_flags (Z.lor PTE_WRITE PTE_USER) user_flags.
Proof. split; [by unfold PAGE_SIZE; cbn|done..]. Qed.

(** What the entry of a mapping says. *)
Lemma user_entry_spec pa present writable executable : aligned pa = true -> 0 <= pa < 2 ^ 52 ->
  let e := user_entry pa present writable executable in
  Z.land e PTE_ADDRESS = pa /\ has e PTE_WRITE = writable /\ has e PTE_PRESENT = present /\ has e PTE_NX = negb executable /\ is_u64 e /\ e <> 0.
Proof.
  intros Ap Hp. cbn zeta. set (c := user_entry 0 present writable executable).
  assert (E : user_entry pa present writable executable = Z.lor pa c).
  { unfold c, user_entry. destruct present, writable, executable; cbn [negb]; by rewrite ?Z.lor_0_l, ?Z.lor_assoc. }
  rewrite E. unfold has. rewrite !Z.land_lor_distr_l, aligned_address, !(aligned_low pa) by (done || (unfold PTE_WRITE, PTE_PRESENT, PAGE_SIZE; lia)).
  assert (Hnx : Z.land pa PTE_NX = 0).
  { apply Z.bits_inj'. intros k Hk. rewrite Z.land_spec, Z.bits_0. change PTE_NX with (2 ^ 63). rewrite Z.pow2_bits_eqb by lia.
    destruct (Z.eqb_spec 63 k) as [<-|]; [|apply andb_false_r]. rewrite andb_true_r, <- (Z.mod_small pa (2 ^ 52)) by done. by apply Z.mod_pow2_bits_high. }
  rewrite Hnx, !Z.lor_0_l.
  assert (Hc : Z.land c PTE_ADDRESS = 0 /\ negb (Z.land c PTE_WRITE =? 0) = writable /\ negb (Z.land c PTE_PRESENT =? 0) = present /\
    negb (Z.land c PTE_NX =? 0) = negb executable /\ 0 < c < 2 ^ 64) by (by destruct present, writable, executable).
  destruct Hc as (-> & -> & -> & -> & Hc). rewrite Z.lor_0_r. split_and!; try done.
  - split; [apply Z.lor_nonneg; lia|]. destruct (decide (Z.lor pa c = 0)) as [->|]; [lia|]. apply Z.log2_lt_pow2; [pose proof (proj2 (Z.lor_nonneg pa c)); lia|].
    rewrite Z.log2_lor by lia. apply Z.max_lub_lt; [|apply Z.log2_lt_pow2; lia].
    destruct (decide (pa = 0)) as [->|]; [done|]. apply Z.log2_lt_pow2; lia.
  - intros H. apply Z.lor_eq_0_iff in H. lia.
Qed.

(** The entry of a mapping, bit by bit: present (0), writable (1), user (2), the
    frame (12 to 51) and no-execute (63). *)
Definition page_rights (pa : Z) (present writable executable : bool) : Z :=
  pa + 4 + Z.b2z present + 2 * Z.b2z writable + 2 ^ 63 * Z.b2z (negb executable).

Lemma user_entry_rights pa present writable executable : aligned pa = true -> 0 <= pa < 2 ^ 52 ->
  user_entry pa present writable executable = page_rights pa present writable executable.
Proof.
  intros Ap Hp. set (c := user_entry 0 present writable executable).
  assert (E : user_entry pa present writable executable = Z.lor pa c).
  { unfold c, user_entry. destruct present, writable, executable; cbn [negb]; by rewrite ?Z.lor_0_l, ?Z.lor_assoc. }
  assert (Hlow : Z.land pa (Z.lor (Z.ones 12) (Z.shiftl 1 63)) = 0).
  { rewrite Z.land_lor_distr_r, (aligned_low pa) by (done || (unfold PAGE_SIZE; cbn; lia)). rewrite Z.lor_0_l.
    apply Z.bits_inj'. intros k Hk. rewrite Z.land_spec, Z.bits_0, Z.shiftl_1_l, Z.pow2_bits_eqb by lia.
    destruct (Z.eqb_spec 63 k) as [<-|]; [|apply andb_false_r]. rewrite andb_true_r, <- (Z.mod_small pa (2 ^ 52)) by done. by apply Z.mod_pow2_bits_high. }
  assert (Hc : c = Z.land (Z.lor (Z.ones 12) (Z.shiftl 1 63)) c) by (by destruct present, writable, executable).
  assert (Hdis : Z.land pa c = 0) by (by rewrite Hc, Z.land_assoc, Hlow).
  rewrite E, <- Z.lxor_lor, <- Z.add_nocarry_lxor by done. unfold page_rights.
  assert (c = 4 + Z.b2z present + 2 * Z.b2z writable + 2 ^ 63 * Z.b2z (negb executable)) by (by destruct present, writable, executable). lia.
Qed.

(** The walk and the entry of a user page, as the three operations use them. *)
Lemma MiTranslateUserPage_pte s root va : MiTranslateUserPage s root va =
  (e ← user_pte s root va; if e =? 0 then Ok (0, false, false) else Ok (Z.land e PTE_ADDRESS, has e PTE_WRITE, has e PTE_PRESENT)).
Proof. unfold MiTranslateUserPage, user_pte. destruct (MipFindUserEntry s root va) as [a| | |]; [|done..]. run. by destruct (a =? 0). Qed.

(** Every user page but that of [va] is mapped as before, and [va] to [v]. *)
Definition remapped s s' root va v : Prop := forall va', 0 <= va' < 2 ^ 47 ->
  user_pte s' root va' = if decide (va' / PAGE_SIZE = va / PAGE_SIZE) then Ok v else user_pte s root va'.

Lemma same_leaf_pte s tables free s' tables' free' root va : user_space s tables root free -> user_space s' tables' root free' ->
  0 <= va < 2 ^ 47 -> leaf_of s' tables' va = leaf_of s tables va -> user_pte s' root va = user_pte s root va.
Proof.
  intros SP SP' Hva E. destruct (user_pte_leaf _ _ _ _ va SP Hva) as (e & -> & He), (user_pte_leaf _ _ _ _ va SP' Hva) as (e' & -> & He').
  congruence.
Qed.

Lemma leaf_remapped s tables free s' tables' free' root va v : user_space s tables root free -> user_space s' tables' root free' ->
  0 <= va < 2 ^ 47 ->
  (forall va', 0 <= va' < 2 ^ 47 -> leaf_of s' tables' va' = if decide (prefix 0 va' = prefix 0 va) then Ok (v, false) else leaf_of s tables va') ->
  remapped s s' root va v.
Proof.
  intros SP SP' Hva H va' Hva'. destruct (user_pte_leaf _ _ _ _ va' SP' Hva') as (e' & -> & He').
  rewrite H in He' by done. pose proof (prefix_0 va' va ltac:(lia) ltac:(lia)) as P0. repeat case_decide; try tauto; [congruence|].
  destruct (user_pte_leaf _ _ _ _ va' SP Hva') as (e & -> & He). congruence.
Qed.

(** A user page's entry, reached and rewritten. *)
Lemma user_leaf_write s tables root free va pt v : user_space s tables root free -> 0 <= va < 2 ^ 47 ->
  tables !! (1%nat, prefix 1 va) = Some pt -> is_u64 v ->
  exists s', write_entry s (MiTableEntry s pt (table_index 1 va)) v = Ok s' /\ user_space s' tables root free /\ shape s s' /\
    outside s s' tables /\ MiInvlpgCount s' = MiInvlpgCount s /\ remapped s s' root va v.
Proof.
  intros SP Hva T Hv. destruct (leaf_write _ _ _ s tables root free _ pt (table_index 1 va) v SP T (table_index_bounds 1 va) Hv)
    as (s' & E & SP' & Sh & I & O & L). exists s'. split_and!; try done.
  apply (leaf_remapped s tables free s' tables free); [done..|]. intros va' _. rewrite L. by rewrite <- (prefix_step 0 va) by lia.
Qed.

Lemma user_space_flush s tables root free : user_space s tables root free -> user_space (flush s) tables root free.
Proof. intros [A1 A2 A3 A4 A5 A6 A7 A8]. split; done. Qed.

Lemma remapped_after s tables free s1 tables1 free1 s' root va v : user_space s tables root free -> user_space s1 tables1 root free1 ->
  extends (fun i => i < 256) s tables free s1 tables1 free1 -> remapped s1 s' root va v -> remapped s s' root va v.
Proof.
  intros SP SP1 X R va' Hva'. rewrite (R va' Hva'). case_decide; [done|].
  apply (same_leaf_pte s tables free s1 tables1 free1); try done. apply (ex_leaf _ _ _ _ _ _ _ X). by apply user_region.
Qed.

Lemma outside_trans s1 s2 s3 tables2 tables3 : MiHhdmOffset (phys s2) = MiHhdmOffset (phys s1) -> tables2 ⊆ tables3 ->
  outside s1 s2 tables2 -> outside s2 s3 tables3 -> outside s1 s3 tables3.
Proof.
  intros Ho Hsub H1 H2 x Hx. rewrite H2; [apply H1|by rewrite Ho].
  intros k t Hk. apply (Hx k t). by apply (lookup_weaken _ _ _ _ Hk).
Qed.

Lemma MiMapUserPage_spec s tables root free va pa present writable executable e :
  user_space s tables root free -> 0 <= va < 2 ^ 47 -> aligned va = true -> aligned pa = true -> 0 <= pa < 2 ^ 52 ->
  user_pte s root va = Ok e ->
  let map := MiMapUserPage s root va pa present writable executable in
  if decide (missing tables va <= length free)%nat then
    if e =? 0 then
      exists s' tables' free', map = Ok s' /\ user_space s' tables' root free' /\ tables ⊆ tables' /\
        length free = (missing tables va + length free')%nat /\ (exists taken, free = taken ++ free') /\
        shape s s' /\ outside s s' tables' /\ remapped s s' root va (user_entry pa present writable executable) /\
        MiInvlpgCount s' = u64 (MiInvlpgCount s + 1)
    else map = Panic "MiMapUserPage: user address already mapped"
  else map = Panic out_of_tables.
Proof.
  intros SP Hva Av Ap Hpa He. cbn zeta. pose proof (user_region va Hva) as Hr. unfold MiMapUserPage. rewrite Av, Ap, (proj2 (Z.ltb_lt _ _)) by lia. run.
  destruct (user_pte_leaf _ _ _ _ va SP Hva) as (e' & He' & Hleaf). rewrite He in He'. injection He' as <-.
  pose proof (descend_spec _ _ _ s tables root free va user_flags SP Hr user_flags_ok ltac:(rewrite Hleaf; congruence)) as D.
  unfold descend in D. case_decide as Dm.
  2: { revert D. destruct (MiEnsureTable s _ user_flags) as [[pdpt s1]|w| |]; run; [|by intros [= ->]|done..].
       destruct (MiEnsureTable s1 _ user_flags) as [[pd s2]|w| |]; run; [|by intros [= ->]|done..]. by intros ->. }
  destruct D as (pt & s3 & tb3 & free3 & D & SP3 & T3 & X3 & F3). revert D.
  destruct (MiEnsureTable s _ user_flags) as [[pdpt s1]| | |]; [|done..]. run.
  destruct (MiEnsureTable s1 _ user_flags) as [[pd s2]| | |]; [|done..]. run. intros ->. run.
  pose proof (ex_leaf _ _ _ _ _ _ _ X3 va Hr) as Hl3. rewrite Hleaf in Hl3. unfold leaf_of in Hl3. rewrite T3 in Hl3.
  destruct (sp_frame _ _ _ _ _ _ _ SP3 _ _ T3) as (Fpt & _).
  destruct (entry_slot s3 pt (table_index 1 va) (po_offset _ _ (sp_phys _ _ _ _ _ _ _ SP3)) Fpt (table_index_bounds 1 va)) as (Es & _ & _).
  assert (Hread : read_entry s3 (MiTableEntry s3 pt (table_index 1 va)) = Ok e).
  { unfold read_entry. rewrite Es. fold (word s3 pt (table_index 1 va)). revert Hl3. destruct (word s3 pt (table_index 1 va)); run; congruence. }
  rewrite Hread. run. destruct (Z.eqb_spec e 0) as [->|Hne]; cbn [negb]; [|done].
  destruct (user_entry_spec pa present writable executable Ap Hpa) as (_ & _ & _ & _ & Hu & _).
  destruct (user_leaf_write s3 tb3 root free3 va pt _ SP3 Hva T3 Hu) as (s4 & -> & SP4 & Sh4 & O4 & I4 & R4). run.
  exists (flush s4), tb3, free3. split_and!.
  - done.
  - by apply user_space_flush.
  - apply (ex_tables _ _ _ _ _ _ _ X3).
  - done.
  - apply (ex_free _ _ _ _ _ _ _ X3).
  - pose proof (shape_trans _ _ _ (ex_shape _ _ _ _ _ _ _ X3) Sh4) as [? ? ? ?]. by split.
  - apply (outside_trans s s3 _ tb3); [apply (proj1 (sh_window _ _ (ex_shape _ _ _ _ _ _ _ X3)))|done|apply (ex_out _ _ _ _ _ _ _ X3)|exact O4].
  - by apply (remapped_after s tables free s3 tb3 free3).
  - cbn. by rewrite I4, (ex_flush _ _ _ _ _ _ _ X3).
Qed.

Lemma MiUnmapUserPage_spec s tables root free va e : user_space s tables root free -> 0 <= va < 2 ^ 47 -> user_pte s root va = Ok e ->
  if e =? 0 then MiUnmapUserPage s root va = Panic "MiUnmapUserPage: user address not mapped"
  else exists s', MiUnmapUserPage s root va = Ok s' /\ user_space s' tables root free /\ shape s s' /\ outside s s' tables /\ remapped s s' root va 0 /\
    MiInvlpgCount s' = u64 (MiInvlpgCount s + 1).
Proof.
  intros SP Hva He. destruct (user_pte_leaf _ _ _ _ va SP Hva) as (e' & He' & Hleaf). rewrite He in He'. injection He' as <-.
  pose proof (MipFindUserEntry_spec s tables root free va SP Hva) as H. unfold MiUnmapUserPage.
  assert (Hrd : (pte ← MipFindUserEntry s root va; if pte =? 0 then Ok 0 else read_entry s pte) = Ok e) by exact He.
  destruct (tables !! (1%nat, prefix 1 va)) as [t|] eqn:T1.
  - destruct H as [E Hn]. rewrite E in Hrd |- *. revert Hrd. run. intros ->. run. destruct (Z.eqb_spec e 0) as [|Hne]; [done|].
    destruct (user_leaf_write s tables root free va t 0 SP Hva T1 ltac:(by unfold is_u64)) as (s' & -> & SP' & Sh & O & I & R). run.
    exists (flush s'). split_and!; [done|by apply user_space_flush| |done|done|cbn; by rewrite I]. destruct Sh as [? ? ? ?]. by split.
  - rewrite H in Hrd |- *. revert Hrd. run. by intros [= <-].
Qed.

(** ** Charging tables ahead *)

Lemma lacks_mono tables tables' k : tables ⊆ tables' -> (lacks tables' k <= lacks tables k)%nat.
Proof. intros H. unfold lacks. destruct (tables !! k) as [t|] eqn:E; [|by destruct (tables' !! k); lia]. by rewrite (lookup_weaken _ _ _ _ E H). Qed.

Lemma missing_mono tables tables' va : tables ⊆ tables' -> (missing tables' va <= missing tables va)%nat.
Proof.
  intros H. unfold missing. pose proof (lacks_mono tables tables' (3%nat, prefix 3 va) H).
  pose proof (lacks_mono tables tables' (2%nat, prefix 2 va) H). pose proof (lacks_mono tables tables' (1%nat, prefix 1 va) H). lia.
Qed.

(** A charge ended: granted, or refused with the knob spent or no frame left. *)
Definition charged (granted : Prop) s tables free r s' tables' root free' : Prop :=
  user_space s' tables' root free' /\ exists s0, extends (fun i => i < 256) s tables free s0 tables' free' /\
  ((r <> 0 /\ granted /\ s' = s0) \/
   (r = 0 /\ ~ granted /\ ((s' = s0 /\ free' = []) \/ (s' = s0 <| MiChargeFailNextTable := false |> /\ MiChargeFailNextTable s = true)))).

Lemma user_space_knob s tables root free b : user_space s tables root free -> user_space (s <| MiChargeFailNextTable := b |>) tables root free.
Proof. intros [A1 A2 A3 A4 A5 A6 A7 A8]. split; done. Qed.

Lemma charge_table s tables root free l p t i : user_space s tables root free -> tables !! (S (S l), p) = Some t ->
  0 <= i < 512 -> (l = 2%nat -> i < 256) ->
  exists r s' tables' free', MipChargeTable s (MiTableEntry s t i) user_flags = Ok (r, s') /\
    charged (is_Some (tables' !! (S l, p * 512 + i))) s tables free r s' tables' root free' /\
    (r <> 0 -> tables' !! (S l, p * 512 + i) = Some r) /\ forall k, k <> (S l, p * 512 + i) -> tables' !! k = tables !! k.
Proof.
  intros SP Ht Hi Hr. destruct (user_child s tables root free l p t i SP Ht Hi Hr) as (e & He & _ & _ & Hc). unfold MipChargeTable. rewrite He. run.
  pose proof (try_ensure _ _ _ s tables root free l p t i user_flags SP Ht Hi Hr user_flags_ok) as H. cbn zeta in H.
  destruct (has e PTE_PRESENT) eqn:Hp; cbn [negb andb]; rewrite Hc in H.
  - destruct H as (-> & Hn & _). exists (Z.land e PTE_ADDRESS), s, tables, free. split_and!; [done| |done..].
    split; [done|]. exists s. split; [apply extends_refl|]. left. rewrite Hc. split_and!; [done|by eexists|done].
  - destruct (MiChargeFailNextTable s) eqn:Hk.
    { exists 0, (s <| MiChargeFailNextTable := false |>), tables, free. split_and!; [done| |done..]. split; [by apply user_space_knob|].
      exists s. split; [apply extends_refl|]. right. split_and!; [done|rewrite Hc; by intros []|]. by right. }
    destruct H as (e' & He' & H). rewrite He in He'. injection He' as <-. rewrite Hp in H. destruct free as [|f free'].
    + rewrite H. exists 0, s, tables, []. split_and!; [done| |done..]. split; [done|]. exists s. split; [apply extends_refl|].
      right. split_and!; [done|rewrite Hc; by intros []|]. by left.
    + destruct H as (s' & -> & Hf & SP' & X). exists f, s', (<[(S l, p * 512 + i):=f]> tables), free'. split_and!; [done| |by rewrite lookup_insert_eq|].
      * split; [done|]. exists s'. split; [done|]. left. rewrite lookup_insert_eq. split_and!; [done|by eexists|done].
      * intros k Hne. by rewrite lookup_insert_ne.
Qed.

Lemma charged_after (granted granted' : Prop) s tables free s1 tables1 free1 r s' tables' root free' : extends (fun i => i < 256) s tables free s1 tables1 free1 ->
  (granted <-> granted') -> charged granted s1 tables1 free1 r s' tables' root free' -> charged granted' s tables free r s' tables' root free'.
Proof.
  intros X G (SP & s0 & X0 & H). split; [done|]. exists s0. split; [by apply (extends_trans _ _ _ _ _ _ _ _ _ _ X X0)|].
  rewrite (sh_knob _ _ (ex_shape _ _ _ _ _ _ _ X)) in H. tauto.
Qed.

Lemma charge_address_spec s tables root free va : user_space s tables root free -> 0 <= va < 2 ^ 47 ->
  exists r s' tables' free', charge_address s root va = Ok (r, s') /\ charged (missing tables' va = 0%nat) s tables free r s' tables' root free'.
Proof.
  intros SP Hva. pose proof (user_region va Hva) as Hr. unfold charge_address, missing.
  pose proof (prefix_step 3 va ltac:(lia)) as E3. pose proof (prefix_step 2 va ltac:(lia)) as E2. pose proof (prefix_step 1 va ltac:(lia)) as E1.
  rewrite prefix_top in E3.
  destruct (charge_table s tables root free 2 0 root (table_index 4 va) SP (sp_root _ _ _ _ _ _ _ SP) (table_index_bounds 4 va) ltac:(done))
    as (r3 & s1 & tb1 & f1 & -> & C1 & K1). rewrite <- E3 in C1, K1. run.
  assert (Hlacks : forall tb k, lacks tb k = 0%nat <-> is_Some (tb !! k)).
  { intros tb k. unfold lacks. destruct (tb !! k); split; first [done|by eexists|by intros []]. }
  destruct C1 as (SP1 & s01 & X1 & [(Hr1 & G1 & ->)|(-> & G1 & Hw)]).
  2: { cbn [Z.eqb]. exists 0, s1, tb1, f1. split; [done|]. split; [done|]. exists s01. split; [done|]. right. split_and!; [done| |done].
       intros Hm. apply G1, Hlacks. lia. }
  rewrite (proj2 (Z.eqb_neq r3 0)) by done. destruct K1 as [T1 K1]. specialize (T1 Hr1).
  destruct (charge_table s01 tb1 root f1 1 _ r3 (table_index 3 va) SP1 T1 (table_index_bounds 3 va) ltac:(done))
    as (r2 & s2 & tb2 & f2 & -> & C2 & T2 & K2). rewrite <- E2 in C2, T2, K2. run.
  destruct C2 as (SP2 & s02 & X2 & [(Hr2 & G2 & ->)|(-> & G2 & Hw)]).
  2: { cbn [Z.eqb]. exists 0, s2, tb2, f2. split; [done|]. apply (charged_after _ _ s tables free s01 tb1 f1 _ _ _ _ _ X1 (iff_refl _)).
       split; [done|]. exists s02. split; [done|]. right. split_and!; [done| |done]. intros Hm. apply G2, Hlacks. lia. }
  rewrite (proj2 (Z.eqb_neq r2 0)) by done. specialize (T2 Hr2).
  destruct (charge_table s02 tb2 root f2 0 _ r2 (table_index 2 va) SP2 T2 (table_index_bounds 2 va) ltac:(done))
    as (r1 & s3 & tb3 & f3 & -> & C3 & T3 & K3). rewrite <- E1 in C3, T3, K3. run.
  assert (G : is_Some (tb3 !! (1%nat, prefix 1 va)) <-> (lacks tb3 (3%nat, prefix 3 va) + lacks tb3 (2%nat, prefix 2 va) + lacks tb3 (1%nat, prefix 1 va))%nat = 0%nat).
  { rewrite <- Hlacks. assert (lacks tb3 (3%nat, prefix 3 va) = 0%nat /\ lacks tb3 (2%nat, prefix 2 va) = 0%nat); [|lia].
    split; apply Hlacks; [rewrite K3, K2 by done; by eexists|rewrite K3 by done; by eexists]. }
  pose proof (charged_after _ _ s tables free s02 tb2 f2 _ _ _ _ _ (extends_trans _ _ _ _ _ _ _ _ _ _ X1 X2) G C3) as C.
  destruct (Z.eqb_spec r1 0) as [->|Hr1'].
  - by exists 0, s3, tb3, f3.
  - exists 1, s3, tb3, f3. split; [done|]. destruct C as (SP3 & s03 & X3 & [(_ & ? & ?)|(? & _)]); [|done].
    split; [done|]. exists s03. split; [done|]. by left.
Qed.

Lemma land_floor (k a : Z) : 0 <= k <= 64 -> is_u64 a -> Z.land a (2 ^ 64 - 2 ^ k) = a - a mod 2 ^ k.
Proof.
  intros Hk Ha. replace (2 ^ 64 - 2 ^ k) with (Z.shiftl (Z.ones (64 - k)) k).
  2: { rewrite Z.shiftl_mul_pow2, Z.ones_equiv by lia. replace (2 ^ 64) with (2 ^ (64 - k) * 2 ^ k) by (rewrite <- Z.pow_add_r by lia; f_equal; lia). lia. }
  transitivity (Z.shiftl (Z.shiftr a k) k).
  - apply Z.bits_inj'. intros j Hj. rewrite Z.land_spec, !Z.shiftl_spec, Z.testbit_ones by lia.
    destruct (Z.leb_spec 0 (j - k)); cbn [andb].
    + rewrite Z.shiftr_spec by lia. replace (j - k + k) with j by lia. destruct (Z.ltb_spec (j - k) (64 - k)); [by rewrite andb_true_r|].
      rewrite andb_false_r. symmetry. rewrite <- (Z.mod_small a (2 ^ 64)) by done. apply Z.mod_pow2_bits_high. lia.
    + rewrite andb_false_r. symmetry. apply Z.testbit_neg_r. lia.
  - rewrite Z.shiftr_div_pow2, Z.shiftl_mul_pow2 by lia. pose proof (Z.div_mod a (2 ^ k) ltac:(lia)). lia.
Qed.

Lemma missing_block tables va va' : 0 <= va < 2 ^ 48 -> 0 <= va' < 2 ^ 48 -> va / LARGE_PAGE_SIZE = va' / LARGE_PAGE_SIZE -> missing tables va = missing tables va'.
Proof.
  intros H H' E. unfold LARGE_PAGE_SIZE in E. assert (E1 : prefix 1 va = prefix 1 va') by (unfold prefix; by rewrite !Z.mod_small by done).
  assert (E2 : prefix 2 va = prefix 2 va') by (unfold prefix; rewrite !Z.mod_small by done; cbn in *; Z.to_euclidean_division_equations; lia).
  assert (E3 : prefix 3 va = prefix 3 va') by (unfold prefix; rewrite !Z.mod_small by done; cbn in *; Z.to_euclidean_division_equations; lia).
  unfold missing. by rewrite E1, E2, E3.
Qed.

Lemma charge_range_spec fuel s tables root free va end_ : user_space s tables root free -> 0 <= va -> 0 <= end_ <= 2 ^ 47 ->
  Z.max 0 (end_ / LARGE_PAGE_SIZE + 1 - va / LARGE_PAGE_SIZE) < Z.of_nat fuel ->
  exists r s' tables' free', charge_range fuel s root va end_ = Ok (r, s') /\
    charged (forall a, va <= a < end_ -> missing tables' a = 0%nat) s tables free r s' tables' root free'.
Proof.
  revert s tables free va. induction fuel as [|fuel IH]; intros s tables free va SP Hva Hend Hf; [lia|]. cbn [charge_range].
  destruct (Z.ltb_spec va end_) as [Hlt|Hge].
  2: { exists 1, s, tables, free. split; [done|]. split; [done|]. exists s. split; [apply extends_refl|]. left. split_and!; [done|lia|done]. }
  rewrite (proj2 (Z.ltb_lt va (2 ^ 47))) by lia. run.
  destruct (charge_address_spec s tables root free va SP ltac:(lia)) as (r & s1 & tb1 & f1 & -> & C). run.
  destruct C as (SP1 & s01 & X1 & [(Hr & G & ->)|(-> & G & Hw)]).
  2: { exists 0, s1, tb1, f1. split; [done|]. split; [done|]. exists s01. split; [done|]. right. split_and!; [done| |done].
       intros Hall. apply G, Hall. lia. }
  rewrite (proj2 (Z.eqb_neq r 0)) by done. change (2 ^ 64 - LARGE_PAGE_SIZE) with (2 ^ 64 - 2 ^ 21). rewrite land_floor by (lia || (unfold is_u64; lia)).
  set (next := va - va mod 2 ^ 21 + LARGE_PAGE_SIZE).
  assert (Hn : va < next /\ next mod 2 ^ 21 = 0 /\ next / 2 ^ 21 = va / 2 ^ 21 + 1 /\ next <= 2 ^ 47)
    by (unfold next, LARGE_PAGE_SIZE; Z.to_euclidean_division_equations; lia).
  rewrite u64_small by (unfold is_u64; lia).
  destruct (IH s01 tb1 f1 next SP1 ltac:(lia) Hend) as (r' & s' & tb' & f' & -> & C').
  { assert (EL : LARGE_PAGE_SIZE = 2 ^ 21) by done. rewrite EL in Hf |- *. destruct Hn as (_ & _ & -> & _).
    pose proof (Z.div_le_mono va end_ (2 ^ 21)). lia. }
  exists r', s', tb', f'. split; [done|]. apply (charged_after _ _ s tables free s01 tb1 f1 _ _ _ _ _ X1) with (2 := C').
  split; [|intros H a Ha; apply H; lia]. intros H a Ha. destruct (decide (next <= a)); [apply H; lia|].
  destruct C' as (_ & s0' & X' & _). pose proof (missing_mono tb1 tb' va (ex_tables _ _ _ _ _ _ _ X')) as Hm.
  rewrite (missing_block tb' a va); [lia|lia..|]. unfold LARGE_PAGE_SIZE. Z.to_euclidean_division_equations; lia.
Qed.

(** A new address space: no user page mapped, the kernel half shared. *)
Lemma MiCreateUserPml4_spec s free : phys_ok (phys s) free -> Forall (fun f => f < 2 ^ 52) free -> MiKernelPml4IsFrozen s = true ->
  frame_ok (phys s) (MiKernelPml4 s) -> MiKernelPml4 s ∉ free ->
  match free with
  | [] => MiCreateUserPml4 s = Ok (0, s)
  | root :: free' => exists s', MiCreateUserPml4 s = Ok (root, s') /\ root <> 0 /\ user_space s' {[(4%nat, 0) := root]} root free' /\
      shape s s' /\ outside s s' {[(4%nat, 0) := root]} /\
      (forall va, 0 <= va < 2 ^ 47 -> user_pte s' root va = Ok 0) /\
      (forall i, 256 <= i < 512 -> word s' root i = word s (MiKernelPml4 s) i)
  end.
Proof.
  intros P Hlow Hfz Fk Hk. unfold MiCreateUserPml4. rewrite Hfz. run. pose proof (MiAllocatePage_spec (phys s) free P) as Ha.
  destruct free as [|f free']; [rewrite Ha; run; by destruct s|]. destruct Ha as (ph & -> & P' & Eph). run.
  assert (Ho : MiHhdmOffset ph = MiHhdmOffset (phys s)) by (by rewrite Eph).
  assert (Hm0 : memory ph = memory (phys s)) by (by rewrite Eph). clear Eph.
  pose proof (po_frames _ _ P) as Hff. apply Forall_cons in Hff as [F Hff]. pose proof (fr_pos _ _ F) as Hpos.
  pose proof (po_nodup _ _ P) as Hnd. apply NoDup_cons in Hnd as [Hnf _]. apply Forall_cons in Hlow as [Hf52 Hlow].
  pose proof (po_offset _ _ P) as H0.
  rewrite (proj2 (Z.eqb_neq f 0)) by lia. unfold MiPhysicalToVirtual. cbn [MiKernelPml4 set_field]. rewrite Ho.
  fold (MiFrameToVirtual (phys s) f) (MiFrameToVirtual (phys s) (MiKernelPml4 s)). rewrite !frame_virtual by done.
  set (o := MiHhdmOffset (phys s)) in *. change (PAGE_SIZE / 2) with 2048.
  assert (Hmf : mapped (memory ph) (o + f) 2048) by (rewrite Hm0; apply (mapped_le _ _ _ _ (fr_mapped _ _ F)); unfold PAGE_SIZE; lia).
  destruct (proj1 (returns_alt _ _) (memset_spec (memory ph) (o + f) 0 2048 ltac:(lia) Hmf)) as (m & -> & Hz). run.
  assert (D1 : forall x, is_Some (m !! x) <-> is_Some (memory (phys s) !! x)).
  { intros x. rewrite <- Hm0. by apply (written_dom (memory ph) (o + f) 2048 (fun _ => Some 0) m x). }
  assert (Hap : f + PAGE_SIZE <= MiKernelPml4 s \/ MiKernelPml4 s + PAGE_SIZE <= f)
    by (apply aligned_apart; [apply (fr_aligned _ _ F)|apply (fr_aligned _ _ Fk)|intros Hfk; apply Hk; rewrite <- Hfk; left]).
  unfold PAGE_SIZE in Hap.
  assert (Hmd : mapped m (o + f + 8 * 256) 2048).
  { intros i Hi. apply D1. replace (o + f + 8 * 256 + i) with (o + f + (2048 + i)) by lia. apply (fr_mapped _ _ F). unfold PAGE_SIZE. lia. }
  assert (Hms : mapped m (o + MiKernelPml4 s + 8 * 256) 2048).
  { intros i Hi. apply D1. replace (o + MiKernelPml4 s + 8 * 256 + i) with (o + MiKernelPml4 s + (2048 + i)) by lia. apply (fr_mapped _ _ Fk). unfold PAGE_SIZE. lia. }
  destruct (proj1 (returns_alt _ _) (memcpy_spec m (o + f + 8 * 256) (o + MiKernelPml4 s + 8 * 256) 2048 ltac:(lia) Hmd Hms ltac:(lia))) as (m' & -> & Hc). run.
  set (s' := with_memory (s <| phys := ph |>) m'). exists s'.
  assert (D2 : forall x, is_Some (m' !! x) <-> is_Some (memory (phys s) !! x)).
  { intros x. rewrite <- D1. apply (written_dom m (o + f + 8 * 256) 2048 (fun i => m !! (o + MiKernelPml4 s + 8 * 256 + i)) m' x); try done. }
  assert (W : same_window (phys s) (phys s')) by (by split).
  assert (Hout : forall x, ~ (o + f <= x < o + f + 4096) -> m' !! x = memory (phys s) !! x).
  { intros x Hx. rewrite (wr_out _ _ _ _ _ Hc), (wr_out _ _ _ _ _ Hz) by lia. by rewrite Hm0. }
  assert (Hzero : forall i, 0 <= i < 256 -> word s' f i = Ok 0).
  { intros i Hi. unfold word, slot. cbn [s' with_memory phys memory set_field].
    transitivity (load64 m (o + f + 8 * i)); [|by apply (filled_word _ _ _ _ _ Hz); lia].
    change (memory (phys s')) with m'. change (MiHhdmOffset (phys s')) with (MiHhdmOffset ph). rewrite Ho. fold o.
    apply load64_ext. intros x Hx. apply (wr_out _ _ _ _ _ Hc). lia. }
  assert (SP : user_space s' {[(4%nat, 0) := f]} f free').
  { split.
    - apply (phys_ok_memory ph m'); [done|intros x; rewrite D2; by rewrite Hm0|]. intros q Hq. rewrite Ho. fold o. apply load64_ext.
      intros x Hx. rewrite Hm0. apply Hout. rewrite Forall_forall in Hff.
      destruct (aligned_apart q f (fr_aligned _ _ (Hff q Hq)) (fr_aligned _ _ F)); [by intros ->|unfold PAGE_SIZE in *; lia..].
    - done.
    - by rewrite lookup_singleton_eq.
    - intros l p t [[= <- <-] _]%lookup_singleton_Some. lia.
    - intros k k' t [<- _]%lookup_singleton_Some [<- _]%lookup_singleton_Some. done.
    - intros k t [_ <-]%lookup_singleton_Some. split; [by apply (frame_ok_window (phys s))|done].
    - intros l p t i e [[= <- <-] <-]%lookup_singleton_Some Hi Hr He Hp. specialize (Hr eq_refl).
      rewrite Hzero in He by lia. injection He as <-. discriminate Hp.
    - intros l p t [[= <- _] _]%lookup_singleton_Some Hl. lia. }
  split_and!; [done|lia|exact SP|by split| | |].
  - intros x Hx. apply Hout. apply (Hx (4%nat, 0) f). by rewrite lookup_singleton_eq.
  - intros va Hva. destruct (user_pte_leaf _ _ _ _ va SP Hva) as (e & -> & He). unfold leaf_of in He.
    rewrite !lookup_singleton_ne in He by done. by injection He as <-.
  - intros i Hi. unfold word, slot. change (memory (phys s')) with m'. change (MiHhdmOffset (phys s')) with (MiHhdmOffset ph). rewrite Ho. fold o.
    apply load64_shift. intros j Hj. replace (o + f + 8 * i + j) with (o + f + 8 * 256 + (8 * (i - 256) + j)) by lia.
    rewrite (wr_in _ _ _ _ _ Hc) by lia. rewrite (wr_out _ _ _ _ _ Hz) by lia. rewrite Hm0. f_equal. lia.
Qed.

End user.

(** One frame of zeros behind a direct map at 0: an empty PML4 at 0x1000. *)
Definition example_memory : mem := list_to_map ((fun i => (i, 0)) <$> seqZ 0x1000 0x1000).
Definition example_mmu : mmu_state := mkmmu (mkphys 0 0 0 0 false example_memory) 0x1000 true 0 false.

Lemma example_memory_lookup x : 0x1000 <= x < 0x2000 -> example_memory !! x = Some 0.
Proof.
  intros Hx. apply elem_of_list_to_map_1.
  - rewrite <- list_fmap_compose. cbn. change (NoDup ((fun x : Z => x) <$> seqZ 0x1000 0x1000)). rewrite list_fmap_id. apply NoDup_seqZ.
  - apply list_elem_of_fmap. exists x. split; [done|]. apply elem_of_seqZ. lia.
Qed.

Lemma example_space : space (fun i => i < 256) false (Z.lor PTE_WRITE PTE_USER) example_mmu {[(4%nat, 0) := 0x1000]} 0x1000 [].
Proof.
  assert (Hz : forall i, 0 <= i < 512 -> word example_mmu 0x1000 i = Ok 0).
  { intros i Hi. apply (filled_word example_memory 0x1000 PAGE_SIZE); [|unfold slot; cbn; lia|unfold slot, PAGE_SIZE; cbn; lia].
    split; [|done]. intros j Hj. apply example_memory_lookup. unfold PAGE_SIZE in Hj. lia. }
  split.
  - split; cbn; try done; by constructor.
  - by constructor.
  - by rewrite lookup_singleton_eq.
  - intros l p t [[= <- <-] _]%lookup_singleton_Some. lia.
  - intros k k' t [<- _]%lookup_singleton_Some [<- _]%lookup_singleton_Some. done.
  - intros k t [_ <-]%lookup_singleton_Some. split; [|split; [done|apply not_elem_of_nil]].
    split; [done|done|by cbn|]. intros i Hi. unfold PAGE_SIZE in Hi. exists 0. apply example_memory_lookup. cbn. lia.
  - intros l p t i e [[= <- <-] <-]%lookup_singleton_Some Hi Hr He Hp. rewrite Hz in He by done. injection He as <-. discriminate Hp.
  - intros l p t [[= <- _] _]%lookup_singleton_Some Hl. lia.
Qed.

