(* ===== verification/Pages.v ===== *)
(** * Pages: what a kernel heap asks of the frame allocator and the page tables.

    The interface between the pool (files Kasan and Pool) and the layers below: a
    frame to be had, a page to be mapped.  The laws are discharged here for the
    code of arch/x86_64/mmu.c: the kernel half of its tables, 2 MiB pages
    included. *)

From S2P Require Import Prelude Bytes Memory Phys Mmu.

(** The two calls, and the bytes a frame shows once it is mapped. *)
Class PAGES (S : Type) := {
  page_allocate : S -> outcome (Z * S);
  page_map : S -> Z -> Z -> outcome S;
  frame_bytes : S -> Z -> list Z;
}.

(** [window]: the addresses the client maps; [frames_left]: the frames the allocator holds. *)
Class PAGES_OK (S : Type) {P : PAGES S} (window : Z -> Prop) := {
  pages_ok : S -> Prop;
  frames_left : S -> nat;
  frame_valid : Z -> Prop;
  page_mapped : S -> Z -> Prop;
  page_allocate_law : forall s, pages_ok s ->
    match frames_left s with
    | O => page_allocate s = Ok (0, s)
    | S n => exists f s', page_allocate s = Ok (f, s') /\ f <> 0 /\ frame_valid f /\ pages_ok s' /\ frames_left s' = n /\
        forall va, page_mapped s' va <-> page_mapped s va
    end;
  page_map_law : forall s va f, pages_ok s -> window va -> 0 <= va -> aligned va = true -> frame_valid f -> ~ page_mapped s va ->
    (frames_left s < 3 /\ page_map s va f = Panic out_of_tables)%nat \/
    exists s', page_map s va f = Ok s' /\ pages_ok s' /\ (frames_left s <= frames_left s' + 3)%nat /\
      forall va', window va' -> 0 <= va' -> aligned va' = true -> page_mapped s' va' <-> va' = va \/ page_mapped s va';
  frame_bytes_law : forall s f, pages_ok s -> frame_valid f -> length (frame_bytes s f) = Z.to_nat PAGE_SIZE;
}.

(** ** The kernel half of the page tables *)

Section kernel.
Implicit Types (s : mmu_state) (t p i e va pa : Z) (l : nat) (free : list Z) (tables : gmap (nat * Z) Z).

Abbreviation kernel_space := (fun s tables free => space (fun _ => True) true 0 s tables (MiKernelPml4 s) free).

Definition kernel_flags : Z := Z.lor (Z.lor PTE_PRESENT PTE_NX) PTE_WRITE.

Lemma kernel_entry pa : aligned pa = true -> 0 <= pa < 2 ^ 52 -> has (Z.lor pa kernel_flags) PTE_PRESENT = true /\ is_u64 (Z.lor pa kernel_flags).
Proof.
  intros Ap Hp. unfold has. rewrite Z.land_lor_distr_l, aligned_low, Z.lor_0_l by (done || (unfold PTE_PRESENT, PAGE_SIZE; lia)). split; [done|].
  assert (Hf : 0 < kernel_flags < 2 ^ 64) by done. split; [apply Z.lor_nonneg; lia|].
  destruct (decide (Z.lor pa kernel_flags = 0)) as [->|]; [lia|]. apply Z.log2_lt_pow2; [pose proof (proj2 (Z.lor_nonneg pa kernel_flags)); lia|].
  rewrite Z.log2_lor by lia. apply Z.max_lub_lt; [|apply Z.log2_lt_pow2; lia].
  destruct (decide (pa = 0)) as [->|]; [done|]. apply Z.log2_lt_pow2; lia.
Qed.

(** An entry of an upper table: a table below, a 2 MiB page, or nothing. *)
Lemma kernel_child s tables free l p t i : kernel_space s tables free -> tables !! (S (S l), p) = Some t -> 0 <= i < 512 ->
  exists e, read_entry s (MiTableEntry s t i) = Ok e /\ word s t i = Ok e /\ MiTableEntry s t i <> 0 /\
  (if has e PTE_PRESENT then
     (l = 0%nat /\ has e PTE_LARGE = true /\ tables !! (S l, p * 512 + i) = None) \/
     (has e PTE_LARGE = false /\ tables !! (S l, p * 512 + i) = Some (Z.land e PTE_ADDRESS))
   else tables !! (S l, p * 512 + i) = None).
Proof.
  intros SP Ht Hi. destruct (sp_frame _ _ _ _ _ _ _ SP _ _ Ht) as (Ft & _).
  destruct (entry_slot s t i (po_offset _ _ (sp_phys _ _ _ _ _ _ _ SP)) Ft Hi) as (Es & _ & Hn).
  destruct (space_word _ _ _ _ _ _ _ _ _ _ SP Ht Hi) as [e He]. exists e. unfold read_entry. rewrite Es. split_and!; [done..|].
  destruct (has e PTE_PRESENT) eqn:Hp.
  - destruct (sp_entry _ _ _ _ _ _ _ SP l p t i e Ht Hi ltac:(done) He Hp) as [(_ & ? & ? & ?)|[? ?]]; [by left|by right].
  - exact (absent_table _ _ _ s tables _ free l p t i e SP Ht Hi He Hp).
Qed.

Lemma kernel_parent_absent s tables free l p : kernel_space s tables free -> (l < 3)%nat ->
  tables !! (S (S l), p) = None -> forall i, 0 <= i < 512 -> tables !! (S l, p * 512 + i) = None.
Proof.
  intros SP Hl Hn i Hi. destruct (tables !! (S l, p * 512 + i)) as [c|] eqn:E; [|done].
  destruct (sp_parent _ _ _ _ _ _ _ SP l _ c E Hl) as (t' & e & Ht & _).
  replace ((p * 512 + i) / 512) with p in Ht by (Z.to_euclidean_division_equations; lia). congruence.
Qed.

(** The walk of the kernel tables reads what [leaf_of] says. *)
Lemma MiFindEntry_spec s tables free va : kernel_space s tables free -> exists e large, leaf_of s tables va = Ok (e, large) /\
  if has e PTE_PRESENT then exists a, MiFindEntry s va = Ok (a, large) /\ a <> 0 /\ read_entry s a = Ok e /\
    (large = false -> exists pt, tables !! (1%nat, prefix 1 va) = Some pt /\ a = MiTableEntry s pt (table_index 1 va))
  else MiFindEntry s va = Ok (0, false).
Proof.
  intros SP. unfold MiFindEntry, leaf_of.
  pose proof (prefix_step 3 va ltac:(lia)) as E3. pose proof (prefix_step 2 va ltac:(lia)) as E2. pose proof (prefix_step 1 va ltac:(lia)) as E1.
  rewrite prefix_top in E3.
  destruct (kernel_child s tables free 2 0 _ (table_index 4 va) SP (sp_root _ _ _ _ _ _ _ SP) (table_index_bounds 4 va)) as (e4 & -> & _ & _ & T3).
  rewrite <- E3 in T3. run. destruct (has e4 PTE_PRESENT); cbn [negb].
  2: { pose proof (kernel_parent_absent s tables free 1 (prefix 3 va) SP ltac:(lia) T3 _ (table_index_bounds 3 va)) as T2. rewrite <- E2 in T2.
       pose proof (kernel_parent_absent s tables free 0 (prefix 2 va) SP ltac:(lia) T2 _ (table_index_bounds 2 va)) as T1. rewrite <- E1 in T1.
       rewrite T1, T2. by exists 0, false. }
  destruct T3 as [(? & _)|[_ T3]]; [done|].
  destruct (kernel_child s tables free 1 _ _ (table_index 3 va) SP T3 (table_index_bounds 3 va)) as (e3 & -> & _ & _ & T2).
  rewrite <- E2 in T2. run. destruct (has e3 PTE_PRESENT); cbn [negb].
  2: { pose proof (kernel_parent_absent s tables free 0 (prefix 2 va) SP ltac:(lia) T2 _ (table_index_bounds 2 va)) as T1. rewrite <- E1 in T1.
       rewrite T1, T2. by exists 0, false. }
  destruct T2 as [(? & _)|[_ T2]]; [done|].
  destruct (kernel_child s tables free 0 _ _ (table_index 2 va) SP T2 (table_index_bounds 2 va)) as (e2 & R2 & W2 & N2 & T1).
  rewrite <- E1 in T1. rewrite R2. run. destruct (has e2 PTE_PRESENT) eqn:Hp; cbn [negb].
  2: { rewrite T1, T2, W2. run. rewrite Hp. by exists 0, false. }
  destruct T1 as [(_ & Hlg & T1)|[Hlg T1]]; rewrite Hlg.
  { rewrite T1, T2, W2. run. rewrite Hp. exists e2, true. split; [done|]. rewrite Hp. by exists (MiTableEntry s (Z.land e3 PTE_ADDRESS) (table_index 2 va)). }
  rewrite T1. destruct (sp_frame _ _ _ _ _ _ _ SP _ _ T1) as (Ft & _).
  destruct (entry_slot s _ (table_index 1 va) (po_offset _ _ (sp_phys _ _ _ _ _ _ _ SP)) Ft (table_index_bounds 1 va)) as (Es & _ & Hn).
  destruct (space_word _ _ _ _ _ _ _ _ _ _ SP T1 (table_index_bounds 1 va)) as [e He].
  assert (Hr : read_entry s (MiTableEntry s (Z.land e2 PTE_ADDRESS) (table_index 1 va)) = Ok e) by (unfold read_entry; by rewrite Es).
  rewrite Hr, He. run. exists e, false. split; [done|]. destruct (has e PTE_PRESENT) eqn:Hpe; cbn [negb]; [|done].
  eexists. split_and!; [done|by rewrite Es|done|]. intros _. by eexists.
Qed.

Lemma kernel_map s tables free va pa e large : kernel_space s tables free -> aligned va = true -> aligned pa = true -> 0 <= pa < 2 ^ 52 ->
  leaf_of s tables va = Ok (e, large) -> has e PTE_PRESENT = false ->
  (MiKernelPml4IsFrozen s = true -> is_Some (tables !! (3%nat, prefix 3 va))) ->
  if decide (missing tables va <= length free)%nat then
    exists s' tables' free', MiMapPage s va pa true = Ok s' /\ kernel_space s' tables' free' /\ tables ⊆ tables' /\ shape s s' /\
      length free = (missing tables va + length free')%nat /\
      forall va', leaf_of s' tables' va' = if decide (prefix 0 va' = prefix 0 va) then Ok (Z.lor pa kernel_flags, false) else leaf_of s tables va'
  else MiMapPage s va pa true = Panic out_of_tables.
Proof.
  intros SP Av Ap Hpa Hleaf Hnp Hfz. unfold MiMapPage, MiMapPageInternal. fold kernel_flags.
  change (has kernel_flags PTE_LARGE) with false. cbn match. fold (aligned va) (aligned pa). rewrite Av, Ap. run.
  destruct (kernel_child s tables free 2 0 _ (table_index 4 va) SP (sp_root _ _ _ _ _ _ _ SP) (table_index_bounds 4 va)) as (e4 & -> & _ & _ & T3).
  rewrite <- (prefix_top va), <- (prefix_step 3 va) in T3 by lia. run.
  assert (Hg : MiKernelPml4IsFrozen s && negb (has e4 PTE_PRESENT) = false).
  { destruct (MiKernelPml4IsFrozen s); [|done]. destruct (has e4 PTE_PRESENT); [done|]. rewrite T3 in Hfz. by destruct (Hfz eq_refl). }
  rewrite Hg. clear T3 Hg.
  assert (Hfl : table_flags 0 (Z.lor PTE_PRESENT PTE_WRITE)) by (split; [by unfold PAGE_SIZE; cbn|done..]).
  assert (Hnl : forall e', leaf_of s tables va <> Ok (e', true)).
  { intros e' He'. assert (e' = e /\ large = true) as [-> ->] by (split; congruence). unfold leaf_of in He'.
    destruct (tables !! (1%nat, prefix 1 va)) as [t|]; [destruct (word s t _); by inversion He'|].
    destruct (tables !! (2%nat, prefix 2 va)) as [t|]; [|done]. destruct (word s t _) as [w| | |]; [|by inversion He'..].
    revert He'. run. destruct (has w PTE_PRESENT) eqn:E; [|done]. intros [= ->]. congruence. }
  pose proof (descend_spec _ _ _ s tables _ free va _ SP I Hfl Hnl) as D. unfold descend in D. case_decide as Dm.
  2: { revert D. destruct (MiEnsureTable s _ _) as [[pdpt s1]|w| |]; run; [|by intros [= ->]|done..].
       destruct (MiEnsureTable s1 _ _) as [[pd s2]|w| |]; run; [|by intros [= ->]|done..]. by intros ->. }
  destruct D as (pt & s3 & tb3 & free3 & D & SP3 & T3 & X3 & F3). revert D.
  destruct (MiEnsureTable s _ _) as [[pdpt s1]| | |]; [|done..]. run.
  destruct (MiEnsureTable s1 _ _) as [[pd s2]| | |]; [|done..]. run. intros ->. run.
  pose proof (ex_leaf _ _ _ _ _ _ _ X3 va I) as Hl3. rewrite Hleaf in Hl3. unfold leaf_of in Hl3. rewrite T3 in Hl3.
  destruct (sp_frame _ _ _ _ _ _ _ SP3 _ _ T3) as (Fpt & _).
  destruct (entry_slot s3 pt (table_index 1 va) (po_offset _ _ (sp_phys _ _ _ _ _ _ _ SP3)) Fpt (table_index_bounds 1 va)) as (Es & _ & _).
  assert (Hread : read_entry s3 (MiTableEntry s3 pt (table_index 1 va)) = Ok e).
  { unfold read_entry. rewrite Es. fold (word s3 pt (table_index 1 va)). revert Hl3. destruct (word s3 pt (table_index 1 va)); run; congruence. }
  rewrite Hread. run. rewrite Hnp. destruct (kernel_entry pa Ap Hpa) as [_ Hu].
  destruct (leaf_write _ _ _ s3 tb3 _ free3 _ pt (table_index 1 va) _ SP3 T3 (table_index_bounds 1 va) Hu) as (s4 & -> & SP4 & Sh4 & I4 & O4 & L4).
  pose proof (shape_trans _ _ _ (ex_shape _ _ _ _ _ _ _ X3) Sh4) as Sh.
  exists s4, tb3, free3. split_and!; [done|by rewrite (sh_pml4 _ _ Sh)|apply (ex_tables _ _ _ _ _ _ _ X3)|done|done|].
  intros va'. rewrite L4, <- (prefix_step 0 va) by lia. case_decide; [done|]. apply (ex_leaf _ _ _ _ _ _ _ X3 va' I).
Qed.
End kernel.

(** ** The page tables keep the interface's laws *)

#[export] Instance mmu_pages : PAGES mmu_state := {
  page_allocate s := '(f, p) ← MiAllocatePage (phys s); Ok (f, s <| phys := p |>);
  page_map s va f := MiMapPage s va f true;
  frame_bytes s f := (fun i => default 0 (memory (phys s) !! u64 (MiHhdmOffset (phys s) + f + i))) <$> seqZ 0 PAGE_SIZE;
}.

(** Two top-level slots of the kernel half. *)
Definition heap_window (va : Z) : Prop :=
  0xFFFFA00000000000 <= va < 0xFFFFA00000000000 + 2 ^ 39 \/ 0xFFFFB00000000000 <= va < 0xFFFFB00000000000 + 2 ^ 39.

Section laws.
Implicit Types (s : mmu_state) (va f : Z) (free : list Z) (tables : gmap (nat * Z) Z).

(** Once the kernel half is frozen, the slots of the windows must exist. *)
Definition mmu_pages_ok s : Prop := exists tables free, space (fun _ => True) true 0 s tables (MiKernelPml4 s) free /\
  (MiKernelPml4IsFrozen s = true -> forall va, heap_window va -> is_Some (tables !! (3%nat, prefix 3 va))).

Definition mmu_page_mapped s va : Prop := exists a large, MiFindEntry s va = Ok (a, large) /\ a <> 0.

Lemma space_allocate s tables root f free : space (fun _ => True) true 0 s tables root (f :: free) ->
  exists p, MiAllocatePage (phys s) = Ok (f, p) /\ space (fun _ => True) true 0 (s <| phys := p |>) tables root free /\
    MiHhdmOffset p = MiHhdmOffset (phys s) /\ memory p = memory (phys s) /\ frame_ok (phys s) f /\ f < 2 ^ 52.
Proof.
  intros SP. pose proof (sp_phys _ _ _ _ _ _ _ SP) as P. pose proof (MiAllocatePage_spec _ _ P) as (p & E & P' & Ep). exists p.
  assert (Ho : MiHhdmOffset p = MiHhdmOffset (phys s)) by (by rewrite Ep). assert (Hm : memory p = memory (phys s)) by (by rewrite Ep). clear Ep.
  assert (W : same_window (phys s) p) by (split; [done|by rewrite Hm]).
  assert (Hw : forall t i, word (s <| phys := p |>) t i = word s t i) by (intros t i; unfold word, slot; cbn; by rewrite Ho, Hm).
  pose proof (po_frames _ _ P) as Hf. apply Forall_cons in Hf as [F _]. destruct SP as [A1 A2 A3 A4 A5 A6 A7 A8]. apply Forall_cons in A2 as [A2 A2'].
  split_and!; try done. split; try done.
  - intros k t Hk. destruct (A6 k t Hk) as (F1 & F2 & F3). split_and!; [by apply (frame_ok_window (phys s))|done|]. intros H. apply F3. by right.
  - intros l p0 t i e Hk Hi Hr. rewrite Hw. by apply (A7 l p0 t i e).
  - intros l p0 t Hk Hl. destruct (A8 l p0 t Hk Hl) as (t' & e & ? & ? & ? & ?). exists t', e. by rewrite Hw.
Qed.

Lemma mapped_leaf s tables free va : space (fun _ => True) true 0 s tables (MiKernelPml4 s) free ->
  mmu_page_mapped s va <-> exists e large, leaf_of s tables va = Ok (e, large) /\ has e PTE_PRESENT = true.
Proof.
  intros SP. destruct (MiFindEntry_spec s tables free va SP) as (e & large & He & H). unfold mmu_page_mapped. destruct (has e PTE_PRESENT) eqn:Hp.
  - destruct H as (a & -> & Ha & _). split; intros _; [by exists e, large|by exists a, large].
  - rewrite H. split; [by intros (a & lg & [= <- <-] & ?)|]. intros (e' & lg & He' & Hp'). congruence.
Qed.

Lemma heap_window_prefix va va' : heap_window va -> heap_window va' -> aligned va = true -> aligned va' = true ->
  prefix 0 va' = prefix 0 va <-> va' = va.
Proof.
  intros H H' A A'. split; [|by intros ->]. unfold prefix. cbn. rewrite aligned_spec in A, A'. unfold PAGE_SIZE in *. unfold heap_window in *.
  intros E. assert (va' mod 2 ^ 48 = va mod 2 ^ 48) by (Z.to_euclidean_division_equations; lia). Z.to_euclidean_division_equations. lia.
Qed.

#[export] Program Instance mmu_pages_laws : PAGES_OK mmu_state heap_window := {
  pages_ok := mmu_pages_ok;
  frames_left s := Z.to_nat (MiFreePageCount (phys s));
  frame_valid f := aligned f = true /\ 0 <= f < 2 ^ 52;
  page_mapped := mmu_page_mapped;
}.
Next Obligation.
  intros s (tables & free & SP & Hfz). pose proof (po_count _ _ (sp_phys _ _ _ _ _ _ _ SP)) as Hc. rewrite Hc, Nat2Z.id.
  destruct free as [|f free]; cbn [length].
  - cbn [page_allocate mmu_pages]. rewrite (MiAllocatePage_spec _ _ (sp_phys _ _ _ _ _ _ _ SP)). run. by destruct s.
  - destruct (space_allocate s tables _ f free SP) as (p & E & SP' & Ho & Hm & F & Hlow). exists f, (s <| phys := p |>).
    cbn [page_allocate mmu_pages]. rewrite E. pose proof (fr_pos _ _ F). pose proof (po_count _ _ (sp_phys _ _ _ _ _ _ _ SP')) as Hc'. cbn in Hc'.
    split_and!; [done|lia|apply (fr_aligned _ _ F)|lia|lia|by exists tables, free|cbn; lia|].
    intros va. rewrite (mapped_leaf s tables _ va SP), (mapped_leaf _ tables free va SP').
    assert (El : leaf_of (s <| phys := p |>) tables va = leaf_of s tables va); [|by rewrite El].
    unfold leaf_of, word, slot. cbn. by rewrite Ho, Hm.
Qed.
Next Obligation.
  intros s va f (tables & free & SP & Hfz) Hw H0 Av [Af Hf] Hnm. cbn [page_map mmu_pages].
  pose proof (po_count _ _ (sp_phys _ _ _ _ _ _ _ SP)) as Hc. rewrite Hc, Nat2Z.id.
  destruct (MiFindEntry_spec s tables free va SP) as (e & large & He & _).
  assert (Hp : has e PTE_PRESENT = false).
  { destruct (has e PTE_PRESENT) eqn:E; [|done]. destruct Hnm. apply (mapped_leaf s tables free va SP). by exists e, large. }
  pose proof (kernel_map s tables free va f e large SP Av Af Hf He Hp (fun Hz => Hfz Hz va Hw)) as M. case_decide as Dm.
  - right. destruct M as (s' & tb' & f' & -> & SP' & Sub & Sh & Hlen & L). exists s'. rewrite (sh_pml4 _ _ Sh) in SP'.
    assert (SP2 : space (fun _ => True) true 0 s' tb' (MiKernelPml4 s') f') by (by rewrite (sh_pml4 _ _ Sh)).
    split_and!; [done| | |].
    + exists tb', f'. split; [done|]. rewrite (sh_frozen _ _ Sh). intros Hz va' Hva'. destruct (Hfz Hz va' Hva') as [t Ht]. exists t.
      by apply (lookup_weaken _ _ _ _ Ht).
    + rewrite (po_count _ _ (sp_phys _ _ _ _ _ _ _ SP')), Nat2Z.id. assert (missing tables va <= 3)%nat by (unfold missing, lacks; repeat case_match; lia). lia.
    + intros va' Hw' Hva' Av'. rewrite (mapped_leaf s' tb' f' va' SP2), (mapped_leaf s tables free va' SP). rewrite L.
      pose proof (heap_window_prefix va va' Hw Hw' Av Av') as Hpre. case_decide as D.
      * split; [intros _; left; tauto|]. intros _. eexists _, _. split; [done|]. by apply kernel_entry.
      * split; [by right|]. intros [->|H]; [tauto|done].
  - left. split; [|done]. assert (missing tables va <= 3)%nat by (unfold missing, lacks; repeat case_match; lia). lia.
Qed.
Next Obligation. intros s f _ _. cbn [frame_bytes mmu_pages]. by rewrite length_fmap, length_seqZ. Qed.
End laws.
