(* ===== verification/Kasan.v ===== *)
(** * Kasan: the shadow of the pool (kernel/mm/kasan.c).

    One shadow byte per eight pool bytes, in a window of its own that grows page
    by page.  The compiler's entry points (the [__asan_*] hooks) are
    [MiKasanCheck] at fixed sizes; the report's text is left out. *)

From S2P Require Import Prelude Bytes Memory Phys Mmu Pages.

Definition MI_POOL_BASE : Z := 0xFFFFA00000000000.
Definition MI_KASAN_SHADOW_BASE : Z := 0xFFFFB00000000000.
Definition MI_KASAN_GRANULE : Z := 8.
Definition MI_KASAN_FREE : Z := 0xFB.
Definition MI_KASAN_REDZONE : Z := 0xFC.

(** [MiKasanReportCounter]: the value it points to, when set; [shadow]: the shadow window. *)
Record kasan := mkkasan {
  MiKasanReady : bool;
  MiKasanPoolEnd : Z;
  MiKasanShadowMapped : Z;
  MiKasanReportCounter : option Z;
  KiPanicInProgress : bool;
  shadow : mem;
}.

#[export] Instance eta_kasan : Eta kasan := {| eta_expand := fun k =>
  mkkasan (MiKasanReady k) (MiKasanPoolEnd k) (MiKasanShadowMapped k) (MiKasanReportCounter k) (KiPanicInProgress k) (shadow k) |}.

Definition MiKasanShadowFor (address : Z) : addr := u64 (MI_KASAN_SHADOW_BASE + u64 (address - MI_POOL_BASE) / MI_KASAN_GRANULE).

Definition MiKasanInitialize (k : kasan) : kasan :=
  k <| MiKasanReady := true |> <| MiKasanPoolEnd := MI_POOL_BASE |> <| MiKasanShadowMapped := MI_KASAN_SHADOW_BASE |> <| MiKasanReportCounter := None |>.

(** A page mapped at [va]: its bytes become visible. *)
Fixpoint put_bytes (m : mem) (va : addr) (l : list Z) : mem :=
  match l with
  | [] => m
  | b :: l' => <[va := b]> (put_bytes m (va + 1) l')
  end.

Section cover.
Context {S : Type} {P : PAGES S}.

(** The while loop of MiKasanCoverPool; [fuel] bounds its rounds. *)
Fixpoint cover_pages (fuel : nat) (k : kasan) (s : S) (shadowEnd : Z) : outcome (kasan * S) :=
  match fuel with
  | O => OutOfFuel
  | Datatypes.S fuel' =>
      if MiKasanShadowMapped k <? shadowEnd then
        '(frame, s) ← page_allocate s;
        if frame =? 0 then Panic "MiKasanCoverPool: out of physical memory for shadow" else
        s ← page_map s (MiKasanShadowMapped k) frame;
        m ← memset (put_bytes (shadow k) (MiKasanShadowMapped k) (frame_bytes s frame)) (MiKasanShadowMapped k) MI_KASAN_FREE PAGE_SIZE;
        cover_pages fuel' (k <| shadow := m |> <| MiKasanShadowMapped := u64 (MiKasanShadowMapped k + PAGE_SIZE) |>) s shadowEnd
      else Ok (k, s)
  end.

Definition MiKasanCoverPool (k : kasan) (s : S) (poolEnd : Z) : outcome (kasan * S) :=
  if negb (MiKasanReady k) then Ok (k, s) else
  let shadowEnd := MiKasanShadowFor poolEnd in
  '(k, s) ← cover_pages (Z.to_nat (Z.max 0 ((shadowEnd - MiKasanShadowMapped k) / PAGE_SIZE) + 2)) k s shadowEnd;
  Ok (k <| MiKasanPoolEnd := poolEnd |>, s).
End cover.

Definition MiKasanPoisonRange (k : kasan) (address size value : Z) : outcome kasan :=
  _ ← ASSERT ((address mod MI_KASAN_GRANULE =? 0) && (size mod MI_KASAN_GRANULE =? 0)) "(address % MI_KASAN_GRANULE) == 0";
  m ← memset (shadow k) (MiKasanShadowFor address) value (size / MI_KASAN_GRANULE);
  Ok (k <| shadow := m |>).

Definition MiKasanMarkAllocated (k : kasan) (data requestedBytes blockBytes : Z) : outcome kasan :=
  if negb (MiKasanReady k) then Ok k else
  k ← MiKasanPoisonRange k (u64 (data - 16)) 16 MI_KASAN_REDZONE;
  let wholeGranules := requestedBytes / MI_KASAN_GRANULE in
  let remainder := requestedBytes mod MI_KASAN_GRANULE in
  let shadow_ := MiKasanShadowFor data in
  m ← memset (shadow k) shadow_ 0 wholeGranules;
  '(m, poisonedGranules) ← (if negb (remainder =? 0)
    then m ← store m (shadow_ + wholeGranules) (u8 remainder); Ok (m, wholeGranules + 1)
    else Ok (m, wholeGranules));
  let dataGranules := u64 (blockBytes - 16) / MI_KASAN_GRANULE in
  _ ← ASSERT (poisonedGranules <=? dataGranules) "poisonedGranules <= dataGranules";
  m ← memset m (shadow_ + poisonedGranules) MI_KASAN_REDZONE (dataGranules - poisonedGranules);
  Ok (k <| shadow := m |>).

Definition MiKasanMarkFreed (k : kasan) (block blockBytes : Z) : outcome kasan :=
  if negb (MiKasanReady k) then Ok k else MiKasanPoisonRange k block blockBytes MI_KASAN_FREE.

Definition MiKasanSetReportCounter (k : kasan) (counter : option Z) : kasan := k <| MiKasanReportCounter := counter |>.

Definition MiKasanReport (k : kasan) (address : Z) : outcome kasan :=
  match MiKasanReportCounter k with
  | Some n => Ok (k <| MiKasanReportCounter := Some (s32 (n + 1)) |>)
  | None =>
      if KiPanicInProgress k then Ok k else
      shadowValue ← load (shadow k) (MiKasanShadowFor address);
      Panic (if shadowValue =? MI_KASAN_FREE then "KASAN: use after free" else "KASAN: out-of-bounds pool access")
  end.

Definition MiKasanByteOk (k : kasan) (address : Z) : outcome bool :=
  v ← load (shadow k) (MiKasanShadowFor address);
  Ok (if v =? 0 then true else if MI_KASAN_GRANULE <=? v then false else address mod MI_KASAN_GRANULE <? v).

(** The probe loop, [left] bytes to go. *)
Fixpoint check_bytes (k : kasan) (probe : Z) (left : nat) : outcome kasan :=
  match left with
  | O => Ok k
  | S left' =>
      ok ← MiKasanByteOk k probe;
      if negb ok then MiKasanReport k probe else check_bytes k (probe + 1) left'
  end.

Definition MiKasanCheck (k : kasan) (address size : Z) : outcome kasan :=
  if negb (MiKasanReady k) || (size =? 0) then Ok k else
  if (address <? MI_POOL_BASE) || (MiKasanPoolEnd k <? u64 (address + size)) || (u64 (address + size) <? address) then Ok k else
  check_bytes k address (Z.to_nat size).

Definition MiKasanCheckRange (k : kasan) (address size : Z) : outcome kasan := MiKasanCheck k address size.

(** ** The shadow is exact *)

Section shadow.
Implicit Types (k : kasan) (m : mem) (a x data request size value poolEnd v : Z).

(** The shadow byte of the granule of [x]. *)
Definition granule x : addr := MI_KASAN_SHADOW_BASE + (x - MI_POOL_BASE) / MI_KASAN_GRANULE.

Definition in_pool poolEnd x : Prop := MI_POOL_BASE <= x < poolEnd.

(** Shadow for the whole pool, and nothing allocated beyond its end. *)
Record kasan_ok k poolEnd : Prop := {
  ks_ready : MiKasanReady k = true;
  ks_end : MiKasanPoolEnd k = poolEnd;
  ks_range : MI_POOL_BASE <= poolEnd <= MI_POOL_BASE + 2 ^ 39;
  ks_granule : poolEnd mod 8 = 0;
  ks_covered : granule poolEnd <= MiKasanShadowMapped k <= MI_KASAN_SHADOW_BASE + 2 ^ 37;
  ks_page : MiKasanShadowMapped k mod PAGE_SIZE = 0;
  ks_mapped : forall x, MI_KASAN_SHADOW_BASE <= x < MiKasanShadowMapped k -> is_Some (shadow k !! x);
  ks_fresh : forall x, granule poolEnd <= x < MiKasanShadowMapped k -> shadow k !! x = Some MI_KASAN_FREE;
}.

(** The byte at [x] may be accessed. *)
Definition addressable m x : Prop := exists v, m !! granule x = Some v /\ (v = 0 \/ (v < 8 /\ x mod 8 < v)).

Lemma MiKasanShadowFor_granule x : MI_POOL_BASE <= x <= MI_POOL_BASE + 2 ^ 39 -> MiKasanShadowFor x = granule x.
Proof.
  intros Hx. unfold MiKasanShadowFor, granule. rewrite (u64_small (x - MI_POOL_BASE)) by (unfold is_u64, MI_POOL_BASE in *; lia).
  apply u64_small. unfold is_u64, MI_POOL_BASE, MI_KASAN_SHADOW_BASE, MI_KASAN_GRANULE in *. Z.to_euclidean_division_equations; lia.
Qed.

Lemma granule_mod x : x mod 8 = 0 -> 8 * (granule x - MI_KASAN_SHADOW_BASE) = x - MI_POOL_BASE.
Proof. intros Hx. unfold granule, MI_KASAN_GRANULE, MI_POOL_BASE, MI_KASAN_SHADOW_BASE in *. Z.to_euclidean_division_equations; lia. Qed.

(** [x] lies in the granules from that of [a] on. *)
Lemma granule_between a n x : a mod 8 = 0 -> granule a <= granule x < granule a + n <-> a <= x < a + 8 * n.
Proof.
  intros Ha. unfold granule, MI_KASAN_GRANULE, MI_POOL_BASE, MI_KASAN_SHADOW_BASE in *. Z.to_euclidean_division_equations. lia.
Qed.

Lemma byte_ok_spec k poolEnd x : kasan_ok k poolEnd -> in_pool poolEnd x ->
  exists b, MiKasanByteOk k x = Ok b /\ (b = true <-> addressable (shadow k) x).
Proof.
  intros K Hx. unfold MiKasanByteOk. pose proof (ks_range _ _ K). pose proof (ks_covered _ _ K). unfold in_pool in Hx. rewrite MiKasanShadowFor_granule by lia.
  assert (Hg : MI_KASAN_SHADOW_BASE <= granule x < MiKasanShadowMapped k).
  { pose proof (ks_granule _ _ K). unfold granule, MI_KASAN_GRANULE, MI_POOL_BASE, MI_KASAN_SHADOW_BASE in *. Z.to_euclidean_division_equations. lia. }
  destruct (ks_mapped _ _ K _ Hg) as [v Hv]. unfold load. rewrite Hv. run. eexists. split; [done|]. unfold addressable. rewrite Hv. unfold MI_KASAN_GRANULE.
  destruct (Z.eqb_spec v 0) as [->|Hne]; [split; [intros _; exists 0; auto|done]|].
  destruct (Z.leb_spec 8 v); [split; [done|]; intros (v' & [= <-] & [?|[? ?]]); lia|].
  rewrite Z.ltb_lt. split; [intros ?; exists v; auto|]. intros (v' & [= <-] & [?|[? ?]]); [done|lia].
Qed.

(** A run of granules set to one value. *)
Lemma memset_granules k poolEnd a n value : kasan_ok k poolEnd -> a mod 8 = 0 -> MI_POOL_BASE <= a -> 0 <= n -> a + 8 * n <= poolEnd -> is_u8 value ->
  exists m, memset (shadow k) (granule a) value n = Ok m /\ kasan_ok (k <| shadow := m |>) poolEnd /\
    (forall g, granule a <= g < granule a + n -> m !! g = Some value) /\
    (forall g, ~ (granule a <= g < granule a + n) -> m !! g = shadow k !! g).
Proof.
  intros K Ha H0 Hn He Hv. pose proof (ks_covered _ _ K) as Hc. pose proof (ks_range _ _ K) as Hr. pose proof (ks_granule _ _ K) as Hg.
  assert (Hgr : MI_KASAN_SHADOW_BASE <= granule a /\ granule a + n <= granule poolEnd).
  { unfold granule, MI_KASAN_GRANULE, MI_POOL_BASE, MI_KASAN_SHADOW_BASE in *. Z.to_euclidean_division_equations. lia. }
  assert (Hm : mapped (shadow k) (granule a) n) by (intros i Hi; apply (ks_mapped _ _ K); lia).
  destruct (proj1 (returns_alt _ _) (memset_spec (shadow k) (granule a) value n Hn Hm)) as (m & -> & W). exists m.
  assert (Ev : u8 value = value) by (unfold u8; apply Z.mod_small; done). rewrite Ev in W.
  assert (Hin : forall g, granule a <= g < granule a + n -> m !! g = Some value).
  { intros g Hg'. replace g with (granule a + (g - granule a)) by lia. apply (wr_in _ _ _ _ _ W). lia. }
  assert (Hout : forall g, ~ (granule a <= g < granule a + n) -> m !! g = shadow k !! g) by (intros g Hg'; by apply (wr_out _ _ _ _ _ W)).
  split; [done|]. split; [|done]. destruct K as [K1 K2 K3 K4 K5 K6 K7 K8]. split; cbn; try done.
  - intros x Hx. destruct (decide (granule a <= x < granule a + n)); [rewrite Hin by done; by eexists|rewrite Hout by done; by apply K7].
  - intros x Hx. rewrite Hout by lia. by apply K8.
Qed.

Lemma granule_add a n : a mod 8 = 0 -> granule a + n = granule (a + 8 * n).
Proof. intros Ha. unfold granule, MI_KASAN_GRANULE. Z.to_euclidean_division_equations; lia. Qed.

(** The shadow after one run of granules, byte by byte. *)
Lemma addressable_run m m' a n value x : a mod 8 = 0 ->
  (forall g, granule a <= g < granule a + n -> m' !! g = Some value) -> (forall g, ~ (granule a <= g < granule a + n) -> m' !! g = m !! g) ->
  addressable m' x <-> if decide (a <= x < a + 8 * n) then value = 0 \/ (value < 8 /\ x mod 8 < value) else addressable m x.
Proof.
  intros Ha Hin Hout. pose proof (granule_between a n x Ha) as G. unfold addressable. case_decide as D.
  - rewrite Hin by tauto. split; [by intros (v & [= <-] & ?)|by exists value].
  - by rewrite Hout by tauto.
Qed.

Lemma shadow_set k m : shadow (k <| shadow := m |>) = m.
Proof. done. Qed.

Lemma memset_1 m g value : memset m g value 1 = store m g (u8 value).
Proof. unfold memset. change (Z.to_nat 1) with 1%nat. cbn [fill_up]. by destruct (store m g (u8 value)). Qed.

Lemma MiKasanMarkAllocated_spec k poolEnd a req size : kasan_ok k poolEnd -> MI_POOL_BASE <= a -> a mod 8 = 0 -> size mod 8 = 0 ->
  a + size <= poolEnd -> 0 <= req -> 16 + req <= size ->
  exists k', MiKasanMarkAllocated k (a + 16) req size = Ok k' /\ kasan_ok k' poolEnd /\ MiKasanReportCounter k' = MiKasanReportCounter k /\ MiKasanShadowMapped k' = MiKasanShadowMapped k /\
    forall x, addressable (shadow k') x <-> if decide (a <= x < a + size) then a + 16 <= x < a + 16 + req else addressable (shadow k) x.
Proof.
  intros K H0 Ha Hs He Hreq Hfit. pose proof (ks_range _ _ K) as Hr. unfold MiKasanMarkAllocated, MiKasanPoisonRange.
  rewrite (ks_ready _ _ K). cbn [negb]. unfold MI_POOL_BASE in H0, Hr.
  replace (u64 (a + 16 - 16)) with a by (rewrite u64_small; unfold is_u64; lia). change MI_KASAN_GRANULE with 8. rewrite Ha. change (16 mod 8) with 0. cbn [Z.eqb]. run.
  change (16 / 8) with 2. rewrite (MiKasanShadowFor_granule a) by (unfold MI_POOL_BASE; lia).
  destruct (memset_granules k poolEnd a 2 MI_KASAN_REDZONE K Ha ltac:(unfold MI_POOL_BASE; lia) ltac:(lia) ltac:(lia) ltac:(by unfold is_u8, MI_KASAN_REDZONE)) as (m1 & E1 & K1 & I1 & O1).
  rewrite E1. run. set (data := a + 16). assert (Hd : data mod 8 = 0) by (unfold data; Z.to_euclidean_division_equations; lia).
  rewrite MiKasanShadowFor_granule by (unfold data, MI_POOL_BASE; lia). rewrite ?shadow_set.
  set (whole := req / 8). set (rem := req mod 8).
  assert (Hq : req = 8 * whole + rem /\ 0 <= rem < 8 /\ 0 <= whole) by (unfold whole, rem; Z.to_euclidean_division_equations; lia).
  destruct (memset_granules _ poolEnd data whole 0 K1 Hd ltac:(unfold data, MI_POOL_BASE; lia) ltac:(lia) ltac:(unfold data; lia) ltac:(by unfold is_u8)) as (m2 & E2 & K2 & I2 & O2).
  rewrite shadow_set in E2, O2. rewrite ?shadow_set, E2. run.
  assert (Hw : (data + 8 * whole) mod 8 = 0) by (Z.to_euclidean_division_equations; lia).
  rewrite u64_small by (unfold is_u64; lia).
  (* the trailing partial granule *)
  assert (Hrem : exists poisoned m3, (if negb (rem =? 0) then m ← store m2 (granule data + whole) (u8 rem); Ok (m, whole + 1) else Ok (m2, whole)) = Ok (m3, poisoned) /\
    kasan_ok (k <| shadow := m3 |>) poolEnd /\ whole <= poisoned /\ 8 * poisoned <= size - 16 /\
    (forall x, data <= x -> (x < data + 8 * poisoned) <-> (x < data + 8 * whole \/ (rem <> 0 /\ x < data + 8 * whole + 8))) /\
    forall x, addressable m3 x <-> if decide (data + 8 * whole <= x < data + 8 * poisoned) then x mod 8 < rem else addressable m2 x).
  { destruct (Z.eqb_spec rem 0) as [Hz|Hz]; cbn [negb].
    - exists whole, m2. split_and!; [done|exact K2|lia|lia|intros; lia|]. intros x. rewrite decide_False by lia. done.
    - assert (Hsz : 8 * (whole + 1) <= size - 16) by (Z.to_euclidean_division_equations; lia).
      destruct (memset_granules _ poolEnd (data + 8 * whole) 1 rem K2 Hw ltac:(unfold data, MI_POOL_BASE; lia) ltac:(lia) ltac:(unfold data; lia) ltac:(unfold is_u8; lia)) as (m3 & E3 & K3 & I3 & O3).
      rewrite granule_add, <- memset_1 by done. rewrite shadow_set in E3, O3. rewrite E3. run. exists (whole + 1), m3.
      split_and!; [done|exact K3|lia|lia|intros; lia|]. intros x. rewrite (addressable_run _ m3 _ _ _ x Hw I3 O3).
      replace (data + 8 * whole + 8 * 1) with (data + 8 * (whole + 1)) by lia. case_decide; [|done]. lia. }
  destruct Hrem as (poisoned & m3 & -> & K3 & Hp1 & Hp2 & Hp3 & A3). run.
  assert (Hdg : 8 * ((size - 16) / 8) = size - 16) by (Z.to_euclidean_division_equations; lia).
  rewrite (proj2 (Z.leb_le poisoned _)) by lia. run.
  assert (Hdp : (data + 8 * poisoned) mod 8 = 0) by (Z.to_euclidean_division_equations; lia).
  rewrite granule_add by done.
  destruct (memset_granules _ poolEnd (data + 8 * poisoned) ((size - 16) / 8 - poisoned) MI_KASAN_REDZONE K3 Hdp ltac:(unfold data, MI_POOL_BASE; lia) ltac:(lia) ltac:(unfold data; lia) ltac:(by unfold is_u8, MI_KASAN_REDZONE)) as (m4 & E4 & K4 & I4 & O4).
  rewrite shadow_set in E4, O4. rewrite E4. run. eexists. split; [done|]. split; [exact K4|]. split; [done|]. split; [done|]. rewrite ?shadow_set.
  intros x. rewrite (addressable_run _ m4 _ _ _ x Hdp I4 O4). replace (data + 8 * poisoned + 8 * ((size - 16) / 8 - poisoned)) with (a + size) by (unfold data; lia).
  pose proof (Hp3 x) as Hx. clear Hp3. unfold MI_KASAN_REDZONE in *.
  case_decide as D4.
  { rewrite decide_True by (unfold data in *; lia). split; [lia|]. intros H. exfalso. lia. }
  rewrite A3. case_decide as D3.
  { rewrite decide_True by (unfold data in *; lia). fold data. assert (rem <> 0) by lia. assert (x mod 8 = x - (data + 8 * whole)) by (Z.to_euclidean_division_equations; lia). lia. }
  rewrite (addressable_run _ m2 data whole 0 x Hd I2 O2). case_decide as D2.
  { rewrite decide_True by (unfold data in *; lia). fold data. split; [lia|by left]. }
  rewrite (addressable_run (shadow k) m1 a 2 0xFC x Ha I1 O1). case_decide as D1.
  { rewrite decide_True by lia. split; [lia|unfold data; lia]. }
  by rewrite decide_False by (unfold data in *; lia).
Qed.

Lemma MiKasanMarkFreed_spec k poolEnd a size : kasan_ok k poolEnd -> MI_POOL_BASE <= a -> a mod 8 = 0 -> size mod 8 = 0 -> 0 <= size ->
  a + size <= poolEnd ->
  exists k', MiKasanMarkFreed k a size = Ok k' /\ kasan_ok k' poolEnd /\ MiKasanReportCounter k' = MiKasanReportCounter k /\ MiKasanShadowMapped k' = MiKasanShadowMapped k /\
    forall x, addressable (shadow k') x <-> ~ (a <= x < a + size) /\ addressable (shadow k) x.
Proof.
  intros K H0 Ha Hs Hn He. pose proof (ks_range _ _ K) as Hr. unfold MiKasanMarkFreed, MiKasanPoisonRange.
  rewrite (ks_ready _ _ K). cbn [negb]. change MI_KASAN_GRANULE with 8. rewrite Ha, Hs. cbn [Z.eqb]. run.
  rewrite MiKasanShadowFor_granule by lia. assert (E8 : 8 * (size / 8) = size) by (Z.to_euclidean_division_equations; lia).
  destruct (memset_granules k poolEnd a (size / 8) MI_KASAN_FREE K Ha H0 ltac:(lia) ltac:(lia) ltac:(by unfold is_u8, MI_KASAN_FREE)) as (m & E & K' & I & O).
  rewrite E. run. eexists. split; [done|]. split; [exact K'|]. split; [done|]. split; [done|]. intros x. rewrite ?shadow_set.
  rewrite (addressable_run (shadow k) m a _ _ x Ha I O), E8. unfold MI_KASAN_FREE. case_decide; [lia|tauto].
Qed.
End shadow.

Lemma put_bytes_lookup m va l x : put_bytes m va l !! x =
  if decide (va <= x < va + Z.of_nat (length l)) then l !! Z.to_nat (x - va) else m !! x.
Proof.
  revert va. induction l as [|b l IH]; intros va; cbn [put_bytes length]; [by rewrite decide_False by lia|].
  destruct (decide (x = va)) as [->|Hne].
  - rewrite lookup_insert_eq, decide_True by lia. by rewrite Z.sub_diag.
  - rewrite lookup_insert_ne by done. rewrite IH. destruct (decide (va + 1 <= x < va + 1 + Z.of_nat (length l))).
    + rewrite decide_True by lia. by replace (Z.to_nat (x - va)) with (S (Z.to_nat (x - (va + 1)))) by lia.
    + by rewrite decide_False by lia.
Qed.

(** ** Growing the shadow with the pool *)

Section cover_spec.
Context {S : Type} {P : PAGES S} {window : Z -> Prop} {L : PAGES_OK S window}.
Implicit Types (k : kasan) (s : S) (e x va : Z).

(** The pages of the two windows in use: the heap below [e], the shadow below [m]. *)
Definition pages_below s e (m : Z) : Prop := forall va, window va -> 0 <= va -> aligned va = true -> page_mapped s va ->
  va < e \/ (MI_KASAN_SHADOW_BASE <= va < m).

Definition windows_ok : Prop := forall va, MI_POOL_BASE <= va < MI_POOL_BASE + 2 ^ 39 \/ MI_KASAN_SHADOW_BASE <= va < MI_KASAN_SHADOW_BASE + 2 ^ 39 -> window va.

(** One more page of heap: at most one page of shadow. *)
Lemma MiKasanCoverPool_spec k s e e' : windows_ok -> kasan_ok k e -> e' = e + PAGE_SIZE -> e' <= MI_POOL_BASE + 2 ^ 39 -> e <= MI_KASAN_SHADOW_BASE ->
  pages_ok s -> pages_below s e' (MiKasanShadowMapped k) ->
  ((frames_left s < 4)%nat /\ exists why, MiKasanCoverPool k s e' = Panic why) \/
  exists k' s', MiKasanCoverPool k s e' = Ok (k', s') /\ kasan_ok k' e' /\ MiKasanReportCounter k' = MiKasanReportCounter k /\
    pages_ok s' /\ (frames_left s <= frames_left s' + 4)%nat /\ pages_below s' e' (MiKasanShadowMapped k') /\
    (forall x, MI_POOL_BASE <= x < e' -> addressable (shadow k') x <-> x < e /\ addressable (shadow k) x).
Proof.
  intros Hwin K -> He' Hes Hs Hb. unfold MiKasanCoverPool. rewrite (ks_ready _ _ K). cbn [negb].
  pose proof (ks_range _ _ K) as Hr. pose proof (ks_covered _ _ K) as Hc. pose proof (ks_granule _ _ K) as Hg. pose proof (ks_page _ _ K) as Hp.
  rewrite MiKasanShadowFor_granule by (unfold PAGE_SIZE in *; lia).
  assert (Eg : granule (e + PAGE_SIZE) = granule e + 512) by (unfold PAGE_SIZE; rewrite granule_add by done; f_equal).
  assert (Hge : MI_KASAN_SHADOW_BASE <= granule e <= MI_KASAN_SHADOW_BASE + 2 ^ 36).
  { unfold granule, MI_KASAN_GRANULE, MI_POOL_BASE, MI_KASAN_SHADOW_BASE in *. Z.to_euclidean_division_equations; lia. }
  assert (Hgx : forall x, MI_POOL_BASE <= x < e + PAGE_SIZE -> (x < e <-> granule x < granule e) /\ MI_KASAN_SHADOW_BASE <= granule x < granule e + 512).
  { intros x Hx. unfold granule, MI_KASAN_GRANULE, MI_POOL_BASE, MI_KASAN_SHADOW_BASE, PAGE_SIZE in *. Z.to_euclidean_division_equations; lia. }
  assert (Hng : (e + PAGE_SIZE) mod 8 = 0) by (unfold PAGE_SIZE; Z.to_euclidean_division_equations; lia).
  rewrite Eg. set (fuel := Z.to_nat (Z.max 0 ((granule e + 512 - MiKasanShadowMapped k) / PAGE_SIZE))).
  replace (Z.to_nat (Z.max 0 ((granule e + 512 - MiKasanShadowMapped k) / PAGE_SIZE) + 2)) with (Datatypes.S (Datatypes.S fuel)) by (unfold fuel; lia).
  (* what holds of the bytes once the shadow covers the new page *)
  assert (Hfin : forall k2, kasan_ok (k2 <| MiKasanPoolEnd := e |>) e -> granule e + 512 <= MiKasanShadowMapped k2 ->
    (forall g, g < granule e -> shadow k2 !! g = shadow k !! g) ->
    kasan_ok (k2 <| MiKasanPoolEnd := e + PAGE_SIZE |>) (e + PAGE_SIZE) /\
    forall x, MI_POOL_BASE <= x < e + PAGE_SIZE -> addressable (shadow (k2 <| MiKasanPoolEnd := e + PAGE_SIZE |>)) x <-> x < e /\ addressable (shadow k) x).
  { intros k2 [A1 A2 A3 A4 A5 A6 A7 A8] Hcov Hsame. cbn in *. split.
    - split; cbn; try done; [unfold PAGE_SIZE in *; lia|rewrite Eg; lia|]. intros x Hx. apply A8. lia.
    - intros x Hx. destruct (Hgx x Hx) as [H1 H2]. unfold addressable. cbn. destruct (decide (x < e)) as [Hlt|Hge'].
      + rewrite Hsame by tauto. tauto.
      + rewrite A8 by lia. split; [|tauto]. unfold MI_KASAN_FREE. intros (v & [= <-] & [?|[? _]]); lia. }
  cbn [cover_pages]. destruct (Z.ltb_spec (MiKasanShadowMapped k) (granule e + 512)) as [Hlt|Hge'].
  2: { right. run. destruct (Hfin k) as [K' A']; [by destruct K|done|done|]. eexists _, s. split_and!; [done|done|done|done|lia|done|done]. }
  pose proof (page_allocate_law s Hs) as Ha. destruct (frames_left s) as [|n] eqn:Hn.
  { left. split; [lia|]. rewrite Ha. run. cbn [Z.eqb]. by eexists. }
  destruct Ha as (f & s1 & -> & Hf & Hv & Hs1 & Hn1 & Hm1). run. rewrite (proj2 (Z.eqb_neq f 0)) by done.
  assert (Hal : aligned (MiKasanShadowMapped k) = true) by by apply aligned_spec.
  assert (Hw : window (MiKasanShadowMapped k)) by (apply Hwin; right; lia).
  destruct (page_map_law s1 (MiKasanShadowMapped k) f Hs1 Hw ltac:(unfold MI_KASAN_SHADOW_BASE in *; lia) Hal Hv) as [[Hlow Hpan]|(s2 & -> & Hs2 & Hn2 & Hm2)].
  { rewrite Hm1. intros Hpm. destruct (Hb _ Hw ltac:(unfold MI_KASAN_SHADOW_BASE in *; lia) Hal Hpm) as [H|H]; [|lia].
    unfold MI_POOL_BASE, MI_KASAN_SHADOW_BASE in *. lia. }
  { left. split; [lia|]. rewrite Hpan. run. by eexists. }
  run. set (sm := MiKasanShadowMapped k) in *. pose proof (frame_bytes_law s2 f Hs2 Hv) as Hlen.
  assert (Hmap : mapped (put_bytes (shadow k) sm (frame_bytes s2 f)) sm PAGE_SIZE).
  { intros i Hi. rewrite put_bytes_lookup, Hlen, decide_True by (unfold PAGE_SIZE in *; lia). apply lookup_lt_is_Some_2. rewrite Hlen. unfold PAGE_SIZE in *. lia. }
  destruct (proj1 (returns_alt _ _) (memset_spec _ sm MI_KASAN_FREE PAGE_SIZE ltac:(done) Hmap)) as (m & -> & W). run.
  assert (Hin : forall g, sm <= g < sm + PAGE_SIZE -> m !! g = Some MI_KASAN_FREE).
  { intros g Hg'. replace g with (sm + (g - sm)) by lia. rewrite (wr_in _ _ _ _ _ W) by lia. done. }
  assert (Hout : forall g, ~ (sm <= g < sm + PAGE_SIZE) -> m !! g = shadow k !! g).
  { intros g Hg'. rewrite (wr_out _ _ _ _ _ W) by done. rewrite put_bytes_lookup, Hlen, decide_False by (unfold PAGE_SIZE in *; lia). done. }
  right. cbn [cover_pages]. rewrite u64_small by (unfold is_u64, MI_KASAN_SHADOW_BASE, PAGE_SIZE in *; lia).
  set (k2 := k <| shadow := m |> <| MiKasanShadowMapped := sm + PAGE_SIZE |>).
  change (MiKasanShadowMapped k2) with (sm + PAGE_SIZE). rewrite (proj2 (Z.ltb_ge _ _)) by (unfold PAGE_SIZE in *; lia). run.
  destruct (Hfin k2) as [K' A'].
  { destruct K as [A1 A2 A3 A4 A5 A6 A7 A8]. split; cbn; try done; fold sm.
    - unfold PAGE_SIZE, MI_KASAN_SHADOW_BASE in *. lia.
    - unfold PAGE_SIZE in *. Z.to_euclidean_division_equations; lia.
    - intros x Hx. destruct (decide (sm <= x < sm + PAGE_SIZE)); [rewrite Hin by done; by eexists|rewrite Hout by done; apply A7; lia].
    - intros x Hx. destruct (decide (sm <= x < sm + PAGE_SIZE)); [by apply Hin|rewrite Hout by done; apply A8; lia]. }
  { change (MiKasanShadowMapped k2) with (sm + PAGE_SIZE). unfold PAGE_SIZE. lia. }
  { intros g Hgl. apply Hout. lia. }
  eexists _, s2. split_and!; [done|exact K'|done|done|lia| |exact A'].
  intros va Hwva H0 Hav Hpm. destruct (proj1 (Hm2 va Hwva H0 Hav) Hpm) as [->|Hpm1].
  - right. cbn. unfold PAGE_SIZE. lia.
  - apply Hm1 in Hpm1. destruct (Hb va Hwva H0 Hav Hpm1) as [?|?]; [by left|]. right. cbn. unfold PAGE_SIZE. lia.
Qed.
End cover_spec.
