(* ===== verification/Pool.v ===== *)
(** * Pool: the kernel pool (kernel/mm/pool.c) over its shadow (file Kasan).

    A heap of headed blocks with an address-ordered free list, grown page by page
    through the interface of file Pages.  The heap is bytes; headers are the words
    the code reads and writes.  The self-test is left out. *)

From S2P Require Import Prelude Bytes Memory Phys Mmu Pages Kasan.

Definition MI_POOL_ALLOCATED_MAGIC : Z := 0x504F4F4C41.
Definition MI_POOL_FREE_MAGIC : Z := 0x504F4F4C46.
Definition MI_POOL_ALIGN : Z := 16.
Definition MI_POOL_MIN_SPLIT : Z := MI_POOL_ALIGN + MI_POOL_ALIGN.

Record pool_state (S : Type) := mkpool {
  MiPoolFreeList : Z;
  MiPoolEnd : Z;
  MiPoolBytesInUse : Z;
  in_drain : bool;
  heap : mem;
  pool_kasan : kasan;
  pages : S;
}.
Arguments mkpool {S}.
Arguments MiPoolFreeList {S}.
Arguments MiPoolEnd {S}.
Arguments MiPoolBytesInUse {S}.
Arguments in_drain {S}.
Arguments heap {S}.
Arguments pool_kasan {S}.
Arguments pages {S}.

#[export] Instance eta_pool_state S : Eta (pool_state S) := {| eta_expand := fun st =>
  mkpool (MiPoolFreeList st) (MiPoolEnd st) (MiPoolBytesInUse st) (in_drain st) (heap st) (pool_kasan st) (pages st) |}.

Section pool.
Context {S : Type} {P : PAGES S}.
Implicit Types (st : pool_state S) (block : addr).

(** ** MI_POOL_HEADER *)

Definition get_size st block : outcome Z := load64 (heap st) block.
Definition get_magic st block : outcome Z := load64 (heap st) (block + 8).
Definition get_nextFree st block : outcome Z := load64 (heap st) (block + 16).
Definition with_heap st (m : mem) : pool_state S := st <| heap := m |>.
Definition set_word st (a : addr) (v : Z) : outcome (pool_state S) := m ← store64 (heap st) a v; Ok (with_heap st m).
Definition set_size st block v := set_word st block v.
Definition set_magic st block v := set_word st (block + 8) v.
Definition set_nextFree st block v := set_word st (block + 16) v.

(** A [PMI_POOL_HEADER *]: the list head, or the nextFree field of a block. *)
Definition get_link st (link : option addr) : outcome Z :=
  match link with None => Ok (MiPoolFreeList st) | Some b => get_nextFree st b end.
Definition set_link st (link : option addr) (v : Z) : outcome (pool_state S) :=
  match link with None => Ok (st <| MiPoolFreeList := v |>) | Some b => set_nextFree st b v end.

(** More rounds than the heap can hold blocks. *)
Definition pool_fuel st : nat := Z.to_nat ((MiPoolEnd st - MI_POOL_BASE) / MI_POOL_MIN_SPLIT + 1).

Definition MiInitializePool st : pool_state S :=
  st <| MiPoolFreeList := 0 |> <| MiPoolEnd := MI_POOL_BASE |> <| MiPoolBytesInUse := 0 |>
     <| pool_kasan := MiKasanInitialize (pool_kasan st) |>.

Definition MiGetPoolBytesInUse st : Z := MiPoolBytesInUse st.

(** The walk to the insertion point. *)
Fixpoint find_link (fuel : nat) st (link : option addr) block : outcome (option addr) :=
  match fuel with
  | O => OutOfFuel
  | Datatypes.S fuel' =>
      next ← get_link st link;
      if negb (next =? 0) && (next <? block) then find_link fuel' st (Some next) block else Ok link
  end.

(** [first] swallows the free block [second] behind it. *)
Definition merge st first second : outcome (pool_state S) :=
  size ← get_size st first;
  size' ← get_size st second;
  st ← set_size st first (u64 (size + size'));
  next ← get_nextFree st second;
  st ← set_nextFree st first next;
  set_magic st second 0.

Definition MiInsertFreeBlock st block : outcome (pool_state S) :=
  size ← get_size st block;
  _ ← ASSERT ((MI_POOL_MIN_SPLIT <=? size) && (Z.land size (MI_POOL_ALIGN - 1) =? 0)) "block->size >= MI_POOL_MIN_SPLIT";
  _ ← ASSERT ((MI_POOL_BASE <=? block) && (u64 (block + size) <=? MiPoolEnd st)) "block >= MI_POOL_BASE";
  st ← set_magic st block MI_POOL_FREE_MAGIC;
  link ← find_link (pool_fuel st) st None block;
  linked ← get_link st link;
  st ← set_nextFree st block linked;
  st ← set_link st link block;
  next ← get_nextFree st block;
  size ← get_size st block;
  st ← (if negb (next =? 0) && (u64 (block + size) =? next) then merge st block next else Ok st);
  match link with
  | None => Ok st
  | Some previous =>
      size ← get_size st previous;
      if u64 (previous + size) =? block then merge st previous block else Ok st
  end.

(** The mapping loop: [left] pages to go; the pages mapped. *)
Fixpoint expand_pages (left : nat) st (mapped : Z) : outcome (Z * pool_state S) :=
  match left with
  | O => Ok (mapped, st)
  | Datatypes.S left' =>
      '(frame, s) ← page_allocate (pages st);
      if frame =? 0 then Ok (mapped, st <| pages := s |>) else
      s ← page_map s (MiPoolEnd st) frame;
      let h := put_bytes (heap st) (MiPoolEnd st) (frame_bytes s frame) in
      let end_ := u64 (MiPoolEnd st + PAGE_SIZE) in
      '(k, s) ← MiKasanCoverPool (pool_kasan st) s end_;
      expand_pages left' (st <| heap := h |> <| MiPoolEnd := end_ |> <| pool_kasan := k |> <| pages := s |>) (mapped + 1)
  end.

Definition MiExpandPool st (bytesNeeded : Z) : outcome (bool * pool_state S) :=
  let pages := u64 (bytesNeeded + PAGE_SIZE - 1) / PAGE_SIZE in
  let block := MiPoolEnd st in
  '(mapped, st) ← expand_pages (Z.to_nat pages) st 0;
  if mapped =? 0 then Ok (false, st) else
  st ← set_size st block (u64 (mapped * PAGE_SIZE));
  st ← MiInsertFreeBlock st block;
  Ok (mapped =? pages, st).

(** First fit: the link to the block taken, and the block. *)
Fixpoint first_fit (fuel : nat) st (link : option addr) (needed : Z) : outcome (option (option addr * addr)) :=
  match fuel with
  | O => OutOfFuel
  | Datatypes.S fuel' =>
      block ← get_link st link;
      if block =? 0 then Ok None else
      magic ← get_magic st block;
      if negb (magic =? MI_POOL_FREE_MAGIC) then Panic "MiAllocatePool: corrupt free list" else
      size ← get_size st block;
      if needed <=? size then Ok (Some (link, block)) else first_fit fuel' st (Some block) needed
  end.

(** The block handed out, its rest split off when that can be a block. *)
Definition take_block st (link : option addr) block (needed numberOfBytes : Z) : outcome (addr * pool_state S) :=
  size ← get_size st block;
  st ← (if MI_POOL_MIN_SPLIT <=? size - needed then
      let rest := u64 (block + needed) in
      st ← set_size st rest (size - needed);
      st ← set_magic st rest MI_POOL_FREE_MAGIC;
      next ← get_nextFree st block;
      st ← set_nextFree st rest next;
      st ← set_link st link rest;
      set_size st block needed
    else
      next ← get_nextFree st block;
      set_link st link next);
  st ← set_magic st block MI_POOL_ALLOCATED_MAGIC;
  size ← get_size st block;
  let st := st <| MiPoolBytesInUse := u64 (MiPoolBytesInUse st + size) |> in
  let data := u64 (block + MI_POOL_ALIGN) in
  k ← MiKasanMarkAllocated (pool_kasan st) data numberOfBytes size;
  m ← memset (heap st) data 0 numberOfBytes;
  Ok (data, st <| pool_kasan := k |> <| heap := m |>).

Definition needed_bytes (numberOfBytes : Z) : Z :=
  let needed := u64 (MI_POOL_ALIGN + Z.land (u64 (numberOfBytes + MI_POOL_ALIGN - 1)) (2 ^ 64 - MI_POOL_ALIGN)) in
  if needed <? MI_POOL_MIN_SPLIT then MI_POOL_MIN_SPLIT else needed.

(** [for (attempt ...)], [attempts] to go. *)
Fixpoint allocate_attempts (attempts : nat) st (needed numberOfBytes : Z) : outcome (addr * pool_state S) :=
  match attempts with
  | O => Ok (0, st)
  | Datatypes.S attempts' =>
      found ← first_fit (pool_fuel st) st None needed;
      match found with
      | Some (link, block) => take_block st link block needed numberOfBytes
      | None =>
          '(expanded, st) ← MiExpandPool st needed;
          if negb expanded then Ok (0, st) else allocate_attempts attempts' st needed numberOfBytes
      end
  end.

Definition MiAllocatePool st (numberOfBytes : Z) : outcome (addr * pool_state S) :=
  _ ← ASSERT (negb (in_drain st)) "!KiInCompletionDrain";
  if numberOfBytes =? 0 then Panic "MiAllocatePool: zero-byte allocation" else
  allocate_attempts 2 st (needed_bytes numberOfBytes) numberOfBytes.

Definition MiFreePool st (pointer : addr) : outcome (pool_state S) :=
  _ ← ASSERT (negb (in_drain st)) "!KiInCompletionDrain";
  if pointer =? 0 then Panic "MiFreePool: NULL pointer" else
  let block := u64 (pointer - MI_POOL_ALIGN) in
  magic ← get_magic st block;
  if negb (magic =? MI_POOL_ALLOCATED_MAGIC) then Panic "MiFreePool: bad block (double free or corruption)" else
  size ← get_size st block;
  _ ← ASSERT (size <=? MiPoolBytesInUse st) "MiPoolBytesInUse >= block->size";
  let st := st <| MiPoolBytesInUse := MiPoolBytesInUse st - size |> in
  k ← MiKasanMarkFreed (pool_kasan st) block size;
  MiInsertFreeBlock (st <| pool_kasan := k |>) block.
End pool.

(** ** The heap as a row of blocks *)

(** A block: its size, and the bytes requested when it is allocated. *)
Abbreviation blk := (Z * option Z)%type.

Section blocks.
Implicit Types (m : mem) (a b t x : Z) (bl pre post : list blk) (link : option addr).

Fixpoint span bl : Z := match bl with [] => 0 | (sz, _) :: bl' => sz + span bl' end.

(** The first free block of the row at [a]; [t] past its end. *)
Fixpoint first_free a bl t : Z :=
  match bl with
  | [] => t
  | (sz, None) :: _ => a
  | (sz, Some _) :: bl' => first_free (a + sz) bl' t
  end.

Definition block_magic (st : option Z) : Z := match st with None => MI_POOL_FREE_MAGIC | Some _ => MI_POOL_ALLOCATED_MAGIC end.

(** The headers in memory spell the row, and the free ones are linked in order. *)
Fixpoint headers m a bl t : Prop :=
  match bl with
  | [] => True
  | (sz, st) :: bl' =>
      load64 m a = Ok sz /\ load64 m (a + 8) = Ok (block_magic st) /\
      (st = None -> load64 m (a + 16) = Ok (first_free (a + sz) bl' t)) /\ headers m (a + sz) bl' t
  end.

Definition block_ok (b : blk) : Prop :=
  MI_POOL_MIN_SPLIT <= b.1 /\ b.1 mod MI_POOL_ALIGN = 0 /\ match b.2 with None => True | Some r => 0 < r /\ MI_POOL_ALIGN + r <= b.1 end.

Fixpoint coalesced bl : Prop :=
  match bl with
  | (_, None) :: ((_, None) :: _) => False
  | _ :: bl' => coalesced bl'
  | [] => True
  end.

(** The allocations: data address and bytes requested. *)
Fixpoint live a bl : list (Z * Z) :=
  match bl with
  | [] => []
  | (sz, None) :: bl' => live (a + sz) bl'
  | (sz, Some r) :: bl' => (a + MI_POOL_ALIGN, r) :: live (a + sz) bl'
  end.

Fixpoint in_use bl : Z := match bl with [] => 0 | (sz, None) :: bl' => in_use bl' | (sz, Some _) :: bl' => sz + in_use bl' end.

(** [x] is a byte somebody asked for. *)
Definition requested a bl x : Prop := exists p r, (p, r) ∈ live a bl /\ p <= x < p + r.

Definition all_taken bl : Prop := Forall (fun b : blk => is_Some b.2) bl.

Lemma span_app pre post : span (pre ++ post) = span pre + span post.
Proof. induction pre as [|[sz st] pre IH]; cbn; [done|]. rewrite IH. lia. Qed.

Lemma span_nonneg bl : Forall block_ok bl -> 0 <= span bl.
Proof. induction 1 as [|[sz st] bl [H _] _ IH]; cbn in *; unfold MI_POOL_MIN_SPLIT, MI_POOL_ALIGN in *; lia. Qed.

Lemma first_free_app a pre post t : first_free a (pre ++ post) t = first_free a pre (first_free (a + span pre) post t).
Proof.
  revert a. induction pre as [|[sz [r|]] pre IH]; intros a; cbn; [by rewrite Z.add_0_r|rewrite IH; do 2 f_equal; lia|done].
Qed.

Lemma first_free_bounds a bl t e : Forall block_ok bl -> 0 <= a -> a + span bl <= e -> 0 <= t <= e -> 0 <= first_free a bl t <= e.
Proof.
  intros Hok. revert a. induction Hok as [|[sz [r|]] bl [H _] Hok IH]; intros a H0 He Ht; cbn in *; [done| |pose proof (span_nonneg _ Hok)];
    unfold MI_POOL_MIN_SPLIT, MI_POOL_ALIGN in *; [apply IH|]; lia.
Qed.

Lemma first_free_taken a bl t : all_taken bl -> first_free a bl t = t.
Proof. intros H. revert a. induction H as [|[sz st] bl [r Hr] _ IH]; intros a; [done|]. cbn in *. subst. apply IH. Qed.

Lemma headers_app m a pre post t : headers m a (pre ++ post) t <->
  headers m a pre (first_free (a + span pre) post t) /\ headers m (a + span pre) post t.
Proof.
  revert a. induction pre as [|[sz st] pre IH]; intros a; cbn; [rewrite Z.add_0_r; tauto|].
  rewrite IH, first_free_app, !Z.add_assoc. tauto.
Qed.

Lemma headers_taken m a bl t t' : all_taken bl -> headers m a bl t -> headers m a bl t'.
Proof.
  intros H. revert a. induction H as [|[sz st] bl [r Hr] _ IH]; intros a; [done|]. cbn in *. subst.
  intros (?&?&_&?). split_and!; try done. by apply IH.
Qed.

Lemma headers_frame m m' a bl t : Forall block_ok bl -> (forall x, a <= x < a + span bl -> m' !! x = m !! x) -> headers m a bl t -> headers m' a bl t.
Proof.
  intros Hok. revert a. induction Hok as [|[sz st] bl [H1 H2] Hok IH]; intros a Hx; [done|]. cbn in *. intros (A1 & A2 & A3 & A4).
  pose proof (span_nonneg bl Hok). unfold MI_POOL_MIN_SPLIT, MI_POOL_ALIGN in *.
  split_and!.
  - rewrite <- A1. apply load64_ext. intros x ?. apply Hx. lia.
  - rewrite <- A2. apply load64_ext. intros x ?. apply Hx. lia.
  - intros Hs. rewrite <- (A3 Hs). apply load64_ext. intros x ?. apply Hx. lia.
  - apply IH; [|done]. intros x ?. apply Hx. lia.
Qed.

Lemma live_app a pre post : live a (pre ++ post) = live a pre ++ live (a + span pre) post.
Proof.
  revert a. induction pre as [|[sz [r|]] pre IH]; intros a; cbn; [by rewrite Z.add_0_r|rewrite IH; cbn; by rewrite Z.add_assoc|].
  rewrite IH. by rewrite Z.add_assoc.
Qed.

Lemma in_use_app pre post : in_use (pre ++ post) = in_use pre + in_use post.
Proof. induction pre as [|[sz [r|]] pre IH]; cbn; [done|rewrite IH; lia|done]. Qed.

(** Allocations lie inside their row. *)
Lemma live_bounds a bl p r : Forall block_ok bl -> (p, r) ∈ live a bl -> a + MI_POOL_ALIGN <= p /\ 0 < r /\ p + r <= a + span bl /\ (p - a) mod 16 = 0.
Proof.
  intros Hok. revert a. induction Hok as [|[sz st] bl [H1 [H2 H3]] Hok IH]; intros a; cbn in *; [by intros ?%elem_of_nil|].
  pose proof (span_nonneg bl Hok). unfold MI_POOL_MIN_SPLIT, MI_POOL_ALIGN in *.
  assert (Hrec : (p, r) ∈ live (a + sz) bl -> a + 16 <= p /\ 0 < r /\ p + r <= a + (sz + span bl) /\ (p - a) mod 16 = 0).
  { intros Hin%IH. split_and!; try lia. Z.to_euclidean_division_equations; lia. }
  destruct st as [r0|]; [|done]. intros [[= -> ->]|Hin]%elem_of_cons; [|auto]. split_and!; try lia. Z.to_euclidean_division_equations; lia.
Qed.

(** Distinct allocations do not overlap. *)
Lemma live_disjoint a bl : Forall block_ok bl -> ForallOrdPairs (fun u v : Z * Z => u.1 + u.2 <= v.1) (live a bl).
Proof.
  intros Hok. revert a. induction Hok as [|[sz [r|]] bl [H1 [H2 H3]] Hok IH]; intros a; cbn in *; [constructor| |apply IH].
  constructor; [|apply IH]. apply Forall_forall. intros [p r'] Hin. apply (live_bounds _ _ _ _ Hok) in Hin. cbn. unfold MI_POOL_ALIGN in *. lia.
Qed.

Lemma requested_app a pre post x : requested a (pre ++ post) x <-> requested a pre x \/ requested (a + span pre) post x.
Proof.
  unfold requested. rewrite live_app. setoid_rewrite elem_of_app. split.
  - intros (p & r & [H|H] & Hx); [left|right]; by exists p, r.
  - intros [(p & r & H & Hx)|(p & r & H & Hx)]; exists p, r; tauto.
Qed.

Lemma requested_cons a sz st bl x : requested a ((sz, st) :: bl) x <->
  (exists r, st = Some r /\ a + MI_POOL_ALIGN <= x < a + MI_POOL_ALIGN + r) \/ requested (a + sz) bl x.
Proof.
  unfold requested. destruct st as [r|]; cbn.
  - setoid_rewrite elem_of_cons. split.
    + intros (p & r' & [[= -> ->]|H] & Hx); [left; by exists r|right; by exists p, r'].
    + intros [(r' & [= <-] & Hx)|(p & r' & H & Hx)]; [exists (a + MI_POOL_ALIGN), r; tauto|exists p, r'; tauto].
  - split; [by right|]. intros [(r & [=] & _)|H]; done.
Qed.

Lemma requested_bounds a bl x : Forall block_ok bl -> requested a bl x -> a <= x < a + span bl.
Proof. intros Hok (p & r & H & Hx). apply (live_bounds _ _ _ _ Hok) in H. unfold MI_POOL_ALIGN in H. lia. Qed.

(** The last free block of a row, as the link that leads past it. *)
Fixpoint last_link link a bl : option addr :=
  match bl with
  | [] => link
  | (sz, None) :: bl' => last_link (Some a) (a + sz) bl'
  | (sz, Some _) :: bl' => last_link link (a + sz) bl'
  end.

Lemma last_link_cases link a bl : (all_taken bl /\ last_link link a bl = link) \/
  exists p1 sz p2, bl = p1 ++ (sz, None) :: p2 /\ all_taken p2 /\ last_link link a bl = Some (a + span p1).
Proof.
  revert link a. induction bl as [|[sz [r|]] bl IH]; intros link a; cbn; [left; by split; [constructor|]| |].
  - destruct (IH link (a + sz)) as [[H E]|(p1 & s & p2 & -> & H & ->)].
    + left. split; [|done]. constructor; [by eexists|done].
    + right. exists ((sz, Some r) :: p1), s, p2. split_and!; [done..|]. cbn. f_equal. lia.
  - destruct (IH (Some a) (a + sz)) as [[H E]|(p1 & s & p2 & -> & H & ->)].
    + right. exists [], sz, bl. split_and!; [done..|]. rewrite E. f_equal. cbn. lia.
    + right. exists ((sz, None) :: p1), s, p2. split_and!; [done..|]. cbn. f_equal. lia.
Qed.

Lemma blocks_count bl : Forall block_ok bl -> Z.of_nat (length bl) <= span bl / MI_POOL_MIN_SPLIT.
Proof.
  intros Hok. apply Z.div_le_lower_bound; [done|]. induction Hok as [|[sz st] bl [H _] _ IH]; cbn in *; unfold MI_POOL_MIN_SPLIT, MI_POOL_ALIGN in *; lia.
Qed.
End blocks.

(** ** The operations on the row *)

Section rows.
Context {S : Type} {P : PAGES S}.
Implicit Types (st : pool_state S) (m : mem) (a x t sz : Z) (bl pre post : list blk) (link : option addr).

Definition BASE := MI_POOL_BASE.

(** The heap memory below [e] is all there, and addresses stay clear of wrap-around. *)
Definition heap_mapped m e : Prop := mapped m MI_POOL_BASE (e - MI_POOL_BASE) /\ MI_POOL_BASE <= e <= MI_POOL_BASE + 2 ^ 39.

(** Memory changed at most inside [a, a + n). *)
Definition changed_in a (n : Z) m m' : Prop := (forall x, ~ (a <= x < a + n) -> m' !! x = m !! x) /\ forall x, is_Some (m' !! x) <-> is_Some (m !! x).

Lemma changed_refl a n m : changed_in a n m m.
Proof. done. Qed.

Lemma changed_trans a n m1 m2 m3 : changed_in a n m1 m2 -> changed_in a n m2 m3 -> changed_in a n m1 m3.
Proof. intros [A1 B1] [A2 B2]. split; intros x; [intros Hx; by rewrite A2, A1|by rewrite B2]. Qed.

Lemma changed_mono a n a' n' m m' : changed_in a n m m' -> a' <= a -> a + n <= a' + n' -> changed_in a' n' m m'.
Proof. intros [A1 B1] H1 H2. split; [|done]. intros x Hx. apply A1. lia. Qed.

Lemma stored_changed m b v m' a n : stored m b v m' -> a <= b -> b + 8 <= a + n -> changed_in a n m m'.
Proof. intros [A B C] H1 H2. split; [|done]. intros x Hx. apply B. lia. Qed.

Lemma changed_mapped a n m m' e : changed_in a n m m' -> heap_mapped m e -> heap_mapped m' e.
Proof. intros [_ D] [H1 H2]. split; [|done]. intros i Hi. by apply D, H1. Qed.

Lemma set_word_spec st b v e : heap_mapped (heap st) e -> MI_POOL_BASE <= b -> b + 8 <= e -> is_u64 v ->
  exists m, set_word st b v = Ok (with_heap st m) /\ stored (heap st) b v m.
Proof.
  intros [Hm _] H1 H2 Hv. unfold set_word.
  destruct (proj1 (returns_alt _ _) (store64_spec (heap st) b v ltac:(apply (mapped_sub _ _ _ _ _ Hm); lia) Hv)) as (m & -> & W). run. by exists m.
Qed.

Lemma headers_changed m m' a bl t b n : Forall block_ok bl -> changed_in b n m m' -> a + span bl <= b \/ b + n <= a -> headers m a bl t -> headers m' a bl t.
Proof. intros Hok [Hc _] Hap. apply headers_frame; [done|]. intros x Hx. apply Hc. lia. Qed.

Lemma merge_spec st pre s1 s2 post e : Forall block_ok (pre ++ (s1, None) :: (s2, None) :: post) ->
  heap_mapped (heap st) e -> MI_POOL_BASE + span (pre ++ (s1, None) :: (s2, None) :: post) <= e ->
  headers (heap st) MI_POOL_BASE (pre ++ (s1, None) :: (s2, None) :: post) 0 ->
  let first := MI_POOL_BASE + span pre in
  exists m, merge st first (first + s1) = Ok (with_heap st m) /\ headers m MI_POOL_BASE (pre ++ (s1 + s2, None) :: post) 0 /\
    changed_in first (s1 + s2) (heap st) m /\ load64 m (first + s1 + 8) = Ok 0.
Proof.
  intros Hok Hm He Hh first. apply Forall_app in Hok as [Hpre Hok]. apply Forall_cons in Hok as [H1 Hok]. apply Forall_cons in Hok as [H2 Hpost].
  pose proof (span_nonneg _ Hpre). pose proof (span_nonneg _ Hpost). rewrite span_app in He. cbn [span] in He.
  destruct H1 as [H1 _], H2 as [H2 _]. cbn in H1, H2. unfold MI_POOL_MIN_SPLIT, MI_POOL_ALIGN in *.
  apply headers_app in Hh as [Hh1 Hh2]. cbn [headers first_free] in Hh1, Hh2. fold first in Hh1, Hh2.
  destruct Hh2 as (W1 & M1 & N1 & W2 & M2 & N2 & Hh2). specialize (N1 eq_refl). specialize (N2 eq_refl).
  assert (Hb : MI_POOL_BASE <= first /\ first + s1 + s2 <= e) by (unfold first; lia).
  pose proof (proj2 Hm) as Hr. assert (Hu : forall v, 0 <= v <= e -> is_u64 v) by (intros v ?; unfold is_u64, MI_POOL_BASE in *; lia).
  unfold merge, get_size, get_nextFree, set_size, set_nextFree, set_magic. rewrite W1. run. rewrite W2. run.
  rewrite u64_small by (apply Hu; unfold MI_POOL_BASE in *; lia).
  destruct (set_word_spec st first (s1 + s2) e Hm ltac:(lia) ltac:(lia) ltac:(apply Hu; unfold MI_POOL_BASE in *; lia)) as (m1 & -> & S1). run.
  change (heap (with_heap st m1)) with m1.
  rewrite (stored_load _ _ _ _ _ S1) by lia. rewrite N2. run.
  pose proof (stored_changed _ _ _ _ first (s1 + s2) S1 ltac:(lia) ltac:(lia)) as C1.
  assert (Hnext : 0 <= first_free (first + s1 + s2) post 0 <= e).
  { apply first_free_bounds; unfold first, MI_POOL_BASE in *; try done; lia. }
  destruct (set_word_spec (with_heap st m1) (first + 16) (first_free (first + s1 + s2) post 0) e (changed_mapped _ _ _ _ _ C1 Hm) ltac:(lia) ltac:(lia) ltac:(by apply Hu)) as (m2 & -> & S2). run.
  change (heap (with_heap st m1)) with m1 in S2.
  pose proof (changed_trans _ _ _ _ _ C1 (stored_changed _ _ _ _ first (s1 + s2) S2 ltac:(lia) ltac:(lia))) as C2.
  change (with_heap (with_heap st m1) m2) with (with_heap st m2).
  destruct (set_word_spec (with_heap st m2) (first + s1 + 8) 0 e (changed_mapped _ _ _ _ _ C2 Hm) ltac:(lia) ltac:(lia) ltac:(by unfold is_u64)) as (m3 & -> & S3).
  change (heap (with_heap st m2)) with m2 in S3.
  pose proof (changed_trans _ _ _ _ _ C2 (stored_changed _ _ _ _ first (s1 + s2) S3 ltac:(lia) ltac:(lia))) as C3.
  exists m3. split; [done|]. split; [|split; [done|apply (st_word _ _ _ _ S3)]]. apply headers_app. cbn [headers first_free]. fold first. split; [|split_and!].
  - apply (headers_changed _ _ _ _ _ _ _ Hpre C3); [unfold first; lia|done].
  - rewrite (stored_load _ _ _ _ _ S3), (stored_load _ _ _ _ _ S2) by lia. apply (st_word _ _ _ _ S1).
  - rewrite (stored_load _ _ _ _ _ S3), (stored_load _ _ _ _ _ S2), (stored_load _ _ _ _ _ S1) by lia. done.
  - intros _. rewrite (stored_load _ _ _ _ _ S3) by lia. rewrite Z.add_assoc. apply (st_word _ _ _ _ S2).
  - rewrite Z.add_assoc. apply (headers_changed _ _ _ _ _ _ _ Hpost C3); [lia|done].
Qed.

(** The walk stops behind the last free block below the one inserted. *)
Lemma find_link_spec fuel st link a pre t block : Forall block_ok pre -> headers (heap st) a pre t -> get_link st link = Ok (first_free a pre t) ->
  t = 0 \/ block <= t -> 0 < a -> a + span pre <= block -> (length pre < fuel)%nat ->
  find_link fuel st link block = Ok (last_link link a pre) /\ get_link st (last_link link a pre) = Ok t.
Proof.
  intros Hok. revert fuel link a. induction Hok as [|[sz [r|]] pre [Hz _] Hok IH]; intros fuel link a Hh Hl Ht H0 Hb Hf.
  - destruct fuel as [|fuel]; [lia|]. cbn in *. rewrite Hl. run. destruct (Z.eqb_spec t 0); cbn [negb andb]; [done|].
    rewrite (proj2 (Z.ltb_ge t block)) by lia. done.
  - cbn [headers first_free last_link span length fst] in *. destruct Hh as (_ & _ & _ & Hh). unfold MI_POOL_MIN_SPLIT, MI_POOL_ALIGN in *.
    apply IH; try done; lia.
  - cbn [headers first_free last_link span length fst] in *. destruct Hh as (_ & _ & Hn & Hh). unfold MI_POOL_MIN_SPLIT, MI_POOL_ALIGN in *.
    destruct fuel as [|fuel]; [lia|]. cbn [find_link]. rewrite Hl. run. pose proof (span_nonneg _ Hok).
    rewrite (proj2 (Z.eqb_neq a 0)), (proj2 (Z.ltb_lt a block)) by lia. cbn [negb andb].
    apply IH; try done; [by apply Hn|lia..].
Qed.

Lemma first_free_above a bl : Forall block_ok bl -> 0 < a -> first_free a bl 0 = 0 \/ a <= first_free a bl 0.
Proof.
  intros Hok. revert a. induction Hok as [|[sz [r|]] bl [H _] Hok IH]; intros a H0; cbn in *; [by left| |by right].
  unfold MI_POOL_MIN_SPLIT, MI_POOL_ALIGN in *. destruct (IH (a + sz)); [lia|by left|right; lia].
Qed.

(** The last link of a row redirected: to [v] instead of what follows the row. *)
Lemma relink st pre t v e : Forall block_ok pre -> heap_mapped (heap st) e -> MI_POOL_BASE + span pre <= e ->
  headers (heap st) MI_POOL_BASE pre t -> MiPoolFreeList st = first_free MI_POOL_BASE pre t -> is_u64 v ->
  exists m fl, set_link st (last_link None MI_POOL_BASE pre) v = Ok (with_heap st m <| MiPoolFreeList := fl |>) /\
    headers m MI_POOL_BASE pre v /\ fl = first_free MI_POOL_BASE pre v /\ changed_in MI_POOL_BASE (span pre) (heap st) m /\
    forall x, requested MI_POOL_BASE pre x -> m !! x = heap st !! x.
Proof.
  intros Hpre Hm He Hh Hfl Hv. destruct (last_link_cases None MI_POOL_BASE pre) as [[Htk ->]|(p1 & s0 & p2 & -> & Htk & ->)]; cbn [set_link].
  { exists (heap st), v. split_and!; [by destruct st|by apply (headers_taken _ _ _ t)|by rewrite first_free_taken|apply changed_refl|done]. }
  set (L := MI_POOL_BASE + span p1). rewrite span_app in He |- *. cbn [span] in He |- *.
  apply Forall_app in Hpre as [Hp1 Hpre]. apply Forall_cons in Hpre as [[Hs0 Ha0] Hp2]. cbn in Hs0. unfold MI_POOL_MIN_SPLIT, MI_POOL_ALIGN in Hs0.
  pose proof (span_nonneg _ Hp1). pose proof (span_nonneg _ Hp2). unfold set_nextFree.
  destruct (set_word_spec st (L + 16) v e Hm ltac:(unfold L; lia) ltac:(unfold L; lia) Hv) as (m & -> & W). exists m, (MiPoolFreeList st).
  split; [by destruct st|]. apply headers_app in Hh as [Q1 Q2]. cbn [headers first_free] in Q1, Q2. fold L in Q1, Q2. destruct Q2 as (Q2 & Q3 & _ & Q4).
  split; [|split; [|split]].
  - apply headers_app. cbn [headers first_free]. fold L. split_and!.
    + apply (headers_frame (heap st)); [done|intros x Hx; apply (st_out _ _ _ _ W); unfold L; lia|done].
    + by rewrite (stored_load _ _ _ _ _ W) by lia.
    + by rewrite (stored_load _ _ _ _ _ W) by lia.
    + intros _. rewrite first_free_taken by done. apply (st_word _ _ _ _ W).
    + apply (headers_taken _ _ _ t); [done|]. apply (headers_frame (heap st)); [done|intros x Hx; apply (st_out _ _ _ _ W); lia|done].
  - rewrite Hfl. by rewrite !first_free_app.
  - apply (stored_changed _ _ _ _ _ _ W); unfold L; lia.
  - intros x Hx. apply (st_out _ _ _ _ W). apply requested_app in Hx as [Hx|Hx]; [apply requested_bounds in Hx; [unfold L in *; lia|done]|].
    apply requested_cons in Hx as [(r & [=] & _)|Hx]. apply requested_bounds in Hx; [fold L in Hx; lia|done].
Qed.

(** The row, its free list and its memory, as one fact about a state. *)
Record row st bl : Prop := {
  rw_ok : Forall block_ok bl;
  rw_end : MiPoolEnd st = MI_POOL_BASE + span bl;
  rw_mapped : heap_mapped (heap st) (MiPoolEnd st);
  rw_headers : headers (heap st) MI_POOL_BASE bl 0;
  rw_head : MiPoolFreeList st = first_free MI_POOL_BASE bl 0;
}.

(** The row without the block at [BASE + span pre], which is on no list; only its
    size is in memory. *)
Record gap st pre sz post : Prop := {
  gp_pre : Forall block_ok pre;
  gp_block : block_ok (sz, None);
  gp_post : Forall block_ok post;
  gp_end : MiPoolEnd st = MI_POOL_BASE + span pre + sz + span post;
  gp_mapped : heap_mapped (heap st) (MiPoolEnd st);
  gp_headers : headers (heap st) MI_POOL_BASE pre (first_free (MI_POOL_BASE + span pre + sz) post 0);
  gp_headers' : headers (heap st) (MI_POOL_BASE + span pre + sz) post 0;
  gp_size : load64 (heap st) (MI_POOL_BASE + span pre) = Ok sz;
  gp_head : MiPoolFreeList st = first_free MI_POOL_BASE pre (first_free (MI_POOL_BASE + span pre + sz) post 0);
}.

(** Nothing but the list head and the memory changed, and no requested byte. *)
Definition only_headers st st' bl : Prop := exists m fl, st' = with_heap st m <| MiPoolFreeList := fl |> /\
  (forall x, is_Some (m !! x) <-> is_Some (heap st !! x)) /\ forall x, requested MI_POOL_BASE bl x -> m !! x = heap st !! x.

Lemma gap_link st pre sz post : gap st pre sz post -> let A := MI_POOL_BASE + span pre in let t := first_free (A + sz) post 0 in
  exists st', (st1 ← set_magic st A MI_POOL_FREE_MAGIC; link ← find_link (pool_fuel st1) st1 None A; linked ← get_link st1 link;
    st2 ← set_nextFree st1 A linked; st3 ← set_link st2 link A; Ok (link, st3)) = Ok (last_link None MI_POOL_BASE pre, st') /\
    row st' (pre ++ (sz, None) :: post) /\ only_headers st st' (pre ++ (sz, None) :: post).
Proof.
  intros [Hpre [Hsz Hal] Hpost He Hm Hh Hh' Hs Hfl] A t. cbn in Hsz. destruct Hal as [Hal _]. cbn in Hal. fold A in He, Hh, Hh', Hs, Hfl. fold t in Hh, Hfl.
  pose proof (span_nonneg _ Hpre) as Np. pose proof (span_nonneg _ Hpost) as Nq. unfold MI_POOL_MIN_SPLIT, MI_POOL_ALIGN in Hsz.
  pose proof (proj2 Hm) as Hr. set (e := MiPoolEnd st) in *.
  assert (HA : MI_POOL_BASE <= A /\ A + sz <= e) by (unfold A; lia).
  assert (Hu : forall v, 0 <= v <= e -> is_u64 v) by (intros v ?; unfold is_u64, MI_POOL_BASE in *; lia).
  assert (Ht : 0 <= t <= e) by (apply first_free_bounds; unfold MI_POOL_BASE in *; try done; lia).
  assert (Ht' : t = 0 \/ A <= t) by (destruct (first_free_above (A + sz) post Hpost ltac:(unfold MI_POOL_BASE in *; lia)); [by left|right; unfold t; lia]).
  unfold set_magic, set_nextFree.
  destruct (set_word_spec st (A + 8) MI_POOL_FREE_MAGIC e Hm ltac:(lia) ltac:(lia) ltac:(by unfold is_u64)) as (m1 & -> & S1). run.
  pose proof (stored_changed _ _ _ _ A sz S1 ltac:(lia) ltac:(lia)) as C1.
  assert (Hh1 : headers m1 MI_POOL_BASE pre t) by (apply (headers_changed _ _ _ _ _ _ _ Hpre C1); [left; unfold A; lia|done]).
  set (st1 := with_heap st m1).
  destruct (find_link_spec (pool_fuel st1) st1 None MI_POOL_BASE pre t A Hpre Hh1 ltac:(cbn; by rewrite Hfl) Ht' ltac:(done) ltac:(unfold A; lia)) as [Ef El].
  { unfold pool_fuel. pose proof (blocks_count _ Hpre) as Hc. change (MiPoolEnd st1) with e.
    assert (span pre / MI_POOL_MIN_SPLIT <= (e - MI_POOL_BASE) / MI_POOL_MIN_SPLIT) by (apply Z.div_le_mono; [done|lia]). lia. }
  rewrite Ef. run. rewrite El. run.
  destruct (set_word_spec st1 (A + 16) t e (changed_mapped _ _ _ _ _ C1 Hm) ltac:(lia) ltac:(lia) ltac:(by apply Hu)) as (m2 & -> & S2). run.
  change (heap st1) with m1 in S2. change (with_heap st1 m2) with (with_heap st m2).
  pose proof (changed_trans _ _ _ _ _ C1 (stored_changed _ _ _ _ A sz S2 ltac:(lia) ltac:(lia))) as C2.
  assert (Hrow : forall m3, (forall x, A <= x < A + sz + span post -> m3 !! x = m2 !! x) -> headers m3 A ((sz, None) :: post) 0).
  { intros m3 H3. apply (headers_frame m2); [by constructor|cbn [span]; intros x Hx; apply H3; lia|]. cbn [headers]. split_and!.
    - rewrite (stored_load _ _ _ _ _ S2), (stored_load _ _ _ _ _ S1) by lia. done.
    - rewrite (stored_load _ _ _ _ _ S2) by lia. apply (st_word _ _ _ _ S1).
    - intros _. apply (st_word _ _ _ _ S2).
    - apply (headers_changed _ _ _ _ _ _ _ Hpost C2); [right; lia|done]. }
  assert (Hreq : forall x, requested MI_POOL_BASE (pre ++ (sz, None) :: post) x -> MI_POOL_BASE <= x < A \/ A + sz <= x).
  { intros x [H|H]%requested_app; [left; by apply requested_bounds in H|]. right. apply requested_cons in H as [(r & [=] & _)|H].
    apply requested_bounds in H; [fold A in H; lia|done]. }
  pose proof (changed_mapped _ _ _ _ _ C2 Hm) as Hm2.
  assert (Hh2 : headers m2 MI_POOL_BASE pre t) by (apply (headers_changed _ _ _ _ _ _ _ Hpre C2); [left; unfold A; lia|done]).
  destruct (relink (with_heap st m2) pre t A e Hpre Hm2 ltac:(unfold A in *; lia) Hh2 Hfl ltac:(apply Hu; unfold MI_POOL_BASE in *; lia))
    as (m3 & fl & -> & Hh3 & Efl & C3 & R3). run. eexists. split; [reflexivity|]. change (heap (with_heap st m2)) with m2 in C3, R3. split.
  - split; cbn.
    + apply Forall_app. split; [done|]. by constructor.
    + rewrite span_app. cbn. fold e. unfold A in *. lia.
    + by apply (changed_mapped _ _ _ _ _ C3).
    + apply headers_app. fold A. cbn [first_free]. split; [done|]. apply Hrow. intros x Hx. apply C3. unfold A in Hx. lia.
    + by rewrite first_free_app.
  - exists m3, fl. split; [done|]. split; [intros x; rewrite (proj2 C3); apply C2|]. intros x Hx. pose proof (Hreq x Hx).
    rewrite <- (proj1 C2 x) by lia. apply requested_app in Hx as [Hx|Hx]; [by apply R3|]. apply C3. apply requested_cons in Hx as [(r & [=] & _)|Hx].
    apply requested_bounds in Hx; [unfold A in *; lia|done].
Qed.

Lemma requested_live a bl bl' x : live a bl' = live a bl -> requested a bl' x <-> requested a bl x.
Proof. unfold requested. by intros ->. Qed.

Lemma only_headers_refl st bl : only_headers st st bl.
Proof. exists (heap st), (MiPoolFreeList st). by destruct st. Qed.

Lemma only_headers_trans st1 st2 st3 bl bl' : live MI_POOL_BASE bl' = live MI_POOL_BASE bl -> only_headers st1 st2 bl -> only_headers st2 st3 bl' ->
  only_headers st1 st3 bl.
Proof.
  intros El (m1 & f1 & -> & D1 & R1) (m2 & f2 & -> & D2 & R2). exists m2, f2. split; [done|].
  change (heap (with_heap st1 m1 <| MiPoolFreeList := f1 |>)) with m1 in D2, R2. split; [intros x; by rewrite D2|].
  intros x Hx. rewrite R2; [by apply R1|by apply (requested_live _ bl)].
Qed.

Lemma live_merge pre s1 s2 post : live MI_POOL_BASE (pre ++ (s1 + s2, None) :: post) = live MI_POOL_BASE (pre ++ (s1, None) :: (s2, None) :: post).
Proof. rewrite !live_app. cbn. by rewrite Z.add_assoc. Qed.

Lemma in_use_merge pre s1 s2 post : in_use (pre ++ (s1 + s2, None) :: post) = in_use (pre ++ (s1, None) :: (s2, None) :: post).
Proof. by rewrite !in_use_app. Qed.

Lemma row_merge st pre s1 s2 post : row st (pre ++ (s1, None) :: (s2, None) :: post) -> let A := MI_POOL_BASE + span pre in
  exists st', merge st A (A + s1) = Ok st' /\ row st' (pre ++ (s1 + s2, None) :: post) /\
    only_headers st st' (pre ++ (s1, None) :: (s2, None) :: post) /\ load64 (heap st') (A + s1 + 8) = Ok 0.
Proof.
  intros [Hok He Hm Hh Hfl] A. destruct (merge_spec st pre s1 s2 post (MiPoolEnd st) Hok Hm ltac:(lia) Hh) as (m & E & Hh' & C & Hz).
  exists (with_heap st m). apply Forall_app in Hok as Hok'. destruct Hok' as [Hpre Hok']. apply Forall_cons in Hok' as [[H1 [H1' _]] Hok'].
  apply Forall_cons in Hok' as [[H2 [H2' _]] Hpost]. cbn in H1, H1', H2, H2'. split; [exact E|]. split; [|split; [|exact Hz]].
  - split.
    + apply Forall_app. split; [done|]. constructor; [|done]. unfold block_ok, MI_POOL_MIN_SPLIT, MI_POOL_ALIGN in *. cbn. split_and!; [lia| |done].
      Z.to_euclidean_division_equations; lia.
    + cbn. rewrite He, !span_app. cbn. lia.
    + by apply (changed_mapped _ _ _ _ _ C).
    + exact Hh'.
    + cbn. rewrite Hfl, !first_free_app. done.
  - exists m, (MiPoolFreeList st). split; [by destruct st|]. split; [apply C|]. intros x Hx. apply C. fold A in C |- *. intros Hx'.
    pose proof (span_nonneg _ Hpre). unfold MI_POOL_MIN_SPLIT, MI_POOL_ALIGN in *.
    apply requested_app in Hx as [Hx|Hx]; [apply requested_bounds in Hx; [unfold A in *; lia|done]|]. fold A in Hx.
    apply requested_cons in Hx as [(r & [=] & _)|Hx]. apply requested_cons in Hx as [(r & [=] & _)|Hx].
    apply requested_bounds in Hx; [lia|done].
Qed.

Definition starts_free bl : Prop := match bl with (_, None) :: _ => True | _ => False end.
Definition ends_free bl : Prop := exists p sz, bl = p ++ [(sz, None)].

Lemma coalesced_cons b bl : coalesced (b :: bl) <-> coalesced bl /\ ~ (b.2 = None /\ starts_free bl).
Proof.
  destruct b as [sz [r|]]; cbn; [split; [intros H; split; [done|by intros [[=] _]]|tauto]|].
  destruct bl as [|[sz' [r'|]] bl]; cbn; [tauto|split; [intros H; split; [done|by intros [_ []]]|tauto]|tauto].
Qed.

Lemma ends_free_cons b bl : ends_free (b :: bl) <-> (bl = [] /\ b.2 = None) \/ ends_free bl.
Proof.
  split.
  - intros (p & sz & E). destruct p as [|b' p]; cbn in E; injection E as -> E; [left; by rewrite E|right; by exists p, sz].
  - intros [[-> H]|(p & sz & ->)]; [exists [], b.1; destruct b; cbn in *; by subst|by exists (b :: p), sz].
Qed.

Lemma coalesced_app pre post : coalesced (pre ++ post) <-> coalesced pre /\ coalesced post /\ ~ (ends_free pre /\ starts_free post).
Proof.
  induction pre as [|b pre IH].
  - cbn. split; [intros H; split_and!; try done; intros [(p & sz & E) _]; by destruct p|tauto].
  - rewrite <- app_comm_cons, !coalesced_cons, IH, ends_free_cons. destruct pre as [|b' pre].
    + cbn [app]. assert (~ ends_free []) by (intros (p & sz & E); by destruct p). cbn. tauto.
    + assert (starts_free ((b' :: pre) ++ post) <-> starts_free (b' :: pre)) by (by destruct b' as [? []]). rewrite H.
      assert ((b' :: pre = [] /\ b.2 = None) <-> False) by (split; [by intros []|done]). tauto.
Qed.

(** The block a row holds behind [pre], as its words. *)
Lemma row_block st pre sz r post : row st (pre ++ (sz, r) :: post) -> let A := MI_POOL_BASE + span pre in
  load64 (heap st) A = Ok sz /\ load64 (heap st) (A + 8) = Ok (block_magic r) /\
  (r = None -> load64 (heap st) (A + 16) = Ok (first_free (A + sz) post 0)) /\
  MI_POOL_MIN_SPLIT <= sz /\ sz mod MI_POOL_ALIGN = 0 /\ MI_POOL_BASE <= A /\ A + sz + span post = MiPoolEnd st /\ MiPoolEnd st <= MI_POOL_BASE + 2 ^ 39 /\
  Forall block_ok pre /\ Forall block_ok post.
Proof.
  intros [Hok He Hm Hh Hfl] A. apply headers_app in Hh as [_ Hh]. cbn [headers] in Hh. destruct Hh as (W & M & N & _).
  apply Forall_app in Hok as [Hpre Hok]. apply Forall_cons in Hok as [[H1 [H2 _]] Hpost]. cbn in H1, H2. pose proof (span_nonneg _ Hpre).
  rewrite span_app in He. cbn in He. pose proof (proj2 Hm). unfold A. split_and!; try done; lia.
Qed.

Lemma forward_merge st pre sz post : row st (pre ++ (sz, None) :: post) -> coalesced post -> let A := MI_POOL_BASE + span pre in
  exists st' s1 post1, (next ← get_nextFree st A; size ← get_size st A;
      if negb (next =? 0) && (u64 (A + size) =? next) then merge st A next else Ok st) = Ok st' /\
    row st' (pre ++ (s1, None) :: post1) /\ only_headers st st' (pre ++ (sz, None) :: post) /\ coalesced post1 /\ ~ starts_free post1 /\ sz <= s1 /\
    live MI_POOL_BASE (pre ++ (s1, None) :: post1) = live MI_POOL_BASE (pre ++ (sz, None) :: post) /\ in_use post1 = in_use post.
Proof.
  intros R C A. pose proof (row_block _ _ _ _ _ R) as (W & M & N & Hsz & Hal & HA & He & Htop & Hpre & Hpost). fold A in W, M, N, HA, He. specialize (N eq_refl).
  unfold get_nextFree, get_size. rewrite N. run. rewrite W. run. unfold MI_POOL_MIN_SPLIT, MI_POOL_ALIGN in Hsz. pose proof (span_nonneg _ Hpost).
  rewrite u64_small by (unfold is_u64, MI_POOL_BASE in *; lia).
  destruct post as [|[s2 [r2|]] post]; cbn [first_free] in *.
  - exists st, sz, []. split_and!; try done; [apply only_headers_refl|by intros []].
  - assert (Hne : (A + sz =? first_free (A + sz + s2) post 0) = false).
    { apply Z.eqb_neq. apply Forall_cons in Hpost as [[Hs2 _] Hpost]. cbn in Hs2. unfold MI_POOL_MIN_SPLIT, MI_POOL_ALIGN in Hs2.
      destruct (first_free_above (A + sz + s2) post Hpost); unfold MI_POOL_BASE in *; lia. }
    rewrite Hne, andb_false_r. exists st, sz, ((s2, Some r2) :: post). split_and!; try done; [apply only_headers_refl|by intros []].
  - rewrite Z.eqb_refl, (proj2 (Z.eqb_neq _ 0)) by (unfold MI_POOL_BASE in *; lia). run.
    destruct (row_merge st pre sz s2 post R) as (st' & E & R' & O & _). fold A in E. rewrite E. exists st', (sz + s2), post.
    apply coalesced_cons in C as [C Hsf]. cbn in Hsf. apply Forall_cons in Hpost as [[Hs2 _] _]. cbn in Hs2. unfold MI_POOL_MIN_SPLIT, MI_POOL_ALIGN in Hs2.
    split_and!; try done; [tauto|lia|apply live_merge].
Qed.

Lemma insert_spec st pre sz post : gap st pre sz post -> coalesced pre -> coalesced post -> let A := MI_POOL_BASE + span pre in
  exists st' bl', MiInsertFreeBlock st A = Ok st' /\ row st' bl' /\ only_headers st st' (pre ++ (sz, None) :: post) /\ coalesced bl' /\
    live MI_POOL_BASE bl' = live MI_POOL_BASE (pre ++ (sz, None) :: post) /\ in_use bl' = in_use pre + in_use post /\
    (exists s, (s, None) ∈ bl' /\ sz <= s) /\ exists magic, get_magic st' A = Ok magic /\ magic <> MI_POOL_ALLOCATED_MAGIC.
Proof.
  intros G Cpre Cpost A. destruct (gap_link st pre sz post G) as (st3 & E & R3 & O3). fold A in E.
  apply bind_Ok in E as (st1 & E1 & E). apply bind_Ok in E as (link & E2 & E). apply bind_Ok in E as (linked & E3 & E).
  apply bind_Ok in E as (st2 & E4 & E). apply bind_Ok in E as (st3' & E5 & E). injection E as -> ->.
  destruct (row_block _ _ _ _ _ R3) as (W & M & _ & Hsz & Hal & HA & He & Htop & Hpre & Hpost). fold A in W, M, HA, He.
  assert (Eend : MiPoolEnd st3 = MiPoolEnd st) by (destruct O3 as (m & fl & -> & _); done).
  pose proof (span_nonneg _ Hpost) as Np. unfold MI_POOL_MIN_SPLIT, MI_POOL_ALIGN in Hsz, Hal.
  unfold MiInsertFreeBlock. assert (Hs : get_size st A = Ok sz) by exact (gp_size _ _ _ _ G). rewrite Hs. run.
  assert (Hla : Z.land sz (MI_POOL_ALIGN - 1) = 0) by (change (MI_POOL_ALIGN - 1) with (Z.ones 4); rewrite Z.land_ones by lia; exact Hal).
  rewrite Hla. rewrite u64_small by (unfold is_u64, MI_POOL_BASE in *; lia).
  rewrite (proj2 (Z.leb_le MI_POOL_MIN_SPLIT sz)), (proj2 (Z.leb_le MI_POOL_BASE A)), (proj2 (Z.leb_le (A + sz) _)) by (unfold MI_POOL_MIN_SPLIT, MI_POOL_ALIGN; lia).
  cbn [Z.eqb]. run. rewrite E1. run. rewrite E2. run. rewrite E3. run. rewrite E4. run. rewrite E5. run.
  destruct (forward_merge st3 pre sz post R3 Cpost) as (st4 & s1 & post1 & E6 & R4 & O4 & C1 & Hsf & Hs1 & L4 & U4). fold A in E6.
  apply bind_Ok in E6 as (next & E6 & E). apply bind_Ok in E as (size & E7 & E). rewrite E6. run. rewrite E7. run. rewrite E. run.
  pose proof (only_headers_trans _ _ _ _ _ eq_refl O3 O4) as O.
  destruct (row_block _ _ _ _ _ R4) as (W4 & M4 & _). fold A in W4, M4.
  destruct (last_link_cases None MI_POOL_BASE pre) as [[Htk El]|(p1 & s0 & p2 & Ep & Htk & El)]; rewrite El.
  - exists st4, (pre ++ (s1, None) :: post1). split_and!; try done.
    + apply coalesced_app. split_and!; [done|by apply coalesced_cons; split; [|intros [_ ?]]|]. intros [(p & s & Hp) _]. rewrite Hp in Htk.
      apply Forall_app in Htk as [_ Htk]. apply Forall_cons in Htk as [[? Hx] _]. done.
    + rewrite in_use_app. cbn. by rewrite U4.
    + exists s1. split; [|done]. apply elem_of_app. right. left.
    + by exists MI_POOL_FREE_MAGIC.
  - assert (R4' : row st4 (p1 ++ (s0, None) :: (p2 ++ (s1, None) :: post1))) by (rewrite Ep, <- app_assoc in R4; exact R4).
    set (L := MI_POOL_BASE + span p1). destruct (row_block _ _ _ _ _ R4') as (WL & _ & _ & HsL & _ & HL & HeL & HtL & Hp1 & HpL). fold L in WL, HL, HeL.
    unfold get_size. rewrite WL. run. assert (Hp2 : Forall block_ok p2) by (apply Forall_app in HpL as [? _]; done).
    assert (EA : A = L + s0 + span p2) by (unfold A, L; rewrite Ep, span_app; cbn; lia).
    unfold MI_POOL_MIN_SPLIT, MI_POOL_ALIGN in HsL. pose proof (span_nonneg _ Hp2).
    assert (Eend4 : MiPoolEnd st4 = MiPoolEnd st3) by (destruct O4 as (? & ? & -> & _); done).
    rewrite u64_small by (unfold is_u64, MI_POOL_BASE in *; lia).
    rewrite Ep in Cpre. apply coalesced_app in Cpre as (Cp1 & Cp2 & Hef). apply coalesced_cons in Cp2 as [Cp2 _].
    destruct p2 as [|b2 p2].
    + cbn [span app] in *. rewrite (proj2 (Z.eqb_eq (L + s0) A)) by lia.
      destruct (row_merge st4 p1 s0 s1 post1 R4') as (st5 & E5' & R5 & O5 & Z5). fold L in E5', Z5.
      replace (L + s0) with A in E5', Z5 by lia. rewrite E5'. exists st5, (p1 ++ (s0 + s1, None) :: post1).
      assert (L5 : live MI_POOL_BASE (p1 ++ (s0, None) :: (s1, None) :: post1) = live MI_POOL_BASE (pre ++ (sz, None) :: post))
        by (rewrite <- L4, Ep, <- app_assoc; done).
      split_and!; try done.
      * apply (only_headers_trans _ _ _ _ _ L5 O O5).
      * apply coalesced_app. split_and!; [done|by apply coalesced_cons; split; [|intros [_ ?]]|]. cbn. intros [? _]. apply Hef. by split.
      * by rewrite live_merge.
      * rewrite Ep, !in_use_app. cbn. rewrite U4. lia.
      * exists (s0 + s1). split; [|lia]. apply elem_of_app. right. left.
      * by exists 0.
    + assert (Hlt : 0 < span (b2 :: p2)).
      { destruct b2 as [z2 r2]. apply Forall_cons in Hp2 as [[Hz2 _] Hp2]. pose proof (span_nonneg _ Hp2). cbn in *. unfold MI_POOL_MIN_SPLIT, MI_POOL_ALIGN in *. lia. }
      rewrite (proj2 (Z.eqb_neq (L + s0) A)) by lia. exists st4, (pre ++ (s1, None) :: post1). split_and!; try done.
      * apply coalesced_app. rewrite Ep. split_and!; [|by apply coalesced_cons; split; [|intros [_ ?]]|].
        -- apply coalesced_app. split_and!; [done| |exact Hef]. apply coalesced_cons. split; [done|]. apply Forall_cons in Htk as [[? Hx] _]. destruct b2. cbn in Hx. subst. by intros [_ ?].
        -- intros [(p & s & Hp) _]. destruct (exists_last (l := b2 :: p2) ltac:(done)) as (q & b & Eq). rewrite Eq in Htk, Hp.
           change (p1 ++ (s0, None) :: q ++ [b]) with (p1 ++ ((s0, None) :: q) ++ [b]) in Hp. rewrite app_assoc in Hp. apply app_inj_tail in Hp as [_ ->].
           apply Forall_app in Htk as [_ Htk]. apply Forall_cons in Htk as [[? Hx] _]. done.
      * rewrite in_use_app. cbn. by rewrite U4.
      * exists s1. split; [|done]. apply elem_of_app. right. left.
      * by exists MI_POOL_FREE_MAGIC.
Qed.
End rows.

(** ** The pool *)

Section pool_spec.
Context {S : Type} {P : PAGES S} {window : Z -> Prop} {L : PAGES_OK S window}.
Hypothesis Hwin : windows_ok (window := window).
Implicit Types (st : pool_state S) (m : mem) (a x t sz n : Z) (bl pre post : list blk) (link : option addr).

(** A well-formed pool, with [extra] bytes mapped behind its last block. *)
Record pool_grown st bl (extra : Z) : Prop := {
  pl_ok : Forall block_ok bl;
  pl_end : MiPoolEnd st = MI_POOL_BASE + span bl + extra;
  pl_mapped : heap_mapped (heap st) (MiPoolEnd st);
  pl_headers : headers (heap st) MI_POOL_BASE bl 0;
  pl_head : MiPoolFreeList st = first_free MI_POOL_BASE bl 0;
  pl_coalesced : coalesced bl;
  pl_use : MiPoolBytesInUse st = in_use bl;
  pl_drain : in_drain st = false;
  pl_page : MiPoolEnd st mod PAGE_SIZE = 0;
  pl_kasan : kasan_ok (pool_kasan st) (MiPoolEnd st);
  pl_shadow : forall x, MI_POOL_BASE <= x < MiPoolEnd st -> addressable (shadow (pool_kasan st)) x <-> requested MI_POOL_BASE bl x;
  pl_pages : pages_ok (pages st);
  pl_below : pages_below (pages st) (MiPoolEnd st) (MiKasanShadowMapped (pool_kasan st));
}.

Definition pool_ok st bl : Prop := pool_grown st bl 0.

Lemma pool_row st bl : pool_ok st bl -> row st bl.
Proof. intros []. split; try done. lia. Qed.

(** The same allocations, with the same bytes. *)
Definition keeps st bl st' : Prop := forall x, requested MI_POOL_BASE bl x -> heap st' !! x = heap st !! x.

(** Putting a gap back turns a pool with a hole into a pool. *)
Lemma pool_insert st pre sz post : gap st pre sz post -> coalesced pre -> coalesced post ->
  MiPoolBytesInUse st = in_use pre + in_use post -> in_drain st = false -> MiPoolEnd st mod PAGE_SIZE = 0 ->
  kasan_ok (pool_kasan st) (MiPoolEnd st) ->
  (forall x, MI_POOL_BASE <= x < MiPoolEnd st -> addressable (shadow (pool_kasan st)) x <-> requested MI_POOL_BASE (pre ++ (sz, None) :: post) x) ->
  pages_ok (pages st) -> pages_below (pages st) (MiPoolEnd st) (MiKasanShadowMapped (pool_kasan st)) ->
  exists st' bl', MiInsertFreeBlock st (MI_POOL_BASE + span pre) = Ok st' /\ pool_ok st' bl' /\ keeps st (pre ++ (sz, None) :: post) st' /\
    live MI_POOL_BASE bl' = live MI_POOL_BASE (pre ++ (sz, None) :: post) /\ pages st' = pages st /\ MiPoolEnd st' = MiPoolEnd st /\
    (exists s, (s, None) ∈ bl' /\ sz <= s) /\
    exists magic, get_magic st' (MI_POOL_BASE + span pre) = Ok magic /\ magic <> MI_POOL_ALLOCATED_MAGIC.
Proof.
  intros G C1 C2 Hu Hd Hp Hk Hsh Hpg Hb. destruct (insert_spec st pre sz post G C1 C2) as (st' & bl' & E & R & (m & fl & -> & D & Hreq) & C & El & Eu & Hs & Hmg).
  eexists _, bl'. split; [exact E|]. destruct R as [R1 R2 R3 R4 R5]. cbn in R2, R5. split_and!; try done.
  split; try done; cbn; [lia|by rewrite Eu| ]. intros x Hx. by rewrite Hsh, (requested_live _ _ _ _ El).
Qed.

(** ** Allocation *)

Lemma coalesced_split pre b post : coalesced (pre ++ b :: post) -> coalesced pre /\ coalesced post.
Proof. intros (H & [H' _]%coalesced_cons & _)%coalesced_app. done. Qed.

(** What handing out a block does to the row. *)
Definition taken pre sz post needed n : list blk :=
  if MI_POOL_MIN_SPLIT <=? sz - needed then pre ++ (needed, Some n) :: (sz - needed, None) :: post else pre ++ (sz, Some n) :: post.

Lemma starts_free_taken_ok pre sz post needed n : coalesced (pre ++ (sz, None) :: post) -> coalesced (taken pre sz post needed n).
Proof.
  intros (H1 & H2 & H3)%coalesced_app. apply coalesced_cons in H2 as [H2 H4]. cbn in H4. unfold taken.
  destruct (_ <=? _); apply coalesced_app; split_and!; try done; try (cbn; tauto).
  apply coalesced_cons. split; [|by intros [? _]]. apply coalesced_cons. split; [done|]. cbn. tauto.
Qed.

Lemma taken_live pre sz post needed n : live MI_POOL_BASE (taken pre sz post needed n) =
  live MI_POOL_BASE pre ++ (MI_POOL_BASE + span pre + MI_POOL_ALIGN, n) :: live (MI_POOL_BASE + span pre + sz) post.
Proof.
  unfold taken. destruct (_ <=? _); rewrite live_app; cbn; [|done]. do 3 f_equal. lia.
Qed.

Lemma taken_requested pre sz post needed n x : requested MI_POOL_BASE (taken pre sz post needed n) x <->
  requested MI_POOL_BASE (pre ++ (sz, None) :: post) x \/ MI_POOL_BASE + span pre + MI_POOL_ALIGN <= x < MI_POOL_BASE + span pre + MI_POOL_ALIGN + n.
Proof.
  unfold requested. rewrite taken_live, live_app. cbn [live]. setoid_rewrite elem_of_app. setoid_rewrite elem_of_cons. split.
  - intros (p & r & [H|[[= -> ->]|H]] & Hx); [left; exists p, r; tauto|by right|left; exists p, r; tauto].
  - intros [(p & r & [H|H] & Hx)|Hx]; [exists p, r; tauto..|]. eexists _, _. split; [right; by left|done].
Qed.

(** The header writes of [take_block], up to the allocated magic. *)
Definition split_block st link block needed : outcome (pool_state S) :=
  size ← get_size st block;
  st ← (if MI_POOL_MIN_SPLIT <=? size - needed then
      let rest := u64 (block + needed) in
      st ← set_size st rest (size - needed);
      st ← set_magic st rest MI_POOL_FREE_MAGIC;
      next ← get_nextFree st block;
      st ← set_nextFree st rest next;
      st ← set_link st link rest;
      set_size st block needed
    else
      next ← get_nextFree st block;
      set_link st link next);
  set_magic st block MI_POOL_ALLOCATED_MAGIC.

Lemma split_block_spec st pre sz post needed n : row st (pre ++ (sz, None) :: post) -> MI_POOL_MIN_SPLIT <= needed <= sz ->
  needed mod MI_POOL_ALIGN = 0 -> 0 < n -> MI_POOL_ALIGN + n <= needed ->
  exists st', split_block st (last_link None MI_POOL_BASE pre) (MI_POOL_BASE + span pre) needed = Ok st' /\
    row st' (taken pre sz post needed n) /\ only_headers st st' (pre ++ (sz, None) :: post) /\
    get_size st' (MI_POOL_BASE + span pre) = Ok (if MI_POOL_MIN_SPLIT <=? sz - needed then needed else sz).
Proof.
  intros R Hn Hal H0 Hfit. set (A := MI_POOL_BASE + span pre).
  destruct (row_block _ _ _ _ _ R) as (W & M & N & Hsz & Hsz' & HA & He & Htop & Hpre & Hpost). fold A in W, M, N, HA, He. specialize (N eq_refl).
  destruct R as [_ Hend Hm Hh Hfl]. pose proof (span_nonneg _ Hpost). pose proof (span_nonneg _ Hpre). unfold MI_POOL_MIN_SPLIT, MI_POOL_ALIGN in *.
  apply headers_app in Hh as [Hhp Hhq]. fold A in Hhp, Hhq. cbn [first_free] in Hhp. cbn [headers] in Hhq. destruct Hhq as (_ & _ & _ & Hhq).
  rewrite first_free_app in Hfl. fold A in Hfl. cbn [first_free] in Hfl. set (e := MiPoolEnd st) in *. set (t := first_free (A + sz) post 0) in *.
  assert (Hu : forall v, 0 <= v <= e -> is_u64 v) by (intros v ?; unfold is_u64, MI_POOL_BASE in *; lia).
  assert (Ht : 0 <= t <= e) by (apply first_free_bounds; unfold MI_POOL_BASE in *; try done; lia).
  unfold split_block, taken, set_size, set_magic, set_nextFree. unfold get_size at 1. rewrite W. run.
  unfold MI_POOL_MIN_SPLIT, MI_POOL_ALIGN. destruct (Z.leb_spec (16 + 16) (sz - needed)) as [Hs|Hs].
  - rewrite u64_small by (apply Hu; unfold MI_POOL_BASE in *; lia).
    destruct (set_word_spec st (A + needed) (sz - needed) e Hm ltac:(lia) ltac:(lia) ltac:(apply Hu; unfold MI_POOL_BASE in *; lia)) as (m1 & -> & S1). run.
    pose proof (stored_changed _ _ _ _ A sz S1 ltac:(lia) ltac:(lia)) as C1.
    destruct (set_word_spec (with_heap st m1) (A + needed + 8) MI_POOL_FREE_MAGIC e (changed_mapped _ _ _ _ _ C1 Hm) ltac:(lia) ltac:(lia) ltac:(by unfold is_u64)) as (m2 & -> & S2). run.
    change (heap (with_heap st m1)) with m1 in S2. change (with_heap (with_heap st m1) m2) with (with_heap st m2).
    pose proof (changed_trans _ _ _ _ _ C1 (stored_changed _ _ _ _ A sz S2 ltac:(lia) ltac:(lia))) as C2.
    unfold get_nextFree. change (heap (with_heap st m2)) with m2. rewrite (stored_load _ _ _ _ _ S2), (stored_load _ _ _ _ _ S1), N by lia. run.
    destruct (set_word_spec (with_heap st m2) (A + needed + 16) t e (changed_mapped _ _ _ _ _ C2 Hm) ltac:(lia) ltac:(lia) ltac:(by apply Hu)) as (m3 & -> & S3). run.
    change (heap (with_heap st m2)) with m2 in S3. change (with_heap (with_heap st m2) m3) with (with_heap st m3).
    pose proof (changed_trans _ _ _ _ _ C2 (stored_changed _ _ _ _ A sz S3 ltac:(lia) ltac:(lia))) as C3.
    assert (Hh3 : headers m3 MI_POOL_BASE pre A) by (apply (headers_changed _ _ _ _ _ _ _ Hpre C3); [left; unfold A; lia|done]).
    destruct (relink (with_heap st m3) pre A (A + needed) e Hpre (changed_mapped _ _ _ _ _ C3 Hm) ltac:(unfold A in *; lia) Hh3 Hfl ltac:(apply Hu; unfold MI_POOL_BASE in *; lia))
      as (m4 & fl & -> & Hh4 & Efl & C4 & R4). run. change (heap (with_heap st m3)) with m3 in C4, R4.
    set (st4 := with_heap (with_heap st m3) m4 <| MiPoolFreeList := fl |>).
    assert (Hm4 : heap_mapped m4 e) by (apply (changed_mapped _ _ _ _ _ C4), (changed_mapped _ _ _ _ _ C3), Hm).
    destruct (set_word_spec st4 A needed e Hm4 ltac:(lia) ltac:(lia) ltac:(apply Hu; unfold MI_POOL_BASE in *; lia)) as (m5 & -> & S5). run.
    change (heap st4) with m4 in S5. pose proof (stored_changed _ _ _ _ A 32 S5 ltac:(lia) ltac:(lia)) as C5.
    destruct (set_word_spec (with_heap st4 m5) (A + 8) MI_POOL_ALLOCATED_MAGIC e (changed_mapped _ _ _ _ _ C5 Hm4) ltac:(lia) ltac:(lia) ltac:(by unfold is_u64)) as (m6 & -> & S6).
    change (heap (with_heap st4 m5)) with m5 in S6. pose proof (changed_trans _ _ _ _ _ C5 (stored_changed _ _ _ _ A 32 S6 ltac:(lia) ltac:(lia))) as C6.
    assert (Hw : forall w, A <= w -> w + 8 <= e -> load64 m4 w = load64 m3 w) by (intros w ? ?; apply load64_ext; intros x Hx; apply C4; unfold A in *; lia).
    eexists. split; [reflexivity|]. split; [|split].
    + split; cbn.
      * apply Forall_app. split; [done|]. repeat constructor; cbn; unfold MI_POOL_MIN_SPLIT, MI_POOL_ALIGN; try done; try lia; Z.to_euclidean_division_equations; lia.
      * rewrite span_app. cbn. fold e. unfold A in *. lia.
      * apply (changed_mapped _ _ _ _ _ C6 Hm4).
      * apply headers_app. fold A. cbn [headers first_free block_magic]. split; [|split_and!].
        -- apply (headers_changed _ _ _ _ _ _ _ Hpre C6); [left; unfold A; lia|done].
        -- rewrite (stored_load _ _ _ _ _ S6) by lia. apply (st_word _ _ _ _ S5).
        -- apply (st_word _ _ _ _ S6).
        -- done.
        -- rewrite (stored_load _ _ _ _ _ S6), (stored_load _ _ _ _ _ S5), Hw, (stored_load _ _ _ _ _ S3), (stored_load _ _ _ _ _ S2) by lia. apply (st_word _ _ _ _ S1).
        -- rewrite (stored_load _ _ _ _ _ S6), (stored_load _ _ _ _ _ S5), Hw, (stored_load _ _ _ _ _ S3) by lia. apply (st_word _ _ _ _ S2).
        -- intros _. rewrite (stored_load _ _ _ _ _ S6), (stored_load _ _ _ _ _ S5), Hw by lia. replace (A + needed + (sz - needed)) with (A + sz) by lia. apply (st_word _ _ _ _ S3).
        -- replace (A + needed + (sz - needed)) with (A + sz) by lia. apply (headers_changed _ _ _ _ _ _ _ Hpost C6); [right; lia|].
           apply (headers_changed _ _ _ _ _ _ _ Hpost C4); [right; unfold A in *; lia|]. apply (headers_changed _ _ _ _ _ _ _ Hpost C3); [right; lia|done].
      * by rewrite Efl, first_free_app.
    + exists m6, fl. split; [done|]. split; [intros x; by rewrite (proj2 C6), (proj2 C4), (proj2 C3)|]. intros x [Hx|Hx]%requested_app.
      * pose proof (requested_bounds _ _ _ Hpre Hx). rewrite (proj1 C6), R4 by (done || (unfold A; lia)). apply C3. unfold A. lia.
      * fold A in Hx. apply requested_cons in Hx as [(r & [=] & _)|Hx]. pose proof (requested_bounds _ _ _ Hpost Hx).
        rewrite (proj1 C6), (proj1 C4), (proj1 C3) by (unfold A in *; lia). done.
    + change (load64 m6 A = Ok needed). rewrite (stored_load _ _ _ _ _ S6) by lia. apply (st_word _ _ _ _ S5).
  - unfold get_nextFree. rewrite N. run.
    destruct (relink st pre A t e Hpre Hm ltac:(unfold A in *; lia) Hhp Hfl ltac:(by apply Hu)) as (m4 & fl & -> & Hh4 & Efl & C4 & R4). run.
    set (st4 := with_heap st m4 <| MiPoolFreeList := fl |>). pose proof (changed_mapped _ _ _ _ _ C4 Hm) as Hm4.
    destruct (set_word_spec st4 (A + 8) MI_POOL_ALLOCATED_MAGIC e Hm4 ltac:(lia) ltac:(lia) ltac:(by unfold is_u64)) as (m6 & -> & S6).
    change (heap st4) with m4 in S6. pose proof (stored_changed _ _ _ _ A 32 S6 ltac:(lia) ltac:(lia)) as C6.
    assert (Hw : load64 m6 A = Ok sz).
    { rewrite (stored_load _ _ _ _ _ S6) by lia. rewrite <- W. apply load64_ext. intros x Hx. apply C4. unfold A in *. lia. }
    eexists. split; [reflexivity|]. split; [|split].
    + split; cbn.
      * apply Forall_app. split; [done|]. constructor; [|done]. unfold block_ok. cbn. unfold MI_POOL_MIN_SPLIT, MI_POOL_ALIGN. split_and!; try done; lia.
      * rewrite span_app. cbn. fold e. unfold A in *. lia.
      * apply (changed_mapped _ _ _ _ _ C6 Hm4).
      * apply headers_app. fold A. cbn [headers first_free block_magic]. split; [|split_and!].
        -- apply (headers_changed _ _ _ _ _ _ _ Hpre C6); [left; unfold A; lia|done].
        -- exact Hw.
        -- apply (st_word _ _ _ _ S6).
        -- done.
        -- apply (headers_changed _ _ _ _ _ _ _ Hpost C6); [right; lia|]. apply (headers_changed _ _ _ _ _ _ _ Hpost C4); [right; unfold A in *; lia|done].
      * by rewrite Efl, first_free_app.
    + exists m6, fl. split; [done|]. split; [intros x; by rewrite (proj2 C6), (proj2 C4)|]. intros x [Hx|Hx]%requested_app.
      * pose proof (requested_bounds _ _ _ Hpre Hx). rewrite (proj1 C6) by (unfold A; lia). by apply R4.
      * fold A in Hx. apply requested_cons in Hx as [(r & [=] & _)|Hx]. pose proof (requested_bounds _ _ _ Hpost Hx).
        rewrite (proj1 C6), (proj1 C4) by (unfold A in *; lia). done.
    + exact Hw.
Qed.

Lemma span_mod bl : Forall block_ok bl -> span bl mod 16 = 0.
Proof.
  induction 1 as [|[sz r] bl (_ & H & _) Hok IH]; cbn in *; [done|]. unfold MI_POOL_ALIGN in H. Z.to_euclidean_division_equations; lia.
Qed.

Lemma in_use_span bl : Forall block_ok bl -> 0 <= in_use bl <= span bl.
Proof.
  induction 1 as [|[sz [r|]] bl [H _] Hok IH]; cbn in *; unfold MI_POOL_MIN_SPLIT, MI_POOL_ALIGN in *; lia.
Qed.

(** Writing the data of an allocation touches no header. *)
Lemma row_data st pre sz n post m : row st (pre ++ (sz, Some n) :: post) -> let A := MI_POOL_BASE + span pre in
  changed_in (A + MI_POOL_ALIGN) n (heap st) m -> MI_POOL_ALIGN + n <= sz -> row (with_heap st m) (pre ++ (sz, Some n) :: post).
Proof.
  intros R A C Hn. destruct (row_block _ _ _ _ _ R) as (W & M & _ & Hsz & _ & HA & _ & _ & Hpre & Hpost). fold A in W, M, HA.
  destruct R as [R1 R2 R3 R4 R5]. unfold MI_POOL_MIN_SPLIT, MI_POOL_ALIGN in *. split; try done; [by apply (changed_mapped _ _ _ _ _ C)|].
  apply headers_app in R4 as [Q1 Q2]. apply headers_app. fold A in Q1, Q2 |- *. cbn [headers] in Q2 |- *. destruct Q2 as (_ & _ & _ & Q2). split; [|split_and!].
  - apply (headers_changed _ _ _ _ _ _ _ Hpre C); [left; unfold A; lia|done].
  - rewrite <- W. apply load64_ext. intros x Hx. apply C. lia.
  - rewrite <- M. apply load64_ext. intros x Hx. apply C. lia.
  - done.
  - apply (headers_changed _ _ _ _ _ _ _ Hpost C); [right; lia|done].
Qed.

Lemma take_spec st pre sz post needed n : pool_ok st (pre ++ (sz, None) :: post) -> MI_POOL_MIN_SPLIT <= needed <= sz ->
  needed mod MI_POOL_ALIGN = 0 -> 0 < n -> MI_POOL_ALIGN + n <= needed -> let A := MI_POOL_BASE + span pre in
  exists st', take_block st (last_link None MI_POOL_BASE pre) A needed n = Ok (A + MI_POOL_ALIGN, st') /\
    pool_ok st' (taken pre sz post needed n) /\ keeps st (pre ++ (sz, None) :: post) st' /\
    (forall x, A + MI_POOL_ALIGN <= x < A + MI_POOL_ALIGN + n -> heap st' !! x = Some 0) /\ pages st' = pages st /\ MiPoolEnd st' = MiPoolEnd st.
Proof.
  intros Pk Hn Hal H0 Hfit A. pose proof (pool_row _ _ Pk) as R.
  destruct (row_block _ _ _ _ _ R) as (_ & _ & _ & Hsz & Hsz' & HA & He & Htop & Hpre & Hpost). fold A in HA, He.
  pose proof (span_nonneg _ Hpost). pose proof (span_nonneg _ Hpre).
  destruct (split_block_spec st pre sz post needed n R Hn Hal H0 Hfit) as (st1 & E & R1 & (m1 & fl & Est1 & D1 & Q1) & Hget). fold A in E, Hget.
  assert (EA : A = MI_POOL_BASE + span pre) by done. clearbody A.
  set (s1 := if MI_POOL_MIN_SPLIT <=? sz - needed then needed else sz) in *.
  assert (Hs1 : MI_POOL_ALIGN + n <= s1 <= sz /\ s1 mod MI_POOL_ALIGN = 0 /\ MI_POOL_MIN_SPLIT <= s1)
    by (unfold s1; destruct (_ <=? _); split_and!; try done; lia).
  assert (Etk : exists post1, taken pre sz post needed n = pre ++ (s1, Some n) :: post1 /\ in_use post1 = in_use post).
  { unfold taken, s1. destruct (_ <=? _); eexists; split; reflexivity. }
  destruct Etk as (post1 & Etk & Eu1).
  unfold MI_POOL_MIN_SPLIT, MI_POOL_ALIGN in Hsz, Hsz', Hn, Hal, Hfit, Hs1. unfold split_block in E.
  apply bind_Ok in E as (size & E1 & E). apply bind_Ok in E as (st0 & E2 & E3). unfold take_block. rewrite E1. run. rewrite E2. run. rewrite E3. run. rewrite Hget. run.
  change MI_POOL_ALIGN with 16. rewrite (u64_small (A + 16)) by (unfold is_u64, MI_POOL_BASE in *; lia).
  pose proof (pl_ok _ _ _ Pk) as Hok. pose proof (in_use_span _ Hok) as Hiu. pose proof (pl_use _ _ _ Pk) as Hu.
  assert (Espan : span (pre ++ (sz, None) :: post) = span pre + (sz + span post)) by (rewrite span_app; done). rewrite Espan in Hiu.
  assert (Eb1 : MiPoolBytesInUse st1 = MiPoolBytesInUse st) by (by rewrite Est1).
  rewrite u64_small by (rewrite Eb1, Hu; unfold is_u64, MI_POOL_BASE in *; lia).
  assert (Ek1 : pool_kasan st1 = pool_kasan st) by (by rewrite Est1). assert (Ee1 : MiPoolEnd st1 = MiPoolEnd st) by (by rewrite Est1).
  assert (Hh1 : heap st1 = m1) by (by rewrite Est1).
  set (st2 := st1 <| MiPoolBytesInUse := MiPoolBytesInUse st1 + s1 |>).
  change (pool_kasan st2) with (pool_kasan st1). change (heap st2) with (heap st1).
  assert (HA16 : A mod 16 = 0) by (pose proof (span_mod _ Hpre); rewrite EA; unfold MI_POOL_BASE; Z.to_euclidean_division_equations; lia).
  destruct (MiKasanMarkAllocated_spec (pool_kasan st1) (MiPoolEnd st) A n s1) as (k' & Ek & K' & _ & Km & Kx);
    [rewrite Ek1; apply (pl_kasan _ _ _ Pk)|done|Z.to_euclidean_division_equations; lia|Z.to_euclidean_division_equations; lia|lia..|].
  rewrite Ek. run.
  destruct (pl_mapped _ _ _ Pk) as [Hmap Hrng].
  destruct (proj1 (returns_alt _ _) (memset_spec (heap st1) (A + 16) 0 n ltac:(lia) ltac:(intros i Hi; rewrite Hh1; apply D1; replace (A + 16 + i) with (MI_POOL_BASE + (A + 16 + i - MI_POOL_BASE)) by lia; apply Hmap; lia)))
    as (m2 & -> & W2). run.
  assert (C2 : changed_in (A + 16) n (heap st1) m2).
  { split; [apply (wr_out _ _ _ _ _ W2)|]. intros x. apply (written_dom (heap st1) (A + 16) n (fun _ => Some (u8 0)) m2 x); [|done|done].
    intros i Hi. rewrite Hh1. apply D1. replace (A + 16 + i) with (MI_POOL_BASE + (A + 16 + i - MI_POOL_BASE)) by lia. apply Hmap. lia. }
  rewrite Etk in R1. pose proof (row_data st1 pre s1 n post1 m2 R1) as R2. rewrite <- EA in R2. specialize (R2 C2 ltac:(unfold MI_POOL_ALIGN; lia)).
  destruct R2 as [R2a R2b R2c R2d R2e]. eexists. split; [reflexivity|]. split; [|split; [|split; [|split]]].
  - rewrite Etk. split; cbn; try done.
    + cbn in R2b. lia.
    + rewrite <- Etk. apply starts_free_taken_ok, (pl_coalesced _ _ _ Pk).
    + rewrite Eb1, Hu, !in_use_app. cbn. rewrite Eu1. lia.
    + rewrite Est1. apply (pl_drain _ _ _ Pk).
    + rewrite Ee1. apply (pl_page _ _ _ Pk).
    + by rewrite Ee1.
    + rewrite Ee1. intros x Hx. rewrite Kx, <- Etk, taken_requested, <- EA. change MI_POOL_ALIGN with 16.
      case_decide as D; [|rewrite Ek1, (pl_shadow _ _ _ Pk x Hx); split; [by left|intros [?|?]; [done|lia]]].
      split; [by right|]. intros [Hreq|?]; [|done]. exfalso. apply requested_app in Hreq as [Hreq|Hreq]; [apply requested_bounds in Hreq; [lia|done]|].
      rewrite <- EA in Hreq. apply requested_cons in Hreq as [(r & [=] & _)|Hreq]. apply requested_bounds in Hreq; [lia|done].
    + rewrite Est1. apply (pl_pages _ _ _ Pk).
    + rewrite Ee1, Km, Ek1. rewrite Est1. apply (pl_below _ _ _ Pk).
  - intros x Hx. cbn. rewrite (proj1 C2), Hh1; [by apply Q1|]. intros Hx'.
    apply requested_app in Hx as [Hx|Hx]; [apply requested_bounds in Hx; [lia|done]|].
    rewrite <- EA in Hx. apply requested_cons in Hx as [(r & [=] & _)|Hx]. apply requested_bounds in Hx; [lia|done].
  - intros x Hx. cbn. replace x with (A + 16 + (x - (A + 16))) by lia. rewrite (wr_in _ _ _ _ _ W2) by lia. done.
  - cbn. by rewrite Est1.
  - cbn. by rewrite Est1.
Qed.

(** No free block of the row is large enough. *)
Definition none_fits needed bl : Prop := Forall (fun b : blk => b.2 = None -> b.1 < needed) bl.

Lemma first_fit_spec fuel st link a bl needed : Forall block_ok bl -> headers (heap st) a bl 0 -> get_link st link = Ok (first_free a bl 0) ->
  0 < a -> (length bl < fuel)%nat ->
  exists r, first_fit fuel st link needed = Ok r /\
    match r with
    | Some (l, b) => exists pre sz post, bl = pre ++ (sz, None) :: post /\ l = last_link link a pre /\ b = a + span pre /\ needed <= sz /\ none_fits needed pre
    | None => none_fits needed bl
    end.
Proof.
  intros Hok. revert fuel link a. induction Hok as [|[sz [r|]] bl [Hz _] Hok IH]; intros fuel link a Hh Hl H0 Hf; cbn [headers first_free length fst] in *.
  - destruct fuel as [|fuel]; [lia|]. cbn [first_fit]. rewrite Hl. run. exists None. split; [done|constructor].
  - destruct Hh as (_ & _ & _ & Hh). unfold MI_POOL_MIN_SPLIT, MI_POOL_ALIGN in Hz.
    destruct (IH fuel link (a + sz) Hh Hl ltac:(lia) ltac:(lia)) as (r0 & -> & Hr). exists r0. split; [done|]. destruct r0 as [[l b]|].
    + destruct Hr as (pre & sz0 & post & -> & -> & -> & Hn & Hnf). exists ((sz, Some r) :: pre), sz0, post. split_and!; try done; [cbn; lia|by constructor].
    + by constructor.
  - destruct Hh as (W & M & N & Hh). specialize (N eq_refl). destruct fuel as [|fuel]; [lia|]. unfold MI_POOL_MIN_SPLIT, MI_POOL_ALIGN in Hz.
    cbn [first_fit]. rewrite Hl. run. rewrite (proj2 (Z.eqb_neq a 0)) by lia. unfold get_magic, get_size. rewrite M. run. rewrite Z.eqb_refl. run. rewrite W. run.
    destruct (Z.leb_spec needed sz) as [Hle|Hgt].
    + exists (Some (link, a)). split; [done|]. exists [], sz, bl. split_and!; try done; [cbn; lia|constructor].
    + destruct (IH fuel (Some a) (a + sz) Hh N ltac:(lia) ltac:(lia)) as (r0 & -> & Hr). exists r0. split; [done|]. destruct r0 as [[l b]|].
      * destruct Hr as (pre & sz0 & post & -> & -> & -> & Hn & Hnf). exists ((sz, None) :: pre), sz0, post. split_and!; try done; [cbn; lia|by constructor].
      * by constructor.
Qed.

(** ** Freeing *)

Lemma live_split a bl p r : (p, r) ∈ live a bl -> exists pre sz post, bl = pre ++ (sz, Some r) :: post /\ p = a + span pre + MI_POOL_ALIGN.
Proof.
  revert a. induction bl as [|[sz [r0|]] bl IH]; intros a; cbn; [by intros ?%elem_of_nil| |].
  - intros [[= -> ->]|H]%elem_of_cons; [exists [], sz, bl; split; [done|cbn; lia]|].
    destruct (IH _ H) as (pre & sz0 & post & -> & ->). exists ((sz, Some r0) :: pre), sz0, post. split; [done|]. cbn. lia.
  - intros H. destruct (IH _ H) as (pre & sz0 & post & -> & ->). exists ((sz, None) :: pre), sz0, post. split; [done|]. cbn. lia.
Qed.

Lemma free_spec st bl p r : pool_ok st bl -> (p, r) ∈ live MI_POOL_BASE bl ->
  exists st' bl', MiFreePool st p = Ok st' /\ pool_ok st' bl' /\ live MI_POOL_BASE bl ≡ₚ (p, r) :: live MI_POOL_BASE bl' /\
    keeps st bl' st' /\ pages st' = pages st /\ MiPoolEnd st' = MiPoolEnd st /\
    MiFreePool st' p = Panic "MiFreePool: bad block (double free or corruption)".
Proof.
  intros Pk Hin. destruct (live_split _ _ _ _ Hin) as (pre & sz & post & -> & ->). set (A := MI_POOL_BASE + span pre).
  pose proof (pool_row _ _ Pk) as R. destruct (row_block _ _ _ _ _ R) as (W & M & _ & Hsz & Hsz' & HA & He & Htop & Hpre & Hpost). fold A in W, M, HA, He.
  assert (HA16 : A mod 16 = 0) by (pose proof (span_mod _ Hpre); unfold A, MI_POOL_BASE; Z.to_euclidean_division_equations; lia).
  pose proof (span_nonneg _ Hpost). unfold MI_POOL_MIN_SPLIT in Hsz. change MI_POOL_ALIGN with 16 in *. 
  assert (Hsub : u64 (A + 16 - 16) = A) by (rewrite u64_small; unfold is_u64, MI_POOL_BASE in *; lia).
  assert (Hp0 : (A + 16 =? 0) = false) by (apply Z.eqb_neq; unfold MI_POOL_BASE in *; lia).
  destruct (coalesced_split _ _ _ (pl_coalesced _ _ _ Pk)) as [C1 C2].
  pose proof (pl_use _ _ _ Pk) as Hu. rewrite in_use_app in Hu. cbn [in_use] in Hu.
  pose proof (in_use_span _ Hpre). pose proof (in_use_span _ Hpost).
  destruct (MiKasanMarkFreed_spec (pool_kasan st) (MiPoolEnd st) A sz (pl_kasan _ _ _ Pk) HA) as (k' & Ek & K' & _ & Km & Kx);
    [Z.to_euclidean_division_equations; lia|Z.to_euclidean_division_equations; lia|lia|lia|].
  set (st1 := st <| MiPoolBytesInUse := MiPoolBytesInUse st - sz |> <| pool_kasan := k' |>).
  assert (Hfreq : forall x, requested MI_POOL_BASE (pre ++ (sz, None) :: post) x <-> ~ (A <= x < A + sz) /\ requested MI_POOL_BASE (pre ++ (sz, Some r) :: post) x).
  { assert (Hbk : forall x r', requested A ((sz, r') :: post) x -> A <= x) by (intros x r' [(r1 & _ & ?)|Hx]%requested_cons; [unfold MI_POOL_ALIGN in *; lia|apply requested_bounds in Hx; [lia|done]]).
    intros x. rewrite !requested_app. fold A. rewrite !requested_cons. split.
    - intros [Hx|[(? & [=] & _)|Hx]]; [split; [|by left]; apply requested_bounds in Hx; [unfold A; lia|done]|].
      split; [|by right; right]. apply requested_bounds in Hx; [lia|done].
    - intros [Hn [Hx|[(r1 & [= <-] & Hx)|Hx]]]; [by left| |by right; right]. exfalso. apply Hn.
      pose proof (pl_ok _ _ _ Pk) as Hok. apply Forall_app in Hok as [_ Hok]. apply Forall_cons in Hok as [(_ & _ & Hr) _]. cbn in Hr. unfold MI_POOL_ALIGN in *. lia. }
  destruct (pool_insert st1 pre sz post) as (st' & bl' & E & Pk' & Kp & El & Epg & Een & _ & (mg & Hmg & Hmg')).
  - destruct R as [R1 R2 R3 R4 R5]. apply headers_app in R4 as [Q1 Q2]. fold A in Q1, Q2. cbn [headers first_free] in Q1, Q2. destruct Q2 as (_ & _ & _ & Q2).
    split; cbn; try done; by rewrite R5, first_free_app.
  - done.
  - done.
  - cbn. lia.
  - apply (pl_drain _ _ _ Pk).
  - apply (pl_page _ _ _ Pk).
  - exact K'.
  - intros x Hx. change (shadow (pool_kasan st1)) with (shadow k'). change (MiPoolEnd st1) with (MiPoolEnd st) in Hx. rewrite Kx, Hfreq. by rewrite (pl_shadow _ _ _ Pk x Hx).
  - apply (pl_pages _ _ _ Pk).
  - change (MiKasanShadowMapped (pool_kasan st1)) with (MiKasanShadowMapped k'). rewrite Km. apply (pl_below _ _ _ Pk).
  - fold A in E, Hmg. exists st', bl'. split_and!; [|exact Pk'| | |done|done|].
    + unfold MiFreePool. rewrite (pl_drain _ _ _ Pk). run. change MI_POOL_ALIGN with 16. rewrite Hp0, Hsub. unfold get_magic, get_size. rewrite M. run. cbn [block_magic]. rewrite Z.eqb_refl. run.
      rewrite W. run. rewrite (proj2 (Z.leb_le sz (MiPoolBytesInUse st))) by lia. run. change (pool_kasan (st <| MiPoolBytesInUse := MiPoolBytesInUse st - sz |>)) with (pool_kasan st).
      rewrite Ek. run. exact E.
    + rewrite El, !live_app. cbn [live]. change MI_POOL_ALIGN with 16. fold A. by rewrite <- Permutation_middle.
    + intros x Hx. change (heap st) with (heap st1). apply Kp. by apply (requested_live _ _ _ _ El).
    + unfold MiFreePool. rewrite (pl_drain _ _ _ Pk'). run. change MI_POOL_ALIGN with 16. rewrite Hp0, Hsub, Hmg. run. by rewrite (proj2 (Z.eqb_neq mg _)).
Qed.
End pool_spec.
