(* ===== verification/PoolSpec.v ===== *)
(** * PoolSpec: the kernel pool grows, allocates and frees as a heap of blocks.

    Growing (MiExpandPool), the whole of MiAllocatePool, and what the pool's
    clients may rely on: disjoint zeroed blocks that keep their bytes, a shadow
    that marks exactly the bytes somebody asked for, and a check that reports
    exactly the accesses that leave them. *)

From S2P Require Import Prelude Bytes Memory Phys Mmu Pages Kasan Pool.

Section pool_grow.
Context {S : Type} {P : PAGES S} {window : Z -> Prop} {L : PAGES_OK S window}.
Hypothesis Hwin : windows_ok (window := window).
Implicit Types (st : pool_state S) (m : mem) (a x t sz n extra got : Z) (bl pre post : list blk).

(** The bytes below [e] are the same. *)
Definition same_below st st' (e : Z) : Prop := forall x, x < e -> heap st' !! x = heap st !! x.

(** One page of growth: a panic when frames for its page tables or its shadow
    run out, nothing when the page itself cannot be had, or one more page. *)
Lemma grow_page st bl extra left got : pool_grown st bl extra -> 0 <= extra -> MiPoolEnd st + PAGE_SIZE <= MI_POOL_BASE + 2 ^ 39 ->
  ((frames_left (pages st) < 8)%nat /\ exists why, expand_pages (Datatypes.S left) st got = Panic why) \/
  (frames_left (pages st) = 0%nat /\ expand_pages (Datatypes.S left) st got = Ok (got, st)) \/
  exists st', expand_pages (Datatypes.S left) st got = expand_pages left st' (got + 1) /\ pool_grown st' bl (extra + PAGE_SIZE) /\
    (frames_left (pages st) <= frames_left (pages st') + 8)%nat /\ MiPoolEnd st' = MiPoolEnd st + PAGE_SIZE /\ same_below st st' (MiPoolEnd st).
Proof.
  intros G He Hmax. cbn [expand_pages]. pose proof (pl_pages _ _ _ G) as Hs. pose proof (page_allocate_law _ Hs) as Ha.
  destruct (frames_left (pages st)) as [|fl] eqn:Hfl.
  { right. left. split; [done|]. rewrite Ha. run. cbn [Z.eqb]. by destruct st. }
  destruct Ha as (f & s1 & -> & Hf & Hv & Hs1 & Hn1 & Hm1). run. rewrite (proj2 (Z.eqb_neq f 0)) by done.
  pose proof (ks_range _ _ (pl_kasan _ _ _ G)) as Hr. set (e := MiPoolEnd st) in *. pose proof (pl_page _ _ _ G) as Hpg. fold e in Hpg.
  assert (Hal : aligned e = true) by by apply aligned_spec.
  assert (Hw : window e) by (apply Hwin; left; unfold PAGE_SIZE in *; lia).
  assert (He0 : 0 <= e) by (unfold MI_POOL_BASE in Hr; lia).
  destruct (page_map_law s1 e f Hs1 Hw He0 Hal Hv) as [[Hlow Hpan]|(s2 & -> & Hs2 & Hn2 & Hm2)].
  { rewrite Hm1. intros Hpm. destruct (pl_below _ _ _ G _ Hw He0 Hal Hpm) as [H|H]; fold e in H; [lia|].
    unfold MI_POOL_BASE, MI_KASAN_SHADOW_BASE in *. lia. }
  { left. split; [lia|]. rewrite Hpan. run. by eexists. }
  run. rewrite (u64_small (e + PAGE_SIZE)) by (unfold is_u64, MI_POOL_BASE, PAGE_SIZE in *; lia).
  assert (Hb : pages_below s2 (e + PAGE_SIZE) (MiKasanShadowMapped (pool_kasan st))).
  { intros va Hwva H0 Hav Hpm. destruct (proj1 (Hm2 va Hwva H0 Hav) Hpm) as [->|Hpm1]; [left; unfold PAGE_SIZE; lia|].
    apply Hm1 in Hpm1. destruct (pl_below _ _ _ G va Hwva H0 Hav Hpm1) as [?|?]; [left; fold e in H; unfold PAGE_SIZE; lia|by right]. }
  destruct (MiKasanCoverPool_spec (pool_kasan st) s2 e (e + PAGE_SIZE) Hwin (pl_kasan _ _ _ G) eq_refl Hmax) as [[Hlow [why Hpan]]|(k' & s3 & -> & K' & _ & Hs3 & Hn3 & Hb3 & A3)];
    [unfold MI_POOL_BASE, MI_KASAN_SHADOW_BASE in *; lia|exact Hs2|exact Hb|left; split; [lia|rewrite Hpan; run; by exists why]|].
  right. right. run. eexists. split; [reflexivity|].
  pose proof (frame_bytes_law s2 f Hs2 Hv) as Hlen.
  assert (Hlow : forall x, x < e -> put_bytes (heap st) e (frame_bytes s2 f) !! x = heap st !! x)
    by (intros x Hx; rewrite put_bytes_lookup, decide_False by lia; done).
  pose proof (pl_end _ _ _ G) as Hend. fold e in Hend. pose proof (pl_ok _ _ _ G) as Hok.
  split; [|cbn; split_and!; [lia|done|exact Hlow]].
  destruct (pl_mapped _ _ _ G) as [Hmap _]. fold e in Hmap.
  split; cbn; try apply G; try done.
  - lia.
  - split; [|unfold PAGE_SIZE in *; lia]. intros i Hi. rewrite put_bytes_lookup, Hlen. case_decide as D.
    + apply lookup_lt_is_Some_2. rewrite Hlen. unfold PAGE_SIZE in *. lia.
    + apply Hmap. unfold PAGE_SIZE in *. lia.
  - apply (headers_frame (heap st)); [done| |apply (pl_headers _ _ _ G)]. intros x Hx. apply Hlow. lia.
  - unfold PAGE_SIZE in *. Z.to_euclidean_division_equations; lia.
  - intros x Hx. rewrite A3 by lia. split.
    + intros [Hlt Hadd]. apply (pl_shadow _ _ _ G); [fold e; lia|done].
    + intros Hreq. pose proof (requested_bounds _ _ _ Hok Hreq). split; [lia|]. apply (pl_shadow _ _ _ G); [fold e; lia|done].
Qed.

(** The loop: how far it gets, and that only frames can stop it. *)
Lemma expand_pages_spec left st bl extra got : pool_grown st bl extra -> 0 <= extra ->
  MiPoolEnd st + Z.of_nat left * PAGE_SIZE <= MI_POOL_BASE + 2 ^ 39 ->
  ((frames_left (pages st) < 8 * left)%nat /\ exists why, expand_pages left st got = Panic why) \/
  exists k st', (k <= left)%nat /\ expand_pages left st got = Ok (got + Z.of_nat k, st') /\ pool_grown st' bl (extra + Z.of_nat k * PAGE_SIZE) /\
    ((k < left)%nat -> (frames_left (pages st) < 8 * left)%nat) /\ MiPoolEnd st' = MiPoolEnd st + Z.of_nat k * PAGE_SIZE /\ same_below st st' (MiPoolEnd st).
Proof.
  revert st extra got. induction left as [|left IH]; intros st extra got G He Hmax.
  { right. exists 0%nat, st. cbn [expand_pages]. rewrite !Z.add_0_r. split_and!; try done. lia. }
  destruct (grow_page st bl extra left got G He ltac:(unfold PAGE_SIZE in *; lia)) as [[Hlow Hpan]|[[H0 E]|(st1 & E & G1 & Hn & He1 & Hs1)]].
  - left. split; [lia|done].
  - right. exists 0%nat, st. rewrite E, !Z.add_0_r. split_and!; try done; lia.
  - rewrite E. destruct (IH st1 (extra + PAGE_SIZE) (got + 1) G1) as [[Hlow Hpan]|(k & st2 & Hk & -> & G2 & Hn2 & He2 & Hs2)].
    + unfold PAGE_SIZE. lia.
    + rewrite He1. unfold PAGE_SIZE in *. lia.
    + left. split; [lia|done].
    + right. exists (Datatypes.S k), st2. split_and!.
      * lia.
      * do 2 f_equal. lia.
      * by replace (extra + Z.of_nat (Datatypes.S k) * PAGE_SIZE) with (extra + PAGE_SIZE + Z.of_nat k * PAGE_SIZE) by lia.
      * intros H. lia.
      * rewrite He2, He1. lia.
      * intros x Hx. rewrite Hs2 by (rewrite He1; unfold PAGE_SIZE; lia). by apply Hs1.
Qed.

Definition pages_of n : Z := (n + PAGE_SIZE - 1) / PAGE_SIZE.

Lemma pages_of_bounds n : 0 < n -> 0 < pages_of n /\ n <= pages_of n * PAGE_SIZE.
Proof. unfold pages_of, PAGE_SIZE. intros H. Z.to_euclidean_division_equations; lia. Qed.

(** The new pages become one free block behind the last one. *)
Lemma append_free st bl sz : pool_grown st bl sz -> MI_POOL_MIN_SPLIT <= sz -> sz mod MI_POOL_ALIGN = 0 ->
  exists st' bl', (st1 ← set_size st (MI_POOL_BASE + span bl) sz; MiInsertFreeBlock st1 (MI_POOL_BASE + span bl)) = Ok st' /\ pool_ok st' bl' /\
    live MI_POOL_BASE bl' = live MI_POOL_BASE bl /\ keeps st bl st' /\ pages st' = pages st /\ exists s, (s, None) ∈ bl' /\ sz <= s.
Proof.
  intros G Hsz Hal. pose proof (pl_end _ _ _ G) as He. pose proof (pl_ok _ _ _ G) as Hok. pose proof (span_nonneg _ Hok) as Hsp.
  pose proof (pl_mapped _ _ _ G) as Hm. destruct (Hm) as [_ Hr]. unfold MI_POOL_MIN_SPLIT, MI_POOL_ALIGN in Hsz.
  destruct (set_word_spec st (MI_POOL_BASE + span bl) sz (MiPoolEnd st) Hm ltac:(lia) ltac:(lia)) as (m & E & W); [unfold is_u64, MI_POOL_BASE in *; lia|].
  unfold set_size. rewrite E. run. pose proof (stored_changed _ _ _ _ (MI_POOL_BASE + span bl) 8 W ltac:(lia) ltac:(lia)) as C.
  assert (Hreq : forall x, requested MI_POOL_BASE (bl ++ [(sz, None)]) x <-> requested MI_POOL_BASE bl x).
  { intros x. rewrite requested_app, requested_cons. split; [|by left]. intros [?|[(r & [=] & _)|(p & r & ?%elem_of_nil & _)]]; done. }
  destruct (pool_insert (with_heap st m) bl sz []) as (st' & bl' & -> & Pk & Kp & El & Epg & _ & Hs & _).
  - split; cbn; try done.
    + rewrite He. lia.
    + apply (changed_mapped _ _ _ _ _ C Hm).
    + apply (headers_changed _ _ _ _ _ _ _ Hok C); [by left|apply (pl_headers _ _ _ G)].
    + apply (st_word _ _ _ _ W).
    + apply (pl_head _ _ _ G).
  - apply (pl_coalesced _ _ _ G).
  - done.
  - cbn. rewrite (pl_use _ _ _ G). lia.
  - apply (pl_drain _ _ _ G).
  - apply (pl_page _ _ _ G).
  - apply (pl_kasan _ _ _ G).
  - intros x Hx. rewrite Hreq. by apply (pl_shadow _ _ _ G).
  - apply (pl_pages _ _ _ G).
  - apply (pl_below _ _ _ G).
  - exists st', bl'. split_and!; [done|done| |  |done|done].
    + rewrite El, live_app. cbn. by rewrite app_nil_r.
    + intros x Hx. rewrite Kp by by apply Hreq. change (heap (with_heap st m)) with m. apply C. pose proof (requested_bounds _ _ _ Hok Hx). lia.
Qed.

Lemma MiExpandPool_spec st bl n : pool_ok st bl -> 0 < n -> MiPoolEnd st + pages_of n * PAGE_SIZE <= MI_POOL_BASE + 2 ^ 39 ->
  ((frames_left (pages st) < 8 * Z.to_nat (pages_of n))%nat /\ exists why, MiExpandPool st n = Panic why) \/
  exists b st' bl', MiExpandPool st n = Ok (b, st') /\ pool_ok st' bl' /\ live MI_POOL_BASE bl' = live MI_POOL_BASE bl /\ keeps st bl st' /\
    if (b : bool) then exists s, (s, None) ∈ bl' /\ n <= s else (frames_left (pages st) < 8 * Z.to_nat (pages_of n))%nat.
Proof.
  intros G Hn Hmax. destruct (pages_of_bounds n Hn) as [Hp Hpn]. pose proof (pl_end _ _ _ G) as He. pose proof (ks_range _ _ (pl_kasan _ _ _ G)) as Hr.
  unfold MiExpandPool. rewrite (u64_small (n + PAGE_SIZE - 1)) by (unfold is_u64, MI_POOL_BASE, PAGE_SIZE in *; lia). fold (pages_of n).
  destruct (expand_pages_spec (Z.to_nat (pages_of n)) st bl 0 0 G ltac:(lia)) as [[Hlow [why Hpan]]|(k & st1 & Hk & -> & G1 & Hn1 & He1 & Hs1)];
    [rewrite Z2Nat.id by lia; lia|left; split; [done|rewrite Hpan; run; by exists why]|].
  right. run. rewrite Z.add_0_l in *. assert (Hkeep : keeps st bl st1).
  { intros x Hx. apply Hs1. pose proof (requested_bounds _ _ _ (pl_ok _ _ _ G) Hx). lia. }
  destruct (Z.eqb_spec (Z.of_nat k) 0) as [H0|H0].
  { replace k with 0%nat in * by lia. exists false, st1, bl. split_and!; try done. apply Hn1. lia. }
  assert (Hu : is_u64 (Z.of_nat k * PAGE_SIZE)) by (unfold is_u64, MI_POOL_BASE, PAGE_SIZE in *; lia). rewrite (u64_small (_ * _)) by done.
  destruct (append_free st1 bl (Z.of_nat k * PAGE_SIZE) G1) as (st2 & bl2 & E & Pk & El & Kp & Epg & s & Hs & Hle);
    [unfold MI_POOL_MIN_SPLIT, MI_POOL_ALIGN, PAGE_SIZE; lia|unfold MI_POOL_ALIGN, PAGE_SIZE; Z.to_euclidean_division_equations; lia|].
  rewrite He, Z.add_0_r. revert E. destruct (set_size st1 _ _) as [st3|w| |]; run; [|done..]. intros ->. run.
  eexists _, st2, bl2. split; [done|]. split_and!; [done|done|intros x Hx; rewrite Kp by done; by apply Hkeep|].
  destruct (Z.eqb_spec (Z.of_nat k) (pages_of n)) as [Ek|Hne]; [exists s; split; [done|unfold PAGE_SIZE in *; lia]|]. apply Hn1. lia.
Qed.

(** ** Allocation *)

Lemma round_down x : is_u64 x -> Z.land x (2 ^ 64 - MI_POOL_ALIGN) = x - x mod 16.
Proof.
  intros Hx. assert (E : Z.land x (2 ^ 64 - MI_POOL_ALIGN) = Z.ldiff (Z.land x (Z.ones 64)) (Z.ones 4)).
  { change (2 ^ 64 - MI_POOL_ALIGN) with (Z.ldiff (Z.ones 64) (Z.ones 4)). apply Z.bits_inj'. intros i _. rewrite Z.land_spec, !Z.ldiff_spec, Z.land_spec. by destruct (Z.testbit _ _), (Z.testbit _ _), (Z.testbit _ _). }
  rewrite E, Z.land_ones, Z.ldiff_ones_r by lia. rewrite Z.mod_small by done. rewrite Z.shiftl_mul_pow2, Z.shiftr_div_pow2 by lia. change (2 ^ 4) with 16.
  Z.to_euclidean_division_equations; lia.
Qed.

Lemma needed_bytes_spec n : 0 < n <= 2 ^ 38 -> let needed := needed_bytes n in
  MI_POOL_MIN_SPLIT <= needed /\ needed mod MI_POOL_ALIGN = 0 /\ MI_POOL_ALIGN + n <= needed <= n + 31.
Proof.
  intros Hn needed. unfold needed, needed_bytes. rewrite (u64_small (n + MI_POOL_ALIGN - 1)) by (unfold is_u64, MI_POOL_ALIGN; lia).
  rewrite round_down by (unfold is_u64, MI_POOL_ALIGN; lia). unfold MI_POOL_MIN_SPLIT, MI_POOL_ALIGN.
  rewrite u64_small by (unfold is_u64; Z.to_euclidean_division_equations; lia).
  destruct (Z.ltb_spec (16 + (n + 16 - 1 - (n + 16 - 1) mod 16)) (16 + 16)); split_and!; Z.to_euclidean_division_equations; lia.
Qed.

Lemma pool_fuel_enough st bl : pool_ok st bl -> (length bl < pool_fuel st)%nat.
Proof.
  intros G. pose proof (pl_end _ _ _ G) as He. pose proof (blocks_count _ (pl_ok _ _ _ G)). unfold pool_fuel. rewrite He.
  replace (MI_POOL_BASE + span bl + 0 - MI_POOL_BASE) with (span bl) by lia. lia.
Qed.

(** A search that succeeds, and the block taken. *)
Lemma attempt_spec attempts st bl n : pool_ok st bl -> 0 < n <= 2 ^ 38 ->
  (exists p st' bl', allocate_attempts (Datatypes.S attempts) st (needed_bytes n) n = Ok (p, st') /\ pool_ok st' bl' /\
     live MI_POOL_BASE bl' ≡ₚ (p, n) :: live MI_POOL_BASE bl /\ keeps st bl st' /\ (forall x, p <= x < p + n -> heap st' !! x = Some 0) /\ p mod 16 = 0) \/
  (none_fits (needed_bytes n) bl /\ allocate_attempts (Datatypes.S attempts) st (needed_bytes n) n =
     ('(expanded, st1) ← MiExpandPool st (needed_bytes n); if negb expanded then Ok (0, st1) else allocate_attempts attempts st1 (needed_bytes n) n)).
Proof.
  intros G Hn. destruct (needed_bytes_spec n Hn) as (N1 & N2 & N3). cbn [allocate_attempts].
  destruct (first_fit_spec (pool_fuel st) st None MI_POOL_BASE bl (needed_bytes n) (pl_ok _ _ _ G) (pl_headers _ _ _ G)) as (r & -> & Hr);
    [cbn; by rewrite (pl_head _ _ _ G)|done|by apply pool_fuel_enough|].
  run. destruct r as [[l b]|]; [|right; by split]. left. destruct Hr as (pre & sz & post & -> & -> & -> & Hle & _).
  destruct (take_spec st pre sz post (needed_bytes n) n G ltac:(lia) N2 ltac:(lia) ltac:(lia)) as (st' & E & G' & Kp & Hz & _ & _).
  eexists _, st', _. split; [exact E|]. split; [exact G'|]. split; [|split; [done|split; [done|]]].
  - rewrite taken_live, live_app. cbn [live]. by rewrite <- Permutation_middle.
  - pose proof (pl_ok _ _ _ G) as Hok. apply Forall_app in Hok as [Hpre _]. pose proof (span_mod _ Hpre). unfold MI_POOL_BASE, MI_POOL_ALIGN. Z.to_euclidean_division_equations; lia.
Qed.

Lemma MiAllocatePool_spec st bl n : pool_ok st bl -> 0 < n <= 2 ^ 38 ->
  MiPoolEnd st + pages_of (needed_bytes n) * PAGE_SIZE <= MI_POOL_BASE + 2 ^ 39 ->
  (exists p st' bl', MiAllocatePool st n = Ok (p, st') /\ pool_ok st' bl' /\ live MI_POOL_BASE bl' ≡ₚ (p, n) :: live MI_POOL_BASE bl /\
     keeps st bl st' /\ (forall x, p <= x < p + n -> heap st' !! x = Some 0) /\ p mod 16 = 0) \/
  ((frames_left (pages st) < 8 * Z.to_nat (pages_of (needed_bytes n)))%nat /\
    ((exists why, MiAllocatePool st n = Panic why) \/
     exists st' bl', MiAllocatePool st n = Ok (0, st') /\ pool_ok st' bl' /\ live MI_POOL_BASE bl' = live MI_POOL_BASE bl /\ keeps st bl st')).
Proof.
  intros G Hn Hmax. destruct (needed_bytes_spec n Hn) as (N1 & N2 & N3). unfold MI_POOL_MIN_SPLIT, MI_POOL_ALIGN in N1.
  unfold MiAllocatePool. rewrite (pl_drain _ _ _ G). run. rewrite (proj2 (Z.eqb_neq n 0)) by lia.
  destruct (attempt_spec 1 st bl n G Hn) as [H|[_ ->]]; [by left|].
  destruct (MiExpandPool_spec st bl (needed_bytes n) G ltac:(lia) Hmax) as [[Hlow [why ->]]|([|] & st1 & bl1 & -> & G1 & El & Kp & Hb)]; run.
  - right. split; [done|]. left. by exists why.
  - left. destruct Hb as (s & Hs & Hle). destruct (attempt_spec 0 st1 bl1 n G1 Hn) as [(p & st' & bl' & E & G' & El' & Kp' & Hz & Ha)|[Hno _]].
    + exists p, st', bl'. split_and!; try done; [by rewrite El', El|]. intros x Hx. rewrite Kp' by (by apply (requested_live _ _ _ _ El)). by apply Kp.
    + exfalso. unfold none_fits in Hno. rewrite Forall_forall in Hno. specialize (Hno _ Hs eq_refl). cbn in Hno. lia.
  - right. split; [done|]. right. by exists st1, bl1.
Qed.
End pool_grow.

(** ** What a client of the pool relies on *)

Section client.
Context {S : Type} {P : PAGES S} {window : Z -> Prop} {L : PAGES_OK S window}.
Implicit Types (st : pool_state S) (k : kasan) (x p r n address size : Z) (bl : list blk) (A : list (Z * Z)).

(** The abstract pool: the multiset [A] of blocks handed out, (address, bytes asked for). *)
Definition heap_of st A : Prop := exists bl, pool_ok st bl /\ live MI_POOL_BASE bl ≡ₚ A.

(** The byte at [x] belongs to a block of [A]. *)
Definition owned A x : Prop := exists p r, (p, r) ∈ A /\ p <= x < p + r.

(** The bytes of the blocks of [A] are the same. *)
Definition kept A st st' : Prop := forall x, owned A x -> heap st' !! x = heap st !! x.

Lemma owned_perm A A' x : A ≡ₚ A' -> owned A x <-> owned A' x.
Proof. intros E. unfold owned. by setoid_rewrite E. Qed.

Lemma granule_base : granule MI_POOL_BASE = MI_KASAN_SHADOW_BASE.
Proof. done. Qed.

Lemma heap_of_init st : in_drain st = false -> pages_ok (pages st) ->
  (forall va, window va -> 0 <= va -> aligned va = true -> page_mapped (pages st) va -> va < MI_POOL_BASE) -> heap_of (MiInitializePool st) [].
Proof.
  intros Hd Hs Hm. exists []. split; [|done]. split; cbn; try done; try lia.
  - split; [|unfold MI_POOL_BASE; lia]. intros i Hi. lia.
  - split; cbn; try done; rewrite ?granule_base; try (unfold MI_KASAN_SHADOW_BASE, MI_POOL_BASE; lia); intros x Hx; lia.
  - intros va Hw H0 Hal Hpm. left. by apply Hm.
Qed.

Lemma heap_of_disjoint st A i j p r q s : heap_of st A -> A !! i = Some (p, r) -> A !! j = Some (q, s) -> i <> j -> p + r <= q \/ q + s <= p.
Proof.
  intros (bl & G & E). pose proof (live_disjoint MI_POOL_BASE bl (pl_ok _ _ _ G)) as D. revert D. generalize (live MI_POOL_BASE bl) E. clear. intros l E D.
  assert (Hl : forall i j p r q s, l !! i = Some (p, r) -> l !! j = Some (q, s) -> (i < j)%nat -> p + r <= q).
  { clear -D. induction D as [|[u v] l Hu D IH]; intros i j p r q s Hi Hj Hij; [done|]. destruct j as [|j]; [lia|]. cbn in Hj. destruct i as [|i]; cbn in Hi.
    - injection Hi as -> ->. rewrite Forall_forall in Hu. apply (Hu (q, s)). by eapply list_elem_of_lookup_2.
    - apply (IH i j p r q s Hi Hj). lia. }
  intros Hi Hj Hij. symmetry in E. apply Permutation_inj in E as (_ & f & Hf & E).
  assert (f i <> f j) by (intros H; by apply Hij, Hf). rewrite E in Hi, Hj.
  destruct (decide (f i < f j)%nat); [left|right]; [by apply (Hl (f i) (f j) p r q s)|apply (Hl (f j) (f i) q s p r); [done..|lia]].
Qed.

Lemma heap_of_use st A : heap_of st A -> (A = [] -> MiGetPoolBytesInUse st = 0) /\ forall p r, (p, r) ∈ A -> r + MI_POOL_ALIGN <= MiGetPoolBytesInUse st.
Proof.
  intros (bl & G & E). unfold MiGetPoolBytesInUse. rewrite (pl_use _ _ _ G). pose proof (pl_ok _ _ _ G) as Hok. split.
  - intros ->. apply Permutation_nil_r in E. revert E. generalize MI_POOL_BASE. clear. induction bl as [|[sz [r|]] bl IH]; intros a E; cbn in *; [done..|]. by apply (IH _ E).
  - intros p r. rewrite <- E. generalize MI_POOL_BASE. clear - Hok. induction Hok as [|[sz [r0|]] bl [H1 [H2 H3]] Hok IH]; intros a; cbn in *; [by intros ?%elem_of_nil| |by apply IH].
    pose proof (in_use_span _ Hok). rewrite elem_of_cons. unfold MI_POOL_MIN_SPLIT, MI_POOL_ALIGN in *. intros [[= -> ->]|H0]; [lia|]. apply IH in H0. lia.
Qed.

Lemma requested_owned bl A x : live MI_POOL_BASE bl ≡ₚ A -> requested MI_POOL_BASE bl x <-> owned A x.
Proof. intros E. rewrite <- (owned_perm _ _ x E). done. Qed.

Lemma heap_of_bounds st A p r : heap_of st A -> (p, r) ∈ A ->
  MI_POOL_BASE + MI_POOL_ALIGN <= p /\ p + r <= MiPoolEnd st <= MI_POOL_BASE + 2 ^ 39 /\ MiPoolEnd st mod PAGE_SIZE = 0.
Proof.
  intros (bl & G & E) H. rewrite <- E in H. pose proof (live_bounds _ _ _ _ (pl_ok _ _ _ G) H). pose proof (pl_end _ _ _ G).
  pose proof (ks_range _ _ (pl_kasan _ _ _ G)). pose proof (pl_page _ _ _ G). lia.
Qed.

(** *** The sanitizer *)

(** What a report does: counted under a test, fatal otherwise, silent in a panic. *)
Definition rejected k (o : outcome kasan) : Prop :=
  match MiKasanReportCounter k with
  | Some c => o = Ok (k <| MiKasanReportCounter := Some (s32 (c + 1)) |>)
  | None => if KiPanicInProgress k then o = Ok k else o = Panic "KASAN: use after free" \/ o = Panic "KASAN: out-of-bounds pool access"
  end.

Lemma MiKasanReport_spec k e x : kasan_ok k e -> in_pool e x -> rejected k (MiKasanReport k x).
Proof.
  intros K Hx. unfold rejected, MiKasanReport. destruct (MiKasanReportCounter k) as [c|]; [done|]. destruct (KiPanicInProgress k); [done|].
  destruct (byte_ok_spec k e x K Hx) as (b & Hb & _). unfold MiKasanByteOk in Hb. destruct (load (shadow k) (MiKasanShadowFor x)) as [v|w| |]; try done.
  run. destruct (v =? MI_KASAN_FREE); [by left|by right].
Qed.

Lemma check_bytes_spec k e x left : kasan_ok k e -> MI_POOL_BASE <= x -> x + Z.of_nat left <= e ->
  (check_bytes k x left = Ok k /\ forall y, x <= y < x + Z.of_nat left -> addressable (shadow k) y) \/
  (rejected k (check_bytes k x left) /\ exists y, x <= y < x + Z.of_nat left /\ ~ addressable (shadow k) y).
Proof.
  intros K. revert x. induction left as [|left IH]; intros x Hx He; cbn [check_bytes]; [left; split; [done|lia]|].
  assert (Hin : in_pool e x) by (unfold in_pool; lia).
  destruct (byte_ok_spec k e x K Hin) as ([|] & -> & Hb); run.
  - destruct (IH (x + 1) ltac:(lia) ltac:(lia)) as [[E H]|[E (y & Hy & Hn)]].
    + left. split; [done|]. intros y Hy. destruct (decide (y = x)) as [->|]; [by apply Hb|apply H; lia].
    + right. split; [done|]. exists y. split; [lia|done].
  - right. split; [by apply (MiKasanReport_spec k e)|]. exists x. split; [lia|]. intros H. by apply Hb in H.
Qed.

(** The range lies in the pool, so the shadow has a say. *)
Definition shadowed st address size : Prop := 0 < size /\ MI_POOL_BASE <= address /\ address + size <= MiPoolEnd st.

Lemma MiKasanCheckRange_spec st A address size : heap_of st A -> is_u64 address -> is_u64 size ->
  let o := MiKasanCheckRange (pool_kasan st) address size in
  (shadowed st address size -> (exists x, address <= x < address + size /\ ~ owned A x) -> rejected (pool_kasan st) o) /\
  (~ shadowed st address size \/ (forall x, address <= x < address + size -> owned A x) -> o = Ok (pool_kasan st)).
Proof.
  intros (bl & G & E) Ha Hs o. pose proof (pl_kasan _ _ _ G) as K. pose proof (ks_range _ _ K) as Hr.
  assert (Ho : o = if decide (shadowed st address size) then check_bytes (pool_kasan st) address (Z.to_nat size) else Ok (pool_kasan st)).
  { unfold o, MiKasanCheckRange, MiKasanCheck. rewrite (ks_ready _ _ K), (ks_end _ _ K). cbn [negb orb]. unfold shadowed.
    destruct (Z.eqb_spec size 0) as [Hz|Hz].
    { rewrite decide_False by lia. done. }
    rewrite u64_add by done. unfold is_u64, MI_POOL_BASE in *.
    destruct (Z.ltb_spec address 18446638520593285120); cbn [orb]; [by rewrite decide_False by lia|].
    destruct (Z.ltb_spec (address + size) (2 ^ 64)).
    - destruct (Z.ltb_spec (MiPoolEnd st) (address + size)); cbn [orb]; [by rewrite decide_False by lia|].
      rewrite (proj2 (Z.ltb_ge _ _)) by lia. by rewrite decide_True by lia.
    - rewrite decide_False by lia. rewrite (proj2 (Z.ltb_lt (address + size - 2 ^ 64) address)) by lia. by rewrite orb_true_r. }
  rewrite Ho. clear Ho o. case_decide as D; [|by split; [intros ?|]].
  destruct D as (D1 & D2 & D3).
  assert (Hadd : forall x, address <= x < address + size -> addressable (shadow (pool_kasan st)) x <-> owned A x)
    by (intros x Hx; rewrite (pl_shadow _ _ _ G) by lia; by apply requested_owned).
  assert (EZ : Z.of_nat (Z.to_nat size) = size) by (apply Z2Nat.id; unfold is_u64 in Hs; lia).
  destruct (check_bytes_spec (pool_kasan st) (MiPoolEnd st) address (Z.to_nat size) K D2 ltac:(lia)) as [[E1 H]|[E1 (y & Hy & Hn)]];
    rewrite EZ in *; split.
  - intros _ (x & Hx & Hx'). destruct Hx'. by apply Hadd, H.
  - done.
  - done.
  - intros [Hns|Hall]; [by destruct Hns|]. destruct Hn. by apply Hadd, Hall.
Qed.

(** *** Allocating and freeing *)

Hypothesis Hwin : windows_ok (window := window).

Lemma heap_of_allocate st A n : heap_of st A -> 0 < n <= 2 ^ 38 -> MiPoolEnd st + pages_of (needed_bytes n) * PAGE_SIZE <= MI_POOL_BASE + 2 ^ 39 ->
  (exists p st', MiAllocatePool st n = Ok (p, st') /\ heap_of st' ((p, n) :: A) /\ kept A st st' /\
     (forall x, p <= x < p + n -> heap st' !! x = Some 0) /\ p mod 16 = 0) \/
  ((frames_left (pages st) < 8 * Z.to_nat (pages_of (needed_bytes n)))%nat /\
    ((exists why, MiAllocatePool st n = Panic why) \/ exists st', MiAllocatePool st n = Ok (0, st') /\ heap_of st' A /\ kept A st st')).
Proof.
  intros (bl & G & E) Hn Hmax. destruct (MiAllocatePool_spec Hwin st bl n G Hn Hmax) as [(p & st' & bl' & -> & G' & El & Kp & Hz & Ha)|[Hlow [Hpan|(st' & bl' & -> & G' & El & Kp)]]].
  - left. exists p, st'. split_and!; try done; [exists bl'; by rewrite El, E|]. intros x Hx. by apply Kp, (requested_owned bl A x E).
  - right. split; [done|]. by left.
  - right. split; [done|]. right. exists st'. split_and!; [done|exists bl'; by rewrite El|]. intros x Hx. by apply Kp, (requested_owned bl A x E).
Qed.

Lemma heap_of_free st A p r : heap_of st ((p, r) :: A) -> exists st', MiFreePool st p = Ok st' /\ heap_of st' A /\ kept A st st' /\
  MiFreePool st' p = Panic "MiFreePool: bad block (double free or corruption)".
Proof.
  intros (bl & G & E). destruct (free_spec st bl p r G) as (st' & bl' & -> & G' & El & Kp & _ & _ & Hdf); [rewrite E; left|].
  assert (E' : live MI_POOL_BASE bl' ≡ₚ A) by (apply (Permutation_cons_inv (a := (p, r))); by rewrite <- El).
  exists st'. split_and!; [done|by exists bl'| |done]. intros x Hx. by apply Kp, (requested_owned bl' A x E').
Qed.
End client.

(** ** Properties *)

(** C13. The pool implements a set of disjoint blocks.  A fresh pool has none.
    While the set is A: blocks never overlap, and the pool counts at least their
    bytes as in use, none when A is empty; MiAllocatePool hands out a zeroed,
    16-byte-aligned new block, or, only when there are not eight free frames for
    each page the block takes, returns 0 or panics; MiFreePool takes back any
    block of A, and a second free of it panics; in each case the other blocks
    keep every byte. *)
Theorem pool_refines_blocks {S : Type} {P : PAGES S} {window : Z -> Prop} {L : PAGES_OK S window} (Hwin : windows_ok (window := window))
  (st : pool_state S) (A : list (Z * Z)) :
  (in_drain st = false -> pages_ok (pages st) ->
    (forall va, window va -> 0 <= va -> aligned va = true -> page_mapped (pages st) va -> va < MI_POOL_BASE) -> heap_of (MiInitializePool st) []) /\
  (heap_of st A ->
    (forall i j p r q s, A !! i = Some (p, r) -> A !! j = Some (q, s) -> i <> j -> p + r <= q \/ q + s <= p) /\
    ((A = [] -> MiGetPoolBytesInUse st = 0) /\ forall p r, (p, r) ∈ A -> r + MI_POOL_ALIGN <= MiGetPoolBytesInUse st) /\
    (forall n, 0 < n <= 2 ^ 38 -> MiPoolEnd st + pages_of (needed_bytes n) * PAGE_SIZE <= MI_POOL_BASE + 2 ^ 39 ->
      (exists p st', MiAllocatePool st n = Ok (p, st') /\ heap_of st' ((p, n) :: A) /\ kept A st st' /\
        (forall x, p <= x < p + n -> heap st' !! x = Some 0) /\ p mod 16 = 0) \/
      ((frames_left (pages st) < 8 * Z.to_nat (pages_of (needed_bytes n)))%nat /\
        ((exists why, MiAllocatePool st n = Panic why) \/ exists st', MiAllocatePool st n = Ok (0, st') /\ heap_of st' A /\ kept A st st'))) /\
    (forall p r A', A ≡ₚ (p, r) :: A' -> exists st', MiFreePool st p = Ok st' /\ heap_of st' A' /\ kept A' st st' /\
      MiFreePool st' p = Panic "MiFreePool: bad block (double free or corruption)")).
Proof.
  split; [apply heap_of_init|]. intros H. split_and!.
  - intros i j p r q s. by apply (heap_of_disjoint st A).
  - apply (heap_of_use st A H).
  - apply (heap_of_use st A H).
  - intros n. by apply heap_of_allocate.
  - intros p r A' E. apply (heap_of_free st A' p r). destruct H as (bl & G & E'). exists bl. by rewrite E'.
Qed.

(** C23. The sanitizer's shadow is exact.  Whatever the pool has handed out and
    taken back, a byte of it is accessible to instrumented code exactly when it
    was asked for and not yet freed: MiKasanCheckRange reports every range of
    the pool with a byte outside the live blocks (block headers, the slack
    behind an odd size, freed memory) and no other range. *)
Theorem kasan_shadow_exact {S : Type} {P : PAGES S} {window : Z -> Prop} {L : PAGES_OK S window} (st : pool_state S) (A : list (Z * Z)) (address size : Z)
  (H : heap_of st A) (Haddress : is_u64 address) (Hsize : is_u64 size) :
  (shadowed st address size -> (exists x, address <= x < address + size /\ ~ owned A x) ->
    rejected (pool_kasan st) (MiKasanCheckRange (pool_kasan st) address size)) /\
  (~ shadowed st address size \/ (forall x, address <= x < address + size -> owned A x) ->
    MiKasanCheckRange (pool_kasan st) address size = Ok (pool_kasan st)).
Proof. by apply MiKasanCheckRange_spec. Qed.

(** ** Examples *)

(** A counter of frames and a list of mapped pages, for the witnesses. *)
Definition counter_state : Type := nat * list Z.

#[export] Instance counter_pages : PAGES counter_state := {
  page_allocate s := match s.1 with O => Ok (0, s) | Datatypes.S n => Ok (PAGE_SIZE * Z.of_nat (Datatypes.S n), (n, s.2)) end;
  page_map s va f := Ok (s.1, va :: s.2);
  frame_bytes s f := replicate (Z.to_nat PAGE_SIZE) 7;
}.

#[export] Program Instance counter_laws : PAGES_OK counter_state (fun _ => True) := {
  pages_ok s := True;
  frames_left s := s.1;
  frame_valid f := True;
  page_mapped s va := va ∈ s.2;
}.
Next Obligation.
  intros [[|n] l] _; cbn; [done|]. eexists _, _. split; [done|]. split_and!; try done.
Qed.
Next Obligation.
  intros [n l] va f _ _ _ _ _ _. right. eexists. split; [done|]. cbn. split_and!; [done|lia|]. intros va' _ _ _. apply elem_of_cons.
Qed.
Next Obligation. intros s f _ _. apply length_replicate. Qed.

Definition example_pool : pool_state counter_state :=
  MiInitializePool (mkpool 0 0 0 false ∅ (mkkasan false 0 0 None false ∅) (100%nat, [])).

Lemma example_heap : heap_of example_pool [].
Proof. apply heap_of_init; [done..|]. intros va _ _ _ H%elem_of_nil. done. Qed.

Lemma pool_refines_blocks_witness :
  exists p st q, MiAllocatePool example_pool 100 = Ok (p, st) /\ heap_of st [(p, 100)] /\ MiFreePool st p = Ok q /\ heap_of q [].
Proof.
  destruct (proj2 (pool_refines_blocks (fun _ _ => I) example_pool []) example_heap) as (_ & _ & Hal & _).
  destruct (Hal 100 ltac:(lia) ltac:(vm_compute; discriminate)) as [(p & st & E & H & _)|[Hlow _]]; [|exfalso; apply Nat.ltb_lt in Hlow; vm_compute in Hlow; discriminate].
  destruct (proj2 (pool_refines_blocks (fun _ _ => I) st [(p, 100)]) H) as (_ & _ & _ & Hfree).
  destruct (Hfree p 100 [] ltac:(done)) as (q & Eq & Hq & _ & _). exists p, st, q. by split_and!.
Defined.

Lemma kasan_shadow_exact_witness : exists st p, heap_of st [(p, 13)] /\ MiKasanCheckRange (pool_kasan st) p 13 = Ok (pool_kasan st) /\
  rejected (pool_kasan st) (MiKasanCheckRange (pool_kasan st) (p + 8) 8).
Proof.
  destruct (heap_of_allocate (fun _ _ => I) example_pool [] 13 example_heap ltac:(lia) ltac:(vm_compute; discriminate)) as [(p & st & E & H & _ & _ & Hal)|[Hlow _]];
    [|exfalso; apply Nat.ltb_lt in Hlow; vm_compute in Hlow; discriminate].
  destruct (heap_of_bounds st [(p, 13)] p 13 H ltac:(left)) as (Hb1 & Hb2 & Hb3).
  assert (Hb4 : p + 16 <= MiPoolEnd st) by (unfold PAGE_SIZE in Hb3; Z.to_euclidean_division_equations; lia).
  unfold MI_POOL_BASE, MI_POOL_ALIGN in *. exists st, p. split; [exact H|]. split.
  - apply (kasan_shadow_exact st [(p, 13)] p 13 H); [unfold is_u64; lia|unfold is_u64; lia|]. right. intros x Hx. exists p, 13. split; [left|lia].
  - apply (kasan_shadow_exact st [(p, 13)] (p + 8) 8 H); [unfold is_u64; lia|unfold is_u64; lia|unfold shadowed, MI_POOL_BASE; lia|].
    exists (p + 13). split; [lia|]. intros (q & r & [= -> ->]%list_elem_of_singleton & Hx). lia.
Defined.
