(* ===== verification/Crc32.v ===== *)
(** * Crc32: the checksum of the registry hive's log records
    (kernel/lib/crc32.c), bit at a time. *)

From S2P Require Import Prelude.

Definition KI_CRC32_REVERSED_POLYNOMIAL : Z := 0xEDB88320.
Definition KI_CRC32_INITIAL : Z := 0xFFFFFFFF.
Definition KI_CRC32_FINAL_XOR : Z := 0xFFFFFFFF.
Definition KI_CRC32_CHECK_VALUE : Z := 0xCBF43926.

(** One turn of the inner loop. *)
Definition crc_bit (crc : Z) : Z :=
  let lowBitSet := Z.land crc 1 in
  let crc := Z.shiftr crc 1 in
  if negb (lowBitSet =? 0) then Z.lxor crc KI_CRC32_REVERSED_POLYNOMIAL else crc.

(** One turn of the outer loop. *)
Definition crc_byte (crc byte : Z) : Z := Nat.iter 8 crc_bit (Z.lxor crc byte).

Definition KiCrc32 (bytes : list Z) : Z :=
  Z.lxor (foldl crc_byte KI_CRC32_INITIAL bytes) KI_CRC32_FINAL_XOR.

Definition KiCrc32SelfTest : outcome unit :=
  let check := [49; 50; 51; 52; 53; 54; 55; 56; 57] in
  _ ← ASSERT (KiCrc32 check =? KI_CRC32_CHECK_VALUE) "check value";
  ASSERT (KiCrc32 (take 0 check) =? 0) "empty range".

(** ** The bit step is linear and loses nothing *)

Section crc.
Implicit Types (x y b i : Z).

Lemma lxor_range x y n : 0 <= n -> 0 <= x < 2 ^ n -> 0 <= y < 2 ^ n -> 0 <= Z.lxor x y < 2 ^ n.
Proof.
  intros Hn Hx Hy. assert (H : 0 <= Z.lxor x y) by (apply Z.lxor_nonneg; lia).
  split; [done|]. apply bits_bound; [done..|]. intros i Hi. rewrite Z.lxor_spec.
  rewrite (proj1 (bits_bound x n ltac:(lia) Hn) ltac:(lia)) by done.
  by rewrite (proj1 (bits_bound y n ltac:(lia) Hn) ltac:(lia)) by done.
Qed.

Lemma crc_bit_alt x : crc_bit x = Z.lxor (Z.shiftr x 1) (if Z.testbit x 0 then KI_CRC32_REVERSED_POLYNOMIAL else 0).
Proof.
  unfold crc_bit. replace (Z.land x 1) with (if Z.testbit x 0 then 1 else 0).
  - destruct (Z.testbit x 0); [done|]. by rewrite Z.lxor_0_r.
  - apply Z.bits_inj'. intros i Hi. rewrite Z.land_spec. destruct (Z.eq_dec i 0) as [->|Hne].
    + by destruct (Z.testbit x 0).
    + replace (Z.testbit 1 i) with false; [rewrite andb_false_r|].
      * destruct (Z.testbit x 0); [|apply Z.bits_0]. change 1 with (2 ^ 0). rewrite Z.pow2_bits_false; lia.
      * symmetry. change 1 with (2 ^ 0). rewrite Z.pow2_bits_false; lia.
Qed.

Lemma crc_bit_lxor x y : crc_bit (Z.lxor x y) = Z.lxor (crc_bit x) (crc_bit y).
Proof.
  rewrite !crc_bit_alt, Z.lxor_spec, Z.shiftr_lxor.
  set (a := Z.shiftr x 1). set (c := Z.shiftr y 1).
  destruct (Z.testbit x 0), (Z.testbit y 0); cbn [xorb]; apply Z.bits_inj'; intros i _;
    rewrite !Z.lxor_spec, ?Z.bits_0;
    destruct (Z.testbit a i), (Z.testbit c i), (Z.testbit KI_CRC32_REVERSED_POLYNOMIAL i); done.
Qed.

Lemma crc_bits_lxor n x y :
  Nat.iter n crc_bit (Z.lxor x y) = Z.lxor (Nat.iter n crc_bit x) (Nat.iter n crc_bit y).
Proof. induction n as [|n IH]; [done|]. rewrite ?Nat.iter_succ. by rewrite IH, crc_bit_lxor. Qed.

Lemma crc_bit_range x : is_u32 x -> is_u32 (crc_bit x).
Proof.
  intros [H1 H2]. rewrite crc_bit_alt. set (p := if Z.testbit x 0 then KI_CRC32_REVERSED_POLYNOMIAL else 0).
  assert (Hp : 0 <= p < 2 ^ 32) by (unfold p, KI_CRC32_REVERSED_POLYNOMIAL; destruct (Z.testbit x 0); lia).
  assert (Hs : 0 <= Z.shiftr x 1 < 2 ^ 32).
  { rewrite Z.shiftr_div_pow2 by lia. split; [apply Z.div_pos; lia|]. apply Z.div_lt_upper_bound; lia. }
  by apply (lxor_range _ _ 32).
Qed.

(** The polynomial's top bit is what makes the step invertible. *)
Lemma crc_bit_zero x : is_u32 x -> crc_bit x = 0 -> x = 0.
Proof.
  intros [H1 H2] E. rewrite crc_bit_alt in E.
  assert (Hs : Z.testbit (Z.shiftr x 1) 31 = false).
  { rewrite Z.shiftr_spec by lia. by apply (bits_bound x 32); lia. }
  destruct (Z.testbit x 0) eqn:E0.
  - exfalso. assert (Hb : Z.testbit (Z.lxor (Z.shiftr x 1) KI_CRC32_REVERSED_POLYNOMIAL) 31 = false) by (rewrite E; apply Z.bits_0).
    rewrite Z.lxor_spec, Hs in Hb. by vm_compute in Hb.
  - rewrite Z.lxor_0_r in E. apply Z.bits_inj'. intros i Hi. rewrite Z.bits_0.
    destruct (Z.eq_dec i 0) as [->|]; [done|]. replace i with (i - 1 + 1) by lia.
    rewrite <- Z.shiftr_spec by lia. rewrite E. apply Z.bits_0.
Qed.

Lemma crc_bits_zero n x : is_u32 x -> Nat.iter n crc_bit x = 0 -> x = 0.
Proof.
  intros Hx. assert (Hr : forall k, is_u32 (Nat.iter k crc_bit x)).
  { induction k as [|k IH]; [done|]. by apply crc_bit_range. }
  induction n as [|n IH]; [done|]. rewrite ?Nat.iter_succ. intros E. apply IH. by apply crc_bit_zero.
Qed.

(** Bits above the byte only move down. *)
Lemma crc_bits_shift n x : 0 <= x -> Nat.iter n crc_bit (Z.shiftl x (Z.of_nat n)) = x.
Proof.
  intros Hx. assert (Hr : forall k j, (k <= n)%nat -> j = Z.of_nat (n - k) -> Nat.iter k crc_bit (Z.shiftl x (Z.of_nat n)) = Z.shiftl x j).
  { induction k as [|k IH]; intros j Hk ->; [by rewrite Nat.sub_0_r|]. rewrite ?Nat.iter_succ.
    rewrite (IH (Z.of_nat (n - k))) by lia. rewrite crc_bit_alt.
    rewrite Z.shiftl_spec_low by lia. rewrite Z.lxor_0_r.
    rewrite Z.shiftr_shiftl_l by lia. f_equal. lia. }
  rewrite (Hr n 0) by lia. apply Z.shiftl_0_r.
Qed.

Lemma crc_byte_lxor x y b c : crc_byte (Z.lxor x y) (Z.lxor b c) = Z.lxor (crc_byte x b) (crc_byte y c).
Proof.
  unfold crc_byte. rewrite <- crc_bits_lxor. f_equal. apply Z.bits_inj'. intros i _. rewrite !Z.lxor_spec.
  by destruct (Z.testbit x i), (Z.testbit y i), (Z.testbit b i), (Z.testbit c i).
Qed.

(** The word a run of bytes amounts to, least significant first. *)
Fixpoint le_word (l : list Z) : Z :=
  match l with
  | [] => 0
  | b :: l' => Z.lxor b (Z.shiftl (le_word l') 8)
  end.

Lemma le_word_range l n : Forall is_u8 l -> (length l <= n)%nat -> 0 <= le_word l < 2 ^ (8 * Z.of_nat n).
Proof.
  revert n. induction l as [|b l IH]; intros n Hl Hn; [cbn; split; [done|apply Z.pow_pos_nonneg; lia]|].
  destruct n as [|n]; [simpl in Hn; lia|]. apply Forall_cons in Hl as [[Hb1 Hb2] Hl].
  specialize (IH n Hl ltac:(simpl in Hn; lia)). cbn [le_word].
  assert (Hs : 0 <= Z.shiftl (le_word l) 8 < 2 ^ (8 * Z.of_nat (S n))).
  { rewrite Z.shiftl_mul_pow2 by lia. replace (8 * Z.of_nat (S n)) with (8 * Z.of_nat n + 8) by lia.
    rewrite Z.pow_add_r by lia. lia. }
  assert (Hb : 0 <= b < 2 ^ (8 * Z.of_nat (S n))).
  { split; [done|]. eapply Z.lt_le_trans; [exact Hb2|]. apply Z.pow_le_mono_r; lia. }
  apply lxor_range; [lia|done..].
Qed.

(** Bytes may be fed one at a time or all at once. *)
Lemma crc_bytes_word x l : Forall is_u8 l -> foldl crc_byte x l = Nat.iter (8 * length l) crc_bit (Z.lxor x (le_word l)).
Proof.
  revert x. induction l as [|b l IH]; intros x Hl; [cbn; by rewrite Z.lxor_0_r|].
  apply Forall_cons in Hl as [Hb Hl]. cbn [foldl length le_word]. rewrite IH by done.
  replace (8 * S (length l))%nat with (8 * length l + 8)%nat by lia. rewrite Nat.iter_add. f_equal.
  unfold crc_byte. rewrite <- Z.lxor_assoc, (crc_bits_lxor 8 (Z.lxor x b)). f_equal.
  symmetry. apply (crc_bits_shift 8). by apply (le_word_range l (length l)).
Qed.

Lemma crc_byte_range x b : is_u32 x -> is_u8 b -> is_u32 (crc_byte x b).
Proof.
  intros Hx [Hb1 Hb2]. unfold crc_byte.
  assert (Hx' : is_u32 (Z.lxor x b)) by (apply (lxor_range _ _ 32); [lia|done|split; [done|lia]]).
  generalize 8%nat. induction n as [|n IH]; [done|]. by apply crc_bit_range.
Qed.

Lemma crc_bytes_range x l : is_u32 x -> Forall is_u8 l -> is_u32 (foldl crc_byte x l).
Proof.
  revert x. induction l as [|b l IH]; intros x Hx Hl; [done|]. apply Forall_cons in Hl as [Hb Hl].
  cbn [foldl]. apply IH; [by apply crc_byte_range|done].
Qed.

Lemma lxor_swap x y b c : Z.lxor x b = Z.lxor y c <-> Z.lxor x y = Z.lxor b c.
Proof.
  split; intros E; apply Z.bits_inj'; intros i _;
    assert (Ei := f_equal (fun z => Z.testbit z i) E); cbn beta in Ei; rewrite !Z.lxor_spec in Ei |- *;
    destruct (Z.testbit x i), (Z.testbit y i), (Z.testbit b i), (Z.testbit c i); done.
Qed.

(** Equal tails never reconcile different states. *)
Lemma crc_tail_injective x y l : is_u32 x -> is_u32 y -> Forall is_u8 l ->
  foldl crc_byte x l = foldl crc_byte y l -> x = y.
Proof.
  intros Hx Hy Hl. rewrite !crc_bytes_word by done. intros E%Z.lxor_eq_0_iff.
  rewrite <- crc_bits_lxor in E. apply Z.lxor_eq_0_iff.
  assert (Ew : Z.lxor (Z.lxor x (le_word l)) (Z.lxor y (le_word l)) = Z.lxor x y).
  { apply Z.bits_inj'. intros i _. rewrite !Z.lxor_spec.
    by destruct (Z.testbit x i), (Z.testbit y i), (Z.testbit (le_word l) i). }
  rewrite Ew in E. eapply crc_bits_zero; [|exact E].
  by apply (lxor_range _ _ 32).
Qed.

Lemma le_word_injective l k : Forall is_u8 l -> Forall is_u8 k -> length l = length k -> le_word l = le_word k -> l = k.
Proof.
  revert k. induction l as [|b l IH]; intros [|c k] Hl Hk Hlen E; try done.
  apply Forall_cons in Hl as [[Hb1 Hb2] Hl], Hk as [[Hc1 Hc2] Hk]. cbn [le_word] in E.
  pose proof (le_word_range l (length l) Hl ltac:(lia)) as [Hw1 _].
  pose proof (le_word_range k (length k) Hk ltac:(lia)) as [Hw2 _].
  assert (Hbit : forall i, 0 <= i -> Z.testbit b i = Z.testbit c i /\
     Z.testbit (le_word l) i = Z.testbit (le_word k) i).
  { intros i Hi. split.
    - destruct (Z.lt_ge_cases i 8).
      + assert (Ei := f_equal (fun z => Z.testbit z i) E). cbn beta in Ei.
        rewrite !Z.lxor_spec, !Z.shiftl_spec_low in Ei by lia. by rewrite !xorb_false_r in Ei.
      + rewrite (proj1 (bits_bound b 8 ltac:(lia) ltac:(lia))) by lia.
        by rewrite (proj1 (bits_bound c 8 ltac:(lia) ltac:(lia))) by lia.
    - assert (Ei := f_equal (fun z => Z.testbit z (i + 8)) E). cbn beta in Ei.
      rewrite !Z.lxor_spec, !Z.shiftl_spec in Ei by lia. replace (i + 8 - 8) with i in Ei by lia.
      rewrite (proj1 (bits_bound b 8 ltac:(lia) ltac:(lia))) in Ei by lia.
      by rewrite (proj1 (bits_bound c 8 ltac:(lia) ltac:(lia))) in Ei by lia. }
  f_equal.
  - apply Z.bits_inj'. intros i Hi. by apply Hbit.
  - apply IH; [done..|by injection Hlen|]. apply Z.bits_inj'. intros i Hi. by apply Hbit.
Qed.

(** C38. The checksum has its published check value, so the boot self-test
    passes, and it convicts every burst: two messages of equal length that differ
    only within some four consecutive bytes, in whatever bits, never have the
    same checksum. *)
Theorem KiCrc32_detects_bursts (before after burst burst' : list Z) :
  Forall is_u8 (before ++ burst ++ after) -> Forall is_u8 burst' ->
  length burst' = length burst -> (length burst <= 4)%nat ->
  KiCrc32SelfTest = Ok tt /\ is_u32 (KiCrc32 (before ++ burst ++ after)) /\
  (KiCrc32 (before ++ burst' ++ after) = KiCrc32 (before ++ burst ++ after) -> burst' = burst).
Proof.
  rewrite !Forall_app. intros (Hbef & Hbur & Haft) Hbur' Hlen H4.
  assert (Hinit : is_u32 KI_CRC32_INITIAL) by done.
  pose proof (crc_bytes_range _ _ Hinit Hbef) as Hx. split; [by vm_compute|].
  split.
  - unfold KiCrc32. rewrite !foldl_app. apply (lxor_range _ _ 32); [lia| |done].
    by apply crc_bytes_range; [apply crc_bytes_range|].
  - unfold KiCrc32. rewrite !foldl_app. set (x := foldl crc_byte KI_CRC32_INITIAL before) in *.
    intros E%lxor_swap. rewrite Z.lxor_nilpotent in E. apply (proj1 (Z.lxor_eq_0_iff _ _)) in E.
    apply crc_tail_injective in E; [|by apply crc_bytes_range..|done].
    rewrite !crc_bytes_word, Hlen in E by done. apply (proj2 (Z.lxor_eq_0_iff _ _)) in E. rewrite <- crc_bits_lxor in E.
    assert (Ew : Z.lxor (Z.lxor x (le_word burst')) (Z.lxor x (le_word burst)) = Z.lxor (le_word burst') (le_word burst)).
    { apply Z.bits_inj'. intros i _. rewrite !Z.lxor_spec.
      by destruct (Z.testbit x i), (Z.testbit (le_word burst') i), (Z.testbit (le_word burst) i). }
    rewrite Ew in E. apply le_word_injective; [done..|]. apply Z.lxor_eq_0_iff.
    pose proof (le_word_range burst 4 Hbur H4) as [H1 H2].
    pose proof (le_word_range burst' 4 Hbur' ltac:(lia)) as [H1' H2'].
    eapply crc_bits_zero; [|exact E]. by apply (lxor_range _ _ 32).
Qed.
End crc.

Lemma KiCrc32_detects_bursts_witness :
  KiCrc32 [104; 105; 118; 101] <> KiCrc32 [104; 255; 0; 101] /\ KiCrc32SelfTest = Ok tt.
Proof.
  assert (H : forall l : list Z, Forall (fun b => 0 <= b < 256) l -> Forall is_u8 l) by done.
  destruct (KiCrc32_detects_bursts [104] [101] [255; 0] [105; 118]) as (Hself & _ & Hdiff).
  - apply H. repeat constructor; done.
  - apply H. repeat constructor; done.
  - done.
  - cbn. lia.
  - split; [|exact Hself]. intros E. specialize (Hdiff E). discriminate Hdiff.
Defined.
