(* ===== verification/Rtl.v ===== *)
(** * Rtl: counted UTF-16 strings (kernel/lib/rtl.c, kernel/lib/upcase.h). *)

From S2P Require Import Prelude Bytes.

(** ** The fold *)

(** The table, in rows of twelve as upcase.h prints it. *)
Definition RtlpUpcaseTable : list (list Z) := [
  [0x0100; 0x0110; 0x0120; 0x012A; 0x013A; 0x0147; 0x0150; 0x0150; 0x0150; 0x0150; 0x0150; 0x0150];
  [0x0150; 0x0150; 0x0150; 0x0150; 0x0153; 0x0150; 0x0150; 0x0163; 0x0150; 0x0150; 0x0150; 0x0150];
  [0x0150; 0x0150; 0x0150; 0x0150; 0x0173; 0x017C; 0x018C; 0x019C; 0x0150; 0x01AC; 0x0150; 0x0150];
  [0x01B5; 0x0150; 0x0150; 0x0150; 0x0150; 0x0150; 0x0150; 0x0150; 0x01C4; 0x01D4; 0x0150; 0x0150];
  [0x0150; 0x0150; 0x0150; 0x0150; 0x0150; 0x0150; 0x0150; 0x0150; 0x0150; 0x0150; 0x0150; 0x0150];
  [0x0150; 0x0150; 0x0150; 0x0150; 0x0150; 0x0150; 0x0150; 0x0150; 0x0150; 0x0150; 0x0150; 0x0150];
  [0x0150; 0x0150; 0x0150; 0x0150; 0x0150; 0x0150; 0x0150; 0x0150; 0x0150; 0x0150; 0x0150; 0x0150];
  [0x0150; 0x0150; 0x0150; 0x0150; 0x0150; 0x0150; 0x0150; 0x0150; 0x0150; 0x0150; 0x0150; 0x0150];
  [0x0150; 0x0150; 0x0150; 0x0150; 0x0150; 0x0150; 0x0150; 0x0150; 0x0150; 0x0150; 0x0150; 0x0150];
  [0x0150; 0x0150; 0x0150; 0x0150; 0x0150; 0x0150; 0x0150; 0x0150; 0x0150; 0x0150; 0x0150; 0x0150];
  [0x0150; 0x0150; 0x0150; 0x0150; 0x0150; 0x0150; 0x0150; 0x0150; 0x0150; 0x0150; 0x0150; 0x0150];
  [0x0150; 0x0150; 0x0150; 0x0150; 0x0150; 0x0150; 0x0150; 0x0150; 0x0150; 0x0150; 0x0150; 0x0150];
  [0x0150; 0x0150; 0x0150; 0x0150; 0x0150; 0x0150; 0x0150; 0x0150; 0x0150; 0x0150; 0x0150; 0x0150];
  [0x0150; 0x0150; 0x0150; 0x0150; 0x0150; 0x0150; 0x0150; 0x0150; 0x0150; 0x0150; 0x01E0; 0x01EE];
  [0x0150; 0x0150; 0x0150; 0x01FE; 0x0150; 0x0150; 0x0150; 0x0150; 0x0150; 0x0150; 0x0150; 0x0150];
  [0x0150; 0x0150; 0x0150; 0x0150; 0x0150; 0x0150; 0x0150; 0x0150; 0x0150; 0x0150; 0x0150; 0x0150];
  [0x0150; 0x0150; 0x0150; 0x0150; 0x0150; 0x0150; 0x0150; 0x0150; 0x0150; 0x0150; 0x0150; 0x0150];
  [0x0150; 0x0150; 0x0150; 0x0150; 0x0150; 0x0150; 0x0150; 0x0150; 0x0150; 0x0150; 0x0150; 0x0150];
  [0x0150; 0x0150; 0x0150; 0x0150; 0x0150; 0x0150; 0x0150; 0x0150; 0x0150; 0x0150; 0x0150; 0x0150];
  [0x0150; 0x0150; 0x0150; 0x0150; 0x0150; 0x0150; 0x0150; 0x0150; 0x0150; 0x0150; 0x0150; 0x0150];
  [0x0150; 0x0150; 0x0150; 0x0150; 0x0150; 0x0150; 0x0150; 0x0150; 0x0150; 0x0150; 0x0150; 0x0150];
  [0x0150; 0x0150; 0x0150; 0x020A; 0x021A; 0x021A; 0x021A; 0x021A; 0x021A; 0x021A; 0x0229; 0x022E];
  [0x021A; 0x021A; 0x021A; 0x021A; 0x021A; 0x021A; 0x023E; 0x0247; 0x0257; 0x0257; 0x0257; 0x0267];
  [0x0271; 0x0257; 0x0257; 0x0272; 0x0282; 0x0290; 0x029F; 0x02AC; 0x02BC; 0x02CA; 0x0257; 0x02DA];
  [0x0257; 0x0257; 0x02E0; 0x02EC; 0x02FB; 0x030B; 0x031B; 0x032B; 0x033B; 0x0349; 0x021A; 0x021A];
  [0x021A; 0x021A; 0x021A; 0x021A; 0x021A; 0x0358; 0x021A; 0x021A; 0x0366; 0x0229; 0x0376; 0x0385];
  [0x0257; 0x0395; 0x021A; 0x021A; 0x021A; 0x023E; 0x023E; 0x03A5; 0x0257; 0x0257; 0x03B5; 0x0257];
  [0x0257; 0x0257; 0x03BE; 0x0257; 0x0257; 0x0257; 0x021A; 0x021A; 0x021A; 0x03CE; 0x03CF; 0x03D8];
  [0x021A; 0x021A; 0x021A; 0x021A; 0x021A; 0x021A; 0x021A; 0x021A; 0x021A; 0x021A; 0x021A; 0x021A];
  [0x021A; 0x021A; 0x021A; 0x021A; 0x03E8; 0x03E8; 0x03ED; 0x021A; 0x021A; 0x021A; 0x021A; 0x021A];
  [0x021A; 0x021A; 0x021A; 0x021A; 0x021A; 0x021A; 0x021A; 0x021A; 0x021A; 0x021A; 0x03FD; 0x021A];
  [0x021A; 0x021A; 0x021A; 0x021A; 0x021A; 0x021A; 0x021A; 0x040B; 0x021A; 0x021A; 0x021A; 0x021A];
  [0x021A; 0x021A; 0x021A; 0x0416; 0x0424; 0x021A; 0x021A; 0x021A; 0x021A; 0x021A; 0x021A; 0x021A];
  [0x0257; 0x0257; 0x0257; 0x0257; 0x0257; 0x0257; 0x0257; 0x0257; 0x0257; 0x0433; 0x0257; 0x0257];
  [0x0257; 0x0257; 0x0257; 0x0257; 0x0443; 0x0445; 0x0443; 0x0443; 0x0445; 0x0454; 0x0443; 0x0464];
  [0x0443; 0x0443; 0x0443; 0x0474; 0x0481; 0x0491; 0x04A1; 0x0481; 0x021A; 0x021A; 0x021A; 0x021A];
  [0x04A7; 0x021A; 0x021A; 0x04B7; 0x04C7; 0x021A; 0x021A; 0x021A; 0x021A; 0x021A; 0x021A; 0x021A];
  [0x021A; 0x021A; 0x021A; 0x021A; 0x021A; 0x021A; 0x04D7; 0x04DD; 0x021A; 0x021A; 0x021A; 0x03CF];
  [0x03CF; 0x03CF; 0x04EC; 0x04F9; 0x0257; 0x0257; 0x0257; 0x0257; 0x0257; 0x0257; 0x0508; 0x0517];
  [0x0527; 0x0527; 0x0531; 0x021A; 0x021A; 0x021A; 0x021A; 0x021A; 0x021A; 0x021A; 0x021A; 0x021A];
  [0x021A; 0x021A; 0x021A; 0x021A; 0x0257; 0x0257; 0x0259; 0x021A; 0x0257; 0x02E4; 0x021A; 0x021A];
  [0x021A; 0x021A; 0x021A; 0x021A; 0x02E0; 0x02E0; 0x0257; 0x0257; 0x0257; 0x053F; 0x054D; 0x055C];
  [0x02E6; 0x03BB; 0x0568; 0x02E4; 0x021A; 0x040F; 0x021A; 0x021A; 0x021A; 0x021A; 0x021A; 0x0578];
  [0x021A; 0x0588; 0x0588; 0x0588; 0x0588; 0x0588; 0x021A; 0x021A; 0x021A; 0x021A; 0x0229; 0x022E];
  [0x021A; 0x021A; 0x021A; 0x021A; 0x021A; 0x021A; 0x021A; 0x021A; 0x021A; 0x021A; 0x0000; 0x0000];
  [0x0000; 0x0000; 0x0000; 0x0000; 0x0000; 0x0000; 0x0000; 0x0000; 0x0000; 0x0000; 0x0000; 0x0000];
  [0x0000; 0x0000; 0xFFE0; 0xFFE0; 0xFFE0; 0xFFE0; 0xFFE0; 0xFFE0; 0xFFE0; 0xFFE0; 0xFFE0; 0xFFE0];
  [0xFFE0; 0xFFE0; 0xFFE0; 0xFFE0; 0xFFE0; 0x0000; 0x0000; 0x0000; 0x0000; 0x0000; 0xFFE0; 0xFFE0];
  [0xFFE0; 0xFFE0; 0xFFE0; 0xFFE0; 0xFFE0; 0xFFE0; 0xFFE0; 0xFFE0; 0xFFE0; 0xFFE0; 0xFFE0; 0xFFE0];
  [0xFFE0; 0xFFE0; 0x0000; 0xFFE0; 0xFFE0; 0xFFE0; 0xFFE0; 0xFFE0; 0xFFE0; 0xFFE0; 0x0079; 0x0000];
  [0xFFFF; 0x0000; 0xFFFF; 0x0000; 0xFFFF; 0x0000; 0xFFFF; 0x0000; 0xFFFF; 0x0000; 0xFFFF; 0x0000];
  [0xFFFF; 0x0000; 0xFFFF; 0x0000; 0x0000; 0x0000; 0xFFFF; 0x0000; 0xFFFF; 0x0000; 0xFFFF; 0x0000];
  [0x0000; 0xFFFF; 0x0000; 0xFFFF; 0x0000; 0xFFFF; 0x0000; 0xFFFF; 0x0000; 0xFFFF; 0x0000; 0x0000];
  [0xFFFF; 0x0000; 0xFFFF; 0x0000; 0xFFFF; 0x0000; 0x00C3; 0x0000; 0x0000; 0xFFFF; 0x0000; 0xFFFF];
  [0x0000; 0x0000; 0xFFFF; 0x0000; 0x0000; 0x0000; 0xFFFF; 0x0000; 0x0000; 0x0000; 0xFFFF; 0x0000];
  [0x0000; 0x0061; 0x0000; 0x0000; 0x0000; 0xFFFF; 0x00A3; 0xA641; 0x0000; 0x0000; 0x0082; 0x0000];
  [0xFFFF; 0x0000; 0xFFFF; 0x0000; 0xFFFF; 0x0000; 0x0000; 0xFFFF; 0x0000; 0x0000; 0x0000; 0x0000];
  [0xFFFF; 0x0000; 0x0000; 0x0000; 0xFFFF; 0x0000; 0xFFFF; 0x0000; 0x0000; 0xFFFF; 0x0000; 0x0000];
  [0x0000; 0xFFFF; 0x0000; 0x0038; 0x0000; 0x0000; 0x0000; 0x0000; 0x0000; 0x0000; 0xFFFE; 0x0000];
  [0x0000; 0xFFFE; 0x0000; 0x0000; 0xFFFE; 0x0000; 0xFFFF; 0x0000; 0xFFFF; 0x0000; 0xFFFF; 0x0000];
  [0xFFFF; 0x0000; 0xFFFF; 0x0000; 0xFFFF; 0x0000; 0xFFFF; 0xFFB1; 0x0000; 0xFFFF; 0x0000; 0x0000];
  [0x0000; 0xFFFE; 0x0000; 0xFFFF; 0x0000; 0x0000; 0x0000; 0xFFFF; 0x0000; 0xFFFF; 0x0000; 0xFFFF];
  [0x0000; 0xFFFF; 0x0000; 0xFFFF; 0x0000; 0xFFFF; 0x0000; 0xFFFF; 0x0000; 0x0000; 0x0000; 0x0000];
  [0x0000; 0x0000; 0x0000; 0x0000; 0xFFFF; 0x0000; 0x0000; 0x2A3F; 0x0000; 0xFFFF; 0x0000; 0x0000];
  [0x0000; 0x0000; 0xFFFF; 0x0000; 0xFFFF; 0x0000; 0xFFFF; 0x0000; 0xFFFF; 0x0000; 0xFFFF; 0x2A1F];
  [0x2A1C; 0x2A1E; 0xFF2E; 0xFF32; 0x0000; 0xFF33; 0xFF33; 0x0000; 0xFF36; 0x0000; 0xFF35; 0xA54F];
  [0x0000; 0x0000; 0x0000; 0xFF33; 0xA54B; 0x0000; 0xFF31; 0xA567; 0xA528; 0xA544; 0x0000; 0xFF2F];
  [0xFF2D; 0xA544; 0x29F7; 0xA541; 0x0000; 0x0000; 0xFF2D; 0x0000; 0x29FD; 0xFF2B; 0x0000; 0x0000];
  [0xFF2A; 0x0000; 0x0000; 0x0000; 0x0000; 0x0000; 0x0000; 0x0000; 0x29E7; 0x0000; 0x0000; 0xFF26];
  [0x0000; 0xA543; 0xFF26; 0x0000; 0x0000; 0x0000; 0xA52A; 0xFF26; 0xFFBB; 0xFF27; 0xFF27; 0xFFB9];
  [0x0000; 0x0000; 0x0000; 0xFF25; 0x0000; 0x0000; 0x0000; 0x0000; 0x0000; 0x0000; 0x0000; 0x0000];
  [0x0000; 0x0000; 0xA515; 0xA512; 0x0000; 0xFFFF; 0x0000; 0xFFFF; 0x0000; 0x0000; 0x0000; 0xFFFF];
  [0x0000; 0x0000; 0x0000; 0x0082; 0x0082; 0x0082; 0x0000; 0x0000; 0x0000; 0x0000; 0x0000; 0x0000];
  [0x0000; 0x0000; 0x0000; 0x0000; 0x0000; 0x0000; 0xFFDA; 0xFFDB; 0xFFDB; 0xFFDB; 0xFFE0; 0xFFE0];
  [0x0000; 0xFFE0; 0xFFE0; 0xFFE0; 0xFFE0; 0xFFE0; 0xFFE0; 0xFFE0; 0xFFE0; 0xFFE0; 0xFFC0; 0xFFC1];
  [0xFFC1; 0x0000; 0x0000; 0x0000; 0x0000; 0x0000; 0x0000; 0x0000; 0xFFF8; 0x0000; 0xFFFF; 0x0000];
  [0xFFFF; 0x0000; 0xFFFF; 0x0000; 0xFFFF; 0x0000; 0x0000; 0x0007; 0xFF8C; 0x0000; 0x0000; 0x0000];
  [0x0000; 0xFFFF; 0x0000; 0x0000; 0xFFFF; 0x0000; 0x0000; 0x0000; 0x0000; 0xFFB0; 0xFFB0; 0xFFB0];
  [0xFFB0; 0xFFB0; 0xFFB0; 0xFFB0; 0xFFB0; 0xFFB0; 0xFFB0; 0xFFB0; 0xFFB0; 0xFFB0; 0xFFB0; 0xFFB0];
  [0xFFB0; 0x0000; 0xFFFF; 0x0000; 0x0000; 0x0000; 0x0000; 0x0000; 0x0000; 0x0000; 0x0000; 0x0000];
  [0xFFFF; 0x0000; 0xFFFF; 0x0000; 0xFFFF; 0x0000; 0xFFFF; 0x0000; 0xFFFF; 0x0000; 0xFFFF; 0x0000];
  [0xFFFF; 0xFFF1; 0x0000; 0xFFD0; 0xFFD0; 0xFFD0; 0xFFD0; 0xFFD0; 0xFFD0; 0xFFD0; 0xFFD0; 0xFFD0];
  [0xFFD0; 0xFFD0; 0xFFD0; 0xFFD0; 0xFFD0; 0xFFD0; 0xFFD0; 0x0000; 0x0000; 0x0000; 0x0000; 0x0000];
  [0x0000; 0x0000; 0x0000; 0x0000; 0x0BC0; 0x0BC0; 0x0BC0; 0x0BC0; 0x0BC0; 0x0BC0; 0x0BC0; 0x0BC0];
  [0x0BC0; 0x0BC0; 0x0BC0; 0x0BC0; 0x0BC0; 0x0BC0; 0x0BC0; 0x0BC0; 0x0000; 0x0000; 0x0BC0; 0x0BC0];
  [0x0BC0; 0x0000; 0x0000; 0x0000; 0x0000; 0x0000; 0x0000; 0x0000; 0x0000; 0xFFF8; 0xFFF8; 0xFFF8];
  [0xFFF8; 0xFFF8; 0xFFF8; 0x0000; 0x0000; 0x0000; 0x0000; 0x0000; 0x0000; 0x0000; 0x0000; 0x0000];
  [0x0000; 0xFFFF; 0x0000; 0x0000; 0x0000; 0x0000; 0x0000; 0x0000; 0x0000; 0x0000; 0x0000; 0x8A04];
  [0x0000; 0x0000; 0x0000; 0x0EE6; 0x0000; 0x0000; 0x0000; 0x0000; 0x0000; 0x0000; 0x0000; 0x0000];
  [0x0000; 0x0000; 0x0000; 0x0000; 0x0000; 0x0000; 0x8A38; 0x0000; 0xFFFF; 0x0000; 0xFFFF; 0x0000];
  [0xFFFF; 0x0000; 0x0000; 0x0000; 0x0000; 0x0000; 0x0000; 0x0000; 0x0000; 0x0000; 0x0000; 0x0008];
  [0x0008; 0x0008; 0x0008; 0x0008; 0x0008; 0x0008; 0x0008; 0x0000; 0x0000; 0x0000; 0x0000; 0x0000];
  [0x0000; 0x0000; 0x0000; 0x0000; 0x0000; 0x0008; 0x0000; 0x0008; 0x0000; 0x0008; 0x0000; 0x0008];
  [0x0000; 0x0000; 0x0000; 0x0000; 0x0000; 0x0000; 0x0000; 0x0000; 0x004A; 0x004A; 0x0056; 0x0056];
  [0x0056; 0x0056; 0x0064; 0x0064; 0x0080; 0x0080; 0x0070; 0x0070; 0x007E; 0x007E; 0x0000; 0x0000];
  [0x0008; 0x0008; 0x0000; 0x0009; 0x0000; 0x0000; 0x0000; 0x0000; 0x0000; 0x0000; 0x0000; 0x0000];
  [0x0000; 0x0000; 0x0000; 0x0000; 0x0009; 0x0000; 0x0000; 0x0000; 0x0000; 0x0000; 0x0000; 0x0000];
  [0x0000; 0x0000; 0x0000; 0x0000; 0x0000; 0x0008; 0x0008; 0x0000; 0x0000; 0x0000; 0x0000; 0x0000];
  [0x0000; 0x0000; 0x0000; 0x0000; 0x0000; 0x0000; 0x0000; 0x0000; 0x0000; 0x0008; 0x0008; 0x0000];
  [0x0000; 0x0000; 0x0007; 0x0000; 0x0000; 0x0000; 0x0000; 0x0000; 0x0000; 0x0000; 0x0000; 0x0000];
  [0x0000; 0x0000; 0x0000; 0x0000; 0x0000; 0xFFE4; 0x0000; 0xFFF0; 0xFFF0; 0xFFF0; 0xFFF0; 0xFFF0];
  [0xFFF0; 0xFFF0; 0xFFF0; 0xFFF0; 0xFFF0; 0xFFF0; 0xFFF0; 0xFFF0; 0xFFF0; 0xFFF0; 0xFFF0; 0x0000];
  [0x0000; 0x0000; 0x0000; 0xFFFF; 0x0000; 0x0000; 0x0000; 0x0000; 0x0000; 0x0000; 0x0000; 0x0000];
  [0x0000; 0x0000; 0x0000; 0xFFE6; 0xFFE6; 0xFFE6; 0xFFE6; 0xFFE6; 0xFFE6; 0xFFE6; 0xFFE6; 0xFFE6];
  [0xFFE6; 0xFFE6; 0xFFE6; 0xFFE6; 0xFFE6; 0xFFE6; 0xFFE6; 0x0000; 0x0000; 0x0000; 0x0000; 0x0000];
  [0x0000; 0xFFFF; 0x0000; 0x0000; 0x0000; 0xD5D5; 0xD5D8; 0x0000; 0xFFFF; 0x0000; 0xFFFF; 0x0000];
  [0xFFFF; 0x0000; 0x0000; 0x0000; 0xFFFF; 0x0000; 0x0000; 0xFFFF; 0x0000; 0x0000; 0x0000; 0x0000];
  [0x0000; 0x0000; 0x0000; 0x0000; 0x0000; 0xFFFF; 0x0000; 0xFFFF; 0x0000; 0x0000; 0x0000; 0x0000];
  [0x0000; 0x0000; 0x0000; 0x0000; 0xFFFF; 0x0000; 0xFFFF; 0x0000; 0x0000; 0x0000; 0xFFFF; 0x0000];
  [0x0000; 0x0000; 0x0000; 0x0000; 0x0000; 0x0000; 0x0000; 0x0000; 0x0000; 0x0000; 0x0000; 0xE3A0];
  [0xE3A0; 0xE3A0; 0xE3A0; 0xE3A0; 0xE3A0; 0xE3A0; 0xE3A0; 0xE3A0; 0xE3A0; 0xE3A0; 0xE3A0; 0xE3A0];
  [0xE3A0; 0xE3A0; 0xE3A0; 0x0000; 0xE3A0; 0x0000; 0x0000; 0x0000; 0x0000; 0x0000; 0xE3A0; 0x0000];
  [0x0000; 0x0000; 0x0000; 0x0000; 0x0000; 0x0000; 0x0000; 0x0000; 0x0000; 0xFFFF; 0x0000; 0xFFFF];
  [0x0000; 0x0000; 0xFFFF; 0x0000; 0xFFFF; 0x0000; 0xFFFF; 0x0000; 0xFFFF; 0x0000; 0x0000; 0x0000];
  [0x0000; 0xFFFF; 0x0000; 0x0000; 0x0000; 0xFFFF; 0x0000; 0xFFFF; 0x0030; 0x0000; 0x0000; 0xFFFF];
  [0x0000; 0xFFFF; 0x0000; 0xFFFF; 0x0000; 0xFFFF; 0x0000; 0xFFFF; 0x0000; 0x0000; 0x0000; 0x0000];
  [0xFFFF; 0x0000; 0xFFFF; 0x0000; 0x0000; 0xFFFF; 0x0000; 0xFFFF; 0x0000; 0x0000; 0x0000; 0xFC60];
  [0x0000; 0x0000; 0x0000; 0x0000; 0x0000; 0x0000; 0x0000; 0x0000; 0x0000; 0x0000; 0x0000; 0x0000];
  [0x6830; 0x6830; 0x6830; 0x6830; 0x6830; 0x6830; 0x6830; 0x6830; 0x6830; 0x6830; 0x6830; 0x6830];
  [0x6830; 0x6830; 0x6830; 0x6830; 0x0544]].

Definition RTLP_UPCASE_TABLE_WORDS : Z := 1433.

(** [RtlpUpcaseTable[i]]. *)
Definition upcase_word (i : Z) : outcome Z :=
  deref (row ← RtlpUpcaseTable !! Z.to_nat (i / 12); row !! Z.to_nat (i mod 12)) "RtlpUpcaseTable".

Definition RtlUpcaseUnicodeChar (c : Z) : outcome Z :=
  level1 ← upcase_word (Z.shiftr c 8);
  level2 ← upcase_word (level1 + Z.land (Z.shiftr c 4) 0x0F);
  delta ← upcase_word (level2 + Z.land c 0x0F);
  Ok (u16 (c + delta)).

(** ** Strings *)

(** [Length] and [MaximumLength] count bytes; [Buffer] is the 16-bit units that
    may be accessed through the pointer, [None] for a null one. *)
Record UNICODE_STRING := mkUNICODE_STRING {
  Length : Z;
  MaximumLength : Z;
  Buffer : option (list Z);
}.

#[export] Instance eta_UNICODE_STRING : Eta UNICODE_STRING := {| eta_expand := fun s =>
  mkUNICODE_STRING (Length s) (MaximumLength s) (Buffer s) |}.

(** [s->Buffer[i]]. *)
Definition unit_at (s : UNICODE_STRING) (i : Z) : outcome Z :=
  buffer ← deref (Buffer s) "Buffer"; deref (buffer !! Z.to_nat i) "Buffer[i]".

Definition RtlInitUnicodeString (source : option (list Z)) : outcome UNICODE_STRING :=
  match source with
  | None => Ok (mkUNICODE_STRING 0 0 None)
  | Some units =>
      n ← KiWideStringLength units;
      let length := u32 n in
      _ ← ASSERT (u64 (length * 2) <=? 0xFFFF - 2) "fits a counted string";
      Ok (mkUNICODE_STRING (u16 (length * 2)) (u16 (u16 (length * 2) + 2)) (Some units))
  end.

(** One unit of each string, folded when asked. *)
Definition unit_pair (s1 s2 : UNICODE_STRING) (caseInsensitive : bool) (i : Z) : outcome (Z * Z) :=
  c1 ← unit_at s1 i;
  c2 ← unit_at s2 i;
  if caseInsensitive then
    d1 ← RtlUpcaseUnicodeChar c1;
    d2 ← RtlUpcaseUnicodeChar c2;
    Ok (d1, d2)
  else Ok (c1, c2).

Fixpoint equal_units (s1 s2 : UNICODE_STRING) (caseInsensitive : bool) (i : Z) (fuel : nat) : outcome bool :=
  match fuel with
  | O => Ok true
  | S fuel' =>
      '(c1, c2) ← unit_pair s1 s2 caseInsensitive i;
      if negb (c1 =? c2) then Ok false else equal_units s1 s2 caseInsensitive (i + 1) fuel'
  end.

Definition RtlEqualUnicodeString (s1 s2 : UNICODE_STRING) (caseInsensitive : bool) : outcome bool :=
  if negb (Length s1 =? Length s2) then Ok false else
  let count := Length s1 / 2 in
  equal_units s1 s2 caseInsensitive 0 (Z.to_nat count).

(** The first difference, [None] when there is none. *)
Fixpoint compare_units (s1 s2 : UNICODE_STRING) (caseInsensitive : bool) (i : Z) (fuel : nat)
    : outcome (option Z) :=
  match fuel with
  | O => Ok None
  | S fuel' =>
      '(c1, c2) ← unit_pair s1 s2 caseInsensitive i;
      if negb (c1 =? c2) then Ok (Some (c1 - c2)) else compare_units s1 s2 caseInsensitive (i + 1) fuel'
  end.

Definition RtlCompareUnicodeString (s1 s2 : UNICODE_STRING) (caseInsensitive : bool) : outcome Z :=
  let count1 := Length s1 / 2 in
  let count2 := Length s2 / 2 in
  let count := if count1 <? count2 then count1 else count2 in
  r ← compare_units s1 s2 caseInsensitive 0 (Z.to_nat count);
  match r with
  | Some difference => Ok difference
  | None => Ok (Length s1 - Length s2)
  end.

(** memcpy of [length] bytes between two buffers of units: whole units, and for
    an odd length the low byte of one more. *)
Fixpoint copy_units (target source : list Z) (length : nat) {struct length} : outcome (list Z) :=
  match length with
  | O => Ok target
  | S O =>
      match target, source with
      | t :: target', s :: _ => Ok (Z.lor (Z.land t 0xFF00) (Z.land s 0xFF) :: target')
      | _, _ => Fault "memcpy"
      end
  | S (S length') =>
      match target, source with
      | _ :: target', s :: source' => rest ← copy_units target' source' length'; Ok (s :: rest)
      | _, _ => Fault "memcpy"
      end
  end.

Definition RtlCopyUnicodeString (target : UNICODE_STRING) (source : option UNICODE_STRING)
    : outcome UNICODE_STRING :=
  match source with
  | None => Ok (target <| Length := 0 |>)
  | Some source =>
      let length := if MaximumLength target <? Length source then MaximumLength target else Length source in
      buffer ← (if length =? 0 then Ok (Buffer target) else
        t ← deref (Buffer target) "target";
        s ← deref (Buffer source) "source";
        copied ← copy_units t s (Z.to_nat length);
        Ok (Some copied));
      let target := target <| Buffer := buffer |> <| Length := length |> in
      if length <? MaximumLength target then
        t ← deref (Buffer target) "target";
        _ ← deref (t !! Z.to_nat (length / 2)) "target";
        Ok (target <| Buffer := Some (<[Z.to_nat (length / 2) := 0]> t) |>)
      else Ok target
  end.

(** ** 8.3 names *)

(** The reserved characters: double quote, star, plus, comma, slash, colon,
    semicolon, the comparison signs, question mark, brackets, backslash, bar. *)
Definition illegal : list Z := [0x22; 0x2A; 0x2B; 0x2C; 0x2F; 0x3A; 0x3B; 0x3C; 0x3D; 0x3E; 0x3F; 0x5B; 0x5C; 0x5D; 0x7C].

(** The counting loop, over the units left to read: [Some (base, ext, sawDot)],
    or [None] for [return FALSE]. *)
Fixpoint dos83_loop (units : list Z) (base ext : Z) (sawDot : bool) (fuel : nat) : outcome (option (Z * Z * bool)) :=
  match fuel with
  | O => Ok (Some (base, ext, sawDot))
  | S fuel' =>
      '(c, units') ← at_unit units;
      if c =? 0x2E then
        if sawDot || (base =? 0) then Ok None else dos83_loop units' base ext true fuel'
      else if (c <? 0x20) || (0x7E <? c) then Ok None
      else if c =? 0x20 then Ok None
      else if existsb (Z.eqb c) illegal then Ok None
      else if sawDot then dos83_loop units' base (ext + 1) sawDot fuel'
      else dos83_loop units' (base + 1) ext sawDot fuel'
  end.

Definition RtlIsNameLegalDOS8Dot3 (name : option UNICODE_STRING) (oemName spacesFound : addr) : outcome bool :=
  let units := match name with Some n => Length n / 2 | None => 0 end in
  _ ← (if negb (oemName =? 0) || negb (spacesFound =? 0)
       then ASSERT ((oemName =? 0) && (spacesFound =? 0)) "out-params are unbuilt" else Ok tt);
  match name with
  | None => Ok false
  | Some name =>
      match Buffer name with
      | None => Ok false
      | Some buffer =>
          if units =? 0 then Ok false else
          first ← deref (buffer !! 0%nat) "Buffer";
          if (units =? 1) && (first =? 0x2E) then Ok true else
          second ← (if (units =? 2) && (first =? 0x2E) then deref (buffer !! 1%nat) "Buffer" else Ok 0);
          if (units =? 2) && (first =? 0x2E) && (second =? 0x2E) then Ok true else
          r ← dos83_loop buffer 0 0 false (Z.to_nat units);
          match r with
          | None => Ok false
          | Some (base, ext, sawDot) =>
              if (base =? 0) || (8 <? base) || (3 <? ext) then Ok false
              else Ok (negb sawDot || negb (ext =? 0))
          end
      end
  end.

(** ** The table, checked *)

(** The blocks most planes share: the second level of the default plane, and the
    leaf of no change. *)
Definition mid_ok (mid : nat) : bool :=
  match upcase_word (0x150 + Z.of_nat mid) with Ok level2 => level2 =? 0x21A | _ => false end.
Definition leaf_ok (lo : nat) : bool :=
  match upcase_word (0x21A + Z.of_nat lo) with Ok d => d =? 0 | _ => false end.

(** Folding twice is folding once. *)
Definition fold_ok (c : Z) : bool :=
  match RtlUpcaseUnicodeChar c with
  | Ok d => match RtlUpcaseUnicodeChar d with Ok e => d =? e | _ => false end
  | _ => false
  end.

Definition plane_ok (hi : nat) : bool :=
  match upcase_word (Z.of_nat hi) with
  | Ok level1 =>
      (level1 =? 0x150) || forallb (fun lo : nat => fold_ok (256 * Z.of_nat hi + Z.of_nat lo)) (seq 0 256)
  | _ => false
  end.

Definition ascii_ok (n : nat) : bool :=
  match RtlUpcaseUnicodeChar (Z.of_nat n) with
  | Ok d => d =? if (97 <=? Z.of_nat n) && (Z.of_nat n <=? 122) then Z.of_nat n - 32 else Z.of_nat n
  | _ => false
  end.

Definition surrogate_ok (n : nat) : bool :=
  match upcase_word (0xD8 + Z.of_nat n) with Ok l => l =? 0x150 | _ => false end.

Lemma all_below (f : nat -> bool) n : forallb f (seq 0 n) = true -> forall i, 0 <= i < Z.of_nat n -> f (Z.to_nat i) = true.
Proof. intros H i Hi. rewrite forallb_forall in H. apply H, in_seq. lia. Qed.

Lemma mids_ok i : 0 <= i < 16 -> mid_ok (Z.to_nat i) = true.
Proof. apply (all_below mid_ok 16). vm_compute. reflexivity. Qed.
Lemma leaves_ok i : 0 <= i < 16 -> leaf_ok (Z.to_nat i) = true.
Proof. apply (all_below leaf_ok 16). vm_compute. reflexivity. Qed.
Lemma planes_ok i : 0 <= i < 256 -> plane_ok (Z.to_nat i) = true.
Proof. apply (all_below plane_ok 256). vm_compute. reflexivity. Qed.
Lemma asciis_ok i : 0 <= i < 128 -> ascii_ok (Z.to_nat i) = true.
Proof. apply (all_below ascii_ok 128). vm_compute. reflexivity. Qed.
Lemma surrogates_ok i : 0 <= i < 8 -> surrogate_ok (Z.to_nat i) = true.
Proof. apply (all_below surrogate_ok 8). vm_compute. reflexivity. Qed.

Section fold.
#[local] Opaque upcase_word.
Implicit Types (c d hi lo : Z).

Lemma plane_split c : is_u16 c -> 0 <= c / 256 < 256 /\ 0 <= c mod 256 < 256 /\ c = 256 * (c / 256) + c mod 256 /\
  Z.shiftr c 8 = c / 256 /\ Z.land (Z.shiftr c 4) 0x0F = c mod 256 / 16 /\ Z.land c 0x0F = c mod 256 mod 16.
Proof.
  intros [H1 H2]. pose proof (Z.mod_pos_bound c 256 ltac:(lia)). pose proof (Z.div_mod c 256 ltac:(lia)).
  split_and!; try lia.
  - by rewrite Z.shiftr_div_pow2 by lia.
  - change 0x0F with (Z.ones 4). rewrite Z.land_ones, Z.shiftr_div_pow2 by lia.
    change (2 ^ 4) with 16. Z.to_euclidean_division_equations. lia.
  - change 0x0F with (Z.ones 4). rewrite Z.land_ones by lia. change (2 ^ 4) with 16.
    Z.to_euclidean_division_equations. lia.
Qed.

(** Read a checked entry back. *)
Ltac checked H E := rewrite Z2Nat.id in H by lia;
  match type of H with context [match ?m with _ => _ end] => destruct m eqn:E; try discriminate H end.

Lemma mid_word i : 0 <= i < 16 -> upcase_word (0x150 + i) = Ok 0x21A.
Proof. intros Hi. pose proof (mids_ok i Hi) as H. unfold mid_ok in H. checked H E. by apply Z.eqb_eq in H as ->. Qed.
Lemma leaf_word i : 0 <= i < 16 -> upcase_word (0x21A + i) = Ok 0.
Proof. intros Hi. pose proof (leaves_ok i Hi) as H. unfold leaf_ok in H. checked H E. by apply Z.eqb_eq in H as ->. Qed.

(** A plane whose first-level entry is the default folds to itself. *)
Lemma fold_default c : is_u16 c -> upcase_word (c / 256) = Ok 0x150 -> RtlUpcaseUnicodeChar c = Ok c.
Proof.
  intros Hc El. destruct (plane_split c Hc) as (Hhi & Hlo & Ec & E1 & E2 & E3).
  unfold RtlUpcaseUnicodeChar. rewrite E1, E2, E3, El. run.
  rewrite mid_word by (Z.to_euclidean_division_equations; lia). run.
  rewrite leaf_word by (Z.to_euclidean_division_equations; lia). run.
  by rewrite Z.add_0_r, u16_small.
Qed.

Lemma fold_total c : is_u16 c -> exists d, RtlUpcaseUnicodeChar c = Ok d /\ RtlUpcaseUnicodeChar d = Ok d.
Proof.
  intros Hc. destruct (plane_split c Hc) as (Hhi & Hlo & Ec & _).
  pose proof (planes_ok _ Hhi) as H. unfold plane_ok in H. checked H El.
  apply orb_true_iff in H as [H|H]; [apply Z.eqb_eq in H as ->; pose proof (fold_default c Hc El); by exists c|].
  pose proof (all_below _ 256 H _ Hlo) as Hf. clear H. cbn beta in Hf. rewrite Z2Nat.id, <- Ec in Hf by lia.
  unfold fold_ok in Hf. destruct (RtlUpcaseUnicodeChar c) as [d| | |]; try discriminate Hf. exists d. split; [reflexivity|].
  destruct (RtlUpcaseUnicodeChar d) as [e| | |]; try discriminate Hf. apply Z.eqb_eq in Hf as ->. reflexivity.
Qed.

Lemma fold_range c d : RtlUpcaseUnicodeChar c = Ok d -> is_u16 d.
Proof. unfold RtlUpcaseUnicodeChar. intros H. inv_outcome H. apply u16_range. Qed.

(** The case fold is total on 16-bit units: its three table lookups are
    always inside the table.  It is idempotent, is the ASCII upcase on ASCII,
    and, folding units and not code points, leaves every surrogate alone. *)
Theorem RtlUpcaseUnicodeChar_correct c :
  is_u16 c -> exists d, RtlUpcaseUnicodeChar c = Ok d /\ is_u16 d /\ RtlUpcaseUnicodeChar d = Ok d /\
    (c < 128 -> d = if (97 <=? c) && (c <=? 122) then c - 32 else c) /\
    (0xD800 <= c < 0xE000 -> d = c).
Proof.
  intros Hc. destruct (fold_total c Hc) as (d & E & E'). exists d. split_and!; [done|by eapply fold_range|done| |].
  - intros H. pose proof (asciis_ok c ltac:(destruct Hc; lia)) as Ha. unfold ascii_ok in Ha.
    rewrite Z2Nat.id, E in Ha by apply Hc. by apply Z.eqb_eq in Ha.
  - intros H. destruct (plane_split c Hc) as (_ & Hlo & Ec & _).
    pose proof (surrogates_ok (c / 256 - 0xD8) ltac:(lia)) as Hs. unfold surrogate_ok in Hs. checked Hs El.
    apply Z.eqb_eq in Hs as ->. replace (0xD8 + (c / 256 - 0xD8)) with (c / 256) in El by lia.
    rewrite (fold_default c Hc El) in E. congruence.
Qed.
End fold.

Lemma RtlUpcaseUnicodeChar_correct_witness :
  RtlUpcaseUnicodeChar 0xFF = Ok 0x178 /\ exists d, RtlUpcaseUnicodeChar 0x71 = Ok d /\ d = 0x51.
Proof.
  split; [by vm_compute|].
  destruct (RtlUpcaseUnicodeChar_correct 0x71) as (d & E & _ & _ & Ha & _); [unfold is_u16; lia|].
  exists d. split; [exact E|]. apply Ha. lia.
Defined.

(** ** Comparison *)

Section comparison.
Implicit Types (s t : UNICODE_STRING) (l k : list Z) (ci : bool) (n : nat) (i : Z).

(** The units a string stands for. *)
Definition contents s : list Z := take (Z.to_nat (Length s / 2)) (default [] (Buffer s)).

Record string_ok s : Prop := {
  so_length : is_u16 (Length s);
  so_buffer : Length s / 2 <= Z.of_nat (length (default [] (Buffer s)));
  so_units : Forall is_u16 (default [] (Buffer s));
}.

Lemma contents_length s : string_ok s -> Z.of_nat (length (contents s)) = Length s / 2.
Proof.
  intros [H1 H2 _]. unfold contents. rewrite length_take.
  pose proof (Z.div_pos (Length s) 2 ltac:(destruct H1; lia) ltac:(lia)). lia.
Qed.

Lemma contents_units s : string_ok s -> Forall is_u16 (contents s).
Proof. intros [_ _ H]. by apply Forall_take. Qed.

Lemma unit_at_spec s i c : contents s !! Z.to_nat i = Some c -> unit_at s i = Ok c.
Proof.
  unfold contents, unit_at. intros H. apply lookup_take_Some in H as [H Hlt].
  destruct (Buffer s) as [b|]; cbn in H |- *; [by rewrite H|]. by rewrite lookup_nil in H.
Qed.

(** The unit compared: folded when the comparison ignores case. *)
Definition unit_key ci (c : Z) : Z :=
  if ci then match RtlUpcaseUnicodeChar c with Ok d => d | _ => c end else c.

Lemma unit_pair_spec s1 s2 ci i c1 c2 : is_u16 c1 -> is_u16 c2 ->
  contents s1 !! Z.to_nat i = Some c1 -> contents s2 !! Z.to_nat i = Some c2 ->
  unit_pair s1 s2 ci i = Ok (unit_key ci c1, unit_key ci c2).
Proof.
  intros R1 R2 H1 H2. unfold unit_pair. rewrite (unit_at_spec s1 i c1 H1), (unit_at_spec s2 i c2 H2). run.
  destruct ci; [|reflexivity]. destruct (fold_total c1 R1) as (d1 & E1 & _), (fold_total c2 R2) as (d2 & E2 & _).
  unfold unit_key. rewrite E1, E2. reflexivity.
Qed.

Lemma unit_key_range ci c : is_u16 c -> is_u16 (unit_key ci c).
Proof.
  intros Hc. unfold unit_key. destruct ci; [|done]. destruct (fold_total c Hc) as (d & E & _). rewrite E.
  by eapply fold_range.
Qed.

Definition string_key ci s : list Z := unit_key ci <$> contents s.

(** The difference of the first units that differ. *)
Fixpoint first_difference l k : option Z :=
  match l, k with
  | c :: l', d :: k' => if c =? d then first_difference l' k' else Some (c - d)
  | _, _ => None
  end.

Lemma compare_units_spec s1 s2 ci i n :
  string_ok s1 -> string_ok s2 -> 0 <= i ->
  i + Z.of_nat n <= Length s1 / 2 -> i + Z.of_nat n <= Length s2 / 2 ->
  compare_units s1 s2 ci i n = Ok (first_difference (take n (drop (Z.to_nat i) (string_key ci s1)))
                                                    (take n (drop (Z.to_nat i) (string_key ci s2)))).
Proof.
  intros H1 H2. revert i. induction n as [|n IH]; intros i Hi Hn1 Hn2; [reflexivity|]. cbn [compare_units].
  pose proof (contents_length s1 H1) as L1. pose proof (contents_length s2 H2) as L2.
  destruct (lookup_lt_is_Some_2 (contents s1) (Z.to_nat i) ltac:(lia)) as [c1 E1].
  destruct (lookup_lt_is_Some_2 (contents s2) (Z.to_nat i) ltac:(lia)) as [c2 E2].
  rewrite (unit_pair_spec s1 s2 ci i c1 c2); [|by eapply (Forall_lookup_1 _ _ _ _ (contents_units _ H1))
    |by eapply (Forall_lookup_1 _ _ _ _ (contents_units _ H2))|done|done].
  run. unfold string_key. rewrite !(drop_S _ (unit_key ci _) (Z.to_nat i)) by (rewrite list_lookup_fmap; (rewrite E1 || rewrite E2); reflexivity).
  cbn [take first_difference]. rewrite <- (Z2Nat.inj_succ i) by done.
  destruct (Z.eqb_spec (unit_key ci c1) (unit_key ci c2)); cbn [negb]; [|done].
  rewrite IH by lia. reflexivity.
Qed.

(** What RtlCompareUnicodeString computes, on the units alone. *)
Definition order l k (len1 len2 : Z) : Z := default (len1 - len2) (first_difference l k).

Lemma first_difference_take l k : first_difference (take (length l `min` length k) l) (take (length l `min` length k) k) = first_difference l k.
Proof. revert k. induction l as [|c l IH]; intros [|d k]; try reflexivity. cbn. destruct (c =? d); [apply IH|done]. Qed.

Lemma RtlCompareUnicodeString_spec s1 s2 ci : string_ok s1 -> string_ok s2 ->
  RtlCompareUnicodeString s1 s2 ci = Ok (order (string_key ci s1) (string_key ci s2) (Length s1) (Length s2)).
Proof.
  intros H1 H2. unfold RtlCompareUnicodeString.
  pose proof (contents_length s1 H1) as L1. pose proof (contents_length s2 H2) as L2.
  set (count := if _ <? _ then _ else _).
  assert (Hc : Z.to_nat count = (length (string_key ci s1) `min` length (string_key ci s2))%nat).
  { unfold count, string_key. rewrite !length_fmap. destruct (Z.ltb_spec (Length s1 / 2) (Length s2 / 2)); lia. }
  assert (Hc' : count <= Length s1 / 2 /\ count <= Length s2 / 2 /\ 0 <= count).
  { unfold count. destruct (Z.ltb_spec (Length s1 / 2) (Length s2 / 2)); lia. }
  rewrite compare_units_spec by (done || lia). rewrite Hc. cbn [Z.to_nat drop]. rewrite first_difference_take. run.
  unfold order. by destruct (first_difference _ _).
Qed.

Lemma order_opp l k (len1 len2 : Z) : order k l len2 len1 = - order l k len1 len2.
Proof.
  unfold order. assert (E : first_difference k l = Z.opp <$> first_difference l k).
  { revert k. induction l as [|c l IH]; intros [|d k]; try reflexivity. cbn.
    destruct (Z.eqb_spec c d), (Z.eqb_spec d c); subst; try done. cbn. f_equal. lia. }
  rewrite E. destruct (first_difference l k); cbn; lia.
Qed.

(** A sequence of units and the byte length it goes with. *)
Definition sized l (len : Z) : Prop := Z.of_nat (length l) = len / 2.

Lemma sized_cons c l (len : Z) : sized (c :: l) len -> sized l (len - 2).
Proof. unfold sized. cbn [length]. intros H. Z.to_euclidean_division_equations. lia. Qed.

Lemma order_cons c d l k (len1 len2 : Z) :
  order (c :: l) (d :: k) len1 len2 = if c =? d then order l k (len1 - 2) (len2 - 2) else c - d.
Proof. unfold order. cbn. destruct (c =? d); [|done]. destruct (first_difference l k); cbn; lia. Qed.

Lemma order_zero l k (len1 len2 : Z) : sized l len1 -> sized k len2 ->
  order l k len1 len2 = 0 <-> l = k /\ len1 = len2.
Proof.
  revert k len1 len2. induction l as [|c l IH]; intros [|d k] len1 len2 H1 H2.
  - unfold order. cbn. split; [intros ?; split; [done|lia]|lia].
  - unfold order, sized in *. cbn in *. split; [intros ?|intros [? _]; done]. exfalso.
    Z.to_euclidean_division_equations. lia.
  - unfold order, sized in *. cbn in *. split; [intros ?|intros [? _]; done]. exfalso.
    Z.to_euclidean_division_equations. lia.
  - rewrite order_cons. destruct (Z.eqb_spec c d) as [->|Hne].
    + rewrite (IH k) by (by eapply sized_cons). split; [intros [-> ?]; split; [done|lia]|intros [[= ->] ->]; done].
    + split; [lia|]. intros [[= -> _] _]. done.
Qed.

Lemma order_trans l k m (len1 len2 len3 : Z) : sized l len1 -> sized k len2 -> sized m len3 ->
  order l k len1 len2 <= 0 -> order k m len2 len3 <= 0 -> order l m len1 len3 <= 0.
Proof.
  revert k m len1 len2 len3. induction l as [|c l IH]; intros k m len1 len2 len3 H1 H2 H3.
  - destruct k as [|d k], m as [|e m]; unfold order, sized in *; cbn in *; intros O1 O2;
      Z.to_euclidean_division_equations; lia.
  - destruct k as [|d k]; [unfold order, sized in *; cbn in *; intros O1; Z.to_euclidean_division_equations; lia|].
    rewrite order_cons. destruct m as [|e m]; [unfold order, sized in *; cbn in *; intros _ O1; Z.to_euclidean_division_equations; lia|].
    rewrite !order_cons. destruct (Z.eqb_spec c d), (Z.eqb_spec d e), (Z.eqb_spec c e); subst; try lia.
    apply IH; by eapply sized_cons.
Qed.

Lemma first_difference_range l k d : Forall is_u16 l -> Forall is_u16 k ->
  first_difference l k = Some d -> - 2 ^ 16 < d < 2 ^ 16.
Proof.
  intros Hl. revert k. induction Hl as [|c l Hc Hl IH]; intros k Hk; [done|].
  destruct k as [|e k]; [done|]. apply Forall_cons in Hk as [He Hk]. cbn.
  destruct (c =? e); [by apply IH|]. intros [= <-]. unfold is_u16 in *. lia.
Qed.

Lemma equal_units_spec s1 s2 ci i n :
  string_ok s1 -> string_ok s2 -> 0 <= i ->
  i + Z.of_nat n <= Length s1 / 2 -> i + Z.of_nat n <= Length s2 / 2 ->
  equal_units s1 s2 ci i n = r ← compare_units s1 s2 ci i n; Ok (bool_decide (r = None)).
Proof.
  intros H1 H2. revert i. induction n as [|n IH]; intros i Hi Hn1 Hn2; [reflexivity|]. cbn [equal_units compare_units].
  destruct (unit_pair s1 s2 ci i) as [[c1 c2]| | |]; try reflexivity. run.
  destruct (c1 =? c2); cbn [negb]; [|reflexivity]. by rewrite IH by lia.
Qed.

Lemma RtlEqualUnicodeString_spec s1 s2 ci : string_ok s1 -> string_ok s2 ->
  RtlEqualUnicodeString s1 s2 ci = Ok (order (string_key ci s1) (string_key ci s2) (Length s1) (Length s2) =? 0).
Proof.
  intros H1 H2. pose proof (contents_length s1 H1) as L1. pose proof (contents_length s2 H2) as L2.
  assert (S1 : sized (string_key ci s1) (Length s1)) by (unfold sized, string_key; by rewrite length_fmap).
  assert (S2 : sized (string_key ci s2) (Length s2)) by (unfold sized, string_key; by rewrite length_fmap).
  unfold RtlEqualUnicodeString. destruct (Z.eqb_spec (Length s1) (Length s2)) as [E|Hne]; cbn [negb].
  - assert (Ediv : Length s2 / 2 = Length s1 / 2) by (by rewrite E).
    rewrite equal_units_spec by (done || lia). rewrite compare_units_spec by (done || lia). run. cbn [Z.to_nat drop].
    assert (Hk : length (string_key ci s1) = Z.to_nat (Length s1 / 2)) by (unfold string_key; rewrite length_fmap; lia).
    assert (Hk2 : length (string_key ci s2) = Z.to_nat (Length s1 / 2)) by (unfold string_key; rewrite length_fmap; lia).
    rewrite (take_ge (string_key ci s1)), (take_ge (string_key ci s2)) by lia.
    f_equal. unfold order. rewrite E, Z.sub_diag.
    destruct (first_difference _ _) as [d|] eqn:Ed; cbn; [|done].
    symmetry. apply Z.eqb_neq. intros ->.
    pose proof (proj1 (order_zero _ _ _ _ S1 S2)) as Hz. unfold order in Hz. rewrite Ed in Hz.
    destruct (Hz eq_refl) as [El _]. rewrite El in Ed. clear - Ed. revert Ed.
    generalize (string_key ci s2). intros l. induction l as [|c l IH]; [done|]. cbn. by rewrite Z.eqb_refl.
  - f_equal. symmetry. apply Z.eqb_neq. rewrite order_zero by done. by intros [_ ?].
Qed.

Lemma string_key_units s ci : string_ok s -> Forall is_u16 (string_key ci s).
Proof.
  intros H. apply Forall_fmap. eapply Forall_impl; [by apply contents_units|]. intros c. apply unit_key_range.
Qed.

Lemma order_range s1 s2 ci : string_ok s1 -> string_ok s2 ->
  - 2 ^ 16 < order (string_key ci s1) (string_key ci s2) (Length s1) (Length s2) < 2 ^ 16.
Proof.
  intros H1 H2. unfold order. destruct (first_difference _ _) as [d|] eqn:E; cbn [default from_option id].
  - by apply (first_difference_range (string_key ci s1) (string_key ci s2)); [apply string_key_units..|].
  - destruct H1 as [? _ _], H2 as [? _ _]. unfold is_u16 in *. cbn. lia.
Qed.

(** C39. RtlCompareUnicodeString is a total order on well-formed strings, with or
    without case: it always returns, never overflows a LONG, is antisymmetric and
    transitive, agrees with RtlEqualUnicodeString on equality, and identifies
    two strings exactly when they fold to the same units and have the same
    length. *)
Theorem RtlCompareUnicodeString_order s1 s2 s3 ci :
  string_ok s1 -> string_ok s2 -> string_ok s3 ->
  exists r r2 r3, RtlCompareUnicodeString s1 s2 ci = Ok r /\ RtlCompareUnicodeString s2 s3 ci = Ok r2 /\
    RtlCompareUnicodeString s1 s3 ci = Ok r3 /\
    - 2 ^ 16 < r < 2 ^ 16 /\
    RtlCompareUnicodeString s2 s1 ci = Ok (- r) /\
    RtlEqualUnicodeString s1 s2 ci = Ok (r =? 0) /\
    (r = 0 <-> string_key ci s1 = string_key ci s2 /\ Length s1 = Length s2) /\
    (r <= 0 -> r2 <= 0 -> r3 <= 0).
Proof.
  intros H1 H2 H3.
  assert (Hsize : forall s, string_ok s -> sized (string_key ci s) (Length s)).
  { intros s Hs. unfold sized, string_key. rewrite length_fmap. by apply contents_length. }
  do 3 eexists. rewrite !RtlCompareUnicodeString_spec, RtlEqualUnicodeString_spec by done.
  split_and!; try reflexivity.
  - apply (order_range s1 s2 ci H1 H2).
  - apply (order_range s1 s2 ci H1 H2).
  - f_equal. apply order_opp.
  - by apply order_zero; apply Hsize.
  - apply order_trans; by apply Hsize.
Qed.
End comparison.

Definition ex_name (units : list Z) : UNICODE_STRING :=
  mkUNICODE_STRING (2 * Z.of_nat (length units)) (2 * Z.of_nat (length units)) (Some units).

(** "Ab" equals "aB" without case, and precedes "b". *)
Lemma RtlCompareUnicodeString_order_witness :
  RtlEqualUnicodeString (ex_name [65; 98]) (ex_name [97; 66]) true = Ok true /\
  exists r, RtlCompareUnicodeString (ex_name [65; 98]) (ex_name [98]) true = Ok r /\ - 2 ^ 16 < r < 2 ^ 16.
Proof.
  split; [by vm_compute|].
  assert (H : forall l, (length l <= 4)%nat -> Forall is_u16 l -> string_ok (ex_name l)).
  { intros l Hl Hu. split; cbn; [unfold is_u16; lia| |done]. Z.to_euclidean_division_equations. lia. }
  destruct (RtlCompareUnicodeString_order (ex_name [65; 98]) (ex_name [98]) (ex_name []) true)
    as (r & _ & _ & E & _ & _ & Hr & _).
  - apply H; [cbn; lia|]. repeat constructor; done.
  - apply H; [cbn; lia|]. repeat constructor; done.
  - apply H; [cbn; lia|]. constructor.
  - exists r. split; [exact E|exact Hr].
Defined.

(** ** Making and copying strings *)

Section copying.
Implicit Types (s t : UNICODE_STRING) (l cs b : list Z) (n : nat).

Lemma copy_units_even b l n : (n <= length b)%nat -> (n <= length l)%nat ->
  copy_units b l (2 * n) = Ok (take n l ++ drop n b).
Proof.
  revert b l. induction n as [|n IH]; intros b l Hb Hl; [done|].
  replace (2 * S n)%nat with (S (S (2 * n))) by lia. destruct b as [|x b], l as [|y l]; cbn in Hb, Hl; try lia.
  cbn [copy_units]. rewrite IH by lia. done.
Qed.

(** The buffer RtlCopyUnicodeString leaves: [n] units of the source, a NUL if
    there is room, the rest as it was. *)
Definition copied_buffer b l n (room : bool) : list Z :=
  take n l ++ (if room then 0 :: drop (S n) b else drop n b).

Lemma RtlCopyUnicodeString_spec t s b l (len max : Z) :
  Buffer t = Some b -> Buffer s = Some l -> Length s = 2 * len -> MaximumLength t = 2 * max ->
  0 <= len <= Z.of_nat (length l) -> 0 <= max <= Z.of_nat (length b) ->
  let n := Z.min len max in
  RtlCopyUnicodeString t (Some s) =
    Ok (mkUNICODE_STRING (2 * n) (MaximumLength t) (Some (copied_buffer b l (Z.to_nat n) (n <? max)))).
Proof.
  intros Eb El Elen Emax Hlen Hmax n. unfold RtlCopyUnicodeString.
  assert (En : (if MaximumLength t <? Length s then MaximumLength t else Length s) = 2 * n).
  { rewrite Elen, Emax. unfold n. destruct (Z.ltb_spec (2 * max) (2 * len)); lia. }
  rewrite En. assert (Hn : 0 <= n <= len /\ n <= max) by lia. clearbody n.
  assert (Ebuf : (if 2 * n =? 0 then Ok (Buffer t) else
     t0 ← deref (Buffer t) "target"; s0 ← deref (Buffer s) "source";
     copied ← copy_units t0 s0 (Z.to_nat (2 * n)); Ok (Some copied)) = Ok (Some (take (Z.to_nat n) l ++ drop (Z.to_nat n) b))).
  { destruct (Z.eqb_spec (2 * n) 0).
    - assert (n = 0) as -> by lia. by rewrite Eb.
    - rewrite Eb, El. run. replace (Z.to_nat (2 * n)) with (2 * Z.to_nat n)%nat by lia.
      rewrite copy_units_even by lia. done. }
  rewrite Ebuf. run. clear Ebuf. cbn. rewrite Emax. unfold copied_buffer.
  replace (2 * n <? 2 * max) with (n <? max) by (apply eq_true_iff_eq; rewrite !Z.ltb_lt; lia).
  destruct (Z.ltb_spec n max); cbn.
  - replace (2 * n / 2) with n by (rewrite Z.mul_comm, Z.div_mul by lia; done).
    assert (Hlt : length (take (Z.to_nat n) l) = Z.to_nat n) by (rewrite length_take; lia).
    destruct (lookup_lt_is_Some_2 (take (Z.to_nat n) l ++ drop (Z.to_nat n) b) (Z.to_nat n)) as [x Hx].
    { rewrite length_app, length_drop. lia. }
    rewrite Hx. run. do 2 f_equal. f_equal. destruct (drop (Z.to_nat n) b) as [|y rest] eqn:Ed.
    { assert (Hd : length (drop (Z.to_nat n) b) = 0%nat) by (by rewrite Ed). rewrite length_drop in Hd. lia. }
    rewrite <- Hlt at 1. rewrite <- (Nat.add_0_r (length (take (Z.to_nat n) l))), insert_app_r. cbn. do 2 f_equal.
    replace (S (Z.to_nat n)) with (Z.to_nat n + 1)%nat by lia. rewrite <- drop_drop, Ed. done.
  - done.
Qed.

(** A counted string made from a NUL-terminated one has its units, with room
    for the NUL; copied into a buffer of [max] units it keeps as many units as
    fit, is NUL-terminated when at least one unit is left over, leaves the
    units after that alone and never writes past MaximumLength; and when it
    fits, the copy equals the original. *)
Theorem RtlInitUnicodeString_RtlCopyUnicodeString_roundtrip cs rest t b (max : Z) :
  0 ∉ cs -> Forall is_u16 (cs ++ 0 :: rest) -> 2 * Z.of_nat (length cs) <= 0xFFFD ->
  Buffer t = Some b -> Forall is_u16 b -> MaximumLength t = 2 * max -> 0 <= max <= Z.of_nat (length b) -> max < 2 ^ 15 ->
  exists s t', RtlInitUnicodeString (Some (cs ++ 0 :: rest)) = Ok s /\ string_ok s /\ contents s = cs /\
    MaximumLength s = Length s + 2 /\
    let n := Z.min (Z.of_nat (length cs)) max in
    RtlCopyUnicodeString t (Some s) = Ok t' /\ contents t' = take (Z.to_nat n) cs /\
    Buffer t' = Some (copied_buffer b (cs ++ 0 :: rest) (Z.to_nat n) (n <? max)) /\
    (Z.of_nat (length cs) <= max -> RtlEqualUnicodeString t' s false = Ok true).
Proof.
  intros Hcs Hu Hlen Eb Hb Emax Hmax Hmax'.
  assert (Hs : RtlInitUnicodeString (Some (cs ++ 0 :: rest)) =
    Ok (mkUNICODE_STRING (2 * Z.of_nat (length cs)) (2 * Z.of_nat (length cs) + 2) (Some (cs ++ 0 :: rest)))).
  { unfold RtlInitUnicodeString, KiWideStringLength. rewrite (KiStringLength_spec _ cs) by (split; eauto). run.
    rewrite u32_small by (unfold is_u32; lia). rewrite u64_small by (unfold is_u64; lia).
    rewrite (proj2 (Z.leb_le _ _)) by lia. run. rewrite !u16_small by (unfold is_u16; lia). do 2 f_equal; lia. }
  set (s := mkUNICODE_STRING (2 * Z.of_nat (length cs)) (2 * Z.of_nat (length cs) + 2) (Some (cs ++ 0 :: rest))) in *.
  assert (Ediv : Length s / 2 = Z.of_nat (length cs)) by (cbn; rewrite Z.mul_comm, Z.div_mul by lia; done).
  assert (Hok : string_ok s).
  { split; [unfold s, is_u16; cbn; lia| |done]. rewrite Ediv. cbn. rewrite length_app. lia. }
  assert (Hcont : contents s = cs).
  { unfold contents. rewrite Ediv, Nat2Z.id. cbn. by rewrite take_app_length. }
  set (n := Z.min (Z.of_nat (length cs)) max).
  assert (Hn : 0 <= n <= Z.of_nat (length cs) /\ n <= max) by (unfold n; lia).
  pose proof (RtlCopyUnicodeString_spec t s b (cs ++ 0 :: rest) (Z.of_nat (length cs)) max Eb eq_refl eq_refl Emax) as Hcopy.
  cbv zeta in Hcopy. fold n in Hcopy. rewrite length_app in Hcopy. specialize (Hcopy ltac:(lia) Hmax).
  set (t' := mkUNICODE_STRING (2 * n) (MaximumLength t) (Some (copied_buffer b (cs ++ 0 :: rest) (Z.to_nat n) (n <? max)))) in *.
  assert (Hct : contents t' = take (Z.to_nat n) cs).
  { unfold contents, t'. cbn [Length Buffer default from_option id]. unfold id.
    replace (2 * n / 2) with n by (rewrite Z.mul_comm, Z.div_mul by lia; done).
    unfold copied_buffer. rewrite take_app_length'. 2: { rewrite length_take, length_app; cbn [length]. lia. }
    by rewrite take_app_le by lia. }
  exists s, t'. cbv zeta. split_and!; try done. intros Hfit. assert (En : n = Z.of_nat (length cs)) by (unfold n; lia).
  assert (Hlen' : length (copied_buffer b (cs ++ 0 :: rest) (Z.to_nat n) (n <? max)) = length b).
  { unfold copied_buffer. rewrite length_app, length_take, length_app. destruct (Z.ltb_spec n max); cbn; rewrite length_drop; lia. }
  assert (Hok' : string_ok t').
  { split; cbn.
    - unfold is_u16. lia.
    - unfold id. rewrite Hlen'. Z.to_euclidean_division_equations. lia.
    - unfold copied_buffer. apply Forall_app. split; [by apply Forall_take|].
      destruct (n <? max); [constructor; [done|]|]; by apply Forall_drop. }
  rewrite RtlEqualUnicodeString_spec by done. f_equal. apply Z.eqb_eq. apply order_zero.
  - unfold sized, string_key. rewrite length_fmap. by apply contents_length.
  - unfold sized, string_key. rewrite length_fmap. by apply contents_length.
  - split; [|cbn; lia]. unfold string_key. rewrite Hct, Hcont, take_ge by lia. done.
Qed.
End copying.

(** "name" copied whole, and cut to two units. *)
Lemma RtlInitUnicodeString_RtlCopyUnicodeString_roundtrip_witness :
  (s ← RtlInitUnicodeString (Some [110; 97; 109; 101; 0]);
   t ← RtlCopyUnicodeString (mkUNICODE_STRING 0 6 (Some [1; 2; 3; 4])) (Some s); Ok (Buffer t)) =
    Ok (Some [110; 97; 109; 4]) /\
  exists s t', RtlInitUnicodeString (Some [110; 97; 109; 101; 0]) = Ok s /\
    RtlCopyUnicodeString (mkUNICODE_STRING 0 12 (Some [1; 2; 3; 4; 5; 6])) (Some s) = Ok t' /\
    RtlEqualUnicodeString t' s false = Ok true.
Proof.
  split; [by vm_compute|].
  destruct (RtlInitUnicodeString_RtlCopyUnicodeString_roundtrip [110; 97; 109; 101] []
    (mkUNICODE_STRING 0 12 (Some [1; 2; 3; 4; 5; 6])) [1; 2; 3; 4; 5; 6] 6) as (s & t' & E & _ & _ & _ & E' & _ & _ & Heq).
  - rewrite !not_elem_of_cons. repeat split; try done. apply not_elem_of_nil.
  - repeat constructor; done.
  - cbn. lia.
  - done.
  - repeat constructor; done.
  - done.
  - cbn. lia.
  - lia.
  - exists s, t'. split; [exact E|]. split; [exact E'|]. apply Heq. cbn. lia.
Defined.

(** ** 8.3 names *)

Section dos83.
Implicit Types (l b e : list Z) (c : Z).

Definition legal c : Prop := 0x20 < c <= 0x7E /\ c <> 0x2E /\ c ∉ illegal.

(** The documented shape: at most eight legal characters, then, optionally, one
    dot and one to three more; and the two directory entries. *)
Inductive dos_8_3 : list Z -> Prop :=
  | dos_dot : dos_8_3 [0x2E]
  | dos_dotdot : dos_8_3 [0x2E; 0x2E]
  | dos_base b : Forall legal b -> (1 <= length b <= 8)%nat -> dos_8_3 b
  | dos_ext b e : Forall legal b -> (1 <= length b <= 8)%nat -> Forall legal e -> (1 <= length e <= 3)%nat ->
      dos_8_3 (b ++ 0x2E :: e).

Lemma existsb_illegal c : existsb (Z.eqb c) illegal = true <-> c ∈ illegal.
Proof.
  rewrite existsb_exists. setoid_rewrite list_elem_of_In. split.
  - intros (x & Hx & ->%Z.eqb_eq). done.
  - intros H. exists c. by rewrite Z.eqb_refl.
Qed.

(** The tests of one turn of the loop. *)
Lemma legal_test c : c <> 0x2E ->
  (if (c <? 0x20) || (0x7E <? c) then false else if c =? 0x20 then false else negb (existsb (Z.eqb c) illegal)) = true
  <-> legal c.
Proof.
  intros Hdot. unfold legal. destruct (Z.ltb_spec c 0x20), (Z.ltb_spec 0x7E c), (Z.eqb_spec c 0x20); cbn [orb];
    try (split; [done|lia]). rewrite negb_true_iff, <- not_true_iff_false, existsb_illegal.
  split; [intros Hi; split_and!; [lia|lia|done|done]|by intros (_ & _ & ?)].
Qed.

Lemma dos83_step c l base ext dot n : c <> 0x2E ->
  dos83_loop (c :: l) base ext dot (S n) =
    if (if (c <? 0x20) || (0x7E <? c) then false else if c =? 0x20 then false else negb (existsb (Z.eqb c) illegal))
    then dos83_loop l (if dot then base else base + 1) (if dot then ext + 1 else ext) dot n
    else Ok None.
Proof.
  intros Hdot. cbn [dos83_loop at_unit]. run. rewrite (proj2 (Z.eqb_neq c 0x2E)) by done.
  destruct (_ || _); [done|]. destruct (c =? 0x20); [done|]. destruct (existsb _ _); [done|]. by destruct dot.
Qed.

(** After the dot every character counts towards the extension. *)
Lemma dos83_after l rest base ext :
  exists r, dos83_loop (l ++ rest) base ext true (length l) = Ok r /\
    (r = None \/ r = Some (base, ext + Z.of_nat (length l), true)) /\ (r <> None <-> Forall legal l).
Proof.
  revert ext. induction l as [|c l IH]; intros ext.
  - exists (Some (base, ext, true)). split; [done|]. split; [right; cbn; by rewrite Z.add_0_r|]. split; [constructor|done].
  - cbn [app length]. destruct (Z.eq_dec c 0x2E) as [->|Hne].
    + exists None. split; [done|]. split; [by left|]. split; [done|]. intros [[_ [? _]] _]%Forall_cons. done.
    + rewrite dos83_step by done. pose proof (legal_test c Hne) as Hl. destruct (if (c <? 0x20) || _ then _ else _).
      * destruct (IH (ext + 1)) as (r & -> & Hr & Hiff). exists r. split; [done|]. split.
        -- destruct Hr as [->| ->]; [by left|right].
           by replace (ext + Z.of_nat (S (length l))) with (ext + 1 + Z.of_nat (length l)) by lia.
        -- rewrite Forall_cons, Hiff. pose proof (proj1 Hl eq_refl). tauto.
      * exists None. split; [done|]. split; [by left|]. split; [done|].
        intros [Hc _]%Forall_cons. by apply Hl in Hc.
Qed.

(** Before it, towards the base. *)
Lemma dos83_before l rest base ext : 0x2E ∉ l ->
  exists r, dos83_loop (l ++ rest) base ext false (length l) = Ok r /\
    (r = None \/ r = Some (base + Z.of_nat (length l), ext, false)) /\ (r <> None <-> Forall legal l).
Proof.
  revert base. induction l as [|c l IH]; intros base Hl.
  - exists (Some (base, ext, false)). split; [done|]. split; [right; cbn; by rewrite Z.add_0_r|]. split; [constructor|done].
  - apply not_elem_of_cons in Hl as [Hne Hl]. cbn [app length]. rewrite dos83_step by done.
    pose proof (legal_test c (not_eq_sym Hne)) as Ht. destruct (if (c <? 0x20) || _ then _ else _).
    + destruct (IH (base + 1) Hl) as (r & -> & Hr & Hiff). exists r. split; [done|]. split.
      * destruct Hr as [->| ->]; [by left|right].
        by replace (base + Z.of_nat (S (length l))) with (base + 1 + Z.of_nat (length l)) by lia.
      * rewrite Forall_cons, Hiff. pose proof (proj1 Ht eq_refl). tauto.
    + exists None. split; [done|]. split; [by left|]. split; [done|]. intros [Hc _]%Forall_cons. by apply Ht in Hc.
Qed.

Lemma dos83_app l k base ext n :
  0x2E ∉ l -> dos83_loop (l ++ k) base ext false (length l + n) =
    r ← dos83_loop (l ++ k) base ext false (length l);
    match r with None => Ok None | Some (base', ext', _) => dos83_loop k base' ext' false n end.
Proof.
  revert base. induction l as [|c l IH]; intros base Hl; [done|].
  apply not_elem_of_cons in Hl as [Hne Hl]. cbn [app length Nat.add]. rewrite !dos83_step by done.
  match goal with |- context [if ?t then _ else Ok None] => destruct t end; [|done]. by apply IH.
Qed.

Lemma legal_no_dot l : Forall legal l -> 0x2E ∉ l.
Proof. intros Hl Hin. rewrite Forall_forall in Hl. by destruct (Hl _ Hin) as (_ & ? & _). Qed.

Lemma first_dot_unique b e b' e' : 0x2E ∉ b -> 0x2E ∉ b' -> b ++ 0x2E :: e = b' ++ 0x2E :: e' -> b = b' /\ e = e'.
Proof.
  revert b'. induction b as [|c b IH]; intros [|c' b'] Hb Hb' E; cbn in E.
  - by injection E.
  - injection E as <- _. by apply not_elem_of_cons in Hb' as [? _].
  - injection E as -> _. by apply not_elem_of_cons in Hb as [? _].
  - injection E as <- E. apply not_elem_of_cons in Hb as [_ Hb], Hb' as [_ Hb'].
    by destruct (IH b' Hb Hb' E) as [-> ->].
Qed.

Lemma dos_8_3_no_dot l : 0x2E ∉ l -> dos_8_3 l <-> Forall legal l /\ (1 <= length l <= 8)%nat.
Proof.
  intros Hl. split; [|by intros [? ?]; apply dos_base]. intros H. inversion H; subst; try done; exfalso; apply Hl.
  - left.
  - left.
  - apply elem_of_app. right. left.
Qed.

Lemma dos_8_3_nil : ~ dos_8_3 [].
Proof. intros [_ H]%dos_8_3_no_dot; [cbn in H; lia|apply not_elem_of_nil]. Qed.

Lemma dos_8_3_dot b e : 0x2E ∉ b -> dos_8_3 (b ++ 0x2E :: e) <->
  (b = [] /\ e = []) \/ (b = [] /\ e = [0x2E]) \/
  (Forall legal b /\ (1 <= length b <= 8)%nat /\ Forall legal e /\ (1 <= length e <= 3)%nat).
Proof.
  intros Hb. split.
  - intros H. inversion H as [E|E|b' Hb' Hlen E|b' e' Hb' Hlen He' Hlen' E].
    + left. by destruct (first_dot_unique [] [] b e (not_elem_of_nil _) Hb E) as [<- <-].
    + right. left. by destruct (first_dot_unique [] [0x2E] b e (not_elem_of_nil _) Hb E) as [<- <-].
    + exfalso. apply (legal_no_dot (b ++ 0x2E :: e)); [congruence|]. apply elem_of_app. right. left.
    + right. right. by destruct (first_dot_unique b' e' b e (legal_no_dot _ Hb') Hb E) as [<- <-].
  - intros [[-> ->]|[[-> ->]|(? & ? & ? & ?)]]; [apply dos_dot|apply dos_dotdot|by apply dos_ext].
Qed.

(** The tests after the loop. *)
Definition dos83_verdict (r : option (Z * Z * bool)) : bool :=
  match r with
  | None => false
  | Some (base, ext, sawDot) =>
      if (base =? 0) || (8 <? base) || (3 <? ext) then false else negb sawDot || negb (ext =? 0)
  end.

(** The loop and those tests, on names other than the two entries. *)
Lemma dos83_loop_spec l rest : l <> [0x2E] -> l <> [0x2E; 0x2E] ->
  exists r, dos83_loop (l ++ rest) 0 0 false (length l) = Ok r /\ (dos83_verdict r = true <-> dos_8_3 l).
Proof.
  intros Hd1 Hd2. destruct (decide (0x2E ∈ l)) as [Hdot|Hdot].
  - apply list_elem_of_split_l in Hdot as (b & e & -> & Hb). rewrite <- app_assoc. cbn [app].
    rewrite length_app. cbn [length]. rewrite dos83_app by done.
    destruct (dos83_before b (0x2E :: e ++ rest) 0 0 Hb) as (r & -> & Hr & Hiff). run.
    setoid_rewrite (dos_8_3_dot b e Hb). destruct Hr as [->| ->].
    + exists None. split; [done|]. split; [done|]. intros [[-> ->]|[[-> ->]|(H & _)]]; [done..|]. by apply Hiff in H.
    + assert (Hlb : Forall legal b) by (by apply Hiff). cbn [dos83_loop at_unit]. run. cbn [Z.eqb Pos.eqb orb].
      destruct (Z.eqb_spec (0 + Z.of_nat (length b)) 0) as [E|Hne].
      * exists None. split; [done|]. split; [done|]. assert (b = []) as -> by (destruct b; cbn in *; [done|lia]).
        intros [[_ ->]|[[_ ->]|(_ & H & _)]]; [done..|cbn in H; lia].
      * destruct (dos83_after e rest (0 + Z.of_nat (length b)) 0) as (r & -> & Hr & Hiff2). exists r. split; [done|].
        destruct Hr as [->| ->].
        -- split; [done|]. intros [[-> _]|[[-> _]|(_ & _ & H & _)]]; [done..|]. by apply Hiff2 in H.
        -- assert (Hle : Forall legal e) by (by apply Hiff2). cbn [dos83_verdict].
           rewrite (proj2 (Z.eqb_neq _ 0)) by done. cbn [orb].
           destruct (Z.ltb_spec 8 (0 + Z.of_nat (length b))), (Z.ltb_spec 3 (0 + Z.of_nat (length e))),
             (Z.eqb_spec (0 + Z.of_nat (length e)) 0); cbn [orb negb]; (split; [intros ?; try done|]).
           all: try (intros [[-> _]|[[-> _]|(_ & ? & _ & ?)]]; [done..|lia]). all: try done.
           right. right. split_and!; [done|lia|lia|done|lia|lia].
  - setoid_rewrite (dos_8_3_no_dot l Hdot). destruct (dos83_before l rest 0 0 Hdot) as (r & -> & Hr & Hiff).
    exists r. split; [done|]. destruct Hr as [->| ->].
    + split; [done|]. intros [H _]. by apply Hiff in H.
    + assert (Hl : Forall legal l) by (by apply Hiff). cbn [dos83_verdict]. change (3 <? 0) with false. rewrite orb_false_r.
      destruct (Z.eqb_spec (0 + Z.of_nat (length l)) 0), (Z.ltb_spec 8 (0 + Z.of_nat (length l))); cbn [orb negb];
        (split; [intros ?; first [done|split; [done|lia]]|intros [_ ?]; first [done|lia]]).
Qed.

(** RtlIsNameLegalDOS8Dot3 accepts exactly the names of the documented 8.3
    shape, and always returns, provided the caller passes no out-parameter; with
    one, the assertion stops it. *)
Theorem RtlIsNameLegalDOS8Dot3_correct s oemName spacesFound :
  string_ok s ->
  if (oemName =? 0) && (spacesFound =? 0)
  then exists r, RtlIsNameLegalDOS8Dot3 (Some s) oemName spacesFound = Ok r /\ (r = true <-> dos_8_3 (contents s))
  else exists why, RtlIsNameLegalDOS8Dot3 (Some s) oemName spacesFound = Panic why.
Proof.
  intros Hs. unfold RtlIsNameLegalDOS8Dot3.
  destruct (Z.eqb_spec oemName 0) as [->|]; [|run; by eexists].
  destruct (Z.eqb_spec spacesFound 0) as [->|]; [|run; by eexists]. run.
  pose proof (contents_length s Hs) as Hlen. destruct Hs as [_ Hbuf _]. unfold contents in *.
  destruct (Buffer s) as [buf|]; cbn [default from_option] in *; unfold id in *.
  2: { exists false. split; [done|]. split; [done|]. rewrite take_nil. intros H. by destruct (dos_8_3_nil H). }
  set (n := Length s / 2) in *. clearbody n.
  assert (Hn : 0 <= n) by lia. set (l := take (Z.to_nat n) buf) in *.
  assert (Hll : length l = Z.to_nat n) by lia.
  destruct (Z.eqb_spec n 0) as [->|Hn0].
  { exists false. split; [done|]. split; [done|]. assert (l = []) as -> by (by destruct l). by intros ?%dos_8_3_nil. }
  assert (Ebuf : buf = l ++ drop (Z.to_nat n) buf) by (symmetry; apply take_drop).
  set (rest := drop (Z.to_nat n) buf) in *. clearbody rest l. subst buf. clear Hbuf Hlen.
  assert (Hloop : l <> [0x2E] -> l <> [0x2E; 0x2E] -> exists r,
    (r0 ← dos83_loop (l ++ rest) 0 0 false (Z.to_nat n);
     match r0 with
     | Some (base, ext, sawDot) =>
         if (base =? 0) || (8 <? base) || (3 <? ext) then Ok false else Ok (negb sawDot || negb (ext =? 0))
     | None => Ok false
     end) = Ok r /\ (r = true <-> dos_8_3 l)).
  { intros Hd1 Hd2. destruct (dos83_loop_spec l rest Hd1 Hd2) as (r & E & Hr). rewrite <- Hll, E. run.
    exists (dos83_verdict r). split; [|done]. destruct r as [[[base ext] dot]|]; [|done]. cbn. by destruct (_ || _). }
  destruct l as [|c1 l1]; [cbn in Hll; lia|]. cbn [app lookup list_lookup deref]. run.
  destruct (Z.eqb_spec n 1) as [->|Hn1].
  { destruct l1; [|cbn in Hll; lia]. destruct (Z.eqb_spec c1 0x2E) as [->|Hne]; cbn [andb].
    - exists true. split; [done|]. split; [intros _; apply dos_dot|done].
    - change (1 =? 2) with false. run. apply Hloop; congruence. }
  cbn [andb]. destruct (Z.eqb_spec n 2) as [->|Hn2]; cbn [andb].
  2: { run. apply Hloop; intros [= -> ->]; cbn in Hll; lia. }
  destruct l1 as [|c2 l1]; [cbn in Hll; lia|]. destruct l1; [|cbn in Hll; lia].
  destruct (Z.eqb_spec c1 0x2E) as [->|Hne]; cbn [app lookup list_lookup deref]; run; [|apply Hloop; congruence].
  destruct (Z.eqb_spec c2 0x2E) as [->|Hne]; [|apply Hloop; congruence].
  exists true. split; [done|]. split; [intros _; apply dos_dotdot|done].
Qed.
End dos83.

Lemma RtlIsNameLegalDOS8Dot3_correct_witness :
  RtlIsNameLegalDOS8Dot3 (Some (ex_name [97; 46; 116; 120; 116])) 0 0 = Ok true /\
  RtlIsNameLegalDOS8Dot3 (Some (ex_name [97; 46; 98; 46; 99])) 0 0 = Ok false /\ dos_8_3 [97; 46; 116; 120; 116].
Proof.
  split; [by vm_compute|]. split; [by vm_compute|].
  destruct (RtlIsNameLegalDOS8Dot3_correct (ex_name [97; 46; 116; 120; 116]) 0 0) as (r & E & Hr).
  - split; cbn; [unfold is_u16; lia|by vm_compute|]. repeat constructor; done.
  - apply Hr. vm_compute in E. injection E as <-. reflexivity.
Defined.
