(* ===== verification/FileSharing.v ===== *)
(** * FileSharing: who may use a file together with whom.

    The IO_FCB every open of one on-disk file shares (kernel/io/vfs.h): its
    byte-range locks (kernel/io/lock.c), its share-mode counters and the holds
    of live sections (kernel/io/file.c). *)

From S2P Require Import Prelude NtStatus KeTypes KeInv KeSched KeWait KeCheck KeEvent.

(** ** Data *)

Record IO_FILE_LOCK := mkIO_FILE_LOCK {
  owner : addr;
  offset : Z;
  lockLength : Z;
  exclusive : bool;
}.

#[export] Instance IO_FILE_LOCK_eq_dec : EqDecision IO_FILE_LOCK.
Proof. solve_decision. Defined.

Record IO_SHARE_ACCESS := mkIO_SHARE_ACCESS {
  openCount : Z;
  readers : Z;
  writers : Z;
  deleters : Z;
  sharedRead : Z;
  sharedWrite : Z;
  sharedDelete : Z;
}.

Record IO_FCB := mkIO_FCB {
  shareAccess : IO_SHARE_ACCESS;
  lockList : list IO_FILE_LOCK;
  deletePending : bool;
  sectionCount : Z;
  imageSectionCount : Z;
  writableSectionCount : Z;
}.

#[export] Instance eta_IO_SHARE_ACCESS : Eta IO_SHARE_ACCESS := {| eta_expand := fun s =>
  mkIO_SHARE_ACCESS (openCount s) (readers s) (writers s) (deleters s) (sharedRead s) (sharedWrite s)
    (sharedDelete s) |}.
#[export] Instance eta_IO_FCB : Eta IO_FCB := {| eta_expand := fun f =>
  mkIO_FCB (shareAccess f) (lockList f) (deletePending f) (sectionCount f) (imageSectionCount f)
    (writableSectionCount f) |}.

Definition IopInitializeFcb (fcb : IO_FCB) : IO_FCB :=
  fcb <| shareAccess := mkIO_SHARE_ACCESS 0 0 0 0 0 0 0 |> <| lockList := [] |>
      <| deletePending := false |> <| sectionCount := 0 |>.

(** ** Byte-range locks *)

Definition IopLockEnd (offset length : Z) : Z := u64 (offset + length).

Definition IopRangesOverlap (aOffset aLength bOffset bLength : Z) : bool :=
  if (aLength =? 0) || (bLength =? 0) then false else
  let aEnd := IopLockEnd aOffset aLength in
  let bEnd := IopLockEnd bOffset bLength in
  if negb (aEnd =? 0) && (aEnd <=? bOffset) then false
  else if negb (bEnd =? 0) && (bEnd <=? aOffset) then false
  else true.

Fixpoint lock_conflicts (locks : list IO_FILE_LOCK) (off len : Z) (excl : bool) : bool :=
  match locks with
  | [] => false
  | lock :: locks' =>
      if negb (IopRangesOverlap off len (offset lock) (lockLength lock)) then lock_conflicts locks' off len excl
      else if excl || exclusive lock then true
      else lock_conflicts locks' off len excl
  end.

Definition IopLockConflicts (fcb : IO_FCB) (off len : Z) (excl : bool) : bool :=
  lock_conflicts (lockList fcb) off len excl.

(** [pool]: does MiAllocatePool find memory. *)
Definition IopLockRange (fcb : IO_FCB) (own off len : Z) (excl pool : bool) : NTSTATUS * IO_FCB :=
  let end_ := IopLockEnd off len in
  if negb (end_ =? 0) && (end_ <? off) then (STATUS_INVALID_PARAMETER, fcb)
  else if IopLockConflicts fcb off len excl then (STATUS_FILE_LOCK_CONFLICT, fcb)
  else if negb pool then (STATUS_INSUFFICIENT_RESOURCES, fcb)
  else (STATUS_SUCCESS, fcb <| lockList := lockList fcb ++ [mkIO_FILE_LOCK own off len excl] |>).

(** The list without its first exact match, [None] if there is none. *)
Fixpoint unlock_first (locks : list IO_FILE_LOCK) (own off len : Z) : option (list IO_FILE_LOCK) :=
  match locks with
  | [] => None
  | lock :: locks' =>
      if (owner lock =? own) && (offset lock =? off) && (lockLength lock =? len) then Some locks'
      else (lock ::.) <$> unlock_first locks' own off len
  end.

Definition IopUnlockRange (fcb : IO_FCB) (own off len : Z) : NTSTATUS * IO_FCB :=
  match unlock_first (lockList fcb) own off len with
  | Some locks => (STATUS_SUCCESS, fcb <| lockList := locks |>)
  | None => (STATUS_RANGE_NOT_LOCKED, fcb)
  end.

Definition IopReleaseAllLocks (fcb : IO_FCB) (own : addr) : IO_FCB :=
  fcb <| lockList := filter (fun lock => owner lock <> own) (lockList fcb) |>.

(** *** The Nt surface

    What the service touches: the dispatcher, the file's FCB, and the references
    it holds on the file and event objects.  The outcome of a user copy, of a
    handle lookup and of a probe is an argument: those belong to Ob and to the
    user-memory layer. *)
Record LOCK_STATE := mkLOCK_STATE {
  ke : KSTATE;
  fcb : IO_FCB;
  fileReferences : Z;
  eventReferences : Z;
}.

#[export] Instance eta_LOCK_STATE : Eta LOCK_STATE := {| eta_expand := fun s =>
  mkLOCK_STATE (ke s) (fcb s) (fileReferences s) (eventReferences s) |}.

(** The retry loop.  A nap is KeDelayExecutionThread: its status, and the machine
    as it is when the thread runs again, other threads having locked and
    unlocked meanwhile. *)
Fixpoint lock_retry (s : LOCK_STATE) (file off len : Z) (excl pool failImmediately : bool)
    (naps : list (NTSTATUS * LOCK_STATE)) : outcome (NTSTATUS * LOCK_STATE) :=
  let '(status, fcb') := IopLockRange (fcb s) file off len excl pool in
  let s' := s <| fcb := fcb' |> in
  if negb (status =? STATUS_FILE_LOCK_CONFLICT) || failImmediately then Ok (status, s')
  else
    match naps with
    | [] => OutOfFuel
    | (napStatus, s'') :: naps' =>
        if negb (napStatus =? STATUS_SUCCESS) then Ok (napStatus, s'')
        else lock_retry s'' file off len excl pool failImmediately naps'
    end.

Record lock_arguments := mklock_arguments {
  la_apc : addr;
  la_iosb : addr;
  la_key : addr;
  la_byteOffset : addr;
  la_length : addr;
  la_event : Z;
  la_failImmediately : bool;
  la_exclusive : bool;
}.

(** What the layers below answer: the two captured LARGE_INTEGERs, the file and
    event handle lookups, the pool. *)
Record lock_environment := mklock_environment {
  le_offset : NTSTATUS * Z;
  le_length : NTSTATUS * Z;
  le_file : NTSTATUS * addr;
  le_isDirectory : bool;
  le_event : NTSTATUS * addr;
  le_pool : bool;
}.

Definition NtLockFile (s : LOCK_STATE) (a : lock_arguments) (e : lock_environment)
    (naps : list (NTSTATUS * LOCK_STATE)) : outcome (NTSTATUS * LOCK_STATE) :=
  if negb (la_apc a =? 0) || negb (la_iosb a =? 0) || negb (la_key a =? 0) then Ok (STATUS_NOT_IMPLEMENTED, s) else
  if (la_byteOffset a =? 0) || (la_length a =? 0) then Ok (STATUS_ACCESS_VIOLATION, s) else
  let status := if NT_SUCCESS (fst (le_offset e)) then fst (le_length e) else fst (le_offset e) in
  if negb (NT_SUCCESS status) then Ok (status, s) else
  let '(status, file) := le_file e in
  if negb (NT_SUCCESS status) then Ok (status, s) else
  let s := s <| fileReferences := fileReferences s + 1 |> in
  if le_isDirectory e then Ok (STATUS_INVALID_DEVICE_REQUEST, s <| fileReferences := fileReferences s - 1 |>) else
  '(status, s) ← lock_retry s file (u64 (snd (le_offset e))) (u64 (snd (le_length e))) (la_exclusive a) (le_pool e)
                   (la_failImmediately a) naps;
  s ← (if NT_SUCCESS status && negb (la_event a =? 0) then
         let '(eventStatus, eventBody) := le_event e in
         if NT_SUCCESS eventStatus then
           let s := s <| eventReferences := eventReferences s + 1 |> in
           '(_, k) ← KeSetEvent (ke s) eventBody;
           Ok (s <| ke := k |> <| eventReferences := eventReferences s - 1 |>)
         else Ok s
       else Ok s);
  Ok (status, s <| fileReferences := fileReferences s - 1 |>).

(** The status block the service writes, if it does. *)
Definition NtUnlockFile (s : LOCK_STATE) (iosb byteOffset length key : addr) (probe : NTSTATUS)
    (e : lock_environment) : NTSTATUS * option NTSTATUS * LOCK_STATE :=
  if negb (key =? 0) then (STATUS_NOT_IMPLEMENTED, None, s) else
  if (iosb =? 0) || (byteOffset =? 0) || (length =? 0) then (STATUS_ACCESS_VIOLATION, None, s) else
  if negb (NT_SUCCESS probe) then (probe, None, s) else
  let status := if NT_SUCCESS (fst (le_offset e)) then fst (le_length e) else fst (le_offset e) in
  if negb (NT_SUCCESS status) then (status, None, s) else
  let '(status, file) := le_file e in
  if negb (NT_SUCCESS status) then (status, None, s) else
  let s := s <| fileReferences := fileReferences s + 1 |> in
  let '(status, fcb') := IopUnlockRange (fcb s) file (u64 (snd (le_offset e))) (u64 (snd (le_length e))) in
  (status, Some status, s <| fcb := fcb' |> <| fileReferences := fileReferences s - 1 |>).

(** ** Share modes *)

Definition FILE_READ_DATA : Z := 0x0001.
Definition FILE_WRITE_DATA : Z := 0x0002.
Definition FILE_APPEND_DATA : Z := 0x0004.
Definition FILE_EXECUTE : Z := 0x0020.
Definition DELETE : Z := 0x00010000.
Definition FILE_SHARE_READ : Z := 0x00000001.
Definition FILE_SHARE_WRITE : Z := 0x00000002.
Definition FILE_SHARE_DELETE : Z := 0x00000004.
Definition FILE_SUPERSEDE : Z := 0.
Definition FILE_OVERWRITE : Z := 4.
Definition FILE_OVERWRITE_IF : Z := 5.
Definition FILE_DELETE_ON_CLOSE : Z := 0x00001000.

(** Does [mask] carry one of [bits]. *)
Definition has (mask bits : Z) : bool := negb (Z.land mask bits =? 0).

(** (reads, writes, deletes). *)
Definition IopShareRelevantAccess (desiredAccess : Z) : bool * bool * bool :=
  (has desiredAccess (Z.lor FILE_READ_DATA FILE_EXECUTE),
   has desiredAccess (Z.lor FILE_WRITE_DATA FILE_APPEND_DATA),
   has desiredAccess DELETE).

Definition IopDispositionTruncates (disposition : Z) : bool :=
  (disposition =? FILE_SUPERSEDE) || (disposition =? FILE_OVERWRITE) || (disposition =? FILE_OVERWRITE_IF).

Definition IoCheckShareAccess (desiredAccess share disposition options : Z) (fcb : IO_FCB) : NTSTATUS :=
  let '(reads, writes, deletes) := IopShareRelevantAccess desiredAccess in
  let c := shareAccess fcb in
  let sharesRead := has share FILE_SHARE_READ in
  let sharesWrite := has share FILE_SHARE_WRITE in
  let sharesDelete := has share FILE_SHARE_DELETE in
  if (reads && negb (sharedRead c =? openCount c)) || (writes && negb (sharedWrite c =? openCount c)) ||
     (deletes && negb (sharedDelete c =? openCount c)) then STATUS_SHARING_VIOLATION else
  if (negb (writableSectionCount fcb =? 0) && negb sharesWrite) ||
     (negb (imageSectionCount fcb =? 0) && has desiredAccess FILE_WRITE_DATA) then STATUS_SHARING_VIOLATION else
  if negb (imageSectionCount fcb =? 0) && has options FILE_DELETE_ON_CLOSE then STATUS_CANNOT_DELETE else
  if negb (sectionCount fcb =? 0) && IopDispositionTruncates disposition then STATUS_USER_MAPPED_FILE else
  if negb reads && negb writes && negb deletes then STATUS_SUCCESS else
  if (negb sharesRead && negb (readers c =? 0)) || (negb sharesWrite && negb (writers c =? 0)) ||
     (negb sharesDelete && negb (deleters c =? 0)) then STATUS_SHARING_VIOLATION else
  STATUS_SUCCESS.

(** [x ? 1 : 0]. *)
Definition b2z (b : bool) : Z := if b then 1 else 0.

Definition IoSetShareAccess (desiredAccess share : Z) (fcb : IO_FCB) : IO_FCB :=
  let '(reads, writes, deletes) := IopShareRelevantAccess desiredAccess in
  if negb reads && negb writes && negb deletes then fcb else
  let c := shareAccess fcb in
  fcb <| shareAccess := mkIO_SHARE_ACCESS (u32 (openCount c + 1)) (u32 (readers c + b2z reads))
    (u32 (writers c + b2z writes)) (u32 (deleters c + b2z deletes))
    (u32 (sharedRead c + b2z (has share FILE_SHARE_READ))) (u32 (sharedWrite c + b2z (has share FILE_SHARE_WRITE)))
    (u32 (sharedDelete c + b2z (has share FILE_SHARE_DELETE))) |>.

Definition IoRemoveShareAccess (desiredAccess share : Z) (fcb : IO_FCB) : outcome IO_FCB :=
  let '(reads, writes, deletes) := IopShareRelevantAccess desiredAccess in
  if negb reads && negb writes && negb deletes then Ok fcb else
  let c := shareAccess fcb in
  _ ← ASSERT (0 <? openCount c) "openCount > 0";
  Ok (fcb <| shareAccess := mkIO_SHARE_ACCESS (u32 (openCount c - 1)) (u32 (readers c - b2z reads))
    (u32 (writers c - b2z writes)) (u32 (deleters c - b2z deletes))
    (u32 (sharedRead c - b2z (has share FILE_SHARE_READ))) (u32 (sharedWrite c - b2z (has share FILE_SHARE_WRITE)))
    (u32 (sharedDelete c - b2z (has share FILE_SHARE_DELETE))) |>).

(** ** The hold of a section *)

Definition PAGE_NOACCESS : Z := 0x01.
Definition PAGE_READWRITE : Z := 0x04.
Definition PAGE_EXECUTE : Z := 0x10.
Definition PAGE_EXECUTE_READWRITE : Z := 0x40.
Definition SEC_IMAGE : Z := 0x1000000.

Definition IopSectionFileAccess (sectionAttributes pageProtection : Z) : Z :=
  let bits := Z.land pageProtection 0xFF in
  if (bits =? PAGE_EXECUTE) || (bits =? PAGE_NOACCESS) then 0 else
  if (Z.land sectionAttributes SEC_IMAGE =? 0) && ((bits =? PAGE_READWRITE) || (bits =? PAGE_EXECUTE_READWRITE))
  then Z.lor FILE_READ_DATA FILE_WRITE_DATA
  else FILE_READ_DATA.

Definition IopSectionHoldsWrite (sectionAttributes pageProtection : Z) : bool :=
  (Z.land sectionAttributes SEC_IMAGE =? 0) &&
  has (IopSectionFileAccess sectionAttributes pageProtection) FILE_WRITE_DATA.

(** The counters IopBuildSectionBacking takes once nothing can fail. *)
Definition section_acquired (fcb : IO_FCB) (sectionAttributes pageProtection : Z) : IO_FCB :=
  fcb <| sectionCount := s32 (sectionCount fcb + 1) |>
      <| imageSectionCount := s32 (imageSectionCount fcb + b2z (has sectionAttributes SEC_IMAGE)) |>
      <| writableSectionCount :=
           s32 (writableSectionCount fcb + b2z (IopSectionHoldsWrite sectionAttributes pageProtection)) |>.

(** The second component: is the file system told that the last section is gone. *)
Definition IopSectionBackingReleased (fcb : IO_FCB) (sectionAttributes pageProtection : Z) : outcome (IO_FCB * bool) :=
  _ ← ASSERT (0 <? sectionCount fcb) "sectionCount > 0";
  let fcb := fcb <| sectionCount := sectionCount fcb - 1 |> in
  fcb ← (if has sectionAttributes SEC_IMAGE then
           _ ← ASSERT (0 <? imageSectionCount fcb) "imageSectionCount > 0";
           Ok (fcb <| imageSectionCount := imageSectionCount fcb - 1 |>)
         else Ok fcb);
  fcb ← (if IopSectionHoldsWrite sectionAttributes pageProtection then
           _ ← ASSERT (0 <? writableSectionCount fcb) "writableSectionCount > 0";
           Ok (fcb <| writableSectionCount := writableSectionCount fcb - 1 |>)
         else Ok fcb);
  Ok (fcb, sectionCount fcb =? 0).

(** ** Locks: what the table promises *)

Section locks.
Implicit Types (f : IO_FCB) (l k : IO_FILE_LOCK) (locks : list IO_FILE_LOCK) (own off len : Z) (excl pool : bool).

(** A range the kernel accepts: its end is at most 2^64. *)
Definition range_ok off len : Prop := 0 <= off /\ 0 <= len /\ off + len <= 2 ^ 64 /\ off < 2 ^ 64 /\ len < 2 ^ 64.

Definition in_range (x off len : Z) : Prop := off <= x < off + len.

Lemma IopLockEnd_cases off len : range_ok off len ->
  IopLockEnd off len = if off + len =? 2 ^ 64 then 0 else off + len.
Proof.
  intros (? & ? & ? & ? & ?). unfold IopLockEnd, u64. destruct (Z.eqb_spec (off + len) (2 ^ 64)) as [->|]; [done|].
  apply Z.mod_small. lia.
Qed.

(** Overlap is a common byte. *)
Lemma IopRangesOverlap_spec a an b bn : range_ok a an -> range_ok b bn ->
  IopRangesOverlap a an b bn = true <-> exists x, in_range x a an /\ in_range x b bn.
Proof.
  intros Ha Hb. unfold IopRangesOverlap, in_range.
  rewrite !IopLockEnd_cases by done. destruct Ha as (? & ? & ? & ? & ?), Hb as (? & ? & ? & ? & ?).
  destruct (Z.eqb_spec an 0), (Z.eqb_spec bn 0); cbn [orb]; try (split; [done|intros (x & ? & ?); lia]).
  destruct (Z.eqb_spec (a + an) (2 ^ 64)), (Z.eqb_spec (b + bn) (2 ^ 64)); cbn [Z.eqb negb andb].
  - split; [intros _; exists (Z.max a b); lia|done].
  - rewrite (proj2 (Z.eqb_neq (b + bn) 0)) by lia. cbn [negb andb]. destruct (Z.leb_spec (b + bn) a).
    + split; [done|intros (x & ? & ?); lia].
    + split; [intros _; exists (Z.max a b); lia|done].
  - rewrite (proj2 (Z.eqb_neq (a + an) 0)) by lia. cbn [negb andb]. destruct (Z.leb_spec (a + an) b).
    + split; [done|intros (x & ? & ?); lia].
    + split; [intros _; exists (Z.max a b); lia|done].
  - rewrite (proj2 (Z.eqb_neq (a + an) 0)), (proj2 (Z.eqb_neq (b + bn) 0)) by lia. cbn [negb andb].
    destruct (Z.leb_spec (a + an) b), (Z.leb_spec (b + bn) a); try (split; [done|intros (x & ? & ?); lia]).
    split; [intros _; exists (Z.max a b); lia|done].
Qed.

(** Two locks that cannot be held together: they share a byte and one of them is
    exclusive. *)
Definition clash l k : Prop :=
  (exists x, in_range x (offset l) (lockLength l) /\ in_range x (offset k) (lockLength k)) /\
  (exclusive l = true \/ exclusive k = true).

Definition lock_ok l : Prop := range_ok (offset l) (lockLength l).

(** The lock table: well-formed ranges, no two of which clash. *)
Record locks_ok locks : Prop := {
  lk_ranges : Forall lock_ok locks;
  lk_apart : forall i j l k, (i < j)%nat -> locks !! i = Some l -> locks !! j = Some k -> ~ clash l k;
}.

Lemma clash_sym l k : clash l k -> clash k l.
Proof. intros [(x & ? & ?) ?]. split; [by exists x|tauto]. Qed.

Lemma locks_ok_nil : locks_ok [].
Proof. split; [constructor|]. intros i j l k _ Hi. by rewrite lookup_nil in Hi. Qed.

Lemma locks_ok_sub locks locks' : sublist locks' locks -> locks_ok locks -> locks_ok locks'.
Proof.
  intros Hs. induction Hs as [|l s1 s2 Hs IH|l s1 s2 Hs IH]; intros [R A]; [apply locks_ok_nil| |].
  - apply Forall_cons in R as [Rl R]. assert (H2 : locks_ok s2).
    { split; [done|]. intros i j x y Hij Hi Hj. apply (A (S i) (S j)); [lia|done..]. }
    destruct (IH H2) as [R' A']. split; [by constructor|]. intros [|i] [|j] x y Hij Hi Hj; try lia.
    + injection Hi as <-. cbn in Hj. apply list_elem_of_lookup_2 in Hj. pose proof (sublist_subseteq _ _ Hs _ Hj) as Hj2. clear Hj. rename Hj2 into Hj.
      apply list_elem_of_lookup_1 in Hj as [j' Hj']. apply (A 0%nat (S j')); [lia|done..].
    + apply (A' i j); [lia|done..].
  - apply IH. apply Forall_cons in R as [_ R]. split; [done|]. intros i j x y Hij Hi Hj. apply (A (S i) (S j)); [lia|done..].
Qed.

Lemma locks_ok_snoc locks l : locks_ok locks -> lock_ok l -> (forall k, k ∈ locks -> ~ clash l k) ->
  locks_ok (locks ++ [l]).
Proof.
  intros [R A] Hl Hk. split; [apply Forall_app; split; [done|by apply Forall_singleton]|]. intros i j x y Hij Hi Hj.
  destruct (decide (j < length locks)%nat) as [Hlt|Hge].
  - rewrite lookup_app_l in Hi, Hj by lia. by apply (A i j).
  - rewrite lookup_app_r in Hj by lia. apply list_lookup_singleton_Some in Hj as [Ej <-].
    rewrite lookup_app_l in Hi by lia. intros H%clash_sym. apply (Hk x); [by eapply list_elem_of_lookup_2|done].
Qed.

Lemma lock_conflicts_spec locks own off len excl : Forall lock_ok locks -> range_ok off len ->
  lock_conflicts locks off len excl = true <-> exists k, k ∈ locks /\ clash (mkIO_FILE_LOCK own off len excl) k.
Proof.
  intros Hl Hr. induction Hl as [|k locks Hk Hl IH]; cbn [lock_conflicts].
  { split; [done|]. intros (k & ?%elem_of_nil & _). done. }
  pose proof (IopRangesOverlap_spec off len (offset k) (lockLength k) Hr Hk) as Ho.
  setoid_rewrite elem_of_cons. destruct (IopRangesOverlap _ _ _ _); cbn [negb].
  - destruct (excl || exclusive k) eqn:Ee.
    + split; [intros _|done]. exists k. split; [by left|]. split; [by apply Ho|]. cbn. by apply orb_true_iff.
    + rewrite IH. apply orb_false_iff in Ee as [Ee1 Ee2]. split.
      * intros (x & Hx & Hc). exists x. split; [by right|done].
      * intros (x & [->|Hx] & Hc); [|by exists x]. destruct Hc as [_ [Hc|Hc]]; cbn in Hc; congruence.
  - rewrite IH. split.
    + intros (x & Hx & Hc). exists x. split; [by right|done].
    + intros (x & [->|Hx] & Hc); [|by exists x]. destruct Hc as [Hc _]. by apply Ho in Hc.
Qed.

Lemma wrap_test off len : is_u64 off -> is_u64 len ->
  negb (IopLockEnd off len =? 0) && (IopLockEnd off len <? off) = false <-> range_ok off len.
Proof.
  unfold is_u64, range_ok, IopLockEnd. intros Ho Hl. rewrite u64_add by done.
  destruct (Z.ltb_spec (off + len) (2 ^ 64)).
  - destruct (Z.eqb_spec (off + len) 0), (Z.ltb_spec (off + len) off); cbn; split; try done; lia.
  - destruct (Z.eqb_spec (off + len - 2 ^ 64) 0), (Z.ltb_spec (off + len - 2 ^ 64) off); cbn; split; try done; lia.
Qed.

Definition is_lock own off len k : Prop := owner k = own /\ offset k = off /\ lockLength k = len.

Lemma unlock_first_spec locks own off len :
  match unlock_first locks own off len with
  | Some locks' => exists pre l post, locks = pre ++ l :: post /\ locks' = pre ++ post /\ is_lock own off len l /\
      forall k, k ∈ pre -> ~ is_lock own off len k
  | None => forall k, k ∈ locks -> ~ is_lock own off len k
  end.
Proof.
  induction locks as [|l locks IH]; cbn [unlock_first]; [by intros k ?%elem_of_nil|].
  assert (Ht : (owner l =? own) && (offset l =? off) && (lockLength l =? len) = true <-> is_lock own off len l).
  { unfold is_lock. rewrite !andb_true_iff, !Z.eqb_eq. tauto. }
  destruct (_ && _).
  - exists [], l, locks. split_and!; [done|done|by apply Ht|by intros k ?%elem_of_nil].
  - assert (Hl : ~ is_lock own off len l) by (intros H; by apply Ht in H).
    destruct (unlock_first locks own off len) as [locks'|]; cbn.
    + destruct IH as (pre & x & post & -> & -> & Hx & Hpre). exists (l :: pre), x, post. split_and!; [done..|].
      intros k [->|Hk]%elem_of_cons; auto.
    + intros k [->|Hk]%elem_of_cons; auto.
Qed.

(** The answer to a request for the lock [l], by the first reason that applies:
    it runs past 2^64, it clashes with a lock that is held, the pool is empty, or
    it is granted and goes last. *)
Inductive lock_answer f l pool : NTSTATUS -> IO_FCB -> Prop :=
  | answer_invalid : ~ lock_ok l -> lock_answer f l pool STATUS_INVALID_PARAMETER f
  | answer_conflict k : lock_ok l -> k ∈ lockList f -> clash l k ->
      lock_answer f l pool STATUS_FILE_LOCK_CONFLICT f
  | answer_memory : lock_ok l -> (forall k, k ∈ lockList f -> ~ clash l k) -> pool = false ->
      lock_answer f l pool STATUS_INSUFFICIENT_RESOURCES f
  | answer_granted : lock_ok l -> (forall k, k ∈ lockList f -> ~ clash l k) -> pool = true ->
      lock_answer f l pool STATUS_SUCCESS (f <| lockList := lockList f ++ [l] |>).

(** The answer to an unlock: the first lock of that owner and range goes. *)
Inductive unlock_answer f own off len : NTSTATUS -> IO_FCB -> Prop :=
  | answer_not_locked : (forall k, k ∈ lockList f -> ~ is_lock own off len k) ->
      unlock_answer f own off len STATUS_RANGE_NOT_LOCKED f
  | answer_unlocked pre l post : lockList f = pre ++ l :: post -> is_lock own off len l ->
      (forall k, k ∈ pre -> ~ is_lock own off len k) ->
      unlock_answer f own off len STATUS_SUCCESS (f <| lockList := pre ++ post |>).

Lemma IopLockRange_spec f own off len excl pool : locks_ok (lockList f) -> is_u64 off -> is_u64 len ->
  let '(status, f') := IopLockRange f own off len excl pool in
  locks_ok (lockList f') /\ lock_answer f (mkIO_FILE_LOCK own off len excl) pool status f'.
Proof.
  intros Hl Ho Hn. unfold IopLockRange. pose proof (wrap_test off len Ho Hn) as Hw. destruct (negb _ && _).
  { split; [done|]. constructor. intros H. by apply Hw in H. }
  assert (Hr : range_ok off len) by (by apply Hw). unfold IopLockConflicts.
  pose proof (lock_conflicts_spec (lockList f) own off len excl (lk_ranges _ Hl) Hr) as Hc.
  destruct (lock_conflicts _ _ _ _).
  { split; [done|]. destruct (proj1 Hc eq_refl) as (k & Hk & Hcl). by apply (answer_conflict _ _ _ k). }
  assert (Hno : forall k, k ∈ lockList f -> ~ clash (mkIO_FILE_LOCK own off len excl) k).
  { intros k Hk Hcl. enough (false = true) by done. apply Hc. by exists k. }
  destruct pool; cbn [negb]; (split; [|by constructor]); [by apply locks_ok_snoc|done].
Qed.

Lemma IopUnlockRange_spec f own off len : locks_ok (lockList f) ->
  let '(status, f') := IopUnlockRange f own off len in
  locks_ok (lockList f') /\ unlock_answer f own off len status f'.
Proof.
  intros Hl. unfold IopUnlockRange. pose proof (unlock_first_spec (lockList f) own off len) as H.
  destruct (unlock_first _ _ _ _) as [locks'|]; [|split; [done|by constructor]].
  destruct H as (pre & l & post & E & -> & Hx & Hpre). split; [|by apply (answer_unlocked _ _ _ _ pre l post)].
  apply (locks_ok_sub (lockList f)); [|done]. rewrite E. apply sublist_app; [done|by apply sublist_cons].
Qed.

(** Trying for [l] until it is answered.  A conflict naps unless the caller asked
    to fail at once; a nap that fails ends the service with its status; after a
    nap that succeeds the request is made again, of the table as it is then. *)
Inductive attempts l pool (failImmediately : bool) :
    LOCK_STATE -> list (NTSTATUS * LOCK_STATE) -> NTSTATUS -> LOCK_STATE -> Prop :=
  | attempt_answered s naps status f' : lock_answer (fcb s) l pool status f' ->
      (status <> STATUS_FILE_LOCK_CONFLICT \/ failImmediately = true) ->
      attempts l pool failImmediately s naps status (s <| fcb := f' |>)
  | attempt_cut s napStatus s' naps : lock_answer (fcb s) l pool STATUS_FILE_LOCK_CONFLICT (fcb s) ->
      failImmediately = false -> napStatus <> STATUS_SUCCESS ->
      attempts l pool failImmediately s ((napStatus, s') :: naps) napStatus s'
  | attempt_again s s1 naps status s' : lock_answer (fcb s) l pool STATUS_FILE_LOCK_CONFLICT (fcb s) ->
      failImmediately = false -> attempts l pool failImmediately s1 naps status s' ->
      attempts l pool failImmediately s ((STATUS_SUCCESS, s1) :: naps) status s'.

(** Still waiting: at every attempt the range was taken. *)
Definition starved l pool (failImmediately : bool) (s : LOCK_STATE) (naps : list (NTSTATUS * LOCK_STATE)) : Prop :=
  failImmediately = false /\ Forall (fun nap => fst nap = STATUS_SUCCESS) naps /\
  Forall (fun s => lock_answer (fcb s) l pool STATUS_FILE_LOCK_CONFLICT (fcb s)) (s :: map snd naps).

Lemma lock_retry_spec own off len excl pool failImmediately naps : is_u64 off -> is_u64 len ->
  Forall (fun nap => locks_ok (lockList (fcb (snd nap)))) naps -> forall s, locks_ok (lockList (fcb s)) ->
  let l := mkIO_FILE_LOCK own off len excl in
  match lock_retry s own off len excl pool failImmediately naps with
  | Ok (status, s') => locks_ok (lockList (fcb s')) /\ attempts l pool failImmediately s naps status s'
  | OutOfFuel => starved l pool failImmediately s naps
  | _ => False
  end.
Proof.
  intros Ho Hn. induction naps as [|[st s1] naps IH]; intros Hnaps s Hl l; cbn [lock_retry];
    pose proof (IopLockRange_spec (fcb s) own off len excl pool Hl Ho Hn) as H;
    destruct (IopLockRange _ _ _ _ _ _) as [status f']; destruct H as [Hl' Ha];
    destruct (Z.eqb_spec status STATUS_FILE_LOCK_CONFLICT) as [->|Hne]; cbn [negb orb];
    try (split; [done|constructor; [done|by left]]);
    (assert (f' = fcb s) as -> by (by inversion Ha)); (destruct failImmediately; [by split; [|constructor; [|right]]|]).
  - split_and!; [done|constructor|]. by constructor.
  - apply Forall_cons in Hnaps as [H1 Hnaps]. destruct (Z.eqb_spec st STATUS_SUCCESS) as [->|Hst]; cbn [negb].
    2: { split; [done|by constructor]. }
    specialize (IH Hnaps s1 H1). cbv zeta in IH. destruct (lock_retry _ _ _ _ _ _ _ _) as [[status s']|m|m|]; [|done|done|].
    + destruct IH as [? ?]. split; [done|by constructor].
    + destruct IH as (_ & F1 & F2). split_and!; [done|by constructor|]. by constructor.
Qed.

(** The first of the two captures that fails. *)
Definition captured (e : lock_environment) (status : NTSTATUS) : Prop :=
  status = fst (le_offset e) /\ NT_SUCCESS (fst (le_offset e)) = false \/
  status = fst (le_length e) /\ NT_SUCCESS (fst (le_offset e)) = true.

Lemma captured_status e : captured e (if NT_SUCCESS (fst (le_offset e)) then fst (le_length e) else fst (le_offset e)).
Proof. unfold captured. destruct (NT_SUCCESS (le_offset e).1) eqn:E; [by right|by left]. Qed.

(** The caller's event is set when the lock was granted and the handle is good. *)
Definition announced a e (status : NTSTATUS) (s s' : LOCK_STATE) : Prop :=
  if NT_SUCCESS status && negb (la_event a =? 0) && NT_SUCCESS (fst (le_event e))
  then exists previous machine, KeSetEvent (ke s) (snd (le_event e)) = Ok (previous, machine) /\
    s' = s <| ke := machine |>
  else s' = s.

(** The lock NtLockFile asks for. *)
Definition wanted_lock a e : IO_FILE_LOCK :=
  mkIO_FILE_LOCK (snd (le_file e)) (u64 (snd (le_offset e))) (u64 (snd (le_length e))) (la_exclusive a).

(** The request reaches the lock table. *)
Record lock_reached a e : Prop := {
  lr_bare : la_apc a = 0 /\ la_iosb a = 0 /\ la_key a = 0;
  lr_range : la_byteOffset a <> 0 /\ la_length a <> 0;
  lr_captured : NT_SUCCESS (fst (le_offset e)) = true /\ NT_SUCCESS (fst (le_length e)) = true;
  lr_file : NT_SUCCESS (fst (le_file e)) = true;
  lr_plain : le_isDirectory e = false;
}.

(** Why it does not, in the order the service asks. *)
Inductive lock_refused a e : NTSTATUS -> Prop :=
  | refused_unbuilt : la_apc a <> 0 \/ la_iosb a <> 0 \/ la_key a <> 0 -> lock_refused a e STATUS_NOT_IMPLEMENTED
  | refused_no_range : la_apc a = 0 /\ la_iosb a = 0 /\ la_key a = 0 -> la_byteOffset a = 0 \/ la_length a = 0 ->
      lock_refused a e STATUS_ACCESS_VIOLATION
  | refused_capture status : la_apc a = 0 /\ la_iosb a = 0 /\ la_key a = 0 ->
      la_byteOffset a <> 0 /\ la_length a <> 0 -> captured e status -> NT_SUCCESS status = false ->
      lock_refused a e status
  | refused_file : la_apc a = 0 /\ la_iosb a = 0 /\ la_key a = 0 -> la_byteOffset a <> 0 /\ la_length a <> 0 ->
      NT_SUCCESS (fst (le_offset e)) = true /\ NT_SUCCESS (fst (le_length e)) = true ->
      NT_SUCCESS (fst (le_file e)) = false -> lock_refused a e (fst (le_file e))
  | refused_directory : la_apc a = 0 /\ la_iosb a = 0 /\ la_key a = 0 ->
      la_byteOffset a <> 0 /\ la_length a <> 0 ->
      NT_SUCCESS (fst (le_offset e)) = true /\ NT_SUCCESS (fst (le_length e)) = true ->
      NT_SUCCESS (fst (le_file e)) = true -> le_isDirectory e = true ->
      lock_refused a e STATUS_INVALID_DEVICE_REQUEST.

(** NtLockFile, served: the table is asked with a reference on the file held, the
    event is set, and the reference is returned. *)
Definition lock_served s a e naps status s' : Prop :=
  exists s1 s2, attempts (wanted_lock a e) (le_pool e) (la_failImmediately a)
      (s <| fileReferences := fileReferences s + 1 |>) naps status s1 /\
    announced a e status s1 s2 /\ s' = s2 <| fileReferences := fileReferences s1 - 1 |>.

(** NtUnlockFile: the status, the status it writes to the caller's block, and the
    state after. *)
Inductive unlock_served s (iosb byteOffset length key : addr) (probe : NTSTATUS) e :
    NTSTATUS -> option NTSTATUS -> LOCK_STATE -> Prop :=
  | unlock_unbuilt : key <> 0 -> unlock_served s iosb byteOffset length key probe e STATUS_NOT_IMPLEMENTED None s
  | unlock_null : key = 0 -> iosb = 0 \/ byteOffset = 0 \/ length = 0 ->
      unlock_served s iosb byteOffset length key probe e STATUS_ACCESS_VIOLATION None s
  | unlock_probe : key = 0 -> iosb <> 0 /\ byteOffset <> 0 /\ length <> 0 -> NT_SUCCESS probe = false ->
      unlock_served s iosb byteOffset length key probe e probe None s
  | unlock_capture status : key = 0 -> iosb <> 0 /\ byteOffset <> 0 /\ length <> 0 -> NT_SUCCESS probe = true ->
      captured e status -> NT_SUCCESS status = false ->
      unlock_served s iosb byteOffset length key probe e status None s
  | unlock_file : key = 0 -> iosb <> 0 /\ byteOffset <> 0 /\ length <> 0 -> NT_SUCCESS probe = true ->
      NT_SUCCESS (fst (le_offset e)) = true /\ NT_SUCCESS (fst (le_length e)) = true ->
      NT_SUCCESS (fst (le_file e)) = false ->
      unlock_served s iosb byteOffset length key probe e (fst (le_file e)) None s
  | unlock_answered status f' : key = 0 -> iosb <> 0 /\ byteOffset <> 0 /\ length <> 0 -> NT_SUCCESS probe = true ->
      NT_SUCCESS (fst (le_offset e)) = true /\ NT_SUCCESS (fst (le_length e)) = true ->
      NT_SUCCESS (fst (le_file e)) = true ->
      unlock_answer (fcb s) (snd (le_file e)) (u64 (snd (le_offset e))) (u64 (snd (le_length e))) status f' ->
      unlock_served s iosb byteOffset length key probe e status (Some status) (s <| fcb := f' |>).

Lemma NtLockFile_spec s a e naps : locks_ok (lockList (fcb s)) ->
  Forall (fun nap => locks_ok (lockList (fcb (snd nap)))) naps ->
  match NtLockFile s a e naps with
  | Ok (status, s') => locks_ok (lockList (fcb s')) /\
      ((lock_refused a e status /\ s' = s) \/ (lock_reached a e /\ lock_served s a e naps status s'))
  | r => (r = OutOfFuel /\ lock_reached a e /\ starved (wanted_lock a e) (le_pool e) (la_failImmediately a)
      (s <| fileReferences := fileReferences s + 1 |>) naps) \/
    exists status s1, lock_reached a e /\ attempts (wanted_lock a e) (le_pool e) (la_failImmediately a)
        (s <| fileReferences := fileReferences s + 1 |>) naps status s1 /\ NT_SUCCESS status = true /\
      forall previous machine, KeSetEvent (ke s1) (snd (le_event e)) <> Ok (previous, machine)
  end.
Proof.
  intros Hl Hnaps. unfold NtLockFile.
  destruct (Z.eqb_spec (la_apc a) 0) as [E1|E1], (Z.eqb_spec (la_iosb a) 0) as [E2|E2],
    (Z.eqb_spec (la_key a) 0) as [E3|E3]; cbn [negb orb];
    try (split; [done|left; split; [apply refused_unbuilt; tauto|done]]).
  destruct (Z.eqb_spec (la_byteOffset a) 0) as [E4|E4], (Z.eqb_spec (la_length a) 0) as [E5|E5]; cbn [negb orb];
    try (split; [done|left; split; [apply refused_no_range; tauto|done]]).
  pose proof (captured_status e) as Hc.
  destruct (NT_SUCCESS (if NT_SUCCESS (le_offset e).1 then (le_length e).1 else (le_offset e).1)) eqn:Ec; cbn [negb].
  2: { split; [done|]. left. split; [|done]. by apply refused_capture. }
  assert (Hcap : NT_SUCCESS (le_offset e).1 = true /\ NT_SUCCESS (le_length e).1 = true).
  { destruct (NT_SUCCESS (le_offset e).1) eqn:Eo; [done|congruence]. }
  destruct (le_file e) as [st file] eqn:Ef. destruct (NT_SUCCESS st) eqn:Es; cbn [negb].
  2: { split; [done|]. left. split; [|done]. replace st with (fst (le_file e)) by (by rewrite Ef).
       apply refused_file; try done. by rewrite Ef. }
  destruct (le_isDirectory e) eqn:Ed.
  { split; [done|]. left. split; [apply refused_directory; try done; by rewrite Ef|].
    destruct s. cbn. f_equal. lia. }
  assert (Hr : lock_reached a e) by (split; try done; by rewrite Ef).
  set (s0 := s <| fileReferences := _ |>).
  pose proof (lock_retry_spec file (u64 (le_offset e).2) (u64 (le_length e).2) (la_exclusive a) (le_pool e)
    (la_failImmediately a) naps (u64_range _) (u64_range _) Hnaps s0 Hl) as H.
  assert (Hw : wanted_lock a e = mkIO_FILE_LOCK file (u64 (le_offset e).2) (u64 (le_length e).2) (la_exclusive a))
    by (unfold wanted_lock; by rewrite Ef).
  cbv zeta in H. rewrite <- Hw in H. destruct (lock_retry _ _ _ _ _ _ _ _) as [[status s1]|m|m|]; [|done|done|by left].
  destruct H as [Hl1 Ha]. run.
  assert (Hserved : forall s2, announced a e status s1 s2 -> fcb s2 = fcb s1 ->
    fileReferences s2 = fileReferences s1 -> locks_ok (lockList (fcb (s2 <| fileReferences := fileReferences s2 - 1 |>))) /\
    ((lock_refused a e status /\ s2 <| fileReferences := fileReferences s2 - 1 |> = s) \/
     (lock_reached a e /\ lock_served s a e naps status (s2 <| fileReferences := fileReferences s2 - 1 |>)))).
  { intros s2 Hs Hf Hn. split; [by change (fcb (s2 <| fileReferences := fileReferences s2 - 1 |>)) with (fcb s2); rewrite Hf|].
    right. split; [done|]. exists s1, s2. rewrite Hn. by split_and!. }
  unfold announced in Hserved. destruct (NT_SUCCESS status) eqn:Est; cbn [andb] in *; [|run; by apply Hserved].
  destruct (negb (la_event a =? 0)); cbn [andb] in *; [|run; by apply Hserved].
  destruct (le_event e) as [evs body]. cbn [fst snd] in *. destruct (NT_SUCCESS evs); [|run; by apply Hserved].
  run. change (ke (s1 <| eventReferences := eventReferences s1 + 1 |>)) with (ke s1).
  destruct (KeSetEvent (ke s1) body) as [[previous k]|m|m|] eqn:Ek; run;
    [|right; exists status, s1; rewrite Ek; by split_and!..].
  specialize (Hserved (s1 <| ke := k |>)). cbn in *.
  replace (eventReferences s1 + 1 - 1) with (eventReferences s1) by lia.
  apply Hserved; [by exists previous, k|done|done].
Qed.

Lemma NtUnlockFile_spec s iosb byteOffset length key probe e : locks_ok (lockList (fcb s)) ->
  let '(status, written, s') := NtUnlockFile s iosb byteOffset length key probe e in
  locks_ok (lockList (fcb s')) /\ unlock_served s iosb byteOffset length key probe e status written s'.
Proof.
  intros Hl. unfold NtUnlockFile.
  destruct (Z.eqb_spec key 0) as [E0|E0]; cbn [negb]; [|split; [done|by constructor]].
  destruct (Z.eqb_spec iosb 0) as [E1|E1], (Z.eqb_spec byteOffset 0) as [E2|E2], (Z.eqb_spec length 0) as [E3|E3];
    cbn [orb]; try (split; [done|apply unlock_null; tauto]).
  destruct (NT_SUCCESS probe) eqn:Ep; cbn [negb]; [|split; [done|by constructor]].
  pose proof (captured_status e) as Hc.
  destruct (NT_SUCCESS (if NT_SUCCESS (le_offset e).1 then (le_length e).1 else (le_offset e).1)) eqn:Ec; cbn [negb].
  2: { split; [done|]. by apply unlock_capture. }
  assert (Hcap : NT_SUCCESS (le_offset e).1 = true /\ NT_SUCCESS (le_length e).1 = true).
  { destruct (NT_SUCCESS (le_offset e).1) eqn:Eo; [done|congruence]. }
  destruct (le_file e) as [st file] eqn:Ef. destruct (NT_SUCCESS st) eqn:Es; cbn [negb].
  2: { split; [done|]. replace st with (fst (le_file e)) by (by rewrite Ef). apply unlock_file; try done. by rewrite Ef. }
  set (s0 := s <| fileReferences := _ |>).
  pose proof (IopUnlockRange_spec (fcb s) file (u64 (le_offset e).2) (u64 (le_length e).2) Hl) as H.
  change (fcb s0) with (fcb s). destruct (IopUnlockRange _ _ _ _) as [status f']. destruct H as [Hl' Ha].
  split; [done|]. replace (s0 <| fcb := f' |> <| fileReferences := fileReferences s0 - 1 |>) with (s <| fcb := f' |>).
  2: { unfold s0. destruct s. cbn. f_equal. lia. }
  apply unlock_answered; try done; by rewrite Ef.
Qed.

(** C16. The lock table never holds two locks that clash: ranges with a common
    byte, one of them exclusive.  IopLockRange answers a request by the first
    reason that applies: past 2^64, a clash with a lock that is held, no memory;
    otherwise it is granted and goes last.  IopUnlockRange removes exactly the
    first lock of that owner and range, and says when there is none; closing an
    open removes all of its locks and no other.  NtLockFile refuses a call for the
    reasons listed, in their order, and leaves the state as it was; else it asks
    the table for the caller's range, in the caller's mode and the file's name,
    naps on a conflict only when the caller waits, ends with the status of a nap
    that fails, sets the caller's event exactly when the lock is granted and the
    handle is good, and returns its references; it keeps napping only while
    every attempt finds the range taken.  NtUnlockFile does the same for an
    unlock and writes the answer to the caller's block. *)
Theorem byte_locks_correct f own off len excl pool :
  locks_ok (lockList f) -> is_u64 off -> is_u64 len ->
  (let '(status, f') := IopLockRange f own off len excl pool in
   locks_ok (lockList f') /\ lock_answer f (mkIO_FILE_LOCK own off len excl) pool status f') /\
  (let '(status, f') := IopUnlockRange f own off len in
   locks_ok (lockList f') /\ unlock_answer f own off len status f') /\
  (locks_ok (lockList (IopReleaseAllLocks f own)) /\
   exists kept, IopReleaseAllLocks f own = f <| lockList := kept |> /\ sublist kept (lockList f) /\
     forall k, k ∈ kept <-> k ∈ lockList f /\ owner k <> own) /\
  (forall s a e naps, fcb s = f -> Forall (fun nap => locks_ok (lockList (fcb (snd nap)))) naps ->
     match NtLockFile s a e naps with
     | Ok (status, s') => locks_ok (lockList (fcb s')) /\
         ((lock_refused a e status /\ s' = s) \/ (lock_reached a e /\ lock_served s a e naps status s'))
     | r => (r = OutOfFuel /\ lock_reached a e /\ starved (wanted_lock a e) (le_pool e) (la_failImmediately a)
         (s <| fileReferences := fileReferences s + 1 |>) naps) \/
       exists status s1, lock_reached a e /\ attempts (wanted_lock a e) (le_pool e) (la_failImmediately a)
           (s <| fileReferences := fileReferences s + 1 |>) naps status s1 /\ NT_SUCCESS status = true /\
         forall previous machine, KeSetEvent (ke s1) (snd (le_event e)) <> Ok (previous, machine)
     end) /\
  (forall s iosb byteOffset length key probe e, fcb s = f ->
     let '(status, written, s') := NtUnlockFile s iosb byteOffset length key probe e in
     locks_ok (lockList (fcb s')) /\ unlock_served s iosb byteOffset length key probe e status written s').
Proof.
  intros Hl Ho Hn. split; [by apply IopLockRange_spec|]. split; [by apply IopUnlockRange_spec|]. split_and!.
  - apply (locks_ok_sub (lockList f)); [|done]. apply sublist_filter.
  - eexists. split; [done|]. split; [apply sublist_filter|]. intros k. rewrite list_elem_of_filter. tauto.
  - intros s a e naps <- Hnaps. by apply NtLockFile_spec.
  - intros s iosb byteOffset length key probe e <-. by apply NtUnlockFile_spec.
Qed.
End locks.

(** A shared lock on the last 16 bytes of the address space, granted; then the
    service asked for an exclusive one over it, told to wait: the first nap finds
    the lock still there, the second finds the table empty. *)
Definition example_fcb (locks : list IO_FILE_LOCK) : IO_FCB :=
  mkIO_FCB (mkIO_SHARE_ACCESS 0 0 0 0 0 0 0) locks false 0 0 0.

Definition example_lock_state (locks : list IO_FILE_LOCK) : LOCK_STATE :=
  mkLOCK_STATE ex_ke (example_fcb locks) 1 0.

Lemma byte_locks_correct_witness :
  let held := [mkIO_FILE_LOCK 1 (2 ^ 64 - 16) 16 false] in
  let a := mklock_arguments 0 0 0 0x1000 0x1008 0 false true in
  let e := mklock_environment (STATUS_SUCCESS, -8) (STATUS_SUCCESS, 4) (STATUS_SUCCESS, 2) false (STATUS_SUCCESS, 0) true in
  let naps := [(STATUS_SUCCESS, example_lock_state held); (STATUS_SUCCESS, example_lock_state [])] in
  IopLockRange (example_fcb []) 1 (2 ^ 64 - 16) 16 false true = (STATUS_SUCCESS, example_fcb held) /\
  locks_ok held /\
  exists s', NtLockFile (example_lock_state held) a e naps = Ok (STATUS_SUCCESS, s') /\
    lockList (fcb s') = [mkIO_FILE_LOCK 2 (2 ^ 64 - 8) 4 true] /\
    lock_served (example_lock_state held) a e naps STATUS_SUCCESS s'.
Proof.
  intros held a e naps. split; [by vm_compute|].
  assert (H0 : is_u64 (2 ^ 64 - 16) /\ is_u64 16) by (unfold is_u64; lia).
  destruct (byte_locks_correct (example_fcb []) 1 (2 ^ 64 - 16) 16 false true) as (H & _);
    [apply locks_ok_nil|apply H0|apply H0|]. destruct H as [Hh _]. split; [exact Hh|].
  destruct (byte_locks_correct (example_fcb held) 1 (2 ^ 64 - 16) 16 false true) as (_ & _ & _ & H & _);
    [exact Hh|apply H0|apply H0|].
  specialize (H (example_lock_state held) a e naps eq_refl).
  destruct (NtLockFile (example_lock_state held) a e naps) as [[status s']|m|m|] eqn:E.
  - vm_compute in E. injection E as <- <-.
    destruct H as [_ H]; [constructor; [exact Hh|constructor; [apply locks_ok_nil|constructor]]|].
    eexists. split; [done|]. split; [done|]. destruct H as [[H _]|[_ H]]; [|exact H].
    exfalso. inversion H as [Hx|Hx Hy|st Hx Hy Hz Hw| |]; cbn in *; try lia; destruct Hz as [[Hz Hz']|[Hz Hz']]; cbn in *; congruence.
  - vm_compute in E. done.
  - vm_compute in E. done.
  - vm_compute in E. done.
Defined.

(** ** Share modes: what the counters promise *)

Section sharing.

(** An open that is counted: what it was granted, and what it shares. *)
Record open_mode := mkopen_mode { access : Z; share : Z }.

Implicit Types (f : IO_FCB) (o k : open_mode) (opens : list open_mode) (g : open_mode -> bool).

Definition reads o : bool := fst (fst (IopShareRelevantAccess (access o))).
Definition writes o : bool := snd (fst (IopShareRelevantAccess (access o))).
Definition deletes o : bool := snd (IopShareRelevantAccess (access o)).
Definition counted o : bool := reads o || writes o || deletes o.
Definition shares_read o : bool := has (share o) FILE_SHARE_READ.
Definition shares_write o : bool := has (share o) FILE_SHARE_WRITE.
Definition shares_delete o : bool := has (share o) FILE_SHARE_DELETE.

(** How many opens have the property. *)
Fixpoint tally g opens : Z :=
  match opens with
  | [] => 0
  | o :: opens' => b2z (g o) + tally g opens'
  end.

(** The seven counters are what they say of a set of opens. *)
Definition counters opens : IO_SHARE_ACCESS :=
  mkIO_SHARE_ACCESS (tally counted opens) (tally reads opens) (tally writes opens) (tally deletes opens)
    (tally (fun o => counted o && shares_read o) opens) (tally (fun o => counted o && shares_write o) opens)
    (tally (fun o => counted o && shares_delete o) opens).

Definition accounts f opens : Prop := shareAccess f = counters opens.

(** [o] wants something [k] does not share. *)
Definition refused o k : bool :=
  (reads o && negb (shares_read k)) || (writes o && negb (shares_write k)) || (deletes o && negb (shares_delete k)).

(** Two opens may coexist. Opens without data access are exempt. *)
Definition compatible o k : Prop := counted o = true -> counted k = true -> refused o k = false /\ refused k o = false.

Lemma tally_range g opens : 0 <= tally g opens <= Z.of_nat (length opens).
Proof. induction opens as [|o opens IH]; cbn [tally length]; [done|]. destruct (g o); cbn [b2z]; lia. Qed.

Lemma tally_app g pre post : tally g (pre ++ post) = tally g pre + tally g post.
Proof. induction pre as [|o pre IH]; [done|]. cbn [app tally]. rewrite IH. lia. Qed.

Lemma tally_zero g opens : (tally g opens =? 0) = forallb (fun o => negb (g o)) opens.
Proof.
  induction opens as [|o opens IH]; [done|]. cbn [tally forallb]. rewrite <- IH. pose proof (tally_range g opens).
  destruct (g o); cbn [b2z negb andb]; [apply Z.eqb_neq; lia|done].
Qed.

Lemma tally_all g g' opens : (tally (fun o => g o && g' o) opens =? tally g opens) =
  forallb (fun o => negb (g o) || g' o) opens.
Proof.
  assert (Hle : tally (fun o => g o && g' o) opens <= tally g opens).
  { induction opens as [|o opens IH]; [done|]. cbn [tally]. destruct (g o), (g' o); cbn [b2z andb]; lia. }
  induction opens as [|o opens IH]; [done|]. cbn [tally forallb] in *.
  assert (Hle' : tally (fun o => g o && g' o) opens <= tally g opens).
  { clear. induction opens as [|o opens IH]; [done|]. cbn [tally]. destruct (g o), (g' o); cbn [b2z andb]; lia. }
  rewrite <- (IH Hle'). destruct (g o), (g' o); cbn [b2z andb negb orb];
    [apply eq_true_iff_eq; rewrite !Z.eqb_eq; lia|apply Z.eqb_neq; lia|apply eq_true_iff_eq; rewrite !Z.eqb_eq; lia..].
Qed.

(** The ladder, on the opens themselves. *)
Definition share_ladder f opens o (disposition options : Z) : NTSTATUS :=
  if existsb (fun k => counted k && refused o k) opens then STATUS_SHARING_VIOLATION
  else if (negb (writableSectionCount f =? 0) && negb (shares_write o)) ||
          (negb (imageSectionCount f =? 0) && has (access o) FILE_WRITE_DATA) then STATUS_SHARING_VIOLATION
  else if negb (imageSectionCount f =? 0) && has options FILE_DELETE_ON_CLOSE then STATUS_CANNOT_DELETE
  else if negb (sectionCount f =? 0) && IopDispositionTruncates disposition then STATUS_USER_MAPPED_FILE
  else if counted o && existsb (fun k => refused k o) opens then STATUS_SHARING_VIOLATION
  else STATUS_SUCCESS.

Lemma existsb_split (p q r : open_mode -> bool) opens : existsb (fun k => p k || q k || r k) opens =
  existsb p opens || existsb q opens || existsb r opens.
Proof.
  induction opens as [|k opens IH]; [done|]. cbn [existsb]. rewrite IH.
  destruct (p k), (q k), (r k), (existsb p opens), (existsb q opens), (existsb r opens); done.
Qed.

Lemma existsb_guard (b : bool) (p : open_mode -> bool) opens : existsb (fun k => b && p k) opens = b && existsb p opens.
Proof. induction opens as [|k opens IH]; [by rewrite andb_false_r|]. cbn [existsb]. rewrite IH. by destruct b, (p k). Qed.

Lemma existsb_forallb (p : open_mode -> bool) opens : negb (forallb (fun k => negb (p k)) opens) = existsb p opens.
Proof. induction opens as [|k opens IH]; [done|]. cbn [existsb forallb]. rewrite <- IH. by destruct (p k). Qed.

Lemma negb_forallb_imp (p q : open_mode -> bool) opens :
  negb (forallb (fun k => negb (p k) || q k) opens) = existsb (fun k => p k && negb (q k)) opens.
Proof. induction opens as [|k opens IH]; [done|]. cbn [existsb forallb]. rewrite <- IH. by destruct (p k), (q k). Qed.

Lemma existsb_ext_eq (p q : open_mode -> bool) opens : (forall k, p k = q k) -> existsb p opens = existsb q opens.
Proof. intros H. induction opens as [|k opens IH]; [done|]. cbn [existsb]. by rewrite H, IH. Qed.

Lemma IoCheckShareAccess_spec f opens o disposition options : accounts f opens ->
  IoCheckShareAccess (access o) (share o) disposition options f = share_ladder f opens o disposition options.
Proof.
  intros Hacc. unfold IoCheckShareAccess, share_ladder.
  change (IopShareRelevantAccess (access o)) with (reads o, writes o, deletes o). cbv iota beta zeta.
  red in Hacc. rewrite !Hacc. unfold counters. cbn [openCount readers writers deleters sharedRead sharedWrite sharedDelete].
  rewrite !tally_all, !tally_zero. fold (shares_read o) (shares_write o) (shares_delete o).
  assert (E1 : reads o && negb (forallb (fun k => negb (counted k) || shares_read k) opens) ||
    writes o && negb (forallb (fun k => negb (counted k) || shares_write k) opens) ||
    deletes o && negb (forallb (fun k => negb (counted k) || shares_delete k) opens) =
    existsb (fun k => counted k && refused o k) opens).
  { rewrite (existsb_ext_eq _ (fun k => (reads o && (counted k && negb (shares_read k))) ||
      (writes o && (counted k && negb (shares_write k))) || (deletes o && (counted k && negb (shares_delete k))))).
    2: { intros k. unfold refused. destruct (counted k), (reads o), (writes o), (deletes o), (shares_read k), (shares_write k), (shares_delete k); done. }
    by rewrite existsb_split, !existsb_guard, !negb_forallb_imp. }
  rewrite E1. destruct (existsb (fun k => counted k && refused o k) opens); [done|].
  destruct (_ || _); [done|]. destruct (_ && _); [done|]. destruct (_ && _); [done|].
  unfold counted. destruct (reads o || writes o || deletes o) eqn:Ec.
  - assert (negb (reads o) && negb (writes o) && negb (deletes o) = false) as -> by (by destruct (reads o), (writes o), (deletes o)).
    cbn [andb]. rewrite !existsb_forallb.
    rewrite (existsb_ext_eq (fun k => refused k o) (fun k => (negb (shares_read o) && reads k) ||
      (negb (shares_write o) && writes k) || (negb (shares_delete o) && deletes k))).
    2: { intros k. unfold refused. by rewrite (andb_comm (reads k)), (andb_comm (writes k)), (andb_comm (deletes k)). }
    by rewrite existsb_split, !existsb_guard.
  - assert (negb (reads o) && negb (writes o) && negb (deletes o) = true) as -> by (by destruct (reads o), (writes o), (deletes o)).
    done.
Qed.

Lemma counters_cons o opens : counters (o :: opens) =
  mkIO_SHARE_ACCESS (b2z (counted o) + tally counted opens) (b2z (reads o) + tally reads opens)
    (b2z (writes o) + tally writes opens) (b2z (deletes o) + tally deletes opens)
    (b2z (counted o && shares_read o) + tally (fun o => counted o && shares_read o) opens)
    (b2z (counted o && shares_write o) + tally (fun o => counted o && shares_write o) opens)
    (b2z (counted o && shares_delete o) + tally (fun o => counted o && shares_delete o) opens).
Proof. done. Qed.

Lemma counters_middle pre k post : counters (pre ++ k :: post) = counters (k :: pre ++ post).
Proof. unfold counters. rewrite !tally_app. cbn [tally]. rewrite !tally_app. f_equal; lia. Qed.

Lemma uncounted o : counted o = false -> reads o = false /\ writes o = false /\ deletes o = false.
Proof. unfold counted. by destruct (reads o), (writes o), (deletes o). Qed.

Lemma b2z_range (b : bool) : 0 <= b2z b <= 1.
Proof. destruct b; cbn; lia. Qed.

Lemma IoSetShareAccess_spec f opens o : accounts f opens -> Z.of_nat (length opens) < 2 ^ 32 - 1 ->
  accounts (IoSetShareAccess (access o) (share o) f) (o :: opens).
Proof.
  unfold accounts, IoSetShareAccess. intros Hacc Hlen.
  change (IopShareRelevantAccess (access o)) with (reads o, writes o, deletes o). cbv iota beta zeta.
  rewrite counters_cons. fold (shares_read o) (shares_write o) (shares_delete o).
  assert (Hr : forall g (b : bool), u32 (tally g opens + b2z b) = b2z b + tally g opens).
  { intros g b. pose proof (tally_range g opens). pose proof (b2z_range b). rewrite u32_small; [lia|unfold is_u32; lia]. }
  destruct (counted o) eqn:Ec.
  - assert (negb (reads o) && negb (writes o) && negb (deletes o) = false) as ->.
    { unfold counted in Ec. by destruct (reads o), (writes o), (deletes o). }
    cbn [shareAccess set_field andb]. rewrite Hacc. cbn [counters openCount readers writers deleters sharedRead sharedWrite sharedDelete].
    change (tally counted opens + 1) with (tally counted opens + b2z true). by rewrite !Hr.
  - destruct (uncounted o Ec) as (-> & -> & ->). cbn. by rewrite Hacc.
Qed.

Lemma IoRemoveShareAccess_spec f opens o : accounts f (o :: opens) -> Z.of_nat (length opens) < 2 ^ 32 - 1 ->
  returns (IoRemoveShareAccess (access o) (share o) f) (fun f' => f' = f <| shareAccess := counters opens |>).
Proof.
  unfold accounts, IoRemoveShareAccess. intros Hacc Hlen.
  change (IopShareRelevantAccess (access o)) with (reads o, writes o, deletes o). cbv iota beta zeta.
  fold (shares_read o) (shares_write o) (shares_delete o). rewrite counters_cons in Hacc.
  assert (Hr : forall g (b : bool), u32 (b2z b + tally g opens - b2z b) = tally g opens).
  { intros g b. pose proof (tally_range g opens). rewrite u32_small; [lia|unfold is_u32; lia]. }
  destruct (counted o) eqn:Ec.
  - assert (negb (reads o) && negb (writes o) && negb (deletes o) = false) as ->.
    { unfold counted in Ec. by destruct (reads o), (writes o), (deletes o). }
    rewrite Hacc. cbn [openCount readers writers deleters sharedRead sharedWrite sharedDelete andb].
    pose proof (tally_range counted opens). rewrite (proj2 (Z.ltb_lt 0 _)) by (cbn [b2z]; lia). run. cbn [returns].
    pose proof (Hr counted true) as E. cbn [b2z] in E |- *. by rewrite E, !Hr.
  - destruct (uncounted o Ec) as (E1 & E2 & E3). rewrite E1, E2, E3 in Hacc |- *. cbn in Hacc |- *.
    destruct f. cbn in *. by rewrite Hacc.
Qed.

(** Every two of the opens may coexist. *)
Definition sharing_ok opens : Prop := ForallOrdPairs compatible opens.

Lemma pairs_middle {A} (R : A -> A -> Prop) pre x post : ForallOrdPairs R (pre ++ x :: post) -> ForallOrdPairs R (pre ++ post).
Proof.
  induction pre as [|y pre IH]; cbn; intros H; inversion H as [|? ? Hy Hrest]; subst; [done|].
  constructor; [|by apply IH]. apply Forall_app in Hy as [? [_ ?]%Forall_cons]. by apply Forall_app.
Qed.

Lemma share_ladder_sound f opens o disposition options :
  share_ladder f opens o disposition options = STATUS_SUCCESS -> Forall (compatible o) opens.
Proof.
  unfold share_ladder. destruct (existsb _ opens) eqn:E1; [done|].
  destruct (_ || _); [done|]. destruct (_ && _); [done|]. destruct (_ && _); [done|].
  destruct (counted o && _) eqn:E2; [done|]. intros _. apply Forall_forall. intros k Hk Ho Hc.
  apply list_elem_of_In in Hk. rewrite Ho in E2. cbn [andb] in E2. split.
  - destruct (refused o k) eqn:Er; [|done]. enough (true = false) by done. rewrite <- E1. symmetry.
    apply existsb_exists. exists k. by rewrite Hc, Er.
  - destruct (refused k o) eqn:Er; [|done]. enough (true = false) by done. rewrite <- E2. symmetry.
    apply existsb_exists. by exists k.
Qed.

(** C17. The share counters stand for the set of opens with data access, and no
    two of these want what the other does not share.  An open is checked by the
    documented ladder, on the opens themselves: what it wants against what others
    share, then what live sections hold, then what it shares against what others
    hold; granted and counted, it keeps all this true, and so does closing any
    open, which never underflows.  Counting an open and then removing it, or taking a
    section's hold and releasing it, changes nothing. *)
Theorem share_modes_correct f opens o disposition options sectionAttributes pageProtection :
  accounts f opens -> sharing_ok opens -> Z.of_nat (length opens) < 2 ^ 32 - 1 ->
  0 <= sectionCount f < 2 ^ 31 - 1 -> 0 <= imageSectionCount f < 2 ^ 31 - 1 -> 0 <= writableSectionCount f < 2 ^ 31 - 1 ->
  let status := IoCheckShareAccess (access o) (share o) disposition options f in
  let f' := IoSetShareAccess (access o) (share o) f in
  status = share_ladder f opens o disposition options /\
  (status = STATUS_SUCCESS -> accounts f' (o :: opens) /\ sharing_ok (o :: opens)) /\
  IoRemoveShareAccess (access o) (share o) f' = Ok f /\
  (forall pre k post, opens = pre ++ k :: post ->
     returns (IoRemoveShareAccess (access k) (share k) f) (fun f'' =>
       accounts f'' (pre ++ post) /\ sharing_ok (pre ++ post) /\ lockList f'' = lockList f)) /\
  IopSectionBackingReleased (section_acquired f sectionAttributes pageProtection) sectionAttributes pageProtection =
    Ok (f, sectionCount f =? 0).
Proof.
  intros Hacc Hok Hlen H1 H2 H3 status f'.
  pose proof (IoCheckShareAccess_spec f opens o disposition options Hacc) as E. fold status in E.
  pose proof (IoSetShareAccess_spec f opens o Hacc Hlen) as Hset. fold f' in Hset. split_and!.
  - done.
  - rewrite E. intros Hs%share_ladder_sound. split; [done|by constructor].
  - pose proof (IoRemoveShareAccess_spec f' opens o Hset Hlen) as (f2 & -> & ->)%returns_alt. f_equal.
    unfold f', IoSetShareAccess. red in Hacc. rewrite <- Hacc. destruct (IopShareRelevantAccess (access o)) as [[r w] d].
    destruct (_ && _); by destruct f.
  - intros pre k post ->. red in Hacc. rewrite counters_middle in Hacc. rewrite length_app in Hlen. cbn [length] in Hlen.
    eapply returns_mono; [apply (IoRemoveShareAccess_spec f (pre ++ post) k Hacc); rewrite length_app; lia|].
    intros f2 ->. split_and!; [done| |done]. by eapply pairs_middle.
  - unfold IopSectionBackingReleased, section_acquired. cbn [sectionCount imageSectionCount writableSectionCount set_field].
    rewrite !s32_small by (unfold is_s32; pose proof (b2z_range (has sectionAttributes SEC_IMAGE));
      pose proof (b2z_range (IopSectionHoldsWrite sectionAttributes pageProtection)); lia).
    rewrite (proj2 (Z.ltb_lt 0 (sectionCount f + 1))) by lia. run.
    destruct (has sectionAttributes SEC_IMAGE); cbn [b2z].
    all: rewrite ?(proj2 (Z.ltb_lt 0 (imageSectionCount f + 1))) by lia; run; cbn [writableSectionCount set_field].
    all: destruct (IopSectionHoldsWrite sectionAttributes pageProtection); cbn [b2z].
    all: rewrite ?(proj2 (Z.ltb_lt 0 (writableSectionCount f + 1))) by lia; run.
    all: destruct f; cbn; rewrite ?Z.add_simpl_r, ?Z.add_0_r; done.
Qed.
End sharing.

(** Somebody reads and shares reading; a writer is refused, a reader admitted. *)
Definition ex_fcb : IO_FCB :=
  IoSetShareAccess FILE_READ_DATA FILE_SHARE_READ (IopInitializeFcb (mkIO_FCB (mkIO_SHARE_ACCESS 9 9 9 9 9 9 9) [] true 3 0 0)).

Lemma share_modes_correct_witness :
  IoCheckShareAccess FILE_WRITE_DATA FILE_SHARE_READ 1 0 ex_fcb = STATUS_SHARING_VIOLATION /\
  IoCheckShareAccess FILE_READ_DATA FILE_SHARE_READ 1 0 ex_fcb = STATUS_SUCCESS /\
  IoRemoveShareAccess FILE_READ_DATA 0 (IoSetShareAccess FILE_READ_DATA 0 ex_fcb) = Ok ex_fcb.
Proof.
  split; [by vm_compute|]. split; [by vm_compute|].
  apply (share_modes_correct ex_fcb [mkopen_mode FILE_READ_DATA FILE_SHARE_READ] (mkopen_mode FILE_READ_DATA 0) 1 0 0 1).
  - by vm_compute.
  - repeat constructor.
  - by vm_compute.
  - by vm_compute.
  - by vm_compute.
  - by vm_compute.
Defined.
