(* ===== verification/Atom.v ===== *)
(** * Atom: the global atom table (kernel/ps/atom.c).

    Integral atoms, the case-insensitive table of string atoms, and the four
    services.  What a user pointer holds and how its probe answers are arguments:
    they belong to the user-memory layer. *)

From S2P Require Import Prelude NtStatus Bytes Rtl.

Definition PSP_ATOM_MIN_STR : Z := 0xC000.
Definition PSP_ATOM_MAX_LEN : Z := 255.
Definition PSP_ATOM_MAX : Z := 1024.

(** [name]: the units before the NUL of the pooled copy; [None] for a free slot. *)
Record PSP_ATOM_ENTRY := mkPSP_ATOM_ENTRY {
  name : option (list Z);
  lengthBytes : Z;
  referenceCount : Z;
}.

#[export] Instance eta_PSP_ATOM_ENTRY : Eta PSP_ATOM_ENTRY := {| eta_expand := fun e =>
  mkPSP_ATOM_ENTRY (name e) (lengthBytes e) (referenceCount e) |}.

(** PspAtomTable, its [PSP_ATOM_MAX] entries in order. *)
Abbreviation atom_table := (list PSP_ATOM_ENTRY).

Definition PspAtomTable : atom_table := replicate (Z.to_nat PSP_ATOM_MAX) (mkPSP_ATOM_ENTRY None 0 0).

(** ** Integral atoms *)

(** The digits loop: the value, modulo 2^16, and what is left to read. *)
Fixpoint parse_digits (atom : Z) (units : list Z) : Z * list Z :=
  match units with
  | c :: units' =>
      if (0x30 <=? c) && (c <=? 0x39) then parse_digits (u16 (atom * 10 + u16 (c - 0x30))) units' else (atom, units)
  | [] => (atom, [])
  end.

(** [done:], with the value found. *)
Definition integral_done (atom : Z) : NTSTATUS * option Z :=
  let atom := if PSP_ATOM_MIN_STR <=? atom then 0 else atom in
  (if atom =? 0 then STATUS_INVALID_PARAMETER else STATUS_SUCCESS, Some atom).

(** [units]: the [chars] units the pointer leads to.  The second component is
    what is written to [*atomOut], if anything is. *)
Definition PspIsIntegralAtom (pointer : addr) (units : list Z) (chars : Z) : NTSTATUS * option Z :=
  if negb (Z.shiftr pointer 16 =? 0) then
    if chars =? 0 then (STATUS_OBJECT_NAME_INVALID, None) else
    let not_integral := if PSP_ATOM_MAX_LEN <? chars then (STATUS_INVALID_PARAMETER, None) else (STATUS_MORE_ENTRIES, None) in
    match units with
    | c :: rest =>
        if c =? 0x23 then
          let '(atom, unread) := parse_digits 0 rest in
          if bool_decide (unread = []) && negb (bool_decide (rest = [])) then integral_done atom else not_integral
        else not_integral
    | [] => not_integral
    end
  else
    let atom := u16 pointer in
    if PSP_ATOM_MIN_STR <=? atom then (STATUS_INVALID_PARAMETER, None) else integral_done atom.

(** The decimal digits, most significant first; [fuel] bounds the do-while. *)
Fixpoint decimal_digits (fuel : nat) (value : Z) : list Z :=
  match fuel with
  | O => []
  | S fuel' => (if value / 10 =? 0 then [] else decimal_digits fuel' (value / 10)) ++ [0x30 + value mod 10]
  end.

Definition integral_units (atom : Z) : list Z := 0x23 :: decimal_digits 8 atom.

(** The units written to the buffer, NUL included, and the byte length returned. *)
Definition PspIntegralAtomName (capacityBytes atom : Z) : list Z * Z :=
  let ascii := integral_units atom in
  let chars := Z.of_nat (length ascii) in
  let capacity := capacityBytes / 2 in
  let copied := if capacity <=? chars then capacity - 1 else chars in
  (if capacity =? 0 then [] else take (Z.to_nat copied) ascii ++ [0], chars * 2).

(** ** The table *)

Definition counted_name (units : list Z) (bytes : Z) : UNICODE_STRING := mkUNICODE_STRING (u16 bytes) (u16 bytes) (Some units).

(** The scan from slot [i]: the slot found. *)
Fixpoint find_entry (table : atom_table) (units : list Z) (bytes i : Z) : outcome (option Z) :=
  match table with
  | [] => Ok None
  | e :: table' =>
      match name e with
      | None => find_entry table' units bytes (i + 1)
      | Some n =>
          if negb (lengthBytes e =? bytes) then find_entry table' units bytes (i + 1) else
          r ← RtlCompareUnicodeString (counted_name n bytes) (counted_name units bytes) true;
          if r =? 0 then Ok (Some i) else find_entry table' units bytes (i + 1)
      end
  end.

(** The slot plus one, 0 when absent. *)
Definition PspFindAtomEntry (table : atom_table) (units : list Z) (bytes : Z) : outcome Z :=
  r ← find_entry table units bytes 0;
  Ok (match r with Some i => i + 1 | None => 0 end).

(** The first free slot, [PSP_ATOM_MAX] when there is none. *)
Fixpoint free_slot (table : atom_table) : Z :=
  match table with
  | [] => 0
  | e :: table' => match name e with None => 0 | Some _ => 1 + free_slot table' end
  end.

(** What the user's name pointer is worth: the probe, and the units behind it. *)
Record user_name := mkuser_name {
  un_pointer : addr;
  un_probe : NTSTATUS;
  un_units : list Z;
}.

Definition PspCaptureAtomName (user : user_name) (bytes : Z) : outcome (NTSTATUS * list Z) :=
  if negb (NT_SUCCESS (un_probe user)) then Ok (un_probe user, []) else
  if Z.of_nat (length (un_units user)) <? bytes / 2 then Fault "memcpy" else
  Ok (STATUS_SUCCESS, take (Z.to_nat (bytes / 2)) (un_units user)).

(** The table half, once the name is a real one. *)
Definition table_atom (table : atom_table) (kernelName : list Z) (bytes : Z) (add pool : bool)
    : outcome (NTSTATUS * Z * atom_table) :=
  if bytes =? 0 then Ok (STATUS_OBJECT_NAME_INVALID, 0, table) else
  found ← PspFindAtomEntry table kernelName bytes;
  if negb (found =? 0) then
    e ← deref (table !! Z.to_nat (found - 1)) "PspAtomTable";
    let table := if add
      then <[Z.to_nat (found - 1) := e <| referenceCount := u32 (referenceCount e + 1) |>]> table else table in
    Ok (STATUS_SUCCESS, u16 (PSP_ATOM_MIN_STR + found - 1), table)
  else if negb add then Ok (STATUS_OBJECT_NAME_NOT_FOUND, 0, table)
  else
    let slot := free_slot table in
    if slot =? PSP_ATOM_MAX then Ok (STATUS_NO_MEMORY, 0, table)
    else if negb pool then Ok (STATUS_NO_MEMORY, 0, table)
    else Ok (STATUS_SUCCESS, u16 (PSP_ATOM_MIN_STR + slot),
             <[Z.to_nat slot := mkPSP_ATOM_ENTRY (Some kernelName) (u16 bytes) 1]> table).

(** [stack]: the address of the captured name; [probe]: KiProbeForWrite of
    [atomOut].  The second component is what is written there. *)
Definition PspAddOrFindAtom (table : atom_table) (user : user_name) (bytes : Z) (add pool : bool)
    (stack : addr) (probe : NTSTATUS) : outcome (NTSTATUS * option Z * atom_table) :=
  let finish status atom table :=
    if negb (NT_SUCCESS status) then Ok (status, None, table)
    else if negb (NT_SUCCESS probe) then Ok (probe, None, table)
    else Ok (status, Some atom, table) in
  if Z.shiftr (un_pointer user) 16 =? 0 then
    let '(status, atom) := PspIsIntegralAtom (un_pointer user) [] 0 in
    finish status (default 0 atom) table
  else
    let chars := bytes / 2 in
    let bytes := u32 (chars * 2) in
    if PSP_ATOM_MAX_LEN <? chars then Ok (STATUS_INVALID_PARAMETER, None, table) else
    '(status, kernelName) ← PspCaptureAtomName user bytes;
    if negb (NT_SUCCESS status) then Ok (status, None, table) else
    let '(status, atom) := PspIsIntegralAtom stack kernelName chars in
    if status =? STATUS_MORE_ENTRIES then
      '(status, atom, table) ← table_atom table kernelName bytes add pool;
      finish status atom table
    else finish status (default 0 atom) table.

Definition NtAddAtom (table : atom_table) (user : user_name) (length : Z) (pool : bool) (stack : addr) (probe : NTSTATUS) :=
  PspAddOrFindAtom table user length true pool stack probe.
Definition NtFindAtom (table : atom_table) (user : user_name) (length : Z) (stack : addr) (probe : NTSTATUS) :=
  PspAddOrFindAtom table user length false true stack probe.

Definition NtDeleteAtom (table : atom_table) (atom : Z) : outcome (NTSTATUS * atom_table) :=
  if atom =? 0 then Ok (STATUS_INVALID_HANDLE, table) else
  if atom <? PSP_ATOM_MIN_STR then Ok (STATUS_SUCCESS, table) else
  let index := atom - PSP_ATOM_MIN_STR in
  if PSP_ATOM_MAX <=? index then Ok (STATUS_INVALID_HANDLE, table) else
  e ← deref (table !! Z.to_nat index) "PspAtomTable";
  match name e with
  | None => Ok (STATUS_INVALID_HANDLE, table)
  | Some _ =>
      let count := u32 (referenceCount e - 1) in
      if count =? 0 then Ok (STATUS_SUCCESS, <[Z.to_nat index := mkPSP_ATOM_ENTRY None 0 0]> table)
      else Ok (STATUS_SUCCESS, <[Z.to_nat index := e <| referenceCount := count |>]> table)
  end.

Definition sizeof_ATOM_BASIC_INFORMATION : Z := 8.

(** What NtQueryInformationAtom writes: the name's units from [Name] on, the
    three fields, the length returned. *)
Record atom_information := mkatom_information {
  ai_name : list Z;
  ai_nameLength : Z;
  ai_referenceCount : Z;
  ai_pinned : Z;
  ai_returnLength : option Z;
}.

Definition NtQueryInformationAtom (table : atom_table) (atom : Z) (basicClass : bool) (length : Z) (probe : NTSTATUS)
    (returnLength : addr) (returnProbe : NTSTATUS) : outcome (NTSTATUS * option atom_information) :=
  if negb basicClass then Ok (STATUS_INVALID_INFO_CLASS, None) else
  if length <? sizeof_ATOM_BASIC_INFORMATION then Ok (STATUS_INVALID_PARAMETER, None) else
  if negb (NT_SUCCESS probe) then Ok (probe, None) else
  let capacityBytes := length - sizeof_ATOM_BASIC_INFORMATION in
  let finish status info nameBytes :=
    if negb (returnLength =? 0) then
      if negb (NT_SUCCESS returnProbe) then Ok (returnProbe, Some info)
      else Ok (status, Some (mkatom_information (ai_name info) (ai_nameLength info) (ai_referenceCount info)
                 (ai_pinned info) (Some (u32 (sizeof_ATOM_BASIC_INFORMATION + nameBytes)))))
    else Ok (status, Some info) in
  if atom <? PSP_ATOM_MIN_STR then
    if atom =? 0 then Ok (STATUS_INVALID_PARAMETER, None) else
    let '(written, bytes) := PspIntegralAtomName capacityBytes atom in
    let nameLength := u16 bytes in
    finish (if negb (capacityBytes =? 0) then STATUS_SUCCESS else STATUS_BUFFER_TOO_SMALL)
      (mkatom_information written nameLength 1 1 None) (if negb (capacityBytes =? 0) then nameLength else 0)
  else
    let index := atom - PSP_ATOM_MIN_STR in
    if PSP_ATOM_MAX <=? index then Ok (STATUS_INVALID_HANDLE, None) else
    e ← deref (table !! Z.to_nat index) "PspAtomTable";
    match name e with
    | None => Ok (STATUS_INVALID_HANDLE, None)
    | Some n =>
        let copied := if lengthBytes e <? capacityBytes then lengthBytes e else capacityBytes in
        if negb (copied =? 0) then
          finish STATUS_SUCCESS
            (mkatom_information (take (Z.to_nat (copied / 2)) n ++ [0]) (u16 copied) (u16 (referenceCount e)) 0 None) copied
        else
          finish STATUS_BUFFER_TOO_SMALL
            (mkatom_information [] (lengthBytes e) (u16 (referenceCount e)) 0 None) (lengthBytes e)
    end.

(** ** What the table promises *)

Section table.
Implicit Types (table : atom_table) (e : PSP_ATOM_ENTRY) (units n k : list Z) (a c : Z) (i j : nat).

Definition fold_name n : list Z := unit_key true <$> n.

(** A slot in use: a name of 1 to 255 units, its length and its count. *)
Record entry_ok e n : Prop := {
  eo_name : name e = Some n;
  eo_chars : (1 <= length n <= 255)%nat;
  eo_units : Forall is_u16 n;
  eo_bytes : lengthBytes e = 2 * Z.of_nat (length n);
  eo_count : 1 <= referenceCount e < 2 ^ 32;
}.

(** 1024 slots; no two names in use differ only in case. *)
Record table_ok table : Prop := {
  to_size : length table = Z.to_nat PSP_ATOM_MAX;
  to_entry : forall i e n, table !! i = Some e -> name e = Some n -> entry_ok e n;
  to_distinct : forall i j e e' n n', table !! i = Some e -> table !! j = Some e' -> name e = Some n ->
    name e' = Some n' -> fold_name n = fold_name n' -> i = j;
}.

(** What atom [a] stands for: a folded name and its count. *)
Definition atoms table a : option (list Z * Z) :=
  if PSP_ATOM_MIN_STR <=? a then
    e ← table !! Z.to_nat (a - PSP_ATOM_MIN_STR);
    n ← name e;
    Some (fold_name n, referenceCount e)
  else None.

Lemma counted_ok n : (1 <= length n <= 255)%nat -> Forall is_u16 n ->
  string_ok (counted_name n (2 * Z.of_nat (length n))) /\
  Length (counted_name n (2 * Z.of_nat (length n))) = 2 * Z.of_nat (length n) /\
  contents (counted_name n (2 * Z.of_nat (length n))) = n.
Proof.
  intros Hn Hu. unfold counted_name. assert (E : u16 (2 * Z.of_nat (length n)) = 2 * Z.of_nat (length n)) by (apply u16_small; unfold is_u16; lia).
  rewrite E. assert (Ed : 2 * Z.of_nat (length n) / 2 = Z.of_nat (length n)) by (rewrite Z.mul_comm, Z.div_mul by lia; done).
  split_and!; [|done|].
  - split; cbn [Length Buffer default from_option]; unfold id; [unfold is_u16; lia|rewrite Ed; lia|done].
  - unfold contents. cbn [Length Buffer default from_option]. unfold id. rewrite Ed, Nat2Z.id. by apply take_ge.
Qed.

(** One comparison of the scan. *)
Lemma compare_names n units : (1 <= length n <= 255)%nat -> Forall is_u16 n -> (1 <= length units <= 255)%nat ->
  Forall is_u16 units -> length n = length units ->
  exists r, RtlCompareUnicodeString (counted_name n (2 * Z.of_nat (length units))) (counted_name units (2 * Z.of_nat (length units))) true = Ok r /\
    (r = 0 <-> fold_name n = fold_name units).
Proof.
  intros Hn Hnu Hw Hwu Hlen. replace (counted_name n (2 * Z.of_nat (length units))) with (counted_name n (2 * Z.of_nat (length n))) by (by rewrite Hlen).
  destruct (counted_ok n Hn Hnu) as (O1 & L1 & C1), (counted_ok units Hw Hwu) as (O2 & L2 & C2).
  eexists. rewrite RtlCompareUnicodeString_spec by done. split; [reflexivity|]. rewrite order_zero.
  - unfold string_key. rewrite C1, C2, L1, L2, Hlen. unfold fold_name. tauto.
  - unfold sized, string_key. rewrite length_fmap. by apply contents_length.
  - unfold sized, string_key. rewrite length_fmap. by apply contents_length.
Qed.

Lemma find_entry_spec table units start :
  (forall i e n, table !! i = Some e -> name e = Some n -> entry_ok e n) ->
  (1 <= length units <= 255)%nat -> Forall is_u16 units ->
  exists r, find_entry table units (2 * Z.of_nat (length units)) start = Ok r /\
  match r with
  | Some x => exists i e n, x = start + Z.of_nat i /\ table !! i = Some e /\ name e = Some n /\ fold_name n = fold_name units
  | None => forall i e n, table !! i = Some e -> name e = Some n -> fold_name n <> fold_name units
  end.
Proof.
  revert start. induction table as [|e table IH]; intros start Hok Hw Hwu; cbn [find_entry].
  { exists None. split; [done|]. intros i e n Hi. discriminate Hi. }
  destruct (IH (start + 1)) as (r & Er & Hr); [intros i; apply (Hok (S i))|done..|].
  assert (Hskip : (forall n, name e = Some n -> fold_name n <> fold_name units) ->
    exists r, find_entry table units (2 * Z.of_nat (length units)) (start + 1) = Ok r /\
    match r with
    | Some x => exists i e0 n, x = start + Z.of_nat i /\ (e :: table) !! i = Some e0 /\ name e0 = Some n /\ fold_name n = fold_name units
    | None => forall i e0 n, (e :: table) !! i = Some e0 -> name e0 = Some n -> fold_name n <> fold_name units
    end).
  { intros Hne. exists r. split; [done|]. destruct r as [x|].
    - destruct Hr as (i & e0 & n & -> & ?). exists (S i), e0, n. split; [lia|done].
    - intros [|i] e0 n; [intros [= <-]; apply Hne|apply (Hr i)]. }
  destruct (name e) as [n|] eqn:En; [|by apply Hskip].
  destruct (Hok 0%nat e n eq_refl En) as [_ Hn Hnu Hb _]. rewrite Hb.
  destruct (Z.eqb_spec (2 * Z.of_nat (length n)) (2 * Z.of_nat (length units))); cbn [negb].
  - destruct (compare_names n units Hn Hnu Hw Hwu ltac:(lia)) as (d & -> & Hd). run.
    destruct (Z.eqb_spec d 0) as [->|Hne].
    + exists (Some start). split; [done|]. exists 0%nat, e, n. split_and!; [lia|done|done|by apply Hd].
    + apply Hskip. intros n' [= <-]. by rewrite <- Hd.
  - apply Hskip. intros n' [= <-] Hf. apply (f_equal length) in Hf. unfold fold_name in Hf. rewrite !length_fmap in Hf. lia.
Qed.

Lemma free_slot_spec table : 0 <= free_slot table <= Z.of_nat (length table) /\
  (free_slot table < Z.of_nat (length table) -> exists e, table !! Z.to_nat (free_slot table) = Some e /\ name e = None) /\
  (free_slot table = Z.of_nat (length table) -> forall i e, table !! i = Some e -> name e <> None).
Proof.
  induction table as [|e table (IH1 & IH2 & IH3)]; cbn [free_slot length].
  - split; [done|]. split; [done|]. intros _ i e Hi. discriminate Hi.
  - destruct (name e) as [n|] eqn:En.
    + split; [lia|]. split.
      * intros H. destruct IH2 as (e' & He' & Hn'); [lia|]. exists e'. split; [|done].
        by replace (Z.to_nat (1 + free_slot table)) with (S (Z.to_nat (free_slot table))) by lia.
      * intros H [|i] e' Hi; [injection Hi as <-; congruence|]. apply (IH3 ltac:(lia) i e' Hi).
    + split; [lia|]. split; [intros _; by exists e|lia].
Qed.

(** A slot rewritten: with the same name and another count, a new one, or none. *)
Lemma table_ok_insert table i e : table_ok table -> (forall n, name e = Some n -> entry_ok e n /\
    forall j e' n', table !! j = Some e' -> name e' = Some n' -> fold_name n' = fold_name n -> i = j) ->
  table_ok (<[i := e]> table).
Proof.
  intros [T1 T2 T3] He. split; [by rewrite length_insert| |].
  - intros j e' n Hj Hn. apply list_lookup_insert_Some in Hj as [(<- & <- & _)|[_ Hj]]; [by apply He|by apply (T2 j)].
  - intros j1 j2 e1 e2 n1 n2 H1 H2 Hn1 Hn2 Hf.
    apply list_lookup_insert_Some in H1 as [(<- & <- & _)|[Hne1 H1]];
      apply list_lookup_insert_Some in H2 as [(<- & <- & _)|[Hne2 H2]]; [done| | |by apply (T3 j1 j2 e1 e2 n1 n2)].
    + by apply (proj2 (He n1 Hn1) j2 e2 n2).
    + symmetry. by apply (proj2 (He n2 Hn2) j1 e1 n1).
Qed.

Lemma atoms_insert table i e a : (i < length table)%nat -> 
  atoms (<[i := e]> table) a = if decide (a = PSP_ATOM_MIN_STR + Z.of_nat i)
    then n ← name e; Some (fold_name n, referenceCount e) else atoms table a.
Proof.
  intros Hi. unfold atoms. destruct (decide (a = _)) as [->|Hne].
  - rewrite (proj2 (Z.leb_le _ _)) by lia. replace (Z.to_nat (PSP_ATOM_MIN_STR + Z.of_nat i - PSP_ATOM_MIN_STR)) with i by lia.
    by rewrite list_lookup_insert_eq.
  - destruct (Z.leb_spec PSP_ATOM_MIN_STR a); [|done]. rewrite list_lookup_insert_ne by lia. done.
Qed.

Lemma atoms_slot table i e n : table !! i = Some e -> name e = Some n ->
  atoms table (PSP_ATOM_MIN_STR + Z.of_nat i) = Some (fold_name n, referenceCount e).
Proof.
  intros Hi Hn. unfold atoms. rewrite (proj2 (Z.leb_le _ _)) by lia.
  replace (Z.to_nat (PSP_ATOM_MIN_STR + Z.of_nat i - PSP_ATOM_MIN_STR)) with i by lia. rewrite Hi. cbn. by rewrite Hn.
Qed.

Lemma atoms_inv table a k c : atoms table a = Some (k, c) -> exists i e n, a = PSP_ATOM_MIN_STR + Z.of_nat i /\
  table !! i = Some e /\ name e = Some n /\ fold_name n = k /\ referenceCount e = c.
Proof.
  unfold atoms. destruct (Z.leb_spec PSP_ATOM_MIN_STR a) as [Hle|]; [|done]. intros H.
  destruct (table !! Z.to_nat (a - PSP_ATOM_MIN_STR)) as [e|] eqn:E; [|done]. cbn in H.
  destruct (name e) as [n|] eqn:En; [|done]. injection H as <- <-.
  exists (Z.to_nat (a - PSP_ATOM_MIN_STR)), e, n. split_and!; [lia|done..].
Qed.

Lemma atoms_unique table a1 a2 k c1 c2 : table_ok table -> atoms table a1 = Some (k, c1) -> atoms table a2 = Some (k, c2) -> a1 = a2.
Proof.
  intros T H1 H2. apply atoms_inv in H1 as (i & e & n & -> & Hi & Hn & Hf & _), H2 as (j & e' & n' & -> & Hj & Hn' & Hf' & _).
  f_equal. f_equal. apply (to_distinct _ T i j e e' n n' Hi Hj Hn Hn'). congruence.
Qed.

(** The table after atom [a] was given the meaning [v], every other atom keeping its own. *)
Definition rebound table a (v : option (list Z * Z)) table' : Prop :=
  table_ok table' /\ forall x, atoms table' x = if decide (x = a) then v else atoms table x.

Lemma free_or_full table : table_ok table ->
  ((free_slot table =? PSP_ATOM_MAX) = true /\ forall a, PSP_ATOM_MIN_STR <= a < PSP_ATOM_MIN_STR + PSP_ATOM_MAX -> atoms table a <> None) \/
  ((free_slot table =? PSP_ATOM_MAX) = false /\ exists a, PSP_ATOM_MIN_STR <= a < PSP_ATOM_MIN_STR + PSP_ATOM_MAX /\ atoms table a = None).
Proof.
  intros T. pose proof (to_size _ T) as Hs. destruct (free_slot_spec table) as (H0 & H1 & H2).
  assert (Hm : Z.of_nat (length table) = PSP_ATOM_MAX) by (rewrite Hs; done).
  destruct (Z.eqb_spec (free_slot table) PSP_ATOM_MAX) as [Hf|Hf]; [left|right]; (split; [done|]).
  - intros a Ha. destruct (lookup_lt_is_Some_2 table (Z.to_nat (a - PSP_ATOM_MIN_STR))) as [e He]; [lia|].
    destruct (name e) as [n|] eqn:En; [|by apply (H2 ltac:(lia)) in He].
    unfold atoms. rewrite (proj2 (Z.leb_le _ _)) by lia. rewrite He. cbn. by rewrite En.
  - destruct (H1 ltac:(lia)) as (e & He & Hn). exists (PSP_ATOM_MIN_STR + free_slot table). split; [lia|].
    unfold atoms. rewrite (proj2 (Z.leb_le _ _)) by lia.
    replace (PSP_ATOM_MIN_STR + free_slot table - PSP_ATOM_MIN_STR) with (free_slot table) by lia. rewrite He. cbn. by rewrite Hn.
Qed.

(** The table half on a name of 1 to 255 units. *)
Lemma table_atom_spec table units add pool : table_ok table -> (1 <= length units <= 255)%nat -> Forall is_u16 units ->
  let bytes := 2 * Z.of_nat (length units) in
  (forall a c, atoms table a = Some (fold_name units, c) -> (add = true -> c + 1 < 2 ^ 32) ->
    exists table', table_atom table units bytes add pool = Ok (STATUS_SUCCESS, a, table') /\
      if add then rebound table a (Some (fold_name units, c + 1)) table' else table' = table) /\
  ((forall a c, atoms table a <> Some (fold_name units, c)) ->
    if negb add then table_atom table units bytes add pool = Ok (STATUS_OBJECT_NAME_NOT_FOUND, 0, table)
    else if (free_slot table =? PSP_ATOM_MAX) || negb pool then table_atom table units bytes add pool = Ok (STATUS_NO_MEMORY, 0, table)
    else exists a table', table_atom table units bytes add pool = Ok (STATUS_SUCCESS, a, table') /\
      PSP_ATOM_MIN_STR <= a < PSP_ATOM_MIN_STR + PSP_ATOM_MAX /\ atoms table a = None /\
      rebound table a (Some (fold_name units, 1)) table').
Proof.
  intros T Hw Hu bytes. assert (Hs : length table = 1024%nat) by apply (to_size _ T).
  destruct (find_entry_spec table units 0 (to_entry _ T) Hw Hu) as (r & Er & Hr). fold bytes in Er.
  unfold table_atom, PspFindAtomEntry. rewrite Er. rewrite (proj2 (Z.eqb_neq bytes 0)) by (unfold bytes; lia). run.
  split.
  - intros a c Ha Hc. apply atoms_inv in Ha as (i & e & n & -> & Hi & Hn & Hf & <-).
    destruct r as [x|]; [|by destruct (Hr i e n Hi Hn)]. destruct Hr as (j & e' & n' & -> & Hj & Hn' & Hf').
    assert (j = i) as -> by (apply (to_distinct _ T j i e' e n' n Hj Hi Hn' Hn); congruence).
    assert (e' = e) as -> by congruence. assert (n' = n) as -> by congruence.
    rewrite (proj2 (Z.eqb_neq (0 + Z.of_nat i + 1) 0)) by lia. cbn [negb].
    replace (Z.to_nat (0 + Z.of_nat i + 1 - 1)) with i by lia. rewrite Hi. cbn [deref]. run.
    apply lookup_lt_Some in Hi as Hlt.
    replace (u16 (PSP_ATOM_MIN_STR + (0 + Z.of_nat i + 1) - 1)) with (PSP_ATOM_MIN_STR + Z.of_nat i) by
      (rewrite u16_small; unfold PSP_ATOM_MIN_STR, is_u16; lia).
    eexists. split; [reflexivity|]. destruct add; [|done].
    destruct (to_entry _ T i e n Hi Hn) as [? ? ? Hb Hcnt].
    specialize (Hc eq_refl). rewrite (u32_small (referenceCount e + 1)) by (unfold is_u32; lia). split.
    + apply table_ok_insert; [done|]. intros n0 Hn0. cbn in Hn0. assert (n0 = n) as -> by congruence. split.
      * split; cbn; [done..|lia].
      * intros j' e' n' Hj' Hn'' Hf''. symmetry. apply (to_distinct _ T j' i e' e n' n); done.
    + intros x. rewrite atoms_insert by lia. destruct (decide _); [|done]. cbn. rewrite Hn. cbn. by rewrite Hf.
  - intros Hnone. destruct r as [x|].
    { destruct Hr as (i & e & n & -> & Hi & Hn & Hf). destruct (Hnone (PSP_ATOM_MIN_STR + Z.of_nat i) (referenceCount e)).
      rewrite <- Hf. by apply atoms_slot. }
    cbn [Z.eqb negb]. destruct add; [cbn [negb]|done].
    destruct (Z.eqb_spec (free_slot table) PSP_ATOM_MAX) as [|Hfull]; [done|]. destruct pool; [|done]. cbn [negb orb].
    destruct (free_slot_spec table) as (H0 & H1 & _).
    assert (Hlt : free_slot table < 1024) by (unfold PSP_ATOM_MAX in Hfull; lia). destruct H1 as (e & He & Hn); [lia|].
    exists (PSP_ATOM_MIN_STR + free_slot table). eexists.
    rewrite (u16_small (PSP_ATOM_MIN_STR + _)) by (unfold PSP_ATOM_MIN_STR, is_u16; lia).
    rewrite (u16_small bytes) by (unfold bytes, is_u16; lia).
    split_and!; [done|lia|unfold PSP_ATOM_MAX; lia| |].
    + unfold atoms. rewrite (proj2 (Z.leb_le _ _)) by lia.
      replace (PSP_ATOM_MIN_STR + free_slot table - PSP_ATOM_MIN_STR) with (free_slot table) by lia. rewrite He. cbn. by rewrite Hn.
    + split.
      * apply table_ok_insert; [done|]. cbn. intros n [= <-]. split; [split; cbn; done || lia|].
        intros j e' n' Hj Hn' Hf. by destruct (Hr j e' n' Hj Hn').
      * intros x. rewrite atoms_insert by lia. by rewrite Z2Nat.id by lia.
Qed.
End table.

(** ** Integral names *)

Section integral.
Implicit Types (ds rest units : list Z) (v a : Z) (fuel : nat).

Definition digit (d : Z) : Prop := 0x30 <= d <= 0x39.
Definition digits_value v ds : Z := fold_left (fun v d => v * 10 + (d - 0x30)) ds v.

(** [#] and at least one decimal digit, and nothing else. *)
Definition integral_text units : Prop := exists ds, units = 0x23 :: ds /\ ds <> [] /\ Forall digit ds.

Lemma parse_digits_value v ds : Forall digit ds -> parse_digits (u16 v) ds = (u16 (digits_value v ds), []).
Proof.
  intros H. revert v. induction H as [|d ds Hd Hds IH]; intros v; [done|]. cbn [parse_digits digits_value fold_left].
  unfold digit in Hd. rewrite (proj2 (Z.leb_le 0x30 d)), (proj2 (Z.leb_le d 0x39)) by lia. cbn [andb].
  replace (u16 (u16 v * 10 + u16 (d - 48))) with (u16 (v * 10 + (d - 48))); [apply IH|].
  unfold u16. Z.to_euclidean_division_equations; lia.
Qed.

Lemma parse_digits_rest v ds : snd (parse_digits v ds) = [] -> Forall digit ds.
Proof.
  revert v. induction ds as [|d ds IH]; intros v; [done|]. cbn [parse_digits].
  destruct (Z.leb_spec 0x30 d), (Z.leb_spec d 0x39); cbn [andb]; intros H'; try done.
  constructor; [unfold digit; lia|]. by apply (IH _ H').
Qed.

Lemma integral_text_parse pointer ds : Z.shiftr pointer 16 <> 0 -> ds <> [] -> Forall digit ds ->
  PspIsIntegralAtom pointer (0x23 :: ds) (Z.of_nat (length (0x23 :: ds))) = integral_done (u16 (digits_value 0 ds)).
Proof.
  intros Hp Hne Hds. unfold PspIsIntegralAtom. rewrite (proj2 (Z.eqb_neq (Z.shiftr pointer 16) 0)) by done. cbn [negb].
  rewrite (proj2 (Z.eqb_neq _ 0)) by (cbn [length]; lia). cbn [Z.eqb Pos.eqb].
  change 0 with (u16 0) at 1. rewrite parse_digits_value by done. rewrite bool_decide_true by done.
  by rewrite bool_decide_false.
Qed.

Lemma named_parse pointer units : Z.shiftr pointer 16 <> 0 -> (1 <= length units <= 255)%nat -> ~ integral_text units ->
  PspIsIntegralAtom pointer units (Z.of_nat (length units)) = (STATUS_MORE_ENTRIES, None).
Proof.
  intros Hp Hl Hn. unfold PspIsIntegralAtom. rewrite (proj2 (Z.eqb_neq (Z.shiftr pointer 16) 0)) by done. cbn [negb].
  rewrite (proj2 (Z.eqb_neq _ 0)) by lia. rewrite (proj2 (Z.ltb_ge _ _)) by (unfold PSP_ATOM_MAX_LEN; lia).
  destruct units as [|c ds]; [done|]. destruct (Z.eqb_spec c 0x23) as [->|]; [|done].
  destruct (parse_digits 0 ds) as [v unread] eqn:E. case_bool_decide as Hu; [|done]. case_bool_decide as Hd; [done|].
  destruct Hn. exists ds. split_and!; [done..|]. apply (parse_digits_rest 0). by rewrite E.
Qed.

Lemma digits_value_app v ds d : digits_value v (ds ++ [d]) = digits_value v ds * 10 + (d - 0x30).
Proof. unfold digits_value. by rewrite fold_left_app. Qed.

Lemma decimal_digits_spec fuel v : 0 <= v < 10 ^ Z.of_nat fuel -> (0 < fuel)%nat ->
  let ds := decimal_digits fuel v in
  Forall digit ds /\ ds <> [] /\ digits_value 0 ds = v /\ (length ds <= fuel)%nat.
Proof.
  revert v. induction fuel as [|fuel IH]; intros v Hv Hf; [lia|]. cbn zeta. cbn [decimal_digits].
  assert (Hm : digit (0x30 + v mod 10)) by (unfold digit; Z.to_euclidean_division_equations; lia).
  rewrite digits_value_app, length_app. cbn [length].
  assert (Hp : 10 ^ Z.of_nat (S fuel) = 10 * 10 ^ Z.of_nat fuel) by (rewrite Nat2Z.inj_succ, Z.pow_succ_r; lia).
  destruct (Z.eqb_spec (v / 10) 0) as [Hq|Hq].
  - cbn [app length digits_value fold_left]. split_and!; [by apply Forall_singleton|done| |lia]. Z.to_euclidean_division_equations; lia.
  - destruct fuel as [|fuel']; [cbn in Hv; Z.to_euclidean_division_equations; lia|].
    destruct (IH (v / 10)) as (H1 & H2 & H3 & H4); [Z.to_euclidean_division_equations; lia|lia|].
    rewrite H3. split_and!; [apply Forall_app; split; [done|by apply Forall_singleton]| | |lia].
    + by destruct (decimal_digits (S fuel') (v / 10)).
    + Z.to_euclidean_division_equations; lia.
Qed.

Lemma integral_units_text a : 0 <= a < 2 ^ 16 -> integral_text (integral_units a) /\
  digits_value 0 (tail (integral_units a)) = a /\ (length (integral_units a) <= 9)%nat.
Proof.
  intros Ha. destruct (decimal_digits_spec 8 a) as (H1 & H2 & H3 & H4); [lia|lia|].
  split; [by eexists|]. cbn [integral_units tail length]. split; [done|lia].
Qed.
End integral.

(** An integral atom and its text are one: for every [a] from 1 below 0xC000
    the name the kernel writes ([#] and the decimal digits) parses back to [a],
    and so does the value passed in place of a pointer; the text fits
    a buffer with room for its NUL, is cut to the capacity otherwise, and its full
    length is reported either way.  A text [#] and digits is the atom its value
    has modulo 2^16, refused when that is 0 or not below 0xC000. *)
Theorem integral_atom_roundtrip pointer a :
  Z.shiftr pointer 16 <> 0 -> 1 <= a < PSP_ATOM_MIN_STR ->
  PspIsIntegralAtom pointer (integral_units a) (Z.of_nat (length (integral_units a))) = (STATUS_SUCCESS, Some a) /\
  (forall units chars, PspIsIntegralAtom a units chars = (STATUS_SUCCESS, Some a)) /\
  (forall capacityBytes, 0 <= capacityBytes ->
    let '(written, bytes) := PspIntegralAtomName capacityBytes a in
    bytes = 2 * Z.of_nat (length (integral_units a)) /\ 2 * Z.of_nat (length written) <= capacityBytes /\
    (bytes + 2 <= capacityBytes -> written = integral_units a ++ [0]) /\
    (2 <= capacityBytes < bytes + 2 -> written = take (Z.to_nat (capacityBytes / 2) - 1) (integral_units a) ++ [0])) /\
  (forall ds, ds <> [] -> Forall digit ds -> let v := digits_value 0 ds mod 2 ^ 16 in
    PspIsIntegralAtom pointer (0x23 :: ds) (Z.of_nat (length (0x23 :: ds))) =
      if (0 <? v) && (v <? PSP_ATOM_MIN_STR) then (STATUS_SUCCESS, Some v) else (STATUS_INVALID_PARAMETER, Some 0)).
Proof.
  intros Hp Ha. unfold PSP_ATOM_MIN_STR in Ha.
  assert (Hdone : forall v, 0 <= v -> integral_done v =
    if (0 <? v) && (v <? PSP_ATOM_MIN_STR) then (STATUS_SUCCESS, Some v) else (STATUS_INVALID_PARAMETER, Some 0)).
  { intros v Hv. unfold integral_done. destruct (Z.leb_spec PSP_ATOM_MIN_STR v).
    - rewrite (proj2 (Z.ltb_ge v _)) by done. by rewrite andb_false_r.
    - rewrite (proj2 (Z.ltb_lt v _)) by done. destruct (Z.eqb_spec v 0) as [->|]; [done|]. by rewrite (proj2 (Z.ltb_lt 0 v)) by lia. }
  destruct (integral_units_text a) as ((ds & Hds & Hne & Hdig) & Hv & Hlen); [lia|]. split_and!.
  - rewrite Hds in Hv |- *. rewrite integral_text_parse by done. cbn [tail] in Hv. rewrite Hv, u16_small by (unfold is_u16; lia).
    rewrite Hdone by lia. rewrite (proj2 (Z.ltb_lt 0 a)), (proj2 (Z.ltb_lt a _)) by (unfold PSP_ATOM_MIN_STR; lia). done.
  - intros units chars. unfold PspIsIntegralAtom. rewrite Z.shiftr_div_pow2, Z.div_small by lia. cbn [Z.eqb negb].
    rewrite u16_small by (unfold is_u16; lia). rewrite (proj2 (Z.leb_gt _ _)) by (unfold PSP_ATOM_MIN_STR; lia).
    rewrite Hdone by lia. rewrite (proj2 (Z.ltb_lt 0 a)), (proj2 (Z.ltb_lt a _)) by (unfold PSP_ATOM_MIN_STR; lia). done.
  - intros cap Hcap. unfold PspIntegralAtomName. set (t := integral_units a) in *. split; [lia|].
    destruct (Z.eqb_spec (cap / 2) 0) as [H0|H0].
    { split_and!; [cbn; lia|intros; Z.to_euclidean_division_equations; lia..]. }
    rewrite length_app, length_take. cbn [length].
    destruct (Z.leb_spec (cap / 2) (Z.of_nat (length t))).
    + split_and!; [Z.to_euclidean_division_equations; lia|intros; Z.to_euclidean_division_equations; lia|].
      intros _. do 2 f_equal. lia.
    + split_and!; [Z.to_euclidean_division_equations; lia| |intros; Z.to_euclidean_division_equations; lia].
      intros _. by rewrite take_ge by lia.
  - intros ds' Hne' Hd' v. rewrite integral_text_parse by done.
    assert (Ev : u16 (digits_value 0 ds') = v) by (unfold u16; reflexivity). rewrite Ev. apply Hdone.
    unfold v. apply Z.mod_pos_bound. lia.
Qed.

Lemma integral_atom_roundtrip_witness :
  Z.shiftr 0x10000 16 <> 0 /\ 1 <= 1234 < PSP_ATOM_MIN_STR /\
  PspIsIntegralAtom 0x10000 (integral_units 1234) 5 = (STATUS_SUCCESS, Some 1234).
Proof.
  split; [done|]. split; [unfold PSP_ATOM_MIN_STR; lia|].
  exact (proj1 (integral_atom_roundtrip 0x10000 1234 ltac:(done) ltac:(unfold PSP_ATOM_MIN_STR; lia))).
Defined.

(** ** The services on a real name *)

Section services.
Implicit Types (table : atom_table) (units k : list Z) (a c bytes : Z).

(** A readable user string of 1 to 255 units that is not [#] and digits. *)
Record named (user : user_name) bytes (stack : addr) : Prop := {
  nm_pointer : Z.shiftr (un_pointer user) 16 <> 0;
  nm_probe : un_probe user = STATUS_SUCCESS;
  nm_length : bytes / 2 = Z.of_nat (length (un_units user));
  nm_chars : (1 <= length (un_units user) <= 255)%nat;
  nm_units : Forall is_u16 (un_units user);
  nm_text : ~ integral_text (un_units user);
  nm_stack : Z.shiftr stack 16 <> 0;
}.

(** The two ways out of [PspAddOrFindAtom] once the table half succeeded. *)
Definition answer (probe : NTSTATUS) a table : outcome (NTSTATUS * option Z * atom_table) :=
  if NT_SUCCESS probe then Ok (STATUS_SUCCESS, Some a, table) else Ok (probe, None, table).

Lemma add_or_find_named table user bytes add pool stack probe : named user bytes stack ->
  PspAddOrFindAtom table user bytes add pool stack probe =
  ('(status, a, table') ← table_atom table (un_units user) (2 * Z.of_nat (length (un_units user))) add pool;
   if NT_SUCCESS status then (if NT_SUCCESS probe then Ok (status, Some a, table') else Ok (probe, None, table'))
   else Ok (status, None, table')).
Proof.
  intros [Hp Hpr Hl Hc Hu Ht Hs]. unfold PspAddOrFindAtom, PspCaptureAtomName.
  rewrite (proj2 (Z.eqb_neq (Z.shiftr (un_pointer user) 16) 0)) by done. rewrite Hl.
  rewrite (proj2 (Z.ltb_ge PSP_ATOM_MAX_LEN _)) by (unfold PSP_ATOM_MAX_LEN; lia). rewrite Hpr. cbn [NT_SUCCESS STATUS_SUCCESS Z.leb Z.compare negb].
  rewrite (u32_small (_ * 2)) by (unfold is_u32; lia). rewrite Z.div_mul by lia. rewrite Z.ltb_irrefl. run.
  rewrite Nat2Z.id, take_ge by lia. rewrite named_parse by done. rewrite Z.eqb_refl, (Z.mul_comm _ 2).
  destruct (table_atom _ _ _ _ _) as [[[st a] t']| | |]; [|done..]. run.
  destruct (NT_SUCCESS st), (NT_SUCCESS probe); done.
Qed.

(** Deleting atom [a]: one reference less, the slot freed with the last one. *)
Lemma NtDeleteAtom_spec table a : table_ok table -> 0 < a ->
  match atoms table a with
  | Some (k, c) => exists table', NtDeleteAtom table a = Ok (STATUS_SUCCESS, table') /\
      rebound table a (if c =? 1 then None else Some (k, c - 1)) table'
  | None => NtDeleteAtom table a = Ok (if a <? PSP_ATOM_MIN_STR then STATUS_SUCCESS else STATUS_INVALID_HANDLE, table)
  end.
Proof.
  intros T Ha. assert (Hs : length table = 1024%nat) by apply (to_size _ T). unfold NtDeleteAtom.
  rewrite (proj2 (Z.eqb_neq a 0)) by lia. destruct (Z.ltb_spec a PSP_ATOM_MIN_STR) as [Hlo|Hlo].
  { unfold atoms. by rewrite (proj2 (Z.leb_gt _ _)) by lia. }
  destruct (atoms table a) as [[k c]|] eqn:E.
  - apply atoms_inv in E as (i & e & n & -> & Hi & Hn & Hf & <-). apply lookup_lt_Some in Hi as Hlt.
    rewrite (proj2 (Z.leb_gt _ _)) by (unfold PSP_ATOM_MAX; lia).
    replace (Z.to_nat (PSP_ATOM_MIN_STR + Z.of_nat i - PSP_ATOM_MIN_STR)) with i by lia. rewrite Hi. cbn [deref]. run. rewrite Hn.
    destruct (to_entry _ T i e n Hi Hn) as [? ? ? Hb Hcnt]. rewrite u32_small by (unfold is_u32; lia).
    destruct (Z.eqb_spec (referenceCount e - 1) 0) as [H1|H1]; eexists; (split; [reflexivity|]).
    + rewrite (proj2 (Z.eqb_eq (referenceCount e) 1)) by lia. split; [by apply table_ok_insert|].
      intros x. by rewrite atoms_insert by lia.
    + rewrite (proj2 (Z.eqb_neq (referenceCount e) 1)) by lia. split.
      * apply table_ok_insert; [done|]. intros n0 Hn0. cbn in Hn0. assert (n0 = n) as -> by congruence. split.
        -- split; cbn; [done..|lia].
        -- intros j' e' n' Hj' Hn'' Hf''. symmetry. apply (to_distinct _ T j' i e' e n' n); done.
      * intros x. rewrite atoms_insert by lia. destruct (decide _); [|done]. cbn. rewrite Hn. cbn. by rewrite Hf.
  - destruct (Z.leb_spec PSP_ATOM_MAX (a - PSP_ATOM_MIN_STR)) as [|Hhi]; [done|]. unfold PSP_ATOM_MAX in Hhi.
    destruct (lookup_lt_is_Some_2 table (Z.to_nat (a - PSP_ATOM_MIN_STR))) as [e He]; [lia|].
    rewrite He. cbn [deref]. run. destruct (name e) as [n|] eqn:En; [|done].
    unfold atoms in E. rewrite (proj2 (Z.leb_le _ _)) in E by lia. rewrite He in E. cbn in E. by rewrite En in E.
Qed.

Lemma PspAtomTable_ok : table_ok PspAtomTable /\ forall a, atoms PspAtomTable a = None.
Proof.
  assert (H : forall i e, PspAtomTable !! i = Some e -> name e = None)
    by (intros i e [-> _]%lookup_replicate; done).
  split; [split|].
  - apply length_replicate.
  - intros i e n Hi Hn. apply H in Hi. congruence.
  - intros i j e e' n n' Hi _ Hn. apply H in Hi. congruence.
  - intros a. unfold atoms. destruct (_ <=? _); [|done]. destruct (_ !! _) as [e|] eqn:E; [|done]. apply H in E. cbn. by rewrite E.
Qed.

(** C19. The atom table is a reference-counted map from names, up to case, to
    atoms.  It starts empty; on a well-formed table two atoms never share a name,
    and for every readable name of 1 to 255 units that is not [#] and digits:
    finding answers the atom bound to it or STATUS_OBJECT_NAME_NOT_FOUND and never
    changes the table; adding takes one more reference on the bound atom, or binds
    a fresh atom with one reference, or reports STATUS_NO_MEMORY - exactly when the
    table is full or the pool exhausted - with the table unchanged.  Deleting an
    atom drops one reference and unbinds it with the last; an unbound atom of
    string range is STATUS_INVALID_HANDLE.  No operation touches another atom,
    and all of them keep the table well-formed.  When the result cannot be
    written, the probe's status is returned but a reference added stays. *)
Theorem atom_table_correct table : table_ok table ->
  (table_ok PspAtomTable /\ forall a, atoms PspAtomTable a = None) /\
  (forall a1 a2 k c1 c2, atoms table a1 = Some (k, c1) -> atoms table a2 = Some (k, c2) -> a1 = a2) /\
  (forall user bytes stack probe pool, named user bytes stack -> let k := fold_name (un_units user) in
    (forall a c, atoms table a = Some (k, c) ->
      NtFindAtom table user bytes stack probe = answer probe a table /\
      (c + 1 < 2 ^ 32 -> exists table', NtAddAtom table user bytes pool stack probe = answer probe a table' /\
        rebound table a (Some (k, c + 1)) table')) /\
    ((forall a c, atoms table a <> Some (k, c)) ->
      NtFindAtom table user bytes stack probe = Ok (STATUS_OBJECT_NAME_NOT_FOUND, None, table) /\
      let full := forall a, PSP_ATOM_MIN_STR <= a < PSP_ATOM_MIN_STR + PSP_ATOM_MAX -> atoms table a <> None in
      (pool = false \/ full -> NtAddAtom table user bytes pool stack probe = Ok (STATUS_NO_MEMORY, None, table)) /\
      (pool = true /\ ~ full -> exists a table', NtAddAtom table user bytes pool stack probe = answer probe a table' /\
        PSP_ATOM_MIN_STR <= a < PSP_ATOM_MIN_STR + PSP_ATOM_MAX /\ atoms table a = None /\
        rebound table a (Some (k, 1)) table'))) /\
  (forall a, 0 < a -> match atoms table a with
    | Some (k, c) => exists table', NtDeleteAtom table a = Ok (STATUS_SUCCESS, table') /\
        rebound table a (if c =? 1 then None else Some (k, c - 1)) table'
    | None => NtDeleteAtom table a = Ok (if a <? PSP_ATOM_MIN_STR then STATUS_SUCCESS else STATUS_INVALID_HANDLE, table)
    end).
Proof.
  intros T. split; [apply PspAtomTable_ok|]. split; [intros *; by apply atoms_unique|]. split; [|intros; by apply NtDeleteAtom_spec].
  intros user bytes stack probe pool N k. unfold NtFindAtom, NtAddAtom. rewrite !add_or_find_named by done.
  destruct (table_atom_spec table (un_units user) false true T (nm_chars _ _ _ N) (nm_units _ _ _ N)) as [F1 F2].
  destruct (table_atom_spec table (un_units user) true pool T (nm_chars _ _ _ N) (nm_units _ _ _ N)) as [A1 A2].
  split.
  - intros a c Ha. split.
    + destruct (F1 a c Ha) as (t' & -> & ->); [done|]. reflexivity.
    + intros Hc. destruct (A1 a c Ha) as (t' & -> & Hr); [done|]. exists t'. split; [reflexivity|done].
  - intros Hnone. rewrite (F2 Hnone). split; [reflexivity|]. specialize (A2 Hnone). cbn [negb] in A2.
    destruct (free_or_full table T) as [[Hfull Hno]|[Hfree Hex]].
    + rewrite Hfull in A2. split; [by rewrite A2|]. intros [_ Hf]. by destruct Hf.
    + rewrite Hfree in A2. cbn [orb] in A2. split.
      * intros [->|Hf]; [by rewrite A2|]. destruct Hex as (a & Ha & Hn). by destruct (Hf a Ha).
      * intros [-> _]. cbn [negb] in A2. destruct A2 as (a & t' & -> & ? & ? & ?). exists a, t'. split_and!; [reflexivity|lia..|done|done].
Qed.

(** The name [aB] behind a user pointer. *)
Definition example_user (units : list Z) : user_name := mkuser_name 0x10000 STATUS_SUCCESS units.

Lemma atom_table_correct_witness : table_ok PspAtomTable /\ named (example_user [0x61; 0x42]) 4 0x20000 /\
  (exists a table', NtAddAtom PspAtomTable (example_user [0x61; 0x42]) 4 true 0x20000 STATUS_SUCCESS = answer STATUS_SUCCESS a table' /\
    rebound PspAtomTable a (Some (fold_name [0x61; 0x42], 1)) table').
Proof.
  assert (N : named (example_user [0x61; 0x42]) 4 0x20000).
  { split; [done|done|done|cbn; lia|repeat constructor; unfold is_u16; lia|intros (ds & [=] & _)|done]. }
  split; [apply PspAtomTable_ok|]. split; [exact N|].
  destruct (atom_table_correct PspAtomTable (proj1 PspAtomTable_ok)) as ([_ He] & _ & Hs & _).
  destruct (Hs (example_user [0x61; 0x42]) 4 0x20000 STATUS_SUCCESS true N) as [_ H].
  destruct H as (_ & _ & H); [intros a c; rewrite He; discriminate|].
  destruct H as (a & t' & E & _ & _ & R).
  - split; [done|]. intros Hf. apply (Hf 0xC000); [unfold PSP_ATOM_MIN_STR, PSP_ATOM_MAX; lia|apply He].
  - exists a, t'. split; [exact E|exact R].
Defined.
End services.
