(* ===== verification/SeSd.v ===== *)
(** * SeSd: security identifiers, ACLs and the capture of descriptors
    (kernel/se/sd.c, the layouts of abi/ntseapi.h).

    A pointer into a buffer is the bytes from it to the buffer's end; reading
    past them faults.  User memory is a state that answers copies and may change
    between any two of them. *)

From S2P Require Import Prelude NtStatus Bytes.

Abbreviation bytes := (list Z) (only parsing).

(** ** Reading a buffer *)

Definition read (b : bytes) (o n : Z) : outcome bytes :=
  if (0 <=? o) && (o + n <=? Z.of_nat (length b)) then Ok (take (Z.to_nat n) (drop (Z.to_nat o) b)) else Fault "read".
Definition read8 (b : bytes) (o : Z) : outcome Z := l ← read b o 1; Ok (le_value l).
Definition read16 (b : bytes) (o : Z) : outcome Z := l ← read b o 2; Ok (le_value l).
Definition read32 (b : bytes) (o : Z) : outcome Z := l ← read b o 4; Ok (le_value l).
Definition read64 (b : bytes) (o : Z) : outcome Z := l ← read b o 8; Ok (le_value l).

(** The bytes [l] stored at [o] of a block. *)
Definition store_at (blob : bytes) (o : Z) (l : bytes) : bytes :=
  take (Z.to_nat o) blob ++ l ++ drop (Z.to_nat o + length l) blob.

(** [p + o] of a pointer. *)
Definition at_offset (b : bytes) (o : Z) : bytes := drop (Z.to_nat o) b.

Definition SID_REVISION : Z := 1.
Definition SID_MAX_SUB_AUTHORITIES : Z := 15.
Definition MIN_ACL_REVISION : Z := 2.
Definition MAX_ACL_REVISION : Z := 4.
Definition ACCESS_ALLOWED_ACE_TYPE : Z := 0x0.
Definition ACCESS_DENIED_ACE_TYPE : Z := 0x1.
Definition SYSTEM_AUDIT_ACE_TYPE : Z := 0x2.
Definition SYSTEM_ALARM_ACE_TYPE : Z := 0x3.
Definition SYSTEM_MANDATORY_LABEL_ACE_TYPE : Z := 0x11.
Definition INHERIT_ONLY_ACE : Z := 0x08.
Definition SECURITY_DESCRIPTOR_REVISION : Z := 1.
Definition SE_DACL_PRESENT : Z := 0x4.
Definition SE_SACL_PRESENT : Z := 0x10.
Definition SE_SELF_RELATIVE : Z := 0x8000.
Definition SEP_MAX_ACL_LENGTH : Z := 65535.

(** A SID without its sub-authorities, an ACL, an ACE and its mask. *)
Definition SID_HEADER : Z := 8.
Definition sizeof_ACL : Z := 8.
Definition sizeof_ACE_HEADER : Z := 4.
Definition ACE_SID : Z := 8.

Definition has (mask bits : Z) : bool := negb (Z.land mask bits =? 0).

(** ** Validation *)

Definition SepSidLength (sid : bytes) : outcome Z := count ← read8 sid 1; Ok (SID_HEADER + count * 4).

Definition SepIsValidSid (sid : bytes) (availableLength : Z) : outcome bool :=
  if availableLength <? SID_HEADER then Ok false else
  revision ← read8 sid 0;
  count ← read8 sid 1;
  if negb (revision =? SID_REVISION) || (SID_MAX_SUB_AUTHORITIES <? count) then Ok false else
  length ← SepSidLength sid;
  Ok (length <=? availableLength).

(** The types whose ACEs carry a SID. *)
Definition known_ace (aceType : Z) : bool :=
  (aceType =? ACCESS_ALLOWED_ACE_TYPE) || (aceType =? ACCESS_DENIED_ACE_TYPE) || (aceType =? SYSTEM_AUDIT_ACE_TYPE) ||
  (aceType =? SYSTEM_ALARM_ACE_TYPE) || (aceType =? SYSTEM_MANDATORY_LABEL_ACE_TYPE).

(** The ACE walk, [count] to go. *)
Fixpoint valid_aces (acl : bytes) (aclSize : Z) (count : nat) (offset : Z) : outcome bool :=
  match count with
  | O => Ok true
  | S count' =>
      if aclSize <? offset + sizeof_ACE_HEADER then Ok false else
      let ace := at_offset acl offset in
      size ← read16 ace 2;
      if (size <? sizeof_ACE_HEADER) || (aclSize <? offset + size) then Ok false else
      aceType ← read8 ace 0;
      if negb (known_ace aceType) then Ok false else
      if size <? ACE_SID + SID_HEADER then Ok false else
      valid ← SepIsValidSid (at_offset ace ACE_SID) (size - ACE_SID);
      if negb valid then Ok false else valid_aces acl aclSize count' (offset + size)
  end.

Definition SepIsValidAcl (acl : bytes) (availableLength : Z) : outcome bool :=
  if (availableLength <? sizeof_ACL) || (SEP_MAX_ACL_LENGTH <? availableLength) then Ok false else
  revision ← read8 acl 0;
  if (revision <? MIN_ACL_REVISION) || (MAX_ACL_REVISION <? revision) then Ok false else
  aclSize ← read16 acl 2;
  if (aclSize <? sizeof_ACL) || (availableLength <? aclSize) then Ok false else
  count ← read16 acl 4;
  valid_aces acl aclSize (Z.to_nat count) sizeof_ACL.

(** ** Capture *)

(** User memory: a copy answers with a status or the bytes, and time passes. *)
Class USER (U : Type) := {
  KiCopyFromUser : U -> addr -> Z -> (NTSTATUS + bytes) * U;
}.

Class USER_OK (U : Type) `{USER U} := {
  copy_failed : forall u a n s, (KiCopyFromUser u a n).1 = inl s -> NT_SUCCESS s = false;
  copy_length : forall u a n l, 0 <= n -> (KiCopyFromUser u a n).1 = inr l -> length l = Z.to_nat n /\ Forall is_u8 l;
}.

Record SEP_SECURITY_DESCRIPTOR := mksd {
  control : Z;
  ownerLength : Z;
  groupLength : Z;
  saclLength : Z;
  daclLength : Z;
  SepSdData : bytes;
}.

#[export] Instance eta_sd : Eta SEP_SECURITY_DESCRIPTOR := {| eta_expand := fun s =>
  mksd (control s) (ownerLength s) (groupLength s) (saclLength s) (daclLength s) (SepSdData s) |}.

Definition sizeof_SEP_SECURITY_DESCRIPTOR : Z := 20.

Definition SepSdTotalLength (sd : SEP_SECURITY_DESCRIPTOR) : Z :=
  u32 (sizeof_SEP_SECURITY_DESCRIPTOR + ownerLength sd + groupLength sd + saclLength sd + daclLength sd).

(** The four parts of a caller's descriptor: user addresses, 0 for absent. *)
Record SEP_SD_PARTS := mkparts { parts_control : Z; parts_owner : addr; parts_group : addr; parts_sacl : addr; parts_dacl : addr }.

Section capture.
Context {U : Type} {user : USER U}.
Implicit Types (u : U).

Definition copied {A} (r : (NTSTATUS + bytes) * U) (f : bytes -> U -> outcome ((NTSTATUS + A) * U)) : outcome ((NTSTATUS + A) * U) :=
  match r with
  | (inl status, u) => Ok (inl status, u)
  | (inr l, u) => f l u
  end.

(** [n] bytes of user memory to [cursor] of the pool block [blob]; a copy whose
    destination does not lie inside the block faults. *)
Definition copied_to {A} u (blob : bytes) (cursor : Z) (source : addr) (n : Z) (f : bytes -> U -> outcome ((NTSTATUS + A) * U)) :
    outcome ((NTSTATUS + A) * U) :=
  if (0 <=? cursor) && (cursor + n <=? Z.of_nat (length blob))
  then copied (KiCopyFromUser u source n) (fun l u => f (store_at blob cursor l) u)
  else Fault "KiCopyFromUser: past the end of the destination block".

(** [destination]: the block and the place in it, [None] on the measure pass.
    The part's length and the block as it is then. *)
Definition SepCaptureSid u (userSid : addr) (destination : option (bytes * Z)) (capacity : Z) : outcome ((NTSTATUS + (Z * bytes)) * U) :=
  copied (KiCopyFromUser u userSid SID_HEADER) (fun header u =>
    revision ← read8 header 0;
    count ← read8 header 1;
    if negb (revision =? SID_REVISION) || (SID_MAX_SUB_AUTHORITIES <? count) then Ok (inl STATUS_ACCESS_VIOLATION, u) else
    sidLength ← SepSidLength header;
    match destination with
    | None => Ok (inr (sidLength, []), u)
    | Some (blob, cursor) =>
        if negb (sidLength =? capacity) then Ok (inl STATUS_ACCESS_VIOLATION, u) else
        copied_to u blob cursor userSid sidLength (fun blob u => Ok (inr (sidLength, blob), u))
    end).

Definition SepCaptureAcl u (userAcl : addr) (destination : option (bytes * Z)) (capacity : Z) : outcome ((NTSTATUS + (Z * bytes)) * U) :=
  copied (KiCopyFromUser u userAcl sizeof_ACL) (fun header u =>
    aclSize ← read16 header 2;
    if aclSize <? sizeof_ACL then Ok (inl STATUS_ACCESS_VIOLATION, u) else
    match destination with
    | None => Ok (inr (aclSize, []), u)
    | Some (blob, cursor) =>
        if negb (aclSize =? capacity) then Ok (inl STATUS_ACCESS_VIOLATION, u) else
        copied_to u blob cursor userAcl aclSize (fun blob u =>
          valid ← SepIsValidAcl (at_offset blob cursor) aclSize;
          if negb valid then Ok (inl STATUS_ACCESS_VIOLATION, u) else Ok (inr (aclSize, blob), u))
    end).

Definition sizeof_SECURITY_DESCRIPTOR_RELATIVE : Z := 20.
Definition sizeof_SECURITY_DESCRIPTOR : Z := 40.

(** A self-relative part: an offset from the descriptor, 0 for none. *)
Definition relative_part (base offset : Z) : addr := if offset =? 0 then 0 else u64 (base + offset).

Definition SepResolveSdParts u (userSd : addr) : outcome ((NTSTATUS + SEP_SD_PARTS) * U) :=
  copied (KiCopyFromUser u userSd 4) (fun prefix u =>
    revision ← read8 prefix 0;
    if negb (revision =? SECURITY_DESCRIPTOR_REVISION) then Ok (inl STATUS_UNKNOWN_REVISION, u) else
    c ← read16 prefix 2;
    if has c SE_SELF_RELATIVE then
      copied (KiCopyFromUser u userSd sizeof_SECURITY_DESCRIPTOR_RELATIVE) (fun relative u =>
        c' ← read16 relative 2;
        owner ← read32 relative 4;
        group ← read32 relative 8;
        sacl ← read32 relative 12;
        dacl ← read32 relative 16;
        Ok (inr (mkparts c (relative_part userSd owner) (relative_part userSd group)
          (if has c' SE_SACL_PRESENT then relative_part userSd sacl else 0)
          (if has c' SE_DACL_PRESENT then relative_part userSd dacl else 0)), u))
    else
      copied (KiCopyFromUser u userSd sizeof_SECURITY_DESCRIPTOR) (fun absolute u =>
        c' ← read16 absolute 2;
        owner ← read64 absolute 8;
        group ← read64 absolute 16;
        sacl ← read64 absolute 24;
        dacl ← read64 absolute 32;
        Ok (inr (mkparts c owner group (if has c' SE_SACL_PRESENT then sacl else 0) (if has c' SE_DACL_PRESENT then dacl else 0)), u))).

(** A step of the capture that may end it with a status. *)
Definition step {A B} (m : outcome ((NTSTATUS + A) * U)) (f : A -> U -> outcome ((NTSTATUS + B) * U)) : outcome ((NTSTATUS + B) * U) :=
  '(r, u) ← m;
  match r with
  | inl status => Ok (inl status, u)
  | inr a => f a u
  end.

(** [if (part != 0) capture(part, ...)]: an absent part leaves its length and the
    block alone. *)
Definition capture_part (capture : U -> addr -> option (bytes * Z) -> Z -> outcome ((NTSTATUS + (Z * bytes)) * U)) u (part : addr) (partLength : Z)
    (destination : option (bytes * Z)) (capacity : Z) : outcome ((NTSTATUS + (Z * bytes)) * U) :=
  if part =? 0 then Ok (inr (partLength, match destination with Some (blob, _) => blob | None => [] end), u)
  else capture u part destination capacity.

(** [pool]: whether MiAllocatePool has room for the blob, which it zeroes. *)
Definition SepCaptureSecurityDescriptor u (userSd : addr) (pool : bool) : outcome ((NTSTATUS + SEP_SECURITY_DESCRIPTOR) * U) :=
  step (SepResolveSdParts u userSd) (fun parts u =>
  step (capture_part SepCaptureSid u (parts_owner parts) 0 None 0) (fun '(ownerLength, _) u =>
  step (capture_part SepCaptureSid u (parts_group parts) 0 None 0) (fun '(groupLength, _) u =>
  step (capture_part SepCaptureAcl u (parts_sacl parts) 0 None 0) (fun '(saclLength, _) u =>
  step (capture_part SepCaptureAcl u (parts_dacl parts) 0 None 0) (fun '(daclLength, _) u =>
  if negb pool then Ok (inl STATUS_INSUFFICIENT_RESOURCES, u) else
  let blob := replicate (Z.to_nat (ownerLength + groupLength + saclLength + daclLength)) 0 in
  let cursor := 0 in
  step (capture_part SepCaptureSid u (parts_owner parts) ownerLength (Some (blob, cursor)) ownerLength) (fun '(length, blob) u =>
  let cursor := cursor + length in
  step (capture_part SepCaptureSid u (parts_group parts) groupLength (Some (blob, cursor)) groupLength) (fun '(length, blob) u =>
  let cursor := cursor + length in
  step (capture_part SepCaptureAcl u (parts_sacl parts) saclLength (Some (blob, cursor)) saclLength) (fun '(length, blob) u =>
  let cursor := cursor + length in
  step (capture_part SepCaptureAcl u (parts_dacl parts) daclLength (Some (blob, cursor)) daclLength) (fun '(_, blob) u =>
  Ok (inr (mksd (Z.ldiff (parts_control parts) SE_SELF_RELATIVE) ownerLength groupLength saclLength daclLength blob), u)))))))))).
End capture.

Lemma has_bit a k : 0 <= k -> has a (2 ^ k) = Z.testbit a k.
Proof.
  intros Hk. unfold has. destruct (Z.testbit a k) eqn:E.
  - apply negb_true_iff, Z.eqb_neq. intros H. assert (Hb : Z.testbit (Z.land a (2 ^ k)) k = true) by (by rewrite Z.land_spec, E, Z.pow2_bits_true).
    by rewrite H, Z.bits_0 in Hb.
  - apply negb_false_iff, Z.eqb_eq, Z.bits_inj'. intros i Hi. rewrite Z.land_spec, Z.bits_0. destruct (decide (i = k)) as [->|]; [by rewrite E|].
    rewrite Z.pow2_bits_false by done. apply andb_false_r.
Qed.

Lemma has_ldiff a k : 0 <= k -> has (Z.ldiff a (2 ^ k)) (2 ^ k) = false.
Proof. intros Hk. by rewrite has_bit, Z.ldiff_spec, Z.pow2_bits_true, andb_false_r by done. Qed.

Lemma u16_bits z : is_u16 z <-> 0 <= z /\ forall i, 16 <= i -> Z.testbit z i = false.
Proof. unfold is_u16. split; intros [Hz H]; split; try done; [by apply (bits_bound z 16)|]. by apply (bits_bound z 16). Qed.

Lemma u16_ldiff c m : is_u16 c -> is_u16 (Z.ldiff c m).
Proof.
  rewrite !u16_bits. intros [Hc Hb]. split; [apply Z.ldiff_nonneg; lia|]. intros i Hi. by rewrite Z.ldiff_spec, Hb.
Qed.

Lemma u16_lor c m : is_u16 c -> is_u16 m -> is_u16 (Z.lor c m).
Proof.
  rewrite !u16_bits. intros [Hc Hb] [Hm Hbm]. split; [apply Z.lor_nonneg; lia|]. intros i Hi. by rewrite Z.lor_spec, Hb, Hbm.
Qed.

(** ** What a valid ACL holds *)

(** An ACE, read out: its header, mask and SID. *)
Record ACE := mkACE { ace_type : Z; ace_flags : Z; ace_size : Z; ace_mask : Z; ace_sid : bytes }.

Definition ace_at (ace : bytes) : outcome ACE :=
  aceType ← read8 ace 0;
  flags ← read8 ace 1;
  size ← read16 ace 2;
  mask ← read32 ace 4;
  length ← SepSidLength (at_offset ace ACE_SID);
  sid ← read (at_offset ace ACE_SID) 0 length;
  Ok (mkACE aceType flags size mask sid).

Fixpoint aces_at (acl : bytes) (count : nat) (offset : Z) : outcome (list ACE) :=
  match count with
  | O => Ok []
  | S count' => a ← ace_at (at_offset acl offset); l ← aces_at acl count' (offset + ace_size a); Ok (a :: l)
  end.

Definition acl_aces (acl : bytes) : outcome (list ACE) := count ← read16 acl 4; aces_at acl (Z.to_nat count) sizeof_ACL.

(** A well-formed SID, exactly. *)
Definition sid_ok (sid : bytes) : Prop :=
  exists count rest, sid = SID_REVISION :: count :: rest /\ 0 <= count <= SID_MAX_SUB_AUTHORITIES /\ Z.of_nat (length sid) = SID_HEADER + 4 * count.

Section acls.
Implicit Types (b acl ace sid : bytes) (o n size offset : Z) (count : nat).

Lemma read_Ok b o n : 0 <= o -> 0 <= n -> o + n <= Z.of_nat (length b) ->
  read b o n = Ok (take (Z.to_nat n) (drop (Z.to_nat o) b)) /\ length (take (Z.to_nat n) (drop (Z.to_nat o) b)) = Z.to_nat n.
Proof.
  intros Ho Hn Hl. unfold read. rewrite (proj2 (Z.leb_le 0 o)), (proj2 (Z.leb_le (o + n) _)) by lia. split; [done|].
  rewrite length_take, length_drop. lia.
Qed.

Lemma length_at b o : 0 <= o -> Z.of_nat (length (at_offset b o)) = Z.max 0 (Z.of_nat (length b) - o).
Proof. intros Ho. unfold at_offset. rewrite length_drop. lia. Qed.

Lemma Forall_at b o : Forall is_u8 b -> Forall is_u8 (at_offset b o).
Proof. apply Forall_drop. Qed.

Lemma read_u b o n : Forall is_u8 b -> 0 <= o -> 0 <= n -> o + n <= Z.of_nat (length b) ->
  exists v, (l ← read b o n; Ok (le_value l)) = Ok v /\ 0 <= v < 2 ^ (8 * n).
Proof.
  intros Hb Ho Hn Hl. destruct (read_Ok b o n Ho Hn Hl) as [-> E]. run. eexists. split; [done|].
  pose proof (le_value_bounds (take (Z.to_nat n) (drop (Z.to_nat o) b))) as H. rewrite E, Z2Nat.id in H by done. apply H. by apply Forall_take, Forall_drop.
Qed.

Lemma read8_head x b : read8 (x :: b) 0 = Ok x.
Proof. unfold read8, read. rewrite (proj2 (Z.leb_le 0 0)), (proj2 (Z.leb_le (0 + 1) _)) by (cbn [length]; lia).
  change (Z.to_nat 1) with 1%nat. change (Z.to_nat 0) with 0%nat. cbn [andb]. run. rewrite drop_0, firstn_cons, take_0. cbn [le_value]. by rewrite Z.shiftl_0_l, Z.lor_0_r.
Qed.

Lemma read8_second x y b : read8 (x :: y :: b) 1 = Ok y.
Proof. unfold read8, read. rewrite (proj2 (Z.leb_le 0 1)), (proj2 (Z.leb_le (1 + 1) _)) by (cbn [length]; lia).
  change (Z.to_nat 1) with 1%nat. cbn [andb]. run. rewrite skipn_cons, drop_0, firstn_cons, take_0. cbn [le_value]. by rewrite Z.shiftl_0_l, Z.lor_0_r.
Qed.

(** The SID test never reads past what it is told is there. *)
Lemma SepIsValidSid_spec b n : Forall is_u8 b -> n <= Z.of_nat (length b) ->
  exists v, SepIsValidSid b n = Ok v /\
    (v = true -> exists len, SepSidLength b = Ok len /\ SID_HEADER <= len <= n /\ sid_ok (take (Z.to_nat len) b)).
Proof.
  intros Hb Hn. unfold SepIsValidSid. destruct (Z.ltb_spec n SID_HEADER) as [|Hh]; [by exists false|]. unfold SID_HEADER in *.
  destruct b as [|r [|c b]]; [cbn in Hn; lia..|]. apply Forall_cons in Hb as [Hr Hb]. apply Forall_cons in Hb as [Hc Hb]. rewrite read8_head. run. rewrite read8_second. run.
  destruct (Z.eqb_spec r SID_REVISION) as [->|]; cbn [negb orb]; [|by exists false].
  destruct (Z.ltb_spec SID_MAX_SUB_AUTHORITIES c) as [|Hcm]; [by exists false|]. unfold SepSidLength. rewrite read8_second. run. unfold SID_HEADER in *.
  eexists. split; [done|]. intros Hle%Z.leb_le. exists (8 + c * 4). unfold is_u8, SID_MAX_SUB_AUTHORITIES in *. split_and!; [done|lia|lia|].
  exists c, (take (Z.to_nat (8 + c * 4 - 2)) b). split; [|split; [unfold SID_MAX_SUB_AUTHORITIES; lia|]].
  - replace (Z.to_nat (8 + c * 4)) with (S (S (Z.to_nat (8 + c * 4 - 2)))) by lia. by rewrite !firstn_cons.
  - cbn [length] in *. rewrite !length_take. cbn [length]. unfold SID_HEADER. lia.
Qed.

Lemma sid_ok_length sid : sid_ok sid -> SepSidLength sid = Ok (Z.of_nat (length sid)) /\ SID_HEADER <= Z.of_nat (length sid) <= 68.
Proof.
  intros (c & rest & -> & Hc & Hl). unfold SepSidLength. rewrite read8_second. run. unfold SID_HEADER, SID_MAX_SUB_AUTHORITIES in *. split; [f_equal|]; lia.
Qed.

(** The ACEs of a valid ACL can be read. *)
Definition ace_ok (a : ACE) : Prop := known_ace (ace_type a) = true /\ sid_ok (ace_sid a) /\ 0 <= ace_mask a < 2 ^ 32 /\ ACE_SID + SID_HEADER <= ace_size a.

Lemma valid_aces_spec acl aclSize count offset : Forall is_u8 acl -> aclSize <= Z.of_nat (length acl) -> 0 <= offset ->
  exists v, valid_aces acl aclSize count offset = Ok v /\
    (v = true -> exists l, aces_at acl count offset = Ok l /\ length l = count /\ Forall ace_ok l).
Proof.
  intros Hb Hs. revert offset. induction count as [|count IH]; intros offset Ho; cbn [valid_aces aces_at]; [by exists true; split; [|exists []]|].
  destruct (Z.ltb_spec aclSize (offset + sizeof_ACE_HEADER)) as [|H1]; [by exists false|]. set (ace := at_offset acl offset).
  assert (Ha : Forall is_u8 ace) by by apply Forall_at. assert (Hl : Z.of_nat (length ace) = Z.of_nat (length acl) - offset) by (unfold ace; rewrite length_at by done; unfold sizeof_ACE_HEADER in H1; lia).
  unfold sizeof_ACE_HEADER, ACE_SID, SID_HEADER in *.
  destruct (read_u ace 2 2 Ha ltac:(lia) ltac:(lia) ltac:(lia)) as (size & Esz & Hsz). fold (read16 ace 2) in Esz. rewrite Esz. run.
  destruct (Z.ltb_spec size 4) as [|H2]; cbn [orb]; [by exists false|]. destruct (Z.ltb_spec aclSize (offset + size)) as [|H3]; [by exists false|].
  destruct (read_u ace 0 1 Ha ltac:(lia) ltac:(lia) ltac:(lia)) as (ty & Ety & Hty). fold (read8 ace 0) in Ety. rewrite Ety. run.
  destruct (known_ace ty) eqn:Hk; cbn [negb]; [|by exists false].
  destruct (Z.ltb_spec size (8 + 8)) as [|H4]; [by exists false|].
  destruct (SepIsValidSid_spec (at_offset ace 8) (size - 8)) as (v & -> & Hv); [by apply Forall_at|rewrite length_at by lia; lia|]. run.
  destruct v; cbn [negb]; [|by exists false]. destruct (Hv eq_refl) as (len & Elen & Hlen & Hsid). unfold SID_HEADER in Hlen.
  destruct (IH (offset + size) ltac:(lia)) as (v & -> & Hrec). exists v. split; [done|]. intros ->. destruct (Hrec eq_refl) as (l & El & Hll & Hok).
  unfold ace_at. rewrite Ety. run. destruct (read_u ace 1 1 Ha ltac:(lia) ltac:(lia) ltac:(lia)) as (fl & Efl & _). fold (read8 ace 1) in Efl. rewrite Efl. run. rewrite Esz. run.
  destruct (read_u ace 4 4 Ha ltac:(lia) ltac:(lia) ltac:(lia)) as (mk & Emk & Hmk). fold (read32 ace 4) in Emk. rewrite Emk. run. unfold ACE_SID. rewrite Elen. run.
  destruct (read_Ok (at_offset ace 8) 0 len) as [-> _]; [lia|lia|rewrite length_at by lia; lia|]. run. cbn [ace_size]. rewrite El. run.
  eexists. split; [done|]. split; [cbn; by rewrite Hll|]. constructor; [|done]. split_and!; cbn; try done; lia.
Qed.

Lemma SepIsValidAcl_spec acl n : Forall is_u8 acl -> n <= Z.of_nat (length acl) ->
  exists v, SepIsValidAcl acl n = Ok v /\ (v = true -> exists l, acl_aces acl = Ok l /\ Forall ace_ok l /\ read16 acl 4 = Ok (Z.of_nat (length l))).
Proof.
  intros Hb Hn. unfold SepIsValidAcl. destruct (Z.ltb_spec n sizeof_ACL) as [|H1]; cbn [orb]; [by exists false|]. unfold sizeof_ACL in H1.
  destruct (Z.ltb_spec SEP_MAX_ACL_LENGTH n); [by exists false|].
  destruct (read_u acl 0 1 Hb ltac:(lia) ltac:(lia) ltac:(lia)) as (rev & E & _). fold (read8 acl 0) in E. rewrite E. run. clear E.
  destruct ((rev <? MIN_ACL_REVISION) || (MAX_ACL_REVISION <? rev)); [by exists false|].
  destruct (read_u acl 2 2 Hb ltac:(lia) ltac:(lia) ltac:(lia)) as (size & E & _). fold (read16 acl 2) in E. rewrite E. run. clear E.
  destruct (Z.ltb_spec size sizeof_ACL); cbn [orb]; [by exists false|]. destruct (Z.ltb_spec n size); [by exists false|].
  destruct (read_u acl 4 2 Hb ltac:(lia) ltac:(lia) ltac:(lia)) as (count & E & Hc). fold (read16 acl 4) in E. rewrite E. run.
  destruct (valid_aces_spec acl size (Z.to_nat count) sizeof_ACL Hb ltac:(lia) ltac:(done)) as (v & -> & Hv). exists v. split; [done|]. intros Ht.
  destruct (Hv Ht) as (l & El & Hll & Hok). exists l. unfold acl_aces. rewrite E. run. split_and!; [done|done|]. f_equal. lia.
Qed.

(** The walk stays inside the size it is given: what follows does not matter. *)
Lemma read_extended b rest o n : 0 <= o -> 0 <= n -> o + n <= Z.of_nat (length b) -> read (b ++ rest) o n = read b o n.
Proof.
  intros Ho Hn Hl. destruct (read_Ok b o n Ho Hn Hl) as [-> _]. destruct (read_Ok (b ++ rest) o n) as [-> _]; [done|done|rewrite length_app; lia|].
  rewrite drop_app_le, take_app_le by (rewrite ?length_drop; lia). done.
Qed.

Lemma at_offset_app b rest o : 0 <= o <= Z.of_nat (length b) -> at_offset (b ++ rest) o = at_offset b o ++ rest.
Proof. intros Ho. unfold at_offset. by rewrite drop_app_le by lia. Qed.

Lemma SepIsValidSid_app b rest n : n <= Z.of_nat (length b) -> SepIsValidSid (b ++ rest) n = SepIsValidSid b n.
Proof.
  intros Hn. unfold SepIsValidSid. destruct (Z.ltb_spec n SID_HEADER); [done|]. unfold SepSidLength, SID_HEADER, read8 in *.
  by rewrite !(read_extended b rest) by lia.
Qed.

Lemma valid_aces_app acl rest size count offset : size <= Z.of_nat (length acl) -> 0 <= offset ->
  valid_aces (acl ++ rest) size count offset = valid_aces acl size count offset.
Proof.
  intros Hs. revert offset. induction count as [|count IH]; intros offset Ho; [done|]. cbn [valid_aces].
  destruct (Z.ltb_spec size (offset + sizeof_ACE_HEADER)) as [|H1]; [done|]. unfold sizeof_ACE_HEADER in *.
  rewrite at_offset_app by lia. pose proof (length_at acl offset Ho) as Hl. set (ace := at_offset acl offset) in *.
  unfold read16, read8. rewrite !(read_extended ace rest) by lia. destruct (read ace 2 2) as [l| | |]; [|done..]. run.
  set (n := le_value l). destruct (Z.ltb_spec n 4); cbn [orb]; [done|]. destruct (Z.ltb_spec size (offset + n)); [done|].
  destruct (read ace 0 1) as [ty| | |]; [|done..]. run. destruct (negb (known_ace (le_value ty))); [done|].
  destruct (Z.ltb_spec n (ACE_SID + SID_HEADER)); [done|]. unfold ACE_SID, SID_HEADER in *.
  rewrite at_offset_app, SepIsValidSid_app by (rewrite ?length_at; lia).
  destruct (SepIsValidSid (at_offset ace 8) (n - 8)) as [[]| | |]; [|done..]. run. apply IH. lia.
Qed.

Lemma SepIsValidAcl_app acl rest n : n <= Z.of_nat (length acl) -> SepIsValidAcl (acl ++ rest) n = SepIsValidAcl acl n.
Proof.
  intros Hn. unfold SepIsValidAcl. destruct (Z.ltb_spec n sizeof_ACL); cbn [orb]; [done|]. destruct (SEP_MAX_ACL_LENGTH <? n); [done|].
  unfold sizeof_ACL, read8, read16 in *. rewrite !(read_extended acl rest) by lia. destruct (read acl 0 1) as [r| | |]; [|done..]. run.
  destruct (_ || _); [done|]. destruct (read acl 2 2) as [l| | |]; [|done..]. run.
  destruct (Z.ltb_spec (le_value l) 8); cbn [orb]; [done|]. destruct (Z.ltb_spec n (le_value l)); [done|].
  destruct (read acl 4 2) as [k| | |]; [|done..]. run. apply valid_aces_app; lia.
Qed.

Lemma read_take (l : bytes) (n : nat) o (k : Z) : 0 <= o -> 0 <= k -> o + k <= Z.of_nat n -> (n <= length l)%nat -> read (take n l) o k = read l o k.
Proof.
  intros Ho Hk Hle Hn. destruct (read_Ok (take n l) o k) as [-> _]; [done|done|rewrite length_take; lia|]. destruct (read_Ok l o k) as [-> _]; [done|done|lia|].
  rewrite skipn_firstn_comm, take_take. f_equal. f_equal. lia.
Qed.

Lemma store_at_app pre rest l : store_at (pre ++ rest) (Z.of_nat (length pre)) l = pre ++ l ++ drop (length l) rest.
Proof.
  unfold store_at. rewrite Nat2Z.id, take_app_length, <- drop_drop. by rewrite drop_app_length.
Qed.
End acls.

(** ** What the capture guarantees *)

(** The parts of a descriptor, as the packed data holds them. *)
Definition owner_part (sd : SEP_SECURITY_DESCRIPTOR) : bytes := take (Z.to_nat (ownerLength sd)) (SepSdData sd).
Definition group_part sd : bytes := take (Z.to_nat (groupLength sd)) (at_offset (SepSdData sd) (ownerLength sd)).
Definition sacl_part sd : bytes := take (Z.to_nat (saclLength sd)) (at_offset (SepSdData sd) (ownerLength sd + groupLength sd)).
Definition dacl_part sd : bytes := take (Z.to_nat (daclLength sd)) (at_offset (SepSdData sd) (ownerLength sd + groupLength sd + saclLength sd)).

Definition acl_ok (acl : bytes) : Prop := acl = [] \/ SepIsValidAcl acl (Z.of_nat (length acl)) = Ok true.

(** An ACL whose size field is its length. *)
Definition acl_exact (acl : bytes) : Prop := SepIsValidAcl acl (Z.of_nat (length acl)) = Ok true /\ read16 acl 2 = Ok (Z.of_nat (length acl)).

(** Lengths that add up, whole ACLs, no self-relative bit. *)
Record sd_ok (sd : SEP_SECURITY_DESCRIPTOR) : Prop := {
  sd_lengths : 0 <= ownerLength sd <= 68 /\ 0 <= groupLength sd <= 68 /\ 0 <= saclLength sd < 2 ^ 16 /\ 0 <= daclLength sd < 2 ^ 16;
  sd_data : Z.of_nat (length (SepSdData sd)) = ownerLength sd + groupLength sd + saclLength sd + daclLength sd;
  sd_bytes : Forall is_u8 (SepSdData sd);
  sd_sacl : acl_ok (sacl_part sd);
  sd_dacl : acl_ok (dacl_part sd);
  sd_absolute : has (control sd) SE_SELF_RELATIVE = false;
}.

(** Its SIDs are SIDs, too. *)
Definition sids_ok (sd : SEP_SECURITY_DESCRIPTOR) : Prop :=
  (owner_part sd = [] \/ sid_ok (owner_part sd)) /\ (group_part sd = [] \/ sid_ok (group_part sd)).

(** Its ACLs fill their parts. *)
Definition acls_exact (sd : SEP_SECURITY_DESCRIPTOR) : Prop :=
  (sacl_part sd = [] \/ acl_exact (sacl_part sd)) /\ (dacl_part sd = [] \/ acl_exact (dacl_part sd)).

Section captured.
Context {U : Type} {user : USER U} {laws : USER_OK U}.
Implicit Types (u : U) (a : addr).

(** [m] returns, with a failure status or a value and state as [Q] says. *)
Definition captures {A} (m : outcome ((NTSTATUS + A) * U)) (Q : A -> U -> Prop) : Prop :=
  exists r u, m = Ok (r, u) /\ match r with inl s => NT_SUCCESS s = false | inr v => Q v u end.

Lemma captures_step {A B} m f (P : A -> U -> Prop) (Q : B -> U -> Prop) :
  captures m P -> (forall v u, P v u -> captures (f v u) Q) -> captures (step m f) Q.
Proof. intros (r & u & -> & H) Hf. unfold step. run. destruct r as [s|v]; [by exists (inl s), u|by apply Hf]. Qed.

Lemma captures_copy {A} u a n f (Q : A -> U -> Prop) : 0 <= n ->
  (forall l u', (KiCopyFromUser u a n) = (inr l, u') -> length l = Z.to_nat n -> Forall is_u8 l -> captures (f l u') Q) -> captures (copied (KiCopyFromUser u a n) f) Q.
Proof.
  intros Hn Hf. unfold copied. destruct (KiCopyFromUser u a n) as [[s|l] u'] eqn:E.
  - exists (inl s), u'. split; [done|]. apply (copy_failed u a n). by rewrite E.
  - destruct (copy_length u a n l Hn) as [Hl Hb]; [by rewrite E|]. by apply Hf.
Qed.

Lemma captures_ret {A} (v : A) u (Q : A -> U -> Prop) : Q v u -> captures (Ok (inr v, u)) Q.
Proof. intros H. by exists (inr v), u. Qed.

Lemma captures_fail {A} s u (Q : A -> U -> Prop) : NT_SUCCESS s = false -> captures (Ok (inl s, u)) Q.
Proof. intros H. by exists (inl s), u. Qed.

Lemma captures_mono {A} m (P Q : A -> U -> Prop) : captures m P -> (forall v u, P v u -> Q v u) -> captures m Q.
Proof. intros (r & u & E & H) HQ. exists r, u. split; [done|]. destruct r; [done|by apply HQ]. Qed.

(** What a header says is what the whole says, when nothing moved in between. *)
Definition steady u a : Prop := forall n n' l l' u', 0 <= n <= n' -> KiCopyFromUser u a n = (inr l, u') -> (KiCopyFromUser u' a n').1 = inr l' -> take (Z.to_nat n) l' = l.

(** A copy into the room behind [pre]. *)
Lemma captures_copy_to {A} u a n pre rest f (Q : A -> U -> Prop) : 0 <= n <= Z.of_nat (length rest) ->
  (forall l u', (KiCopyFromUser u a n) = (inr l, u') -> length l = Z.to_nat n -> Forall is_u8 l ->
     captures (f (pre ++ l ++ drop (Z.to_nat n) rest) u') Q) ->
  captures (copied_to u (pre ++ rest) (Z.of_nat (length pre)) a n f) Q.
Proof.
  intros Hn Hf. unfold copied_to. rewrite length_app, (proj2 (Z.leb_le 0 _)), (proj2 (Z.leb_le (_ + n) _)) by lia. cbn [andb].
  apply captures_copy; [lia|]. intros l u' E Hl Hb. rewrite store_at_app, Hl. by apply Hf.
Qed.

Lemma SepCaptureSid_measure u a c : captures (SepCaptureSid u a None c) (fun '(len, _) _ => SID_HEADER <= len <= 68).
Proof.
  unfold SepCaptureSid. apply captures_copy; [done|]. intros h u' E Hl Hb. destruct h as [|r [|n h]]; [done..|].
  rewrite read8_head. run. rewrite read8_second. run. destruct (Z.eqb_spec r SID_REVISION) as [->|]; cbn [negb orb]; [|by apply captures_fail].
  destruct (Z.ltb_spec SID_MAX_SUB_AUTHORITIES n) as [|Hc]; [by apply captures_fail|]. unfold SepSidLength. rewrite read8_second. run.
  apply Forall_cons in Hb as [_ Hb]. apply Forall_cons in Hb as [Hc8 _]. unfold SID_MAX_SUB_AUTHORITIES, is_u8, SID_HEADER in *.
  apply captures_ret. lia.
Qed.

Lemma SepCaptureSid_copy u a pre rest cap : cap <= Z.of_nat (length rest) ->
  captures (SepCaptureSid u a (Some (pre ++ rest, Z.of_nat (length pre))) cap) (fun '(len, b) _ => len = cap /\
    exists l, b = pre ++ l ++ drop (Z.to_nat cap) rest /\ Z.of_nat (length l) = cap /\ Forall is_u8 l /\ (steady u a -> sid_ok l)).
Proof.
  intros Hcap. unfold SepCaptureSid. apply captures_copy; [done|]. intros h u' E Hl Hb. destruct h as [|r [|c h]]; [done..|].
  rewrite read8_head. run. rewrite read8_second. run. destruct (Z.eqb_spec r SID_REVISION) as [->|]; cbn [negb orb]; [|by apply captures_fail].
  destruct (Z.ltb_spec SID_MAX_SUB_AUTHORITIES c) as [|Hc]; [by apply captures_fail|]. unfold SepSidLength. rewrite read8_second. run.
  apply Forall_cons in Hb as [_ Hb]. apply Forall_cons in Hb as [Hc8 _]. unfold SID_MAX_SUB_AUTHORITIES, is_u8, SID_HEADER in *.
  destruct (Z.eqb_spec (8 + c * 4) cap) as [<-|]; cbn [negb]; [|by apply captures_fail].
  apply captures_copy_to; [lia|]. intros l u2 E2 Hl2 Hb2. apply captures_ret. split; [done|]. exists l. split_and!; [done|lia|done|].
  intros Hst. specialize (Hst 8 (8 + c * 4) _ l u' ltac:(lia) E ltac:(by rewrite E2)).
  destruct l as [|r' [|c' l]]; [cbn in Hl2; lia..|]. replace (Z.to_nat 8) with (S (S 6)) in Hst by done. rewrite !firstn_cons in Hst. injection Hst as -> -> _.
  exists c, l. split_and!; [done|lia|unfold SID_MAX_SUB_AUTHORITIES; lia|rewrite Hl2; unfold SID_HEADER; lia].
Qed.

Lemma SepCaptureAcl_measure u a c : captures (SepCaptureAcl u a None c) (fun '(len, _) _ => sizeof_ACL <= len < 2 ^ 16).
Proof.
  unfold SepCaptureAcl. apply captures_copy; [done|]. intros h u' _ Hl Hb.
  destruct (read_u h 2 2 Hb ltac:(lia) ltac:(lia) ltac:(rewrite Hl; unfold sizeof_ACL; lia)) as (size & E & Hs). fold (read16 h 2) in E. rewrite E. run.
  destruct (Z.ltb_spec size sizeof_ACL) as [|H1]; [by apply captures_fail|]. apply captures_ret. lia.
Qed.

Lemma SepCaptureAcl_copy u a pre rest cap : cap <= Z.of_nat (length rest) -> Forall is_u8 rest ->
  captures (SepCaptureAcl u a (Some (pre ++ rest, Z.of_nat (length pre))) cap) (fun '(len, b) _ => len = cap /\
    exists l, b = pre ++ l ++ drop (Z.to_nat cap) rest /\ Z.of_nat (length l) = cap /\ Forall is_u8 l /\ acl_ok l /\
      (steady u a -> acl_exact l)).
Proof.
  intros Hcap Hr. unfold SepCaptureAcl. apply captures_copy; [done|]. intros h u' Eh Hl Hb.
  destruct (read_u h 2 2 Hb ltac:(lia) ltac:(lia) ltac:(rewrite Hl; unfold sizeof_ACL; lia)) as (size & E & Hs). fold (read16 h 2) in E. rewrite E. run.
  destruct (Z.ltb_spec size sizeof_ACL) as [|H1]; [by apply captures_fail|].
  destruct (Z.eqb_spec size cap) as [<-|]; cbn [negb]; [|by apply captures_fail]. unfold sizeof_ACL in H1.
  apply captures_copy_to; [lia|]. intros l u2 E2 Hl2 Hb2. unfold at_offset. rewrite Nat2Z.id, drop_app_length, SepIsValidAcl_app by lia.
  destruct (SepIsValidAcl_spec l size Hb2 ltac:(lia)) as (v & Ev & _). rewrite Ev. run.
  destruct v; cbn [negb]; [|by apply captures_fail]. apply captures_ret. split; [done|]. exists l.
  assert (Ev' : SepIsValidAcl l (Z.of_nat (length l)) = Ok true) by (by rewrite Hl2, Z2Nat.id by lia).
  split_and!; [done|lia|done|by right|]. intros Hst. split; [done|].
  pose proof (Hst 8 size h l u' ltac:(lia) Eh ltac:(by rewrite E2)) as Hh. rewrite <- Hh in E. change (Z.to_nat 8) with 8%nat in E.
  unfold read16 in *. rewrite read_take in E by lia. rewrite E. f_equal. lia.
Qed.

Lemma SepResolveSdParts_spec u a : captures (SepResolveSdParts u a) (fun p _ => is_u16 (parts_control p)).
Proof.
  unfold SepResolveSdParts. apply captures_copy; [done|]. intros h u1 _ Hl Hb.
  assert (Hlz : Z.of_nat (length h) = 4) by (rewrite Hl; done).
  destruct (read_u h 0 1 Hb ltac:(lia) ltac:(lia) ltac:(lia)) as (r & E & _). fold (read8 h 0) in E. rewrite E. run. clear E.
  destruct (negb (r =? SECURITY_DESCRIPTOR_REVISION)); [by apply captures_fail|].
  destruct (read_u h 2 2 Hb ltac:(lia) ltac:(lia) ltac:(lia)) as (c & E & Hc). fold (read16 h 2) in E. rewrite E. run. clear E.
  destruct (has c SE_SELF_RELATIVE); (apply captures_copy; [done|]); intros l u2 _ Hl2 Hb2.
  - assert (Hz : Z.of_nat (length l) = 20) by (rewrite Hl2; done).
    destruct (read_u l 2 2 Hb2 ltac:(lia) ltac:(lia) ltac:(lia)) as (c' & E & _). fold (read16 l 2) in E. rewrite E. run. clear E.
    destruct (read_u l 4 4 Hb2 ltac:(lia) ltac:(lia) ltac:(lia)) as (v1 & E & _). fold (read32 l 4) in E. rewrite E. run. clear E.
    destruct (read_u l 8 4 Hb2 ltac:(lia) ltac:(lia) ltac:(lia)) as (v2 & E & _). fold (read32 l 8) in E. rewrite E. run. clear E.
    destruct (read_u l 12 4 Hb2 ltac:(lia) ltac:(lia) ltac:(lia)) as (v3 & E & _). fold (read32 l 12) in E. rewrite E. run. clear E.
    destruct (read_u l 16 4 Hb2 ltac:(lia) ltac:(lia) ltac:(lia)) as (v4 & E & _). fold (read32 l 16) in E. rewrite E. run. by apply captures_ret.
  - assert (Hz : Z.of_nat (length l) = 40) by (rewrite Hl2; done).
    destruct (read_u l 2 2 Hb2 ltac:(lia) ltac:(lia) ltac:(lia)) as (c' & E & _). fold (read16 l 2) in E. rewrite E. run. clear E.
    destruct (read_u l 8 8 Hb2 ltac:(lia) ltac:(lia) ltac:(lia)) as (v1 & E & _). fold (read64 l 8) in E. rewrite E. run. clear E.
    destruct (read_u l 16 8 Hb2 ltac:(lia) ltac:(lia) ltac:(lia)) as (v2 & E & _). fold (read64 l 16) in E. rewrite E. run. clear E.
    destruct (read_u l 24 8 Hb2 ltac:(lia) ltac:(lia) ltac:(lia)) as (v3 & E & _). fold (read64 l 24) in E. rewrite E. run. clear E.
    destruct (read_u l 32 8 Hb2 ltac:(lia) ltac:(lia) ltac:(lia)) as (v4 & E & _). fold (read64 l 32) in E. rewrite E. run. by apply captures_ret.
Qed.

(** The four lengths and parts put together. *)
Lemma captured_ok c lo lg ls ld owner group sacl dacl :
  has c SE_SELF_RELATIVE = false -> 0 <= lo <= 68 -> 0 <= lg <= 68 -> 0 <= ls < 2 ^ 16 -> 0 <= ld < 2 ^ 16 ->
  Z.of_nat (length owner) = lo -> Z.of_nat (length group) = lg -> Z.of_nat (length sacl) = ls -> Z.of_nat (length dacl) = ld ->
  Forall is_u8 owner -> Forall is_u8 group -> Forall is_u8 sacl -> Forall is_u8 dacl -> acl_ok sacl -> acl_ok dacl ->
  let sd := mksd c lo lg ls ld (owner ++ group ++ sacl ++ dacl) in
  sd_ok sd /\ owner_part sd = owner /\ group_part sd = group /\ sacl_part sd = sacl /\ dacl_part sd = dacl.
Proof.
  intros Hc H1 H2 H3 H4 E1 E2 E3 E4 B1 B2 B3 B4 A1 A2 sd.
  assert (P1 : owner_part sd = owner) by (unfold owner_part; cbn; by rewrite <- E1, Nat2Z.id, take_app_length).
  assert (P2 : group_part sd = group) by (unfold group_part, at_offset; cbn; by rewrite <- E1, <- E2, !Nat2Z.id, drop_app_length, take_app_length).
  assert (P3 : sacl_part sd = sacl).
  { unfold sacl_part, at_offset. cbn. rewrite <- E1, <- E2, <- E3, <- Nat2Z.inj_add, !Nat2Z.id, <- drop_drop, !drop_app_length. by rewrite take_app_length. }
  assert (P4 : dacl_part sd = dacl).
  { unfold dacl_part, at_offset. cbn. rewrite <- E1, <- E2, <- E3, <- E4, <- !Nat2Z.inj_add, !Nat2Z.id, <- !drop_drop, !drop_app_length. by rewrite firstn_all. }
  split; [|done]. split; cbn.
  - done.
  - rewrite !length_app. lia.
  - by repeat apply Forall_app_2.
  - by rewrite P3.
  - by rewrite P4.
  - done.
Qed.

Lemma measure_sid u a : captures (capture_part SepCaptureSid u a 0 None 0) (fun '(len, _) _ => 0 <= len <= 68 /\ (a = 0 -> len = 0)).
Proof.
  unfold capture_part. destruct (Z.eqb_spec a 0) as [->|]; [by apply captures_ret|].
  apply (captures_mono _ _ _ (SepCaptureSid_measure u a 0)). intros [len l] _ H. unfold SID_HEADER in H. split; [lia|done].
Qed.

Lemma measure_acl u a : captures (capture_part SepCaptureAcl u a 0 None 0) (fun '(len, _) _ => 0 <= len < 2 ^ 16 /\ (a = 0 -> len = 0)).
Proof.
  unfold capture_part. destruct (Z.eqb_spec a 0) as [->|]; [by apply captures_ret|].
  apply (captures_mono _ _ _ (SepCaptureAcl_measure u a 0)). intros [len l] _ H. unfold sizeof_ACL in H. split; [lia|done].
Qed.

Lemma copy_sid u a pre rest cap : (a = 0 -> cap = 0) -> cap <= Z.of_nat (length rest) ->
  captures (capture_part SepCaptureSid u a cap (Some (pre ++ rest, Z.of_nat (length pre))) cap) (fun '(len, b) _ => len = cap /\
    exists l, b = pre ++ l ++ drop (Z.to_nat cap) rest /\ Z.of_nat (length l) = cap /\ Forall is_u8 l /\ (steady u a -> l = [] \/ sid_ok l)).
Proof.
  intros Ha Hcap. unfold capture_part. destruct (Z.eqb_spec a 0) as [->|].
  - rewrite Ha by done. apply captures_ret. split; [done|]. exists []. split_and!; [done..|by left].
  - apply (captures_mono _ _ _ (SepCaptureSid_copy u a pre rest cap Hcap)). intros [len b] _ (-> & l & ? & ? & ? & H3). split; [done|].
    exists l. split_and!; try done. intros Hs. right. by apply H3.
Qed.

Lemma copy_acl u a pre rest cap : (a = 0 -> cap = 0) -> cap <= Z.of_nat (length rest) -> Forall is_u8 rest ->
  captures (capture_part SepCaptureAcl u a cap (Some (pre ++ rest, Z.of_nat (length pre))) cap) (fun '(len, b) _ => len = cap /\
    exists l, b = pre ++ l ++ drop (Z.to_nat cap) rest /\ Z.of_nat (length l) = cap /\ Forall is_u8 l /\ acl_ok l /\
      (steady u a -> l = [] \/ acl_exact l)).
Proof.
  intros Ha Hcap Hr. unfold capture_part. destruct (Z.eqb_spec a 0) as [->|].
  - rewrite Ha by done. apply captures_ret. split; [done|]. exists []. split_and!; [done..|by left|by left].
  - apply (captures_mono _ _ _ (SepCaptureAcl_copy u a pre rest cap Hcap Hr)). intros [len b] _ (-> & l & ? & ? & ? & ? & H3). split; [done|].
    exists l. split_and!; try done. intros Hs. right. by apply H3.
Qed.

Lemma capture_ok u a pool : captures (SepCaptureSecurityDescriptor u a pool) (fun sd _ => sd_ok sd /\ is_u16 (control sd) /\
  ((forall u a, steady u a) -> sids_ok sd /\ acls_exact sd)).
Proof.
  unfold SepCaptureSecurityDescriptor. eapply captures_step; [apply SepResolveSdParts_spec|]. intros p u0 Hcw.
  eapply captures_step; [apply measure_sid|]. intros [lo ?] u1 [H1 Z1]. eapply captures_step; [apply measure_sid|]. intros [lg ?] u2 [H2 Z2].
  eapply captures_step; [apply measure_acl|]. intros [ls ?] u3 [H3 Z3]. eapply captures_step; [apply measure_acl|]. intros [ld ?] u4 [H4 Z4].
  destruct pool; cbn [negb]; [|by apply captures_fail]. cbv zeta.
  set (r0 := replicate (Z.to_nat (lo + lg + ls + ld)) 0).
  assert (L0 : Z.of_nat (length r0) = lo + lg + ls + ld) by (unfold r0; rewrite length_replicate; lia).
  assert (B0 : Forall is_u8 r0) by (by apply Forall_replicate). clearbody r0.
  eapply captures_step; [apply (copy_sid u4 (parts_owner p) [] r0 lo); [done|lia]|]. intros [? b1] u5 (-> & owner & -> & E1 & B1 & S1).
  rewrite app_nil_l. set (r1 := drop (Z.to_nat lo) r0). assert (L1 : Z.of_nat (length r1) = lg + ls + ld) by (unfold r1; rewrite length_drop; lia).
  assert (C1 : Forall is_u8 r1) by (by apply Forall_drop). clearbody r1. rewrite Z.add_0_l, <- E1.
  eapply captures_step; [apply (copy_sid u5 (parts_group p) owner r1 lg); [done|lia]|]. intros [? b2] u6 (-> & group & -> & E2 & B2 & S2).
  set (r2 := drop (Z.to_nat lg) r1). assert (L2 : Z.of_nat (length r2) = ls + ld) by (unfold r2; rewrite length_drop; lia).
  assert (C2 : Forall is_u8 r2) by (by apply Forall_drop). clearbody r2.
  replace (Z.of_nat (length owner) + lg) with (Z.of_nat (length (owner ++ group))) by (rewrite length_app; lia). rewrite app_assoc.
  eapply captures_step; [apply (copy_acl u6 (parts_sacl p) (owner ++ group) r2 ls); [done|lia|done]|]. intros [? b3] u7 (-> & sacl & -> & E3 & B3 & S3 & X3).
  set (r3 := drop (Z.to_nat ls) r2). assert (L3 : Z.of_nat (length r3) = ld) by (unfold r3; rewrite length_drop; lia).
  assert (C3 : Forall is_u8 r3) by (by apply Forall_drop). clearbody r3.
  replace (Z.of_nat (length (owner ++ group)) + ls) with (Z.of_nat (length ((owner ++ group) ++ sacl))) by (rewrite !length_app; lia). rewrite app_assoc.
  eapply captures_step; [apply (copy_acl u7 (parts_dacl p) ((owner ++ group) ++ sacl) r3 ld); [done|lia|done]|]. intros [? b4] u8' (-> & dacl & -> & E4 & B4 & S4 & X4).
  rewrite (drop_ge r3) by lia. rewrite app_nil_r, <- !app_assoc.
  destruct (captured_ok (Z.ldiff (parts_control p) SE_SELF_RELATIVE) lo lg ls ld owner group sacl dacl (has_ldiff _ 15 ltac:(done)) H1 H2 H3 H4 E1 E2 E3 E4 B1 B2 B3 B4 S3 S4) as (Hok & P1 & P2 & P3 & P4).
  apply captures_ret. rewrite E1. split; [done|]. split; [by apply u16_ldiff|]. intros Hst. unfold sids_ok, acls_exact. rewrite P1, P2, P3, P4.
  split; (split; [by apply S1 || by apply X3|by apply S2 || by apply X4]).
Qed.
End captured.

(** ** Properties *)

(** User memory that holds one buffer and stays as it is. *)
#[export] Instance buffer_user : USER (addr * bytes) := {
  KiCopyFromUser u a n := ((if (u.1 <=? a) && (a + n <=? u.1 + Z.of_nat (length u.2)) then inr (u8 <$> take (Z.to_nat n) (drop (Z.to_nat (a - u.1)) u.2)) else inl STATUS_ACCESS_VIOLATION), u);
}.

#[export] Instance buffer_user_ok : USER_OK (addr * bytes).
Proof.
  split; intros u a n; cbn; destruct (_ && _) eqn:E; try done.
  - by intros s [= <-].
  - intros l Hn [= <-]. apply andb_prop in E as [E1%Z.leb_le E2%Z.leb_le]. split.
    + rewrite length_fmap, length_take, length_drop. lia.
    + apply Forall_fmap, Forall_true. intros x. apply u8_range.
Qed.

(** C15. The capture of a security descriptor is safe against whatever user memory
    answers, even when it changes between any two copies: it never reads outside
    the bytes it copied and never copies outside the block it allocated for what it
    measured, every failure is a failure status, and a captured descriptor has
    lengths that add up to its data, no self-relative bit and only whole, validated
    ACLs, every ACE of which can be read inside the captured bytes.  Its SIDs are
    whole too, and each ACL fills its part, if the memory holds still. *)
Theorem descriptor_capture_safe {U : Type} {user : USER U} {laws : USER_OK U} (u : U) (userSd : addr) (pool : bool) :
  exists r u', SepCaptureSecurityDescriptor u userSd pool = Ok (r, u') /\
    match r with
    | inl status => NT_SUCCESS status = false
    | inr sd => sd_ok sd /\
        (sacl_part sd = [] \/ exists aces, acl_aces (sacl_part sd) = Ok aces /\ Forall ace_ok aces) /\
        (dacl_part sd = [] \/ exists aces, acl_aces (dacl_part sd) = Ok aces /\ Forall ace_ok aces) /\
        ((forall u a, steady u a) -> sids_ok sd /\ acls_exact sd)
    end.
Proof.
  destruct (capture_ok u userSd pool) as (r & u' & E & H). exists r, u'. split; [done|]. destruct r as [status|sd]; [done|]. destruct H as (K & _ & S).
  assert (Hacl : forall l, Forall is_u8 l -> acl_ok l -> l = [] \/ exists aces, acl_aces l = Ok aces /\ Forall ace_ok aces).
  { intros l Hb [->|Hv]; [by left|right]. destruct (SepIsValidAcl_spec l _ Hb (Z.le_refl _)) as (v & Ev & Hs). rewrite Hv in Ev. injection Ev as <-.
    destruct (Hs eq_refl) as (aces & ? & ? & _). by exists aces. }
  split_and!; [done|apply Hacl; [by apply Forall_take, Forall_at, (sd_bytes _ K)|apply (sd_sacl _ K)]|apply Hacl; [by apply Forall_take, Forall_at, (sd_bytes _ K)|apply (sd_dacl _ K)]|done].
Qed.

(** ** Examples *)

(** A self-relative descriptor at 0x1000: owner and group S-1-1-0, one allow ACE. *)
Definition example_sid : bytes := [1; 1; 0; 0; 0; 0; 0; 1; 0; 0; 0; 0].
Definition example_acl : bytes := [2; 0; 28; 0; 1; 0; 0; 0; 0; 0; 20; 0; 0xff; 1; 0x1f; 0] ++ example_sid.
Definition example_relative : bytes := [1; 0; 4; 0x80; 20; 0; 0; 0; 32; 0; 0; 0; 0; 0; 0; 0; 44; 0; 0; 0] ++ example_sid ++ example_sid ++ example_acl.

Lemma descriptor_capture_safe_witness : exists sd, SepCaptureSecurityDescriptor (0x1000, example_relative) 0x1000 true = Ok (inr sd, (0x1000, example_relative)) /\
  sd_ok sd /\ dacl_part sd = example_acl.
Proof.
  destruct (descriptor_capture_safe (0x1000, example_relative) 0x1000 true) as (r & u' & E & H).
  assert (Er : r = inr (mksd 4 12 12 0 28 (example_sid ++ example_sid ++ example_acl)) /\ u' = (0x1000, example_relative)).
  { revert E. vm_compute. by intros [= <- <-]. }
  destruct Er as [-> ->]. eexists. split; [exact E|]. split; [apply H|]. by vm_compute.
Defined.

(** Memory that answers from a script: a thread that rewrites the descriptor
    while it is captured. *)
#[export] Instance script_user : USER (list bytes) := {
  KiCopyFromUser u a n := match u with
    | [] => (inl STATUS_ACCESS_VIOLATION, [])
    | l :: u' => (inr (take (Z.to_nat n) ((u8 <$> l) ++ replicate (Z.to_nat n) 0)), u')
    end;
}.

#[export] Instance script_user_ok : USER_OK (list bytes).
Proof.
  split; intros [|l u] a n; cbn; try done.
  - by intros s [= <-].
  - intros r Hn [= <-]. split; [rewrite length_take, length_app, length_replicate; lia|].
    apply Forall_take, Forall_app_2; [apply Forall_fmap, Forall_true; intros x; apply u8_range|]. by apply Forall_replicate.
Qed.

(** The owner's second header is checked, the copy that follows it is not: a
    sub-authority count that grows in between is stored. *)
Lemma captured_owner_may_lie : exists script sd u,
  SepCaptureSecurityDescriptor script 0x1000 true = Ok (inr sd, u) /\ ownerLength sd = 8 /\ SepSidLength (owner_part sd) = Ok 28.
Proof.
  exists [[1; 0; 4; 0x80]; take 20 example_relative; [1; 0]; [1; 0]; [2; 0; 8; 0]; [1; 0]; [1; 5]; [1; 0]; [1; 0]; [2; 0; 8; 0]; [2; 0; 8; 0]].
  eexists _, _. split; [vm_compute; reflexivity|]. split; by vm_compute.
Qed.
