(* ===== verification/SeAccess.v ===== *)
(** * SeAccess: tokens and the access check (kernel/se/access.c, the membership
    and privilege tests of kernel/se/token.c).

    The token's trailing blob is its parts: the user's SID, the groups with their
    attributes, the privileges, the default DACL and its override. *)

From S2P Require Import Prelude NtStatus Bytes SeSd.

Definition GENERIC_READ : Z := 0x80000000.
Definition GENERIC_WRITE : Z := 0x40000000.
Definition GENERIC_EXECUTE : Z := 0x20000000.
Definition GENERIC_ALL : Z := 0x10000000.
Definition MAXIMUM_ALLOWED : Z := 0x02000000.
Definition ACCESS_SYSTEM_SECURITY : Z := 0x01000000.
Definition READ_CONTROL : Z := 0x00020000.
Definition WRITE_DAC : Z := 0x00040000.
Definition WRITE_OWNER : Z := 0x00080000.
Definition SYNCHRONIZE : Z := 0x00100000.
Definition STANDARD_RIGHTS_REQUIRED : Z := 0x000f0000.
Definition STANDARD_RIGHTS_READ : Z := READ_CONTROL.
Definition STANDARD_RIGHTS_WRITE : Z := READ_CONTROL.
Definition STANDARD_RIGHTS_EXECUTE : Z := READ_CONTROL.
Definition SE_GROUP_ENABLED : Z := 0x4.
Definition SE_GROUP_USE_FOR_DENY_ONLY : Z := 0x10.
Definition SE_PRIVILEGE_USED_FOR_ACCESS : Z := 0x80000000.
Definition SE_SECURITY_PRIVILEGE : Z := 8.
Definition SecurityAnonymous : Z := 0.

Record LUID := mkLUID { LowPart : Z; HighPart : Z }.
Record LUID_AND_ATTRIBUTES := mkLUID_AND_ATTRIBUTES { Luid : LUID; Attributes : Z }.
Record SEP_PRIVILEGE := mkSEP_PRIVILEGE { luid : LUID; enabled : bool; enabledByDefault : bool }.
Record GENERIC_MAPPING := mkGENERIC_MAPPING { GenericRead : Z; GenericWrite : Z; GenericExecute : Z; GenericAll : Z }.

Record TOKEN := mkTOKEN {
  primary : bool;
  impersonationLevel : Z;
  userSid : bytes;
  groups : list (Z * bytes);
  privileges : list SEP_PRIVILEGE;
  primaryGroupIndex : Z;
  defaultDaclLength : Z;
  defaultDacl : bytes;
  defaultDaclOverride : option bytes;
}.

#[export] Instance eta_token : Eta TOKEN := {| eta_expand := fun t => mkTOKEN (primary t) (impersonationLevel t) (userSid t) (groups t) (privileges t)
  (primaryGroupIndex t) (defaultDaclLength t) (defaultDacl t) (defaultDaclOverride t) |}.

(** ** Membership *)

(** [SepSidLength(a) == length && memcmp(a, b, length) == 0]. *)
Definition same_sid (a b : bytes) (length : Z) : outcome bool :=
  n ← SepSidLength a;
  if n =? length then x ← read a 0 length; y ← read b 0 length; Ok (bool_decide (x = y)) else Ok false.

(** The group loop. *)
Fixpoint group_present (l : list (Z * bytes)) (sid : bytes) (length : Z) (deny : bool) : outcome bool :=
  match l with
  | [] => Ok false
  | (attrs, group) :: l' =>
      if negb (has attrs SE_GROUP_ENABLED) then group_present l' sid length deny else
      if negb deny && has attrs SE_GROUP_USE_FOR_DENY_ONLY then group_present l' sid length deny else
      same ← same_sid group sid length;
      if (same : bool) then Ok true else group_present l' sid length deny
  end.

Definition SepTokenSidPresent (token : TOKEN) (sid : bytes) (deny : bool) : outcome bool :=
  length ← SepSidLength sid;
  user ← same_sid (userSid token) sid length;
  if (user : bool) then Ok true else group_present (groups token) sid length deny.

(** ** Privileges *)

Definition SepTokenFindPrivilege (token : TOKEN) (wanted : LUID) : option SEP_PRIVILEGE :=
  head (filter (fun p : SEP_PRIVILEGE => LowPart (luid p) = LowPart wanted /\ HighPart (luid p) = HighPart wanted) (privileges token)).

(** [SepTokenCheckPrivileges]: the answer, and [required] as used. *)
Fixpoint check_privileges (token : TOKEN) (required : list LUID_AND_ATTRIBUTES) (enabledCount : Z) : Z * list LUID_AND_ATTRIBUTES :=
  match required with
  | [] => (enabledCount, [])
  | r :: required' =>
      match SepTokenFindPrivilege token (Luid r) with
      | Some p =>
          if enabled p then
            let '(n, used) := check_privileges token required' (enabledCount + 1) in
            (n, mkLUID_AND_ATTRIBUTES (Luid r) (Z.lor (Attributes r) SE_PRIVILEGE_USED_FOR_ACCESS) :: used)
          else let '(n, used) := check_privileges token required' enabledCount in (n, r :: used)
      | None => let '(n, used) := check_privileges token required' enabledCount in (n, r :: used)
      end
  end.

Definition SepTokenCheckPrivileges (token : TOKEN) (allRequired : bool) (required : list LUID_AND_ATTRIBUTES) : bool * list LUID_AND_ATTRIBUTES :=
  let '(enabledCount, used) := check_privileges token required 0 in
  (if allRequired then enabledCount =? Z.of_nat (length required) else 0 <? enabledCount, used).

Definition SeSinglePrivilegeCheck (currentToken : TOKEN) (privilegeValue : LUID) (kernelMode : bool) : bool :=
  if kernelMode then true else (SepTokenCheckPrivileges currentToken true [mkLUID_AND_ATTRIBUTES privilegeValue 0]).1.

(** ** The access check *)

Definition GENERIC_BITS : Z := Z.lor (Z.lor (Z.lor GENERIC_READ GENERIC_WRITE) GENERIC_EXECUTE) GENERIC_ALL.

Definition SepMapAccess (access : Z) (mapping : GENERIC_MAPPING) : Z :=
  let access := if has access GENERIC_READ then Z.lor access (GenericRead mapping) else access in
  let access := if has access GENERIC_WRITE then Z.lor access (GenericWrite mapping) else access in
  let access := if has access GENERIC_EXECUTE then Z.lor access (GenericExecute mapping) else access in
  let access := if has access GENERIC_ALL then Z.lor access (GenericAll mapping) else access in
  Z.ldiff access GENERIC_BITS.

Section walk.
Variables (token : TOKEN) (desiredAccess : Z) (mapping : GENERIC_MAPPING) (dacl : bytes).

(** The ACE walk, [count] to go: the access gathered and the access denied. *)
Fixpoint ace_walk (count : nat) (offset currentAccess deniedAccess : Z) : outcome (Z * Z) :=
  match count with
  | O => Ok (currentAccess, deniedAccess)
  | S count' =>
      let ace := at_offset dacl offset in
      size ← read16 ace 2;
      let offset := offset + size in
      let sid := at_offset ace ACE_SID in
      flags ← read8 ace 1;
      if has flags INHERIT_ONLY_ACE then ace_walk count' offset currentAccess deniedAccess else
      aceType ← read8 ace 0;
      let next (currentAccess deniedAccess : Z) :=
        (* the early-out of the server *)
        if desiredAccess =? 0 then Ok (currentAccess, deniedAccess) else ace_walk count' offset currentAccess deniedAccess in
      if aceType =? ACCESS_DENIED_ACE_TYPE then
        present ← SepTokenSidPresent token sid true;
        if (present : bool) then
          mask ← read32 ace sizeof_ACE_HEADER;
          let access := SepMapAccess mask mapping in
          if has desiredAccess MAXIMUM_ALLOWED then next currentAccess (Z.lor deniedAccess access) else
          let deniedAccess := Z.lor deniedAccess (Z.ldiff access currentAccess) in
          if has desiredAccess access then Ok (currentAccess, deniedAccess) else next currentAccess deniedAccess
        else next currentAccess deniedAccess
      else if aceType =? ACCESS_ALLOWED_ACE_TYPE then
        present ← SepTokenSidPresent token sid false;
        if (present : bool) then
          mask ← read32 ace sizeof_ACE_HEADER;
          let access := SepMapAccess mask mapping in
          if has desiredAccess MAXIMUM_ALLOWED then next (Z.lor currentAccess access) deniedAccess
          else next (Z.lor currentAccess (Z.ldiff access deniedAccess)) deniedAccess
        else next currentAccess deniedAccess
      else next currentAccess deniedAccess
  end.
End walk.

(** What SepTokenAccessCheck leaves behind its out-pointers; [None]: not written. *)
Record access_reply := mkreply {
  reply_privilege : option LUID_AND_ATTRIBUTES;
  reply_privilegeCount : Z;
  reply_granted : Z;
  reply_status : option NTSTATUS;
}.

Definition OWNER_ACCESS : Z := Z.lor STANDARD_RIGHTS_REQUIRED SYNCHRONIZE.

(** The [done:] label. *)
Definition access_done (desiredAccess currentAccess deniedAccess : Z) : Z :=
  if has desiredAccess MAXIMUM_ALLOWED then Z.ldiff currentAccess deniedAccess
  else if Z.land currentAccess desiredAccess =? desiredAccess then Z.land currentAccess desiredAccess else 0.

(** Steps 3 and 4: the owner, then the ACEs. *)
Definition check_owner_and_aces (token : TOKEN) (owner dacl : bytes) (desiredAccess : Z) (mapping : GENERIC_MAPPING)
    (privilege : option LUID_AND_ATTRIBUTES) (privilegeCount currentAccess : Z) : outcome (NTSTATUS * access_reply) :=
  isOwner ← SepTokenSidPresent token owner false;
  let currentAccess := if (isOwner : bool) then Z.lor currentAccess OWNER_ACCESS else currentAccess in
  if isOwner && (desiredAccess =? currentAccess) then Ok (STATUS_SUCCESS, mkreply privilege privilegeCount currentAccess (Some STATUS_SUCCESS)) else
  aceCount ← read16 dacl 4;
  '(currentAccess, deniedAccess) ← ace_walk token desiredAccess mapping dacl (Z.to_nat aceCount) sizeof_ACL currentAccess 0;
  let granted := access_done desiredAccess currentAccess deniedAccess in
  Ok (STATUS_SUCCESS, mkreply privilege privilegeCount granted (Some (if negb (granted =? 0) then STATUS_SUCCESS else STATUS_ACCESS_DENIED))).

Definition securityPrivilege : LUID_AND_ATTRIBUTES := mkLUID_AND_ATTRIBUTES (mkLUID SE_SECURITY_PRIVILEGE 0) 0.

Definition SepTokenAccessCheck (token : TOKEN) (sd : SEP_SECURITY_DESCRIPTOR) (desiredAccess : Z) (mapping : GENERIC_MAPPING)
    (privilegeCount : Z) : outcome (NTSTATUS * access_reply) :=
  if has desiredAccess GENERIC_BITS then Ok (STATUS_GENERIC_NOT_MAPPED, mkreply None 0 0 None) else
  let owner := SepSdData sd in
  let dacl := at_offset (SepSdData sd) (ownerLength sd + groupLength sd + saclLength sd) in
  if (ownerLength sd =? 0) || (groupLength sd =? 0) then Ok (STATUS_INVALID_SECURITY_DESCR, mkreply None 0 0 None) else
  if negb (has (control sd) SE_DACL_PRESENT) || (daclLength sd =? 0) then
    Ok (STATUS_SUCCESS, mkreply None 0 (if has desiredAccess MAXIMUM_ALLOWED then GenericAll mapping else desiredAccess) (Some STATUS_SUCCESS)) else
  if has desiredAccess ACCESS_SYSTEM_SECURITY then
    let '(held, used) := SepTokenCheckPrivileges token true [securityPrivilege] in
    if held then
      if 1 <=? privilegeCount then
        let privilege := head used in
        if desiredAccess =? ACCESS_SYSTEM_SECURITY then Ok (STATUS_SUCCESS, mkreply privilege 1 ACCESS_SYSTEM_SECURITY (Some STATUS_SUCCESS)) else
        check_owner_and_aces token owner dacl desiredAccess mapping privilege 1 ACCESS_SYSTEM_SECURITY
      else Ok (STATUS_BUFFER_TOO_SMALL, mkreply None 1 0 None)
    else Ok (STATUS_SUCCESS, mkreply None 0 0 (Some STATUS_PRIVILEGE_NOT_HELD))
  else check_owner_and_aces token owner dacl desiredAccess mapping None 0 0.

(** ** The callers *)

(** What NtAccessCheck does to the caller's memory and its own references. *)
Inductive access_effect :=
  | WriteLength (needed : Z)
  | WritePrivileges (count : Z) (privilege : option LUID_AND_ATTRIBUTES)
  | WriteGranted (granted : Z)
  | WriteAccessStatus (status : NTSTATUS)
  | DereferenceToken
  | FreeDescriptor.

Definition sizeof_PRIVILEGE_SET : Z := 20.
Definition offsetof_Privilege : Z := 8.
Definition sizeof_LUID_AND_ATTRIBUTES : Z := 12.

(** The [out:] label. *)
Definition access_out (status : NTSTATUS) (effects : list access_effect) : outcome (NTSTATUS * list access_effect) :=
  Ok (status, effects ++ [DereferenceToken; FreeDescriptor]).

(** [lengthCopy], [mappingCopy], [captured], [referenced]: the answers of the two
    copies, the capture and the handle; [probes]: those of the four probes. *)
Definition NtAccessCheck (privilegeSet privilegeSetLength : addr) (lengthCopy : NTSTATUS + Z) (mappingCopy : NTSTATUS + GENERIC_MAPPING)
    (captured : NTSTATUS + SEP_SECURITY_DESCRIPTOR) (referenced : NTSTATUS + TOKEN) (desiredAccess : Z)
    (probeLength probeSet probeGranted probeStatus : NTSTATUS) : outcome (NTSTATUS * list access_effect) :=
  if (privilegeSet =? 0) || (privilegeSetLength =? 0) then Ok (STATUS_ACCESS_VIOLATION, []) else
  match lengthCopy with inl status => Ok (status, []) | inr privilegeLength =>
  match mappingCopy with inl status => Ok (status, []) | inr mapping =>
  match captured with inl status => Ok (status, []) | inr sd =>
  match referenced with inl status => Ok (status, [FreeDescriptor]) | inr token =>
  if primary token then access_out STATUS_NO_IMPERSONATION_TOKEN [] else
  if impersonationLevel token <=? SecurityAnonymous then access_out STATUS_BAD_IMPERSONATION_LEVEL [] else
  '(status, reply) ← SepTokenAccessCheck token sd desiredAccess mapping 1;
  if negb (NT_SUCCESS status) then access_out status [] else
  let count := reply_privilegeCount reply in
  let privilegesLength := u32 (count * sizeof_LUID_AND_ATTRIBUTES) in
  let needed := u32 (offsetof_Privilege + privilegesLength) in
  let needed := if needed <? sizeof_PRIVILEGE_SET then sizeof_PRIVILEGE_SET else needed in
  if negb (NT_SUCCESS probeLength) then access_out probeLength [] else
  if privilegeLength <? needed then access_out STATUS_BUFFER_TOO_SMALL [WriteLength needed] else
  if negb (NT_SUCCESS probeSet) then access_out probeSet [WriteLength needed] else
  let written := [WriteLength needed; WritePrivileges count (if negb (count =? 0) then reply_privilege reply else None)] in
  if negb (NT_SUCCESS probeGranted) then access_out probeGranted written else
  let written := written ++ [WriteGranted (reply_granted reply)] in
  if negb (NT_SUCCESS probeStatus) then access_out probeStatus written else
  access_out STATUS_SUCCESS (written ++ [WriteAccessStatus (default STATUS_SUCCESS (reply_status reply))])
  end end end end.

(** The rights of an object type. *)
Record type_access := mktype { validAccess : Z; genericRead : Z; genericWrite : Z; genericExecute : Z; genericAll : Z }.

Definition type_mapping (type : type_access) : GENERIC_MAPPING :=
  if negb (genericAll type =? 0) then mkGENERIC_MAPPING (genericRead type) (genericWrite type) (genericExecute type) (genericAll type)
  else mkGENERIC_MAPPING STANDARD_RIGHTS_READ STANDARD_RIGHTS_WRITE STANDARD_RIGHTS_EXECUTE (validAccess type).

(** The status and, on success, the access granted. *)
Definition SeCheckObjectAccess (currentToken : TOKEN) (type : type_access) (securityDescriptor : option SEP_SECURITY_DESCRIPTOR)
    (desiredAccess mappedAccess : Z) : outcome (NTSTATUS * option Z) :=
  match securityDescriptor with
  | None => Ok (STATUS_SUCCESS, Some mappedAccess)
  | Some sd =>
      let mapping := type_mapping type in
      let expanded := SepMapAccess desiredAccess mapping in
      '(status, reply) ← SepTokenAccessCheck currentToken sd expanded mapping 1;
      if negb (NT_SUCCESS status) then Ok (status, None) else
      let accessResult := default STATUS_SUCCESS (reply_status reply) in
      if negb (NT_SUCCESS accessResult) then Ok (accessResult, None) else Ok (STATUS_SUCCESS, Some (reply_granted reply))
  end.

(** ** The decision, said simply *)

(** The token counts as [sid], for allowing or for denying. *)
Definition token_has (token : TOKEN) (sid : bytes) (deny : bool) : bool :=
  bool_decide (userSid token = sid) ||
  existsb (fun g : Z * bytes => has g.1 SE_GROUP_ENABLED && (deny || negb (has g.1 SE_GROUP_USE_FOR_DENY_ONLY)) && bool_decide (g.2 = sid)) (groups token).

(** What an ACE means for a token: a denial or a grant of some access, or nothing. *)
Definition verdict (token : TOKEN) (mapping : GENERIC_MAPPING) (a : ACE) : option (bool * Z) :=
  if has (ace_flags a) INHERIT_ONLY_ACE then None else
  if ace_type a =? ACCESS_DENIED_ACE_TYPE then
    if token_has token (ace_sid a) true then Some (true, SepMapAccess (ace_mask a) mapping) else None
  else if ace_type a =? ACCESS_ALLOWED_ACE_TYPE then
    if token_has token (ace_sid a) false then Some (false, SepMapAccess (ace_mask a) mapping) else None
  else None.

Fixpoint union_of (deny : bool) (vs : list (bool * Z)) : Z :=
  match vs with
  | [] => 0
  | (d, m) :: vs' => if Bool.eqb d deny then Z.lor m (union_of deny vs') else union_of deny vs'
  end.

(** The verdicts before the first denial of anything asked for. *)
Fixpoint before_denial (desired : Z) (vs : list (bool * Z)) : list (bool * Z) :=
  match vs with
  | [] => []
  | (d, m) :: vs' => if d && has desired m then [] else (d, m) :: before_denial desired vs'
  end.

Definition subset_bits (a b : Z) : bool := Z.land b a =? a.

Definition decide_access (desired initial : Z) (vs : list (bool * Z)) : Z :=
  if has desired MAXIMUM_ALLOWED then Z.ldiff (Z.lor initial (union_of false vs)) (union_of true vs)
  else if subset_bits desired (Z.lor initial (union_of false (before_denial desired vs))) then desired else 0.

(** The first verdict that mentions bit [i]. *)
Fixpoint first_mention (i : Z) (vs : list (bool * Z)) : option bool :=
  match vs with
  | [] => None
  | (d, m) :: vs' => if Z.testbit m i then Some d else first_mention i vs'
  end.

Definition token_ok (token : TOKEN) : Prop := sid_ok (userSid token) /\ Forall (fun g : Z * bytes => sid_ok g.2) (groups token).

Section decision.
Implicit Types (b sid : bytes) (token : TOKEN) (mapping : GENERIC_MAPPING) (desired initial cur den : Z) (vs : list (bool * Z)).

(** *** Bits *)

Lemma has_false a m : has a m = false -> forall i, Z.testbit a i = true -> Z.testbit m i = false.
Proof.
  unfold has. rewrite negb_false_iff, Z.eqb_eq. intros H i Ha. assert (E : Z.testbit (Z.land a m) i = false) by (by rewrite H, Z.bits_0).
  rewrite Z.land_spec, Ha in E. done.
Qed.

Lemma subset_bits_spec a m : subset_bits a m = true <-> forall i, Z.testbit a i = true -> Z.testbit m i = true.
Proof.
  unfold subset_bits. rewrite Z.eqb_eq. split.
  - intros H i Ha. rewrite <- H, Z.land_spec in Ha. by apply andb_prop in Ha as [-> _].
  - intros H. apply Z.bits_inj'. intros i _. rewrite Z.land_spec. destruct (Z.testbit a i) eqn:E; [by rewrite H|apply andb_false_r].
Qed.

(** Two masks agree on what is asked for. *)
Definition agree desired x y : Prop := forall i, Z.testbit desired i = true -> Z.testbit x i = Z.testbit y i.

Lemma subset_agree desired x y : agree desired x y -> subset_bits desired x = subset_bits desired y.
Proof.
  intros H. apply Bool.eq_true_iff_eq. rewrite !subset_bits_spec. split; intros Hs i Hi; [rewrite <- H by done|rewrite H by done]; by apply Hs.
Qed.

(** *** Membership *)

Lemma same_sid_spec (a : bytes) b sid : sid_ok a -> sid_ok sid -> take (length sid) b = sid ->
  same_sid a b (Z.of_nat (length sid)) = Ok (bool_decide (a = sid)).
Proof.
  intros Ha Hs Hb. unfold same_sid. destruct (sid_ok_length a Ha) as [-> _]. run.
  assert (Hlb : (length sid <= length b)%nat) by (apply (f_equal length) in Hb; rewrite length_take in Hb; lia).
  destruct (Z.eqb_spec (Z.of_nat (length a)) (Z.of_nat (length sid))) as [E|E].
  - destruct (read_Ok a 0 (Z.of_nat (length sid))) as [-> _]; [lia..|]. run. destruct (read_Ok b 0 (Z.of_nat (length sid))) as [-> _]; [lia..|]. run.
    rewrite !Nat2Z.id. change (Z.to_nat 0) with 0%nat. rewrite !drop_0, Hb. rewrite (take_ge a) by lia. done.
  - rewrite bool_decide_eq_false_2; [done|]. intros ->. done.
Qed.

Lemma group_present_spec l b sid deny : Forall (fun g : Z * bytes => sid_ok g.2) l -> sid_ok sid -> take (length sid) b = sid ->
  group_present l b (Z.of_nat (length sid)) deny =
  Ok (existsb (fun g : Z * bytes => has g.1 SE_GROUP_ENABLED && (deny || negb (has g.1 SE_GROUP_USE_FOR_DENY_ONLY)) && bool_decide (g.2 = sid)) l).
Proof.
  intros Hl Hs Hb. induction Hl as [|[attrs g] l Hg _ IH]; cbn [group_present existsb fst snd]; [done|].
  destruct (has attrs SE_GROUP_ENABLED); cbn [negb andb orb]; [|exact IH].
  destruct deny; cbn [negb andb orb].
  - rewrite (same_sid_spec g b sid Hg Hs Hb). run. case_bool_decide; [done|exact IH].
  - destruct (has attrs SE_GROUP_USE_FOR_DENY_ONLY); cbn [negb andb orb]; [exact IH|]. rewrite (same_sid_spec g b sid Hg Hs Hb). run. case_bool_decide; [done|exact IH].
Qed.

Lemma SepTokenSidPresent_spec token b sid deny : token_ok token -> sid_ok sid -> take (length sid) b = sid ->
  SepTokenSidPresent token b deny = Ok (token_has token sid deny).
Proof.
  intros [Hu Hg] Hs Hb. unfold SepTokenSidPresent, token_has.
  assert (El : SepSidLength b = Ok (Z.of_nat (length sid))).
  { destruct (sid_ok_length sid Hs) as [<- _]. destruct Hs as (c & rest & E & _). rewrite E in Hb. cbn [length] in Hb. destruct b as [|x [|y b]]; [done..|].
    rewrite !firstn_cons in Hb. injection Hb as -> -> _. rewrite E. unfold SepSidLength. by rewrite !read8_second. }
  rewrite El. run. rewrite (same_sid_spec _ _ _ Hu Hs Hb). run. case_bool_decide; [done|]. by apply group_present_spec.
Qed.

(** *** The walk *)

Lemma ace_at_fields ace (x : ACE) : ace_at ace = Ok x -> sid_ok (ace_sid x) ->
  read8 ace 0 = Ok (ace_type x) /\ read8 ace 1 = Ok (ace_flags x) /\ read16 ace 2 = Ok (ace_size x) /\ read32 ace 4 = Ok (ace_mask x) /\
  take (length (ace_sid x)) (at_offset ace ACE_SID) = ace_sid x.
Proof.
  unfold ace_at. intros E Hs. inv_outcome E. split_and!; try done. cbn in Hs. rename v3 into len, v4 into sid. unfold read in E5.
  destruct (_ && _) eqn:C; [|done]. injection E5 as <-. apply andb_prop in C as [_ C%Z.leb_le]. cbn. rewrite length_take.
  replace (length (drop (Z.to_nat 0) (at_offset ace ACE_SID))) with (length (at_offset ace ACE_SID)) by done. rewrite Nat.min_l by lia. done.
Qed.

Lemma union_testbit deny vs i : Z.testbit (union_of deny vs) i = existsb (fun v : bool * Z => Bool.eqb v.1 deny && Z.testbit v.2 i) vs.
Proof.
  induction vs as [|[d m] vs IH]; cbn [union_of existsb fst snd]; [apply Z.bits_0|]. destruct (Bool.eqb d deny); cbn [andb orb]; [|done].
  by rewrite Z.lor_spec, IH.
Qed.

(** One step of the walk: an ACE the token has no part in, a denial, a grant. *)
Lemma ace_walk_step token desired mapping acl count offset cur den (x : ACE) : token_ok token -> desired <> 0 ->
  ace_at (at_offset acl offset) = Ok x -> ace_ok x ->
  ace_walk token desired mapping acl (S count) offset cur den =
  match verdict token mapping x with
  | None => ace_walk token desired mapping acl count (offset + ace_size x) cur den
  | Some (true, m) =>
      if has desired MAXIMUM_ALLOWED then ace_walk token desired mapping acl count (offset + ace_size x) cur (Z.lor den m)
      else if has desired m then Ok (cur, Z.lor den (Z.ldiff m cur)) else ace_walk token desired mapping acl count (offset + ace_size x) cur (Z.lor den (Z.ldiff m cur))
  | Some (false, m) => ace_walk token desired mapping acl count (offset + ace_size x) (Z.lor cur (if has desired MAXIMUM_ALLOWED then m else Z.ldiff m den)) den
  end.
Proof.
  intros Ht Hd Hx (_ & Hs & _). destruct (ace_at_fields _ x Hx Hs) as (E0 & E1 & E2 & E4 & Et). cbn [ace_walk]. rewrite E2. run. rewrite E1. run.
  unfold verdict. destruct (has (ace_flags x) INHERIT_ONLY_ACE); [done|]. rewrite E0. run. rewrite (proj2 (Z.eqb_neq desired 0)) by done.
  destruct (ace_type x =? ACCESS_DENIED_ACE_TYPE).
  - rewrite (SepTokenSidPresent_spec token _ _ true Ht Hs Et). run. destruct (token_has token (ace_sid x) true); [|done]. unfold sizeof_ACE_HEADER. rewrite E4. run. done.
  - destruct (ace_type x =? ACCESS_ALLOWED_ACE_TYPE); [|done].
    rewrite (SepTokenSidPresent_spec token _ _ false Ht Hs Et). run. destruct (token_has token (ace_sid x) false); [|done]. unfold sizeof_ACE_HEADER. rewrite E4. run.
    by destruct (has desired MAXIMUM_ALLOWED).
Qed.

Definition verdicts token mapping (l : list ACE) : list (bool * Z) := omap (verdict token mapping) l.

Lemma ace_walk_maximum token desired mapping acl l offset cur den : token_ok token -> has desired MAXIMUM_ALLOWED = true ->
  aces_at acl (length l) offset = Ok l -> Forall ace_ok l ->
  exists cur' den', ace_walk token desired mapping acl (length l) offset cur den = Ok (cur', den') /\
    cur' = Z.lor cur (union_of false (verdicts token mapping l)) /\ den' = Z.lor den (union_of true (verdicts token mapping l)).
Proof.
  intros Ht Hm. assert (Hd : desired <> 0) by (intros ->; done). revert offset cur den. induction l as [|x l IH]; intros offset cur den El Hok.
  { exists cur, den. cbn. by rewrite !Z.lor_0_r. }
  cbn [length aces_at] in El. inv_outcome El. apply Forall_cons in Hok as [Hx Hok]. cbn [length].
  rewrite (ace_walk_step _ _ _ _ _ _ _ _ x Ht Hd E Hx). rewrite Hm. unfold verdicts. cbn [omap list_omap].
  destruct (verdict token mapping x) as [[[|] m]|]; cbn [union_of Bool.eqb].
  - destruct (IH (offset + ace_size x) cur (Z.lor den m) E0 Hok) as (c' & d' & -> & -> & ->). eexists _, _. split; [done|]. by rewrite Z.lor_assoc.
  - destruct (IH (offset + ace_size x) (Z.lor cur m) den E0 Hok) as (c' & d' & -> & -> & ->). eexists _, _. split; [done|]. by rewrite Z.lor_assoc.
  - by apply IH.
Qed.

Lemma ace_walk_exact token desired mapping acl l offset cur den : token_ok token -> desired <> 0 -> has desired MAXIMUM_ALLOWED = false ->
  aces_at acl (length l) offset = Ok l -> Forall ace_ok l -> agree desired den 0 ->
  exists cur' den', ace_walk token desired mapping acl (length l) offset cur den = Ok (cur', den') /\
    agree desired cur' (Z.lor cur (union_of false (before_denial desired (verdicts token mapping l)))).
Proof.
  intros Ht Hd Hm. revert offset cur den. induction l as [|x l IH]; intros offset cur den El Hok Hden.
  { exists cur, den. cbn. split; [done|]. intros i _. by rewrite Z.lor_0_r. }
  cbn [length aces_at] in El. inv_outcome El. apply Forall_cons in Hok as [Hx Hok]. cbn [length].
  rewrite (ace_walk_step _ _ _ _ _ _ _ _ x Ht Hd E Hx). rewrite Hm. unfold verdicts. cbn [omap list_omap].
  destruct (verdict token mapping x) as [[[|] m]|]; cbn [before_denial union_of Bool.eqb andb].
  - destruct (has desired m) eqn:Hdm.
    + eexists _, _. split; [done|]. intros i _. cbn. by rewrite Z.lor_0_r.
    + destruct (IH (offset + ace_size x) cur (Z.lor den (Z.ldiff m cur)) E0 Hok) as (c' & d' & -> & Hc); [|by eexists _, _].
      intros i Hi. rewrite Z.lor_spec, Z.ldiff_spec, Hden by done. by rewrite (has_false _ _ Hdm i Hi), Z.bits_0.
  - destruct (IH (offset + ace_size x) (Z.lor cur (Z.ldiff m den)) den E0 Hok Hden) as (c' & d' & -> & Hc). eexists _, _. split; [done|]. intros i Hi.
    rewrite Hc by done. rewrite !Z.lor_spec, Z.ldiff_spec, (Hden i Hi), Z.bits_0. cbn [negb]. by rewrite andb_true_r, orb_assoc.
  - by apply IH.
Qed.

(** A request for nothing ends the walk at the first ACE that is looked at. *)
Lemma ace_walk_nothing token mapping acl l offset cur den : token_ok token -> aces_at acl (length l) offset = Ok l -> Forall ace_ok l ->
  exists c d, ace_walk token 0 mapping acl (length l) offset cur den = Ok (c, d).
Proof.
  intros Ht. revert offset. induction l as [|x l IH]; intros offset El Hok; [by exists cur, den|].
  cbn [length aces_at] in El. inv_outcome El. apply Forall_cons in Hok as [(_ & Hs & _) Hok]. cbn [length ace_walk].
  destruct (ace_at_fields _ x E Hs) as (R0 & R1 & R2 & R4 & Rt). rewrite R2. run. rewrite R1. run.
  destruct (has (ace_flags x) INHERIT_ONLY_ACE); [by apply IH|]. rewrite R0. run. unfold sizeof_ACE_HEADER.
  destruct (ace_type x =? ACCESS_DENIED_ACE_TYPE).
  - rewrite (SepTokenSidPresent_spec token _ _ true Ht Hs Rt). run. destruct (token_has _ _ _); [rewrite R4; run|]; by eexists _, _.
  - destruct (ace_type x =? ACCESS_ALLOWED_ACE_TYPE); [|by eexists _, _].
    rewrite (SepTokenSidPresent_spec token _ _ false Ht Hs Rt). run. destruct (token_has _ _ _); [rewrite R4; run|]; by eexists _, _.
Qed.

(** What the walk and the [done:] label decide. *)
Lemma walk_decides token desired mapping acl l cur : token_ok token -> acl_aces acl = Ok l -> Forall ace_ok l -> read16 acl 4 = Ok (Z.of_nat (length l)) ->
  exists c d, ace_walk token desired mapping acl (length l) sizeof_ACL cur 0 = Ok (c, d) /\ access_done desired c d = decide_access desired cur (verdicts token mapping l).
Proof.
  intros Ht El Hok Hn. unfold acl_aces in El. rewrite Hn in El. revert El. run. rewrite Nat2Z.id. intros El. unfold access_done, decide_access.
  destruct (decide (desired = 0)) as [->|Hd].
  { destruct (ace_walk_nothing token mapping acl l sizeof_ACL cur 0 Ht El Hok) as (c & d & ->).
    exists c, d. split; [done|]. change (has 0 MAXIMUM_ALLOWED) with false. unfold subset_bits. rewrite !Z.land_0_r. done. }
  destruct (has desired MAXIMUM_ALLOWED) eqn:Hm.
  - destruct (ace_walk_maximum token desired mapping acl l sizeof_ACL cur 0 Ht Hm El Hok) as (c & d & -> & -> & ->). eexists _, _. split; [done|]. by rewrite Z.lor_0_l.
  - destruct (ace_walk_exact token desired mapping acl l sizeof_ACL cur 0 Ht Hd Hm El Hok ltac:(done)) as (c & d & -> & Hc). eexists _, _. split; [done|].
    fold (subset_bits desired c). rewrite (subset_agree _ _ _ Hc). destruct (subset_bits desired _) eqn:Es; [|done].
    rewrite <- (subset_agree _ _ _ Hc) in Es. unfold subset_bits in Es. by apply Z.eqb_eq.
Qed.

(** *** Safety of the decision *)

Lemma before_denial_mention desired vs i : Z.testbit desired i = true -> Z.testbit (union_of false (before_denial desired vs)) i = true -> first_mention i vs = Some false.
Proof.
  intros Hd. induction vs as [|[d m] vs IH]; cbn [before_denial union_of first_mention]; [by rewrite Z.bits_0|].
  destruct d; cbn [andb].
  - destruct (has desired m) eqn:Hm; cbn [union_of Bool.eqb]; [by rewrite Z.bits_0|]. rewrite (has_false _ _ Hm i Hd). exact IH.
  - cbn [union_of Bool.eqb]. rewrite Z.lor_spec. destruct (Z.testbit m i); [done|exact IH].
Qed.

Lemma union_mention vs i : Z.testbit (union_of false vs) i = true -> Z.testbit (union_of true vs) i = false -> first_mention i vs = Some false.
Proof.
  induction vs as [|[[|] m] vs IH]; cbn [union_of first_mention Bool.eqb]; [by rewrite Z.bits_0| |].
  - rewrite Z.lor_spec. intros H (H1 & H2)%orb_false_elim. rewrite H1. by apply IH.
  - rewrite Z.lor_spec. destruct (Z.testbit m i); [done|]. exact IH.
Qed.

(** Nothing is granted that the caller does not start with and no ACE grants first. *)
Lemma decide_access_safe desired initial vs i : Z.testbit (decide_access desired initial vs) i = true ->
  (Z.testbit initial i = true \/ first_mention i vs = Some false) /\
  (has desired MAXIMUM_ALLOWED = false -> Z.testbit desired i = true) /\
  (has desired MAXIMUM_ALLOWED = true -> Z.testbit (union_of true vs) i = false).
Proof.
  unfold decide_access. destruct (has desired MAXIMUM_ALLOWED).
  - rewrite Z.ldiff_spec, Z.lor_spec. intros [H Hn]%andb_prop. apply negb_true_iff in Hn. split; [|done]. apply orb_prop in H as [H|H]; [by left|right]. by apply union_mention.
  - destruct (subset_bits desired _) eqn:Es; [|by rewrite Z.bits_0]. intros Hd. split; [|done]. rewrite subset_bits_spec in Es. specialize (Es i Hd).
    rewrite Z.lor_spec in Es. apply orb_prop in Es as [?|?]; [by left|right]. by apply (before_denial_mention desired).
Qed.
End decision.

(** ** The reference check *)

Definition holds_security (token : TOKEN) : bool :=
  match SepTokenFindPrivilege token (Luid securityPrivilege) with Some p => enabled p | None => false end.

(** What the caller has before any ACE: the audit right it asked and holds the
    privilege for, and an owner's rights. *)
Definition initial_access (token : TOKEN) (owner : bytes) (desired : Z) : Z :=
  Z.lor (if has desired ACCESS_SYSTEM_SECURITY then ACCESS_SYSTEM_SECURITY else 0) (if token_has token owner false then OWNER_ACCESS else 0).

Definition protected_sd (sd : SEP_SECURITY_DESCRIPTOR) : bool := has (control sd) SE_DACL_PRESENT && negb (daclLength sd =? 0).

Definition access_spec (token : TOKEN) (sd : SEP_SECURITY_DESCRIPTOR) (aces : list ACE) (desired : Z) (mapping : GENERIC_MAPPING) : NTSTATUS * access_reply :=
  if has desired GENERIC_BITS then (STATUS_GENERIC_NOT_MAPPED, mkreply None 0 0 None) else
  if (ownerLength sd =? 0) || (groupLength sd =? 0) then (STATUS_INVALID_SECURITY_DESCR, mkreply None 0 0 None) else
  if negb (protected_sd sd) then (STATUS_SUCCESS, mkreply None 0 (if has desired MAXIMUM_ALLOWED then GenericAll mapping else desired) (Some STATUS_SUCCESS)) else
  let audit := has desired ACCESS_SYSTEM_SECURITY in
  if audit && negb (holds_security token) then (STATUS_SUCCESS, mkreply None 0 0 (Some STATUS_PRIVILEGE_NOT_HELD)) else
  let granted := decide_access desired (initial_access token (owner_part sd) desired) (verdicts token mapping aces) in
  (STATUS_SUCCESS, mkreply (if audit then Some (mkLUID_AND_ATTRIBUTES (Luid securityPrivilege) SE_PRIVILEGE_USED_FOR_ACCESS) else None)
    (if audit then 1 else 0) granted (Some (if negb (granted =? 0) then STATUS_SUCCESS else STATUS_ACCESS_DENIED))).

Section check.
Implicit Types (token : TOKEN) (sd : SEP_SECURITY_DESCRIPTOR) (mapping : GENERIC_MAPPING) (desired : Z) (aces : list ACE).

Lemma decide_exact desired initial vs : has desired MAXIMUM_ALLOWED = false -> subset_bits desired initial = true -> decide_access desired initial vs = desired.
Proof.
  intros Hm Hs. unfold decide_access. rewrite Hm. rewrite (proj2 (subset_bits_spec desired _)); [done|]. intros i Hi. rewrite Z.lor_spec.
  by rewrite (proj1 (subset_bits_spec _ _) Hs i Hi).
Qed.

Lemma subset_self_lor a b : subset_bits a (Z.lor a b) = true.
Proof. apply subset_bits_spec. intros i Hi. by rewrite Z.lor_spec, Hi. Qed.

Lemma check_security token : SepTokenCheckPrivileges token true [securityPrivilege] =
  (holds_security token, [if holds_security token then mkLUID_AND_ATTRIBUTES (Luid securityPrivilege) SE_PRIVILEGE_USED_FOR_ACCESS else securityPrivilege]).
Proof.
  unfold SepTokenCheckPrivileges, holds_security. cbn [check_privileges]. destruct (SepTokenFindPrivilege token (Luid securityPrivilege)) as [p|]; [|done].
  by destruct (enabled p).
Qed.

Lemma dacl_pointer sd : sd_ok sd -> at_offset (SepSdData sd) (ownerLength sd + groupLength sd + saclLength sd) = dacl_part sd.
Proof.
  intros [(H1 & H2 & H3 & H4) Hl _ _ _ _]. unfold dacl_part. rewrite take_ge; [done|]. apply Nat2Z.inj_le. rewrite length_at by lia. lia.
Qed.

Lemma owner_pointer sd : sd_ok sd -> take (length (owner_part sd)) (SepSdData sd) = owner_part sd.
Proof.
  intros [(H1 & H2 & H3 & H4) Hl _ _ _ _]. unfold owner_part. rewrite length_take. f_equal. lia.
Qed.

Lemma dacl_aces sd : sd_ok sd -> daclLength sd <> 0 ->
  exists aces, acl_aces (dacl_part sd) = Ok aces /\ Forall ace_ok aces /\ read16 (dacl_part sd) 4 = Ok (Z.of_nat (length aces)).
Proof.
  intros K Hd. pose proof (sd_lengths _ K) as (H1 & H2 & H3 & H4). pose proof (sd_data _ K) as Hl.
  assert (Hn : Z.of_nat (length (dacl_part sd)) = daclLength sd) by (rewrite <- (dacl_pointer _ K), length_at by lia; lia).
  destruct (sd_dacl _ K) as [E|E]; [rewrite E in Hn; cbn in Hn; lia|].
  destruct (SepIsValidAcl_spec (dacl_part sd) (Z.of_nat (length (dacl_part sd)))) as (v & Ev & Hv); [|lia|].
  - rewrite <- (dacl_pointer _ K). apply Forall_at, (sd_bytes _ K).
  - rewrite E in Ev. injection Ev as <-. by apply Hv.
Qed.

Lemma check_owner_and_aces_spec token sd aces desired mapping privilege count current : token_ok token -> sd_ok sd -> sid_ok (owner_part sd) ->
  acl_aces (dacl_part sd) = Ok aces -> Forall ace_ok aces -> read16 (dacl_part sd) 4 = Ok (Z.of_nat (length aces)) ->
  let granted := decide_access desired (Z.lor current (if token_has token (owner_part sd) false then OWNER_ACCESS else 0)) (verdicts token mapping aces) in
  (desired = Z.lor current OWNER_ACCESS -> has desired MAXIMUM_ALLOWED = false /\ desired <> 0) ->
  check_owner_and_aces token (SepSdData sd) (dacl_part sd) desired mapping privilege count current =
    Ok (STATUS_SUCCESS, mkreply privilege count granted (Some (if negb (granted =? 0) then STATUS_SUCCESS else STATUS_ACCESS_DENIED))).
Proof.
  intros Ht K Hs El Hok Hn granted Hex. unfold check_owner_and_aces. rewrite (SepTokenSidPresent_spec token _ _ false Ht Hs (owner_pointer _ K)). run.
  assert (Hw : forall cur, (aceCount ← read16 (dacl_part sd) 4;
      '(c, d) ← ace_walk token desired mapping (dacl_part sd) (Z.to_nat aceCount) sizeof_ACL cur 0;
      Ok (STATUS_SUCCESS, mkreply privilege count (access_done desired c d) (Some (if negb (access_done desired c d =? 0) then STATUS_SUCCESS else STATUS_ACCESS_DENIED)))) =
      Ok (STATUS_SUCCESS, mkreply privilege count (decide_access desired cur (verdicts token mapping aces))
        (Some (if negb (decide_access desired cur (verdicts token mapping aces) =? 0) then STATUS_SUCCESS else STATUS_ACCESS_DENIED)))).
  { intros cur. rewrite Hn. run. rewrite Nat2Z.id. destruct (walk_decides token desired mapping _ aces cur Ht El Hok Hn) as (c & d & -> & E). run. by rewrite E. }
  unfold granted. destruct (token_has token (owner_part sd) false); cbn [andb]; [|rewrite Z.lor_0_r; apply Hw].
  destruct (Z.eqb_spec desired (Z.lor current OWNER_ACCESS)) as [E|E]; [|apply Hw]. destruct (Hex E) as [Hm Hd].
  rewrite (decide_exact desired); [|done|rewrite <- E; by apply subset_bits_spec]. rewrite (proj2 (Z.eqb_neq desired 0)) by done. cbn [negb]. by rewrite E.
Qed.

Lemma SepTokenAccessCheck_spec token sd desired mapping : token_ok token -> sd_ok sd -> sids_ok sd ->
  exists aces, (daclLength sd <> 0 -> acl_aces (dacl_part sd) = Ok aces /\ Forall ace_ok aces) /\
    SepTokenAccessCheck token sd desired mapping 1 = Ok (access_spec token sd aces desired mapping).
Proof.
  intros Ht K [Ho _]. unfold SepTokenAccessCheck, access_spec, protected_sd.
  destruct (decide (daclLength sd = 0)) as [Hz|Hd].
  { exists []. split; [done|]. rewrite Hz. change (0 =? 0) with true. rewrite orb_true_r. cbn [negb]. rewrite andb_false_r. cbn [negb].
    destruct (has desired GENERIC_BITS); [done|]. by destruct (_ || _). }
  destruct (dacl_aces sd K Hd) as (aces & El & Hok & Hn). exists aces. split; [done|].
  destruct (has desired GENERIC_BITS); [done|]. destruct (Z.eqb_spec (ownerLength sd) 0) as [|Hon]; cbn [orb]; [done|]. destruct (groupLength sd =? 0); [done|].
  rewrite (proj2 (Z.eqb_neq (daclLength sd) 0)) by done. cbn [negb]. rewrite orb_false_r, andb_true_r.
  destruct (has (control sd) SE_DACL_PRESENT); cbn [negb]; [|done]. rewrite (dacl_pointer _ K), check_security.
  assert (Hs : sid_ok (owner_part sd)).
  { destruct Ho as [E|]; [|done]. exfalso. pose proof (sd_lengths _ K). pose proof (sd_data _ K). apply (f_equal length) in E. unfold owner_part in E. rewrite length_take in E. cbn in E. lia. }
  unfold initial_access. destruct (has desired ACCESS_SYSTEM_SECURITY); cbn [andb].
  - destruct (holds_security token); cbn [negb]; [|done]. change (1 <=? 1) with true. cbn match. cbn [head hd_error].
    destruct (Z.eqb_spec desired ACCESS_SYSTEM_SECURITY) as [->|Hne].
    + rewrite decide_exact; [done|done|apply subset_self_lor].
    + rewrite (check_owner_and_aces_spec token sd aces desired mapping _ 1 ACCESS_SYSTEM_SECURITY Ht K Hs El Hok Hn); [done|]. intros ->. done.
  - rewrite (check_owner_and_aces_spec token sd aces desired mapping None 0 0 Ht K Hs El Hok Hn); [done|]. intros ->. done.
Qed.
End check.

(** ** The callers *)

Section callers.
Implicit Types (token : TOKEN) (sd : SEP_SECURITY_DESCRIPTOR) (desired : Z).

(** What the object manager is told. *)
Definition object_access_spec (r : NTSTATUS * access_reply) : NTSTATUS * option Z :=
  if negb (NT_SUCCESS r.1) then (r.1, None) else
  let result := default STATUS_SUCCESS (reply_status r.2) in
  if negb (NT_SUCCESS result) then (result, None) else (STATUS_SUCCESS, Some (reply_granted r.2)).

Definition is_release (e : access_effect) : bool := match e with DereferenceToken | FreeDescriptor => true | _ => false end.

(** Whatever happens after the capture, the references taken are given back once,
    last, and only an impersonation token above anonymous is ever granted anything. *)
Lemma NtAccessCheck_spec token sd desired mapping privilegeSet privilegeSetLength privilegeLength p1 p2 p3 p4 aces :
  privilegeSet <> 0 -> privilegeSetLength <> 0 -> SepTokenAccessCheck token sd desired mapping 1 = Ok (access_spec token sd aces desired mapping) ->
  exists status writes, NtAccessCheck privilegeSet privilegeSetLength (inr privilegeLength) (inr mapping) (inr sd) (inr token) desired p1 p2 p3 p4 =
      Ok (status, writes ++ [DereferenceToken; FreeDescriptor]) /\ Forall (fun e => is_release e = false) writes /\
    forall g, WriteGranted g ∈ writes -> primary token = false /\ SecurityAnonymous < impersonationLevel token /\
      g = reply_granted (access_spec token sd aces desired mapping).2.
Proof.
  intros H1 H2 E. unfold NtAccessCheck. rewrite (proj2 (Z.eqb_neq privilegeSet 0)), (proj2 (Z.eqb_neq privilegeSetLength 0)) by done. cbn [orb].
  assert (Hout : forall status l, (Forall (fun e => is_release e = false) l /\ forall g, WriteGranted g ∈ l -> primary token = false /\ SecurityAnonymous < impersonationLevel token /\
      g = reply_granted (access_spec token sd aces desired mapping).2) -> exists status' writes, access_out status l = Ok (status', writes ++ [DereferenceToken; FreeDescriptor]) /\
      Forall (fun e => is_release e = false) writes /\ forall g, WriteGranted g ∈ writes -> primary token = false /\ SecurityAnonymous < impersonationLevel token /\
      g = reply_granted (access_spec token sd aces desired mapping).2) by (intros status l [Ha Hb]; by exists status, l).
  destruct (primary token) eqn:Hp; [apply Hout; split; [done|by intros g ?%not_elem_of_nil]|].
  destruct (Z.leb_spec (impersonationLevel token) SecurityAnonymous) as [|Hi]; [apply Hout; split; [done|by intros g ?%not_elem_of_nil]|].
  rewrite E. destruct (access_spec token sd aces desired mapping) as [status reply] eqn:Es. run. cbn [snd] in *.
  destruct (negb (NT_SUCCESS status)); [apply Hout; split; [done|by intros g ?%not_elem_of_nil]|]. cbv zeta.
  set (needed := if _ <? sizeof_PRIVILEGE_SET then _ else _).
  destruct (negb (NT_SUCCESS p1)); [apply Hout; split; [done|by intros g ?%not_elem_of_nil]|].
  assert (Hno : forall g (l : list access_effect), Forall (fun e => match e with WriteGranted _ => False | _ => True end) l -> WriteGranted g ∈ l -> False)
    by (intros g l Hl Hg; rewrite Forall_forall in Hl; by specialize (Hl _ Hg)).
  destruct (privilegeLength <? needed); [apply Hout; split; [by repeat constructor|intros g Hg; exfalso; revert Hg; apply Hno; by repeat constructor]|].
  destruct (negb (NT_SUCCESS p2)); [apply Hout; split; [by repeat constructor|intros g Hg; exfalso; revert Hg; apply Hno; by repeat constructor]|].
  destruct (negb (NT_SUCCESS p3)); [apply Hout; split; [by repeat constructor|intros g Hg; exfalso; revert Hg; apply Hno; by repeat constructor]|].
  assert (Hg3 : forall g l, Forall (fun e => match e with WriteGranted _ => False | _ => True end) l ->
    WriteGranted g ∈ [WriteLength needed; WritePrivileges (reply_privilegeCount reply) (if negb (reply_privilegeCount reply =? 0) then reply_privilege reply else None)] ++
      [WriteGranted (reply_granted reply)] ++ l -> g = reply_granted reply).
  { intros g l Hl Hg. apply elem_of_app in Hg as [Hg|Hg]; [exfalso; revert Hg; apply Hno; by repeat constructor|].
    apply elem_of_app in Hg as [[= ->]%list_elem_of_singleton|Hg]; [done|]. by apply Hno in Hg. }
  destruct (negb (NT_SUCCESS p4)); apply Hout; (split; [by repeat constructor|intros g Hg; split; [done|split; [done|]]]).
  - by apply (Hg3 g []).
  - rewrite <- app_assoc in Hg. by apply (Hg3 g _) in Hg; [|repeat constructor].
Qed.
End callers.

(** ** Properties *)

(** C12. The access check decides as its documentation says.  For a well-formed
    token and descriptor it never reads outside the descriptor, and the answer is
    that of a reference check on the list of ACEs: generic bits are refused,
    descriptors without owner or group are invalid, unprotected objects grant
    everything, the audit right takes the security privilege; otherwise, for
    MAXIMUM_ALLOWED, everything granted and nowhere denied, and else all of the
    request or nothing, by the grants before the first denial of anything asked.
    No bit is granted unless the caller starts with it or the first ACE that
    mentions it grants it.  The object manager hears this answer, and
    NtAccessCheck gives the token and the descriptor back exactly once and
    writes this answer only for an impersonation token above anonymous. *)
Theorem access_check_correct (token : TOKEN) (sd : SEP_SECURITY_DESCRIPTOR) (desired : Z) (mapping : GENERIC_MAPPING)
  (Htoken : token_ok token) (Hsd : sd_ok sd) (Hsids : sids_ok sd) :
  exists aces, (daclLength sd <> 0 -> acl_aces (dacl_part sd) = Ok aces) /\
    SepTokenAccessCheck token sd desired mapping 1 = Ok (access_spec token sd aces desired mapping) /\
    (forall i, let initial := initial_access token (owner_part sd) desired in let vs := verdicts token mapping aces in
      Z.testbit (decide_access desired initial vs) i = true ->
      (Z.testbit initial i = true \/ first_mention i vs = Some false) /\
      (has desired MAXIMUM_ALLOWED = false -> Z.testbit desired i = true) /\
      (has desired MAXIMUM_ALLOWED = true -> Z.testbit (union_of true vs) i = false)) /\
    (forall type mapped, exists aces', (daclLength sd <> 0 -> acl_aces (dacl_part sd) = Ok aces') /\
      SeCheckObjectAccess token type (Some sd) desired mapped =
        Ok (object_access_spec (access_spec token sd aces' (SepMapAccess desired (type_mapping type)) (type_mapping type)))) /\
    (forall privilegeSet privilegeSetLength privilegeLength p1 p2 p3 p4, privilegeSet <> 0 -> privilegeSetLength <> 0 ->
      exists status writes, NtAccessCheck privilegeSet privilegeSetLength (inr privilegeLength) (inr mapping) (inr sd) (inr token) desired p1 p2 p3 p4 =
          Ok (status, writes ++ [DereferenceToken; FreeDescriptor]) /\ Forall (fun e => is_release e = false) writes /\
        forall g, WriteGranted g ∈ writes -> primary token = false /\ SecurityAnonymous < impersonationLevel token /\
          g = reply_granted (access_spec token sd aces desired mapping).2).
Proof.
  destruct (SepTokenAccessCheck_spec token sd desired mapping Htoken Hsd Hsids) as (aces & Hl & E). exists aces. split_and!.
  - intros Hd. by apply Hl.
  - exact E.
  - intros i. apply decide_access_safe.
  - intros type mapped. destruct (SepTokenAccessCheck_spec token sd (SepMapAccess desired (type_mapping type)) (type_mapping type) Htoken Hsd Hsids) as (aces' & Hl' & E').
    exists aces'. split; [intros Hd; by apply Hl'|]. unfold SeCheckObjectAccess. rewrite E'. unfold object_access_spec.
    destruct (access_spec _ _ aces' _ _) as [status reply]. run. cbn [fst snd]. destruct (negb (NT_SUCCESS status)); [done|]. by destruct (negb (NT_SUCCESS (default _ _))).
  - intros ps psl n p1 p2 p3 p4 H1 H2. by apply NtAccessCheck_spec.
Qed.

(** ** Examples *)

Definition user_sid : bytes := [1; 1; 0; 0; 0; 0; 0; 5; 7; 0; 0; 0].

(** The world group allows read and write; the user is denied write, further on. *)
Definition example_aces : bytes :=
  [2; 0; 48; 0; 2; 0; 0; 0; 0; 0; 20; 0; 3; 0; 0; 0] ++ example_sid ++ [1; 0; 20; 0; 2; 0; 0; 0] ++ user_sid.
Definition example_sd : SEP_SECURITY_DESCRIPTOR := mksd SE_DACL_PRESENT 12 12 0 48 (example_sid ++ example_sid ++ example_aces).
Definition example_token : TOKEN := mkTOKEN false 2 user_sid [(SE_GROUP_USE_FOR_DENY_ONLY, example_sid); (SE_GROUP_ENABLED, example_sid)] [] 1 0 [] None.

Lemma example_sid_ok : sid_ok example_sid /\ sid_ok user_sid.
Proof. split; by eexists 1, _. Qed.

Lemma example_sd_ok : sd_ok example_sd /\ sids_ok example_sd.
Proof.
  split; [|split; right; apply example_sid_ok]. split; [cbn; lia|done|vm_compute_decide|by left|by right; vm_compute|done].
Qed.

Lemma access_check_correct_witness : exists aces, SepTokenAccessCheck example_token example_sd 1 (mkGENERIC_MAPPING 1 2 0 3) 1 =
  Ok (access_spec example_token example_sd aces 1 (mkGENERIC_MAPPING 1 2 0 3)).
Proof.
  destruct (access_check_correct example_token example_sd 1 (mkGENERIC_MAPPING 1 2 0 3)) as (aces & _ & E & _).
  - split; [apply example_sid_ok|]. repeat constructor; apply example_sid_ok.
  - apply example_sd_ok.
  - apply example_sd_ok.
  - exists aces. exact E.
Defined.
