(* ===== verification/SeObject.v ===== *)
(** * SeObject: the descriptors objects carry (kernel/se/secobj.c).

    Query, set and create over the slot an object stores its descriptor in; the
    handle, the slot's redirect and the pool answer through arguments. *)

From S2P Require Import Prelude NtStatus Bytes Memory SeSd SeAccess.

Definition OWNER_SECURITY_INFORMATION : Z := 0x1.
Definition GROUP_SECURITY_INFORMATION : Z := 0x2.
Definition DACL_SECURITY_INFORMATION : Z := 0x4.
Definition SACL_SECURITY_INFORMATION : Z := 0x8.
Definition LABEL_SECURITY_INFORMATION : Z := 0x10.

(** A handle resolved for an access: a refusal, or the body, whose slot may refuse too. *)
Abbreviation resolver := (Z -> NTSTATUS + (NTSTATUS + option SEP_SECURITY_DESCRIPTOR)) (only parsing).

(** ** Query *)

Definition query_access (info : Z) : Z := if has info SACL_SECURITY_INFORMATION then Z.lor READ_CONTROL ACCESS_SYSTEM_SECURITY else READ_CONTROL.

(** The lengths of the parts asked for: owner, group, SACL, DACL. *)
Definition asked_lengths (stored : option SEP_SECURITY_DESCRIPTOR) (info : Z) : Z * Z * Z * Z :=
  match stored with
  | None => (0, 0, 0, 0)
  | Some sd =>
      (if has info OWNER_SECURITY_INFORMATION then ownerLength sd else 0,
       if has info GROUP_SECURITY_INFORMATION then groupLength sd else 0,
       if has info SACL_SECURITY_INFORMATION && has (control sd) SE_SACL_PRESENT then saclLength sd else 0,
       if has info DACL_SECURITY_INFORMATION && has (control sd) SE_DACL_PRESENT then daclLength sd else 0)
  end.

(** A part copied at [offset] of the reply: its header field, its bytes, the next offset. *)
Definition reply_part (parts : bytes) (start length offset : Z) : outcome (Z * bytes * Z) :=
  if length =? 0 then Ok (0, [], offset) else l ← read parts start length; Ok (offset, l, offset + length).

Definition build_reply (stored : option SEP_SECURITY_DESCRIPTOR) (info : Z) : outcome bytes :=
  let c := match stored with Some sd => control sd | None => 0 end in
  let '(ownerLength', groupLength', saclLength', daclLength') := asked_lengths stored info in
  '(offsets, body) ← (match stored with
    | None => Ok ((0, 0, 0, 0), [])
    | Some sd =>
        '(owner, ob, offset) ← reply_part (SepSdData sd) 0 ownerLength' sizeof_SECURITY_DESCRIPTOR_RELATIVE;
        '(group, gb, offset) ← reply_part (SepSdData sd) (ownerLength sd) groupLength' offset;
        '(sacl, sb, offset) ← reply_part (SepSdData sd) (ownerLength sd + groupLength sd) saclLength' offset;
        '(dacl, db, offset) ← reply_part (SepSdData sd) (ownerLength sd + groupLength sd + saclLength sd) daclLength' offset;
        Ok ((owner, group, sacl, dacl), ob ++ gb ++ sb ++ db)
    end);
  let '(owner, group, sacl, dacl) := offsets in
  Ok ([SECURITY_DESCRIPTOR_REVISION; 0] ++ le_bytes 2 (Z.lor c SE_SELF_RELATIVE) ++ le_bytes 4 owner ++ le_bytes 4 group ++ le_bytes 4 sacl ++ le_bytes 4 dacl ++ body).

(** The status, what *returnLength receives and what the descriptor buffer receives. *)
Definition NtQuerySecurityObject (reference : resolver) (info length : Z) (returnLength : addr) (probeReturn : NTSTATUS) (pool : bool)
    (probeDescriptor : NTSTATUS) : outcome (NTSTATUS * option Z * option bytes) :=
  match reference (query_access info) with inl status => Ok (status, None, None) | inr storage =>
  match storage with inl status => Ok (status, None, None) | inr stored =>
  let '(ownerLength', groupLength', saclLength', daclLength') := asked_lengths stored info in
  let needed := u32 (sizeof_SECURITY_DESCRIPTOR_RELATIVE + ownerLength' + groupLength' + saclLength' + daclLength') in
  if negb (returnLength =? 0) && negb (NT_SUCCESS probeReturn) then Ok (probeReturn, None, None) else
  let written := if negb (returnLength =? 0) then Some needed else None in
  if length <? needed then Ok (STATUS_BUFFER_TOO_SMALL, written, None) else
  if negb pool then Ok (STATUS_INSUFFICIENT_RESOURCES, written, None) else
  reply ← build_reply stored info;
  if negb (NT_SUCCESS probeDescriptor) then Ok (probeDescriptor, written, None) else Ok (STATUS_SUCCESS, written, Some reply)
  end end.

(** ** Set *)

(** [defaultDacl]: the inline slot of the blob, [defaultDaclLength] bytes of which count. *)
Definition SepTokenDefaultDacl (token : TOKEN) : option bytes :=
  match defaultDaclOverride token with
  | Some dacl => Some dacl
  | None => if negb (defaultDaclLength token =? 0) then Some (defaultDacl token) else None
  end.

Definition SepTokenDefaultDaclLength (token : TOKEN) : Z :=
  match defaultDaclOverride token with Some dacl => Z.of_nat (length dacl) | None => defaultDaclLength token end.

Definition SepTokenGroupSid (token : TOKEN) (index : Z) : outcome bytes :=
  _ ← ASSERT (index <? Z.of_nat (length (groups token))) "index < token->groupCount";
  g ← deref (groups token !! Z.to_nat index) "SepTokenGroupSid";
  Ok g.2.

(** Where a part comes from: its start and its length. *)
Definition source : Type := bytes * Z.

Definition set_owner (token : TOKEN) (stored : option SEP_SECURITY_DESCRIPTOR) (asked : bool) (incoming : source)
    (part : SEP_SECURITY_DESCRIPTOR -> source) : outcome source :=
  if asked && negb (incoming.2 =? 0) then Ok incoming else
  match stored with
  | Some sd => if negb ((part sd).2 =? 0) then Ok (part sd) else
      sid ← SepTokenGroupSid token (primaryGroupIndex token); n ← SepSidLength sid; Ok (sid, n)
  | None => sid ← SepTokenGroupSid token (primaryGroupIndex token); n ← SepSidLength sid; Ok (sid, n)
  end.

Definition owner_source (sd : SEP_SECURITY_DESCRIPTOR) : source := (SepSdData sd, ownerLength sd).
Definition group_source sd : source := (at_offset (SepSdData sd) (ownerLength sd), groupLength sd).
Definition sacl_source sd : source := (at_offset (SepSdData sd) (ownerLength sd + groupLength sd), saclLength sd).
Definition dacl_source sd : source := (at_offset (SepSdData sd) (ownerLength sd + groupLength sd + saclLength sd), daclLength sd).

(** An ACL part and whether its PRESENT bit is set. *)
Definition set_acl (stored : option SEP_SECURITY_DESCRIPTOR) (asked : bool) (incoming : SEP_SECURITY_DESCRIPTOR) (bit : Z)
    (part : SEP_SECURITY_DESCRIPTOR -> source) (otherwise : source * bool) : source * bool :=
  if asked && has (control incoming) bit then (part incoming, true) else
  match stored with
  | Some sd => if has (control sd) bit then (part sd, true) else otherwise
  | None => otherwise
  end.

(** The new descriptor, [None] when the pool is out of memory. *)
Definition SepApplySecurityDescriptor (token : TOKEN) (stored : option SEP_SECURITY_DESCRIPTOR) (info : Z) (incoming : SEP_SECURITY_DESCRIPTOR)
    (pool : bool) : outcome (NTSTATUS * option SEP_SECURITY_DESCRIPTOR) :=
  let c := Z.ldiff (Z.ldiff (control incoming) SE_SELF_RELATIVE) (Z.lor SE_SACL_PRESENT SE_DACL_PRESENT) in
  owner ← set_owner token stored (has info OWNER_SECURITY_INFORMATION) (owner_source incoming) owner_source;
  group ← set_owner token stored (has info GROUP_SECURITY_INFORMATION) (group_source incoming) group_source;
  let '(sacl, saclPresent) := set_acl stored (has info SACL_SECURITY_INFORMATION) incoming SE_SACL_PRESENT sacl_source (([], 0), false) in
  let '(dacl, daclPresent) := set_acl stored (has info DACL_SECURITY_INFORMATION) incoming SE_DACL_PRESENT dacl_source
    (match SepTokenDefaultDacl token with
     | Some tokenDacl => ((tokenDacl, defaultDaclLength token), true)
     | None => (([], 0), false)
     end) in
  let c := if saclPresent then Z.lor c SE_SACL_PRESENT else c in
  let c := if daclPresent then Z.lor c SE_DACL_PRESENT else c in
  if negb pool then Ok (STATUS_INSUFFICIENT_RESOURCES, None) else
  ob ← read owner.1 0 owner.2;
  gb ← read group.1 0 group.2;
  sb ← (if negb (sacl.2 =? 0) then read sacl.1 0 sacl.2 else Ok []);
  db ← (if negb (dacl.2 =? 0) then read dacl.1 0 dacl.2 else Ok []);
  Ok (STATUS_SUCCESS, Some (mksd c owner.2 group.2 sacl.2 dacl.2 (ob ++ gb ++ sb ++ db))).

Definition set_access (info : Z) : Z :=
  let access := if has info (Z.lor (Z.lor OWNER_SECURITY_INFORMATION GROUP_SECURITY_INFORMATION) LABEL_SECURITY_INFORMATION) then WRITE_OWNER else 0 in
  let access := if has info SACL_SECURITY_INFORMATION then Z.lor access ACCESS_SYSTEM_SECURITY else access in
  if has info DACL_SECURITY_INFORMATION then Z.lor access WRITE_DAC else access.

(** The PRESENT bits a set forces. *)
Definition force_present (info : Z) (sd : SEP_SECURITY_DESCRIPTOR) : SEP_SECURITY_DESCRIPTOR :=
  let sd := if has info (Z.lor SACL_SECURITY_INFORMATION LABEL_SECURITY_INFORMATION) then sd <| control := Z.lor (control sd) SE_SACL_PRESENT |> else sd in
  if has info DACL_SECURITY_INFORMATION then sd <| control := Z.lor (control sd) SE_DACL_PRESENT |> else sd.

Section set.
Context {U : Type} {user : USER U}.

(** NtSetInformationToken, class TokenDefaultDacl; [dacl]: the caller's ACL pointer. *)
Definition set_default_dacl (u : U) (token : NTSTATUS + TOKEN) (dacl : addr) (pool : bool) : outcome ((NTSTATUS + TOKEN) * U) :=
  step (if dacl =? 0 then Ok (inr None, u) else
    copied (KiCopyFromUser u dacl sizeof_ACL) (fun aclHeader u =>
      newDaclLength ← read16 aclHeader 2;
      if (newDaclLength <? sizeof_ACL) || (SEP_MAX_ACL_LENGTH <? newDaclLength) then Ok (inl STATUS_INVALID_ACL, u) else
      if negb pool then Ok (inl STATUS_NO_MEMORY, u) else
      copied (KiCopyFromUser u dacl newDaclLength) (fun newDacl u => Ok (inr (Some newDacl), u)))) (fun newDacl u =>
  match token with
  | inl status => Ok (inl status, u)
  | inr token => Ok (inr (token <| defaultDaclOverride := newDacl |> <| defaultDaclLength := 0 |>), u)
  end).

(** The status and what the slot becomes ([None]: unchanged). *)
Definition NtSetSecurityObject (u : U) (token : TOKEN) (reference : resolver) (info : Z) (descriptor : addr) (capturePool pool : bool) :
    outcome (NTSTATUS * option SEP_SECURITY_DESCRIPTOR * U) :=
  if descriptor =? 0 then Ok (STATUS_ACCESS_VIOLATION, None, u) else
  '(captured, u) ← SepCaptureSecurityDescriptor u descriptor capturePool;
  match captured with inl status => Ok (status, None, u) | inr incoming =>
  if has info OWNER_SECURITY_INFORMATION && (ownerLength incoming =? 0) then Ok (STATUS_INVALID_SECURITY_DESCR, None, u) else
  if has info GROUP_SECURITY_INFORMATION && (groupLength incoming =? 0) then Ok (STATUS_INVALID_SECURITY_DESCR, None, u) else
  match reference (set_access info) with inl status => Ok (status, None, u) | inr storage =>
  match storage with inl status => Ok (status, None, u) | inr stored =>
  '(status, slot) ← SepApplySecurityDescriptor token stored info (force_present info incoming) pool;
  Ok (status, slot, u)
  end end end.

Definition SeCaptureObjectSecurity (u : U) (token : TOKEN) (slot : option SEP_SECURITY_DESCRIPTOR) (userSd : addr) (capturePool pool : bool) :
    outcome (NTSTATUS * option SEP_SECURITY_DESCRIPTOR * U) :=
  if userSd =? 0 then Ok (STATUS_SUCCESS, None, u) else
  '(captured, u) ← SepCaptureSecurityDescriptor u userSd capturePool;
  match captured with inl status => Ok (status, None, u) | inr incoming =>
  '(status, merged) ← SepApplySecurityDescriptor token slot
    (Z.lor (Z.lor (Z.lor OWNER_SECURITY_INFORMATION GROUP_SECURITY_INFORMATION) DACL_SECURITY_INFORMATION) SACL_SECURITY_INFORMATION) incoming pool;
  Ok (status, merged, u)
  end.
End set.

(** ** What a set stores *)

(** The part a set keeps: the incoming one when asked for, else the stored one,
    else the caller's primary group. *)
Definition chosen_sid (token : TOKEN) (stored : option SEP_SECURITY_DESCRIPTOR) (asked : bool) (incoming : bytes) (part : SEP_SECURITY_DESCRIPTOR -> bytes) (sid : bytes) : Prop :=
  sid = if asked && negb (bool_decide (incoming = [])) then incoming else
    let default_sid := default [] (snd <$> groups token !! Z.to_nat (primaryGroupIndex token)) in
    match stored with Some sd => if bool_decide (part sd = []) then default_sid else part sd | None => default_sid end.

(** The token can stand in for missing parts. *)
Record token_defaults (token : TOKEN) : Prop := {
  td_index : 0 <= primaryGroupIndex token;
  td_group : exists attrs sid, groups token !! Z.to_nat (primaryGroupIndex token) = Some (attrs, sid) /\ sid_ok sid /\ Forall is_u8 sid;
  td_dacl : forall d, SepTokenDefaultDacl token = Some d -> defaultDaclLength token = Z.of_nat (length d) /\ Forall is_u8 d /\ acl_ok d /\ Z.of_nat (length d) < 2 ^ 16;
}.

Section apply.
Implicit Types (sd : SEP_SECURITY_DESCRIPTOR) (token : TOKEN).

(** A source and the bytes it stands for. *)
Definition source_of (s : source) (l : bytes) : Prop := read s.1 0 s.2 = Ok l /\ s.2 = Z.of_nat (length l).

Lemma source_nil l : source_of (l, 0) [].
Proof. split; [|done]. cbn [fst snd]. by destruct (read_Ok l 0 0) as [-> _]; [lia..|]. Qed.

Lemma source_zero s l : source_of s l -> s.2 = 0 <-> l = [].
Proof. intros [_ E]. rewrite E. destruct l; cbn; split; try done; lia. Qed.

Lemma source_whole l : source_of (l, Z.of_nat (length l)) l.
Proof. split; [|done]. cbn [fst snd]. destruct (read_Ok l 0 (Z.of_nat (length l))) as [-> _]; [lia..|]. rewrite Nat2Z.id. change (Z.to_nat 0) with 0%nat. by rewrite drop_0, firstn_all. Qed.

Lemma source_part b o n : 0 <= o -> 0 <= n -> o + n <= Z.of_nat (length b) -> source_of (at_offset b o, n) (take (Z.to_nat n) (at_offset b o)).
Proof.
  intros Ho Hn Hl. assert (Z.of_nat (length (at_offset b o)) = Z.of_nat (length b) - o) by (rewrite length_at by done; lia).
  destruct (read_Ok (at_offset b o) 0 n) as [E E2]; [lia..|]. split; cbn [fst snd].
  - rewrite E. change (Z.to_nat 0) with 0%nat. by rewrite drop_0.
  - change (Z.to_nat 0) with 0%nat in E2. rewrite drop_0 in E2. lia.
Qed.

Lemma sd_sources sd : sd_ok sd ->
  source_of (owner_source sd) (owner_part sd) /\ source_of (group_source sd) (group_part sd) /\ source_of (sacl_source sd) (sacl_part sd) /\ source_of (dacl_source sd) (dacl_part sd).
Proof.
  intros [(H1 & H2 & H3 & H4) Hl _ _ _ _]. split_and!.
  - apply (source_part (SepSdData sd) 0 (ownerLength sd)); lia.
  - apply (source_part (SepSdData sd)); lia.
  - apply (source_part (SepSdData sd)); lia.
  - apply (source_part (SepSdData sd)); lia.
Qed.

Lemma set_owner_spec token stored asked s l part_source part : token_defaults token -> source_of s l ->
  (forall sd, stored = Some sd -> source_of (part_source sd) (part sd)) ->
  exists r sid, set_owner token stored asked s part_source = Ok r /\ source_of r sid /\ chosen_sid token stored asked l part sid.
Proof.
  intros T Hs Hp. unfold set_owner, chosen_sid. destruct (td_group _ T) as (attrs & g & Eg & Hg & _). pose proof (td_index _ T).
  assert (Hd : exists r, (sid ← SepTokenGroupSid token (primaryGroupIndex token); n ← SepSidLength sid; Ok (sid, n)) = Ok r /\ source_of r g).
  { unfold SepTokenGroupSid. pose proof (lookup_lt_Some _ _ _ Eg). rewrite (proj2 (Z.ltb_lt _ _)) by lia. run. rewrite Eg. run. cbn [snd].
    destruct (sid_ok_length g Hg) as [-> _]. run. eexists. split; [done|]. apply source_whole. }
  destruct Hd as (r & Er & Hr). rewrite Eg. cbn [default fmap option_fmap option_map snd].
  destruct (asked); cbn [andb].
  - destruct (Z.eqb_spec s.2 0) as [E0|E0]; cbn [negb].
    + rewrite (bool_decide_eq_true_2 (l = [])) by by apply (source_zero s l). cbn [negb]. destruct stored as [sd|]; [|by eexists _, _].
      specialize (Hp sd eq_refl). destruct (Z.eqb_spec (part_source sd).2 0) as [E1|E1]; cbn [negb].
      * rewrite bool_decide_eq_true_2 by by apply (source_zero _ _ Hp). by eexists _, _.
      * rewrite bool_decide_eq_false_2 by (intros E; by apply E1, (source_zero _ _ Hp)). by eexists _, _.
    + rewrite bool_decide_eq_false_2 by (intros E; by apply E0, (source_zero s l)). cbn [negb]. by eexists _, _.
  - destruct stored as [sd|]; [|by eexists _, _]. specialize (Hp sd eq_refl). destruct (Z.eqb_spec (part_source sd).2 0) as [E1|E1]; cbn [negb].
    + rewrite bool_decide_eq_true_2 by by apply (source_zero _ _ Hp). by eexists _, _.
    + rewrite bool_decide_eq_false_2 by (intros E; by apply E1, (source_zero _ _ Hp)). by eexists _, _.
Qed.
End apply.

(** The ACL a set keeps, and whether it is present. *)
Definition chosen_acl (stored : option SEP_SECURITY_DESCRIPTOR) (asked : bool) (incoming : SEP_SECURITY_DESCRIPTOR) (bit : Z)
    (part : SEP_SECURITY_DESCRIPTOR -> bytes) (otherwise : option bytes) : bytes * bool :=
  if asked && has (control incoming) bit then (part incoming, true) else
  match stored with
  | Some sd => if has (control sd) bit then (part sd, true) else (default [] otherwise, bool_decide (is_Some otherwise))
  | None => (default [] otherwise, bool_decide (is_Some otherwise))
  end.

Section apply_spec.
Implicit Types (sd : SEP_SECURITY_DESCRIPTOR) (token : TOKEN) (stored : option SEP_SECURITY_DESCRIPTOR).

Lemma chosen_sid_ok token stored asked incoming part sid : token_defaults token ->
  (incoming = [] \/ sid_ok incoming) -> Forall is_u8 incoming ->
  (forall sd, stored = Some sd -> (part sd = [] \/ sid_ok (part sd)) /\ Forall is_u8 (part sd)) ->
  chosen_sid token stored asked incoming part sid -> sid_ok sid /\ Forall is_u8 sid.
Proof.
  intros T Hi Hib Hp ->. destruct (td_group _ T) as (attrs & g & Eg & Hg & Hgb). rewrite Eg. cbn [default fmap option_fmap option_map snd].
  assert (Hst : forall (l : bytes), (l = [] \/ sid_ok l) -> Forall is_u8 l -> let r := if bool_decide (l = []) then g else l in sid_ok r /\ Forall is_u8 r).
  { intros l Hl Hlb. cbn zeta. case_bool_decide; [done|]. by destruct Hl. }
  destruct (asked && negb (bool_decide (incoming = []))) eqn:E.
  - apply andb_prop in E as [_ E]. apply negb_true_iff, bool_decide_eq_false in E. by destruct Hi.
  - destruct stored as [sd|]; [|done]. destruct (Hp sd eq_refl). by apply Hst.
Qed.

Lemma set_acl_spec stored asked incoming bit part_source part otherwise other : source_of (part_source incoming) (part incoming) ->
  (forall sd, stored = Some sd -> source_of (part_source sd) (part sd)) -> source_of otherwise.1 (default [] other) -> otherwise.2 = bool_decide (is_Some other) ->
  source_of (set_acl stored asked incoming bit part_source otherwise).1 (chosen_acl stored asked incoming bit part other).1 /\
  (set_acl stored asked incoming bit part_source otherwise).2 = (chosen_acl stored asked incoming bit part other).2.
Proof.
  intros Hi Hs Ho Eo. unfold set_acl, chosen_acl. destruct (asked && _); [done|]. destruct stored as [sd|]; [|by cbn; rewrite <- Eo].
  destruct (has (control sd) bit); [split; [by apply Hs|done]|by cbn; rewrite <- Eo].
Qed.

Lemma chosen_acl_ok stored asked incoming bit part other (Q : bytes -> Prop) : Q (part incoming) -> (forall sd, stored = Some sd -> Q (part sd)) -> Q (default [] other) ->
  Q (chosen_acl stored asked incoming bit part other).1.
Proof. intros H1 H2 H3. unfold chosen_acl. destruct (asked && _); [done|]. destruct stored as [sd|]; [|done]. destruct (has _ _); [by apply H2|done]. Qed.

(** The ACL parts of a descriptor: bytes, whole, short. *)
Definition acl_part_ok (l : bytes) : Prop := Forall is_u8 l /\ acl_ok l /\ Z.of_nat (length l) < 2 ^ 16.

Lemma sd_parts_ok sd : sd_ok sd -> Forall is_u8 (owner_part sd) /\ Forall is_u8 (group_part sd) /\ acl_part_ok (sacl_part sd) /\ acl_part_ok (dacl_part sd).
Proof.
  intros K. pose proof (sd_lengths _ K) as (H1 & H2 & H3 & H4). pose proof (sd_bytes _ K). split_and!; try (by apply Forall_take, Forall_at).
  - by apply Forall_take.
  - split_and!; [by apply Forall_take, Forall_at|apply (sd_sacl _ K)|]. unfold sacl_part. rewrite length_take. lia.
  - split_and!; [by apply Forall_take, Forall_at|apply (sd_dacl _ K)|]. unfold dacl_part. rewrite length_take. lia.
Qed.

Lemma read_acl s l : source_of s l -> (if negb (s.2 =? 0) then read s.1 0 s.2 else Ok []) = Ok l.
Proof. intros H. destruct (Z.eqb_spec s.2 0) as [E|E]; cbn [negb]; [by apply (source_zero s l H) in E as ->|apply H]. Qed.

(** The control word of a set. *)
Definition merged_control (c : Z) (sacl dacl : bool) : Z :=
  let c := Z.ldiff (Z.ldiff c SE_SELF_RELATIVE) (Z.lor SE_SACL_PRESENT SE_DACL_PRESENT) in
  let c := if sacl then Z.lor c SE_SACL_PRESENT else c in
  if dacl then Z.lor c SE_DACL_PRESENT else c.

Lemma merged_control_bits c sacl dacl : has (merged_control c sacl dacl) SE_SELF_RELATIVE = false /\
  has (merged_control c sacl dacl) SE_SACL_PRESENT = sacl /\ has (merged_control c sacl dacl) SE_DACL_PRESENT = dacl.
Proof.
  change SE_SELF_RELATIVE with (2 ^ 15). change SE_SACL_PRESENT with (2 ^ 4). change SE_DACL_PRESENT with (2 ^ 2). rewrite !has_bit by done.
  unfold merged_control. change (Z.lor SE_SACL_PRESENT SE_DACL_PRESENT) with 20. change SE_SELF_RELATIVE with 32768. change SE_SACL_PRESENT with 16. change SE_DACL_PRESENT with 4.
  destruct sacl, dacl; rewrite ?Z.lor_spec, !Z.ldiff_spec; cbn; rewrite ?andb_false_r; done.
Qed.

Lemma SepApplySecurityDescriptor_spec token stored info incoming : token_defaults token -> sd_ok incoming -> sids_ok incoming ->
  (forall sd, stored = Some sd -> sd_ok sd /\ sids_ok sd) ->
  exists sd, SepApplySecurityDescriptor token stored info incoming true = Ok (STATUS_SUCCESS, Some sd) /\ sd_ok sd /\ sid_ok (owner_part sd) /\ sid_ok (group_part sd) /\
    chosen_sid token stored (has info OWNER_SECURITY_INFORMATION) (owner_part incoming) owner_part (owner_part sd) /\
    chosen_sid token stored (has info GROUP_SECURITY_INFORMATION) (group_part incoming) group_part (group_part sd) /\
    (sacl_part sd, has (control sd) SE_SACL_PRESENT) = chosen_acl stored (has info SACL_SECURITY_INFORMATION) incoming SE_SACL_PRESENT sacl_part None /\
    (dacl_part sd, has (control sd) SE_DACL_PRESENT) =
      chosen_acl stored (has info DACL_SECURITY_INFORMATION) incoming SE_DACL_PRESENT dacl_part (SepTokenDefaultDacl token) /\
    control sd = merged_control (control incoming) (has (control sd) SE_SACL_PRESENT) (has (control sd) SE_DACL_PRESENT).
Proof.
  intros T K [S1 S2] Hst. unfold SepApplySecurityDescriptor. destruct (sd_sources _ K) as (I1 & I2 & I3 & I4). destruct (sd_parts_ok _ K) as (B1 & B2 & B3 & B4).
  destruct (set_owner_spec token stored (has info OWNER_SECURITY_INFORMATION) (owner_source incoming) (owner_part incoming) owner_source owner_part T I1) as (os & owner & -> & Hos & Co);
    [intros sd Es; by apply sd_sources, Hst|]. run.
  destruct (set_owner_spec token stored (has info GROUP_SECURITY_INFORMATION) (group_source incoming) (group_part incoming) group_source group_part T I2) as (gs & group & -> & Hgs & Cg);
    [intros sd Es; by apply sd_sources, Hst|]. run.
  destruct (chosen_sid_ok token stored (has info OWNER_SECURITY_INFORMATION) _ owner_part owner T S1 B1) as [Ho Hob]; [|exact Co|].
  { intros sd Es. destruct (Hst sd Es) as [K' [? _]]. split; [done|]. by apply sd_parts_ok. }
  destruct (chosen_sid_ok token stored (has info GROUP_SECURITY_INFORMATION) _ group_part group T S2 B2) as [Hg Hgb]; [|exact Cg|].
  { intros sd Es. destruct (Hst sd Es) as [K' [_ ?]]. split; [done|]. by apply sd_parts_ok. }
  destruct (set_acl_spec stored (has info SACL_SECURITY_INFORMATION) incoming SE_SACL_PRESENT sacl_source sacl_part (([], 0), false) None I3) as [Hs Es];
    [intros sd Es; by apply sd_sources, Hst|apply source_nil|done|].
  set (oth := match SepTokenDefaultDacl token with Some d => (d, defaultDaclLength token, true) | None => ([], 0, false) end).
  destruct (set_acl_spec stored (has info DACL_SECURITY_INFORMATION) incoming SE_DACL_PRESENT dacl_source dacl_part oth (SepTokenDefaultDacl token) I4) as [Hd Ed];
    [intros sd Es'; by apply sd_sources, Hst| | |].
  { unfold oth. destruct (SepTokenDefaultDacl token) as [d|] eqn:E; [|apply source_nil]. destruct (td_dacl _ T d E) as [-> _]. apply source_whole. }
  { unfold oth. by destruct (SepTokenDefaultDacl token). }
  assert (As : acl_part_ok (chosen_acl stored (has info SACL_SECURITY_INFORMATION) incoming SE_SACL_PRESENT sacl_part None).1).
  { apply chosen_acl_ok; [done|intros sd E; by apply sd_parts_ok, Hst|]. split_and!; [done|by left|done]. }
  assert (Ad : acl_part_ok (chosen_acl stored (has info DACL_SECURITY_INFORMATION) incoming SE_DACL_PRESENT dacl_part (SepTokenDefaultDacl token)).1).
  { apply chosen_acl_ok; [done|intros sd E; by apply sd_parts_ok, Hst|]. destruct (SepTokenDefaultDacl token) as [d|] eqn:E; [|split_and!; [done|by left|done]].
    destruct (td_dacl _ T d E) as (_ & ? & ? & ?). done. }
  destruct (chosen_acl stored (has info SACL_SECURITY_INFORMATION) _ _ _ _) as [sacl sp]. destruct (chosen_acl stored (has info DACL_SECURITY_INFORMATION) _ _ _ _) as [dacl dp].
  destruct (set_acl stored (has info SACL_SECURITY_INFORMATION) _ _ _ _) as [ss sp']. destruct (set_acl stored (has info DACL_SECURITY_INFORMATION) _ _ _ _) as [ds dp'].
  cbn [fst snd] in *. subst sp' dp'. cbn [negb]. rewrite (proj1 Hos). run. rewrite (proj1 Hgs). run. rewrite (read_acl _ _ Hs). run. rewrite (read_acl _ _ Hd). run.
  fold (merged_control (control incoming) sp dp). destruct (merged_control_bits (control incoming) sp dp) as (C1 & C2 & C3).
  destruct (sid_ok_length _ Ho) as [_ Lo]. destruct (sid_ok_length _ Hg) as [_ Lg]. destruct As as (As1 & As2 & As3). destruct Ad as (Ad1 & Ad2 & Ad3).
  destruct Hos as [_ Los]. destruct Hgs as [_ Lgs]. destruct Hs as [_ Lss]. destruct Hd as [_ Lds]. unfold SID_HEADER in *.
  destruct (captured_ok (merged_control (control incoming) sp dp) os.2 gs.2 ss.2 ds.2 owner group sacl dacl C1) as (Hok & P1 & P2 & P3 & P4); try lia; try done.
  eexists. split; [reflexivity|]. cbn [control]. rewrite P1, P2, P3, P4, C2, C3. done.
Qed.
End apply_spec.

(** ** A query's reply, captured again *)

Section reply.
Implicit Types (sd : SEP_SECURITY_DESCRIPTOR) (base : addr) (l sid acl : bytes).

Lemma fmap_u8 l : Forall is_u8 l -> u8 <$> l = l.
Proof. induction 1 as [|x l Hx Hl IH]; [done|]. cbn. by rewrite u8_small, IH. Qed.

Lemma buffer_copy base l1 l2 l3 : Forall is_u8 l2 ->
  KiCopyFromUser (base, l1 ++ l2 ++ l3) (base + Z.of_nat (length l1)) (Z.of_nat (length l2)) = (inr l2, (base, l1 ++ l2 ++ l3)).
Proof.
  intros Hb. cbn. rewrite (proj2 (Z.leb_le base _)), (proj2 (Z.leb_le (base + Z.of_nat (length l1) + _) _)) by (rewrite ?length_app; lia). cbn [andb].
  replace (base + Z.of_nat (length l1) - base) with (Z.of_nat (length l1)) by lia. rewrite !Nat2Z.id, drop_app_length, take_app_length. by rewrite fmap_u8.
Qed.

Lemma read_app l1 l2 l3 : read (l1 ++ l2 ++ l3) (Z.of_nat (length l1)) (Z.of_nat (length l2)) = Ok l2.
Proof.
  destruct (read_Ok (l1 ++ l2 ++ l3) (Z.of_nat (length l1)) (Z.of_nat (length l2))) as [-> _]; [lia|lia|rewrite !length_app; lia|].
  by rewrite !Nat2Z.id, drop_app_length, take_app_length.
Qed.

(** A number written at its place is read back. *)
Lemma read_number l1 l3 n v : 0 <= v < 2 ^ (8 * Z.of_nat n) ->
  (l ← read (l1 ++ le_bytes n v ++ l3) (Z.of_nat (length l1)) (Z.of_nat n); Ok (le_value l)) = Ok v.
Proof.
  intros Hv. pose proof (read_app l1 (le_bytes n v) l3) as E. rewrite length_le_bytes in E. rewrite E. run. by rewrite le_value_bytes.
Qed.

(** The header of a SID or an ACL, copied from where the whole lies. *)
Lemma buffer_head base l1 l2 l3 n : Forall is_u8 l2 -> (n <= length l2)%nat ->
  KiCopyFromUser (base, l1 ++ l2 ++ l3) (base + Z.of_nat (length l1)) (Z.of_nat n) = (inr (take n l2), (base, l1 ++ l2 ++ l3)).
Proof.
  intros Hb Hn. rewrite <- (take_drop n l2) at 1 3. rewrite <- !app_assoc.
  replace (Z.of_nat n) with (Z.of_nat (length (take n l2))) by (rewrite length_take; lia). by apply buffer_copy, Forall_take.
Qed.

(** The room a copy goes to, behind [pre]; and what the copy makes of it. *)
Definition room_at (room : option (bytes * bytes)) : option (bytes * Z) := (fun '(pre, rest) => (pre ++ rest, Z.of_nat (length pre))) <$> room.
Definition filled (room : option (bytes * bytes)) l : bytes := match room with None => [] | Some (pre, rest) => pre ++ l ++ drop (length l) rest end.
Definition room_size (room : option (bytes * bytes)) (n : Z) : Z := match room with None => 0 | Some _ => n end.
Definition room_for (room : option (bytes * bytes)) l : Prop := forall pre rest, room = Some (pre, rest) -> (length l <= length rest)%nat.

Lemma copied_to_room {A} base l1 l l3 pre rest (f : bytes -> addr * bytes -> outcome ((NTSTATUS + A) * (addr * bytes))) :
  Forall is_u8 l -> (length l <= length rest)%nat ->
  copied_to (base, l1 ++ l ++ l3) (pre ++ rest) (Z.of_nat (length pre)) (base + Z.of_nat (length l1)) (Z.of_nat (length l)) f =
    f (pre ++ l ++ drop (length l) rest) (base, l1 ++ l ++ l3).
Proof.
  intros Hb Hl. unfold copied_to. rewrite length_app, (proj2 (Z.leb_le 0 _)), (proj2 (Z.leb_le (_ + _) _)) by lia. cbn [andb].
  rewrite (buffer_copy base l1 l l3 Hb). unfold copied. by rewrite store_at_app.
Qed.

Lemma capture_sid_at base l1 sid l3 room : Forall is_u8 sid -> sid_ok sid -> room_for room sid ->
  SepCaptureSid (base, l1 ++ sid ++ l3) (base + Z.of_nat (length l1)) (room_at room) (room_size room (Z.of_nat (length sid))) =
    Ok (inr (Z.of_nat (length sid), filled room sid), (base, l1 ++ sid ++ l3)).
Proof.
  intros Hb Hs Hc. destruct (sid_ok_length sid Hs) as [_ Hl]. unfold SID_HEADER in Hl. unfold SepCaptureSid, SID_HEADER.
  pose proof (buffer_head base l1 sid l3 8 Hb ltac:(lia)) as E. change (Z.of_nat 8) with 8 in E. rewrite E. unfold copied.
  destruct Hs as (c & rest & Es & Hcr & Hls). unfold SID_HEADER in Hls. destruct rest as [|r2 rest]; [rewrite Es in Hl; cbn in Hl; lia|].
  replace (take 8 sid) with (SID_REVISION :: c :: take 6 (r2 :: rest)) by (by rewrite Es).
  rewrite read8_head. run. rewrite read8_second. run. change (SID_REVISION =? SID_REVISION) with true. cbn [negb orb].
  rewrite (proj2 (Z.ltb_ge _ c)) by lia. unfold SepSidLength. rewrite read8_second. run. unfold SID_HEADER. replace (8 + c * 4) with (Z.of_nat (length sid)) by lia.
  destruct room as [[pre behind]|]; [|done]. cbn [room_at room_size fmap option_fmap option_map]. rewrite Z.eqb_refl. cbn [negb]. by rewrite copied_to_room by (done || by apply (Hc pre)).
Qed.

Lemma acl_exact_length acl : acl_exact acl -> (8 <= length acl)%nat.
Proof.
  intros [E _]. unfold SepIsValidAcl in E. destruct (Z.ltb_spec (Z.of_nat (length acl)) sizeof_ACL); [done|]. unfold sizeof_ACL in *. lia.
Qed.

Lemma capture_acl_at base l1 acl l3 room : Forall is_u8 acl -> acl_exact acl -> room_for room acl ->
  SepCaptureAcl (base, l1 ++ acl ++ l3) (base + Z.of_nat (length l1)) (room_at room) (room_size room (Z.of_nat (length acl))) =
    Ok (inr (Z.of_nat (length acl), filled room acl), (base, l1 ++ acl ++ l3)).
Proof.
  intros Hb Ha Hc. pose proof (acl_exact_length acl Ha) as Hl. destruct Ha as [Hv Hsz]. unfold SepCaptureAcl, sizeof_ACL.
  pose proof (buffer_head base l1 acl l3 8 Hb Hl) as E. change (Z.of_nat 8) with 8 in E. rewrite E. unfold copied, read16.
  rewrite read_take by lia. fold (read16 acl 2). rewrite Hsz. run. rewrite (proj2 (Z.ltb_ge _ 8)) by lia.
  destruct room as [[pre behind]|]; [|done]. cbn [room_at room_size fmap option_fmap option_map]. rewrite Z.eqb_refl. cbn [negb].
  rewrite copied_to_room by (done || by apply (Hc pre)). unfold at_offset. rewrite Nat2Z.id, drop_app_length, SepIsValidAcl_app by lia. by rewrite Hv.
Qed.

(** *** The reply *)

Definition relative_header (c owner group sacl dacl : Z) : bytes :=
  [SECURITY_DESCRIPTOR_REVISION; 0] ++ le_bytes 2 c ++ le_bytes 4 owner ++ le_bytes 4 group ++ le_bytes 4 sacl ++ le_bytes 4 dacl.

Lemma length_relative_header c owner group sacl dacl : length (relative_header c owner group sacl dacl) = 20%nat.
Proof. done. Qed.

(** The descriptors the capture makes: whole SIDs, exact ACLs present in the control word. *)
Record sd_exact sd : Prop := {
  se_ok : sd_ok sd;
  se_owner : sid_ok (owner_part sd);
  se_group : sid_ok (group_part sd);
  se_sacl : (sacl_part sd = [] \/ acl_exact (sacl_part sd)) /\ (saclLength sd <> 0 -> has (control sd) SE_SACL_PRESENT = true);
  se_dacl : (dacl_part sd = [] \/ acl_exact (dacl_part sd)) /\ (daclLength sd <> 0 -> has (control sd) SE_DACL_PRESENT = true);
  se_control : is_u16 (control sd);
}.

Definition ALL_INFORMATION : Z := Z.lor (Z.lor (Z.lor OWNER_SECURITY_INFORMATION GROUP_SECURITY_INFORMATION) DACL_SECURITY_INFORMATION) SACL_SECURITY_INFORMATION.

Lemma asked_all sd : sd_exact sd -> asked_lengths (Some sd) ALL_INFORMATION = (ownerLength sd, groupLength sd, saclLength sd, daclLength sd).
Proof.
  intros X. unfold asked_lengths.
  assert (E : has ALL_INFORMATION OWNER_SECURITY_INFORMATION = true /\ has ALL_INFORMATION GROUP_SECURITY_INFORMATION = true /\
    has ALL_INFORMATION SACL_SECURITY_INFORMATION = true /\ has ALL_INFORMATION DACL_SECURITY_INFORMATION = true) by done.
  destruct E as (-> & -> & -> & ->). cbn [andb]. f_equal; [f_equal|].
  - destruct (has (control sd) SE_SACL_PRESENT) eqn:E; [done|]. destruct (decide (saclLength sd = 0)) as [->|Hn]; [done|]. apply (se_sacl _ X) in Hn. congruence.
  - destruct (has (control sd) SE_DACL_PRESENT) eqn:E; [done|]. destruct (decide (daclLength sd = 0)) as [->|Hn]; [done|]. apply (se_dacl _ X) in Hn. congruence.
Qed.

Lemma reply_part_spec data start l offset n : read data start n = Ok l -> n = Z.of_nat (length l) ->
  reply_part data start n offset = Ok (if n =? 0 then 0 else offset, l, offset + n).
Proof.
  intros E Hn. unfold reply_part. destruct (Z.eqb_spec n 0) as [Hz|Hz]; [|by rewrite E].
  destruct l; [|cbn in Hn; lia]. do 3 f_equal. lia.
Qed.

(** A part read in place. *)
Lemma data_parts sd : sd_ok sd -> read (SepSdData sd) 0 (ownerLength sd) = Ok (owner_part sd) /\
  read (SepSdData sd) (ownerLength sd) (groupLength sd) = Ok (group_part sd) /\
  read (SepSdData sd) (ownerLength sd + groupLength sd) (saclLength sd) = Ok (sacl_part sd) /\
  read (SepSdData sd) (ownerLength sd + groupLength sd + saclLength sd) (daclLength sd) = Ok (dacl_part sd) /\
  SepSdData sd = owner_part sd ++ group_part sd ++ sacl_part sd ++ dacl_part sd /\
  ownerLength sd = Z.of_nat (length (owner_part sd)) /\ groupLength sd = Z.of_nat (length (group_part sd)) /\
  saclLength sd = Z.of_nat (length (sacl_part sd)) /\ daclLength sd = Z.of_nat (length (dacl_part sd)).
Proof.
  intros K. destruct (sd_sources _ K) as ([_ L1] & [_ L2] & [_ L3] & [_ L4]). pose proof (sd_lengths _ K) as (H1 & H2 & H3 & H4). pose proof (sd_data _ K) as Hl.
  destruct (read_Ok (SepSdData sd) 0 (ownerLength sd)) as [E1 _]; [lia..|]. destruct (read_Ok (SepSdData sd) (ownerLength sd) (groupLength sd)) as [E2 _]; [lia..|].
  destruct (read_Ok (SepSdData sd) (ownerLength sd + groupLength sd) (saclLength sd)) as [E3 _]; [lia..|].
  destruct (read_Ok (SepSdData sd) (ownerLength sd + groupLength sd + saclLength sd) (daclLength sd)) as [E4 _]; [lia..|].
  split_and!; try done. unfold owner_part, group_part, sacl_part. rewrite <- (dacl_pointer _ K). unfold at_offset.
  rewrite <- (take_drop (Z.to_nat (ownerLength sd)) (SepSdData sd)) at 1. f_equal.
  rewrite <- (take_drop (Z.to_nat (groupLength sd)) (drop _ _)) at 1. f_equal. rewrite drop_drop.
  rewrite <- (take_drop (Z.to_nat (saclLength sd)) (drop _ _)) at 1. rewrite drop_drop. rewrite <- !Z2Nat.inj_add by lia. done.
Qed.

Definition reply_of sd : bytes := relative_header (Z.lor (control sd) SE_SELF_RELATIVE) 20 (20 + ownerLength sd)
  (if saclLength sd =? 0 then 0 else 20 + ownerLength sd + groupLength sd) (if daclLength sd =? 0 then 0 else 20 + ownerLength sd + groupLength sd + saclLength sd) ++ SepSdData sd.

Lemma build_reply_spec sd : sd_exact sd -> build_reply (Some sd) ALL_INFORMATION = Ok (reply_of sd).
Proof.
  intros X. unfold build_reply. rewrite (asked_all _ X). destruct (data_parts _ (se_ok _ X)) as (E1 & E2 & E3 & E4 & ED & L1 & L2 & L3 & L4).
  destruct (sid_ok_length _ (se_owner _ X)) as [_ Lo]. destruct (sid_ok_length _ (se_group _ X)) as [_ Lg]. unfold SID_HEADER in *.
  rewrite (reply_part_spec _ _ _ _ _ E1 L1). run. rewrite (proj2 (Z.eqb_neq (ownerLength sd) 0)) by lia.
  rewrite (reply_part_spec _ _ _ _ _ E2 L2). run. rewrite (proj2 (Z.eqb_neq (groupLength sd) 0)) by lia.
  rewrite (reply_part_spec _ _ _ _ _ E3 L3). run. rewrite (reply_part_spec _ _ _ _ _ E4 L4). run. unfold reply_of. rewrite ED. unfold relative_header, sizeof_SECURITY_DESCRIPTOR_RELATIVE.
  cbv zeta. done.
Qed.
End reply.

Section roundtrip.
Implicit Types (sd : SEP_SECURITY_DESCRIPTOR) (base : addr) (l b : bytes).

Lemma header_fields c owner group sacl dacl (rest : bytes) : 0 <= c < 2 ^ 16 -> 0 <= owner < 2 ^ 32 -> 0 <= group < 2 ^ 32 -> 0 <= sacl < 2 ^ 32 -> 0 <= dacl < 2 ^ 32 ->
  let b := relative_header c owner group sacl dacl ++ rest in
  read8 b 0 = Ok SECURITY_DESCRIPTOR_REVISION /\ read16 b 2 = Ok c /\ read32 b 4 = Ok owner /\ read32 b 8 = Ok group /\ read32 b 12 = Ok sacl /\ read32 b 16 = Ok dacl.
Proof.
  intros Hc H1 H2 H3 H4 b. unfold b, relative_header. rewrite <- !app_assoc. split_and!.
  - apply read8_head.
  - apply (read_number [SECURITY_DESCRIPTOR_REVISION; 0] _ 2 c Hc).
  - rewrite app_assoc. apply (read_number ([SECURITY_DESCRIPTOR_REVISION; 0] ++ le_bytes 2 c) _ 4 owner H1).
  - rewrite !app_assoc, <- (app_assoc _ _ rest), <- (app_assoc _ _ (_ ++ rest)), <- (app_assoc _ _ (_ ++ _ ++ rest)).
    apply (read_number (([SECURITY_DESCRIPTOR_REVISION; 0] ++ le_bytes 2 c) ++ le_bytes 4 owner) _ 4 group H2).
  - rewrite !app_assoc, <- (app_assoc _ _ rest), <- (app_assoc _ _ (_ ++ rest)).
    apply (read_number ((([SECURITY_DESCRIPTOR_REVISION; 0] ++ le_bytes 2 c) ++ le_bytes 4 owner) ++ le_bytes 4 group) _ 4 sacl H3).
  - rewrite !app_assoc, <- (app_assoc _ _ rest).
    apply (read_number (((([SECURITY_DESCRIPTOR_REVISION; 0] ++ le_bytes 2 c) ++ le_bytes 4 owner) ++ le_bytes 4 group) ++ le_bytes 4 sacl) _ 4 dacl H4).
Qed.

Lemma buffer_start base b n : Forall is_u8 b -> (n <= length b)%nat -> KiCopyFromUser (base, b) base (Z.of_nat n) = (inr (take n b), (base, b)).
Proof.
  intros Hb Hn. pose proof (buffer_head base [] b [] n Hb Hn) as E. rewrite app_nil_l, app_nil_r in E. cbn [length] in E. by rewrite Z.add_0_r in E.
Qed.

Lemma take_read l n o k : 0 <= o -> 0 <= k -> o + k <= Z.of_nat n -> (n <= length l)%nat ->
  (v ← read (take n l) o k; Ok (le_value v)) = (v ← read l o k; Ok (le_value v)).
Proof. intros. by rewrite read_take by lia. Qed.

Lemma resolve_relative base c owner group sacl dacl (data : bytes) : is_u16 c -> has c SE_SELF_RELATIVE = true ->
  0 <= owner < 2 ^ 32 -> 0 <= group < 2 ^ 32 -> 0 <= sacl < 2 ^ 32 -> 0 <= dacl < 2 ^ 32 -> Forall is_u8 data ->
  let b := relative_header c owner group sacl dacl ++ data in
  SepResolveSdParts (base, b) base = Ok (inr (mkparts c (relative_part base owner) (relative_part base group)
    (if has c SE_SACL_PRESENT then relative_part base sacl else 0) (if has c SE_DACL_PRESENT then relative_part base dacl else 0)), (base, b)).
Proof.
  intros Hc Hsr H1 H2 H3 H4 Hd b. destruct (header_fields c owner group sacl dacl data Hc H1 H2 H3 H4) as (R0 & R2 & R4 & R8 & R12 & R16). fold b in R0, R2, R4, R8, R12, R16.
  assert (Hb : Forall is_u8 b).
  { unfold b, relative_header. repeat apply Forall_app_2; try apply le_bytes_u8; [by repeat constructor|done]. }
  assert (Hl : (20 <= length b)%nat) by (unfold b; rewrite length_app, length_relative_header; lia).
  unfold SepResolveSdParts. pose proof (buffer_start base b 4 Hb ltac:(lia)) as E. change (Z.of_nat 4) with 4 in E. rewrite E. unfold copied, read8, read16.
  rewrite (take_read b 4 0 1) by lia. fold (read8 b 0). rewrite R0. run. change (SECURITY_DESCRIPTOR_REVISION =? SECURITY_DESCRIPTOR_REVISION) with true. cbn [negb].
  rewrite (take_read b 4 2 2) by lia. fold (read16 b 2). rewrite R2. run. rewrite Hsr.
  pose proof (buffer_start base b 20 Hb ltac:(lia)) as E2. change (Z.of_nat 20) with 20 in E2. unfold sizeof_SECURITY_DESCRIPTOR_RELATIVE. rewrite E2. unfold read32.
  rewrite (take_read b 20 2 2) by lia. fold (read16 b 2). rewrite R2. run. rewrite (take_read b 20 4 4) by lia. fold (read32 b 4). rewrite R4. run.
  rewrite (take_read b 20 8 4) by lia. fold (read32 b 8). rewrite R8. run. rewrite (take_read b 20 12 4) by lia. fold (read32 b 12). rewrite R12. run.
  rewrite (take_read b 20 16 4) by lia. fold (read32 b 16). rewrite R16. run. done.
Qed.

Lemma relative_address base o : 0 < base -> 0 < o -> base + o < 2 ^ 64 -> relative_part base o = base + o /\ (relative_part base o =? 0) = false.
Proof.
  intros Hb Ho Ht. unfold relative_part. rewrite (proj2 (Z.eqb_neq o 0)) by lia. rewrite u64_small by (unfold is_u64; lia). split; [done|]. apply Z.eqb_neq. lia.
Qed.

Lemma part_sid_at base l1 sid l3 room : 0 < base -> 20 <= Z.of_nat (length l1) -> base + Z.of_nat (length l1) < 2 ^ 64 ->
  Forall is_u8 sid -> sid_ok sid -> room_for room sid -> let n := room_size room (Z.of_nat (length sid)) in
  capture_part SepCaptureSid (base, l1 ++ sid ++ l3) (relative_part base (Z.of_nat (length l1))) n (room_at room) n =
    Ok (inr (Z.of_nat (length sid), filled room sid), (base, l1 ++ sid ++ l3)).
Proof.
  intros Hb Hl Ht Hu Hs Hc n. destruct (relative_address base (Z.of_nat (length l1)) Hb ltac:(lia) Ht) as [E E0]. unfold capture_part. rewrite E0, E.
  by apply capture_sid_at.
Qed.

Lemma part_acl_at base l1 acl l3 room (present : bool) : 0 < base -> 20 <= Z.of_nat (length l1) -> base + Z.of_nat (length l1) < 2 ^ 64 ->
  Forall is_u8 acl -> acl = [] \/ acl_exact acl -> (Z.of_nat (length acl) <> 0 -> present = true) -> room_for room acl ->
  let n := room_size room (Z.of_nat (length acl)) in
  capture_part SepCaptureAcl (base, l1 ++ acl ++ l3) (if present then relative_part base (if Z.of_nat (length acl) =? 0 then 0 else Z.of_nat (length l1)) else 0) n (room_at room) n =
    Ok (inr (Z.of_nat (length acl), filled room acl), (base, l1 ++ acl ++ l3)).
Proof.
  intros Hb Hl Ht Hu Ha Hp Hc n. unfold n, capture_part. destruct Ha as [->|Ha].
  - cbn [length]. change (Z.of_nat 0 =? 0) with true. cbn match. unfold relative_part. change (0 =? 0) with true. cbn match. destruct present; by destruct room as [[pre rest]|].
  - pose proof (acl_exact_length acl Ha). rewrite Hp by lia. rewrite (proj2 (Z.eqb_neq (Z.of_nat (length acl)) 0)) by lia.
    destruct (relative_address base (Z.of_nat (length l1)) Hb ltac:(lia) Ht) as [E E0]. rewrite E0, E. by apply capture_acl_at.
Qed.

Lemma reply_captured sd base : sd_exact sd -> 0 < base -> base + Z.of_nat (length (reply_of sd)) < 2 ^ 64 ->
  SepCaptureSecurityDescriptor (base, reply_of sd) base true = Ok (inr sd, (base, reply_of sd)).
Proof.
  intros X H0 Ht. pose proof (se_ok _ X) as K. destruct (data_parts _ K) as (_ & _ & _ & _ & ED & L1 & L2 & L3 & L4).
  destruct (sd_parts_ok _ K) as (B1 & B2 & (B3 & _) & (B4 & _)). destruct (sid_ok_length _ (se_owner _ X)) as [_ Lo]. destruct (sid_ok_length _ (se_group _ X)) as [_ Lg].
  pose proof (sd_lengths _ K) as (Ho & Hg & Hs & Hd). unfold SID_HEADER in *. pose proof (se_control _ X) as Hcu. pose proof (sd_absolute _ K) as Habs.
  pose proof (se_owner _ X) as So. pose proof (se_group _ X) as Sg.
  set (c := Z.lor (control sd) SE_SELF_RELATIVE). set (owner := owner_part sd) in *. set (group := group_part sd) in *. set (sacl := sacl_part sd) in *. set (dacl := dacl_part sd) in *.
  change SE_SELF_RELATIVE with (2 ^ 15) in Habs. rewrite has_bit in Habs by done.
  assert (Hc16 : is_u16 c).
  { unfold is_u16 in *. assert (Hn : 0 <= c) by (apply Z.lor_nonneg; split; [lia|done]). split; [done|]. apply bits_bound; [done..|]. intros i Hi. unfold c. rewrite Z.lor_spec.
    rewrite (proj1 (bits_bound (control sd) 16 ltac:(lia) ltac:(done)) ltac:(lia) i Hi). change SE_SELF_RELATIVE with (2 ^ 15). by rewrite Z.pow2_bits_false by lia. }
  assert (Hsr : has c SE_SELF_RELATIVE = true) by (unfold c; change SE_SELF_RELATIVE with (2 ^ 15); by rewrite has_bit, Z.lor_spec, Z.pow2_bits_true, orb_true_r by done).
  assert (Hsp : has c SE_SACL_PRESENT = has (control sd) SE_SACL_PRESENT) by (unfold c; change SE_SACL_PRESENT with (2 ^ 4); rewrite !has_bit, Z.lor_spec by done; apply orb_false_r).
  assert (Hdp : has c SE_DACL_PRESENT = has (control sd) SE_DACL_PRESENT) by (unfold c; change SE_DACL_PRESENT with (2 ^ 2); rewrite !has_bit, Z.lor_spec by done; apply orb_false_r).
  assert (Hcc : Z.ldiff c SE_SELF_RELATIVE = control sd).
  { apply Z.bits_inj'. intros i Hi. unfold c. change SE_SELF_RELATIVE with (2 ^ 15). rewrite Z.ldiff_spec, Z.lor_spec. destruct (decide (i = 15)) as [->|].
    - rewrite Z.pow2_bits_true, Habs by done. done.
    - rewrite Z.pow2_bits_false by done. by rewrite orb_false_r, andb_true_r. }
  unfold SepCaptureSecurityDescriptor. set (b := reply_of sd) in *.
  assert (Hb : b = relative_header c 20 (20 + ownerLength sd) (if saclLength sd =? 0 then 0 else 20 + ownerLength sd + groupLength sd)
    (if daclLength sd =? 0 then 0 else 20 + ownerLength sd + groupLength sd + saclLength sd) ++ SepSdData sd) by done.
  set (h := relative_header _ _ _ _ _) in Hb. assert (Hh : length h = 20%nat) by apply length_relative_header.
  assert (Hlb : Z.of_nat (length b) = 20 + ownerLength sd + groupLength sd + saclLength sd + daclLength sd) by (rewrite Hb, length_app, Hh, Nat2Z.inj_add, (sd_data _ K); lia).
  pose proof (resolve_relative base c 20 (20 + ownerLength sd) (if saclLength sd =? 0 then 0 else 20 + ownerLength sd + groupLength sd)
    (if daclLength sd =? 0 then 0 else 20 + ownerLength sd + groupLength sd + saclLength sd) (SepSdData sd) Hc16 Hsr ltac:(lia) ltac:(clear -Ho; lia)) as ER.
  cbv zeta in ER. fold h in ER. rewrite <- Hb in ER. rewrite ER; [|clear -Ho Hg; destruct (_ =? _); lia|clear -Ho Hg Hs; destruct (_ =? _); lia|apply (sd_bytes _ K)]. clear ER. unfold step at 1. run. cbn [parts_owner parts_group parts_sacl parts_dacl parts_control].
  rewrite Hsp, Hdp.
  (* the parts where the reply holds them *)
  assert (P1 : forall room, room_for room owner -> let n := room_size room (ownerLength sd) in
    capture_part SepCaptureSid (base, b) (relative_part base 20) n (room_at room) n = Ok (inr (ownerLength sd, filled room owner), (base, b))).
  { intros room Hroom. pose proof (part_sid_at base h owner (group ++ sacl ++ dacl) room H0) as E. rewrite <- ED, <- Hb, Hh, <- L1 in E. apply E; try done; lia. }
  assert (P2 : forall room, room_for room group -> let n := room_size room (groupLength sd) in
    capture_part SepCaptureSid (base, b) (relative_part base (20 + ownerLength sd)) n (room_at room) n = Ok (inr (groupLength sd, filled room group), (base, b))).
  { intros room Hroom. pose proof (part_sid_at base (h ++ owner) group (sacl ++ dacl) room H0) as E. rewrite <- app_assoc, <- ED, <- Hb, length_app, Hh, Nat2Z.inj_add, <- L1, <- L2 in E.
    change (Z.of_nat 20) with 20 in E. apply E; try done; lia. }
  assert (P3 : forall room, room_for room sacl -> let n := room_size room (saclLength sd) in
    capture_part SepCaptureAcl (base, b) (if has (control sd) SE_SACL_PRESENT then relative_part base (if saclLength sd =? 0 then 0 else 20 + ownerLength sd + groupLength sd) else 0) n (room_at room) n =
      Ok (inr (saclLength sd, filled room sacl), (base, b))).
  { intros room Hroom. pose proof (part_acl_at base (h ++ owner ++ group) sacl dacl room (has (control sd) SE_SACL_PRESENT) H0) as E.
    rewrite <- !app_assoc, <- ED, <- Hb, !length_app, Hh, !Nat2Z.inj_add, <- L1, <- L2, <- L3 in E. change (Z.of_nat 20) with 20 in E. rewrite Z.add_assoc in E.
    destruct (se_sacl _ X). apply E; try done; lia. }
  assert (P4 : forall room, room_for room dacl -> let n := room_size room (daclLength sd) in
    capture_part SepCaptureAcl (base, b) (if has (control sd) SE_DACL_PRESENT then relative_part base (if daclLength sd =? 0 then 0 else 20 + ownerLength sd + groupLength sd + saclLength sd) else 0) n (room_at room) n =
      Ok (inr (daclLength sd, filled room dacl), (base, b))).
  { intros room Hroom. pose proof (part_acl_at base (h ++ owner ++ group ++ sacl) dacl [] room (has (control sd) SE_DACL_PRESENT) H0) as E. rewrite app_nil_r in E.
    rewrite <- !app_assoc, <- ED, <- Hb, !length_app, Hh, !Nat2Z.inj_add, <- L1, <- L2, <- L3, <- L4 in E. change (Z.of_nat 20) with 20 in E. rewrite !Z.add_assoc in E.
    destruct (se_dacl _ X). apply E; try done; lia. }
  assert (Hnone : forall l, room_for None l) by done.
  pose proof (P1 None (Hnone _)) as M1. pose proof (P2 None (Hnone _)) as M2. pose proof (P3 None (Hnone _)) as M3. pose proof (P4 None (Hnone _)) as M4.
  cbn [room_at room_size fmap option_fmap option_map filled] in M1, M2, M3, M4. cbv zeta in M1, M2, M3, M4.
  rewrite M1. unfold step at 1. run. rewrite M2. unfold step at 1. run. rewrite M3. unfold step at 1. run. rewrite M4. unfold step at 1. run. cbn [negb]. cbv zeta.
  set (r0 := replicate _ 0). assert (Hr0 : length r0 = (length owner + length group + length sacl + length dacl)%nat) by (unfold r0; rewrite length_replicate; lia). clearbody r0.
  assert (Hroom : forall pre rest l, (length l <= length rest)%nat -> room_for (Some (pre, rest)) l) by (by intros ? ? ? ? ? ? [= <- <-]).
  pose proof (P1 (Some ([], r0)) (Hroom [] r0 owner ltac:(lia))) as C1. cbv zeta in C1; unfold room_at, room_size, filled in C1; cbn [fmap option_fmap option_map] in C1. change (Z.of_nat (length [])) with 0 in C1. rewrite !app_nil_l in C1. rewrite C1. clear C1. unfold step at 1. run.
  set (r1 := drop (length owner) r0). assert (Hr1 : length r1 = (length group + length sacl + length dacl)%nat) by (unfold r1; rewrite length_drop; lia). clearbody r1.
  pose proof (P2 (Some (owner, r1)) (Hroom owner r1 group ltac:(lia))) as C2. cbv zeta in C2; unfold room_at, room_size, filled in C2; cbn [fmap option_fmap option_map] in C2. rewrite <- L1 in C2. rewrite Z.add_0_l, C2. clear C2. unfold step at 1. run.
  set (r2 := drop (length group) r1). assert (Hr2 : length r2 = (length sacl + length dacl)%nat) by (unfold r2; rewrite length_drop; lia). clearbody r2.
  pose proof (P3 (Some (owner ++ group, r2)) (Hroom (owner ++ group) r2 sacl ltac:(lia))) as C3. cbv zeta in C3; unfold room_at, room_size, filled in C3; cbn [fmap option_fmap option_map] in C3.
  rewrite length_app, Nat2Z.inj_add, <- L1, <- L2, <- !app_assoc in C3. rewrite C3. clear C3. unfold step at 1. run.
  set (r3 := drop (length sacl) r2). assert (Hr3 : length r3 = length dacl) by (unfold r3; rewrite length_drop; lia). clearbody r3.
  pose proof (P4 (Some (owner ++ group ++ sacl, r3)) (Hroom (owner ++ group ++ sacl) r3 dacl ltac:(lia))) as C4. cbv zeta in C4; unfold room_at, room_size, filled in C4; cbn [fmap option_fmap option_map] in C4.
  rewrite !length_app, !Nat2Z.inj_add, <- L1, <- L2, <- L3, <- !app_assoc, Z.add_assoc in C4. rewrite C4. clear C4. unfold step at 1. run.
  rewrite (drop_ge r3), app_nil_r by lia. rewrite Hcc, <- ED. by destruct sd.
Qed.
End roundtrip.

(** ** Set, then query *)

(** The rights a set asks for: WRITE_OWNER for the owner, the group and the label,
    ACCESS_SYSTEM_SECURITY for the SACL, WRITE_DAC for the DACL. *)
Definition set_rights (info : Z) : Z :=
  (if Z.testbit info 0 || Z.testbit info 1 || Z.testbit info 4 then 0x00080000 else 0) +
  (if Z.testbit info 3 then 0x01000000 else 0) + (if Z.testbit info 2 then 0x00040000 else 0).

(** The ACL an object keeps when none comes in. *)
Definition kept_acl (stored : option SEP_SECURITY_DESCRIPTOR) (k : Z) (part : SEP_SECURITY_DESCRIPTOR -> bytes) (otherwise : option bytes) : bytes * bool :=
  match stored with
  | Some sd => if Z.testbit (control sd) k then (part sd, true) else (default [] otherwise, bool_decide (is_Some otherwise))
  | None => (default [] otherwise, bool_decide (is_Some otherwise))
  end.

(** The descriptor [sd] that [incoming] and [stored] make: [owner], [group],
    [sacl] and [dacl] say which parts come from [incoming]. *)
Record made_of (token : TOKEN) (stored : option SEP_SECURITY_DESCRIPTOR) (incoming : SEP_SECURITY_DESCRIPTOR) (owner group sacl dacl : bool)
    (sd : SEP_SECURITY_DESCRIPTOR) : Prop := {
  mo_exact : sd_exact sd;
  mo_owner : chosen_sid token stored owner (owner_part incoming) owner_part (owner_part sd);
  mo_group : chosen_sid token stored group (group_part incoming) group_part (group_part sd);
  mo_sacl : (sacl_part sd, Z.testbit (control sd) 4) = if sacl then (sacl_part incoming, true) else kept_acl stored 4 sacl_part None;
  mo_dacl : (dacl_part sd, Z.testbit (control sd) 2) = if dacl then (dacl_part incoming, true) else kept_acl stored 2 dacl_part (SepTokenDefaultDacl token);
  mo_control : forall k, 0 <= k -> k <> 2 -> k <> 4 -> k <> 15 -> Z.testbit (control sd) k = Z.testbit (control incoming) k;
}.

(** The token's default DACL fills its block. *)
Definition default_exact (token : TOKEN) : Prop := forall d, SepTokenDefaultDacl token = Some d -> d = [] \/ acl_exact d.

Section set_query.
Implicit Types (sd incoming : SEP_SECURITY_DESCRIPTOR) (token : TOKEN) (stored : option SEP_SECURITY_DESCRIPTOR) (info c : Z).

Lemma has_lor a m n : has a (Z.lor m n) = has a m || has a n.
Proof.
  unfold has. rewrite Z.land_lor_distr_r. destruct (Z.eqb_spec (Z.land a m) 0) as [->|Hm]; [by rewrite Z.lor_0_l|]. cbn [negb orb].
  apply negb_true_iff, Z.eqb_neq. intros H. by apply Z.lor_eq_0_iff in H as [? _].
Qed.

Lemma info_bits info : has info OWNER_SECURITY_INFORMATION = Z.testbit info 0 /\ has info GROUP_SECURITY_INFORMATION = Z.testbit info 1 /\
  has info DACL_SECURITY_INFORMATION = Z.testbit info 2 /\ has info SACL_SECURITY_INFORMATION = Z.testbit info 3 /\
  has info LABEL_SECURITY_INFORMATION = Z.testbit info 4.
Proof.
  unfold OWNER_SECURITY_INFORMATION, GROUP_SECURITY_INFORMATION, DACL_SECURITY_INFORMATION, SACL_SECURITY_INFORMATION, LABEL_SECURITY_INFORMATION.
  split_and!; [apply (has_bit info 0)|apply (has_bit info 1)|apply (has_bit info 2)|apply (has_bit info 3)|apply (has_bit info 4)]; done.
Qed.

Lemma control_bits c : has c SE_DACL_PRESENT = Z.testbit c 2 /\ has c SE_SACL_PRESENT = Z.testbit c 4.
Proof. split; [apply (has_bit c 2)|apply (has_bit c 4)]; done. Qed.

Lemma set_access_rights info : set_access info = set_rights info.
Proof.
  unfold set_access, set_rights. rewrite !has_lor. destruct (info_bits info) as (-> & -> & -> & -> & ->).
  by destruct (Z.testbit info 0), (Z.testbit info 1), (Z.testbit info 2), (Z.testbit info 3), (Z.testbit info 4).
Qed.

Lemma merged_control_u16 c sacl dacl : is_u16 c -> is_u16 (merged_control c sacl dacl).
Proof.
  intros Hc. unfold merged_control. destruct sacl, dacl; repeat apply u16_lor || apply u16_ldiff; done.
Qed.

Lemma merged_control_other c sacl dacl k : 0 <= k -> k <> 2 -> k <> 4 -> k <> 15 -> Z.testbit (merged_control c sacl dacl) k = Z.testbit c k.
Proof.
  intros H0 H2 H4 H15. unfold merged_control.
  assert (B2 : Z.testbit SE_DACL_PRESENT k = false) by (apply (Z.pow2_bits_false 2); lia).
  assert (B4 : Z.testbit SE_SACL_PRESENT k = false) by (apply (Z.pow2_bits_false 4); lia).
  assert (B15 : Z.testbit SE_SELF_RELATIVE k = false) by (apply (Z.pow2_bits_false 15); lia).
  destruct sacl, dacl; rewrite ?Z.lor_spec, !Z.ldiff_spec, ?Z.lor_spec, ?B2, ?B4, ?B15; cbn [orb negb]; by rewrite ?orb_false_r, ?andb_true_r.
Qed.

Lemma chosen_acl_kept stored asked incoming bit k part other : (forall c, has c bit = Z.testbit c k) ->
  chosen_acl stored asked incoming bit part other = if asked && Z.testbit (control incoming) k then (part incoming, true) else kept_acl stored k part other.
Proof.
  intros Hb. unfold chosen_acl, kept_acl. rewrite Hb. destruct (asked && _); [done|]. destruct stored as [sd|]; [|done]. by rewrite Hb.
Qed.

(** The merge, said without the code. *)
Lemma apply_made token stored info incoming : token_defaults token -> default_exact token ->
  sd_ok incoming -> sids_ok incoming -> acls_exact incoming -> is_u16 (control incoming) -> (forall sd, stored = Some sd -> sd_exact sd) ->
  exists sd, SepApplySecurityDescriptor token stored info incoming true = Ok (STATUS_SUCCESS, Some sd) /\
    SepApplySecurityDescriptor token stored info incoming false = Ok (STATUS_INSUFFICIENT_RESOURCES, None) /\
    made_of token stored incoming (Z.testbit info 0) (Z.testbit info 1) (Z.testbit info 3 && Z.testbit (control incoming) 4)
      (Z.testbit info 2 && Z.testbit (control incoming) 2) sd.
Proof.
  intros T D K S [Xs Xd] Hc Hst.
  destruct (SepApplySecurityDescriptor_spec token stored info incoming T K S) as (sd & E & Ksd & So & Sg & Co & Cg & Cs & Cd & Ec).
  { intros sd Es. pose proof (Hst sd Es) as X. split; [apply (se_ok _ X)|]. split; right; [apply (se_owner _ X)|apply (se_group _ X)]. }
  destruct (info_bits info) as (I0 & I1 & I2 & I3 & _). rewrite I0 in Co. rewrite I1 in Cg. rewrite I3 in Cs. rewrite I2 in Cd.
  assert (Hb4 : forall c, has c SE_SACL_PRESENT = Z.testbit c 4) by (intros; apply control_bits).
  assert (Hb2 : forall c, has c SE_DACL_PRESENT = Z.testbit c 2) by (intros; apply control_bits).
  assert (Xsacl : sacl_part sd = [] \/ acl_exact (sacl_part sd)).
  { pose proof (f_equal fst Cs) as F. cbn [fst] in F. rewrite F. apply (chosen_acl_ok stored _ incoming _ sacl_part None (fun l => l = [] \/ acl_exact l)); [done| |by left].
    intros sd' Es. apply (se_sacl _ (Hst sd' Es)). }
  assert (Xdacl : dacl_part sd = [] \/ acl_exact (dacl_part sd)).
  { pose proof (f_equal fst Cd) as F. cbn [fst] in F. rewrite F. apply (chosen_acl_ok stored _ incoming _ dacl_part _ (fun l => l = [] \/ acl_exact l)); [done| |].
    - intros sd' Es. apply (se_dacl _ (Hst sd' Es)).
    - destruct (SepTokenDefaultDacl token) as [d|] eqn:Ed; [by apply D|by left]. }
  rewrite (chosen_acl_kept stored _ incoming _ 4 sacl_part None Hb4), Hb4 in Cs. rewrite (chosen_acl_kept stored _ incoming _ 2 dacl_part _ Hb2), Hb2 in Cd.
  destruct (data_parts _ Ksd) as (_ & _ & _ & _ & _ & _ & _ & Ls & Ld).
  exists sd. split; [done|]. split.
  { clear -E. revert E. unfold SepApplySecurityDescriptor.
    destruct (set_owner token stored (has info OWNER_SECURITY_INFORMATION) _ _) as [o| | |]; run; [|intros E; discriminate E..].
    destruct (set_owner token stored (has info GROUP_SECURITY_INFORMATION) _ _) as [g| | |]; run; [|intros E; discriminate E..].
    by destruct (set_acl _ _ _ _ _ _), (set_acl _ _ _ _ _ _). }
  split; [|done..|].
  - split; try done.
    + split; [done|]. intros Hn. rewrite Hb4. destruct (Z.testbit info 3 && _); [by injection Cs|]. unfold kept_acl in Cs.
      destruct stored as [sd'|]; [destruct (Z.testbit (control sd') 4); [by injection Cs|]|]; injection Cs as Cs _; rewrite Cs in Ls; done.
    + split; [done|]. intros Hn. rewrite Hb2. destruct (Z.testbit info 2 && _); [by injection Cd|]. unfold kept_acl in Cd.
      destruct (SepTokenDefaultDacl token) as [d|].
      * destruct stored as [sd'|]; [destruct (Z.testbit (control sd') 2)|]; by injection Cd.
      * destruct stored as [sd'|]; [destruct (Z.testbit (control sd') 2); [by injection Cd|]|]; injection Cd as Cd _; rewrite Cd in Ld; done.
    + rewrite Ec. by apply merged_control_u16.
  - intros k H0 H2 H4 H15. rewrite Ec. by apply merged_control_other.
Qed.

(** Forcing a PRESENT bit touches nothing else. *)
Lemma force_present_spec info incoming : sd_ok incoming -> sids_ok incoming -> acls_exact incoming -> is_u16 (control incoming) ->
  let sd := force_present info incoming in
  sd_ok sd /\ sids_ok sd /\ acls_exact sd /\ is_u16 (control sd) /\
  owner_part sd = owner_part incoming /\ group_part sd = group_part incoming /\ sacl_part sd = sacl_part incoming /\ dacl_part sd = dacl_part incoming /\
  (forall k, 0 <= k -> k <> 2 -> k <> 4 -> Z.testbit (control sd) k = Z.testbit (control incoming) k) /\
  (Z.testbit info 3 = true -> Z.testbit (control sd) 4 = true) /\ (Z.testbit info 2 = true -> Z.testbit (control sd) 2 = true).
Proof.
  intros K S X Hc sd.
  assert (E : exists c, sd = incoming <| control := c |> /\ is_u16 c /\
    (forall k, 0 <= k -> k <> 2 -> k <> 4 -> Z.testbit c k = Z.testbit (control incoming) k) /\
    (Z.testbit info 3 = true -> Z.testbit c 4 = true) /\ (Z.testbit info 2 = true -> Z.testbit c 2 = true)).
  { unfold sd, force_present. rewrite has_lor. destruct (info_bits info) as (_ & _ & -> & -> & ->).
    assert (B2 : forall k, 0 <= k -> k <> 2 -> Z.testbit SE_DACL_PRESENT k = false) by (intros; apply (Z.pow2_bits_false 2); lia).
    assert (B4 : forall k, 0 <= k -> k <> 4 -> Z.testbit SE_SACL_PRESENT k = false) by (intros; apply (Z.pow2_bits_false 4); lia).
    destruct (Z.testbit info 3 || Z.testbit info 4) eqn:E34, (Z.testbit info 2) eqn:E2.
    - exists (Z.lor (Z.lor (control incoming) SE_SACL_PRESENT) SE_DACL_PRESENT). split_and!; [done|by repeat apply u16_lor| |intros _; rewrite !Z.lor_spec; cbn; by rewrite orb_true_r|intros _; rewrite !Z.lor_spec; cbn; by rewrite orb_true_r].
      intros k H0 H2 H4. by rewrite !Z.lor_spec, B2, B4, !orb_false_r.
    - exists (Z.lor (control incoming) SE_SACL_PRESENT). split_and!; [done|by apply u16_lor| |intros _; rewrite !Z.lor_spec; cbn; by rewrite orb_true_r|done].
      intros k H0 H2 H4. by rewrite Z.lor_spec, B4, orb_false_r.
    - exists (Z.lor (control incoming) SE_DACL_PRESENT). apply orb_false_iff in E34 as [-> _]. split_and!; [done|by apply u16_lor| |done|intros _; rewrite !Z.lor_spec; cbn; by rewrite orb_true_r].
      intros k H0 H2 H4. by rewrite Z.lor_spec, B2, orb_false_r.
    - exists (control incoming). apply orb_false_iff in E34 as [-> _]. split_and!; [by destruct incoming|done..]. }
  destruct E as (c & -> & Hc' & Ho & H3 & H2). split_and!; try done.
  destruct K as [A1 A2 A3 A4 A5 A6]. split; try done. cbn [control]. change SE_SELF_RELATIVE with (2 ^ 15) in *. rewrite has_bit in A6 |- * by done. by rewrite Ho by lia.
Qed.
End set_query.

(** ** Properties *)


(** What a query answers for a stored descriptor, every part asked for. *)
Lemma query_spec sd reference length returnLength : sd_exact sd -> returnLength <> 0 -> reference 0x01020000 = inr (inr (Some sd)) ->
  let needed := Z.of_nat (List.length (reply_of sd)) in
  NtQuerySecurityObject reference ALL_INFORMATION length returnLength STATUS_SUCCESS true STATUS_SUCCESS =
    Ok (if length <? needed then (STATUS_BUFFER_TOO_SMALL, Some needed, None) else (STATUS_SUCCESS, Some needed, Some (reply_of sd))).
Proof.
  intros X Hr Href needed. unfold NtQuerySecurityObject. change (query_access ALL_INFORMATION) with 0x01020000. rewrite Href.
  rewrite (asked_all _ X). rewrite (proj2 (Z.eqb_neq returnLength 0)) by done. cbn [negb andb]. change (NT_SUCCESS STATUS_SUCCESS) with true. cbn [negb].
  pose proof (sd_lengths _ (se_ok _ X)) as (H1 & H2 & H3 & H4). pose proof (sd_data _ (se_ok _ X)) as Hl.
  assert (En : u32 (sizeof_SECURITY_DESCRIPTOR_RELATIVE + ownerLength sd + groupLength sd + saclLength sd + daclLength sd) = needed).
  { unfold needed, reply_of, sizeof_SECURITY_DESCRIPTOR_RELATIVE. rewrite length_app, length_relative_header, Nat2Z.inj_add, Hl. rewrite u32_small by (unfold is_u32; lia). lia. }
  rewrite En. destruct (length <? needed); [done|]. rewrite (build_reply_spec _ X). run. done.
Qed.

Section set_create.
Context {U : Type} {user : USER U} {laws : USER_OK U}.
Implicit Types (u : U) (token : TOKEN) (stored : option SEP_SECURITY_DESCRIPTOR).

Lemma set_spec token reference info u descriptor incoming u' stored : token_defaults token -> default_exact token ->
  descriptor <> 0 -> SepCaptureSecurityDescriptor u descriptor true = Ok (inr incoming, u') ->
  sd_ok incoming -> sids_ok incoming -> acls_exact incoming -> is_u16 (control incoming) ->
  (Z.testbit info 0 && (ownerLength incoming =? 0)) || (Z.testbit info 1 && (groupLength incoming =? 0)) = false ->
  reference (set_rights info) = inr (inr stored) -> (forall sd, stored = Some sd -> sd_exact sd) ->
  exists sd, NtSetSecurityObject u token reference info descriptor true true = Ok (STATUS_SUCCESS, Some sd, u') /\
    NtSetSecurityObject u token reference info descriptor true false = Ok (STATUS_INSUFFICIENT_RESOURCES, None, u') /\
    made_of token stored incoming (Z.testbit info 0) (Z.testbit info 1) (Z.testbit info 3) (Z.testbit info 2) sd.
Proof.
  intros T D Hd E K S X Hc Hpart Href Hst. apply orb_false_iff in Hpart as [Po Pg].
  destruct (force_present_spec info incoming K S X Hc) as (K' & S' & X' & Hc' & P1 & P2 & P3 & P4 & Ho & F3 & F2).
  destruct (apply_made token stored info (force_present info incoming) T D K' S' X' Hc' Hst) as (sd & Ea & Eb & [M1 M2 M3 M4 M5 M6]).
  exists sd. unfold NtSetSecurityObject. rewrite (proj2 (Z.eqb_neq descriptor 0)), E by done. run.
  destruct (info_bits info) as (-> & -> & _). rewrite Po, Pg, set_access_rights, Href, Ea, Eb. run. split; [done|]. split; [done|].
  rewrite P1 in M2. rewrite P2 in M3. rewrite P3 in M4. rewrite P4 in M5. split; try done.
  - rewrite M4. destruct (Z.testbit info 3); [by rewrite F3|done].
  - rewrite M5. destruct (Z.testbit info 2); [by rewrite F2|done].
  - intros k H0 H2 H4 H15. rewrite M6 by done. by apply Ho.
Qed.

Lemma create_descriptor_spec token stored u descriptor incoming u' : token_defaults token -> default_exact token ->
  descriptor <> 0 -> SepCaptureSecurityDescriptor u descriptor true = Ok (inr incoming, u') ->
  sd_ok incoming -> sids_ok incoming -> acls_exact incoming -> is_u16 (control incoming) -> (forall sd, stored = Some sd -> sd_exact sd) ->
  exists sd, SeCaptureObjectSecurity u token stored descriptor true true = Ok (STATUS_SUCCESS, Some sd, u') /\
    SeCaptureObjectSecurity u token stored descriptor true false = Ok (STATUS_INSUFFICIENT_RESOURCES, None, u') /\
    made_of token stored incoming true true (Z.testbit (control incoming) 4) (Z.testbit (control incoming) 2) sd.
Proof.
  intros T D Hd E K S X Hc Hst. destruct (apply_made token stored ALL_INFORMATION incoming T D K S X Hc Hst) as (sd & Ea & Eb & M).
  exists sd. unfold SeCaptureObjectSecurity. rewrite (proj2 (Z.eqb_neq descriptor 0)), E by done. run. fold ALL_INFORMATION. rewrite Ea, Eb. run. done.
Qed.
End set_create.

(** C20. What a set or a create-time descriptor stores, a query returns, and the
    reply is a descriptor again.  The caller's memory holds still; the
    descriptor stored before and the token's default DACL are whole.
    - NtSetSecurityObject captures the caller's descriptor, refuses one without
      the owner or group it is told to set, asks the handle for WRITE_OWNER for
      the owner, group or label, ACCESS_SYSTEM_SECURITY for the SACL and
      WRITE_DAC for the DACL, and stores the merge: each SID from the caller
      when named and there, else the stored one, else the token's primary group;
      a named ACL from the caller, present whatever the caller's control word
      says, the other from the object, the token's default DACL standing in for a
      DACL the object has not got; every other control bit but the
      self-relative one from the caller.  Every refusal is the one of the step that
      failed and leaves the slot alone.
    - SeCaptureObjectSecurity merges in the same way for a new object: every SID
      the caller gives and every ACL its control word says is present.
    - The descriptor stored is whole, so NtQuerySecurityObject, asked for every
      part with READ_CONTROL and ACCESS_SYSTEM_SECURITY, answers with its
      self-relative image, or with the length needed if the buffer is shorter; and
      that image, captured from anywhere in memory, is the descriptor again. *)
Theorem security_descriptor_roundtrip {U : Type} {user : USER U} {laws : USER_OK U} (u : U) (token : TOKEN) (stored : option SEP_SECURITY_DESCRIPTOR)
  (reference : Z -> NTSTATUS + (NTSTATUS + option SEP_SECURITY_DESCRIPTOR)) (info : Z) (descriptor : addr)
  (Htoken : token_defaults token) (Hdefault : default_exact token) (Hsteady : forall (u : U) a, steady u a)
  (Hstored : forall sd, stored = Some sd -> sd_exact sd) :
  NtSetSecurityObject u token reference info 0 true true = Ok (STATUS_ACCESS_VIOLATION, None, u) /\
  SeCaptureObjectSecurity u token stored 0 true true = Ok (STATUS_SUCCESS, None, u) /\
  (descriptor <> 0 -> exists r u', SepCaptureSecurityDescriptor u descriptor true = Ok (r, u') /\
    let set := NtSetSecurityObject u token reference info descriptor true in
    let create := SeCaptureObjectSecurity u token stored descriptor true in
    match r with
    | inl status => NT_SUCCESS status = false /\ set true = Ok (status, None, u') /\ create true = Ok (status, None, u')
    | inr incoming =>
        (if (Z.testbit info 0 && (ownerLength incoming =? 0)) || (Z.testbit info 1 && (groupLength incoming =? 0))
         then set true = Ok (STATUS_INVALID_SECURITY_DESCR, None, u')
         else match reference (set_rights info) with
         | inl status | inr (inl status) => set true = Ok (status, None, u')
         | inr (inr slot) => (forall sd, slot = Some sd -> sd_exact sd) ->
             exists sd, set true = Ok (STATUS_SUCCESS, Some sd, u') /\ set false = Ok (STATUS_INSUFFICIENT_RESOURCES, None, u') /\
               made_of token slot incoming (Z.testbit info 0) (Z.testbit info 1) (Z.testbit info 3) (Z.testbit info 2) sd
         end) /\
        exists sd, create true = Ok (STATUS_SUCCESS, Some sd, u') /\ create false = Ok (STATUS_INSUFFICIENT_RESOURCES, None, u') /\
          made_of token stored incoming true true (Z.testbit (control incoming) 4) (Z.testbit (control incoming) 2) sd
    end) /\
  (forall sd query length returnLength, sd_exact sd -> returnLength <> 0 -> query 0x01020000 = inr (inr (Some sd)) ->
    let needed := Z.of_nat (List.length (reply_of sd)) in
    NtQuerySecurityObject query ALL_INFORMATION length returnLength STATUS_SUCCESS true STATUS_SUCCESS =
      Ok (if length <? needed then (STATUS_BUFFER_TOO_SMALL, Some needed, None) else (STATUS_SUCCESS, Some needed, Some (reply_of sd))) /\
    forall base, 0 < base -> base + needed < 2 ^ 64 ->
      SepCaptureSecurityDescriptor (base, reply_of sd) base true = Ok (inr sd, (base, reply_of sd))).
Proof.
  split; [done|]. split; [done|]. split.
  - intros Hd. destruct (capture_ok u descriptor true) as (r & u' & E & H). exists r, u'. split; [done|]. cbv zeta.
    assert (Hset : forall pool, NtSetSecurityObject u token reference info descriptor true pool =
      ('(captured, u) ← SepCaptureSecurityDescriptor u descriptor true;
       match captured with inl status => Ok (status, None, u) | inr incoming =>
       if Z.testbit info 0 && (ownerLength incoming =? 0) then Ok (STATUS_INVALID_SECURITY_DESCR, None, u) else
       if Z.testbit info 1 && (groupLength incoming =? 0) then Ok (STATUS_INVALID_SECURITY_DESCR, None, u) else
       match reference (set_rights info) with inl status => Ok (status, None, u) | inr storage =>
       match storage with inl status => Ok (status, None, u) | inr stored =>
       '(status, slot) ← SepApplySecurityDescriptor token stored info (force_present info incoming) pool;
       Ok (status, slot, u)
       end end end)).
    { intros pool. unfold NtSetSecurityObject. destruct (info_bits info) as (-> & -> & _). rewrite (proj2 (Z.eqb_neq descriptor 0)), set_access_rights by done. done. }
    destruct r as [status|incoming].
    { split; [done|]. split; [by rewrite Hset, E|]. unfold SeCaptureObjectSecurity. by rewrite (proj2 (Z.eqb_neq descriptor 0)), E. }
    destruct H as (K & Hc & HS). destruct (HS Hsteady) as [S X]. split; [|by apply create_descriptor_spec].
    destruct ((Z.testbit info 0 && _) || _) eqn:Epart.
    + rewrite Hset, E. run. apply orb_true_iff in Epart as [-> | ->]; [done|]. by destruct (Z.testbit info 0 && _).
    + destruct (reference (set_rights info)) as [status|[status|slot]] eqn:Href.
      * rewrite Hset, E. run. by apply orb_false_iff in Epart as [-> ->].
      * rewrite Hset, E. run. by apply orb_false_iff in Epart as [-> ->].
      * intros Hslot. by apply set_spec.
  - intros sd query length returnLength X Hr Href needed. split; [by apply query_spec|]. intros base. by apply reply_captured.
Qed.

(** ** The token's default DACL *)

(** A default DACL installed through NtSetInformationToken leaves the token's
    length field 0, and the merge uses that field: an object that gets its DACL
    from the token ends up with a present but empty one, which grants anything. *)
Lemma default_dacl_override_grants_all token incoming dacl desired mapping : token_ok token ->
  sd_ok incoming -> sids_ok incoming -> has (control incoming) SE_DACL_PRESENT = false ->
  (exists attrs sid, groups token !! Z.to_nat (primaryGroupIndex token) = Some (attrs, sid) /\ sid_ok sid /\ Forall is_u8 sid) -> 0 <= primaryGroupIndex token ->
  has desired GENERIC_BITS = false -> has desired MAXIMUM_ALLOWED = false ->
  exists sd, SepApplySecurityDescriptor (token <| defaultDaclOverride := Some dacl |> <| defaultDaclLength := 0 |>) None ALL_INFORMATION incoming true = Ok (STATUS_SUCCESS, Some sd) /\
    SepTokenAccessCheck token sd desired mapping 1 = Ok (STATUS_SUCCESS, mkreply None 0 desired (Some STATUS_SUCCESS)).
Proof.
  intros Ht K Hs Hnd Hg Hi Hgb Hma. set (t := token <| defaultDaclOverride := Some dacl |> <| defaultDaclLength := 0 |>).
  (* with length 0 the merge behaves as for a token whose default DACL is the empty one *)
  set (t0 := token <| defaultDaclOverride := Some [] |> <| defaultDaclLength := 0 |>).
  assert (T0 : token_defaults t0) by (split; [done|exact Hg|intros d [= <-]; split_and!; [done|done|by left|done]]).
  destruct (SepApplySecurityDescriptor_spec t0 None ALL_INFORMATION incoming T0 K Hs) as (sd & E & Ksd & So & Sg & _ & _ & _ & Hd & _); [done|].
  unfold chosen_acl in Hd. rewrite Hnd, andb_false_r in Hd. cbn [default] in Hd. injection Hd as Hd Hdp.
  assert (Et : SepApplySecurityDescriptor t None ALL_INFORMATION incoming true = SepApplySecurityDescriptor t0 None ALL_INFORMATION incoming true).
  { unfold SepApplySecurityDescriptor. change (set_owner t) with (set_owner t0). destruct (set_owner t0 _ _ _ _) as [o| | |]; [|done..]. run.
    destruct (set_owner t0 _ _ _ _) as [g| | |]; [|done..]. run. destruct (set_acl None (has ALL_INFORMATION SACL_SECURITY_INFORMATION) _ _ _ _) as [sa sp].
    unfold set_acl. rewrite Hnd, andb_false_r. done. }
  exists sd. rewrite Et, E. split; [done|].
  assert (Sids : sids_ok sd) by (split; by right).
  destruct (SepTokenAccessCheck_spec token sd desired mapping Ht Ksd Sids) as (aces & _ & Ec). rewrite Ec. unfold access_spec, protected_sd. rewrite Hgb.
  destruct (data_parts _ Ksd) as (_ & _ & _ & _ & _ & L1 & L2 & _ & L4). rewrite Hd in L4. destruct (sid_ok_length _ So) as [_ Lo]. destruct (sid_ok_length _ Sg) as [_ Lg]. unfold SID_HEADER in *.
  rewrite (proj2 (Z.eqb_neq (ownerLength sd) 0)), (proj2 (Z.eqb_neq (groupLength sd) 0)) by lia. cbn [orb]. rewrite L4. cbn [length]. change (Z.of_nat 0 =? 0) with true. cbn [negb]. rewrite andb_false_r. cbn [negb].
  by rewrite Hma.
Qed.

(** The installed DACL is not validated: an ACL that claims more ACEs than it has is taken. *)
Lemma set_default_dacl_unvalidated : exists token u,
  set_default_dacl (0x1000, [2; 0; 8; 0; 9; 0; 0; 0]) (inr example_token) 0x1000 true = Ok (inr token, u) /\
  defaultDaclOverride token = Some [2; 0; 8; 0; 9; 0; 0; 0] /\ SepIsValidAcl [2; 0; 8; 0; 9; 0; 0; 0] 8 = Ok false.
Proof. eexists _, _. split; [vm_compute; reflexivity|]. split; [done|by vm_compute]. Qed.

(** ** Examples *)

Definition example_stored : SEP_SECURITY_DESCRIPTOR := mksd 4 12 12 0 28 (example_sid ++ example_sid ++ example_acl).

Lemma example_stored_ok : sd_exact example_stored.
Proof.
  assert (K : sd_ok example_stored) by (split; [cbn; lia|done|vm_compute_decide|by left|by right; vm_compute|done]).
  split; [done|apply example_sid_ok|apply example_sid_ok| | |done].
  - split; [by left|done].
  - split; [|done]. right. split; by vm_compute.
Qed.

Definition example_creator : TOKEN := mkTOKEN true (-1) user_sid [(SE_GROUP_ENABLED, example_sid); (SE_GROUP_ENABLED, example_sid)] [] 1 28 example_acl None.

(** A buffer that stays as it is. *)
Lemma buffer_steady (u : addr * bytes) a : steady u a.
Proof.
  intros n n' l l' u' Hn. cbn. destruct ((u.1 <=? a) && (a + n <=? _)); [|done]. intros [= <- <-].
  destruct ((u.1 <=? a) && (a + n' <=? _)); [|done]. intros [= <-]. rewrite <- fmap_take, take_take. do 2 f_equal. lia.
Qed.

Lemma example_creator_defaults : token_defaults example_creator /\ default_exact example_creator.
Proof.
  split.
  - split; [done|exists SE_GROUP_ENABLED, example_sid; split_and!; [done|apply example_sid_ok|vm_compute_decide]|]. intros d [= <-]. split_and!; [done|vm_compute_decide|by right; vm_compute|done].
  - intros d [= <-]. right. split; by vm_compute.
Qed.

(** The descriptor in memory is set on an object without one, owner and DACL; the
    one stored answers a query. *)
Lemma security_descriptor_roundtrip_witness :
  let u := (0x1000, example_relative) in
  let reference := fun access => if access =? 0x000C0000 then inr (inr None) else inl STATUS_ACCESS_DENIED in
  (exists sd, NtSetSecurityObject u example_creator reference 5 0x1000 true true = Ok (STATUS_SUCCESS, Some sd, u) /\ owner_part sd = example_sid /\ dacl_part sd = example_acl) /\
  SepCaptureSecurityDescriptor (0x1000, reply_of example_stored) 0x1000 true = Ok (inr example_stored, (0x1000, reply_of example_stored)).
Proof.
  intros u reference. destruct example_creator_defaults as [T D].
  assert (E : SepCaptureSecurityDescriptor u 0x1000 true = Ok (inr example_stored, u)) by (by vm_compute).
  destruct (security_descriptor_roundtrip u example_creator None reference 5 0x1000 T D buffer_steady) as (_ & _ & Hset & Hquery); [done|].
  split.
  - destruct (Hset ltac:(done)) as (r & u' & Ec & H). rewrite E in Ec. injection Ec as <- <-. destruct H as [Hs _].
    destruct (Hs ltac:(done)) as (sd & Es & _ & [_ Mo _ _ Md _]). exists sd. split; [exact Es|]. split; [exact Mo|].
    injection Md as Md _. exact Md.
  - destruct (Hquery example_stored (fun _ => inr (inr (Some example_stored))) 1000 1 example_stored_ok ltac:(lia) eq_refl) as [_ Hc].
    apply Hc; [lia|by vm_compute].
Defined.
