(* ===== verification/ObObject.v ===== *)
(** * ObObject: object lifetime (kernel/ob/object.c, ob.h, namespace.c).

    Objects as headers behind their body address, their reference counts, their
    names in directories, and the accounting that makes a count exact: who owns
    each reference.  What an object type does when a handle to it is closed or
    its last reference goes is behind an interface. *)

From S2P Require Import Prelude NtStatus KeWait SeSd SeAccess.

Definition OBJ_PROTECT_CLOSE : Z := 0x1.
Definition OBJ_INHERIT : Z := 0x2.
Definition OBJ_PERMANENT : Z := 0x10.

(** ** Data *)

(** The pointers of a type's close, delete and security hooks are left to [TYPES];
    [typeName] is the address of its name. *)
Record OBJECT_TYPE := mkOBJECT_TYPE {
  typeName : addr;
  rights : type_access;
  waitable : bool;
  mapAccess : option (Z -> Z);
}.

(** [name] is empty until the object is named; [parentDirectory] is 0 while no
    directory lists it. *)
Record OBJECT_HEADER := mkOBJECT_HEADER {
  pointerCount : Z;
  handleCount : Z;
  type : addr;
  permanent : bool;
  parentDirectory : addr;
  name : list Z;
  securityDescriptor : option SEP_SECURITY_DESCRIPTOR;
}.

#[export] Instance eta_header : Eta OBJECT_HEADER := {| eta_expand := fun h =>
  mkOBJECT_HEADER (pointerCount h) (handleCount h) (type h) (permanent h) (parentDirectory h) (name h) (securityDescriptor h) |}.

(** One slot of a table; [body = 0]: free. *)
Record OBP_HANDLE_ENTRY := mkENTRY { body : addr; grantedAccess : Z; attributes : Z }.

#[export] Instance OBP_HANDLE_ENTRY_eq_dec : EqDecision OBP_HANDLE_ENTRY.
Proof. solve_decision. Defined.

(** [entries] is [None] until the first handle. *)
Record OBP_HANDLE_TABLE := mkTABLE { entries : option (list OBP_HANDLE_ENTRY); capacity : Z; inUse : Z }.

#[export] Instance eta_table : Eta OBP_HANDLE_TABLE := {| eta_expand := fun t => mkTABLE (entries t) (capacity t) (inUse t) |}.

(** The object manager: headers by body address, the entry list of each
    directory, the handle table of each process, and whatever else the kernel keeps. *)
Record OB {W : Type} := mkOB {
  headers : gmap addr OBJECT_HEADER;
  directories : gmap addr (list addr);
  tables : gmap addr OBP_HANDLE_TABLE;
  world : W;
}.
Arguments OB W : clear implicits.
Arguments mkOB {W} headers directories tables world.

#[export] Instance eta_OB W : Eta (OB W) := {| eta_expand := fun s => mkOB (headers s) (directories s) (tables s) (world s) |}.

(** The object types: what each is, and its close and delete procedures, which
    work on the whole kernel.  A close procedure hears the process, the body and
    the two handle counts, both including the handle that goes. *)
Class TYPES (W : Type) := {
  types : addr -> OBJECT_TYPE;
  closeProcedure : addr -> option (addr -> addr -> Z -> Z -> OB W -> outcome (OB W));
  deleteProcedure : addr -> option (addr -> OB W -> outcome (OB W));
}.

(** A LONG increment. *)
Definition increment_LONG (z : Z) : outcome Z := if z =? 2 ^ 31 - 1 then Fault "signed overflow" else Ok (z + 1).

Section objects.
Context {W : Type} `{TYPES W}.
Implicit Types (s : OB W) (a : addr).

Definition get_header s a : outcome OBJECT_HEADER := deref (headers s !! a) "no object".
Definition put_header s a (h : OBJECT_HEADER) : OB W := s <| headers := <[a := h]> (headers s) |>.

(** ** kernel/ob/object.c *)

(** [block]: the body of the zeroed pool block, 0 when the pool is exhausted. *)
Definition ObpAllocateObject s (objectType : addr) (bodySize : Z) (block : addr) : outcome (NTSTATUS * OB W) :=
  _ ← ASSERT (negb (objectType =? 0) && negb (bodySize =? 0)) "type != 0 && bodySize != 0";
  if block =? 0 then Ok (STATUS_INSUFFICIENT_RESOURCES, s) else
  Ok (STATUS_SUCCESS, put_header s block (mkOBJECT_HEADER 1 0 objectType false 0 [] None)).

Definition ObfReferenceObject s a : outcome (OB W) :=
  h ← get_header s a;
  _ ← ASSERT (0 <? pointerCount h) "referencing a dead object";
  n ← increment_LONG (pointerCount h);
  Ok (put_header s a (h <| pointerCount := n |>)).

(** The block goes back to the pool. *)
Definition free_object s a : OB W :=
  s <| headers := delete a (headers s) |> <| directories := delete a (directories s) |>.

Definition ObDereferenceObject s a : outcome (OB W) :=
  h ← get_header s a;
  _ ← ASSERT (0 <? pointerCount h) "double dereference";
  n ← decrement_LONG (pointerCount h);
  let s := put_header s a (h <| pointerCount := n |>) in
  if 0 <? n then Ok s else
  _ ← ASSERT (handleCount h =? 0) "header->handleCount == 0";
  _ ← ASSERT (parentDirectory h =? 0) "the name holds a reference";
  s ← match deleteProcedure (type h) with Some delete_ => delete_ a s | None => Ok s end;
  Ok (free_object s a).

(** ** Names (kernel/ob/namespace.c) *)

(** [pool]: whether the copy of the name finds room. *)
Definition ObpLinkObjectName s (directoryBody a : addr) (newName : list Z) (pool : bool) : outcome (NTSTATUS * OB W) :=
  h ← get_header s a;
  _ ← ASSERT ((parentDirectory h =? 0) && bool_decide (name h = [])) "header->parentDirectory == 0 && header->name.Buffer == 0";
  if negb pool then Ok (STATUS_INSUFFICIENT_RESOURCES, s) else
  let s := put_header s a (h <| name := newName |> <| parentDirectory := directoryBody |>) in
  s ← ObfReferenceObject s directoryBody;
  l ← deref (directories s !! directoryBody) "directory";
  let s := s <| directories := <[directoryBody := l ++ [a]]> (directories s) |> in
  s ← ObfReferenceObject s a;
  Ok (STATUS_SUCCESS, s).

Definition ObpUnlinkObjectName s a : outcome (OB W) :=
  h ← get_header s a;
  if parentDirectory h =? 0 then Ok s else
  let directoryBody := parentDirectory h in
  l ← deref (directories s !! directoryBody) "directory";
  _ ← ASSERT (bool_decide (a ∈ l)) "RemoveEntryList: not linked";
  let s := s <| directories := <[directoryBody := unlink a l]> (directories s) |> in
  let s := put_header s a (h <| parentDirectory := 0 |>) in
  s ← ObDereferenceObject s directoryBody;
  ObDereferenceObject s a.

(** The delete procedure of directories; no entry list: a create that failed. *)
Definition ObpDeleteDirectory (a : addr) s : outcome (OB W) :=
  _ ← ASSERT (from_option (fun l => bool_decide (l = [])) true (directories s !! a)) "IsListEmpty(&directory->entryListHead)";
  Ok s.
End objects.

(** ** Sums over a map *)

Definition tally {V} (f : V -> Z) (m : gmap addr V) : Z := map_fold (fun _ v n => f v + n) 0 m.

Section tallies.
Context {V : Type}.
Implicit Types (f : V -> Z) (m : gmap addr V).

Lemma tally_insert f m k v : m !! k = None -> tally f (<[k := v]> m) = f v + tally f m.
Proof. intros Hk. unfold tally. apply (map_fold_insert_L (fun (_ : addr) v n => f v + n)); [intros; lia|done]. Qed.

Lemma tally_delete f m k v : m !! k = Some v -> tally f m = f v + tally f (delete k m).
Proof. intros Hk. unfold tally. apply (map_fold_delete_L (fun (_ : addr) v n => f v + n)); [intros; lia|done]. Qed.

Lemma tally_update f m k v v' : m !! k = Some v -> tally f (<[k := v']> m) = tally f m - f v + f v'.
Proof.
  intros Hk. rewrite (tally_delete f _ _ _ Hk), <- insert_delete_eq, tally_insert by apply lookup_delete_eq. lia.
Qed.

Lemma tally_nonneg f m : (forall k v, m !! k = Some v -> 0 <= f v) -> 0 <= tally f m.
Proof.
  induction m as [|k v m Hk IH] using map_ind; intros Hf; [done|]. rewrite tally_insert by done.
  assert (0 <= f v) by (apply (Hf k); by rewrite lookup_insert_eq).
  enough (0 <= tally f m) by lia. apply IH. intros k' v' Hv. apply (Hf k'). rewrite lookup_insert_ne; [done|congruence].
Qed.

Lemma tally_ge f m k v : (forall k v, m !! k = Some v -> 0 <= f v) -> m !! k = Some v -> f v <= tally f m.
Proof.
  intros Hf Hk. rewrite (tally_delete f _ _ _ Hk). enough (0 <= tally f (delete k m)) by lia.
  apply tally_nonneg. intros k' v' [_ ?]%lookup_delete_Some. by eapply Hf.
Qed.

Lemma tally_none f m k v : (forall k v, m !! k = Some v -> 0 <= f v) -> tally f m = 0 -> m !! k = Some v -> f v = 0.
Proof. intros Hf Hm Hk. pose proof (tally_ge f m k v Hf Hk). pose proof (Hf _ _ Hk). lia. Qed.

Lemma tally_ext f g m : (forall k v, m !! k = Some v -> f v = g v) -> tally f m = tally g m.
Proof.
  induction m as [|k v m Hk IH] using map_ind; intros Hf; [done|]. rewrite !tally_insert by done.
  rewrite (Hf k v) by by rewrite lookup_insert_eq. f_equal. apply IH. intros k' v' Hv. apply (Hf k'). rewrite lookup_insert_ne; [done|congruence].
Qed.
End tallies.

(** ** The accounting *)

(** How many slots of [l] name [a]. *)
Definition names_in (a : addr) (l : list OBP_HANDLE_ENTRY) : Z := Z.of_nat (length (filter (fun e => body e = a) l)).
Definition table_names (a : addr) (t : OBP_HANDLE_TABLE) : Z := from_option (names_in a) 0 (entries t).
Definition occupied (l : list OBP_HANDLE_ENTRY) : Z := Z.of_nat (length (filter (fun e => body e <> 0) l)).

(** A handle table: its count is that of its occupied slots, and it is small
    enough that every handle value is below 2^31. *)
Definition table_ok (t : OBP_HANDLE_TABLE) : Prop :=
  match entries t with
  | None => inUse t = 0 /\ 0 <= capacity t <= 2 ^ 29
  | Some l => capacity t = Z.of_nat (length l) /\ 0 < capacity t <= 2 ^ 29 /\ inUse t = occupied l
  end.

Section accounts.
Context {W : Type}.
Implicit Types (s : OB W) (a d : addr) (held : addr -> nat).

(** The handles to [a] in every table; the entries of [a] as a directory. *)
Definition handles s a : Z := tally (table_names a) (tables s).
Definition children s a : Z := tally (fun h => if parentDirectory h =? a then 1 else 0) (headers s).

(** One more reference held by running code. *)
Definition hold a held : addr -> nat := fun x => if decide (x = a) then S (held x) else held x.

Definition named (h : OBJECT_HEADER) : Z := if parentDirectory h =? 0 then 0 else 1.

(** The tables of the processes somebody holds stay as they are. *)
Definition kept held s s' : Prop := forall p, (0 < held p)%nat -> tables s' !! p = tables s !! p.

Lemma kept_refl held s : kept held s s.
Proof. done. Qed.
Lemma kept_trans held s1 s2 s3 : kept held s1 s2 -> kept held s2 s3 -> kept held s1 s3.
Proof. intros H1 H2 p Hp. by rewrite H2, H1. Qed.
Lemma kept_hold a held s s' : kept (hold a held) s s' -> kept held s s'.
Proof. intros H p Hp. apply H. unfold hold. case_decide; lia. Qed.
End accounts.

(** What the object manager knows of a type's procedures: who owns a reference
    because of the state they keep ([owned]), and that they keep the accounts. *)
Section contracts.
Context {W : Type}.
Implicit Types (s : OB W) (a d : addr) (held : addr -> nat).

(** Every count is exact.  [held]: the references of running code; [dying]: the
    objects whose last reference has gone and whose delete procedure is running. *)
Record ob_inv (owned : W -> addr -> nat) held (dying : gset addr) s : Prop := {
  inv_counts : forall a h, headers s !! a = Some h -> a <> 0 /\
    pointerCount h = handles s a + named h + children s a + Z.of_nat (held a) + Z.of_nat (owned (world s) a) /\
    handleCount h = handles s a /\ (pointerCount h = 0 -> a ∈ dying);
  inv_dead : forall a, a <> 0 -> headers s !! a = None ->
    handles s a = 0 /\ children s a = 0 /\ held a = 0%nat /\ owned (world s) a = 0%nat;
  inv_directories : forall d l, directories s !! d = Some l -> is_Some (headers s !! d) /\ NoDup l /\
    forall a, a ∈ l <-> exists h, headers s !! a = Some h /\ parentDirectory h = d;
  inv_parents : forall a h, headers s !! a = Some h -> parentDirectory h <> 0 -> is_Some (directories s !! parentDirectory h);
  inv_tables : forall p t, tables s !! p = Some t -> table_ok t;
  inv_typed : forall a h, headers s !! a = Some h -> type h <> 0;
}.
End contracts.

Class TYPES_OK (W : Type) `{TYPES W} := {
  owned : W -> addr -> nat;
  type_named : forall a, a <> 0 -> typeName (types a) <> 0;
  close_keeps : forall process a n m f (s : OB W) h held dying, ob_inv owned held dying s -> headers s !! a = Some h ->
    closeProcedure (type h) = Some f -> (0 < held a)%nat -> (0 < held process)%nat ->
    returns (f process a n m s) (fun s' => ob_inv owned held dying s' /\ kept held s s');
  delete_keeps : forall a f (s : OB W) h held dying, ob_inv owned held ({[a]} ∪ dying) s -> headers s !! a = Some h -> pointerCount h = 0 ->
    deleteProcedure (type h) = Some f ->
    returns (f a s) (fun s' => ob_inv owned held ({[a]} ∪ dying) s' /\ kept held s s' /\ exists h', headers s' !! a = Some h' /\ pointerCount h' = 0);
}.

Section lifetime.
Context {W : Type} {T : TYPES W} {OK : TYPES_OK W}.
Implicit Types (s : OB W) (a d : addr) (held : addr -> nat).
Abbreviation inv := (ob_inv owned).

Lemma occupied_nonneg l : 0 <= occupied l.
Proof. unfold occupied. lia. Qed.

Lemma table_names_nonneg a t : 0 <= table_names a t.
Proof. unfold table_names, names_in. destruct (entries t); cbn; lia. Qed.

Lemma handles_nonneg s a : 0 <= handles s a.
Proof. apply tally_nonneg. intros. apply table_names_nonneg. Qed.

Lemma children_nonneg s a : 0 <= children s a.
Proof. apply tally_nonneg. intros k h _. by destruct (_ =? _). Qed.

Lemma named_nonneg h : 0 <= named h.
Proof. unfold named. by destruct (_ =? _). Qed.

Lemma named_zero h : named h = 0 -> parentDirectory h = 0.
Proof. unfold named. by destruct (Z.eqb_spec (parentDirectory h) 0). Qed.

Lemma hold_eq a held : hold a held a = S (held a).
Proof. unfold hold. by rewrite decide_True. Qed.
Lemma hold_ne a b held : b <> a -> hold a held b = held b.
Proof. intros. unfold hold. by rewrite decide_False. Qed.
Lemma hold_le a held b : (held b <= hold a held b)%nat.
Proof. unfold hold. case_decide; lia. Qed.

(** A reference implies an object. *)
Lemma inv_alive held dying s a : inv held dying s -> a <> 0 ->
  0 < handles s a \/ 0 < children s a \/ (0 < held a)%nat \/ (0 < owned (world s) a)%nat ->
  exists h, headers s !! a = Some h /\ 0 < pointerCount h.
Proof.
  intros I Ha H. destruct (headers s !! a) as [h|] eqn:E.
  - exists h. split; [done|]. destruct (inv_counts _ _ _ _ I _ _ E) as (_ & -> & _).
    pose proof (handles_nonneg s a). pose proof (children_nonneg s a). pose proof (named_nonneg h). lia.
  - destruct (inv_dead _ _ _ _ I _ Ha E). lia.
Qed.

Lemma headers_put s a h : headers (put_header s a h) = <[a := h]> (headers s).
Proof. done. Qed.

(** An object never changes its type. *)
Lemma put_typed held dying s a h h' : inv held dying s -> headers s !! a = Some h -> type h' = type h ->
  forall b k, <[a := h']> (headers s) !! b = Some k -> type k <> 0.
Proof. intros I E Hty b k [(<- & <-)|(_ & Hk)]%lookup_insert_Some; [rewrite Hty; exact (inv_typed _ _ _ _ I _ _ E)|exact (inv_typed _ _ _ _ I _ _ Hk)]. Qed.

(** Changing a count together with who holds the object. *)
Lemma recount held held' (dying dying' : gset addr) s a h h' : inv held dying s -> headers s !! a = Some h ->
  handleCount h' = handleCount h -> parentDirectory h' = parentDirectory h -> type h' = type h ->
  pointerCount h' = pointerCount h + Z.of_nat (held' a) - Z.of_nat (held a) ->
  (forall b, b <> a -> held' b = held b) -> dying ⊆ dying' -> (pointerCount h' = 0 -> a ∈ dying') ->
  inv held' dying' (put_header s a h').
Proof.
  intros I E Hc Hp Hty Hn Hh Hd H0. pose proof (inv_counts _ _ _ _ I _ _ E) as (Ha & Hpc & Hhc & _).
  assert (Hch : forall b, children (put_header s a h') b = children s b).
  { intros b. unfold children. cbn. rewrite (tally_update _ _ _ h) by done. rewrite Hp. lia. }
  assert (Hn' : named h' = named h) by (unfold named; by rewrite Hp). split; rewrite ?headers_put.
  - intros b k [(<- & <-)|(Hb & Hk)]%lookup_insert_Some.
    + split; [done|]. rewrite Hch. split; [by rewrite Hn, Hpc, Hn'; change (handles (put_header s a h') a) with (handles s a); cbn; lia|]. split; [by rewrite Hc, Hhc|done].
    + pose proof (inv_counts _ _ _ _ I _ _ Hk) as (? & ? & ? & ?). rewrite Hch, Hh by done. split_and!; try done. intros ?. apply Hd. auto.
  - intros b Hb (Hne & Hk)%lookup_insert_None. rewrite Hch, Hh by congruence. by apply (inv_dead _ _ _ _ I).
  - intros d l Hl. destruct (inv_directories _ _ _ _ I _ _ Hl) as (Hs & Hnd & Hm). split; [|split; [done|]].
    + destruct (decide (d = a)) as [->|]; [by rewrite lookup_insert_eq|]. by rewrite lookup_insert_ne.
    + intros b. rewrite Hm. destruct (decide (b = a)) as [->|]; [|by rewrite lookup_insert_ne].
      rewrite lookup_insert_eq, E. split; intros (? & [= <-] & ?); eexists; (split; [done|congruence]).
  - intros b k [(<- & <-)|(Hb & Hk)]%lookup_insert_Some.
    + rewrite Hp. exact (inv_parents _ _ _ _ I _ _ E).
    + exact (inv_parents _ _ _ _ I _ _ Hk).
  - apply (inv_tables _ _ _ _ I).
  - exact (put_typed _ _ _ _ _ _ I E Hty).
Qed.

Lemma increment_LONG_Ok z : z < 2 ^ 31 - 1 -> increment_LONG z = Ok (z + 1).
Proof. intros H. unfold increment_LONG. destruct (Z.eqb_spec z (2 ^ 31 - 1)); [lia|done]. Qed.

Lemma reference_spec held dying s a h : inv held dying s -> headers s !! a = Some h -> 0 < pointerCount h < 2 ^ 31 - 1 ->
  ObfReferenceObject s a = Ok (put_header s a (h <| pointerCount := pointerCount h + 1 |>)) /\
  inv (hold a held) dying (put_header s a (h <| pointerCount := pointerCount h + 1 |>)).
Proof.
  intros I E Hn. split.
  - unfold ObfReferenceObject, get_header. rewrite E. run. rewrite (proj2 (Z.ltb_lt _ _)) by lia. run. by rewrite increment_LONG_Ok by lia.
  - apply (recount held _ dying _ _ _ h); try done; cbn [pointerCount].
    + rewrite hold_eq. cbn. lia.
    + intros. by apply hold_ne.
    + cbn. lia.
Qed.

Lemma headers_free s a : headers (free_object s a) = delete a (headers s).
Proof. done. Qed.
Lemma directories_free s a : directories (free_object s a) = delete a (directories s).
Proof. done. Qed.

(** Freeing an object nothing refers to. *)
Lemma free_object_inv held dying s a h : inv held ({[a]} ∪ dying) s -> headers s !! a = Some h -> pointerCount h = 0 ->
  inv held dying (free_object s a).
Proof.
  intros I E H0. pose proof (inv_counts _ _ _ _ I _ _ E) as (Ha & Hpc & Hhc & _).
  pose proof (handles_nonneg s a). pose proof (children_nonneg s a). pose proof (named_nonneg h).
  assert (Hp : parentDirectory h = 0) by (apply named_zero; lia).
  assert (Hch : forall b, b <> 0 -> children (free_object s a) b = children s b).
  { intros b Hb. unfold children. cbn. rewrite (tally_delete _ (headers s) a h) by done. rewrite Hp. by rewrite (proj2 (Z.eqb_neq 0 b)) by done. }
  assert (Hnc : forall b k, headers s !! b = Some k -> parentDirectory k <> a).
  { intros b k Hk. assert (Hz : (fun k => if parentDirectory k =? a then 1 else 0) k = 0).
    { apply (tally_none (fun k => if parentDirectory k =? a then 1 else 0) (headers s) b); [intros; by case_match|fold (children s a); lia|done]. }
    cbn in Hz. by destruct (Z.eqb_spec (parentDirectory k) a). }
  split; rewrite ?headers_free, ?directories_free.
  - intros b k (Hb & Hk)%lookup_delete_Some. pose proof (inv_counts _ _ _ _ I _ _ Hk) as (Hb0 & ? & ? & Hdy).
    rewrite Hch by done. split_and!; try done. intros Hz. specialize (Hdy Hz). set_solver.
  - intros b Hb [<-|Hk]%lookup_delete_None; rewrite Hch by done.
    + change (handles (free_object s a) a) with (handles s a). change (world (free_object s a)) with (world s). split_and!; lia.
    + by apply (inv_dead _ _ _ _ I).
  - intros d l (Hd & Hl)%lookup_delete_Some. destruct (inv_directories _ _ _ _ I _ _ Hl) as (Hs & Hnd & Hm). split; [by rewrite lookup_delete_ne|split; [done|]].
    intros b. rewrite Hm. destruct (decide (b = a)) as [->|]; [|by rewrite lookup_delete_ne].
    rewrite lookup_delete_eq, E. split; [|by intros (? & ? & _)]. intros (k & [= <-] & Hpd). rewrite Hp in Hpd. subst d.
    exfalso. destruct Hs as [k0 Hk0]. by destruct (inv_counts _ _ _ _ I _ _ Hk0).
  - intros b k (Hb & Hk)%lookup_delete_Some Hne. pose proof (inv_parents _ _ _ _ I _ _ Hk Hne).
    rewrite lookup_delete_ne; [done|]. apply not_eq_sym. by apply (Hnc b).
  - apply (inv_tables _ _ _ _ I).
  - intros b k (Hb & Hk)%lookup_delete_Some. exact (inv_typed _ _ _ _ I _ _ Hk).
Qed.

(** Giving back a reference: no count goes wrong, whatever the type's delete
    procedure does, and the object goes with its last reference. *)
Lemma dereference_spec held dying s a : inv (hold a held) dying s -> a <> 0 ->
  returns (ObDereferenceObject s a) (fun s' => inv held dying s' /\ kept held s s').
Proof.
  intros I Ha. destruct (inv_alive _ _ _ a I Ha) as (h & E & Hpos); [rewrite hold_eq; lia|].
  unfold ObDereferenceObject, get_header. rewrite E. run. rewrite (proj2 (Z.ltb_lt _ _)) by done. run.
  rewrite decrement_LONG_Ok by lia. run. pose proof (inv_counts _ _ _ _ I _ _ E) as (_ & Hpc & Hhc & _). rewrite hold_eq in Hpc.
  pose proof (handles_nonneg s a). pose proof (children_nonneg s a). pose proof (named_nonneg h).
  assert (I1 : forall dying', dying ⊆ dying' -> (pointerCount h - 1 = 0 -> a ∈ dying') -> inv held dying' (put_header s a (h <| pointerCount := pointerCount h - 1 |>))).
  { intros dying' Hs Hd. apply (recount (hold a held) _ dying _ _ _ h); try done; cbn [pointerCount].
    - rewrite hold_eq. cbn. lia.
    - intros b Hb. by rewrite hold_ne. }
  destruct (Z.ltb_spec 0 (pointerCount h - 1)) as [Hn|Hn].
  { cbn [returns]. split; [apply I1; [done|lia]|done]. }
  assert (Hz : pointerCount h - 1 = 0) by lia. rewrite (proj2 (Z.eqb_eq (handleCount h) 0)) by lia. run.
  assert (parentDirectory h = 0) as -> by (apply named_zero; lia). run.
  specialize (I1 ({[a]} ∪ dying) ltac:(set_solver) ltac:(set_solver)).
  assert (E1 : headers (put_header s a (h <| pointerCount := pointerCount h - 1 |>)) !! a = Some (h <| pointerCount := pointerCount h - 1 |>)) by apply lookup_insert_eq.
  destruct (deleteProcedure (type h)) as [f|] eqn:Ef.
  - pose proof (delete_keeps a f _ _ held dying I1 E1 Hz Ef) as Hf.
    destruct (f a _) as [s'| | |]; try done. destruct Hf as (I2 & K & h' & E2 & Hz'). cbn [returns]. split; [by eapply free_object_inv|]. exact K.
  - run. cbn [returns]. split; [by eapply free_object_inv|done].
Qed.

(** Moving an object between directories ([0]: none), with the reference of its
    name and that on its directory. *)
Lemma children_moved s a h h' dirs b : headers s !! a = Some h ->
  children (put_header (s <| directories := dirs |>) a h') b =
    children s b - (if parentDirectory h =? b then 1 else 0) + (if parentDirectory h' =? b then 1 else 0).
Proof. intros E. unfold children. rewrite headers_put. cbn [headers]. by rewrite (tally_update _ _ _ h). Qed.

Lemma moved_entries held dying s a h h' (dirs : gmap addr (list addr)) : inv held dying s -> headers s !! a = Some h ->
  (forall d, is_Some (dirs !! d) <-> is_Some (directories s !! d)) -> (parentDirectory h' <> 0 -> is_Some (directories s !! parentDirectory h')) ->
  (forall d l l', directories s !! d = Some l -> dirs !! d = Some l' -> NoDup l' /\
    (forall b, b <> a -> b ∈ l' <-> b ∈ l) /\ (a ∈ l' <-> d = parentDirectory h')) ->
  let s' := put_header (s <| directories := dirs |>) a h' in
  (forall d l, directories s' !! d = Some l -> is_Some (headers s' !! d) /\ NoDup l /\
    forall b, b ∈ l <-> exists k, headers s' !! b = Some k /\ parentDirectory k = d) /\
  (forall b k, headers s' !! b = Some k -> parentDirectory k <> 0 -> is_Some (directories s' !! parentDirectory k)).
Proof.
  intros I E Hdom Hd' Hl s'. unfold s'. rewrite headers_put. cbn [headers]. change (directories (put_header _ a _)) with dirs. split.
  - intros d l' El'. destruct (proj1 (Hdom d) (ex_intro _ _ El')) as [l El]. destruct (inv_directories _ _ _ _ I _ _ El) as (Hs & _ & Hm).
    destruct (Hl _ _ _ El El') as (Hnd & Hne & Ha). split; [|split; [done|]].
    + destruct (decide (d = a)) as [->|]; [by rewrite lookup_insert_eq|by rewrite lookup_insert_ne].
    + intros b. destruct (decide (b = a)) as [->|Hb]; [|by rewrite lookup_insert_ne, Hne, Hm].
      rewrite lookup_insert_eq, Ha. split; [intros ->; by eexists|by intros (k & [= <-] & <-)].
  - intros b k [(<- & <-)|(Hb & Hk)]%lookup_insert_Some Hp; apply Hdom; [by apply Hd'|]. exact (inv_parents _ _ _ _ I _ _ Hk Hp).
Qed.

Lemma unlinked_inv held dying s a h l : inv held dying s -> headers s !! a = Some h -> parentDirectory h <> 0 ->
  directories s !! parentDirectory h = Some l ->
  inv (hold (parentDirectory h) (hold a held)) dying
    (put_header (s <| directories := <[parentDirectory h := unlink a l]> (directories s) |>) a (h <| parentDirectory := 0 |>)).
Proof.
  intros I E Hp El. pose proof (inv_directories _ _ _ _ I _ _ El) as (Hs & Hnd & Hm).
  assert (Hal : a ∈ l) by (apply Hm; eauto). destruct (inv_counts _ _ _ _ I _ _ E) as (Ha & Hpc & Hhc & Hz).
  destruct (moved_entries held dying s a h (h <| parentDirectory := 0 |>) (<[parentDirectory h := unlink a l]> (directories s)) I E) as [Hdirs Hpar].
  { intros d. destruct (decide (d = parentDirectory h)) as [->|]; [rewrite lookup_insert_eq, El; by split|by rewrite lookup_insert_ne]. }
  { done. }
  { intros d l1 l2 E1 [(<- & <-)|(Hne & E2)]%lookup_insert_Some.
    - rewrite El in E1. injection E1 as <-. split; [by apply NoDup_unlink|]. split; [intros b Hb; rewrite elem_of_unlink; naive_solver|].
      rewrite elem_of_unlink. naive_solver.
    - rewrite E1 in E2. injection E2 as <-. destruct (inv_directories _ _ _ _ I _ _ E1) as (Hs1 & Hnd1 & Hm1). split_and!; [done..|].
      rewrite Hm1. split; [intros (k & Hk & Hd); congruence|]. intros ->. destruct Hs1 as [k0 Hk0]. by destruct (inv_counts _ _ _ _ I _ _ Hk0). }
  split; [| |exact Hdirs|exact Hpar|apply (inv_tables _ _ _ _ I)|exact (put_typed _ _ _ _ _ (h <| parentDirectory := 0 |>) I E eq_refl)].
  - intros b k Hk. rewrite (children_moved _ _ _ _ _ _ E). change (parentDirectory (h <| parentDirectory := 0 |>)) with 0. change (handles (put_header _ a _) b) with (handles s b). change (world (put_header _ a _)) with (world s).
    assert (Hb : b <> 0) by (revert Hk; rewrite headers_put; intros [(<- & <-)|(_ & Hk)]%lookup_insert_Some; [done|by apply (inv_counts _ _ _ _ I _ _ Hk)]).
    rewrite (proj2 (Z.eqb_neq 0 b)) by done. revert Hk. rewrite headers_put. intros [(<- & <-)|(Hne & Hk)]%lookup_insert_Some.
    + split_and!; try done. etrans; [exact Hpc|]. unfold named. change (parentDirectory (h <| parentDirectory := 0 |>)) with 0. rewrite (proj2 (Z.eqb_neq (parentDirectory h) 0)) by done. unfold hold.
      destruct (Z.eqb_spec (parentDirectory h) a), (decide (a = parentDirectory h)); try congruence; rewrite !decide_True by done; cbn; lia.
    + destruct (inv_counts _ _ _ _ I _ _ Hk) as (_ & Hpc' & Hhc' & Hz'). split_and!; try done. rewrite Hpc'. unfold hold.
      rewrite (decide_False (P := b = a)) by done. destruct (Z.eqb_spec (parentDirectory h) b), (decide (b = parentDirectory h)); try congruence; cbn; lia.
  - intros b Hb Hk. rewrite (children_moved _ _ _ _ _ _ E). change (parentDirectory (h <| parentDirectory := 0 |>)) with 0. change (handles (put_header _ a _) b) with (handles s b). change (world (put_header _ a _)) with (world s).
    rewrite headers_put in Hk. apply lookup_insert_None in Hk as [Hk Hne]. destruct (inv_dead _ _ _ _ I _ Hb Hk) as (? & ? & ? & ?).
    assert (parentDirectory h <> b) by (intros <-; destruct Hs as [? Hs]; cbn in Hk; congruence).
    rewrite (proj2 (Z.eqb_neq 0 b)), (proj2 (Z.eqb_neq (parentDirectory h) b)) by done. unfold hold. rewrite !decide_False by congruence. split_and!; lia || done.
Qed.

(** Taking an object out of its directory. *)
Lemma unlink_spec held dying s a : inv held dying s -> is_Some (headers s !! a) ->
  returns (ObpUnlinkObjectName s a) (fun s' => inv held dying s' /\ kept held s s').
Proof.
  intros I [h E]. unfold ObpUnlinkObjectName, get_header. rewrite E. run. destruct (Z.eqb_spec (parentDirectory h) 0) as [|Hp]; [done|].
  destruct (inv_parents _ _ _ _ I _ _ E Hp) as [l El]. rewrite El. run. destruct (inv_directories _ _ _ _ I _ _ El) as (Hs & Hnd & Hm).
  rewrite bool_decide_eq_true_2 by (apply Hm; eauto). run. pose proof (unlinked_inv _ _ _ _ _ _ I E Hp El) as I1.
  set (s1 := put_header _ a _) in *. destruct (inv_counts _ _ _ _ I _ _ E) as (Ha & _). apply returns_bind.
  eapply returns_mono; [by apply (dereference_spec (hold a held) dying)|]. intros s2 [I2 K2]. cbn beta.
  eapply returns_mono; [by apply dereference_spec|]. intros s3 [I3 K3]. split; [done|].
  apply (kept_trans _ _ s2); [by apply (kept_hold a)|done].
Qed.
Lemma linked_inv held dying s a h h' d l : inv (hold d (hold a held)) dying s -> headers s !! a = Some h -> parentDirectory h = 0 -> d <> 0 ->
  directories s !! d = Some l -> parentDirectory h' = d -> pointerCount h' = pointerCount h -> handleCount h' = handleCount h -> type h' = type h ->
  inv held dying (put_header (s <| directories := <[d := l ++ [a]]> (directories s) |>) a h').
Proof.
  intros I E Hp Hd El Hp' Hpc' Hhc' Hty. pose proof (inv_directories _ _ _ _ I _ _ El) as (Hs & Hnd & Hm).
  assert (Hal : a ∉ l) by (rewrite Hm; intros (k & ? & ?); congruence). destruct (inv_counts _ _ _ _ I _ _ E) as (Ha & Hpc & Hhc & Hz).
  destruct (moved_entries _ dying s a h h' (<[d := l ++ [a]]> (directories s)) I E) as [Hdirs Hpar].
  { intros d0. destruct (decide (d0 = d)) as [->|]; [rewrite lookup_insert_eq, El; by split|by rewrite lookup_insert_ne]. }
  { intros _. rewrite Hp'. eauto. }
  { intros d0 l1 l2 E1 [(<- & <-)|(Hne & E2)]%lookup_insert_Some.
    - rewrite El in E1. injection E1 as <-. split; [apply NoDup_app; split_and!; [done|set_solver|apply NoDup_singleton]|]. split; [set_solver|].
      rewrite elem_of_app, list_elem_of_singleton. naive_solver.
    - rewrite E1 in E2. injection E2 as <-. destruct (inv_directories _ _ _ _ I _ _ E1) as (Hs1 & Hnd1 & Hm1). split_and!; [done..|].
      rewrite Hm1. split; [intros (k & Hk & Hd0)|congruence]. assert (k = h) as -> by congruence. rewrite Hp in Hd0. subst d0.
      destruct Hs1 as [k0 Hk0]. by destruct (inv_counts _ _ _ _ I _ _ Hk0). }
  split; [| |exact Hdirs|exact Hpar|apply (inv_tables _ _ _ _ I)|exact (put_typed _ _ _ _ _ _ I E Hty)].
  - intros b k Hk. rewrite (children_moved _ _ _ _ _ _ E), Hp, Hp'. change (handles (put_header _ a _) b) with (handles s b). change (world (put_header _ a _)) with (world s).
    assert (Hb : b <> 0) by (revert Hk; rewrite headers_put; intros [(<- & <-)|(_ & Hk)]%lookup_insert_Some; [done|by apply (inv_counts _ _ _ _ I _ _ Hk)]).
    rewrite (proj2 (Z.eqb_neq 0 b)) by done. revert Hk. rewrite headers_put. intros [(<- & <-)|(Hne & Hk)]%lookup_insert_Some.
    + split_and!; [done| |by rewrite Hhc'|by rewrite Hpc']. rewrite Hpc', Hpc. unfold named. rewrite Hp, Hp', Z.eqb_refl, (proj2 (Z.eqb_neq d 0)) by done. unfold hold.
      destruct (Z.eqb_spec d a), (decide (a = d)); try congruence; rewrite !decide_True by done; cbn; lia.
    + destruct (inv_counts _ _ _ _ I _ _ Hk) as (_ & Hpc1 & Hhc1 & Hz1). split_and!; try done. rewrite Hpc1. unfold hold.
      rewrite (decide_False (P := b = a)) by done. destruct (Z.eqb_spec d b), (decide (b = d)); try congruence; cbn; lia.
  - intros b Hb Hk. rewrite (children_moved _ _ _ _ _ _ E), Hp, Hp'. change (handles (put_header _ a _) b) with (handles s b). change (world (put_header _ a _)) with (world s).
    rewrite headers_put in Hk. apply lookup_insert_None in Hk as [Hk Hne]. destruct (inv_dead _ _ _ _ I _ Hb Hk) as (? & ? & Hh & ?).
    assert (d <> b) by (intros <-; destruct Hs as [? Hs]; cbn in Hk; congruence). pose proof (hold_le d (hold a held) b). pose proof (hold_le a held b).
    rewrite (proj2 (Z.eqb_neq 0 b)), (proj2 (Z.eqb_neq d b)) by done. split_and!; lia || done.
Qed.

(** Naming an object: it joins the end of the directory, whose reference and its own the name takes. *)
Lemma link_spec held dying s a h d k l newName pool : inv held dying s -> headers s !! a = Some h -> parentDirectory h = 0 -> name h = [] ->
  headers s !! d = Some k -> directories s !! d = Some l -> a <> d -> 0 < pointerCount h < 2 ^ 31 - 1 -> 0 < pointerCount k < 2 ^ 31 - 1 ->
  exists status s', ObpLinkObjectName s d a newName pool = Ok (status, s') /\ inv held dying s' /\ tables s' = tables s /\
    if pool then status = STATUS_SUCCESS /\ directories s' !! d = Some (l ++ [a]) /\ exists h', headers s' !! a = Some h' /\ name h' = newName /\ parentDirectory h' = d
    else status = STATUS_INSUFFICIENT_RESOURCES /\ s' = s.
Proof.
  intros I E Hp Hn Ed El Had Hr Hrd. destruct (inv_counts _ _ _ _ I _ _ Ed) as (Hd0 & _). unfold ObpLinkObjectName, get_header. rewrite E. run.
  rewrite Hp, Hn. run. destruct pool; cbn [negb]; [|by eexists _, _].
  destruct (reference_spec held dying s a h I E Hr) as [_ I1]. set (s1 := put_header s a _) in I1.
  assert (E1 : headers s1 !! d = Some k) by (unfold s1; rewrite headers_put, lookup_insert_ne; done).
  destruct (reference_spec _ dying s1 d k I1 E1 Hrd) as [_ I2]. set (s2 := put_header s1 d _) in I2.
  assert (E2 : headers s2 !! a = Some (h <| pointerCount := pointerCount h + 1 |>)) by (unfold s2, s1; by rewrite !headers_put, lookup_insert_ne, lookup_insert_eq by done).
  set (hn := h <| name := newName |> <| parentDirectory := d |>). set (kd := k <| pointerCount := pointerCount k + 1 |>) in *.
  assert (F : ObfReferenceObject (put_header s a hn) d = Ok (put_header (put_header s a hn) d kd)).
  { unfold ObfReferenceObject, get_header. rewrite headers_put, lookup_insert_ne, Ed by done. run. rewrite (proj2 (Z.ltb_lt _ _)) by lia. run. by rewrite increment_LONG_Ok by lia. }
  rewrite F. run. change (directories (put_header (put_header s a hn) d kd)) with (directories s). rewrite El. run.
  set (sm := put_header (put_header s a hn) d kd <| directories := _ |>). set (hf := hn <| pointerCount := pointerCount h + 1 |>).
  assert (G : ObfReferenceObject sm a = Ok (put_header sm a hf)).
  { assert (En : headers sm !! a = Some hn) by (change (headers sm) with (<[d := kd]> (<[a := hn]> (headers s))); by rewrite lookup_insert_ne, lookup_insert_eq).
    unfold ObfReferenceObject, get_header. rewrite En. run. change (pointerCount hn) with (pointerCount h).
    rewrite (proj2 (Z.ltb_lt _ _)) by lia. run. by rewrite increment_LONG_Ok by lia. }
  rewrite G. run. eexists _, _. split; [done|]. split; [|split; [done|split; [done|split]]].
  - assert (El2 : directories s2 !! d = Some l) by done.
    pose proof (linked_inv held dying s2 a _ hf d l I2 E2 Hp Hd0 El2 eq_refl eq_refl eq_refl eq_refl) as L.
    replace (put_header sm a hf) with (put_header (s2 <| directories := <[d := l ++ [a]]> (directories s2) |>) a hf); [done|].
    unfold sm, s2, s1, put_header. cbn. f_equal. apply map_eq. intros x.
    destruct (decide (x = a)) as [->|]; [by rewrite !lookup_insert_eq|]. rewrite !(lookup_insert_ne _ a x) by done.
    destruct (decide (x = d)) as [->|]; [by rewrite !lookup_insert_eq|]. by rewrite !lookup_insert_ne by done.
  - apply lookup_insert_eq.
  - eexists. split; [apply lookup_insert_eq|done].
Qed.
Lemma allocate_spec held dying s objectType bodySize block : inv held dying s -> objectType <> 0 -> bodySize <> 0 ->
  (block <> 0 -> headers s !! block = None) ->
  if block =? 0 then ObpAllocateObject s objectType bodySize block = Ok (STATUS_INSUFFICIENT_RESOURCES, s) else
  let s' := put_header s block (mkOBJECT_HEADER 1 0 objectType false 0 [] None) in
  ObpAllocateObject s objectType bodySize block = Ok (STATUS_SUCCESS, s') /\ inv (hold block held) dying s'.
Proof.
  intros I Ht Hb Hf. unfold ObpAllocateObject. rewrite (proj2 (Z.eqb_neq objectType 0)), (proj2 (Z.eqb_neq bodySize 0)) by done. run.
  destruct (Z.eqb_spec block 0) as [|Hne]; [done|]. split; [done|]. specialize (Hf Hne). destruct (inv_dead _ _ _ _ I _ Hne Hf) as (H1 & H2 & H3 & H4).
  set (h := mkOBJECT_HEADER _ _ _ _ _ _ _).
  assert (Hch : forall b, b <> 0 -> children (put_header s block h) b = children s b).
  { intros b Hb0. unfold children. rewrite headers_put, tally_insert by done. cbn [parentDirectory h]. by rewrite (proj2 (Z.eqb_neq 0 b)). }
  split; rewrite ?headers_put; change (directories (put_header s block h)) with (directories s).
  - intros b k [(<- & <-)|(Hne' & Hk)]%lookup_insert_Some.
    + rewrite Hch by done. change (handles (put_header s block h) block) with (handles s block). change (world (put_header s block h)) with (world s). rewrite H1, H2, H4, hold_eq, H3. done.
    + destruct (inv_counts _ _ _ _ I _ _ Hk) as (? & ? & ? & ?). rewrite Hch by done. rewrite hold_ne by done. done.
  - intros b Hb0 (Hk & Hne')%lookup_insert_None. rewrite Hch, hold_ne by congruence. by apply (inv_dead _ _ _ _ I).
  - intros d l El. destruct (inv_directories _ _ _ _ I _ _ El) as (Hs & Hnd & Hm). destruct Hs as [kd Hs].
    assert (d <> block) by congruence. split; [by rewrite lookup_insert_ne|split; [done|]].
    intros b. rewrite Hm. destruct (decide (b = block)) as [->|]; [|by rewrite lookup_insert_ne].
    rewrite lookup_insert_eq, Hf. split; [by intros (? & ? & _)|]. intros (? & [= <-] & Hd0). cbn in Hd0. subst d. by destruct (inv_counts _ _ _ _ I _ _ Hs).
  - intros b k [(<- & <-)|(Hne' & Hk)]%lookup_insert_Some Hp; [done|]. exact (inv_parents _ _ _ _ I _ _ Hk Hp).
  - apply (inv_tables _ _ _ _ I).
  - intros b k [(<- & <-)|(Hne' & Hk)]%lookup_insert_Some; [done|]. exact (inv_typed _ _ _ _ I _ _ Hk).
Qed.

(** A dying directory is empty. *)
Lemma delete_directory_spec (own : W -> addr -> nat) held dying s a h : ob_inv own held ({[a]} ∪ dying) s -> headers s !! a = Some h -> pointerCount h = 0 -> ObpDeleteDirectory a s = Ok s.
Proof.
  intros I E H0. destruct (inv_counts _ _ _ _ I _ _ E) as (Ha & Hpc & _). pose proof (handles_nonneg s a). pose proof (children_nonneg s a). pose proof (named_nonneg h).
  unfold ObpDeleteDirectory. destruct (directories s !! a) as [l|] eqn:El; [|done]. cbn [from_option]. destruct l as [|b l]; [done|]. exfalso.
  destruct (inv_directories _ _ _ _ I _ _ El) as (_ & _ & Hm). destruct (proj1 (Hm b) ltac:(left)) as (k & Ek & Hk).
  pose proof (tally_none (fun k => if parentDirectory k =? a then 1 else 0) (headers s) b k ltac:(intros; cbn; by case_match) ltac:(fold (children s a); lia) Ek) as Hz.
  cbn in Hz. rewrite Hk, Z.eqb_refl in Hz. done.
Qed.

(** The accounts do not depend on how the holders are written down. *)
Lemma inv_ext held held' dying s : (forall a, held' a = held a) -> inv held dying s -> inv held' dying s.
Proof.
  intros Hh [Hc Hd Hl Hp Ht]. split; try done.
  - intros a h E. rewrite Hh. by apply Hc.
  - intros a Ha E. rewrite Hh. by apply Hd.
Qed.
End lifetime.
