(* ===== verification/ObHandle.v ===== *)
(** * ObHandle: handle tables and duplication (kernel/ob/handle.c).

    One growable table per process; lookup with its access check, creation,
    closing, duplication between processes and inheritance by a child.  The
    answers of the user-memory probes and of the pool are arguments. *)

From S2P Require Import Prelude NtStatus KeWait SeSd SeAccess ObObject.

Definition OBP_INITIAL_HANDLE_CAPACITY : Z := 64.
Definition DUPLICATE_CLOSE_SOURCE : Z := 0x1.
Definition DUPLICATE_SAME_ACCESS : Z := 0x2.
Definition DUPLICATE_SAME_ATTRIBUTES : Z := 0x4.
Definition DELETE : Z := 0x00010000.
Definition PROCESS_DUP_HANDLE : Z := 0x40.
Definition NtCurrentProcess : Z := 2 ^ 64 - 1.

(** What the calling thread is and acts as; 0: none. *)
Record CURRENT := mkCURRENT { process : addr; threadObject : addr; processToken : addr; impersonationToken : addr }.

(** ** Values *)

Definition ObpInitializeHandleTable : OBP_HANDLE_TABLE := mkTABLE None 0 0.

Definition free_entry : OBP_HANDLE_ENTRY := mkENTRY 0 0 0.

(** The low two bits of a handle are tag bits. *)
Definition handle_value (handle : Z) : Z := Z.land handle (2 ^ 64 - 4).
Definition handle_index (handle : Z) : Z := handle_value handle / 4 - 1.

Definition ObpHandleFromIndex (index : Z) : Z := u32 ((index + 1) * 4).

Definition ObpIsPseudoHandle (handle : Z) : bool := 0xfffffffa <=? u32 handle.

Definition ALL_GENERIC : Z := Z.lor GENERIC_BITS MAXIMUM_ALLOWED.

Definition when (b : bool) (bits : Z) : Z := if b then bits else 0.

Definition ObpMapDesiredAccessRaw (objectType : OBJECT_TYPE) (desiredAccess : Z) : Z :=
  let r := rights objectType in
  if has desiredAccess ALL_GENERIC then
    if negb (genericAll r =? 0) then
      Z.land (Z.lor (Z.lor (Z.lor (Z.lor (Z.ldiff desiredAccess ALL_GENERIC)
        (when (has desiredAccess GENERIC_READ) (genericRead r)))
        (when (has desiredAccess GENERIC_WRITE) (genericWrite r)))
        (when (has desiredAccess GENERIC_EXECUTE) (genericExecute r)))
        (when (has desiredAccess (Z.lor GENERIC_ALL MAXIMUM_ALLOWED)) (genericAll r))) (validAccess r)
    else validAccess r
  else Z.land desiredAccess (validAccess r).

Definition ObpApplyAccessImplications (objectType : OBJECT_TYPE) (granted : Z) : Z :=
  match mapAccess objectType with Some f => f granted | None => granted end.

Definition ObpMapDesiredAccess (objectType : OBJECT_TYPE) (desiredAccess : Z) : Z :=
  ObpApplyAccessImplications objectType (ObpMapDesiredAccessRaw objectType desiredAccess).

(** ** Tables *)

(** The occupied slot a handle names, with its index. *)
Definition ObpEntryInTable (t : OBP_HANDLE_TABLE) (handle : Z) : outcome (option (Z * OBP_HANDLE_ENTRY)) :=
  match entries t with
  | None => Ok None
  | Some l =>
      if handle_value handle =? 0 then Ok None else
      let index := handle_index handle in
      if capacity t <=? index then Ok None else
      e ← deref (l !! Z.to_nat index) "entry";
      Ok (if negb (body e =? 0) then Some (index, e) else None)
  end.

Definition ObpHandleTableObjectAt (t : OBP_HANDLE_TABLE) (index : Z) : outcome addr :=
  match entries t with
  | None => Ok 0
  | Some l => if capacity t <=? index then Ok 0 else e ← deref (l !! Z.to_nat index) "entry"; Ok (body e)
  end.

(** The handle, body, access and attributes of an occupied slot. *)
Definition ObpHandleTableEntryAt (t : OBP_HANDLE_TABLE) (index : Z) : outcome (option (Z * OBP_HANDLE_ENTRY)) :=
  match entries t with
  | None => Ok None
  | Some l => if capacity t <=? index then Ok None else
      e ← deref (l !! Z.to_nat index) "entry";
      Ok (if body e =? 0 then None else Some (ObpHandleFromIndex index, e))
  end.

(** [for (index = 0; index < capacity; index++) if (entry->body == 0) ...] *)
Fixpoint free_slot (l : list OBP_HANDLE_ENTRY) (index : Z) : option Z :=
  match l with
  | [] => None
  | e :: l' => if body e =? 0 then Some index else free_slot l' (index + 1)
  end.

(** Room for one more entry; [pool]: whether the block it needs is there.  On
    failure the capacity may already be set. *)
Definition make_room (t : OBP_HANDLE_TABLE) (pool : bool) : bool * OBP_HANDLE_TABLE :=
  match entries t with
  | None =>
      let t := t <| capacity := OBP_INITIAL_HANDLE_CAPACITY |> in
      if pool then (true, t <| entries := Some (replicate (Z.to_nat OBP_INITIAL_HANDLE_CAPACITY) free_entry) |>) else (false, t)
  | Some l =>
      if inUse t =? capacity t then
        let newCapacity := u32 (capacity t * 2) in
        if pool then (true, t <| entries := Some (l ++ replicate (Z.to_nat (newCapacity - capacity t)) free_entry) |> <| capacity := newCapacity |>)
        else (false, t)
      else (true, t)
  end.

Section handles.
Context {W : Type} {T : TYPES W}.
Implicit Types (s : OB W) (a p : addr) (cur : CURRENT) (handle : Z).

Definition get_table s p : outcome OBP_HANDLE_TABLE := deref (tables s !! p) "no process".
Definition put_table s p (t : OBP_HANDLE_TABLE) : OB W := s <| tables := <[p := t]> (tables s) |>.

Definition ObpDeleteHandleTable s p : outcome (OB W) :=
  t ← get_table s p;
  _ ← ASSERT (inUse t =? 0) "table->inUse == 0";
  Ok (match entries t with Some _ => put_table s p (t <| entries := None |> <| capacity := 0 |>) | None => s end).

(** A slot gets its entry, and the object its handle's reference. *)
Definition fill_slot s p (index : Z) (e : OBP_HANDLE_ENTRY) : outcome (OB W) :=
  t ← get_table s p;
  l ← deref (entries t) "entries";
  let s := put_table s p (t <| entries := Some (<[Z.to_nat index := e]> l) |> <| inUse := u32 (inUse t + 1) |>) in
  s ← ObfReferenceObject s (body e);
  h ← get_header s (body e);
  n ← increment_LONG (handleCount h);
  Ok (put_header s (body e) (h <| handleCount := n |>)).

Definition ObpCreateHandleInTable s p a (access attrs : Z) (pool : bool) : outcome ((NTSTATUS + Z) * OB W) :=
  t ← get_table s p;
  let '(room, t) := make_room t pool in
  let s := put_table s p t in
  if negb room then Ok (inl STATUS_INSUFFICIENT_RESOURCES, s) else
  l ← deref (entries t) "entries";
  match free_slot l 0 with
  | None => Panic "ObpCreateHandle: no free slot below capacity"
  | Some index =>
      s ← fill_slot s p index (mkENTRY a access attrs);
      Ok (inr (ObpHandleFromIndex index), s)
  end.

(** [probe]: the answer of the probe of the out-handle. *)
Definition ObpCreateHandle s cur (probe : NTSTATUS) a (access attrs : Z) (pool : bool) : outcome ((NTSTATUS + Z) * OB W) :=
  if negb (NT_SUCCESS probe) then Ok (inl probe, s) else
  ObpCreateHandleInTable s (process cur) a access attrs pool.

(** ** Resolving *)

Definition pseudo_target cur (value : Z) : addr :=
  if (0xfffffffa <=? value) && (value <=? 0xfffffffc) then
    if value =? 0xfffffffc then processToken cur
    else if value =? 0xfffffffb then impersonationToken cur
    else if impersonationToken cur =? 0 then processToken cur else impersonationToken cur
  else if value =? 0xffffffff then process cur
  else if value =? 0xfffffffe then threadObject cur
  else 0.

Definition ObpReferencePseudoHandle s cur handle : outcome ((NTSTATUS + addr) * OB W) :=
  _ ← ASSERT (ObpIsPseudoHandle handle) "ObpIsPseudoHandle(handle)";
  let target := pseudo_target cur (u32 handle) in
  if target =? 0 then Ok (inl STATUS_INVALID_HANDLE, s) else
  s ← ObfReferenceObject s target;
  Ok (inr target, s).

(** The referenced body with the handle's attributes and access; [wantedType = 0]: any type. *)
Definition ObReferenceObjectByHandle s cur handle (desiredAccess : Z) (wantedType : addr) : outcome ((NTSTATUS + addr * Z * Z) * OB W) :=
  if ObpIsPseudoHandle handle then
    '(r, s) ← ObpReferencePseudoHandle s cur handle;
    match r with
    | inl status => Ok (inl status, s)
    | inr self =>
        h ← get_header s self;
        if negb (wantedType =? 0) && negb (type h =? wantedType) then
          s ← ObDereferenceObject s self;
          Ok (inl STATUS_OBJECT_TYPE_MISMATCH, s)
        else Ok (inr (self, 0, 2 ^ 32 - 1), s)
    end
  else
    t ← get_table s (process cur);
    found ← ObpEntryInTable t handle;
    match found with
    | None => Ok (inl STATUS_INVALID_HANDLE, s)
    | Some (_, e) =>
        h ← get_header s (body e);
        if negb (wantedType =? 0) && negb (type h =? wantedType) then Ok (inl STATUS_OBJECT_TYPE_MISMATCH, s) else
        if negb (Z.land (grantedAccess e) desiredAccess =? desiredAccess) then Ok (inl STATUS_ACCESS_DENIED, s) else
        s ← ObfReferenceObject s (body e);
        Ok (inr (body e, attributes e, grantedAccess e), s)
    end.

(** ** Closing *)

(** [for (index = 0; index < capacity; index++) if (body == ...) count++] *)
Definition ObpCountHandlesIn (t : OBP_HANDLE_TABLE) a : Z := u32 (from_option (names_in a) 0 (entries t)).

Definition clear_slot (t : OBP_HANDLE_TABLE) (index : Z) : outcome OBP_HANDLE_TABLE :=
  l ← deref (entries t) "entries";
  e ← deref (l !! Z.to_nat index) "entry";
  _ ← ASSERT (0 <? inUse t) "table->inUse > 0";
  Ok (t <| entries := Some (<[Z.to_nat index := mkENTRY 0 (grantedAccess e) (attributes e)]> l) |> <| inUse := inUse t - 1 |>).

(** [p] owns the table; [index] is an occupied slot of it. *)
Definition ObpCloseHandleEntryIn s p (index : Z) : outcome (OB W) :=
  t ← get_table s p;
  l ← deref (entries t) "entries";
  e ← deref (l !! Z.to_nat index) "entry";
  let a := body e in
  h ← get_header s a;
  let systemHandleCount := handleCount h in
  let processHandleCount := match closeProcedure (type h) with Some _ => ObpCountHandlesIn t a | None => 0 end in
  t ← clear_slot t index;
  let s := put_table s p t in
  _ ← ASSERT (0 <? handleCount h) "header->handleCount > 0";
  n ← decrement_LONG (handleCount h);
  let s := put_header s a (h <| handleCount := n |>) in
  s ← match closeProcedure (type h) with Some close => close p a processHandleCount (u32 systemHandleCount) s | None => Ok s end;
  h ← get_header s a;
  s ← (if (handleCount h =? 0) && negb (permanent h) then ObpUnlinkObjectName s a else Ok s);
  ObDereferenceObject s a.

(** The loop over the slots; the array does not move under it. *)
Fixpoint close_slots s p (count : nat) (index : Z) : outcome (OB W) :=
  match count with
  | O => Ok s
  | S count =>
      t ← get_table s p;
      if negb ((index <? capacity t) && (0 <? inUse t)) then Ok s else
      l ← deref (entries t) "entries";
      e ← deref (l !! Z.to_nat index) "entry";
      s ← (if negb (body e =? 0) then ObpCloseHandleEntryIn s p index else Ok s);
      close_slots s p count (index + 1)
  end.

Definition ObpCloseAllHandles s p : outcome (OB W) :=
  t ← get_table s p;
  s ← close_slots s p (Z.to_nat (capacity t)) 0;
  t ← get_table s p;
  _ ← ASSERT (inUse t =? 0) "table->inUse == 0";
  Ok s.

Definition NtClose s cur handle : outcome (NTSTATUS * OB W) :=
  if 2 ^ 64 - 6 <=? handle then Ok (STATUS_SUCCESS, s) else
  t ← get_table s (process cur);
  found ← ObpEntryInTable t handle;
  match found with
  | None => Ok (STATUS_INVALID_HANDLE, s)
  | Some (index, e) =>
      if has (attributes e) OBJ_PROTECT_CLOSE then Ok (STATUS_HANDLE_NOT_CLOSABLE, s) else
      s ← ObpCloseHandleEntryIn s (process cur) index;
      Ok (STATUS_SUCCESS, s)
  end.

(** ** Flags, identity, permanence *)

(** [copied]: the two flags read from the caller, or the status of the failed copy. *)
Definition NtSetInformationObject s cur handle (handleFlags : bool) (length : Z) (copied : NTSTATUS + (bool * bool)) : outcome (NTSTATUS * OB W) :=
  if negb handleFlags then Ok (STATUS_NOT_IMPLEMENTED, s) else
  if length <? 2 then Ok (STATUS_INVALID_BUFFER_SIZE, s) else
  match copied with
  | inl status => Ok (status, s)
  | inr (inherit, protect) =>
      if 2 ^ 64 - 6 <=? handle then Ok (STATUS_ACCESS_DENIED, s) else
      t ← get_table s (process cur);
      found ← ObpEntryInTable t handle;
      match found with
      | None => Ok (STATUS_INVALID_HANDLE, s)
      | Some (index, e) =>
          l ← deref (entries t) "entries";
          let flags := Z.lor (Z.lor (Z.ldiff (attributes e) (Z.lor OBJ_INHERIT OBJ_PROTECT_CLOSE)) (when inherit OBJ_INHERIT)) (when protect OBJ_PROTECT_CLOSE) in
          Ok (STATUS_SUCCESS, put_table s (process cur) (t <| entries := Some (<[Z.to_nat index := mkENTRY (body e) (grantedAccess e) flags]> l) |>))
      end
  end.

Definition NtCompareObjects s cur (first second : Z) : outcome (NTSTATUS * OB W) :=
  '(r1, s) ← ObReferenceObjectByHandle s cur first 0 0;
  match r1 with
  | inl status => Ok (status, s)
  | inr (firstBody, _, _) =>
      '(r2, s) ← ObReferenceObjectByHandle s cur second 0 0;
      match r2 with
      | inl status => s ← ObDereferenceObject s firstBody; Ok (status, s)
      | inr (secondBody, _, _) =>
          s ← ObDereferenceObject s secondBody;
          s ← ObDereferenceObject s firstBody;
          Ok (if firstBody =? secondBody then STATUS_SUCCESS else STATUS_NOT_SAME_OBJECT, s)
      end
  end.

Definition set_permanence s cur handle (access : Z) (flag : bool) : outcome (NTSTATUS * OB W) :=
  '(r, s) ← ObReferenceObjectByHandle s cur handle access 0;
  match r with
  | inl status => Ok (status, s)
  | inr (a, _, _) =>
      h ← get_header s a;
      s ← ObDereferenceObject (put_header s a (h <| permanent := flag |>)) a;
      Ok (STATUS_SUCCESS, s)
  end.

Definition NtMakePermanentObject s cur handle : outcome (NTSTATUS * OB W) := set_permanence s cur handle 0 true.
Definition NtMakeTemporaryObject s cur handle : outcome (NTSTATUS * OB W) := set_permanence s cur handle DELETE false.

(** ** Duplication *)

(** [processType]: the address of PspProcessType. *)
Definition ObpReferenceDupProcess s cur (processType : addr) (processHandle : Z) : outcome ((NTSTATUS + addr * bool) * OB W) :=
  if processHandle =? NtCurrentProcess then Ok (inr (process cur, false), s) else
  '(r, s) ← ObReferenceObjectByHandle s cur processHandle PROCESS_DUP_HANDLE processType;
  match r with
  | inl status => Ok (inl status, s)
  | inr (found, _, _) => Ok (inr (found, true), s)
  end.

(** The body to duplicate, referenced, with its access and attributes. *)
Definition dup_source s cur (sourceProc : addr) handle : outcome ((NTSTATUS + addr * Z * Z) * OB W) :=
  if ObpIsPseudoHandle handle then
    '(r, s) ← ObpReferencePseudoHandle s cur handle;
    match r with
    | inl status => Ok (inl status, s)
    | inr sourceBody =>
        h ← get_header s sourceBody;
        Ok (inr (sourceBody, ObpMapDesiredAccess (types (type h)) GENERIC_ALL, 0), s)
    end
  else
    t ← get_table s sourceProc;
    found ← ObpEntryInTable t handle;
    match found with
    | None => Ok (inl STATUS_INVALID_HANDLE, s)
    | Some (_, e) =>
        s ← ObfReferenceObject s (body e);
        Ok (inr (body e, grantedAccess e, attributes e), s)
    end.

(** Generic wishes go through the type's mapping; specific bits stay as asked. *)
Definition dup_access (objectType : OBJECT_TYPE) (sourceAccess desiredAccess options : Z) : Z :=
  if has options DUPLICATE_SAME_ACCESS then sourceAccess else
  let granted := Z.ldiff desiredAccess ALL_GENERIC in
  if has desiredAccess ALL_GENERIC then Z.lor granted (ObpMapDesiredAccess objectType (Z.land desiredAccess ALL_GENERIC)) else granted.

Definition release_if s (referenced : bool) p : outcome (OB W) := if referenced then ObDereferenceObject s p else Ok s.

(** [wanted]: a target handle was asked for; [probe1], [probe2]: the probes of
    its slot, on entry and before the insert. *)
Definition NtDuplicateObject s cur (processType : addr) (sourceProcess sourceHandle targetProcess : Z) (wanted : bool) (probe1 probe2 : NTSTATUS)
    (desiredAccess attrs options : Z) (pool : bool) : outcome (NTSTATUS * option Z * OB W) :=
  if wanted && negb (NT_SUCCESS probe1) then Ok (probe1, None, s) else
  '(r, s) ← ObpReferenceDupProcess s cur processType sourceProcess;
  match r with inl status => Ok (status, None, s) | inr (sourceProc, sourceReferenced) =>
  '(r, s) ← ObpReferenceDupProcess s cur processType targetProcess;
  match r with inl status => s ← release_if s sourceReferenced sourceProc; Ok (status, None, s) | inr (targetProc, targetReferenced) =>
  let release s (status : NTSTATUS) (handleOut : option Z) (sourceBody : addr) :=
    s ← release_if s (negb (sourceBody =? 0)) sourceBody;
    s ← release_if s targetReferenced targetProc;
    s ← release_if s sourceReferenced sourceProc;
    Ok (status, handleOut, s) in
  '(r, s) ← dup_source s cur sourceProc sourceHandle;
  match r with inl status => release s status None 0 | inr (sourceBody, sourceAccess, sourceAttributes) =>
  h ← get_header s sourceBody;
  let granted := dup_access (types (type h)) sourceAccess desiredAccess options in
  let newAttributes := if has options DUPLICATE_SAME_ATTRIBUTES then sourceAttributes else attrs in
  '(created, s) ← (if wanted then
      if NT_SUCCESS probe2 then
        '(r, s) ← ObpCreateHandleInTable s targetProc sourceBody granted newAttributes pool;
        Ok (match r with inl status => (inl status) | inr handle => inr (Some handle) end, s)
      else Ok (inl probe2, s)
    else Ok (inr None, s));
  match created with inl status => release s status None sourceBody | inr handleOut =>
  s ← (if has options DUPLICATE_CLOSE_SOURCE then
      t ← get_table s sourceProc;
      found ← ObpEntryInTable t sourceHandle;
      match found with Some (index, _) => ObpCloseHandleEntryIn s sourceProc index | None => Ok s end
    else Ok s);
  release s STATUS_SUCCESS handleOut sourceBody
  end end end end.

(** Kernel-internal duplication into a child's table. *)
Definition ObpDuplicateIntoTable s (parent : addr) (source : Z) (child : addr) (sameAttributes pool : bool) : outcome ((NTSTATUS + Z) * OB W) :=
  t ← get_table s parent;
  found ← ObpEntryInTable t source;
  match found with
  | None => Ok (inl STATUS_INVALID_HANDLE, s)
  | Some (_, e) => ObpCreateHandleInTable s child (body e) (grantedAccess e) (if sameAttributes then attributes e else 0) pool
  end.

(** ** Inheritance *)

(** The entry keeps its index in the child's table. *)
Definition ObpInheritOne (parent child : addr) s handle : outcome (OB W) :=
  t ← get_table s parent;
  found ← ObpEntryInTable t handle;
  match found with
  | None => Ok s
  | Some (_, e) =>
      if negb (has (attributes e) OBJ_INHERIT) then Ok s else
      t' ← get_table s child;
      l ← deref (entries t') "entries";
      destination ← deref (l !! Z.to_nat (handle_index handle)) "entry";
      if negb (body destination =? 0) then Ok s else
      fill_slot s child (handle_index handle) e
  end.

(** [for (index = 0; index < parent->capacity; index++)], the inherit-all loop. *)
Fixpoint inherit_all s (parent child : addr) (l : list OBP_HANDLE_ENTRY) (index : Z) : outcome (OB W) :=
  match l with
  | [] => Ok s
  | e :: l =>
      s ← (if (body e =? 0) || negb (has (attributes e) OBJ_INHERIT) then Ok s else fill_slot s child index e);
      inherit_all s parent child l (index + 1)
  end.

(** [handleList = None]: inherit every inheritable handle. *)
Definition ObpInheritHandles s (parent child : addr) (handleList : option (list Z)) (stdHandles : list Z) (pool : bool) : outcome (NTSTATUS * OB W) :=
  t' ← get_table s child;
  _ ← ASSERT (inUse t' =? 0) "child->inUse == 0";
  t ← get_table s parent;
  match entries t with
  | None => Ok (STATUS_SUCCESS, s)
  | Some l =>
      let small := match entries t' with None => true | Some _ => capacity t' <? capacity t end in
      if small && negb pool then Ok (STATUS_INSUFFICIENT_RESOURCES, s) else
      let newCapacity := if small then capacity t else capacity t' in
      let s := put_table s child (t' <| entries := Some (replicate (Z.to_nat newCapacity) free_entry) |> <| capacity := newCapacity |>) in
      s ← match handleList with
          | None => inherit_all s parent child l 0
          | Some handles =>
              s ← foldM (ObpInheritOne parent child) s handles;
              foldM (ObpInheritOne parent child) s stdHandles
          end;
      Ok (STATUS_SUCCESS, s)
  end.

(** ** The consistency sweep *)

(** [verifyWaitList]: KiVerifyWaitList of a waitable body. *)
Definition verify_entry s (verifyWaitList : addr -> outcome unit) (occupied : Z) (e : OBP_HANDLE_ENTRY) : outcome Z :=
  if body e =? 0 then Ok occupied else
  h ← get_header s (body e);
  _ ← ASSERT (negb (type h =? 0) && negb (typeName (types (type h)) =? 0)) "header->type != 0 && header->type->name != 0";
  _ ← ASSERT (1 <=? handleCount h) "header->handleCount >= 1";
  _ ← ASSERT (handleCount h + (if parentDirectory h =? 0 then 0 else 1) <=? pointerCount h) "header->pointerCount >= header->handleCount + ...";
  _ ← (if waitable (types (type h)) then verifyWaitList (body e) else Ok tt);
  Ok (occupied + 1).

Definition ObpVerifyHandleTable s (verifyWaitList : addr -> outcome unit) (t : OBP_HANDLE_TABLE) : outcome unit :=
  _ ← ASSERT (inUse t <=? capacity t) "table->inUse <= table->capacity";
  found ← foldM (verify_entry s verifyWaitList) 0 (default [] (entries t));
  ASSERT (found =? inUse t) "occupied == table->inUse".
End handles.

(** ** The table as a map from handles *)

(** Occupied slots by handle value. *)
Definition handle_of (index : nat) : Z := 4 * (Z.of_nat index + 1).
Definition handle_map (t : OBP_HANDLE_TABLE) : gmap Z OBP_HANDLE_ENTRY :=
  kmap handle_of (filter (fun ie : nat * OBP_HANDLE_ENTRY => body ie.2 <> 0) (map_seq 0 (default [] (entries t)) : gmap nat OBP_HANDLE_ENTRY)).

#[export] Instance handle_of_inj : Inj eq eq handle_of.
Proof. intros i j. unfold handle_of. lia. Qed.

Section tables.
Implicit Types (t : OBP_HANDLE_TABLE) (l : list OBP_HANDLE_ENTRY) (e : OBP_HANDLE_ENTRY).

Lemma handle_map_Some t v e : handle_map t !! v = Some e <->
  exists l i, entries t = Some l /\ v = handle_of i /\ l !! i = Some e /\ body e <> 0.
Proof.
  unfold handle_map. rewrite lookup_kmap_Some by apply _. split.
  - intros (i & -> & Hf). apply map_lookup_filter_Some in Hf as [Hi Hb]. rewrite lookup_map_seq_0 in Hi. destruct (entries t) as [l|]; [|done]. eauto 10.
  - intros (l & i & El & -> & Hi & Hb). exists i. split; [done|]. apply map_lookup_filter_Some. rewrite lookup_map_seq_0, El. done.
Qed.

Lemma handle_map_ext t t' (f : Z -> option OBP_HANDLE_ENTRY) v : (forall e, handle_map t' !! v = Some e <-> f v = Some e) -> handle_map t' !! v = f v.
Proof. intros H. apply option_eq. exact H. Qed.

(** Counting after a change of one slot. *)
Lemma count_insert (P : OBP_HANDLE_ENTRY -> Prop) `{!forall e, Decision (P e)} l i e e' : l !! i = Some e ->
  Z.of_nat (length (filter P (<[i := e']> l))) =
    Z.of_nat (length (filter P l)) - (if decide (P e) then 1 else 0) + (if decide (P e') then 1 else 0).
Proof.
  revert i. induction l as [|x l IH]; intros i Hi; [done|]. destruct i as [|i]; cbn in Hi.
  - injection Hi as ->. change (<[0%nat := e']> (e :: l)) with (e' :: l). rewrite !filter_cons. repeat case_decide; cbn [length]; lia.
  - change (<[S i := e']> (x :: l)) with (x :: <[i := e']> l). rewrite !filter_cons. specialize (IH i Hi). destruct (decide (P x)); cbn [length]; lia.
Qed.

Lemma filter_free (P : OBP_HANDLE_ENTRY -> Prop) `{!forall e, Decision (P e)} n : ~ P free_entry -> filter P (replicate n free_entry) = [].
Proof. intros HP. induction n as [|n IH]; [done|]. cbn [replicate]. by rewrite filter_cons_False. Qed.

Lemma count_append_free (P : OBP_HANDLE_ENTRY -> Prop) `{!forall e, Decision (P e)} l n : ~ P free_entry ->
  filter P (l ++ replicate n free_entry) = filter P l.
Proof. intros HP. by rewrite filter_app, filter_free, app_nil_r. Qed.

Lemma occupied_le l : occupied l <= Z.of_nat (length l).
Proof. unfold occupied. pose proof (length_filter (fun e => body e <> 0) l). lia. Qed.

Lemma occupied_slot l i e : l !! i = Some e -> body e <> 0 -> 0 < occupied l.
Proof.
  intros Hi He. unfold occupied. assert (Hin : e ∈ filter (fun e => body e <> 0) l) by (apply list_elem_of_filter; split; [done|by eapply list_elem_of_lookup_2]).
  destruct (filter _ l); [by apply not_elem_of_nil in Hin|cbn; lia].
Qed.

Lemma free_slot_found l k : occupied l < Z.of_nat (length l) ->
  exists i e, free_slot l k = Some (k + Z.of_nat i) /\ l !! i = Some e /\ body e = 0 /\ forall j e', (j < i)%nat -> l !! j = Some e' -> body e' <> 0.
Proof.
  revert k. induction l as [|x l IH]; intros k Hl; [unfold occupied in Hl; cbn in Hl; lia|]. cbn [free_slot]. destruct (Z.eqb_spec (body x) 0) as [Hx|Hx].
  - exists 0%nat, x. split; [f_equal; cbn; lia|]. split_and!; [done..|lia].
  - destruct (IH (k + 1)) as (i & e & E & Hi & Hb & Hlow).
    { unfold occupied in *. rewrite filter_cons_True in Hl by done. cbn [length] in Hl. lia. }
    exists (S i), e. split; [rewrite E; f_equal; lia|]. split_and!; [done..|]. intros [|j] e' Hj Hj'; cbn in Hj'; [congruence|]. apply (Hlow j); [lia|done].
Qed.

Lemma handle_value_spec handle : is_u64 handle -> handle_value handle = handle - handle mod 4.
Proof.
  intros [H0 H1]. unfold handle_value. replace (2 ^ 64 - 4) with (Z.ldiff (Z.ones 64) (Z.ones 2)) by reflexivity.
  rewrite Z.ldiff_land, Z.land_assoc, Z.land_ones, Z.mod_small, <- Z.ldiff_land, Z.ldiff_ones_r, Z.shiftl_mul_pow2, Z.shiftr_div_pow2 by lia.
  change (2 ^ 2) with 4. pose proof (Z.div_mod handle 4). lia.
Qed.

(** A lookup is a lookup in the map, tag bits ignored. *)
Lemma entry_in_table t handle : table_ok t -> is_u64 handle ->
  ObpEntryInTable t handle = Ok ((fun e => (handle_index handle, e)) <$> handle_map t !! handle_value handle).
Proof.
  intros K Hh. pose proof (handle_value_spec handle Hh) as Hv. unfold ObpEntryInTable.
  assert (Hm : forall e, handle_map t !! handle_value handle = Some e -> exists l, entries t = Some l /\ l !! Z.to_nat (handle_index handle) = Some e /\ body e <> 0 /\ handle_value handle <> 0).
  { intros e (l & i & El & Hi & He & Hb)%handle_map_Some. exists l. split; [done|]. unfold handle_index. rewrite Hi. unfold handle_of.
    replace (Z.to_nat (4 * (Z.of_nat i + 1) / 4 - 1)) with i; [split; [done|split; [done|lia]]|]. rewrite Z.mul_comm, Z.div_mul by lia. lia. }
  destruct (entries t) as [l|] eqn:El.
  2: { destruct (handle_map t !! handle_value handle) as [e|] eqn:E; [|done]. destruct (Hm _ eq_refl) as (? & ? & _). done. }
  unfold table_ok in K. rewrite El in K. destruct K as (Hc & Hr & _).
  destruct (Z.eqb_spec (handle_value handle) 0) as [H0|H0].
  { destruct (handle_map t !! handle_value handle) as [e|] eqn:E; [|done]. by destruct (Hm _ eq_refl) as (? & _ & _ & _ & ?). }
  assert (Hq : handle_value handle = 4 * (handle_value handle / 4)) by (rewrite Hv; pose proof (Z.div_mod handle 4); replace (handle - handle mod 4) with (4 * (handle / 4)) by lia; rewrite (Z.mul_comm 4 (handle / 4)), Z.div_mul by lia; lia).
  assert (Hi : 0 <= handle_index handle) by (unfold handle_index; destruct Hh; pose proof (Z.mod_pos_bound handle 4); lia).
  destruct (Z.leb_spec (capacity t) (handle_index handle)) as [Hle|Hlt].
  { destruct (handle_map t !! handle_value handle) as [e|] eqn:E; [|done]. destruct (Hm _ eq_refl) as (l' & [= <-] & He & _). apply lookup_lt_Some in He. lia. }
  destruct (lookup_lt_is_Some_2 l (Z.to_nat (handle_index handle))) as [e He]; [lia|]. rewrite He. run. f_equal.
  destruct (Z.eqb_spec (body e) 0) as [Hb|Hb]; cbn [negb].
  - destruct (handle_map t !! handle_value handle) as [e'|] eqn:E; [|done]. destruct (Hm _ eq_refl) as (l' & [= <-] & He' & Hb' & _). congruence.
  - assert (E : handle_map t !! handle_value handle = Some e).
    { apply handle_map_Some. exists l, (Z.to_nat (handle_index handle)). split_and!; [done| |done..]. unfold handle_of. rewrite Z2Nat.id by lia. unfold handle_index. lia. }
    by rewrite E.
Qed.
End tables.

(** ** The accounts under changes of a table *)

Section accounts.
Context {W : Type} {T : TYPES W} {OK : TYPES_OK W}.
Implicit Types (s : OB W) (a p : addr) (cur : CURRENT) (handle : Z) (t : OBP_HANDLE_TABLE) (held : addr -> nat).
Abbreviation inv := (ob_inv owned).

Lemma names_insert a l i e e' : l !! i = Some e ->
  names_in a (<[i := e']> l) = names_in a l - (if body e =? a then 1 else 0) + (if body e' =? a then 1 else 0).
Proof.
  intros Hi. unfold names_in. rewrite (count_insert _ l i e) by done.
  destruct (Z.eqb_spec (body e) a), (Z.eqb_spec (body e') a); repeat case_decide; try done; lia.
Qed.

Lemma occupied_insert l i e e' : l !! i = Some e ->
  occupied (<[i := e']> l) = occupied l - (if body e =? 0 then 0 else 1) + (if body e' =? 0 then 0 else 1).
Proof.
  intros Hi. unfold occupied. rewrite (count_insert _ l i e) by done.
  destruct (Z.eqb_spec (body e) 0), (Z.eqb_spec (body e') 0); repeat case_decide; try done; lia.
Qed.

(** A table entry names a live object. *)
Lemma entry_alive held dying s p t l i e : inv held dying s -> tables s !! p = Some t -> entries t = Some l -> l !! i = Some e -> body e <> 0 ->
  exists h, headers s !! body e = Some h /\ 0 < pointerCount h /\ 0 < handleCount h <= pointerCount h.
Proof.
  intros I Ht El Hi Hb. assert (Hpos : 0 < handles s (body e)).
  { assert (Hin : e ∈ filter (fun e' => body e' = body e) l) by (apply list_elem_of_filter; split; [done|by eapply list_elem_of_lookup_2]).
    assert (0 < table_names (body e) t) by (unfold table_names, names_in; rewrite El; cbn [from_option]; destruct (filter _ l); [by apply not_elem_of_nil in Hin|cbn; lia]).
    pose proof (tally_ge (table_names (body e)) (tables s) p t (fun _ t _ => table_names_nonneg _ t) Ht). unfold handles. lia. }
  destruct (inv_alive _ _ _ (body e) I Hb) as (h & E & Hp); [lia|]. exists h. split; [done|]. split; [done|].
  destruct (inv_counts _ _ _ _ I _ _ E) as (_ & Hpc & Hhc & _). pose proof (children_nonneg s (body e)). pose proof (named_nonneg h). lia.
Qed.

(** A table and the counts of one object change together. *)
Lemma retable_inv held held' (dying : gset addr) s p t t' a h h' n : inv held dying s -> headers s !! a = Some h -> tables s !! p = Some t -> table_ok t' ->
  (forall b, b <> 0 -> table_names b t' = table_names b t + (if b =? a then n else 0)) ->
  pointerCount h' = pointerCount h + n + Z.of_nat (held' a) - Z.of_nat (held a) -> handleCount h' = handleCount h + n ->
  parentDirectory h' = parentDirectory h -> type h' = type h -> (forall b, b <> a -> held' b = held b) -> (pointerCount h' = 0 -> a ∈ dying) ->
  inv held' dying (put_header (put_table s p t') a h').
Proof.
  intros I E Ht K Hn Hpc Hhc Hp Hty Hh H0. destruct (inv_counts _ _ _ _ I _ _ E) as (Ha & Hpc0 & Hhc0 & _). set (s' := put_header _ a h').
  assert (Hch : forall b, children s' b = children s b).
  { intros b. unfold children. unfold s'. rewrite headers_put. change (headers (put_table s p t')) with (headers s). rewrite (tally_update _ _ _ h) by done. rewrite Hp. lia. }
  assert (Hha : forall b, b <> 0 -> handles s' b = handles s b + (if b =? a then n else 0)).
  { intros b Hb. unfold handles. change (tables s') with (<[p := t']> (tables s)). rewrite (tally_update _ _ _ t) by done. rewrite Hn by done. lia. }
  assert (Hnm : named h' = named h) by (unfold named; by rewrite Hp).
  assert (Hhd : headers s' = <[a := h']> (headers s)) by done. assert (Hdd : directories s' = directories s) by done.
  assert (Htd : tables s' = <[p := t']> (tables s)) by done. assert (Hwd : world s' = world s) by done. clearbody s'.
  split; rewrite ?Hhd, ?Hdd, ?Htd, ?Hwd.
  - intros b k [(<- & <-)|(Hb & Hk)]%lookup_insert_Some.
    + rewrite Hha, Hch by done. rewrite Z.eqb_refl. split_and!; [done|lia|lia|done].
    + destruct (inv_counts _ _ _ _ I _ _ Hk) as (? & ? & ? & ?). rewrite Hha, Hch, Hh by done. rewrite (proj2 (Z.eqb_neq b a)) by done. split_and!; try done; lia.
  - intros b Hb (Hk & Hne)%lookup_insert_None. rewrite Hha, Hch, Hh by congruence. rewrite (proj2 (Z.eqb_neq b a)) by congruence. rewrite Z.add_0_r. by apply (inv_dead _ _ _ _ I).
  - intros d l El. destruct (inv_directories _ _ _ _ I _ _ El) as (Hs & Hnd & Hm). split; [|split; [done|]].
    + destruct (decide (d = a)) as [->|]; [by rewrite lookup_insert_eq|by rewrite lookup_insert_ne].
    + intros b. rewrite Hm. destruct (decide (b = a)) as [->|]; [|by rewrite lookup_insert_ne].
      rewrite lookup_insert_eq, E. split; intros (? & [= <-] & ?); eexists; (split; [done|congruence]).
  - intros b k [(<- & <-)|(Hb & Hk)]%lookup_insert_Some.
    + rewrite Hp. exact (inv_parents _ _ _ _ I _ _ E).
    + exact (inv_parents _ _ _ _ I _ _ Hk).
  - intros q u Hu. apply lookup_insert_Some in Hu as [(<- & <-)|(Hq & Hu)]; [done|]. exact (inv_tables _ _ _ _ I _ _ Hu).
  - exact (put_typed _ _ _ _ _ _ I E Hty).
Qed.

(** A table changes without naming anything else. *)
Lemma retabled_inv held dying s p t t' : inv held dying s -> tables s !! p = Some t -> table_ok t' ->
  (forall b, b <> 0 -> table_names b t' = table_names b t) -> inv held dying (put_table s p t').
Proof.
  intros I Ht K Hn. assert (Hha : forall b, b <> 0 -> handles (put_table s p t') b = handles s b).
  { intros b Hb. unfold handles. change (tables (put_table s p t')) with (<[p := t']> (tables s)). rewrite (tally_update _ _ _ t) by done. rewrite Hn by done. lia. }
  split.
  - intros b k Hk. destruct (inv_counts _ _ _ _ I _ _ Hk) as (? & ? & ? & ?). by rewrite Hha.
  - intros b Hb Hk. rewrite Hha by done. by apply (inv_dead _ _ _ _ I).
  - apply (inv_directories _ _ _ _ I).
  - apply (inv_parents _ _ _ _ I).
  - change (tables (put_table s p t')) with (<[p := t']> (tables s)). intros q u [(<- & <-)|(Hq & Hu)]%lookup_insert_Some; [done|]. exact (inv_tables _ _ _ _ I _ _ Hu).
  - apply (inv_typed _ _ _ _ I).
Qed.

(** No count is within [n] of overflowing. *)
Definition room (n : Z) s : Prop := forall a h, headers s !! a = Some h -> pointerCount h < 2 ^ 31 - n.

(** The table can take one more handle: growing needs a block of at most 2^29 entries. *)
Definition can_grow t (pool : bool) : Prop := pool = true -> inUse t = capacity t -> capacity t <= 2 ^ 28.

Lemma make_room_spec t pool : table_ok t -> can_grow t pool ->
  let '(room, t') := make_room t pool in
  table_ok t' /\ (forall a, a <> 0 -> table_names a t' = table_names a t) /\ handle_map t' = handle_map t /\
  (room = true -> exists l, entries t' = Some l /\ occupied l < Z.of_nat (length l)) /\ (pool = true -> room = true) /\
  (forall l, entries t = Some l -> exists l', entries t' = Some l' /\ l `prefix_of` l').
Proof.
  intros K Hg. unfold make_room. pose proof K as K0. unfold table_ok in K. destruct (entries t) as [l|] eqn:El.
  - destruct K as (Hc & Hr & Hu). destruct (Z.eqb_spec (inUse t) (capacity t)) as [Heq|Hne].
    2: { split_and!; try done; [|intros ? [= <-]; by exists l]. intros _. exists l. split; [done|]. pose proof (occupied_le l). lia. }
    destruct pool; [|split_and!; try done; intros ? [= <-]; by exists l]. specialize (Hg eq_refl Heq).
    assert (E2 : u32 (capacity t * 2) = capacity t * 2) by (apply u32_small; unfold is_u32; lia). rewrite E2.
    set (free := replicate _ free_entry). assert (Hf : length free = length l) by (unfold free; rewrite length_replicate; lia).
    assert (Ho : occupied (l ++ free) = occupied l) by (unfold occupied, free; rewrite count_append_free; [done|by intros ?]).
    split; [|split; [|split; [|split; [|split]]]].
    + unfold table_ok. cbn. rewrite Ho, length_app. split_and!; lia.
    + intros a Ha. unfold table_names, names_in. cbn. rewrite El. cbn. unfold free. rewrite count_append_free; [done|]. cbn. congruence.
    + apply map_eq. intros v. apply option_eq. intros e. rewrite !handle_map_Some. cbn. split.
      * intros (? & i & [= <-] & -> & Hi & Hb). exists l, i. split_and!; [done..| |done]. apply lookup_app_Some in Hi as [Hi|[_ Hi]]; [done|].
        apply lookup_replicate in Hi as [-> _]. done.
      * intros (? & i & El' & -> & Hi & Hb). rewrite El in El'. injection El' as <-. exists (l ++ free), i. split_and!; [done..| |done]. by apply lookup_app_l_Some.
    + intros _. exists (l ++ free). split; [done|]. rewrite Ho, length_app, Hf. lia.
    + done.
    + intros ? [= <-]. eexists. split; [done|]. by apply prefix_app_r.
  - destruct K as [Hu Hc]. destruct pool.
    + set (l := replicate _ free_entry). assert (Ho : occupied l = 0) by done. split; [|split; [|split; [|split; [|split]]]].
      * unfold table_ok. cbn. rewrite Hu, Ho. split_and!; done.
      * intros a Ha. unfold table_names at 2. rewrite El. cbn [from_option]. change (table_names a _) with (names_in a l). unfold names_in, l. by rewrite (filter_free (fun e => body e = a)) by (cbn; congruence).
      * apply map_eq. intros v. apply option_eq. intros e. rewrite !handle_map_Some. split; [|by intros (? & ? & ? & _); congruence].
        intros (? & i & [= <-] & -> & Hi & Hb). apply lookup_replicate in Hi as [-> _]. done.
      * intros _. exists l. by split.
      * done.
      * done.
    + split; [|split_and!; try done].
      unfold table_ok. cbn. rewrite El. split; [done|]. unfold OBP_INITIAL_HANDLE_CAPACITY. lia.
Qed.

Lemma handle_map_insert t t' l (i : nat) e : entries t = Some l -> (i < length l)%nat -> entries t' = Some (<[i := e]> l) -> body e <> 0 ->
  handle_map t' = <[handle_of i := e]> (handle_map t).
Proof.
  intros El Hi El' Hb. apply map_eq. intros v. apply option_eq. intros e'. rewrite handle_map_Some, lookup_insert_Some, handle_map_Some. rewrite El, El'. split.
  - intros (? & j & [= <-] & -> & Hj & Hb'). apply list_lookup_insert_Some in Hj as [(-> & -> & _)|(Hne & Hj)]; [by left|].
    right. split; [by intros ?%(inj handle_of)|]. by exists l, j.
  - intros [(<- & <-)|(Hne & ? & j & [= <-] & -> & Hj & Hb')].
    + exists (<[i := e]> l), i. split_and!; try done. by rewrite list_lookup_insert_eq.
    + exists (<[i := e]> l), j. split_and!; try done. rewrite list_lookup_insert_ne; [done|]. by intros ->.
Qed.

Lemma handle_map_clear t t' l (i : nat) e : entries t = Some l -> (i < length l)%nat -> entries t' = Some (<[i := e]> l) -> body e = 0 ->
  handle_map t' = delete (handle_of i) (handle_map t).
Proof.
  intros El Hi El' Hb. apply map_eq. intros v. apply option_eq. intros e'. rewrite handle_map_Some, lookup_delete_Some, handle_map_Some. rewrite El, El'. split.
  - intros (? & j & [= <-] & -> & Hj & Hb'). apply list_lookup_insert_Some in Hj as [(-> & -> & _)|(Hne & Hj)]; [done|].
    split; [by intros ?%(inj handle_of)|]. by exists l, j.
  - intros (Hne & ? & j & [= <-] & -> & Hj & Hb'). exists (<[i := e]> l), j. split_and!; try done. rewrite list_lookup_insert_ne; [done|]. by intros ->.
Qed.

Lemma put_header_twice s a h h' : put_header (put_header s a h) a h' = put_header s a h'.
Proof. unfold put_header. cbn. by rewrite insert_insert_eq. Qed.

Lemma table_range t l : table_ok t -> entries t = Some l -> inUse t = occupied l /\ capacity t = Z.of_nat (length l) /\ 0 < capacity t <= 2 ^ 29.
Proof. intros K El. unfold table_ok in K. rewrite El in K. lia. Qed.

(** A free slot is filled. *)
Lemma fill_spec held dying s p t l i e e0 h : inv held dying s -> tables s !! p = Some t -> entries t = Some l -> l !! i = Some e0 -> body e0 = 0 -> body e <> 0 ->
  headers s !! body e = Some h -> 0 < pointerCount h < 2 ^ 31 - 1 ->
  let t' := t <| entries := Some (<[i := e]> l) |> <| inUse := inUse t + 1 |> in
  let s' := put_header (put_table s p t') (body e) (h <| pointerCount := pointerCount h + 1 |> <| handleCount := handleCount h + 1 |>) in
  fill_slot s p (Z.of_nat i) e = Ok s' /\ inv held dying s' /\ table_ok t' /\ handle_map t !! handle_of i = None /\ handle_map t' = <[handle_of i := e]> (handle_map t).
Proof.
  intros I Ht El Hi H0 Hb E Hr t' s'. pose proof (inv_tables _ _ _ _ I _ _ Ht) as K. destruct (table_range _ _ K El) as (Hu & Hc & Hcr).
  assert (Hlt : (i < length l)%nat) by by eapply lookup_lt_Some.
  assert (Ho : occupied (<[i := e]> l) = occupied l + 1).
  { rewrite (occupied_insert l i e0) by done. rewrite (proj2 (Z.eqb_eq (body e0) 0)), (proj2 (Z.eqb_neq (body e) 0)) by done. lia. }
  pose proof (occupied_le (<[i := e]> l)) as Hle. rewrite length_insert in Hle.
  destruct (inv_counts _ _ _ _ I _ _ E) as (_ & Hpc & Hhc & _). pose proof (handles_nonneg s (body e)). pose proof (children_nonneg s (body e)). pose proof (named_nonneg h).
  assert (K' : table_ok t') by (unfold table_ok, t'; cbn; rewrite length_insert, Ho; lia).
  split; [|split; [|split; [done|split]]].
  - unfold fill_slot, get_table. rewrite Ht. run. rewrite El. run. rewrite Nat2Z.id.
    replace (u32 (inUse t + 1)) with (inUse t + 1) by (symmetry; apply u32_small; pose proof (occupied_nonneg l); unfold is_u32; lia).
    fold t'. unfold ObfReferenceObject, get_header. change (headers (put_table s p t')) with (headers s). rewrite E. run.
    rewrite (proj2 (Z.ltb_lt _ _)) by lia. run. rewrite increment_LONG_Ok by lia. run. rewrite headers_put, lookup_insert_eq. run.
    cbn [handleCount]. rewrite increment_LONG_Ok by (cbn; lia). run. by rewrite put_header_twice.
  - apply (retable_inv held held dying s p t t' (body e) h _ 1); try done; cbn; try lia.
    intros b Hb0. unfold table_names. cbn. rewrite El. cbn. rewrite (names_insert b l i e0) by done. rewrite H0.
    rewrite (proj2 (Z.eqb_neq 0 b)) by done. rewrite (Z.eqb_sym b). lia.
  - destruct (handle_map t !! handle_of i) as [e'|] eqn:Ee; [|done]. apply handle_map_Some in Ee as (l' & j & El' & ->%(inj handle_of) & Hj & Hb').
    rewrite El in El'. injection El' as <-. congruence.
  - by eapply handle_map_insert.
Qed.

Lemma handle_from_index (i : nat) : Z.of_nat i < 2 ^ 29 -> ObpHandleFromIndex (Z.of_nat i) = handle_of i /\ 0 < handle_of i <= 2 ^ 31 /\ handle_of i mod 4 = 0.
Proof.
  intros Hi. unfold ObpHandleFromIndex, handle_of. rewrite u32_small by (unfold is_u32; lia). split; [lia|]. split; [lia|].
  rewrite Z.mul_comm. by apply Z.mod_mul.
Qed.

(** A handle is made: the lowest free value, or nothing happens. *)
Lemma create_spec held dying s p t a h access attrs pool : inv held dying s -> tables s !! p = Some t -> headers s !! a = Some h -> 0 < pointerCount h < 2 ^ 31 - 1 ->
  can_grow t pool -> exists r s' t', ObpCreateHandleInTable s p a access attrs pool = Ok (r, s') /\ inv held dying s' /\
    tables s' = <[p := t']> (tables s) /\ directories s' = directories s /\ world s' = world s /\
    match r with
    | inl status => status = STATUS_INSUFFICIENT_RESOURCES /\ pool = false /\ handle_map t' = handle_map t /\ headers s' = headers s
    | inr v => handle_map t !! v = None /\ handle_map t' = <[v := mkENTRY a access attrs]> (handle_map t) /\
        0 < v <= 2 ^ 31 /\ v mod 4 = 0 /\ (forall v', 0 < v' < v -> v' mod 4 = 0 -> is_Some (handle_map t !! v')) /\
        headers s' = <[a := h <| pointerCount := pointerCount h + 1 |> <| handleCount := handleCount h + 1 |>]> (headers s)
    end.
Proof.
  intros I Ht E Hr Hg. pose proof (inv_tables _ _ _ _ I _ _ Ht) as K. pose proof (make_room_spec t pool K Hg) as M.
  destruct (inv_counts _ _ _ _ I _ _ E) as (Ha & _). unfold ObpCreateHandleInTable, get_table. rewrite Ht. run.
  destruct (make_room t pool) as [rm t1]. destruct M as (K1 & Hn1 & Hm1 & Hroom & Hpool & _).
  pose proof (retabled_inv held dying s p t t1 I Ht K1 Hn1) as I1. destruct rm; cbn [negb].
  2: { eexists _, _, t1. split; [done|]. split; [done|]. split_and!; try done. destruct pool; [by specialize (Hpool eq_refl)|done]. }
  destruct (Hroom eq_refl) as (l & El & Hfree). rewrite El. run. destruct (free_slot_found l 0 Hfree) as (i & e0 & Ef & Hi & H0 & Hlow). rewrite Ef, Z.add_0_l.
  assert (Ht1 : tables (put_table s p t1) !! p = Some t1) by apply lookup_insert_eq.
  destruct (fill_spec held dying _ p t1 l i (mkENTRY a access attrs) e0 h I1 Ht1 El Hi H0 Ha E Hr) as (F & I2 & K2 & Hnone & Hm2). rewrite F. run.
  destruct (table_range _ _ K1 El) as (_ & Hc & Hcr). pose proof (lookup_lt_Some _ _ _ Hi). destruct (handle_from_index i) as (-> & Hv & Hv4); [lia|].
  eexists _, _, _. split; [done|]. split; [exact I2|]. split; [|split; [done|split; [done|]]].
  { cbn. by rewrite insert_insert_eq. }
  rewrite Hm1 in Hnone, Hm2. split_and!; try done; [lia|lia|]. intros v' Hv' Hv4'.
  assert (Hj : exists j : nat, v' = handle_of j /\ (j < i)%nat).
  { exists (Z.to_nat (v' / 4 - 1)). unfold handle_of in *. pose proof (Z.div_mod v' 4). split; lia. }
  destruct Hj as (j & -> & Hji). destruct (lookup_lt_is_Some_2 l j) as [e' He']; [lia|]. exists e'. rewrite <- Hm1. apply handle_map_Some. exists l, j. split_and!; try done. by eapply Hlow.
Qed.

(** The rest of a close: the type hears of it, a temporary object loses its name
    with its last handle, and the handle's reference goes. *)
Lemma close_tail held dying s a p h n m : inv (hold a held) dying s -> headers s !! a = Some h -> (0 < held p)%nat ->
  returns (s ← match closeProcedure (type h) with Some close => close p a n m s | None => Ok s end;
    h ← get_header s a;
    s ← (if (handleCount h =? 0) && negb (permanent h) then ObpUnlinkObjectName s a else Ok s);
    ObDereferenceObject s a) (fun s' => inv held dying s' /\ kept held s s').
Proof.
  intros I E Hp. destruct (inv_counts _ _ _ _ I _ _ E) as (Ha & _).
  assert (Hclose : returns (match closeProcedure (type h) with Some close => close p a n m s | None => Ok s end)
    (fun s' => inv (hold a held) dying s' /\ kept (hold a held) s s')).
  { destruct (closeProcedure (type h)) as [f|] eqn:Ef; [|by split]. eapply close_keeps; try done; [rewrite hold_eq; lia|]. pose proof (hold_le a held p). lia. }
  apply returns_bind. eapply returns_mono; [exact Hclose|]. intros s1 [I1 K1].
  destruct (inv_alive _ _ _ a I1 Ha) as (h1 & E1 & _); [rewrite hold_eq; lia|]. unfold get_header. rewrite E1. run.
  apply returns_bind. apply (returns_mono _ (fun s' => inv (hold a held) dying s' /\ kept (hold a held) s1 s')).
  { destruct ((handleCount h1 =? 0) && negb (permanent h1)); [|by split]. by apply unlink_spec. }
  intros s2 [I2 K2]. eapply returns_mono; [by apply dereference_spec|]. intros s3 [I3 K3]. split; [done|].
  apply (kept_trans _ _ s2); [|done]. apply (kept_hold a). by apply (kept_trans _ _ s1).
Qed.

Lemma close_spec held dying s p t l i e : inv held dying s -> (0 < held p)%nat -> tables s !! p = Some t -> entries t = Some l -> l !! i = Some e -> body e <> 0 ->
  returns (ObpCloseHandleEntryIn s p (Z.of_nat i)) (fun s' => inv held dying s' /\
    (exists t', tables s' !! p = Some t' /\ entries t' = Some (<[i := mkENTRY 0 (grantedAccess e) (attributes e)]> l) /\ capacity t' = capacity t /\
      inUse t' = inUse t - 1 /\ handle_map t' = delete (handle_of i) (handle_map t)) /\
    forall q, q <> p -> (0 < held q)%nat -> tables s' !! q = tables s !! q).
Proof.
  intros I Hp Ht El Hi Hb. destruct (entry_alive _ _ _ _ _ _ _ _ I Ht El Hi Hb) as (h & E & Hpc0 & Hhc0).
  pose proof (inv_tables _ _ _ _ I _ _ Ht) as K. destruct (table_range _ _ K El) as (Hu & Hc & Hcr). pose proof (occupied_slot _ _ _ Hi Hb). pose proof (occupied_le l).
  assert (Gh : get_header s (body e) = Ok h) by (unfold get_header; by rewrite E).
  unfold ObpCloseHandleEntryIn, clear_slot, get_table. rewrite Ht. run. rewrite El. run. rewrite Nat2Z.id, Hi. run. rewrite Gh. run.
  rewrite (proj2 (Z.ltb_lt 0 (inUse t))) by lia. run. rewrite (proj2 (Z.ltb_lt 0 (handleCount h))) by lia. run. rewrite decrement_LONG_Ok by lia. run.
  set (t' := t <| entries := _ |> <| inUse := _ |>). set (h' := h <| handleCount := _ |>). set (s1 := put_header (put_table s p t') (body e) h').
  assert (Ho : occupied (<[i := mkENTRY 0 (grantedAccess e) (attributes e)]> l) = occupied l - 1).
  { rewrite (occupied_insert l i e) by done. rewrite (proj2 (Z.eqb_neq (body e) 0)) by done. cbn. lia. }
  assert (I1 : inv (hold (body e) held) dying s1).
  { apply (retable_inv held _ dying s p t t' (body e) h h' (-1)); try done.
    - unfold table_ok, t'. cbn. rewrite length_insert, Ho. lia.
    - intros b Hb0. unfold table_names. cbn. rewrite El. cbn. rewrite (names_insert b l i e) by done. cbn [body]. rewrite (proj2 (Z.eqb_neq 0 b)) by done. rewrite (Z.eqb_sym b).
      destruct (_ =? _); lia.
    - rewrite hold_eq. cbn. lia.
    - intros b Hne. by apply hold_ne.
    - cbn. lia. }
  eapply returns_mono; [apply (close_tail held dying s1 (body e) p h'); [done|apply lookup_insert_eq|done]|]. intros s' [I' K']. split; [done|]. split.
  - exists t'. split; [|split; [done|split; [done|split; [done|]]]].
    + rewrite K' by done. apply lookup_insert_eq.
    + eapply handle_map_clear; [done| |done|done]. by eapply lookup_lt_Some.
  - intros q Hq Hh. rewrite K' by done. by apply lookup_insert_ne.
Qed.

(** The thread's own process, thread and tokens are there. *)
Record current_ok s cur held : Prop := {
  cur_process : process cur <> 0 /\ (0 < held (process cur))%nat /\ is_Some (tables s !! process cur);
  cur_targets : forall v, pseudo_target cur v <> 0 -> exists h, headers s !! pseudo_target cur v = Some h /\ 0 < pointerCount h;
}.

Definition referenced s a h : OB W := put_header s a (h <| pointerCount := pointerCount h + 1 |>).

Lemma get_referenced s a h : get_header (referenced s a h) a = Ok (h <| pointerCount := pointerCount h + 1 |>).
Proof. unfold get_header, referenced. by rewrite headers_put, lookup_insert_eq. Qed.

Lemma pseudo_spec held dying s cur handle : inv held dying s -> room 1 s -> current_ok s cur held -> ObpIsPseudoHandle handle = true ->
  let a := pseudo_target cur (u32 handle) in
  if a =? 0 then ObpReferencePseudoHandle s cur handle = Ok (inl STATUS_INVALID_HANDLE, s)
  else exists h, headers s !! a = Some h /\ 0 < pointerCount h /\ ObpReferencePseudoHandle s cur handle = Ok (inr a, referenced s a h) /\ inv (hold a held) dying (referenced s a h).
Proof.
  intros I R C Hp a. unfold ObpReferencePseudoHandle. rewrite Hp. run. fold a. destruct (Z.eqb_spec a 0) as [|Ha]; [done|].
  destruct (cur_targets _ _ _ C _ Ha) as (h & E & Hpos). pose proof (R _ _ E). fold a in E. exists h. split; [done|]. split; [done|].
  destruct (reference_spec held dying s a h I E) as [-> I']; [lia|]. by run.
Qed.

(** What a handle answers, in terms of the map. *)
Definition resolved s t handle (desiredAccess : Z) (wantedType : addr) (r : NTSTATUS + addr * Z * Z) s' : Prop :=
  match handle_map t !! handle_value handle with
  | None => r = inl STATUS_INVALID_HANDLE /\ s' = s
  | Some e => exists h, headers s !! body e = Some h /\
      if negb (wantedType =? 0) && negb (type h =? wantedType) then r = inl STATUS_OBJECT_TYPE_MISMATCH /\ s' = s
      else if negb (Z.land (grantedAccess e) desiredAccess =? desiredAccess) then r = inl STATUS_ACCESS_DENIED /\ s' = s
      else r = inr (body e, attributes e, grantedAccess e) /\ s' = referenced s (body e) h
  end.

Lemma by_handle_spec held dying s cur handle desiredAccess wantedType t : inv held dying s -> room 1 s -> current_ok s cur held ->
  is_u64 handle -> tables s !! process cur = Some t ->
  exists r s', ObReferenceObjectByHandle s cur handle desiredAccess wantedType = Ok (r, s') /\
    match r with
    | inl status => NT_SUCCESS status = false /\ inv held dying s' /\ kept held s s'
    | inr (a, _, _) => inv (hold a held) dying s' /\ a <> 0 /\ exists h, headers s !! a = Some h /\ 0 < pointerCount h /\ s' = referenced s a h /\ (wantedType <> 0 -> type h = wantedType)
    end /\
    (ObpIsPseudoHandle handle = false -> resolved s t handle desiredAccess wantedType r s').
Proof.
  intros I R C Hh Ht. pose proof (inv_tables _ _ _ _ I _ _ Ht) as K. unfold ObReferenceObjectByHandle.
  destruct (ObpIsPseudoHandle handle) eqn:Hp.
  - pose proof (pseudo_spec held dying s cur handle I R C Hp) as P. cbn zeta in P. destruct (Z.eqb_spec (pseudo_target cur (u32 handle)) 0) as [|Ha].
    { rewrite P. run. by eexists _, _. }
    set (a := pseudo_target cur (u32 handle)) in *. destruct P as (h & E & Hpos & -> & I1). run. rewrite get_referenced. run.
    change (type (h <| pointerCount := pointerCount h + 1 |>)) with (type h).
    destruct (negb (wantedType =? 0) && negb (type h =? wantedType)) eqn:Em.
    + pose proof (dereference_spec held dying _ a I1 Ha) as D. destruct (ObDereferenceObject _ a) as [s'| | |]; try done. destruct D as [I2 K2]. run.
      eexists _, _. split; [done|]. by split.
    + eexists _, _. split; [done|]. split; [|done]. split; [done|]. split; [done|]. exists h. split_and!; [done|lia|done|]. intros Hw.
      apply andb_false_iff in Em as [Em|Em]; apply negb_false_iff, Z.eqb_eq in Em; congruence.
  - unfold get_table. rewrite Ht. run. rewrite entry_in_table by done. run. unfold resolved. destruct (handle_map t !! handle_value handle) as [e|] eqn:Ee; cbn [fmap option_fmap option_map].
    2: { eexists _, _. split; [done|]. by split. }
    pose proof Ee as (l & i & El & Hv & Hi & Hb)%handle_map_Some. destruct (entry_alive _ _ _ _ _ _ _ _ I Ht El Hi Hb) as (h & E & Hpos & _).
    unfold get_header. rewrite E. run. destruct (negb (wantedType =? 0) && negb (type h =? wantedType)) eqn:Em.
    { eexists _, _. split; [done|]. split; [done|]. intros _. exists h. by rewrite Em. }
    destruct (negb (Z.land (grantedAccess e) desiredAccess =? desiredAccess)) eqn:Eg.
    { eexists _, _. split; [done|]. split; [done|]. intros _. exists h. by rewrite Em. }
    pose proof (R _ _ E). destruct (reference_spec held dying s (body e) h I E) as [-> I1]; [lia|]. run.
    eexists _, _. split; [done|]. split; [|intros _; exists h; by rewrite Em]. split; [done|]. split; [done|]. exists h. split_and!; [done|lia|done|]. intros Hw.
    apply andb_false_iff in Em as [Em|Em]; apply negb_false_iff, Z.eqb_eq in Em; congruence.
Qed.

Lemma room_referenced n s a h : room (n + 1) s -> headers s !! a = Some h -> room n (referenced s a h).
Proof.
  intros R E b k. unfold referenced. rewrite headers_put. intros [(<- & <-)|(_ & Hk)]%lookup_insert_Some.
  - specialize (R _ _ E). cbn. lia.
  - specialize (R _ _ Hk). lia.
Qed.

Lemma room_mono n m s : m <= n -> room n s -> room m s.
Proof. intros Hm R a h E. specialize (R _ _ E). lia. Qed.

Lemma current_referenced s cur held a h held' : current_ok s cur held -> headers s !! a = Some h -> 0 < pointerCount h ->
  (forall b, (held b <= held' b)%nat) -> current_ok (referenced s a h) cur held'.
Proof.
  intros [(? & ? & ?) Ct] E Hp Hle. split; [split_and!; try done|].
  - specialize (Hle (process cur)). lia.
  - intros v Hv. unfold referenced. rewrite headers_put. destruct (decide (pseudo_target cur v = a)) as [->|]; [|rewrite lookup_insert_ne by done; by apply Ct].
    eexists. split; [apply lookup_insert_eq|]. cbn. lia.
Qed.

(** The slot behind an entry of the map. *)
Lemma map_slot t handle e : table_ok t -> is_u64 handle -> handle_map t !! handle_value handle = Some e ->
  exists l i, entries t = Some l /\ l !! i = Some e /\ body e <> 0 /\ handle_value handle = handle_of i /\ handle_index handle = Z.of_nat i.
Proof.
  intros K Hh (l & i & El & Hv & Hi & Hb)%handle_map_Some. exists l, i. split_and!; try done. unfold handle_index. rewrite Hv. unfold handle_of.
  rewrite Z.mul_comm, Z.div_mul by lia. lia.
Qed.

(** The map of a process's table. *)
Definition map_of s p : gmap Z OBP_HANDLE_ENTRY := from_option handle_map ∅ (tables s !! p).

Lemma map_of_kept held s s' p : kept held s s' -> (0 < held p)%nat -> map_of s' p = map_of s p.
Proof. intros K Hp. unfold map_of. by rewrite K. Qed.

(** Closing through a handle. *)
Lemma close_handle_spec held dying s p t handle e : inv held dying s -> (0 < held p)%nat -> tables s !! p = Some t -> is_u64 handle ->
  handle_map t !! handle_value handle = Some e ->
  returns (ObpCloseHandleEntryIn s p (handle_index handle)) (fun s' => inv held dying s' /\
    (forall q, (0 < held q)%nat -> map_of s' q = if decide (q = p) then delete (handle_value handle) (map_of s q) else map_of s q) /\
    (forall q, (0 < held q)%nat -> is_Some (tables s !! q) -> is_Some (tables s' !! q))).
Proof.
  intros I Hp Ht Hh Hm. destruct (map_slot _ _ _ (inv_tables _ _ _ _ I _ _ Ht) Hh Hm) as (l & i & El & Hi & Hb & Hv & ->).
  eapply returns_mono; [by eapply close_spec|]. intros s' (I' & (t' & Ht' & _ & _ & _ & Hmap) & Hq). split; [done|]. split; intros q Hheld.
  - unfold map_of. case_decide as Hc; [|by rewrite Hq]. subst q. by rewrite Ht', Ht, Hv.
  - intros Hs. destruct (decide (q = p)) as [->|]; [by eexists|by rewrite Hq].
Qed.

Lemma NtClose_spec held dying s cur handle t : inv held dying s -> (0 < held (process cur))%nat -> tables s !! process cur = Some t -> is_u64 handle ->
  returns (NtClose s cur handle) (fun '(status, s') => inv held dying s' /\
    if 2 ^ 64 - 6 <=? handle then status = STATUS_SUCCESS /\ s' = s
    else match handle_map t !! handle_value handle with
    | None => status = STATUS_INVALID_HANDLE /\ s' = s
    | Some e => if has (attributes e) OBJ_PROTECT_CLOSE then status = STATUS_HANDLE_NOT_CLOSABLE /\ s' = s
        else status = STATUS_SUCCESS /\ forall q, (0 < held q)%nat ->
          map_of s' q = if decide (q = process cur) then delete (handle_value handle) (map_of s q) else map_of s q
    end).
Proof.
  intros I Hp Ht Hh. unfold NtClose. destruct (2 ^ 64 - 6 <=? handle); [done|]. unfold get_table. rewrite Ht. run.
  rewrite entry_in_table by (done || exact (inv_tables _ _ _ _ I _ _ Ht)). run. destruct (handle_map t !! handle_value handle) as [e|] eqn:Ee; cbn [fmap option_fmap option_map]; [|done].
  destruct (has (attributes e) OBJ_PROTECT_CLOSE); [done|]. apply returns_bind. eapply returns_mono; [by eapply close_handle_spec|].
  intros s' (I' & Hmap & _). by cbn [returns].
Qed.

Lemma occupied_free l : (forall j e, l !! j = Some e -> body e = 0) -> occupied l = 0.
Proof.
  intros Hf. unfold occupied. assert (filter (fun e => body e <> 0) l = []) as ->; [|done]. induction l as [|x l IH]; [done|].
  rewrite filter_cons_False by (intros Hn; apply Hn; by apply (Hf 0%nat)). apply IH. intros j e Hj. by apply (Hf (S j)).
Qed.

Lemma handle_map_empty t : table_ok t -> inUse t = 0 -> handle_map t = ∅.
Proof.
  intros K Hu. apply map_eq. intros v. rewrite lookup_empty. destruct (handle_map t !! v) as [e|] eqn:E; [|done]. apply handle_map_Some in E as (l & i & El & _ & Hi & Hb).
  destruct (table_range _ _ K El) as (? & _). pose proof (occupied_slot _ _ _ Hi Hb). lia.
Qed.

Lemma close_slots_spec held dying p count s t (index : nat) : inv held dying s -> (0 < held p)%nat -> tables s !! p = Some t ->
  (forall l j e, entries t = Some l -> (j < index)%nat -> l !! j = Some e -> body e = 0) -> capacity t - Z.of_nat index <= Z.of_nat count ->
  returns (close_slots s p count (Z.of_nat index)) (fun s' => inv held dying s' /\ (exists t', tables s' !! p = Some t' /\ inUse t' = 0) /\
    forall q, q <> p -> (0 < held q)%nat -> tables s' !! q = tables s !! q).
Proof.
  revert s t index. induction count as [|count IH]; intros s t index I Hp Ht Hlow Hc; cbn [close_slots]; pose proof (inv_tables _ _ _ _ I _ _ Ht) as K.
  - cbn [returns]. split; [done|]. split; [|done]. exists t. split; [done|]. unfold table_ok in K. destruct (entries t) as [l|] eqn:El; [|by destruct K]. destruct K as (Hcl & _ & ->).
    apply occupied_free. intros j e Hj. apply (Hlow l j e); [done| |done]. apply lookup_lt_Some in Hj. lia.
  - unfold get_table. rewrite Ht. run. destruct (Z.ltb_spec (Z.of_nat index) (capacity t)) as [Hlt|Hge]; [destruct (Z.ltb_spec 0 (inUse t)) as [Hpos|Hz]|]; cbn [andb negb].
    2: { cbn [returns]. split; [done|]. split; [|done]. exists t. split; [done|]. unfold table_ok in K. destruct (entries t) as [l|]; [destruct K as (_ & _ & ?); pose proof (occupied_nonneg l); lia|by destruct K]. }
    2: { cbn [returns]. split; [done|]. split; [|done]. exists t. split; [done|]. unfold table_ok in K. destruct (entries t) as [l|] eqn:El; [|by destruct K]. destruct K as (Hcl & _ & ->).
      apply occupied_free. intros j e Hj. apply (Hlow l j e); [done| |done]. apply lookup_lt_Some in Hj. lia. }
    unfold table_ok in K. destruct (entries t) as [l|] eqn:El; [|lia]. run. destruct K as (Hcl & _ & Hu). rewrite Nat2Z.id.
    destruct (lookup_lt_is_Some_2 l index) as [e He]; [lia|]. rewrite He. run. replace (Z.of_nat index + 1) with (Z.of_nat (S index)) by lia.
    destruct (Z.eqb_spec (body e) 0) as [Hb|Hb]; cbn [negb]; run.
    + apply (IH s t); try done; [|lia]. intros l' j e' El2 Hj Hj'. rewrite El in El2. injection El2 as <-. destruct (decide (j = index)) as [->|]; [congruence|]. apply (Hlow l j e'); [done|lia|done].
    + apply returns_bind. eapply returns_mono; [by eapply close_spec|]. intros s' (I' & (t' & Ht' & El' & Hc' & Hu' & _) & Hq).
      eapply returns_mono; [apply (IH s' t' (S index)); try done; [|lia]|].
      * intros l' j e' El2 Hj Hj'. rewrite El' in El2. injection El2 as <-. apply list_lookup_insert_Some in Hj' as [(_ & <- & _)|(Hne & Hj')]; [done|].
        apply (Hlow l j e'); [done|lia|done].
      * intros s2 (I2 & Ht2 & Hq2). split_and!; [done..|]. intros q Hqp Hheld. rewrite Hq2, Hq; done.
Qed.

Lemma close_all_spec held dying s p t : inv held dying s -> (0 < held p)%nat -> tables s !! p = Some t ->
  returns (ObpCloseAllHandles s p) (fun s' => inv held dying s' /\ map_of s' p = ∅ /\ forall q, q <> p -> (0 < held q)%nat -> map_of s' q = map_of s q).
Proof.
  intros I Hp Ht. unfold ObpCloseAllHandles, get_table. rewrite Ht. run. pose proof (inv_tables _ _ _ _ I _ _ Ht) as K.
  assert (0 <= capacity t) by (unfold table_ok in K; destruct (entries t); lia).
  apply returns_bind. eapply returns_mono; [apply (close_slots_spec held dying p _ s t 0%nat I Hp Ht); [intros; lia|lia]|].
  intros s' (I' & (t' & Ht' & Hu) & Hq). cbn beta. rewrite Ht'. run. rewrite Hu. run. cbn [returns]. split; [done|]. split.
  - unfold map_of. rewrite Ht'. cbn. apply handle_map_empty; [|done]. exact (inv_tables _ _ _ _ I' _ _ Ht').
  - intros q Hqp Hheld. unfold map_of. by rewrite Hq.
Qed.

Lemma set_information_spec held dying s cur handle inherit protect t : inv held dying s -> tables s !! process cur = Some t -> is_u64 handle ->
  exists status s', NtSetInformationObject s cur handle true 2 (inr (inherit, protect)) = Ok (status, s') /\ inv held dying s' /\
    if 2 ^ 64 - 6 <=? handle then status = STATUS_ACCESS_DENIED /\ s' = s
    else match handle_map t !! handle_value handle with
    | None => status = STATUS_INVALID_HANDLE /\ s' = s
    | Some e => status = STATUS_SUCCESS /\ exists flags t', s' = put_table s (process cur) t' /\
        handle_map t' = <[handle_value handle := mkENTRY (body e) (grantedAccess e) flags]> (handle_map t) /\
        (forall i, Z.testbit flags i = if decide (i = 0) then protect else if decide (i = 1) then inherit else Z.testbit (attributes e) i)
    end.
Proof.
  intros I Ht Hh. unfold NtSetInformationObject. cbn [negb]. change (2 <? 2) with false. destruct (2 ^ 64 - 6 <=? handle); [by eexists _, _|].
  pose proof (inv_tables _ _ _ _ I _ _ Ht) as K. unfold get_table. rewrite Ht. run. rewrite entry_in_table by done. run.
  destruct (handle_map t !! handle_value handle) as [e|] eqn:Ee; cbn [fmap option_fmap option_map]; [|by eexists _, _].
  destruct (map_slot _ _ _ K Hh Ee) as (l & i & El & Hi & Hb & Hv & ->). rewrite El. run. rewrite Nat2Z.id. set (flags := Z.lor _ _). set (t' := t <| entries := _ |>).
  destruct (table_range _ _ K El) as (Hu & Hc & Hcr). eexists _, _. split; [done|]. split; [|split; [done|]].
  - apply (retabled_inv held dying s _ t t'); try done.
    + unfold table_ok, t'. cbn. rewrite length_insert, (occupied_insert l i e) by done. cbn. lia.
    + intros b Hb0. unfold table_names, t'. cbn. rewrite El. cbn. rewrite (names_insert b l i e) by done. cbn. lia.
  - exists flags, t'. split; [done|]. split.
    + rewrite Hv. eapply handle_map_insert; [done| |done|done]. by eapply lookup_lt_Some.
    + intros k. unfold flags. rewrite !Z.lor_spec, Z.ldiff_spec, Z.lor_spec. change OBJ_INHERIT with (2 ^ 1). change OBJ_PROTECT_CLOSE with (2 ^ 0).
      assert (Hw : forall b n, 0 <= n -> Z.testbit (when b (2 ^ n)) k = b && bool_decide (k = n)).
      { intros [] n Hn; cbn [when andb]; [|apply Z.bits_0]. rewrite Z.pow2_bits_eqb by done. destruct (Z.eqb_spec n k); case_bool_decide; done || lia. }
      rewrite !Hw by lia. rewrite !Z.pow2_bits_eqb by lia. destruct (Z.eqb_spec 1 k), (Z.eqb_spec 0 k); repeat case_bool_decide; repeat case_decide; try lia; destruct inherit, protect; cbn; by rewrite ?andb_true_r, ?andb_false_r, ?orb_false_r.
Qed.

(** Asking for nothing: only a missing handle fails. *)
Lemma resolved_any s t handle a attrs access s' : resolved s t handle 0 0 (inr (a, attrs, access)) s' ->
  exists e, handle_map t !! handle_value handle = Some e /\ a = body e.
Proof.
  unfold resolved. destruct (handle_map t !! handle_value handle) as [e|]; [|by intros [? _]]. intros (h & _ & P). exists e. split; [done|].
  cbn [Z.eqb negb andb] in P. rewrite Z.land_0_r in P. cbn in P. by destruct P as [[= -> _ _] _].
Qed.

Lemma resolved_any_fail s t handle status s' : resolved s t handle 0 0 (inl status) s' ->
  handle_map t !! handle_value handle = None /\ status = STATUS_INVALID_HANDLE.
Proof.
  unfold resolved. destruct (handle_map t !! handle_value handle) as [e|]; [|by intros [[= ->] _]]. intros (h & _ & P).
  cbn [Z.eqb negb andb] in P. rewrite Z.land_0_r in P. cbn in P. by destruct P as [? _].
Qed.

Lemma compare_spec held dying s cur first second t : inv held dying s -> room 2 s -> current_ok s cur held -> is_u64 first -> is_u64 second -> tables s !! process cur = Some t ->
  returns (NtCompareObjects s cur first second) (fun '(status, s') => inv held dying s' /\ kept held s s' /\
    (ObpIsPseudoHandle first = false -> ObpIsPseudoHandle second = false ->
      status = match handle_map t !! handle_value first, handle_map t !! handle_value second with
        | Some e1, Some e2 => if body e1 =? body e2 then STATUS_SUCCESS else STATUS_NOT_SAME_OBJECT
        | _, _ => STATUS_INVALID_HANDLE
        end)).
Proof.
  intros I R C H1 H2 Ht. unfold NtCompareObjects.
  destruct (by_handle_spec held dying s cur first 0 0 t I (room_mono 2 1 s ltac:(lia) R) C H1 Ht) as (r1 & s1 & -> & S1 & P1). run.
  destruct r1 as [status|[[a1 at1] ac1]].
  { cbn [returns]. destruct S1 as (_ & I1 & K1). split_and!; [done..|]. intros Hp _. specialize (P1 Hp). apply resolved_any_fail in P1 as [-> ->]. done. }
  destruct S1 as (I1 & Ha1 & h1 & E1 & Hpos1 & -> & _).
  assert (C1 : current_ok (referenced s a1 h1) cur (hold a1 held)) by (eapply current_referenced; [done..|intros; apply hold_le]).
  assert (Ht1 : tables (referenced s a1 h1) !! process cur = Some t) by done.
  destruct (by_handle_spec _ dying _ cur second 0 0 t I1 (room_referenced 1 s a1 h1 R E1) C1 H2 Ht1) as (r2 & s2 & -> & S2 & P2). run.
  destruct r2 as [status|[[a2 at2] ac2]].
  - destruct S2 as (_ & I2 & K2). apply returns_bind. eapply returns_mono; [by apply dereference_spec|]. intros s3 [I3 K3]. cbn [returns]. split; [done|].
    split; [apply (kept_trans _ _ s2); [exact (kept_hold a1 held _ _ K2)|done]|]. intros Hp1 Hp2. specialize (P1 Hp1). specialize (P2 Hp2).
    apply resolved_any in P1 as (e1 & -> & _). apply resolved_any_fail in P2 as [-> ->]. done.
  - destruct S2 as (I2 & Ha2 & h2 & E2 & Hpos2 & -> & _). apply returns_bind. eapply returns_mono; [by apply dereference_spec|]. intros s3 [I3 K3]. cbn beta.
    apply returns_bind. eapply returns_mono; [by apply dereference_spec|]. intros s4 [I4 K4]. cbn [returns]. split; [done|].
    split; [apply (kept_trans _ _ s3); [exact (kept_hold a1 held _ _ K3)|done]|]. intros Hp1 Hp2. specialize (P1 Hp1). specialize (P2 Hp2).
    apply resolved_any in P1 as (e1 & -> & ->). by apply resolved_any in P2 as (e2 & -> & ->).
Qed.

Lemma permanence_spec held dying s cur handle access flag t : inv held dying s -> room 1 s -> current_ok s cur held -> is_u64 handle -> tables s !! process cur = Some t ->
  exists status s', set_permanence s cur handle access flag = Ok (status, s') /\ inv held dying s' /\ kept held s s' /\
    (if NT_SUCCESS status then exists a h, headers s !! a = Some h /\ s' = put_header s a (h <| permanent := flag |>) /\
        (ObpIsPseudoHandle handle = false -> exists e, handle_map t !! handle_value handle = Some e /\ body e = a /\ Z.land (grantedAccess e) access = access)
     else True).
Proof.
  intros I R C Hh Ht. unfold set_permanence. destruct (by_handle_spec held dying s cur handle access 0 t I R C Hh Ht) as (r & s1 & -> & S1 & P). run.
  destruct r as [status|[[a attrs] granted]].
  { destruct S1 as (Hf & I1 & K1). exists status, s1. by rewrite Hf. }
  destruct S1 as (I1 & Ha & h & E & Hpos & -> & _). rewrite get_referenced. run. set (h2 := h <| pointerCount := pointerCount h + 1 |> <| permanent := flag |>).
  set (s2 := put_header (referenced s a h) a h2). assert (I2 : inv (hold a held) dying s2).
  { apply (recount (hold a held) _ dying _ _ _ (h <| pointerCount := pointerCount h + 1 |>)); try done; try apply lookup_insert_eq; cbn; lia. }
  assert (E2 : headers s2 !! a = Some h2) by apply lookup_insert_eq. unfold ObDereferenceObject, get_header. rewrite E2. run.
  change (pointerCount h2) with (pointerCount h + 1). rewrite (proj2 (Z.ltb_lt 0 (pointerCount h + 1))) by lia. run. rewrite decrement_LONG_Ok by lia. run.
  rewrite Z.add_simpl_r, (proj2 (Z.ltb_lt 0 (pointerCount h))) by lia. run. eexists _, _. split; [done|].
  replace (put_header s2 a (h2 <| pointerCount := pointerCount h |>)) with (put_header s a (h <| permanent := flag |>)).
  2: { unfold s2, referenced. rewrite !put_header_twice. by destruct h. }
  split; [|split; [done|]].
  - apply (recount held held dying dying _ _ h); try done; cbn; lia || done.
  - change (NT_SUCCESS STATUS_SUCCESS) with true. cbn. exists a, h. split_and!; [done..|]. intros Hp. specialize (P Hp). unfold resolved in P.
    destruct (handle_map t !! handle_value handle) as [e|]; [|by destruct P]. destruct P as (h' & _ & P). cbn [Z.eqb negb andb] in P.
    destruct (Z.eqb_spec (Z.land (grantedAccess e) access) access) as [Hg|]; cbn [negb] in P; [|by destruct P]. destruct P as [[= -> _ _] _]. by exists e.
Qed.

(** What the calls below need of a state: its accounts, a margin for the counts,
    the caller, and a table for every process. *)
Record ready (processType : addr) (n : Z) held (dying : gset addr) cur s : Prop := {
  ready_inv : inv held dying s;
  ready_room : room n s;
  ready_current : current_ok s cur held;
  ready_processes : forall a h, headers s !! a = Some h -> type h = processType -> is_Some (tables s !! a);
}.

Lemma ready_referenced pt n held dying cur s a h : ready pt (n + 1) held dying cur s -> headers s !! a = Some h -> 0 < pointerCount h -> 0 <= n ->
  ObfReferenceObject s a = Ok (referenced s a h) /\ ready pt n (hold a held) dying cur (referenced s a h).
Proof.
  intros [I R C P] E Hp Hn. pose proof (R _ _ E). destruct (reference_spec held dying s a h I E) as [F I']; [lia|]. split; [exact F|]. split.
  - exact I'.
  - by apply room_referenced.
  - eapply current_referenced; [done..|apply hold_le].
  - intros b k. unfold referenced. rewrite headers_put. intros [(<- & <-)|(_ & Hk)]%lookup_insert_Some Ht; [exact (P _ _ E Ht)|exact (P _ _ Hk Ht)].
Qed.

Definition hold_if (b : bool) a held : addr -> nat := if b then hold a held else held.

Lemma hold_if_le b a held x : (held x <= hold_if b a held x)%nat.
Proof. destruct b; [apply hold_le|done]. Qed.

Lemma release_spec held dying s (b : bool) a : inv (hold_if b a held) dying s -> (b = true -> a <> 0) ->
  returns (release_if s b a) (fun s' => inv held dying s' /\ kept held s s').
Proof. intros I Ha. destruct b; cbn [release_if hold_if] in *; [apply dereference_spec; auto|done]. Qed.

Lemma dup_process_spec pt n held dying cur s handle : ready pt (n + 1) held dying cur s -> 0 <= n -> pt <> 0 -> is_u64 handle ->
  exists r s', ObpReferenceDupProcess s cur pt handle = Ok (r, s') /\
    match r with
    | inl status => NT_SUCCESS status = false /\ inv held dying s' /\ kept held s s'
    | inr (q, referenced) => q <> 0 /\ (0 < hold_if referenced q held q)%nat /\ is_Some (tables s !! q) /\ tables s' = tables s /\
        ready pt n (hold_if referenced q held) dying cur s' /\ (handle = NtCurrentProcess -> q = process cur) /\
        forall a h, headers s' !! a = Some h -> exists k, headers s !! a = Some k /\ type k = type h
    end.
Proof.
  intros G Hn Hpt Hh. pose proof G as [I R C P]. destruct (cur_process _ _ _ C) as (Hc0 & Hch & [t Ht]). unfold ObpReferenceDupProcess.
  destruct (Z.eqb_spec handle NtCurrentProcess) as [->|Hne].
  { eexists _, _. split; [done|]. cbn. split_and!; try done; [|by eauto]. split; try done. by apply (room_mono (n + 1)); [lia|]. }
  destruct (by_handle_spec held dying s cur handle PROCESS_DUP_HANDLE pt t I (room_mono (n + 1) 1 s ltac:(lia) R) C Hh Ht) as (r & s1 & -> & S1 & _). run.
  destruct r as [status|[[a attrs] granted]]; eexists _, _; (split; [done|]); [done|]. destruct S1 as (I1 & Ha & h & E & Hpos & -> & Hty). cbn [hold_if].
  destruct (ready_referenced pt n held dying cur s a h G E Hpos Hn) as [_ G1]. split_and!; try done.
  - rewrite hold_eq. lia.
  - apply (P _ _ E). by apply Hty.
  - intros b k. unfold referenced. rewrite headers_put. intros [(<- & <-)|(_ & Hk)]%lookup_insert_Some; eauto.
Qed.

Lemma dup_source_spec pt n held dying cur s q t handle : ready pt (n + 1) held dying cur s -> 0 <= n -> is_u64 handle -> tables s !! q = Some t ->
  exists r s', dup_source s cur q handle = Ok (r, s') /\
    match r with
    | inl status => NT_SUCCESS status = false /\ s' = s
    | inr (a, access, attrs) => a <> 0 /\ tables s' = tables s /\ ready pt n (hold a held) dying cur s' /\
        exists h, headers s !! a = Some h /\ s' = referenced s a h /\ 0 < pointerCount h /\
          if ObpIsPseudoHandle handle then a = pseudo_target cur (u32 handle) /\ access = ObpMapDesiredAccess (types (type h)) GENERIC_ALL /\ attrs = 0
          else handle_map t !! handle_value handle = Some (mkENTRY a access attrs)
    end.
Proof.
  intros G Hn Hh Ht. pose proof G as [I R C P]. unfold dup_source. destruct (ObpIsPseudoHandle handle) eqn:Hp.
  - pose proof (pseudo_spec held dying s cur handle I (room_mono (n + 1) 1 s ltac:(lia) R) C Hp) as Q. cbn zeta in Q.
    destruct (Z.eqb_spec (pseudo_target cur (u32 handle)) 0) as [|Ha]; [rewrite Q; run; by eexists _, _|]. destruct Q as (h & E & Hpos & -> & _). run.
    rewrite get_referenced. run. eexists _, _. split; [done|]. split; [done|]. split; [done|]. split; [by apply ready_referenced|]. by exists h.
  - unfold get_table. rewrite Ht. run. pose proof (inv_tables _ _ _ _ I _ _ Ht) as K. rewrite entry_in_table by done. run.
    destruct (handle_map t !! handle_value handle) as [e|] eqn:Ee; cbn [fmap option_fmap option_map]; [|by eexists _, _].
    destruct (map_slot _ _ _ K Hh Ee) as (l & i & El & Hi & Hb & _). destruct (entry_alive _ _ _ _ _ _ _ _ I Ht El Hi Hb) as (h & E & Hpos & _).
    destruct (ready_referenced pt n held dying cur s (body e) h G E Hpos Hn) as [-> G1]. run. eexists _, _. split; [done|]. split; [done|]. split; [done|]. split; [done|].
    exists h. split_and!; try done. by destruct e.
Qed.

(** The maps after a duplication: the new entry in the target's, the source's
    gone from its own if it was to be closed. *)
Definition dup_map (created : option (Z * OBP_HANDLE_ENTRY)) (closed : option Z) (isTarget isSource : bool) (m : gmap Z OBP_HANDLE_ENTRY) :=
  let m := match created with Some (v, e) => if isTarget then <[v := e]> m else m | None => m end in
  match closed with Some v => if isSource then delete v m else m | None => m end.

(** The insert and the close, between taking the references and giving them back. *)
Lemma dup_insert_spec held dying s tp t a h (wanted : bool) probe2 access attrs pool : inv held dying s -> tables s !! tp = Some t ->
  headers s !! a = Some h -> 0 < pointerCount h < 2 ^ 31 - 1 -> can_grow t pool ->
  exists r s', (if wanted then
      if NT_SUCCESS probe2 then
        '(r, s) ← ObpCreateHandleInTable s tp a access attrs pool;
        Ok (match r with inl status => (inl status) | inr handle => inr (Some handle) end, s)
      else Ok (inl probe2, s)
    else Ok (inr None, s)) = Ok (r, s') /\ inv held dying s' /\ (forall q, is_Some (tables s !! q) -> is_Some (tables s' !! q)) /\
    match r with
    | inl status => NT_SUCCESS status = false /\ forall q, map_of s' q = map_of s q
    | inr out => (is_Some out <-> wanted = true) /\ (forall v, out = Some v -> map_of s tp !! v = None /\ 0 < v <= 2 ^ 31 /\ v mod 4 = 0) /\
        forall q, map_of s' q = dup_map ((fun v => (v, mkENTRY a access attrs)) <$> out) None (bool_decide (q = tp)) false (map_of s q)
    end.
Proof.
  intros I Ht E Hr Hg. destruct wanted.
  2: { eexists _, _. split; [done|]. split_and!; try done. }
  destruct (NT_SUCCESS probe2) eqn:Ep; [|by eexists _, _].
  destruct (create_spec held dying s tp t a h access attrs pool I Ht E Hr Hg) as (r & s' & t' & -> & I' & Ht' & _ & _ & S). run.
  eexists _, _. split; [done|]. split; [done|]. split.
  { intros q Hq. rewrite Ht'. destruct (decide (q = tp)) as [->|]; [by rewrite lookup_insert_eq|by rewrite lookup_insert_ne]. }
  assert (Hq : forall q, map_of s' q = if decide (q = tp) then handle_map t' else map_of s q).
  { intros q. unfold map_of. rewrite Ht'. case_decide as Hc; [subst q; by rewrite lookup_insert_eq|by rewrite lookup_insert_ne]. }
  assert (Hm : map_of s tp = handle_map t) by (unfold map_of; by rewrite Ht). destruct r as [status|v].
  - destruct S as (-> & _ & Hmap & _). split; [done|]. intros q. rewrite Hq. case_decide as Hc; [subst q; by rewrite Hm|done].
  - destruct S as (Hnone & Hmap & Hv & Hv4 & _). split; [by split; [|by eexists]|]. split; [intros v' [= <-]; by rewrite Hm|].
    intros q. rewrite Hq. cbn. case_bool_decide; case_decide; try done. subst q. by rewrite Hm.
Qed.

Lemma dup_close_spec held dying s sp handle (closing : bool) : inv held dying s -> (0 < held sp)%nat -> is_Some (tables s !! sp) -> is_u64 handle ->
  returns (if closing then
      t ← get_table s sp;
      found ← ObpEntryInTable t handle;
      match found with Some (index, _) => ObpCloseHandleEntryIn s sp index | None => Ok s end
    else Ok s) (fun s' => inv held dying s' /\ forall q, (0 < held q)%nat ->
      map_of s' q = dup_map None (if closing then Some (handle_value handle) else None) false (bool_decide (q = sp)) (map_of s q)).
Proof.
  intros I Hp [t Ht] Hh. destruct closing; [|done]. unfold get_table. rewrite Ht. run. rewrite entry_in_table by (done || exact (inv_tables _ _ _ _ I _ _ Ht)). run.
  destruct (handle_map t !! handle_value handle) as [e|] eqn:Ee; cbn [fmap option_fmap option_map].
  - eapply returns_mono; [by eapply close_handle_spec|]. intros s' (I' & Hq & _). split; [done|]. intros q Hheld. rewrite Hq by done. cbn. case_bool_decide; by case_decide.
  - cbn [returns]. split; [done|]. intros q Hheld. cbn. case_bool_decide as Hc; [|done]. subst q. unfold map_of. rewrite Ht. cbn. by rewrite delete_id.
Qed.

Lemma kept_hold_if b a held s s' : kept (hold_if b a held) s s' -> kept held s s'.
Proof. destruct b; [apply kept_hold|done]. Qed.

(** The [release:] label. *)
Lemma release_all_spec held dying s (status : NTSTATUS) (out : option Z) (bs bt : bool) (ps pt a : addr) :
  inv (hold_if (negb (a =? 0)) a (hold_if bt pt (hold_if bs ps held))) dying s -> (bs = true -> ps <> 0) -> (bt = true -> pt <> 0) ->
  returns (s ← release_if s (negb (a =? 0)) a; s ← release_if s bt pt; s ← release_if s bs ps; Ok (status, out, s))
    (fun '(status', out', s') => status' = status /\ out' = out /\ inv held dying s' /\ kept held s s').
Proof.
  intros I Hs Ht. apply returns_bind. eapply returns_mono; [apply (release_spec _ _ _ _ _ I); by intros ?%negb_true_iff%Z.eqb_neq|]. intros s1 [I1 K1]. cbn beta.
  apply returns_bind. eapply returns_mono; [apply (release_spec _ _ _ _ _ I1 Ht)|]. intros s2 [I2 K2]. cbn beta.
  apply returns_bind. eapply returns_mono; [apply (release_spec _ _ _ _ _ I2 Hs)|]. intros s3 [I3 K3]. cbn [returns]. split_and!; [done..|].
  apply (kept_trans _ _ s2); [|done]. apply (kept_trans _ _ s1); [|exact (kept_hold_if _ _ _ _ _ K2)]. eapply kept_hold_if, kept_hold_if, K1.
Qed.

Lemma duplicate_spec ptype held dying cur s sourceProcess sourceHandle targetProcess wanted probe1 probe2 desired attrs options pool :
  ready ptype 4 held dying cur s -> ptype <> 0 -> is_u64 sourceProcess -> is_u64 sourceHandle -> is_u64 targetProcess ->
  (forall p t, tables s !! p = Some t -> can_grow t pool) ->
  returns (NtDuplicateObject s cur ptype sourceProcess sourceHandle targetProcess wanted probe1 probe2 desired attrs options pool) (fun '(status, out, s') =>
    inv held dying s' /\
    if NT_SUCCESS status then exists sp tp a h access attrs0, headers s !! a = Some h /\
      (sourceProcess = NtCurrentProcess -> sp = process cur) /\ (targetProcess = NtCurrentProcess -> tp = process cur) /\
      (if ObpIsPseudoHandle sourceHandle then a = pseudo_target cur (u32 sourceHandle) /\ access = ObpMapDesiredAccess (types (type h)) GENERIC_ALL /\ attrs0 = 0
       else map_of s sp !! handle_value sourceHandle = Some (mkENTRY a access attrs0)) /\
      let e := mkENTRY a (dup_access (types (type h)) access desired options) (if has options DUPLICATE_SAME_ATTRIBUTES then attrs0 else attrs) in
      (is_Some out <-> wanted = true) /\ (forall v, out = Some v -> map_of s tp !! v = None /\ 0 < v <= 2 ^ 31 /\ v mod 4 = 0) /\
      forall q, (0 < held q)%nat -> map_of s' q =
        dup_map ((fun v => (v, e)) <$> out) (if has options DUPLICATE_CLOSE_SOURCE then Some (handle_value sourceHandle) else None)
          (bool_decide (q = tp)) (bool_decide (q = sp)) (map_of s q)
    else forall q, (0 < held q)%nat -> map_of s' q = map_of s q).
Proof.
  intros G Hpt H1 H2 H3 Hg. unfold NtDuplicateObject. destruct (wanted && negb (NT_SUCCESS probe1)) eqn:Eg.
  { apply andb_true_iff in Eg as [_ Eg%negb_true_iff]. cbn [returns]. split; [apply G|]. by rewrite Eg. }
  destruct (dup_process_spec ptype 3 held dying cur s sourceProcess G ltac:(lia) Hpt H1) as (r1 & s1 & -> & S1). run.
  destruct r1 as [status|[sp sr]].
  { cbn [returns]. destruct S1 as (Hf & I1 & K1). split; [done|]. rewrite Hf. intros. by eapply map_of_kept. }
  destruct S1 as (Hsp0 & Hsp & Htsp & Et1 & G1 & Hcs & Hty1).
  destruct (dup_process_spec ptype 2 _ dying cur s1 targetProcess G1 ltac:(lia) Hpt H3) as (r2 & s2 & -> & S2). run.
  destruct r2 as [status|[tp tr]].
  { destruct S2 as (Hf & I2 & K2). apply returns_bind. eapply returns_mono; [by apply release_spec|]. intros s3 [I3 K3]. cbn [returns]. split; [done|]. rewrite Hf.
    intros q Hq. rewrite (map_of_kept held s2 s3) by done. rewrite (map_of_kept held s1 s2); [|eapply kept_hold_if, K2|done]. unfold map_of. by rewrite Et1. }
  destruct S2 as (Htp0 & Htp & Http & Et2 & G2 & Hct & Hty2). set (held2 := hold_if tr tp (hold_if sr sp held)) in *.
  assert (Hle : forall x, (held x <= held2 x)%nat) by (intros x; pose proof (hold_if_le sr sp held x); pose proof (hold_if_le tr tp (hold_if sr sp held) x); unfold held2; lia).
  assert (Hsp2 : (0 < held2 sp)%nat) by (pose proof (hold_if_le tr tp (hold_if sr sp held) sp); unfold held2; lia).
  assert (Ets : tables s2 = tables s) by congruence. destruct Htsp as [t Htsp]. assert (Ht2 : tables s2 !! sp = Some t) by congruence.
  destruct (dup_source_spec ptype 1 held2 dying cur s2 sp t sourceHandle G2 ltac:(lia) H2 Ht2) as (r3 & s3 & -> & S3). run.
  destruct r3 as [status|[[a access] attrs0]].
  { destruct S3 as (Hf & ->). change (negb (0 =? 0)) with false. cbn [release_if].
    eapply returns_mono; [exact (release_all_spec held dying s2 status None sr tr sp tp 0 (ready_inv _ _ _ _ _ _ G2) (fun _ => Hsp0) (fun _ => Htp0))|].
    intros [[? ?] s4] (-> & -> & I4 & K4). split; [done|]. rewrite Hf. intros q Hq. rewrite (map_of_kept held s2 s4) by done. unfold map_of. by rewrite Ets. }
  destruct S3 as (Ha & Et3 & G3 & h & Eh & -> & Hpos & Hsrc). rewrite get_referenced. run. change (type (h <| pointerCount := pointerCount h + 1 |>)) with (type h).
  assert (Hrel : (negb (a =? 0)) = true) by (by apply negb_true_iff, Z.eqb_neq).
  destruct Http as [tt Http]. assert (Ht3 : tables (referenced s2 a h) !! tp = Some tt) by (rewrite Et3; congruence).
  assert (Eh3 : headers (referenced s2 a h) !! a = Some (h <| pointerCount := pointerCount h + 1 |>)) by apply lookup_insert_eq.
  pose proof (ready_room _ _ _ _ _ _ G3 _ _ Eh3) as Hroom. cbn [pointerCount] in Hroom.
  destruct (dup_insert_spec (hold a held2) dying (referenced s2 a h) tp tt a _ wanted probe2 (dup_access (types (type h)) access desired options)
    (if has options DUPLICATE_SAME_ATTRIBUTES then attrs0 else attrs) pool (ready_inv _ _ _ _ _ _ G3) Ht3 Eh3) as (r4 & s4 & -> & I4 & Hex4 & S4); [cbn; cbn in Hroom; lia|apply (Hg tp); by rewrite <- Et1|]. run.
  assert (Hmap3 : forall q, map_of (referenced s2 a h) q = map_of s q) by (intros q; unfold map_of; by rewrite Et3, Ets).
  destruct r4 as [status|out].
  { destruct S4 as (Hf & Hm4). eapply returns_mono; [apply (release_all_spec held dying s4 status None sr tr sp tp a); [by rewrite Hrel|done|done]|].
    intros [[? ?] s5] (-> & -> & I5 & K5). split; [done|]. rewrite Hf. intros q Hq. by rewrite (map_of_kept held s4 s5), Hm4. }
  destruct S4 as (Hout & Hfresh & Hm4). apply returns_bind.
  eapply returns_mono; [apply (dup_close_spec (hold a held2) dying s4 sp sourceHandle _ I4); [pose proof (hold_le a held2 sp); lia|apply Hex4; rewrite Et3; by eexists|done]|].
  intros s5 (I5 & Hm5). cbn beta. eapply returns_mono; [apply (release_all_spec held dying s5 STATUS_SUCCESS out sr tr sp tp a); [by rewrite Hrel|done|done]|].
  intros [[? ?] s6] (-> & -> & I6 & K6). split; [done|]. change (NT_SUCCESS STATUS_SUCCESS) with true. cbn iota.
  destruct (Hty2 _ _ Eh) as (h1 & Eh1 & Hth1). destruct (Hty1 _ _ Eh1) as (h0 & Eh0 & Hth0). exists sp, tp, a, h0, access, attrs0. rewrite Hth0, Hth1. split; [done|]. split; [done|]. split; [done|].
  split; [|split; [done|split]].
  - destruct (ObpIsPseudoHandle sourceHandle); [done|]. unfold map_of. by rewrite Htsp.
  - intros v Hv. rewrite <- (Hmap3 tp). by apply Hfresh.
  - intros q Hq. rewrite (map_of_kept held s5 s6) by done. assert (0 < hold a held2 q)%nat by (specialize (Hle q); pose proof (hold_le a held2 q); lia).
    rewrite Hm5, Hm4, Hmap3 by done. by destruct out.
Qed.

(** Half way through inheritance: the child has the inheritable entries of the
    parent's [t] whose handles are in [V]. *)
Record inheriting held dying (parent child : addr) t (l : list OBP_HANDLE_ENTRY) (tables0 : gmap addr OBP_HANDLE_TABLE) (n : Z) (V : Z -> Prop) s : Prop := {
  ih_inv : inv held dying s;
  ih_room : room n s;
  ih_parent : tables s !! parent = Some t;
  ih_others : forall q, q <> child -> tables s !! q = tables0 !! q;
  ih_child : exists tc lc, tables s !! child = Some tc /\ entries tc = Some lc /\ (length l <= length lc)%nat /\
    forall v e, handle_map tc !! v = Some e <-> handle_map t !! v = Some e /\ has (attributes e) OBJ_INHERIT = true /\ V v;
}.

Section inherit.
Context (held : addr -> nat) (dying : gset addr) (parent child : addr) (t : OBP_HANDLE_TABLE) (l : list OBP_HANDLE_ENTRY) (tables0 : gmap addr OBP_HANDLE_TABLE).
Context (Hne : parent <> child) (El : entries t = Some l).
Abbreviation J := (inheriting held dying parent child t l tables0).

Lemma parent_entry (i : nat) e : l !! i = Some e -> body e <> 0 -> handle_map t !! handle_of i = Some e.
Proof. intros Hi Hb. apply handle_map_Some. eauto 10. Qed.

(** An entry that is not to be inherited adds nothing. *)
Lemma inherit_skip n V V' s : J n V s -> (forall v e, handle_map t !! v = Some e -> has (attributes e) OBJ_INHERIT = true -> V v <-> V' v) -> J n V' s.
Proof.
  intros [I R P O (tc & lc & Htc & Elc & Hlen & Hm)] HV. split; try done. exists tc, lc. split_and!; try done. intros v e. rewrite Hm.
  split; intros (H1 & H2 & H3); split_and!; try done; by eapply HV.
Qed.

Lemma inherit_fill n V s (i : nat) e : J (n + 1) V s -> 0 <= n -> l !! i = Some e -> body e <> 0 -> has (attributes e) OBJ_INHERIT = true -> ~ V (handle_of i) ->
  returns (fill_slot s child (Z.of_nat i) e) (J n (fun v => V v \/ v = handle_of i)).
Proof.
  intros [I R P O (tc & lc & Htc & Elc & Hlen & Hm)] Hn Hi Hb Hinh HV.
  destruct (entry_alive _ _ _ _ _ _ _ _ I P El Hi Hb) as (h & E & Hpos & _). pose proof (R _ _ E) as Hr. pose proof (lookup_lt_Some _ _ _ Hi).
  destruct (lookup_lt_is_Some_2 lc i) as [e0 He0]; [lia|]. assert (H0 : body e0 = 0).
  { destruct (decide (body e0 = 0)) as [|Hb0]; [done|]. exfalso. apply HV. apply (Hm (handle_of i) e0). apply handle_map_Some. eauto 10. }
  destruct (fill_spec held dying s child tc lc i e e0 h I Htc Elc He0 H0 Hb E) as (-> & I' & K' & Hnone & Hmap); [lia|]. cbn [returns]. set (tc' := tc <| entries := _ |> <| inUse := _ |>) in *. split.
  - exact I'.
  - intros a k. rewrite headers_put. intros [(<- & <-)|(_ & Hk)]%lookup_insert_Some; [cbn; lia|]. specialize (R _ _ Hk). lia.
  - change (<[child := tc']> (tables s) !! parent = Some t). by rewrite lookup_insert_ne.
  - intros q Hq. change (<[child := tc']> (tables s) !! q = tables0 !! q). rewrite lookup_insert_ne by done. by apply O.
  - exists tc', (<[i := e]> lc). split; [apply lookup_insert_eq|]. split; [done|]. split; [by rewrite length_insert|]. intros v e'. rewrite Hmap.
    rewrite lookup_insert_Some. pose proof (parent_entry i e Hi Hb) as Hp. split.
    + intros [(<- & <-)|(Hv & (? & ? & ?)%Hm)]; [by auto|]. by auto.
    + intros (Hv & Hin & [HVv| ->]); [|left; split; [done|congruence]]. right. split; [by intros <-|]. by apply Hm.
Qed.

Lemma inherit_one_spec n V s handle : J (n + 1) V s -> 0 <= n -> is_u64 handle ->
  returns (ObpInheritOne parent child s handle) (J n (fun v => V v \/ v = handle_value handle)).
Proof.
  intros J0 Hn Hh. pose proof J0 as [I R P O (tc & lc & Htc & Elc & Hlen & Hm)]. pose proof (inv_tables _ _ _ _ I _ _ P) as K.
  assert (Jn : forall V', (forall v e, handle_map t !! v = Some e -> has (attributes e) OBJ_INHERIT = true -> V v <-> V' v) -> J n V' s).
  { intros V' HV. apply (inherit_skip n V); [|done]. split; try done; [by apply (room_mono (n + 1)); [lia|]|]. by exists tc, lc. }
  unfold ObpInheritOne, get_table. rewrite P. run. rewrite entry_in_table by done. run.
  destruct (handle_map t !! handle_value handle) as [e|] eqn:Ee; cbn [fmap option_fmap option_map].
  2: { apply Jn. intros v e Hv _. split; [auto|]. intros [|Heq]; [done|congruence]. }
  destruct (has (attributes e) OBJ_INHERIT) eqn:Einh; cbn [negb].
  2: { apply Jn. intros v e' Hv Hi'. split; [auto|]. intros [|Heq]; [done|]. congruence. }
  rewrite Htc. run. rewrite Elc. run. destruct (map_slot _ _ _ K Hh Ee) as (l' & i & El' & Hi & Hb & Hv & ->). assert (l' = l) as -> by congruence. rewrite Nat2Z.id.
  pose proof (lookup_lt_Some _ _ _ Hi). destruct (lookup_lt_is_Some_2 lc i) as [e0 He0]; [lia|]. rewrite He0. run.
  destruct (Z.eqb_spec (body e0) 0) as [H0|H0]; cbn [negb].
  - rewrite Hv. apply inherit_fill; try done. intros HV. assert (Hc : handle_map tc !! handle_of i = Some e) by (apply Hm; by rewrite <- Hv in HV |- *).
    apply handle_map_Some in Hc as (l2 & j & El2 & Hj%(inj handle_of) & Hlj & Hbj). congruence.
  - apply Jn. intros v e' _ _. split; [auto|]. intros [|Heq]; [done|]. rewrite Heq, Hv. apply (Hm (handle_of i) e0). apply handle_map_Some. eauto 10.
Qed.

Lemma inherit_list_spec n V s hs : J (n + Z.of_nat (length hs)) V s -> 0 <= n -> Forall is_u64 hs ->
  returns (foldM (ObpInheritOne parent child) s hs) (J n (fun v => V v \/ v ∈ handle_value <$> hs)).
Proof.
  revert V s. induction hs as [|x hs IH]; intros V s J0 Hn Hu; cbn [foldM].
  - cbn [returns]. apply (inherit_skip n V); [by rewrite Z.add_0_r in J0|]. intros v e _ _. cbn. rewrite elem_of_nil. tauto.
  - apply Forall_cons in Hu as [Hx Hu]. apply returns_bind. eapply returns_mono; [apply (inherit_one_spec (n + Z.of_nat (length hs)) V s x); [|lia|done]|].
    { replace (n + Z.of_nat (length hs) + 1) with (n + Z.of_nat (length (x :: hs))); [done|]. cbn [length]. lia. }
    intros s1 J1. cbn beta. eapply returns_mono; [by apply IH|]. intros s2 J2. apply (inherit_skip n _ _ _ J2). intros v e _ _. cbn. rewrite elem_of_cons. tauto.
Qed.

Lemma inherit_all_spec n s l1 l2 : l = l1 ++ l2 -> J (n + Z.of_nat (length l2)) (fun v => v < handle_of (length l1)) s -> 0 <= n ->
  returns (inherit_all s parent child l2 (Z.of_nat (length l1))) (J n (fun _ => True)).
Proof.
  revert s l1. induction l2 as [|e l2 IH]; intros s l1 Hl J0 Hn; cbn [inherit_all].
  - cbn [returns]. apply (inherit_skip n (fun v => v < handle_of (length l1))); [by rewrite Z.add_0_r in J0|]. intros v e (l' & j & El' & -> & Hj & _)%handle_map_Some _.
    assert (l' = l) as -> by congruence. rewrite app_nil_r in Hl. subst l1. apply lookup_lt_Some in Hj. unfold handle_of. lia.
  - assert (Hi : l !! length l1 = Some e) by (rewrite Hl; by rewrite list_lookup_middle).
    assert (Hl' : l = (l1 ++ [e]) ++ l2) by by rewrite <- app_assoc.
    assert (Hlen : Z.of_nat (length l1) + 1 = Z.of_nat (length (l1 ++ [e]))) by (rewrite length_app; cbn; lia).
    assert (Hlt : forall v, v < handle_of (length l1) \/ v = handle_of (length l1) -> v < handle_of (length (l1 ++ [e]))) by (intros v; rewrite length_app; unfold handle_of; cbn; lia).
    assert (Hback : forall v e', handle_map t !! v = Some e' -> v < handle_of (length (l1 ++ [e])) -> v < handle_of (length l1) \/ v = handle_of (length l1)).
    { intros v e' (l' & j & _ & -> & _)%handle_map_Some. rewrite length_app. unfold handle_of. cbn. lia. }
    assert (Hcount : n + Z.of_nat (length (e :: l2)) = n + Z.of_nat (length l2) + 1) by (cbn [length]; lia). rewrite Hcount in J0. rewrite Hlen.
    destruct (Z.eqb_spec (body e) 0) as [Hb|Hb]; [|destruct (has (attributes e) OBJ_INHERIT) eqn:Einh]; cbn [orb negb]; run.
    + apply (IH s); [done| |done]. apply (inherit_skip _ (fun v => v < handle_of (length l1))).
      { destruct J0. split; try done. by apply (room_mono (n + Z.of_nat (length l2) + 1)); [lia|]. }
      intros v e' Hv _. split; [auto|]. intros [?| ->]%(Hback v e' Hv); [done|]. exfalso. apply handle_map_Some in Hv as (l' & j & El' & Hj%(inj handle_of) & Hlj & Hbj). congruence.
    + apply returns_bind. eapply returns_mono; [apply (inherit_fill (n + Z.of_nat (length l2)) _ s _ e J0); [lia|done..|lia]|].
      intros s1 J1. cbn beta. apply (IH s1); [done| |done]. apply (inherit_skip _ _ _ _ J1). intros v e' Hv _. split; [apply Hlt|by apply (Hback v e')].
    + apply (IH s); [done| |done]. apply (inherit_skip _ (fun v => v < handle_of (length l1))).
      { destruct J0. split; try done. by apply (room_mono (n + Z.of_nat (length l2) + 1)); [lia|]. }
      intros v e' Hv Hinh. split; [auto|]. intros [?| ->]%(Hback v e' Hv); [done|]. exfalso. apply handle_map_Some in Hv as (l' & j & El' & Hj%(inj handle_of) & Hlj & Hbj). congruence.
Qed.
End inherit.

Definition listed (handleList : option (list Z)) (stdHandles : list Z) (v : Z) : bool :=
  match handleList with None => true | Some hs => bool_decide (v ∈ handle_value <$> hs ++ stdHandles) end.

(** The child's table after inheritance. *)
Definition inherited (m : gmap Z OBP_HANDLE_ENTRY) (handleList : option (list Z)) (stdHandles : list Z) : gmap Z OBP_HANDLE_ENTRY :=
  filter (fun ve : Z * OBP_HANDLE_ENTRY => has (attributes ve.2) OBJ_INHERIT = true /\ listed handleList stdHandles ve.1 = true) m.

Lemma inherit_handles_spec held dying s parent child t t' handleList stdHandles pool n : inv held dying s -> parent <> child ->
  tables s !! parent = Some t -> tables s !! child = Some t' -> inUse t' = 0 -> Forall is_u64 (default [] handleList ++ stdHandles) ->
  room n s -> match handleList with None => capacity t <= n | Some hs => Z.of_nat (length (hs ++ stdHandles)) <= n end ->
  exists status s', ObpInheritHandles s parent child handleList stdHandles pool = Ok (status, s') /\ inv held dying s' /\
    (forall q, q <> child -> tables s' !! q = tables s !! q) /\
    if NT_SUCCESS status then entries t = None /\ s' = s \/ map_of s' child = inherited (handle_map t) handleList stdHandles
    else status = STATUS_INSUFFICIENT_RESOURCES /\ pool = false /\ s' = s.
Proof.
  intros I Hne P Htc Hu0 Hu R Hn. pose proof (inv_tables _ _ _ _ I _ _ P) as K. pose proof (inv_tables _ _ _ _ I _ _ Htc) as K'.
  unfold ObpInheritHandles, get_table. rewrite Htc. run. rewrite Hu0. run. rewrite P. run.
  destruct (entries t) as [l|] eqn:El; [|eexists _, _; split; [done|]; split_and!; try done; by left].
  destruct (table_range _ _ K El) as (Hu1 & Hc & Hcr). set (small := match entries t' with None => true | Some _ => capacity t' <? capacity t end).
  destruct (small && negb pool) eqn:Ep.
  { apply andb_true_iff in Ep as [_ Ep%negb_true_iff]. eexists _, _. split; [done|]. by split_and!. }
  set (newCapacity := if small then capacity t else capacity t'). set (t1 := t' <| entries := _ |> <| capacity := _ |>). set (s1 := put_table s child t1).
  assert (Hcap : capacity t <= newCapacity <= 2 ^ 29).
  { unfold newCapacity, small. unfold table_ok in K'. destruct (entries t') as [l'|]; [|lia]. destruct (Z.ltb_spec (capacity t') (capacity t)); lia. }
  assert (Hocc : forall n a, a <> 0 -> names_in a (replicate n free_entry) = 0) by (intros m a Ha; unfold names_in; rewrite filter_free; [done|cbn; congruence]).
  assert (I1 : inv held dying s1).
  { apply (retabled_inv held dying s child t' t1 I Htc).
    - unfold table_ok, t1. cbn. rewrite length_replicate. split_and!; try lia. unfold occupied. rewrite filter_free; [cbn; lia|]. cbn. intros Hf. by apply Hf.
    - intros b Hb. change (table_names b t1) with (names_in b (replicate (Z.to_nat newCapacity) free_entry)). rewrite Hocc by done. unfold table_names.
      destruct (entries t') as [l'|] eqn:El'; [|done]. cbn. destruct (table_range _ _ K' El') as (Hu' & _). unfold names_in.
      assert (filter (fun e => body e = b) l' = []) as ->; [|done]. destruct (filter (fun e => body e = b) l') as [|x f] eqn:Ef; [done|]. exfalso.
      assert (Hx : x ∈ filter (fun e => body e = b) l') by (rewrite Ef; left). apply list_elem_of_filter in Hx as [Hxb Hx]. apply list_elem_of_lookup_1 in Hx as [j Hj].
      pose proof (occupied_slot _ _ _ Hj ltac:(congruence)). lia. }
  assert (Hempty : forall v, handle_map t1 !! v = None).
  { intros v. destruct (handle_map t1 !! v) as [e|] eqn:Ee; [|done]. apply handle_map_Some in Ee as (l' & j & [= <-] & _ & Hj & Hb). by apply lookup_replicate in Hj as [-> _]. }
  assert (J0 : forall m, m <= n -> inheriting held dying parent child t l (tables s) m (fun v => v < handle_of 0) s1).
  { intros m Hm. split; [done|by apply (room_mono n)|unfold s1, put_table; cbn; by rewrite lookup_insert_ne| |].
    - intros q Hq. unfold s1, put_table. cbn. by apply lookup_insert_ne.
    - exists t1, (replicate (Z.to_nat newCapacity) free_entry). split; [apply lookup_insert_eq|]. split; [done|]. split; [rewrite length_replicate; lia|].
      intros v e. rewrite Hempty. split; [done|]. intros (Hv & _ & Hlt). apply handle_map_Some in Hv as (l' & j & _ & -> & _). unfold handle_of in Hlt. lia. }
  assert (Hfin : forall s' V, inheriting held dying parent child t l (tables s) 0 V s' -> (forall v e, handle_map t !! v = Some e ->
      V v <-> listed handleList stdHandles v = true) ->
    inv held dying s' /\ (forall q, q <> child -> tables s' !! q = tables s !! q) /\ map_of s' child = inherited (handle_map t) handleList stdHandles).
  { intros s' V [I' _ _ O' (tc & lc & Htc' & _ & _ & Hm)] HV. split; [done|]. split; [done|]. unfold map_of. rewrite Htc'. cbn. apply map_eq. intros v. apply option_eq. intros e.
    rewrite Hm. unfold inherited. rewrite map_lookup_filter_Some. cbn. split; intros (H1 & H2 & H3); (split; [done|]); split; try done; by eapply HV. }
  destruct handleList as [hs|].
  - cbn [default] in Hu. apply Forall_app in Hu as [Hu2 Hu3]. rewrite length_app in Hn.
    pose proof (inherit_list_spec held dying parent child t l (tables s) Hne El (Z.of_nat (length stdHandles)) _ s1 hs (J0 (Z.of_nat (length stdHandles) + Z.of_nat (length hs)) ltac:(lia)) ltac:(lia) Hu2) as F1.
    destruct (foldM _ s1 hs) as [s2| | |]; try done. run. cbn [returns] in F1.
    pose proof (inherit_list_spec held dying parent child t l (tables s) Hne El 0 _ s2 stdHandles F1 ltac:(lia) Hu3) as F2.
    destruct (foldM _ s2 stdHandles) as [s3| | |]; try done. run. cbn [returns] in F2. eexists _, _. split; [done|].
    destruct (Hfin _ _ F2) as (I3 & O3 & M3); [|split_and!; [done..|by right]]. intros v e (l' & j & _ & -> & _)%handle_map_Some. unfold listed. rewrite bool_decide_eq_true, fmap_app, elem_of_app. unfold handle_of. intuition lia.
  - pose proof (inherit_all_spec held dying parent child t l (tables s) Hne El 0 s1 [] l eq_refl (J0 (0 + Z.of_nat (length l)) ltac:(lia)) ltac:(lia)) as F1. cbn [length] in F1.
    change (Z.of_nat 0) with 0 in F1. destruct (inherit_all _ _ _ _ _) as [s2| | |]; try done. run. cbn [returns] in F1. eexists _, _. split; [done|].
    destruct (Hfin _ _ F1) as (I2 & O2 & M2); [done|]. split_and!; [done..|by right].
Qed.

Lemma duplicate_into_spec held dying s parent t source child tc sameAttributes pool : inv held dying s -> room 1 s -> is_u64 source ->
  tables s !! parent = Some t -> tables s !! child = Some tc -> can_grow tc pool ->
  exists r s', ObpDuplicateIntoTable s parent source child sameAttributes pool = Ok (r, s') /\ inv held dying s' /\
    (forall q, q <> child -> map_of s' q = map_of s q) /\
    match r with
    | inl status => map_of s' child = map_of s child /\ status = (if bool_decide (handle_map t !! handle_value source = None) then STATUS_INVALID_HANDLE else STATUS_INSUFFICIENT_RESOURCES)
    | inr v => exists e, handle_map t !! handle_value source = Some e /\ map_of s child !! v = None /\
        map_of s' child = <[v := mkENTRY (body e) (grantedAccess e) (if sameAttributes then attributes e else 0)]> (map_of s child)
    end.
Proof.
  intros I R Hh P Pc Hg. pose proof (inv_tables _ _ _ _ I _ _ P) as K. unfold ObpDuplicateIntoTable, get_table. rewrite P. run. rewrite entry_in_table by done. run.
  destruct (handle_map t !! handle_value source) as [e|] eqn:Ee; cbn [fmap option_fmap option_map]; [|by eexists _, _].
  destruct (map_slot _ _ _ K Hh Ee) as (l & i & El & Hi & Hb & _). destruct (entry_alive _ _ _ _ _ _ _ _ I P El Hi Hb) as (h & E & Hpos & _). pose proof (R _ _ E).
  destruct (create_spec held dying s child tc (body e) h (grantedAccess e) (if sameAttributes then attributes e else 0) pool I Pc E) as (r & s' & t' & -> & I' & Ht' & _ & _ & S); [lia|done|].
  assert (Hm : forall q, map_of s' q = if decide (q = child) then handle_map t' else map_of s q).
  { intros q. unfold map_of. rewrite Ht'. case_decide as Hc; [subst q; by rewrite lookup_insert_eq|by rewrite lookup_insert_ne]. }
  assert (Hc : map_of s child = handle_map tc) by (unfold map_of; by rewrite Pc).
  eexists _, _. split; [done|]. split; [done|]. split; [intros q Hq; rewrite Hm; by case_decide|].
  destruct r as [status|v]; rewrite Hm, decide_True, Hc by done.
  - by destruct S as (-> & _ & -> & _).
  - destruct S as (Hnone & -> & _). by exists e.
Qed.

(** The sweep over a table passes. *)
Lemma verify_entries_spec held dying s p t l verifyWaitList : inv held dying s -> tables s !! p = Some t -> entries t = Some l -> (forall a, verifyWaitList a = Ok tt) ->
  forall l1 l2, l = l1 ++ l2 -> foldM (verify_entry s verifyWaitList) (occupied l1) l2 = Ok (occupied l).
Proof.
  intros I P El Hv l1 l2. revert l1. induction l2 as [|e l2 IH]; intros l1 Hl; cbn [foldM]; [by rewrite Hl, app_nil_r|].
  assert (Hi : l !! length l1 = Some e) by (rewrite Hl; by rewrite list_lookup_middle).
  assert (Hocc : occupied (l1 ++ [e]) = occupied l1 + (if body e =? 0 then 0 else 1)).
  { unfold occupied. rewrite filter_app, length_app. destruct (Z.eqb_spec (body e) 0); [rewrite filter_cons_False by (intros Hn; by apply Hn)|rewrite filter_cons_True by done]; cbn; lia. }
  assert (Hstep : verify_entry s verifyWaitList (occupied l1) e = Ok (occupied (l1 ++ [e]))); [|rewrite Hstep; run; apply IH; by rewrite <- app_assoc].
  rewrite Hocc. unfold verify_entry. destruct (Z.eqb_spec (body e) 0) as [Hb|Hb]; [by rewrite Z.add_0_r|].
  destruct (entry_alive _ _ _ _ _ _ _ _ I P El Hi Hb) as (h & E & Hpos & Hhc). destruct (inv_counts _ _ _ _ I _ _ E) as (_ & Hpc & Hhc2 & _). pose proof (children_nonneg s (body e)).
  unfold get_header. rewrite E. run. pose proof (inv_typed _ _ _ _ I _ _ E) as Hty. rewrite (proj2 (Z.eqb_neq _ _) Hty), (proj2 (Z.eqb_neq _ _) (type_named _ Hty)). run. rewrite (proj2 (Z.leb_le 1 (handleCount h))) by lia. run. fold (named h). rewrite (proj2 (Z.leb_le (handleCount h + named h) (pointerCount h))) by lia. run.
  destruct (waitable _); [rewrite Hv|]; by run.
Qed.

Lemma verify_table_spec held dying s p t verifyWaitList : inv held dying s -> tables s !! p = Some t -> (forall a, verifyWaitList a = Ok tt) ->
  ObpVerifyHandleTable s verifyWaitList t = Ok tt.
Proof.
  intros I P Hv. unfold ObpVerifyHandleTable. pose proof (inv_tables _ _ _ _ I _ _ P) as K. unfold table_ok in K. destruct (entries t) as [l|] eqn:El.
  - destruct K as (Hc & Hcr & Hu). pose proof (occupied_le l). rewrite (proj2 (Z.leb_le (inUse t) (capacity t))) by lia. run. change (default [] (Some l)) with l.
    pose proof (verify_entries_spec held dying s p t l verifyWaitList I P El Hv [] l eq_refl) as F. change (occupied []) with 0 in F. rewrite F. run. by rewrite Hu, Z.eqb_refl.
  - destruct K as [Hu Hc]. rewrite (proj2 (Z.leb_le (inUse t) (capacity t))) by lia. run. by rewrite Hu.
Qed.
End accounts.
