(* ===== verification/ObRun.v ===== *)
(** * ObRun: the object manager in use.

    Any sequence of calls by any threads, from an empty object manager, with
    the references each caller holds kept on the side; what is then true of the
    counts, the tables and the sweep. *)

From S2P Require Import Prelude NtStatus KeWait SeSd SeAccess ObObject ObHandle.

(** One call; [cur]: the calling thread. *)
Inductive ob_call :=
  | CallAllocate (objectType : addr) (bodySize : Z) (block : addr)
  | CallDirectory (a : addr)
  | CallProcess (a : addr)
  | CallLink (d a : addr) (newName : list Z) (pool : bool)
  | CallUnlink (a : addr)
  | CallReference (a : addr)
  | CallDereference (a : addr)
  | CallByHandle (cur : CURRENT) (handle desiredAccess : Z) (wantedType : addr)
  | CallCreate (cur : CURRENT) (probe : NTSTATUS) (a : addr) (access attrs : Z) (pool : bool)
  | CallClose (cur : CURRENT) (handle : Z)
  | CallCloseAll (p : addr)
  | CallSetFlags (cur : CURRENT) (handle : Z) (inherit protect : bool)
  | CallCompare (cur : CURRENT) (first second : Z)
  | CallPermanence (cur : CURRENT) (handle : Z) (flag : bool)
  | CallDuplicate (cur : CURRENT) (processType : addr) (sourceProcess sourceHandle targetProcess : Z) (wanted : bool) (probe1 probe2 : NTSTATUS)
      (desired attrs options : Z) (pool : bool)
  | CallInherit (parent child : addr) (handleList : option (list Z)) (stdHandles : list Z) (pool : bool).

Section run.
Context {W : Type} {T : TYPES W} {OK : TYPES_OK W}.
Implicit Types (s : OB W) (a p : addr) (held : addr -> nat).

Definition drop_hold a held : addr -> nat := fun x => if decide (x = a) then Nat.pred (held x) else held x.

Definition run_call (c : ob_call) (x : (addr -> nat) * OB W) : outcome ((addr -> nat) * OB W) :=
  let '(held, s) := x in
  match c with
  | CallAllocate objectType bodySize block =>
      '(status, s) ← ObpAllocateObject s objectType bodySize block;
      Ok (if NT_SUCCESS status then hold block held else held, s)
  | CallDirectory a => Ok (held, s <| directories := <[a := []]> (directories s) |>)
  | CallProcess a => Ok (held, put_table s a ObpInitializeHandleTable)
  | CallLink d a newName pool => '(_, s) ← ObpLinkObjectName s d a newName pool; Ok (held, s)
  | CallUnlink a => s ← ObpUnlinkObjectName s a; Ok (held, s)
  | CallReference a => s ← ObfReferenceObject s a; Ok (hold a held, s)
  | CallDereference a => s ← ObDereferenceObject s a; Ok (drop_hold a held, s)
  | CallByHandle cur handle desiredAccess wantedType =>
      '(r, s) ← ObReferenceObjectByHandle s cur handle desiredAccess wantedType;
      Ok (match r with inl _ => held | inr (a, _, _) => hold a held end, s)
  | CallCreate cur probe a access attrs pool => '(_, s) ← ObpCreateHandle s cur probe a access attrs pool; Ok (held, s)
  | CallClose cur handle => '(_, s) ← NtClose s cur handle; Ok (held, s)
  | CallCloseAll p => s ← ObpCloseAllHandles s p; Ok (held, s)
  | CallSetFlags cur handle inherit protect => '(_, s) ← NtSetInformationObject s cur handle true 2 (inr (inherit, protect)); Ok (held, s)
  | CallCompare cur first second => '(_, s) ← NtCompareObjects s cur first second; Ok (held, s)
  | CallPermanence cur handle flag => '(_, s) ← (if flag then NtMakePermanentObject s cur handle else NtMakeTemporaryObject s cur handle); Ok (held, s)
  | CallDuplicate cur processType sourceProcess sourceHandle targetProcess wanted probe1 probe2 desired attrs options pool =>
      '(_, _, s) ← NtDuplicateObject s cur processType sourceProcess sourceHandle targetProcess wanted probe1 probe2 desired attrs options pool;
      Ok (held, s)
  | CallInherit parent child handleList stdHandles pool => '(_, s) ← ObpInheritHandles s parent child handleList stdHandles pool; Ok (held, s)
  end.

(** An object the caller may use. *)
Definition live s a : Prop := exists h, headers s !! a = Some h /\ 0 < pointerCount h.

(** A call by a handle: a caller that exists, and a margin for the counts. *)
Definition caller_ok held s cur (handle : Z) : Prop := room 2 s /\ current_ok s cur held /\ is_u64 handle.

Definition process_tables s processType : Prop := forall a h, headers s !! a = Some h -> type h = processType -> is_Some (tables s !! a).

(** What each call asks of its caller: the objects it names exist and, where it
    keeps using or gives back a reference, that the caller holds one; no count
    or table at the edge of its width. *)
Definition contract (c : ob_call) (x : (addr -> nat) * OB W) : Prop :=
  let '(held, s) := x in
  match c with
  | CallAllocate objectType bodySize block => objectType <> 0 /\ bodySize <> 0 /\ (block <> 0 -> headers s !! block = None)
  | CallDirectory a => live s a /\ directories s !! a = None
  | CallProcess a => tables s !! a = None
  | CallLink d a _ _ => a <> d /\ (exists h, headers s !! a = Some h /\ 0 < pointerCount h < 2 ^ 31 - 1 /\ parentDirectory h = 0 /\ name h = []) /\
      (exists k, headers s !! d = Some k /\ 0 < pointerCount k < 2 ^ 31 - 1) /\ is_Some (directories s !! d)
  | CallUnlink a => is_Some (headers s !! a)
  | CallReference a => room 1 s /\ live s a
  | CallDereference a => a <> 0 /\ (0 < held a)%nat
  | CallByHandle cur handle _ _ | CallClose cur handle | CallSetFlags cur handle _ _ | CallPermanence cur handle _ => caller_ok held s cur handle
  | CallCompare cur first second => caller_ok held s cur first /\ is_u64 second
  | CallCreate cur _ a _ _ pool => room 2 s /\ current_ok s cur held /\ live s a /\ forall t, tables s !! process cur = Some t -> can_grow t pool
  | CallCloseAll p => (0 < held p)%nat /\ is_Some (tables s !! p)
  | CallDuplicate cur processType sourceProcess sourceHandle targetProcess _ _ _ _ _ _ pool =>
      room 4 s /\ current_ok s cur held /\ process_tables s processType /\ processType <> 0 /\ is_u64 sourceProcess /\ is_u64 sourceHandle /\ is_u64 targetProcess /\
      forall p t, tables s !! p = Some t -> can_grow t pool
  | CallInherit parent child handleList stdHandles pool =>
      parent <> child /\ Forall is_u64 (default [] handleList ++ stdHandles) /\
      exists t t', tables s !! parent = Some t /\ tables s !! child = Some t' /\ inUse t' = 0 /\
        room (match handleList with None => capacity t | Some hs => Z.of_nat (length (hs ++ stdHandles)) end) s
  end.

(** What an empty object manager can become. *)
Inductive reach : (addr -> nat) * OB W -> Prop :=
  | reach_boot w : (forall a, owned w a = 0%nat) -> reach (fun _ => 0%nat, mkOB ∅ ∅ ∅ w)
  | reach_call c x y : reach x -> contract c x -> run_call c x = Ok y -> reach y.

(** ** One call *)

Abbreviation inv := (ob_inv owned).
Definition run_inv (x : (addr -> nat) * OB W) : Prop := inv x.1 ∅ x.2.

Lemma drop_hold_held a held : (0 < held a)%nat -> forall x, hold a (drop_hold a held) x = held x.
Proof. intros Hp x. unfold hold, drop_hold. case_decide; [subst; lia|done]. Qed.

Lemma boot_run_inv w : (forall a, owned w a = 0%nat) -> run_inv (fun _ => 0%nat, mkOB ∅ ∅ ∅ w).
Proof. intros Hw. split; cbn; done. Qed.

Lemma directory_inv held s a : inv held ∅ s -> live s a -> directories s !! a = None -> inv held ∅ (s <| directories := <[a := []]> (directories s) |>).
Proof.
  intros [Hc Hd Hl Hp Ht] (h & E & _) Hn. destruct (Hc _ _ E) as (Ha & _). split; try done; cbn.
  - intros d l [(<- & <-)|(Hne & Hdl)]%lookup_insert_Some; [|by apply Hl]. split; [by eexists|]. split; [apply NoDup_nil_2|]. intros b. split; [by intros ?%not_elem_of_nil|].
    intros (k & Ek & Hk). destruct (Hp b k Ek) as [? Hd']; [congruence|]. congruence.
  - intros b k Ek Hk. destruct (decide (parentDirectory k = a)) as [<-|]; [rewrite lookup_insert_eq; by eexists|rewrite lookup_insert_ne by done]. by apply (Hp b).
Qed.

Lemma process_inv held s p : inv held ∅ s -> tables s !! p = None -> inv held ∅ (put_table s p ObpInitializeHandleTable).
Proof.
  intros [Hc Hd Hl Hp Ht] Hn. assert (Hh : forall a, handles (put_table s p ObpInitializeHandleTable) a = handles s a).
  { intros a. unfold handles. cbn. by rewrite tally_insert. }
  split; try done; cbn.
  - intros a h E. rewrite Hh. by apply Hc.
  - intros a Ha E. rewrite Hh. by apply Hd.
  - intros q t [(<- & <-)|(Hne & Hq)]%lookup_insert_Some; [|by apply (Ht q)]. unfold table_ok. cbn. lia.
Qed.

Lemma run_call_inv c x : run_inv x -> contract c x -> returns (run_call c x) run_inv.
Proof.
  destruct x as [held s]. intros I C. unfold run_inv in I. cbn [fst snd] in I. destruct c; cbn [run_call contract] in *.
  - destruct C as (Ht & Hb & Hf). pose proof (allocate_spec held ∅ s objectType bodySize block I Ht Hb Hf) as A. destruct (block =? 0); [by rewrite A|]. by destruct A as [-> A].
  - destruct C. by apply directory_inv.
  - by apply process_inv.
  - destruct C as (Hne & (h & E & Hr & Hp & Hn) & (k & Ek & Hrk) & [l El]).
    destruct (link_spec held ∅ s a h d k l newName pool I E Hp Hn Ek El Hne Hr Hrk) as (st & s' & -> & I' & _). by run.
  - apply returns_bind. eapply returns_mono; [by apply unlink_spec|]. by intros s' [I' _].
  - destruct C as (R & h & E & Hp). pose proof (R _ _ E). destruct (reference_spec held ∅ s a h I E) as [-> I']; [lia|]. by run.
  - destruct C as (Ha & Hh). apply returns_bind. eapply returns_mono; [apply (dereference_spec (drop_hold a held)); [|done]|by intros s' [I' _]].
    apply (inv_ext held); [|done]. by apply drop_hold_held.
  - destruct C as (R & Cc & Hh). destruct (cur_process _ _ _ Cc) as (_ & _ & [t Ht]).
    destruct (by_handle_spec held ∅ s cur handle desiredAccess wantedType t I (room_mono 2 1 s ltac:(lia) R) Cc Hh Ht) as (r & s' & -> & S & _). run.
    destruct r as [st|[[a at_] ac]]; by destruct S as (? & ? & ?).
  - destruct C as (R & Cc & (h & E & Hp) & Hg). unfold ObpCreateHandle. destruct (NT_SUCCESS probe); cbn [negb]; [|done]. destruct (cur_process _ _ _ Cc) as (_ & _ & [t Ht]). pose proof (R _ _ E).
    destruct (create_spec held ∅ s _ t a h access attrs pool I Ht E) as (r & s' & t' & -> & I' & _); [lia|by apply Hg|]. by run.
  - destruct C as (R & Cc & Hh). destruct (cur_process _ _ _ Cc) as (_ & Hhp & [t Ht]). apply returns_bind. eapply returns_mono; [by eapply (NtClose_spec held ∅)|]. by intros [st s'] [I' _].
  - destruct C as (Hh & [t Ht]). apply returns_bind. eapply returns_mono; [by eapply (close_all_spec held ∅)|]. by intros s' [I' _].
  - destruct C as (R & Cc & Hh). destruct (cur_process _ _ _ Cc) as (_ & _ & [t Ht]). destruct (set_information_spec held ∅ s cur handle inherit protect t I Ht Hh) as (st & s' & -> & I' & _). by run.
  - destruct C as ((R & Cc & H1) & H2). destruct (cur_process _ _ _ Cc) as (_ & _ & [t Ht]). apply returns_bind. eapply returns_mono; [by eapply (compare_spec held ∅)|]. by intros [st s'] [I' _].
  - destruct C as (R & Cc & Hh). destruct (cur_process _ _ _ Cc) as (_ & _ & [t Ht]). unfold NtMakePermanentObject, NtMakeTemporaryObject.
    destruct flag; [destruct (permanence_spec held ∅ s cur handle 0 true t I (room_mono 2 1 s ltac:(lia) R) Cc Hh Ht) as (st & s' & -> & I' & _)
      |destruct (permanence_spec held ∅ s cur handle DELETE false t I (room_mono 2 1 s ltac:(lia) R) Cc Hh Ht) as (st & s' & -> & I' & _)]; by run.
  - destruct C as (R & Cc & Hp & Hpt & H1 & H2 & H3 & Hg). apply returns_bind. eapply returns_mono; [apply (duplicate_spec processType held ∅); try done; by split|].
    by intros [[st out] s'] [I' _].
  - destruct C as (Hne & Hu & t & t' & P & Pc & Hu0 & R). destruct (inherit_handles_spec held ∅ s parent child t t' handleList stdHandles pool _ I Hne P Pc Hu0 Hu R) as (st & s' & -> & I' & _); [by destruct handleList|]. by run.
Qed.

Lemma reach_inv x : reach x -> run_inv x.
Proof.
  induction 1 as [w Hw|c x y Hx IH Hc Hr]; [by apply boot_run_inv|]. pose proof (run_call_inv c x IH Hc) as Hy. rewrite Hr in Hy. exact Hy.
Qed.
End run.

(** ** Properties *)

Section properties.
Context {W : Type} {T : TYPES W} {OK : TYPES_OK W}.
Implicit Types (s : OB W) (a p : addr) (held : addr -> nat).
Abbreviation inv := (ob_inv owned).

(** C2. Reference counts are exact, under any use.  In every state that calls by
    threads keeping their contracts can reach, each of them returns: no ASSERT
    fails and no freed object is touched, whatever the types' own procedures do
    within their promise.  An object is in memory exactly as long as something
    refers to it; its pointer count is its handles in all tables, its name, the
    entries of its directory, the references callers hold and those other
    kernel state owns, its handle count the handles alone; and the consistency
    sweep passes over every table. *)
Theorem object_references_exact (x : (addr -> nat) * OB W) (Hx : reach x) :
  (forall c, contract c x -> is_Ok (run_call c x)) /\
  (forall a h, headers x.2 !! a = Some h -> 0 < pointerCount h /\ handleCount h = handles x.2 a /\
    pointerCount h = handles x.2 a + named h + children x.2 a + Z.of_nat (x.1 a) + Z.of_nat (owned (world x.2) a)) /\
  (forall a, a <> 0 -> headers x.2 !! a = None -> handles x.2 a = 0 /\ children x.2 a = 0 /\ x.1 a = 0%nat /\ owned (world x.2) a = 0%nat) /\
  (forall p t verifyWaitList, tables x.2 !! p = Some t -> (forall a, verifyWaitList a = Ok tt) -> ObpVerifyHandleTable x.2 verifyWaitList t = Ok tt).
Proof.
  pose proof (reach_inv x Hx) as I. split_and!.
  - intros c Hc. apply is_Ok_returns. eapply returns_mono; [by apply run_call_inv|done].
  - intros a h E. destruct (inv_counts _ _ _ _ I _ _ E) as (Ha & Hpc & Hhc & Hz). split_and!; try done.
    pose proof (handles_nonneg x.2 a). pose proof (children_nonneg x.2 a). pose proof (named_nonneg h).
    destruct (decide (pointerCount h = 0)) as [Hz0|]; [by apply Hz, not_elem_of_empty in Hz0|lia].
  - apply (inv_dead _ _ _ _ I).
  - intros p t v Ht Hv. by eapply verify_table_spec.
Qed.

End properties.

(** ** Examples *)

(** Directories (type 1), ports (2), whose close procedure notes the last handle,
    processes (3), and events (4). *)
Definition example_type (valid : Z) : OBJECT_TYPE := mkOBJECT_TYPE 0x9000 (mktype valid 0x20000 0x20000 0x20000 valid) false None.

#[export] Instance example_types : TYPES (list addr) := {
  types a := if a =? 4 then example_type 0x1F0003 else example_type 0xF000F;
  closeProcedure a := if a =? 2 then Some (fun _ b _ m s => Ok (if m =? 1 then s <| world := b :: world s |> else s)) else None;
  deleteProcedure a := if a =? 1 then Some ObpDeleteDirectory else None;
}.

#[export] Instance example_types_ok : TYPES_OK (list addr).
Proof.
  refine {| owned := fun _ _ => 0%nat |}.
  - intros a _. cbn. by destruct (a =? 4).
  - intros process a n m f s h held dying I E Hf Hh Hp. cbn in Hf. destruct (type h =? 2); [|done]. injection Hf as <-. cbn [returns]. destruct (m =? 1); [|done].
    split; [|done]. by destruct I.
  - intros a f s h held dying I E H0 Hf. cbn in Hf. destruct (type h =? 1); [|done]. injection Hf as <-. rewrite (delete_directory_spec _ held dying s a h I E H0).
    cbn [returns]. split; [done|]. split; [done|]. by exists h.
Defined.

Definition example_current : CURRENT := mkCURRENT 0x1000 0 0 0.

(** A process with a table makes a port and keeps only a handle to it. *)
Definition example_calls : list ob_call :=
  [CallAllocate 3 64 0x1000; CallProcess 0x1000; CallAllocate 2 16 0x3000; CallCreate example_current 0 0x3000 0xF000F 0 true; CallDereference 0x3000].

Definition run_calls (cs : list ob_call) : outcome ((addr -> nat) * OB (list addr)) := foldM (fun x c => run_call c x) (fun _ => 0%nat, mkOB ∅ ∅ ∅ []) cs.
Definition example_run : (addr -> nat) * OB (list addr) :=
  match run_calls example_calls with Ok x => x | _ => (fun _ => 0%nat, mkOB ∅ ∅ ∅ []) end.

Lemma room_map {W} n (s : OB W) : map_Forall (fun _ h => pointerCount h < 2 ^ 31 - n) (headers s) -> room n s.
Proof. done. Qed.

Lemma example_target v : pseudo_target example_current v <> 0 -> pseudo_target example_current v = 0x1000.
Proof. unfold pseudo_target. cbn. by repeat case_match. Qed.

Lemma example_current_ok (held : addr -> nat) (s : OB (list addr)) : (0 < held 0x1000%Z)%nat -> bool_decide (is_Some (tables s !! 0x1000)) = true ->
  from_option (fun h => 0 <? pointerCount h) false (headers s !! 0x1000) = true -> current_ok s example_current held.
Proof.
  intros Hh Ht Hp. split.
  - split_and!; [done|done|]. by apply bool_decide_eq_true in Ht.
  - intros v ->%example_target. destruct (headers s !! 0x1000) as [h|]; [|done]. exists h. split; [done|]. by apply Z.ltb_lt.
Qed.

Lemma example_reach : reach example_run.
Proof.
  pose proof (reach_boot [] (fun _ => eq_refl)) as R0.
  eassert (R1 : reach _) by (eapply (reach_call (CallAllocate 3 64 0x1000)); [exact R0|done|vm_compute; reflexivity]).
  eassert (R2 : reach _) by (eapply (reach_call (CallProcess 0x1000)); [exact R1|done|vm_compute; reflexivity]).
  eassert (R3 : reach _) by (eapply (reach_call (CallAllocate 2 16 0x3000)); [exact R2|done|vm_compute; reflexivity]).
  eassert (R4 : reach _).
  { eapply (reach_call (CallCreate example_current 0 0x3000 0xF000F 0 true)); [exact R3| |vm_compute; reflexivity].
    split; [apply room_map; vm_compute_decide|]. split; [apply example_current_ok; vm_compute; [lia|done|done]|]. split; [by eexists|].
    intros t [= <-] _ _. vm_compute. done. }
  eapply (reach_call (CallDereference 0x3000)); [exact R4|split; [done|vm_compute; lia]|vm_compute; reflexivity].
Qed.

Lemma example_ready : ready 3 4 example_run.1 ∅ example_current example_run.2.
Proof.
  split; [exact (reach_inv _ example_reach)|apply room_map; vm_compute_decide|apply example_current_ok; vm_compute; [lia|done|done]|].
  assert (H : map_Forall (fun a h => type h = 3 -> is_Some (tables example_run.2 !! a)) (headers example_run.2)); [|exact H].
  apply map_Forall_to_list. vm_compute. repeat constructor; try done; intros; by eexists.
Qed.

Lemma object_references_exact_witness : reach example_run /\ contract (CallClose example_current 4) example_run /\
  is_Ok (run_call (CallClose example_current 4) example_run) /\ handles example_run.2 0x3000 = 1.
Proof.
  assert (C : contract (CallClose example_current 4) example_run).
  { split; [apply room_map; vm_compute_decide|]. split; [apply example_current_ok; vm_compute; [lia|done|done]|done]. }
  split; [exact example_reach|]. split; [exact C|]. split; [|reflexivity]. exact (proj1 (object_references_exact example_run example_reach) _ C).
Defined.

