(* ===== verification/CmTree.v ===== *)
(** * CmTree: the registry's key tree (kernel/cm/registry.c, cm.h).

    Keys are pool blocks named by their addresses: a node knows its parent, its
    subkeys in order and its values in order.  The pool and the clock answer
    through an interface; an address is never handed out twice, so it identifies
    the allocation. *)

From S2P Require Import Prelude NtStatus Rtl.

Definition CMP_MAX_COMPONENT_BYTES : Z := 256 * 2.
Definition CMP_MAX_VALUE_NAME_BYTES : Z := 16383 * 2.
Definition CMP_HIVE_MAX_DEPTH : Z := 96.
Definition CMP_HIVE_MAX_BYTES : Z := Z.shiftl 64 20.
Definition SEPARATOR : Z := 0x5C.

(** A pool copy of a name: exactly its units. *)
Definition counted (units : list Z) : UNICODE_STRING :=
  mkUNICODE_STRING (2 * Z.of_nat (length units)) (2 * Z.of_nat (length units)) (Some units).

Record CMP_VALUE := mkVALUE { value_name : list Z; value_type : Z; value_data : list Z }.

Record CMP_KEY_NODE := mkNODE {
  parent : addr;
  subkeys : list addr;
  values : list CMP_VALUE;
  subkeyCount : Z;
  valueCount : Z;
  lastWriteTime : Z;
  bodyCount : Z;
  deleted : bool;
  isVolatile : bool;
  isLink : bool;
  name : list Z;
}.

#[export] Instance eta_node : Eta CMP_KEY_NODE := {| eta_expand := fun n =>
  mkNODE (parent n) (subkeys n) (values n) (subkeyCount n) (valueCount n) (lastWriteTime n) (bodyCount n) (deleted n) (isVolatile n) (isLink n) (name n) |}.

(** The n-th allocation, the n-th look at the clock. *)
Class MACHINE := {
  pool_answers : nat -> bool;
  interrupt_time : nat -> Z;
}.

(** [notified]: the changes reported to the watchers, latest first. *)
Record CM := mkCM {
  nodes : gmap addr CMP_KEY_NODE;
  allocations : nat;
  reads : nat;
  notified : list (addr * Z);
}.

#[export] Instance eta_cm : Eta CM := {| eta_expand := fun s => mkCM (nodes s) (allocations s) (reads s) (notified s) |}.

Section tree.
Context `{MACHINE}.
Implicit Types (s : CM) (a p c : addr) (n k : CMP_KEY_NODE) (v : CMP_VALUE) (nm path : list Z).

Definition get_node s a : outcome CMP_KEY_NODE := deref (nodes s !! a) "key".
Definition put_node s a n : CM := s <| nodes := <[a := n]> (nodes s) |>.
Definition drop_node s a : CM := s <| nodes := delete a (nodes s) |>.

(** MiAllocatePool: a block of its own, or 0; it stops the machine when asked for nothing. *)
Definition pool_allocate s (bytes : Z) : outcome (addr * CM) :=
  if bytes =? 0 then Panic "MiAllocatePool: zero-byte allocation" else
  Ok (if pool_answers (allocations s) then Z.of_nat (S (allocations s)) else 0, s <| allocations := S (allocations s) |>).

(** A buffer whose contents live in its owner. *)
Definition pool_copy s (bytes : Z) : outcome (bool * CM) :=
  if bytes =? 0 then Ok (true, s) else '(b, s) ← pool_allocate s bytes; Ok (negb (b =? 0), s).

Definition CmpNow s : Z * CM := (s64 (interrupt_time (reads s)), s <| reads := S (reads s) |>).

Definition CmpNotifyChange s a (change : Z) : CM := s <| notified := (a, change) :: notified s |>.

(** ** Tree primitives *)

(** Up to the root; [fuel]: more levels than the tree may have. *)
Fixpoint key_depth s a (fuel : nat) : outcome Z :=
  if a =? 0 then Ok 0 else
  match fuel with
  | O => OutOfFuel
  | S fuel => n ← get_node s a; d ← key_depth s (parent n) fuel; Ok (d + 1)
  end.

Definition LEVELS : nat := Z.to_nat (CMP_HIVE_MAX_DEPTH + 1).

Definition CmpKeyDepth s a : outcome Z := key_depth s a LEVELS.

(** The list with [a], named [nm], before the first sibling that sorts after it. *)
Fixpoint sorted_place s nm a (l : list addr) : outcome (list addr) :=
  match l with
  | [] => Ok [a]
  | c :: rest =>
      sibling ← get_node s c;
      r ← RtlCompareUnicodeString (counted nm) (counted (name sibling)) true;
      if r <? 0 then Ok (a :: l) else
      l' ← sorted_place s nm a rest; Ok (c :: l')
  end.

Definition CmpLinkSubkeySorted s p a : outcome CM :=
  n ← get_node s a;
  h ← get_node s p;
  l ← sorted_place s (name n) a (subkeys h);
  Ok (put_node s p (h <| subkeys := l |>)).

Definition SIZEOF_NODE : Z := 112.
Definition SIZEOF_VALUE : Z := 48.

(** 0 when the tree is too deep or the pool is exhausted. *)
Definition CmpAllocateNode s p nm : outcome (addr * CM) :=
  d ← CmpKeyDepth s p;
  if CMP_HIVE_MAX_DEPTH <=? d then Ok (0, s) else
  '(a, s) ← pool_allocate s SIZEOF_NODE;
  if a =? 0 then Ok (0, s) else
  '(named, s) ← pool_copy s (2 * Z.of_nat (length nm));
  if negb named then Ok (0, s) else
  let '(now, s) := CmpNow s in
  let s := put_node s a (mkNODE p [] [] 0 0 now 0 false false false nm) in
  if p =? 0 then Ok (a, s) else
  s ← CmpLinkSubkeySorted s p a;
  h ← get_node s p;
  Ok (a, put_node s p (h <| subkeyCount := subkeyCount h + 1 |>)).

(** The first of [l] named [nm], 0 when there is none. *)
Fixpoint find_subkey s nm (l : list addr) : outcome addr :=
  match l with
  | [] => Ok 0
  | c :: rest =>
      child ← get_node s c;
      same ← RtlEqualUnicodeString (counted (name child)) (counted nm) true;
      if (same : bool) then Ok c else find_subkey s nm rest
  end.

Definition CmpFindSubkey s a nm : outcome addr := n ← get_node s a; find_subkey s nm (subkeys n).

(** The index of the value named [nm]. *)
Fixpoint CmpFindValue (l : list CMP_VALUE) nm : outcome (option nat) :=
  match l with
  | [] => Ok None
  | v :: rest =>
      same ← RtlEqualUnicodeString (counted (value_name v)) (counted nm) true;
      if (same : bool) then Ok (Some O) else found ← CmpFindValue rest nm; Ok (option_map S found)
  end.

Fixpoint value_place v (l : list CMP_VALUE) : outcome (list CMP_VALUE) :=
  match l with
  | [] => Ok [v]
  | existing :: rest =>
      r ← RtlCompareUnicodeString (counted (value_name v)) (counted (value_name existing)) true;
      if r <? 0 then Ok (v :: l) else l' ← value_place v rest; Ok (existing :: l')
  end.

Definition CmpSetValue s a nm (type : Z) (data : list Z) : outcome (NTSTATUS * CM) :=
  n ← get_node s a;
  found ← CmpFindValue (values n) nm;
  '(copied, s) ← pool_copy s (Z.of_nat (length data));
  if negb copied then Ok (STATUS_INSUFFICIENT_RESOURCES, s) else
  match found with
  | None =>
      '(block, s) ← pool_allocate s SIZEOF_VALUE;
      if block =? 0 then Ok (STATUS_INSUFFICIENT_RESOURCES, s) else
      '(named, s) ← pool_copy s (2 * Z.of_nat (length nm));
      if negb named then Ok (STATUS_INSUFFICIENT_RESOURCES, s) else
      l ← value_place (mkVALUE nm type data) (values n);
      Ok (STATUS_SUCCESS, put_node s a (n <| values := l |> <| valueCount := valueCount n + 1 |>))
  | Some i =>
      v ← deref (values n !! i) "value";
      Ok (STATUS_SUCCESS, put_node s a (n <| values := <[i := mkVALUE (value_name v) type data]> (values n) |>))
  end.

Definition CmpFreeValues s a : outcome CM := n ← get_node s a; Ok (put_node s a (n <| values := [] |> <| valueCount := 0 |>)).

Definition CmpRemoveValue s a nm : outcome (bool * CM) :=
  n ← get_node s a;
  found ← CmpFindValue (values n) nm;
  match found with
  | None => Ok (false, s)
  | Some i => Ok (true, put_node s a (n <| values := delete i (values n) |> <| valueCount := valueCount n - 1 |>))
  end.

(** RemoveEntryList of a subkey. *)
Definition unlink_subkey s p a : outcome CM := h ← get_node s p; Ok (put_node s p (h <| subkeys := unlink a (subkeys h) |>)).

Definition CmpRenameNode s a newName : outcome (bool * CM) :=
  '(block, s) ← pool_allocate s (2 * Z.of_nat (length newName));
  if block =? 0 then Ok (false, s) else
  n ← get_node s a;
  let s := put_node s a (n <| name := newName |>) in
  s ← unlink_subkey s (parent n) a;
  s ← CmpLinkSubkeySorted s (parent n) a;
  Ok (true, s).

(** ** Paths *)

(** The units of the path from [relativeTo] (exclusive; 0: the absolute form) to [a]. *)
Fixpoint build_path s a (relativeTo : addr) (fuel : nat) : outcome (list Z) :=
  if (a =? 0) || (a =? relativeTo) then Ok [] else
  match fuel with
  | O => OutOfFuel
  | S fuel =>
      n ← get_node s a;
      used ← build_path s (parent n) relativeTo fuel;
      if bool_decide (name n = []) then Ok used else
      Ok (used ++ (if (relativeTo =? 0) || negb (bool_decide (used = [])) then [SEPARATOR] else []) ++ name n)
  end.

Definition CmpBuildPath s a relativeTo : outcome (list Z) := build_path s a relativeTo LEVELS.

(** Up to the first separator, and the rest from it on. *)
Fixpoint component path : list Z * list Z :=
  match path with
  | [] => ([], [])
  | c :: rest => if c =? SEPARATOR then ([], path) else let '(x, y) := component rest in (c :: x, y)
  end.

Fixpoint skip_separators path : list Z :=
  match path with
  | c :: rest => if c =? SEPARATOR then skip_separators rest else path
  | [] => []
  end.

Definition CmpNextComponent path : option (list Z * list Z) :=
  match skip_separators path with [] => None | path => Some (component path) end.

Definition CmpPathExhausted path : bool := forallb (fun c => c =? SEPARATOR) path.

(** Resolve the separated [path] under [start]; 0 is failure. *)
Fixpoint walk_path s a path (create : bool) (fuel : nat) : outcome (addr * CM) :=
  match path with
  | [] => Ok (a, s)
  | _ :: _ =>
      match fuel with
      | O => OutOfFuel
      | S fuel =>
          let '(segment, rest) := component path in
          if bool_decide (segment = []) then Ok (0, s) else
          child ← CmpFindSubkey s a segment;
          '(child, s) ← (if child =? 0 then if create then CmpAllocateNode s a segment else Ok (0, s) else Ok (child, s));
          if child =? 0 then Ok (0, s) else walk_path s child (tail rest) create fuel
      end
  end.

Definition CmpWalkPathCounted s start path (create : bool) : outcome (addr * CM) := walk_path s start path create (length path).
End tree.

(** ** Names

    Names are compared as RtlCompareUnicodeString does without case: by their
    folded units, then by length. *)

Section names.
Implicit Types nm : list Z.

Definition fold_name nm : list Z := unit_key true <$> nm.
Definition name_ok nm : Prop := Forall is_u16 nm /\ Z.of_nat (length nm) < 2 ^ 15.
Definition name_order nm nm' : Z := order (fold_name nm) (fold_name nm') (2 * Z.of_nat (length nm)) (2 * Z.of_nat (length nm')).

Lemma counted_string nm : name_ok nm -> string_ok (counted nm) /\ contents (counted nm) = nm.
Proof.
  intros [Hu Hl]. assert (E : 2 * Z.of_nat (length nm) / 2 = Z.of_nat (length nm)) by (rewrite Z.mul_comm; by apply Z.div_mul).
  split; [split; cbn|]; [unfold is_u16; lia|lia|done|]. unfold contents. cbn. rewrite E, Nat2Z.id. apply take_ge. done.
Qed.

Lemma compare_counted nm nm' : name_ok nm -> name_ok nm' -> RtlCompareUnicodeString (counted nm) (counted nm') true = Ok (name_order nm nm').
Proof.
  intros [H1 E1]%counted_string [H2 E2]%counted_string. rewrite RtlCompareUnicodeString_spec by done.
  unfold string_key. by rewrite E1, E2.
Qed.

Lemma folded_size nm : sized (fold_name nm) (2 * Z.of_nat (length nm)).
Proof. unfold sized, fold_name. rewrite length_fmap, Z.mul_comm. symmetry. by apply Z.div_mul. Qed.

Lemma name_order_zero nm nm' : name_order nm nm' = 0 <-> fold_name nm = fold_name nm'.
Proof.
  unfold name_order. rewrite order_zero by apply folded_size. split; [by intros [? _]|]. intros E. split; [done|].
  apply (f_equal length) in E. unfold fold_name in E. rewrite !length_fmap in E. by rewrite E.
Qed.

Lemma equal_counted nm nm' : name_ok nm -> name_ok nm' ->
  RtlEqualUnicodeString (counted nm) (counted nm') true = Ok (bool_decide (fold_name nm = fold_name nm')).
Proof.
  intros [H1 E1]%counted_string [H2 E2]%counted_string. rewrite RtlEqualUnicodeString_spec by done. unfold string_key. rewrite E1, E2. cbn [Length counted].
  change (order _ _ _ _) with (name_order nm nm'). f_equal. apply eq_true_iff_eq. by rewrite Z.eqb_eq, bool_decide_eq_true, name_order_zero.
Qed.

Lemma name_order_opp nm nm' : name_order nm' nm = - name_order nm nm'.
Proof. apply order_opp. Qed.

Lemma name_order_le nm1 nm2 nm3 : name_order nm1 nm2 <= 0 -> name_order nm2 nm3 <= 0 -> name_order nm1 nm3 <= 0.
Proof. apply order_trans; apply folded_size. Qed.

(** Sorts strictly before. *)
Definition name_before nm nm' : Prop := name_order nm nm' < 0.

Lemma name_before_trans nm1 nm2 nm3 : name_before nm1 nm2 -> name_before nm2 nm3 -> name_before nm1 nm3.
Proof.
  unfold name_before. intros H1 H2. pose proof (name_order_le nm1 nm2 nm3 ltac:(lia) ltac:(lia)) as H3.
  destruct (Z.eq_dec (name_order nm1 nm3) 0) as [E|]; [|lia]. exfalso.
  pose proof (name_order_le nm3 nm1 nm2 ltac:(rewrite name_order_opp; lia) ltac:(lia)) as H4. rewrite name_order_opp in H4. lia.
Qed.

Lemma name_before_irrefl nm nm' : fold_name nm = fold_name nm' -> ~ name_before nm nm'.
Proof. intros E%name_order_zero. unfold name_before. lia. Qed.

Lemma name_order_fold nm1 nm2 nm3 : fold_name nm1 = fold_name nm2 -> name_order nm1 nm3 = name_order nm2 nm3.
Proof.
  intros E. unfold name_order. rewrite E. do 2 f_equal. apply (f_equal length) in E. unfold fold_name in E. rewrite !length_fmap in E. by rewrite E.
Qed.
End names.

(** ** The shape of the tree *)

Section shape.
Context `{MACHINE}.
Implicit Types (s : CM) (a b p c x : addr) (n k : CMP_KEY_NODE) (v : CMP_VALUE) (nm path : list Z) (d : nat).

Definition value_ok v : Prop := name_ok (value_name v) /\ Forall is_u8 (value_data v) /\ Z.of_nat (length (value_data v)) < 2 ^ 32 /\ is_u32 (value_type v).
Definition value_before v v' : Prop := name_before (value_name v) (value_name v').

Record node_ok n : Prop := {
  nk_name : name_ok (name n);
  nk_values : Forall value_ok (values n);
  nk_sorted : StronglySorted value_before (values n);
  nk_subkeys : NoDup (subkeys n);
  nk_subkeyCount : subkeyCount n = Z.of_nat (length (subkeys n));
  nk_valueCount : valueCount n = Z.of_nat (length (values n));
  nk_time : is_s64 (lastWriteTime n);
}.

(** [d] levels, the key itself included. *)
Inductive depth s : addr -> nat -> Prop :=
  | depth_root a n : nodes s !! a = Some n -> parent n = 0 -> depth s a 1
  | depth_child a n d : nodes s !! a = Some n -> parent n <> 0 -> depth s (parent n) d -> depth s a (S d).

(** Every link has its counterpart, except that [x] need not be listed by its
    parent (0: no exception). *)
Record tree_ok x s : Prop := {
  tr_node : forall a n, nodes s !! a = Some n -> node_ok n;
  tr_child : forall p n c, nodes s !! p = Some n -> c ∈ subkeys n -> exists k, nodes s !! c = Some k /\ parent k = p;
  tr_listed : forall a n, nodes s !! a = Some n -> parent n <> 0 -> a <> x -> exists k, nodes s !! parent n = Some k /\ a ∈ subkeys k;
  tr_depth : forall a n, nodes s !! a = Some n -> exists d, (d <= 96)%nat /\ depth s a d;
  tr_fresh : forall a n, nodes s !! a = Some n -> 0 < a <= Z.of_nat (allocations s);
}.

Lemma depth_fun s a d d' : depth s a d -> depth s a d' -> d = d'.
Proof.
  intros Hd. revert d'. induction Hd as [a n E Hp|a n d E Hp _ IH]; intros d' Hd'; inversion Hd' as [? n' E'|? n' ? E' ? Hd'']; subst; try done;
    rewrite E in E'; injection E' as <-; try done. f_equal. by apply IH.
Qed.

Lemma depth_pos s a d : depth s a d -> (0 < d)%nat.
Proof. intros []; lia. Qed.

Lemma depth_ext s s' a d : (forall b n, nodes s !! b = Some n -> exists n', nodes s' !! b = Some n' /\ parent n' = parent n) -> depth s a d -> depth s' a d.
Proof.
  intros Hp. induction 1 as [a n E Hz|a n d E Hz _ IH]; destruct (Hp _ _ E) as (n' & E' & P).
  - apply (depth_root _ _ n'); congruence.
  - apply (depth_child _ _ n' d); congruence.
Qed.

Lemma depth_key_depth s a d fuel : (d <= fuel)%nat -> (forall b n, nodes s !! b = Some n -> b <> 0) -> depth s a d -> key_depth s a fuel = Ok (Z.of_nat d).
Proof.
  intros Hf H0 Hd. revert fuel Hf. induction Hd as [a n E Hz|a n d E Hz _ IH]; intros fuel Hf; (destruct fuel as [|fuel]; [lia|]); cbn [key_depth];
    (destruct (Z.eqb_spec a 0) as [->|_]; [by destruct (H0 _ _ E)|]); unfold get_node; rewrite E; run.
  - rewrite Hz. by destruct fuel.
  - rewrite IH by lia. run. f_equal. lia.
Qed.

Lemma tree_nonzero x s a n : tree_ok x s -> nodes s !! a = Some n -> a <> 0.
Proof. intros T E. pose proof (tr_fresh _ _ T _ _ E). lia. Qed.

Lemma key_depth_spec x s a n : tree_ok x s -> nodes s !! a = Some n -> exists d, (1 <= d <= 96)%nat /\ depth s a d /\ CmpKeyDepth s a = Ok (Z.of_nat d).
Proof.
  intros T E. destruct (tr_depth _ _ T _ _ E) as (d & Hd & D). exists d. pose proof (depth_pos _ _ _ D). split; [lia|]. split; [done|].
  apply depth_key_depth; [|intros; by eapply tree_nonzero|done]. change LEVELS with 97%nat. lia.
Qed.

Lemma child_depth x s p n c d : tree_ok x s -> nodes s !! p = Some n -> c ∈ subkeys n -> depth s p d -> depth s c (S d).
Proof.
  intros T E Hc D. destruct (tr_child _ _ T _ _ _ E Hc) as (k & Ek & P). apply (depth_child _ _ k); [done| |by rewrite P].
  rewrite P. by eapply tree_nonzero.
Qed.

(** Nothing below a key is the key, and siblings have one depth. *)
Lemma not_own_child x s p n : tree_ok x s -> nodes s !! p = Some n -> p ∉ subkeys n.
Proof.
  intros T E Hc. destruct (tr_depth _ _ T _ _ E) as (d & _ & D). pose proof (depth_fun _ _ _ _ D (child_depth _ _ _ _ _ _ T E Hc D)). lia.
Qed.

Lemma only_parent x s p q n k c : tree_ok x s -> nodes s !! p = Some n -> nodes s !! q = Some k -> c ∈ subkeys n -> c ∈ subkeys k -> p = q.
Proof.
  intros T Ep Eq Hp Hq. destruct (tr_child _ _ T _ _ _ Ep Hp) as (m & Em & <-), (tr_child _ _ T _ _ _ Eq Hq) as (m' & Em' & <-). congruence.
Qed.

(** ** Searches *)

Lemma find_subkey_spec x s nm l : tree_ok x s -> name_ok nm -> (forall c, c ∈ l -> is_Some (nodes s !! c)) -> exists r, find_subkey s nm l = Ok r /\
  (r = 0 /\ (forall c k, c ∈ l -> nodes s !! c = Some k -> fold_name (name k) <> fold_name nm) \/
   r ∈ l /\ exists k, nodes s !! r = Some k /\ fold_name (name k) = fold_name nm).
Proof.
  intros T Hn. induction l as [|c l IH]; intros Hl; [exists 0; split; [done|]; left; split; [done|]; by intros c k ?%not_elem_of_nil|].
  destruct (Hl c) as [k E]; [left|]. cbn [find_subkey]. unfold get_node. rewrite E. run.
  rewrite equal_counted by (done || apply (tr_node _ _ T _ _ E)). run. case_bool_decide as Hf.
  - exists c. split; [done|]. right. split; [left|]. eauto.
  - destruct IH as (r & Er & Hr); [intros; apply Hl; by right|]. exists r. split; [done|]. destruct Hr as [[-> Hr]|[Hr ?]]; [left|right]; (split; [by try right|]); [|done].
    intros c' k' [->|?]%elem_of_cons E'; [congruence|by eapply Hr].
Qed.

Lemma CmpFindSubkey_spec x s p n nm : tree_ok x s -> nodes s !! p = Some n -> name_ok nm -> exists r, CmpFindSubkey s p nm = Ok r /\
  (r = 0 /\ (forall c k, c ∈ subkeys n -> nodes s !! c = Some k -> fold_name (name k) <> fold_name nm) \/
   r <> 0 /\ r ∈ subkeys n /\ exists k, nodes s !! r = Some k /\ parent k = p /\ fold_name (name k) = fold_name nm).
Proof.
  intros T E Hn. unfold CmpFindSubkey, get_node. rewrite E. run. destruct (find_subkey_spec x s nm (subkeys n) T Hn) as (r & Er & Hr).
  { intros c Hc. destruct (tr_child _ _ T _ _ _ E Hc) as (k & ? & _). eauto. }
  exists r. split; [done|]. destruct Hr as [?|(Hr & k & Ek & Hk)]; [by left|right]. destruct (tr_child _ _ T _ _ _ E Hr) as (k' & Ek' & P).
  split; [by eapply tree_nonzero|]. split; [done|]. exists k. split; [done|]. split; [congruence|done].
Qed.

(** A place before everything that sorts after [nm], after everything that does not. *)
Lemma sorted_place_spec x s nm a l : tree_ok x s -> name_ok nm -> (forall c, c ∈ l -> is_Some (nodes s !! c)) -> exists l1 l2,
  sorted_place s nm a l = Ok (l1 ++ a :: l2) /\ l = l1 ++ l2 /\
  (forall c k, c ∈ l1 -> nodes s !! c = Some k -> ~ name_before nm (name k)) /\
  (forall c k, head l2 = Some c -> nodes s !! c = Some k -> name_before nm (name k)).
Proof.
  intros T Hn. induction l as [|c l IH]; intros Hl.
  { exists [], []. split; [done|]. split; [done|]. split; [by intros c k ?%not_elem_of_nil|done]. }
  destruct (Hl c) as [k E]; [left|]. cbn [sorted_place]. unfold get_node. rewrite E. run.
  rewrite compare_counted by (done || apply (tr_node _ _ T _ _ E)). run. destruct (Z.ltb_spec (name_order nm (name k)) 0) as [Hlt|Hge].
  - exists [], (c :: l). split; [done|]. split; [done|]. split; [by intros ? ? ?%not_elem_of_nil|]. intros c' k' [= <-] E'. by replace k' with k by congruence.
  - destruct IH as (l1 & l2 & -> & -> & H1 & H2); [intros; apply Hl; by right|]. run. exists (c :: l1), l2. split; [done|]. split; [done|]. split; [|done].
    intros c' k' [->|?]%elem_of_cons E'; [replace k' with k by congruence; unfold name_before; lia|by eapply H1].
Qed.

Lemma CmpFindValue_spec l nm : Forall value_ok l -> name_ok nm -> exists r, CmpFindValue l nm = Ok r /\
  match r with
  | None => forall v, v ∈ l -> fold_name (value_name v) <> fold_name nm
  | Some i => exists v, l !! i = Some v /\ fold_name (value_name v) = fold_name nm
  end.
Proof.
  intros Hl Hn. induction Hl as [|v l Hv Hl IH]; [exists None; split; [done|]; by intros v ?%not_elem_of_nil|].
  cbn [CmpFindValue]. rewrite equal_counted by (done || apply Hv). run. case_bool_decide as Hf; [exists (Some 0%nat); eauto|].
  destruct IH as (r & -> & Hr). run. exists (option_map S r). split; [done|]. destruct r as [i|]; [done|]. intros v' [->|?]%elem_of_cons; [done|by apply Hr].
Qed.

Lemma value_place_spec v l : value_ok v -> Forall value_ok l -> exists l1 l2, value_place v l = Ok (l1 ++ v :: l2) /\ l = l1 ++ l2 /\
  (forall w, w ∈ l1 -> ~ value_before v w) /\ (forall w, head l2 = Some w -> value_before v w).
Proof.
  intros Hv Hl. induction Hl as [|w l Hw Hl IH]; [exists [], []; split; [done|]; split; [done|]; split; [by intros w ?%not_elem_of_nil|done]|].
  cbn [value_place]. rewrite compare_counted by (apply Hv || apply Hw). run. destruct (Z.ltb_spec (name_order (value_name v) (value_name w)) 0) as [Hlt|Hge].
  - exists [], (w :: l). split; [done|]. split; [done|]. split; [by intros ? ?%not_elem_of_nil|]. by intros ? [= <-].
  - destruct IH as (l1 & l2 & -> & -> & H1 & H2). run. exists (w :: l1), l2. split; [done|]. split; [done|]. split; [|done].
    intros w' [->|?]%elem_of_cons; [unfold value_before, name_before; lia|by apply H1].
Qed.
End shape.

(** ** Changes to the tree *)

Section changes.
Context `{MACHINE}.
Implicit Types (s : CM) (a b p c x : addr) (n k h : CMP_KEY_NODE) (d : nat).

Lemma tree_ext x s s' : nodes s' = nodes s -> (allocations s <= allocations s')%nat -> tree_ok x s -> tree_ok x s'.
Proof.
  intros E A T. split; rewrite ?E; [apply T|apply T|apply T| |].
  - intros a n Ea. destruct (tr_depth _ _ T _ _ Ea) as (d & Hd & D). exists d. split; [done|]. eapply depth_ext; [|done]. intros b k Eb. exists k. by rewrite E.
  - intros a n Ea. pose proof (tr_fresh _ _ T _ _ Ea). lia.
Qed.

Lemma weaken_tree x s : tree_ok 0 s -> tree_ok x s.
Proof. intros [H1 H2 H3 H4 H5]. split; try done. intros a n E Hp _. apply (H3 _ _ E Hp). pose proof (H5 _ _ E). lia. Qed.

(** A node rewritten in place. *)
Lemma put_info_tree x s a n n' : tree_ok x s -> nodes s !! a = Some n -> parent n' = parent n -> subkeys n' = subkeys n -> node_ok n' -> tree_ok x (put_node s a n').
Proof.
  intros T E Hp Hs Hn'. assert (K : forall b k, nodes (put_node s a n') !! b = Some k -> exists k', nodes s !! b = Some k' /\ parent k' = parent k /\ subkeys k' = subkeys k).
  { cbn. intros b k [(<- & <-)|(Hne & Eb)]%lookup_insert_Some; eauto. }
  assert (K' : forall b k, nodes s !! b = Some k -> exists k', nodes (put_node s a n') !! b = Some k' /\ parent k' = parent k /\ subkeys k' = subkeys k).
  { cbn. intros b k Eb. destruct (decide (a = b)) as [<-|]; [rewrite lookup_insert_eq|rewrite lookup_insert_ne by done; eauto].
    replace k with n by congruence. eauto. }
  split.
  - cbn. intros b k [(<- & <-)|(Hne & Eb)]%lookup_insert_Some; [done|by eapply tr_node].
  - intros q k c (k' & Ek' & _ & Sk)%K Hc. rewrite <- Sk in Hc. destruct (tr_child _ _ T _ _ _ Ek' Hc) as (m & Em & Hm).
    destruct (K' _ _ Em) as (m' & Em' & Pm & _). exists m'. split; [done|congruence].
  - intros b k (k' & Ek' & Pk & _)%K Hb Hx. rewrite <- Pk in *. destruct (tr_listed _ _ T _ _ Ek' Hb Hx) as (m & Em & Hm).
    destruct (K' _ _ Em) as (m' & Em' & _ & Sm). exists m'. split; [done|]. by rewrite Sm.
  - intros b k (k' & Ek' & _)%K. destruct (tr_depth _ _ T _ _ Ek') as (d & Hd & D). exists d. split; [done|]. eapply depth_ext; [|done].
    intros c m (m' & Em' & Pm & _)%K'. eauto.
  - intros b k (k' & Ek' & _)%K. by apply (tr_fresh _ _ T _ _ Ek').
Qed.

(** A new node linked under [p]. *)
Lemma link_tree x s p h a n l1 l2 d : tree_ok x s -> nodes s !! p = Some h -> subkeys h = l1 ++ l2 -> depth s p d -> (d < 96)%nat ->
  nodes s !! a = None -> 0 < a <= Z.of_nat (allocations s) -> node_ok n -> parent n = p -> subkeys n = [] ->
  tree_ok x (put_node (put_node s a n) p (h <| subkeys := l1 ++ a :: l2 |> <| subkeyCount := subkeyCount h + 1 |>)).
Proof.
  intros T Ep Hl D Hd Ea Ha Hn Hp Hs. set (h' := set_field subkeyCount _ _). set (s' := put_node _ _ _).
  assert (Hpa : p <> a) by congruence. assert (Hp0 : p <> 0) by (by eapply tree_nonzero).
  assert (Hfresh : forall q m, nodes s !! q = Some m -> a ∉ subkeys m). { intros q m Eq Hc. destruct (tr_child _ _ T _ _ _ Eq Hc) as (? & ? & _). congruence. }
  assert (K' : forall b k, nodes s !! b = Some k -> exists k', nodes s' !! b = Some k' /\ parent k' = parent k /\ (forall c, c ∈ subkeys k -> c ∈ subkeys k')).
  { cbn. intros b k Eb. destruct (decide (p = b)) as [<-|Hne].
    - rewrite lookup_insert_eq. replace k with h by congruence. exists h'. split; [done|]. split; [done|]. cbn. rewrite Hl. intros c. rewrite !elem_of_app, elem_of_cons. tauto.
    - rewrite lookup_insert_ne, lookup_insert_ne by congruence. eauto. }
  assert (Dall : forall b m, depth s b m -> depth s' b m). { intros b m. apply depth_ext. intros c k (k' & ? & ? & _)%K'. eauto. }
  assert (K : forall b k, nodes s' !! b = Some k -> b = p /\ k = h' \/ b = a /\ k = n \/ b <> p /\ b <> a /\ nodes s !! b = Some k).
  { cbn. intros b k [(<- & <-)|(Hne & [(<- & <-)|(Hne' & Eb)]%lookup_insert_Some)]%lookup_insert_Some; [by left|by right; left|]. right; right. done. }
  destruct (tr_node _ _ T _ _ Ep) as [H1 H2 H3 H4 H5 H6 H7]. split.
  - intros b k [(-> & ->)|[(-> & ->)|(_ & _ & Eb)]]%K; [|done|by eapply tr_node]. split; try done; cbn.
    + rewrite Hl in H4. apply NoDup_app in H4 as (N1 & N2 & N3). pose proof (Hfresh _ _ Ep) as Hf. rewrite Hl, elem_of_app in Hf.
      apply NoDup_app. split; [done|]. split; [intros c Hc [->|?]%elem_of_cons; [tauto|by apply (N2 c)]|]. apply NoDup_cons. tauto.
    + rewrite H5, Hl, !length_app. cbn. lia.
  - intros q k c [(-> & ->)|[(-> & ->)|(Hq1 & Hq2 & Eq)]]%K Hc; [|by rewrite Hs in Hc; apply not_elem_of_nil in Hc|].
    + cbn in Hc. rewrite elem_of_app, elem_of_cons in Hc. destruct (decide (c = a)) as [->|Hca].
      * exists n. split; [cbn; by rewrite lookup_insert_ne, lookup_insert_eq|done].
      * destruct (tr_child _ _ T _ _ c Ep) as (k & Ek & Pk); [rewrite Hl; apply elem_of_app; tauto|]. destruct (K' _ _ Ek) as (k' & ? & ? & _). exists k'. split; [done|congruence].
    + destruct (tr_child _ _ T _ _ c Eq Hc) as (m & Em & Pm). destruct (K' _ _ Em) as (m' & ? & ? & _). exists m'. split; [done|congruence].
  - intros b k [(-> & ->)|[(-> & ->)|(_ & _ & Eb)]]%K Hb Hx.
    + cbn in Hb. destruct (tr_listed _ _ T _ _ Ep Hb Hx) as (m & Em & Hm). destruct (K' _ _ Em) as (m' & ? & _ & Hi). exists m'. split; [done|by apply Hi].
    + rewrite Hp. exists h'. split; [cbn; by rewrite lookup_insert_eq|]. cbn. rewrite elem_of_app, elem_of_cons. tauto.
    + destruct (tr_listed _ _ T _ _ Eb Hb Hx) as (m & Em & Hm). destruct (K' _ _ Em) as (m' & ? & _ & Hi). exists m'. split; [done|by apply Hi].
  - intros b k [(-> & ->)|[(-> & ->)|(_ & _ & Eb)]]%K.
    + exists d. split; [lia|by apply Dall].
    + exists (S d). split; [lia|]. apply (depth_child _ _ n); [cbn; by rewrite lookup_insert_ne, lookup_insert_eq|congruence|]. rewrite Hp. by apply Dall.
    + destruct (tr_depth _ _ T _ _ Eb) as (m & Hm & Dm). eauto.
  - intros b k [(-> & ->)|[(-> & ->)|(_ & _ & Eb)]]%K; [by apply (tr_fresh _ _ T _ _ Ep)|done|by apply (tr_fresh _ _ T _ _ Eb)].
Qed.

(** [a] taken out of its parent's list and made a root of its own. *)
Lemma detach_tree x s p h a n n' : tree_ok x s -> nodes s !! p = Some h -> a ∈ subkeys h -> nodes s !! a = Some n ->
  parent n' = 0 -> subkeys n' = subkeys n -> node_ok n' ->
  tree_ok x (put_node (put_node s p (h <| subkeys := unlink a (subkeys h) |> <| subkeyCount := subkeyCount h - 1 |>)) a n').
Proof.
  intros T Ep Ha Ea Hp Hs Hn'. set (h' := set_field subkeyCount _ _). set (s' := put_node _ _ _).
  destruct (tr_child _ _ T _ _ _ Ep Ha) as (n1 & En1 & Hpn). replace n1 with n in * by congruence. clear n1 En1.
  assert (Hpa : p <> a) by (intros ->; by destruct (not_own_child _ _ _ _ T Ep)).
  assert (K : forall b k, nodes s' !! b = Some k -> b = a /\ k = n' \/ b = p /\ k = h' \/ b <> p /\ b <> a /\ nodes s !! b = Some k).
  { cbn. intros b k [(<- & <-)|(Hne & [(<- & <-)|(Hne' & Eb)]%lookup_insert_Some)]%lookup_insert_Some; [by left|by right; left|]. right; right. done. }
  assert (K' : forall b k, nodes s !! b = Some k -> b <> a -> exists k', nodes s' !! b = Some k' /\ parent k' = parent k /\ (forall c, c ∈ subkeys k -> c <> a -> c ∈ subkeys k')).
  { cbn. intros b k Eb Hne. rewrite lookup_insert_ne by done. destruct (decide (p = b)) as [<-|]; [rewrite lookup_insert_eq|rewrite lookup_insert_ne by done; eauto].
    replace k with h by congruence. exists h'. split; [done|]. split; [done|]. intros c Hc Hca. cbn. by apply elem_of_unlink. }
  assert (Ka : nodes s' !! a = Some n') by (cbn; by rewrite lookup_insert_eq).
  assert (Dall : forall b m, depth s b m -> exists m', (m' <= m)%nat /\ depth s' b m').
  { intros b m. induction 1 as [b k Eb Hz|b k m Eb Hz _ (m' & Hm & IH)]; (destruct (decide (b = a)) as [->|Hne]; [exists 1%nat; split; [lia|by apply (depth_root _ _ n')]|]);
      destruct (K' _ _ Eb Hne) as (k' & Ek' & Pk & _).
    - exists 1%nat. split; [lia|]. apply (depth_root _ _ k'); congruence.
    - exists (S m'). split; [lia|]. apply (depth_child _ _ k'); congruence. }
  destruct (tr_node _ _ T _ _ Ep) as [H1 H2 H3 H4 H5 H6 H7]. split.
  - intros b k [(-> & ->)|[(-> & ->)|(_ & _ & Eb)]]%K; [done| |by eapply tr_node]. split; try done; cbn; [by apply NoDup_unlink|].
    rewrite H5, (length_unlink a (subkeys h)) by done. lia.
  - intros q k c [(-> & ->)|[(-> & ->)|(Hq1 & Hq2 & Eq)]]%K Hc.
    + rewrite Hs in Hc. destruct (tr_child _ _ T _ _ c Ea Hc) as (m & Em & Pm). destruct (decide (c = a)) as [->|Hca]; [by destruct (not_own_child _ _ _ _ T Ea)|].
      destruct (K' _ _ Em Hca) as (m' & ? & ? & _). exists m'. split; [done|congruence].
    + cbn in Hc. apply elem_of_unlink in Hc as [Hc Hca]. destruct (tr_child _ _ T _ _ c Ep Hc) as (m & Em & Pm).
      destruct (K' _ _ Em Hca) as (m' & ? & ? & _). exists m'. split; [done|congruence].
    + assert (Hca : c <> a). { intros ->. apply Hq1. exact (only_parent _ _ _ _ _ _ _ T Eq Ep Hc Ha). }
      destruct (tr_child _ _ T _ _ c Eq Hc) as (m & Em & Pm). destruct (K' _ _ Em Hca) as (m' & ? & ? & _). exists m'. split; [done|congruence].
  - intros b k Eb' Hb Hx. assert (Hba : b <> a) by (intros ->; congruence).
    assert (L : exists k0, nodes s !! b = Some k0 /\ parent k0 = parent k). { apply K in Eb' as [(-> & _)|[(-> & ->)|(_ & _ & Eb)]]; [done|exists h; done|eauto]. }
    destruct L as (k0 & Ek0 & Pk0). rewrite <- Pk0 in *. destruct (tr_listed _ _ T _ _ Ek0 Hb Hx) as (m & Em & Hm).
    destruct (decide (parent k0 = a)) as [Epa|Hpa'].
    + rewrite Epa in *. exists n'. split; [done|]. rewrite Hs. by replace n with m by congruence.
    + destruct (K' _ _ Em Hpa') as (m' & ? & _ & Hi). exists m'. split; [done|]. by apply Hi.
  - intros b k [(-> & ->)|[(-> & ->)|(_ & _ & Eb)]]%K; [exists 1%nat; split; [lia|by apply (depth_root _ _ n')]| |];
      [destruct (tr_depth _ _ T _ _ Ep) as (m & Hm & Dm)|destruct (tr_depth _ _ T _ _ Eb) as (m & Hm & Dm)]; destruct (Dall _ _ Dm) as (m' & ? & ?); exists m'; (split; [lia|done]).
  - intros b k [(-> & ->)|[(-> & ->)|(_ & _ & Eb)]]%K; [by apply (tr_fresh _ _ T _ _ Ea)|by apply (tr_fresh _ _ T _ _ Ep)|by apply (tr_fresh _ _ T _ _ Eb)].
Qed.

(** A root without subkeys freed; [x] is not its child. *)
Lemma drop_tree x s a n : tree_ok x s -> nodes s !! a = Some n -> parent n = 0 -> subkeys n = [] ->
  (forall k, nodes s !! x = Some k -> parent k <> a) -> tree_ok x (drop_node s a).
Proof.
  intros T Ea Hp Hs Hx. assert (Hno : forall b k, nodes s !! b = Some k -> parent k <> a).
  { intros b k Eb Pb. destruct (decide (b = x)) as [->|Hne]; [by apply (Hx k)|]. destruct (tr_listed _ _ T _ _ Eb) as (m & Em & Hm); [rewrite Pb; by eapply tree_nonzero|done|].
    rewrite Pb in Em. replace m with n in Hm by congruence. rewrite Hs in Hm. by apply not_elem_of_nil in Hm. }
  assert (Hin : forall q m, nodes s !! q = Some m -> a ∉ subkeys m). { intros q m Eq Hc. destruct (tr_child _ _ T _ _ _ Eq Hc) as (k & Ek & Pk). replace k with n in Pk by congruence. pose proof (tree_nonzero _ _ _ _ T Eq). congruence. }
  assert (Dall : forall b m, depth s b m -> b <> a -> depth (drop_node s a) b m).
  { intros b m. induction 1 as [b k Eb Hz|b k m Eb Hz D IH]; intros Hne.
    - apply (depth_root _ _ k); [cbn; by rewrite lookup_delete_ne|done].
    - apply (depth_child _ _ k); [cbn; by rewrite lookup_delete_ne|done|]. apply IH. by apply (Hno _ _ Eb). }
  split; cbn.
  - intros b k [_ Eb]%lookup_delete_Some. by eapply tr_node.
  - intros q k c [Hq Eq]%lookup_delete_Some Hc. destruct (tr_child _ _ T _ _ _ Eq Hc) as (m & Em & Pm). exists m. split; [|done]. rewrite lookup_delete_ne; [done|].
    intros <-. by apply (Hin _ _ Eq).
  - intros b k [Hb Eb]%lookup_delete_Some Hz Hbx. destruct (tr_listed _ _ T _ _ Eb Hz Hbx) as (m & Em & Hm). exists m. split; [|done].
    rewrite lookup_delete_ne; [done|]. intros E. by apply (Hno _ _ Eb).
  - intros b k [Hb Eb]%lookup_delete_Some. destruct (tr_depth _ _ T _ _ Eb) as (m & Hm & Dm). exists m. split; [done|]. apply Dall; congruence.
  - intros b k [_ Eb]%lookup_delete_Some. by apply (tr_fresh _ _ T _ _ Eb).
Qed.

(** The parent's list reordered. *)
Lemma reorder_tree x s p h l : tree_ok x s -> nodes s !! p = Some h -> l ≡ₚ subkeys h -> tree_ok x (put_node s p (h <| subkeys := l |>)).
Proof.
  intros T Ep Hl. set (h' := set_field subkeys _ _).
  assert (K : forall b k, nodes (put_node s p h') !! b = Some k -> exists k', nodes s !! b = Some k' /\ parent k' = parent k /\ (forall c, c ∈ subkeys k <-> c ∈ subkeys k')).
  { cbn. intros b k [(<- & <-)|(Hne & Eb)]%lookup_insert_Some; [|eauto]. exists h. split; [done|]. split; [done|]. intros c. cbn. by rewrite Hl. }
  assert (K' : forall b k, nodes s !! b = Some k -> exists k', nodes (put_node s p h') !! b = Some k' /\ parent k' = parent k /\ (forall c, c ∈ subkeys k <-> c ∈ subkeys k')).
  { cbn. intros b k Eb. destruct (decide (p = b)) as [<-|]; [rewrite lookup_insert_eq|rewrite lookup_insert_ne by done; eauto].
    replace k with h by congruence. exists h'. split; [done|]. split; [done|]. intros c. cbn. by rewrite Hl. }
  split.
  - cbn. intros b k [(<- & <-)|(Hne & Eb)]%lookup_insert_Some; [|by eapply tr_node]. destruct (tr_node _ _ T _ _ Ep) as [H1 H2 H3 H4 H5 H6 H7].
    split; try done; cbn; [by rewrite Hl|]. by rewrite H5, Hl.
  - intros q k c (k' & Ek' & _ & Sk)%K Hc. destruct (tr_child _ _ T _ _ c Ek') as (m & Em & Hm); [by apply Sk|].
    destruct (K' _ _ Em) as (m' & Em' & Pm & _). exists m'. split; [done|congruence].
  - intros b k (k' & Ek' & Pk & _)%K Hb Hx. rewrite <- Pk in *. destruct (tr_listed _ _ T _ _ Ek' Hb Hx) as (m & Em & Hm).
    destruct (K' _ _ Em) as (m' & Em' & _ & Sm). exists m'. split; [done|by apply Sm].
  - intros b k (k' & Ek' & _)%K. destruct (tr_depth _ _ T _ _ Ek') as (d & Hd & D). exists d. split; [done|]. eapply depth_ext; [|done].
    intros c m (m' & Em' & Pm & _)%K'. eauto.
  - intros b k (k' & Ek' & _)%K. by apply (tr_fresh _ _ T _ _ Ek').
Qed.
End changes.

(** ** The primitives *)

Section primitives.
Context `{MACHINE}.
Implicit Types (s : CM) (a b p c x : addr) (n k h : CMP_KEY_NODE) (v : CMP_VALUE) (nm path : list Z) (d : nat).

Lemma get_Some s a n : nodes s !! a = Some n -> get_node s a = Ok n.
Proof. unfold get_node. by intros ->. Qed.

Lemma get_put_eq s a n : get_node (put_node s a n) a = Ok n.
Proof. apply get_Some. cbn. by rewrite lookup_insert_eq. Qed.

Lemma get_put_ne s a b n : a <> b -> get_node (put_node s a n) b = get_node s b.
Proof. intros Hne. unfold get_node. cbn. by rewrite lookup_insert_ne. Qed.

(** The pool never runs out. *)
Definition plenty : Prop := forall i, pool_answers i = true.

Definition new_node p nm (time : Z) : CMP_KEY_NODE := mkNODE p [] [] 0 0 time 0 false false false nm.

Lemma new_node_ok p nm t : name_ok nm -> is_s64 t -> node_ok (new_node p nm t).
Proof. intros Hn Ht. split; cbn; [done|constructor|constructor|constructor|done|done|done]. Qed.

Lemma pool_copy_spec s bytes : exists (ok : bool) s', pool_copy s bytes = Ok (ok, s') /\ nodes s' = nodes s /\ (allocations s <= allocations s')%nat /\ notified s' = notified s /\
  (plenty -> ok = true).
Proof.
  unfold pool_copy, pool_allocate. destruct (bytes =? 0); [by exists true, s|]. run. do 2 eexists. split; [done|]. split; [done|]. split; [cbn; lia|]. split; [done|].
  intros P. by rewrite P.
Qed.

(** A linked node, as the list sees it. *)
Definition linked s p h a nm (l : list addr) : Prop := exists l1 l2, l = l1 ++ a :: l2 /\ subkeys h = l1 ++ l2 /\
  (forall c k, c ∈ l1 -> nodes s !! c = Some k -> ~ name_before nm (name k)) /\
  (forall c k, head l2 = Some c -> nodes s !! c = Some k -> name_before nm (name k)).

Lemma CmpAllocateNode_spec x s p h nm : tree_ok x s -> nodes s !! p = Some h -> name_ok nm -> exists a s', CmpAllocateNode s p nm = Ok (a, s') /\
  tree_ok x s' /\ (allocations s <= allocations s')%nat /\ notified s' = notified s /\
  (a = 0 /\ nodes s' = nodes s \/
   a <> 0 /\ nodes s !! a = None /\ Z.of_nat (allocations s) < a /\ exists l t, linked s p h a nm l /\
     nodes s' = <[p := h <| subkeys := l |> <| subkeyCount := subkeyCount h + 1 |>]> (<[a := new_node p nm t]> (nodes s))) /\
  (plenty -> forall d, depth s p d -> (d < 96)%nat -> a <> 0).
Proof.
  intros T Ep Hn. destruct (key_depth_spec _ _ _ _ T Ep) as (d & Hd & D & Hk). unfold CmpAllocateNode. rewrite Hk. run.
  destruct (Z.leb_spec CMP_HIVE_MAX_DEPTH (Z.of_nat d)) as [Hmax|Hmax]; unfold CMP_HIVE_MAX_DEPTH in Hmax.
  { exists 0, s. split; [done|]. split; [done|]. split; [lia|]. split; [done|]. split; [by left|]. intros _ d' D' Hd'. pose proof (depth_fun _ _ _ _ D D'). lia. }
  unfold pool_allocate. change (SIZEOF_NODE =? 0) with false. cbn iota. run. destruct (pool_answers (allocations s)) eqn:Hp.
  2: { do 2 eexists. split; [done|]. split; [eapply (tree_ext _ s); [done|cbn; lia|done]|]. split; [cbn; lia|]. split; [done|]. split; [by left|]. intros P. by rewrite P in Hp. }
  set (a := Z.of_nat (S (allocations s))). destruct (Z.eqb_spec a 0) as [|_]; [lia|].
  set (s1 := set_field allocations _ s). destruct (pool_copy_spec s1 (2 * Z.of_nat (length nm))) as (b & s2 & -> & N2 & A2 & W2 & P2). run.
  assert (T2 : tree_ok x s2) by (eapply (tree_ext _ s); [exact N2|cbn in *; lia|done]). assert (A2' : (S (allocations s) <= allocations s2)%nat) by exact A2.
  destruct b; cbn [negb].
  2: { do 2 eexists. split; [done|]. split; [done|]. split; [lia|]. split; [done|]. split; [by left|]. intros P. by specialize (P2 P). }
  unfold CmpNow. cbn iota beta. set (t := s64 (interrupt_time (reads s2))). set (s3 := set_field reads _ s2).
  destruct (Z.eqb_spec p 0) as [->|_]; [by destruct (tree_nonzero _ _ _ _ T Ep)|]. change (mkNODE p [] [] 0 0 t 0 false false false nm) with (new_node p nm t).
  assert (T3 : tree_ok x s3) by (by apply (tree_ext _ s2)). assert (N3 : nodes s3 = nodes s) by exact N2.
  assert (Ea : nodes s !! a = None). { destruct (nodes s !! a) as [k|] eqn:E; [|done]. pose proof (tr_fresh _ _ T _ _ E). lia. }
  assert (Hpa : a <> p) by congruence.
  assert (Ep3 : nodes s3 !! p = Some h) by (by rewrite N3).
  unfold CmpLinkSubkeySorted. rewrite get_put_eq, get_put_ne, (get_Some _ _ _ Ep3) by done. run. change (name (new_node p nm t)) with nm.
  assert (Hsub : forall c, c ∈ subkeys h -> c <> a). { intros c Hc ->. destruct (tr_child _ _ T _ _ _ Ep Hc) as (? & ? & _). congruence. }
  assert (Hplace : forall l, (forall c, c ∈ l -> c <> a) -> sorted_place (put_node s3 a (new_node p nm t)) nm a l = sorted_place s3 nm a l).
  { intros l. induction l as [|c l IH]; intros Hl; [done|]. cbn [sorted_place].
    assert (G : get_node (put_node s3 a (new_node p nm t)) c = get_node s3 c) by (apply get_put_ne, not_eq_sym, Hl; left).
    rewrite G, IH by (intros; apply Hl; by right). done. }
  rewrite Hplace by done.
  destruct (sorted_place_spec x s3 nm a (subkeys h) T3 Hn) as (l1 & l2 & -> & Hl & O1 & O2).
  { intros c Hc. rewrite N3. destruct (tr_child _ _ T _ _ _ Ep Hc) as (? & ? & _). eauto. }
  run. rewrite get_put_eq. run.
  do 2 eexists. split; [done|]. assert (Nf : forall q, nodes (put_node (put_node (put_node s3 a (new_node p nm t)) p (h <| subkeys := l1 ++ a :: l2 |>)) p q) = <[p := q]> (<[a := new_node p nm t]> (nodes s))).
  { intros q. cbn. rewrite insert_insert_eq. by rewrite N2. }
  split.
  { eapply (tree_ext _ (put_node (put_node s3 a (new_node p nm t)) p (h <| subkeys := l1 ++ a :: l2 |> <| subkeyCount := subkeyCount h + 1 |>))); [|cbn; lia|].
    - rewrite Nf. cbn. by rewrite N2.
    - eapply (link_tree _ _ _ _ _ _ _ _ d T3); try done; [eapply depth_ext; [|exact D]; intros; rewrite N3; eauto|lia|by rewrite N3|cbn; lia|apply new_node_ok; [done|apply s64_range]]. }
  split; [cbn; lia|]. split; [by cbn; rewrite W2|]. split; [|lia]. right. split; [lia|]. split; [done|]. split; [lia|]. exists (l1 ++ a :: l2), t. split; [|apply Nf].
  exists l1, l2. split; [done|]. split; [done|]. rewrite N3 in O1, O2. done.
Qed.

(** ** Values *)

(** The list after a set; [found]: the entry of that name. *)
Definition value_set (l : list CMP_VALUE) nm (type : Z) data (l' : list CMP_VALUE) : Prop :=
  (exists i v, l !! i = Some v /\ fold_name (value_name v) = fold_name nm /\ l' = <[i := mkVALUE (value_name v) type data]> l) \/
  (forall v, v ∈ l -> fold_name (value_name v) <> fold_name nm) /\
  exists l1 l2, l = l1 ++ l2 /\ l' = l1 ++ mkVALUE nm type data :: l2 /\ (forall w, w ∈ l1 -> ~ name_before nm (value_name w)) /\
    (forall w, head l2 = Some w -> name_before nm (value_name w)).

Lemma not_before nm nm' : fold_name nm <> fold_name nm' -> ~ name_before nm nm' -> name_before nm' nm.
Proof. intros Hf Hb. unfold name_before in *. rewrite name_order_opp. assert (name_order nm nm' <> 0) by (by rewrite name_order_zero). lia. Qed.

Lemma value_before_trans v1 v2 v3 : value_before v1 v2 -> value_before v2 v3 -> value_before v1 v3.
Proof. apply name_before_trans. Qed.

(** Sorted insertion keeps a sorted list sorted. *)
Lemma sorted_middle {A} (R : A -> A -> Prop) (l1 l2 : list A) (v : A) : (forall u w z, R u w -> R w z -> R u z) -> StronglySorted R (l1 ++ l2) ->
  (forall w, w ∈ l1 -> R w v) -> (forall w, head l2 = Some w -> R v w) -> StronglySorted R (l1 ++ v :: l2).
Proof.
  intros Ht. induction l1 as [|w l1 IH]; cbn; intros Hs H1 H2.
  - constructor; [done|]. destruct l2 as [|w l2]; [constructor|]. apply StronglySorted_inv in Hs as [Hs Hw]. pose proof (H2 w eq_refl) as Hv. constructor; [done|].
    eapply Forall_impl; [exact Hw|]. intros u Hu. by eapply Ht.
  - apply StronglySorted_inv in Hs as [Hs Hw]. constructor; [apply IH; [done|intros; apply H1; by right|done]|].
    apply Forall_app in Hw as [Hw1 Hw2]. apply Forall_app. split; [done|]. constructor; [apply H1; left|done].
Qed.

Lemma sorted_replace (l : list CMP_VALUE) i v t data : StronglySorted value_before l -> l !! i = Some v -> StronglySorted value_before (<[i := mkVALUE (value_name v) t data]> l).
Proof.
  revert i. induction l as [|w l IH]; intros [|i] Hs Hi; [done|done| |]; apply StronglySorted_inv in Hs as [Hs Hw]; cbn in *.
  - injection Hi as ->. constructor; [done|]. eapply Forall_impl; [exact Hw|done].
  - constructor; [by apply IH|]. apply Forall_insert; [done|]. rewrite Forall_forall in Hw. exact (Hw v (list_elem_of_lookup_2 _ _ _ Hi)).
Qed.

Lemma value_set_ok l nm t data l' : Forall value_ok l -> StronglySorted value_before l -> value_ok (mkVALUE nm t data) -> value_set l nm t data l' ->
  Forall value_ok l' /\ StronglySorted value_before l'.
Proof.
  intros Hl Hs Hv [(i & v & Hi & Hf & ->)|(Hnew & l1 & l2 & -> & -> & H1 & H2)].
  - split; [|by apply sorted_replace]. apply Forall_insert; [done|]. pose proof (Forall_lookup_1 _ _ _ _ Hl Hi) as [? _]. destruct Hv as (_ & ?). done.
  - apply Forall_app in Hl as [Hl1 Hl2]. split; [apply Forall_app; split; [done|by constructor]|].
    apply sorted_middle; [apply value_before_trans|done| |done]. intros w Hw. apply not_before; [|by apply H1]. apply not_eq_sym, Hnew, elem_of_app. by left.
Qed.

Lemma node_values_ok n l : node_ok n -> Forall value_ok l -> StronglySorted value_before l -> node_ok (n <| values := l |> <| valueCount := Z.of_nat (length l) |>).
Proof. intros [? ? ? ? ? ? ?] Hl Hs. by split. Qed.

Lemma set_node_eq n l m : valueCount n = m -> n <| values := l |> = n <| values := l |> <| valueCount := m |>.
Proof. intros <-. done. Qed.

Lemma CmpSetValue_spec x s a n nm t data : tree_ok x s -> nodes s !! a = Some n -> value_ok (mkVALUE nm t data) -> exists status s', CmpSetValue s a nm t data = Ok (status, s') /\
  tree_ok x s' /\ (allocations s <= allocations s')%nat /\ notified s' = notified s /\
  (status = STATUS_INSUFFICIENT_RESOURCES /\ nodes s' = nodes s \/
   status = STATUS_SUCCESS /\ exists l, value_set (values n) nm t data l /\ nodes s' = <[a := n <| values := l |> <| valueCount := Z.of_nat (length l) |>]> (nodes s)) /\
  (plenty -> status = STATUS_SUCCESS).
Proof.
  intros T E Hv. pose proof (tr_node _ _ T _ _ E) as Hn. destruct Hn as [Hn1 Hn2 Hn3 Hn4 Hn5 Hn6 Hn7].
  unfold CmpSetValue, get_node. rewrite E. run. destruct (CmpFindValue_spec (values n) nm Hn2 ltac:(apply Hv)) as (r & -> & Hr). run.
  destruct (pool_copy_spec s (Z.of_nat (length data))) as (b & s1 & -> & N1 & A1 & W1 & P1). run.
  assert (T1 : tree_ok x s1) by (eapply tree_ext; [exact N1|lia|done]).
  destruct b; cbn [negb].
  2: { do 2 eexists. split; [done|]. split; [done|]. split; [lia|]. split; [done|]. split; [by left|]. intros P. by specialize (P1 P). }
  assert (Fin : forall s2 l, nodes s2 = nodes s -> (allocations s1 <= allocations s2)%nat -> value_set (values n) nm t data l ->
    tree_ok x (put_node s2 a (n <| values := l |> <| valueCount := Z.of_nat (length l) |>))).
  { intros s2 l N2 A2 Hset. destruct (value_set_ok _ _ _ _ _ Hn2 Hn3 Hv Hset). eapply put_info_tree; [eapply (tree_ext _ s); [done|lia|done]|by rewrite N2|done|done|by apply node_values_ok]. }
  destruct r as [i|].
  - destruct Hr as (v & Hi & Hf). rewrite Hi. run. assert (Hset : value_set (values n) nm t data (<[i := mkVALUE (value_name v) t data]> (values n))) by (left; eauto).
    rewrite (set_node_eq _ _ _ Hn6). replace (Z.of_nat (length (values n))) with (Z.of_nat (length (<[i := mkVALUE (value_name v) t data]> (values n)))) by (by rewrite length_insert).
    do 2 eexists. split; [done|]. split; [by apply Fin|]. split; [cbn; lia|]. split; [by rewrite <- W1|]. split; [|done]. right. split; [done|]. eexists. split; [exact Hset|]. cbn. by rewrite N1.
  - unfold pool_allocate. change (SIZEOF_VALUE =? 0) with false. cbn iota. run. destruct (pool_answers (allocations s1)) eqn:Hp.
    2: { do 2 eexists. split; [done|]. split; [apply (tree_ext _ s1); [done|cbn; lia|done]|]. split; [cbn; lia|]. split; [done|]. split; [left; done|]. intros P. by rewrite P in Hp. }
    destruct (Z.eqb_spec (Z.of_nat (S (allocations s1))) 0) as [|_]; [lia|]. set (s2 := set_field allocations _ s1).
    destruct (pool_copy_spec s2 (2 * Z.of_nat (length nm))) as (b & s3 & -> & N3 & A3 & W3 & P3). run. cbn in N3, A3, W3.
    destruct b; cbn [negb].
    2: { do 2 eexists. split; [done|]. split; [eapply tree_ext; [exact N3|lia|exact T1]|]. split; [lia|]. split; [congruence|]. split; [left; split; [done|congruence]|]. intros P. by specialize (P3 P). }
    destruct (value_place_spec (mkVALUE nm t data) (values n) Hv Hn2) as (l1 & l2 & -> & Hl & O1 & O2). run.
    assert (Hset : value_set (values n) nm t data (l1 ++ mkVALUE nm t data :: l2)) by (right; split; [done|]; exists l1, l2; done).
    replace (valueCount n + 1) with (Z.of_nat (length (l1 ++ mkVALUE nm t data :: l2))) by (rewrite Hn6, Hl, !length_app; cbn; lia).
    do 2 eexists. split; [done|]. split; [apply Fin; [congruence|lia|done]|]. split; [cbn; lia|]. split; [cbn; congruence|]. split; [|done]. right. split; [done|].
    eexists. split; [exact Hset|]. cbn. by rewrite N3, N1.
Qed.

Lemma sorted_delete {A} (R : A -> A -> Prop) (l : list A) i : StronglySorted R l -> StronglySorted R (delete i l).
Proof.
  revert i. induction l as [|w l IH]; intros [|i] Hs; cbn; [done|done|by apply StronglySorted_inv in Hs as [? _]|].
  apply StronglySorted_inv in Hs as [Hs Hw]. constructor; [by apply IH|]. by apply Forall_delete.
Qed.

Lemma CmpRemoveValue_spec x s a n nm : tree_ok x s -> nodes s !! a = Some n -> name_ok nm -> exists r s', CmpRemoveValue s a nm = Ok (r, s') /\
  tree_ok x s' /\ allocations s' = allocations s /\ notified s' = notified s /\
  if r then exists i v l, values n !! i = Some v /\ fold_name (value_name v) = fold_name nm /\ l = delete i (values n) /\
    nodes s' = <[a := n <| values := l |> <| valueCount := Z.of_nat (length l) |>]> (nodes s)
  else s' = s /\ forall v, v ∈ values n -> fold_name (value_name v) <> fold_name nm.
Proof.
  intros T E Hn. pose proof (tr_node _ _ T _ _ E) as [Hn1 Hn2 Hn3 Hn4 Hn5 Hn6 Hn7]. unfold CmpRemoveValue. rewrite (get_Some _ _ _ E). run.
  destruct (CmpFindValue_spec (values n) nm Hn2 Hn) as (r & -> & Hr). run. destruct r as [i|]; [|by exists false, s].
  destruct Hr as (v & Hi & Hf). assert (Hlen : length (values n) = S (length (delete i (values n)))). { rewrite length_delete by eauto. apply lookup_lt_Some in Hi. lia. }
  replace (valueCount n - 1) with (Z.of_nat (length (delete i (values n)))) by lia.
  do 2 eexists. split; [done|]. split; [|split; [done|]; split; [done|]; exists i, v, (delete i (values n)); done].
  eapply put_info_tree; [exact T|exact E|done|done|]. apply node_values_ok; [done|by apply Forall_delete|by apply sorted_delete].
Qed.

Lemma renamed_ok n nm : node_ok n -> name_ok nm -> node_ok (n <| name := nm |>).
Proof. intros [? ? ? ? ? ? ?] Hn. by split. Qed.

Lemma CmpRenameNode_spec x s p h a n nm : tree_ok x s -> nodes s !! a = Some n -> parent n = p -> nodes s !! p = Some h -> a ∈ subkeys h -> name_ok nm -> nm <> [] ->
  exists r s', CmpRenameNode s a nm = Ok (r, s') /\ tree_ok x s' /\ (allocations s <= allocations s')%nat /\ notified s' = notified s /\ (plenty -> r = true) /\
  if r then exists l, linked s p (h <| subkeys := unlink a (subkeys h) |>) a nm l /\ nodes s' = <[p := h <| subkeys := l |>]> (<[a := n <| name := nm |>]> (nodes s))
  else nodes s' = nodes s.
Proof.
  intros T Ea Hp Ep Hin Hn H0. unfold CmpRenameNode, pool_allocate. destruct (Z.eqb_spec (2 * Z.of_nat (length nm)) 0) as [?|_]; [destruct nm; cbn in *; [done|lia]|].
  run. destruct (pool_answers (allocations s)) eqn:Hpa.
  2: { do 2 eexists. split; [done|]. split; [apply (tree_ext _ s); [done|cbn; lia|done]|]. split; [cbn; lia|]. split; [done|]. split; [|done]. intros P. by rewrite P in Hpa. }
  destruct (Z.eqb_spec (Z.of_nat (S (allocations s))) 0) as [|_]; [lia|]. set (s1 := set_field allocations _ s).
  assert (T1 : tree_ok x s1) by (apply (tree_ext _ s); [done|cbn; lia|done]). assert (Hne : a <> p) by (intros ->; by destruct (not_own_child _ _ _ _ T Ep)).
  rewrite (get_Some s1 _ _ Ea). run. rewrite Hp. unfold unlink_subkey. rewrite get_put_ne, (get_Some s1 _ _ Ep) by done. run.
  set (n' := n <| name := nm |>). set (h' := h <| subkeys := unlink a (subkeys h) |>). set (s2 := put_node s1 a n'). set (s3 := put_node s2 p h').
  assert (G1 : get_node s3 a = Ok n') by (unfold s3, s2; by rewrite get_put_ne, get_put_eq). assert (G2 : get_node s3 p = Ok h') by apply get_put_eq.
  unfold CmpLinkSubkeySorted. rewrite G1, G2. run. change (name n') with nm.
  assert (T2 : tree_ok x s2) by (eapply put_info_tree; [exact T1|exact Ea|done|done|apply renamed_ok; [by eapply tr_node|done]]).
  assert (Hplace : forall l, (forall c, c ∈ l -> c <> a /\ c <> p) -> sorted_place s3 nm a l = sorted_place s nm a l).
  { intros l. induction l as [|c l IH]; intros Hl; [done|]. cbn [sorted_place]. destruct (Hl c) as [? ?]; [left|]. unfold s3, s2. rewrite !get_put_ne by done.
    change (get_node s1 c) with (get_node s c). fold s2 s3. rewrite IH by (intros; apply Hl; by right). done. }
  assert (Hsub : forall c, c ∈ subkeys h' -> c <> a /\ c <> p).
  { cbn. intros c [Hc ?]%elem_of_unlink. split; [done|]. intros ->. by destruct (not_own_child _ _ _ _ T Ep). }
  rewrite Hplace by done. destruct (sorted_place_spec x s nm a (subkeys h') T Hn) as (l1 & l2 & -> & Hl & O1 & O2).
  { intros c Hc. apply elem_of_unlink in Hc as [Hc _]. destruct (tr_child _ _ T _ _ _ Ep Hc) as (? & ? & _). eauto. }
  run. assert (E3 : nodes (put_node s3 p (h' <| subkeys := l1 ++ a :: l2 |>)) = <[p := h <| subkeys := l1 ++ a :: l2 |>]> (<[a := n']> (nodes s))) by (cbn; by rewrite insert_insert_eq).
  do 2 eexists. split; [done|]. split.
  { assert (E2 : nodes s2 !! p = Some h) by (cbn; by rewrite lookup_insert_ne).
    apply (tree_ext _ (put_node s2 p (h <| subkeys := l1 ++ a :: l2 |>))); [by rewrite E3|cbn; lia|]. apply reorder_tree; [done|done|].
    rewrite <- Permutation_middle, <- Hl. cbn. pose proof (nk_subkeys _ (tr_node _ _ T _ _ Ep)) as Hd.
    destruct (list_elem_of_split _ _ Hin) as (m1 & m2 & Em). rewrite Em in Hd |- *. by rewrite unlink_middle, Permutation_middle. }
  split; [cbn; lia|]. split; [done|]. split; [done|]. exists (l1 ++ a :: l2). split; [|done]. exists l1, l2. done.
Qed.

(** ** Paths *)

Definition plain nm : Prop := nm <> [] /\ SEPARATOR ∉ nm.

Fixpoint join (names : list (list Z)) : list Z :=
  match names with
  | [] => []
  | [nm] => nm
  | nm :: rest => nm ++ SEPARATOR :: join rest
  end.

Lemma join_cons nm names : names <> [] -> join (nm :: names) = nm ++ SEPARATOR :: join names.
Proof. by destruct names. Qed.

Lemma join_snoc names nm : join (names ++ [nm]) = if bool_decide (names = []) then nm else join names ++ SEPARATOR :: nm.
Proof.
  induction names as [|x names IH]; [done|]. change ((x :: names) ++ [nm]) with (x :: (names ++ [nm])). rewrite join_cons by (by destruct names). rewrite IH.
  destruct names as [|y names]; [done|]. rewrite !bool_decide_eq_false_2 by done. rewrite (join_cons x) by done. by rewrite <- app_assoc.
Qed.

Lemma join_nil names : Forall plain names -> join names = [] -> names = [].
Proof. intros [|nm rest [Hn _] _] E; [done|]. destruct rest; cbn in E; [done|]. by apply app_eq_nil in E as [? _]. Qed.

Lemma component_join nm rest : SEPARATOR ∉ nm -> component (nm ++ SEPARATOR :: rest) = (nm, SEPARATOR :: rest).
Proof. induction nm as [|c nm IH]; intros Hn; cbn; [done|]. apply not_elem_of_cons in Hn as [Hc Hn]. destruct (Z.eqb_spec c SEPARATOR); [congruence|]. by rewrite IH. Qed.

Lemma component_plain nm : SEPARATOR ∉ nm -> component nm = (nm, []).
Proof. induction nm as [|c nm IH]; intros Hn; cbn; [done|]. apply not_elem_of_cons in Hn as [Hc Hn]. destruct (Z.eqb_spec c SEPARATOR); [congruence|]. by rewrite IH. Qed.

(** The names on the way from [top] down to a key. *)
Inductive key_path s top : addr -> list (list Z) -> Prop :=
  | key_path_top : key_path s top top []
  | key_path_child p h c k names : key_path s top p names -> nodes s !! p = Some h -> c ∈ subkeys h -> nodes s !! c = Some k -> key_path s top c (names ++ [name k]).

Lemma key_path_depth x s top a names d : tree_ok x s -> key_path s top a names -> depth s top d -> depth s a (d + length names).
Proof.
  intros T Hk D. induction Hk as [|p h c k names _ IH Ep Hc Ek]; [by rewrite Nat.add_0_r|]. rewrite length_app. cbn.
  replace (d + (length names + 1))%nat with (S (d + length names)) by lia. exact (child_depth _ _ _ _ _ _ T Ep Hc IH).
Qed.

Lemma build_path_spec x s top a names fuel : tree_ok x s -> is_Some (nodes s !! top) -> key_path s top a names -> Forall plain names -> (length names <= fuel)%nat ->
  build_path s a top fuel = Ok (join names).
Proof.
  intros T [t Et] Hk. revert fuel. induction Hk as [|p h c k names Hk IH Ep Hc Ek]; intros fuel Hpl Hf.
  { destruct fuel; cbn; rewrite Z.eqb_refl, orb_true_r; done. }
  apply Forall_app in Hpl as [Hpl [Hnk _]%Forall_cons]. rewrite length_app in Hf. cbn in Hf. destruct fuel as [|fuel]; [lia|]. cbn [build_path].
  destruct (tr_depth _ _ T _ _ Et) as (d & _ & D). pose proof (key_path_depth _ _ _ _ _ _ T Hk D) as Dp. pose proof (child_depth _ _ _ _ _ _ T Ep Hc Dp) as Dc.
  assert (c <> top). { intros ->. pose proof (depth_fun _ _ _ _ D Dc). lia. }
  destruct (Z.eqb_spec c 0) as [->|_]; [by destruct (tree_nonzero _ _ _ _ T Ek)|]. destruct (Z.eqb_spec c top) as [|_]; [done|]. cbn [orb].
  rewrite (get_Some _ _ _ Ek). run. destruct (tr_child _ _ T _ _ _ Ep Hc) as (k' & Ek' & Pk). replace k' with k in Pk by congruence.
  rewrite Pk, IH by (done || lia). run. rewrite bool_decide_eq_false_2 by apply Hnk. destruct (Z.eqb_spec top 0) as [->|_]; [by destruct (tree_nonzero _ _ _ _ T Et)|]. cbn [orb].
  rewrite join_snoc. f_equal. case_bool_decide as Hj.
  - rewrite bool_decide_eq_true_2 by (by apply join_nil). by rewrite Hj.
  - rewrite bool_decide_eq_false_2; [done|]. by intros ->.
Qed.

Lemma CmpBuildPath_spec x s top a names : tree_ok x s -> is_Some (nodes s !! top) -> key_path s top a names -> Forall plain names -> CmpBuildPath s a top = Ok (join names).
Proof.
  intros T Ht Hk Hpl. apply (build_path_spec x); try done. destruct Ht as [t Et]. destruct (tr_depth _ _ T _ _ Et) as (d & _ & D). pose proof (key_path_depth _ _ _ _ _ _ T Hk D) as Da.
  assert (exists n, nodes s !! a = Some n) as [n En] by (destruct Hk; eauto). destruct (tr_depth _ _ T _ _ En) as (d' & ? & D'). pose proof (depth_fun _ _ _ _ Da D').
  change LEVELS with 97%nat. lia.
Qed.

(** What the resolver follows: the key each name finds. *)
Inductive finds s : addr -> list (list Z) -> addr -> Prop :=
  | finds_nil a : finds s a [] a
  | finds_cons a nm c names b : CmpFindSubkey s a nm = Ok c -> c <> 0 -> finds s c names b -> finds s a (nm :: names) b.

Lemma join_length nm names : Forall plain (nm :: names) -> (length (join names) < length (join (nm :: names)))%nat.
Proof. intros [[Hn _] _]%Forall_cons. destruct names as [|y names]; [destruct nm; cbn; [done|lia]|]. rewrite (join_cons nm), length_app by done. cbn. lia. Qed.

Lemma walk_step s a nm names create fuel : Forall plain (nm :: names) -> (length (join (nm :: names)) <= S fuel)%nat ->
  walk_path s a (join (nm :: names)) create (S fuel) =
  child ← CmpFindSubkey s a nm; '(child, s) ← (if child =? 0 then if create then CmpAllocateNode s a nm else Ok (0, s) else Ok (child, s));
  if child =? 0 then Ok (0, s) else walk_path s child (join names) create fuel.
Proof.
  intros Hp Hf. pose proof (Forall_inv Hp) as [Hn Hsep]. cbn [walk_path].
  assert (Hc : exists rest, component (join (nm :: names)) = (nm, rest) /\ tail rest = join names).
  { destruct names as [|y names]; [exists []; split; [by apply component_plain|done]|]. rewrite (join_cons nm) by done. eexists. split; [by apply component_join|done]. }
  destruct Hc as (rest & Hc & Hr). destruct (join (nm :: names)) as [|c0 path] eqn:Ej; [by apply (join_nil _ Hp) in Ej|]. cbv zeta. rewrite Hc. cbv beta iota. rewrite bool_decide_eq_false_2 by done. by rewrite Hr.
Qed.

Lemma walk_finds s a names b create fuel : Forall plain names -> finds s a names b -> (length (join names) <= fuel)%nat -> walk_path s a (join names) create fuel = Ok (b, s).
Proof.
  intros Hp Hf. revert fuel. induction Hf as [a|a nm c names b Hc H0 _ IH]; intros fuel Hl; [by destruct fuel|].
  pose proof (join_length _ _ Hp). destruct fuel as [|fuel]; [lia|]. rewrite walk_step, Hc by done. run. destruct (Z.eqb_spec c 0) as [|_]; [done|]. run.
  destruct (Z.eqb_spec c 0) as [|_]; [done|]. apply IH; [by apply Forall_inv_tail in Hp|lia].
Qed.
End primitives.
