(* ===== verification/CmHive.v ===== *)
(** * CmHive: the registry's log on disk (kernel/cm/hive.c).

    The image is a sequence of bytes.  The writer's two passes, measuring and
    emitting, are one program; the reader takes offsets into an image of known
    length and reads nothing else.  An in-place name must lie at an even offset,
    as the alignment checks of the build demand. *)

From S2P Require Import Prelude NtStatus Rtl Bytes Crc32 CmTree.

Definition CMP_HIVE_MAGIC : Z := 0x32564850.
Definition CMP_HIVE_VERSION : Z := 2.
Definition CMP_HIVE_HEADER_BYTES : Z := 16.
Definition CMP_RECORD_HEADER_BYTES : Z := 24.
Definition CMP_RECORD_ALIGN : Z := 8.
Definition CMP_VALUE_HEADER_BYTES : Z := 12.
Definition CMP_VALUES_PER_RECORD : Z := 1024.
Definition CMP_OP_CREATE_KEY : Z := 1.
Definition CMP_OP_DELETE_KEY : Z := 2.
Definition CMP_OP_SET_VALUES : Z := 3.
Definition CMP_OP_DELETE_VALUE : Z := 4.
Definition CMP_OP_RENAME_KEY : Z := 5.

Definition CmpRoundUp8 (bytes : Z) : Z := Z.land (bytes + (CMP_RECORD_ALIGN - 1)) (Z.lnot (CMP_RECORD_ALIGN - 1)).

(** ** The writer *)

(** [buffer = None]: measure only. *)
Record CMP_WRITER := mkWRITER { buffer : option (list Z); offset : Z }.

Definition splice (b : list Z) (at_ : Z) (bytes : list Z) : outcome (list Z) :=
  if (0 <=? at_) && (at_ + Z.of_nat (length bytes) <=? Z.of_nat (length b)) then
    Ok (take (Z.to_nat at_) b ++ bytes ++ drop (Z.to_nat at_ + length bytes) b)
  else Fault "past the buffer".

Definition CmpWriteBytes (w : CMP_WRITER) (bytes : list Z) : outcome CMP_WRITER :=
  b ← (match buffer w with None => Ok None | Some b => b ← splice b (offset w) bytes; Ok (Some b) end);
  Ok (mkWRITER b (offset w + Z.of_nat (length bytes))).

Definition CmpWritePad (w : CMP_WRITER) : outcome CMP_WRITER :=
  CmpWriteBytes w (repeat 0 (Z.to_nat (CmpRoundUp8 (offset w) - offset w))).

Definition CmpWrite16 (w : CMP_WRITER) (value : Z) : outcome CMP_WRITER := CmpWriteBytes w (le_bytes 2 value).
Definition CmpWrite32 (w : CMP_WRITER) (value : Z) : outcome CMP_WRITER := CmpWriteBytes w (le_bytes 4 value).
Definition CmpWrite64 (w : CMP_WRITER) (value : Z) : outcome CMP_WRITER := CmpWriteBytes w (le_bytes 8 value).

(** UTF-16LE. *)
Definition unit_bytes (units : list Z) : list Z := mbind (M := list) (le_bytes 2) units.

Section writer.
Context `{MACHINE}.
Implicit Types (s : CM) (w : CMP_WRITER) (a top : addr) (path : list Z).

(** The captured path, or the one the tree spells now. *)
Definition record_path s (node top : addr) (captured : option (list Z)) : outcome (list Z) :=
  match captured with Some path => Ok path | None => CmpBuildPath s node top end.

(** The record's start, for CmpEndRecord. *)
Definition CmpBeginRecord s w (op keyFlags : Z) (node top : addr) (captured : option (list Z)) (stamp valueCount : Z) : outcome (Z * CMP_WRITER) :=
  let start := offset w in
  path ← record_path s node top captured;
  _ ← ASSERT (Z.land start (CMP_RECORD_ALIGN - 1) =? 0) "aligned";
  w ← CmpWrite32 w 0;
  w ← CmpWrite32 w 0;
  w ← CmpWriteBytes w [u8 op; u8 keyFlags];
  w ← CmpWrite16 w (u16 (Z.of_nat (length path)));
  w ← CmpWrite16 w 0;
  w ← CmpWrite16 w (u16 valueCount);
  w ← CmpWrite64 w (u64 stamp);
  _ ← ASSERT (offset w - start =? CMP_RECORD_HEADER_BYTES) "header";
  w ← CmpWriteBytes w (unit_bytes path);
  w ← CmpWritePad w;
  Ok (start, w).

Definition CmpEndRecord w (start : Z) : outcome CMP_WRITER :=
  w ← CmpWritePad w;
  let length := offset w - start in
  _ ← ASSERT ((CMP_RECORD_HEADER_BYTES <=? length) && (Z.land length (CMP_RECORD_ALIGN - 1) =? 0)) "length";
  match buffer w with
  | None => Ok w
  | Some b =>
      b ← splice b start (le_bytes 4 (u32 length));
      let crc := KiCrc32 (take (Z.to_nat (length - 8)) (drop (Z.to_nat (start + 8)) b)) in
      b ← splice b (start + 4) (le_bytes 4 crc);
      Ok (mkWRITER (Some b) (offset w))
  end.

Definition CmpWriteValue w (v : CMP_VALUE) : outcome CMP_WRITER :=
  w ← CmpWrite16 w (u16 (Z.of_nat (length (value_name v))));
  w ← CmpWrite16 w 0;
  w ← CmpWrite32 w (value_type v);
  w ← CmpWrite32 w (Z.of_nat (length (value_data v)));
  w ← CmpWriteBytes w (unit_bytes (value_name v));
  w ← CmpWriteBytes w (value_data v);
  CmpWritePad w.

(** The values still to write, in chunks. *)
Fixpoint write_chunks s w a top (stamp : Z) (l : list CMP_VALUE) (fuel : nat) : outcome CMP_WRITER :=
  match l with
  | [] => Ok w
  | _ :: _ =>
      match fuel with
      | O => OutOfFuel
      | S fuel =>
          let chunk := take (Z.to_nat CMP_VALUES_PER_RECORD) l in
          '(start, w) ← CmpBeginRecord s w CMP_OP_SET_VALUES 0 a top None stamp (Z.of_nat (length chunk));
          w ← foldM CmpWriteValue w chunk;
          w ← CmpEndRecord w start;
          write_chunks s w a top stamp (drop (Z.to_nat CMP_VALUES_PER_RECORD) l) fuel
      end
  end.

Definition CmpWriteKeySnapshot s w a top : outcome CMP_WRITER :=
  n ← get_node s a;
  '(start, w) ← CmpBeginRecord s w CMP_OP_CREATE_KEY (if isLink n then 1 else 0) a top None (lastWriteTime n) 0;
  w ← CmpEndRecord w start;
  write_chunks s w a top (lastWriteTime n) (values n) (length (values n)).

Fixpoint write_subtree s w a top (fuel : nat) : outcome CMP_WRITER :=
  match fuel with
  | O => OutOfFuel
  | S fuel =>
      w ← CmpWriteKeySnapshot s w a top;
      n ← get_node s a;
      foldM (fun w c => child ← get_node s c; if negb (isVolatile child) then write_subtree s w c top fuel else Ok w) w (subkeys n)
  end.

Definition CmpWriteSubtree s w a top : outcome CMP_WRITER := write_subtree s w a top LEVELS.

Definition hive_header : list Z := le_bytes 4 CMP_HIVE_MAGIC ++ le_bytes 4 CMP_HIVE_VERSION ++ le_bytes 4 0 ++ le_bytes 4 0.

Definition CmpSerializeSubtree s top : outcome ((NTSTATUS + list Z) * CM) :=
  measure ← CmpWriteSubtree s (mkWRITER None CMP_HIVE_HEADER_BYTES) top top;
  let total := offset measure in
  if CMP_HIVE_MAX_BYTES <? total then Ok (inl STATUS_INSUFFICIENT_RESOURCES, s) else
  '(block, s) ← pool_allocate s total;
  if block =? 0 then Ok (inl STATUS_INSUFFICIENT_RESOURCES, s) else
  b ← splice (repeat 0 (Z.to_nat total)) 0 hive_header;
  emit ← CmpWriteSubtree s (mkWRITER (Some b) CMP_HIVE_HEADER_BYTES) top top;
  _ ← ASSERT (offset emit =? total) "emit.offset == total";
  image ← deref (buffer emit) "buffer";
  Ok (inr image, s).

(** ** The reader *)

Definition read_at (data : list Z) (at_ : Z) (n : nat) : outcome Z :=
  if (0 <=? at_) && (at_ + Z.of_nat n <=? Z.of_nat (length data)) then Ok (le_value (take n (drop (Z.to_nat at_) data))) else Fault "past the image".

Definition bytes_at (data : list Z) (at_ n : Z) : outcome (list Z) :=
  if (0 <=? at_) && (0 <=? n) && (at_ + n <=? Z.of_nat (length data)) then Ok (take (Z.to_nat n) (drop (Z.to_nat at_) data)) else Fault "past the image".

Fixpoint units_of (bytes : list Z) : list Z :=
  match bytes with
  | lo :: hi :: rest => Z.lor lo (Z.shiftl hi 8) :: units_of rest
  | _ => []
  end.

(** A counted string of [bytes] bytes in place. *)
Definition string_at (data : list Z) (at_ bytes : Z) : outcome (list Z) :=
  if negb (Z.even at_) then Fault "misaligned" else
  l ← bytes_at data at_ (2 * (bytes / 2)); Ok (units_of l).

(** [tail]: where the part after the path starts. *)
Record CMP_RECORD := mkRECORD { op : Z; keyFlags : Z; recordValues : Z; stamp : Z; recordPath : list Z; tail_at : Z; tailBytes : Z }.

(** The record at [reader], and where the next one starts. *)
Definition CmpReadRecord (data : list Z) (reader : Z) : outcome (option (CMP_RECORD * Z)) :=
  let remaining := Z.of_nat (length data) - reader in
  if remaining <? CMP_RECORD_HEADER_BYTES then Ok None else
  size ← read_at data reader 4;
  if (size <? CMP_RECORD_HEADER_BYTES) || negb (Z.land size (CMP_RECORD_ALIGN - 1) =? 0) || (remaining <? size) then Ok None else
  covered ← bytes_at data (reader + 8) (size - 8);
  crc ← read_at data (reader + 4) 4;
  if negb (KiCrc32 covered =? crc) then Ok None else
  pathChars ← read_at data (reader + 10) 2;
  shared ← read_at data (reader + 12) 2;
  if negb (shared =? 0) then Ok None else
  let pathBytes := pathChars * 2 in
  let tailStart := CmpRoundUp8 (CMP_RECORD_HEADER_BYTES + pathBytes) in
  if size <? tailStart then Ok None else
  o ← read_at data (reader + 8) 1;
  flags ← read_at data (reader + 9) 1;
  count ← read_at data (reader + 14) 2;
  time ← read_at data (reader + 16) 8;
  path ← string_at data (reader + CMP_RECORD_HEADER_BYTES) (u16 pathBytes);
  Ok (Some (mkRECORD o flags count time path (reader + tailStart) (size - tailStart), reader + size)).

(** [count] values from [cursor] on; [remaining] bytes of the tail are left. *)
Fixpoint apply_values s a data (cursor remaining : Z) (count : nat) : outcome (bool * CM) :=
  match count with
  | O => Ok (true, s)
  | S count =>
      if remaining <? CMP_VALUE_HEADER_BYTES then Ok (false, s) else
      nameChars ← read_at data cursor 2;
      type ← read_at data (cursor + 4) 4;
      dataBytes ← read_at data (cursor + 8) 4;
      let nameBytes := nameChars * 2 in
      let used := CmpRoundUp8 (CMP_VALUE_HEADER_BYTES + nameBytes + dataBytes) in
      if (u64 (nameBytes + dataBytes) <? nameBytes) || (remaining <? used) then Ok (false, s) else
      nm ← string_at data (cursor + CMP_VALUE_HEADER_BYTES) (u16 nameBytes);
      bytes ← bytes_at data (cursor + CMP_VALUE_HEADER_BYTES + nameBytes) dataBytes;
      '(status, s) ← CmpSetValue s a nm type bytes;
      if negb (NT_SUCCESS status) then Ok (false, s) else
      apply_values s a data (cursor + used) (remaining - used) count
  end.

Definition CmpApplyValues s a data (r : CMP_RECORD) : outcome (bool * CM) :=
  apply_values s a data (tail_at r) (tailBytes r) (Z.to_nat (recordValues r)).

(** One past the last separator of the first [split] units. *)
Fixpoint leaf_start path (split : nat) : nat :=
  match split with
  | O => O
  | S k => if bool_decide (path !! k = Some SEPARATOR) then split else leaf_start path k
  end.

Definition CmpResolveRecordKey s top path (create : bool) : outcome (addr * CM) :=
  if bool_decide (path = []) then Ok (top, s) else
  let split := leaf_start path (length path) in
  '(parent_, s) ← (if (0 <? split)%nat then CmpWalkPathCounted s top (take (split - 1) path) false else Ok (top, s));
  if parent_ =? 0 then Ok (0, s) else
  let leaf := drop split path in
  if bool_decide (leaf = []) then Ok (0, s) else CmpWalkPathCounted s parent_ leaf create.

Definition CmpReadTailName data (r : CMP_RECORD) : outcome (option (list Z)) :=
  if tailBytes r <? 4 then Ok None else
  nameChars ← read_at data (tail_at r) 2;
  let nameBytes := nameChars * 2 in
  if tailBytes r <? 4 + nameBytes then Ok None else
  nm ← string_at data (tail_at r + 4) (u16 nameBytes); Ok (Some nm).

(** [node->lastWriteTime.QuadPart = (LONGLONG)record->lastWriteTime;] *)
Definition stamp_node s a (time : Z) : outcome CM := n ← get_node s a; Ok (put_node s a (n <| lastWriteTime := s64 time |>)).

(** A key's block and its name given back. *)
Definition free_key s a : outcome CM :=
  n ← get_node s a;
  _ ← ASSERT (negb (bool_decide (name n = []))) "MiFreePool: NULL pointer";
  Ok (drop_node s a).

(** RemoveEntryList and the count. *)
Definition remove_subkey s p a : outcome CM :=
  s ← unlink_subkey s p a;
  h ← get_node s p;
  Ok (put_node s p (h <| subkeyCount := subkeyCount h - 1 |>)).

Definition CmpApplyRecord s top data (r : CMP_RECORD) : outcome (bool * CM) :=
  if op r =? CMP_OP_CREATE_KEY then
    '(a, s) ← CmpResolveRecordKey s top (recordPath r) true;
    if a =? 0 then Ok (false, s) else
    s ← stamp_node s a (stamp r);
    n ← get_node s a;
    let s := put_node s a (n <| isLink := negb (Z.land (keyFlags r) 1 =? 0) |>) in
    Ok (Z.land (keyFlags r) (Z.lnot 1) =? 0, s)
  else if op r =? CMP_OP_SET_VALUES then
    '(a, s) ← CmpResolveRecordKey s top (recordPath r) false;
    if a =? 0 then Ok (false, s) else
    s ← stamp_node s a (stamp r);
    CmpApplyValues s a data r
  else if op r =? CMP_OP_DELETE_KEY then
    '(a, s) ← CmpResolveRecordKey s top (recordPath r) false;
    if (a =? 0) || (a =? top) then Ok (false, s) else
    n ← get_node s a;
    if (parent n =? 0) || negb (subkeyCount n =? 0) then Ok (false, s) else
    _ ← ASSERT (bodyCount n =? 0) "node->bodyCount == 0";
    s ← remove_subkey s (parent n) a;
    s ← stamp_node s (parent n) (stamp r);
    s ← CmpFreeValues s a;
    s ← free_key s a;
    Ok (true, s)
  else if op r =? CMP_OP_DELETE_VALUE then
    '(a, s) ← CmpResolveRecordKey s top (recordPath r) false;
    if a =? 0 then Ok (false, s) else
    nm ← CmpReadTailName data r;
    match nm with None => Ok (false, s) | Some nm =>
    s ← stamp_node s a (stamp r);
    '(_, s) ← CmpRemoveValue s a nm;
    Ok (true, s)
    end
  else if op r =? CMP_OP_RENAME_KEY then
    '(a, s) ← CmpResolveRecordKey s top (recordPath r) false;
    if (a =? 0) || (a =? top) then Ok (false, s) else
    n ← get_node s a;
    if parent n =? 0 then Ok (false, s) else
    nm ← CmpReadTailName data r;
    match nm with None => Ok (false, s) | Some nm =>
    if bool_decide (nm = []) then Ok (false, s) else
    '(renamed, s) ← CmpRenameNode s a nm;
    if negb renamed then Ok (false, s) else
    s ← stamp_node s a (stamp r);
    Ok (true, s)
    end
  else Ok (false, s).

(** [while (!IsListEmpty(&node->subkeyListHead))], first child first. *)
Fixpoint free_contents s a (fuel : nat) : outcome CM :=
  match fuel with
  | O => OutOfFuel
  | S fuel =>
      n ← get_node s a;
      s ← foldM (fun s c =>
        s ← free_contents s c fuel;
        s ← remove_subkey s a c;
        k ← get_node s c;
        _ ← ASSERT (bodyCount k =? 0) "child->bodyCount == 0";
        free_key s c) s (subkeys n);
      CmpFreeValues s a
  end.

Definition CmpFreeSubtreeContents s a : outcome CM := free_contents s a LEVELS.

(** Record after record; the reader's final offset and how many were applied. *)
Fixpoint replay_records s top data (reader applied : Z) (fuel : nat) : outcome (Z * Z * CM) :=
  match fuel with
  | O => OutOfFuel
  | S fuel =>
      r ← CmpReadRecord data reader;
      match r with
      | None => Ok (reader, applied, s)
      | Some (record, next) =>
          '(ok, s) ← CmpApplyRecord s top data record;
          if negb ok then Ok (next, applied, s) else replay_records s top data next (applied + 1) fuel
      end
  end.

Definition CmpReplayImage s top data (keepPrefix : bool) : outcome (NTSTATUS * CM) :=
  let length := Z.of_nat (length data) in
  if (length <? CMP_HIVE_HEADER_BYTES) || (CMP_HIVE_MAX_BYTES <? length) then Ok (STATUS_NOT_REGISTRY_FILE, s) else
  magic ← read_at data 0 4;
  version ← read_at data 4 4;
  if negb (magic =? CMP_HIVE_MAGIC) || negb (version =? CMP_HIVE_VERSION) then Ok (STATUS_NOT_REGISTRY_FILE, s) else
  d ← CmpKeyDepth s top;
  if (d =? 0) || (CMP_HIVE_MAX_DEPTH <? d) then Ok (STATUS_NOT_REGISTRY_FILE, s) else
  '(reader, applied, s) ← replay_records s top data CMP_HIVE_HEADER_BYTES 0 (Z.to_nat (length / CMP_RECORD_HEADER_BYTES + 1));
  let complete := (reader =? length) && negb (applied =? 0) in
  if negb complete && negb keepPrefix then s ← CmpFreeSubtreeContents s top; Ok (STATUS_NOT_REGISTRY_FILE, s)
  else Ok (STATUS_SUCCESS, s).

Definition CmpParseSubtreeInto s top data : outcome (NTSTATUS * CM) := CmpReplayImage s top data false.
End writer.
