(* ===== verification/CmReplay.v ===== *)
(** * CmReplay: replaying an image nobody vouches for (kernel/cm/hive.c).

    Whatever bytes an image holds, the reader stays inside it, every loop ends,
    no assertion of the tree fails, and what is not below the replay's top is
    left alone. *)

From S2P Require Import Prelude NtStatus Rtl Bytes Crc32 CmTree CmHive.

(** ** Reads *)

Section reads.
Implicit Types (data : list Z) (o n : Z).

Lemma round_up_8 n : CmpRoundUp8 n = 8 * ((n + 7) / 8).
Proof.
  unfold CmpRoundUp8, CMP_RECORD_ALIGN. change (8 - 1) with (Z.ones 3). rewrite <- Z.ldiff_land, Z.ldiff_ones_r by lia.
  rewrite Z.shiftr_div_pow2, Z.shiftl_mul_pow2 by lia. change (Z.ones 3) with 7. change (2 ^ 3) with 8. lia.
Qed.

Lemma round_up_bounds n : n <= CmpRoundUp8 n < n + 8 /\ CmpRoundUp8 n mod 8 = 0.
Proof. rewrite round_up_8. split; [Z.to_euclidean_division_equations; lia|]. rewrite Z.mul_comm. by apply Z.mod_mul. Qed.

Lemma round_up_aligned n : n mod 8 = 0 -> CmpRoundUp8 n = n.
Proof. rewrite round_up_8. intros. Z.to_euclidean_division_equations. lia. Qed.

Lemma land_7 n : Z.land n (CMP_RECORD_ALIGN - 1) = n mod 8.
Proof. change (CMP_RECORD_ALIGN - 1) with (Z.ones 3). by rewrite Z.land_ones. Qed.

Lemma read_at_spec data o (n : nat) : Forall is_u8 data -> 0 <= o -> o + Z.of_nat n <= Z.of_nat (length data) ->
  exists v, read_at data o n = Ok v /\ 0 <= v < 2 ^ (8 * Z.of_nat n).
Proof.
  intros Hd Ho Hn. unfold read_at. rewrite (proj2 (Z.leb_le 0 o)), (proj2 (Z.leb_le (o + _) _)) by done. cbn [andb]. eexists. split; [done|].
  pose proof (le_value_bounds (take n (drop (Z.to_nat o) data)) ltac:(by apply Forall_take, Forall_drop)) as H.
  rewrite length_take, length_drop in H. replace (n `min` (length data - Z.to_nat o))%nat with n in H by lia. done.
Qed.

Lemma bytes_at_spec data o n : Forall is_u8 data -> 0 <= o -> 0 <= n -> o + n <= Z.of_nat (length data) ->
  exists l, bytes_at data o n = Ok l /\ Z.of_nat (length l) = n /\ Forall is_u8 l.
Proof.
  intros Hd Ho Hn Hl. unfold bytes_at. rewrite (proj2 (Z.leb_le 0 o)), (proj2 (Z.leb_le 0 n)), (proj2 (Z.leb_le (o + n) _)) by done. cbn [andb]. eexists. split; [done|].
  split; [rewrite length_take, length_drop; lia|by apply Forall_take, Forall_drop].
Qed.

Lemma units_of_spec (k : nat) l : Forall is_u8 l -> length l = (2 * k)%nat -> length (units_of l) = k /\ Forall is_u16 (units_of l).
Proof.
  revert l. induction k as [|k IH]; intros l Hl Hk; [by destruct l|]. destruct l as [|lo [|hi l]]; cbn in Hk; [lia|lia|].
  apply Forall_cons in Hl as [Hlo Hl]. apply Forall_cons in Hl as [Hhi Hl]. cbn [units_of]. destruct (IH l Hl ltac:(lia)) as [E F]. split; [cbn; by rewrite E|].
  constructor; [|done]. pose proof (le_value_bounds [lo; hi] ltac:(constructor; [done|constructor; [done|constructor]])) as B. cbn in B. rewrite Z.shiftl_0_l, Z.lor_0_r in B. exact B.
Qed.

Lemma string_at_spec data o n : Forall is_u8 data -> 0 <= o -> o mod 2 = 0 -> is_u16 n -> o + 2 * (n / 2) <= Z.of_nat (length data) ->
  exists nm, string_at data o n = Ok nm /\ name_ok nm /\ Z.of_nat (length nm) = n / 2.
Proof.
  intros Hd Ho He Hn Hl. unfold string_at. replace (Z.even o) with true by (symmetry; apply Z.even_spec; exists (o / 2); pose proof (Z.div_mod o 2); lia). cbn [negb].
  destruct (bytes_at_spec data o (2 * (n / 2)) Hd Ho) as (l & -> & Ll & Fl); [unfold is_u16 in Hn; Z.to_euclidean_division_equations; lia|done|]. run.
  destruct (units_of_spec (Z.to_nat (n / 2)) l Fl) as [E F]; [unfold is_u16 in Hn; Z.to_euclidean_division_equations; lia|].
  eexists. split; [done|]. unfold is_u16 in Hn. assert (0 <= n / 2) by (Z.to_euclidean_division_equations; lia). assert (n / 2 < 2 ^ 15) by (Z.to_euclidean_division_equations; lia).
  split; [split; [done|lia]|lia].
Qed.

Record record_ok data (r : CMP_RECORD) : Prop := {
  rk_path : name_ok (recordPath r);
  rk_stamp : is_u64 (stamp r);
  rk_values : 0 <= recordValues r;
  rk_tail : 0 <= tail_at r /\ tail_at r mod 8 = 0 /\ 0 <= tailBytes r /\ tail_at r + tailBytes r <= Z.of_nat (length data);
}.

Lemma CmpReadRecord_safe data o : Forall is_u8 data -> 0 <= o <= Z.of_nat (length data) -> o mod 8 = 0 -> exists r, CmpReadRecord data o = Ok r /\
  match r with None => True | Some (record, next) => o + 24 <= next <= Z.of_nat (length data) /\ next mod 8 = 0 /\ record_ok data record end.
Proof.
  intros Hd Ho Hm. unfold CmpReadRecord. cbv zeta. destruct (Z.ltb_spec (Z.of_nat (length data) - o) CMP_RECORD_HEADER_BYTES) as [|Hr]; [by exists None|].
  unfold CMP_RECORD_HEADER_BYTES in *. destruct (read_at_spec data o 4 Hd ltac:(lia) ltac:(lia)) as (size & -> & Hsz). run. rewrite land_7.
  destruct (Z.ltb_spec size 24) as [|Hs]; cbn [orb]; [by exists None|]. destruct (Z.eqb_spec (size mod 8) 0) as [H8|]; cbn [negb orb]; [|by exists None].
  destruct (Z.ltb_spec (Z.of_nat (length data) - o) size) as [|Hfit]; [by exists None|].
  destruct (bytes_at_spec data (o + 8) (size - 8) Hd ltac:(lia) ltac:(lia) ltac:(lia)) as (covered & -> & _ & _). run.
  destruct (read_at_spec data (o + 4) 4 Hd ltac:(lia) ltac:(lia)) as (crc & -> & _). run. destruct (negb (KiCrc32 covered =? crc)); [by exists None|].
  destruct (read_at_spec data (o + 10) 2 Hd ltac:(lia) ltac:(lia)) as (chars & -> & Hc). run. cbn in Hc.
  destruct (read_at_spec data (o + 12) 2 Hd ltac:(lia) ltac:(lia)) as (shared & -> & _). run. destruct (negb (shared =? 0)); [by exists None|].
  pose proof (round_up_bounds (24 + chars * 2)) as [Hru Hrm]. destruct (Z.ltb_spec size (CmpRoundUp8 (24 + chars * 2))) as [|Htail]; [by exists None|].
  destruct (read_at_spec data (o + 8) 1 Hd ltac:(lia) ltac:(lia)) as (oo & -> & _). run.
  destruct (read_at_spec data (o + 9) 1 Hd ltac:(lia) ltac:(lia)) as (flags & -> & _). run.
  destruct (read_at_spec data (o + 14) 2 Hd ltac:(lia) ltac:(lia)) as (count & -> & Hcount). run.
  destruct (read_at_spec data (o + 16) 8 Hd ltac:(lia) ltac:(lia)) as (time & -> & Htime). run.
  pose proof (u16_range (chars * 2)) as Hu. assert (Hule : u16 (chars * 2) <= chars * 2) by (apply Z.mod_le; lia).
  destruct (string_at_spec data (o + 24) (u16 (chars * 2)) Hd ltac:(lia)) as (nm & -> & Hnm & _); [Z.to_euclidean_division_equations; lia|done| |].
  { pose proof (Z.mul_div_le (u16 (chars * 2)) 2 ltac:(lia)). lia. }
  run. eexists. split; [done|]. split; [lia|]. split; [Z.to_euclidean_division_equations; lia|]. split; cbn; [done|done|lia|].
  split; [lia|]. split; [Z.to_euclidean_division_equations; lia|]. lia.
Qed.

Lemma CmpReadTailName_safe data r : Forall is_u8 data -> record_ok data r -> exists nm, CmpReadTailName data r = Ok nm /\ forall l, nm = Some l -> name_ok l.
Proof.
  intros Hd [_ _ _ (H1 & H2 & H3 & H4)]. unfold CmpReadTailName. destruct (Z.ltb_spec (tailBytes r) 4); [by exists None|].
  destruct (read_at_spec data (tail_at r) 2 Hd ltac:(lia) ltac:(lia)) as (chars & -> & Hc). run. cbv zeta. cbn in Hc.
  destruct (Z.ltb_spec (tailBytes r) (4 + chars * 2)); [by exists None|].
  pose proof (u16_range (chars * 2)) as Hu. assert (Hule : u16 (chars * 2) <= chars * 2) by (apply Z.mod_le; lia).
  destruct (string_at_spec data (tail_at r + 4) (u16 (chars * 2)) Hd ltac:(lia)) as (nm & -> & Hnm & _); [Z.to_euclidean_division_equations; lia|done| |].
  { pose proof (Z.mul_div_le (u16 (chars * 2)) 2 ltac:(lia)). lia. }
  run. eexists. split; [done|]. by intros l [= <-].
Qed.
End reads.

(** ** What lies below a key *)

Section safety.
Context `{MACHINE}.
Implicit Types (s : CM) (a b p c x top : addr) (n k h : CMP_KEY_NODE) (nm path data : list Z).

Inductive below s top : addr -> Prop :=
  | below_top : below s top top
  | below_child p h c : below s top p -> nodes s !! p = Some h -> c ∈ subkeys h -> below s top c.

Lemma below_exists x s top b : tree_ok x s -> is_Some (nodes s !! top) -> below s top b -> is_Some (nodes s !! b).
Proof. intros T Ht [|p h c _ Ep Hc]; [done|]. destruct (tr_child _ _ T _ _ _ Ep Hc) as (k & E & _). eauto. Qed.

Lemma below_depth x s top b d : tree_ok x s -> depth s top d -> below s top b -> exists d', depth s b d' /\ (b = top \/ (d < d')%nat).
Proof.
  intros T D. induction 1 as [|p h c _ (d' & D' & Hd') Ep Hc]; [by exists d; split; [|left]|].
  exists (S d'). split; [exact (child_depth _ _ _ _ _ _ T Ep Hc D')|]. right. destruct Hd' as [->|]; [|lia]. pose proof (depth_fun _ _ _ _ D D'). lia.
Qed.

Lemma below_trans s a b c : below s a b -> below s b c -> below s a c.
Proof. intros Hb. induction 1; [done|by eapply below_child]. Qed.

(** Every step down may be looked at from below. *)
Lemma below_parent x s top b k : tree_ok x s -> below s top b -> b <> top -> nodes s !! b = Some k -> below s top (parent k) /\ exists h, nodes s !! parent k = Some h /\ b ∈ subkeys h.
Proof.
  intros T [|p h c Hp Ep Hc] Hne Eb; [done|]. destruct (tr_child _ _ T _ _ _ Ep Hc) as (k' & Ek & <-). replace k' with k in * by congruence. eauto.
Qed.

(** A replay's state: nothing below the top is open, everything is named. *)
Record replay_inv x top s : Prop := {
  ri_tree : tree_ok x s;
  ri_top : is_Some (nodes s !! top);
  ri_below : forall b k, below s top b -> b <> top -> nodes s !! b = Some k -> bodyCount k = 0 /\ name k <> [];
  ri_free : x = top \/ x = 0;
}.

(** Keys outside the top's subtree are as they were, and stay outside. *)
Definition outside top s s' : Prop := forall b k, nodes s !! b = Some k -> ~ below s top b -> nodes s' !! b = Some k /\ ~ below s' top b.

Definition step_ok x top s s' : Prop := replay_inv x top s' /\ outside top s s'.

Lemma step_refl x top s : replay_inv x top s -> step_ok x top s s.
Proof. intros I. split; [done|]. by intros b k E Hb. Qed.

Lemma step_trans x top s1 s2 s3 : outside top s1 s2 -> step_ok x top s2 s3 -> step_ok x top s1 s3.
Proof. intros O12 [I O23]. split; [done|]. intros b k E Hb. destruct (O12 b k E Hb). by apply O23. Qed.

Lemma below_ext s s' top b : (forall p h c, nodes s' !! p = Some h -> c ∈ subkeys h -> exists h', nodes s !! p = Some h' /\ c ∈ subkeys h') -> below s' top b -> below s top b.
Proof. intros He. induction 1 as [|p h c _ IH Ep Hc]; [apply below_top|]. destruct (He _ _ _ Ep Hc) as (h' & ? & ?). by eapply below_child. Qed.

(** Keys rewritten below the top, with no new links. *)
Lemma step_ext x top s s' : replay_inv x top s -> tree_ok x s' -> is_Some (nodes s' !! top) ->
  (forall b k, nodes s !! b = Some k -> ~ below s top b -> nodes s' !! b = Some k) ->
  (forall p h c, nodes s' !! p = Some h -> c ∈ subkeys h -> exists h', nodes s !! p = Some h' /\ c ∈ subkeys h') ->
  (forall b k, nodes s' !! b = Some k -> b <> top -> exists k', nodes s !! b = Some k' /\ bodyCount k = bodyCount k' /\ (name k = name k' \/ name k <> [])) ->
  step_ok x top s s'.
Proof.
  intros [T Ht Hb Hx] T' Ht' Ho Hl Hk. assert (B : forall b, below s' top b -> below s top b) by (intros b; by apply below_ext).
  split; [split; [done|done| |done]|].
  - intros b k Hbe Hne E. destruct (Hk _ _ E Hne) as (k' & E' & -> & Hn). destruct (Hb _ _ (B _ Hbe) Hne E') as [? ?]. split; [done|]. destruct Hn as [->|?]; done.
  - intros b k E Hnb. split; [by apply Ho|]. intros Hbe. by apply Hnb, B.
Qed.

Lemma info_step x top s s' a n n' : replay_inv x top s -> below s top a -> nodes s !! a = Some n -> tree_ok x s' -> nodes s' = <[a := n']> (nodes s) ->
  subkeys n' = subkeys n -> bodyCount n' = bodyCount n -> name n' = name n -> step_ok x top s s'.
Proof.
  intros I Ha Ea T' E' Hs Hc Hn. apply step_ext; try done.
  - rewrite E'. destruct (ri_top _ _ _ I) as [t Et]. destruct (decide (a = top)) as [->|]; [rewrite lookup_insert_eq|rewrite lookup_insert_ne by done]; eauto.
  - intros b k E Hnb. rewrite E', lookup_insert_ne; [done|]. by intros <-.
  - intros p h c. rewrite E'. intros [(<- & <-)|(_ & ?)]%lookup_insert_Some Hin; [rewrite Hs in Hin|]; eauto.
  - intros b k. rewrite E'. intros [(<- & <-)|(_ & ?)]%lookup_insert_Some _; [exists n|exists k]; auto.
Qed.

Lemma nodes_step x top s s' : replay_inv x top s -> tree_ok x s' -> nodes s' = nodes s -> step_ok x top s s'.
Proof.
  intros I T' E'. apply step_ext; try done; rewrite ?E'; [apply I|done|by eauto|by eauto].
Qed.

(** ** Resolving a path *)

Lemma component_spec path : exists rest, path = (component path).1 ++ rest /\ (component path).2 = rest /\ (SEPARATOR ∉ (component path).1) /\ (rest = [] \/ exists y, rest = SEPARATOR :: y).
Proof.
  induction path as [|c path (rest & E & E2 & Hn & Hr)]; [exists []; split; [done|]; split; [done|]; split; [apply not_elem_of_nil|by left]|].
  cbn [component]. destruct (Z.eqb_spec c SEPARATOR) as [->|Hc]; cbn [fst snd].
  { exists (SEPARATOR :: path). split; [done|]. split; [done|]. split; [apply not_elem_of_nil|]. right. eauto. }
  destruct (component path) as [u v] eqn:Ec; cbn [fst snd] in *. exists rest. split; [by rewrite E|]. split; [done|]. split; [|done].
  rewrite not_elem_of_cons. split; [by apply not_eq_sym|done].
Qed.

(** A key created under one below the top. *)
Lemma link_step x top s s' p h a nm l t : replay_inv x top s -> below s top p -> nodes s !! p = Some h -> tree_ok x s' -> nodes s !! a = None -> nm <> [] ->
  (forall c, c ∈ l -> c = a \/ c ∈ subkeys h) -> a ∈ l -> nodes s' = <[p := h <| subkeys := l |> <| subkeyCount := subkeyCount h + 1 |>]> (<[a := new_node p nm t]> (nodes s)) ->
  step_ok x top s s' /\ below s' top a.
Proof.
  intros [T Ht Hb Hx] Hp Ep T' Ea Hnm Hl Hal E'. assert (Hpa : p <> a) by congruence. assert (Hta : top <> a). { intros ->. destruct Ht as [? ?]. congruence. }
  assert (K : forall b k, nodes s' !! b = Some k -> b = p /\ k = h <| subkeys := l |> <| subkeyCount := subkeyCount h + 1 |> \/ b = a /\ k = new_node p nm t \/ nodes s !! b = Some k).
  { intros b k. rewrite E'. intros [(<- & <-)|(_ & [(<- & <-)|(_ & ?)]%lookup_insert_Some)]%lookup_insert_Some; auto. }
  assert (B : forall b, below s' top b -> below s top b \/ b = a).
  { induction 1 as [|q m c _ IH Eq Hc]; [left; apply below_top|]. apply K in Eq as [(-> & ->)|[(-> & ->)|Eq]].
    - cbn in Hc. apply Hl in Hc as [->|Hc]; [by right|left]. by eapply below_child.
    - by apply not_elem_of_nil in Hc.
    - destruct IH as [IH| ->]; [|congruence]. left. by eapply below_child. }
  assert (B' : forall b, below s top b -> exists k k', nodes s !! b = Some k /\ nodes s' !! b = Some k' /\ (b = p -> k' = h <| subkeys := l |> <| subkeyCount := subkeyCount h + 1 |>) /\ (b <> p -> k' = k)).
  { intros b Hbe. destruct (below_exists _ _ _ _ T Ht Hbe) as [k Ek]. rewrite E'. destruct (decide (b = p)) as [->|Hne].
    - rewrite lookup_insert_eq. exists k, (h <| subkeys := l |> <| subkeyCount := subkeyCount h + 1 |>). done.
    - rewrite !lookup_insert_ne by congruence. exists k, k. done. }
  split; [split|].
  - split; [done| | |done].
    + destruct (B' top (below_top _ _)) as (? & k' & _ & ? & _). by exists k'.
    + intros b k Hbe Hne Ek. apply K in Ek as [(-> & ->)|[(-> & ->)|Ek]]; cbn; [by apply (Hb p)|done|]. apply B in Hbe as [Hbe| ->]; [by apply (Hb b)|congruence].
  - intros b k Eb Hnb. split; [rewrite E', !lookup_insert_ne; [done|congruence|intros <-; by apply Hnb]|]. intros [?| ->]%B; [done|congruence].
  - assert (Bp : forall b, below s top b -> (forall d d', depth s b d -> depth s p d' -> (d <= d')%nat) -> below s' top b).
    { induction 1 as [|q m c Hq IH Eq Hc]; intros Hd; [apply below_top|]. destruct (tr_depth _ _ T _ _ Eq) as (dq & _ & Dq). pose proof (child_depth _ _ _ _ _ _ T Eq Hc Dq) as Dc.
      destruct (B' q Hq) as (k & k' & Ek & Ek' & _ & Hk). destruct (tr_depth _ _ T _ _ Ep) as (dp & _ & Dp). pose proof (Hd _ _ Dc Dp).
      assert (q <> p). { intros ->. pose proof (depth_fun _ _ _ _ Dq Dp). lia. }
      apply (below_child _ _ q k'); [|done|rewrite Hk by done; by replace k with m by congruence].
      apply IH. intros d d' D D'. pose proof (depth_fun _ _ _ _ D Dq). pose proof (depth_fun _ _ _ _ D' Dp). lia. }
    apply (below_child _ _ p (h <| subkeys := l |> <| subkeyCount := subkeyCount h + 1 |>)); [|rewrite E'; by rewrite lookup_insert_eq|done].
    apply Bp; [done|]. intros d d' D D'. pose proof (depth_fun _ _ _ _ D D'). lia.
Qed.

Lemma walk_path_spec x top s a path create fuel : replay_inv x top s -> below s top a -> name_ok path -> (length path <= fuel)%nat ->
  exists r s', walk_path s a path create fuel = Ok (r, s') /\ step_ok x top s s' /\ (r = 0 \/ below s' top r) /\ (create = false -> s' = s).
Proof.
  revert s a path. induction fuel as [|fuel IH]; intros s a path I Ha Hn Hf.
  { destruct path; [|cbn in Hf; lia]. exists a, s. split; [done|]. split; [by apply step_refl|]. split; [by right|done]. }
  destruct path as [|u path0] eqn:Epath; [exists a, s; split; [done|]; split; [by apply step_refl|]; split; [by right|done]|].
  rewrite <- Epath in *. assert (Hwalk : forall z, walk_path s a path create (S fuel) = z <-> (let '(segment, rest) := component path in
    if bool_decide (segment = []) then Ok (0, s) else child ← CmpFindSubkey s a segment;
    '(child, s) ← (if child =? 0 then if create then CmpAllocateNode s a segment else Ok (0, s) else Ok (child, s));
    if child =? 0 then Ok (0, s) else walk_path s child (tail rest) create fuel) = z) by (rewrite Epath; reflexivity).
  destruct (component_spec path) as (rest & E & E2 & Hsep & Hr). destruct (component path) as [seg rest'] eqn:Ec. cbn [fst snd] in *. subst rest'.
  case_bool_decide as Hseg.
  { exists 0, s. split; [by apply Hwalk|]. split; [by apply step_refl|]. split; [by left|done]. }
  assert (Hns : name_ok seg). { destruct Hn as [Hu Hl]. rewrite E in Hu, Hl. apply Forall_app in Hu as [? _]. rewrite length_app in Hl. split; [done|lia]. }
  assert (Hnr : name_ok (tail rest) /\ (length (tail rest) <= fuel)%nat).
  { destruct Hn as [Hu Hl]. rewrite E in Hu, Hl, Hf. apply Forall_app in Hu as [_ Hu]. rewrite length_app in Hl, Hf.
    assert (0 < length seg)%nat by (destruct seg; [done|cbn; lia]). destruct Hr as [->|[y ->]]; cbn [tail length] in *; [split; [split; [constructor|done]|lia]|].
    apply Forall_cons in Hu as [_ Hu]. split; [split; [done|lia]|lia]. }
  destruct (below_exists _ _ _ _ (ri_tree _ _ _ I) (ri_top _ _ _ I) Ha) as [n En].
  destruct (CmpFindSubkey_spec _ _ _ _ seg (ri_tree _ _ _ I) En Hns) as (c & Ec' & Hc). rewrite Ec' in Hwalk.
  destruct Hc as [[-> _]|(Hc0 & Hcin & k & Ek & _)].
  - destruct create; [|exists 0, s; split; [by apply Hwalk|]; split; [by apply step_refl|]; split; [by left|done]].
    destruct (CmpAllocateNode_spec _ _ _ _ seg (ri_tree _ _ _ I) En Hns) as (c & s1 & Ea & T1 & A1 & _ & Hcase & _).
    destruct Hcase as [(-> & N1)|(Hc0 & Hnone & _ & l & t & (l1 & l2 & -> & Hsub & _) & N1)].
    + exists 0, s1. split; [apply Hwalk; run; by rewrite Ea|]. split; [by apply nodes_step|]. split; [by left|done].
    + destruct (link_step x top s s1 a n c seg (l1 ++ c :: l2) t I Ha En T1 Hnone Hseg) as [[I1 O1] B1]; [|apply elem_of_app; right; left|done|].
      { intros c'. rewrite Hsub, !elem_of_app, elem_of_cons. tauto. }
      destruct (IH s1 c (tail rest) I1 B1 (proj1 Hnr) (proj2 Hnr)) as (r & s2 & E3 & S2 & Hr2 & _).
      exists r, s2. split; [apply Hwalk; run; change (0 =? 0) with true; cbn iota; rewrite Ea; run; destruct (Z.eqb_spec c 0); done|]. split; [by eapply step_trans|]. split; [done|done].
  - destruct (IH s c (tail rest) I ltac:(by eapply below_child) (proj1 Hnr) (proj2 Hnr)) as (r & s2 & E3 & S2 & Hr2 & Hs2).
    exists r, s2. split; [apply Hwalk; run; destruct (Z.eqb_spec c 0); [done|]; run; destruct (Z.eqb_spec c 0); done|]. split; [done|]. split; [done|]. done.
Qed.

Lemma leaf_start_le path (i : nat) : (leaf_start path i <= i)%nat.
Proof. induction i as [|i IH]; cbn; [done|]. case_bool_decide; lia. Qed.

Lemma sub_name path (i j : nat) : name_ok path -> name_ok (take i (drop j path)).
Proof. intros [Hu Hl]. split; [by apply Forall_take, Forall_drop|]. rewrite length_take, length_drop. lia. Qed.

Lemma CmpResolveRecordKey_safe x top s path create : replay_inv x top s -> name_ok path ->
  exists r s', CmpResolveRecordKey s top path create = Ok (r, s') /\ step_ok x top s s' /\ (r = 0 \/ below s' top r) /\ (create = false -> s' = s).
Proof.
  intros I Hn. unfold CmpResolveRecordKey, CmpWalkPathCounted. case_bool_decide; [exists top, s; split; [done|]; split; [by apply step_refl|]; split; [right; apply below_top|done]|].
  set (split := leaf_start path (length path)).
  assert (Hpar : exists p, (if (0 <? split)%nat then walk_path s top (take (split - 1) path) false (length (take (split - 1) path)) else Ok (top, s)) = Ok (p, s) /\ (p = 0 \/ below s top p)).
  { destruct (0 <? split)%nat; [|exists top; split; [done|right; apply below_top]].
    destruct (walk_path_spec x top s top (take (split - 1) path) false _ I (below_top _ _) (sub_name path (split - 1) 0 Hn) (le_n _)) as (p & s1 & E & _ & Hp & Hs). rewrite Hs in * by done. eauto. }
  destruct Hpar as (p & -> & Hp). run. destruct (Z.eqb_spec p 0) as [->|Hp0]; [exists 0, s; split; [done|]; split; [by apply step_refl|]; split; [by left|done]|].
  destruct Hp as [?|Hp]; [done|]. case_bool_decide; [exists 0, s; split; [done|]; split; [by apply step_refl|]; split; [by left|done]|].
  apply walk_path_spec; [done|done| |done]. rewrite <- (take_ge (drop split path) (length (drop split path))) by done. by apply sub_name.
Qed.
End safety.

(** ** Applying a record *)

Section applying.
Context `{MACHINE}.
Implicit Types (s : CM) (a b p c x top : addr) (n k h : CMP_KEY_NODE) (nm path data : list Z).

Lemma below_node x top s b : replay_inv x top s -> below s top b -> exists n, nodes s !! b = Some n.
Proof. intros I Hb. exact (below_exists x s top b (ri_tree _ _ _ I) (ri_top _ _ _ I) Hb). Qed.

Lemma node_stamp_ok n t : node_ok n -> is_s64 t -> node_ok (n <| lastWriteTime := t |>).
Proof. intros [? ? ? ? ? ? ?] Ht. by split. Qed.

Lemma node_link_ok n (l : bool) : node_ok n -> node_ok (n <| isLink := l |>).
Proof. intros [? ? ? ? ? ? ?]. by split. Qed.

Lemma stamp_safe x top s a t : replay_inv x top s -> below s top a -> exists n, nodes s !! a = Some n /\
  stamp_node s a t = Ok (put_node s a (n <| lastWriteTime := s64 t |>)) /\ step_ok x top s (put_node s a (n <| lastWriteTime := s64 t |>)) /\
  (forall b, below s top b -> below (put_node s a (n <| lastWriteTime := s64 t |>)) top b).
Proof.
  intros I Ha. destruct (below_node _ _ _ _ I Ha) as [n En]. exists n. split; [done|]. unfold stamp_node. rewrite (get_Some _ _ _ En). split; [done|].
  set (n' := set_field _ _ n). assert (T' : tree_ok x (put_node s a n')).
  { eapply put_info_tree; [apply I|exact En|done|done|]. apply node_stamp_ok; [by apply (tr_node _ _ (ri_tree _ _ _ I) _ _ En)|apply s64_range]. }
  split; [by eapply (info_step x top s _ a n n')|]. intros b. apply below_ext. cbn. intros p h c Ep Hc. destruct (decide (a = p)) as [<-|].
  - exists n'. rewrite lookup_insert_eq. split; [done|]. by replace h with n in Hc by congruence.
  - exists h. by rewrite lookup_insert_ne.
Qed.

(** The values of a record set one by one. *)
Lemma apply_values_safe x top s a data (cursor remaining : Z) (count : nat) : replay_inv x top s -> below s top a -> Forall is_u8 data ->
  0 <= cursor -> cursor mod 8 = 0 -> 0 <= remaining -> cursor + remaining <= Z.of_nat (length data) ->
  exists ok s', apply_values s a data cursor remaining count = Ok (ok, s') /\ step_ok x top s s'.
Proof.
  revert s cursor remaining. induction count as [|count IH]; intros s cursor remaining I Ha Hd Hc H8 Hr Hfit; [exists true, s; split; [done|by apply step_refl]|].
  cbn [apply_values]. destruct (Z.ltb_spec remaining CMP_VALUE_HEADER_BYTES) as [|Hh]; [exists false, s; split; [done|by apply step_refl]|]. unfold CMP_VALUE_HEADER_BYTES in *.
  destruct (read_at_spec data cursor 2 Hd ltac:(lia) ltac:(lia)) as (chars & -> & Hch). run. cbn in Hch.
  destruct (read_at_spec data (cursor + 4) 4 Hd ltac:(lia) ltac:(lia)) as (type & -> & Hty). run. cbn in Hty.
  destruct (read_at_spec data (cursor + 8) 4 Hd ltac:(lia) ltac:(lia)) as (bytes & -> & Hby). run. cbn in Hby. cbv zeta.
  pose proof (round_up_bounds (12 + chars * 2 + bytes)) as [Hru Hrm]. destruct (u64 (chars * 2 + bytes) <? chars * 2); cbn [orb]; [exists false, s; split; [done|by apply step_refl]|].
  destruct (Z.ltb_spec remaining (CmpRoundUp8 (12 + chars * 2 + bytes))) as [|Hused]; [exists false, s; split; [done|by apply step_refl]|].
  pose proof (u16_range (chars * 2)) as Hu. assert (Hule : u16 (chars * 2) <= chars * 2) by (apply Z.mod_le; lia).
  destruct (string_at_spec data (cursor + 12) (u16 (chars * 2)) Hd ltac:(lia)) as (nm & -> & Hnm & _); [Z.to_euclidean_division_equations; lia|done| |].
  { pose proof (Z.mul_div_le (u16 (chars * 2)) 2 ltac:(lia)). lia. }
  run. destruct (bytes_at_spec data (cursor + 12 + chars * 2) bytes Hd ltac:(lia) ltac:(lia) ltac:(lia)) as (l & -> & Ll & Fl). run.
  destruct (below_node _ _ _ _ I Ha) as [n En].
  destruct (CmpSetValue_spec x s a n nm type l (ri_tree _ _ _ I) En) as (status & s1 & -> & T1 & _ & _ & Hcase & _).
  { split; [done|]. split; [done|]. cbn. split; [lia|]. unfold is_u32. lia. }
  run. assert (S1 : step_ok x top s s1 /\ below s1 top a).
  { destruct Hcase as [[_ N1]|(_ & l' & _ & N1)].
    - split; [by apply nodes_step|]. eapply below_ext; [|exact Ha]. intros p h c Ep Hin. rewrite N1. eauto.
    - split; [by eapply (info_step x top s s1 a n)|]. eapply below_ext; [|exact Ha]. intros p h c Ep Hin. rewrite N1. destruct (decide (a = p)) as [<-|].
      + eexists. rewrite lookup_insert_eq. split; [done|]. by replace h with n in Hin by congruence.
      + exists h. by rewrite lookup_insert_ne. }
  destruct S1 as [[I1 O1] B1]. destruct (negb (NT_SUCCESS status)); [exists false, s1; by split|].
  destruct (IH s1 (cursor + CmpRoundUp8 (12 + chars * 2 + bytes)) (remaining - CmpRoundUp8 (12 + chars * 2 + bytes)) I1 B1 Hd) as (ok & s2 & E2 & S2).
  { lia. } { Z.to_euclidean_division_equations. lia. } { lia. } { lia. }
  exists ok, s2. split; [done|]. by eapply step_trans.
Qed.

Lemma remove_subkey_eq s p h a : nodes s !! p = Some h ->
  remove_subkey s p a = Ok (put_node (put_node s p (h <| subkeys := unlink a (subkeys h) |>)) p (h <| subkeys := unlink a (subkeys h) |> <| subkeyCount := subkeyCount h - 1 |>)).
Proof. intros E. unfold remove_subkey, unlink_subkey. rewrite (get_Some _ _ _ E). run. rewrite get_put_eq. done. Qed.

(** A closed leaf unlinked and freed. *)
Lemma free_leaf x s p h a n s' : tree_ok x s -> nodes s !! p = Some h -> a ∈ subkeys h -> nodes s !! a = Some n -> subkeys n = [] ->
  (forall k, nodes s !! x = Some k -> parent k <> a) -> (allocations s <= allocations s')%nat ->
  nodes s' = delete a (<[p := h <| subkeys := unlink a (subkeys h) |> <| subkeyCount := subkeyCount h - 1 |>]> (nodes s)) -> tree_ok x s'.
Proof.
  intros T Ep Ha Ea Hs Hx HA E'. destruct (tr_child _ _ T _ _ _ Ep Ha) as (n1 & En1 & Hp). replace n1 with n in * by congruence.
  assert (Hne : p <> a) by (intros ->; by destruct (not_own_child _ _ _ _ T Ep)).
  pose proof (detach_tree x s p h a n (n <| parent := 0 |>) T Ep Ha Ea eq_refl eq_refl) as D. set (s1 := put_node _ _ _) in D.
  assert (T1 : tree_ok x s1). { apply D. destruct (tr_node _ _ T _ _ Ea). by split. }
  assert (T2 : tree_ok x (drop_node s1 a)).
  { eapply drop_tree; [exact T1|cbn; by rewrite lookup_insert_eq|done|done|]. intros k. cbn. intros [(<- & <-)|(_ & [(<- & <-)|(_ & E)]%lookup_insert_Some)]%lookup_insert_Some.
    - cbn. intros E0. by destruct (tree_nonzero _ _ _ _ T Ea).
    - cbn. by apply Hx.
    - by apply Hx. }
  apply (tree_ext _ (drop_node s1 a)); [|done|done]. rewrite E'. cbn. by rewrite delete_insert_eq.
Qed.

Lemma exempt_parent x top s a k : replay_inv x top s -> below s top a -> nodes s !! x = Some k -> parent k <> a.
Proof.
  intros I Ha Ex Hp. pose proof (ri_tree _ _ _ I) as T. destruct (ri_free _ _ _ I) as [->| ->]; [|by destruct (tree_nonzero _ _ _ _ T Ex)].
  destruct (below_node _ _ _ _ I Ha) as [n En]. destruct (tr_depth _ _ T _ _ Ex) as (d & _ & D). destruct (below_depth _ _ _ _ _ T D Ha) as (d' & D' & Hd).
  pose proof D as Dt. inversion Dt as [? ? E|? ? d0 E ? D0]; subst.
  - replace k with n0 in * by congruence. pose proof (tree_nonzero _ _ _ _ T En). congruence.
  - replace n0 with k in * by congruence. pose proof (depth_fun _ _ _ _ D0 D') as ->. destruct Hd as [E'|]; [|lia].
    rewrite E' in D'. pose proof (depth_fun _ _ _ _ D D'). lia.
Qed.

Lemma delete_step x top s s' p h a n (t : Z) : replay_inv x top s -> below s top a -> a <> top -> nodes s !! a = Some n -> parent n = p -> nodes s !! p = Some h -> subkeys n = [] ->
  tree_ok x s' -> nodes s' = delete a (<[p := h <| subkeys := unlink a (subkeys h) |> <| subkeyCount := subkeyCount h - 1 |> <| lastWriteTime := t |>]> (nodes s)) ->
  step_ok x top s s'.
Proof.
  intros I Ha Hne Ea Hp Ep Hs T' E'. pose proof (ri_tree _ _ _ I) as T. destruct (below_parent _ _ _ _ _ T Ha Hne Ea) as (Bp & h' & Eh' & Hin).
  rewrite Hp in *. replace h' with h in * by congruence. assert (Hpa : p <> a) by (intros ->; by destruct (not_own_child _ _ _ _ T Ep)).
  apply step_ext; try done; rewrite ?E'.
  - rewrite lookup_delete_ne by congruence. destruct (ri_top _ _ _ I) as [m Em]. destruct (decide (p = top)) as [->|]; [rewrite lookup_insert_eq|rewrite lookup_insert_ne by done]; eauto.
  - intros b k Eb Hnb. rewrite lookup_delete_ne by (by intros <-). rewrite lookup_insert_ne; [done|]. by intros <-.
  - intros q m c [_ [(<- & <-)|(_ & Eq)]%lookup_insert_Some]%lookup_delete_Some Hc; [|eauto]. exists h. split; [done|]. by apply elem_of_unlink in Hc as [? _].
  - intros b k [_ [(<- & <-)|(_ & Eb)]%lookup_insert_Some]%lookup_delete_Some _; [exists h; auto|exists k; auto].
Qed.

Lemma rename_step x top s s' p h a n nm l : replay_inv x top s -> below s top a -> a <> top -> nodes s !! a = Some n -> parent n = p -> nodes s !! p = Some h ->
  (forall c, c ∈ l -> c ∈ subkeys h) -> nm <> [] -> tree_ok x s' -> nodes s' = <[p := h <| subkeys := l |>]> (<[a := n <| name := nm |>]> (nodes s)) -> step_ok x top s s'.
Proof.
  intros I Ha Hne Ea Hp Ep Hl Hnm T' E'. pose proof (ri_tree _ _ _ I) as T. destruct (below_parent _ _ _ _ _ T Ha Hne Ea) as (Bp & h' & Eh' & Hin).
  rewrite Hp in *. replace h' with h in * by congruence. assert (Hpa : p <> a) by (intros ->; by destruct (not_own_child _ _ _ _ T Ep)).
  apply step_ext; try done; rewrite ?E'.
  - destruct (ri_top _ _ _ I) as [m Em]. destruct (decide (p = top)) as [->|]; [rewrite lookup_insert_eq; eauto|rewrite lookup_insert_ne by done]. rewrite lookup_insert_ne by done. eauto.
  - intros b k Eb Hnb. rewrite lookup_insert_ne by (by intros <-). rewrite lookup_insert_ne; [done|]. by intros <-.
  - intros q m c [(<- & <-)|(_ & [(<- & <-)|(_ & Eq)]%lookup_insert_Some)]%lookup_insert_Some Hc; [|exists n; by cbn in Hc|eauto].
    exists h. split; [done|]. by apply Hl.
  - intros b k [(<- & <-)|(_ & [(<- & <-)|(_ & Eq)]%lookup_insert_Some)]%lookup_insert_Some _; [exists h; auto|exists n; auto|exists k; auto].
Qed.

Lemma CmpApplyRecord_safe x top s data r : replay_inv x top s -> Forall is_u8 data -> record_ok data r ->
  exists ok s', CmpApplyRecord s top data r = Ok (ok, s') /\ step_ok x top s s'.
Proof.
  intros I Hd Hr. pose proof (rk_path _ _ Hr) as Hp. unfold CmpApplyRecord.
  destruct (op r =? CMP_OP_CREATE_KEY).
  { destruct (CmpResolveRecordKey_safe x top s (recordPath r) true I Hp) as (a & s1 & -> & [I1 O1] & Ha & _). run.
    destruct (Z.eqb_spec a 0) as [_|H0]; [exists false, s1; by split|]. destruct Ha as [?|Ha]; [done|].
    destruct (stamp_safe x top s1 a (stamp r) I1 Ha) as (n & En & -> & [I2 O2] & B2). run. set (n2 := set_field lastWriteTime _ n) in *. set (s2 := put_node s1 a n2) in *.
    assert (E2 : nodes s2 !! a = Some n2) by (cbn; by rewrite lookup_insert_eq). rewrite (get_Some _ _ _ E2). run. eexists _, _. split; [done|].
    eapply step_trans; [exact O1|]. eapply step_trans; [exact O2|]. eapply (info_step x top s2 _ a n2 (n2 <| isLink := _ |>)); [done|by apply B2|done| |done|done|done|done].
    eapply put_info_tree; [apply I2|exact E2|done|done|]. apply node_link_ok. apply (tr_node _ _ (ri_tree _ _ _ I2) _ _ E2). }
  destruct (CmpResolveRecordKey_safe x top s (recordPath r) false I Hp) as (a & s1 & -> & _ & Ha & Hs). rewrite Hs in Ha |- * by done. clear s1 Hs. run.
  assert (Hno : exists ok s', Ok (false, s) = Ok (ok, s') /\ step_ok x top s s') by (exists false, s; split; [done|by apply step_refl]).
  destruct (Z.eqb_spec a 0) as [->|H0]; cbn [orb]; [by repeat case_match|]. destruct Ha as [?|Ha]; [done|]. destruct (below_node _ _ _ _ I Ha) as [n En].
  pose proof (tr_node _ _ (ri_tree _ _ _ I) _ _ En) as Hn.
  destruct (op r =? CMP_OP_SET_VALUES).
  { destruct (stamp_safe x top s a (stamp r) I Ha) as (n' & En' & -> & [I2 O2] & B2). run. destruct (rk_tail _ _ Hr) as (R1 & R2 & R3 & R4).
    destruct (apply_values_safe x top _ a data (tail_at r) (tailBytes r) (Z.to_nat (recordValues r)) I2 (B2 _ Ha) Hd R1 R2 R3 R4) as (ok & s2 & E2 & S2).
    exists ok, s2. split; [done|]. by eapply step_trans. }
  destruct (op r =? CMP_OP_DELETE_KEY).
  { destruct (Z.eqb_spec a top) as [|Hat]; [done|]. rewrite (get_Some _ _ _ En). run. destruct (Z.eqb_spec (parent n) 0) as [|Hp0]; cbn [orb]; [done|].
    destruct (Z.eqb_spec (subkeyCount n) 0) as [Hc|]; cbn [negb]; [|done]. destruct (ri_below _ _ _ I a n Ha Hat En) as [Hbody Hname]. rewrite Hbody. run.
    destruct (below_parent _ _ _ _ _ (ri_tree _ _ _ I) Ha Hat En) as (Bp & h & Eh & Hin). assert (Hpa : parent n <> a). { intros E. rewrite E in Eh. by destruct (not_own_child _ _ _ _ (ri_tree _ _ _ I) Eh). }
    rewrite (remove_subkey_eq _ _ _ _ Eh). run. set (h1 := set_field subkeyCount _ _). unfold stamp_node. rewrite get_put_eq. run. set (h2 := h1 <| lastWriteTime := _ |>).
    unfold CmpFreeValues. rewrite !get_put_ne by done. rewrite (get_Some _ _ _ En). run. unfold free_key. rewrite get_put_eq. run. change (name (n <| values := [] |> <| valueCount := 0 |>)) with (name n).
    rewrite bool_decide_eq_false_2 by done. run. eexists _, _. split; [done|].
    assert (Hs : subkeys n = []). { destruct Hn as [_ _ _ _ Hlen _ _]. destruct (subkeys n); [done|cbn in Hlen; lia]. }
    set (s3 := put_node s (parent n) h2). assert (S3 : nodes (drop_node (put_node (put_node (put_node (put_node s (parent n) (h <| subkeys := unlink a (subkeys h) |>)) (parent n) h1) (parent n) h2) a (n <| values := [] |> <| valueCount := 0 |>)) a) = delete a (<[parent n := h2]> (nodes s))).
    { cbn. rewrite delete_insert_eq. by rewrite !insert_insert_eq. }
    eapply (delete_step x top s _ (parent n) h a n); [done|done|done|done|done|done|done| |exact S3].
    assert (Eh2 : nodes (put_node s (parent n) h2) !! parent n = Some h2) by (cbn; by rewrite lookup_insert_eq).
    assert (T1 : tree_ok x (drop_node (put_node s (parent n) h1) a)).
    { eapply (free_leaf x s (parent n) h a n); [apply I|done|done|done|done|by intros k; apply (exempt_parent x top s a k I Ha)|done|done]. }
    assert (E1 : nodes (drop_node (put_node s (parent n) h1) a) !! parent n = Some h1) by (cbn; by rewrite lookup_delete_ne, lookup_insert_eq).
    apply (tree_ext _ (put_node (drop_node (put_node s (parent n) h1) a) (parent n) h2)); [|done|].
    - rewrite S3. cbn. rewrite <- (delete_insert_ne _ a (parent n)) by done. by rewrite insert_insert_eq.
    - eapply put_info_tree; [exact T1|exact E1|done|done|]. apply node_stamp_ok; [apply (tr_node _ _ T1 _ _ E1)|apply s64_range]. }
  destruct (op r =? CMP_OP_DELETE_VALUE).
  { destruct (CmpReadTailName_safe data r Hd Hr) as (nm & -> & Hnm). run. destruct nm as [nm|]; [|done].
    destruct (stamp_safe x top s a (stamp r) I Ha) as (n' & En' & -> & [I2 O2] & B2). run. set (s2 := put_node s a _) in *.
    assert (E2 : nodes s2 !! a = Some (n' <| lastWriteTime := s64 (stamp r) |>)) by (cbn; by rewrite lookup_insert_eq).
    destruct (CmpRemoveValue_spec x s2 a _ nm (ri_tree _ _ _ I2) E2 (Hnm _ eq_refl)) as (b & s3 & -> & T3 & _ & _ & Hb). run. eexists _, _. split; [done|]. eapply step_trans; [exact O2|].
    destruct b; [|destruct Hb as [-> _]; by apply step_refl]. destruct Hb as (i & v & l & _ & _ & _ & N3). by eapply (info_step x top s2 _ a _ _ I2 (B2 _ Ha) E2 T3 N3). }
  destruct (op r =? CMP_OP_RENAME_KEY); [|done].
  destruct (Z.eqb_spec a top) as [|Hat]; [done|]. rewrite (get_Some _ _ _ En). run. destruct (Z.eqb_spec (parent n) 0) as [|Hp0]; [done|].
  destruct (CmpReadTailName_safe data r Hd Hr) as (nm & -> & Hnm). run. destruct nm as [nm|]; [|done]. case_bool_decide as Hne; [done|].
  destruct (below_parent _ _ _ _ _ (ri_tree _ _ _ I) Ha Hat En) as (Bp & h & Eh & Hin).
  destruct (CmpRenameNode_spec x s (parent n) h a n nm (ri_tree _ _ _ I) En eq_refl Eh Hin (Hnm _ eq_refl) Hne) as (b & s2 & -> & T2 & _ & _ & _ & Hb). run.
  destruct b; cbn [negb]; [|exists false, s2; split; [done|by apply nodes_step]]. destruct Hb as (l & (l1 & l2 & -> & Hl & _) & N2).
  assert (S2 : step_ok x top s s2). { eapply (rename_step x top s s2 (parent n) h a n nm); [done..| |done|done|exact N2].
    cbn in Hl. intros c Hc. destruct (decide (c = a)) as [->|Hca]; [done|]. assert (Hu : c ∈ unlink a (subkeys h)); [|by apply elem_of_unlink in Hu as [? _]].
    rewrite Hl. apply elem_of_app in Hc as [?|[?|?]%elem_of_cons]; [apply elem_of_app; by left|done|apply elem_of_app; by right]. }
  destruct S2 as [I2 O2]. assert (Hpa : parent n <> a). { intros E. rewrite E in Eh. by destruct (not_own_child _ _ _ _ (ri_tree _ _ _ I) Eh). }
  assert (E2 : nodes s2 !! a = Some (n <| name := nm |>)) by (rewrite N2, lookup_insert_ne, lookup_insert_eq; done).
  unfold stamp_node. rewrite (get_Some _ _ _ E2). run. eexists _, _. split; [done|]. eapply step_trans; [exact O2|].
  assert (B2 : below s2 top a). { pose proof (ri_tree _ _ _ I2) as T2'. assert (Bq : below s2 top (parent n)).
    - assert (Hext : forall b, below s top b -> (forall d d', depth s b d -> depth s (parent n) d' -> (d <= d')%nat) -> below s2 top b).
      { pose proof (ri_tree _ _ _ I) as T. destruct (tr_depth _ _ T _ _ Eh) as (dp & _ & Dp). induction 1 as [|q m c Hq IH Eq Hc]; intros Hdp; [apply below_top|].
        destruct (tr_depth _ _ T _ _ Eq) as (dq & _ & Dq). pose proof (child_depth _ _ _ _ _ _ T Eq Hc Dq) as Dc. pose proof (Hdp _ _ Dc Dp).
        assert (q <> parent n). { intros ->. pose proof (depth_fun _ _ _ _ Dq Dp). lia. }
        assert (q <> a). { intros ->. pose proof (child_depth _ _ _ _ _ _ T Eh Hin Dp) as Da. pose proof (depth_fun _ _ _ _ Dq Da). lia. }
        apply (below_child _ _ q m); [|rewrite N2, !lookup_insert_ne by done; done|done]. apply IH. intros d d' D D'. pose proof (depth_fun _ _ _ _ D Dq). pose proof (depth_fun _ _ _ _ D' Dp). lia. }
      apply Hext; [done|]. intros d d' D D'. pose proof (depth_fun _ _ _ _ D D'). lia.
    - apply (below_child _ _ (parent n) (h <| subkeys := l1 ++ a :: l2 |>)); [done|rewrite N2; by rewrite lookup_insert_eq|]. cbn. apply elem_of_app. right. left. }
  eapply (info_step x top s2 _ a _ _ I2 B2 E2); [|done|done|done|done]. eapply put_info_tree; [apply I2|exact E2|done|done|].
  apply node_stamp_ok; [apply (tr_node _ _ (ri_tree _ _ _ I2) _ _ E2)|apply s64_range].
Qed.
End applying.

(** ** Emptying a key *)

Section freeing.
Context `{MACHINE}.
Implicit Types (s : CM) (a b p c x top : addr) (n k h : CMP_KEY_NODE) (data : list Z) (d : nat).

Definition emptied n : CMP_KEY_NODE := n <| subkeys := [] |> <| subkeyCount := 0 |> <| values := [] |> <| valueCount := 0 |>.

(** [a] may be emptied: nothing below it is open or nameless, and the exempt key does not hang there. *)
Record closed_below x s a : Prop := {
  cb_below : forall b k, below s a b -> b <> a -> nodes s !! b = Some k -> bodyCount k = 0 /\ name k <> [];
  cb_exempt : forall k, nodes s !! x = Some k -> ~ below s a (parent k);
}.

(** [s'] is [s] without what is below [a], the node of [a] being [n']. *)
Record pruned s s' a n' : Prop := {
  pr_node : nodes s' !! a = Some n';
  pr_same : forall b, ~ below s a b -> nodes s' !! b = nodes s !! b;
  pr_gone : forall b m, nodes s' !! b = Some m -> b <> a -> nodes s !! b = Some m /\ ~ below s a b;
  pr_allocations : allocations s' = allocations s;
}.

Lemma child_not_above x s a n c : tree_ok x s -> nodes s !! a = Some n -> c ∈ subkeys n -> ~ below s c a.
Proof.
  intros T E Hc Hb. destruct (tr_depth _ _ T _ _ E) as (d & _ & D). destruct (below_depth _ _ _ _ _ T (child_depth _ _ _ _ _ _ T E Hc D) Hb) as (d' & D' & Hd).
  pose proof (depth_fun _ _ _ _ D D') as <-. destruct Hd as [->|]; [|lia]. by destruct (not_own_child _ _ _ _ T E).
Qed.

Lemma below_up s a n c b : nodes s !! a = Some n -> c ∈ subkeys n -> below s c b -> below s a b.
Proof. intros E Hc Hb. eapply below_trans; [|exact Hb]. by apply (below_child _ _ a n); [apply below_top|..]. Qed.

(** One child's subtree freed and the child unlinked. *)
Lemma drop_child x s a n c l s1 k : tree_ok x s -> nodes s !! a = Some n -> subkeys n = c :: l -> nodes s !! c = Some k -> closed_below x s a ->
  tree_ok x s1 -> pruned s s1 c (emptied k) ->
  exists s3, (s ← remove_subkey s1 a c; k ← get_node s c; _ ← ASSERT (bodyCount k =? 0) "child->bodyCount == 0"; free_key s c) = Ok s3 /\
    tree_ok x s3 /\ nodes s3 !! a = Some (n <| subkeys := l |> <| subkeyCount := subkeyCount n - 1 |>) /\ allocations s3 = allocations s /\
    (forall b, b <> a -> ~ below s c b -> nodes s3 !! b = nodes s !! b) /\ (forall b m, nodes s3 !! b = Some m -> b <> a -> nodes s !! b = Some m /\ ~ below s c b).
Proof.
  intros T Ea Hl Ek [Cb Cx] T1 [P1 P2 P3 P4]. assert (Hc : c ∈ subkeys n) by (rewrite Hl; left). assert (Hne : c <> a) by (intros ->; by destruct (not_own_child _ _ _ _ T Ea)).
  assert (Ea1 : nodes s1 !! a = Some n) by (rewrite P2; [done|by eapply child_not_above]). rewrite (remove_subkey_eq _ _ _ _ Ea1). run.
  destruct (Cb c k) as [Hb Hn]; [by apply (below_child _ _ a n); [apply below_top|..]|done|done|]. rewrite get_put_ne, get_put_ne by done. rewrite (get_Some _ _ _ P1). run.
  change (bodyCount (emptied k)) with (bodyCount k). rewrite Hb. run. unfold free_key. rewrite get_put_ne, get_put_ne by done. rewrite (get_Some _ _ _ P1). run.
  change (name (emptied k)) with (name k). rewrite bool_decide_eq_false_2 by done. run. eexists. split; [done|].
  assert (Hun : unlink c (subkeys n) = l). { rewrite Hl. apply unlink_head. rewrite <- Hl. apply (tr_node _ _ T _ _ Ea). } rewrite Hun.
  set (n' := n <| subkeys := l |> <| subkeyCount := subkeyCount n - 1 |>). set (s3 := drop_node _ _).
  assert (E3 : nodes s3 = delete c (<[a := n']> (nodes s1))) by (unfold s3; cbn; by rewrite insert_insert_eq).
  split; [|split; [rewrite E3, lookup_delete_ne, lookup_insert_eq; done|split; [cbn; by rewrite P4|]]].
  - eapply (free_leaf x s1 a n c (emptied k)); [done|done|done|done|done| |done|by rewrite Hun].
    intros m Em Hm. apply (Cx m).
    + destruct (decide (x = c)) as [->|Hxc]; [|by apply P3].
      rewrite P1 in Em. injection Em as <-. cbn in Hm. destruct (tr_child _ _ T1 _ _ _ Ea1 Hc) as (m' & Em' & Pm'). rewrite P1 in Em'. injection Em' as <-. cbn in Pm'. congruence.
    + rewrite Hm. by apply (below_child _ _ a n); [apply below_top|..].
  - split.
    + intros b Hba Hbc. rewrite E3, lookup_delete_ne, lookup_insert_ne by (done || (intros <-; apply Hbc, below_top)). by apply P2.
    + intros b m. rewrite E3. intros [Hbc Em]%lookup_delete_Some Hba. rewrite lookup_insert_ne in Em by done. by apply P3.
Qed.

Lemma closed_child x s a n c : tree_ok x s -> nodes s !! a = Some n -> c ∈ subkeys n -> closed_below x s a -> closed_below x s c.
Proof.
  intros T E Hc [Cb Cx]. split.
  - intros b k Hb Hne Ek. apply (Cb b); [by eapply below_up| |done]. intros ->. by destruct (child_not_above _ _ _ _ _ T E Hc).
  - intros k Ek Hb. apply (Cx k Ek). by eapply below_up.
Qed.

Lemma below_drop s s3 a b : (forall q m c, nodes s3 !! q = Some m -> c ∈ subkeys m -> exists m', nodes s !! q = Some m' /\ c ∈ subkeys m') -> below s3 a b -> below s a b.
Proof. apply below_ext. Qed.

Definition free_child a (fuel : nat) s c : outcome CM :=
  s ← free_contents s c fuel; s ← remove_subkey s a c; k ← get_node s c; _ ← ASSERT (bodyCount k =? 0) "child->bodyCount == 0"; free_key s c.

Lemma free_children_spec x (fuel : nat) :
  (forall s a n d, tree_ok x s -> nodes s !! a = Some n -> depth s a d -> (97 <= fuel + d)%nat -> closed_below x s a ->
    exists s', free_contents s a fuel = Ok s' /\ tree_ok x s' /\ pruned s s' a (emptied n)) ->
  forall l s a n d, tree_ok x s -> nodes s !! a = Some n -> depth s a d -> (97 <= S fuel + d)%nat -> closed_below x s a -> subkeys n = l ->
    exists s', foldM (free_child a fuel) s l = Ok s' /\ tree_ok x s' /\ pruned s s' a (n <| subkeys := [] |> <| subkeyCount := 0 |>).
Proof.
  intros IH. induction l as [|c l IHl]; intros s a n d T Ea D Hf C Hl.
  { exists s. split; [done|]. split; [done|]. assert (En : n = n <| subkeys := [] |> <| subkeyCount := 0 |>).
    { pose proof (nk_subkeyCount _ (tr_node _ _ T _ _ Ea)) as E. rewrite Hl in E. destruct n. cbn in *. by subst. }
    split; [by rewrite <- En|done| |done]. intros b m Em Hne. split; [done|]. intros Hb. destruct Hb as [|p h c Hp Ep Hc]; [done|].
    clear Em Hne. revert h c Ep Hc. induction Hp as [|q m' p' Hq IHq Eq Hp']; intros h c' Ep Hc; [|by eapply IHq].
    replace h with n in Hc by congruence. rewrite Hl in Hc. by apply not_elem_of_nil in Hc. }
  assert (Hc : c ∈ subkeys n) by (rewrite Hl; left). destruct (tr_child _ _ T _ _ _ Ea Hc) as (k & Ek & Pk).
  destruct (IH s c k (S d) T Ek (child_depth _ _ _ _ _ _ T Ea Hc D) ltac:(lia) (closed_child _ _ _ _ _ T Ea Hc C)) as (s1 & E1 & T1 & P1).
  destruct (drop_child x s a n c l s1 k T Ea Hl Ek C T1 P1) as (s3 & E3 & T3 & Ea3 & A3 & Hsame & Hgone).
  set (n3 := n <| subkeys := l |> <| subkeyCount := subkeyCount n - 1 |>) in *.
  assert (Hlinks : forall q m z, nodes s3 !! q = Some m -> z ∈ subkeys m -> exists m', nodes s !! q = Some m' /\ z ∈ subkeys m').
  { intros q m z Eq Hz. destruct (decide (q = a)) as [->|Hq]; [|exists m; split; [by apply Hgone|done]]. exists n. split; [done|]. rewrite Ea3 in Eq. injection Eq as <-. cbn in Hz. rewrite Hl. by right. }
  assert (D3 : depth s3 a d).
  { assert (Hup : forall b m, depth s b m -> ~ below s c b -> depth s3 b m); [|apply Hup; [done|by eapply child_not_above]].
    intros b m. induction 1 as [b q Eb Hz|b q m Eb Hz _ IHd]; intros Hb.
    - destruct (decide (b = a)) as [->|Hba]; [apply (depth_root _ _ _ Ea3); cbn; congruence|]. apply (depth_root _ _ q); [by rewrite Hsame|done].
    - assert (Hpb : ~ below s c (parent q)).
      { intros Hp. destruct (decide (b = x)) as [->|Hbx]; [by apply (cb_exempt _ _ _ C q Eb), (below_up s a n c)|].
        destruct (tr_listed _ _ T _ _ Eb Hz Hbx) as (h & Eh & Hin). apply Hb. by apply (below_child _ _ (parent q) h). }
      destruct (decide (b = a)) as [->|Hba].
      + replace q with n in * by congruence. by apply (depth_child _ _ _ m Ea3); [..|apply IHd].
      + by apply (depth_child _ _ q m); [rewrite Hsame|..|apply IHd]. }
  destruct (IHl s3 a n3 d T3 Ea3 D3 Hf) as (s' & E' & T' & [Q1 Q2 Q3 Q4]); [|done|].
  { destruct C as [Cb Cx]. split.
    - intros b m Hb Hne Eb. apply (Cb b m); [by apply (below_drop s s3)|done|]. by apply Hgone.
    - intros m Ex Hb. destruct (decide (x = a)) as [->|Hxa].
      + apply (Cx n Ea). rewrite Ea3 in Ex. injection Ex as <-. cbn in Hb. by apply (below_drop s s3).
      + apply (Cx m); [by apply Hgone|]. by apply (below_drop s s3). }
  assert (Ec : free_child a fuel s c = Ok s3) by (unfold free_child; rewrite E1; exact E3).
  exists s'. split; [cbn [foldM]; rewrite Ec; exact E'|]. split; [done|]. split.
  - rewrite Q1. done.
  - intros b Hb. rewrite Q2 by (intros Hb3; by apply Hb, (below_drop s s3)). apply Hsame; [intros ->; by apply Hb, below_top|]. intros Hcb. apply Hb. by eapply below_up.
  - intros b m Eb Hne. destruct (Q3 b m Eb Hne) as [Eb3 Hnb]. destruct (Hgone b m Eb3 Hne) as [Eb0 Hnc]. split; [done|]. intros Hb. apply Hnb.
    clear - Hb Hne Hnc Ea Ea3 Hl Hsame. induction Hb as [|q m z Hq IHq Eq Hz]; [done|]. destruct (decide (q = a)) as [->|Hqa].
    + apply (below_child _ _ a n3); [apply below_top|done|]. replace m with n in Hz by congruence. rewrite Hl in Hz. cbn. apply elem_of_cons in Hz as [->|?]; [|done]. by destruct Hnc; apply below_top.
    + assert (Hnq : ~ below s c q). { intros Hcq. apply Hnc. by eapply below_child. }
      apply (below_child _ _ q m); [by apply IHq|by rewrite Hsame|done].
  - congruence.
Qed.

Lemma free_contents_spec x fuel s a n d : tree_ok x s -> nodes s !! a = Some n -> depth s a d -> (97 <= fuel + d)%nat -> closed_below x s a ->
  exists s', free_contents s a fuel = Ok s' /\ tree_ok x s' /\ pruned s s' a (emptied n).
Proof.
  revert s a n d. induction fuel as [|fuel IH]; intros s a n d T Ea D Hf C.
  { destruct (tr_depth _ _ T _ _ Ea) as (d' & Hd & D'). pose proof (depth_fun _ _ _ _ D D'). lia. }
  cbn [free_contents]. rewrite (get_Some _ _ _ Ea). run.
  destruct (free_children_spec x fuel IH (subkeys n) s a n d T Ea D Hf C eq_refl) as (s1 & E1 & T1 & [P1 P2 P3 P4]).
  unfold free_child in E1. rewrite E1. run. unfold CmpFreeValues. rewrite (get_Some _ _ _ P1). run. eexists. split; [done|].
  assert (Hn : node_ok (emptied n)). { destruct (tr_node _ _ T _ _ Ea). split; cbn; try done; constructor. }
  split; [eapply put_info_tree; [exact T1|exact P1|done|done|exact Hn]|]. split.
  - cbn. by rewrite lookup_insert_eq.
  - intros b Hb. cbn. rewrite lookup_insert_ne by (intros <-; by apply Hb, below_top). by apply P2.
  - intros b m Eb Hne. cbn in Eb. rewrite lookup_insert_ne in Eb by done. by apply P3.
  - done.
Qed.

Lemma CmpFreeSubtreeContents_spec x top s n : replay_inv x top s -> nodes s !! top = Some n ->
  exists s', CmpFreeSubtreeContents s top = Ok s' /\ tree_ok x s' /\ pruned s s' top (emptied n).
Proof.
  intros I E. destruct (tr_depth _ _ (ri_tree _ _ _ I) _ _ E) as (d & Hd & D). apply (free_contents_spec x LEVELS s top n d); [apply I|done|done| |].
  - change LEVELS with 97%nat. lia.
  - split; [apply I|]. intros k Ek Hb. by apply (exempt_parent x top s (parent k) k I Hb Ek).
Qed.
End freeing.

(** ** The whole image *)

Section image.
Context `{MACHINE}.
Implicit Types (s : CM) (top x : addr) (data : list Z).

Lemma replay_records_spec x top s data (o applied : Z) (fuel : nat) : replay_inv x top s -> Forall is_u8 data -> 0 <= o <= Z.of_nat (length data) -> o mod 8 = 0 ->
  Z.of_nat (length data) - o < 24 * Z.of_nat fuel -> exists o' applied' s', replay_records s top data o applied fuel = Ok (o', applied', s') /\ step_ok x top s s'.
Proof.
  revert s o applied. induction fuel as [|fuel IH]; intros s o applied I Hd Ho H8 Hf; [lia|]. cbn [replay_records].
  destruct (CmpReadRecord_safe data o Hd Ho H8) as (r & -> & Hr). run. destruct r as [[record next]|]; [|do 3 eexists; split; [done|by apply step_refl]].
  destruct Hr as (Hn & Hn8 & Hrec). destruct (CmpApplyRecord_safe x top s data record I Hd Hrec) as (ok & s1 & -> & [I1 O1]). run.
  destruct ok; cbn [negb]; [|do 3 eexists; split; [done|by split]]. destruct (IH s1 next (applied + 1) I1 Hd ltac:(lia) Hn8 ltac:(lia)) as (o' & ap & s2 & E & S2).
  exists o', ap, s2. split; [done|]. by eapply step_trans.
Qed.

(** C8. Replaying an image never reads outside it, never trips an assertion and
    always ends, whatever the bytes: the tree keeps its shape, keys outside the
    top's subtree are untouched, and a refused NtLoadKey image leaves its top
    empty. *)
Theorem hive_replay_safe x top s data (keepPrefix : bool) : replay_inv x top s -> Forall is_u8 data ->
  exists status s', CmpReplayImage s top data keepPrefix = Ok (status, s') /\ replay_inv x top s' /\ outside top s s' /\
    (status = STATUS_SUCCESS \/ status = STATUS_NOT_REGISTRY_FILE) /\
    (status = STATUS_NOT_REGISTRY_FILE -> s' = s \/ keepPrefix = false /\ exists n, nodes s' !! top = Some n /\ subkeys n = [] /\ values n = []).
Proof.
  intros I Hd. unfold CmpReplayImage. cbv zeta.
  assert (Hno : exists status s', Ok (STATUS_NOT_REGISTRY_FILE, s) = Ok (status, s') /\ replay_inv x top s' /\ outside top s s' /\
    (status = STATUS_SUCCESS \/ status = STATUS_NOT_REGISTRY_FILE) /\
    (status = STATUS_NOT_REGISTRY_FILE -> s' = s \/ keepPrefix = false /\ exists n, nodes s' !! top = Some n /\ subkeys n = [] /\ values n = [])).
  { exists STATUS_NOT_REGISTRY_FILE, s. split; [done|]. destruct (step_refl x top s I) as [? ?]. split; [done|]. split; [done|]. split; [by right|by left]. }
  destruct (Z.ltb_spec (Z.of_nat (length data)) CMP_HIVE_HEADER_BYTES) as [|Hl]; cbn [orb]; [done|]. destruct (CMP_HIVE_MAX_BYTES <? Z.of_nat (length data)); [done|]. unfold CMP_HIVE_HEADER_BYTES in *.
  destruct (read_at_spec data 0 4 Hd ltac:(lia) ltac:(lia)) as (magic & -> & _). run. destruct (read_at_spec data 4 4 Hd ltac:(lia) ltac:(lia)) as (version & -> & _). run.
  destruct (negb (magic =? CMP_HIVE_MAGIC) || negb (version =? CMP_HIVE_VERSION)); [done|]. destruct (ri_top _ _ _ I) as [t Et].
  destruct (key_depth_spec _ _ _ _ (ri_tree _ _ _ I) Et) as (d & Hdp & _ & ->). run. destruct ((Z.of_nat d =? 0) || (CMP_HIVE_MAX_DEPTH <? Z.of_nat d)); [done|]. clear Hno.
  destruct (replay_records_spec x top s data 16 0 (Z.to_nat (Z.of_nat (length data) / CMP_RECORD_HEADER_BYTES + 1)) I Hd ltac:(lia) eq_refl) as (o & ap & s1 & -> & [I1 O1]).
  { unfold CMP_RECORD_HEADER_BYTES. Z.to_euclidean_division_equations. lia. }
  run. destruct (negb _ && negb keepPrefix) eqn:Hf.
  - apply andb_true_iff in Hf as [_ Hk%negb_true_iff]. destruct (ri_top _ _ _ I1) as [t1 Et1].
    destruct (CmpFreeSubtreeContents_spec x top s1 t1 I1 Et1) as (s2 & -> & T2 & [P1 P2 P3 P4]). run. do 2 eexists. split; [done|].
    assert (B : forall b, below s2 top b -> b = top).
    { induction 1 as [|p h c _ -> Ep Hc]; [done|]. rewrite P1 in Ep. injection Ep as <-. by apply not_elem_of_nil in Hc. }
    split; [split; [done|by exists (emptied t1)|by intros b k ->%B|apply I1]|]. split.
    { intros b k Eb Hb. destruct (O1 b k Eb Hb) as [E1 H1]. split; [by rewrite P2|]. intros ->%B. by apply H1, below_top. }
    split; [by right|]. intros _. right. split; [done|]. by exists (emptied t1).
  - do 2 eexists. split; [done|]. split; [done|]. split; [done|]. split; [by left|]. done.
Qed.
End image.

(** ** A tree of one key *)

Definition quiet_machine : MACHINE := {| pool_answers := fun _ => true; interrupt_time := fun _ => 0 |}.

Definition lone_key : CM := mkCM (<[1 := mkNODE 0 [] [] 0 0 0 0 false false false []]> ∅) 1 0 [].

Lemma lone_key_inv : replay_inv 0 1 lone_key.
Proof.
  assert (K : forall a n, nodes lone_key !! a = Some n -> a = 1 /\ n = mkNODE 0 [] [] 0 0 0 0 false false false []) by (intros a n; cbn; intros [(<- & <-)|(_ & [=])]%lookup_insert_Some; done).
  split; [split| | |by right].
  - intros a n (-> & ->)%K. split; cbn; try done; constructor.
  - by intros p n c (-> & ->)%K ?%not_elem_of_nil.
  - by intros a n (-> & ->)%K.
  - intros a n (-> & ->)%K. exists 1%nat. split; [lia|]. by eapply depth_root.
  - intros a n (-> & ->)%K. cbn. lia.
  - by eexists.
  - intros b k Hb Hne (-> & ->)%K. done.
Qed.

Lemma hive_replay_safe_witness : exists status s', CmpReplayImage (H := quiet_machine) lone_key 1 (hive_header ++ [1; 2; 3]) true = Ok (status, s') /\ replay_inv 0 1 s'.
Proof.
  destruct (hive_replay_safe (H := quiet_machine) 0 1 lone_key (hive_header ++ [1; 2; 3]) true) as (status & s' & E & I & _).
  - apply lone_key_inv.
  - unfold hive_header. rewrite !Forall_app. repeat split; try apply le_bytes_u8. repeat constructor; done.
  - by exists status, s'.
Defined.
