(* ===== verification/CmView.v ===== *)
(** * CmView: the registry as a tree of keys.

    What a key's subtree says, without addresses; the changes of a log as
    functions on it; and the step from a change at one key of the heap to the
    same change of the tree above it. *)

From S2P Require Import Prelude NtStatus Rtl CmTree CmReplay.

(** ** Trees of keys *)

Inductive ktree := Key (nm : list Z) (time : Z) (link : bool) (vs : list CMP_VALUE) (subs : list ktree).

Definition tree_name (t : ktree) : list Z := let '(Key nm _ _ _ _) := t in nm.
Definition tree_values (t : ktree) : list CMP_VALUE := let '(Key _ _ _ vs _) := t in vs.
Definition tree_subs (t : ktree) : list ktree := let '(Key _ _ _ _ subs) := t in subs.
Definition with_subs (t : ktree) (l : list ktree) : ktree := let '(Key nm time link vs _) := t in Key nm time link vs l.
Definition with_values (t : ktree) (l : list CMP_VALUE) : ktree := let '(Key nm time link _ subs) := t in Key nm time link l subs.
Definition with_time (t : ktree) (time : Z) : ktree := let '(Key nm _ link vs subs) := t in Key nm time link vs subs.
Definition with_link (t : ktree) (link : bool) : ktree := let '(Key nm time _ vs subs) := t in Key nm time link vs subs.
Definition with_name (t : ktree) (nm : list Z) : ktree := let '(Key _ time link vs subs) := t in Key nm time link vs subs.

(** The scheme with a hypothesis for every subkey. *)
Lemma ktree_ind' (P : ktree -> Prop) : (forall nm time link vs subs, Forall P subs -> P (Key nm time link vs subs)) -> forall t, P t.
Proof.
  intros step. fix rec 1. intros [nm time link vs subs]. apply step. induction subs as [|t subs IH]; constructor; [apply rec|exact IH].
Qed.

(** ** Looking up and changing by path *)

Section paths.
Implicit Types (t u p : ktree) (l subs : list ktree) (nm : list Z) (names : list (list Z)) (g f : ktree -> option ktree).

Fixpoint alter_sub nm g l : option (list ktree) :=
  match l with
  | [] => None
  | t :: l => if bool_decide (fold_name (tree_name t) = fold_name nm) then t' ← g t; Some (t' :: l) else l' ← alter_sub nm g l; Some (t :: l')
  end.

(** [f] at the end of the path. *)
Fixpoint alter_at names f t : option ktree :=
  match names with
  | [] => f t
  | nm :: names => l ← alter_sub nm (alter_at names f) (tree_subs t); Some (with_subs t l)
  end.

(** The subkey of that name, and the others. *)
Fixpoint take_sub nm l : option (ktree * list ktree) :=
  match l with
  | [] => None
  | t :: l => if bool_decide (fold_name (tree_name t) = fold_name nm) then Some (t, l) else '(u, l') ← take_sub nm l; Some (u, t :: l')
  end.

Fixpoint place_sub t l : list ktree :=
  match l with
  | [] => [t]
  | u :: l' => if name_order (tree_name t) (tree_name u) <? 0 then t :: l else u :: place_sub t l'
  end.

Fixpoint find_value nm (l : list CMP_VALUE) : option nat :=
  match l with
  | [] => None
  | v :: l => if bool_decide (fold_name (value_name v) = fold_name nm) then Some O else S <$> find_value nm l
  end.

Fixpoint place_value (v : CMP_VALUE) (l : list CMP_VALUE) : list CMP_VALUE :=
  match l with
  | [] => [v]
  | w :: l' => if name_order (value_name v) (value_name w) <? 0 then v :: l else w :: place_value v l'
  end.

(** A value set: the name's first spelling stays. *)
Definition set_value (l : list CMP_VALUE) (v : CMP_VALUE) : list CMP_VALUE :=
  match find_value (value_name v) l with
  | None => place_value v l
  | Some i => alter (fun old => mkVALUE (value_name old) (value_type v) (value_data v)) i l
  end.

Definition unset_value nm (l : list CMP_VALUE) : list CMP_VALUE := match find_value nm l with None => l | Some i => delete i l end.

(** The subkey [nm] of [p], made when it is missing. *)
Definition create_sub nm (time : Z) (link : bool) p : option ktree :=
  match alter_sub nm (fun t => Some (with_link (with_time t time) link)) (tree_subs p) with
  | Some l => Some (with_subs p l)
  | None => Some (with_subs p (place_sub (Key nm time link [] []) (tree_subs p)))
  end.

Definition delete_sub nm (time : Z) p : option ktree :=
  '(u, l) ← take_sub nm (tree_subs p);
  match tree_subs u with [] => Some (with_time (with_subs p l) time) | _ => None end.

Definition rename_sub nm (time : Z) (nm' : list Z) p : option ktree :=
  '(u, l) ← take_sub nm (tree_subs p);
  Some (with_subs p (place_sub (with_time (with_name u nm') time) l)).
End paths.

(** A change of the tree, as a record spells it; [names] lead from the top to the key. *)
Inductive change :=
  | Create (names : list (list Z)) (time : Z) (link : bool)
  | SetValues (names : list (list Z)) (time : Z) (l : list CMP_VALUE)
  | DeleteKey (names : list (list Z)) (time : Z)
  | DeleteValue (names : list (list Z)) (time : Z) (nm : list Z)
  | RenameKey (names : list (list Z)) (time : Z) (nm : list Z).

(** What a change asks of the tree; [None]: it is refused. *)
Definition apply (c : change) (t : ktree) : option ktree :=
  match c with
  | Create names time link =>
      match last names with
      | None => Some (with_link (with_time t time) link)
      | Some nm => alter_at (removelast names) (create_sub nm time link) t
      end
  | SetValues names time l => alter_at names (fun t => Some (with_values (with_time t time) (foldl set_value (tree_values t) l))) t
  | DeleteKey names time => nm ← last names; alter_at (removelast names) (delete_sub nm time) t
  | DeleteValue names time nm => alter_at names (fun t => Some (with_values (with_time t time) (unset_value nm (tree_values t)))) t
  | RenameKey names time nm' => nm ← last names; alter_at (removelast names) (rename_sub nm time nm') t
  end.

Definition apply_all (l : list change) (t : ktree) : option ktree := foldl (fun o c => t ← o; apply c t) (Some t) l.

(** ** Facts about paths *)

Section path_facts.
Implicit Types (t u p : ktree) (l subs : list ktree) (nm : list Z) (names : list (list Z)) (g f : ktree -> option ktree).

Lemma alter_sub_at nm g l1 u l2 : Forall (fun t => fold_name (tree_name t) <> fold_name nm) l1 -> fold_name (tree_name u) = fold_name nm ->
  alter_sub nm g (l1 ++ u :: l2) = u' ← g u; Some (l1 ++ u' :: l2).
Proof.
  intros Hl Hu. induction Hl as [|t l1 Ht Hl IH]; cbn [alter_sub app]; [by rewrite bool_decide_eq_true_2|].
  rewrite bool_decide_eq_false_2, IH by done. by destruct (g u).
Qed.

Lemma alter_sub_Some nm g l l' : alter_sub nm g l = Some l' -> exists l1 u l2 u', l = l1 ++ u :: l2 /\ l' = l1 ++ u' :: l2 /\ g u = Some u' /\
  Forall (fun t => fold_name (tree_name t) <> fold_name nm) l1 /\ fold_name (tree_name u) = fold_name nm.
Proof.
  revert l'. induction l as [|t l IH]; intros l'; cbn [alter_sub]; [done|]. case_bool_decide as Ht.
  - destruct (g t) as [t'|] eqn:E; [|done]. intros [= <-]. by exists [], t, l, t'.
  - destruct (alter_sub nm g l) as [l0|] eqn:E; [|done]. intros [= <-]. destruct (IH _ eq_refl) as (l1 & u & l2 & u' & -> & -> & Hg & Hl & Hu).
    exists (t :: l1), u, l2, u'. split_and!; try done. by constructor.
Qed.

Lemma alter_sub_None nm g l : (forall t, is_Some (g t)) -> alter_sub nm g l = None -> Forall (fun t => fold_name (tree_name t) <> fold_name nm) l.
Proof.
  intros Hg. induction l as [|t l IH]; cbn [alter_sub]; [constructor|]. case_bool_decide as Ht; [by destruct (Hg t) as [? ->]|].
  destruct (alter_sub nm g l); [done|]. constructor; [done|by apply IH].
Qed.

Lemma alter_sub_miss nm g l : Forall (fun t => fold_name (tree_name t) <> fold_name nm) l -> alter_sub nm g l = None.
Proof. induction 1 as [|t l Ht _ IH]; cbn [alter_sub]; [done|]. by rewrite bool_decide_eq_false_2, IH. Qed.

Lemma take_sub_Some nm l u l' : take_sub nm l = Some (u, l') -> exists l1 l2, l = l1 ++ u :: l2 /\ l' = l1 ++ l2 /\
  Forall (fun t => fold_name (tree_name t) <> fold_name nm) l1 /\ fold_name (tree_name u) = fold_name nm.
Proof.
  revert l'. induction l as [|t l IH]; intros l'; cbn [take_sub]; [done|]. case_bool_decide as Ht.
  - intros [= <- <-]. by exists [], l.
  - destruct (take_sub nm l) as [[u0 l0]|] eqn:E; [|done]. intros [= <- <-]. destruct (IH _ eq_refl) as (l1 & l2 & -> & -> & Hl & Hu).
    exists (t :: l1), l2. split_and!; try done. by constructor.
Qed.

Lemma place_sub_at t l1 l2 : Forall (fun u => 0 <= name_order (tree_name t) (tree_name u)) l1 -> (forall u, head l2 = Some u -> name_order (tree_name t) (tree_name u) < 0) ->
  place_sub t (l1 ++ l2) = l1 ++ t :: l2.
Proof.
  intros Hl Hh. induction Hl as [|u l1 Hu Hl IH]; cbn [app place_sub].
  - destruct l2 as [|u l2]; [done|]. cbn [place_sub]. by rewrite (proj2 (Z.ltb_lt _ _)) by (by apply Hh).
  - by rewrite (proj2 (Z.ltb_ge _ _)), IH.
Qed.

Lemma with_subs_same t : with_subs t (tree_subs t) = t.
Proof. by destruct t. Qed.
End path_facts.

(** ** The tree a key heads *)

Section view.
Context `{MACHINE}.
Implicit Types (s : CM) (a b c p top x : addr) (n k h : CMP_KEY_NODE) (nm : list Z) (d : nat) (keep : CMP_KEY_NODE -> bool).

Definition kept keep s c : bool := match nodes s !! c with Some k => keep k | None => false end.

Fixpoint view keep s a (fuel : nat) : ktree :=
  match fuel, nodes s !! a with
  | S fuel, Some n => Key (name n) (lastWriteTime n) (isLink n) (values n) ((fun c => view keep s c fuel) <$> filter (fun c => kept keep s c = true) (subkeys n))
  | _, _ => Key [] 0 false [] []
  end.

(** The subtree of [a], without the keys [keep] refuses and what is below them. *)
Definition tree_of keep s a : ktree := view keep s a LEVELS.

Definition every (n : CMP_KEY_NODE) : bool := true.
Definition persistent (n : CMP_KEY_NODE) : bool := negb (isVolatile n).

Lemma fmap_ext_in {A B} (f g : A -> B) (l : list A) : (forall u : A, u ∈ l -> f u = g u) -> f <$> l = g <$> l.
Proof. induction l as [|u l IH]; intros E; cbn; [done|]. rewrite E by left. f_equal. apply IH. intros v Hv. apply E. by right. Qed.

Lemma view_fuel x keep s a d (f1 f2 : nat) : tree_ok x s -> depth s a d -> (97 <= f1 + d)%nat -> (97 <= f2 + d)%nat -> view keep s a f1 = view keep s a f2.
Proof.
  intros T. revert a d f2. induction f1 as [|f1 IH]; intros a d f2 D H1 H2; assert (exists n, nodes s !! a = Some n) as [n E] by (by inversion D; eauto);
    destruct (tr_depth _ _ T _ _ E) as (d' & Hd & D'); pose proof (depth_fun _ _ _ _ D D') as <-; [lia|]. destruct f2 as [|f2]; [lia|].
  cbn [view]. rewrite E. f_equal. apply fmap_ext_in. intros c [_ Hc]%list_elem_of_filter. eapply (IH c (S d)); [exact (child_depth _ _ _ _ _ _ T E Hc D)|lia|lia].
Qed.

Lemma view_step keep s a n fuel : nodes s !! a = Some n ->
  view keep s a (S fuel) = Key (name n) (lastWriteTime n) (isLink n) (values n) ((fun c => view keep s c fuel) <$> filter (fun c => kept keep s c = true) (subkeys n)).
Proof. intros E. cbn [view]. by rewrite E. Qed.

Lemma tree_of_eq x keep s a n : tree_ok x s -> nodes s !! a = Some n ->
  tree_of keep s a = Key (name n) (lastWriteTime n) (isLink n) (values n) (tree_of keep s <$> filter (fun c => kept keep s c = true) (subkeys n)).
Proof.
  intros T E. unfold tree_of. assert (exists L, LEVELS = S L /\ (96 <= L)%nat) as (L & -> & HL) by (exists 96%nat; split; [reflexivity|lia]).
  rewrite (view_step keep s a n L E). apply (f_equal (Key _ _ _ _)). apply fmap_ext_in. intros c [_ Hc]%list_elem_of_filter.
  destruct (tr_depth _ _ T _ _ E) as (d & Hd & D). eapply (view_fuel x keep s c (S d)); [done|exact (child_depth _ _ _ _ _ _ T E Hc D)|lia|lia].
Qed.

Lemma filter_all_kept s (l : list addr) : (forall c, c ∈ l -> is_Some (nodes s !! c)) -> filter (fun c => kept every s c = true) l = l.
Proof.
  induction l as [|c l IH]; intros Hl; [done|]. rewrite filter_cons_True, IH; [done| |].
  - intros c' Hc'. apply Hl. by right.
  - destruct (Hl c) as [k E]; [left|]. unfold kept. by rewrite E.
Qed.

Lemma subkeys_exist x s a n c : tree_ok x s -> nodes s !! a = Some n -> c ∈ subkeys n -> is_Some (nodes s !! c).
Proof. intros T E Hc. destruct (tr_child _ _ T _ _ _ E Hc) as (k & Ek & _). eauto. Qed.

Lemma whole_eq x s a n : tree_ok x s -> nodes s !! a = Some n ->
  tree_of every s a = Key (name n) (lastWriteTime n) (isLink n) (values n) (tree_of every s <$> subkeys n).
Proof. intros T E. rewrite (tree_of_eq x) with (n := n) by done. rewrite filter_all_kept; [done|]. intros c. by eapply subkeys_exist. Qed.

(** Induction from the leaves up. *)
Lemma tree_induction x s (P : addr -> Prop) : tree_ok x s -> (forall a n, nodes s !! a = Some n -> (forall c, c ∈ subkeys n -> P c) -> P a) ->
  forall a, is_Some (nodes s !! a) -> P a.
Proof.
  intros T step a [n E]. destruct (tr_depth _ _ T _ _ E) as (d & Hd & D). revert a n E Hd D. remember (96 - d)%nat as m eqn:Em. revert d Em.
  induction m as [m IH] using lt_wf_ind. intros d Em a n E Hd D. apply (step a n E). intros c Hc. destruct (subkeys_exist _ _ _ _ _ T E Hc) as [k Ek].
  pose proof (child_depth _ _ _ _ _ _ T E Hc D) as Dc. destruct (tr_depth _ _ T _ _ Ek) as (d' & Hd' & D'). pose proof (depth_fun _ _ _ _ Dc D') as <-.
  eapply (IH (96 - S d)%nat); [lia|reflexivity|exact Ek|done|done].
Qed.

Lemma tree_same x x' keep s s' a : tree_ok x s -> tree_ok x' s' -> is_Some (nodes s !! a) -> (forall b, below s a b -> nodes s' !! b = nodes s !! b) -> tree_of keep s' a = tree_of keep s a.
Proof.
  intros T T' Ha Hs. revert Hs. apply (tree_induction x s) with (a := a); [done| |done]. clear a Ha. intros a n E IH Hs.
  rewrite (tree_of_eq x keep s a n) by done. rewrite (tree_of_eq x' keep s' a n) by (done || (rewrite Hs; [done|apply below_top])).
  assert (K : forall c, c ∈ subkeys n -> nodes s' !! c = nodes s !! c). { intros c Hc. apply Hs. by apply (below_child _ _ a n); [apply below_top|..]. }
  f_equal. assert (Ef : filter (fun c => kept keep s' c = true) (subkeys n) = filter (fun c => kept keep s c = true) (subkeys n)).
  { clear -K. induction (subkeys n) as [|c l IHl]; [done|]. rewrite !filter_cons. assert (E : kept keep s' c = kept keep s c) by (unfold kept; rewrite K by left; done).
    rewrite E, IHl by (intros; apply K; by right). done. }
  rewrite Ef. apply fmap_ext_in. intros c [_ Hc]%list_elem_of_filter. apply IH; [done|]. intros b Hb. apply Hs. by apply (below_up s a n c).
Qed.

(** Two subtrees of one level are the same or share nothing. *)
Lemma below_disjoint x s c c' b d : tree_ok x s -> depth s c d -> depth s c' d -> below s c b -> below s c' b -> c = c'.
Proof.
  intros T D D' Hb. revert c' D'. induction Hb as [|q m b Hq IH Eq Hm]; intros c' D' Hb'.
  - destruct (below_depth _ _ _ _ _ T D' Hb') as (d' & D1 & [?|?]); [done|]. pose proof (depth_fun _ _ _ _ D D1). lia.
  - inversion Hb' as [|q' m' b' Hq' Eq' Hm']; subst.
    + destruct (below_depth _ _ _ _ _ T D Hq) as (d1 & D1 & Hd1). pose proof (child_depth _ _ _ _ _ _ T Eq Hm D1) as D2. pose proof (depth_fun _ _ _ _ D' D2).
      destruct Hd1 as [->|?]; [|lia]. pose proof (depth_fun _ _ _ _ D D1). lia.
    + apply IH; [done|]. by rewrite (only_parent _ _ _ _ _ _ _ T Eq Eq' Hm Hm').
Qed.

(** The keys a path of names leads through. *)
Inductive route keep s : addr -> list (list Z) -> addr -> Prop :=
  | route_here a : route keep s a [] a
  | route_step a n nm c k names b l1 l2 : nodes s !! a = Some n -> subkeys n = l1 ++ c :: l2 -> nodes s !! c = Some k -> keep k = true ->
      fold_name (name k) = fold_name nm -> (forall c' k', c' ∈ l1 -> nodes s !! c' = Some k' -> fold_name (name k') <> fold_name nm) ->
      route keep s c names b -> route keep s a (nm :: names) b.

Lemma route_below keep s a names b : route keep s a names b -> below s a b.
Proof. induction 1 as [|a n nm c k names b l1 l2 E El Ek _ _ _ _ IH]; [apply below_top|]. apply (below_up s a n c); [done|rewrite El; set_solver|done]. Qed.

Lemma route_exists keep s a names b : is_Some (nodes s !! a) -> route keep s a names b -> is_Some (nodes s !! b).
Proof. intros Ha. induction 1 as [|a n nm c k names b l1 l2 E El Ek _ _ _ _ IH]; [done|]. apply IH. eauto. Qed.

Lemma name_of_tree x keep s c k : tree_ok x s -> nodes s !! c = Some k -> tree_name (tree_of keep s c) = name k.
Proof. intros T E. by rewrite (tree_of_eq x keep s c k). Qed.

(** A change below [p] is the change of the tree at the path of [p]. *)
Lemma alter_route x x' keep s s' top names p f : tree_ok x s -> tree_ok x' s' -> route keep s top names p ->
  (forall b, ~ below s p b -> is_Some (nodes s !! b) -> nodes s' !! b = nodes s !! b) ->
  kept keep s' p = kept keep s p -> f (tree_of keep s p) = Some (tree_of keep s' p) -> alter_at names f (tree_of keep s top) = Some (tree_of keep s' top).
Proof.
  intros T T' R Ho Hk Hf. induction R as [a|a n nm c k names b l1 l2 E El Ek Kk Hn Hl1 R IH]; [done|]. specialize (IH Ho Hk Hf).
  assert (Hc : c ∈ subkeys n) by (rewrite El; set_solver). destruct (tr_depth _ _ T _ _ E) as (d & _ & D). pose proof (child_depth _ _ _ _ _ _ T E Hc D) as Dc.
  pose proof (route_below _ _ _ _ _ R) as Bcb.
  assert (Hab : ~ below s b a). { intros Hb. apply (child_not_above _ _ _ _ _ T E Hc). by eapply below_trans. }
  assert (E' : nodes s' !! a = Some n) by (rewrite Ho; eauto).
  assert (Hsib : forall z, z ∈ subkeys n -> z <> c -> forall q, below s z q -> nodes s' !! q = nodes s !! q).
  { intros z Hz Hzc q Hq. apply Ho; [|apply (below_exists x s z q T (subkeys_exist _ _ _ _ _ T E Hz) Hq)]. intros Hbq. apply Hzc. symmetry.
    apply (below_disjoint x s c z q (S d)); [done|done|exact (child_depth _ _ _ _ _ _ T E Hz D)|by eapply below_trans|done]. }
  assert (Kc : kept keep s' c = true).
  { inversion R as [|? m nm' c1 k1 ? ? l1' l2' Em El' _ _ _ _ R']; subst; [rewrite Hk; unfold kept; by rewrite Ek|]. unfold kept. rewrite Ho; [by rewrite Ek| |eauto]. intros Hb.
    assert (Hc1 : c1 ∈ subkeys m) by (rewrite El'; set_solver). apply (child_not_above _ _ _ _ _ T Em Hc1). eapply below_trans; [by eapply route_below|exact Hb]. }
  rewrite (tree_of_eq x keep s a n), (tree_of_eq x' keep s' a n) by done. cbn [alter_at tree_subs].
  assert (Same : forall l : list addr, (forall z : addr, z ∈ l -> z ∈ subkeys n /\ z <> c) -> tree_of keep s' <$> filter (fun z => kept keep s' z = true) l = tree_of keep s <$> filter (fun z => kept keep s z = true) l).
  { induction l as [|z l IHl]; intros Hl; [done|]. destruct (Hl z) as [Hz Hzc]; [left|]. rewrite !filter_cons.
    assert (E2 : kept keep s' z = kept keep s z) by (unfold kept; by rewrite (Hsib z Hz Hzc z (below_top _ _))). rewrite E2.
    case_decide; cbn [fmap list_fmap]; rewrite IHl by (intros; apply Hl; by right); [|done]. f_equal. apply (tree_same x x' keep s s' z); [done|done|exact (subkeys_exist _ _ _ _ _ T E Hz)|exact (Hsib z Hz Hzc)]. }
  pose proof (nk_subkeys _ (tr_node _ _ T _ _ E)) as Hd. rewrite El in Hd. apply NoDup_app in Hd as (_ & Hd1 & Hd2). apply NoDup_cons in Hd2 as [Hd2 _].
  rewrite El, !filter_app, !filter_cons_True by (done || (unfold kept; by rewrite Ek)). rewrite !fmap_app, !fmap_cons.
  rewrite (Same l1), (Same l2) by (intros z Hz; split; [rewrite El; set_solver|intros ->; set_solver]).
  rewrite alter_sub_at, IH; [done| |by rewrite (name_of_tree x keep s c k)].
  apply Forall_fmap, Forall_forall. intros z [_ Hz]%list_elem_of_filter. destruct (subkeys_exist x s a n z T E) as [kz Ekz]; [rewrite El; set_solver|]. cbn. rewrite (name_of_tree x keep s z kz) by done. by apply (Hl1 z).
Qed.
End view.
