(* ===== verification/CmLog.v ===== *)
(** * CmLog: the records of the hive log as changes to a tree (kernel/cm/hive.c).

    What the writer's two passes put where, and what the reader makes of it: an
    image of whole records replays as the sequence of changes they stand for, and
    a torn record ends it. *)

From S2P Require Import Prelude NtStatus Rtl Bytes Crc32 CmTree CmHive CmReplay CmView.

Definition padded (l : list Z) : list Z := l ++ repeat 0 (Z.to_nat (CmpRoundUp8 (Z.of_nat (length l)) - Z.of_nat (length l))).

Definition value_bytes (v : CMP_VALUE) : list Z :=
  padded (le_bytes 2 (u16 (Z.of_nat (length (value_name v)))) ++ le_bytes 2 0 ++ le_bytes 4 (value_type v) ++
    le_bytes 4 (Z.of_nat (length (value_data v))) ++ unit_bytes (value_name v) ++ value_data v).

Definition name_tail (nm : list Z) : list Z := le_bytes 2 (u16 (Z.of_nat (length nm))) ++ le_bytes 2 0 ++ unit_bytes nm.

Definition record_body (op keyFlags : Z) (path : list Z) (time count : Z) (tail : list Z) : list Z :=
  ([u8 op; u8 keyFlags] ++ le_bytes 2 (u16 (Z.of_nat (length path))) ++ le_bytes 2 0 ++ le_bytes 2 (u16 count) ++ le_bytes 8 (u64 time)) ++
  padded (unit_bytes path) ++ padded tail.

Definition record_bytes (op keyFlags : Z) (path : list Z) (time count : Z) (tail : list Z) : list Z :=
  let body := record_body op keyFlags path time count tail in
  le_bytes 4 (8 + Z.of_nat (length body)) ++ le_bytes 4 (KiCrc32 body) ++ body.

(** The fields of the record a change is logged as. *)
Definition change_op (c : change) : Z :=
  match c with
  | Create _ _ _ => CMP_OP_CREATE_KEY
  | SetValues _ _ _ => CMP_OP_SET_VALUES
  | DeleteKey _ _ => CMP_OP_DELETE_KEY
  | DeleteValue _ _ _ => CMP_OP_DELETE_VALUE
  | RenameKey _ _ _ => CMP_OP_RENAME_KEY
  end.

Definition change_flags (c : change) : Z := match c with Create _ _ true => 1 | _ => 0 end.

Definition change_names (c : change) : list (list Z) :=
  match c with Create names _ _ | SetValues names _ _ | DeleteKey names _ | DeleteValue names _ _ | RenameKey names _ _ => names end.

Definition change_time (c : change) : Z :=
  match c with Create _ time _ | SetValues _ time _ | DeleteKey _ time | DeleteValue _ time _ | RenameKey _ time _ => time end.

Definition change_count (c : change) : Z := match c with SetValues _ _ l => Z.of_nat (length l) | _ => 0 end.

Definition change_tail (c : change) : list Z :=
  match c with
  | Create _ _ _ | DeleteKey _ _ => []
  | SetValues _ _ l => mbind (M := list) value_bytes l
  | DeleteValue _ _ nm | RenameKey _ _ nm => name_tail nm
  end.

Definition change_bytes (c : change) : list Z :=
  record_bytes (change_op c) (change_flags c) (join (change_names c)) (change_time c) (change_count c) (change_tail c).

(** The record as it is read back from [start] on. *)
Definition change_record (c : change) (start : Z) : CMP_RECORD :=
  mkRECORD (change_op c) (change_flags c) (change_count c) (u64 (change_time c)) (join (change_names c))
    (start + 24 + Z.of_nat (length (padded (unit_bytes (join (change_names c)))))) (Z.of_nat (length (padded (change_tail c)))).

(** A change a record can hold. *)
Record change_ok (c : change) : Prop := {
  ck_names : Forall plain (change_names c);
  ck_path : name_ok (join (change_names c));
  ck_time : is_s64 (change_time c);
  ck_size : Z.of_nat (length (change_bytes c)) < 2 ^ 31;
  ck_content : match c with
    | SetValues _ _ l => Forall value_ok l /\ Z.of_nat (length l) < 2 ^ 16
    | DeleteValue _ _ nm => name_ok nm
    | RenameKey _ _ nm => name_ok nm /\ nm <> []
    | _ => True
    end;
}.

(** ** Bytes of a record *)

Section lengths.
Implicit Types (l path nm tail : list Z) (v : CMP_VALUE).

Lemma length_unit_bytes l : length (unit_bytes l) = (2 * length l)%nat.
Proof. unfold unit_bytes. induction l as [|c l IH]; [done|]. rewrite bind_cons, length_app, length_le_bytes, IH. cbn [length]. lia. Qed.

Lemma unit_bytes_u8 l : Forall is_u8 (unit_bytes l).
Proof. induction l as [|c l IH]; [constructor|]. unfold unit_bytes. rewrite bind_cons. apply Forall_app. split; [apply le_bytes_u8|exact IH]. Qed.

Lemma units_of_unit_bytes l : Forall is_u16 l -> units_of (unit_bytes l) = l.
Proof.
  induction 1 as [|c l Hc Hl IH]; [done|]. unfold unit_bytes. rewrite bind_cons. change (le_bytes 2 c ++ (l ≫= le_bytes 2)) with (u8 c :: u8 (Z.shiftr c 8) :: unit_bytes l).
  cbn [units_of]. rewrite IH. f_equal. pose proof (le_value_bytes 2 c Hc) as E. cbn in E. by rewrite Z.shiftl_0_l, Z.lor_0_r in E.
Qed.

Lemma padded_length l : Z.of_nat (length (padded l)) = CmpRoundUp8 (Z.of_nat (length l)).
Proof. unfold padded. pose proof (round_up_bounds (Z.of_nat (length l))). rewrite length_app, repeat_length. lia. Qed.

Lemma padded_mod l : Z.of_nat (length (padded l)) mod 8 = 0.
Proof. rewrite padded_length. apply round_up_bounds. Qed.

Lemma padded_nil : padded [] = [].
Proof. done. Qed.

Lemma padded_aligned l : Z.of_nat (length l) mod 8 = 0 -> padded l = l.
Proof. intros E. unfold padded. rewrite round_up_aligned by done. by rewrite Z.sub_diag, app_nil_r. Qed.

Lemma padded_split l : padded l = l ++ drop (length l) (padded l).
Proof. unfold padded. by rewrite drop_app_length. Qed.

Lemma padded_u8 l : Forall is_u8 l -> Forall is_u8 (padded l).
Proof. intros Hl. apply Forall_app. split; [done|]. generalize (Z.to_nat (CmpRoundUp8 (Z.of_nat (length l)) - Z.of_nat (length l))). intros k. induction k; constructor; done. Qed.

Lemma body_length op flags path time count tail :
  Z.of_nat (length (record_body op flags path time count tail)) = 16 + Z.of_nat (length (padded (unit_bytes path))) + Z.of_nat (length (padded tail)).
Proof. unfold record_body. rewrite !length_app, !length_le_bytes. cbn. lia. Qed.

Lemma record_length op flags path time count tail :
  Z.of_nat (length (record_bytes op flags path time count tail)) = 24 + Z.of_nat (length (padded (unit_bytes path))) + Z.of_nat (length (padded tail)).
Proof. unfold record_bytes. rewrite !length_app, !length_le_bytes. pose proof (body_length op flags path time count tail). lia. Qed.

Lemma record_mod op flags path time count tail : Z.of_nat (length (record_bytes op flags path time count tail)) mod 8 = 0.
Proof. rewrite record_length. pose proof (padded_mod (unit_bytes path)). pose proof (padded_mod tail). Z.to_euclidean_division_equations. lia. Qed.

Lemma body_u8 op flags path time count tail : Forall is_u8 tail -> Forall is_u8 (record_body op flags path time count tail).
Proof.
  intros Ht. pose proof (padded_u8 _ (unit_bytes_u8 path)). pose proof (padded_u8 _ Ht). unfold record_body.
  rewrite !Forall_app. repeat split; try apply le_bytes_u8; try done. repeat constructor; apply u8_range.
Qed.

Lemma record_u8 op flags path time count tail : Forall is_u8 tail -> Forall is_u8 (record_bytes op flags path time count tail).
Proof. intros Ht. unfold record_bytes. cbv zeta. rewrite !Forall_app. split; [apply le_bytes_u8|]. split; [apply le_bytes_u8|by apply body_u8]. Qed.
End lengths.

(** ** What a writer emits *)

Section emitting.
Context `{MACHINE}.
Implicit Types (f g : CMP_WRITER -> outcome CMP_WRITER) (off : Z) (l pre rest path tail : list Z) (measure : bool).

(** A pass over a buffer that reads [pre] up to the offset and [rest] from it on;
    the measuring pass has the offset only. *)
Definition writer_at measure pre rest : CMP_WRITER := mkWRITER (if measure then None else Some (pre ++ rest)) (Z.of_nat (length pre)).

(** Both passes agree: [f] puts [l] at [off]. *)
Definition emits off f l : Prop := forall measure pre rest, Z.of_nat (length pre) = off -> (length l <= length rest)%nat ->
  f (writer_at measure pre rest) = Ok (writer_at measure (pre ++ l) (drop (length l) rest)).

Lemma le_bytes_mod (n : nat) v m : 8 * Z.of_nat n <= m -> le_bytes n (v mod 2 ^ m) = le_bytes n v.
Proof.
  revert v m. induction n as [|n IH]; intros v m Hm; [done|]. cbn [le_bytes]. f_equal.
  - unfold u8. apply Z.bits_inj'. intros i Hi. rewrite !Z.testbit_mod_pow2 by lia. destruct (Z.ltb_spec i 8); [|done]. cbn [andb]. destruct (Z.ltb_spec i m); [done|lia].
  - rewrite <- (IH (Z.shiftr v 8) (m - 8)) by lia. f_equal. apply Z.bits_inj'. intros i Hi. rewrite Z.shiftr_spec, !Z.testbit_mod_pow2, Z.shiftr_spec by lia. f_equal. apply eq_true_iff_eq. rewrite !Z.ltb_lt. lia.
Qed.

Lemma splice_spec pre rest l : (length l <= length rest)%nat -> splice (pre ++ rest) (Z.of_nat (length pre)) l = Ok (pre ++ l ++ drop (length l) rest).
Proof.
  intros Hl. unfold splice. rewrite (proj2 (Z.leb_le 0 _)), (proj2 (Z.leb_le (_ + _) _)) by (rewrite ?length_app; lia). cbn [andb].
  rewrite Nat2Z.id, take_app_length, <- drop_drop, drop_app_length. done.
Qed.

Lemma emits_bytes off l : emits off (fun w => CmpWriteBytes w l) l.
Proof.
  intros [] pre rest _ Hl; unfold CmpWriteBytes, writer_at; cbn [buffer offset]; [|rewrite splice_spec by done]; run;
    rewrite length_app, Nat2Z.inj_add, <- ?app_assoc; done.
Qed.

Lemma emits_seq off f g l1 l2 : emits off f l1 -> emits (off + Z.of_nat (length l1)) g l2 -> emits off (fun w => w ← f w; g w) (l1 ++ l2).
Proof.
  intros F G m pre rest Hp Hl. rewrite length_app in Hl. rewrite F by (done || lia). run. rewrite G.
  - by rewrite <- app_assoc, drop_drop, length_app.
  - rewrite length_app. lia.
  - rewrite length_drop. lia.
Qed.

Lemma emits_eq off f g l l' : (forall w, g w = f w) -> l = l' -> emits off f l -> emits off g l'.
Proof. intros E <- F m pre rest Hp Hl. rewrite E. by apply F. Qed.

Lemma pad_bytes off (size : Z) : off mod 8 = 0 -> CmpRoundUp8 (off + size) - (off + size) = CmpRoundUp8 size - size.
Proof. intros Hm. rewrite !round_up_8. Z.to_euclidean_division_equations. lia. Qed.

Lemma emits_padded off f l : off mod 8 = 0 -> emits off f l -> emits off (fun w => w ← f w; CmpWritePad w) (padded l).
Proof.
  intros Hm F. apply emits_seq; [done|]. intros m pre rest Hp Hl. unfold CmpWritePad. cbn [offset writer_at]. rewrite Hp, pad_bytes by done.
  by apply (emits_bytes (off + Z.of_nat (length l))).
Qed.

Lemma emits_value off v : off mod 8 = 0 -> emits off (fun w => CmpWriteValue w v) (value_bytes v).
Proof.
  intros Hm. unfold value_bytes. set (a := le_bytes 2 _). set (b := le_bytes 2 0). set (c := le_bytes 4 (value_type v)). set (d := le_bytes 4 _). set (e := unit_bytes _).
  eapply emits_eq; [|reflexivity|].
  2: { apply emits_padded; [done|]. apply (emits_seq off (fun w => CmpWriteBytes w a) (fun w => w ← CmpWriteBytes w b; w ← CmpWriteBytes w c; w ← CmpWriteBytes w d; w ← CmpWriteBytes w e; CmpWriteBytes w (value_data v))); [apply emits_bytes|].
    repeat (apply emits_seq; [apply emits_bytes|]). apply emits_bytes. }
  intros w. unfold CmpWriteValue, CmpWrite16, CmpWrite32. fold a b c d e. rewrite !outcome_bind_assoc.
  destruct (CmpWriteBytes w a) as [w1| | |]; [|done..]. run. destruct (CmpWriteBytes w1 b) as [w2| | |]; [|done..]. run. destruct (CmpWriteBytes w2 c) as [w3| | |]; [|done..]. run.
  destruct (CmpWriteBytes w3 d) as [w4| | |]; [|done..]. run. destruct (CmpWriteBytes w4 e) as [w5| | |]; [|done..]. run. done.
Qed.

Lemma emits_nil off : emits off Ok [].
Proof. intros m pre rest _ _. by rewrite app_nil_r. Qed.

Lemma emits_fold {A} (f : CMP_WRITER -> A -> outcome CMP_WRITER) (bytes : A -> list Z) (l : list A) off :
  off mod 8 = 0 -> (forall x o, x ∈ l -> o mod 8 = 0 -> emits o (fun w => f w x) (bytes x)) -> (forall x, x ∈ l -> Z.of_nat (length (bytes x)) mod 8 = 0) ->
  emits off (fun w => foldM f w l) (mbind (M := list) bytes l).
Proof.
  revert off. induction l as [|x l IH]; intros off Hm Hf Hb; [apply emits_nil|].
  rewrite bind_cons. cbn [foldM]. apply emits_seq; [apply Hf; [left|done]|]. assert (Hx : Z.of_nat (length (bytes x)) mod 8 = 0) by (apply Hb; left).
  apply IH; [Z.to_euclidean_division_equations; lia| |]; intros; [apply Hf|apply Hb]; try done; by right.
Qed.

(** ** A record *)

Definition record_start (op keyFlags : Z) path (time count : Z) : list Z :=
  ([u8 op; u8 keyFlags] ++ le_bytes 2 (u16 (Z.of_nat (length path))) ++ le_bytes 2 0 ++ le_bytes 2 (u16 count) ++ le_bytes 8 (u64 time)) ++ padded (unit_bytes path).

Lemma start_length op flags path time count : Z.of_nat (length (record_start op flags path time count)) = 16 + Z.of_nat (length (padded (unit_bytes path))).
Proof. unfold record_start. rewrite !length_app, !length_le_bytes. cbn. lia. Qed.

Lemma record_body_eq op flags path time count tail : record_body op flags path time count tail = record_start op flags path time count ++ padded tail.
Proof. unfold record_body, record_start. by rewrite <- !app_assoc. Qed.

Lemma pad_ok pre l measure rest : Z.of_nat (length pre) mod 8 = 0 -> (length (padded l) <= length l + length rest)%nat ->
  CmpWritePad (writer_at measure (pre ++ l) rest) = Ok (writer_at measure (pre ++ padded l) (drop (length (padded l) - length l) rest)).
Proof.
  intros Hm Hl. unfold CmpWritePad. change (offset (writer_at _ ?l _)) with (Z.of_nat (length l)). rewrite length_app, Nat2Z.inj_add, pad_bytes by done.
  pose proof (padded_length l) as E. pose proof (round_up_bounds (Z.of_nat (length l))) as [Hr _].
  rewrite (emits_bytes (Z.of_nat (length (pre ++ l)))) by (reflexivity || (rewrite repeat_length; lia)). unfold padded at 1. rewrite <- app_assoc, repeat_length. do 3 f_equal. lia.
Qed.

Lemma CmpBeginRecord_spec s op flags node top captured time count path measure pre rest :
  record_path s node top captured = Ok path -> Z.of_nat (length pre) mod 8 = 0 -> (8 + length (record_start op flags path time count) <= length rest)%nat ->
  CmpBeginRecord s (writer_at measure pre rest) op flags node top captured time count =
    Ok (Z.of_nat (length pre), writer_at measure (pre ++ repeat 0 8 ++ record_start op flags path time count) (drop (8 + length (record_start op flags path time count)) rest)).
Proof.
  intros Hp Hm Hl. unfold CmpBeginRecord. rewrite Hp. cbv zeta. run. change (offset (writer_at _ _ _)) with (Z.of_nat (length pre)).
  rewrite land_7, Hm. run. unfold CmpWrite32, CmpWrite16, CmpWrite64.
  pose proof (start_length op flags path time count) as Hs. pose proof (padded_length (unit_bytes path)) as Hpad. pose proof (round_up_bounds (Z.of_nat (length (unit_bytes path)))) as [Hru _].
  repeat (rewrite (emits_bytes (Z.of_nat (length _))) by (reflexivity || (rewrite ?length_drop, ?length_le_bytes; cbn [length]; lia)); run; rewrite ?drop_drop, <- ?app_assoc).
  change (0 =? 0) with true. run.
  match goal with |- context [ASSERT (?x =? CMP_RECORD_HEADER_BYTES) _] => replace (x =? CMP_RECORD_HEADER_BYTES) with true end.
  2: { symmetry. apply Z.eqb_eq. cbn [offset writer_at]. rewrite !length_app, !length_le_bytes. cbn [length]. unfold CMP_RECORD_HEADER_BYTES. lia. }
  run. set (fixed := le_bytes 4 0 ++ le_bytes 4 0 ++ [u8 op; u8 flags] ++ le_bytes 2 (u16 (Z.of_nat (length path))) ++ le_bytes 2 0 ++ le_bytes 2 (u16 count) ++ le_bytes 8 (u64 time)).
  assert (Hf : length fixed = 24%nat) by (unfold fixed; by rewrite !length_app, !length_le_bytes).
  match goal with |- context [writer_at _ (pre ++ ?l) _] => replace l with (fixed ++ unit_bytes path) by (unfold fixed; by rewrite <- !app_assoc) end.
  rewrite app_assoc, pad_ok.
  - run. do 2 f_equal. rewrite drop_drop. f_equal; [unfold fixed, record_start; rewrite <- !app_assoc; reflexivity|]. f_equal. rewrite !length_le_bytes. cbn [length]. lia.
  - rewrite length_app, Hf. Z.to_euclidean_division_equations. lia.
  - rewrite length_drop, !length_le_bytes. cbn [length]. lia.
Qed.

Lemma CmpEndRecord_spec pre start tail measure rest : Z.of_nat (length pre) mod 8 = 0 -> Z.of_nat (length start) mod 8 = 0 -> 16 <= Z.of_nat (length start) ->
  let body := start ++ padded tail in (length (padded tail) <= length tail + length rest)%nat ->
  CmpEndRecord (writer_at measure (pre ++ repeat 0 8 ++ start ++ tail) rest) (Z.of_nat (length pre)) =
    Ok (writer_at measure (pre ++ le_bytes 4 (8 + Z.of_nat (length body)) ++ le_bytes 4 (KiCrc32 body) ++ body) (drop (length (padded tail) - length tail) rest)).
Proof.
  intros Hm Hs Hs16 body Hl. unfold CmpEndRecord. pose proof (padded_mod tail) as Hpm.
  assert (E : pre ++ repeat 0 8 ++ start ++ tail = (pre ++ repeat 0 8 ++ start) ++ tail) by (by rewrite <- !app_assoc). rewrite E, pad_ok by (done || (rewrite !length_app; cbn [length repeat]; Z.to_euclidean_division_equations; lia)).
  run. rewrite <- !app_assoc. change (start ++ padded tail) with body. cbn [offset writer_at]. assert (Eb : Z.of_nat (length (pre ++ repeat 0 8 ++ body)) - Z.of_nat (length pre) = 8 + Z.of_nat (length body)) by (rewrite !length_app; cbn [length repeat]; lia).
  rewrite Eb. assert (Hbm : Z.of_nat (length body) mod 8 = 0) by (unfold body; rewrite length_app; Z.to_euclidean_division_equations; lia).
  assert (Hb16 : 16 <= Z.of_nat (length body)) by (unfold body; rewrite length_app; lia).
  rewrite (proj2 (Z.leb_le _ _)) by (unfold CMP_RECORD_HEADER_BYTES; lia). rewrite land_7. replace ((8 + Z.of_nat (length body)) mod 8) with 0 by (Z.to_euclidean_division_equations; lia). change (0 =? 0) with true. run.
  destruct measure; cbn [buffer writer_at].
  { unfold writer_at. do 2 f_equal. rewrite !length_app, !length_le_bytes. cbn [length repeat]. lia. }
  unfold u32. rewrite le_bytes_mod by lia. set (l1 := le_bytes 4 (8 + Z.of_nat (length body))). assert (H1 : length l1 = 4%nat) by apply length_le_bytes.
  rewrite <- !app_assoc, splice_spec by (rewrite H1, !length_app; cbn [length repeat]; lia). run. rewrite H1.
  set (rest' := drop _ rest). change (drop 4 (repeat 0 8 ++ body ++ rest')) with (repeat 0 4 ++ body ++ rest').
  replace (take _ (drop _ _)) with body.
  2: { replace (pre ++ l1 ++ repeat 0 4 ++ body ++ rest') with ((pre ++ l1 ++ repeat 0 4) ++ body ++ rest') by (by rewrite <- !app_assoc).
    rewrite drop_app_length' by (rewrite !length_app, H1; cbn [length repeat]; lia). rewrite take_app_length' by lia. done. }
  rewrite (app_assoc pre l1). replace (Z.of_nat (length pre) + 4) with (Z.of_nat (length (pre ++ l1))) by (rewrite length_app, H1; lia).
  rewrite splice_spec by (rewrite length_le_bytes, !length_app; cbn [length repeat]; lia). run. rewrite length_le_bytes. change (drop 4 (repeat 0 4 ++ body ++ rest')) with (body ++ rest').
  unfold writer_at. rewrite !length_app, !length_le_bytes, H1, <- !app_assoc. cbn [length repeat]. do 3 f_equal.
Qed.

(** A whole record: both passes agree on its bytes. *)
Lemma emits_record s op flags node top captured time count path f tail off :
  record_path s node top captured = Ok path -> off mod 8 = 0 ->
  (forall o, o mod 8 = 0 -> emits o f tail) ->
  emits off (fun w => '(start, w) ← CmpBeginRecord s w op flags node top captured time count; w ← f w; CmpEndRecord w start) (record_bytes op flags path time count tail).
Proof.
  intros Hp Hm Hf m pre rest Ho Hl. subst off. pose proof (record_length op flags path time count tail) as Hr.
  pose proof (start_length op flags path time count) as Hs. pose proof (padded_mod (unit_bytes path)) as Hu. pose proof (padded_length tail) as Ht. pose proof (round_up_bounds (Z.of_nat (length tail))) as [Hrt _].
  set (st := record_start op flags path time count) in *. rewrite (CmpBeginRecord_spec s op flags node top captured time count path) by (done || (fold st; lia)). run. fold st.
  set (pre1 := pre ++ repeat 0 8 ++ st). assert (H1 : Z.of_nat (length pre1) mod 8 = 0) by (unfold pre1; rewrite !length_app; cbn [length repeat]; Z.to_euclidean_division_equations; lia).
  rewrite (Hf _ H1) by (done || (rewrite length_drop; lia)). run. unfold pre1. rewrite <- !app_assoc, CmpEndRecord_spec.
  - set (k := length (record_bytes _ _ _ _ _ _)) in *. clearbody k. rewrite drop_drop, drop_drop. unfold record_bytes. cbv zeta. rewrite record_body_eq. fold st. do 3 f_equal. lia.
  - done.
  - Z.to_euclidean_division_equations. lia.
  - lia.
  - rewrite !length_drop. lia.
Qed.
End emitting.

(** ** Reading a record back *)

Section reading.
Implicit Types (l pre rest path tail : list Z) (n k : Z).

Lemma read_at_head l rest (n : nat) : length l = n -> read_at (l ++ rest) 0 n = Ok (le_value l).
Proof.
  intros Hl. unfold read_at. rewrite (proj2 (Z.leb_le (0 + _) _)) by (rewrite length_app; lia). cbn [andb Z.leb Z.compare]. change (Z.to_nat 0) with O. by rewrite drop_0, take_app_length'.
Qed.

Lemma read_at_skip l rest k k' (n : nat) : k = Z.of_nat (length l) + k' -> 0 <= k' -> read_at (l ++ rest) k n = read_at rest k' n.
Proof.
  intros -> Hk. unfold read_at. rewrite length_app. replace (0 <=? Z.of_nat (length l) + k') with true by (symmetry; apply Z.leb_le; lia). replace (0 <=? k') with true by (symmetry; by apply Z.leb_le). cbn [andb].
  replace (Z.of_nat (length l) + k' + Z.of_nat n <=? Z.of_nat (length l + length rest)) with (k' + Z.of_nat n <=? Z.of_nat (length rest)) by (apply eq_true_iff_eq; rewrite !Z.leb_le; lia).
  rewrite Z2Nat.inj_add, Nat2Z.id, <- drop_drop, drop_app_length by lia. done.
Qed.

Lemma bytes_at_skip l rest k k' n : k = Z.of_nat (length l) + k' -> 0 <= k' -> bytes_at (l ++ rest) k n = bytes_at rest k' n.
Proof.
  intros -> Hk. unfold bytes_at. rewrite length_app. replace (0 <=? Z.of_nat (length l) + k') with true by (symmetry; apply Z.leb_le; lia). replace (0 <=? k') with true by (symmetry; by apply Z.leb_le). cbn [andb].
  replace (Z.of_nat (length l) + k' + n <=? Z.of_nat (length l + length rest)) with (k' + n <=? Z.of_nat (length rest)) by (apply eq_true_iff_eq; rewrite !Z.leb_le; lia).
  rewrite Z2Nat.inj_add, Nat2Z.id, <- drop_drop, drop_app_length by lia. done.
Qed.

Lemma bytes_at_head l rest n : Z.of_nat (length l) = n -> bytes_at (l ++ rest) 0 n = Ok l.
Proof.
  intros <-. unfold bytes_at. rewrite (proj2 (Z.leb_le 0 (Z.of_nat _))), (proj2 (Z.leb_le (0 + _) _)) by (rewrite ?length_app; lia). cbn [andb Z.leb Z.compare]. change (Z.to_nat 0) with O.
  by rewrite drop_0, Nat2Z.id, take_app_length.
Qed.

(** Where [l] lies in an image. *)
Lemma read_at_place pre l rest k (n : nat) : k = Z.of_nat (length pre) -> length l = n -> read_at (pre ++ l ++ rest) k n = Ok (le_value l).
Proof. intros -> Hl. rewrite (read_at_skip pre _ _ 0) by lia. by apply read_at_head. Qed.

Lemma string_at_place pre (nm rest : list Z) k n : k = Z.of_nat (length pre) -> k mod 2 = 0 -> n = 2 * Z.of_nat (length nm) -> Forall is_u16 nm -> string_at (pre ++ unit_bytes nm ++ rest) k n = Ok nm.
Proof.
  intros -> Hm -> Hn. unfold string_at. replace (Z.even _) with true by (symmetry; apply Z.even_spec; exists (Z.of_nat (length pre) / 2); pose proof (Z.div_mod (Z.of_nat (length pre)) 2); lia). cbn [negb].
  rewrite (bytes_at_skip pre _ _ 0) by lia. rewrite bytes_at_head; [run; by rewrite units_of_unit_bytes|]. rewrite length_unit_bytes. Z.to_euclidean_division_equations. lia.
Qed.

Lemma crc_u32 l : Forall is_u8 l -> is_u32 (KiCrc32 l).
Proof. intros Hl. unfold KiCrc32. apply (lxor_range _ _ 32); [lia| |done]. by apply crc_bytes_range. Qed.

Lemma le_value_u8 z : is_u8 z -> le_value [z] = z.
Proof. intros Hz. cbn. by rewrite Z.shiftl_0_l, Z.lor_0_r. Qed.

Lemma CmpReadRecord_back pre op flags path time count tail rest : is_u8 op -> is_u8 flags -> name_ok path -> is_u16 count -> Forall is_u8 tail ->
  Z.of_nat (length pre) mod 8 = 0 -> Z.of_nat (length (record_bytes op flags path time count tail)) < 2 ^ 32 ->
  CmpReadRecord (pre ++ record_bytes op flags path time count tail ++ rest) (Z.of_nat (length pre)) =
    Ok (Some (mkRECORD op flags count (u64 time) path (Z.of_nat (length pre) + 24 + Z.of_nat (length (padded (unit_bytes path)))) (Z.of_nat (length (padded tail))),
      Z.of_nat (length pre) + Z.of_nat (length (record_bytes op flags path time count tail)))).
Proof.
  intros Hop Hfl [Hpu Hpl] Hct Ht Hm Hsz. pose proof (record_length op flags path time count tail) as Hr. pose proof (record_mod op flags path time count tail) as Hrm.
  pose proof (body_length op flags path time count tail) as Hb. pose proof (body_u8 op flags path time count tail Ht) as Hbu.
  pose proof (padded_length (unit_bytes path)) as Hpp. rewrite length_unit_bytes in Hpp. pose proof (round_up_bounds (Z.of_nat (2 * length path))) as [Hru _].
  unfold CmpReadRecord. cbv zeta. set (rec := record_bytes op flags path time count tail) in *. set (body := record_body op flags path time count tail) in *.
  assert (Erec : rec = le_bytes 4 (8 + Z.of_nat (length body)) ++ le_bytes 4 (KiCrc32 body) ++ body) by done.
  set (data := pre ++ rec ++ rest). assert (Hdata : Z.of_nat (length data) = Z.of_nat (length pre) + Z.of_nat (length rec) + Z.of_nat (length rest)) by (unfold data; rewrite !length_app; lia).
  rewrite (proj2 (Z.ltb_ge (_ - _) _)) by (unfold CMP_RECORD_HEADER_BYTES; lia).
  assert (Fields : forall k k' (n : nat), k = Z.of_nat (length pre) + 8 + k' -> 0 <= k' -> read_at data k n = read_at (body ++ rest) k' n).
  { intros k k' n -> Hk'. unfold data. rewrite (read_at_skip pre _ _ (8 + k')) by lia. rewrite Erec, <- !app_assoc. rewrite (read_at_skip (le_bytes 4 _) _ _ (4 + k')) by (rewrite ?length_le_bytes; lia). apply read_at_skip; rewrite ?length_le_bytes; lia. }
  assert (R0 : read_at data (Z.of_nat (length pre)) 4 = Ok (Z.of_nat (length rec))).
  { unfold data. rewrite (read_at_skip pre _ _ 0) by lia. rewrite Erec at 1. rewrite <- !app_assoc, read_at_head by apply length_le_bytes. rewrite le_value_bytes; [f_equal; lia|change (2 ^ (8 * Z.of_nat 4)) with (2 ^ 32); lia]. }
  assert (R4 : read_at data (Z.of_nat (length pre) + 4) 4 = Ok (KiCrc32 body)).
  { unfold data. rewrite (read_at_skip pre _ _ 4) by lia. rewrite Erec, <- !app_assoc, (read_at_skip (le_bytes 4 _) _ _ 0), read_at_head by (rewrite ?length_le_bytes; done). rewrite le_value_bytes; [done|]. by apply crc_u32. }
  assert (R8 : bytes_at data (Z.of_nat (length pre) + 8) (Z.of_nat (length rec) - 8) = Ok body).
  { unfold data. rewrite (bytes_at_skip pre _ _ 8) by lia. rewrite Erec at 1. rewrite <- !app_assoc. rewrite (bytes_at_skip (le_bytes 4 _) _ _ 4), (bytes_at_skip (le_bytes 4 _) _ _ 0), bytes_at_head by (rewrite ?length_le_bytes; lia). done. }
  assert (Ebody : body = [op] ++ [flags] ++ le_bytes 2 (Z.of_nat (length path)) ++ le_bytes 2 0 ++ le_bytes 2 count ++ le_bytes 8 (u64 time) ++ padded (unit_bytes path) ++ padded tail).
  { unfold body, record_body. rewrite !u8_small, (u16_small count), (u16_small (Z.of_nat _)) by (done || (unfold is_u16; lia)). by rewrite <- !app_assoc. }
  assert (Hlen2 : forall z, Z.of_nat (length (le_bytes 2 z)) = 2) by (intros; by rewrite length_le_bytes).
  assert (F8 : read_at data (Z.of_nat (length pre) + 8) 1 = Ok op).
  { rewrite (Fields _ 0) by lia. rewrite Ebody, <- !app_assoc, read_at_head by done. by rewrite le_value_u8. }
  assert (F9 : read_at data (Z.of_nat (length pre) + 9) 1 = Ok flags).
  { rewrite (Fields _ 1) by lia. rewrite Ebody, <- !app_assoc, (read_at_skip [op] _ _ 0), read_at_head by done. by rewrite le_value_u8. }
  assert (F10 : read_at data (Z.of_nat (length pre) + 10) 2 = Ok (Z.of_nat (length path))).
  { rewrite (Fields _ 2) by lia. rewrite Ebody, <- !app_assoc, (read_at_skip [op] _ _ 1), (read_at_skip [flags] _ _ 0), read_at_head by (done || apply length_le_bytes). rewrite le_value_bytes; [done|]. cbn. lia. }
  assert (F12 : read_at data (Z.of_nat (length pre) + 12) 2 = Ok 0).
  { rewrite (Fields _ 4) by lia. rewrite Ebody, <- !app_assoc, (read_at_skip [op] _ _ 3), (read_at_skip [flags] _ _ 2), (read_at_skip (le_bytes 2 _) _ _ 0), read_at_head by (done || apply length_le_bytes || (rewrite Hlen2; lia)). done. }
  assert (F14 : read_at data (Z.of_nat (length pre) + 14) 2 = Ok count).
  { rewrite (Fields _ 6) by lia. rewrite Ebody, <- !app_assoc, (read_at_skip [op] _ _ 5), (read_at_skip [flags] _ _ 4), (read_at_skip (le_bytes 2 _) _ _ 2), (read_at_skip (le_bytes 2 _) _ _ 0), read_at_head by (done || apply length_le_bytes || (rewrite Hlen2; lia)). rewrite le_value_bytes; done. }
  assert (F16 : read_at data (Z.of_nat (length pre) + 16) 8 = Ok (u64 time)).
  { rewrite (Fields _ 8) by lia. rewrite Ebody, <- !app_assoc, (read_at_skip [op] _ _ 7), (read_at_skip [flags] _ _ 6), (read_at_skip (le_bytes 2 _) _ _ 4), (read_at_skip (le_bytes 2 _) _ _ 2), (read_at_skip (le_bytes 2 _) _ _ 0), read_at_head by (done || apply length_le_bytes || (rewrite Hlen2; lia)). rewrite le_value_bytes; [done|]. apply u64_range. }
  assert (F24 : string_at data (Z.of_nat (length pre) + 24) (u16 (Z.of_nat (length path) * 2)) = Ok path).
  { set (pre24 := pre ++ le_bytes 4 (8 + Z.of_nat (length body)) ++ le_bytes 4 (KiCrc32 body) ++ [op] ++ [flags] ++ le_bytes 2 (Z.of_nat (length path)) ++ le_bytes 2 0 ++ le_bytes 2 count ++ le_bytes 8 (u64 time)).
    assert (Ed : data = pre24 ++ unit_bytes path ++ drop (length (unit_bytes path)) (padded (unit_bytes path)) ++ padded tail ++ rest).
    { unfold data, pre24. rewrite Erec. rewrite Ebody at 3. rewrite (padded_split (unit_bytes path)) at 1. rewrite <- !app_assoc. reflexivity. }
    rewrite Ed. apply string_at_place; [unfold pre24; rewrite !length_app, !length_le_bytes; cbn [length]; lia|Z.to_euclidean_division_equations; lia| |done]. rewrite u16_small by (unfold is_u16; lia). lia. }
  rewrite R0. run. rewrite (proj2 (Z.ltb_ge (Z.of_nat (length rec)) _)) by (unfold CMP_RECORD_HEADER_BYTES; lia). rewrite land_7, Hrm. cbn [Z.eqb negb orb].
  rewrite (proj2 (Z.ltb_ge (_ - _) (Z.of_nat (length rec)))) by lia. rewrite R8. run. rewrite R4. run. rewrite Z.eqb_refl. cbn [negb].
  rewrite F10. run. rewrite F12. run. assert (Etail : CmpRoundUp8 (CMP_RECORD_HEADER_BYTES + Z.of_nat (length path) * 2) = 24 + Z.of_nat (length (padded (unit_bytes path)))).
  { rewrite Hpp. unfold CMP_RECORD_HEADER_BYTES. rewrite !round_up_8. Z.to_euclidean_division_equations. lia. }
  rewrite Etail. rewrite (proj2 (Z.ltb_ge (Z.of_nat (length rec)) _)) by lia. rewrite F8. run. rewrite F9. run. rewrite F14. run. rewrite F16. run. unfold CMP_RECORD_HEADER_BYTES in *. rewrite F24. run. do 4 f_equal; lia.
Qed.
End reading.

(** ** Reading a tail back *)

Section tails.
Context `{MACHINE}.
Implicit Types (s : CM) (a : addr) (pre rest : list Z) (v : CMP_VALUE) (r : CMP_RECORD).

Lemma tail_name_back pre (nm rest : list Z) r : name_ok nm -> tail_at r = Z.of_nat (length pre) -> Z.of_nat (length pre) mod 8 = 0 -> tailBytes r = Z.of_nat (length (padded (name_tail nm))) ->
  CmpReadTailName (pre ++ padded (name_tail nm) ++ rest) r = Ok (Some nm).
Proof.
  intros [Hu Hl] Ht Hm Hb. assert (Hlen : Z.of_nat (length (name_tail nm)) = 4 + 2 * Z.of_nat (length nm)) by (unfold name_tail; rewrite !length_app, !length_le_bytes, length_unit_bytes; lia).
  pose proof (padded_length (name_tail nm)) as Hp. pose proof (round_up_bounds (Z.of_nat (length (name_tail nm)))) as [Hr _].
  set (data := pre ++ padded (name_tail nm) ++ rest).
  assert (Ed : data = (pre ++ le_bytes 2 (Z.of_nat (length nm)) ++ le_bytes 2 0) ++ unit_bytes nm ++ drop (length (name_tail nm)) (padded (name_tail nm)) ++ rest).
  { unfold data. rewrite (padded_split (name_tail nm)) at 1. unfold name_tail at 1. rewrite u16_small by (unfold is_u16; lia). rewrite <- !app_assoc. reflexivity. }
  unfold CmpReadTailName. rewrite Hb, Ht, (proj2 (Z.ltb_ge (Z.of_nat _) 4)) by lia.
  assert (E0 : read_at data (Z.of_nat (length pre)) 2 = Ok (Z.of_nat (length nm))).
  { rewrite Ed, <- !app_assoc, (read_at_skip pre _ _ 0), read_at_head by (apply length_le_bytes || lia). rewrite le_value_bytes; [done|]. cbn. lia. }
  rewrite E0. run. rewrite (proj2 (Z.ltb_ge _ (4 + _))) by lia. rewrite Ed, string_at_place; [done| | | |done].
  - rewrite !length_app, !length_le_bytes. lia.
  - Z.to_euclidean_division_equations. lia.
  - rewrite u16_small by (unfold is_u16; lia). lia.
Qed.

Lemma value_length v : Z.of_nat (length (value_bytes v)) = CmpRoundUp8 (12 + 2 * Z.of_nat (length (value_name v)) + Z.of_nat (length (value_data v))).
Proof. unfold value_bytes. rewrite padded_length, !length_app, !length_le_bytes, length_unit_bytes. f_equal. lia. Qed.

Lemma apply_value_back s a pre v rest (remaining : Z) (count : nat) : value_ok v -> Z.of_nat (length pre) mod 8 = 0 -> Z.of_nat (length (value_bytes v)) <= remaining ->
  apply_values s a (pre ++ value_bytes v ++ rest) (Z.of_nat (length pre)) remaining (S count) =
  '(status, s) ← CmpSetValue s a (value_name v) (value_type v) (value_data v);
  if negb (NT_SUCCESS status) then Ok (false, s) else
  apply_values s a (pre ++ value_bytes v ++ rest) (Z.of_nat (length pre) + Z.of_nat (length (value_bytes v))) (remaining - Z.of_nat (length (value_bytes v))) count.
Proof.
  intros ([Hu Hl] & Hd8 & Hdl & Ht) Hm Hrem. pose proof (value_length v) as Hv. set (size := 12 + 2 * Z.of_nat (length (value_name v)) + Z.of_nat (length (value_data v))) in *.
  pose proof (round_up_bounds size) as [Hr _]. set (data := pre ++ value_bytes v ++ rest).
  set (fixed := le_bytes 2 (Z.of_nat (length (value_name v))) ++ le_bytes 2 0 ++ le_bytes 4 (value_type v) ++ le_bytes 4 (Z.of_nat (length (value_data v)))).
  set (fields := fixed ++ unit_bytes (value_name v) ++ value_data v).
  assert (Ed : data = pre ++ fixed ++ unit_bytes (value_name v) ++ value_data v ++ drop (length fields) (padded fields) ++ rest).
  { unfold data, value_bytes. rewrite u16_small by (unfold is_u16; lia). fold fixed. replace (le_bytes 2 _ ++ _) with fields by (unfold fields, fixed; by rewrite <- !app_assoc).
    rewrite (padded_split fields) at 1. unfold fields at 1. by rewrite <- !app_assoc. }
  assert (Hf : Z.of_nat (length fixed) = 12) by (unfold fixed; by rewrite !length_app, !length_le_bytes).
  assert (F0 : read_at data (Z.of_nat (length pre)) 2 = Ok (Z.of_nat (length (value_name v)))).
  { rewrite Ed. unfold fixed. rewrite <- !app_assoc, (read_at_skip pre _ _ 0), read_at_head by (apply length_le_bytes || lia). rewrite le_value_bytes; [done|]. cbn. lia. }
  assert (F4 : read_at data (Z.of_nat (length pre) + 4) 4 = Ok (value_type v)).
  { rewrite Ed. unfold fixed. rewrite <- !app_assoc, (read_at_skip pre _ _ 4), (read_at_skip (le_bytes 2 _) _ _ 2), (read_at_skip (le_bytes 2 _) _ _ 0), read_at_head by (rewrite ?length_le_bytes; lia). by rewrite le_value_bytes. }
  assert (F8 : read_at data (Z.of_nat (length pre) + 8) 4 = Ok (Z.of_nat (length (value_data v)))).
  { rewrite Ed. unfold fixed. rewrite <- !app_assoc, (read_at_skip pre _ _ 8), (read_at_skip (le_bytes 2 _) _ _ 6), (read_at_skip (le_bytes 2 _) _ _ 4), (read_at_skip (le_bytes 4 _) _ _ 0), read_at_head by (rewrite ?length_le_bytes; lia).
    rewrite le_value_bytes; [done|]. change (2 ^ (8 * Z.of_nat 4)) with (2 ^ 32). lia. }
  cbn [apply_values]. rewrite (proj2 (Z.ltb_ge remaining _)) by (unfold CMP_VALUE_HEADER_BYTES; lia). rewrite F0. run. rewrite F4. run. rewrite F8. run. cbv zeta.
  replace (CmpRoundUp8 _) with (Z.of_nat (length (value_bytes v))) by (rewrite Hv; f_equal; unfold CMP_VALUE_HEADER_BYTES, size; lia).
  rewrite u64_small, (proj2 (Z.ltb_ge (_ + _) _)), (proj2 (Z.ltb_ge remaining _)) by (done || (unfold is_u64; lia)). cbn [orb].
  assert (F12 : string_at data (Z.of_nat (length pre) + CMP_VALUE_HEADER_BYTES) (u16 (Z.of_nat (length (value_name v)) * 2)) = Ok (value_name v)).
  { rewrite Ed, app_assoc. unfold CMP_VALUE_HEADER_BYTES. apply string_at_place; [rewrite length_app; lia|Z.to_euclidean_division_equations; lia|rewrite u16_small by (unfold is_u16; lia); lia|done]. }
  rewrite F12. run. replace (bytes_at data _ _) with (Ok (value_data v)); [run; done|]. symmetry.
  rewrite Ed, (bytes_at_skip pre _ _ (12 + 2 * Z.of_nat (length (value_name v)))), (bytes_at_skip fixed _ _ (2 * Z.of_nat (length (value_name v)))), (bytes_at_skip (unit_bytes _) _ _ 0) by (rewrite ?length_unit_bytes; unfold CMP_VALUE_HEADER_BYTES; lia).
  by apply bytes_at_head.
Qed.
End tails.

(** ** Changes *)

Section changes.
Context `{MACHINE}.
Implicit Types (c : change) (pre rest : list Z).

Lemma values_u8 (l : list CMP_VALUE) : Forall value_ok l -> Forall is_u8 (mbind (M := list) value_bytes l).
Proof.
  induction 1 as [|v l (_ & Hd & _) _ IH]; [constructor|]. rewrite bind_cons. apply Forall_app. split; [|done]. unfold value_bytes. apply padded_u8.
  rewrite !Forall_app. repeat split; try apply le_bytes_u8; [apply unit_bytes_u8|done].
Qed.

Lemma values_mod (l : list CMP_VALUE) : Z.of_nat (length (mbind (M := list) value_bytes l)) mod 8 = 0.
Proof.
  induction l as [|v l IH]; [done|]. rewrite bind_cons, length_app. pose proof (padded_mod (le_bytes 2 (u16 (Z.of_nat (length (value_name v)))) ++ le_bytes 2 0 ++ le_bytes 4 (value_type v) ++
    le_bytes 4 (Z.of_nat (length (value_data v))) ++ unit_bytes (value_name v) ++ value_data v)) as Hv. fold (value_bytes v) in Hv. Z.to_euclidean_division_equations. lia.
Qed.

Lemma name_tail_u8 nm : Forall is_u8 (name_tail nm).
Proof. unfold name_tail. rewrite !Forall_app. repeat split; try apply le_bytes_u8. apply unit_bytes_u8. Qed.

Lemma tail_u8 c : change_ok c -> Forall is_u8 (change_tail c).
Proof. intros [_ _ _ _ Hc]. destruct c; cbn [change_tail]; try (by constructor); try apply name_tail_u8. apply values_u8, Hc. Qed.

Lemma change_mod c : Z.of_nat (length (change_bytes c)) mod 8 = 0.
Proof. unfold change_bytes. apply record_mod. Qed.

Lemma change_u8 c : change_ok c -> Forall is_u8 (change_bytes c).
Proof. intros Hc. unfold change_bytes. by apply record_u8, tail_u8. Qed.

Lemma change_back c pre rest : change_ok c -> Z.of_nat (length pre) mod 8 = 0 ->
  CmpReadRecord (pre ++ change_bytes c ++ rest) (Z.of_nat (length pre)) = Ok (Some (change_record c (Z.of_nat (length pre)), Z.of_nat (length pre) + Z.of_nat (length (change_bytes c)))).
Proof.
  intros Hc Hm. pose proof (tail_u8 _ Hc) as Ht. destruct Hc as [H1 H2 H3 H4 H5]. unfold change_bytes, change_record in *. apply CmpReadRecord_back; try done.
  - by destruct c.
  - by destruct c as [? ? []| | | |].
  - destruct c; try done. cbn [change_count]. destruct H5 as [_ ?]. unfold is_u16. lia.
  - apply (Z.lt_trans _ (2 ^ 31)); [exact H4|done].
Qed.

(** A record cut short ends the log. *)
Lemma change_torn c pre (k : nat) : change_ok c -> (k < length (change_bytes c))%nat -> Z.of_nat (length pre) mod 8 = 0 ->
  CmpReadRecord (pre ++ take k (change_bytes c)) (Z.of_nat (length pre)) = Ok None.
Proof.
  intros [_ _ _ Hsz _] Hk Hm. unfold CmpReadRecord. cbv zeta. assert (El : Z.of_nat (length (pre ++ take k (change_bytes c))) - Z.of_nat (length pre) = Z.of_nat k) by (rewrite length_app, length_take; lia).
  rewrite El. destruct (Z.ltb_spec (Z.of_nat k) CMP_RECORD_HEADER_BYTES) as [|Hh]; [done|]. unfold CMP_RECORD_HEADER_BYTES in *.
  rewrite (read_at_skip pre _ (Z.of_nat (length pre)) 0) by lia. set (body := record_body (change_op c) (change_flags c) (join (change_names c)) (change_time c) (change_count c) (change_tail c)).
  assert (Ec : change_bytes c = le_bytes 4 (8 + Z.of_nat (length body)) ++ le_bytes 4 (KiCrc32 body) ++ body) by done.
  assert (Elen : Z.of_nat (length (change_bytes c)) = 8 + Z.of_nat (length body)) by (rewrite Ec, !length_app, !length_le_bytes; lia).
  rewrite Ec, take_app_ge by (rewrite length_le_bytes; lia). rewrite (read_at_head (le_bytes 4 _) _ 4) by apply length_le_bytes. run.
  rewrite le_value_bytes by (change (2 ^ (8 * Z.of_nat 4)) with (2 ^ 32); lia). rewrite (proj2 (Z.ltb_lt (Z.of_nat k) _)) by lia. by rewrite !orb_true_r.
Qed.

(** Where the tail of a record lies. *)
Lemma change_tail_at c pre rest : exists pre', pre ++ change_bytes c ++ rest = pre' ++ padded (change_tail c) ++ rest /\
  Z.of_nat (length pre') = tail_at (change_record c (Z.of_nat (length pre))).
Proof.
  set (start := record_start (change_op c) (change_flags c) (join (change_names c)) (change_time c) (change_count c)).
  set (body := record_body (change_op c) (change_flags c) (join (change_names c)) (change_time c) (change_count c) (change_tail c)).
  exists (pre ++ le_bytes 4 (8 + Z.of_nat (length body)) ++ le_bytes 4 (KiCrc32 body) ++ start). split.
  - assert (Ec : change_bytes c = le_bytes 4 (8 + Z.of_nat (length body)) ++ le_bytes 4 (KiCrc32 body) ++ start ++ padded (change_tail c)) by (unfold start; rewrite <- record_body_eq; reflexivity).
    rewrite Ec, <- !app_assoc. done.
  - rewrite !length_app, !length_le_bytes. pose proof (start_length (change_op c) (change_flags c) (join (change_names c)) (change_time c) (change_count c)) as Hs. fold start in Hs. cbn [tail_at change_record]. lia.
Qed.
End changes.
