(* ===== verification/CmSim.v ===== *)
(** * CmSim: replaying a record is applying its change (kernel/cm/hive.c).

    The heap's operations as functions on the tree of keys, record by record and
    for a whole log: what replay builds is the fold of the changes, and a log cut
    anywhere is the fold of the records before the cut. *)

From S2P Require Import Prelude NtStatus Rtl Bytes Crc32 CmTree CmHive CmReplay CmView CmLog.

(** ** Values *)

Section values.
Implicit Types (nm : list Z) (l : list CMP_VALUE) (v : CMP_VALUE) (i : nat).

Lemma find_value_None nm l : (forall v, v ∈ l -> fold_name (value_name v) <> fold_name nm) -> find_value nm l = None.
Proof.
  induction l as [|v l IH]; intros Hl; [done|]. cbn [find_value]. rewrite bool_decide_eq_false_2 by (apply Hl; left). rewrite IH; [done|]. intros w Hw. apply Hl. by right.
Qed.

Lemma find_value_at nm l i v : StronglySorted value_before l -> l !! i = Some v -> fold_name (value_name v) = fold_name nm -> find_value nm l = Some i.
Proof.
  revert i. induction l as [|w l IH]; intros [|i] Hs Hi Hf; [done|done| |]; cbn [find_value].
  - cbn in Hi. injection Hi as ->. by rewrite bool_decide_eq_true_2.
  - cbn in Hi. apply StronglySorted_inv in Hs as [Hs Hw]. rewrite bool_decide_eq_false_2.
    + by rewrite (IH i).
    + intros Ef. rewrite Forall_forall in Hw. pose proof (Hw v (list_elem_of_lookup_2 _ _ _ Hi)) as Hb. apply (name_before_irrefl (value_name w) (value_name v)); [by rewrite Ef, Hf|done].
Qed.

Lemma place_value_at v (l1 l2 : list CMP_VALUE) : (forall w, w ∈ l1 -> ~ value_before v w) -> (forall w, head l2 = Some w -> value_before v w) -> place_value v (l1 ++ l2) = l1 ++ v :: l2.
Proof.
  intros H1 H2. induction l1 as [|w l1 IH]; cbn [app place_value].
  - destruct l2 as [|w l2]; [done|]. cbn [place_value]. by rewrite (proj2 (Z.ltb_lt _ _)) by (by apply H2).
  - assert (Hw : ~ value_before v w) by (apply H1; left). unfold value_before, name_before in Hw. rewrite (proj2 (Z.ltb_ge _ _)) by lia. f_equal. apply IH. intros; apply H1. by right.
Qed.

Lemma insert_alter_at {A} (f : A -> A) (l : list A) i u : l !! i = Some u -> <[i := f u]> l = alter f i l.
Proof. revert i. induction l as [|w l IH]; intros [|i] Hi; cbn in *; [done|done|by injection Hi as ->|]. f_equal. by apply IH. Qed.

Lemma value_set_eq l nm t data l' : StronglySorted value_before l -> value_set l nm t data l' -> l' = set_value l (mkVALUE nm t data).
Proof.
  intros Hs [(i & v & Hi & Hf & ->)|(Hnew & l1 & l2 & -> & -> & H1 & H2)]; unfold set_value; cbn [value_name value_type value_data].
  - rewrite (find_value_at nm l i v) by done. by apply (insert_alter_at (fun old => mkVALUE (value_name old) t data) l i v).
  - rewrite find_value_None by done. by rewrite place_value_at.
Qed.
End values.

(** ** Resolving a path *)

Section resolving.
Context `{MACHINE}.
Implicit Types (s : CM) (a b c p top x : addr) (n k h : CMP_KEY_NODE) (nm path : list Z) (names : list (list Z)) (keep : CMP_KEY_NODE -> bool).

Lemma leaf_start_skip path (j k : nat) : (j <= k)%nat -> (forall i, (j <= i < k)%nat -> path !! i <> Some SEPARATOR) -> leaf_start path k = leaf_start path j.
Proof.
  intros Hjk. induction Hjk as [|k Hjk IH]; intros Hi; [done|]. cbn [leaf_start]. rewrite bool_decide_eq_false_2 by (apply Hi; lia). apply IH. intros i ?. apply Hi. lia.
Qed.

Lemma leaf_start_plain nm : SEPARATOR ∉ nm -> leaf_start nm (length nm) = O.
Proof. intros Hn. rewrite (leaf_start_skip nm 0) by (try lia; intros i _ Hi; by apply Hn, (list_elem_of_lookup_2 _ i)). done. Qed.

Lemma leaf_start_last path nm : SEPARATOR ∉ nm -> leaf_start (path ++ SEPARATOR :: nm) (length (path ++ SEPARATOR :: nm)) = S (length path).
Proof.
  intros Hn. rewrite (leaf_start_skip _ (S (length path))).
  - cbn [leaf_start]. rewrite bool_decide_eq_true_2; [done|]. rewrite lookup_app_r by lia. by rewrite Nat.sub_diag.
  - rewrite length_app. cbn. lia.
  - intros i Hi E. rewrite lookup_app_r in E by lia. destruct (i - length path)%nat as [|j] eqn:Ej; [lia|]. cbn in E. by apply Hn, (list_elem_of_lookup_2 _ j).
Qed.

Lemma name_ok_join names : name_ok (join names) -> Forall name_ok names.
Proof.
  induction names as [|nm names IH]; [constructor|]. destruct names as [|y names]; [by constructor|]. rewrite (join_cons nm) by done. intros [Hu Hl].
  apply Forall_app in Hu as [Hu1 Hu2]. apply Forall_cons in Hu2 as [_ Hu2]. rewrite length_app in Hl. cbn [length] in Hl. constructor; [split; [done|lia]|]. apply IH. split; [done|lia].
Qed.

Lemma find_subkey_first x s nm (l1 l2 : list addr) c k : tree_ok x s -> name_ok nm -> (forall z, z ∈ l1 -> is_Some (nodes s !! z)) -> nodes s !! c = Some k -> fold_name (name k) = fold_name nm ->
  (forall z m, z ∈ l1 -> nodes s !! z = Some m -> fold_name (name m) <> fold_name nm) -> find_subkey s nm (l1 ++ c :: l2) = Ok c.
Proof.
  intros T Hn Hex Ek Hf Hl. induction l1 as [|z l1 IH]; cbn [app find_subkey].
  - rewrite (get_Some _ _ _ Ek). run. rewrite equal_counted by (done || apply (tr_node _ _ T _ _ Ek)). run. by rewrite bool_decide_eq_true_2.
  - destruct (Hex z) as [m Em]; [left|]. rewrite (get_Some _ _ _ Em). run. rewrite equal_counted by (done || apply (tr_node _ _ T _ _ Em)). run.
    rewrite bool_decide_eq_false_2 by (apply (Hl z); [left|done]). apply IH; intros; [apply Hex; by right|eapply Hl; [by right|done]].
Qed.

Lemma find_subkey_none x s nm (l : list addr) : tree_ok x s -> name_ok nm -> (forall z, z ∈ l -> is_Some (nodes s !! z)) ->
  (forall z m, z ∈ l -> nodes s !! z = Some m -> fold_name (name m) <> fold_name nm) -> find_subkey s nm l = Ok 0.
Proof.
  intros T Hn Hex Hl. induction l as [|z l IH]; [done|]. cbn [find_subkey]. destruct (Hex z) as [m Em]; [left|]. rewrite (get_Some _ _ _ Em). run.
  rewrite equal_counted by (done || apply (tr_node _ _ T _ _ Em)). run. rewrite bool_decide_eq_false_2 by (apply (Hl z); [left|done]). apply IH; intros; [apply Hex; by right|eapply Hl; [by right|done]].
Qed.

Lemma route_finds x keep s a names b : tree_ok x s -> Forall name_ok names -> route keep s a names b -> finds s a names b.
Proof.
  intros T Hn R. induction R as [a|a n nm c k names b l1 l2 E El Ek _ Hf Hl R IH]; [constructor|]. apply Forall_cons in Hn as [Hnm Hn].
  apply (finds_cons _ _ _ c); [|by eapply tree_nonzero|by apply IH]. unfold CmpFindSubkey. rewrite (get_Some _ _ _ E). run. rewrite El. apply (find_subkey_first x s nm l1 l2 c k); try done.
  intros z Hz. eapply subkeys_exist; [exact T|exact E|]. rewrite El. set_solver.
Qed.

Lemma route_app keep s a names names' b : route keep s a (names ++ names') b <-> exists p, route keep s a names p /\ route keep s p names' b.
Proof.
  revert a. induction names as [|nm names IH]; intros a; cbn [app].
  - split; [intros R; exists a; split; [constructor|done]|]. intros (p & R & R'). by inversion R; subst.
  - split.
    + intros R. inversion R as [|? n ? c k ? ? l1 l2 E El Ek Kk Hf Hl R']; subst. apply IH in R' as (p & R1 & R2). exists p. split; [by eapply route_step|done].
    + intros (p & R & R2). inversion R as [|? n ? c k ? ? l1 l2 E El Ek Kk Hf Hl R']; subst. eapply route_step; try done. apply IH. eauto.
Qed.

(** The parent is found, the leaf is left to the walk. *)
Lemma resolve_leaf x s top names nm p create : tree_ok x s -> is_Some (nodes s !! top) -> Forall plain (names ++ [nm]) -> name_ok (join (names ++ [nm])) -> route every s top names p ->
  CmpResolveRecordKey s top (join (names ++ [nm])) create = CmpWalkPathCounted s p nm create.
Proof.
  intros T Ht Hp Hj R. pose proof (name_ok_join _ Hj) as Hn. apply Forall_app in Hp as [Hp1 [Hp2 _]%Forall_cons]. apply Forall_app in Hn as [Hn1 _].
  assert (Hp0 : p <> 0). { destruct (route_exists _ _ _ _ _ Ht R) as [m Em]. by eapply tree_nonzero. }
  unfold CmpResolveRecordKey. rewrite join_snoc. destruct (decide (names = [])) as [->|Hnil].
  - inversion R; subst. rewrite (bool_decide_eq_true_2 (@nil (list Z) = [])) by done. rewrite bool_decide_eq_false_2 by apply Hp2. rewrite leaf_start_plain by apply Hp2. cbn [Nat.ltb Nat.leb]. run.
    destruct (Z.eqb_spec p 0) as [|_]; [done|]. rewrite drop_0. rewrite bool_decide_eq_false_2 by apply Hp2. done.
  - rewrite (bool_decide_eq_false_2 (names = [])) by done. rewrite bool_decide_eq_false_2 by (by destruct (join names)). rewrite leaf_start_last by apply Hp2. cbn [Nat.ltb Nat.leb].
    replace (S (length (join names)) - 1)%nat with (length (join names)) by lia.
    assert (W : CmpWalkPathCounted s top (join names) false = Ok (p, s)) by (apply walk_finds; [done|eapply route_finds; eassumption|done]). rewrite take_app_length, W. run.
    destruct (Z.eqb_spec p 0) as [|_]; [done|]. replace (S (length (join names))) with (length (join names ++ [SEPARATOR])) by (rewrite length_app; cbn; lia).
    change (SEPARATOR :: nm) with ([SEPARATOR] ++ nm). rewrite app_assoc, drop_app_length. rewrite bool_decide_eq_false_2 by apply Hp2. done.
Qed.

(** The record's key, when the tree has it. *)
Lemma resolve_route x s top names a create : tree_ok x s -> is_Some (nodes s !! top) -> Forall plain names -> name_ok (join names) -> route every s top names a ->
  CmpResolveRecordKey s top (join names) create = Ok (a, s).
Proof.
  intros T Ht Hp Hj R. pose proof (name_ok_join _ Hj) as Hn. destruct names as [|nm names _] using rev_ind; [by inversion R; subst|].
  apply route_app in R as (p & R1 & R2). rewrite (resolve_leaf x s top names nm p) by done. apply Forall_app in Hp as [_ Hp2], Hn as [_ Hn2].
  unfold CmpWalkPathCounted. change nm with (join [nm]). apply walk_finds; [done|eapply route_finds; eassumption|done].
Qed.

(** The record's key made under its parent. *)
Lemma resolve_create x s top names nm p h : tree_ok x s -> is_Some (nodes s !! top) -> Forall plain (names ++ [nm]) -> name_ok (join (names ++ [nm])) -> route every s top names p -> nodes s !! p = Some h ->
  (forall c k, c ∈ subkeys h -> nodes s !! c = Some k -> fold_name (name k) <> fold_name nm) -> CmpResolveRecordKey s top (join (names ++ [nm])) true = CmpAllocateNode s p nm.
Proof.
  intros T Ht Hp Hj R Eh Hno. pose proof (name_ok_join _ Hj) as Hn. rewrite (resolve_leaf x s top names nm p) by done. apply Forall_app in Hp as [_ Hp2], Hn as [_ Hn2].
  unfold CmpWalkPathCounted. destruct (length nm) as [|m] eqn:El; [apply Forall_cons in Hp2 as [[? _] _]; by destruct nm|]. change nm with (join [nm]) at 1. rewrite walk_step by (done || (cbn; lia)).
  unfold CmpFindSubkey. rewrite (get_Some _ _ _ Eh). run. apply Forall_cons in Hn2 as [Hnm _]. rewrite (find_subkey_none x s nm) by (done || (intros; by eapply subkeys_exist)). run. change (0 =? 0) with true. cbn iota.
  destruct (CmpAllocateNode s p nm) as [[c s']| | |]; [|done..]. run. destruct (Z.eqb_spec c 0) as [->|]; [done|]. by destruct m.
Qed.

(** A change the tree accepts leads to a key. *)
Lemma alter_finds_route x s top names f t : tree_ok x s -> is_Some (nodes s !! top) -> alter_at names f (tree_of every s top) = Some t ->
  exists p u, route every s top names p /\ is_Some (nodes s !! p) /\ f (tree_of every s p) = Some u.
Proof.
  intros T. revert top t. induction names as [|nm names IH]; intros top t [n E]; cbn [alter_at]; [exists top, t; split_and!; [constructor|by exists n|done]|].
  rewrite (whole_eq x s top n) by done. cbn [tree_subs]. destruct (alter_sub nm _ _) as [l|] eqn:Ea; [|done]. intros _.
  apply alter_sub_Some in Ea as (l1 & u & l2 & u' & El & _ & Hu & Hl & Hf). apply fmap_app_inv in El as (k1 & k2 & -> & E2 & Esub).
  destruct k2 as [|c k2]; [done|]. cbn in E2. injection E2 as -> ->. assert (Hc : c ∈ subkeys n) by (rewrite Esub; set_solver).
  destruct (subkeys_exist _ _ _ _ _ T E Hc) as [k Ek]. destruct (IH c u' ltac:(eauto) Hu) as (p & w & R & Hp & Hw). exists p, w. split_and!; [|done|done].
  apply (route_step every s top n nm c k names p k1 k2); try done; [by rewrite <- (name_of_tree x every s c k)|].
  intros z m Hz Em. rewrite Forall_fmap, Forall_forall in Hl. specialize (Hl z Hz). cbn in Hl. by rewrite (name_of_tree x every s z m) in Hl.
Qed.
End resolving.

(** ** Applying a record *)

Section simulating.
Context `{MACHINE}.
Implicit Types (s : CM) (a b c p top x : addr) (n k h : CMP_KEY_NODE) (nm data pre rest : list Z) (names : list (list Z)) (r : CMP_RECORD) (t u : ktree) (d : nat).

Lemma depth_kept x s s' top k k' d : tree_ok x s -> outside top s s' -> nodes s !! top = Some k -> nodes s' !! top = Some k' -> parent k' = parent k -> depth s top d -> depth s' top d.
Proof.
  intros T O E E' Hp D. assert (Hup : forall b m, depth s b m -> (m < d)%nat -> depth s' b m).
  { intros b m. induction 1 as [b n Eb Hz|b n m Eb Hz Db IH]; intros Hm.
    - apply (depth_root _ _ n); [|done]. apply O; [done|]. intros Hb. destruct (below_depth _ _ _ _ _ T D Hb) as (d' & D' & Hd'). pose proof (depth_fun _ _ _ _ D' (depth_root _ _ _ Eb Hz)). subst.
      destruct Hd' as [->|]; [|lia]. pose proof (depth_fun _ _ _ _ D (depth_root _ _ _ Eb Hz)). lia.
    - apply (depth_child _ _ n); [|done|apply IH; lia]. apply O; [done|]. intros Hb. pose proof (depth_child _ _ _ _ Eb Hz Db) as D1. destruct (below_depth _ _ _ _ _ T D Hb) as (d' & D' & Hd'). pose proof (depth_fun _ _ _ _ D' D1). subst.
      destruct Hd' as [->|]; [|lia]. pose proof (depth_fun _ _ _ _ D D1). lia. }
  inversion D as [? n Eb Hz|? n m Eb Hz Db]; subst.
  - apply (depth_root _ _ k'); [done|congruence].
  - replace n with k in * by congruence. apply (depth_child _ _ k'); [done|congruence|]. rewrite Hp. apply Hup; [done|lia].
Qed.

(** The record applied is the change [t] of the tree. *)
Definition simulates x top s data r t : Prop := exists s', CmpApplyRecord s top data r = Ok (true, s') /\ replay_inv x top s' /\ outside top s s' /\
  tree_of every s' top = t /\ forall d, depth s top d -> depth s' top d.

Lemma simulates_intro x top s data r names p f t s' : replay_inv x top s -> Forall is_u8 data -> record_ok data r -> CmpApplyRecord s top data r = Ok (true, s') ->
  route every s top names p -> alter_at names f (tree_of every s top) = Some t -> (tree_ok x s' -> f (tree_of every s p) = Some (tree_of every s' p)) ->
  (forall b, ~ below s p b -> is_Some (nodes s !! b) -> nodes s' !! b = nodes s !! b) ->
  (exists k k', nodes s !! p = Some k /\ nodes s' !! p = Some k' /\ parent k' = parent k) -> simulates x top s data r t.
Proof.
  intros I Hd Hr E R Ht Hf Ho (kp & kp' & Ep & Ep' & Hp). destruct (CmpApplyRecord_safe x top s data r I Hd Hr) as (ok & s1 & E1 & [I1 O1]). rewrite E in E1. injection E1 as <- <-.
  exists s'. split; [done|]. split; [done|]. split; [done|]. split.
  - pose proof (alter_route x x every s s' top names p f (ri_tree _ _ _ I) (ri_tree _ _ _ I1) R Ho) as A. rewrite Ht in A.
    assert (K : kept every s' p = kept every s p) by (unfold kept; by rewrite Ep, Ep'). specialize (A K (Hf (ri_tree _ _ _ I1))). congruence.
  - intros d D. destruct (ri_top _ _ _ I) as [k Ek], (ri_top _ _ _ I1) as [k' Ek']. apply (depth_kept x s s' top k k' d (ri_tree _ _ _ I) O1 Ek Ek'); [|done].
    destruct (decide (p = top)) as [->|Hne]; [congruence|]. rewrite Ho in Ek'; [congruence| |eauto]. intros Hb. pose proof (route_below _ _ _ _ _ R) as Hb2.
    destruct (below_depth _ _ _ _ _ (ri_tree _ _ _ I) D Hb2) as (d1 & D1 & [?|?]); [done|]. destruct (below_depth _ _ _ _ _ (ri_tree _ _ _ I) D1 Hb) as (d2 & D2 & [?|?]); [done|].
    pose proof (depth_fun _ _ _ _ D D2). lia.
Qed.

(** One key rewritten in place. *)
Lemma info_tree x s s' p n n' : tree_ok x s -> tree_ok x s' -> nodes s !! p = Some n -> nodes s' = <[p := n']> (nodes s) -> subkeys n' = subkeys n ->
  tree_of every s' p = Key (name n') (lastWriteTime n') (isLink n') (values n') (tree_subs (tree_of every s p)).
Proof.
  intros T T' E E' Hs. rewrite (whole_eq x s' p n') by (done || (rewrite E'; by rewrite lookup_insert_eq)). rewrite (whole_eq x s p n) by done. cbn [tree_subs]. rewrite Hs.
  apply (f_equal (Key _ _ _ _)), fmap_ext_in. intros c Hc. apply (tree_same x x every s s' c); [done|done|by eapply subkeys_exist|].
  intros b Hb. rewrite E', lookup_insert_ne; [done|]. intros <-. by apply (child_not_above _ _ _ _ _ T E Hc).
Qed.

Lemma info_outside s s' p n' b : nodes s' = <[p := n']> (nodes s) -> ~ below s p b -> nodes s' !! b = nodes s !! b.
Proof. intros -> Hb. rewrite lookup_insert_ne; [done|]. intros <-. apply Hb, below_top. Qed.

Lemma stamp_back time : is_s64 time -> s64 (u64 time) = time.
Proof. apply s64_u64. Qed.

Lemma change_record_ok ch pre rest : change_ok ch -> Z.of_nat (length pre) mod 8 = 0 -> Forall is_u8 (pre ++ change_bytes ch ++ rest) ->
  record_ok (pre ++ change_bytes ch ++ rest) (change_record ch (Z.of_nat (length pre))).
Proof.
  intros Hc Hm Hd. destruct (CmpReadRecord_safe (pre ++ change_bytes ch ++ rest) (Z.of_nat (length pre)) Hd) as (r & E & Hr); [rewrite length_app; lia|done|].
  rewrite change_back in E by done. injection E as <-. apply Hr.
Qed.

(** The values of a record, one after the other. *)
Lemma values_sim x a (l : list CMP_VALUE) : plenty -> Forall value_ok l -> forall s n pre rest, tree_ok x s -> nodes s !! a = Some n -> Z.of_nat (length pre) mod 8 = 0 ->
  exists s', apply_values s a (pre ++ mbind (M := list) value_bytes l ++ rest) (Z.of_nat (length pre)) (Z.of_nat (length (mbind (M := list) value_bytes l))) (length l) = Ok (true, s') /\ tree_ok x s' /\
    nodes s' = <[a := n <| values := foldl set_value (values n) l |> <| valueCount := Z.of_nat (length (foldl set_value (values n) l)) |>]> (nodes s).
Proof.
  intros P Hl. induction Hl as [|v l Hv Hl IH]; intros s n pre rest T E Hm.
  { exists s. split; [done|]. split; [done|]. cbn [foldl]. rewrite <- set_node_eq by apply (tr_node _ _ T _ _ E). symmetry. apply insert_id. rewrite E. by destruct n. }
  rewrite bind_cons, <- app_assoc. cbn [length]. rewrite apply_value_back by (done || (rewrite length_app; lia)).
  destruct (CmpSetValue_spec x s a n (value_name v) (value_type v) (value_data v) T E) as (status & s1 & -> & T1 & _ & _ & Hcase & Hs); [by destruct v|].
  specialize (Hs P). subst status. run. change (negb (NT_SUCCESS STATUS_SUCCESS)) with false. cbn iota.
  destruct Hcase as [[? _]|(_ & l1 & Hset & N1)]; [done|]. apply value_set_eq in Hset; [|apply (tr_node _ _ T _ _ E)]. replace (mkVALUE (value_name v) (value_type v) (value_data v)) with v in Hset by (by destruct v). subst l1.
  set (n1 := n <| values := set_value (values n) v |> <| valueCount := _ |>) in N1. assert (E1 : nodes s1 !! a = Some n1) by (rewrite N1; by rewrite lookup_insert_eq).
  assert (Hvm : Z.of_nat (length (value_bytes v)) mod 8 = 0) by (rewrite value_length; apply round_up_bounds).
  destruct (IH s1 n1 (pre ++ value_bytes v) rest T1 E1) as (s2 & E2 & T2 & N2). { rewrite length_app. Z.to_euclidean_division_equations. lia. }
  exists s2. split; [|split; [done|]].
  - rewrite <- E2. rewrite <- app_assoc. f_equal; rewrite length_app; lia.
  - rewrite N2, N1, insert_insert_eq. done.
Qed.

(** *** Values set *)

Lemma sim_values x top s names time (l : list CMP_VALUE) pre rest t : let ch := SetValues names time l in let data := pre ++ change_bytes ch ++ rest in
  plenty -> replay_inv x top s -> change_ok ch -> Z.of_nat (length pre) mod 8 = 0 -> Forall is_u8 data -> apply ch (tree_of every s top) = Some t ->
  simulates x top s data (change_record ch (Z.of_nat (length pre))) t.
Proof.
  intros ch data P I Hc Hm Hd Ht. pose proof (ri_tree _ _ _ I) as T. pose proof (change_record_ok ch pre rest Hc Hm Hd) as Hr. cbn [apply ch] in Ht.
  destruct (alter_finds_route x s top names _ t T (ri_top _ _ _ I) Ht) as (p & u & R & [n En] & Hu).
  destruct (change_tail_at ch pre rest) as (pre' & Edata & Epre'). fold data in Edata. pose proof (rk_tail _ _ Hr) as (_ & Htm & _ & _).
  destruct Hc as [H1 H2 H3 _ [Hv Hlen]]. cbn in H1, H2, H3, Hv, Hlen. set (n1 := n <| lastWriteTime := time |>). set (s1 := put_node s p n1).
  assert (E1 : nodes s1 !! p = Some n1) by (cbn; by rewrite lookup_insert_eq).
  assert (T1 : tree_ok x s1) by (eapply put_info_tree; [exact T|exact En|done|done|by apply node_stamp_ok; [apply (tr_node _ _ T _ _ En)|]]).
  assert (Epad : padded (change_tail ch) = mbind (M := list) value_bytes l) by (apply padded_aligned, values_mod).
  destruct (values_sim x p l P Hv s1 n1 pre' rest T1 E1) as (s2 & E2 & T2 & N2); [by rewrite Epre'|].
  eapply (simulates_intro x top s data _ names p _ t s2 I Hd Hr); [|done|exact Ht| | |].
  - unfold CmpApplyRecord. cbn [op change_record change_op recordPath stamp]. change (CMP_OP_SET_VALUES =? CMP_OP_CREATE_KEY) with false. change (CMP_OP_SET_VALUES =? CMP_OP_SET_VALUES) with true. cbn iota.
    change (change_names ch) with names. rewrite (resolve_route x s top names p false) by (done || apply I). run. destruct (Z.eqb_spec p 0) as [->|_]; [by destruct (tree_nonzero _ _ _ _ T En)|].
    unfold stamp_node. rewrite (get_Some _ _ _ En). run. rewrite stamp_back by done. fold n1 s1. unfold CmpApplyValues. rewrite <- Epre'. cbn [tailBytes recordValues change_record change_count ch]. rewrite Nat2Z.id, Epad, Edata, Epad. exact E2.
  - intros T2'. rewrite (info_tree x s s2 p n _ T T2' En) by (done || (rewrite N2; unfold s1, put_node; cbn; by rewrite insert_insert_eq)). rewrite (whole_eq x s p n) by done. done.
  - intros b Hb _. apply (info_outside s s2 p (n1 <| values := foldl set_value (values n) l |> <| valueCount := Z.of_nat (length (foldl set_value (values n) l)) |>)); [|done]. rewrite N2. cbn. by rewrite insert_insert_eq.
  - exists n. eexists. split; [done|]. rewrite N2, lookup_insert_eq. done.
Qed.

(** *** A value removed *)

Lemma delete_value_eq s top data names time nm start : CmpApplyRecord s top data (change_record (DeleteValue names time nm) start) =
  '(a, s) ← CmpResolveRecordKey s top (join names) false;
  if a =? 0 then Ok (false, s) else
  found ← CmpReadTailName data (change_record (DeleteValue names time nm) start);
  match found with None => Ok (false, s) | Some nm => s ← stamp_node s a (u64 time); '(_, s) ← CmpRemoveValue s a nm; Ok (true, s) end.
Proof. done. Qed.

Lemma sim_delete_value x top s names time nm pre rest t : let ch := DeleteValue names time nm in let data := pre ++ change_bytes ch ++ rest in
  replay_inv x top s -> change_ok ch -> Z.of_nat (length pre) mod 8 = 0 -> Forall is_u8 data -> apply ch (tree_of every s top) = Some t ->
  simulates x top s data (change_record ch (Z.of_nat (length pre))) t.
Proof.
  intros ch data I Hc Hm Hd Ht. pose proof (ri_tree _ _ _ I) as T. pose proof (change_record_ok ch pre rest Hc Hm Hd) as Hr. cbn [apply ch] in Ht.
  destruct (alter_finds_route x s top names _ t T (ri_top _ _ _ I) Ht) as (p & u & R & [n En] & _).
  destruct (change_tail_at ch pre rest) as (pre' & Edata & Epre'). fold data in Edata. pose proof (rk_tail _ _ Hr) as (_ & Htm & _ & _).
  destruct Hc as [H1 H2 H3 _ Hnm]. cbn in H1, H2, H3, Hnm. set (n1 := n <| lastWriteTime := time |>). set (s1 := put_node s p n1).
  assert (E1 : nodes s1 !! p = Some n1) by (cbn; by rewrite lookup_insert_eq). pose proof (tr_node _ _ T _ _ En) as Hn.
  assert (T1 : tree_ok x s1) by (eapply put_info_tree; [exact T|exact En|done|done|by apply node_stamp_ok]).
  destruct (CmpRemoveValue_spec x s1 p n1 nm T1 E1 Hnm) as (b & s2 & E2 & T2 & _ & _ & Hb).
  assert (N2 : exists m, nodes s2 = <[p := n1 <| values := unset_value nm (values n) |> <| valueCount := m |>]> (nodes s)).
  { destruct b; unfold unset_value.
    - destruct Hb as (i & v & l & Hi & Hf & -> & ->). rewrite (find_value_at nm (values n) i v) by (done || apply Hn). eexists. cbn. rewrite insert_insert_eq. reflexivity.
    - destruct Hb as [-> Hno]. rewrite find_value_None by done. exists (valueCount n). done. }
  destruct N2 as [m N2]. eapply (simulates_intro x top s data _ names p _ t s2 I Hd Hr); [|done|exact Ht| | |].
  - change (change_tail ch) with (name_tail nm) in Edata. assert (Etail : CmpReadTailName data (change_record ch (Z.of_nat (length pre))) = Ok (Some nm)) by (rewrite Edata; apply tail_name_back; done || congruence).
    unfold ch in Etail |- *. rewrite delete_value_eq, Etail, (resolve_route x s top names p false) by (done || apply I). run. destruct (Z.eqb_spec p 0) as [->|_]; [by destruct (tree_nonzero _ _ _ _ T En)|].
    unfold stamp_node. rewrite (get_Some _ _ _ En). run. rewrite stamp_back by done. fold n1 s1. rewrite E2. run. done.
  - intros T2'. rewrite (info_tree x s s2 p n _ T T2' En N2) by done. rewrite (whole_eq x s p n) by done. done.
  - intros c Hb' _. by apply (info_outside s s2 p (n1 <| values := unset_value nm (values n) |> <| valueCount := m |>)).
  - exists n. eexists. split; [done|]. rewrite N2, lookup_insert_eq. done.
Qed.

(** *** A key made, or stamped again *)

(** The node's own part of a CREATE record. *)
Lemma create_stamp x s a n time link : nodes s !! a = Some n -> is_s64 time ->
  (s ← stamp_node s a (u64 time); n ← get_node s a; let s := put_node s a (n <| isLink := negb (Z.land (if link : bool then 1 else 0) 1 =? 0) |>) in Ok (Z.land (if link then 1 else 0) (Z.lnot 1) =? 0, s)) =
  Ok (true, put_node (put_node s a (n <| lastWriteTime := time |>)) a (n <| lastWriteTime := time |> <| isLink := link |>)) /\
  nodes (put_node (put_node s a (n <| lastWriteTime := time |>)) a (n <| lastWriteTime := time |> <| isLink := link |>)) = <[a := n <| lastWriteTime := time |> <| isLink := link |>]> (nodes s).
Proof.
  intros E Ht. unfold stamp_node. rewrite (get_Some _ _ _ E). run. rewrite get_put_eq. run. rewrite stamp_back by done. split; [by destruct link|]. cbn. by rewrite insert_insert_eq.
Qed.

Lemma create_record_eq s top data names time link start : CmpApplyRecord s top data (change_record (Create names time link) start) =
  '(a, s) ← CmpResolveRecordKey s top (join names) true;
  if a =? 0 then Ok (false, s) else
  s ← stamp_node s a (u64 time); n ← get_node s a;
  let s := put_node s a (n <| isLink := negb (Z.land (if link then 1 else 0) 1 =? 0) |>) in Ok (Z.land (if link then 1 else 0) (Z.lnot 1) =? 0, s).
Proof. by destruct link. Qed.

(** The key is there. *)
Lemma sim_create_there x top s names names' a time link pre rest t f p : let ch := Create (names ++ names') time link in let data := pre ++ change_bytes ch ++ rest in
  replay_inv x top s -> change_ok ch -> Z.of_nat (length pre) mod 8 = 0 -> Forall is_u8 data -> route every s top names p -> route every s p names' a ->
  alter_at names f (tree_of every s top) = Some t -> (forall u, alter_at names' (fun t => Some (with_link (with_time t time) link)) (tree_of every s p) = Some u -> f (tree_of every s p) = Some u) ->
  simulates x top s data (change_record ch (Z.of_nat (length pre))) t.
Proof.
  intros ch data I Hc Hm Hd R R' Ht Hf. pose proof (ri_tree _ _ _ I) as T. pose proof (change_record_ok ch pre rest Hc Hm Hd) as Hr. destruct Hc as [H1 H2 H3 _ _]. cbn in H1, H2, H3.
  assert (Ra : route every s top (names ++ names') a) by (apply route_app; eauto). destruct (route_exists _ _ _ _ _ (ri_top _ _ _ I) Ra) as [n En], (route_exists _ _ _ _ _ (ri_top _ _ _ I) R) as [h Eh].
  destruct (create_stamp x s a n time link En H3) as [E2 N2]. set (s2 := put_node (put_node s a _) a _) in *. set (n2 := n <| lastWriteTime := time |> <| isLink := link |>) in *.
  eapply (simulates_intro x top s data _ names p f t s2 I Hd Hr); [|done|exact Ht| | |].
  - unfold ch. rewrite create_record_eq, (resolve_route x s top (names ++ names') a true) by (done || apply I). run. destruct (Z.eqb_spec a 0) as [->|_]; [by destruct (tree_nonzero _ _ _ _ T En)|]. exact E2.
  - intros T2. apply Hf. eapply (alter_route x x every s s2 p names' a); [done|done|done| | |].
    + intros b Hb _. by apply (info_outside s s2 a n2).
    + unfold kept. rewrite N2, lookup_insert_eq, En. done.
    + rewrite (info_tree x s s2 a n n2 T T2 En N2) by done. rewrite (whole_eq x s a n) by done. done.
  - intros b Hb _. apply (info_outside s s2 a n2); [done|]. intros Ha. apply Hb. eapply below_trans; [by eapply route_below|done].
  - destruct (decide (a = p)) as [<-|Hne].
    + exists n, n2. rewrite N2, lookup_insert_eq. done.
    + exists h, h. rewrite N2, lookup_insert_ne by done. done.
Qed.

Lemma route_depth x keep s a names b d : tree_ok x s -> route keep s a names b -> depth s a d -> depth s b (d + length names).
Proof.
  intros T R. revert d. induction R as [a|a n nm c k names b l1 l2 E El Ek _ _ _ R IH]; intros d D; [by rewrite Nat.add_0_r|]. cbn [length].
  replace (d + S (length names))%nat with (S d + length names)%nat by lia. apply IH. apply (child_depth _ _ _ _ _ _ T E); [rewrite El; set_solver|done].
Qed.

(** What a new key does to the tree of its parent. *)
Lemma linked_tree x s s2 p h a nm l time link m : tree_ok x s -> tree_ok x s2 -> nodes s !! p = Some h -> nodes s !! a = None -> linked s p h a nm l ->
  (forall c k, c ∈ subkeys h -> nodes s !! c = Some k -> fold_name (name k) <> fold_name nm) ->
  nodes s2 = <[a := mkNODE p [] [] 0 0 time 0 false false link nm]> (<[p := h <| subkeys := l |> <| subkeyCount := m |>]> (nodes s)) ->
  create_sub nm time link (tree_of every s p) = Some (tree_of every s2 p).
Proof.
  intros T T2 Eh Ea (l1 & l2 & -> & Hl & O1 & O2) Hno N2. assert (Hpa : p <> a) by congruence. set (h2 := h <| subkeys := _ |> <| subkeyCount := m |>) in N2.
  assert (Ep2 : nodes s2 !! p = Some h2) by (rewrite N2, lookup_insert_ne, lookup_insert_eq; done). assert (Ea2 : nodes s2 !! a = Some (mkNODE p [] [] 0 0 time 0 false false link nm)) by (rewrite N2; by rewrite lookup_insert_eq).
  assert (Hex : forall c, c ∈ subkeys h -> exists k, nodes s !! c = Some k) by (intros c Hc; by destruct (subkeys_exist _ _ _ _ _ T Eh Hc); eauto).
  assert (Same : forall c, c ∈ subkeys h -> tree_of every s2 c = tree_of every s c).
  { intros c Hc. apply (tree_same x x); [done|done|by eapply subkeys_exist|]. intros b Hb. destruct (below_exists x s c b T (subkeys_exist _ _ _ _ _ T Eh Hc) Hb) as [k Ek].
    rewrite N2, !lookup_insert_ne; [done| |congruence]. intros <-. by apply (child_not_above _ _ _ _ _ T Eh Hc). }
  rewrite (whole_eq x s2 p h2), (whole_eq x s p h) by done. unfold create_sub. cbn [tree_subs with_subs].
  rewrite alter_sub_miss.
  2: { apply Forall_fmap, Forall_forall. intros c Hc. destruct (Hex c Hc) as [k Ek]. cbn. rewrite (name_of_tree x every s c k) by done. by eapply Hno. }
  change (subkeys h2) with (l1 ++ a :: l2). rewrite fmap_app, fmap_cons. rewrite (whole_eq x s2 a _ T2 Ea2). cbn [name lastWriteTime isLink values subkeys fmap list_fmap].
  do 2 f_equal. rewrite Hl, fmap_app.
  rewrite (fmap_ext_in (tree_of every s2) (tree_of every s) l1), (fmap_ext_in (tree_of every s2) (tree_of every s) l2) by (intros c Hc; apply Same; rewrite Hl; set_solver).
  apply place_sub_at.
  - apply Forall_fmap, Forall_forall. intros c Hc. destruct (Hex c) as [k Ek]; [rewrite Hl; set_solver|]. change (0 <= name_order nm (tree_name (tree_of every s c))). rewrite (name_of_tree x every s c k) by done. specialize (O1 c k Hc Ek). unfold name_before in O1. lia.
  - intros u Hu. destruct l2 as [|c l2]; [done|]. cbn in Hu. injection Hu as <-. destruct (Hex c) as [k Ek]; [rewrite Hl; set_solver|]. cbn [tree_name]. rewrite (name_of_tree x every s c k) by done. by apply (O2 c k).
Qed.

(** The key is not there. *)
Lemma sim_create_new x top s names nm time link pre rest t p h d : let ch := Create (names ++ [nm]) time link in let data := pre ++ change_bytes ch ++ rest in
  plenty -> replay_inv x top s -> depth s top d -> (d + length names < 96)%nat -> change_ok ch -> Z.of_nat (length pre) mod 8 = 0 -> Forall is_u8 data ->
  route every s top names p -> nodes s !! p = Some h -> (forall c k, c ∈ subkeys h -> nodes s !! c = Some k -> fold_name (name k) <> fold_name nm) ->
  alter_at names (create_sub nm time link) (tree_of every s top) = Some t -> simulates x top s data (change_record ch (Z.of_nat (length pre))) t.
Proof.
  intros ch data P I D Hroom Hc Hm Hd R Eh Hno Ht. pose proof (ri_tree _ _ _ I) as T. pose proof (change_record_ok ch pre rest Hc Hm Hd) as Hr. destruct Hc as [H1 H2 H3 _ _]. cbn in H1, H2, H3.
  assert (Hnm : name_ok nm) by (apply name_ok_join in H2; by apply Forall_app in H2 as [_ [? _]%Forall_cons]).
  destruct (CmpAllocateNode_spec x s p h nm T Eh Hnm) as (a & s1 & E1 & T1 & _ & _ & Hcase & Hroom1). specialize (Hroom1 P _ (route_depth _ _ _ _ _ _ _ T R D) Hroom).
  destruct Hcase as [[? _]|(Ha0 & Ea & _ & l & t0 & Hl & N1)]; [done|]. assert (Hpa : p <> a) by congruence.
  assert (Ea1 : nodes s1 !! a = Some (new_node p nm t0)) by (rewrite N1, lookup_insert_ne, lookup_insert_eq; done).
  destruct (create_stamp x s1 a _ time link Ea1 H3) as [E2 N2]. set (s2 := put_node (put_node s1 a _) a _) in *.
  assert (N : nodes s2 = <[a := mkNODE p [] [] 0 0 time 0 false false link nm]> (<[p := h <| subkeys := l |> <| subkeyCount := subkeyCount h + 1 |>]> (nodes s))).
  { rewrite N2, N1. rewrite (insert_insert_ne _ p a), insert_insert_eq by done. done. }
  eapply (simulates_intro x top s data _ names p _ t s2 I Hd Hr); [|done|exact Ht| | |].
  - unfold ch. rewrite create_record_eq, (resolve_create x s top names nm p h), E1 by (done || apply I). run. destruct (Z.eqb_spec a 0) as [|_]; [done|]. exact E2.
  - intros T2. by apply (linked_tree x s s2 p h a nm l time link (subkeyCount h + 1)).
  - intros b Hb [k Ek]. rewrite N, !lookup_insert_ne; [done| |congruence]. intros <-. apply Hb, below_top.
  - exists h. eexists. split; [done|]. rewrite N, lookup_insert_ne, lookup_insert_eq by done. done.
Qed.

Lemma sim_create x top s names time link pre rest t d : let ch := Create names time link in let data := pre ++ change_bytes ch ++ rest in
  plenty -> replay_inv x top s -> depth s top d -> (d + length names <= 96)%nat -> change_ok ch -> Z.of_nat (length pre) mod 8 = 0 -> Forall is_u8 data ->
  apply ch (tree_of every s top) = Some t -> simulates x top s data (change_record ch (Z.of_nat (length pre))) t.
Proof.
  intros ch data P I D Hroom Hc Hm Hd Ht. pose proof (ri_tree _ _ _ I) as T. cbn [apply ch] in Ht.
  destruct names as [|nm names _] using rev_ind.
  { apply (sim_create_there x top s [] [] top time link pre rest t (fun t => Some (with_link (with_time t time) link)) top); try done; constructor. }
  rewrite last_snoc, removelast_last in Ht. rewrite length_app in Hroom. cbn [length] in Hroom. pose proof Ht as Ht0.
  destruct (alter_finds_route x s top names _ t T (ri_top _ _ _ I) Ht0) as (p & u & R & [h Eh] & Hu). unfold create_sub in Hu.
  destruct (alter_sub nm _ (tree_subs (tree_of every s p))) as [l|] eqn:Ea.
  - destruct (alter_finds_route x s p [nm] (fun t => Some (with_link (with_time t time) link)) (with_subs (tree_of every s p) l) T ltac:(eauto)) as (a & v & R' & _ & _); [cbn [alter_at]; by rewrite Ea|].
    apply (sim_create_there x top s names [nm] a time link pre rest t (create_sub nm time link) p); try done. intros v'. cbn [alter_at]. unfold create_sub. by rewrite Ea.
  - apply (sim_create_new x top s names nm time link pre rest t p h d); try done; [lia|]. intros c k Hin Ek.
    apply alter_sub_None in Ea; [|by intros; eexists]. rewrite (whole_eq x s p h) in Ea by done. cbn [tree_subs] in Ea. rewrite Forall_fmap, Forall_forall in Ea. specialize (Ea c Hin). cbn in Ea. by rewrite (name_of_tree x every s c k) in Ea.
Qed.

(** *** A key taken out *)

Lemma take_sub_key x s p h nm v l : tree_ok x s -> nodes s !! p = Some h -> take_sub nm (tree_subs (tree_of every s p)) = Some (v, l) ->
  exists c k (k1 k2 : list addr), subkeys h = k1 ++ c :: k2 /\ nodes s !! c = Some k /\ parent k = p /\ v = tree_of every s c /\ l = tree_of every s <$> (k1 ++ k2) /\ route every s p [nm] c.
Proof.
  intros T Eh Ht. rewrite (whole_eq x s p h) in Ht by done. apply take_sub_Some in Ht as (l1 & l2 & El & -> & Hl & Hf). apply fmap_app_inv in El as (k1 & k2 & -> & E2 & Esub).
  destruct k2 as [|c k2]; [done|]. cbn in E2. injection E2 as -> ->. destruct (tr_child _ _ T p h c Eh) as (k & Ek & Hp); [rewrite Esub; set_solver|].
  exists c, k, k1, k2. split_and!; try done; [by rewrite fmap_app|]. apply (route_step every s p h nm c k [] c k1 k2); try done; [by rewrite <- (name_of_tree x every s c k)| |constructor].
  intros z m Hz Em. rewrite Forall_fmap, Forall_forall in Hl. specialize (Hl z Hz). cbn in Hl. by rewrite (name_of_tree x every s z m) in Hl.
Qed.

(** The siblings of a key that changes keep their trees. *)
Lemma siblings_same x s s' p h c (k1 k2 : list addr) : tree_ok x s -> tree_ok x s' -> nodes s !! p = Some h -> subkeys h = k1 ++ c :: k2 ->
  (forall b, b <> p -> b <> c -> nodes s' !! b = nodes s !! b) -> forall z, z ∈ k1 ++ k2 -> tree_of every s' z = tree_of every s z.
Proof.
  intros T T' Eh Hs Ho z Hz. pose proof (nk_subkeys _ (tr_node _ _ T _ _ Eh)) as Hd. rewrite Hs in Hd. assert (Hzc : z <> c). { intros ->. apply NoDup_app in Hd as (_ & Hd1 & Hd2). apply NoDup_cons in Hd2 as [Hd2 _]. set_solver. }
  assert (Hzin : z ∈ subkeys h) by (rewrite Hs; set_solver). apply (tree_same x x); [done|done|by eapply subkeys_exist|]. intros b Hb. apply Ho; intros ->.
  - by apply (child_not_above _ _ _ _ _ T Eh Hzin).
  - assert (Hcin : c ∈ subkeys h) by (rewrite Hs; set_solver). destruct (tr_depth _ _ T _ _ Eh) as (d & _ & D). apply Hzc.
    apply (below_disjoint x s z c c (S d) T (child_depth _ _ _ _ _ _ T Eh Hzin D) (child_depth _ _ _ _ _ _ T Eh Hcin D) Hb (below_top _ _)).
Qed.

Lemma delete_key_eq s top data names time start : CmpApplyRecord s top data (change_record (DeleteKey names time) start) =
  '(a, s) ← CmpResolveRecordKey s top (join names) false;
  if (a =? 0) || (a =? top) then Ok (false, s) else
  n ← get_node s a;
  if (parent n =? 0) || negb (subkeyCount n =? 0) then Ok (false, s) else
  _ ← ASSERT (bodyCount n =? 0) "node->bodyCount == 0";
  s ← remove_subkey s (parent n) a; s ← stamp_node s (parent n) (u64 time); s ← CmpFreeValues s a; s ← free_key s a; Ok (true, s).
Proof. done. Qed.

(** The leaf's own part of a DELETE record. *)
Lemma delete_leaf s p h c k time : nodes s !! p = Some h -> nodes s !! c = Some k -> p <> c -> name k <> [] -> is_s64 time -> exists s',
  (s ← remove_subkey s p c; s ← stamp_node s p (u64 time); s ← CmpFreeValues s c; s ← free_key s c; Ok (true, s)) = Ok (true, s') /\
  nodes s' = delete c (<[p := h <| subkeys := unlink c (subkeys h) |> <| subkeyCount := subkeyCount h - 1 |> <| lastWriteTime := time |>]> (nodes s)).
Proof.
  intros Eh Ek Hpc Hn Ht. rewrite (remove_subkey_eq _ _ _ _ Eh). run. unfold stamp_node. rewrite get_put_eq. run. rewrite stamp_back by done.
  unfold CmpFreeValues. rewrite !get_put_ne by done. rewrite (get_Some _ _ _ Ek). run. unfold free_key. rewrite get_put_eq. run. change (name (k <| values := [] |> <| valueCount := 0 |>)) with (name k).
  rewrite bool_decide_eq_false_2 by done. run. eexists. split; [done|]. cbn. rewrite delete_insert_eq. by rewrite !insert_insert_eq.
Qed.

Lemma sim_delete_key x top s names time pre rest t : let ch := DeleteKey names time in let data := pre ++ change_bytes ch ++ rest in
  replay_inv x top s -> change_ok ch -> Z.of_nat (length pre) mod 8 = 0 -> Forall is_u8 data -> apply ch (tree_of every s top) = Some t ->
  simulates x top s data (change_record ch (Z.of_nat (length pre))) t.
Proof.
  intros ch data I Hc Hm Hd Ht. pose proof (ri_tree _ _ _ I) as T. pose proof (change_record_ok ch pre rest Hc Hm Hd) as Hr. destruct Hc as [H1 H2 H3 _ _]. cbn in H1, H2, H3. cbn [apply ch] in Ht.
  destruct names as [|nm names _] using rev_ind; [done|]. rewrite last_snoc, removelast_last in Ht. cbn [mbind option_bind] in Ht.
  destruct (alter_finds_route x s top names _ t T (ri_top _ _ _ I) Ht) as (p & u & R & [h Eh] & Hu). unfold delete_sub in Hu. destruct (take_sub nm _) as [[v l]|] eqn:Et; [|done]. cbn [mbind option_bind] in Hu.
  pose proof Et as Et0. apply (take_sub_key x s p h) in Et0 as (c & k & k1 & k2 & Hs & Ek & Hp & -> & -> & Rc); [|done|done].
  assert (Hks : subkeys k = []) by (rewrite (whole_eq x s c k) in Hu by done; cbn [tree_subs] in Hu; by destruct (subkeys k)).
  assert (Ra : route every s top (names ++ [nm]) c) by (apply route_app; eauto). assert (Hcin : c ∈ subkeys h) by (rewrite Hs; set_solver).
  assert (Hpc : p <> c) by (intros ->; by destruct (not_own_child _ _ _ _ T Eh)). assert (Hp0 : p <> 0) by (by eapply tree_nonzero).
  assert (Hct : c <> top). { intros ->. apply (child_not_above _ _ _ _ _ T Eh Hcin). by eapply route_below. }
  destruct (ri_below _ _ _ I c k) as [Hbody Hname]; [by eapply route_below|done|done|]. pose proof (nk_subkeys _ (tr_node _ _ T _ _ Eh)) as Hnd.
  destruct (delete_leaf s p h c k time Eh Ek Hpc Hname H3) as (s2 & E2 & N2). rewrite Hs, unlink_middle in N2 by (by rewrite <- Hs).
  eapply (simulates_intro x top s data _ names p _ t s2 I Hd Hr); [|done|exact Ht| | |].
  - unfold ch. rewrite delete_key_eq, (resolve_route x s top (names ++ [nm]) c false) by (done || apply I). run. destruct (Z.eqb_spec c 0) as [->|_]; [by destruct (tree_nonzero _ _ _ _ T Ek)|].
    destruct (Z.eqb_spec c top) as [|_]; [done|]. cbn [orb]. rewrite (get_Some _ _ _ Ek). run. rewrite (nk_subkeyCount _ (tr_node _ _ T _ _ Ek)), Hks, Hp, Hbody. destruct (Z.eqb_spec p 0) as [|_]; [done|]. change (0 =? 0) with true. run. exact E2.
  - intros T2. unfold delete_sub. rewrite Et. cbn [mbind option_bind]. rewrite (whole_eq x s c k), Hks by done. cbn [tree_subs fmap list_fmap].
    assert (Ep2 : exists h2, nodes s2 !! p = Some h2 /\ h2 = h <| subkeys := k1 ++ k2 |> <| subkeyCount := subkeyCount h - 1 |> <| lastWriteTime := time |>) by (eexists; split; [rewrite N2, lookup_delete_ne, lookup_insert_eq by done; reflexivity|done]).
    destruct Ep2 as (h2 & Ep2 & ->). rewrite (whole_eq x s2 p _ T2 Ep2), (whole_eq x s p h) by done. cbn [with_subs with_time name lastWriteTime isLink values]. do 2 f_equal. symmetry. apply fmap_ext_in.
    intros z Hz. apply (siblings_same x s s2 p h c k1 k2); try done. intros b Hbp Hbc. by rewrite N2, lookup_delete_ne, lookup_insert_ne.
  - intros b Hb _. rewrite N2, lookup_delete_ne, lookup_insert_ne; [done| |]; intros <-; apply Hb; [apply below_top|]. by apply (below_child _ _ p h); [apply below_top|..].
  - exists h. eexists. split; [done|]. rewrite N2, lookup_delete_ne, lookup_insert_eq by done. done.
Qed.

(** *** A key renamed *)

Lemma rename_key_eq s top data names time nm start : CmpApplyRecord s top data (change_record (RenameKey names time nm) start) =
  '(a, s) ← CmpResolveRecordKey s top (join names) false;
  if (a =? 0) || (a =? top) then Ok (false, s) else
  n ← get_node s a;
  if parent n =? 0 then Ok (false, s) else
  found ← CmpReadTailName data (change_record (RenameKey names time nm) start);
  match found with None => Ok (false, s) | Some nm =>
  if bool_decide (nm = []) then Ok (false, s) else
  '(renamed, s) ← CmpRenameNode s a nm;
  if negb renamed then Ok (false, s) else s ← stamp_node s a (u64 time); Ok (true, s)
  end.
Proof. done. Qed.

(** What a renamed key does to the tree of its parent. *)
Lemma renamed_tree x s s2 p h c k (k1 k2 : list addr) nm nm' time l : tree_ok x s -> tree_ok x s2 -> nodes s !! p = Some h -> nodes s !! c = Some k -> subkeys h = k1 ++ c :: k2 ->
  take_sub nm (tree_subs (tree_of every s p)) = Some (tree_of every s c, tree_of every s <$> (k1 ++ k2)) -> linked s p (h <| subkeys := unlink c (subkeys h) |>) c nm' l ->
  nodes s2 = <[c := k <| name := nm' |> <| lastWriteTime := time |>]> (<[p := h <| subkeys := l |>]> (nodes s)) ->
  rename_sub nm time nm' (tree_of every s p) = Some (tree_of every s2 p).
Proof.
  intros T T2 Eh Ek Hs Et (l1 & l2 & -> & Hl & O1 & O2) N2. pose proof (nk_subkeys _ (tr_node _ _ T _ _ Eh)) as Hnd. cbn in Hl. rewrite Hs, unlink_middle in Hl by (by rewrite <- Hs).
  assert (Hcin : c ∈ subkeys h) by (rewrite Hs; set_solver). assert (Hpc : p <> c) by (intros ->; by destruct (not_own_child _ _ _ _ T Eh)).
  set (c2 := k <| name := nm' |> <| lastWriteTime := time |>) in N2. set (h2 := h <| subkeys := _ |>) in N2.
  assert (Ec2 : nodes s2 !! c = Some c2) by (rewrite N2; by rewrite lookup_insert_eq). assert (Ep2 : nodes s2 !! p = Some h2) by (rewrite N2, lookup_insert_ne, lookup_insert_eq; done).
  assert (Same : forall z, z ∈ k1 ++ k2 -> tree_of every s2 z = tree_of every s z). { apply (siblings_same x s s2 p h c k1 k2); try done. intros b Hbp Hbc. by rewrite N2, !lookup_insert_ne. }
  assert (Tc : tree_of every s2 c = with_time (with_name (tree_of every s c) nm') time).
  { rewrite (whole_eq x s2 c c2), (whole_eq x s c k) by done. cbn [with_time with_name]. apply (f_equal (Key _ _ _ _)), fmap_ext_in. intros z Hz.
    apply (tree_same x x); [done|done|by eapply subkeys_exist|]. intros b Hb. rewrite N2, !lookup_insert_ne; [done| |]; intros <-.
    - apply (child_not_above _ _ _ _ _ T Eh Hcin). by apply (below_up s c k z).
    - by apply (child_not_above _ _ _ _ _ T Ek Hz). }
  assert (Hex : forall z, z ∈ l1 ++ l2 -> exists m, nodes s !! z = Some m) by (intros z Hz; rewrite <- Hl in Hz; destruct (subkeys_exist x s p h z T Eh) as [m Em]; [rewrite Hs; set_solver|eauto]).
  unfold rename_sub. rewrite Et. cbn [mbind option_bind]. rewrite <- Tc. f_equal. rewrite (whole_eq x s2 p h2), (whole_eq x s p h) by done. cbn [with_subs]. change (subkeys h2) with (l1 ++ c :: l2). rewrite (fmap_app _ l1 (c :: l2)), fmap_cons.
  rewrite (fmap_ext_in (tree_of every s2) (tree_of every s) l1), (fmap_ext_in (tree_of every s2) (tree_of every s) l2) by (intros z Hz; apply Same; rewrite Hl; set_solver).
  rewrite Hl, fmap_app. apply (f_equal (Key _ _ _ _)). rewrite Tc.
  assert (Hn : tree_name (with_time (with_name (tree_of every s c) nm') time) = nm') by (by destruct (tree_of every s c)).
  apply place_sub_at.
  - apply Forall_fmap, Forall_forall. intros z Hz. destruct (Hex z) as [m Em]; [set_solver|]. rewrite Hn. change (0 <= name_order nm' (tree_name (tree_of every s z))). rewrite (name_of_tree x every s z m) by done. specialize (O1 z m Hz Em). unfold name_before in O1. lia.
  - intros u Hu. rewrite Hn. destruct l2 as [|z l2]; [done|]. cbn in Hu. injection Hu as <-. destruct (Hex z) as [m Em]; [set_solver|]. rewrite (name_of_tree x every s z m) by done. by apply (O2 z m).
Qed.

Lemma sim_rename_key x top s names time nm' pre rest t : let ch := RenameKey names time nm' in let data := pre ++ change_bytes ch ++ rest in
  plenty -> replay_inv x top s -> change_ok ch -> Z.of_nat (length pre) mod 8 = 0 -> Forall is_u8 data -> apply ch (tree_of every s top) = Some t ->
  simulates x top s data (change_record ch (Z.of_nat (length pre))) t.
Proof.
  intros ch data P I Hc Hm Hd Ht. pose proof (ri_tree _ _ _ I) as T. pose proof (change_record_ok ch pre rest Hc Hm Hd) as Hr.
  destruct (change_tail_at ch pre rest) as (pre' & Edata & Epre'). fold data in Edata. pose proof (rk_tail _ _ Hr) as (_ & Htm & _ & _).
  destruct Hc as [H1 H2 H3 _ [Hnm Hnn]]. cbn in H1, H2, H3, Hnm, Hnn. cbn [apply ch] in Ht.
  destruct names as [|nm names _] using rev_ind; [done|]. rewrite last_snoc, removelast_last in Ht. cbn [mbind option_bind] in Ht.
  destruct (alter_finds_route x s top names _ t T (ri_top _ _ _ I) Ht) as (p & u & R & [h Eh] & Hu). unfold rename_sub in Hu. destruct (take_sub nm _) as [[v l]|] eqn:Et; [|done].
  pose proof Et as Et0. apply (take_sub_key x s p h) in Et0 as (c & k & k1 & k2 & Hs & Ek & Hp & -> & -> & Rc); [|done|done].
  assert (Ra : route every s top (names ++ [nm]) c) by (apply route_app; eauto). assert (Hcin : c ∈ subkeys h) by (rewrite Hs; set_solver).
  assert (Hpc : p <> c) by (intros ->; by destruct (not_own_child _ _ _ _ T Eh)). assert (Hp0 : p <> 0) by (by eapply tree_nonzero).
  assert (Hct : c <> top). { intros ->. apply (child_not_above _ _ _ _ _ T Eh Hcin). by eapply route_below. }
  destruct (CmpRenameNode_spec x s p h c k nm' T Ek Hp Eh Hcin Hnm Hnn) as (b & s1 & E1 & T1 & _ & _ & Hb & Hcase). rewrite (Hb P) in *. destruct Hcase as (l & Hl & N1).
  assert (Ec1 : nodes s1 !! c = Some (k <| name := nm' |>)) by (rewrite N1, lookup_insert_ne, lookup_insert_eq by done; done).
  set (c2 := k <| name := nm' |> <| lastWriteTime := time |>). set (s2 := put_node s1 c c2).
  assert (N2 : nodes s2 = <[c := c2]> (<[p := h <| subkeys := l |>]> (nodes s))). { unfold s2. cbn. rewrite N1, (insert_insert_ne _ p c), insert_insert_eq by done. done. }
  eapply (simulates_intro x top s data _ names p _ t s2 I Hd Hr); [|done|exact Ht| | |].
  - change (change_tail ch) with (name_tail nm') in Edata. assert (Etail : CmpReadTailName data (change_record ch (Z.of_nat (length pre))) = Ok (Some nm')) by (rewrite Edata; apply tail_name_back; done || congruence).
    unfold ch in Etail |- *. rewrite rename_key_eq, Etail, (resolve_route x s top (names ++ [nm]) c false) by (done || apply I). run. destruct (Z.eqb_spec c 0) as [->|_]; [by destruct (tree_nonzero _ _ _ _ T Ek)|].
    destruct (Z.eqb_spec c top) as [|_]; [done|]. cbn [orb]. rewrite (get_Some _ _ _ Ek). run. rewrite Hp. destruct (Z.eqb_spec p 0) as [|_]; [done|]. run. rewrite bool_decide_eq_false_2, E1 by done. run. cbn [negb].
    unfold stamp_node. rewrite (get_Some _ _ _ Ec1). run. rewrite stamp_back by done. done.
  - intros T2. by apply (renamed_tree x s s2 p h c k k1 k2 nm nm' time l).
  - intros b' Hb' _. rewrite N2, !lookup_insert_ne; [done| |]; intros <-; apply Hb'; [apply below_top|]. by apply (below_child _ _ p h); [apply below_top|..].
  - exists h. eexists. split; [done|]. rewrite N2, lookup_insert_ne, lookup_insert_eq by done. done.
Qed.

(** *** Every record *)

Definition room (ch : change) d : Prop := match ch with Create names _ _ => (d + length names <= 96)%nat | _ => True end.

Lemma change_simulated x top s ch pre rest t d : let data := pre ++ change_bytes ch ++ rest in plenty -> replay_inv x top s -> depth s top d -> room ch d -> change_ok ch ->
  Z.of_nat (length pre) mod 8 = 0 -> Forall is_u8 data -> apply ch (tree_of every s top) = Some t -> simulates x top s data (change_record ch (Z.of_nat (length pre))) t.
Proof.
  intros data P I D Hroom Hc Hm Hd Ht. destruct ch; [by eapply sim_create|by apply sim_values|by apply sim_delete_key|by apply sim_delete_value|by apply sim_rename_key].
Qed.
End simulating.
