(* ===== verification/CmRecover.v ===== *)
(** * CmRecover: the log after a crash (kernel/cm/hive.c).

    The log is an image of whole records that an append may have left torn.
    Replaying it at boot is the fold of the changes of the records that are
    there in full: a torn append costs the last record and nothing else. *)

From S2P Require Import Prelude NtStatus Rtl Bytes Crc32 CmTree CmHive CmReplay CmView CmLog CmSim.

(** ** Logs *)

Section logs.
Context `{MACHINE}.
Implicit Types (s : CM) (x top : addr) (pre rest torn : list Z) (ch : change) (log : list change) (t u : ktree) (d k : nat).

(** A change that a log may hold, under a top of depth [d]. *)
Definition loggable d ch : Prop := change_ok ch /\ room ch d.

Definition log_bytes log : list Z := mbind (M := list) change_bytes log.
Definition log_image log : list Z := hive_header ++ log_bytes log.

Lemma apply_all_cons ch log t : apply_all (ch :: log) t = u ← apply ch t; apply_all log u.
Proof.
  unfold apply_all. cbn [foldl mbind option_bind]. destruct (apply ch t) as [u|]; [done|]. cbn [mbind option_bind]. induction log as [|c log IH]; [done|]. exact IH.
Qed.

Lemma apply_all_app log log' t : apply_all (log ++ log') t = u ← apply_all log t; apply_all log' u.
Proof.
  revert t. induction log as [|ch log IH]; intros t; [done|]. cbn [app]. rewrite !apply_all_cons. destruct (apply ch t) as [u|]; [|done]. cbn [mbind option_bind]. apply IH.
Qed.

Lemma log_mod log : Z.of_nat (length (log_bytes log)) mod 8 = 0.
Proof.
  induction log as [|ch log IH]; [done|]. unfold log_bytes. rewrite bind_cons, length_app. fold (log_bytes log). pose proof (change_mod ch). Z.to_euclidean_division_equations. lia.
Qed.

Lemma log_u8 d log : Forall (loggable d) log -> Forall is_u8 (log_bytes log).
Proof. induction 1 as [|ch log [Hc _] _ IH]; [constructor|]. unfold log_bytes. rewrite bind_cons. apply Forall_app. split; [by apply change_u8|exact IH]. Qed.

Lemma header_u8 : Forall is_u8 hive_header.
Proof. unfold hive_header. rewrite !Forall_app. repeat split; apply le_bytes_u8. Qed.

Lemma outside_chain top s1 s2 s3 : outside top s1 s2 -> outside top s2 s3 -> outside top s1 s3.
Proof. intros O12 O23 b n E Hb. destruct (O12 b n E Hb). by apply O23. Qed.

(** Whole records are applied one after the other. *)
Lemma replay_log x top log : plenty -> forall s pre torn t d (applied : Z) (fuel : nat), replay_inv x top s -> depth s top d -> Forall (loggable d) log -> Z.of_nat (length pre) mod 8 = 0 ->
  Forall is_u8 (pre ++ log_bytes log ++ torn) -> apply_all log (tree_of every s top) = Some t ->
  CmpReadRecord (pre ++ log_bytes log ++ torn) (Z.of_nat (length (pre ++ log_bytes log))) = Ok None -> (length log < fuel)%nat ->
  exists s', replay_records s top (pre ++ log_bytes log ++ torn) (Z.of_nat (length pre)) applied fuel = Ok (Z.of_nat (length (pre ++ log_bytes log)), applied + Z.of_nat (length log), s') /\
    replay_inv x top s' /\ outside top s s' /\ tree_of every s' top = t.
Proof.
  intros P. induction log as [|ch log IH]; intros s pre torn t d applied fuel I D Hl Hm Hd Ht Hend Hf; (destruct fuel as [|fuel]; [cbn in Hf; lia|]); cbn [replay_records].
  { change (log_bytes []) with (@nil Z) in *. rewrite app_nil_r in *. rewrite Hend. run. exists s. split; [by rewrite Z.add_0_r|]. split; [done|]. split; [by intros b n|]. cbn in Ht. congruence. }
  apply Forall_cons in Hl as [[Hc Hr] Hl]. rewrite apply_all_cons in Ht. destruct (apply ch (tree_of every s top)) as [u|] eqn:Eu; [|done]. cbn [mbind option_bind] in Ht.
  assert (Ed : pre ++ log_bytes (ch :: log) ++ torn = pre ++ change_bytes ch ++ log_bytes log ++ torn) by (unfold log_bytes; by rewrite bind_cons, <- app_assoc).
  assert (El : pre ++ log_bytes (ch :: log) = (pre ++ change_bytes ch) ++ log_bytes log) by (unfold log_bytes; by rewrite bind_cons, <- app_assoc).
  rewrite El in *. rewrite Ed in *. destruct (change_simulated x top s ch pre (log_bytes log ++ torn) u d P I D Hr Hc Hm Hd Eu) as (s1 & E1 & I1 & O1 & T1 & D1).
  rewrite change_back by done. run. rewrite E1. run. pose proof (change_mod ch) as Hcm. rewrite app_assoc in Hd, Hend |- *.
  destruct (IH s1 (pre ++ change_bytes ch) torn t d (applied + 1) fuel I1 (D1 _ D) Hl) as (s2 & E2 & I2 & O2 & T2); [rewrite length_app; Z.to_euclidean_division_equations; lia|done|by rewrite T1|done|cbn in Hf; lia|].
  exists s2. split; [|split; [done|split; [by eapply outside_chain|done]]]. rewrite <- Nat2Z.inj_add, <- length_app. rewrite E2. do 3 f_equal. cbn [length]. lia.
Qed.

(** How many records the first [k] bytes of the log hold in full. *)
Fixpoint whole_records k log : nat :=
  match log with
  | [] => O
  | ch :: log => if (length (change_bytes ch) <=? k)%nat then S (whole_records (k - length (change_bytes ch)) log) else O
  end.

Lemma cut_log k log : exists torn, take k (log_bytes log) = log_bytes (take (whole_records k log) log) ++ torn /\
  (torn = [] /\ whole_records k log = length log \/ exists ch j, ch ∈ log /\ (j < length (change_bytes ch))%nat /\ torn = take j (change_bytes ch)).
Proof.
  revert k. induction log as [|ch log IH]; intros k; [exists []; cbn; split; [by rewrite take_nil|by left]|]. cbn [whole_records]. unfold log_bytes at 1. rewrite bind_cons. fold (log_bytes log).
  destruct (Nat.leb_spec (length (change_bytes ch)) k) as [Hle|Hlt].
  - destruct (IH (k - length (change_bytes ch))%nat) as (torn & E & Ht). exists torn. cbn [take]. unfold log_bytes at 2. rewrite bind_cons. fold (log_bytes (take (whole_records (k - length (change_bytes ch)) log) log)).
    rewrite take_app_ge, E, app_assoc by done. split; [done|]. destruct Ht as [[-> ->]|(c & j & Hc & Hj & ->)]; [by left|]. right. exists c, j. split; [by right|done].
  - exists (take k (change_bytes ch)). cbn [take]. split; [by rewrite take_app_le by lia|]. right. exists ch, k. split; [left|done].
Qed.

Lemma whole_records_all k log : (length (log_bytes log) <= k)%nat -> whole_records k log = length log.
Proof.
  revert k. induction log as [|ch log IH]; intros k Hk; [done|]. unfold log_bytes in Hk. rewrite bind_cons, length_app in Hk. fold (log_bytes log) in Hk.
  cbn [whole_records length]. rewrite (proj2 (Nat.leb_le _ _)) by lia. f_equal. apply IH. lia.
Qed.

Lemma no_record_at_end data : Forall is_u8 data -> CmpReadRecord data (Z.of_nat (length data)) = Ok None.
Proof. intros _. unfold CmpReadRecord. rewrite Z.sub_diag. done. Qed.

Lemma header_read log torn : read_at (hive_header ++ log_bytes log ++ torn) 0 4 = Ok CMP_HIVE_MAGIC /\ read_at (hive_header ++ log_bytes log ++ torn) 4 4 = Ok CMP_HIVE_VERSION.
Proof.
  unfold hive_header. rewrite <- !app_assoc. split; [by rewrite read_at_head|]. by rewrite (read_at_skip (le_bytes 4 _) _ _ 0), read_at_head.
Qed.

(** The image of a log, perhaps torn, as a whole. *)
Lemma replay_image x top log s torn t d keepPrefix : plenty -> replay_inv x top s -> depth s top d -> Forall (loggable d) log -> Forall is_u8 torn ->
  apply_all log (tree_of every s top) = Some t -> CmpReadRecord (log_image log ++ torn) (Z.of_nat (length (log_image log))) = Ok None ->
  Z.of_nat (length (log_image log ++ torn)) <= CMP_HIVE_MAX_BYTES -> keepPrefix = true \/ torn = [] /\ log <> [] ->
  exists s', CmpReplayImage s top (log_image log ++ torn) keepPrefix = Ok (STATUS_SUCCESS, s') /\ replay_inv x top s' /\ outside top s s' /\ tree_of every s' top = t.
Proof.
  intros P I D Hl Htorn Ht Hend Hmax Hk. unfold log_image in *. rewrite <- app_assoc in *. set (data := hive_header ++ log_bytes log ++ torn) in *.
  assert (Hd : Forall is_u8 data) by (unfold data; rewrite !Forall_app; split_and!; [apply header_u8|by eapply log_u8|done]).
  assert (Hh : length hive_header = 16%nat) by done. assert (Hlen : Z.of_nat (length data) = 16 + Z.of_nat (length (log_bytes log)) + Z.of_nat (length torn)) by (unfold data; rewrite !length_app, Hh; lia).
  unfold CmpReplayImage. cbv zeta. rewrite (proj2 (Z.ltb_ge _ CMP_HIVE_HEADER_BYTES)) by (unfold CMP_HIVE_HEADER_BYTES; lia). rewrite (proj2 (Z.ltb_ge CMP_HIVE_MAX_BYTES _)) by done. cbn [orb].
  destruct (header_read log torn) as [M V]. fold data in M, V. rewrite M. run. rewrite V. run. rewrite !Z.eqb_refl. cbn [negb orb].
  destruct (ri_top _ _ _ I) as [n En]. destruct (key_depth_spec _ _ _ _ (ri_tree _ _ _ I) En) as (d' & Hd' & _ & ->). run.
  destruct (Z.eqb_spec (Z.of_nat d') 0) as [|_]; [lia|]. rewrite (proj2 (Z.ltb_ge CMP_HIVE_MAX_DEPTH _)) by (unfold CMP_HIVE_MAX_DEPTH; lia). cbn [orb].
  assert (Hcount : (24 * length log <= length (log_bytes log))%nat).
  { clear. induction log as [|ch log IH]; [done|]. unfold log_bytes. rewrite bind_cons, length_app. fold (log_bytes log). pose proof (record_length (change_op ch) (change_flags ch) (join (change_names ch)) (change_time ch) (change_count ch) (change_tail ch)) as E.
    fold (change_bytes ch) in E. cbn [length]. lia. }
  destruct (replay_log x top log P s hive_header torn t d 0 (Z.to_nat (Z.of_nat (length data) / CMP_RECORD_HEADER_BYTES + 1)) I D Hl eq_refl Hd Ht Hend) as (s' & E & I' & O' & T').
  { unfold CMP_RECORD_HEADER_BYTES. Z.to_euclidean_division_equations. lia. }
  fold data in E. change CMP_HIVE_HEADER_BYTES with (Z.of_nat (length hive_header)). rewrite E. run. exists s'. split; [|done].
  destruct Hk as [->|[-> Hne]]; [by rewrite andb_false_r|]. rewrite length_app, Hh. cbn [length] in Hlen. rewrite (proj2 (Z.eqb_eq _ (Z.of_nat (length data)))) by lia.
  destruct (Z.eqb_spec (0 + Z.of_nat (length log)) 0) as [E0|_]; [destruct log; [done|cbn in E0; lia]|]. done.
Qed.
End logs.

(** ** Recovery *)

Section recovery.
Context `{MACHINE}.
Implicit Types (s : CM) (x top : addr) (log : list change) (t u : ktree) (d k n : nat).

Lemma header_only k log : (k <= 16)%nat -> length (take k (log_image log)) = k.
Proof. intros Hk. rewrite length_take. unfold log_image. rewrite length_app. change (length hive_header) with 16%nat. lia. Qed.

(** A cut behind the header leaves whole records and at most one torn. *)
Lemma cut_replays x top s log t d k : plenty -> replay_inv x top s -> depth s top d -> Forall (loggable d) log ->
  Z.of_nat (length (log_image log)) <= CMP_HIVE_MAX_BYTES -> apply_all log (tree_of every s top) = Some t -> (16 <= k)%nat ->
  let n := whole_records (k - 16) log in exists u s', apply_all (take n log) (tree_of every s top) = Some u /\
    CmpReplayImage s top (take k (log_image log)) true = Ok (STATUS_SUCCESS, s') /\ replay_inv x top s' /\ outside top s s' /\ tree_of every s' top = u.
Proof.
  intros P I D Hl Hmax Ht Hk n. destruct (cut_log (k - 16) log) as (torn & Ecut & Htorn). fold n in Ecut, Htorn.
  assert (Etake : take k (log_image log) = log_image (take n log) ++ torn). { unfold log_image. rewrite take_app_ge by (change (length hive_header) with 16%nat; lia). change (length hive_header) with 16%nat. by rewrite Ecut, app_assoc. }
  rewrite <- (take_drop n log), apply_all_app in Ht. destruct (apply_all (take n log) (tree_of every s top)) as [u|] eqn:Eu; [|done]. cbn [mbind option_bind] in Ht.
  assert (Ht8 : Forall is_u8 torn). { destruct Htorn as [[-> _]|(ch & j & Hc & _ & ->)]; [constructor|]. apply Forall_take, change_u8. rewrite Forall_forall in Hl. by apply Hl. }
  destruct (replay_image x top (take n log) s torn u d true P I D) as (s' & E & I' & O' & T'); [by apply Forall_take|done|done| | |by left|by exists u, s'; rewrite Etake].
  - destruct Htorn as [[-> _]|(ch & j & Hc & Hj & ->)].
    + rewrite app_nil_r. apply no_record_at_end. unfold log_image. rewrite Forall_app. split; [apply header_u8|]. eapply log_u8. by apply Forall_take.
    + apply change_torn; [rewrite Forall_forall in Hl; by apply Hl|done|]. unfold log_image. rewrite length_app. pose proof (log_mod (take n log)). change (length hive_header) with 16%nat. Z.to_euclidean_division_equations. lia.
  - rewrite <- Etake, length_take. lia.
Qed.

Lemma cut_none k log : (length (log_image log) <= k)%nat -> whole_records (k - 16) log = length log.
Proof. intros Hk. apply whole_records_all. unfold log_image in Hk. rewrite length_app in Hk. change (length hive_header) with 16%nat in Hk. lia. Qed.

(** C5. A log cut anywhere, as a torn append leaves it, replays at boot to the
    tree its whole records spell: the changes are applied in order, the record
    that was being written is lost and nothing before it is, keys outside the
    top are untouched, and a log that is whole replays in full.  A file shorter
    than the header is refused and changes nothing. *)
Theorem torn_log_recovers x top s log t d k : plenty -> replay_inv x top s -> depth s top d -> Forall (loggable d) log ->
  Z.of_nat (length (log_image log)) <= CMP_HIVE_MAX_BYTES -> apply_all log (tree_of every s top) = Some t ->
  if (k <? 16)%nat then CmpReplayImage s top (take k (log_image log)) true = Ok (STATUS_NOT_REGISTRY_FILE, s) else
  let n := whole_records (k - 16) log in exists u s', apply_all (take n log) (tree_of every s top) = Some u /\
    CmpReplayImage s top (take k (log_image log)) true = Ok (STATUS_SUCCESS, s') /\ replay_inv x top s' /\ outside top s s' /\ tree_of every s' top = u /\
    ((length (log_image log) <= k)%nat -> u = t).
Proof.
  intros P I D Hl Hmax Ht. destruct (Nat.ltb_spec k 16) as [Hk|Hk].
  { unfold CmpReplayImage. cbv zeta. rewrite header_only by lia. by rewrite (proj2 (Z.ltb_lt _ CMP_HIVE_HEADER_BYTES)) by (unfold CMP_HIVE_HEADER_BYTES; lia). }
  intros n. destruct (cut_replays x top s log t d k P I D Hl Hmax Ht Hk) as (u & s' & Eu & E & I' & O' & T'). fold n in Eu. exists u, s'. split_and!; try done.
  intros Hall. unfold n in Eu. rewrite (cut_none k log Hall), take_ge in Eu by done. congruence.
Qed.

End recovery.

(** ** A log on a tree of one key *)

Definition sample_log : list change := [Create [[0x41]] 7 false; SetValues [[0x41]] 8 [mkVALUE [0x76] 1 [1; 2; 3]]; RenameKey [[0x41]] 9 [0x42]].

Lemma lone_key_depth : depth lone_key 1 1.
Proof. apply (depth_root _ _ (mkNODE 0 [] [] 0 0 0 0 false false false [])); reflexivity. Qed.

Lemma name_ok_byte c : is_u8 c -> name_ok [c].
Proof. unfold is_u8. intros Hc. split; [constructor; [unfold is_u16; lia|constructor]|done]. Qed.

Lemma sample_loggable : Forall (loggable 1) sample_log.
Proof.
  assert (Hp : plain [0x41]) by (split; [done|intros [?|?%not_elem_of_nil]%elem_of_cons; done]). assert (Hn : forall c, is_u8 c -> name_ok [c]) by apply name_ok_byte.
  repeat constructor; cbn [change_names change_time]; try done; try (by apply (Hn _)); try (by vm_compute); try (by repeat constructor); apply Hp.
Qed.

Lemma torn_log_recovers_witness : let _ := quiet_machine in exists u s', apply_all (take 2 sample_log) (tree_of every lone_key 1) = Some u /\
  CmpReplayImage lone_key 1 (take 110 (log_image sample_log)) true = Ok (STATUS_SUCCESS, s') /\ tree_of every s' 1 = u.
Proof.
  intros M. assert (Ht : exists t, apply_all sample_log (tree_of every lone_key 1) = Some t) by (vm_compute; by eexists). destruct Ht as [t Ht].
  pose proof (torn_log_recovers 0 1 lone_key sample_log t 1 110) as R.
  assert (Hn : whole_records (110 - 16) sample_log = 2%nat) by (vm_compute; reflexivity). cbv zeta in R. rewrite Hn in R. cbn [Nat.ltb Nat.leb] in R.
  destruct R as (u & s' & E1 & E2 & _ & _ & E3 & _).
  - done.
  - apply lone_key_inv.
  - exact lone_key_depth.
  - apply sample_loggable.
  - vm_compute. done.
  - exact Ht.
  - exists u, s'. split; [exact E1|split; [exact E2|exact E3]].
Defined.
