(* ===== verification/CmSave.v ===== *)
(** * CmSave: a saved key loaded again (NtSaveKey and NtLoadKey over
    kernel/cm/hive.c).

    The writer emits, for every key that is not volatile, what a log would say
    had it been made just now; loading the image under an empty key rebuilds the
    tree. *)

From S2P Require Import Prelude NtStatus Rtl Bytes Crc32 CmTree CmHive CmReplay CmView CmLog CmSim CmRecover.

(** ** The changes of a snapshot *)

Section snapshots.
Implicit Types (t u p : ktree) (names : list (list Z)) (nm : list Z) (ch : change) (log : list change).

Fixpoint chunks (l : list CMP_VALUE) (fuel : nat) : list (list CMP_VALUE) :=
  match l, fuel with
  | [], _ | _, O => []
  | _ :: _, S fuel => take (Z.to_nat CMP_VALUES_PER_RECORD) l :: chunks (drop (Z.to_nat CMP_VALUES_PER_RECORD) l) fuel
  end.

(** The keys in preorder, each made and then given its values. *)
Fixpoint snapshot names t : list change :=
  match t with
  | Key _ time link vs subs =>
      Create names time link :: (SetValues names time <$> chunks vs (length vs)) ++ concat (map (fun u => snapshot (names ++ [tree_name u]) u) subs)
  end.

Definition under nm ch : change :=
  match ch with
  | Create names time link => Create (nm :: names) time link
  | SetValues names time l => SetValues (nm :: names) time l
  | DeleteKey names time => DeleteKey (nm :: names) time
  | DeleteValue names time nm' => DeleteValue (nm :: names) time nm'
  | RenameKey names time nm' => RenameKey (nm :: names) time nm'
  end.

Definition tree_before t u : Prop := name_before (tree_name t) (tree_name u).

(** Names a key may be called by. *)
Definition spelled nm : Prop := plain nm /\ Forall is_u16 nm /\ (length nm <= 256)%nat.

(** What the registry's own calls build. *)
Inductive sound : ktree -> Prop :=
  | sound_key nm time link vs subs : is_s64 time -> Forall value_ok vs -> StronglySorted value_before vs -> StronglySorted tree_before subs ->
      Forall (fun u => spelled (tree_name u)) subs -> Forall sound subs -> sound (Key nm time link vs subs).

Fixpoint height t : nat := let '(Key _ _ _ _ subs) := t in S (foldr (fun u => Nat.max (height u)) O subs).

Lemma snapshot_under nm names t : snapshot (nm :: names) t = under nm <$> snapshot names t.
Proof.
  revert names. induction t as [nm' time link vs subs IH] using ktree_ind'. intros names. cbn [snapshot]. rewrite fmap_cons, fmap_app. cbn [under]. f_equal. f_equal.
  - rewrite <- list_fmap_compose. done.
  - induction IH as [|u subs Hu _ IHs]; [done|]. cbn [map concat]. rewrite fmap_app, <- IHs. f_equal. apply Hu.
Qed.

Lemma alter_name names f t t' : (forall u u', f u = Some u' -> tree_name u' = tree_name u) -> alter_at names f t = Some t' -> tree_name t' = tree_name t.
Proof.
  intros Hf. destruct names as [|nm names]; cbn [alter_at]; [apply Hf|]. destruct (alter_sub nm _ _) as [l|]; [|done]. cbn. intros [= <-]. by destruct t.
Qed.

(** No change renames the top. *)
Lemma apply_name ch t t' : apply ch t = Some t' -> tree_name t' = tree_name t.
Proof.
  destruct ch as [names time link|names time l|names time|names time nm|names time nm]; cbn [apply]; try (destruct (last names) as [z|]; cbn [mbind option_bind]; [|by destruct t; intros [= <-]]).
  - apply alter_name. intros u u'. unfold create_sub. destruct (alter_sub _ _ _); intros [= <-]; by destruct u.
  - apply alter_name. intros u u' [= <-]. by destruct u.
  - apply alter_name. intros u u'. unfold delete_sub. destruct (take_sub _ _) as [[v l]|]; [|done]. cbn. destruct (tree_subs v); [|done]. intros [= <-]. by destruct u.
  - apply alter_name. intros u u' [= <-]. by destruct u.
  - apply alter_name. intros u u'. unfold rename_sub. destruct (take_sub _ _) as [[v l]|]; [|done]. cbn. intros [= <-]. by destruct u.
Qed.

(** A change that does not make, drop or rename its own top. *)
Definition inner ch : Prop := match ch with SetValues _ _ _ | DeleteValue _ _ _ => True | _ => change_names ch <> [] end.

Lemma alter_sub_ext nm (g g' : ktree -> option ktree) (l : list ktree) : (forall u, g u = g' u) -> alter_sub nm g l = alter_sub nm g' l.
Proof. intros E. induction l as [|t l IH]; [done|]. cbn [alter_sub]. by rewrite E, IH. Qed.

Lemma alter_under nm names (f g : ktree -> option ktree) t : (forall u, g u = alter_at names f u) -> alter_at (nm :: names) f t = alter_at [nm] g t.
Proof. intros E. cbn [alter_at]. by rewrite (alter_sub_ext nm g (alter_at names f)). Qed.

Lemma apply_under nm ch t : inner ch -> apply (under nm ch) t = alter_at [nm] (apply ch) t.
Proof.
  destruct ch as [names time link|names time l|names time|names time nm'|names time nm']; cbn [inner under change_names]; intros Hi; try by apply alter_under.
  all: destruct names as [|y names _] using rev_ind; [done|]; cbn [apply]; change (nm :: names ++ [y]) with ((nm :: names) ++ [y]); rewrite last_snoc, removelast_last.
  all: apply alter_under; intros u; cbn [apply]; rewrite last_snoc, removelast_last; done.
Qed.

Lemma apply_all_under nm log p (l1 : list ktree) u (l2 : list ktree) : Forall inner log -> tree_subs p = l1 ++ u :: l2 -> Forall (fun t => fold_name (tree_name t) <> fold_name nm) l1 -> fold_name (tree_name u) = fold_name nm ->
  apply_all (under nm <$> log) p = u' ← apply_all log u; Some (with_subs p (l1 ++ u' :: l2)).
Proof.
  intros Hi. revert p u. induction Hi as [|ch log Hc _ IH]; intros p u Hp Hl Hu; [cbn; by rewrite <- Hp, with_subs_same|].
  rewrite fmap_cons, !apply_all_cons, apply_under by done. cbn [alter_at]. rewrite Hp, alter_sub_at by done. destruct (apply ch u) as [u1|] eqn:E; [|done]. cbn [mbind option_bind].
  rewrite (IH (with_subs p (l1 ++ u1 :: l2)) u1); [|by destruct p|done|by rewrite (apply_name _ _ _ E)]. by destruct p, (apply_all log u1).
Qed.

(** *** Values *)

Lemma set_last vs v : StronglySorted value_before (vs ++ [v]) -> set_value vs v = vs ++ [v].
Proof.
  intros Hs. assert (Hb : forall w, w ∈ vs -> value_before w v). { intros w Hw. apply list_elem_of_split in Hw as (l1 & l2 & ->). rewrite <- app_assoc in Hs. cbn in Hs.
    clear -Hs. induction l1 as [|y l1 IH]; apply StronglySorted_inv in Hs as [Hs Hw]; [|by apply IH]. rewrite Forall_forall in Hw. apply Hw. set_solver. }
  unfold set_value. rewrite find_value_None.
  - rewrite <- (app_nil_r vs) at 1. rewrite place_value_at; [done| |done]. intros w Hw Hv. pose proof (name_before_trans _ _ _ (Hb w Hw) Hv) as Hvv. by apply (name_before_irrefl (value_name w) (value_name w)).
  - intros w Hw Hf. by apply (name_before_irrefl _ _ Hf), Hb.
Qed.

Lemma sorted_prefix {A} (R : A -> A -> Prop) (l1 l2 : list A) : StronglySorted R (l1 ++ l2) -> StronglySorted R l1.
Proof.
  induction l1 as [|y l1 IH]; intros Hs; [constructor|]. apply StronglySorted_inv in Hs as [Hs Hy]. constructor; [by apply IH|]. by apply Forall_app in Hy as [? _].
Qed.

Lemma set_all vs l : StronglySorted value_before (vs ++ l) -> foldl set_value vs l = vs ++ l.
Proof.
  revert vs. induction l as [|v l IH]; intros vs Hs; [by rewrite app_nil_r|]. cbn [foldl]. replace (vs ++ v :: l) with ((vs ++ [v]) ++ l) in * by (by rewrite <- app_assoc). rewrite set_last; [by apply IH|]. by eapply sorted_prefix.
Qed.

Lemma chunks_concat l fuel : (length l <= fuel)%nat -> concat (chunks l fuel) = l.
Proof.
  revert l. induction fuel as [|fuel IH]; intros l Hf; [destruct l; [done|cbn in Hf; lia]|]. destruct l as [|v l]; [done|]. cbn [chunks concat]. rewrite IH; [apply take_drop|].
  rewrite length_drop. assert (0 < Z.to_nat CMP_VALUES_PER_RECORD)%nat by (unfold CMP_VALUES_PER_RECORD; lia). cbn [length] in *. lia.
Qed.

Lemma apply_chunks nm time link vs subs (ls : list (list CMP_VALUE)) : StronglySorted value_before (vs ++ concat ls) ->
  apply_all (SetValues [] time <$> ls) (Key nm time link vs subs) = Some (Key nm time link (vs ++ concat ls) subs).
Proof.
  revert vs. induction ls as [|l ls IH]; intros vs Hs; [cbn; by rewrite app_nil_r|]. rewrite fmap_cons, apply_all_cons. cbn [apply alter_at tree_values with_time with_values mbind option_bind]. cbn [concat] in *.
  rewrite app_assoc in Hs. rewrite set_all by (by eapply sorted_prefix). rewrite IH by done. by rewrite app_assoc.
Qed.

(** *** Subkeys *)

Lemma before_differs t u : tree_before t u -> fold_name (tree_name t) <> fold_name (tree_name u).
Proof. intros Hb Hf. by apply (name_before_irrefl _ _ Hf). Qed.

Lemma sorted_before (l : list ktree) u t : StronglySorted tree_before (l ++ [u]) -> t ∈ l -> tree_before t u.
Proof.
  intros Hs Ht. induction l as [|y l IH]; [by apply not_elem_of_nil in Ht|]. apply StronglySorted_inv in Hs as [Hs Hy]. apply elem_of_cons in Ht as [->|Ht]; [|by apply IH].
  rewrite Forall_forall in Hy. apply Hy. set_solver.
Qed.

Lemma snapshot_inner names t : names <> [] -> Forall inner (snapshot names t).
Proof.
  revert names. induction t as [nm time link vs subs IH] using ktree_ind'. intros names Hn. cbn [snapshot]. constructor; [done|]. apply Forall_app. split; [by apply Forall_fmap, Forall_forall|].
  induction IH as [|u subs Hu _ IHs]; [constructor|]. cbn [map concat]. apply Forall_app. split; [|exact IHs]. apply Hu. by destruct names.
Qed.

Lemma place_last t (l : list ktree) : StronglySorted tree_before (l ++ [t]) -> place_sub t l = l ++ [t].
Proof.
  intros Hs. rewrite <- (app_nil_r l) at 1. apply place_sub_at; [|done]. apply Forall_forall. intros u Hu. pose proof (sorted_before l t u Hs Hu) as Hb. unfold tree_before, name_before in Hb. rewrite name_order_opp. lia.
Qed.

Lemma create_last t u nm time link : StronglySorted tree_before (tree_subs t ++ [u]) -> tree_name u = nm ->
  create_sub nm time link t = Some (with_subs t (tree_subs t ++ [Key nm time link [] []])).
Proof.
  intros Hs <-. unfold create_sub. rewrite alter_sub_miss.
  - rewrite place_last; [done|]. clear -Hs. induction (tree_subs t) as [|y l IH]; [repeat constructor|]. apply StronglySorted_inv in Hs as [Hs Hy]. constructor; [by apply IH|].
    apply Forall_app in Hy as [Hy1 Hy2]. apply Forall_app. split; [done|]. apply Forall_cons in Hy2 as [Hy2 _]. by constructor.
  - apply Forall_forall. intros y Hy. by apply before_differs, (sorted_before (tree_subs t) u y).
Qed.

(** Replaying a snapshot on an empty key gives the tree back, but for the key's own name. *)
Lemma apply_snapshot t nm0 time0 link0 : sound t -> apply_all (snapshot [] t) (Key nm0 time0 link0 [] []) = Some (with_name t nm0).
Proof.
  revert nm0 time0 link0. induction t as [nm time link vs subs IH] using ktree_ind'. intros nm0 time0 link0 Hs. inversion Hs as [? ? ? ? ? _ _ Hvs Hss _ Hsub]; subst.
  cbn [snapshot]. rewrite apply_all_cons. cbn [apply last with_time with_link mbind option_bind]. rewrite apply_all_app, apply_chunks by (by rewrite chunks_concat). cbn [mbind option_bind app]. rewrite chunks_concat by done. cbn [with_name].
  assert (G : forall (l : list ktree) l0, StronglySorted tree_before (l0 ++ l) -> Forall (fun t => forall nm0 time0 link0, sound t -> apply_all (snapshot [] t) (Key nm0 time0 link0 [] []) = Some (with_name t nm0)) l -> Forall sound l ->
    apply_all (concat (map (fun u => snapshot ([] ++ [tree_name u]) u) l)) (Key nm0 time link vs l0) = Some (Key nm0 time link vs (l0 ++ l))); [|by apply (G subs [])].
  clear. intros l. induction l as [|u l IHl]; intros l0 Hs Hl Hso; [cbn; by rewrite app_nil_r|]. cbn [map concat app]. apply Forall_cons in Hl as [Hu Hl]. apply Forall_cons in Hso as [Hsu Hso].
  replace (l0 ++ u :: l) with ((l0 ++ [u]) ++ l) in * by (by rewrite <- app_assoc). pose proof (sorted_prefix _ _ _ Hs) as Hs1.
  specialize (Hu (tree_name u) (match u with Key _ time _ _ _ => time end) (match u with Key _ _ link _ _ => link end) Hsu).
  rewrite apply_all_app, snapshot_under. destruct u as [unm ut ul uv us]. cbn [snapshot tree_name with_name] in *. rewrite fmap_cons, apply_all_cons. cbn [under apply last removelast alter_at].
  rewrite (create_last (Key nm0 time link vs l0) (Key unm ut ul uv us)) by done. cbn [mbind option_bind tree_subs with_subs].
  rewrite apply_all_cons in Hu. cbn [apply last with_time with_link mbind option_bind] in Hu.
  rewrite (apply_all_under unm _ _ l0 (Key unm ut ul [] []) []); [|..].
  - rewrite Hu. cbn [mbind option_bind with_subs]. apply IHl; done.
  - apply Forall_app. split; [by apply Forall_fmap, Forall_forall|]. clear. induction us as [|u us IH]; [constructor|]. cbn [map concat]. apply Forall_app. split; [by apply snapshot_inner|exact IH].
  - done.
  - apply Forall_forall. intros y Hy. apply (before_differs y (Key unm ut ul uv us)). by apply (sorted_before l0).
  - done.
Qed.
End snapshots.

(** ** What the writer emits *)

Section writing.
Context `{MACHINE}.
Implicit Types (s : CM) (w : CMP_WRITER) (a c p top x : addr) (n k h : CMP_KEY_NODE) (names : list (list Z)) (off : Z) (fuel d : nat).

(** A record with nothing after its path, and one with values. *)
Lemma emits_create s a top names time link off : CmpBuildPath s a top = Ok (join names) -> off mod 8 = 0 ->
  emits off (fun w => '(start, w) ← CmpBeginRecord s w CMP_OP_CREATE_KEY (if link : bool then 1 else 0) a top None time 0; CmpEndRecord w start) (change_bytes (Create names time link)).
Proof.
  intros Hp Hm. eapply emits_eq; [|reflexivity|].
  2: { unfold change_bytes. apply (emits_record s (change_op (Create names time link)) (change_flags (Create names time link)) a top None time 0 _ Ok []); [exact Hp|done|intros; apply emits_nil]. }
  intros w. cbn [change_op]. replace (change_flags (Create names time link)) with (if link then 1 else 0) by (by destruct link). destruct (CmpBeginRecord _ _ _ _ _ _ _ _ _) as [[start w']| | |]; done.
Qed.

Lemma emits_values s a top names time (l : list CMP_VALUE) off : CmpBuildPath s a top = Ok (join names) -> off mod 8 = 0 ->
  emits off (fun w => '(start, w) ← CmpBeginRecord s w CMP_OP_SET_VALUES 0 a top None time (Z.of_nat (length l)); w ← foldM CmpWriteValue w l; CmpEndRecord w start) (change_bytes (SetValues names time l)).
Proof.
  intros Hp Hm. unfold change_bytes. apply (emits_record s CMP_OP_SET_VALUES 0 a top None time (Z.of_nat (length l)) (join names) (fun w => foldM CmpWriteValue w l) (mbind (M := list) value_bytes l)); [exact Hp|done|].
  intros o Ho. apply emits_fold; [done| |]; intros; [by apply emits_value|]. rewrite value_length. apply round_up_bounds.
Qed.

Lemma emits_chunks s a top names time (l : list CMP_VALUE) fuel off : CmpBuildPath s a top = Ok (join names) -> off mod 8 = 0 -> (length l <= fuel)%nat ->
  emits off (fun w => write_chunks s w a top time l fuel) (log_bytes (SetValues names time <$> chunks l fuel)).
Proof.
  intros Hp. revert l off. induction fuel as [|fuel IH]; intros l off Hm Hf; (destruct l as [|v l]; [eapply emits_eq; [|reflexivity|apply emits_nil]; done|]); [cbn in Hf; lia|].
  set (l0 := v :: l). change (chunks l0 (S fuel)) with (take (Z.to_nat CMP_VALUES_PER_RECORD) l0 :: chunks (drop (Z.to_nat CMP_VALUES_PER_RECORD) l0) fuel). rewrite fmap_cons. unfold log_bytes. rewrite bind_cons. eapply emits_eq; [|reflexivity|].
  2: { eapply (emits_seq off _ (fun w => write_chunks s w a top time (drop (Z.to_nat CMP_VALUES_PER_RECORD) l0) fuel)); [apply (emits_values s a top names time (take (Z.to_nat CMP_VALUES_PER_RECORD) l0)); done|].
    apply IH; [pose proof (change_mod (SetValues names time (take (Z.to_nat CMP_VALUES_PER_RECORD) l0))); Z.to_euclidean_division_equations; lia|].
    rewrite length_drop. assert (0 < Z.to_nat CMP_VALUES_PER_RECORD)%nat by (unfold CMP_VALUES_PER_RECORD; lia). subst l0. cbn [length] in *. lia. }
  intros w. cbn [write_chunks]. fold l0. destruct (CmpBeginRecord _ _ _ _ _ _ _ _ _) as [[start w1]| | |]; [|done..]. run. destruct (foldM CmpWriteValue w1 _) as [w2| | |]; [|done..]. run. destruct (CmpEndRecord w2 start); done.
Qed.

Lemma log_bytes_app (l1 l2 : list change) : log_bytes (l1 ++ l2) = log_bytes l1 ++ log_bytes l2.
Proof. unfold log_bytes. by rewrite bind_app. Qed.

Lemma emits_key s a top names n off : nodes s !! a = Some n -> CmpBuildPath s a top = Ok (join names) -> off mod 8 = 0 ->
  emits off (fun w => CmpWriteKeySnapshot s w a top) (log_bytes (Create names (lastWriteTime n) (isLink n) :: (SetValues names (lastWriteTime n) <$> chunks (values n) (length (values n))))).
Proof.
  intros E Hp Hm. unfold log_bytes. rewrite bind_cons. eapply emits_eq; [|reflexivity|].
  2: { eapply (emits_seq off _ (fun w => write_chunks s w a top (lastWriteTime n) (values n) (length (values n)))); [by apply (emits_create s a top names)|].
    apply emits_chunks; [done| |done]. pose proof (change_mod (Create names (lastWriteTime n) (isLink n))). Z.to_euclidean_division_equations. lia. }
  intros w. unfold CmpWriteKeySnapshot. rewrite (get_Some _ _ _ E). run. destruct (CmpBeginRecord _ _ _ _ _ _ _ _ _) as [[start w1]| | |]; [|done..]. run. destruct (CmpEndRecord w1 start); done.
Qed.

(** One child of a key: written when it persists. *)
Definition child_log s names c : list change := if kept persistent s c then snapshot (names ++ [tree_name (tree_of persistent s c)]) (tree_of persistent s c) else [].

Lemma children_log s names (l : list addr) :
  concat (map (fun u => snapshot (names ++ [tree_name u]) u) (tree_of persistent s <$> filter (fun c => kept persistent s c = true) l)) = concat (child_log s names <$> l).
Proof.
  induction l as [|c l IH]; [done|]. rewrite filter_cons, fmap_cons. cbn [concat]. unfold child_log at 1. case_decide as Hk.
  - rewrite Hk, fmap_cons. cbn [map concat]. by rewrite IH.
  - rewrite (not_true_is_false _ Hk). exact IH.
Qed.

Lemma write_emits x s top t0 : tree_ok x s -> nodes s !! top = Some t0 -> forall fuel a names d off, is_Some (nodes s !! a) -> key_path s top a names -> Forall plain names -> depth s a d -> (97 <= fuel + d)%nat ->
  sound (tree_of persistent s a) -> off mod 8 = 0 -> emits off (fun w => write_subtree s w a top fuel) (log_bytes (snapshot names (tree_of persistent s a))).
Proof.
  intros T Et. induction fuel as [|fuel IH]; intros a names d off [n En] Hk Hpl D Hf Hs Hm.
  { destruct (tr_depth _ _ T _ _ En) as (d' & Hd & D'). pose proof (depth_fun _ _ _ _ D D'). lia. }
  rewrite (tree_of_eq x persistent s a n) in Hs |- * by done. inversion Hs as [? ? ? ? ? _ _ _ _ Hsp Hso]; subst. cbn [snapshot]. rewrite children_log.
  pose proof (CmpBuildPath_spec x s top a names T (ex_intro _ _ Et) Hk Hpl) as Hpath.
  rewrite (app_comm_cons _ _ (Create names (lastWriteTime n) (isLink n))), log_bytes_app. eapply emits_eq; [|reflexivity|].
  2: { eapply (emits_seq off _ (fun w => foldM (fun w c => child ← get_node s c; if negb (isVolatile child) then write_subtree s w c top fuel else Ok w) w (subkeys n))); [by apply emits_key|].
    replace (log_bytes (concat (child_log s names <$> subkeys n))) with (mbind (M := list) (fun c => log_bytes (child_log s names c)) (subkeys n)).
    2: { clear. induction (subkeys n) as [|c l IHl]; [done|]. rewrite bind_cons, fmap_cons. cbn [concat]. by rewrite log_bytes_app, IHl. }
    apply emits_fold.
    - pose proof (log_mod (Create names (lastWriteTime n) (isLink n) :: (SetValues names (lastWriteTime n) <$> chunks (values n) (length (values n))))). Z.to_euclidean_division_equations. lia.
    - intros c o Hc Ho. destruct (subkeys_exist _ _ _ _ _ T En Hc) as [k Ek]. unfold child_log, kept. rewrite Ek. unfold persistent at 1. eapply emits_eq; [intros w; rewrite (get_Some _ _ _ Ek); run; reflexivity|reflexivity|].
      destruct (isVolatile k) eqn:Ev; cbn [negb]; [apply emits_nil|]. rewrite (name_of_tree x persistent s c k) by done.
      assert (Hin : tree_of persistent s c ∈ tree_of persistent s <$> filter (fun c => kept persistent s c = true) (subkeys n)).
      { apply list_elem_of_fmap. exists c. split; [done|]. apply list_elem_of_filter. split; [|done]. unfold kept. rewrite Ek. unfold persistent. by rewrite Ev. }
      rewrite Forall_forall in Hsp, Hso. destruct (Hsp _ Hin) as [Hspell _]. rewrite (name_of_tree x persistent s c k) in Hspell by done.
      apply (IH c (names ++ [name k]) (S d)); [eauto|by apply (key_path_child _ _ a n c k)|apply Forall_app; split; [done|by constructor]|exact (child_depth _ _ _ _ _ _ T En Hc D)|lia|by apply Hso|done].
    - intros c _. apply log_mod. }
  intros w. cbn [write_subtree]. destruct (CmpWriteKeySnapshot s w a top) as [w1| | |]; [|done..]. run. rewrite (get_Some _ _ _ En). run. done.
Qed.
End writing.

(** ** A snapshot is a log *)

Section logged.
Context `{MACHINE}.
Implicit Types (s : CM) (a c top x : addr) (n k : CMP_KEY_NODE) (t u : ktree) (names : list (list Z)) (ch : change) (d : nat).

Lemma chunks_ok (l : list CMP_VALUE) fuel l' : l' ∈ chunks l fuel -> Forall value_ok l -> Forall value_ok l' /\ Z.of_nat (length l') < 2 ^ 16.
Proof.
  revert l. induction fuel as [|fuel IH]; intros l; (destruct l as [|v l]; [by intros ?%not_elem_of_nil|]); [by intros ?%not_elem_of_nil|]. intros Hl' Hl.
  change (chunks (v :: l) (S fuel)) with (take (Z.to_nat CMP_VALUES_PER_RECORD) (v :: l) :: chunks (drop (Z.to_nat CMP_VALUES_PER_RECORD) (v :: l)) fuel) in Hl'.
  apply elem_of_cons in Hl' as [->|Hl']; [|by apply (IH (drop (Z.to_nat CMP_VALUES_PER_RECORD) (v :: l))); [|apply Forall_drop]].
  split; [by apply Forall_take|]. rewrite length_take. unfold CMP_VALUES_PER_RECORD. change (Z.to_nat 1024) with 1024%nat. lia.
Qed.

Definition content_ok ch : Prop := is_s64 (change_time ch) /\ match ch with Create _ _ _ => True | SetValues _ _ l => Forall value_ok l /\ Z.of_nat (length l) < 2 ^ 16 | _ => False end.

Lemma snapshot_changes t : sound t -> forall names ch, ch ∈ snapshot names t -> content_ok ch /\ exists names', change_names ch = names ++ names' /\ (length names' < height t)%nat /\ Forall spelled names'.
Proof.
  induction t as [nm time link vs subs IH] using ktree_ind'. intros Hs names ch. inversion Hs as [? ? ? ? ? Ht Hv _ _ Hsp Hso]; subst. cbn [snapshot height].
  intros [->|[Hch|Hch]%elem_of_app]%elem_of_cons.
  - split; [by split|]. exists []. split; [by rewrite app_nil_r|]. split; [cbn; lia|constructor].
  - apply list_elem_of_fmap in Hch as (l & -> & Hl). split; [split; [done|by eapply chunks_ok]|]. exists []. split; [by rewrite app_nil_r|]. split; [cbn; lia|constructor].
  - apply list_elem_of_In, in_concat in Hch as (log & Hlog & Hch). apply in_map_iff in Hlog as (u & <- & Hu). apply list_elem_of_In in Hu, Hch.
    rewrite Forall_forall in IH, Hsp, Hso. destruct (IH u Hu (Hso u Hu) _ ch Hch) as (Hc & names' & E & Hlen & Hn). split; [done|]. exists (tree_name u :: names'). rewrite E, <- app_assoc. split; [done|].
    split; [|constructor; [by apply Hsp|done]]. assert (height u <= foldr (fun u => Nat.max (height u)) 0 subs)%nat; [|cbn [length]; lia].
    clear -Hu. induction subs as [|y subs IHs]; [by apply not_elem_of_nil in Hu|]. cbn [foldr]. apply elem_of_cons in Hu as [->|Hu]; [lia|]. specialize (IHs Hu). lia.
Qed.

Lemma join_spelled names : Forall spelled names -> Forall is_u16 (join names) /\ (length (join names) <= 257 * length names)%nat.
Proof.
  induction 1 as [|nm names (Hp & Hu & Hl) _ [IH1 IH2]]; [by split; [constructor|cbn; lia]|]. destruct names as [|y names]; [cbn; split; [done|lia]|].
  rewrite (join_cons nm) by done. split; [apply Forall_app; split; [done|constructor; [done|exact IH1]]|]. rewrite length_app. cbn [length] in *. lia.
Qed.

Lemma snapshot_loggable t d : sound t -> (d + height t <= 97)%nat -> (height t <= 97)%nat -> Z.of_nat (length (log_bytes (snapshot [] t))) < 2 ^ 31 -> Forall (loggable d) (snapshot [] t).
Proof.
  intros Hs Hd Hh Hsize. apply Forall_forall. intros ch Hch. destruct (snapshot_changes t Hs [] ch Hch) as ([Ht Hc] & names & E & Hlen & Hn). cbn [app] in E.
  assert (Hpl : Forall plain names) by (eapply Forall_impl; [exact Hn|]; by intros nm [? _]). destruct (join_spelled _ Hn) as [Hj1 Hj2]. split.
  - split; rewrite ?E; [done|split; [done|lia]|done| |by destruct ch].
    apply list_elem_of_split in Hch as (l1 & l2 & El). rewrite El, log_bytes_app in Hsize. unfold log_bytes in Hsize. rewrite bind_cons, !length_app in Hsize. lia.
  - destruct ch; try done. cbn in E |- *. subst. lia.
Qed.

(** A tree is no taller than its key's place allows. *)
Lemma height_bound x keep s a d : tree_ok x s -> is_Some (nodes s !! a) -> depth s a d -> (height (tree_of keep s a) + d <= 97)%nat.
Proof.
  intros T Ha. revert d. apply (tree_induction x s) with (a := a); [done| |done]. clear a Ha. intros a n E IH d D. rewrite (tree_of_eq x keep s a n) by done. cbn [height].
  destruct (tr_depth _ _ T _ _ E) as (d' & Hd & D'). pose proof (depth_fun _ _ _ _ D D') as <-.
  assert (G : forall l : list addr, (forall c, c ∈ l -> c ∈ subkeys n) -> (foldr (fun u => Nat.max (height u)) 0 (tree_of keep s <$> l) + d <= 96)%nat).
  { induction l as [|c l IHl]; intros Hl; [cbn; lia|]. rewrite fmap_cons. cbn [foldr]. assert (Hc : c ∈ subkeys n) by (apply Hl; left). pose proof (IH c Hc (S d) (child_depth _ _ _ _ _ _ T E Hc D)).
    specialize (IHl ltac:(intros; apply Hl; by right)). lia. }
  specialize (G (filter (fun c => kept keep s c = true) (subkeys n))). assert (forall c, c ∈ filter (fun c => kept keep s c = true) (subkeys n) -> c ∈ subkeys n) as Hin by (by intros c [_ ?]%list_elem_of_filter). specialize (G Hin). lia.
Qed.

(** ** The round trip *)

(** Both passes of the writer over the whole subtree. *)
Lemma write_subtree_image x s top n : tree_ok x s -> nodes s !! top = Some n -> sound (tree_of persistent s top) ->
  let log := snapshot [] (tree_of persistent s top) in
  CmpWriteSubtree s (mkWRITER None CMP_HIVE_HEADER_BYTES) top top = Ok (mkWRITER None (Z.of_nat (length (log_image log)))) /\
  CmpWriteSubtree s (mkWRITER (Some (hive_header ++ repeat 0 (length (log_bytes log)))) CMP_HIVE_HEADER_BYTES) top top = Ok (mkWRITER (Some (log_image log)) (Z.of_nat (length (log_image log)))).
Proof.
  intros T E Hs log. destruct (tr_depth _ _ T _ _ E) as (d & Hd & D). pose proof (depth_pos _ _ _ D).
  pose proof (write_emits x s top n T E LEVELS top [] d 16 ltac:(eauto) (key_path_top _ _) ltac:(constructor) D ltac:(change LEVELS with 97%nat; lia) Hs eq_refl) as W. fold log in W.
  assert (Hlen : length (log_image log) = length (hive_header ++ log_bytes log)) by done.
  split; unfold CmpWriteSubtree, CMP_HIVE_HEADER_BYTES.
  - apply (W true hive_header (repeat 0 (length (log_bytes log)))); [done|]. by rewrite repeat_length.
  - pose proof (W false hive_header (repeat 0 (length (log_bytes log))) eq_refl) as W'. rewrite repeat_length in W'. specialize (W' (le_n _)). unfold writer_at in W'. etransitivity; [exact W'|].
    rewrite drop_ge by (by rewrite repeat_length). by rewrite app_nil_r.
Qed.

(** The image is the snapshot's log. *)
Lemma serialize_image x s top n : tree_ok x s -> nodes s !! top = Some n -> sound (tree_of persistent s top) -> let log := snapshot [] (tree_of persistent s top) in
  exists r s1, CmpSerializeSubtree s top = Ok (r, s1) /\ nodes s1 = nodes s /\ (allocations s <= allocations s1)%nat /\
  match r with
  | inl status => status = STATUS_INSUFFICIENT_RESOURCES /\ (plenty -> CMP_HIVE_MAX_BYTES < Z.of_nat (length (log_image log)))
  | inr image => image = log_image log /\ Z.of_nat (length image) <= CMP_HIVE_MAX_BYTES
  end.
Proof.
  intros T E Hs. set (t := tree_of persistent s top) in *. destruct (write_subtree_image x s top n T E Hs) as [W1 W2]. fold t in W1, W2. set (log := snapshot [] t) in *. intros _log. unfold _log. clear _log.
  unfold CmpSerializeSubtree. rewrite W1. run. cbn [offset]. destruct (Z.ltb_spec CMP_HIVE_MAX_BYTES (Z.of_nat (length (log_image log)))) as [|Hmax]; [by exists (inl STATUS_INSUFFICIENT_RESOURCES), s|].
  assert (Hlen : length (log_image log) = (16 + length (log_bytes log))%nat) by (unfold log_image; by rewrite length_app).
  unfold pool_allocate. destruct (Z.eqb_spec (Z.of_nat (length (log_image log))) 0) as [|_]; [lia|]. run. set (s1 := s <| allocations := _ |>). destruct (pool_answers (allocations s)) eqn:Hp.
  2: { exists (inl STATUS_INSUFFICIENT_RESOURCES), s1. split; [done|]. split; [done|]. split; [cbn; lia|]. split; [done|]. intros P. by rewrite P in Hp. }
  destruct (Z.eqb_spec (Z.of_nat (S (allocations s))) 0) as [|_]; [lia|]. rewrite Nat2Z.id.
  assert (Hsp : splice (repeat 0 (length (log_image log))) 0 hive_header = Ok (hive_header ++ repeat 0 (length (log_bytes log)))).
  { rewrite Hlen. pose proof (splice_spec [] (repeat 0 (16 + length (log_bytes log))) hive_header) as Hsplice. cbn [app length] in Hsplice. change (Z.of_nat 0) with 0 in Hsplice. rewrite Hsplice; [done|]. cbn [length repeat]. cbn. lia. }
  rewrite Hsp. run. assert (W3 : CmpWriteSubtree s1 (mkWRITER (Some (hive_header ++ repeat 0 (length (log_bytes log)))) CMP_HIVE_HEADER_BYTES) top top = Ok (mkWRITER (Some (log_image log)) (Z.of_nat (length (log_image log))))).
  { assert (T1 : tree_ok x s1) by (apply (tree_ext _ s); [done|cbn; lia|done]). assert (Et : tree_of persistent s1 top = t) by (apply (tree_same x x persistent s s1 top); [done|done|eauto|done]).
    destruct (write_subtree_image x s1 top n T1 E) as [_ W3]; [by rewrite Et|]. rewrite Et in W3. exact W3. }
  rewrite W3. run. cbn [offset buffer]. rewrite Z.eqb_refl. run. exists (inr (log_image log)), s1. split; [done|]. split; [done|]. split; [cbn; lia|]. done.
Qed.

(** C6. A saved key loads back: NtSaveKey's image of a subtree, in whichever
    memory and under whichever empty key it is loaded, rebuilds every key that
    is not volatile with its name, write time, link flag, values and subkeys in
    order.  Saving changes no key, and fails only for want of memory or past the
    64 MiB an image may have. *)
Theorem save_load_roundtrip x s top n : tree_ok x s -> nodes s !! top = Some n -> sound (tree_of persistent s top) ->
  exists r s1, CmpSerializeSubtree s top = Ok (r, s1) /\ nodes s1 = nodes s /\
  match r with
  | inl status => status = STATUS_INSUFFICIENT_RESOURCES /\ (plenty -> CMP_HIVE_MAX_BYTES < Z.of_nat (length (log_image (snapshot [] (tree_of persistent s top)))))
  | inr image => forall x2 top2 s2 n2 d2, plenty -> replay_inv x2 top2 s2 -> nodes s2 !! top2 = Some n2 -> subkeys n2 = [] -> values n2 = [] ->
      depth s2 top2 d2 -> (d2 + height (tree_of persistent s top) <= 97)%nat ->
      exists s3, CmpParseSubtreeInto s2 top2 image = Ok (STATUS_SUCCESS, s3) /\ replay_inv x2 top2 s3 /\ outside top2 s2 s3 /\
        tree_of every s3 top2 = with_name (tree_of persistent s top) (name n2)
  end.
Proof.
  intros T E Hs. destruct (serialize_image x s top n T E Hs) as (r & s1 & Er & N1 & _ & Hr). set (t := tree_of persistent s top) in *. set (log := snapshot [] t) in *. exists r, s1. split; [done|]. split; [done|].
  destruct r as [status|image]; [done|]. destruct Hr as [-> Hmax]. intros x2 top2 s2 n2 d2 P I2 E2 Hs2 Hv2 D2 Hd2. assert (Hne : log <> []) by (unfold log; by destruct t).
  assert (Hl : Forall (loggable d2) log).
  { assert (length (log_image log) = (16 + length (log_bytes log))%nat) by (unfold log_image; by rewrite length_app). apply snapshot_loggable; [done|done|lia|]. unfold CMP_HIVE_MAX_BYTES in Hmax. change (Z.shiftl 64 20) with 67108864 in Hmax. fold log. lia. }
  destruct (replay_image x2 top2 log s2 [] (with_name t (name n2)) d2 false P I2 D2 Hl) as (s3 & E3 & I3 & O3 & T3).
  - constructor.
  - rewrite (whole_eq x2 s2 top2 n2 (ri_tree _ _ _ I2) E2), Hs2, Hv2. by apply apply_snapshot.
  - rewrite app_nil_r. apply no_record_at_end. unfold log_image. apply Forall_app. split; [apply header_u8|]. by eapply log_u8.
  - by rewrite app_nil_r.
  - by right.
  - rewrite app_nil_r in E3. by exists s3.
Qed.
End logged.

(** ** A small tree saved and loaded *)

Definition sample_root : CMP_KEY_NODE := mkNODE 0 [2; 3] [] 2 0 5 0 false false false [].
Definition sample_child : CMP_KEY_NODE := mkNODE 1 [] [mkVALUE [0x61] 4 [1; 0; 0; 0]; mkVALUE [0x62] 1 []] 0 2 6 0 false false true [0x41].
Definition sample_volatile : CMP_KEY_NODE := mkNODE 1 [] [] 0 0 7 0 false true false [0x42].
Definition sample_tree : CM := mkCM (<[1 := sample_root]> (<[2 := sample_child]> (<[3 := sample_volatile]> ∅))) 3 0 [].

Lemma sample_nodes a n : nodes sample_tree !! a = Some n -> a = 1 /\ n = sample_root \/ a = 2 /\ n = sample_child \/ a = 3 /\ n = sample_volatile.
Proof. cbn. intros [(<- & <-)|(_ & [(<- & <-)|(_ & [(<- & <-)|(_ & [=])]%lookup_insert_Some)]%lookup_insert_Some)]%lookup_insert_Some; auto. Qed.

Lemma sample_value_ok c (t : Z) data : is_u8 c -> is_u32 t -> Forall is_u8 data -> Z.of_nat (length data) < 2 ^ 32 -> value_ok (mkVALUE [c] t data).
Proof. intros Hc Ht Hd Hl. split; [by apply name_ok_byte|]. by split_and!. Qed.

Lemma sample_values_ok : Forall value_ok (values sample_child) /\ StronglySorted value_before (values sample_child).
Proof.
  split; [constructor; [|constructor; [|constructor]]; apply sample_value_ok; try done; repeat constructor; done|].
  constructor; [constructor; [constructor|constructor]|constructor; [|constructor]]. vm_compute. done.
Qed.

Lemma sample_tree_ok : tree_ok 0 sample_tree.
Proof.
  assert (E1 : nodes sample_tree !! 1 = Some sample_root) by done. assert (E2 : nodes sample_tree !! 2 = Some sample_child) by done. assert (E3 : nodes sample_tree !! 3 = Some sample_volatile) by done.
  assert (D1 : depth sample_tree 1 1) by (by apply (depth_root _ _ sample_root)).
  split.
  - intros a n [(-> & ->)|[(-> & ->)|(-> & ->)]]%sample_nodes; split; try done; try apply sample_values_ok; try apply name_ok_byte; try done; try constructor; try done; try constructor; try done.
    + intros [?|?%not_elem_of_nil]%elem_of_cons; done.
    + apply not_elem_of_nil.
    + constructor.
  - intros p n c [(-> & ->)|[(-> & ->)|(-> & ->)]]%sample_nodes Hc; cbn in Hc; [|by apply not_elem_of_nil in Hc..].
    apply elem_of_cons in Hc as [->|[->|Hc%not_elem_of_nil]%elem_of_cons]; [by exists sample_child|by exists sample_volatile|done].
  - intros a n [(-> & ->)|[(-> & ->)|(-> & ->)]]%sample_nodes Hp _; [done| |]; exists sample_root; (split; [done|]); cbn; set_solver.
  - intros a n [(-> & ->)|[(-> & ->)|(-> & ->)]]%sample_nodes; [exists 1%nat|exists 2%nat..]; (split; [lia|]); [done|by apply (depth_child _ _ sample_child)|by apply (depth_child _ _ sample_volatile)].
  - intros a n [(-> & ->)|[(-> & ->)|(-> & ->)]]%sample_nodes; cbn; lia.
Qed.

Lemma sample_view : tree_of persistent sample_tree 1 = Key [] 5 false [] [Key [0x41] 6 true (values sample_child) []].
Proof. vm_compute. reflexivity. Qed.

Lemma sample_sound : sound (tree_of persistent sample_tree 1).
Proof.
  rewrite sample_view. destruct sample_values_ok as [Hv Hs]. apply sound_key; [done|constructor|constructor|repeat constructor| |].
  - constructor; [|constructor]. split; [split; [done|]|split; [repeat constructor; done|cbn; lia]]. intros [?|?%not_elem_of_nil]%elem_of_cons; done.
  - constructor; [|constructor]. by apply sound_key; [done|exact Hv|exact Hs|constructor..].
Qed.

Lemma save_load_roundtrip_witness : let _ := quiet_machine in exists image s1 s3, CmpSerializeSubtree sample_tree 1 = Ok (inr image, s1) /\
  CmpParseSubtreeInto lone_key 1 image = Ok (STATUS_SUCCESS, s3) /\ tree_of every s3 1 = tree_of persistent sample_tree 1.
Proof.
  intros M. destruct (save_load_roundtrip 0 sample_tree 1 sample_root sample_tree_ok eq_refl sample_sound) as (r & s1 & E & _ & Hr).
  assert (Hi : exists image s', CmpSerializeSubtree sample_tree 1 = Ok (inr image, s')) by (vm_compute; by do 2 eexists).
  destruct Hi as (image & s' & Ei). rewrite Ei in E. injection E as <- <-. exists image, s'.
  destruct (Hr 0 1 lone_key (mkNODE 0 [] [] 0 0 0 0 false false false []) 1%nat) as (s3 & E3 & _ & _ & T3).
  - intros i. reflexivity.
  - apply lone_key_inv.
  - reflexivity.
  - reflexivity.
  - reflexivity.
  - exact lone_key_depth.
  - rewrite sample_view. cbn. lia.
  - exists s3. split; [exact Ei|split; [exact E3|]]. rewrite T3, sample_view. reflexivity.
Defined.
