(* ===== verification/CmResolve.v ===== *)
(** * CmResolve: from the name a caller gives to a key (kernel/cm/registry.c).

    CmpResolvePath walks a path component by component, for opening or for
    creating, and starts again from the registry's root at every symbolic link it
    meets.  The object manager's part, up to the key the name starts at, is an
    argument. *)

From S2P Require Import Prelude NtStatus Rtl Bytes CmTree CmHive CmReplay CmView.

Definition CMP_MAX_LINK_EXPANSIONS : Z := 32.

Definition wide (s : string) : list Z := (fun c => Z.of_N (Ascii.N_of_ascii c)) <$> String.list_ascii_of_string s.

Definition SymbolicLinkValue : list Z := Eval cbv in wide "SymbolicLinkValue".
Definition registryPrefix : list Z := Eval cbv in wide "\Registry".

(** What is probed and read of the caller's block.  [ObjectName]: the length in
    bytes and the whole units; [RootDirectory]: what the reference to the handle
    answers, the key it names; [parsed]: ObpLookupParseObject's answer, the key
    found and the name left. *)
Record OBJECT_ATTRIBUTES := mkATTRIBUTES {
  probed : NTSTATUS;
  wellSized : bool;
  ObjectName : option (Z * list Z);
  RootDirectory : option (NTSTATUS + addr);
  Attributes : Z;
  parsed : NTSTATUS + (addr * list Z);
}.

(** Where a walk ends: refused, at a link with a rest to resolve beyond it, or at
    its last component.  [Reached parent leaf found]: opening leaves the first two empty. *)
Inductive WALK :=
  | Stopped (status : NTSTATUS)
  | Crossed (link : addr) (remainder : list Z)
  | Reached (parent : addr) (leaf : list Z) (found : addr).

Section resolve.
Context `{MACHINE}.
Implicit Types (s : CM) (a link : addr) (path remainder leaf : list Z).

Definition CmpFollowLink s link remainder (expansions : Z) : outcome ((NTSTATUS + list Z) * CM) :=
  if CMP_MAX_LINK_EXPANSIONS <? expansions + 1 then Ok (inl STATUS_INVALID_PARAMETER, s) else
  n ← get_node s link;
  value ← CmpFindValue (values n) SymbolicLinkValue;
  match value with None => Ok (inl STATUS_OBJECT_NAME_NOT_FOUND, s) | Some i =>
  v ← deref (values n !! i) "value";
  let dataLength := Z.of_nat (length (value_data v)) in
  if dataLength <? 2 then Ok (inl STATUS_OBJECT_NAME_NOT_FOUND, s) else
  let buffer := units_of (value_data v) in
  let targetLength := u16 (dataLength / 2 * 2) in
  let target := take (Z.to_nat (targetLength / 2)) buffer in
  if negb (bool_decide (head buffer = Some SEPARATOR)) then Ok (inl STATUS_OBJECT_NAME_NOT_FOUND, s) else
  let prefixChars := length registryPrefix in
  same ← RtlEqualUnicodeString (counted (take prefixChars target)) (counted registryPrefix) true;
  if negb same || ((prefixChars <? length target)%nat && negb (bool_decide (target !! prefixChars = Some SEPARATOR))) then Ok (inl STATUS_OBJECT_NAME_NOT_FOUND, s) else
  let composed := drop prefixChars target ++ (if bool_decide (remainder = []) then [] else SEPARATOR :: remainder) in
  let totalBytes := 2 * Z.of_nat (length composed) in
  '(block, s) ← pool_allocate s (if negb (totalBytes =? 0) then totalBytes else 2);
  if block =? 0 then Ok (inl STATUS_INSUFFICIENT_RESOURCES, s) else
  Ok (inr (take (Z.to_nat (u16 totalBytes / 2)) composed), s)
  end.

(** [while (CmpNextComponent(&path, &component))], to open. *)
Fixpoint walk_open s a path (fuel : nat) : outcome WALK :=
  match CmpNextComponent path with
  | None => Ok (Reached 0 [] a)
  | Some (part, rest) =>
      match fuel with
      | O => OutOfFuel
      | S fuel =>
          if CMP_MAX_COMPONENT_BYTES <? 2 * Z.of_nat (length part) then Ok (Stopped STATUS_INVALID_PARAMETER) else
          child ← CmpFindSubkey s a part;
          if child =? 0 then Ok (Stopped STATUS_OBJECT_NAME_NOT_FOUND) else
          n ← get_node s child;
          if isLink n && negb (CmpPathExhausted rest) then Ok (Crossed child rest) else walk_open s child rest fuel
      end
  end.

(** The same to create: [leaf], the last component seen, is left for the end. *)
Fixpoint walk_create s a leaf path (fuel : nat) : outcome WALK :=
  match CmpNextComponent path with
  | None =>
      if bool_decide (leaf = []) then Ok (Reached 0 [] a) else
      found ← CmpFindSubkey s a leaf; Ok (Reached a leaf found)
  | Some (part, rest) =>
      match fuel with
      | O => OutOfFuel
      | S fuel =>
          if CMP_MAX_COMPONENT_BYTES <? 2 * Z.of_nat (length part) then Ok (Stopped STATUS_INVALID_PARAMETER) else
          if bool_decide (leaf = []) then walk_create s a part rest fuel else
          node ← CmpFindSubkey s a leaf;
          if node =? 0 then Ok (Stopped STATUS_OBJECT_NAME_NOT_FOUND) else
          n ← get_node s node;
          if isLink n then Ok (Crossed node (part ++ rest)) else walk_create s node part rest fuel
      end
  end.

Definition walk s a path (forCreate : bool) : outcome WALK :=
  if forCreate then walk_create s a [] path (length path) else walk_open s a path (length path).

(** From [restart:] on: the parent, the leaf and the key found. *)
Fixpoint resolve s (root a : addr) path (forCreate openLink : bool) (expansions : Z) (fuel : nat) : outcome ((NTSTATUS + (addr * list Z * addr)) * CM) :=
  let follow link remainder :=
    '(r, s) ← CmpFollowLink s link remainder expansions;
    match r with
    | inl status => Ok (inl status, s)
    | inr path => match fuel with O => OutOfFuel | S fuel => resolve s root root path forCreate openLink (expansions + 1) fuel end
    end in
  w ← walk s a path forCreate;
  match w with
  | Stopped status => Ok (inl status, s)
  | Crossed link remainder => follow link remainder
  | Reached parent leaf found =>
      if found =? 0 then Ok (inr (parent, leaf, found), s) else
      n ← get_node s found;
      if isLink n && negb openLink then follow found [] else Ok (inr (parent, leaf, found), s)
  end.

Definition CmpResolvePath s (root : addr) (attributes : option OBJECT_ATTRIBUTES) (forCreate openLink : bool) : outcome ((NTSTATUS + (addr * list Z * addr)) * CM) :=
  let go base path := resolve s root base path forCreate openLink 0 (Z.to_nat CMP_MAX_LINK_EXPANSIONS) in
  match attributes with None => Ok (inl STATUS_OBJECT_PATH_SYNTAX_BAD, s) | Some attributes =>
  if negb (NT_SUCCESS (probed attributes)) then Ok (inl (probed attributes), s) else
  match ObjectName attributes with None => Ok (inl STATUS_OBJECT_PATH_SYNTAX_BAD, s) | Some (_, path) =>
  match RootDirectory attributes with
  | Some (inl status) => Ok (inl status, s)
  | Some (inr base) =>
      n ← get_node s base;
      if deleted n then Ok (inl STATUS_KEY_DELETED, s) else
      if bool_decide (head path = Some SEPARATOR) then Ok (inl STATUS_OBJECT_PATH_SYNTAX_BAD, s) else go base path
  | None =>
      match parsed attributes with
      | inl status => Ok (inl status, s)
      | inr (base, remaining) =>
          n ← get_node s base;
          _ ← ASSERT (negb (deleted n)) "!base->deleted";
          go base remaining
      end
  end end end.
End resolve.
