(* ===== verification/CmRegistry.v ===== *)
(** * CmRegistry: the calls that change the registry, and its log
    (kernel/cm/registry.c, hive.c).

    Each service finds its key through a handle, changes the tree of CmTree and
    appends one record to the log file.  What the object manager answers for a
    handle and what the volume answers for a write are arguments; user memory is
    what was probed and read of it. *)

From S2P Require Import Prelude NtStatus Rtl Bytes CmTree CmHive CmReplay CmView CmResolve.

Definition REG_OPTION_VOLATILE : Z := 1.
Definition REG_OPTION_CREATE_LINK : Z := 2.
Definition REG_CREATED_NEW_KEY : Z := 1.
Definition REG_OPENED_EXISTING_KEY : Z := 2.
Definition REG_NOTIFY_CHANGE_NAME : Z := 1.
Definition REG_NOTIFY_CHANGE_LAST_SET : Z := 4.
Definition REG_LINK : Z := 6.
Definition OBJ_OPENLINK : Z := 0x100.
Definition DELETE : Z := 0x10000.
Definition KEY_SET_VALUE : Z := 2.
Definition KEY_CREATE_SUB_KEY : Z := 4.
Definition READ_CONTROL : Z := 0x20000.
Definition SYNCHRONIZE : Z := 0x100000.
Definition KEY_WRITE : Z := Eval cbv in Z.land (Z.lor (Z.lor READ_CONTROL KEY_SET_VALUE) KEY_CREATE_SUB_KEY) (Z.lnot SYNCHRONIZE).
Definition CMP_KEY_WRITE_TIME_INFORMATION : Z := 0.
Definition CMP_HIVE_SOFT_WARN_BYTES : Z := Z.shiftl 16 20.

(** The volume the log is on: the status of the n-th write, and how much of it is
    in the file when it failed.  A write that succeeds is whole. *)
Class VOLUME := {
  write_status : nat -> NTSTATUS;
  write_kept : nat -> nat;
}.

(** [bodies]: the key of every open CM_KEY_BODY.  [announced]: the changes the
    console was told will not survive, latest first. *)
Record REG := mkREG {
  cm : CM;
  CmpRootNode : addr;
  bodies : list addr;
  file : list Z;
  writes : nat;
  CmpHiveReady : bool;
  CmpHiveLogBytes : Z;
  CmpHiveLogWarned : bool;
  CmpHiveWarned : bool;
  announced : list string;
}.

#[export] Instance eta_reg : Eta REG := {| eta_expand := fun r =>
  mkREG (cm r) (CmpRootNode r) (bodies r) (file r) (writes r) (CmpHiveReady r) (CmpHiveLogBytes r) (CmpHiveLogWarned r) (CmpHiveWarned r) (announced r) |}.

(** What a service reads of a counted string: no pointer, a probe that failed, or
    the length in bytes and the whole units. *)
Inductive USER_STRING := NullString | BadString (status : NTSTATUS) | UserString (Length : Z) (units : list Z).

(** One occurrence taken out. *)
Fixpoint remove_one (a : addr) (l : list addr) : list addr :=
  match l with [] => [] | b :: l => if bool_decide (b = a) then l else b :: remove_one a l end.

Section registry.
Context `{MACHINE} `{VOLUME}.
Implicit Types (r : REG) (s : CM) (a : addr) (nm path : list Z) (v : CMP_VALUE) (object : Z -> NTSTATUS + addr).

Definition on_cm r (f : CM -> CM) : REG := r <| cm := f (cm r) |>.
Definition say r (message : string) : REG := r <| announced := message :: announced r |>.

(** ** The log *)

(** NtWriteFile at the end of the file. *)
Definition CmpAppendToHiveFile r (bytes : list Z) : NTSTATUS * REG :=
  let status := write_status (writes r) in
  (status, r <| file := file r ++ (if NT_SUCCESS status then bytes else take (write_kept (writes r)) bytes) |> <| writes := S (writes r) |>).

(** One pass over a record. *)
Definition record_pass s w (op keyFlags : Z) (node top : addr) (captured : option (list Z)) (stamp : Z) (value : option CMP_VALUE) (tailName : option (list Z)) : outcome CMP_WRITER :=
  '(start, w) ← CmpBeginRecord s w op keyFlags node top captured stamp (match value with Some _ => 1 | None => 0 end);
  w ← (match value, tailName with
       | Some v, _ => CmpWriteValue w v
       | None, Some nm =>
           w ← CmpWrite16 w (u16 (Z.of_nat (length nm)));
           w ← CmpWrite16 w 0;
           w ← CmpWriteBytes w (unit_bytes nm);
           CmpWritePad w
       | None, None => Ok w
       end);
  CmpEndRecord w start.

Definition CmpLogRecord r (op keyFlags : Z) (node : addr) (captured : option (list Z)) (stamp : Z) (value : option CMP_VALUE) (tailName : option (list Z)) : outcome REG :=
  if negb (CmpHiveReady r) then Ok r else
  measure ← record_pass (cm r) (mkWRITER None 0) op keyFlags node (CmpRootNode r) captured stamp value tailName;
  let total := offset measure in
  if CMP_HIVE_MAX_BYTES <? CmpHiveLogBytes r + total then Ok (say r "the log is at its cap") else
  '(block, s) ← pool_allocate (cm r) total;
  let r := r <| cm := s |> in
  if block =? 0 then Ok (say r "append skipped") else
  emit ← record_pass s (mkWRITER (Some (repeat 0 (Z.to_nat total))) 0) op keyFlags node (CmpRootNode r) captured stamp value tailName;
  _ ← ASSERT (offset emit =? total) "emit.offset == total";
  bytes ← deref (buffer emit) "buffer";
  let '(status, r) := CmpAppendToHiveFile r bytes in
  if NT_SUCCESS status then
    let r := r <| CmpHiveLogBytes := CmpHiveLogBytes r + total |> in
    Ok (if (CMP_HIVE_SOFT_WARN_BYTES <? CmpHiveLogBytes r) && negb (CmpHiveLogWarned r) then r <| CmpHiveLogWarned := true |> else r)
  else Ok (if negb (CmpHiveWarned r) then say (r <| CmpHiveWarned := true |>) "append FAILED" else r).

Definition CmpLogCreateKey r a : outcome REG := n ← get_node (cm r) a; CmpLogRecord r CMP_OP_CREATE_KEY (if isLink n then 1 else 0) a None (lastWriteTime n) None None.
Definition CmpLogSetValue r a v : outcome REG := n ← get_node (cm r) a; CmpLogRecord r CMP_OP_SET_VALUES 0 a None (lastWriteTime n) (Some v) None.
Definition CmpLogTouchKey r a : outcome REG := n ← get_node (cm r) a; CmpLogRecord r CMP_OP_SET_VALUES 0 a None (lastWriteTime n) None None.
Definition CmpLogDeleteValue r a nm : outcome REG := n ← get_node (cm r) a; CmpLogRecord r CMP_OP_DELETE_VALUE 0 a None (lastWriteTime n) None (Some nm).
Definition CmpLogDeleteKey r path (stamp : Z) : outcome REG := CmpLogRecord r CMP_OP_DELETE_KEY 0 0 (Some path) stamp None None.
Definition CmpLogRenameKey r path nm (stamp : Z) : outcome REG := CmpLogRecord r CMP_OP_RENAME_KEY 0 0 (Some path) stamp None (Some nm).

(** [None]: FALSE. *)
Definition CmpCaptureLogPath r a : outcome (option (list Z) * REG) :=
  path ← CmpBuildPath (cm r) a (CmpRootNode r);
  let bytes := 2 * Z.of_nat (length path) in
  if (bytes =? 0) || (0xFFFF <? bytes) then Ok (None, r) else
  '(block, s) ← pool_allocate (cm r) bytes;
  Ok (if block =? 0 then None else Some path, r <| cm := s |>).

(** ** Key objects *)

(** The delete procedure of the key type; the last reference to a body is gone. *)
Definition CmpDeleteKeyBody r a : outcome REG :=
  n ← get_node (cm r) a;
  _ ← ASSERT (0 <? bodyCount n) "node->bodyCount > 0";
  let n := n <| bodyCount := bodyCount n - 1 |> in
  let r := on_cm (r <| bodies := remove_one a (bodies r) |>) (fun s => put_node s a n) in
  if deleted n && (bodyCount n =? 0) then
    _ ← ASSERT (subkeyCount n =? 0) "node->subkeyCount == 0";
    Ok (on_cm r (fun s => drop_node s a))
  else Ok r.

(** ObpAllocateObject and ObpCreateHandle answer [allocated] and [created]; a body
    without a handle dies with the creator's reference. *)
Definition CmpCreateKeyHandle r a (allocated created : NTSTATUS) : outcome (NTSTATUS * REG) :=
  if negb (NT_SUCCESS allocated) then Ok (allocated, r) else
  n ← get_node (cm r) a;
  let r := on_cm (r <| bodies := a :: bodies r |>) (fun s => put_node s a (n <| bodyCount := bodyCount n + 1 |>)) in
  if NT_SUCCESS created then Ok (created, r) else
  r ← CmpDeleteKeyBody r a; Ok (created, r).

(** The key a handle names; [object access] is what the reference to the handle answers. *)
Definition CmpReferenceKey r object (desiredAccess : Z) (allowDeleted : bool) : outcome (NTSTATUS + addr) :=
  match object desiredAccess with
  | inl status => Ok (inl status)
  | inr a => n ← get_node (cm r) a; Ok (if deleted n && negb allowDeleted then inl STATUS_KEY_DELETED else inr a)
  end.

(** ** The services *)

(** The key [leaf] made under [p], where a lookup found none. *)
Definition create_missing r (p : addr) (leaf : list Z) (options : Z) (createLink : bool) (allocated created : NTSTATUS) : outcome (NTSTATUS * Z * REG) :=
  parent_node ← get_node (cm r) p;
  if isVolatile parent_node && (Z.land options REG_OPTION_VOLATILE =? 0) then Ok (STATUS_CHILD_MUST_BE_VOLATILE, 0, r) else
  d ← CmpKeyDepth (cm r) p;
  if CMP_HIVE_MAX_DEPTH <=? d then Ok (STATUS_INVALID_PARAMETER, 0, r) else
  '(a, s) ← CmpAllocateNode (cm r) p leaf;
  if a =? 0 then Ok (STATUS_INSUFFICIENT_RESOURCES, 0, r <| cm := s |>) else
  n ← get_node s a;
  parent_node ← get_node s p;
  let s := put_node s a (n <| isVolatile := isVolatile parent_node || negb (Z.land options REG_OPTION_VOLATILE =? 0) |> <| isLink := createLink |>) in
  let '(now, s) := CmpNow s in
  let s := put_node s p (parent_node <| lastWriteTime := now |>) in
  '(status, r) ← CmpCreateKeyHandle (r <| cm := s |>) a allocated created;
  if negb (NT_SUCCESS status) then Ok (status, 0, r) else
  n ← get_node (cm r) a;
  r ← (if negb (isVolatile n) then CmpLogCreateKey r a else Ok r);
  Ok (STATUS_SUCCESS, REG_CREATED_NEW_KEY, on_cm r (fun s => CmpNotifyChange s (parent n) REG_NOTIFY_CHANGE_NAME)).

(** Create and open; [cleared], [dispositionProbe]: the probes of the two places to answer in. *)
Definition NtCreateKey r (cleared : NTSTATUS) (mapped : Z) (attributes : option OBJECT_ATTRIBUTES) (options : Z) (dispositionProbe : NTSTATUS) (allocated created : NTSTATUS) : outcome (NTSTATUS * Z * REG) :=
  if negb (NT_SUCCESS cleared) then Ok (cleared, 0, r) else
  if negb (NT_SUCCESS dispositionProbe) then Ok (dispositionProbe, 0, r) else
  match attributes with None => Ok (STATUS_ACCESS_VIOLATION, 0, r) | Some attr =>
  if negb (NT_SUCCESS (probed attr)) then Ok (probed attr, 0, r) else
  if negb (wellSized attr) then Ok (STATUS_INVALID_PARAMETER, 0, r) else
  match ObjectName attr with None => Ok (STATUS_ACCESS_VIOLATION, 0, r) | Some (Length, _) =>
  if (Length =? 0) && bool_decide (RootDirectory attr = None) then Ok (STATUS_OBJECT_PATH_SYNTAX_BAD, 0, r) else
  let createLink := negb (Z.land options REG_OPTION_CREATE_LINK =? 0) in
  let openLink := createLink || negb (Z.land (Attributes attr) OBJ_OPENLINK =? 0) in
  '(resolved, s) ← CmpResolvePath (cm r) (CmpRootNode r) attributes true openLink;
  let r := r <| cm := s |> in
  match resolved with
  | inl status => Ok (status, 0, r)
  | inr (parent_, leaf, found) =>
      if negb (found =? 0) then
        if createLink then Ok (STATUS_OBJECT_NAME_COLLISION, 0, r) else
        if mapped =? 0 then Ok (STATUS_ACCESS_DENIED, 0, r) else
        '(status, r) ← CmpCreateKeyHandle r found allocated created;
        Ok (status, (if NT_SUCCESS status then REG_OPENED_EXISTING_KEY else 0), r)
      else
        create_missing r parent_ leaf options createLink allocated created
  end end end.

Definition NtOpenKeyEx r (cleared : NTSTATUS) (mapped : Z) (attributes : option OBJECT_ATTRIBUTES) (allocated created : NTSTATUS) : outcome (NTSTATUS * REG) :=
  if negb (NT_SUCCESS cleared) then Ok (cleared, r) else
  match attributes with None => Ok (STATUS_ACCESS_VIOLATION, r) | Some attr =>
  if negb (NT_SUCCESS (probed attr)) then Ok (probed attr, r) else
  if negb (wellSized attr) then Ok (STATUS_INVALID_PARAMETER, r) else
  if (match ObjectName attr with Some (Length, _) => negb (Z.land Length 1 =? 0) | None => false end) then Ok (STATUS_OBJECT_NAME_INVALID, r) else
  '(resolved, s) ← CmpResolvePath (cm r) (CmpRootNode r) attributes false (negb (Z.land (Attributes attr) OBJ_OPENLINK =? 0));
  let r := r <| cm := s |> in
  match resolved with
  | inl status => Ok (status, r)
  | inr (_, _, found) => if mapped =? 0 then Ok (STATUS_ACCESS_DENIED, r) else CmpCreateKeyHandle r found allocated created
  end end.

Definition NtDeleteKey r object : outcome (NTSTATUS * REG) :=
  body ← CmpReferenceKey r object DELETE true;
  match body with inl status => Ok (status, r) | inr a =>
  n ← get_node (cm r) a;
  if deleted n then Ok (STATUS_SUCCESS, r) else
  if (parent n =? 0) || (parent n =? CmpRootNode r) then Ok (STATUS_ACCESS_DENIED, r) else
  if negb (subkeyCount n =? 0) then Ok (STATUS_ACCESS_DENIED, r) else
  '(logPath, r) ← (if negb (isVolatile n) then
    '(captured, r) ← CmpCaptureLogPath r a;
    Ok (captured, if bool_decide (captured = None) then say r "could not capture a delete path" else r)
  else Ok (None, r));
  s ← remove_subkey (cm r) (parent n) a;
  let '(now, s) := CmpNow s in
  p ← get_node s (parent n);
  let s := put_node s (parent n) (p <| lastWriteTime := now |>) in
  let s := put_node s a (n <| parent := 0 |> <| deleted := true |>) in
  s ← CmpFreeValues s a;
  let r := r <| cm := s |> in
  r ← (match logPath with Some path => CmpLogDeleteKey r path now | None => Ok r end);
  Ok (STATUS_SUCCESS, on_cm r (fun s => CmpNotifyChange s (parent n) REG_NOTIFY_CHANGE_NAME))
  end.

Definition NtRenameKey r object (newName : USER_STRING) : outcome (NTSTATUS * REG) :=
  match newName with
  | NullString => Ok (STATUS_ACCESS_VIOLATION, r)
  | BadString status => Ok (status, r)
  | UserString Length nm =>
      if Length =? 0 then Ok (STATUS_INVALID_PARAMETER, r) else
      body ← CmpReferenceKey r object KEY_WRITE false;
      match body with inl status => Ok (status, r) | inr a =>
      n ← get_node (cm r) a;
      if CMP_MAX_COMPONENT_BYTES <? 2 * Z.of_nat (length nm) then Ok (STATUS_INVALID_PARAMETER, r) else
      if bool_decide (SEPARATOR ∈ nm) then Ok (STATUS_INVALID_PARAMETER, r) else
      found ← (if parent n =? 0 then Ok 1 else CmpFindSubkey (cm r) (parent n) nm);
      if negb (found =? 0) then Ok (STATUS_CANNOT_DELETE, r) else
      '(logPath, r) ← (if negb (isVolatile n) then
        '(captured, r) ← CmpCaptureLogPath r a;
        Ok (captured, if bool_decide (captured = None) then say r "could not capture a rename path" else r)
      else Ok (None, r));
      '(renamed, s) ← CmpRenameNode (cm r) a nm;
      let r := r <| cm := s |> in
      if negb (renamed : bool) then Ok (STATUS_INSUFFICIENT_RESOURCES, r) else
      n ← get_node s a;
      let '(now, s) := CmpNow s in
      let r := r <| cm := put_node s a (n <| lastWriteTime := now |>) |> in
      r ← (match logPath with Some path => CmpLogRenameKey r path nm now | None => Ok r end);
      Ok (STATUS_SUCCESS, on_cm r (fun s => CmpNotifyChange s a REG_NOTIFY_CHANGE_NAME))
      end
  end.

Definition NtDeleteValueKey r object (valueName : USER_STRING) : outcome (NTSTATUS * REG) :=
  match valueName with
  | NullString => Ok (STATUS_ACCESS_VIOLATION, r)
  | BadString status => Ok (status, r)
  | UserString Length nm =>
      if CMP_MAX_VALUE_NAME_BYTES <? Length then Ok (STATUS_OBJECT_NAME_NOT_FOUND, r) else
      body ← CmpReferenceKey r object KEY_SET_VALUE false;
      match body with inl status => Ok (status, r) | inr a =>
      '(removed, s) ← CmpRemoveValue (cm r) a nm;
      if negb (removed : bool) then Ok (STATUS_OBJECT_NAME_NOT_FOUND, r) else
      n ← get_node s a;
      let '(now, s) := CmpNow s in
      let r := r <| cm := put_node s a (n <| lastWriteTime := now |>) |> in
      r ← (if negb (isVolatile n) then CmpLogDeleteValue r a nm else Ok r);
      Ok (STATUS_SUCCESS, on_cm r (fun s => CmpNotifyChange s a REG_NOTIFY_CHANGE_LAST_SET))
      end
  end.

(** [data]: the status of a probe that failed, or the bytes. *)
Definition NtSetValueKey r object (valueName : USER_STRING) (type : Z) (data : NTSTATUS + list Z) : outcome (NTSTATUS * REG) :=
  match valueName with
  | NullString => Ok (STATUS_ACCESS_VIOLATION, r)
  | BadString status => Ok (status, r)
  | UserString Length nm =>
      if CMP_MAX_VALUE_NAME_BYTES <? Length then Ok (STATUS_INVALID_PARAMETER, r) else
      match data with inl status => Ok (status, r) | inr data =>
      body ← CmpReferenceKey r object KEY_SET_VALUE false;
      match body with inl status => Ok (status, r) | inr a =>
      n ← get_node (cm r) a;
      refused ← (if isLink n then same ← RtlEqualUnicodeString (counted nm) (counted SymbolicLinkValue) true; Ok (negb (type =? REG_LINK) || negb same) else Ok false);
      if (refused : bool) then Ok (STATUS_ACCESS_DENIED, r) else
      existing ← CmpFindValue (values n) nm;
      same ← (match existing with
        | Some i => v ← deref (values n !! i) "value"; Ok ((value_type v =? type) && bool_decide (value_data v = data))
        | None => Ok false
        end);
      if (same : bool) then Ok (STATUS_SUCCESS, r) else
      '(status, s) ← CmpSetValue (cm r) a nm type data;
      let r := r <| cm := s |> in
      if negb (NT_SUCCESS status) then Ok (status, r) else
      n ← get_node s a;
      let '(now, s) := CmpNow s in
      let r := r <| cm := put_node s a (n <| lastWriteTime := now |>) |> in
      r ← (if negb (isVolatile n) then
        written ← CmpFindValue (values n) nm;
        i ← deref written "written != 0";
        v ← deref (values n !! i) "value";
        CmpLogSetValue r a v
      else Ok r);
      Ok (status, on_cm r (fun s => CmpNotifyChange s a REG_NOTIFY_CHANGE_LAST_SET))
      end end
  end.

(** [stamp]: the probe that failed, or the time read. *)
Definition NtSetInformationKey r object (infoClass length : Z) (stamp : NTSTATUS + Z) : outcome (NTSTATUS * REG) :=
  body ← CmpReferenceKey r object KEY_SET_VALUE false;
  match body with inl status => Ok (status, r) | inr a =>
  if negb (infoClass =? CMP_KEY_WRITE_TIME_INFORMATION) then Ok (STATUS_INVALID_INFO_CLASS, r) else
  if negb (length =? 8) then Ok (STATUS_INFO_LENGTH_MISMATCH, r) else
  match stamp with inl status => Ok (status, r) | inr time =>
  n ← get_node (cm r) a;
  let r := on_cm r (fun s => put_node s a (n <| lastWriteTime := time |>)) in
  r ← (if negb (isVolatile n) then CmpLogTouchKey r a else Ok r);
  Ok (STATUS_SUCCESS, r)
  end end.

(** The whole log written again from the tree; the rename over the old file is the commit. *)
Definition CmpRewriteHiveLocked r : outcome REG :=
  '(image, s) ← CmpSerializeSubtree (cm r) (CmpRootNode r);
  let r := r <| cm := s |> in
  match image with
  | inl _ => Ok (say r "rewrite skipped")
  | inr image =>
      let status := write_status (writes r) in
      let r := r <| writes := S (writes r) |> in
      if NT_SUCCESS status then Ok (r <| file := image |> <| CmpHiveLogBytes := Z.of_nat (length image) |>)
      else Ok (if negb (CmpHiveWarned r) then say (r <| CmpHiveWarned := true |>) "rewrite FAILED" else r)
  end.

Definition CmpRewriteHive r : outcome REG := if negb (CmpHiveReady r) then Ok r else CmpRewriteHiveLocked r.
Definition CmpCompactHive r : outcome REG := CmpRewriteHiveLocked r.
Definition CmpSetHiveReady r : REG := r <| CmpHiveReady := true |>.
End registry.
