(* ===== verification/CmLive.v ===== *)
(** * CmLive: the invariant of the running registry (kernel/cm/registry.c).

    The root and what hangs below it is live; a deleted key lies apart until its
    last handle is closed.  Siblings are strictly ordered by their folded names,
    and nothing below a volatile key persists. *)

From S2P Require Import Prelude NtStatus Rtl Bytes CmTree CmHive CmReplay CmView CmLog CmSim CmRecover CmSave CmResolve CmRegistry.

Section invariant.
Context `{MACHINE}.
Implicit Types (s : CM) (a b c p root : addr) (n k h m : CMP_KEY_NODE) (nm : list Z) (names : list (list Z)) (d : nat).

Definition key_name s c : list Z := match nodes s !! c with Some k => name k | None => [] end.

Record registry_ok root s : Prop := {
  rg_tree : tree_ok 0 s;
  rg_root : exists n, nodes s !! root = Some n /\ parent n = 0 /\ deleted n = false /\ isVolatile n = false;
  rg_deleted : forall a n, nodes s !! a = Some n -> a <> root -> (parent n = 0 <-> deleted n = true);
  rg_gone : forall a n, nodes s !! a = Some n -> deleted n = true -> subkeys n = [];
  rg_name : forall a n, nodes s !! a = Some n -> parent n <> 0 -> spelled (name n);
  rg_sorted : forall a n, nodes s !! a = Some n -> StronglySorted name_before (key_name s <$> subkeys n);
  rg_volatile : forall p n c k, nodes s !! p = Some n -> c ∈ subkeys n -> nodes s !! c = Some k -> isVolatile n = true -> isVolatile k = true;
}.

(** ** A key that is not deleted hangs below the root *)

Lemma live_parent root s a n : registry_ok root s -> nodes s !! a = Some n -> deleted n = false -> a <> root ->
  exists h, nodes s !! parent n = Some h /\ a ∈ subkeys h /\ deleted h = false /\ (isVolatile n = false -> isVolatile h = false).
Proof.
  intros R E Hd Hne. assert (Hp : parent n <> 0) by (intros Hp; apply (rg_deleted _ _ R _ _ E Hne) in Hp; congruence).
  destruct (tr_listed _ _ (rg_tree _ _ R) _ _ E Hp) as (h & Eh & Hin); [intros ->; by destruct (tree_nonzero _ _ _ _ (rg_tree _ _ R) E)|].
  exists h. split; [done|]. split; [done|]. split.
  - destruct (deleted h) eqn:Hh; [|done]. rewrite (rg_gone _ _ R _ _ Eh Hh) in Hin. by apply not_elem_of_nil in Hin.
  - intros Hv. destruct (isVolatile h) eqn:Hh; [|done]. pose proof (rg_volatile _ _ R _ _ _ _ Eh Hin E Hh). congruence.
Qed.

Lemma key_name_eq s c k : nodes s !! c = Some k -> key_name s c = name k.
Proof. unfold key_name. by intros ->. Qed.

(** Two names of one parent are two keys. *)
Lemma sorted_names s (l1 l2 : list addr) c c' k k' : StronglySorted name_before (key_name s <$> (l1 ++ c :: l2)) -> c' ∈ l1 ++ l2 -> nodes s !! c = Some k -> nodes s !! c' = Some k' ->
  fold_name (name k') <> fold_name (name k).
Proof.
  intros Hs Hc' E E' Hf. rewrite <- (key_name_eq _ _ _ E), <- (key_name_eq _ _ _ E') in Hf. clear E E' k k'. induction l1 as [|y l1 IH]; cbn in Hs; apply StronglySorted_inv in Hs as [Hs Hy]; rewrite Forall_fmap, Forall_forall in Hy.
  - apply (name_before_irrefl (key_name s c) (key_name s c')); [done|]. by apply (Hy c').
  - cbn in Hc'. apply elem_of_cons in Hc' as [->|Hc']; [|by apply IH]. apply (name_before_irrefl (key_name s y) (key_name s c)); [done|]. apply (Hy c). set_solver.
Qed.

Lemma live_route root s a n : registry_ok root s -> nodes s !! a = Some n -> deleted n = false -> isVolatile n = false ->
  exists names, key_path s root a names /\ route persistent s root names a /\ Forall spelled names.
Proof.
  intros R E. destruct (tr_depth _ _ (rg_tree _ _ R) _ _ E) as (d & _ & D). revert a n E D. induction d as [|d IH]; intros a n E D Hd Hv; [by apply depth_pos in D; lia|].
  destruct (decide (a = root)) as [->|Hne]; [exists []; split; [constructor|split; constructor]|].
  destruct (live_parent _ _ _ _ R E Hd Hne) as (h & Eh & Hin & Hdh & Hvh).
  assert (Hp : parent n <> 0) by (by eapply tree_nonzero; [apply R|]).
  assert (Dp : depth s (parent n) d). { inversion D as [? ? E1 Hz|? ? ? E1 Hz Dp]; subst; [congruence|]. by replace n0 with n in Dp by congruence. }
  destruct (IH _ _ Eh Dp Hdh (Hvh Hv)) as (names & Hk & Hr & Hs). exists (names ++ [name n]). split; [by eapply key_path_child|]. split.
  - apply route_app. exists (parent n). split; [done|]. apply list_elem_of_split in Hin as (l1 & l2 & El). eapply (route_step persistent s (parent n) h (name n) a n [] a l1 l2); try done; [unfold persistent; by rewrite Hv| |constructor].
    intros c k Hc Ek. apply (sorted_names s l1 l2 a c n k); [|set_solver|done|done]. rewrite <- El. by apply (rg_sorted _ _ R _ _ Eh).
  - apply Forall_app. split; [done|]. constructor; [|constructor]. by eapply rg_name.
Qed.

Lemma live_names root s a names : registry_ok root s -> key_path s root a names -> (length names <= 95)%nat.
Proof.
  intros R Hk. destruct (rg_root _ _ R) as (n & E & Hp & _). pose proof (key_path_depth _ _ _ _ _ _ (rg_tree _ _ R) Hk (depth_root _ _ _ E Hp)) as D.
  assert (exists k, nodes s !! a = Some k) as [k Ek] by (inversion Hk; subst; eauto). destruct (tr_depth _ _ (rg_tree _ _ R) _ _ Ek) as (d & Hd & D'). pose proof (depth_fun _ _ _ _ D D'). lia.
Qed.

(** ** Keeping the invariant *)

(** What the shape of the tree depends on. *)
Definition same_place n k : Prop := parent k = parent n /\ subkeys k = subkeys n /\ name k = name n /\ deleted k = deleted n /\ isVolatile k = isVolatile n.

Lemma info_registry root s s' a n n' : registry_ok root s -> nodes s !! a = Some n -> same_place n n' -> node_ok n' -> nodes s' = <[a := n']> (nodes s) ->
  (allocations s <= allocations s')%nat -> registry_ok root s'.
Proof.
  intros R E (Hp & Hs & Hn & Hd & Hv) Hok N A.
  assert (K : forall b k, nodes s' !! b = Some k -> exists m, nodes s !! b = Some m /\ same_place m k).
  { intros b k. rewrite N. intros [(<- & <-)|(Hne & Eb)]%lookup_insert_Some; [by exists n|exists k; by repeat split]. }
  assert (K' : forall b m, nodes s !! b = Some m -> exists k, nodes s' !! b = Some k /\ same_place m k).
  { intros b m Eb. rewrite N. destruct (decide (a = b)) as [<-|]; [rewrite lookup_insert_eq; replace m with n by congruence; by exists n'|rewrite lookup_insert_ne by done; exists m; by repeat split]. }
  split.
  - apply (tree_ext _ (put_node s a n')); [by rewrite N|done|]. by apply (put_info_tree 0 s a n n'); [apply R|..].
  - destruct (rg_root _ _ R) as (m & Em & ? & ? & ?). destruct (K' _ _ Em) as (k & Ek & ? & _ & _ & ? & ?). exists k. split; [done|]. split_and!; congruence.
  - intros b k (m & Em & Hpk & _ & _ & Hdk & _)%K Hb. rewrite Hpk, Hdk. by eapply rg_deleted.
  - intros b k (m & Em & _ & Hsk & _ & Hdk & _)%K Hb. rewrite Hsk. apply (rg_gone _ _ R _ _ Em). congruence.
  - intros b k (m & Em & Hpk & _ & Hnk & _)%K Hb. rewrite Hnk. apply (rg_name _ _ R _ _ Em). congruence.
  - intros b k (m & Em & _ & Hsk & _)%K. rewrite Hsk. rewrite (fmap_ext_in (key_name s') (key_name s) (subkeys m)); [by apply (rg_sorted _ _ R _ _ Em)|].
    intros c Hc. destruct (subkeys_exist _ _ _ _ _ (rg_tree _ _ R) Em Hc) as [i Ei]. destruct (K' _ _ Ei) as (j & Ej & _ & _ & Hj & _). by rewrite (key_name_eq _ _ _ Ej), (key_name_eq _ _ _ Ei).
  - intros q k c j (m & Em & _ & Hsk & _ & _ & Hvk)%K Hc (i & Ei & _ & _ & _ & _ & Hvi)%K. rewrite Hvk, Hvi. rewrite Hsk in Hc. by apply (rg_volatile _ _ R _ _ _ _ Em Hc Ei).
Qed.

Lemma registry_ext root s s' : nodes s' = nodes s -> (allocations s <= allocations s')%nat -> registry_ok root s -> registry_ok root s'.
Proof.
  intros N A R. destruct (rg_root _ _ R) as (n & E & _). eapply (info_registry root s s' root n n R E); [by repeat split|by eapply tr_node; [apply R|]| |done].
  rewrite N. symmetry. by apply insert_id.
Qed.
(** The place of a name among its siblings. *)
Lemma linked_sorted s s' p h a nm l : linked s p h a nm l -> StronglySorted name_before (key_name s <$> subkeys h) -> (forall c, c ∈ subkeys h -> is_Some (nodes s !! c)) ->
  (forall c k, c ∈ subkeys h -> nodes s !! c = Some k -> fold_name (name k) <> fold_name nm) -> key_name s' a = nm -> (forall c, c ∈ subkeys h -> key_name s' c = key_name s c) ->
  StronglySorted name_before (key_name s' <$> l).
Proof.
  intros (l1 & l2 & -> & Hl & O1 & O2) Hs Hex Hno Ha Hsame. rewrite Hl in Hs. rewrite fmap_app, fmap_cons, Ha.
  rewrite (fmap_ext_in (key_name s') (key_name s) l1), (fmap_ext_in (key_name s') (key_name s) l2) by (intros; apply Hsame; rewrite Hl; set_solver).
  rewrite fmap_app in Hs. apply sorted_middle; [apply name_before_trans|done| |].
  - intros w (c & -> & Hc)%list_elem_of_fmap. assert (Hin : c ∈ subkeys h) by (rewrite Hl; set_solver). destruct (Hex c Hin) as [k Ek]. rewrite (key_name_eq _ _ _ Ek). apply not_before; [|by apply (O1 c)].
    apply not_eq_sym. by apply (Hno c).
  - intros w Hw. destruct l2 as [|c l2]; [done|]. injection Hw as <-. destruct (Hex c) as [k Ek]; [rewrite Hl; set_solver|]. rewrite (key_name_eq _ _ _ Ek). by apply (O2 c).
Qed.

Lemma linked_elem s p h a nm l c : linked s p h a nm l -> c ∈ l <-> c = a \/ c ∈ subkeys h.
Proof. intros (l1 & l2 & -> & -> & _). rewrite !elem_of_app, elem_of_cons. tauto. Qed.

(** A new key under [p]. *)
Lemma linked_registry root s s' p h h' a k l : registry_ok root s -> nodes s !! p = Some h -> deleted h = false -> nodes s !! a = None -> tree_ok 0 s' ->
  linked s p h a (name k) l -> (forall c m, c ∈ subkeys h -> nodes s !! c = Some m -> fold_name (name m) <> fold_name (name k)) -> spelled (name k) ->
  nodes s' = <[p := h']> (<[a := k]> (nodes s)) ->
  parent h' = parent h -> subkeys h' = l -> name h' = name h -> deleted h' = false -> isVolatile h' = isVolatile h ->
  parent k = p -> subkeys k = [] -> deleted k = false -> (isVolatile h = true -> isVolatile k = true) -> registry_ok root s'.
Proof.
  intros R Ep Hdh Ea T' Hl Hno Hsp N Hp' Hs' Hn' Hd' Hv' Hpk Hsk Hdk Hvk. pose proof (rg_tree _ _ R) as T. assert (Hpa : p <> a) by congruence.
  assert (Hp0 : p <> 0) by (by eapply tree_nonzero). destruct (rg_root _ _ R) as (rn & Ern & Hrp & Hrd & Hrv). assert (Hra : root <> a) by congruence.
  assert (K : forall b m, nodes s' !! b = Some m -> b = p /\ m = h' \/ b = a /\ m = k \/ b <> p /\ b <> a /\ nodes s !! b = Some m).
  { intros b m. rewrite N. intros [(<- & <-)|(Hne & [(<- & <-)|(Hne' & Eb)]%lookup_insert_Some)]%lookup_insert_Some; [by left|by right; left|]. right; right. done. }
  assert (Kn : forall c, c <> a -> key_name s' c = key_name s c).
  { intros c Hc. unfold key_name. rewrite N. destruct (decide (c = p)) as [->|]; [by rewrite lookup_insert_eq, Ep|by rewrite !lookup_insert_ne]. }
  assert (Hnot : forall b m, nodes s !! b = Some m -> a ∉ subkeys m). { intros b m Eb Hin. destruct (subkeys_exist _ _ _ _ _ T Eb Hin) as [? ?]. congruence. }
  split; [done| | | | | |].
  - destruct (decide (root = p)) as [->|Hne].
    + exists h'. rewrite N, lookup_insert_eq. split; [done|]. replace rn with h in * by congruence. split_and!; congruence.
    + exists rn. rewrite N, !lookup_insert_ne by done. done.
  - intros b m [(-> & ->)|[(-> & ->)|(_ & _ & Eb)]]%K Hb; [rewrite Hp', Hd', <- Hdh; exact (rg_deleted _ _ R _ _ Ep Hb)| |by eapply rg_deleted].
    rewrite Hpk, Hdk. by split.
  - intros b m [(-> & ->)|[(-> & ->)|(_ & _ & Eb)]]%K Hb; [congruence|done|by eapply rg_gone].
  - intros b m [(-> & ->)|[(-> & ->)|(_ & _ & Eb)]]%K Hb; [rewrite Hn'; eapply rg_name; [done|done|congruence]|done|by eapply rg_name].
  - intros b m [(-> & ->)|[(-> & ->)|(Hb1 & Hb2 & Eb)]]%K.
    + rewrite Hs'. apply (linked_sorted s s' p h a (name k)); [done|by apply (rg_sorted _ _ R _ _ Ep)|intros c; by apply (subkeys_exist 0 s p h c T Ep)|done| |].
      * unfold key_name. by rewrite N, lookup_insert_ne, lookup_insert_eq.
      * intros c Hc. apply Kn. intros ->. by apply (Hnot _ _ Ep).
    + rewrite Hsk. constructor.
    + rewrite (fmap_ext_in (key_name s') (key_name s)); [by apply (rg_sorted _ _ R _ _ Eb)|]. intros c Hc. apply Kn. intros ->. by apply (Hnot _ _ Eb).
  - intros q m c j Eq Hc Ec Hv. assert (Hca : c = a -> q = p).
    { intros ->. apply K in Eq as [(-> & ->)|[(-> & ->)|(Hb1 & Hb2 & Eb)]]; [done|rewrite Hsk in Hc; by apply not_elem_of_nil in Hc|]. by destruct (Hnot _ _ Eb). }
    assert (Hj : c <> a -> exists j', nodes s !! c = Some j' /\ isVolatile j = isVolatile j').
    { intros Hne. apply K in Ec as [(-> & ->)|[(-> & ->)|(_ & _ & Ec)]]; [by exists h|done|by exists j]. }
    destruct (decide (c = a)) as [->|Hne].
    + pose proof (Hca eq_refl) as ->. rewrite N, lookup_insert_eq in Eq. injection Eq as <-. rewrite N, lookup_insert_ne, lookup_insert_eq in Ec by done. injection Ec as <-. apply Hvk. congruence.
    + destruct (Hj Hne) as (j' & Ej & ->). apply K in Eq as [(-> & ->)|[(-> & ->)|(_ & _ & Eq)]].
      * rewrite Hs', (linked_elem _ _ _ _ _ _ _ Hl) in Hc. destruct Hc as [|Hc]; [done|]. apply (rg_volatile _ _ R _ _ _ _ Ep Hc Ej). congruence.
      * rewrite Hsk in Hc. by apply not_elem_of_nil in Hc.
      * by apply (rg_volatile _ _ R _ _ _ _ Eq Hc Ej).
Qed.
(** A key taken out of the tree. *)
Lemma deleted_registry root s s' p h h' a k k' : registry_ok root s -> nodes s !! p = Some h -> a ∈ subkeys h -> nodes s !! a = Some k -> subkeys k = [] -> a <> root -> tree_ok 0 s' ->
  nodes s' = <[a := k']> (<[p := h']> (nodes s)) ->
  parent h' = parent h -> subkeys h' = unlink a (subkeys h) -> name h' = name h -> deleted h' = deleted h -> isVolatile h' = isVolatile h ->
  parent k' = 0 -> subkeys k' = [] -> name k' = name k -> deleted k' = true -> registry_ok root s'.
Proof.
  intros R Ep Hin Ea Hks Hra T' N Hp' Hs' Hn' Hd' Hv' Hpk Hsk Hnk Hdk. pose proof (rg_tree _ _ R) as T.
  assert (Hpa : p <> a) by (intros ->; by destruct (not_own_child _ _ _ _ T Ep)). destruct (rg_root _ _ R) as (rn & Ern & Hrp & Hrd & Hrv).
  assert (K : forall b m, nodes s' !! b = Some m -> b = a /\ m = k' \/ b = p /\ m = h' \/ b <> p /\ b <> a /\ nodes s !! b = Some m).
  { intros b m. rewrite N. intros [(<- & <-)|(Hne & [(<- & <-)|(Hne' & Eb)]%lookup_insert_Some)]%lookup_insert_Some; [by left|by right; left|]. right; right. done. }
  assert (Kn : forall c, key_name s' c = key_name s c).
  { intros c. unfold key_name. rewrite N. destruct (decide (c = a)) as [->|]; [by rewrite lookup_insert_eq, Ea|]. rewrite lookup_insert_ne by done. destruct (decide (c = p)) as [->|]; [by rewrite lookup_insert_eq, Ep|by rewrite lookup_insert_ne]. }
  split; [done| | | | | |].
  - destruct (decide (root = p)) as [->|Hne].
    + exists h'. rewrite N, lookup_insert_ne, lookup_insert_eq by done. split; [done|]. replace rn with h in * by congruence. split_and!; congruence.
    + exists rn. rewrite N, !lookup_insert_ne by done. done.
  - intros b m [(-> & ->)|[(-> & ->)|(_ & _ & Eb)]]%K Hb; [by rewrite Hpk, Hdk|rewrite Hp', Hd'; exact (rg_deleted _ _ R _ _ Ep Hb)|by eapply rg_deleted].
  - intros b m [(-> & ->)|[(-> & ->)|(_ & _ & Eb)]]%K Hb; [done|rewrite Hs', (rg_gone _ _ R _ _ Ep) by congruence; done|by eapply rg_gone].
  - intros b m [(-> & ->)|[(-> & ->)|(_ & _ & Eb)]]%K Hb; [congruence|rewrite Hn'; eapply rg_name; [done|done|congruence]|by eapply rg_name].
  - intros b m Eb. rewrite (fmap_ext_in (key_name s') (key_name s)) by done. apply K in Eb as [(-> & ->)|[(-> & ->)|(_ & _ & Eb)]]; [rewrite Hsk; constructor| |by eapply rg_sorted].
    rewrite Hs'. pose proof (rg_sorted _ _ R _ _ Ep) as S. pose proof (nk_subkeys _ (tr_node _ _ T _ _ Ep)) as Hnd. apply list_elem_of_split in Hin as (l1 & l2 & El). rewrite El in *. rewrite unlink_middle by done.
    rewrite fmap_app, fmap_cons in S. rewrite fmap_app. replace (key_name s <$> l1) with (take (length l1) (key_name s <$> l1)) by (apply take_ge; by rewrite length_fmap).
    clear -S. rewrite take_ge by (by rewrite length_fmap). induction (key_name s <$> l1) as [|w l IH]; cbn in *; [by apply StronglySorted_inv in S as [? _]|]. apply StronglySorted_inv in S as [S Hw]. constructor; [by apply IH|].
    apply Forall_app in Hw as [Hw1 Hw2]. apply Forall_app. split; [done|]. by apply Forall_inv_tail in Hw2.
  - intros q m c j Eq Hc Ec Hv. apply K in Eq as [(-> & ->)|[(-> & ->)|(Hb1 & Hb2 & Eq)]]; [rewrite Hsk in Hc; by apply not_elem_of_nil in Hc| |].
    + rewrite Hs' in Hc. apply elem_of_unlink in Hc as [Hc Hca]. apply K in Ec as [(-> & ->)|[(-> & ->)|(_ & _ & Ec)]]; [done|by destruct (not_own_child _ _ _ _ T Ep)|]. apply (rg_volatile _ _ R _ _ _ _ Ep Hc Ec). congruence.
    + apply K in Ec as [(-> & ->)|[(-> & ->)|(_ & _ & Ec)]]; [|rewrite Hv'; by apply (rg_volatile _ _ R _ _ _ _ Eq Hc Ep)|by apply (rg_volatile _ _ R _ _ _ _ Eq Hc Ec)].
      destruct Hb1. exact (only_parent _ _ _ _ _ _ _ T Eq Ep Hc Hin).
Qed.

(** A key under another name, at that name's place. *)
Lemma renamed_registry root s s' p h h' a k k' l : registry_ok root s -> nodes s !! p = Some h -> a ∈ subkeys h -> nodes s !! a = Some k -> tree_ok 0 s' ->
  linked s p (h <| subkeys := unlink a (subkeys h) |>) a (name k') l -> (forall c m, c ∈ subkeys h -> nodes s !! c = Some m -> fold_name (name m) <> fold_name (name k')) -> spelled (name k') ->
  nodes s' = <[a := k']> (<[p := h']> (nodes s)) ->
  same_place (h <| subkeys := l |>) h' -> same_place (k <| name := name k' |>) k' -> registry_ok root s'.
Proof.
  intros R Ep Hin Ea T' Hl Hno Hsp N (Hp' & Hs' & Hn' & Hd' & Hv') (Hpk & Hsk & _ & Hdk & Hvk). cbn in *. pose proof (rg_tree _ _ R) as T.
  assert (Hpa : p <> a) by (intros ->; by destruct (not_own_child _ _ _ _ T Ep)). destruct (rg_root _ _ R) as (rn & Ern & Hrp & Hrd & Hrv).
  assert (Hap : parent k = p) by (destruct (tr_child _ _ T _ _ _ Ep Hin) as (j & Ej & ?); congruence). assert (Hp0 : p <> 0) by (by eapply tree_nonzero). assert (Hra : a <> root) by congruence.
  assert (K : forall b m, nodes s' !! b = Some m -> b = a /\ m = k' \/ b = p /\ m = h' \/ b <> p /\ b <> a /\ nodes s !! b = Some m).
  { intros b m. rewrite N. intros [(<- & <-)|(Hne & [(<- & <-)|(Hne' & Eb)]%lookup_insert_Some)]%lookup_insert_Some; [by left|by right; left|]. right; right. done. }
  assert (Kn : forall c, c <> a -> key_name s' c = key_name s c).
  { intros c Hc. unfold key_name. rewrite N, lookup_insert_ne by done. destruct (decide (c = p)) as [->|]; [by rewrite lookup_insert_eq, Ep|by rewrite lookup_insert_ne]. }
  assert (Kv : forall b m, nodes s' !! b = Some m -> exists i, nodes s !! b = Some i /\ isVolatile m = isVolatile i).
  { intros b m [(-> & ->)|[(-> & ->)|(_ & _ & Eb)]]%K; [by exists k|by exists h|by exists m]. }
  assert (Hll : forall c, c ∈ l <-> c ∈ subkeys h). { intros c. rewrite (linked_elem _ _ _ _ _ _ _ Hl). cbn. rewrite elem_of_unlink. destruct (decide (c = a)) as [->|]; tauto. }
  assert (Hone : forall q m, q <> p -> nodes s !! q = Some m -> a ∉ subkeys m). { intros q m Hq Eq Hc. apply Hq. exact (only_parent _ _ _ _ _ _ _ T Eq Ep Hc Hin). }
  split; [done| | | | | |].
  - destruct (decide (root = p)) as [->|Hne].
    + exists h'. rewrite N, lookup_insert_ne, lookup_insert_eq by done. split; [done|]. replace rn with h in * by congruence. split_and!; congruence.
    + exists rn. rewrite N, !lookup_insert_ne by done. done.
  - intros b m [(-> & ->)|[(-> & ->)|(_ & _ & Eb)]]%K Hb; [rewrite Hpk, Hdk; exact (rg_deleted _ _ R _ _ Ea Hb)|rewrite Hp', Hd'; exact (rg_deleted _ _ R _ _ Ep Hb)|by eapply rg_deleted].
  - intros b m [(-> & ->)|[(-> & ->)|(_ & _ & Eb)]]%K Hb; [rewrite Hsk; apply (rg_gone _ _ R _ _ Ea); congruence| |by eapply rg_gone].
    rewrite Hd' in Hb. rewrite (rg_gone _ _ R _ _ Ep Hb) in Hin. by apply not_elem_of_nil in Hin.
  - intros b m [(-> & ->)|[(-> & ->)|(_ & _ & Eb)]]%K Hb; [done|rewrite Hn'; eapply rg_name; [done|done|congruence]|by eapply rg_name].
  - intros b m [(-> & ->)|[(-> & ->)|(Hb1 & Hb2 & Eb)]]%K.
    + rewrite Hsk, (fmap_ext_in (key_name s') (key_name s)); [by apply (rg_sorted _ _ R _ _ Ea)|]. intros c Hc. apply Kn. intros ->. by destruct (not_own_child _ _ _ _ T Ea).
    + rewrite Hs'. apply (linked_sorted s s' p (h <| subkeys := unlink a (subkeys h) |>) a (name k')); [done| | | | |].
      * cbn. pose proof (rg_sorted _ _ R _ _ Ep) as S. clear -S. induction (subkeys h) as [|c l IH]; [constructor|]. cbn in S. apply StronglySorted_inv in S as [S Hc]. unfold unlink. rewrite filter_cons. case_decide; [|by apply IH].
        rewrite fmap_cons. constructor; [by apply IH|]. rewrite Forall_fmap, Forall_forall in Hc |- *. intros w [_ Hw]%list_elem_of_filter. by apply Hc.
      * cbn. intros c [Hc _]%elem_of_unlink. exact (subkeys_exist 0 s p h c T Ep Hc).
      * cbn. intros c m [Hc _]%elem_of_unlink. by apply Hno.
      * unfold key_name. by rewrite N, lookup_insert_eq.
      * cbn. intros c [_ Hc]%elem_of_unlink. by apply Kn.
    + rewrite (fmap_ext_in (key_name s') (key_name s)); [by apply (rg_sorted _ _ R _ _ Eb)|]. intros c Hc. apply Kn. intros ->. by apply (Hone _ _ Hb1 Eb).
  - intros q m c j Eq Hc (j' & Ej & ->)%Kv Hv. apply K in Eq as [(-> & ->)|[(-> & ->)|(_ & _ & Eq)]].
    + rewrite Hsk in Hc. apply (rg_volatile _ _ R _ _ _ _ Ea Hc Ej). congruence.
    + rewrite Hs', Hll in Hc. apply (rg_volatile _ _ R _ _ _ _ Ep Hc Ej). congruence.
    + by apply (rg_volatile _ _ R _ _ _ _ Eq Hc Ej).
Qed.

(** A deleted key freed. *)
Lemma dropped_registry root s s' a k : registry_ok root s -> nodes s !! a = Some k -> deleted k = true -> nodes s' = delete a (nodes s) -> (allocations s <= allocations s')%nat -> registry_ok root s'.
Proof.
  intros R Ea Hdk N A. pose proof (rg_tree _ _ R) as T. destruct (rg_root _ _ R) as (rn & Ern & Hrp & Hrd & Hrv). assert (Hra : root <> a) by congruence.
  assert (Hpk : parent k = 0) by (apply (rg_deleted _ _ R _ _ Ea); done). pose proof (rg_gone _ _ R _ _ Ea Hdk) as Hsk.
  assert (T' : tree_ok 0 s'). { apply (tree_ext _ (drop_node s a)); [done|done|]. eapply drop_tree; [done|done|done|done|]. intros m E0. by destruct (tree_nonzero _ _ _ _ T E0). }
  assert (K : forall b m, nodes s' !! b = Some m -> b <> a /\ nodes s !! b = Some m). { intros b m. rewrite N. intros [? ?]%lookup_delete_Some. done. }
  split; [done| | | | | |].
  - exists rn. by rewrite N, lookup_delete_ne.
  - intros b m [_ Eb]%K. by apply (rg_deleted _ _ R).
  - intros b m [_ Eb]%K. by eapply rg_gone.
  - intros b m [_ Eb]%K. by eapply rg_name.
  - intros b m [_ Eb]%K. rewrite (fmap_ext_in (key_name s') (key_name s)); [by eapply rg_sorted|]. intros c Hc. unfold key_name. rewrite N, lookup_delete_ne; [done|].
    intros <-. destruct (tr_child _ _ T _ _ _ Eb Hc) as (j & Ej & Hj). pose proof (tree_nonzero _ _ _ _ T Eb). congruence.
  - intros q m c j [_ Eq]%K Hc [_ Ec]%K. by apply (rg_volatile _ _ R _ _ _ _ Eq Hc Ec).
Qed.
End invariant.
