(* ===== verification/CmAlike.v ===== *)
(** * CmAlike: trees of keys up to write times.

    The log records every change but one: making a key, or taking a volatile one
    out, stamps its parent, and no record says so.  What a log restores differs
    from the tree of the running registry by those stamps and nothing else: here
    the equivalence up to write times, which every change respects, and the single
    stamp. *)

From S2P Require Import Prelude Rtl CmTree CmView.
From Stdlib Require Import Morphisms Setoid.

Fixpoint timeless (t : ktree) : ktree := let '(Key nm _ link vs subs) := t in Key nm 0 link vs (map timeless subs).

Definition alike (t u : ktree) : Prop := timeless t = timeless u.

#[export] Instance alike_equivalence : Equivalence alike.
Proof. unfold alike. split; [by intros t|by intros t u|intros t u v -> ->; done]. Qed.

Abbreviation alike_option := (option_Forall2 alike) (only parsing).

Section alike.
Implicit Types (t u p : ktree) (l : list ktree) (nm : list Z) (names : list (list Z)) (g f : ktree -> option ktree).

Lemma alike_key nm time time' link vs l l' : Forall2 alike l l' -> alike (Key nm time link vs l) (Key nm time' link vs l').
Proof. intros Hl. unfold alike. cbn. apply (f_equal (Key nm 0 link vs)). induction Hl as [|t u l l' Ht _ IH]; [done|]. cbn. by rewrite Ht, IH. Qed.

Lemma alike_inv t u : alike t u -> exists nm time time' link vs l l', t = Key nm time link vs l /\ u = Key nm time' link vs l' /\ Forall2 alike l l'.
Proof.
  destruct t as [nm time link vs l], u as [nm' time' link' vs' l']. intros [= <- <- <- Hl]. exists nm, time, time', link, vs, l, l'. split; [done|]. split; [done|].
  revert l' Hl. induction l as [|t l IH]; intros [|u l']; try done. intros [= Ht Hl]. constructor; [done|by apply IH].
Qed.

Lemma alike_name t u : alike t u -> tree_name t = tree_name u.
Proof. intros (nm & ? & ? & ? & ? & ? & ? & -> & -> & _)%alike_inv. done. Qed.

Lemma alike_subs t u : alike t u -> Forall2 alike (tree_subs t) (tree_subs u).
Proof. intros (nm & ? & ? & ? & ? & ? & ? & -> & -> & ?)%alike_inv. done. Qed.

Lemma alike_values t u : alike t u -> tree_values t = tree_values u.
Proof. intros (nm & ? & ? & ? & ? & ? & ? & -> & -> & ?)%alike_inv. done. Qed.

Lemma alike_time t time : alike (with_time t time) t.
Proof. by destruct t. Qed.

#[global] Instance with_subs_proper : Proper (alike ==> Forall2 alike ==> alike) with_subs.
Proof. intros t u (nm & ? & ? & ? & ? & ? & ? & -> & -> & _)%alike_inv l l' Hl. by apply alike_key. Qed.

#[global] Instance with_time_proper : Proper (alike ==> eq ==> alike) with_time.
Proof. intros t u Htu ? time ->. by rewrite !alike_time. Qed.

#[global] Instance with_link_proper : Proper (alike ==> eq ==> alike) with_link.
Proof. intros t u (nm & ? & ? & ? & ? & ? & ? & -> & -> & ?)%alike_inv ? link ->. by apply alike_key. Qed.

#[global] Instance with_values_proper : Proper (alike ==> eq ==> alike) with_values.
Proof. intros t u (nm & ? & ? & ? & ? & ? & ? & -> & -> & ?)%alike_inv ? vs ->. by apply alike_key. Qed.

#[global] Instance with_name_proper : Proper (alike ==> eq ==> alike) with_name.
Proof. intros t u (nm & ? & ? & ? & ? & ? & ? & -> & -> & ?)%alike_inv ? nm' ->. by apply alike_key. Qed.

Lemma alter_sub_alike nm g g' l l' : (alike ==> alike_option)%signature g g' -> Forall2 alike l l' -> option_Forall2 (Forall2 alike) (alter_sub nm g l) (alter_sub nm g' l').
Proof.
  intros Hg. induction 1 as [|t u l l' Ht Hl IH]; [constructor|]. cbn [alter_sub]. rewrite (alike_name _ _ Ht). case_bool_decide.
  - destruct (Hg _ _ Ht) as [t' u' Ht'|]; constructor. by constructor.
  - destruct IH as [l1 l1' Hl1|]; constructor. by constructor.
Qed.

#[global] Instance alter_at_proper names : Proper ((alike ==> alike_option) ==> (alike ==> alike_option)) (alter_at names).
Proof.
  intros f f' Hf. induction names as [|nm names IH]; [done|]. intros t u Ht. cbn [alter_at].
  destruct (alter_sub_alike nm _ _ _ _ IH (alike_subs _ _ Ht)) as [l l' Hl|]; constructor. by apply with_subs_proper.
Qed.

Lemma take_sub_alike nm l l' : Forall2 alike l l' -> option_Forall2 (fun x y => alike x.1 y.1 /\ Forall2 alike x.2 y.2) (take_sub nm l) (take_sub nm l').
Proof.
  induction 1 as [|t u l l' Ht Hl IH]; [constructor|]. cbn [take_sub]. rewrite (alike_name _ _ Ht). case_bool_decide; [by constructor|].
  destruct IH as [[v l1] [v' l1'] [? ?]|]; constructor. split; [done|by constructor].
Qed.

Lemma place_sub_alike t u l l' : alike t u -> Forall2 alike l l' -> Forall2 alike (place_sub t l) (place_sub u l').
Proof.
  intros Ht. induction 1 as [|v w l l' Hv Hl IH]; [by repeat constructor|]. cbn [place_sub]. rewrite (alike_name _ _ Ht), (alike_name _ _ Hv). destruct (_ <? 0); by repeat constructor.
Qed.

#[global] Instance create_sub_proper nm time link : Proper (alike ==> alike_option) (create_sub nm time link).
Proof.
  intros t u Ht. unfold create_sub. assert (Hg : (alike ==> alike_option)%signature (fun t => Some (with_link (with_time t time) link)) (fun t => Some (with_link (with_time t time) link))).
  { intros v w Hv. constructor. by rewrite Hv. }
  destruct (alter_sub_alike nm _ _ _ _ Hg (alike_subs _ _ Ht)) as [l l' Hl|]; constructor; (apply with_subs_proper; [done|]); [done|]. apply place_sub_alike; [done|by apply alike_subs].
Qed.

#[global] Instance delete_sub_proper nm time : Proper (alike ==> alike_option) (delete_sub nm time).
Proof.
  intros t u Ht. unfold delete_sub. destruct (take_sub_alike nm _ _ (alike_subs _ _ Ht)) as [[v l] [v' l'] [Hv Hl]|]; [|constructor]. cbn in *.
  destruct (alike_subs _ _ Hv); constructor. apply with_time_proper; [|done]. by apply with_subs_proper.
Qed.

#[global] Instance rename_sub_proper nm time nm' : Proper (alike ==> alike_option) (rename_sub nm time nm').
Proof.
  intros t u Ht. unfold rename_sub. destruct (take_sub_alike nm _ _ (alike_subs _ _ Ht)) as [[v l] [v' l'] [Hv Hl]|]; [|constructor]. cbn in *.
  constructor. apply with_subs_proper; [done|]. apply place_sub_alike; [|done]. by rewrite Hv.
Qed.

(** Every change respects it. *)
#[global] Instance apply_proper ch : Proper (alike ==> alike_option) (apply ch).
Proof.
  intros t u Ht. destruct ch as [names time link|names time l|names time|names time nm|names time nm]; cbn [apply].
  - destruct (last names) as [nm|]; [|constructor; by rewrite Ht]. apply alter_at_proper; [apply create_sub_proper|done].
  - apply alter_at_proper; [|done]. intros v w Hv. constructor. rewrite (alike_values _ _ Hv). by rewrite Hv.
  - destruct (last names) as [nm|]; [|constructor]. apply alter_at_proper; [apply delete_sub_proper|done].
  - apply alter_at_proper; [|done]. intros v w Hv. constructor. rewrite (alike_values _ _ Hv). by rewrite Hv.
  - destruct (last names) as [nm'|]; [|constructor]. apply alter_at_proper; [apply rename_sub_proper|done].
Qed.

Lemma alike_option_Some (x y : option ktree) t : alike_option x y -> x = Some t -> exists u, y = Some u /\ alike t u.
Proof. intros [v w Hv|]; [|done]. intros [= ->]. by exists w. Qed.

Lemma alter_same names t u : alter_at names Some t = Some u -> u = t.
Proof.
  revert t u. induction names as [|nm names IH]; intros t u; cbn [alter_at]; [by intros [= ->]|]. destruct (alter_sub nm _ _) as [l|] eqn:E; [|done]. intros [= <-].
  apply alter_sub_Some in E as (l1 & v & l2 & v' & El & -> & Hv & _). apply IH in Hv as ->. rewrite <- El. apply with_subs_same.
Qed.

(** ** One key touched *)

Definition stamp (time : Z) t : option ktree := Some (with_time t time).

(** [u] is [t] but for the write time of the key [names] leads to. *)
Definition touched names t u : Prop := exists time, alter_at names (stamp time) t = Some u.

(** At most one write time differs. *)
Definition restamped t u : Prop := u = t \/ exists names, touched names t u.

Lemma touch_alike time : (alike ==> alike_option)%signature (stamp time) Some.
Proof. intros t u Ht. constructor. by rewrite alike_time. Qed.

Lemma touched_alike names t u : touched names t u -> alike t u.
Proof.
  intros [time Hu]. destruct (alike_option_Some _ _ _ (alter_at_proper names _ _ (touch_alike time) _ _ (reflexivity t)) Hu) as (v & Hv & Hal).
  apply alter_same in Hv as ->. by symmetry.
Qed.

Lemma restamped_alike t u : restamped t u -> alike t u.
Proof. intros [->|[names Hn]]; [done|by eapply touched_alike]. Qed.

Lemma alter_at_name names g t u : (forall v w, g v = Some w -> tree_name w = tree_name v) -> alter_at names g t = Some u -> tree_name u = tree_name t.
Proof.
  destruct names as [|nm names]; intros Hg; cbn [alter_at]; [by apply Hg|]. destruct (alter_sub _ _ _) as [l|]; [|done]. intros [= <-]. by destruct t.
Qed.

(** A change and a stamp of the same key, one after the other. *)
Lemma alter_then_stamp names g time t w : (forall v u, g v = Some u -> tree_name u = tree_name v) ->
  alter_at names (fun v => u ← g v; stamp time u) t = Some w -> exists u, alter_at names g t = Some u /\ alter_at names (stamp time) u = Some w.
Proof.
  intros Hg. revert t w. induction names as [|nm names IH]; intros t w; cbn [alter_at]; [destruct (g t) as [u|]; [intros E; by exists u|done]|].
  destruct (alter_sub nm _ (tree_subs t)) as [l|] eqn:E; [|done]. intros [= <-]. apply alter_sub_Some in E as (l1 & v & l2 & v2 & El & -> & Hv & Hl1 & Hnm).
  destruct (IH _ _ Hv) as (v1 & Hv1 & Hv2). exists (with_subs t (l1 ++ v1 :: l2)). rewrite El, alter_sub_at, Hv1 by done. split; [done|].
  assert (tree_subs (with_subs t (l1 ++ v1 :: l2)) = l1 ++ v1 :: l2) as -> by (by destruct t).
  rewrite alter_sub_at by (done || (by rewrite (alter_at_name _ _ _ _ Hg Hv1))). rewrite Hv2. cbn. by destruct t.
Qed.

Lemma create_sub_name nm (time : Z) (link : bool) t u : create_sub nm time link t = Some u -> tree_name u = tree_name t.
Proof. unfold create_sub. destruct (alter_sub _ _ _); intros [= <-]; by destruct t. Qed.
End alike.
