(* ===== verification/CmTouch.v ===== *)
(** * CmTouch: what a change of one key does to the keys that persist.

    The registry's primitives as changes of the persistent tree: a key rewritten
    in place, made, taken out, renamed; and that a volatile key changes nothing. *)

From S2P Require Import Prelude NtStatus Rtl CmTree CmReplay CmView CmSim CmSave CmLive CmAlike.

Section touching.
Context `{MACHINE}.
Implicit Types (s : CM) (a b c p root x : addr) (n k h m : CMP_KEY_NODE) (nm : list Z) (names : list (list Z)) (d : nat) (time : Z).

Abbreviation ptree := (tree_of persistent) (only parsing).
Abbreviation pkept s := (filter (fun c => kept persistent s c = true)) (only parsing).

Lemma list_filter_iff_in {A} (P Q : A -> Prop) `{forall y, Decision (P y)} `{forall y, Decision (Q y)} (l : list A) : (forall y, y ∈ l -> P y <-> Q y) -> filter P l = filter Q l.
Proof.
  induction l as [|y l IH]; intros Hl; [done|]. rewrite !filter_cons. pose proof (Hl y ltac:(left)) as Hy. rewrite IH by (intros; apply Hl; by right). repeat case_decide; tauto || done.
Qed.

(** Keys that agree on what persists have one persistent tree. *)
Lemma persistent_same x s s' a : tree_ok x s -> tree_ok x s' -> is_Some (nodes s !! a) -> kept persistent s a = true ->
  (forall b n, nodes s !! b = Some n -> persistent n = true -> exists n', nodes s' !! b = Some n' /\ name n' = name n /\ lastWriteTime n' = lastWriteTime n /\ isLink n' = isLink n /\ values n' = values n /\
    pkept s' (subkeys n') = pkept s (subkeys n)) ->
  ptree s' a = ptree s a.
Proof.
  intros T T' Ha Hk Hs. revert Hk. apply (tree_induction x s) with (a := a); [done| |done]. clear a Ha. intros a n E IH Hk.
  assert (Hp : persistent n = true) by (unfold kept in Hk; by rewrite E in Hk). destruct (Hs _ _ E Hp) as (n' & E' & Hn & Ht & Hl & Hv & Hf).
  rewrite (tree_of_eq x persistent s a n), (tree_of_eq x persistent s' a n') by done. rewrite Hn, Ht, Hl, Hv, Hf. apply (f_equal (Key _ _ _ _)), fmap_ext_in.
  intros c [Hc1 Hc2]%list_elem_of_filter. by apply IH.
Qed.

(** A sibling of the key that changes. *)
Lemma sibling_view x keep s s' p h a c : tree_ok x s -> tree_ok x s' -> nodes s !! p = Some h -> c ∈ subkeys h -> c <> a -> (a ∈ subkeys h \/ nodes s !! a = None) ->
  (forall b, b <> p -> b <> a -> nodes s' !! b = nodes s !! b) -> tree_of keep s' c = tree_of keep s c /\ kept keep s' c = kept keep s c.
Proof.
  intros T T' Ep Hc Hca Ha Ho. assert (B : forall b, below s c b -> nodes s' !! b = nodes s !! b).
  { intros b Hb. apply Ho.
    - intros ->. by apply (child_not_above _ _ _ _ _ T Ep Hc).
    - intros ->. destruct Ha as [Ha|Ha].
      + destruct (tr_depth _ _ T _ _ Ep) as (d & _ & D). apply Hca. exact (below_disjoint x s c a a (S d) T (child_depth _ _ _ _ _ _ T Ep Hc D) (child_depth _ _ _ _ _ _ T Ep Ha D) Hb (below_top _ _)).
      + destruct (below_exists x s c a T (subkeys_exist _ _ _ _ _ T Ep Hc) Hb) as [? ?]. congruence. }
  split; [apply (tree_same x x); [done|done|by apply (subkeys_exist x s p h c)|done]|]. unfold kept. by rewrite (B c (below_top _ _)).
Qed.

Lemma siblings_view x keep s s' p h a (l : list addr) : tree_ok x s -> tree_ok x s' -> nodes s !! p = Some h -> (forall c, c ∈ l -> c ∈ subkeys h /\ c <> a) -> (a ∈ subkeys h \/ nodes s !! a = None) ->
  (forall b, b <> p -> b <> a -> nodes s' !! b = nodes s !! b) ->
  tree_of keep s' <$> filter (fun c => kept keep s' c = true) l = tree_of keep s <$> filter (fun c => kept keep s c = true) l.
Proof.
  intros T T' Ep Hl Ha Ho. induction l as [|c l IH]; [done|]. destruct (Hl c) as [Hc Hca]; [left|]. destruct (sibling_view x keep s s' p h a c T T' Ep Hc Hca Ha Ho) as [Et Ek].
  rewrite !filter_cons, Ek. specialize (IH ltac:(intros; apply Hl; by right)). case_decide; [|done]. by rewrite !fmap_cons, Et, IH.
Qed.

(** *** A key rewritten in place *)

Lemma info_view x s s' a n n' : tree_ok x s -> tree_ok x s' -> nodes s !! a = Some n -> nodes s' = <[a := n']> (nodes s) -> subkeys n' = subkeys n ->
  ptree s' a = Key (name n') (lastWriteTime n') (isLink n') (values n') (tree_subs (ptree s a)).
Proof.
  intros T T' E N Hs. rewrite (tree_of_eq x persistent s' a n') by (done || (rewrite N; by rewrite lookup_insert_eq)). rewrite (tree_of_eq x persistent s a n) by done. cbn [tree_subs]. rewrite Hs.
  apply (f_equal (Key _ _ _ _)). apply (siblings_view x persistent s s' a n 0); try done.
  - intros c Hc. split; [done|]. intros ->. destruct (subkeys_exist _ _ _ _ _ T E Hc) as [? E0]. by destruct (tree_nonzero _ _ _ _ T E0).
  - right. destruct (nodes s !! 0) eqn:E0; [|done]. by destruct (tree_nonzero _ _ _ _ T E0).
  - intros b Hb _. by rewrite N, lookup_insert_ne.
Qed.
(** *** A key made *)

(** In a sorted list everything behind a name's place sorts after it. *)
Lemma linked_after x s p h a nm l : tree_ok x s -> nodes s !! p = Some h -> linked s p h a nm l -> StronglySorted name_before (key_name s <$> subkeys h) -> exists l1 l2, l = l1 ++ a :: l2 /\ subkeys h = l1 ++ l2 /\
  (forall c m, c ∈ l1 -> nodes s !! c = Some m -> ~ name_before nm (name m)) /\ (forall c m, c ∈ l2 -> nodes s !! c = Some m -> name_before nm (name m)).
Proof.
  intros T Eh (l1 & l2 & -> & Hl & O1 & O2) Hs. exists l1, l2. split; [done|]. split; [done|]. split; [done|]. intros c m Hc Em.
  destruct l2 as [|z l2]; [by apply not_elem_of_nil in Hc|]. destruct (subkeys_exist x s p h z T Eh) as [i Ei]; [rewrite Hl; set_solver|]. pose proof (O2 z i eq_refl Ei) as Hz.
  apply elem_of_cons in Hc as [->|Hc]; [congruence|]. rewrite Hl, fmap_app, fmap_cons in Hs. assert (S2 : StronglySorted name_before (key_name s z :: (key_name s <$> l2))).
  { clear -Hs. induction (key_name s <$> l1) as [|w l IH]; [done|]. cbn in Hs. apply StronglySorted_inv in Hs as [Hs _]. by apply IH. }
  apply StronglySorted_inv in S2 as [_ S2]. rewrite Forall_fmap, Forall_forall in S2. specialize (S2 c Hc). cbn in S2. rewrite (key_name_eq _ _ _ Ei), (key_name_eq _ _ _ Em) in S2. by eapply name_before_trans.
Qed.

(** The parent's list with a new entry, as the persistent tree sees it. *)
Lemma linked_view x s s' p h h' a k l : tree_ok x s -> tree_ok x s' -> nodes s !! p = Some h -> nodes s !! a = None -> linked s p h a (name k) l ->
  StronglySorted name_before (key_name s <$> subkeys h) -> (forall c m, c ∈ subkeys h -> nodes s !! c = Some m -> fold_name (name m) <> fold_name (name k)) ->
  nodes s' = <[p := h']> (<[a := k]> (nodes s)) -> subkeys h' = l -> name h' = name h -> isLink h' = isLink h -> values h' = values h -> subkeys k = [] -> values k = [] ->
  (if persistent k then u ← create_sub (name k) (lastWriteTime k) (isLink k) (ptree s p); Some (with_time u (lastWriteTime h')) else Some (with_time (ptree s p) (lastWriteTime h'))) = Some (ptree s' p).
Proof.
  intros T T' Eh Ea Hlink Hsort Hno N Hs Hn Hlk Hv Hks Hkv. pose proof (linked_after x s p h a (name k) l T Eh Hlink Hsort) as (l1 & l2 & -> & Hl & O1 & O2). clear Hlink. assert (Hpa : p <> a) by congruence.
  assert (Ep2 : nodes s' !! p = Some h') by (rewrite N; by rewrite lookup_insert_eq). assert (Ea2 : nodes s' !! a = Some k) by (rewrite N, lookup_insert_ne, lookup_insert_eq; done).
  assert (Hex : forall c, c ∈ subkeys h -> exists m, nodes s !! c = Some m) by (intros c Hc; by destruct (subkeys_exist _ _ _ _ _ T Eh Hc); eauto).
  assert (Hna : a ∉ subkeys h). { intros Hc. destruct (Hex a Hc). congruence. }
  assert (Same : forall l : list addr, (forall c, c ∈ l -> c ∈ subkeys h) -> ptree s' <$> pkept s' l = ptree s <$> pkept s l).
  { intros l Hsub. apply (siblings_view x persistent s s' p h a l); [done|done|done| |by right|].
    - intros c Hc%Hsub. split; [done|]. intros ->. done.
    - intros b Hb1 Hb2. by rewrite N, !lookup_insert_ne. }
  rewrite (tree_of_eq x persistent s' p h'), (tree_of_eq x persistent s p h) by done. rewrite Hs, Hn, Hlk, Hv, Hl, !filter_app, filter_cons. assert (Hka : kept persistent s' a = persistent k) by (unfold kept; by rewrite Ea2).
  rewrite !fmap_app, (Same l1) by (intros; rewrite Hl; set_solver). destruct (persistent k) eqn:Hp.
  - rewrite decide_True, fmap_cons, (Same l2) by (done || (intros; rewrite Hl; set_solver)). rewrite (tree_of_eq x persistent s' a k) by done. rewrite Hks, Hkv. unfold create_sub. cbn [tree_subs with_subs filter list_filter fmap list_fmap]. rewrite alter_sub_miss.
    2: { rewrite <- fmap_app, <- filter_app, <- Hl. apply Forall_fmap, Forall_forall. intros c [_ Hc]%list_elem_of_filter. destruct (Hex c Hc) as [m Em]. cbn. rewrite (name_of_tree x persistent s c m) by done. by eapply Hno. }
    cbn [mbind option_bind with_time]. apply (f_equal Some), (f_equal (Key _ _ _ _)). apply place_sub_at.
    + apply Forall_fmap, Forall_forall. intros c [_ Hc]%list_elem_of_filter. destruct (Hex c) as [m Em]; [rewrite Hl; set_solver|]. specialize (O1 c m Hc Em). unfold name_before in O1. cbn [tree_name compose].
      change (0 <= name_order (name k) (tree_name (ptree s c))). rewrite (name_of_tree x persistent s c m) by done. lia.
    + intros u Hu. apply head_Some_elem_of in Hu. apply list_elem_of_fmap in Hu as (c & -> & [_ Hc]%list_elem_of_filter). destruct (Hex c) as [m Em]; [rewrite Hl; set_solver|]. cbn [tree_name]. rewrite (name_of_tree x persistent s c m) by done. exact (O2 c m Hc Em).
  - rewrite decide_False by congruence. rewrite (Same l2) by (intros; rewrite Hl; set_solver). done.
Qed.
(** *** A key taken out *)

Lemma take_sub_at nm (l1 : list ktree) u (l2 : list ktree) : Forall (fun t => fold_name (tree_name t) <> fold_name nm) l1 -> fold_name (tree_name u) = fold_name nm -> take_sub nm (l1 ++ u :: l2) = Some (u, l1 ++ l2).
Proof.
  intros Hl Hu. induction Hl as [|t l1 Ht Hl IH]; cbn [take_sub app]; [by rewrite bool_decide_eq_true_2|]. by rewrite bool_decide_eq_false_2, IH.
Qed.

(** The key's place among the siblings that persist. *)
Lemma take_child x s p h a k (l1 l2 : list addr) : tree_ok x s -> nodes s !! p = Some h -> nodes s !! a = Some k -> subkeys h = l1 ++ a :: l2 -> persistent k = true -> StronglySorted name_before (key_name s <$> subkeys h) ->
  take_sub (name k) (tree_subs (ptree s p)) = Some (ptree s a, (ptree s <$> pkept s l1) ++ (ptree s <$> pkept s l2)).
Proof.
  intros T Eh Ek Hl Hp Hs. rewrite (tree_of_eq x persistent s p h) by done. cbn [tree_subs]. rewrite Hl, filter_app, filter_cons, decide_True, fmap_app, fmap_cons by (unfold kept; by rewrite Ek).
  apply take_sub_at; [|by rewrite (name_of_tree x persistent s a k)]. apply Forall_fmap, Forall_forall. intros c [_ Hc]%list_elem_of_filter. destruct (subkeys_exist x s p h c T Eh) as [m Em]; [rewrite Hl; set_solver|].
  cbn [compose]. change (fold_name (tree_name (ptree s c)) <> fold_name (name k)). rewrite (name_of_tree x persistent s c m) by done. rewrite Hl in Hs. apply (sorted_names s l1 l2 a c k m); [done|set_solver|done|done].
Qed.

Lemma deleted_view x s s' p h h' a k k' : tree_ok x s -> tree_ok x s' -> nodes s !! p = Some h -> a ∈ subkeys h -> nodes s !! a = Some k -> subkeys k = [] -> StronglySorted name_before (key_name s <$> subkeys h) ->
  nodes s' = <[a := k']> (<[p := h']> (nodes s)) -> subkeys h' = unlink a (subkeys h) -> name h' = name h -> isLink h' = isLink h -> values h' = values h ->
  (if persistent k then delete_sub (name k) (lastWriteTime h') (ptree s p) else Some (with_time (ptree s p) (lastWriteTime h'))) = Some (ptree s' p).
Proof.
  intros T T' Eh Hin Ek Hks Hsort N Hs Hn Hlk Hv. pose proof (nk_subkeys _ (tr_node _ _ T _ _ Eh)) as Hnd. assert (Hpa : p <> a) by (intros ->; by destruct (not_own_child _ _ _ _ T Eh)).
  pose proof Hin as Hin'. apply list_elem_of_split in Hin' as (l1 & l2 & Hl). rewrite Hl, unlink_middle in Hs by (by rewrite <- Hl).
  assert (Ep2 : nodes s' !! p = Some h') by (rewrite N, lookup_insert_ne, lookup_insert_eq; done).
  assert (Same : forall l : list addr, (forall c, c ∈ l -> c ∈ l1 ++ l2) -> ptree s' <$> pkept s' l = ptree s <$> pkept s l).
  { intros l Hsub. apply (siblings_view x persistent s s' p h a l); [done|done|done| |by left|].
    - intros c Hc%Hsub. split; [rewrite Hl; set_solver|]. intros ->. rewrite Hl in Hnd. apply NoDup_app in Hnd as (_ & Hd1 & Hd2). apply NoDup_cons in Hd2 as [Hd2 _]. set_solver.
    - intros b Hb1 Hb2. by rewrite N, !lookup_insert_ne. }
  assert (Ep' : ptree s' p = Key (name h) (lastWriteTime h') (isLink h) (values h) ((ptree s <$> pkept s l1) ++ (ptree s <$> pkept s l2))).
  { rewrite (tree_of_eq x persistent s' p h') by done. rewrite Hs, Hn, Hlk, Hv, filter_app, fmap_app, (Same l1), (Same l2) by set_solver. done. }
  destruct (persistent k) eqn:Hp.
  - unfold delete_sub. rewrite (take_child x s p h a k l1 l2) by done. cbn [mbind option_bind]. rewrite (tree_of_eq x persistent s a k), Hks by done. cbn [tree_subs filter list_filter fmap list_fmap].
    rewrite Ep', (tree_of_eq x persistent s p h) by done. done.
  - rewrite Ep', (tree_of_eq x persistent s p h) by done. cbn [with_time]. rewrite Hl, filter_app, filter_cons, decide_False, fmap_app; [done|]. unfold kept. rewrite Ek. congruence.
Qed.

(** *** A key renamed *)

Lemma renamed_view x s s' p h h' a k k' l : tree_ok x s -> tree_ok x s' -> nodes s !! p = Some h -> a ∈ subkeys h -> nodes s !! a = Some k -> StronglySorted name_before (key_name s <$> subkeys h) ->
  linked s p (h <| subkeys := unlink a (subkeys h) |>) a (name k') l -> nodes s' = <[a := k']> (<[p := h']> (nodes s)) ->
  subkeys h' = l -> name h' = name h -> isLink h' = isLink h -> values h' = values h -> lastWriteTime h' = lastWriteTime h ->
  subkeys k' = subkeys k -> isLink k' = isLink k -> values k' = values k -> isVolatile k' = isVolatile k ->
  (if persistent k then rename_sub (name k) (lastWriteTime k') (name k') (ptree s p) else Some (ptree s p)) = Some (ptree s' p).
Proof.
  intros T T' Eh Hin Ek Hsort Hlink N Hs Hn Hlk Hv Ht Hks Hkl Hkv Hkp. pose proof (nk_subkeys _ (tr_node _ _ T _ _ Eh)) as Hnd. assert (Hpa : p <> a) by (intros ->; by destruct (not_own_child _ _ _ _ T Eh)).
  pose proof Hin as Hin'. apply list_elem_of_split in Hin' as (m1 & m2 & Hl). assert (Hu : unlink a (subkeys h) = m1 ++ m2) by (rewrite Hl; apply unlink_middle; by rewrite <- Hl).
  destruct Hlink as (l1 & l2 & -> & Hl' & O1 & O2'). cbn in Hl'. rewrite Hu in Hl'.
  assert (Ep2 : nodes s' !! p = Some h') by (rewrite N, lookup_insert_ne, lookup_insert_eq; done). assert (Ea2 : nodes s' !! a = Some k') by (rewrite N; by rewrite lookup_insert_eq).
  assert (Hex : forall c, c ∈ l1 ++ l2 -> exists i, nodes s !! c = Some i) by (intros c Hc; rewrite <- Hl' in Hc; destruct (subkeys_exist x s p h c T Eh) as [i ?]; [rewrite Hl; set_solver|eauto]).
  assert (O2 : forall c m, c ∈ l2 -> nodes s !! c = Some m -> name_before (name k') (name m)).
  { intros c m Hc Em. destruct l2 as [|z l2]; [by apply not_elem_of_nil in Hc|]. destruct (Hex z) as [i Ei]; [set_solver|]. pose proof (O2' z i eq_refl Ei) as Hz. apply elem_of_cons in Hc as [->|Hc]; [congruence|].
    assert (S2 : StronglySorted name_before (key_name s <$> (m1 ++ m2))). { rewrite Hl, fmap_app, fmap_cons in Hsort. rewrite fmap_app. clear -Hsort. induction (key_name s <$> m1) as [|w q IH]; cbn in *; [by apply StronglySorted_inv in Hsort as [? _]|].
      apply StronglySorted_inv in Hsort as [S Hw]. constructor; [by apply IH|]. apply Forall_app in Hw as [Hw1 Hw2]. apply Forall_app. split; [done|]. by apply Forall_inv_tail in Hw2. }
    rewrite Hl', fmap_app, fmap_cons in S2. assert (S3 : StronglySorted name_before (key_name s z :: (key_name s <$> l2))). { clear -S2. induction (key_name s <$> l1) as [|w q IH]; [done|]. cbn in S2. apply StronglySorted_inv in S2 as [S2 _]. by apply IH. }
    apply StronglySorted_inv in S3 as [_ S3]. rewrite Forall_fmap, Forall_forall in S3. specialize (S3 c Hc). cbn in S3. rewrite (key_name_eq _ _ _ Ei), (key_name_eq _ _ _ Em) in S3. by eapply name_before_trans. }
  assert (Same : forall l : list addr, (forall c, c ∈ l -> c ∈ l1 ++ l2) -> ptree s' <$> pkept s' l = ptree s <$> pkept s l).
  { intros l Hsub. apply (siblings_view x persistent s s' p h a l); [done|done|done| |by left|].
    - intros c Hc%Hsub. rewrite <- Hl' in Hc. split; [rewrite Hl; set_solver|]. intros ->. rewrite Hl in Hnd. apply NoDup_app in Hnd as (_ & Hd1 & Hd2). apply NoDup_cons in Hd2 as [Hd2 _]. set_solver.
    - intros b Hb1 Hb2. by rewrite N, !lookup_insert_ne. }
  assert (Eold : (ptree s <$> pkept s m1) ++ (ptree s <$> pkept s m2) = (ptree s <$> pkept s l1) ++ (ptree s <$> pkept s l2)) by (rewrite <- !fmap_app, <- !filter_app; by rewrite Hl').
  assert (Hka : kept persistent s' a = persistent k) by (unfold kept, persistent; rewrite Ea2; by rewrite Hkp).
  rewrite (tree_of_eq x persistent s' p h') by done. rewrite Hs, Hn, Hlk, Hv, Ht, filter_app, filter_cons, Hka, fmap_app, (Same l1) by set_solver. destruct (persistent k) eqn:Hp.
  - rewrite decide_True, fmap_cons, (Same l2) by (done || set_solver). unfold rename_sub. rewrite (take_child x s p h a k m1 m2) by done. cbn [mbind option_bind]. rewrite Eold.
    assert (Ta : ptree s' a = with_time (with_name (ptree s a) (name k')) (lastWriteTime k')).
    { rewrite (tree_of_eq x persistent s' a k'), (tree_of_eq x persistent s a k) by done. rewrite Hks, Hkl, Hkv. cbn [with_time with_name]. apply (f_equal (Key _ _ _ _)).
      assert (B : forall c b, c ∈ subkeys k -> below s c b -> nodes s' !! b = nodes s !! b).
      { intros c b Hc Hb. rewrite N, !lookup_insert_ne; [done| |]; intros <-.
        - apply (child_not_above _ _ _ _ _ T Eh Hin). by apply (below_up s a k c).
        - by apply (child_not_above _ _ _ _ _ T Ek Hc). }
      assert (Kc : pkept s' (subkeys k) = pkept s (subkeys k)).
      { apply list_filter_iff_in. intros c Hc. unfold kept. by rewrite (B c c Hc (below_top _ _)). }
      rewrite Kc. apply fmap_ext_in. intros c [_ Hc]%list_elem_of_filter. apply (tree_same x x); [done|done|by apply (subkeys_exist x s a k c)|]. intros b. by apply B. }
    rewrite <- Ta, (tree_of_eq x persistent s p h) by done. cbn [with_subs]. apply (f_equal Some), (f_equal (Key _ _ _ _)).
    assert (Hna : tree_name (ptree s' a) = name k') by (by rewrite (name_of_tree x persistent s' a k')). apply place_sub_at; rewrite Hna.
    + apply Forall_fmap, Forall_forall. intros c [_ Hc]%list_elem_of_filter. destruct (Hex c) as [i Ei]; [set_solver|]. specialize (O1 c i Hc Ei). unfold name_before in O1. change (0 <= name_order (name k') (tree_name (ptree s c))). rewrite (name_of_tree x persistent s c i) by done. lia.
    + intros u Hu'. apply head_Some_elem_of in Hu'. apply list_elem_of_fmap in Hu' as (c & -> & [_ Hc]%list_elem_of_filter). destruct (Hex c) as [i Ei]; [set_solver|]. rewrite (name_of_tree x persistent s c i) by done. exact (O2 c i Hc Ei).
  - rewrite decide_False by congruence. rewrite (Same l2) by set_solver. rewrite <- Eold, (tree_of_eq x persistent s p h) by done. rewrite Hl, filter_app, filter_cons, decide_False, fmap_app; [done|]. unfold kept. rewrite Ek. congruence.
Qed.
End touching.
