(* ===== verification/CmDurable.v ===== *)
(** * CmDurable: nothing the registry changes is lost in silence
    (kernel/cm/registry.c, hive.c).

    Every service that changes a key that persists appends the record of exactly
    that change, or tells the console that it could not; so the log file replays
    to the tree the running registry has. *)

From S2P Require Import Prelude NtStatus Rtl Bytes CmTree CmHive CmReplay CmView CmLog CmSim CmRecover CmSave CmResolve CmRegistry CmLive CmAlike CmTouch.

(** ** One record appended *)

Section appending.
Context `{MACHINE} `{VOLUME}.
Implicit Types (r : REG) (s : CM) (a top node : addr) (n : CMP_KEY_NODE) (ch : change) (nm path : list Z) (v : CMP_VALUE).

(** What a log call may not touch. *)
Record same_tree r r' : Prop := {
  sa_nodes : nodes (cm r') = nodes (cm r);
  sa_allocations : (allocations (cm r) <= allocations (cm r'))%nat;
  sa_root : CmpRootNode r' = CmpRootNode r;
  sa_bodies : bodies r' = bodies r;
  sa_ready : CmpHiveReady r' = CmpHiveReady r;
  sa_bytes : CmpHiveLogBytes r <= CmpHiveLogBytes r';
}.

Lemma same_tree_refl r : same_tree r r.
Proof. by split. Qed.

Lemma same_tree_trans r1 r2 r3 : same_tree r1 r2 -> same_tree r2 r3 -> same_tree r1 r3.
Proof. intros [? ? ? ? ? ?] [? ? ? ? ? ?]. split; congruence || lia. Qed.

(** The console's list only grows; a warning given is on it. *)
Definition heard r r' : Prop := (announced r' = [] -> announced r = []) /\ ((CmpHiveWarned r = true -> announced r <> []) -> CmpHiveWarned r' = true -> announced r' <> []).

Lemma heard_trans r1 r2 r3 : heard r1 r2 -> heard r2 r3 -> heard r1 r3.
Proof. intros [H1 H2] [H3 H4]. split; [by intros ?%H3%H1|]. intros Hw. apply H4, H2, Hw. Qed.

Lemma heard_same r r' : announced r' = announced r -> CmpHiveWarned r' = CmpHiveWarned r -> heard r r'.
Proof. intros E1 E2. unfold heard. by rewrite E1, E2. Qed.

(** Unless the console was told, the file is longer by the record of [ch]. *)
Definition appended r r' ch : Prop := announced r' = [] -> CmpHiveWarned r = false -> file r' = file r ++ change_bytes ch /\
  CmpHiveLogBytes r' = CmpHiveLogBytes r + Z.of_nat (length (change_bytes ch)) /\ CmpHiveLogBytes r' <= CMP_HIVE_MAX_BYTES.

(** The bytes of a record's tail as the services give them. *)
Definition call_tail (value : option CMP_VALUE) (tailName : option (list Z)) : list Z :=
  match value, tailName with Some v, _ => value_bytes v | None, Some nm => padded (name_tail nm) | None, None => [] end.

Lemma call_tail_change ch value tailName : padded (change_tail ch) = call_tail value tailName -> record_bytes (change_op ch) (change_flags ch) (join (change_names ch)) (change_time ch) (change_count ch) (call_tail value tailName) = change_bytes ch.
Proof.
  intros E. unfold change_bytes, record_bytes. cbv zeta. assert (Eb : forall op flags path time count, record_body op flags path time count (call_tail value tailName) = record_body op flags path time count (change_tail ch)).
  { intros. rewrite !record_body_eq. f_equal. rewrite <- E. apply padded_aligned, padded_mod. }
  by rewrite !Eb.
Qed.

Lemma emits_pass s op flags node top captured time value tailName path off : record_path s node top captured = Ok path -> off mod 8 = 0 ->
  emits off (fun w => record_pass s w op flags node top captured time value tailName)
    (record_bytes op flags path time (match value with Some _ => 1 | None => 0 end) (call_tail value tailName)).
Proof.
  intros Hp Hm. unfold record_pass. apply (emits_record s op flags node top captured time (match value with Some _ => 1 | None => 0 end) path (fun w => match value, tailName with Some v, _ => CmpWriteValue w v | None, Some nm => w ← CmpWrite16 w (u16 (Z.of_nat (length nm))); w ← CmpWrite16 w 0; w ← CmpWriteBytes w (unit_bytes nm); CmpWritePad w | None, None => Ok w end)); [done|done|].
  intros o Ho. unfold call_tail. destruct value as [v|]; [by apply emits_value|]. destruct tailName as [nm|]; [|apply emits_nil].
  eapply emits_eq; [|reflexivity|].
  2: { apply (emits_padded o (fun w => w ← (w ← CmpWrite16 w (u16 (Z.of_nat (length nm))); CmpWrite16 w 0); CmpWriteBytes w (unit_bytes nm)) (name_tail nm)); [done|]. unfold name_tail. rewrite app_assoc.
    eapply (emits_seq o _ (fun w => CmpWriteBytes w (unit_bytes nm))); [eapply (emits_seq o _ (fun w => CmpWrite16 w 0)); apply emits_bytes|apply emits_bytes]. }
  intros w. cbv beta. destruct (CmpWrite16 w _) as [w1| | |]; [|done..]. run. destruct (CmpWrite16 w1 0) as [w2| | |]; [|done..]. run. done.
Qed.

Lemma CmpLogRecord_spec r ch op flags node captured stamp value tailName : CmpHiveReady r = true ->
  record_path (cm r) node (CmpRootNode r) captured = Ok (join (change_names ch)) -> (forall s, nodes s = nodes (cm r) -> record_path s node (CmpRootNode r) captured = record_path (cm r) node (CmpRootNode r) captured) ->
  op = change_op ch -> flags = change_flags ch -> stamp = change_time ch -> (match value with Some _ => 1 | None => 0 end) = change_count ch -> padded (change_tail ch) = call_tail value tailName ->
  exists r', CmpLogRecord r op flags node captured stamp value tailName = Ok r' /\ same_tree r r' /\ heard r r' /\ appended r r' ch /\
    reads (cm r') = reads (cm r) /\ notified (cm r') = notified (cm r).
Proof.
  intros Hr Hp Hext -> -> -> Hc Ht. unfold CmpLogRecord. rewrite Hr. cbn [negb].
  pose proof (emits_pass (cm r) (change_op ch) (change_flags ch) node (CmpRootNode r) captured (change_time ch) value tailName _ 0 Hp eq_refl) as W. rewrite Hc, (call_tail_change ch value tailName Ht) in W.
  set (bytes := change_bytes ch) in *. assert (Hlen : 0 < Z.of_nat (length bytes)). { unfold bytes, change_bytes. rewrite record_length. lia. }
  pose proof (W true [] (repeat 0 (length bytes)) eq_refl) as W1. rewrite repeat_length in W1. specialize (W1 (le_n _)). unfold writer_at in W1. cbn [length app] in W1. change (Z.of_nat 0) with 0 in W1. rewrite W1. run. cbn [offset].
  destruct (Z.ltb_spec CMP_HIVE_MAX_BYTES (CmpHiveLogBytes r + Z.of_nat (length bytes))) as [|Hmax].
  { eexists. split; [done|]. split; [by split|]. split; [by split|]. split; [done|]. done. }
  unfold pool_allocate. destruct (Z.eqb_spec (Z.of_nat (length bytes)) 0) as [|_]; [lia|]. run. set (s1 := set_field allocations _ (cm r)). destruct (pool_answers (allocations (cm r))).
  2: { eexists. split; [done|]. split; [split; try done; cbn; lia|]. split; [by split|]. split; [done|]. done. }
  destruct (Z.eqb_spec (Z.of_nat (S (allocations (cm r)))) 0) as [|_]; [lia|]. cbn [CmpRootNode]. rewrite Nat2Z.id.
  pose proof (emits_pass s1 (change_op ch) (change_flags ch) node (CmpRootNode r) captured (change_time ch) value tailName (join (change_names ch)) 0) as W2. rewrite Hc, (call_tail_change ch value tailName Ht) in W2. fold bytes in W2.
  specialize (W2 ltac:(by rewrite Hext) eq_refl). pose proof (W2 false [] (repeat 0 (length bytes)) eq_refl) as W3. rewrite repeat_length in W3. specialize (W3 (le_n _)). unfold writer_at in W3. cbn [length app] in W3. change (Z.of_nat 0) with 0 in W3.
  rewrite drop_ge, app_nil_r in W3 by (by rewrite repeat_length). match goal with |- context [record_pass s1 ?w ?o ?f ?nd ?tp] => change tp with (CmpRootNode r) end. rewrite W3. run. cbn [offset buffer]. rewrite Z.eqb_refl. run. unfold CmpAppendToHiveFile. cbv zeta. cbn [writes file].
  match goal with |- context [NT_SUCCESS ?x] => set (st := x) end. destruct (NT_SUCCESS st) eqn:Est.
  - eexists. split; [done|]. match goal with |- same_tree r ?x /\ _ => set (r2 := x) end.
    assert (F : forall r0 : REG, r0 = r2 -> same_tree r r0 /\ heard r r0 /\ appended r r0 ch /\ reads (cm r0) = reads (cm r) /\ notified (cm r0) = notified (cm r)); [|by apply F].
    intros r0 ->. unfold r2. match goal with |- context [if ?b then _ else _] => destruct b end;
      (split; [split; try done; [apply Nat.le_succ_diag_r|change (CmpHiveLogBytes r <= CmpHiveLogBytes r + Z.of_nat (length bytes)); lia]|]; split; [by apply heard_same|]; split; [|done]; intros _ _; split; [reflexivity|]; split; [reflexivity|exact Hmax]).
  - match goal with |- context [negb (CmpHiveWarned ?x)] => change (CmpHiveWarned x) with (CmpHiveWarned r) end. eexists. split; [done|].
    destruct (CmpHiveWarned r) eqn:Ew; cbn [negb]; (split; [split; try done; apply Nat.le_succ_diag_r|]; split; [|split; [|done]]).
    + apply heard_same; done.
    + intros _ Hw. congruence.
    + split; [done|]. done.
    + done.
Qed.
(** A record leaves every key as it is, whatever comes of it. *)
Lemma CmpLogRecord_nodes r r' op flags node captured stamp value tailName : CmpLogRecord r op flags node captured stamp value tailName = Ok r' -> nodes (cm r') = nodes (cm r).
Proof.
  unfold CmpLogRecord. destruct (negb _); [by intros [= <-]|]. destruct (record_pass _ _ _ _ _ _ _ _ _ _) as [m| | |]; cbn [mbind outcome_bind]; try done. destruct (_ <? _); [by intros [= <-]|].
  unfold pool_allocate. destruct (offset m =? 0); cbn [mbind outcome_bind]; [done|]. destruct (_ =? 0); [by intros [= <-]|]. destruct (record_pass _ _ _ _ _ _ _ _ _ _) as [e| | |]; cbn [mbind outcome_bind]; try done.
  unfold ASSERT. destruct (offset e =? _); cbn [mbind outcome_bind]; [|done]. destruct (buffer e); cbn [deref mbind outcome_bind]; [|done]. unfold CmpAppendToHiveFile. cbv zeta. cbn beta iota.
  repeat match goal with |- context [if ?b then _ else _] => destruct b end; by intros [= <-].
Qed.
End appending.

(** ** What a call may do *)

(** With the record it writes, if it writes one: from the tree that record makes
    to the tree that persists after the call. *)
Definition effect : Type := option change -> ktree -> ktree -> Prop.

(** The record says everything, and is one of [P]. *)
Definition exactly (P : change -> Prop) : effect := fun written t t' => t' = t /\ match written with Some ch => P ch | None => True end.

(** No record, and nothing that persists changed. *)
Definition nothing : effect := exactly (fun _ => False).

(** A key made: the record says all but the new write time of the parent; without
    a record - a volatile key - only that write time changed. *)
Definition creates : effect := fun written t t' =>
  match written with
  | Some ch => exists names nm time link, ch = Create (names ++ [nm]) time link /\ touched names t t'
  | None => restamped t t'
  end.

(** A key taken out: the record says everything; without a record - a volatile
    key - only the parent's write time changed. *)
Definition removes : effect := fun written t t' =>
  match written with
  | Some ch => t' = t /\ exists names time, ch = DeleteKey names time
  | None => restamped t t'
  end.

(** Doing nothing is allowed. *)
Class Still (W : effect) : Prop := still : forall t, W None t t.

#[export] Instance exactly_still P : Still (exactly P).
Proof. by intros t. Qed.
#[export] Instance creates_still : Still creates.
Proof. intros t. by left. Qed.
#[export] Instance removes_still : Still removes.
Proof. intros t. by left. Qed.

#[export] Hint Resolve exactly_still creates_still removes_still : core.

(** ** The invariant of the calls *)

Section calls.
Context `{MACHINE} `{VOLUME}.
Implicit Types (r : REG) (s : CM) (a p c : addr) (n k h : CMP_KEY_NODE) (ch : change) (nm path : list Z) (names : list (list Z)) (v : CMP_VALUE) (object : Z -> NTSTATUS + addr) (W : effect).

Definition opens r a : Z := Z.of_nat (length (filter (fun b => b = a) (bodies r))).

Record reg_ok r : Prop := {
  go_registry : registry_ok (CmpRootNode r) (cm r);
  go_bodies : forall a n, nodes (cm r) !! a = Some n -> bodyCount n = opens r a;
  go_open : forall a, a ∈ bodies r -> is_Some (nodes (cm r) !! a);
  go_stale : forall a n, nodes (cm r) !! a = Some n -> deleted n = true -> a ∈ bodies r;
  go_warned : CmpHiveWarned r = true -> announced r <> [];
  go_ready : CmpHiveReady r = true;
  go_bytes : 0 <= CmpHiveLogBytes r;
}.

Definition ptree r : ktree := tree_of persistent (cm r) (CmpRootNode r).

(** The file follows the tree: by nothing, or by the record of the change made.
    What the call did besides, as [W] allows it. *)
Definition settled (W : effect) r r' : Prop := announced r' = [] -> CmpHiveWarned r = false ->
  (file r' = file r /\ CmpHiveLogBytes r' = CmpHiveLogBytes r /\ W None (ptree r) (ptree r')) \/
  exists ch t, loggable 1 ch /\ apply ch (ptree r) = Some t /\ W (Some ch) t (ptree r') /\ file r' = file r ++ change_bytes ch /\
    CmpHiveLogBytes r' = CmpHiveLogBytes r + Z.of_nat (length (change_bytes ch)) /\ CmpHiveLogBytes r' <= CMP_HIVE_MAX_BYTES.

Record safe_step (W : effect) r r' : Prop := {
  ss_ok : reg_ok r';
  ss_root : CmpRootNode r' = CmpRootNode r;
  ss_heard : heard r r';
  ss_settled : settled W r r';
}.

(** The key a handle names has an open body. *)
Definition handle_ok r object : Prop := forall access a, object access = inr a -> a ∈ bodies r.

Lemma CmpReferenceKey_spec r object access allowDeleted : reg_ok r -> handle_ok r object -> exists x, CmpReferenceKey r object access allowDeleted = Ok x /\
  match x with inr a => a ∈ bodies r /\ exists n, nodes (cm r) !! a = Some n /\ (allowDeleted = false -> deleted n = false) | inl _ => True end.
Proof.
  intros G Hh. unfold CmpReferenceKey. destruct (object access) as [status|a] eqn:E; [by eexists|]. specialize (Hh _ _ E). destruct (go_open _ G _ Hh) as [n En].
  rewrite (get_Some _ _ _ En). run. eexists. split; [done|]. destruct (deleted n) eqn:Hd; [|by split; [|exists n]]. destruct allowDeleted; cbn [negb andb]; [|done]. split; [done|]. by exists n.
Qed.

(** Only the tree changed, and no key's bodies. *)
Lemma reg_ok_cm r s' : reg_ok r -> registry_ok (CmpRootNode r) s' ->
  (forall a n', nodes s' !! a = Some n' -> (nodes (cm r) !! a = None /\ bodyCount n' = 0 /\ deleted n' = false) \/
     exists n, nodes (cm r) !! a = Some n /\ bodyCount n' = bodyCount n /\ (deleted n' = true -> deleted n = true \/ a ∈ bodies r)) ->
  (forall a, is_Some (nodes (cm r) !! a) -> is_Some (nodes s' !! a)) -> reg_ok (r <| cm := s' |>).
Proof.
  intros G R' Hn Hs. split; try apply G; try done.
  - intros a n' E. destruct (Hn a n' E) as [(E0 & -> & _)|(n & En & -> & _)]; [|by apply G]. unfold opens. cbn. destruct (filter (fun b => b = a) (bodies r)) as [|b l] eqn:Ef; [done|].
    assert (b ∈ filter (fun b => b = a) (bodies r)) as [-> Hb]%list_elem_of_filter by (rewrite Ef; left). destruct (go_open _ G _ Hb). congruence.
  - intros a Ha. apply Hs. by apply G.
  - intros a n' E Hd. destruct (Hn a n' E) as [(_ & _ & ?)|(n & En & _ & Hdn)]; [congruence|]. destruct (Hdn Hd) as [Hd'|]; [|done]. exact (go_stale _ G _ _ En Hd').
Qed.

Lemma safe_refl W `{!Still W} r : reg_ok r -> safe_step W r r.
Proof. intros G. split; [done|done|by apply heard_same|]. intros _ _. left. split_and!; [done|done|apply still]. Qed.

(** No record, and the call allows what changed. *)
Lemma safe_silent W r s' : reg_ok r -> reg_ok (r <| cm := s' |>) -> W None (ptree r) (tree_of persistent s' (CmpRootNode r)) -> safe_step W r (r <| cm := s' |>).
Proof. intros G G' Ht. split; [done|done|by apply heard_same|]. intros _ _. left. done. Qed.

Lemma safe_same_nodes W `{!Still W} r s' : reg_ok r -> nodes s' = nodes (cm r) -> (allocations (cm r) <= allocations s')%nat -> safe_step W r (r <| cm := s' |>).
Proof.
  intros G N A. assert (R' : registry_ok (CmpRootNode r) s') by (by apply (registry_ext _ (cm r)); [..|apply G]).
  apply safe_silent; [done| |].
  - apply reg_ok_cm; [done|done| |by rewrite N]. intros a n'. rewrite N. intros E. right. exists n'. split; [done|]. split; [done|]. by left.
  - unfold ptree. rewrite (tree_same 0 0 persistent (cm r) s'); [apply still|apply G|apply R'| |by rewrite N]. destruct (rg_root _ _ (go_registry _ G)) as (n & E & _). eauto.
Qed.

(** The watchers told. *)
Lemma safe_notify W r r1 a x : safe_step W r r1 -> safe_step W r (on_cm r1 (fun s => CmpNotifyChange s a x)).
Proof.
  intros [G1 E1 H1 S1]. destruct (safe_same_nodes nothing r1 (CmpNotifyChange (cm r1) a x) G1 eq_refl (le_n _)) as [G2 E2 H2 S2]. change (on_cm r1 _) with (r1 <| cm := CmpNotifyChange (cm r1) a x |>).
  assert (Et : ptree (r1 <| cm := CmpNotifyChange (cm r1) a x |>) = ptree r1).
  { unfold ptree. apply (tree_same 0 0); [apply (rg_tree _ _ (go_registry _ G1))|apply (rg_tree _ _ (go_registry _ G2))| |done]. destruct (rg_root _ _ (go_registry _ G1)) as (n & E & _). eauto. }
  split; [done|done|by eapply heard_trans|]. unfold settled. rewrite Et. exact S1.
Qed.

(** Only the tree and the open bodies differ. *)
Record calm r r1 : Prop := {
  ca_root : CmpRootNode r1 = CmpRootNode r;
  ca_file : file r1 = file r;
  ca_bytes : CmpHiveLogBytes r1 = CmpHiveLogBytes r;
  ca_warned : CmpHiveWarned r1 = CmpHiveWarned r;
  ca_announced : announced r1 = announced r;
}.

(** A record appended after the change. *)
Lemma safe_logged W r r1 r2 r3 ch t : reg_ok r -> calm r r1 -> reg_ok r1 -> same_tree r1 r2 -> heard r1 r2 -> appended r1 r2 ch ->
  (Z.of_nat (length (change_bytes ch)) < 2 ^ 31 -> loggable 1 ch) -> apply ch (ptree r) = Some t -> W (Some ch) t (ptree r1) ->
  r3 = r2 \/ (exists a x, r3 = on_cm r2 (fun s => CmpNotifyChange s a x)) -> safe_step W r r3.
Proof.
  intros G [C1 C2 C3 C4 C5] G1 [S1 S2 S3 S4 S5 S6] [H1 H2] Ha Hl Ht Hal H3.
  assert (E3 : nodes (cm r3) = nodes (cm r1) /\ (allocations (cm r1) <= allocations (cm r3))%nat /\ CmpRootNode r3 = CmpRootNode r1 /\ bodies r3 = bodies r1 /\ CmpHiveReady r3 = CmpHiveReady r1 /\ file r3 = file r2 /\ CmpHiveLogBytes r3 = CmpHiveLogBytes r2 /\ announced r3 = announced r2 /\ CmpHiveWarned r3 = CmpHiveWarned r2).
  { destruct H3 as [->|(a & x & ->)]; cbn in *; done. }
  destruct E3 as (N3 & A3 & Hr3 & Hb3 & Hrd3 & Hf3 & Hlb3 & Han3 & Hw3). assert (R3 : registry_ok (CmpRootNode r3) (cm r3)) by (rewrite Hr3; eapply (registry_ext _ (cm r1)); [exact N3|exact A3|apply G1]).
  split.
  - split; [done| | | | | |].
    + intros a n. rewrite N3. unfold opens. rewrite Hb3. by apply G1.
    + intros a. rewrite N3, Hb3. by apply G1.
    + intros a n. rewrite N3, Hb3. by apply G1.
    + rewrite Hw3, Han3. apply H2, G1.
    + rewrite Hrd3. apply G1.
    + rewrite Hlb3. pose proof (go_bytes _ G1). lia.
  - congruence.
  - unfold heard. rewrite Han3, Hw3, <- C4, <- C5. done.
  - unfold settled. rewrite Han3, Hf3, Hlb3. intros Hq Hw. right. rewrite <- C4 in Hw. destruct (Ha Hq Hw) as (F & B & M). rewrite C3 in B. rewrite C2 in F. exists ch, t. split_and!; try done.
    + apply Hl. pose proof (go_bytes _ G). unfold CMP_HIVE_MAX_BYTES in M. change (Z.shiftl 64 20) with 67108864 in M. lia.
    + enough (ptree r3 = ptree r1) as -> by done. unfold ptree. rewrite Hr3. apply (tree_same 0 0); [apply (rg_tree _ _ (go_registry _ G1))|apply (rg_tree _ _ R3)| |].
      * destruct (rg_root _ _ (go_registry _ G1)) as (n & E & _). eauto.
      * intros b _. by rewrite N3.
Qed.
End calls.
