(* ===== verification/CmCalls.v ===== *)
(** * CmCalls: every call that changes the registry, and its record
    (kernel/cm/registry.c).

    One lemma per service: it never fails an assertion, keeps the invariant, and
    the log it leaves says what it did to the keys that persist. *)

From S2P Require Import Prelude NtStatus Rtl Bytes CmTree CmHive CmReplay CmView CmLog CmSim CmRecover CmSave CmResolve CmRegistry CmLive CmAlike CmTouch CmDurable.

Section values.
Context `{MACHINE} `{VOLUME}.
Implicit Types (r : REG) (s : CM) (a p c : addr) (n k h : CMP_KEY_NODE) (ch : change) (nm path : list Z) (names : list (list Z)) (v : CMP_VALUE) (object : Z -> NTSTATUS + addr).

(** ** A key rewritten in place *)

(** The names a record may be filed under. *)
Definition filed root s a names : Prop := Forall spelled names /\ (length names <= 95)%nat /\ key_path s root a names.

Lemma key_path_ext s s' root a names : (forall b n, nodes s !! b = Some n -> exists n', nodes s' !! b = Some n' /\ (forall c, c ∈ subkeys n -> c ∈ subkeys n') /\ name n' = name n) -> key_path s root a names -> key_path s' root a names.
Proof.
  intros Hs. induction 1 as [|p h c k names _ IH Ep Hc Ek]; [constructor|]. destruct (Hs _ _ Ep) as (h' & Ep' & Hh & _), (Hs _ _ Ek) as (k' & Ek' & _ & <-).
  apply (key_path_child _ _ p h' c k'); [done|done|by apply Hh|done].
Qed.

Lemma filed_route root s a n : registry_ok root s -> nodes s !! a = Some n -> deleted n = false -> isVolatile n = false -> exists names, filed root s a names /\ route persistent s root names a.
Proof. intros R E Hd Hv. destruct (live_route _ _ _ _ R E Hd Hv) as (names & Hk & Hr & Hs). exists names. split; [|done]. split; [done|]. split; [by eapply live_names|done]. Qed.

Lemma build_path_nodes s s' a root fuel : nodes s' = nodes s -> build_path s' a root fuel = build_path s a root fuel.
Proof.
  intros N. revert a. induction fuel as [|fuel IH]; intros a; [done|]. cbn [build_path]. destruct (_ || _); [done|]. unfold get_node. rewrite N. destruct (deref _ _) as [n| | |]; [|done..]. cbn. by rewrite IH.
Qed.

Lemma filed_path root s s' a names : registry_ok root s -> filed root s a names -> nodes s' = nodes s -> record_path s' a root None = Ok (join names).
Proof.
  intros R (Hs & _ & Hk) N. cbn [record_path]. unfold CmpBuildPath. rewrite (build_path_nodes s s') by done. destruct (rg_root _ _ R) as (m & Em & _).
  apply (CmpBuildPath_spec 0); [apply R|by exists m|done|]. eapply Forall_impl; [exact Hs|]. by intros nm [? _].
Qed.

Lemma spelled_path names : Forall spelled names -> (length names <= 96)%nat -> Forall plain names /\ name_ok (join names).
Proof.
  intros Hs Hl. split; [eapply Forall_impl; [exact Hs|]; by intros nm [? _]|]. destruct (join_spelled _ Hs) as [Hu Hj]. split; [done|lia].
Qed.

Lemma rewritten_step r a n n' s' : reg_ok r -> nodes (cm r) !! a = Some n -> deleted n = false -> same_place n n' -> node_ok n' -> bodyCount n' = bodyCount n ->
  nodes s' = <[a := n']> (nodes (cm r)) -> (allocations (cm r) <= allocations s')%nat ->
  reg_ok (r <| cm := s' |>) /\
  (isVolatile n = true -> tree_of persistent s' (CmpRootNode r) = ptree r) /\
  (isVolatile n = false -> exists names, filed (CmpRootNode r) s' a names /\ forall f, f (tree_of persistent (cm r) a) = Some (Key (name n') (lastWriteTime n') (isLink n') (values n') (tree_subs (tree_of persistent (cm r) a))) ->
     alter_at names f (ptree r) = Some (tree_of persistent s' (CmpRootNode r))).
Proof.
  intros G E Hd Hp Hok Hb N A. pose proof (go_registry _ G) as R. pose proof (info_registry _ _ _ _ _ _ R E Hp Hok N A) as R'. destruct (rg_root _ _ R) as (rn & Ern & Hrp & Hrd & Hrv).
  pose proof Hp as (P1 & P2 & P3 & P4 & P5). assert (Kk : forall c, kept persistent s' c = kept persistent (cm r) c).
  { intros c. unfold kept, persistent. rewrite N. destruct (decide (a = c)) as [<-|]; [rewrite lookup_insert_eq, E; by rewrite P5|by rewrite lookup_insert_ne]. }
  split; [|split].
  - apply reg_ok_cm; [done|done| |].
    + intros b n1 Eb. right. rewrite N in Eb. apply lookup_insert_Some in Eb as [(<- & <-)|(Hne & Eb)]; [exists n|exists n1; split; [done|]; split; [done|by left]]. split; [done|]. split; [done|]. left. congruence.
    + intros b [m Em]. rewrite N. destruct (decide (a = b)) as [<-|]; [rewrite lookup_insert_eq; eauto|rewrite lookup_insert_ne by done; eauto].
  - intros Hv. unfold ptree. rewrite (persistent_same 0 (cm r) s' (CmpRootNode r)); [done|apply R|apply R'|eauto|unfold kept, persistent; by rewrite Ern, Hrv|].
    intros b m Eb Hm. exists m. assert (b <> a) by (intros ->; unfold persistent in Hm; replace m with n in Hm by congruence; by rewrite Hv in Hm). split; [by rewrite N, lookup_insert_ne|]. split_and!; try done.
    apply list_filter_iff_in. intros c _. by rewrite Kk.
  - intros Hv. destruct (filed_route _ _ _ _ R E Hd Hv) as (names & (Hf1 & Hf2 & Hf3) & Hr0).
    assert (Hf : filed (CmpRootNode r) s' a names). { split; [done|]. split; [done|]. apply (key_path_ext (cm r)); [|done]. intros b m Eb. rewrite N. destruct (decide (a = b)) as [<-|]; [rewrite lookup_insert_eq; replace m with n by congruence; exists n'; by rewrite P2|rewrite lookup_insert_ne by done; by exists m]. }
    exists names. split; [done|]. intros f Hfe. eapply (alter_route 0 0 persistent (cm r) s'); [apply R|apply R'|exact Hr0| |by rewrite Kk|].
    + intros b Hb' _. rewrite N, lookup_insert_ne; [done|]. intros <-. apply Hb', below_top.
    + rewrite Hfe. f_equal. symmetry. apply (info_view 0 (cm r) s' a n n'); [apply R|apply R'|done|done|done].
Qed.
(** The record of a change already made. *)
Lemma logged_from W r r1 ch t op flags node captured stamp value tailName : reg_ok r -> calm r r1 -> reg_ok r1 ->
  (forall s, nodes s = nodes (cm r1) -> record_path s node (CmpRootNode r1) captured = Ok (join (change_names ch))) ->
  op = change_op ch -> flags = change_flags ch -> stamp = change_time ch -> (match value with Some _ => 1 | None => 0 end) = change_count ch -> padded (change_tail ch) = call_tail value tailName ->
  (Z.of_nat (length (change_bytes ch)) < 2 ^ 31 -> loggable 1 ch) -> apply ch (ptree r) = Some t -> W (Some ch) t (ptree r1) ->
  exists r2, CmpLogRecord r1 op flags node captured stamp value tailName = Ok r2 /\ safe_step W r r2 /\ forall b x, safe_step W r (on_cm r2 (fun s => CmpNotifyChange s b x)).
Proof.
  intros G C G1 Hp Ho Hf Hst Hc Ht Hl Ha Hal. destruct (CmpLogRecord_spec r1 ch op flags node captured stamp value tailName) as (r2 & E2 & S2 & H2 & A2 & _); try done.
  - apply G1.
  - by apply Hp.
  - intros s Hs. rewrite Hp by done. symmetry. by apply Hp.
  - exists r2. split; [done|]. split; [|intros b x]; refine (safe_logged W r r1 r2 _ ch t G C G1 S2 H2 A2 Hl Ha Hal _); [by left|right; by exists b, x].
Qed.

Lemma logged_step W r s1 ch t op flags node captured stamp value tailName : reg_ok r -> reg_ok (r <| cm := s1 |>) ->
  (forall s, nodes s = nodes s1 -> record_path s node (CmpRootNode r) captured = Ok (join (change_names ch))) ->
  op = change_op ch -> flags = change_flags ch -> stamp = change_time ch -> (match value with Some _ => 1 | None => 0 end) = change_count ch -> padded (change_tail ch) = call_tail value tailName ->
  (Z.of_nat (length (change_bytes ch)) < 2 ^ 31 -> loggable 1 ch) -> apply ch (ptree r) = Some t -> W (Some ch) t (tree_of persistent s1 (CmpRootNode r)) ->
  exists r2, CmpLogRecord (r <| cm := s1 |>) op flags node captured stamp value tailName = Ok r2 /\ safe_step W r r2 /\ forall b x, safe_step W r (on_cm r2 (fun s => CmpNotifyChange s b x)).
Proof. intros G G1 Hp Ho Hf Hst Hc Ht Hl Ha Hal. exact (logged_from W r (r <| cm := s1 |>) ch t op flags node captured stamp value tailName G ltac:(by split) G1 Hp Ho Hf Hst Hc Ht Hl Ha Hal). Qed.

(** ** NtSetInformationKey *)

Definition stamped n (time : Z) : CMP_KEY_NODE := n <| lastWriteTime := time |>.

(** The record of a stamp: the key's path and the caller's time. *)
Definition sets_time (stamp : NTSTATUS + Z) : effect := exactly (fun ch => exists names time, stamp = inr time /\ ch = SetValues names time []).

Lemma put_nodes s a n : nodes (put_node s a n) = <[a := n]> (nodes s).
Proof. done. Qed.

Lemma NtSetInformationKey_step r object infoClass length stamp : reg_ok r -> handle_ok r object -> (forall time, stamp = inr time -> is_s64 time) ->
  exists status r', NtSetInformationKey r object infoClass length stamp = Ok (status, r') /\ safe_step (sets_time stamp) r r'.
Proof.
  intros G Hh Hs. unfold NtSetInformationKey. destruct (CmpReferenceKey_spec r object KEY_SET_VALUE false G Hh) as (x & -> & Hx). run.
  destruct x as [status|a]; [do 2 eexists; split; [done|by apply safe_refl]|]. destruct Hx as (Ho & n & En & Hd). specialize (Hd eq_refl).
  destruct (negb (infoClass =? _)); [do 2 eexists; split; [done|by apply safe_refl]|]. destruct (negb (length =? 8)); [do 2 eexists; split; [done|by apply safe_refl]|].
  destruct stamp as [status|time]; [do 2 eexists; split; [done|by apply safe_refl]|]. specialize (Hs time eq_refl). rewrite (get_Some _ _ _ En). run.
  set (n' := n <| lastWriteTime := time |>). set (s1 := put_node (cm r) a n'). change (on_cm r _) with (r <| cm := s1 |>). pose proof (tr_node _ _ (rg_tree _ _ (go_registry _ G)) _ _ En) as Hok.
  destruct (rewritten_step r a n n' s1 G En Hd) as (G1 & Hv & Hnv); [by repeat split|by apply node_stamp_ok|done|done|done|]. destruct (isVolatile n) eqn:Evol; cbn [negb].
  { run. do 2 eexists. split; [done|]. apply safe_silent; [done|done|by split; [apply Hv|]]. }
  destruct (Hnv eq_refl) as (names & (Hn1 & Hn2 & Hn3) & Hf). unfold CmpLogTouchKey. rewrite (get_Some (cm (r <| cm := s1 |>)) a n') by (cbn; by rewrite lookup_insert_eq). run.
  destruct (logged_step (sets_time (inr time)) r s1 (SetValues names time []) (tree_of persistent s1 (CmpRootNode r)) CMP_OP_SET_VALUES 0 a None time None None) as (r2 & E2 & S2 & _); try done.
  - intros s N. by apply (filed_path (CmpRootNode r) s1); [apply G1|..].
  - intros Hsz. destruct (spelled_path names Hn1 ltac:(lia)). split; [by split|done].
  - cbn [apply]. apply Hf. rewrite (tree_of_eq 0 persistent (cm r) a n); [done|apply G|done].
  - split; [done|]. by exists names, time.
  - change (lastWriteTime n') with time. rewrite E2. run. eauto.
Qed.

(** ** NtDeleteValueKey and NtSetValueKey *)

(** A string as its probe leaves it: whole units of 16 bits. *)
Definition string_read (valueName : USER_STRING) : Prop := match valueName with UserString Length nm => Forall is_u16 nm /\ 2 * Z.of_nat (length nm) <= Length <= 2 * Z.of_nat (length nm) + 1 /\ Length < 2 ^ 16 | _ => True end.

Lemma now_range s : is_s64 (CmpNow s).1.
Proof. apply s64_range. Qed.

(** The record of a value gone. *)
Definition unsets_value (valueName : USER_STRING) : effect := exactly (fun ch => exists Length names time nm, valueName = UserString Length nm /\ ch = DeleteValue names time nm).

Lemma NtDeleteValueKey_step r object valueName : reg_ok r -> handle_ok r object -> string_read valueName -> exists status r', NtDeleteValueKey r object valueName = Ok (status, r') /\ safe_step (unsets_value valueName) r r'.
Proof.
  intros G Hh Hs. unfold NtDeleteValueKey. destruct valueName as [|status|Length nm]; [do 2 eexists; split; [done|by apply safe_refl]..|]. destruct Hs as (Hu & Hl & H16).
  destruct (_ <? Length); [do 2 eexists; split; [done|by apply safe_refl]|]. destruct (CmpReferenceKey_spec r object KEY_SET_VALUE false G Hh) as (x & -> & Hx). run.
  destruct x as [status|a]; [do 2 eexists; split; [done|by apply safe_refl]|]. destruct Hx as (Ho & n & En & Hd). specialize (Hd eq_refl). assert (Hnm : name_ok nm) by (split; [done|lia]).
  pose proof (rg_tree _ _ (go_registry _ G)) as T. pose proof (tr_node _ _ T _ _ En) as Hok. destruct (CmpRemoveValue_spec 0 (cm r) a n nm T En Hnm) as (removed & s & -> & T1 & A1 & _ & Hr). run.
  destruct removed; cbn [negb]; [|do 2 eexists; split; [done|by apply safe_refl]]. destruct Hr as (i & v & l & Hi & Hfn & -> & N1).
  rewrite (get_Some s a (n <| values := delete i (values n) |> <| valueCount := Z.of_nat (length (delete i (values n))) |>)) by (rewrite N1; by rewrite lookup_insert_eq). run. unfold CmpNow. cbv zeta. run.
  set (now := s64 (interrupt_time (reads s))). set (n' := (n <| values := delete i (values n) |> <| valueCount := Z.of_nat (length (delete i (values n))) |>) <| lastWriteTime := now |>). set (s1 := put_node (s <| reads := S (reads s) |>) a n').
  assert (N : nodes s1 = <[a := n']> (nodes (cm r))) by (cbn; by rewrite N1, insert_insert_eq).
  destruct (rewritten_step r a n n' s1 G En Hd) as (G1 & Hv & Hnv); [by repeat split| |done|done|cbn; by rewrite A1|].
  { apply node_stamp_ok; [|apply s64_range]. apply node_values_ok; [done|apply Forall_delete, Hok|apply sorted_delete, Hok]. }
  change (isVolatile (n <| values := _ |> <| valueCount := _ |>)) with (isVolatile n). destruct (isVolatile n) eqn:Evol; cbn [negb].
  { run. do 2 eexists. split; [done|]. apply safe_notify, safe_silent; [done|done|by split; [apply Hv|]]. }
  destruct (Hnv eq_refl) as (names & (Hn1 & Hn2 & Hn3) & Hf). unfold CmpLogDeleteValue. rewrite (get_Some (cm (r <| cm := s1 |>)) a n') by (change (nodes s1 !! a = Some n'); by rewrite N, lookup_insert_eq). run.
  destruct (logged_step (unsets_value (UserString Length nm)) r s1 (DeleteValue names now nm) (tree_of persistent s1 (CmpRootNode r)) CMP_OP_DELETE_VALUE 0 a None now None (Some nm)) as (r2 & E2 & _ & S2); try done.
  - intros s0 N0. by apply (filed_path (CmpRootNode r) s1); [apply G1|..].
  - intros Hsz. destruct (spelled_path names Hn1 ltac:(lia)). split; [split; try done; apply s64_range|done].
  - cbn [apply]. apply Hf. rewrite (tree_of_eq 0 persistent (cm r) a n); [|apply G|done]. cbn [with_values with_time tree_values tree_subs]. unfold unset_value. by rewrite (find_value_at nm (values n) i v) by (done || apply Hok).
  - split; [done|]. by exists Length, names, now, nm.
  - change (lastWriteTime n') with now. rewrite E2. run. eauto.
Qed.
(** The value looked up again after the set is the one the caller gave. *)
Lemma value_found l nm (type : Z) data l' i v : StronglySorted value_before l' -> value_set l nm type data l' -> l' !! i = Some v -> fold_name (value_name v) = fold_name nm ->
  value_type v = type /\ value_data v = data.
Proof.
  intros Hs' Hset Hi Hf. pose proof (find_value_at nm _ i v Hs' Hi Hf) as F1. destruct Hset as [(j & w & Hj & Hfw & ->)|(Hnew & l1 & l2 & -> & -> & H1 & H2)].
  - pose proof (find_value_at nm (<[j:=mkVALUE (value_name w) type data]> l) j (mkVALUE (value_name w) type data) Hs' ltac:(apply list_lookup_insert_eq; by eapply lookup_lt_Some) Hfw) as F2.
    rewrite F1 in F2. injection F2 as ->. rewrite list_lookup_insert_eq in Hi by (by eapply lookup_lt_Some). by injection Hi as <-.
  - pose proof (find_value_at nm (l1 ++ mkVALUE nm type data :: l2) (length l1) (mkVALUE nm type data) Hs' ltac:(by rewrite lookup_app_r, Nat.sub_diag by lia) eq_refl) as F2.
    rewrite F1 in F2. injection F2 as ->. rewrite lookup_app_r, Nat.sub_diag in Hi by lia. by injection Hi as <-.
Qed.

(** The value looked up again after the set spells the same set. *)
Lemma value_written l nm (type : Z) data l' i v : StronglySorted value_before l -> StronglySorted value_before l' -> value_set l nm type data l' -> l' !! i = Some v -> fold_name (value_name v) = fold_name nm ->
  set_value l v = l'.
Proof.
  intros Hs Hs' Hset Hi Hf. destruct Hset as [(j & w & Hj & Hfw & ->)|(Hnew & l1 & l2 & -> & -> & H1 & H2)].
  - assert (i = j) as ->.
    { pose proof (find_value_at nm _ i v Hs' Hi Hf) as F1. pose proof (find_value_at nm (<[j:=mkVALUE (value_name w) type data]> l) j (mkVALUE (value_name w) type data) Hs' ltac:(apply list_lookup_insert_eq; by eapply lookup_lt_Some) Hfw) as F2. congruence. }
    rewrite list_lookup_insert_eq in Hi by (by eapply lookup_lt_Some). injection Hi as <-. unfold set_value. cbn [value_name]. rewrite (find_value_at (value_name w) l j w) by done. cbn [value_type value_data].
    symmetry. by apply (insert_alter_at (fun old => mkVALUE (value_name old) type data) l j w).
  - assert (v = mkVALUE nm type data) as ->.
    { pose proof (find_value_at nm _ i v Hs' Hi Hf) as F1. pose proof (find_value_at nm (l1 ++ mkVALUE nm type data :: l2) (length l1) (mkVALUE nm type data) Hs' ltac:(by rewrite lookup_app_r, Nat.sub_diag by lia) eq_refl) as F2.
      rewrite F1 in F2. injection F2 as ->. rewrite lookup_app_r, Nat.sub_diag in Hi by lia. by injection Hi. }
    unfold set_value. cbn [value_name]. rewrite find_value_None by done. by rewrite place_value_at.
Qed.

Lemma symbolic_name_ok : name_ok SymbolicLinkValue.
Proof. split; [|reflexivity]. unfold SymbolicLinkValue, is_u16. repeat constructor; lia. Qed.

(** The record of a value set: its type and its data are the caller's, its name
    the caller's up to case. *)
Definition sets_value (valueName : USER_STRING) (type : Z) (data : NTSTATUS + list Z) : effect :=
  exactly (fun ch => exists Length names time nm v, valueName = UserString Length nm /\ ch = SetValues names time [v] /\
    fold_name (value_name v) = fold_name nm /\ value_type v = type /\ data = inr (value_data v)).

Lemma NtSetValueKey_step r object valueName (type : Z) data : reg_ok r -> handle_ok r object -> string_read valueName -> is_u32 type ->
  (forall bytes, data = inr bytes -> Forall is_u8 bytes /\ Z.of_nat (length bytes) < 2 ^ 32) ->
  exists status r', NtSetValueKey r object valueName type data = Ok (status, r') /\ safe_step (sets_value valueName type data) r r'.
Proof.
  intros G Hh Hs Htype Hdata. unfold NtSetValueKey. destruct valueName as [|status|Length nm]; [do 2 eexists; split; [done|by apply safe_refl]..|]. destruct Hs as (Hu & Hl & H16).
  destruct (_ <? Length); [do 2 eexists; split; [done|by apply safe_refl]|]. destruct data as [status|data]; [do 2 eexists; split; [done|by apply safe_refl]|]. destruct (Hdata data eq_refl) as [Hd8 Hdl].
  destruct (CmpReferenceKey_spec r object KEY_SET_VALUE false G Hh) as (x & -> & Hx). run.
  destruct x as [status|a]; [do 2 eexists; split; [done|by apply safe_refl]|]. destruct Hx as (Ho & n & En & Hd). specialize (Hd eq_refl). assert (Hnm : name_ok nm) by (split; [done|lia]).
  pose proof (rg_tree _ _ (go_registry _ G)) as T. pose proof (tr_node _ _ T _ _ En) as Hok. rewrite (get_Some _ _ _ En). run.
  assert (Hlink : exists refused : bool, (if isLink n then same ← RtlEqualUnicodeString (counted nm) (counted SymbolicLinkValue) true; Ok (negb (type =? REG_LINK) || negb same) else Ok false) = Ok refused).
  { destruct (isLink n); [|by eexists]. rewrite equal_counted by (done || apply symbolic_name_ok). run. by eexists. }
  destruct Hlink as (refused & ->). run. destruct refused; [do 2 eexists; split; [done|by apply safe_refl]|].
  destruct (CmpFindValue_spec (values n) nm (nk_values _ Hok) Hnm) as (existing & -> & Hex). run.
  assert (Hsame : exists same : bool, (match existing with Some i => v ← deref (values n !! i) "value"; Ok ((value_type v =? type) && bool_decide (value_data v = data)) | None => Ok false end) = Ok same).
  { destruct existing as [i|]; [|by eexists]. destruct Hex as (v & -> & _). run. by eexists. }
  destruct Hsame as (same & ->). run. destruct same; [do 2 eexists; split; [done|by apply safe_refl]|].
  assert (Hvok : value_ok (mkVALUE nm type data)) by (repeat split; done || apply Hnm || apply Htype).
  destruct (CmpSetValue_spec 0 (cm r) a n nm type data T En Hvok) as (status & s & -> & T1 & A1 & _ & Hcase & _). run.
  destruct Hcase as [[-> N1]|(-> & l & Hset & N1)].
  { change (negb (NT_SUCCESS STATUS_INSUFFICIENT_RESOURCES)) with true. cbn iota. do 2 eexists. split; [done|]. by apply safe_same_nodes. }
  change (negb (NT_SUCCESS STATUS_SUCCESS)) with false. cbn iota. destruct (value_set_ok _ _ _ _ _ (nk_values _ Hok) (nk_sorted _ Hok) Hvok Hset) as [Hlok Hlsort].
  set (n0 := n <| values := l |> <| valueCount := Z.of_nat (length l) |>) in *. rewrite (get_Some s a n0) by (rewrite N1; by rewrite lookup_insert_eq). run. unfold CmpNow. cbv zeta. run.
  set (now := s64 (interrupt_time (reads s))). set (n' := n0 <| lastWriteTime := now |>). set (s1 := put_node (s <| reads := S (reads s) |>) a n').
  assert (N : nodes s1 = <[a := n']> (nodes (cm r))) by (cbn; by rewrite N1, insert_insert_eq).
  destruct (rewritten_step r a n n' s1 G En Hd) as (G1 & Hv & Hnv); [by repeat split|apply node_stamp_ok; [by apply node_values_ok|apply s64_range]|done|done|cbn; lia|].
  change (r <| cm := s |> <| cm := s1 |>) with (r <| cm := s1 |>). change (isVolatile n0) with (isVolatile n). destruct (isVolatile n) eqn:Evol; cbn [negb].
  { run. do 2 eexists. split; [done|]. apply safe_notify, safe_silent; [done|done|by split; [apply Hv|]]. }
  destruct (Hnv eq_refl) as (names & (Hn1 & Hn2 & Hn3) & Hf). change (values n0) with l. destruct (CmpFindValue_spec l nm Hlok Hnm) as (written & -> & Hw). run.
  destruct written as [i|]; [|exfalso]. 2: { destruct Hset as [(j & w & Hj & Hfw & ->)|(_ & l1 & l2 & _ & -> & _)].
    - apply (Hw (mkVALUE (value_name w) type data)); [|done]. apply (list_elem_of_lookup_2 _ j). apply list_lookup_insert_eq. by eapply lookup_lt_Some.
    - apply (Hw (mkVALUE nm type data)); [set_solver|done]. }
  destruct Hw as (v & Hi & Hfv). run. rewrite Hi. run. unfold CmpLogSetValue. rewrite (get_Some (cm (r <| cm := s1 |>)) a n') by (change (nodes s1 !! a = Some n'); by rewrite N, lookup_insert_eq). run.
  destruct (logged_step (sets_value (UserString Length nm) type (inr data)) r s1 (SetValues names now [v]) (tree_of persistent s1 (CmpRootNode r)) CMP_OP_SET_VALUES 0 a None now (Some v) None) as (r2 & E2 & _ & S2); try done.
  - intros s0 N0. by apply (filed_path (CmpRootNode r) s1); [apply G1|..].
  - change (change_tail (SetValues names now [v])) with (mbind (M := list) value_bytes [v]). rewrite padded_aligned by apply values_mod. cbn. by rewrite app_nil_r.
  - intros Hsz. destruct (spelled_path names Hn1 ltac:(lia)). split; [split; try done; [apply s64_range|]|done]. split; [|done]. constructor; [|constructor]. by apply (Forall_lookup_1 _ _ _ _ Hlok Hi).
  - cbn [apply foldl]. apply Hf. rewrite (tree_of_eq 0 persistent (cm r) a n); [|apply G|done]. cbn [with_values with_time tree_values tree_subs]. by rewrite (value_written (values n) nm type data l i v (nk_sorted _ Hok) Hlsort Hset Hi Hfv).
  - split; [done|]. destruct (value_found _ _ _ _ _ _ _ Hlsort Hset Hi Hfv) as [Hvt Hvd]. exists Length, names, now, nm, v. split_and!; try done. by rewrite Hvd.
  - change (lastWriteTime n') with now. rewrite E2. run. eauto.
Qed.
End values.
