(* ===== verification/CmKeys.v ===== *)
(** * CmKeys: keys made, deleted, renamed, opened and closed, and their records
    (kernel/cm/registry.c). *)

From S2P Require Import Prelude NtStatus Rtl Bytes CmTree CmHive CmReplay CmView CmLog CmSim CmRecover CmSave CmResolve CmRegistry CmLive CmAlike CmTouch CmDurable CmCalls.

Section keys.
Context `{MACHINE} `{VOLUME}.
Implicit Types (r : REG) (s : CM) (a p c root : addr) (n k h : CMP_KEY_NODE) (ch : change) (nm path : list Z) (names : list (list Z)) (v : CMP_VALUE) (object : Z -> NTSTATUS + addr) (f : ktree -> option ktree).

(** ** A change at the key's parent *)

(** The persistent tree changes as [f] does at [p]; besides [p] only its subkey [a] did. *)
Lemma changed_at root s s' p h h' a names f : registry_ok root s -> registry_ok root s' -> nodes s !! p = Some h -> nodes s' !! p = Some h' -> isVolatile h' = isVolatile h ->
  (a ∈ subkeys h \/ nodes s !! a = None) -> (forall b, b <> p -> b <> a -> nodes s' !! b = nodes s !! b) -> route persistent s root names p ->
  f (tree_of persistent s p) = Some (tree_of persistent s' p) -> alter_at names f (tree_of persistent s root) = Some (tree_of persistent s' root).
Proof.
  intros R R' E E' Hv Ha Ho Hr Hf. apply (alter_route 0 0 persistent s s' root names p f); [apply R|apply R'|done| |unfold kept, persistent; by rewrite E, E', Hv|done].
  intros b Hb [m Em]. apply Ho; intros ->; [apply Hb, below_top|]. destruct Ha as [Ha|Ha]; [|congruence]. by apply Hb, (below_child _ _ p h); [apply below_top|..].
Qed.

(** Nothing that persists changed but as [f] does at [p]. *)
Lemma silent_at root s s' p h h' a f : registry_ok root s -> registry_ok root s' -> nodes s !! p = Some h -> nodes s' !! p = Some h' -> isVolatile h' = isVolatile h -> deleted h = false ->
  (a ∈ subkeys h \/ nodes s !! a = None) -> (forall b, b <> p -> b <> a -> nodes s' !! b = nodes s !! b) -> kept persistent s a = false -> kept persistent s' a = false ->
  f (tree_of persistent s p) = Some (tree_of persistent s' p) ->
  tree_of persistent s' root = tree_of persistent s root \/ exists names, alter_at names f (tree_of persistent s root) = Some (tree_of persistent s' root).
Proof.
  intros R R' E E' Hv Hd Ha Ho Ka Ka' Hp. destruct (isVolatile h) eqn:Ev.
  - left. destruct (rg_root _ _ R) as (rn & Ern & _ & _ & Hrv). rewrite (persistent_same 0 s s' root); [done|apply R|apply R'|eauto|unfold kept, persistent; by rewrite Ern, Hrv|].
    intros b m Eb Hm. assert (b <> p). { intros ->. unfold persistent in Hm. replace m with h in Hm by congruence. by rewrite Ev in Hm. }
    assert (b <> a). { intros ->. unfold kept in Ka. rewrite Eb in Ka. congruence. } exists m. split; [by rewrite Ho|]. split_and!; try done.
    apply list_filter_iff_in. intros c _. enough (kept persistent s' c = kept persistent s c) as -> by done. destruct (decide (c = a)) as [->|Hca]; [congruence|]. unfold kept.
    destruct (decide (c = p)) as [->|Hcp]; [unfold persistent; by rewrite E, E', Ev, Hv|by rewrite Ho].
  - destruct (live_route _ _ _ _ R E Hd Ev) as (names & _ & Hr & _). assert (Hv' : isVolatile h' = isVolatile h) by congruence.
    right. exists names. exact (changed_at root s s' p h h' a names f R R' E E' Hv' Ha Ho Hr Hp).
Qed.

(** ** The path of a record captured beforehand *)

Lemma CmpCaptureLogPath_spec r a n names : reg_ok r -> nodes (cm r) !! a = Some n -> filed (CmpRootNode r) (cm r) a names -> names <> [] ->
  exists captured s', CmpCaptureLogPath r a = Ok (captured, r <| cm := s' |>) /\ nodes s' = nodes (cm r) /\ (allocations (cm r) <= allocations s')%nat /\ (captured = None \/ captured = Some (join names)).
Proof.
  intros G E Hf Hne. pose proof (filed_path _ _ (cm r) _ _ (go_registry _ G) Hf eq_refl) as Hp. cbn [record_path] in Hp. unfold CmpCaptureLogPath. rewrite Hp. run. destruct Hf as (Hs & Hl & _). destruct (join_spelled _ Hs) as [_ Hj].
  assert (Hj0 : join names <> []). { intros Hj0. apply Hne, join_nil; [|done]. eapply Forall_impl; [exact Hs|]. by intros nm [? _]. }
  assert (Hpos : 0 < 2 * Z.of_nat (length (join names))) by (destruct (join names); [done|cbn; lia]). destruct (Z.eqb_spec (2 * Z.of_nat (length (join names))) 0) as [|_]; [lia|].
  destruct (Z.ltb_spec 0xFFFF (2 * Z.of_nat (length (join names)))) as [|_]; [lia|]. cbn [orb]. unfold pool_allocate. destruct (Z.eqb_spec (2 * Z.of_nat (length (join names))) 0) as [|_]; [lia|]. run.
  do 2 eexists. split; [done|]. split; [done|]. split; [cbn; lia|]. destruct (_ =? 0); [by left|by right].
Qed.

(** The console was told. *)
Lemma safe_loud W r s1 message : reg_ok (r <| cm := s1 |>) -> safe_step W r (say (r <| cm := s1 |>) message).
Proof. intros [? ? ? ? ? ? ?]. split; [by split|done|by split|]. intros ?. done. Qed.

(** ** NtDeleteKey *)

Definition gone n : CMP_KEY_NODE := n <| parent := 0 |> <| deleted := true |> <| values := [] |> <| valueCount := 0 |>.
Definition bereft h a (time : Z) : CMP_KEY_NODE := h <| subkeys := unlink a (subkeys h) |> <| subkeyCount := subkeyCount h - 1 |> <| lastWriteTime := time |>.

(** The tree part of the deletion. *)
Lemma delete_tree {A} s a n p h (k : Z -> CM -> outcome A) : nodes s !! p = Some h -> nodes s !! a = Some n -> p <> a -> exists now s1,
  (s ← remove_subkey s p a; let '(now, s) := CmpNow s in p' ← get_node s p; s ← CmpFreeValues (put_node (put_node s p (p' <| lastWriteTime := now |>)) a (n <| parent := 0 |> <| deleted := true |>)) a; k now s) = k now s1 /\
  nodes s1 = <[a := gone n]> (<[p := bereft h a now]> (nodes s)) /\ allocations s1 = allocations s /\ is_s64 now.
Proof.
  intros Eh En Hpa. rewrite (remove_subkey_eq _ _ _ _ Eh). run. unfold CmpNow. cbv zeta. run. eexists _. match goal with |- context [get_node ?x p] => set (s2 := x) end.
  rewrite (get_Some s2 p (h <| subkeys := unlink a (subkeys h) |> <| subkeyCount := subkeyCount h - 1 |>)) by (cbn; by rewrite lookup_insert_eq). run. unfold CmpFreeValues. rewrite get_put_eq. run.
  eexists. split; [done|]. split; [|split; [done|apply s64_range]]. cbn. by rewrite insert_insert_eq, !insert_insert_eq.
Qed.

Lemma removed_step r s1 p h a n now : reg_ok r -> nodes (cm r) !! p = Some h -> a ∈ subkeys h -> nodes (cm r) !! a = Some n -> deleted h = false -> subkeys n = [] -> a ∈ bodies r -> a <> CmpRootNode r -> is_s64 now ->
  nodes s1 = <[a := gone n]> (<[p := bereft h a now]> (nodes (cm r))) -> (allocations (cm r) <= allocations s1)%nat ->
  reg_ok (r <| cm := s1 |>) /\ (isVolatile n = true -> restamped (ptree r) (tree_of persistent s1 (CmpRootNode r))) /\
  (isVolatile n = false -> forall names, route persistent (cm r) (CmpRootNode r) names p -> alter_at names (delete_sub (name n) now) (ptree r) = Some (tree_of persistent s1 (CmpRootNode r))).
Proof.
  intros G Eh Hin En Hdh Hsub Hb Hroot Hnow N A. pose proof (go_registry _ G) as R. pose proof (rg_tree _ _ R) as T. assert (Hpa : p <> a) by (intros ->; by destruct (not_own_child _ _ _ _ T Eh)).
  pose proof (tr_node _ _ T _ _ En) as Hnok. pose proof (tr_node _ _ T _ _ Eh) as Hhok. assert (Hg : node_ok (gone n)). { destruct Hnok. split; try done; constructor. }
  assert (T1 : tree_ok 0 s1).
  { pose proof (detach_tree 0 (cm r) p h a n (gone n) T Eh Hin En eq_refl eq_refl Hg) as T0. set (s0 := put_node _ a _) in T0.
    assert (Ep0 : nodes s0 !! p = Some (h <| subkeys := unlink a (subkeys h) |> <| subkeyCount := subkeyCount h - 1 |>)) by (cbn; by rewrite lookup_insert_ne, lookup_insert_eq).
    apply (tree_ext _ (put_node s0 p (bereft h a now))); [|exact A|].
    - rewrite N. cbn. rewrite (insert_insert_ne _ p a) by done. by rewrite insert_insert_eq.
    - apply (put_info_tree 0 s0 p _ (bereft h a now) T0 Ep0); [done|done|]. apply (node_stamp_ok _ now (tr_node _ _ T0 _ _ Ep0) Hnow). }
  pose proof (deleted_registry _ (cm r) s1 p h (bereft h a now) a n (gone n) R Eh Hin En Hsub Hroot T1 N eq_refl eq_refl eq_refl eq_refl eq_refl eq_refl Hsub eq_refl eq_refl) as R1.
  assert (Ep1 : nodes s1 !! p = Some (bereft h a now)) by (rewrite N, lookup_insert_ne, lookup_insert_eq; done). assert (Ea1 : nodes s1 !! a = Some (gone n)) by (by rewrite N, lookup_insert_eq).
  assert (Ho : forall b, b <> p -> b <> a -> nodes s1 !! b = nodes (cm r) !! b) by (intros; by rewrite N, !lookup_insert_ne).
  pose proof (deleted_view 0 (cm r) s1 p h (bereft h a now) a n (gone n) T T1 Eh Hin En Hsub (rg_sorted _ _ R _ _ Eh) N eq_refl eq_refl eq_refl eq_refl) as V.
  split; [|split].
  - apply reg_ok_cm; [done|done| |].
    + intros b m. rewrite N. intros [(<- & <-)|(Hb1 & [(<- & <-)|(Hb2 & Eb)]%lookup_insert_Some)]%lookup_insert_Some; right; [exists n|exists h|exists m]; (split; [done|split; [done|]]); [by right|by left|by left].
    + intros b [m Em]. rewrite N. destruct (decide (a = b)) as [<-|]; [rewrite lookup_insert_eq; eauto|rewrite lookup_insert_ne by done]. destruct (decide (p = b)) as [<-|]; [rewrite lookup_insert_eq; eauto|rewrite lookup_insert_ne by done; eauto].
  - intros Hv. assert (Hp : persistent n = false) by (unfold persistent; by rewrite Hv). rewrite Hp in V.
    destruct (silent_at (CmpRootNode r) (cm r) s1 p h (bereft h a now) a (stamp now) R R1 Eh Ep1 eq_refl Hdh (or_introl Hin) Ho) as [E|[names E]];
      [unfold kept; by rewrite En|unfold kept; rewrite Ea1; exact Hp|exact V|by left|right; exists names; by exists now].
  - intros Hv names Hr. assert (Hp : persistent n = true) by (unfold persistent; by rewrite Hv). rewrite Hp in V.
    exact (changed_at (CmpRootNode r) (cm r) s1 p h (bereft h a now) a names (delete_sub (name n) now) R R1 Eh Ep1 eq_refl (or_introl Hin) Ho Hr V).
Qed.

(** The parent of a live key below the root. *)
Lemma parent_of r a n : reg_ok r -> nodes (cm r) !! a = Some n -> deleted n = false -> parent n <> 0 -> a <> CmpRootNode r /\ parent n <> a /\
  exists h, nodes (cm r) !! parent n = Some h /\ a ∈ subkeys h /\ deleted h = false /\
  (isVolatile n = false -> exists names, route persistent (cm r) (CmpRootNode r) names (parent n) /\ filed (CmpRootNode r) (cm r) a (names ++ [name n])).
Proof.
  intros G En Hd Hp. pose proof (go_registry _ G) as R. destruct (rg_root _ _ R) as (rn & Ern & Hrp & _). assert (Hroot : a <> CmpRootNode r) by congruence.
  destruct (live_parent _ _ _ _ R En Hd Hroot) as (h & Eh & Hin & Hdh & Hvh). split; [done|]. split; [intros E; rewrite E in *; by destruct (not_own_child _ _ _ _ (rg_tree _ _ R) Eh)|].
  exists h. split; [done|]. split; [done|]. split; [done|]. intros Hv. destruct (filed_route _ _ _ _ R Eh Hdh (Hvh Hv)) as (names & (F1 & F2 & F3) & Hr). exists names. split; [done|].
  assert (Hk : key_path (cm r) (CmpRootNode r) a (names ++ [name n])) by (by eapply key_path_child). split; [|split; [by eapply live_names|done]]. apply Forall_app. split; [done|]. constructor; [|constructor]. by eapply rg_name.
Qed.

Lemma route_ext keep s s' root names a : nodes s' = nodes s -> route keep s root names a -> route keep s' root names a.
Proof. intros N. induction 1 as [|q m nm c k names b l1 l2 Eq Hl Ek Hk Hf Hno _ IH]; [constructor|]. apply (route_step keep s' q m nm c k names b l1 l2); rewrite ?N; done. Qed.

(** The path of the record, taken before the change. *)
Definition captured_for r a n (message : string) (logPath : option (list Z)) r0 : Prop :=
  (isVolatile n = true /\ logPath = None /\ r0 = r) \/ (isVolatile n = false /\ logPath = None /\ exists s0, r0 = say (r <| cm := s0 |>) message) \/
  (isVolatile n = false /\ (exists s0, r0 = r <| cm := s0 |>) /\ exists names, logPath = Some (join (names ++ [name n])) /\ route persistent (cm r) (CmpRootNode r) names (parent n) /\ filed (CmpRootNode r) (cm r) a (names ++ [name n])).

Lemma captured_path r a n message : reg_ok r -> nodes (cm r) !! a = Some n -> deleted n = false -> parent n <> 0 -> exists logPath r0,
  (if negb (isVolatile n) then '(captured, r) ← CmpCaptureLogPath r a; Ok (captured, if bool_decide (captured = None) then say r message else r) else Ok (None, r)) = Ok (logPath, r0) /\
  nodes (cm r0) = nodes (cm r) /\ (allocations (cm r) <= allocations (cm r0))%nat /\ captured_for r a n message logPath r0.
Proof.
  intros G En Hd Hp. destruct (parent_of r a n G En Hd Hp) as (_ & _ & h & _ & _ & _ & Hroute). unfold captured_for. destruct (isVolatile n) eqn:Hv; cbn [negb].
  { exists None, r. split; [done|]. split; [done|]. split; [done|]. by left. }
  destruct (Hroute eq_refl) as (names & Hr & Hf). destruct (CmpCaptureLogPath_spec r a n (names ++ [name n]) G En Hf) as (captured & s0 & -> & N0 & A0 & Hcap); [by destruct names|]. run.
  destruct Hcap as [->| ->]; do 2 eexists; (split; [done|]); (split; [exact N0|]); (split; [exact A0|]); right; [left; split; [done|]; split; [done|]; by eexists|right; split; [done|]; split; [by eexists|by exists names]].
Qed.

(** The record, or the warning, after the change. *)
Lemma captured_step W r a n message logPath r0 s1 (log : REG -> list Z -> outcome REG) : reg_ok r -> captured_for r a n message logPath r0 -> reg_ok (r <| cm := s1 |>) ->
  (isVolatile n = true -> W None (ptree r) (tree_of persistent s1 (CmpRootNode r))) ->
  (isVolatile n = false -> forall names, route persistent (cm r) (CmpRootNode r) names (parent n) -> filed (CmpRootNode r) (cm r) a (names ++ [name n]) ->
    exists r2, log (r <| cm := s1 |>) (join (names ++ [name n])) = Ok r2 /\ forall b x, safe_step W r (on_cm r2 (fun s => CmpNotifyChange s b x))) ->
  exists r2, match logPath with Some path => log (r0 <| cm := s1 |>) path | None => Ok (r0 <| cm := s1 |>) end = Ok r2 /\ forall b x, safe_step W r (on_cm r2 (fun s => CmpNotifyChange s b x)).
Proof.
  intros G [(Hv & -> & ->)|[(Hv & -> & s0 & ->)|(Hv & (s0 & ->) & names & -> & Hr & Hf)]] G1 Hal Hlog.
  - eexists. split; [done|]. intros b x. apply safe_notify, safe_silent; [done|done|by apply Hal].
  - eexists. split; [done|]. intros b x. apply safe_notify. by apply (safe_loud W r s1).
  - by apply Hlog.
Qed.

(** Nothing came of the change. *)
Lemma captured_quiet W `{!Still W} r a n message logPath r0 s1 : reg_ok r -> captured_for r a n message logPath r0 -> nodes s1 = nodes (cm r) -> (allocations (cm r) <= allocations s1)%nat -> safe_step W r (r0 <| cm := s1 |>).
Proof.
  intros G Hcap N A. pose proof (safe_same_nodes W r s1 G N A) as S. destruct Hcap as [(_ & _ & ->)|[(_ & _ & s0 & ->)|(_ & (s0 & ->) & _)]]; [exact S| |exact S]. apply (safe_loud W r s1), S.
Qed.

Lemma NtDeleteKey_step r object : reg_ok r -> handle_ok r object -> exists status r', NtDeleteKey r object = Ok (status, r') /\ safe_step removes r r'.
Proof.
  intros G Hh. unfold NtDeleteKey. destruct (CmpReferenceKey_spec r object DELETE true G Hh) as (x & -> & Hx). run. destruct x as [status|a]; [do 2 eexists; split; [done|by apply safe_refl]|].
  destruct Hx as (Hb & n & En & _). rewrite (get_Some _ _ _ En). run. destruct (deleted n) eqn:Hd; [do 2 eexists; split; [done|by apply safe_refl]|].
  destruct (Z.eqb_spec (parent n) 0) as [|Hp0]; [do 2 eexists; split; [done|by apply safe_refl]|]. destruct (_ =? _) eqn:Hpr; cbn [orb]; [do 2 eexists; split; [done|by apply safe_refl]|].
  destruct (Z.eqb_spec (subkeyCount n) 0) as [Hc|]; cbn [negb]; [|do 2 eexists; split; [done|by apply safe_refl]].
  pose proof (tr_node _ _ (rg_tree _ _ (go_registry _ G)) _ _ En) as Hok. assert (Hsub : subkeys n = []). { rewrite (nk_subkeyCount _ Hok) in Hc. destruct (subkeys n); [done|cbn in Hc; lia]. }
  destruct (parent_of r a n G En Hd Hp0) as (Hroot & Hpa & h & Eh & Hin & Hdh & _).
  destruct (captured_path r a n "could not capture a delete path" G En Hd Hp0) as (logPath & r0 & -> & N0 & A0 & Hcap). run. pose proof Eh as Eh0. pose proof En as En0. rewrite <- N0 in Eh0, En0.
  destruct (delete_tree (cm r0) a n (parent n) h (fun now s => r1 ← match logPath with Some path => CmpLogDeleteKey (r0 <| cm := s |>) path now | None => Ok (r0 <| cm := s |>) end;
    Ok (STATUS_SUCCESS, on_cm r1 (fun s => CmpNotifyChange s (parent n) REG_NOTIFY_CHANGE_NAME))) Eh0 En0 Hpa) as (now & s1 & E1 & N1 & A1 & Hnow). rewrite N0 in N1.
  destruct (removed_step r s1 (parent n) h a n now) as (G1 & Hal & Hper); try done; [lia|].
  destruct (captured_step removes r a n _ logPath r0 s1 (fun r path => CmpLogDeleteKey r path now) G Hcap G1 Hal) as (r2 & E2 & S2); [|do 2 eexists; split; [etrans; [exact E1|]; rewrite E2; reflexivity|apply S2]].
  intros Hv names Hr (Hf1 & Hf2 & Hf3). destruct (logged_step removes r s1 (DeleteKey (names ++ [name n]) now) (tree_of persistent s1 (CmpRootNode r)) CMP_OP_DELETE_KEY 0 0 (Some (join (names ++ [name n]))) now None None) as (r2 & E2 & _ & S2); try done; [| | |by exists r2].
  - intros Hsz. destruct (spelled_path _ Hf1 ltac:(lia)). split; [split; try done|done].
  - cbn [apply]. rewrite last_snoc, removelast_last. cbn [mbind option_bind]. by apply Hper.
  - split; [done|]. by exists (names ++ [name n]), now.
Qed.

(** ** NtRenameKey *)

(** The record of a new name. *)
Definition renames (newName : USER_STRING) : effect := exactly (fun ch => exists Length names time nm, newName = UserString Length nm /\ ch = RenameKey names time nm).

Definition renamed n nm (time : Z) : CMP_KEY_NODE := n <| name := nm |> <| lastWriteTime := time |>.

Lemma renamed_step r s1 p h a n nm now l : reg_ok r -> nodes (cm r) !! p = Some h -> a ∈ subkeys h -> nodes (cm r) !! a = Some n -> deleted h = false -> is_s64 now -> tree_ok 0 s1 ->
  linked (cm r) p (h <| subkeys := unlink a (subkeys h) |>) a nm l -> (forall c m, c ∈ subkeys h -> nodes (cm r) !! c = Some m -> fold_name (name m) <> fold_name nm) -> spelled nm ->
  nodes s1 = <[a := renamed n nm now]> (<[p := h <| subkeys := l |>]> (nodes (cm r))) ->
  reg_ok (r <| cm := s1 |>) /\ (isVolatile n = true -> tree_of persistent s1 (CmpRootNode r) = ptree r) /\
  (isVolatile n = false -> forall names, route persistent (cm r) (CmpRootNode r) names p -> alter_at names (rename_sub (name n) now nm) (ptree r) = Some (tree_of persistent s1 (CmpRootNode r))).
Proof.
  intros G Eh Hin En Hdh Hnow T1 Hl Hno Hsp N. pose proof (go_registry _ G) as R. pose proof (rg_tree _ _ R) as T. assert (Hpa : p <> a) by (intros ->; by destruct (not_own_child _ _ _ _ T Eh)).
  set (h' := h <| subkeys := l |>) in *. set (k' := renamed n nm now) in *.
  pose proof (renamed_registry _ (cm r) s1 p h h' a n k' l R Eh Hin En T1 Hl Hno Hsp N ltac:(by repeat split) ltac:(by repeat split)) as R1.
  assert (Ep1 : nodes s1 !! p = Some h') by (rewrite N, lookup_insert_ne, lookup_insert_eq; done). assert (Ea1 : nodes s1 !! a = Some k') by (by rewrite N, lookup_insert_eq).
  assert (Ho : forall b, b <> p -> b <> a -> nodes s1 !! b = nodes (cm r) !! b) by (intros; by rewrite N, !lookup_insert_ne).
  pose proof (renamed_view 0 (cm r) s1 p h h' a n k' l T T1 Eh Hin En (rg_sorted _ _ R _ _ Eh) Hl N eq_refl eq_refl eq_refl eq_refl eq_refl eq_refl eq_refl eq_refl eq_refl) as V.
  split; [|split].
  - apply reg_ok_cm; [done|done| |].
    + intros b m. rewrite N. intros [(<- & <-)|(Hb1 & [(<- & <-)|(Hb2 & Eb)]%lookup_insert_Some)]%lookup_insert_Some; right; [exists n|exists h|exists m]; (split; [done|split; [done|by left]]).
    + intros b [m Em]. rewrite N. destruct (decide (a = b)) as [<-|]; [rewrite lookup_insert_eq; eauto|rewrite lookup_insert_ne by done]. destruct (decide (p = b)) as [<-|]; [rewrite lookup_insert_eq; eauto|rewrite lookup_insert_ne by done; eauto].
  - intros Hv. assert (Hp : persistent n = false) by (unfold persistent; by rewrite Hv). rewrite Hp in V.
    destruct (silent_at (CmpRootNode r) (cm r) s1 p h h' a Some R R1 Eh Ep1 eq_refl Hdh (or_introl Hin) Ho) as [E|[names E]];
      [unfold kept; by rewrite En|unfold kept; rewrite Ea1; exact Hp|exact V|done|exact (alter_same _ _ _ E)].
  - intros Hv names Hr. assert (Hp : persistent n = true) by (unfold persistent; by rewrite Hv). rewrite Hp in V.
    exact (changed_at (CmpRootNode r) (cm r) s1 p h h' a names (rename_sub (name n) now nm) R R1 Eh Ep1 eq_refl (or_introl Hin) Ho Hr V).
Qed.

Lemma NtRenameKey_step r object newName : reg_ok r -> handle_ok r object -> string_read newName -> (forall nm, newName <> UserString 1 nm) -> exists status r', NtRenameKey r object newName = Ok (status, r') /\ safe_step (renames newName) r r'.
Proof.
  intros G Hh Hs H1. unfold NtRenameKey. destruct newName as [|status|Length nm]; [do 2 eexists; split; [done|by apply safe_refl]..|]. destruct Hs as (Hu & Hl & H16).
  destruct (Z.eqb_spec Length 0) as [|Hz]; [do 2 eexists; split; [done|by apply safe_refl]|]. assert (Hne : nm <> []). { intros ->. cbn in Hl. assert (Length = 1) as -> by lia. by destruct (H1 []). } clear H1.
  destruct (CmpReferenceKey_spec r object KEY_WRITE false G Hh) as (x & -> & Hx). run. destruct x as [status|a]; [do 2 eexists; split; [done|by apply safe_refl]|].
  destruct Hx as (Hb & n & En & Hd). specialize (Hd eq_refl). rewrite (get_Some _ _ _ En). run. assert (Hnm : name_ok nm) by (split; [done|lia]).
  destruct (Z.ltb_spec CMP_MAX_COMPONENT_BYTES (2 * Z.of_nat (length nm))) as [|Hlen]; [do 2 eexists; split; [done|by apply safe_refl]|]. change CMP_MAX_COMPONENT_BYTES with 512 in Hlen.
  case_bool_decide as Hsep; [do 2 eexists; split; [done|by apply safe_refl]|]. assert (Hsp : spelled nm) by (split; [by split|]; split; [done|lia]).
  destruct (Z.eqb_spec (parent n) 0) as [|Hp0]; [run; do 2 eexists; split; [done|by apply safe_refl]|]. destruct (parent_of r a n G En Hd Hp0) as (Hroot & Hpa & h & Eh & Hin & Hdh & Hroute).
  destruct (CmpFindSubkey_spec 0 (cm r) (parent n) h nm (rg_tree _ _ (go_registry _ G)) Eh Hnm) as (found & -> & Hfound). run. destruct Hfound as [[-> Hno]|[Hf0 _]].
  2: { rewrite (proj2 (Z.eqb_neq _ _) Hf0). do 2 eexists. split; [done|by apply safe_refl]. }
  cbn [Z.eqb negb].
  destruct (captured_path r a n "could not capture a rename path" G En Hd Hp0) as (logPath & r0 & -> & N0 & A0 & Hcap). run. pose proof Eh as Eh0. pose proof En as En0. rewrite <- N0 in Eh0, En0.
  assert (T0 : tree_ok 0 (cm r0)) by (apply (tree_ext _ (cm r)); [done|done|apply (go_registry _ G)]).
  destruct (CmpRenameNode_spec 0 (cm r0) (parent n) h a n nm T0 En0 eq_refl Eh0 Hin Hnm Hne) as (done_ & s & -> & T & A & _ & _ & Hcase). run. destruct done_; cbn [negb].
  2: { do 2 eexists. split; [done|]. apply (captured_quiet _ r a n _ logPath r0 s G Hcap); [congruence|lia]. }
  destruct Hcase as (l & Hlk & N). rewrite (get_Some s a (n <| name := nm |>)) by (rewrite N, lookup_insert_ne, lookup_insert_eq; done). run. unfold CmpNow. cbv zeta. run.
  set (now := s64 (interrupt_time (reads s))). set (s1 := put_node _ a _). assert (Hnow : is_s64 now) by apply s64_range.
  assert (N1 : nodes s1 = <[a := renamed n nm now]> (<[parent n := h <| subkeys := l |>]> (nodes (cm r)))).
  { cbn. rewrite N, N0. rewrite (insert_insert_ne _ (parent n) a) by done. rewrite insert_insert_eq. done. }
  assert (Ea : nodes s !! a = Some (n <| name := nm |>)) by (rewrite N, lookup_insert_ne, lookup_insert_eq; done).
  assert (T1 : tree_ok 0 s1). { apply (tree_ext _ (put_node s a (renamed n nm now))); [done|done|]. apply (put_info_tree 0 s a _ _ T Ea); [done|done|]. apply (node_stamp_ok _ now (tr_node _ _ T _ _ Ea) Hnow). }
  destruct (renamed_step r s1 (parent n) h a n nm now l) as (G1 & Hal & Hper); try done; [unfold linked in Hlk; by rewrite N0 in Hlk|].
  destruct (captured_step (renames (UserString Length nm)) r a n _ logPath r0 s1 (fun r path => CmpLogRenameKey r path nm now) G Hcap G1) as (r2 & E2 & S2); [by split; [apply Hal|]| |do 2 eexists; split; [etrans; [|reflexivity]; exact (f_equal (fun o => r ← o; Ok (STATUS_SUCCESS, on_cm r (fun s => CmpNotifyChange s a REG_NOTIFY_CHANGE_NAME))) E2)|apply S2]].
  intros Hv names Hr (Hf1 & Hf2 & Hf3). destruct (logged_step (renames (UserString Length nm)) r s1 (RenameKey (names ++ [name n]) now nm) (tree_of persistent s1 (CmpRootNode r)) CMP_OP_RENAME_KEY 0 0 (Some (join (names ++ [name n]))) now None (Some nm)) as (r2 & E2 & _ & S2); try done; [| | |by exists r2].
  - intros Hsz. destruct (spelled_path _ Hf1 ltac:(lia)). split; [split; try done|done].
  - cbn [apply]. rewrite last_snoc, removelast_last. cbn [mbind option_bind]. by apply Hper.
  - split; [done|]. by exists Length, (names ++ [name n]), now, nm.
Qed.
End keys.
