(* ===== verification/CmPaths.v ===== *)
(** * CmPaths: a name always leads somewhere (kernel/cm/registry.c).

    Resolving a name ends, whatever links it meets: with a status, with a key
    that is in the tree, or, to create, with a live parent and a leaf it has no
    subkey of. *)

From S2P Require Import Prelude NtStatus Rtl Bytes CmTree CmHive CmReplay CmView CmLog CmSim CmRecover CmSave CmResolve CmRegistry CmLive CmAlike CmTouch CmDurable CmCalls.

Section paths.
Context `{MACHINE}.
Implicit Types (s : CM) (a p c root link : addr) (n k h : CMP_KEY_NODE) (nm path remainder leaf : list Z).

(** In the tree, and not deleted. *)
Definition live s a : Prop := exists n, nodes s !! a = Some n /\ deleted n = false.

Lemma live_child root s p h c : registry_ok root s -> nodes s !! p = Some h -> c ∈ subkeys h -> live s c.
Proof.
  intros R Eh Hc. pose proof (rg_tree _ _ R) as T. destruct (tr_child _ _ T _ _ _ Eh Hc) as (k & Ek & Hp). exists k. split; [done|]. destruct (deleted k) eqn:Hd; [|done].
  destruct (decide (c = root)) as [->|Hne]; [destruct (rg_root _ _ R) as (rn & Er & _ & Hrd & _); congruence|]. apply (rg_deleted _ _ R _ _ Ek Hne) in Hd. pose proof (tree_nonzero _ _ _ _ T Eh). congruence.
Qed.

Lemma skip_separators_spec path : exists l, path = l ++ skip_separators path /\ (skip_separators path = [] \/ exists c q, skip_separators path = c :: q /\ c <> SEPARATOR).
Proof.
  induction path as [|c q IH]; [exists []; split; [done|by left]|]. cbn [skip_separators]. destruct (Z.eqb_spec c SEPARATOR) as [->|Hc]; [|exists []; split; [done|]; right; by exists c, q].
  destruct IH as (l & E & Hl). exists (SEPARATOR :: l). split; [by rewrite E at 1|done].
Qed.

Lemma next_component path part rest : Forall is_u16 path -> CmpNextComponent path = Some (part, rest) -> Forall is_u16 part /\ Forall is_u16 rest /\ plain part /\ (length part + length rest <= length path)%nat /\ (1 <= length part)%nat.
Proof.
  unfold CmpNextComponent. intros Hp. destruct (skip_separators_spec path) as (l & El & Hs). apply (f_equal length) in El as Elen. rewrite length_app in Elen. rewrite El in Hp. apply Forall_app in Hp as [_ Hp]. clear El.
  destruct Hs as [->|(c & q & E & Hc)]; [done|]. rewrite E in *. clear E.
  intros E0. assert (Ec : component (c :: q) = (part, rest)) by congruence. clear E0. destruct (component_spec (c :: q)) as (rest' & E1 & E2 & Hsep & _). rewrite Ec in E1, E2, Hsep. cbn [fst snd] in *. subst rest'.
  assert (Hne : part <> []). { intros ->. cbn in E1. subst rest. cbn [component] in Ec. destruct (Z.eqb_spec c SEPARATOR); [done|]. by destruct (component q). }
  rewrite E1 in Hp, Elen. apply Forall_app in Hp as [? ?]. rewrite length_app in Elen. split_and!; try done; [lia|]. destruct part; [done|cbn; lia].
Qed.

Lemma component_length part : (CMP_MAX_COMPONENT_BYTES <? 2 * Z.of_nat (length part)) = false -> Forall is_u16 part -> plain part -> spelled part /\ name_ok part.
Proof. intros Hl%Z.ltb_ge Hu Hp. change CMP_MAX_COMPONENT_BYTES with 512 in Hl. split; [split; [done|split; [done|lia]]|split; [done|lia]]. Qed.

(** Where a walk may end. *)
Definition walk_ok s (forCreate : bool) (w : WALK) : Prop :=
  match w with
  | Stopped status => status = STATUS_INVALID_PARAMETER \/ status = STATUS_OBJECT_NAME_NOT_FOUND
  | Crossed link remainder => live s link /\ Forall is_u16 remainder
  | Reached p leaf found => live s found /\ found <> 0 \/
      forCreate = true /\ found = 0 /\ spelled leaf /\ exists h, nodes s !! p = Some h /\ deleted h = false /\ forall c k, c ∈ subkeys h -> nodes s !! c = Some k -> fold_name (name k) <> fold_name leaf
  end.

Lemma found_live root s p h nm : registry_ok root s -> nodes s !! p = Some h -> name_ok nm -> exists r, CmpFindSubkey s p nm = Ok r /\
  (r = 0 /\ (forall c k, c ∈ subkeys h -> nodes s !! c = Some k -> fold_name (name k) <> fold_name nm) \/ r <> 0 /\ live s r).
Proof.
  intros R Eh Hn. destruct (CmpFindSubkey_spec 0 s p h nm (rg_tree _ _ R) Eh Hn) as (r & Er & Hr). exists r. split; [done|]. destruct Hr as [Hr|(Hr & Hin & _)]; [by left|right]. split; [done|]. by eapply live_child.
Qed.

Lemma walk_open_spec root s path fuel : registry_ok root s -> forall a, live s a -> Forall is_u16 path -> (length path <= fuel)%nat -> exists w, walk_open s a path fuel = Ok w /\ walk_ok s false w.
Proof.
  intros R. revert path. induction fuel as [|fuel IH]; intros path a Ha Hp Hf; cbn [walk_open]; (destruct (CmpNextComponent path) as [[part rest]|] eqn:E; [destruct (next_component _ _ _ Hp E) as (Hu & Hr & Hpl & Hlen & Hpos)|]).
  1: lia. 1, 3: eexists; split; [done|]; left; split; [done|]; destruct Ha as (n & En & _); exact (tree_nonzero _ _ _ _ (rg_tree _ _ R) En).
  destruct (_ <? _) eqn:Hmax; [eexists; split; [done|by left]|]. destruct (component_length part Hmax Hu Hpl) as [_ Hn]. destruct Ha as (n & En & _).
  destruct (found_live root s a n part R En Hn) as (child & -> & Hc). run. destruct Hc as [[-> _]|[Hc Hl]]; [eexists; split; [done|by right]|]. rewrite (proj2 (Z.eqb_neq _ _) Hc).
  destruct (Hl) as (k & Ek & Hk). rewrite (get_Some _ _ _ Ek). run. destruct (_ && _); [eexists; split; [done|]; by split|]. apply IH; [done|done|lia].
Qed.

Lemma walk_create_spec root s path fuel : registry_ok root s -> forall a leaf, live s a -> leaf = [] \/ spelled leaf -> Forall is_u16 path -> (length path <= fuel)%nat -> exists w, walk_create s a leaf path fuel = Ok w /\ walk_ok s true w.
Proof.
  intros R. revert path. induction fuel as [|fuel IH]; intros path a leaf Ha Hleaf Hp Hf; cbn [walk_create]; (destruct (CmpNextComponent path) as [[part rest]|] eqn:E; [destruct (next_component _ _ _ Hp E) as (Hu & Hr & Hpl & Hlen & Hpos)|]).
  1: lia.
  1, 3: destruct Ha as (n & En & Hd); case_bool_decide as Hl0; [eexists; split; [done|]; left; split; [by exists n|exact (tree_nonzero _ _ _ _ (rg_tree _ _ R) En)]|];
    destruct Hleaf as [|Hsp]; [done|]; assert (Hn : name_ok leaf) by (destruct Hsp as (_ & ? & ?); split; [done|lia]);
    destruct (found_live root s a n leaf R En Hn) as (r & -> & Hc); run; eexists; (split; [done|]); (destruct Hc as [[-> Hno]|[? ?]]; [right; split; [done|split; [done|split; [done|by exists n]]]|by left]).
  destruct (_ <? _) eqn:Hmax; [eexists; split; [done|by left]|]. destruct (component_length part Hmax Hu Hpl) as [Hsp Hn]. case_bool_decide as Hl0; [apply IH; [done|by right|done|lia]|].
  destruct Hleaf as [|Hsl]; [done|]. assert (Hnl : name_ok leaf) by (destruct Hsl as (_ & ? & ?); split; [done|lia]). destruct Ha as (n & En & Hd).
  destruct (found_live root s a n leaf R En Hnl) as (child & -> & Hc). run. destruct Hc as [[-> _]|[Hc Hl]]; [eexists; split; [done|by right]|]. rewrite (proj2 (Z.eqb_neq _ _) Hc).
  destruct (Hl) as (k & Ek & Hk). rewrite (get_Some _ _ _ Ek). run. destruct (isLink k); [eexists; split; [done|]; split; [done|by apply Forall_app]|]. apply IH; [done|by right|done|lia].
Qed.

Lemma walk_spec root s a path forCreate : registry_ok root s -> live s a -> Forall is_u16 path -> exists w, walk s a path forCreate = Ok w /\ walk_ok s forCreate w.
Proof. intros R Ha Hp. unfold walk. destruct forCreate; [eapply walk_create_spec|eapply walk_open_spec]; try done. by left. Qed.

Definition status_of_path (status : NTSTATUS) : Prop := status = STATUS_INVALID_PARAMETER \/ status = STATUS_OBJECT_NAME_NOT_FOUND \/ status = STATUS_INSUFFICIENT_RESOURCES.

Lemma units_u16 l : Forall is_u8 l -> Forall is_u16 (units_of l) /\ length (units_of l) = (length l / 2)%nat.
Proof.
  intros Hl. destruct (Nat.Even_or_Odd (length l)) as [[k Hk]|[k Hk]].
  - destruct (units_of_spec k l Hl Hk) as [E F]. split; [done|]. rewrite E, Hk, Nat.mul_comm. symmetry. by apply Nat.div_mul.
  - destruct (units_of_spec k (take (2 * k) l)) as [E F]; [by apply Forall_take|rewrite length_take; lia|].
    assert (Eu : forall m, Forall is_u8 m -> forall j, length m = (2 * j + 1)%nat -> units_of m = units_of (take (2 * j) m)).
    { clear. intros m _ j. revert m. induction j as [|j IH]; intros m Hm; [by destruct m as [|? [|]]|]. destruct m as [|lo [|hi m]]; cbn in Hm; [lia|lia|].
      replace (2 * S j)%nat with (S (S (2 * j))) by lia. cbn [take units_of]. f_equal. apply IH. lia. }
    rewrite (Eu l Hl k Hk). split; [done|]. rewrite E, Hk. replace (2 * k + 1)%nat with (1 + k * 2)%nat by lia. rewrite Nat.div_add by lia. done.
Qed.

Lemma CmpFollowLink_spec root s link remainder expansions : registry_ok root s -> live s link -> Forall is_u16 remainder -> exists res s', CmpFollowLink s link remainder expansions = Ok (res, s') /\
  nodes s' = nodes s /\ (allocations s <= allocations s')%nat /\ match res with inl status => status_of_path status | inr path => Forall is_u16 path /\ expansions + 1 <= CMP_MAX_LINK_EXPANSIONS end.
Proof.
  intros R (n & En & _) Hrem. unfold CmpFollowLink. destruct (Z.ltb_spec CMP_MAX_LINK_EXPANSIONS (expansions + 1)) as [|Hexp]; [do 2 eexists; split; [done|]; split; [done|]; split; [done|by left]|].
  rewrite (get_Some _ _ _ En). run. pose proof (tr_node _ _ (rg_tree _ _ R) _ _ En) as Hok. destruct (CmpFindValue_spec (values n) SymbolicLinkValue (nk_values _ Hok) symbolic_name_ok) as (found & -> & Hf). run.
  assert (Hno : forall s1, nodes s1 = nodes s -> (allocations s <= allocations s1)%nat -> exists (res : NTSTATUS + list Z) s', Ok (inl STATUS_OBJECT_NAME_NOT_FOUND, s1) = Ok (res, s') /\ nodes s' = nodes s /\ (allocations s <= allocations s')%nat /\ match res with inl status => status_of_path status | inr path => Forall is_u16 path /\ expansions + 1 <= CMP_MAX_LINK_EXPANSIONS end).
  { intros s1 N A. do 2 eexists. split; [done|]. split; [done|]. split; [done|]. right. by left. }
  destruct found as [i|]; [|by apply Hno]. destruct Hf as (v & Hi & _). rewrite Hi. run. destruct (_ <? 2); [by apply Hno|]. destruct (negb (bool_decide _)); [by apply Hno|].
  destruct (Forall_lookup_1 _ _ _ _ (nk_values _ Hok) Hi) as (_ & Hv8 & _). destruct (units_u16 _ Hv8) as [Hu _]. set (target := take _ (units_of (value_data v))). assert (Ht : Forall is_u16 target) by (by apply Forall_take).
  rewrite equal_counted.
  2: { split; [by apply Forall_take|]. rewrite length_take. change (length registryPrefix) with 9%nat. lia. }
  2: { split; [|reflexivity]. unfold registryPrefix, is_u16. repeat constructor; lia. }
  run. destruct (negb _ || _); [by apply Hno|]. set (composed := drop _ target ++ _). assert (Hc : Forall is_u16 composed).
  { apply Forall_app. split; [by apply Forall_drop|]. case_bool_decide; [constructor|]. constructor; [unfold is_u16, SEPARATOR; lia|done]. }
  unfold pool_allocate. match goal with |- context [(?b =? 0)] => destruct (Z.eqb_spec b 0) as [E0|E0] end; [exfalso; revert E0; destruct (Z.eqb_spec (2 * Z.of_nat (length composed)) 0); cbn [negb]; lia|].
  run. match goal with |- context [if ?b =? 0 then _ else _] => destruct (b =? 0) end; do 2 eexists; (split; [done|]); (split; [done|]); (split; [cbn; lia|]); [by right; right|]. split; [by apply Forall_take|done].
Qed.

(** What resolving answers. *)
Definition resolved_ok s (forCreate openLink : bool) (res : NTSTATUS + (addr * list Z * addr)) : Prop :=
  match res with
  | inl status => status_of_path status
  | inr (p, leaf, found) =>
      found <> 0 /\ (exists n, nodes s !! found = Some n /\ deleted n = false /\ (isLink n = true -> openLink = true)) \/
      forCreate = true /\ found = 0 /\ spelled leaf /\ exists h, nodes s !! p = Some h /\ deleted h = false /\ forall c k, c ∈ subkeys h -> nodes s !! c = Some k -> fold_name (name k) <> fold_name leaf
  end.

Definition answers s (forCreate openLink : bool) (o : outcome ((NTSTATUS + (addr * list Z * addr)) * CM)) : Prop :=
  exists res s', o = Ok (res, s') /\ nodes s' = nodes s /\ (allocations s <= allocations s')%nat /\ resolved_ok s forCreate openLink res.

Lemma follow_answers root s link remainder expansions forCreate openLink (k : list Z -> CM -> outcome ((NTSTATUS + (addr * list Z * addr)) * CM)) : registry_ok root s -> live s link -> Forall is_u16 remainder ->
  (forall path s1, nodes s1 = nodes s -> (allocations s <= allocations s1)%nat -> Forall is_u16 path -> expansions + 1 <= CMP_MAX_LINK_EXPANSIONS -> answers s forCreate openLink (k path s1)) ->
  answers s forCreate openLink ('(r, s) ← CmpFollowLink s link remainder expansions; match r with inl status => Ok (inl status, s) | inr path => k path s end).
Proof.
  intros R Hl Hr Hk. destruct (CmpFollowLink_spec root s link remainder expansions R Hl Hr) as ([status|path] & s1 & -> & N & A & Hres); run; [|destruct Hres; by apply Hk].
  by exists (inl status), s1.
Qed.

Lemma resolve_spec root (forCreate openLink : bool) fuel : forall s a path expansions, registry_ok root s -> live s a -> Forall is_u16 path -> expansions + Z.of_nat fuel = CMP_MAX_LINK_EXPANSIONS ->
  answers s forCreate openLink (resolve s root a path forCreate openLink expansions fuel).
Proof.
  induction fuel as [fuel IH] using lt_wf_ind; intros s a path expansions R Ha Hp Hx.
  set (k := fun path s => match fuel with O => OutOfFuel | S fuel => resolve s root root path forCreate openLink (expansions + 1) fuel end).
  assert (Hfollow : forall link remainder, live s link -> Forall is_u16 remainder -> answers s forCreate openLink ('(r, s) ← CmpFollowLink s link remainder expansions; match r with inl status => Ok (inl status, s) | inr path => k path s end)).
  { intros link remainder Hl Hr. apply (follow_answers root); [done..|]. intros path1 s1 N1 A1 Hp1 Hx1. unfold k. destruct fuel as [|fuel]; [lia|]. destruct (rg_root _ _ R) as (rn & Er & _ & Hrd & _).
    destruct (IH fuel ltac:(lia) s1 root path1 (expansions + 1)) as (res & s2 & E2 & N2 & A2 & Hres); [by apply (registry_ext root s)|exists rn; by rewrite N1|done|lia|].
    exists res, s2. split; [done|]. split; [congruence|]. split; [lia|]. unfold resolved_ok in *. by rewrite N1 in Hres. }
  replace (resolve s root a path forCreate openLink expansions fuel) with (w ← walk s a path forCreate; match w with
    | Stopped status => Ok (inl status, s)
    | Crossed link remainder => '(r, s) ← CmpFollowLink s link remainder expansions; match r with inl status => Ok (inl status, s) | inr path => k path s end
    | Reached parent leaf found =>
        if found =? 0 then Ok (inr (parent, leaf, found), s) else
        n ← get_node s found;
        if isLink n && negb openLink then '(r, s) ← CmpFollowLink s found [] expansions; match r with inl status => Ok (inl status, s) | inr path => k path s end
        else Ok (inr (parent, leaf, found), s) end) by (by destruct fuel).
  destruct (walk_spec root s a path forCreate R Ha Hp) as (w & -> & Hw). run. destruct w as [status|link remainder|p leaf found].
  - exists (inl status), s. split; [done|]. split; [done|]. split; [done|]. destruct Hw as [->| ->]; [by left|by right; left].
  - apply Hfollow; apply Hw.
  - destruct (Z.eqb_spec found 0) as [->|Hf]; [exists (inr (p, leaf, 0)), s; split; [done|]; split; [done|]; split; [done|]; right; by destruct Hw as [[_ ?]|Hw]|].
    destruct Hw as [[(n & En & Hd) _]|(_ & ? & _)]; [|done]. rewrite (get_Some _ _ _ En). run. destruct (isLink n && negb openLink) eqn:El; [apply Hfollow; [by exists n|constructor]|].
    exists (inr (p, leaf, found)), s. split; [done|]. split; [done|]. split; [done|]. left. split; [done|]. exists n. split; [done|]. split; [done|]. intros Hlk. rewrite Hlk in El. by destruct openLink.
Qed.

(** The block as its probes leave it: the names are whole units, a directory is
    a key with an open body, and the object manager finds only live keys. *)
Definition attributes_ok (opened : list addr) s (attributes : OBJECT_ATTRIBUTES) : Prop :=
  (forall Length path, ObjectName attributes = Some (Length, path) -> Forall is_u16 path) /\
  (forall base, RootDirectory attributes = Some (inr base) -> base ∈ opened) /\
  (forall base remaining, parsed attributes = inr (base, remaining) -> live s base /\ Forall is_u16 remaining).

Definition refusal (attributes : OBJECT_ATTRIBUTES) (status : NTSTATUS) : Prop :=
  status = probed attributes \/ status = STATUS_OBJECT_PATH_SYNTAX_BAD \/ status = STATUS_KEY_DELETED \/ RootDirectory attributes = Some (inl status) \/ parsed attributes = inl status.

Lemma CmpResolvePath_spec root opened s attributes (forCreate openLink : bool) : registry_ok root s -> (forall a, a ∈ opened -> is_Some (nodes s !! a)) -> attributes_ok opened s attributes ->
  exists res s', CmpResolvePath s root (Some attributes) forCreate openLink = Ok (res, s') /\ nodes s' = nodes s /\ (allocations s <= allocations s')%nat /\
  (resolved_ok s forCreate openLink res \/ exists status, res = inl status /\ refusal attributes status).
Proof.
  intros R Ho (Hname & Hdir & Hparse). unfold CmpResolvePath.
  assert (Hstop : forall status, refusal attributes status -> exists res s', Ok (inl status, s) = Ok (res, s') /\ nodes s' = nodes s /\ (allocations s <= allocations s')%nat /\
    (resolved_ok s forCreate openLink res \/ exists status, res = inl status /\ refusal attributes status)).
  { intros status Hst. exists (inl status), s. split; [done|]. split; [done|]. split; [done|]. right. by exists status. }
  assert (Hgo : forall base path, live s base -> Forall is_u16 path -> exists res s', resolve s root base path forCreate openLink 0 (Z.to_nat CMP_MAX_LINK_EXPANSIONS) = Ok (res, s') /\ nodes s' = nodes s /\ (allocations s <= allocations s')%nat /\
    (resolved_ok s forCreate openLink res \/ exists status, res = inl status /\ refusal attributes status)).
  { intros base path Hb Hp. destruct (resolve_spec root forCreate openLink (Z.to_nat CMP_MAX_LINK_EXPANSIONS) s base path 0 R Hb Hp eq_refl) as (res & s' & E & N & A & Hres). exists res, s'. split; [done|]. split; [done|]. split; [done|]. by left. }
  destruct (negb _); [apply Hstop; by left|]. destruct (ObjectName attributes) as [[Length path]|]; [|apply Hstop; by right; left]. specialize (Hname _ _ eq_refl).
  destruct (RootDirectory attributes) as [[status|base]|] eqn:Er; [apply Hstop; by right; right; right; left| |].
  - destruct (Ho base (Hdir _ eq_refl)) as [n En]. rewrite (get_Some _ _ _ En). run. destruct (deleted n) eqn:Hd; [apply Hstop; by right; right; left|]. case_bool_decide; [apply Hstop; by right; left|]. apply Hgo; [by exists n|done].
  - destruct (parsed attributes) as [status|[base remaining]] eqn:Ep; [apply Hstop; by right; right; right; right|]. destruct (Hparse _ _ eq_refl) as [Hb Hr]. pose proof Hb as (n & En & Hd). rewrite (get_Some _ _ _ En). run. rewrite Hd. run. by apply Hgo.
Qed.

(** ** A key's own path leads to it *)

(** The keys a path names, none but the last a link. *)
Inductive leads s : addr -> list (list Z) -> addr -> Prop :=
  | leads_nil a : leads s a [] a
  | leads_cons a nm c k names b : CmpFindSubkey s a nm = Ok c -> c <> 0 -> nodes s !! c = Some k -> (names = [] \/ isLink k = false) -> leads s c names b -> leads s a (nm :: names) b.

(** What is left of a path behind one of its names. *)
Definition rest_of (names : list (list Z)) : list Z := match names with [] => [] | _ => SEPARATOR :: join names end.

Lemma join_rest nm names : join (nm :: names) = nm ++ rest_of names.
Proof. destruct names; [symmetry; apply app_nil_r|done]. Qed.

Lemma skip_plain nm q : plain nm -> skip_separators (nm ++ q) = nm ++ q.
Proof. intros [Hne Hsep]. destruct nm as [|c nm]; [done|]. cbn. destruct (Z.eqb_spec c SEPARATOR) as [->|]; [|done]. destruct Hsep. left. Qed.

Lemma component_rest nm names : plain nm -> component (nm ++ rest_of names) = (nm, rest_of names).
Proof. intros [_ Hsep]. destruct names as [|nm' names]; [cbn [rest_of]; rewrite app_nil_r; by apply component_plain|by apply component_join]. Qed.

Lemma next_join nm names : plain nm -> CmpNextComponent (join (nm :: names)) = Some (nm, rest_of names).
Proof.
  intros Hp. unfold CmpNextComponent. rewrite join_rest, skip_plain by done. pose proof (component_rest nm names Hp) as E. destruct nm as [|c nm]; [by destruct Hp|]. cbn [app] in *. by rewrite E.
Qed.

Lemma next_rest nm names : plain nm -> CmpNextComponent (rest_of (nm :: names)) = Some (nm, rest_of names).
Proof. intros Hp. rewrite <- next_join by done. reflexivity. Qed.

Lemma exhausted_rest nm names : plain nm -> CmpPathExhausted (rest_of (nm :: names)) = false.
Proof. intros [Hne Hsep]. unfold CmpPathExhausted, rest_of. cbn [forallb]. rewrite join_rest. destruct nm as [|c nm]; [done|]. cbn. destruct (Z.eqb_spec c SEPARATOR) as [->|]; [|done]. destruct Hsep. left. Qed.

Lemma spelled_fits nm : spelled nm -> (CMP_MAX_COMPONENT_BYTES <? 2 * Z.of_nat (length nm)) = false.
Proof. intros (_ & _ & Hl). apply Z.ltb_ge. change CMP_MAX_COMPONENT_BYTES with 512. lia. Qed.

Lemma walk_open_leads s a names b : leads s a names b -> Forall spelled names -> forall path fuel, (length path <= fuel)%nat -> path = join names \/ path = rest_of names -> walk_open s a path fuel = Ok (Reached 0 [] b).
Proof.
  induction 1 as [a|a nm c k names b Hf Hc Ek Hl Hb IH]; intros Hs path fuel Hfuel Hp; [by destruct Hp as [->| ->]; destruct fuel|]. apply Forall_cons in Hs as [Hnm Hs].
  assert (En : CmpNextComponent path = Some (nm, rest_of names)) by (destruct Hp as [->| ->]; [apply next_join|apply next_rest]; apply Hnm).
  assert (Hlen : (length (rest_of names) < length path)%nat). { destruct Hnm as ((Hne & _) & _). destruct Hp as [->| ->]; [|unfold rest_of at 2; cbn [length]]; rewrite join_rest, length_app; destruct nm; [done|cbn; lia|done|cbn; lia]. }
  destruct fuel as [|fuel]; [lia|]. cbn [walk_open]. rewrite En, spelled_fits, Hf by done. run. rewrite (proj2 (Z.eqb_neq _ _) Hc), (get_Some _ _ _ Ek). run.
  assert (Hgo : isLink k && negb (CmpPathExhausted (rest_of names)) = false) by (destruct Hl as [->| ->]; [apply andb_false_r|done]). rewrite Hgo. apply IH; [done|lia|by right].
Qed.

Lemma walk_create_leads s a prev names p k leaf found : leads s a (prev :: names) p -> nodes s !! p = Some k -> isLink k = false -> CmpFindSubkey s p leaf = Ok found -> Forall spelled (prev :: names) -> spelled leaf ->
  forall fuel, (length (rest_of (names ++ [leaf])) <= fuel)%nat -> walk_create s a prev (rest_of (names ++ [leaf])) fuel = Ok (Reached p leaf found).
Proof.
  revert a prev. induction names as [|nm names IH]; intros a prev Hl Ek Hk Hf Hs Hleaf fuel Hfuel; apply Forall_cons in Hs as [Hprev Hs]; inversion Hl as [|? ? c kc ? ? Hfc Hc Ekc Hlk Hrest]; subst.
  - inversion Hrest; subst. cbn [app] in *. assert (Hlen : (0 < length leaf)%nat) by (destruct Hleaf as ((? & _) & _); destruct leaf; [done|cbn; lia]).
    unfold rest_of in Hfuel. cbn [length join] in Hfuel. destruct fuel as [|[|fuel]]; [lia|lia|]. cbn [walk_create]. rewrite next_rest, spelled_fits by (done || apply Hleaf). rewrite bool_decide_eq_false_2 by apply Hprev. rewrite Hfc. run.
    rewrite (proj2 (Z.eqb_neq _ _) Hc), (get_Some _ _ _ Ek). run. rewrite Hk. cbn [rest_of CmpNextComponent skip_separators]. rewrite bool_decide_eq_false_2 by apply Hleaf. by rewrite Hf.
  - apply Forall_cons in Hs as [Hnm Hs]. cbn [app] in *. assert (Hlen : (length (rest_of (names ++ [leaf])) < length (rest_of (nm :: names ++ [leaf])))%nat).
    { unfold rest_of at 2. cbn [length]. rewrite join_rest, length_app. lia. }
    destruct fuel as [|fuel]; [lia|]. cbn [walk_create]. rewrite next_rest, spelled_fits by (done || apply Hnm). rewrite bool_decide_eq_false_2 by apply Hprev. rewrite Hfc. run.
    rewrite (proj2 (Z.eqb_neq _ _) Hc), (get_Some _ _ _ Ekc). run. destruct Hlk as [|Hlk]; [done|]. rewrite Hlk. apply IH; try done; [by constructor|lia].
Qed.

Lemma walk_leads s a names b : leads s a names b -> Forall spelled names -> walk s a (join names) false = Ok (Reached 0 [] b) /\
  forall k leaf found, nodes s !! b = Some k -> isLink k = false -> CmpFindSubkey s b leaf = Ok found -> spelled leaf -> walk s a (join (names ++ [leaf])) true = Ok (Reached b leaf found).
Proof.
  intros Hl Hs. split; [apply (walk_open_leads s a names b Hl Hs); [done|by left]|]. intros k leaf found Ek Hk Hf Hleaf. unfold walk. assert (Hpl : plain leaf) by apply Hleaf.
  assert (Hlen : (0 < length leaf)%nat) by (destruct Hpl as [? _]; destruct leaf; [done|cbn; lia]). destruct names as [|nm names].
  - inversion Hl; subst. cbn [app]. change (join [leaf]) with leaf. destruct (length leaf) as [|fuel] eqn:El; [lia|]. cbn [walk_create]. change leaf with (join [leaf]) at 1. rewrite next_join, spelled_fits by done. cbn [rest_of]. rewrite bool_decide_eq_true_2 by done.
    destruct fuel; cbn [walk_create CmpNextComponent skip_separators]; rewrite bool_decide_eq_false_2 by apply Hpl; by rewrite Hf.
  - cbn [app]. apply Forall_cons in Hs as [Hnm Hs]. assert (Hl' : (length (rest_of (names ++ [leaf])) < length (join (nm :: names ++ [leaf])))%nat). { rewrite join_rest, length_app. destruct Hnm as ((? & _) & _). destruct nm; [done|cbn; lia]. }
    destruct (length (join _)) as [|fuel]; [lia|]. cbn [walk_create]. rewrite next_join, spelled_fits by (done || apply Hnm). rewrite bool_decide_eq_true_2 by done. apply (walk_create_leads s a nm names b k); try done; [by constructor|lia].
Qed.

(** C9. A name always resolves, whatever links it meets: CmpResolvePath, to open
    or to create, ends - a cycle of links after 32 of them - without a failed
    assertion, changes no key, and answers with one of its documented statuses,
    with a key that is in the tree (a link itself only when the caller asks for
    links), or, to create, with a live parent and a well-formed leaf it has no
    subkey of.  And a key's own path, if no link is on it, leads to that key; a
    path one name longer leads a creation to that parent and that leaf. *)
Theorem path_resolution_total root opened s attributes (forCreate openLink : bool) : registry_ok root s -> (forall a, a ∈ opened -> is_Some (nodes s !! a)) -> attributes_ok opened s attributes ->
  (exists res s', CmpResolvePath s root (Some attributes) forCreate openLink = Ok (res, s') /\ nodes s' = nodes s /\ (resolved_ok s forCreate openLink res \/ exists status, res = inl status /\ refusal attributes status)) /\
  forall base names b k leaf, probed attributes = STATUS_SUCCESS -> is_Some (ObjectName attributes) -> RootDirectory attributes = None -> leads s base names b -> Forall spelled names -> nodes s !! b = Some k -> isLink k = false ->
    (forCreate = false -> parsed attributes = inr (base, join names) -> CmpResolvePath s root (Some attributes) forCreate openLink = Ok (inr (0, [], b), s)) /\
    (forCreate = true -> spelled leaf -> parsed attributes = inr (base, join (names ++ [leaf])) -> CmpFindSubkey s b leaf = Ok 0 -> CmpResolvePath s root (Some attributes) forCreate openLink = Ok (inr (b, leaf, 0), s)).
Proof.
  intros R Ho Ha. split.
  { destruct (CmpResolvePath_spec root opened s attributes forCreate openLink R Ho Ha) as (res & s' & E & N & _ & Hr). by exists res, s'. }
  intros base names b k leaf Hpr [[Length path] Hname] Hdir Hl Hs Eb Hk. destruct (walk_leads s base names b Hl Hs) as [Hopen Hcreate]. destruct Ha as (_ & _ & Hparse).
  assert (Hgo : forall rest, parsed attributes = inr (base, rest) -> CmpResolvePath s root (Some attributes) forCreate openLink = resolve s root base rest forCreate openLink 0 (Z.to_nat CMP_MAX_LINK_EXPANSIONS)).
  { intros rest Hp. unfold CmpResolvePath. rewrite Hpr, Hname, Hdir, Hp. cbn [NT_SUCCESS negb]. destruct (Hparse _ _ Hp) as [(n & En & Hd) _]. rewrite (get_Some _ _ _ En). run. rewrite Hd. by run. }
  revert Hgo. generalize (Z.to_nat CMP_MAX_LINK_EXPANSIONS) as fuel. intros fuel Hgo. split.
  - intros -> Hp. rewrite (Hgo _ Hp). assert (Hb0 : b <> 0) by (exact (tree_nonzero _ _ _ _ (rg_tree _ _ R) Eb)). destruct fuel; cbn [resolve]; rewrite Hopen; run; rewrite (proj2 (Z.eqb_neq _ _) Hb0), (get_Some _ _ _ Eb); run; by rewrite Hk.
  - intros -> Hleaf Hp Hf. rewrite (Hgo _ Hp). destruct fuel; cbn [resolve]; rewrite (Hcreate k leaf 0 Eb Hk Hf Hleaf); by run.
Qed.
End paths.

(** ** An empty registry, and a link to itself *)

Definition lone_node : CMP_KEY_NODE := mkNODE 0 [] [] 0 0 0 0 false false false [].

Lemma lone_registry : registry_ok 1 lone_key.
Proof.
  assert (K : forall a n, nodes lone_key !! a = Some n -> a = 1 /\ n = lone_node) by (intros a n; cbn; intros [(<- & <-)|(_ & [=])]%lookup_insert_Some; done).
  split; [exact (ri_tree _ _ _ lone_key_inv)|exists lone_node; by repeat split|..]; try (intros a n [-> ->]%K; done); [|].
  - intros a n [-> ->]%K. constructor.
  - intros p n c k [-> ->]%K Hc. by apply not_elem_of_nil in Hc.
Qed.

Definition lone_attributes (remaining : list Z) : OBJECT_ATTRIBUTES := mkATTRIBUTES STATUS_SUCCESS true (Some (0, [])) None 0 (inr (1, remaining)).

Lemma lone_attributes_ok remaining : Forall is_u16 remaining -> attributes_ok [] lone_key (lone_attributes remaining).
Proof.
  intros Hr. split; [intros Length path [= <- <-]; constructor|split; [done|]]. intros base rest [= <- <-]. split; [|done]. exists lone_node. by split.
Qed.

(** \Registry\A is a link to \Registry\A. *)
Definition circle : CM := mkCM (<[1 := mkNODE 0 [2] [] 1 0 0 0 false false false []]> (<[2 := mkNODE 1 [] [mkVALUE SymbolicLinkValue 6 (unit_bytes (registryPrefix ++ [SEPARATOR; 0x41]))] 0 1 0 0 false false true [0x41]]> ∅)) 2 0 [].

Example circle_ends : fst <$> (match CmpResolvePath (H := quiet_machine) circle 1 (Some (lone_attributes [0x41])) false false with Ok x => Some x | _ => None end) = Some (inl STATUS_INVALID_PARAMETER).
Proof. vm_compute. reflexivity. Qed.

Lemma path_resolution_total_witness : let _ := quiet_machine in CmpResolvePath lone_key 1 (Some (lone_attributes [0x41])) true false = Ok (inr (1, [0x41], 0), lone_key).
Proof.
  intros M. assert (Hu : Forall is_u16 [0x41]) by (constructor; [unfold is_u16; lia|constructor]). assert (Hsp : spelled [0x41]) by (split; [split; [done|intros [|?%not_elem_of_nil]%elem_of_cons; done]|split; [done|cbn; lia]]).
  destruct (path_resolution_total 1 [] lone_key (lone_attributes [0x41]) true false lone_registry) as [_ Hpath].
  - intros a Ha. by apply not_elem_of_nil in Ha.
  - by apply lone_attributes_ok.
  - destruct (Hpath 1 [] 1 lone_node [0x41]) as [_ Hcreate]; [done|by eexists|done|constructor|constructor|done|done|]. by apply Hcreate.
Defined.
