(* ===== verification/CmHandles.v ===== *)
(** * CmHandles: keys opened, closed and made (kernel/cm/registry.c).

    A handle is a body that holds its key: the node counts its bodies, and a
    deleted key goes with the last of them. *)

From S2P Require Import Prelude NtStatus Rtl Bytes CmTree CmHive CmReplay CmView CmLog CmSim CmRecover CmSave CmResolve CmRegistry CmLive CmAlike CmTouch CmDurable CmCalls CmKeys CmPaths.

(** ** Bodies counted *)

Section counting.
Implicit Types (a b : addr) (l : list addr).

Abbreviation count b l := (length (filter (fun c => c = b) l)) (only parsing).

Lemma count_in b l : b ∈ l <-> (0 < count b l)%nat.
Proof.
  induction l as [|c l IH]; [split; [by intros ?%not_elem_of_nil|cbn; lia]|]. rewrite elem_of_cons, filter_cons. case_decide as E; cbn; [split; [lia|]; intros _; left; congruence|]. rewrite IH. split; [intros [|]; [congruence|done]|by right].
Qed.

Lemma count_removed a b l : a ∈ l -> Z.of_nat (count b (remove_one a l)) = Z.of_nat (count b l) - (if bool_decide (b = a) then 1 else 0).
Proof.
  induction l as [|c l IH]; [by intros ?%not_elem_of_nil|]. intros Ha. cbn [remove_one]. rewrite (filter_cons _ c). destruct (decide (c = a)) as [->|Hc].
  - rewrite (bool_decide_eq_true_2 (a = a)) by done. destruct (decide (b = a)) as [->|Hb]; [rewrite bool_decide_eq_true_2, decide_True by done; rewrite length_cons; lia|rewrite bool_decide_eq_false_2, decide_False by congruence; lia].
  - rewrite (bool_decide_eq_false_2 (c = a)) by done. apply elem_of_cons in Ha as [->|Ha]; [done|]. rewrite filter_cons. specialize (IH Ha). destruct (decide (c = b)); cbn [length]; rewrite ?Nat2Z.inj_succ, IH; lia.
Qed.
End counting.

Section handles.
Context `{MACHINE} `{VOLUME}.
Implicit Types (r : REG) (s : CM) (a b p c root : addr) (n k h : CMP_KEY_NODE) (nm path : list Z) (names : list (list Z)).

Lemma safe_quiet W r r1 : calm r r1 -> reg_ok r1 -> W None (ptree r) (ptree r1) -> safe_step W r r1.
Proof. intros [C1 C2 C3 C4 C5] G Ht. split; [done|done|by apply heard_same|]. intros _ _. by left. Qed.

(** Nothing but keys out of the tree, or counts of bodies, changed. *)
Lemma counted_view root s s' a n (x : Z) : registry_ok root s -> nodes s !! a = Some n -> nodes s' = <[a := n <| bodyCount := x |>]> (nodes s) -> (allocations s <= allocations s')%nat ->
  registry_ok root s' /\ tree_of persistent s' root = tree_of persistent s root.
Proof.
  intros R E N A. assert (Hok : node_ok (n <| bodyCount := x |>)) by (destruct (tr_node _ _ (rg_tree _ _ R) _ _ E); by split).
  assert (R' : registry_ok root s') by (apply (info_registry root s s' a n (n <| bodyCount := x |>) R E); [by repeat split|done|done|done]). split; [done|].
  destruct (rg_root _ _ R) as (rn & Er & _ & _ & Hv). apply (persistent_same 0); [apply R|apply R'|eauto|unfold kept, persistent; by rewrite Er, Hv|].
  assert (K : forall c, kept persistent s' c = kept persistent s c). { intros c. unfold kept, persistent. rewrite N. destruct (decide (a = c)) as [<-|]; [by rewrite lookup_insert_eq, E|by rewrite lookup_insert_ne]. }
  intros b m Eb Hm. rewrite N. destruct (decide (a = b)) as [<-|]; [rewrite lookup_insert_eq; exists (n <| bodyCount := x |>); replace m with n by congruence|rewrite lookup_insert_ne by done; exists m]; (split; [done|]; split_and!; try done); apply list_filter_iff_in; intros c _; by rewrite K.
Qed.

Lemma below_has_parent x s top b : tree_ok x s -> below s top b -> b = top \/ exists k, nodes s !! b = Some k /\ parent k <> 0.
Proof.
  intros T. induction 1 as [|q m b Hq IH Eq Hm]; [by left|]. right. destruct (tr_child _ _ T _ _ _ Eq Hm) as (k & Ek & Hp). exists k. split; [done|]. rewrite Hp. exact (tree_nonzero _ _ _ _ T Eq).
Qed.

Lemma dropped_view root s s' a k : registry_ok root s -> nodes s !! a = Some k -> deleted k = true -> nodes s' = delete a (nodes s) -> (allocations s <= allocations s')%nat ->
  registry_ok root s' /\ tree_of persistent s' root = tree_of persistent s root.
Proof.
  intros R E Hd N A. pose proof (dropped_registry root s s' a k R E Hd N A) as R'. split; [done|]. destruct (rg_root _ _ R) as (rn & Er & _ & Hrd & _). assert (Hra : a <> root) by congruence.
  apply (tree_same 0 0); [apply R|apply R'|eauto|]. intros b Hb. rewrite N, lookup_delete_ne; [done|]. intros <-. destruct (below_has_parent 0 s root a (rg_tree _ _ R) Hb) as [|(k' & Ek & Hp)]; [done|].
  apply Hp. apply (rg_deleted _ _ R _ _ Ek Hra). congruence.
Qed.

(** ** A body gone *)

Lemma CmpDeleteKeyBody_spec r a : reg_ok r -> a ∈ bodies r -> exists r', CmpDeleteKeyBody r a = Ok r' /\ reg_ok r' /\ calm r r' /\ ptree r' = ptree r.
Proof.
  intros G Ha. destruct (go_open _ G a Ha) as [n En]. unfold CmpDeleteKeyBody. rewrite (get_Some _ _ _ En). run. pose proof (go_bodies _ G a n En) as Hc. unfold opens in Hc. pose proof (proj1 (count_in a (bodies r)) Ha) as Hpos.
  rewrite (proj2 (Z.ltb_lt 0 (bodyCount n))) by lia. run. change (deleted (n <| bodyCount := bodyCount n - 1 |>)) with (deleted n). change (bodyCount (n <| bodyCount := bodyCount n - 1 |>)) with (bodyCount n - 1).
  set (n' := n <| bodyCount := bodyCount n - 1 |>). set (r1 := on_cm (r <| bodies := remove_one a (bodies r) |>) (fun s => put_node s a n')). pose proof (go_registry _ G) as R.
  destruct (counted_view (CmpRootNode r) (cm r) (cm r1) a n (bodyCount n - 1) R En eq_refl (le_n _)) as [R1 V1].
  assert (Hopens : forall b, opens r1 b = opens r b - (if bool_decide (b = a) then 1 else 0)) by (intros b; apply (count_removed a b (bodies r) Ha)).
  assert (Hin : forall b, b <> a -> b ∈ bodies r1 <-> b ∈ bodies r). { intros b Hb. rewrite !count_in. pose proof (Hopens b) as E. rewrite bool_decide_eq_false_2 in E by done. unfold opens in E. lia. }
  assert (Hina : a ∈ bodies r1 <-> bodyCount n - 1 <> 0). { rewrite count_in. pose proof (Hopens a) as E. rewrite bool_decide_eq_true_2 in E by done. unfold opens in E. lia. }
  assert (Hsub : forall b, b ∈ bodies r1 -> b ∈ bodies r). { intros b Hb. destruct (decide (b = a)) as [->|]; [done|by apply Hin]. }
  assert (Hcount : forall b m, nodes (cm r1) !! b = Some m -> bodyCount m = opens r1 b).
  { intros b m. cbn. intros [(<- & <-)|(Hne & Eb)]%lookup_insert_Some; rewrite Hopens; [rewrite bool_decide_eq_true_2 by done; cbn; unfold opens; lia|]. rewrite bool_decide_eq_false_2 by done. rewrite (go_bodies _ G b m Eb). lia. }
  assert (Hquiet : (deleted n = true -> bodyCount n - 1 <> 0) -> exists r', Ok r1 = Ok r' /\ reg_ok r' /\ calm r r' /\ ptree r' = ptree r).
  { intros Hst. exists r1. split; [done|]. split; [|split; [by split|unfold ptree; exact V1]]. split; [exact R1|exact Hcount| | |apply G|apply G|apply G].
    - intros b Hb. apply Hsub, (go_open _ G) in Hb as [m Em]. cbn. destruct (decide (a = b)) as [<-|]; [rewrite lookup_insert_eq; eauto|rewrite lookup_insert_ne by done; eauto].
    - intros b m. cbn. intros [(<- & <-)|(Hne & Eb)]%lookup_insert_Some Hdm; [by apply Hina, Hst|by apply Hin, (go_stale _ G b m)]. }
  destruct (deleted n) eqn:Hd; cbn [andb]; [destruct (Z.eqb_spec (bodyCount n - 1) 0) as [Hz|Hz]|]; [|by apply Hquiet|by apply Hquiet].
  pose proof (rg_gone _ _ R _ _ En Hd) as Hs. change (subkeyCount n') with (subkeyCount n). rewrite (nk_subkeyCount _ (tr_node _ _ (rg_tree _ _ R) _ _ En)), Hs. cbn [length Z.of_nat Z.eqb]. run.
  set (r2 := on_cm r1 _). destruct (dropped_view (CmpRootNode r) (cm r1) (cm r2) a n' R1) as [R2 V2]; [cbn; by rewrite lookup_insert_eq|exact Hd|done|done|].
  exists r2. split; [done|]. split; [|split; [by split|unfold ptree; exact (eq_trans V2 V1)]]. split; try apply G; try done.
  - intros b m. cbn. rewrite delete_insert_eq. intros [Hne Eb]%lookup_delete_Some. change (opens r2 b) with (opens r1 b). apply Hcount. cbn. by rewrite lookup_insert_ne.
  - intros b Hb. change (bodies r2) with (bodies r1) in Hb. assert (Hne : a <> b) by (intros <-; apply Hina in Hb; lia). apply Hsub, (go_open _ G) in Hb as [m Em]. cbn. rewrite delete_insert_eq, lookup_delete_ne by done. eauto.
  - intros b m. cbn. rewrite delete_insert_eq. intros [Hne Eb]%lookup_delete_Some Hdm. change (bodies r2) with (bodies r1). apply Hin; [done|]. by apply (go_stale _ G b m).
Qed.

(** ** A body made *)

Lemma CmpCreateKeyHandle_spec r a allocated created : reg_ok r -> is_Some (nodes (cm r) !! a) -> exists status r', CmpCreateKeyHandle r a allocated created = Ok (status, r') /\ reg_ok r' /\ calm r r' /\ ptree r' = ptree r.
Proof.
  intros G [n En]. unfold CmpCreateKeyHandle. destruct (NT_SUCCESS allocated); cbn [negb]; [|exists allocated, r; split; [done|]; split; [done|]; by split]. rewrite (get_Some _ _ _ En). run.
  set (r1 := on_cm _ _). destruct (counted_view (CmpRootNode r) (cm r) (cm r1) a n (bodyCount n + 1) (go_registry _ G) En eq_refl (le_n _)) as [R1 V1].
  assert (G1 : reg_ok r1).
  { split; try apply G; try done.
    - intros b m. unfold opens. change (bodies r1) with (a :: bodies r). rewrite filter_cons. change (nodes (cm r1)) with (<[a := n <| bodyCount := bodyCount n + 1 |>]> (nodes (cm r))). intros [(<- & <-)|(Hne & Eb)]%lookup_insert_Some; [rewrite decide_True, length_cons by done; change (bodyCount (n <| bodyCount := bodyCount n + 1 |>)) with (bodyCount n + 1); rewrite (go_bodies _ G a n En); unfold opens; lia|]. rewrite decide_False by done. by apply (go_bodies _ G).
    - intros b Hb. cbn in *. destruct (decide (a = b)) as [<-|Hne]; [rewrite lookup_insert_eq; eauto|rewrite lookup_insert_ne by done]. apply (go_open _ G). apply elem_of_cons in Hb as [->|]; done.
    - intros b m. cbn. intros [(<- & <-)|(Hne & Eb)]%lookup_insert_Some Hd; [left|right; by apply (go_stale _ G b m)]. }
  assert (A1 : ptree r1 = ptree r) by (unfold ptree; exact V1). destruct (NT_SUCCESS created).
  - exists created, r1. split; [done|]. split; [done|]. by split.
  - destruct (CmpDeleteKeyBody_spec r1 a G1) as (r2 & E2 & G2 & [C1 C2 C3 C4 C5] & A2); [left|]. rewrite E2. run. exists created, r2. split; [done|]. split; [done|]. split; [by split|]. congruence.
Qed.

Lemma calm_trans r1 r2 r3 : calm r1 r2 -> calm r2 r3 -> calm r1 r3.
Proof. intros [? ? ? ? ?] [? ? ? ? ?]. split; congruence. Qed.

Lemma same_nodes_alike r s : reg_ok r -> nodes s = nodes (cm r) -> (allocations (cm r) <= allocations s)%nat -> reg_ok (r <| cm := s |>) /\ ptree (r <| cm := s |>) = ptree r.
Proof.
  intros G N A. destruct (safe_same_nodes nothing r s G N A) as [G1 _ _ _]. split; [done|]. unfold ptree. destruct (rg_root _ _ (go_registry _ G)) as (n & E & _).
  apply (tree_same 0 0); [apply (rg_tree _ _ (go_registry _ G))|apply (rg_tree _ _ (go_registry _ G1))|eauto|intros b _; cbn; by rewrite N].
Qed.

(** A handle on a key the resolver found. *)
Lemma opened_step W `{!Still W} r s a allocated created : reg_ok r -> nodes s = nodes (cm r) -> (allocations (cm r) <= allocations s)%nat -> is_Some (nodes (cm r) !! a) ->
  exists status r', CmpCreateKeyHandle (r <| cm := s |>) a allocated created = Ok (status, r') /\ safe_step W r r'.
Proof.
  intros G N A Ha. destruct (same_nodes_alike r s G N A) as [G1 V1]. destruct (CmpCreateKeyHandle_spec (r <| cm := s |>) a allocated created G1) as (status & r' & E & G2 & C2 & A2); [cbn; by rewrite N|].
  exists status, r'. split; [done|]. rewrite V1 in A2. apply safe_quiet; [|done|rewrite A2; apply still]. by apply (calm_trans _ (r <| cm := s |>)); [split|].
Qed.

(** ** NtOpenKeyEx *)

Lemma NtOpenKeyEx_step r cleared mapped attributes allocated created : reg_ok r -> (forall attr, attributes = Some attr -> attributes_ok (bodies r) (cm r) attr) ->
  exists status r', NtOpenKeyEx r cleared mapped attributes allocated created = Ok (status, r') /\ safe_step nothing r r'.
Proof.
  intros G Hattr. unfold NtOpenKeyEx. destruct (negb _); [do 2 eexists; split; [done|by apply safe_refl]|]. destruct attributes as [attr|]; [|do 2 eexists; split; [done|by apply safe_refl]]. specialize (Hattr attr eq_refl).
  destruct (negb _); [do 2 eexists; split; [done|by apply safe_refl]|]. destruct (negb _); [do 2 eexists; split; [done|by apply safe_refl]|]. match goal with |- context [if ?b then Ok (STATUS_OBJECT_NAME_INVALID, r) else _] => destruct b end; [do 2 eexists; split; [done|by apply safe_refl]|].
  destruct (CmpResolvePath_spec (CmpRootNode r) (bodies r) (cm r) attr false (negb (Z.land (Attributes attr) OBJ_OPENLINK =? 0)) (go_registry _ G) (go_open _ G) Hattr) as (res & s & -> & N & A & Hres). run.
  destruct res as [status|[[p leaf] found]]; [do 2 eexists; split; [done|by apply safe_same_nodes]|]. destruct Hres as [[(_ & n & En & _)|(? & _)]|(? & ? & _)]; [|done..].
  destruct (mapped =? 0); [do 2 eexists; split; [done|by apply safe_same_nodes]|]. apply opened_step; [apply _|done|done|done|by exists n].
Qed.

(** ** The last handle closed *)

Lemma CmpDeleteKeyBody_step r a : reg_ok r -> a ∈ bodies r -> exists r', CmpDeleteKeyBody r a = Ok r' /\ safe_step nothing r r'.
Proof. intros G Ha. destruct (CmpDeleteKeyBody_spec r a G Ha) as (r' & E & G' & C & V). exists r'. split; [done|]. by apply safe_quiet; [..|split]. Qed.
End handles.
