(* ===== verification/CmCreate.v ===== *)
(** * CmCreate: a key made, and its record (kernel/cm/registry.c). *)

From S2P Require Import Prelude NtStatus Rtl Bytes CmTree CmHive CmReplay CmView CmLog CmSim CmRecover CmSave CmResolve CmRegistry CmLive CmAlike CmTouch CmDurable CmCalls CmKeys CmPaths CmHandles.

Section creating.
Context `{MACHINE} `{VOLUME}.
Implicit Types (r : REG) (s : CM) (a b p c root : addr) (n k h : CMP_KEY_NODE) (nm path : list Z) (names : list (list Z)).

(** The parent with a new subkey. *)
Definition grown h (l : list addr) (time : Z) : CMP_KEY_NODE := h <| subkeys := l |> <| subkeyCount := subkeyCount h + 1 |> <| lastWriteTime := time |>.

(** A key just made: one body, nothing below, volatile where it must be. *)
Definition newborn p h k : Prop := parent k = p /\ subkeys k = [] /\ values k = [] /\ deleted k = false /\ bodyCount k = 1 /\ (isVolatile h = true -> isVolatile k = true).

Lemma made_step r r1 p h a k l (now : Z) : reg_ok r -> nodes (cm r) !! p = Some h -> deleted h = false -> nodes (cm r) !! a = None -> tree_ok 0 (cm r1) -> linked (cm r) p h a (name k) l ->
  (forall c m, c ∈ subkeys h -> nodes (cm r) !! c = Some m -> fold_name (name m) <> fold_name (name k)) -> spelled (name k) -> newborn p h k ->
  nodes (cm r1) = <[p := grown h l now]> (<[a := k]> (nodes (cm r))) -> bodies r1 = a :: bodies r -> CmpHiveReady r1 = CmpHiveReady r -> calm r r1 ->
  reg_ok r1 /\ (isVolatile k = true -> restamped (ptree r) (ptree r1)) /\
  (isVolatile k = false -> exists names u, filed (CmpRootNode r1) (cm r1) a (names ++ [name k]) /\ alter_at names (create_sub (name k) (lastWriteTime k) (isLink k)) (ptree r) = Some u /\ touched names u (ptree r1)).
Proof.
  intros G Eh Hdh Ea T1 Hl Hno Hsp (K1 & K2 & K3 & K4 & K5 & K6) N B Hrd [C1 C2 C3 C4 C5]. pose proof (go_registry _ G) as R. pose proof (rg_tree _ _ R) as T. assert (Hpa : p <> a) by congruence.
  set (h' := grown h l now) in *. assert (R1 : registry_ok (CmpRootNode r) (cm r1)) by (by apply (linked_registry _ (cm r) (cm r1) p h h' a k l)).
  assert (Ep1 : nodes (cm r1) !! p = Some h') by (by rewrite N, lookup_insert_eq). assert (Ea1 : nodes (cm r1) !! a = Some k) by (rewrite N, lookup_insert_ne, lookup_insert_eq; done).
  assert (Ho : forall b, b <> p -> b <> a -> nodes (cm r1) !! b = nodes (cm r) !! b) by (intros; by rewrite N, !lookup_insert_ne).
  assert (Hab : a ∉ bodies r) by (intros Hab; destruct (go_open _ G a Hab); congruence).
  pose proof (linked_view 0 (cm r) (cm r1) p h h' a k l T T1 Eh Ea Hl (rg_sorted _ _ R _ _ Eh) Hno N eq_refl eq_refl eq_refl eq_refl K2 K3) as V. change (lastWriteTime h') with now in V.
  assert (Hopens : forall b, opens r1 b = opens r b + (if bool_decide (b = a) then 1 else 0)).
  { intros b. unfold opens. rewrite B, filter_cons. destruct (decide (b = a)) as [->|Hb]; [rewrite bool_decide_eq_true_2, decide_True, length_cons by done; lia|rewrite bool_decide_eq_false_2, decide_False by congruence; lia]. }
  split; [|split].
  - split; [by rewrite C1| | | |rewrite C4, C5; apply G|rewrite Hrd; apply G|rewrite C3; apply G].
    + intros b m. rewrite N, Hopens. intros [(<- & <-)|(Hb1 & [(<- & <-)|(Hb2 & Eb)]%lookup_insert_Some)]%lookup_insert_Some.
      * rewrite bool_decide_eq_false_2 by done. rewrite Z.add_0_r. exact (go_bodies _ G p h Eh).
      * rewrite bool_decide_eq_true_2 by done. rewrite K5. enough (opens r a = 0) by lia. unfold opens. enough (~ (0 < length (filter (fun c => c = a) (bodies r)))%nat) by lia. by rewrite <- count_in.
      * rewrite bool_decide_eq_false_2 by congruence. rewrite Z.add_0_r. exact (go_bodies _ G b m Eb).
    + intros b. rewrite B, N. destruct (decide (p = b)) as [<-|Hb1]; [rewrite lookup_insert_eq; eauto|rewrite lookup_insert_ne by done]. destruct (decide (a = b)) as [<-|Hb2]; [rewrite lookup_insert_eq; eauto|rewrite lookup_insert_ne by done].
      intros [|Hb]%elem_of_cons; [congruence|by apply (go_open _ G)].
    + intros b m. rewrite B, N. intros [(<- & <-)|(Hb1 & [(<- & <-)|(Hb2 & Eb)]%lookup_insert_Some)]%lookup_insert_Some Hd; [|congruence|right; by apply (go_stale _ G b m)]. change (deleted h') with (deleted h) in Hd. congruence.
  - intros Hv. assert (Hp : persistent k = false) by (unfold persistent; by rewrite Hv). rewrite Hp in V. unfold ptree. rewrite C1.
    destruct (silent_at (CmpRootNode r) (cm r) (cm r1) p h h' a (stamp now) R R1 Eh Ep1 eq_refl Hdh (or_intror Ea) Ho) as [E|[names E]];
      [unfold kept; by rewrite Ea|unfold kept; rewrite Ea1; exact Hp|exact V|by left|right; exists names; by exists now].
  - intros Hv. assert (Hp : persistent k = true) by (unfold persistent; by rewrite Hv). rewrite Hp in V. assert (Hvh : isVolatile h = false) by (destruct (isVolatile h); [by rewrite K6 in Hv|done]).
    destruct (filed_route _ _ _ _ R Eh Hdh Hvh) as (names & (F1 & F2 & F3) & Hr).
    pose proof (changed_at (CmpRootNode r) (cm r) (cm r1) p h h' a names (fun t => u ← create_sub (name k) (lastWriteTime k) (isLink k) t; stamp now u) R R1 Eh Ep1 eq_refl (or_intror Ea) Ho Hr V) as Hc.
    destruct (alter_then_stamp names _ now _ _ (create_sub_name (name k) (lastWriteTime k) (isLink k)) Hc) as (u & Hu & Hst).
    exists names, u. split; [|split; [done|unfold ptree; rewrite C1; by exists now]]. rewrite C1.
    assert (Hk : key_path (cm r1) (CmpRootNode r) a (names ++ [name k])).
    { apply (key_path_child _ _ p h'); [|done| |done].
      - apply (key_path_ext (cm r)); [|done]. intros b m Eb. rewrite N. destruct (decide (p = b)) as [<-|Hb1]; [rewrite lookup_insert_eq; exists h'; replace m with h by congruence|rewrite lookup_insert_ne by done; exists m; rewrite lookup_insert_ne by congruence; done].
        split; [done|]. split; [|done]. intros c Hc'. apply (linked_elem _ _ _ _ _ _ _ Hl). by right.
      - apply (linked_elem _ _ _ _ _ _ _ Hl). by left. }
    split; [|split; [by eapply live_names|done]]. apply Forall_app. split; [done|]. by constructor.
Qed.

(** The key as the service leaves it. *)
Definition made p leaf (t : Z) (isVol link : bool) : CMP_KEY_NODE := new_node p leaf t <| isVolatile := isVol |> <| isLink := link |>.

Lemma create_missing_step r p h leaf options createLink allocated created : reg_ok r -> nodes (cm r) !! p = Some h -> deleted h = false -> spelled leaf ->
  (forall c m, c ∈ subkeys h -> nodes (cm r) !! c = Some m -> fold_name (name m) <> fold_name leaf) -> NT_SUCCESS allocated = true -> NT_SUCCESS created = true ->
  exists status disposition r', create_missing r p leaf options createLink allocated created = Ok (status, disposition, r') /\ safe_step creates r r'.
Proof.
  intros G Eh Hdh Hsp Hno Hal Hcr. pose proof (go_registry _ G) as R. pose proof (rg_tree _ _ R) as T. unfold create_missing. rewrite (get_Some _ _ _ Eh). run.
  destruct (isVolatile h && _); [do 3 eexists; split; [done|by apply safe_refl]|]. destruct (key_depth_spec _ _ _ _ T Eh) as (d & Hd & D & ->). run. destruct (_ <=? _) eqn:Hmax; [do 3 eexists; split; [done|by apply safe_refl]|].
  assert (Hn : name_ok leaf) by (destruct Hsp as (_ & ? & ?); split; [done|lia]). destruct (CmpAllocateNode_spec 0 (cm r) p h leaf T Eh Hn) as (a & s & -> & T1 & A1 & _ & Hcase & _). run.
  destruct Hcase as [[-> N1]|(Ha0 & Ea & _ & l & t & Hl & N1)]; [do 3 eexists; split; [done|by apply safe_same_nodes]|]. rewrite (proj2 (Z.eqb_neq _ _) Ha0).
  assert (Hpa : p <> a) by congruence. set (h1 := h <| subkeys := l |> <| subkeyCount := subkeyCount h + 1 |>) in N1.
  assert (Ea1 : nodes s !! a = Some (new_node p leaf t)) by (rewrite N1, lookup_insert_ne, lookup_insert_eq; done). assert (Ep1 : nodes s !! p = Some h1) by (by rewrite N1, lookup_insert_eq).
  rewrite (get_Some _ _ _ Ea1). run. rewrite (get_Some _ _ _ Ep1). run. unfold CmpNow. cbv zeta. run. change (isVolatile h1) with (isVolatile h).
  set (vol := isVolatile h || _). set (now := s64 _). change (new_node p leaf t <| isVolatile := vol |> <| isLink := createLink |>) with (made p leaf t vol createLink). set (k := made p leaf t vol createLink). set (s2 := put_node _ p _).
  assert (N2 : nodes s2 = <[p := grown h l now]> (<[a := k]> (nodes (cm r)))) by (cbn; rewrite N1; rewrite (insert_insert_ne _ a p) by done; rewrite insert_insert_eq; by rewrite insert_insert_eq).
  unfold CmpCreateKeyHandle. rewrite Hal. cbn [negb]. rewrite (get_Some (cm (r <| cm := s2 |>)) a k) by (change (nodes s2 !! a = Some k); rewrite N2, lookup_insert_ne, lookup_insert_eq; done). run. rewrite Hcr. run. rewrite Hcr. cbn [negb].
  set (k1 := k <| bodyCount := bodyCount k + 1 |>). set (r1 := on_cm _ _). assert (N3 : nodes (cm r1) = <[p := grown h l now]> (<[a := k1]> (nodes (cm r)))) by (change (nodes (cm r1)) with (<[a := k1]> (nodes s2)); rewrite N2; rewrite (insert_insert_ne _ a p) by done; by rewrite insert_insert_eq).
  assert (Hk1 : node_ok k1) by (destruct (tr_node _ _ T1 _ _ Ea1); by split).
  assert (T3 : tree_ok 0 (cm r1)).
  { apply (tree_ext _ (put_node (put_node s a k1) p (grown h l now))); [rewrite N3; cbn; rewrite N1; rewrite (insert_insert_ne _ a p) by done; rewrite insert_insert_eq; by rewrite insert_insert_eq|done|].
    apply (put_info_tree 0 _ p h1); [|cbn; by rewrite lookup_insert_ne|done|done|apply (node_stamp_ok _ now (tr_node _ _ T1 _ _ Ep1)), s64_range]. by apply (put_info_tree 0 s a (new_node p leaf t)). }
  destruct (made_step r r1 p h a k1 l now) as (G1 & Hv & Hnv); try done; [split_and!; try done; change (isVolatile k1) with vol; unfold vol; by intros ->|].
  rewrite (get_Some (cm r1) a k1) by (rewrite N3, lookup_insert_ne, lookup_insert_eq; done). run. change (isVolatile k1) with vol in *. destruct vol; cbn [negb].
  { run. do 3 eexists. split; [done|]. apply safe_notify, safe_quiet; [done|done|by apply Hv]. }
  destruct (Hnv eq_refl) as (names & u & (Hf1 & Hf2 & Hf3) & Hu & Halike). unfold CmpLogCreateKey. rewrite (get_Some (cm r1) a k1) by (rewrite N3, lookup_insert_ne, lookup_insert_eq; done). run.
  destruct (logged_from creates r r1 (Create (names ++ [name k1]) (lastWriteTime k1) createLink) u CMP_OP_CREATE_KEY (if isLink k1 then 1 else 0) a None (lastWriteTime k1) None None) as (r2 & -> & _ & S2); try done.
  - intros s0 N0. by apply (filed_path (CmpRootNode r1) (cm r1)); [apply G1|..].
  - intros Hsz. destruct (spelled_path _ Hf1 ltac:(lia)). split; [split; try done; apply Hk1|cbn [room change_names]; lia].
  - cbn [apply]. by rewrite last_snoc, removelast_last.
  - by exists names, (name k1), (lastWriteTime k1), createLink.
  - run. do 3 eexists. split; [done|]. apply S2.
Qed.

(** ** NtCreateKey *)

Lemma NtCreateKey_step r cleared mapped attributes options dispositionProbe allocated created : reg_ok r -> (forall attr, attributes = Some attr -> attributes_ok (bodies r) (cm r) attr) ->
  NT_SUCCESS allocated = true -> NT_SUCCESS created = true -> exists status disposition r', NtCreateKey r cleared mapped attributes options dispositionProbe allocated created = Ok (status, disposition, r') /\ safe_step creates r r'.
Proof.
  intros G Hattr Hal Hcr. unfold NtCreateKey. destruct (negb _); [do 3 eexists; split; [done|by apply safe_refl]|]. destruct (negb _); [do 3 eexists; split; [done|by apply safe_refl]|].
  destruct attributes as [attr|]; [|do 3 eexists; split; [done|by apply safe_refl]]. specialize (Hattr attr eq_refl). destruct (negb _); [do 3 eexists; split; [done|by apply safe_refl]|]. destruct (negb _); [do 3 eexists; split; [done|by apply safe_refl]|].
  destruct (ObjectName attr) as [[Length path]|]; [|do 3 eexists; split; [done|by apply safe_refl]]. destruct (_ && _); [do 3 eexists; split; [done|by apply safe_refl]|]. set (createLink := negb _). set (openLink := createLink || _).
  destruct (CmpResolvePath_spec (CmpRootNode r) (bodies r) (cm r) attr true openLink (go_registry _ G) (go_open _ G) Hattr) as (res & s & -> & N & A & Hres). run.
  destruct res as [status|[[p leaf] found]]; [do 3 eexists; split; [done|by apply safe_same_nodes]|]. destruct Hres as [[(Hf & n & En & _)|(_ & -> & Hsp & h & Eh & Hdh & Hno)]|(? & ? & _)]; [| |done].
  - rewrite (proj2 (Z.eqb_neq _ _) Hf). cbn [negb]. destruct createLink; [do 3 eexists; split; [done|by apply safe_same_nodes]|]. destruct (mapped =? 0); [do 3 eexists; split; [done|by apply safe_same_nodes]|].
    destruct (opened_step creates r s found allocated created G N A) as (status & r' & -> & S); [by exists n|]. run. by do 3 eexists.
  - change (0 =? 0) with true. cbn [negb]. destruct (same_nodes_alike r s G N A) as [G0 V0]. destruct (create_missing_step (r <| cm := s |>) p h leaf options createLink allocated created G0) as (status & disposition & r' & E & S); try done; [cbn; by rewrite N|cbn; by rewrite N|].
    exists status, disposition, r'. split; [exact E|]. destruct S as [S1 S2 S3 S4]. split; [done|done|done|]. unfold settled in *. by rewrite V0 in S4.
Qed.
End creating.
