(* ===== verification/CmCrash.v ===== *)
(** * CmCrash: what a crash leaves of the registry (kernel/cm/registry.c, hive.c).

    The services, called one after the other from a boot on, and the log file
    they leave: cut anywhere, it replays to the tree after some of the calls. *)

From S2P Require Import Prelude NtStatus Rtl Bytes Crc32 CmTree CmHive CmReplay CmView CmLog CmSim CmRecover CmSave CmResolve CmRegistry CmLive CmAlike CmTouch CmDurable CmCalls CmKeys CmPaths CmHandles CmCreate.

(** A call of a service, or the last reference to a key body dropped. *)
Inductive CALL :=
  | CreateKey (cleared : NTSTATUS) (mapped : Z) (attributes : option OBJECT_ATTRIBUTES) (options : Z) (dispositionProbe allocated created : NTSTATUS)
  | OpenKeyEx (cleared : NTSTATUS) (mapped : Z) (attributes : option OBJECT_ATTRIBUTES) (allocated created : NTSTATUS)
  | CloseBody (a : addr)
  | DeleteKeyCall (object : Z -> NTSTATUS + addr)
  | RenameKeyCall (object : Z -> NTSTATUS + addr) (newName : USER_STRING)
  | SetValueKey (object : Z -> NTSTATUS + addr) (valueName : USER_STRING) (type : Z) (data : NTSTATUS + list Z)
  | DeleteValueKey (object : Z -> NTSTATUS + addr) (valueName : USER_STRING)
  | SetInformationKey (object : Z -> NTSTATUS + addr) (infoClass length : Z) (stamp : NTSTATUS + Z).

Section crash.
Context `{MACHINE} `{VOLUME}.
Implicit Types (r : REG) (s : CM) (a : addr) (n : CMP_KEY_NODE) (ch : change) (log : list change) (nm : list Z) (t u : ktree) (call : CALL) (calls : list CALL).

Definition perform r call : outcome (NTSTATUS * REG) :=
  match call with
  | CreateKey cleared mapped attributes options dispositionProbe allocated created => '(status, _, r) ← NtCreateKey r cleared mapped attributes options dispositionProbe allocated created; Ok (status, r)
  | OpenKeyEx cleared mapped attributes allocated created => NtOpenKeyEx r cleared mapped attributes allocated created
  | CloseBody a => r ← CmpDeleteKeyBody r a; Ok (STATUS_SUCCESS, r)
  | DeleteKeyCall object => NtDeleteKey r object
  | RenameKeyCall object newName => NtRenameKey r object newName
  | SetValueKey object valueName type data => NtSetValueKey r object valueName type data
  | DeleteValueKey object valueName => NtDeleteValueKey r object valueName
  | SetInformationKey object infoClass length stamp => NtSetInformationKey r object infoClass length stamp
  end.

(** What the object manager and the probes give a call: handles name keys with
    an open body, strings are whole units and bytes are bytes.  Two calls are
    left out: a creation whose handle fails, which leaves a key no record
    names, and a rename to a name of one byte, which stops the machine. *)
Definition call_ok r call : Prop :=
  match call with
  | CreateKey _ _ attributes _ _ allocated created => (forall attr, attributes = Some attr -> attributes_ok (bodies r) (cm r) attr) /\ NT_SUCCESS allocated = true /\ NT_SUCCESS created = true
  | OpenKeyEx _ _ attributes _ _ => forall attr, attributes = Some attr -> attributes_ok (bodies r) (cm r) attr
  | CloseBody a => a ∈ bodies r
  | DeleteKeyCall object => handle_ok r object
  | RenameKeyCall object newName => handle_ok r object /\ string_read newName /\ forall nm, newName <> UserString 1 nm
  | SetValueKey object valueName type data => handle_ok r object /\ string_read valueName /\ is_u32 type /\ forall bytes, data = inr bytes -> Forall is_u8 bytes /\ Z.of_nat (length bytes) < 2 ^ 32
  | DeleteValueKey object valueName => handle_ok r object /\ string_read valueName
  | SetInformationKey object _ _ stamp => handle_ok r object /\ forall time, stamp = inr time -> is_s64 time
  end.

(** What each call may do: the record it may write, and what no record says. *)
Definition effect_of call : effect :=
  match call with
  | CreateKey _ _ _ _ _ _ _ => creates
  | OpenKeyEx _ _ _ _ _ | CloseBody _ => nothing
  | DeleteKeyCall _ => removes
  | RenameKeyCall _ newName => renames newName
  | SetValueKey _ valueName type data => sets_value valueName type data
  | DeleteValueKey _ valueName => unsets_value valueName
  | SetInformationKey _ _ _ stamp => sets_time stamp
  end.

(** The calls that stamp a key without a record. *)
Definition makes_or_deletes call : Prop := match call with CreateKey _ _ _ _ _ _ _ | DeleteKeyCall _ => True | _ => False end.

Lemma effect_alike call written t u : effect_of call written t u -> alike t u.
Proof.
  destruct call, written as [ch|]; cbn; try (by intros [-> _]).
  - intros (names & nm & time & link & _ & Hs). by eapply touched_alike.
  - apply restamped_alike.
  - apply restamped_alike.
Qed.

Lemma effect_exact call written t u : ~ makes_or_deletes call -> effect_of call written t u -> u = t.
Proof. intros Hc. destruct call; cbn in *; try tauto; by intros [-> _]. Qed.

Lemma perform_step r call : reg_ok r -> call_ok r call -> exists status r', perform r call = Ok (status, r') /\ safe_step (effect_of call) r r'.
Proof.
  intros G Hc. destruct call; cbn [perform call_ok] in *.
  - destruct Hc as (? & ? & ?). edestruct (NtCreateKey_step r cleared mapped attributes options dispositionProbe allocated created) as (status & d & r' & -> & S); [done..|]. run. by exists status, r'.
  - by apply NtOpenKeyEx_step.
  - destruct (CmpDeleteKeyBody_step r a G Hc) as (r' & -> & S). run. by do 2 eexists.
  - by apply NtDeleteKey_step.
  - destruct Hc as (? & ? & ?). by apply NtRenameKey_step.
  - destruct Hc as (? & ? & ? & ?). by apply NtSetValueKey_step.
  - destruct Hc. by apply NtDeleteValueKey_step.
  - destruct Hc. by apply NtSetInformationKey_step.
Qed.

Fixpoint run_calls r calls : outcome REG :=
  match calls with [] => Ok r | call :: calls => '(_, r) ← perform r call; run_calls r calls end.

Fixpoint calls_ok r calls : Prop :=
  match calls with [] => True | call :: calls => call_ok r call /\ forall status r', perform r call = Ok (status, r') -> calls_ok r' calls end.

(** ** The log of a running registry *)

(** Applied to an empty key called [nm] the log makes [t]. *)
Definition makes nm log t : Prop := forall time link, apply_all log (Key nm time link [] []) = Some t.

(** The file is that log, which makes [u]. *)
Record logged nm r u log : Prop := {
  lo_file : file r = log_image log;
  lo_bytes : CmpHiveLogBytes r = Z.of_nat (length (file r));
  lo_max : CmpHiveLogBytes r <= CMP_HIVE_MAX_BYTES;
  lo_ok : Forall (loggable 1) log;
  lo_makes : makes nm log u;
}.

Lemma log_image_snoc log ch : log_image (log ++ [ch]) = log_image log ++ change_bytes ch.
Proof. unfold log_image. rewrite log_bytes_app, app_assoc. f_equal. unfold log_bytes. rewrite bind_cons. apply app_nil_r. Qed.

Lemma makes_snoc nm log ch u v : makes nm log u -> apply ch u = Some v -> makes nm (log ++ [ch]) v.
Proof. intros Hm Hv time link. rewrite apply_all_app, Hm. cbn [mbind option_bind]. by rewrite apply_all_cons, Hv. Qed.

(** ** What a run did, and what its log remembers *)

(** One call: the tree that persists goes from [t] to [t'], the tree the log makes
    from [u] to [u'].  A record changes both alike; what the call does besides
    happens to the first only. *)
Definition remembered call t u t' u' : Prop :=
  (effect_of call None t t' /\ u' = u) \/
  exists ch v, apply ch t = Some v /\ effect_of call (Some ch) v t' /\ apply ch u = Some u'.

(** The same of a run. *)
Inductive chronicle : list CALL -> REG -> ktree -> REG -> ktree -> Prop :=
  | chronicle_nil r u : chronicle [] r u r u
  | chronicle_cons call calls r u status r1 u1 r' u' : perform r call = Ok (status, r1) ->
      remembered call (ptree r) u (ptree r1) u1 -> chronicle calls r1 u1 r' u' -> chronicle (call :: calls) r u r' u'.

Lemma remembered_alike call t u t' u' : alike u t -> remembered call t u t' u' -> alike u' t'.
Proof.
  intros Hut [[He ->]|(ch & v & Hv & He & Hu')]; [by rewrite <- (effect_alike _ _ _ _ He)|].
  destruct (alike_option_Some (apply ch t) (apply ch u) v) as (w & Hw & Hal); [apply apply_proper; by symmetry|done|].
  replace u' with w by congruence. by rewrite <- (effect_alike _ _ _ _ He), Hal.
Qed.

Lemma chronicle_alike calls r u r' u' : chronicle calls r u r' u' -> alike u (ptree r) -> alike u' (ptree r').
Proof. induction 1 as [|call calls r u status r1 u1 r' u' _ Hc _ IH]; [done|]. intros Hu. apply IH. by eapply remembered_alike. Qed.

(** Where no key is made or deleted the log remembers everything. *)
Lemma chronicle_exact calls r u r' u' : chronicle calls r u r' u' -> Forall (fun call => ~ makes_or_deletes call) calls -> u = ptree r -> u' = ptree r'.
Proof.
  induction 1 as [|call calls r u status r1 u1 r' u' _ Hc _ IH]; [done|]. intros [Hn Hcalls]%Forall_cons ->. apply IH; [done|].
  destruct Hc as [[He ->]|(ch & v & Hv & He & Hu')]; apply effect_exact in He; congruence.
Qed.

Lemma logged_after nm r r' u log call : reg_ok r -> logged nm r u log -> alike u (ptree r) -> safe_step (effect_of call) r r' -> announced r' = [] ->
  exists more u', logged nm r' u' (log ++ more) /\ remembered call (ptree r) u (ptree r') u' /\ (more = [] \/ length more = 1%nat).
Proof.
  intros G [L1 L2 L3 L4 L5] Hu [G' Hr [H1 H2] Hs] Hq. assert (Hw : CmpHiveWarned r = false). { destruct (CmpHiveWarned r) eqn:Hw; [|done]. by destruct (go_warned _ G Hw), (H1 Hq). }
  destruct (Hs Hq Hw) as [(F & B & He)|(ch & t & Hl & Ht & He & F & B & M)].
  - exists [], u. rewrite app_nil_r. split; [by split; [congruence..| | |]; [lia|..]|]. split; [by left|by left].
  - destruct (alike_option_Some (apply ch (ptree r)) (apply ch u) t) as (u' & Hu' & _); [apply apply_proper; by symmetry|done|].
    exists [ch], u'. split; [|split; [right; by exists ch, t|by right]]. split; [by rewrite F, log_image_snoc, L1|rewrite B, F, length_app, L2; lia|done|apply Forall_app; split; [done|by constructor]|by apply (makes_snoc nm log ch u)].
Qed.

(** ** A run, and what every prefix of its log says *)

Lemma run_calls_spec calls : forall r, reg_ok r -> calls_ok r calls -> exists r', run_calls r calls = Ok r' /\ reg_ok r' /\ (announced r' = [] -> announced r = []) /\
  forall nm u log, logged nm r u log -> alike u (ptree r) -> announced r' = [] -> exists more u', logged nm r' u' (log ++ more) /\
    forall m, (m <= length more)%nat -> exists j rj uj, (j <= length calls)%nat /\ run_calls r (take j calls) = Ok rj /\ chronicle (take j calls) r u rj uj /\ makes nm (log ++ take m more) uj /\ (m = length more -> j = length calls).
Proof.
  induction calls as [|call calls IH]; intros r G Hc; cbn [run_calls calls_ok length] in *.
  { exists r. split; [done|]. split; [done|]. split; [done|]. intros nm u log L Hu _. exists [], u. rewrite app_nil_r. split; [done|]. intros m Hm. exists 0%nat, r, u. split; [done|]. split; [done|]. split; [constructor|]. split; [|done]. rewrite take_nil, app_nil_r. apply L. }
  destruct Hc as [Hc Hcs]. destruct (perform_step r call G Hc) as (status & r1 & E1 & S1). rewrite E1. run. destruct (IH r1 (ss_ok _ _ _ S1) (Hcs _ _ E1)) as (r2 & E2 & G2 & Hq & Hmore).
  exists r2. split; [done|]. split; [done|]. split; [intros ?%Hq; by apply (ss_heard _ _ _ S1)|]. intros nm u log L Hu Hq2. destruct (logged_after nm r r1 u log call G L Hu S1 (Hq Hq2)) as (first & u1 & L1 & Hrem & Hfirst).
  destruct (Hmore nm u1 (log ++ first) L1 (remembered_alike _ _ _ _ _ Hu Hrem) Hq2) as (more & u2 & L2 & Hj). exists (first ++ more), u2. split; [by rewrite app_assoc|]. intros m Hm. rewrite length_app in *.
  destruct (decide (length first <= m)%nat) as [Hle|Hlt].
  - destruct (Hj (m - length first)%nat) as (j & rj & uj & Hj1 & Hj2 & Hj3 & Hj4 & Hj5); [lia|]. exists (S j), rj, uj. split; [lia|]. split; [cbn [take run_calls]; rewrite E1; exact Hj2|]. split; [by apply (chronicle_cons _ _ _ _ status r1 u1)|]. rewrite take_app_ge, app_assoc by done. split; [done|]. intros ->. f_equal. apply Hj5. lia.
  - exists 0%nat, r, u. split; [lia|]. split; [done|]. split; [constructor|]. destruct Hfirst as [->|Hf]; [cbn in Hlt; lia|]. split; [|lia]. assert (m = 0%nat) as -> by lia. rewrite take_0, app_nil_r. apply L.
Qed.

(** ** The log a boot starts with *)

Lemma sorted_filter {A B} (R : B -> B -> Prop) (f g : A -> B) (P : A -> Prop) `{forall y, Decision (P y)} (l : list A) : (forall y, y ∈ l -> g y = f y) -> StronglySorted R (f <$> l) -> StronglySorted R (g <$> filter P l).
Proof.
  induction l as [|y l IH]; intros Hg Hs; [constructor|]. rewrite fmap_cons in Hs. apply StronglySorted_inv in Hs as [Hs Hy]. rewrite filter_cons. specialize (IH ltac:(intros; apply Hg; by right) Hs). case_decide; [|done].
  rewrite fmap_cons. constructor; [done|]. rewrite Forall_fmap, Forall_forall in Hy |- *. intros z [_ Hz]%list_elem_of_filter. cbn. rewrite (Hg y ltac:(left)), (Hg z ltac:(by right)). by apply Hy.
Qed.

Lemma registry_sound root s a : registry_ok root s -> is_Some (nodes s !! a) -> sound (tree_of persistent s a).
Proof.
  intros R. pose proof (rg_tree _ _ R) as T. intros Ha. apply (tree_induction 0 s (fun a => sound (tree_of persistent s a)) T) with (a := a); [|done]. clear a Ha. intros a n E IH. rewrite (tree_of_eq 0 persistent s a n) by done. pose proof (tr_node _ _ T _ _ E) as Hok.
  assert (K : forall c, c ∈ subkeys n -> exists k, nodes s !! c = Some k /\ tree_name (tree_of persistent s c) = name k /\ spelled (name k)).
  { intros c Hc. destruct (tr_child _ _ T _ _ _ E Hc) as (k & Ek & Hp). exists k. split; [done|]. split; [by rewrite (name_of_tree 0 persistent s c k)|]. apply (rg_name _ _ R _ _ Ek). rewrite Hp. exact (tree_nonzero _ _ _ _ T E). }
  constructor; [apply Hok..| | |].
  - assert (S : StronglySorted name_before ((fun c => tree_name (tree_of persistent s c)) <$> filter (fun c => kept persistent s c = true) (subkeys n))).
    { apply (sorted_filter _ (key_name s)); [|by apply (rg_sorted _ _ R _ _ E)]. intros c Hc. destruct (K c Hc) as (k & Ek & -> & _). by rewrite (key_name_eq _ _ _ Ek). }
    clear -S. induction (filter _ _) as [|c l IH]; [constructor|]. rewrite !fmap_cons in *. apply StronglySorted_inv in S as [S Hc]. constructor; [by apply IH|]. apply Forall_fmap. exact (proj1 (Forall_fmap _ _ _) Hc).
  - apply Forall_fmap, Forall_forall. intros c [_ Hc]%list_elem_of_filter. destruct (K c Hc) as (k & _ & Hn & Hs). cbn. by rewrite Hn.
  - apply Forall_fmap, Forall_forall. intros c [_ Hc]%list_elem_of_filter. by apply IH.
Qed.

Lemma makes_snapshot t : sound t -> makes (tree_name t) (snapshot [] t) t.
Proof. intros Hs time link. rewrite apply_snapshot by done. by destruct t. Qed.

(** The log written again as one snapshot. *)
Lemma CmpCompactHive_spec r : reg_ok (CmpSetHiveReady r) -> exists r1, CmpCompactHive r = Ok r1 /\ reg_ok (CmpSetHiveReady r1) /\
  (announced r1 = [] -> logged (tree_name (ptree r)) (CmpSetHiveReady r1) (ptree r) (snapshot [] (ptree r)) /\ ptree (CmpSetHiveReady r1) = ptree r).
Proof.
  intros G. destruct (rg_root _ _ (go_registry _ G)) as (n & En & Hp & _). pose proof (go_registry _ G) as R. cbn in R, En. pose proof (rg_tree _ _ R) as T.
  assert (Hsound : sound (ptree r)) by (apply (registry_sound (CmpRootNode r) (cm r) (CmpRootNode r) R); by exists n).
  unfold CmpCompactHive, CmpRewriteHiveLocked. destruct (serialize_image 0 (cm r) (CmpRootNode r) n T En Hsound) as (res & s1 & -> & N1 & A1 & Hres). run.
  destruct (same_nodes_alike (CmpSetHiveReady r) s1 G N1 A1) as [G1 V1].
  assert (Gs : forall m, reg_ok (CmpSetHiveReady (say (r <| cm := s1 |>) m))) by (intros m; destruct G1; by split).
  destruct res as [status|image]; [eexists; split; [done|]; split; [apply Gs|done]|]. destruct Hres as [-> Hmax]. cbn [writes]. set (st := write_status _). destruct (NT_SUCCESS st).
  - eexists. split; [done|]. split; [destruct G1; split; try done; cbn; lia|]. intros _. split; [|exact V1]. split; [done|done|exact Hmax| |by apply makes_snapshot].
    assert (length (log_image (snapshot [] (ptree r))) = (16 + length (log_bytes (snapshot [] (ptree r))))%nat) by (unfold log_image; by rewrite length_app).
    pose proof (height_bound 0 persistent (cm r) (CmpRootNode r) 1 T ltac:(by exists n) (depth_root _ _ n En Hp)). change (tree_of persistent (cm r) (CmpRootNode r)) with (ptree r) in *.
    apply snapshot_loggable; [done|lia|lia|]. unfold CMP_HIVE_MAX_BYTES in Hmax. change (Z.shiftl 64 20) with 67108864 in Hmax. fold (ptree r) in Hmax. lia.
  - match goal with |- context [negb ?b] => change b with (CmpHiveWarned r) end. eexists. split; [done|]. destruct G1 as [? ? ? ? Hw ? ?]. destruct (CmpHiveWarned r) eqn:Ew; cbn [negb].
    + split; [split; try done; intros _; by apply (go_warned _ G)|]. intros Hq. exfalso. by destruct (go_warned _ G Ew).
    + split; [by split|done].
Qed.

(** [data] loads at boot, whatever the memory then, as [t]: into a root of its own,
    the only key there is below it. *)
Definition recovers nm (data : list Z) t : Prop := forall (M : MACHINE) (x top : addr) s (time : Z) (link : bool), plenty -> replay_inv x top s -> depth s top 1 -> tree_of every s top = Key nm time link [] [] ->
  exists s', CmpReplayImage s top data true = Ok (STATUS_SUCCESS, s') /\ replay_inv x top s' /\ tree_of every s' top = t.

Lemma cut_recovers nm log t k : makes nm (take (whole_records (k - 16) log) log) t -> (exists u, makes nm log u) -> Forall (loggable 1) log -> Z.of_nat (length (log_image log)) <= CMP_HIVE_MAX_BYTES -> (16 <= k)%nat ->
  recovers nm (take k (log_image log)) t.
Proof.
  intros Hm [u Hu] Hl Hmax Hk M x top s time link P I D Es. pose proof (Hu time link) as Hv. rewrite <- Es in Hv.
  destruct (cut_replays x top s log u 1 k P I D Hl Hmax Hv Hk) as (w & s' & Ew & E & I' & _ & T'). exists s'. split; [done|]. split; [done|]. rewrite T'.
  pose proof (Hm time link) as Hw'. rewrite <- Es in Hw'. congruence.
Qed.

Lemma whole_records_le log k : (whole_records k log <= length log)%nat.
Proof. revert k. induction log as [|ch log IH]; intros k; cbn [whole_records length]; [lia|]. case_match; [apply le_n_S, IH|lia]. Qed.

(** How many records a cut behind [log] keeps. *)
Lemma cut_behind log more k : (length (log_image log) <= k)%nat -> exists m, (m <= length more)%nat /\ whole_records (k - 16) (log ++ more) = (length log + m)%nat /\ take (whole_records (k - 16) (log ++ more)) (log ++ more) = log ++ take m more.
Proof.
  intros Hk. unfold log_image in Hk. rewrite length_app in Hk. change (length hive_header) with 16%nat in Hk. assert (Hk' : (length (log_bytes log) <= k - 16)%nat) by lia. clear Hk. revert Hk'. generalize (k - 16)%nat as j. clear k.
  induction log as [|ch log IH]; intros j Hj; cbn [app length].
  - exists (whole_records j more). split; [apply whole_records_le|]. done.
  - unfold log_bytes in Hj. rewrite bind_cons, length_app in Hj. fold (log_bytes log) in Hj. cbn [whole_records]. rewrite (proj2 (Nat.leb_le _ _)) by lia.
    destruct (IH (j - length (change_bytes ch))%nat) as (m & Hm & E1 & E2); [lia|]. exists m. split; [done|]. split; [lia|]. cbn [take]. by rewrite E2.
Qed.

(** NtSetInformationKey, when it succeeds, stores the caller's time in the key its
    handle names, and changes no other. *)
Lemma NtSetInformationKey_stores r r' object (infoClass length time : Z) a : reg_ok r -> handle_ok r object -> object KEY_SET_VALUE = inr a ->
  NtSetInformationKey r object infoClass length (inr time) = Ok (STATUS_SUCCESS, r') ->
  exists n, nodes (cm r) !! a = Some n /\ deleted n = false /\ nodes (cm r') = <[a := stamped n time]> (nodes (cm r)).
Proof.
  intros G Hh Ho. unfold NtSetInformationKey, CmpReferenceKey. rewrite Ho.
  destruct (go_open _ G a (Hh _ _ Ho)) as [n En]. rewrite (get_Some _ _ _ En). run. destruct (deleted n) eqn:Hd; cbn [negb andb]; [done|]. run.
  destruct (negb _); [done|]. destruct (negb _); [done|]. rewrite (get_Some _ _ _ En). run.
  set (r1 := on_cm r _). destruct (negb (isVolatile n)).
  - destruct (CmpLogTouchKey r1 a) as [r2| | |] eqn:E; run; try done. intros [= <-]. exists n. split_and!; try done.
    unfold CmpLogTouchKey in E. destruct (get_node _ a); cbn [mbind outcome_bind] in E; try done. by apply CmpLogRecord_nodes in E as ->.
  - run. intros [= <-]. by exists n.
Qed.

(** C4. A crash keeps a prefix of the calls.  From the boot's compaction on, run
    any sequence of NtCreateKey, NtOpenKeyEx, NtDeleteKey, NtRenameKey,
    NtSetValueKey, NtDeleteValueKey, NtSetInformationKey and closes of key
    handles, other than two calls the code does not survive and the hypothesis
    names: a creation whose handle fails after the key was made, which leaves a
    key no record names, and a rename to a name of one byte, which fails an
    assertion.  Every call returns, without a failed assertion or a fault, and
    keeps the registry's invariant.  Unless the console was told of a loss, the
    log file cut at any byte behind the compacted image replays, at the next
    boot, to the tree of what is remembered of some prefix of the calls: each
    record of the call's own kind, with its name, value, type or time, made of the
    same tree as in memory.  That is the tree of the keys that persist as it stood
    then, except for the write times a creation, or the deletion of a volatile
    key, put on the parent without a record; without such calls it is that tree,
    times and all.  The whole file replays to all of the calls.  A time set with
    NtSetInformationKey is the one its key has. *)
Theorem registry_survives_crash r0 calls : reg_ok (CmpSetHiveReady r0) -> exists r1, CmpCompactHive r0 = Ok r1 /\
  (calls_ok (CmpSetHiveReady r1) calls -> exists r2, run_calls (CmpSetHiveReady r1) calls = Ok r2 /\ reg_ok r2 /\
   (announced r2 = [] -> forall k, (length (file r1) <= k)%nat -> exists j rj uj, (j <= length calls)%nat /\ run_calls (CmpSetHiveReady r1) (take j calls) = Ok rj /\
      chronicle (take j calls) (CmpSetHiveReady r1) (ptree r0) rj uj /\ recovers (tree_name (ptree r0)) (take k (file r2)) uj /\
      alike uj (ptree rj) /\ (Forall (fun call => ~ makes_or_deletes call) (take j calls) -> uj = ptree rj) /\
      ((length (file r2) <= k)%nat -> j = length calls))) /\
  forall r r' object infoClass length time a, reg_ok r -> handle_ok r object -> object KEY_SET_VALUE = inr a ->
    NtSetInformationKey r object infoClass length (inr time) = Ok (STATUS_SUCCESS, r') ->
    exists n, nodes (cm r) !! a = Some n /\ deleted n = false /\
      nodes (cm r') = <[a := stamped n time]> (nodes (cm r)).
Proof.
  intros G. destruct (CmpCompactHive_spec r0 G) as (r1 & E1 & G1 & L1). exists r1. split; [done|]. split; [|by intros; eapply NtSetInformationKey_stores].
  intros Hc. destruct (run_calls_spec calls (CmpSetHiveReady r1) G1 Hc) as (r2 & E2 & G2 & Hq & Hmore).
  exists r2. split; [done|]. split; [done|]. intros Hq2 k Hk. destruct (L1 (Hq Hq2)) as [L V]. assert (Hu : alike (ptree r0) (ptree (CmpSetHiveReady r1))) by (by rewrite V).
  destruct (Hmore _ _ _ L Hu Hq2) as (more & u2 & L2 & Hj). pose proof (lo_file _ _ _ _ L) as F1. change (file (CmpSetHiveReady r1)) with (file r1) in F1. pose proof L2 as [F2 B2 M2 O2 K2].
  set (log := snapshot [] (ptree r0)) in *. rewrite F1 in Hk. destruct (cut_behind log more k Hk) as (m & Hm & Hw & Ht). destruct (Hj m Hm) as (j & rj & uj & Hj1 & Hj2 & Hj3 & Hj4 & Hj5). exists j, rj, uj. do 3 (split; [done|]).
  assert (H16 : (16 <= k)%nat) by (unfold log_image in Hk; rewrite length_app in Hk; change (length hive_header) with 16%nat in Hk; lia). rewrite F2. split; [|split; [by eapply chronicle_alike|split]].
  - apply cut_recovers; [by rewrite Ht|by eexists|done|congruence|done].
  - intros Hn. by apply (chronicle_exact _ _ _ _ _ Hj3).
  - intros Hall. apply Hj5. rewrite (cut_none k _ Hall), length_app in Hw. lia.
Qed.
End crash.

(** ** Three calls on an empty registry *)

Definition quiet_volume : VOLUME := {| write_status := fun _ => STATUS_SUCCESS; write_kept := fun _ => O |}.

Definition sample_registry : REG := mkREG lone_key 1 [] [] 0 false 0 false false [].

Definition sample_attributes : OBJECT_ATTRIBUTES := mkATTRIBUTES STATUS_SUCCESS true (Some (22, registryPrefix ++ [SEPARATOR; 0x41])) None 0 (inr (1, [0x41])).

Definition sample_calls : list CALL :=
  [CreateKey STATUS_SUCCESS 1 (Some sample_attributes) 0 STATUS_SUCCESS STATUS_SUCCESS STATUS_SUCCESS;
   SetValueKey (fun _ => inr 3) (UserString 2 [0x76]) 1 (inr [1; 2; 3]);
   SetInformationKey (fun _ => inr 3) CMP_KEY_WRITE_TIME_INFORMATION 8 (inr 77)].

Lemma sample_start : reg_ok (CmpSetHiveReady sample_registry).
Proof.
  assert (K : forall a n, nodes lone_key !! a = Some n -> a = 1 /\ n = lone_node) by (intros a n; cbn; intros [(<- & <-)|(_ & [=])]%lookup_insert_Some; done).
  split; try done; [exact lone_registry|..]; try (by intros a n [-> ->]%K). intros a Ha. by apply not_elem_of_nil in Ha.
Qed.

Lemma units_below (m : Z) (l : list Z) : forallb (fun c => (0 <=? c) && (c <? m)) l = true -> Forall (fun c => 0 <= c < m) l.
Proof. induction l as [|c l IH]; cbn [forallb]; [constructor|]. intros [Hc Hl]%andb_prop. constructor; [lia|by apply IH]. Qed.

Lemma registry_survives_crash_witness : let _ := quiet_machine in let _ := quiet_volume in exists r1 r2 j rj uj, CmpCompactHive sample_registry = Ok r1 /\ run_calls (CmpSetHiveReady r1) sample_calls = Ok r2 /\
  run_calls (CmpSetHiveReady r1) (take j sample_calls) = Ok rj /\ recovers [] (take (length (file r2) - 1) (file r2)) uj.
Proof.
  intros M V. destruct (registry_survives_crash sample_registry sample_calls sample_start) as (r1 & E1 & Hrun & _). exists r1. pose proof E1 as E0. vm_compute in E1. injection E1 as E1. assert (Hc : calls_ok (CmpSetHiveReady r1) sample_calls).
  { subst r1. split; [split; [intros attr [= <-]|by split]|intros status r' E; vm_compute in E; injection E as _ <-; split; [|intros status' r'' E'; vm_compute in E'; injection E' as _ <-; split; [split; [intros access a [= <-]; left|intros time [= <-]; unfold is_s64; lia]|done]]].
    - split; [intros Length path [= _ <-]|split; [done|intros base remaining [= <- <-]]].
      + apply (units_below (2 ^ 16)); reflexivity.
      + split; [exists (mkNODE 0 [] [] 0 0 0 0 false false false []); split; reflexivity|apply (units_below (2 ^ 16)); reflexivity].
    - split; [intros access a [= <-]; left|]. split; [split; [apply (units_below (2 ^ 16)); reflexivity|cbn [length]; lia]|]. split; [unfold is_u32; lia|]. intros bytes [= <-]. split; [apply (units_below 256); reflexivity|cbn [length]; lia]. }
  destruct (Hrun Hc) as (r2 & E2 & _ & Hcut). pose proof E2 as E3. rewrite <- E1 in E3. vm_compute in E3. injection E3 as E3. destruct (Hcut ltac:(by subst r2) (length (file r2) - 1)%nat) as (j & rj & uj & _ & Ej & _ & Hrec & _); [subst r1 r2; vm_compute; lia|].
  exists r2, j, rj, uj. split; [done|]. split; [done|]. split; [done|]. exact Hrec.
Defined.
