(* ===== verification/CmQuery.v ===== *)
(** * CmQuery: what the registry's queries answer (kernel/cm/registry.c).

    The information classes of keys and values, filled into a buffer of any
    length: as much of the reply as fits, and the length the whole would need. *)

From S2P Require Import Prelude NtStatus Rtl Bytes CmTree CmHive CmReplay CmView CmLog CmSim CmRecover CmSave CmResolve CmRegistry CmLive.

Inductive KEY_INFORMATION_CLASS := KeyBasicInformation | KeyNodeInformation | KeyFullInformation | KeyNameInformation | KeyCachedInformation |
  KeyFlagsInformation | KeyVirtualizationInformation | KeyHandleTagsInformation | KeyTrustInformation | KeyLayerInformation | MaxKeyInfoClass.

Inductive KEY_VALUE_INFORMATION_CLASS := KeyValueBasicInformation | KeyValueFullInformation | KeyValuePartialInformation |
  KeyValueFullInformationAlign64 | KeyValuePartialInformationAlign64 | KeyValueLayerInformation.

#[export] Instance information_class_eq : EqDecision KEY_INFORMATION_CLASS.
Proof. solve_decision. Defined.

Definition KEY_QUERY_VALUE : Z := 1.
Definition KEY_ENUMERATE_SUB_KEYS : Z := 8.

(** [WCHAR inlinePath[260]]. *)
Definition INLINE_PATH_BYTES : Z := 520.

(** A query's status, what it stores in *resultLength if anything, and the buffer. *)
Definition REPLY : Type := NTSTATUS * option Z * list Z.

Section query.
Context `{MACHINE}.
Implicit Types (s : CM) (a : addr) (n k : CMP_KEY_NODE) (v : CMP_VALUE) (out info : list Z) (length : Z).

(** memcpy(out, &info, length < fixed ? length : fixed). *)
Definition copy_header out length info : outcome (list Z) := splice out 0 (take (Z.to_nat length) info).

Definition CmpCopyVariable out length (variableOffset : Z) (source : list Z) : outcome (list Z) :=
  if (variableOffset <? length) && negb (bool_decide (source = [])) then splice out variableOffset (take (Z.to_nat (length - variableOffset)) source) else Ok out.

Definition CmpFinishInfo length (fixedSize required : Z) : NTSTATUS * Z :=
  (if length <? fixedSize then STATUS_BUFFER_TOO_SMALL else if length <? required then STATUS_BUFFER_OVERFLOW else STATUS_SUCCESS, required).

(** if (x > *max) *max = x. *)
Definition larger (m x : Z) : Z := if m <? x then x else m.

Fixpoint longest_name s (m : Z) (l : list addr) : outcome Z :=
  match l with [] => Ok m | c :: l => child ← get_node s c; longest_name s (larger m (2 * Z.of_nat (List.length (name child)))) l end.

Definition CmpMeasureChildren s n : outcome (Z * Z * Z) :=
  maxNameLen ← longest_name s 0 (subkeys n);
  Ok (maxNameLen, foldl (fun m v => larger m (2 * Z.of_nat (List.length (value_name v)))) 0 (values n), foldl (fun m v => larger m (Z.of_nat (List.length (value_data v)))) 0 (values n)).

Definition dword (x : Z) : list Z := le_bytes 4 (u32 x).
Definition qword (x : Z) : list Z := le_bytes 8 (u64 x).

(** Both parts, and the verdict. *)
Definition fill out length info (parts : list (list Z)) : outcome REPLY :=
  out ← copy_header out length info;
  let fixed := Z.of_nat (List.length info) in
  '(out, required) ← foldl (fun acc part => '(out, offset) ← acc; out ← CmpCopyVariable out length offset part; Ok (out, offset + Z.of_nat (List.length part))) (Ok (out, fixed)) parts;
  let '(status, required) := CmpFinishInfo length fixed (u32 required) in Ok (status, Some required, out).

(** [padding]: the four bytes behind NameLength in a KEY_CACHED_INFORMATION, as
    they are on the stack.  The loops of KeyFullInformation are those of
    CmpMeasureChildren, written out. *)
Definition CmpFillKeyInfo s a (infoClass : KEY_INFORMATION_CLASS) out length (padding : list Z) : outcome (REPLY * CM) :=
  n ← get_node s a;
  let NameLength := 2 * Z.of_nat (List.length (name n)) in
  match infoClass with
  | KeyBasicInformation =>
      r ← fill out length (qword (lastWriteTime n) ++ dword 0 ++ dword NameLength) [unit_bytes (name n)]; Ok (r, s)
  | KeyNodeInformation =>
      r ← fill out length (qword (lastWriteTime n) ++ dword 0 ++ dword (-1) ++ dword 0 ++ dword NameLength) [unit_bytes (name n)]; Ok (r, s)
  | KeyFullInformation =>
      '(maxNameLen, maxValueNameLen, maxValueDataLen) ← CmpMeasureChildren s n;
      r ← fill out length (qword (lastWriteTime n) ++ dword 0 ++ dword (-1) ++ dword 0 ++ dword (subkeyCount n) ++ dword maxNameLen ++ dword 0 ++ dword (valueCount n) ++ dword maxValueNameLen ++ dword maxValueDataLen) [];
      Ok (r, s)
  | KeyNameInformation =>
      let fixed := 4 in
      let capacity := if fixed <? length then (length - fixed) / 2 else 0 in
      path ← CmpBuildPath s a 0;
      let nameBytes := u32 (2 * Z.of_nat (List.length path)) in
      let copy := if nameBytes <? capacity * 2 then nameBytes else capacity * 2 in
      '(staged, s) ← (if negb (copy =? 0) && (INLINE_PATH_BYTES <? copy) then '(block, s) ← pool_allocate s copy; Ok (negb (block =? 0), s) else Ok (true, s));
      if negb (staged : bool) then Ok ((STATUS_INSUFFICIENT_RESOURCES, None, out), s) else
      out ← (if negb (copy =? 0) then splice out fixed (take (Z.to_nat copy) (unit_bytes path)) else Ok out);
      out ← copy_header out length (dword nameBytes);
      let '(status, required) := CmpFinishInfo length fixed (u32 (fixed + nameBytes)) in Ok ((status, Some required, out), s)
  | KeyCachedInformation =>
      '(maxNameLen, maxValueNameLen, maxValueDataLen) ← CmpMeasureChildren s n;
      r ← fill out length (qword (lastWriteTime n) ++ dword 0 ++ dword (subkeyCount n) ++ dword maxNameLen ++ dword (valueCount n) ++ dword maxValueNameLen ++ dword maxValueDataLen ++ dword NameLength ++ padding) [];
      Ok (r, s)
  | _ => Ok ((STATUS_INVALID_PARAMETER, None, out), s)
  end.

Definition CmpFillValueInfo v (infoClass : KEY_VALUE_INFORMATION_CLASS) out length : outcome REPLY :=
  let NameLength := 2 * Z.of_nat (List.length (value_name v)) in
  let DataLength := Z.of_nat (List.length (value_data v)) in
  match infoClass with
  | KeyValueBasicInformation => fill out length (dword 0 ++ dword (value_type v) ++ dword NameLength) [unit_bytes (value_name v)]
  | KeyValueFullInformation => fill out length (dword 0 ++ dword (value_type v) ++ dword (20 + NameLength) ++ dword DataLength ++ dword NameLength) [unit_bytes (value_name v); value_data v]
  | KeyValuePartialInformation => fill out length (dword 0 ++ dword (value_type v) ++ dword DataLength) [value_data v]
  | KeyValuePartialInformationAlign64 => fill out length (dword (value_type v) ++ dword DataLength) [value_data v]
  | _ => Ok (STATUS_INVALID_PARAMETER, None, out)
  end.

(** ** The services

    [resultLength]: no pointer, or what its probe answers; [bufferProbe]: what
    the probe of the buffer answers. *)
Definition CmpProbeInfoOut (resultLength : option NTSTATUS) length (bufferProbe : NTSTATUS) : NTSTATUS :=
  match resultLength with
  | None => STATUS_ACCESS_VIOLATION
  | Some status => if negb (NT_SUCCESS status) then status else if negb (length =? 0) then bufferProbe else status
  end.

Definition value_class_built (infoClass : KEY_VALUE_INFORMATION_CLASS) : bool :=
  match infoClass with KeyValueBasicInformation | KeyValueFullInformation | KeyValuePartialInformation | KeyValuePartialInformationAlign64 => true | _ => false end.

Implicit Types (r : REG) (object : Z -> NTSTATUS + addr).

Definition NtQueryValueKey r object (valueName : USER_STRING) (infoClass : KEY_VALUE_INFORMATION_CLASS) out length (resultLength : option NTSTATUS) (bufferProbe : NTSTATUS) : outcome REPLY :=
  match valueName with
  | NullString => Ok (STATUS_ACCESS_VIOLATION, None, out)
  | BadString status => Ok (status, None, out)
  | UserString Length nm =>
      if CMP_MAX_VALUE_NAME_BYTES <? Length then Ok (STATUS_OBJECT_NAME_NOT_FOUND, None, out) else
      let status := CmpProbeInfoOut resultLength length bufferProbe in
      if negb (NT_SUCCESS status) then Ok (status, None, out) else
      if negb (value_class_built infoClass) then Ok (STATUS_INVALID_PARAMETER, None, out) else
      body ← CmpReferenceKey r object KEY_QUERY_VALUE false;
      match body with inl status => Ok (status, None, out) | inr a =>
      n ← get_node (cm r) a;
      found ← CmpFindValue (values n) nm;
      match found with
      | None => Ok (STATUS_OBJECT_NAME_NOT_FOUND, None, out)
      | Some i => v ← deref (values n !! i) "value"; CmpFillValueInfo (mkVALUE nm (value_type v) (value_data v)) infoClass out length
      end end
  end.

Definition NtEnumerateValueKey r object (index : Z) (infoClass : KEY_VALUE_INFORMATION_CLASS) out length (resultLength : option NTSTATUS) (bufferProbe : NTSTATUS) : outcome REPLY :=
  let status := CmpProbeInfoOut resultLength length bufferProbe in
  if negb (NT_SUCCESS status) then Ok (status, None, out) else
  if negb (value_class_built infoClass) then Ok (STATUS_INVALID_PARAMETER, None, out) else
  body ← CmpReferenceKey r object KEY_QUERY_VALUE false;
  match body with inl status => Ok (status, None, out) | inr a =>
  n ← get_node (cm r) a;
  if valueCount n <=? index then Ok (STATUS_NO_MORE_ENTRIES, None, out) else
  v ← deref (values n !! Z.to_nat index) "value";
  '(status, required, out) ← CmpFillValueInfo v infoClass out length;
  Ok (if status =? STATUS_BUFFER_TOO_SMALL then STATUS_BUFFER_OVERFLOW else status, required, out)
  end.

Definition NtEnumerateKey r object (index : Z) (infoClass : KEY_INFORMATION_CLASS) out length (resultLength : option NTSTATUS) (bufferProbe : NTSTATUS) (padding : list Z) : outcome (REPLY * REG) :=
  let status := CmpProbeInfoOut resultLength length bufferProbe in
  if negb (NT_SUCCESS status) then Ok ((status, None, out), r) else
  if index =? 0xFFFFFFFF then Ok ((STATUS_NO_MORE_ENTRIES, None, out), r) else
  body ← CmpReferenceKey r object KEY_ENUMERATE_SUB_KEYS false;
  match body with inl status => Ok ((status, None, out), r) | inr a =>
  n ← get_node (cm r) a;
  if subkeyCount n <=? index then Ok ((STATUS_NO_MORE_ENTRIES, None, out), r) else
  c ← deref (subkeys n !! Z.to_nat index) "subkey";
  '(reply, s) ← CmpFillKeyInfo (cm r) c infoClass out length padding; Ok (reply, r <| cm := s |>)
  end.

Definition NtQueryKey r object (infoClass : KEY_INFORMATION_CLASS) out length (resultLength : option NTSTATUS) (bufferProbe : NTSTATUS) (padding : list Z) : outcome (REPLY * REG) :=
  let status := CmpProbeInfoOut resultLength length bufferProbe in
  if negb (NT_SUCCESS status) then Ok ((status, None, out), r) else
  body ← CmpReferenceKey r object 0 false;
  match body with inl status => Ok ((status, None, out), r) | inr a =>
  '(reply, s) ← CmpFillKeyInfo (cm r) a infoClass out length padding; Ok (reply, r <| cm := s |>)
  end.

Definition NtFlushKey r object : outcome NTSTATUS :=
  body ← CmpReferenceKey r object 0 false;
  match body with inl status => Ok status | inr _ => Ok STATUS_SUCCESS end.
End query.


(** ** What a buffer shows of a reply *)

Section replies.
Context `{MACHINE}.
Implicit Types (s : CM) (a c : addr) (n k : CMP_KEY_NODE) (v : CMP_VALUE) (out info part R : list Z) (L : Z).

(** [R] over the start of [out]. *)
Definition overlay out R : list Z := R ++ drop (length R) out.

(** The bytes of [R] that fit. *)
Definition cut L R : list Z := take (Z.to_nat L) R.

Definition fits L out : Prop := 0 <= L <= Z.of_nat (length out).

Definition size R : Z := Z.of_nat (length R).

Lemma splice_overlay out R at_ part : at_ = size R -> (length R + length part <= length out)%nat -> splice (overlay out R) at_ part = Ok (overlay out (R ++ part)).
Proof.
  intros -> Hl. unfold overlay. rewrite splice_spec by (rewrite length_drop; lia). rewrite <- app_assoc, drop_drop, length_app. done.
Qed.

Lemma copy_header_spec out L info : fits L out -> copy_header out L info = Ok (overlay out (cut L info)).
Proof.
  intros Hf. unfold copy_header, cut. pose proof (splice_overlay out [] 0 (take (Z.to_nat L) info) eq_refl) as E. unfold overlay in E at 1. cbn [length app] in E. rewrite drop_0 in E.
  rewrite E; [done|]. rewrite length_take. unfold fits in Hf. lia.
Qed.

Lemma CmpCopyVariable_spec out L R part : fits L out -> CmpCopyVariable (overlay out (cut L R)) L (size R) part = Ok (overlay out (cut L (R ++ part))).
Proof.
  intros Hf. unfold fits, size in *. unfold CmpCopyVariable, cut. destruct (Z.ltb_spec (Z.of_nat (length R)) L) as [Hlt|Hge]; cbn [andb].
  - rewrite (take_ge R), (take_app_ge R) by lia. destruct (bool_decide_reflect (part = [])) as [->|Hne]; cbn [negb]; [by rewrite take_nil, app_nil_r|].
    rewrite splice_overlay; [|done|rewrite length_take; lia]. do 3 f_equal. f_equal. lia.
  - by rewrite take_app_le by lia.
Qed.

(** What the status says of a reply of which [fixed] bytes are the header. *)
Definition verdict L fixed (required : Z) : NTSTATUS := (CmpFinishInfo L fixed required).1.

Lemma fill_reply out L info parts : fits L out ->
  fill out L info parts = Ok (verdict L (size info) (u32 (size (info ++ concat parts))), Some (u32 (size (info ++ concat parts))), overlay out (cut L (info ++ concat parts))).
Proof.
  intros Hf. unfold fill. rewrite copy_header_spec by done. run. fold (size info). set (f := fun acc part => _).
  assert (E : forall R, foldl f (Ok (overlay out (cut L R), size R)) parts = Ok (overlay out (cut L (R ++ concat parts)), size (R ++ concat parts))).
  { induction parts as [|part parts IH]; intros R; cbn [foldl concat]; [by rewrite app_nil_r|]. unfold f at 2. run. rewrite CmpCopyVariable_spec by done. run.
    replace (size R + Z.of_nat (length part)) with (size (R ++ part)) by (unfold size; rewrite length_app; lia). by rewrite IH, <- app_assoc. }
  rewrite E. run. done.
Qed.
(** ** The classes *)

Lemma larger_max m x : larger m x = Z.max m x.
Proof. unfold larger. destruct (Z.ltb_spec m x); lia. Qed.

(** [m] is the largest of the numbers, 0 if there is none. *)
Definition maximum (l : list Z) (m : Z) : Prop := Forall (fun x => x <= m) l /\ (m ∈ l \/ m = 0 /\ l = []).

Lemma maximum_run {A} (f : A -> Z) (l : list A) : (forall w, 0 <= f w) -> maximum (f <$> l) (foldl (fun m w => larger m (f w)) 0 l).
Proof.
  intros Hf. assert (K : forall m, 0 <= m -> let m' := foldl (fun m w => larger m (f w)) m l in m <= m' /\ Forall (fun x => x <= m') (f <$> l) /\ (m' ∈ f <$> l \/ m' = m)).
  { induction l as [|w l IH]; intros m Hm; cbn [foldl fmap list_fmap]; [split_and!; [lia|constructor|by right]|]. destruct (IH (larger m (f w))) as (H1 & H2 & H3); [rewrite larger_max; lia|].
    revert H1 H2 H3. generalize (foldl (fun m w => larger m (f w)) (larger m (f w)) l) as m'. rewrite larger_max. intros m' H1 H2 H3. split; [lia|]. split; [constructor; [lia|done]|].
    destruct H3 as [H3|H3]; [left; by right|]. destruct (Z.max_spec m (f w)) as [[_ E]|[_ E]]; [left; rewrite H3, E; by left|right; lia]. }
  destruct l as [|w l]; [split; [constructor|by right]|]. destruct (K 0 ltac:(lia)) as (H1 & H2 & H3). split; [done|]. left. destruct H3 as [|H3]; [done|]. cbv zeta in *. rewrite H3 in *.
  rewrite fmap_cons in H2. apply Forall_cons in H2 as [H2 _]. specialize (Hf w). rewrite fmap_cons. assert (f w = 0) as -> by lia. left.
Qed.

Lemma longest_name_run s m (l : list addr) : (forall c, c ∈ l -> exists k, nodes s !! c = Some k) ->
  longest_name s m l = Ok (foldl (fun m c => larger m (2 * Z.of_nat (length (key_name s c)))) m l).
Proof.
  revert m. induction l as [|c l IH]; intros m Hl; [done|]. cbn [longest_name foldl]. destruct (Hl c) as [k Ek]; [left|]. rewrite (get_Some _ _ _ Ek). run. rewrite (key_name_eq _ _ _ Ek). apply IH. intros; apply Hl; by right.
Qed.

(** The largest name of a subkey, name of a value and data of a value. *)
Definition maxima s n (m mv md : Z) : Prop := maximum ((fun c => 2 * Z.of_nat (length (key_name s c))) <$> subkeys n) m /\
  maximum ((fun v => 2 * Z.of_nat (length (value_name v))) <$> values n) mv /\ maximum ((fun v => Z.of_nat (length (value_data v))) <$> values n) md.

Lemma CmpMeasureChildren_spec s a n : tree_ok 0 s -> nodes s !! a = Some n -> exists m mv md, CmpMeasureChildren s n = Ok (m, mv, md) /\ maxima s n m mv md.
Proof.
  intros T E. unfold CmpMeasureChildren. rewrite longest_name_run.
  2: { intros c Hc. destruct (tr_child _ _ T _ _ _ E Hc) as (k & Ek & _). by exists k. }
  run. do 3 eexists. split; [done|]. split; [|split]; apply maximum_run; lia.
Qed.

(** The header of a class and what follows it. *)
Definition shown out L (reply : option (list Z * list Z)) : REPLY :=
  match reply with
  | Some (info, rest) => (verdict L (size info) (u32 (size (info ++ rest))), Some (u32 (size (info ++ rest))), overlay out (cut L (info ++ rest)))
  | None => (STATUS_INVALID_PARAMETER, None, out)
  end.

Lemma fill_shown out L info parts rest : fits L out -> rest = concat parts -> fill out L info parts = Ok (shown out L (Some (info, rest))).
Proof. intros Hf ->. by rewrite fill_reply. Qed.

Definition value_reply v (infoClass : KEY_VALUE_INFORMATION_CLASS) : option (list Z * list Z) :=
  let NameLength := 2 * Z.of_nat (length (value_name v)) in
  let DataLength := Z.of_nat (length (value_data v)) in
  match infoClass with
  | KeyValueBasicInformation => Some (dword 0 ++ dword (value_type v) ++ dword NameLength, unit_bytes (value_name v))
  | KeyValueFullInformation => Some (dword 0 ++ dword (value_type v) ++ dword (20 + NameLength) ++ dword DataLength ++ dword NameLength, unit_bytes (value_name v) ++ value_data v)
  | KeyValuePartialInformation => Some (dword 0 ++ dword (value_type v) ++ dword DataLength, value_data v)
  | KeyValuePartialInformationAlign64 => Some (dword (value_type v) ++ dword DataLength, value_data v)
  | _ => None
  end.

Lemma CmpFillValueInfo_spec v infoClass out L : fits L out -> CmpFillValueInfo v infoClass out L = Ok (shown out L (value_reply v infoClass)).
Proof. intros Hf. destruct infoClass; unfold CmpFillValueInfo; cbv zeta; try done; apply fill_shown; try done; cbn [concat app]; by rewrite ?app_nil_r. Qed.

Lemma built_replies v infoClass : value_class_built infoClass = true -> exists info rest, value_reply v infoClass = Some (info, rest).
Proof. destruct infoClass; try done; intros _; do 2 eexists; reflexivity. Qed.

(** The path of a key, from above the root: the names on the way, each behind a
    separator; a key without a name, as the root of an image has none, adds
    nothing. *)
Definition step_name (nm : list Z) : list Z := match nm with [] => [] | _ => SEPARATOR :: nm end.

Inductive full_path s : addr -> list Z -> Prop :=
  | full_path_top a n : nodes s !! a = Some n -> parent n = 0 -> full_path s a (step_name (name n))
  | full_path_sub a n path : nodes s !! a = Some n -> parent n <> 0 -> full_path s (parent n) path -> full_path s a (path ++ step_name (name n)).

Lemma absolute_path s a d fuel : tree_ok 0 s -> depth s a d -> (d <= fuel)%nat -> exists path, build_path s a 0 fuel = Ok path /\ full_path s a path /\ Z.of_nat (length path) <= Z.of_nat d * 40000.
Proof.
  intros T D. revert fuel. assert (K : forall a n fuel, nodes s !! a = Some n -> a <> 0 -> build_path s a 0 (S fuel) =
    used ← build_path s (parent n) 0 fuel; Ok (used ++ step_name (name n))).
  { intros b n fuel E Hb. cbn [build_path]. rewrite (proj2 (Z.eqb_neq b 0) Hb). cbn [orb]. rewrite (get_Some _ _ _ E). run.
    destruct (build_path s (parent n) 0 fuel) as [used| | |]; [|done..]. cbn [mbind outcome_bind]. destruct (name n) as [|c nm]; [rewrite bool_decide_eq_true_2 by done|rewrite bool_decide_eq_false_2 by done]; [by rewrite app_nil_r|done]. }
  assert (F : forall n, node_ok n -> Z.of_nat (length (step_name (name n))) <= 40000).
  { intros n [[_ Hn] _ _ _ _ _ _]. change (2 ^ 15) with 32768 in Hn. destruct (name n); cbn [step_name length] in *; lia. }
  induction D as [a n E Hp|a n d E Hp D IH]; intros [|fuel] Hd; try lia; rewrite (K a n) by (first [exact E | exact (tree_nonzero _ _ _ _ T E)]); pose proof (F n (tr_node _ _ T _ _ E)) as Hn.
  - rewrite Hp. assert (build_path s 0 0 fuel = Ok []) as -> by (by destruct fuel). run. cbn [app]. eexists. split; [done|]. split; [by constructor|]. lia.
  - destruct (IH fuel ltac:(lia)) as (used & -> & Hu & Hl). run. eexists. split; [done|]. split; [by apply full_path_sub|]. rewrite length_app. lia.
Qed.

Lemma CmpBuildPath_absolute s a n : tree_ok 0 s -> nodes s !! a = Some n -> exists path, CmpBuildPath s a 0 = Ok path /\ full_path s a path /\ 2 * Z.of_nat (length path) < 2 ^ 31.
Proof.
  intros T E. unfold CmpBuildPath. destruct (tr_depth _ _ T _ _ E) as (d & Hd & D). destruct (absolute_path s a d LEVELS T D) as (path & -> & Hp & Hl); [change LEVELS with 97%nat; lia|]. exists path. split; [done|]. split; [done|]. change (2 ^ 31) with 2147483648. lia.
Qed.
Definition KEY_NAME_HEADER : Z := 4.

(** The bytes of a path of [n] characters that a buffer of [L] bytes takes behind
    the header: whole characters. *)
Definition path_room L (n : nat) : Z := Z.min (2 * Z.of_nat n) (if KEY_NAME_HEADER <? L then 2 * ((L - KEY_NAME_HEADER) / 2) else 0).

Lemma length_dword x : length (dword x) = 4%nat.
Proof. apply length_le_bytes. Qed.

Lemma length_qword x : length (qword x) = 8%nat.
Proof. apply length_le_bytes. Qed.

(** A header written after what follows it. *)
Lemma header_last out L info part : fits L out -> info <> [] -> size info <= L -> size info + size part <= size out ->
  (out1 ← splice out (size info) part; copy_header out1 L info) = Ok (overlay out (info ++ part)).
Proof.
  intros Hf Hi Hl Hp. unfold fits, size in *. unfold splice. rewrite !(proj2 (Z.leb_le _ _)) by lia. cbn [andb]. rewrite Nat2Z.id. run.
  rewrite copy_header_spec by (unfold fits; rewrite !length_app, length_take, length_drop; lia). unfold overlay, cut. rewrite (take_ge info) by lia.
  assert (Ht : length (take (length info) out) = length info) by (rewrite length_take; lia). by rewrite drop_app_length', <- app_assoc, length_app.
Qed.

(** More than the stack buffer holds is staged in a block of the pool. *)
Lemma CmpFillKeyInfo_name s a n out L padding : tree_ok 0 s -> nodes s !! a = Some n -> fits L out -> exists path, full_path s a path /\
  let R := dword (2 * Z.of_nat (length path)) ++ unit_bytes path in
  let staged := INLINE_PATH_BYTES <? path_room L (length path) in
  size R < 2 ^ 32 /\
  CmpFillKeyInfo s a KeyNameInformation out L padding =
    Ok (if staged && negb (pool_answers (allocations s)) then (STATUS_INSUFFICIENT_RESOURCES, None, out)
        else (verdict L KEY_NAME_HEADER (size R), Some (size R), overlay out (cut (Z.min L KEY_NAME_HEADER + path_room L (length path)) R)),
        if staged then s <| allocations := S (allocations s) |> else s).
Proof.
  intros T E Hf. destruct (CmpBuildPath_absolute s a n T E) as (path & Ep & Hpath & Hlen). exists path. split; [done|]. unfold CmpFillKeyInfo. rewrite (get_Some _ _ _ E). run. cbv zeta. rewrite Ep. run.
  change (2 ^ 31) with 2147483648 in Hlen; change (2 ^ 32) with 4294967296.
  assert (Hnb : u32 (2 * Z.of_nat (length path)) = 2 * Z.of_nat (length path)) by (apply Z.mod_small; change (2 ^ 32) with 4294967296; lia).
  rewrite Hnb. set (hdr := dword _). assert (Hh : size hdr = 4) by (unfold size, hdr; by rewrite length_dword).
  assert (Hsz : size (hdr ++ unit_bytes path) = 4 + 2 * Z.of_nat (length path)) by (unfold size in *; rewrite length_app, Nat2Z.inj_add, length_unit_bytes; lia).
  split; [lia|]. assert (Hr : u32 (4 + 2 * Z.of_nat (length path)) = size (hdr ++ unit_bytes path)) by (rewrite Hsz; apply Z.mod_small; change (2 ^ 32) with 4294967296; lia).
  rewrite Hr. set (capacity := if 4 <? L then (L - 4) / 2 else 0). set (copy := if _ <? capacity * 2 then _ else _).
  assert (Hcopy : copy = path_room L (length path)).
  { unfold copy, path_room, capacity, KEY_NAME_HEADER. destruct (4 <? L); match goal with |- (if ?a <? ?b then _ else _) = _ => destruct (Z.ltb_spec a b) end; lia. }
  assert (Hcap : 0 <= path_room L (length path) /\ (4 < L -> path_room L (length path) <= L - 4) /\ (L <= 4 -> path_room L (length path) = 0)).
  { unfold path_room, KEY_NAME_HEADER. destruct (Z.ltb_spec 4 L); [pose proof (Z.div_pos (L - 4) 2); pose proof (Z.mul_div_le (L - 4) 2); lia|lia]. }
  set (room := path_room L (length path)) in *. clearbody copy. subst copy.
  assert (Hout : (out ← (if negb (room =? 0) then splice out 4 (take (Z.to_nat room) (unit_bytes path)) else Ok out); copy_header out L hdr) = Ok (overlay out (cut (Z.min L 4 + room) (hdr ++ unit_bytes path)))).
  { destruct (Z.leb_spec L 4) as [H4|H4].
    - rewrite (proj2 (proj2 Hcap) H4). change (negb (0 =? 0)) with false. run. rewrite copy_header_spec by done. unfold cut. rewrite Z.min_l, Z.add_0_r by lia. rewrite take_app_le; [done|]. unfold size in Hh. lia.
    - assert (Hcut : cut (Z.min L 4 + room) (hdr ++ unit_bytes path) = hdr ++ take (Z.to_nat room) (unit_bytes path)).
      { unfold cut. unfold size in Hh. rewrite Z.min_r by lia. rewrite take_app_ge by lia. do 2 f_equal. lia. }
      rewrite Hcut. destruct (Z.eqb_spec room 0) as [E0|Hc]; cbn [negb]; [rewrite E0|].
      + run. rewrite copy_header_spec by done. unfold cut. rewrite (take_ge hdr) by (unfold size in Hh; lia). cbn [Z.to_nat take]. by rewrite app_nil_r.
      + rewrite <- Hh. apply header_last; [done|by destruct hdr|lia|]. unfold size in *. rewrite length_take, length_unit_bytes. unfold fits in Hf. destruct Hcap as (? & Hcap & _). specialize (Hcap H4). lia. }
  unfold pool_allocate. destruct (Z.eqb_spec room 0) as [Hz|Hz]; cbn [negb andb] in *.
  { rewrite Hz. change (INLINE_PATH_BYTES <? 0) with false. run. cbn [negb andb]. cbn [mbind outcome_bind] in Hout. rewrite Hout. run. by rewrite Hz. }
  destruct (INLINE_PATH_BYTES <? room); run; cbn [andb negb].
  - destruct (pool_answers (allocations s)) eqn:Ea; cbn [negb].
    + rewrite (proj2 (Z.eqb_neq (Z.of_nat (S (allocations s))) 0)) by lia. cbn [negb]. destruct (splice out 4 _) as [out1| | |]; cbn [mbind outcome_bind] in Hout |- *; try done. rewrite Hout. run. done.
    + done.
  - destruct (splice out 4 _) as [out1| | |]; cbn [mbind outcome_bind] in Hout |- *; try done. rewrite Hout. run. done.
Qed.
Definition basic_header (time NameLength : Z) : list Z := qword time ++ dword 0 ++ dword NameLength.

Lemma CmpFillKeyInfo_basic s a n out L padding : nodes s !! a = Some n -> fits L out ->
  CmpFillKeyInfo s a KeyBasicInformation out L padding = Ok (shown out L (Some (basic_header (lastWriteTime n) (2 * Z.of_nat (length (name n))), unit_bytes (name n))), s).
Proof. intros E Hf. unfold CmpFillKeyInfo. rewrite (get_Some _ _ _ E). run. erewrite fill_shown; [done|done|]. cbn [concat]. by rewrite app_nil_r. Qed.

Definition full_header (time SubKeys MaxNameLen Values MaxValueNameLen MaxValueDataLen : Z) : list Z :=
  qword time ++ dword 0 ++ dword (-1) ++ dword 0 ++ dword SubKeys ++ dword MaxNameLen ++ dword 0 ++ dword Values ++ dword MaxValueNameLen ++ dword MaxValueDataLen.

Lemma CmpFillKeyInfo_full s a n padding : tree_ok 0 s -> nodes s !! a = Some n -> exists m mv md, maxima s n m mv md /\ forall out L, fits L out ->
  CmpFillKeyInfo s a KeyFullInformation out L padding = Ok (shown out L (Some (full_header (lastWriteTime n) (subkeyCount n) m (valueCount n) mv md, [])), s).
Proof.
  intros T E. destruct (CmpMeasureChildren_spec s a n T E) as (m & mv & md & Em & Hw). exists m, mv, md. split; [done|]. intros out L Hf. unfold CmpFillKeyInfo. rewrite (get_Some _ _ _ E). run. rewrite Em. run. by rewrite (fill_shown _ _ _ _ []).
Qed.

(** ** What is answered, apart from the buffer *)

Inductive ANSWER :=
  | Refuses (status : NTSTATUS)
  | Replies (info rest : list Z)
  | RepliesPath (path : list Z).

(** An answer as a buffer of [L] bytes at the start of [out] gets it.  A refusal
    touches nothing.  Of a reply: the bytes that fit, the size of the whole, and
    whether the header ([tooSmall]) or the rest was cut.  Of a path: whole
    characters, unless they have to be staged and the pool is empty. *)
Definition told s (tooSmall : NTSTATUS) (x : ANSWER) out L : REPLY * CM :=
  let cut_reply (fixed : Z) R (bytes : Z) := (if L <? fixed then tooSmall else if L <? u32 (size R) then STATUS_BUFFER_OVERFLOW else STATUS_SUCCESS, Some (u32 (size R)), overlay out (cut bytes R)) in
  match x with
  | Refuses status => ((status, None, out), s)
  | Replies info rest => (cut_reply (size info) (info ++ rest) L, s)
  | RepliesPath path =>
      let staged := INLINE_PATH_BYTES <? path_room L (length path) in
      (if staged && negb (pool_answers (allocations s)) then (STATUS_INSUFFICIENT_RESOURCES, None, out)
       else cut_reply KEY_NAME_HEADER (dword (2 * Z.of_nat (length path)) ++ unit_bytes path) (Z.min L KEY_NAME_HEADER + path_room L (length path)),
       if staged then s <| allocations := S (allocations s) |> else s)
  end.

(** What each class says of a key. *)
Inductive key_answer s a n (padding : list Z) : KEY_INFORMATION_CLASS -> ANSWER -> Prop :=
  | answer_basic : key_answer s a n padding KeyBasicInformation
      (Replies (qword (lastWriteTime n) ++ dword 0 ++ dword (2 * Z.of_nat (length (name n)))) (unit_bytes (name n)))
  | answer_node : key_answer s a n padding KeyNodeInformation
      (Replies (qword (lastWriteTime n) ++ dword 0 ++ dword 0xFFFFFFFF ++ dword 0 ++ dword (2 * Z.of_nat (length (name n)))) (unit_bytes (name n)))
  | answer_full m mv md : maxima s n m mv md -> key_answer s a n padding KeyFullInformation
      (Replies (qword (lastWriteTime n) ++ dword 0 ++ dword 0xFFFFFFFF ++ dword 0 ++ dword (Z.of_nat (length (subkeys n))) ++ dword m ++ dword 0 ++
        dword (Z.of_nat (length (values n))) ++ dword mv ++ dword md) [])
  | answer_name path : full_path s a path -> key_answer s a n padding KeyNameInformation (RepliesPath path)
  | answer_cached m mv md : maxima s n m mv md -> key_answer s a n padding KeyCachedInformation
      (Replies (qword (lastWriteTime n) ++ dword 0 ++ dword (Z.of_nat (length (subkeys n))) ++ dword m ++ dword (Z.of_nat (length (values n))) ++ dword mv ++ dword md ++
        dword (2 * Z.of_nat (length (name n))) ++ padding) [])
  | answer_unbuilt infoClass : infoClass ∉ [KeyBasicInformation; KeyNodeInformation; KeyFullInformation; KeyNameInformation; KeyCachedInformation] ->
      key_answer s a n padding infoClass (Refuses STATUS_INVALID_PARAMETER).

Lemma fill_told s out L info parts rest : fits L out -> rest = concat parts ->
  (r ← fill out L info parts; Ok (r, s)) = Ok (told s STATUS_BUFFER_TOO_SMALL (Replies info rest) out L).
Proof. intros Hf ->. rewrite fill_reply by done. run. unfold told, verdict, CmpFinishInfo. done. Qed.

Lemma CmpFillKeyInfo_spec s a n infoClass padding : tree_ok 0 s -> nodes s !! a = Some n ->
  forall out L, fits L out -> exists x, key_answer s a n padding infoClass x /\ CmpFillKeyInfo s a infoClass out L padding = Ok (told s STATUS_BUFFER_TOO_SMALL x out L).
Proof.
  intros T E out L Hf. destruct (CmpMeasureChildren_spec s a n T E) as (m & mv & md & Em & Hm). pose proof (tr_node _ _ T _ _ E) as Hok. pose proof (nk_subkeyCount _ Hok) as Hs. pose proof (nk_valueCount _ Hok) as Hv.
  destruct infoClass; try (exists (Refuses STATUS_INVALID_PARAMETER); split; [apply answer_unbuilt; set_solver|unfold CmpFillKeyInfo; rewrite (get_Some _ _ _ E); reflexivity]).
  - eexists. split; [constructor|]. unfold CmpFillKeyInfo. rewrite (get_Some _ _ _ E). run. apply fill_told; [done|]. cbn [concat]. by rewrite app_nil_r.
  - eexists. split; [constructor|]. unfold CmpFillKeyInfo. rewrite (get_Some _ _ _ E). run. apply fill_told; [done|]. cbn [concat]. by rewrite app_nil_r.
  - eexists. split; [by apply (answer_full _ _ _ _ m mv md)|]. unfold CmpFillKeyInfo. rewrite (get_Some _ _ _ E). run. rewrite Em. run. rewrite <- Hs, <- Hv. by apply fill_told.
  - destruct (CmpFillKeyInfo_name s a n out L padding T E Hf) as (path & Hp & Hsz & ->). exists (RepliesPath path). split; [by constructor|]. unfold told, verdict, CmpFinishInfo, u32. cbv zeta.
    rewrite (Z.mod_small (size (dword (2 * Z.of_nat (length path)) ++ unit_bytes path))) by (unfold size in *; lia). done.
  - eexists. split; [by apply (answer_cached _ _ _ _ m mv md)|]. unfold CmpFillKeyInfo. rewrite (get_Some _ _ _ E). run. rewrite Em. run. rewrite <- Hs, <- Hv. by apply fill_told.
Qed.
End replies.
