(* ===== verification/CmAnswers.v ===== *)
(** * CmAnswers: what a client of the registry's queries may rely on
    (kernel/cm/registry.c).

    Short buffers are answered with a prefix and the size to come back with, the
    indices of an enumeration reach every subkey, and what was set is read back. *)

From S2P Require Import Prelude NtStatus Rtl Bytes CmTree CmHive CmReplay CmView CmLog CmSim CmRecover CmSave CmResolve CmRegistry CmLive CmAlike CmTouch CmDurable CmCalls CmKeys CmPaths CmHandles CmCreate CmCrash CmQuery.

(** ** Short buffers *)

Section services.
Context `{MACHINE} `{VOLUME}.
Implicit Types (r : REG) (s : CM) (a c : addr) (n k : CMP_KEY_NODE) (v : CMP_VALUE) (out info R nm : list Z) (L index : Z) (object : Z -> NTSTATUS + addr).

(** ** What each service answers *)

Definition keeps r (q : outcome REPLY) : outcome (REPLY * REG) := reply ← q; Ok (reply, r).

Lemma reg_eta r : r <| cm := cm r |> = r.
Proof. by destruct r. Qed.

(** The service answers [x] of a buffer of [L] bytes at the start of [out]. *)
Definition says r (tooSmall : NTSTATUS) x out L (service : outcome (REPLY * REG)) : Prop :=
  service = Ok ((told (cm r) tooSmall x out L).1, r <| cm := (told (cm r) tooSmall x out L).2 |>).

Section rules.
Variables (r : REG) (object : Z -> NTSTATUS + addr) (resultLength : option NTSTATUS) (bufferProbe : NTSTATUS) (L : Z).

(** The probes of the place for the length and, unless it has no byte, the buffer. *)
Inductive probe_fails : NTSTATUS -> Prop :=
  | no_place : resultLength = None -> probe_fails STATUS_ACCESS_VIOLATION
  | bad_place status : resultLength = Some status -> NT_SUCCESS status = false -> probe_fails status
  | bad_buffer status : resultLength = Some status -> NT_SUCCESS status = true -> L <> 0 -> NT_SUCCESS bufferProbe = false -> probe_fails bufferProbe.

Definition probe_passes : Prop := exists status, resultLength = Some status /\ NT_SUCCESS status = true /\ (L <> 0 -> NT_SUCCESS bufferProbe = true).

(** The key a handle gives for that access. *)
Inductive handle_fails (access : Z) : NTSTATUS -> Prop :=
  | bad_handle status : object access = inl status -> handle_fails access status
  | key_gone a n : object access = inr a -> nodes (cm r) !! a = Some n -> deleted n = true -> handle_fails access STATUS_KEY_DELETED.

Definition handle_gives (access : Z) a n : Prop := object access = inr a /\ nodes (cm r) !! a = Some n /\ deleted n = false.

(** NtQueryValueKey: the rules in the order the service applies them. *)
Inductive query_value_answer (valueName : USER_STRING) (infoClass : KEY_VALUE_INFORMATION_CLASS) : ANSWER -> Prop :=
  | query_value_null : valueName = NullString -> query_value_answer valueName infoClass (Refuses STATUS_ACCESS_VIOLATION)
  | query_value_bad status : valueName = BadString status -> query_value_answer valueName infoClass (Refuses status)
  | query_value_long Length nm : valueName = UserString Length nm -> CMP_MAX_VALUE_NAME_BYTES < Length -> query_value_answer valueName infoClass (Refuses STATUS_OBJECT_NAME_NOT_FOUND)
  | query_value_probe Length nm status : valueName = UserString Length nm -> Length <= CMP_MAX_VALUE_NAME_BYTES -> probe_fails status -> query_value_answer valueName infoClass (Refuses status)
  | query_value_unbuilt Length nm : valueName = UserString Length nm -> Length <= CMP_MAX_VALUE_NAME_BYTES -> probe_passes -> value_class_built infoClass = false ->
      query_value_answer valueName infoClass (Refuses STATUS_INVALID_PARAMETER)
  | query_value_handle Length nm status : valueName = UserString Length nm -> Length <= CMP_MAX_VALUE_NAME_BYTES -> probe_passes -> value_class_built infoClass = true ->
      handle_fails KEY_QUERY_VALUE status -> query_value_answer valueName infoClass (Refuses status)
  | query_value_missing Length nm a n : valueName = UserString Length nm -> Length <= CMP_MAX_VALUE_NAME_BYTES -> probe_passes -> value_class_built infoClass = true ->
      handle_gives KEY_QUERY_VALUE a n -> (forall v, v ∈ values n -> fold_name (value_name v) <> fold_name nm) -> query_value_answer valueName infoClass (Refuses STATUS_OBJECT_NAME_NOT_FOUND)
  | query_value_found Length nm a n v info rest : valueName = UserString Length nm -> Length <= CMP_MAX_VALUE_NAME_BYTES -> probe_passes ->
      handle_gives KEY_QUERY_VALUE a n -> v ∈ values n -> fold_name (value_name v) = fold_name nm -> value_reply (mkVALUE nm (value_type v) (value_data v)) infoClass = Some (info, rest) ->
      query_value_answer valueName infoClass (Replies info rest).

(** NtEnumerateValueKey. *)
Inductive enumerate_value_answer (index : Z) (infoClass : KEY_VALUE_INFORMATION_CLASS) : ANSWER -> Prop :=
  | enumerate_value_probe status : probe_fails status -> enumerate_value_answer index infoClass (Refuses status)
  | enumerate_value_unbuilt : probe_passes -> value_class_built infoClass = false -> enumerate_value_answer index infoClass (Refuses STATUS_INVALID_PARAMETER)
  | enumerate_value_handle status : probe_passes -> value_class_built infoClass = true -> handle_fails KEY_QUERY_VALUE status -> enumerate_value_answer index infoClass (Refuses status)
  | enumerate_value_end a n : probe_passes -> value_class_built infoClass = true -> handle_gives KEY_QUERY_VALUE a n -> Z.of_nat (length (values n)) <= index ->
      enumerate_value_answer index infoClass (Refuses STATUS_NO_MORE_ENTRIES)
  | enumerate_value_found a n v info rest : probe_passes -> handle_gives KEY_QUERY_VALUE a n -> values n !! Z.to_nat index = Some v -> value_reply v infoClass = Some (info, rest) ->
      enumerate_value_answer index infoClass (Replies info rest).

(** NtEnumerateKey. *)
Inductive enumerate_answer (index : Z) (infoClass : KEY_INFORMATION_CLASS) (padding : list Z) : ANSWER -> Prop :=
  | enumerate_probe status : probe_fails status -> enumerate_answer index infoClass padding (Refuses status)
  | enumerate_last : probe_passes -> index = 0xFFFFFFFF -> enumerate_answer index infoClass padding (Refuses STATUS_NO_MORE_ENTRIES)
  | enumerate_handle status : probe_passes -> index <> 0xFFFFFFFF -> handle_fails KEY_ENUMERATE_SUB_KEYS status -> enumerate_answer index infoClass padding (Refuses status)
  | enumerate_end a n : probe_passes -> index <> 0xFFFFFFFF -> handle_gives KEY_ENUMERATE_SUB_KEYS a n -> Z.of_nat (length (subkeys n)) <= index ->
      enumerate_answer index infoClass padding (Refuses STATUS_NO_MORE_ENTRIES)
  | enumerate_found a n c k x : probe_passes -> index <> 0xFFFFFFFF -> handle_gives KEY_ENUMERATE_SUB_KEYS a n -> subkeys n !! Z.to_nat index = Some c -> nodes (cm r) !! c = Some k ->
      key_answer (cm r) c k padding infoClass x -> enumerate_answer index infoClass padding x.

(** NtQueryKey. *)
Inductive query_answer (infoClass : KEY_INFORMATION_CLASS) (padding : list Z) : ANSWER -> Prop :=
  | query_probe status : probe_fails status -> query_answer infoClass padding (Refuses status)
  | query_handle status : probe_passes -> handle_fails 0 status -> query_answer infoClass padding (Refuses status)
  | query_found a n x : probe_passes -> handle_gives 0 a n -> key_answer (cm r) a n padding infoClass x -> query_answer infoClass padding x.

Lemma probes : let status := CmpProbeInfoOut resultLength L bufferProbe in (NT_SUCCESS status = false /\ probe_fails status) \/ (NT_SUCCESS status = true /\ probe_passes).
Proof.
  unfold CmpProbeInfoOut. destruct resultLength as [status|] eqn:Er; [|left; split; [done|by constructor]]. destruct (NT_SUCCESS status) eqn:Es; cbn [negb]; [|left; split; [done|by constructor]].
  destruct (Z.eqb_spec L 0) as [HL|HL]; cbn [negb]; [right; split; [done|]; by exists status|]. destruct (NT_SUCCESS bufferProbe) eqn:Eb; [right|left]; (split; [done|]); [by exists status|by apply (bad_buffer status)].
Qed.

Lemma handles access : reg_ok r -> handle_ok r object -> exists x, CmpReferenceKey r object access false = Ok x /\
  match x with inl status => handle_fails access status | inr a => exists n, handle_gives access a n end.
Proof.
  intros G Hh. unfold CmpReferenceKey. destruct (object access) as [status|a] eqn:Eo; [eexists; split; [done|]; by constructor|]. destruct (go_open _ G a (Hh _ _ Eo)) as [n En].
  rewrite (get_Some _ _ _ En). run. destruct (deleted n) eqn:Hd; cbn [negb andb]; (eexists; split; [done|]); [by apply (key_gone _ a n)|by exists n].
Qed.

Lemma says_reply tooSmall x out reply : told (cm r) tooSmall x out L = (reply, cm r) -> says r tooSmall x out L (Ok (reply, r)).
Proof. unfold says. intros ->. cbn [fst snd]. by rewrite reg_eta. Qed.

Lemma says_refusal tooSmall status out : says r tooSmall (Refuses status) out L (Ok ((status, None, out), r)).
Proof. by apply says_reply. Qed.

Lemma says_value v infoClass out : fits L out -> value_class_built infoClass = true ->
  exists info rest reply, value_reply v infoClass = Some (info, rest) /\ CmpFillValueInfo v infoClass out L = Ok reply /\ reply = (told (cm r) STATUS_BUFFER_TOO_SMALL (Replies info rest) out L).1.
Proof.
  intros Hf Hb. destruct (built_replies v infoClass Hb) as (info & rest & E). exists info, rest. eexists. split; [done|]. split; [by apply CmpFillValueInfo_spec|]. rewrite E. done.
Qed.

Lemma NtQueryValueKey_says valueName infoClass out : reg_ok r -> handle_ok r object -> string_read valueName -> fits L out -> exists x, query_value_answer valueName infoClass x /\
  says r STATUS_BUFFER_TOO_SMALL x out L (keeps r (NtQueryValueKey r object valueName infoClass out L resultLength bufferProbe)).
Proof.
  intros G Hh Hs Hf. pose proof (rg_tree _ _ (go_registry _ G)) as T. unfold keeps, NtQueryValueKey.
  destruct valueName as [|bad|Length nm]; [eexists; split; [by constructor|apply says_refusal]|eexists; split; [by apply query_value_bad|apply says_refusal]|].
  destruct (Z.ltb_spec CMP_MAX_VALUE_NAME_BYTES Length) as [|HL]; [eexists; split; [by eapply query_value_long|apply says_refusal]|]. destruct Hs as (Hu & Hl & H16).
  destruct probes as [[Hp Hpf]|[Hp Hpp]]; rewrite Hp; cbn [negb]; [eexists; split; [by eapply query_value_probe|apply says_refusal]|].
  destruct (value_class_built infoClass) eqn:Hb; cbn [negb]; [|eexists; split; [by eapply query_value_unbuilt|apply says_refusal]].
  destruct (handles KEY_QUERY_VALUE G Hh) as ([status|a] & -> & Hx); run; [eexists; split; [by eapply query_value_handle|apply says_refusal]|]. destruct Hx as (n & Hg). pose proof Hg as (Ho & En & Hd).
  rewrite (get_Some _ _ _ En). run. destruct (CmpFindValue_spec (values n) nm (nk_values _ (tr_node _ _ T _ _ En))) as (found & -> & Hfound); [split; [done|lia]|]. run.
  destruct found as [i|]; [|eexists; split; [by eapply query_value_missing|apply says_refusal]]. destruct Hfound as (v & Hi & Hfv). rewrite Hi. run.
  destruct (says_value (mkVALUE nm (value_type v) (value_data v)) infoClass out Hf Hb) as (info & rest & reply & E & -> & ->). run. exists (Replies info rest).
  split; [eapply (query_value_found _ _ Length nm a n v); try done; by eapply list_elem_of_lookup_2|]. by apply says_reply.
Qed.

Lemma NtEnumerateValueKey_says index infoClass out : reg_ok r -> handle_ok r object -> is_u32 index -> fits L out -> exists x, enumerate_value_answer index infoClass x /\
  says r STATUS_BUFFER_OVERFLOW x out L (keeps r (NtEnumerateValueKey r object index infoClass out L resultLength bufferProbe)).
Proof.
  intros G Hh Hi Hf. pose proof (rg_tree _ _ (go_registry _ G)) as T. unfold keeps, NtEnumerateValueKey.
  destruct probes as [[Hp Hpf]|[Hp Hpp]]; rewrite Hp; cbn [negb]; [eexists; split; [by constructor|apply says_refusal]|].
  destruct (value_class_built infoClass) eqn:Hb; cbn [negb]; [|eexists; split; [by constructor|apply says_refusal]].
  destruct (handles KEY_QUERY_VALUE G Hh) as ([status|a] & -> & Hx); run; [eexists; split; [by apply enumerate_value_handle|apply says_refusal]|]. destruct Hx as (n & Hg). pose proof Hg as (Ho & En & Hd).
  rewrite (get_Some _ _ _ En). run. pose proof (nk_valueCount _ (tr_node _ _ T _ _ En)) as Hn. rewrite Hn. destruct (Z.leb_spec (Z.of_nat (length (values n))) index) as [Hle|Hlt]; [eexists; split; [by eapply enumerate_value_end|apply says_refusal]|].
  unfold is_u32 in Hi. destruct (lookup_lt_is_Some_2 (values n) (Z.to_nat index)) as [v Ev]; [lia|]. rewrite Ev. run.
  destruct (says_value v infoClass out Hf Hb) as (info & rest & reply & E & -> & ->). run. exists (Replies info rest). split; [by eapply enumerate_value_found|].
  unfold told. cbn [fst snd]. run. apply says_reply. unfold told. destruct (L <? size info); [done|]. by destruct (L <? _).
Qed.

Lemma key_says a n infoClass padding out (service : outcome (REPLY * REG)) : reg_ok r -> nodes (cm r) !! a = Some n -> fits L out ->
  service = ('(reply, s) ← CmpFillKeyInfo (cm r) a infoClass out L padding; Ok (reply, r <| cm := s |>)) -> exists x, key_answer (cm r) a n padding infoClass x /\ says r STATUS_BUFFER_TOO_SMALL x out L service.
Proof.
  intros G E Hf ->. destruct (CmpFillKeyInfo_spec (cm r) a n infoClass padding (rg_tree _ _ (go_registry _ G)) E out L Hf) as (x & Hx & ->). exists x. split; [done|]. unfold says. run. by destruct (told _ _ _ _ _).
Qed.

Lemma NtEnumerateKey_says index infoClass padding out : reg_ok r -> handle_ok r object -> is_u32 index -> fits L out -> exists x, enumerate_answer index infoClass padding x /\
  says r STATUS_BUFFER_TOO_SMALL x out L (NtEnumerateKey r object index infoClass out L resultLength bufferProbe padding).
Proof.
  intros G Hh Hi Hf. pose proof (rg_tree _ _ (go_registry _ G)) as T. unfold NtEnumerateKey.
  destruct probes as [[Hp Hpf]|[Hp Hpp]]; rewrite Hp; cbn [negb]; [eexists; split; [by constructor|apply says_refusal]|].
  destruct (Z.eqb_spec index 0xFFFFFFFF) as [Hmax|Hmax]; [eexists; split; [by apply enumerate_last|apply says_refusal]|].
  destruct (handles KEY_ENUMERATE_SUB_KEYS G Hh) as ([status|a] & -> & Hx); run; [eexists; split; [by apply enumerate_handle|apply says_refusal]|]. destruct Hx as (n & Hg). pose proof Hg as (Ho & En & Hd).
  rewrite (get_Some _ _ _ En). run. pose proof (nk_subkeyCount _ (tr_node _ _ T _ _ En)) as Hn. rewrite Hn. destruct (Z.leb_spec (Z.of_nat (length (subkeys n))) index) as [Hle|Hlt]; [eexists; split; [by eapply enumerate_end|apply says_refusal]|].
  unfold is_u32 in Hi. destruct (lookup_lt_is_Some_2 (subkeys n) (Z.to_nat index)) as [c Ec]; [lia|]. rewrite Ec. run.
  destruct (tr_child _ _ T _ _ _ En (list_elem_of_lookup_2 _ _ _ Ec)) as (k & Ek & _). destruct (key_says c k infoClass padding out _ G Ek Hf eq_refl) as (x & Hx & Hsays). exists x. split; [by eapply enumerate_found|exact Hsays].
Qed.

Lemma NtQueryKey_says infoClass padding out : reg_ok r -> handle_ok r object -> fits L out -> exists x, query_answer infoClass padding x /\
  says r STATUS_BUFFER_TOO_SMALL x out L (NtQueryKey r object infoClass out L resultLength bufferProbe padding).
Proof.
  intros G Hh Hf. unfold NtQueryKey. destruct probes as [[Hp Hpf]|[Hp Hpp]]; rewrite Hp; cbn [negb]; [eexists; split; [by constructor|apply says_refusal]|].
  destruct (handles 0 G Hh) as ([status|a] & -> & Hx); run; [eexists; split; [by apply query_handle|apply says_refusal]|]. destruct Hx as (n & Hg). pose proof Hg as (Ho & En & Hd).
  destruct (key_says a n infoClass padding out _ G En Hf eq_refl) as (x & Hx & Hsays). exists x. split; [by eapply query_found|exact Hsays].
Qed.
End rules.

(** C10. A query is honest about a short buffer.  Of a well-formed registry each
    query of a key or a value either refuses, for the first of the reasons its
    rules list and with that status, and leaves the buffer alone, or has one reply
    - the header of the class asked for and what follows it, which do not depend
    on the buffer: the call stores the size of the reply, writes exactly the bytes
    of it that fit (of a path, whole characters) and no byte behind them, and
    tells by its status whether the header or the rest was cut.  So a caller that
    comes back with the size stored gets the reply.  A long path is refused, for
    want of memory, exactly when the part that fits is over 520 bytes and the pool
    is empty.  Nothing else of the registry changes. *)
Theorem short_buffers r object resultLength bufferProbe out L : reg_ok r -> handle_ok r object -> fits L out ->
  (forall valueName infoClass, string_read valueName -> exists x, query_value_answer r object resultLength bufferProbe L valueName infoClass x /\
     says r STATUS_BUFFER_TOO_SMALL x out L (keeps r (NtQueryValueKey r object valueName infoClass out L resultLength bufferProbe))) /\
  (forall index infoClass, is_u32 index -> exists x, enumerate_value_answer r object resultLength bufferProbe L index infoClass x /\
     says r STATUS_BUFFER_OVERFLOW x out L (keeps r (NtEnumerateValueKey r object index infoClass out L resultLength bufferProbe))) /\
  (forall index infoClass padding, is_u32 index -> exists x, enumerate_answer r object resultLength bufferProbe L index infoClass padding x /\
     says r STATUS_BUFFER_TOO_SMALL x out L (NtEnumerateKey r object index infoClass out L resultLength bufferProbe padding)) /\
  (forall infoClass padding, exists x, query_answer r object resultLength bufferProbe L infoClass padding x /\
     says r STATUS_BUFFER_TOO_SMALL x out L (NtQueryKey r object infoClass out L resultLength bufferProbe padding)).
Proof.
  intros G Hh Hf. split; [|split; [|split]]; intros; [by apply NtQueryValueKey_says|by apply NtEnumerateValueKey_says|by apply NtEnumerateKey_says|by apply NtQueryKey_says].
Qed.
(** ** Enumerating *)

Lemma probe_granted L : CmpProbeInfoOut (Some STATUS_SUCCESS) L STATUS_SUCCESS = STATUS_SUCCESS.
Proof. unfold CmpProbeInfoOut. cbn [NT_SUCCESS]. by destruct (L =? 0). Qed.

Lemma granted r object access a n : object access = inr a -> nodes (cm r) !! a = Some n -> deleted n = false -> CmpReferenceKey r object access false = Ok (inr a).
Proof. intros Ho En Hd. unfold CmpReferenceKey. rewrite Ho, (get_Some _ _ _ En). run. by rewrite Hd. Qed.

(** A buffer long enough shows it all. *)
Lemma shown_whole out L info rest : size (info ++ rest) <= L -> size (info ++ rest) < 2 ^ 32 -> shown out L (Some (info, rest)) = (STATUS_SUCCESS, Some (size (info ++ rest)), overlay out (info ++ rest)).
Proof.
  intros HL H32. unfold shown, verdict, CmpFinishInfo, u32. rewrite Z.mod_small by (unfold size in *; lia). unfold cut. unfold size in *. rewrite length_app in HL. rewrite !(proj2 (Z.ltb_ge _ _)) by (rewrite ?length_app; lia).
  rewrite take_ge; [done|]. rewrite length_app. lia.
Qed.

(** C40. A client finds every subkey.  Of a live key, KeyFullInformation gives the
    number of subkeys and the length in bytes of the longest of their names, 0 if
    there is none; with a buffer for names of that length, the indices below the number give, in strictly rising order of folded names, each
    name whole, and every index from there on the end; and the names are those
    that a lookup under the key finds, each in its stored spelling. *)
Theorem enumeration_complete r object a n : reg_ok r -> handle_ok r object -> object 0 = inr a -> object KEY_ENUMERATE_SUB_KEYS = inr a ->
  nodes (cm r) !! a = Some n -> deleted n = false -> subkeyCount n < 2 ^ 32 - 1 -> exists (names : list (list Z)) (longest : Z),
  (maximum ((fun nm => 2 * Z.of_nat (length nm)) <$> names) longest /\ 0 <= longest < 2 ^ 32) /\
  (forall out L, fits L out -> 44 <= L -> exists info, NtQueryKey r object KeyFullInformation out L (Some STATUS_SUCCESS) STATUS_SUCCESS [] = Ok ((STATUS_SUCCESS, Some 44, overlay out info), r) /\
     size info = 44 /\ take 8 (drop 20 info) = dword (Z.of_nat (length names)) ++ dword longest) /\
  (forall i nm out L, names !! i = Some nm -> fits L out -> 16 + longest <= L -> exists time,
     NtEnumerateKey r object (Z.of_nat i) KeyBasicInformation out L (Some STATUS_SUCCESS) STATUS_SUCCESS [] =
       Ok ((STATUS_SUCCESS, Some (16 + 2 * Z.of_nat (length nm)), overlay out (basic_header time (2 * Z.of_nat (length nm)) ++ unit_bytes nm)), r)) /\
  (forall index out L, Z.of_nat (length names) <= index -> NtEnumerateKey r object index KeyBasicInformation out L (Some STATUS_SUCCESS) STATUS_SUCCESS [] = Ok ((STATUS_NO_MORE_ENTRIES, None, out), r)) /\
  StronglySorted name_before names /\
  forall nm, name_ok nm -> (exists nm', nm' ∈ names /\ fold_name nm' = fold_name nm) <-> exists c, CmpFindSubkey (cm r) a nm = Ok c /\ c <> 0.
Proof.
  intros G Hh Hq He En Hd Hcount. pose proof (rg_tree _ _ (go_registry _ G)) as T. pose proof (nk_subkeyCount _ (tr_node _ _ T _ _ En)) as Hn.
  destruct (CmpFillKeyInfo_full (cm r) a n [] T En) as (m & mv & md & [Hm _] & Hfull). exists (key_name (cm r) <$> subkeys n), m. rewrite length_fmap, <- Hn.
  assert (Hchild : forall c, c ∈ subkeys n -> exists k, nodes (cm r) !! c = Some k /\ 2 * Z.of_nat (length (key_name (cm r) c)) <= m /\ 2 * Z.of_nat (length (key_name (cm r) c)) < 2 ^ 32).
  { intros c Hc. destruct (tr_child _ _ T _ _ _ En Hc) as (k & Ek & _). exists k. split; [done|]. split.
    - apply (proj1 (Forall_forall _ _) (proj1 Hm)). apply list_elem_of_fmap. by exists c.
    - rewrite (key_name_eq _ _ _ Ek). destruct (nk_name _ (tr_node _ _ T _ _ Ek)) as [_ H15]. change (2 ^ 15) with 32768 in H15. change (2 ^ 32) with 4294967296. lia. }
  split; [split; [by rewrite <- list_fmap_compose|]; destruct Hm as [_ [(c & -> & Hc)%list_elem_of_fmap|[-> _]]]; [destruct (Hchild c Hc) as (_ & _ & _ & ?); lia|lia]|].
  split; [|split; [|split; [|split]]].
  - intros out L Hf HL. eexists. unfold NtQueryKey. rewrite probe_granted, (granted _ _ _ _ _ Hq En Hd). cbn [NT_SUCCESS negb]. run. rewrite Hfull by done. run. rewrite reg_eta.
    assert (Hs : forall t x y z u w, size (full_header t x y z u w ++ []) = 44) by (intros; unfold size, full_header; rewrite !length_app, length_qword, !length_dword; done).
    rewrite shown_whole by (rewrite Hs; lia). rewrite Hs. split; [reflexivity|]. split; [by rewrite Hs|]. done.
  - intros i nm out L Hi Hf HL. apply list_lookup_fmap_Some in Hi as (c & -> & Hi). destruct (tr_child _ _ T _ _ _ En (list_elem_of_lookup_2 _ _ _ Hi)) as (k & Ek & _). exists (lastWriteTime k). rewrite (key_name_eq _ _ _ Ek).
    pose proof (lookup_lt_Some _ _ _ Hi) as Hlt. unfold NtEnumerateKey. rewrite probe_granted, (granted _ _ _ _ _ He En Hd). cbn [NT_SUCCESS negb]. rewrite (proj2 (Z.eqb_neq _ _)) by lia. run. rewrite (get_Some _ _ _ En). run.
    rewrite (proj2 (Z.leb_gt _ _)), Nat2Z.id, Hi by lia. run. rewrite (CmpFillKeyInfo_basic _ _ _ _ _ _ Ek) by done. run. rewrite reg_eta. destruct (Hchild c (list_elem_of_lookup_2 _ _ _ Hi)) as (_ & _ & Hlen & _). rewrite (key_name_eq _ _ _ Ek) in Hlen.
    assert (Hs : forall t x, size (basic_header t x ++ unit_bytes (name k)) = 16 + 2 * Z.of_nat (length (name k))) by (intros; unfold size, basic_header; rewrite !length_app, length_qword, !length_dword, length_unit_bytes; lia).
    destruct (nk_name _ (tr_node _ _ T _ _ Ek)) as [_ H15]. rewrite shown_whole; [by rewrite Hs|rewrite Hs; lia|rewrite Hs]. change (2 ^ 15) with 32768 in H15. change (2 ^ 32) with 4294967296. lia.
  - intros index out L Hi. unfold NtEnumerateKey. rewrite probe_granted, (granted _ _ _ _ _ He En Hd). cbn [NT_SUCCESS negb]. destruct (index =? 4294967295); [done|]. run. rewrite (get_Some _ _ _ En). run. by rewrite (proj2 (Z.leb_le _ _)).
  - by apply (rg_sorted _ _ (go_registry _ G) a n).
  - intros nm Hnm. destruct (CmpFindSubkey_spec 0 (cm r) a n nm T En Hnm) as (c & -> & Hc). split.
    + intros (nm' & (c' & -> & Hin)%list_elem_of_fmap & Hfn). exists c. split; [done|]. destruct Hc as [[-> Hno]|[Hne _]]; [|done]. destruct (tr_child _ _ T _ _ _ En Hin) as (k & Ek & _). destruct (Hno c' k Hin Ek). by rewrite <- (key_name_eq _ _ _ Ek).
    + intros (? & [= <-] & Hne). destruct Hc as [[-> _]|(_ & Hin & k & Ek & _ & Hfn)]; [done|]. exists (name k). split; [|done]. apply list_elem_of_fmap. exists c. by rewrite (key_name_eq _ _ _ Ek).
Qed.
(** ** What was set is what is read *)

(** The type and the data under a name. *)
Definition held nm (l : list CMP_VALUE) : option (Z * list Z) := i ← find_value nm l; v ← l !! i; Some (value_type v, value_data v).

Lemma held_Some nm l x : StronglySorted value_before l -> held nm l = Some x <-> exists v, v ∈ l /\ fold_name (value_name v) = fold_name nm /\ x = (value_type v, value_data v).
Proof.
  intros Hs. split.
  - unfold held. destruct (find_value nm l) as [i|] eqn:Ef; [|done]. cbn. destruct (l !! i) as [v|] eqn:Ev; [|done]. intros [= <-]. exists v. split; [by eapply list_elem_of_lookup_2|]. split; [|done].
    clear Hs. revert i Ef Ev. induction l as [|w l IH]; intros i; [done|]. cbn [find_value]. case_bool_decide as Hw; [by intros [= <-] [= <-]|]. destruct (find_value nm l) as [j|]; [|done]. intros [= <-] Ev. by apply (IH j).
  - intros (v & [i Hi]%list_elem_of_lookup & Hf & ->). unfold held. rewrite (find_value_at nm l i v) by done. cbn. by rewrite Hi.
Qed.

Lemma held_found l nm found : Forall value_ok l -> StronglySorted value_before l -> name_ok nm -> CmpFindValue l nm = Ok found ->
  held nm l = (i ← found; v ← l !! i; Some (value_type v, value_data v)) /\ (forall i, found = Some i -> is_Some (l !! i)).
Proof.
  intros Hl Hs Hn Ef. destruct (CmpFindValue_spec l nm Hl Hn) as (found' & Ef' & Hf). replace found' with found in Hf by congruence. unfold held. destruct found as [i|].
  - destruct Hf as (v & Hi & Hfv). rewrite (find_value_at nm l i v) by done. split; [done|]. intros j [= <-]. by exists v.
  - by rewrite find_value_None.
Qed.

Lemma option_ext {A} (x y : option A) : (forall z, x = Some z <-> y = Some z) -> x = y.
Proof. intros E. destruct x as [z|]; [symmetry; by apply E|]. destruct y as [z|]; [|done]. by apply E. Qed.

Lemma held_set l nm (type : Z) data l' nm' : StronglySorted value_before l -> StronglySorted value_before l' -> value_set l nm type data l' ->
  held nm' l' = if bool_decide (fold_name nm' = fold_name nm) then Some (type, data) else held nm' l.
Proof.
  intros Hs Hs' Hset. case_bool_decide as Hf.
  - apply held_Some; [done|]. destruct Hset as [(i & v & Hi & Hfv & ->)|(_ & l1 & l2 & _ & -> & _)].
    + exists (mkVALUE (value_name v) type data). split; [|by rewrite Hf]. apply (list_elem_of_lookup_2 _ i), list_lookup_insert_eq. by eapply lookup_lt_Some.
    + exists (mkVALUE nm type data). split; [set_solver|done].
  - apply option_ext. intros x. rewrite !held_Some by done. destruct Hset as [(i & v & Hi & Hfv & ->)|(_ & l1 & l2 & -> & -> & _)].
    + split; intros (w & [j Hj]%list_elem_of_lookup & Hw & ->); exists w; (split; [|done]); apply (list_elem_of_lookup_2 _ j).
      * apply list_lookup_insert_Some in Hj as [(_ & <- & _)|[_ Hj]]; [cbn [value_name] in Hw; congruence|done].
      * rewrite list_lookup_insert_ne; [done|]. intros ->. congruence.
    + split; intros (w & Hw & Hfw & ->); exists w; (split; [|done]); [|set_solver]. apply elem_of_app in Hw as [?|[->|?]%elem_of_cons]; [apply elem_of_app; by left|cbn [value_name] in Hfw; congruence|apply elem_of_app; by right].
Qed.

Lemma held_delete l nm i v nm' : StronglySorted value_before l -> l !! i = Some v -> fold_name (value_name v) = fold_name nm ->
  held nm' (delete i l) = if bool_decide (fold_name nm' = fold_name nm) then None else held nm' l.
Proof.
  intros Hs Hi Hf. pose proof (sorted_delete _ l i Hs) as Hs'. assert (Hother : forall w, w ∈ delete i l <-> w ∈ l /\ fold_name (value_name w) <> fold_name nm).
  { clear Hs'. revert i Hi. induction l as [|y l IH]; intros [|i] Hi; [done|done| |]; apply StronglySorted_inv in Hs as [Hs Hy]; rewrite Forall_forall in Hy; cbn in Hi |- *; intros w.
    - injection Hi as ->. rewrite elem_of_cons. split; [|by intros [[->|Hw] Hne]]. intros Hw. split; [by right|]. intros Hfw. apply (name_before_irrefl (value_name v) (value_name w)); [congruence|]. by apply Hy.
    - rewrite !elem_of_cons, (IH Hs i Hi w). split; [intros [->|[Hw Hne]]|intros [[->|Hw] Hne]]; [split; [by left|]|split; [by right|done]|by left|by right].
      intros Hfy. apply (name_before_irrefl (value_name y) (value_name v)); [congruence|]. apply Hy. by eapply list_elem_of_lookup_2. }
  case_bool_decide as Hf'.
  - destruct (held nm' (delete i l)) as [x|] eqn:E; [|done]. apply held_Some in E as (w & Hw & Hfw & _); [|done]. apply Hother in Hw as [_ Hw]. congruence.
  - apply option_ext. intros x. rewrite !held_Some by done. split; intros (w & Hw & Hfw & ->); exists w; (split; [|done]); apply Hother || apply Hother in Hw; [by apply Hw|]. split; [done|congruence].
Qed.

(** A query sees what is held. *)
Lemma query_held r object a n Length nm infoClass out L : reg_ok r -> object KEY_QUERY_VALUE = inr a -> nodes (cm r) !! a = Some n -> deleted n = false -> name_ok nm -> Length <= CMP_MAX_VALUE_NAME_BYTES -> value_class_built infoClass = true -> fits L out ->
  NtQueryValueKey r object (UserString Length nm) infoClass out L (Some STATUS_SUCCESS) STATUS_SUCCESS =
    Ok (match held nm (values n) with Some (type, data) => shown out L (value_reply (mkVALUE nm type data) infoClass) | None => (STATUS_OBJECT_NAME_NOT_FOUND, None, out) end).
Proof.
  intros G Ho En Hd Hnm HL Hb Hf. destruct (tr_node _ _ (rg_tree _ _ (go_registry _ G)) _ _ En) as [_ Hl Hs _ _ _ _]. unfold NtQueryValueKey. rewrite (proj2 (Z.ltb_ge _ _)), probe_granted, Hb, (granted _ _ _ _ _ Ho En Hd) by done. cbn [NT_SUCCESS negb]. run.
  rewrite (get_Some _ _ _ En). run. destruct (CmpFindValue_spec (values n) nm Hl Hnm) as (found & Ef & _). rewrite Ef. run. destruct (held_found _ _ _ Hl Hs Hnm Ef) as [-> Hsome]. destruct found as [i|]; [|done]. destruct (Hsome i eq_refl) as [v Ev]. cbn [mbind option_bind]. rewrite !Ev. run. by apply CmpFillValueInfo_spec.
Qed.

(** The last part of a call that changed values: the record, if any, and the news. *)
Lemma logged_nodes r1 r' (status : NTSTATUS) (logs : bool) (log : outcome REG) a x : (logs = true -> forall r2, log = Ok r2 -> nodes (cm r2) = nodes (cm r1)) ->
  (r2 ← (if logs then log else Ok r1); Ok (status, on_cm r2 (fun s => CmpNotifyChange s a x))) = Ok (STATUS_SUCCESS, r') -> nodes (cm r') = nodes (cm r1).
Proof.
  intros Hlog. destruct logs; run; [|by intros [= _ <-]]. destruct log as [r2| | |]; cbn [mbind outcome_bind]; try done. intros [= _ <-]. change (nodes (cm r2) = nodes (cm r1)). by apply Hlog.
Qed.

(** Of the values of [a], those [r'] holds are [holds]. *)
Definition now_holds r r' a (holds : list Z -> option (Z * list Z) -> option (Z * list Z)) : Prop :=
  forall n, nodes (cm r) !! a = Some n -> exists n', nodes (cm r') !! a = Some n' /\ deleted n' = deleted n /\ forall nm', held nm' (values n') = holds nm' (held nm' (values n)).

Lemma NtSetValueKey_holds r r' object a Length nm (type : Z) data : reg_ok r -> handle_ok r object -> string_read (UserString Length nm) -> is_u32 type -> Forall is_u8 data -> Z.of_nat (length data) < 2 ^ 32 ->
  object KEY_SET_VALUE = inr a -> NtSetValueKey r object (UserString Length nm) type (inr data) = Ok (STATUS_SUCCESS, r') ->
  now_holds r r' a (fun nm' before => if bool_decide (fold_name nm' = fold_name nm) then Some (type, data) else before).
Proof.
  intros G Hh (Hu & Hl & H16) Htype Hd8 Hdl Ho E n En. assert (Hnm : name_ok nm) by (split; [done|lia]). pose proof (rg_tree _ _ (go_registry _ G)) as T. pose proof (tr_node _ _ T _ _ En) as Hok.
  assert (Hvok : value_ok (mkVALUE nm type data)) by (repeat split; done || apply Hnm || apply Htype).
  unfold NtSetValueKey in E. destruct (_ <? Length); [done|]. unfold CmpReferenceKey in E. rewrite Ho, (get_Some _ _ _ En) in E. cbn [mbind outcome_bind] in E. destruct (deleted n && _); [done|]. rewrite (get_Some _ _ _ En) in E. cbn [mbind outcome_bind] in E.
  destruct (if isLink n then _ else _) as [refused| | |]; cbn [mbind outcome_bind] in E; try done. destruct refused; [done|].
  destruct (CmpFindValue_spec (values n) nm (nk_values _ Hok) Hnm) as (existing & Ef & Hex). rewrite Ef in E. cbn [mbind outcome_bind] in E.
  destruct (match existing with Some _ => _ | None => _ end) as [same| | |] eqn:Esame; cbn [mbind outcome_bind] in E; try done. destruct same.
  { injection E as <-. exists n. split; [done|]. split; [done|]. intros nm'. case_bool_decide as Hf; [|done]. destruct existing as [i|]; [|done]. destruct Hex as (v & Hi & Hfv). rewrite Hi in Esame. cbn [deref mbind outcome_bind] in Esame. injection Esame as [Et Ed]%andb_prop.
    apply held_Some; [apply Hok|]. exists v. split; [by eapply list_elem_of_lookup_2|]. split; [congruence|]. apply Z.eqb_eq in Et as ->. apply bool_decide_eq_true in Ed as ->. done. }
  destruct (CmpSetValue_spec 0 (cm r) a n nm type data T En Hvok) as (status & s & Es & T1 & A1 & _ & Hcase & _). rewrite Es in E. cbn [mbind outcome_bind] in E. destruct Hcase as [[-> N1]|(-> & l & Hset & N1)]; [done|].
  change (negb (NT_SUCCESS STATUS_SUCCESS)) with false in E. cbn iota in E. set (n0 := n <| values := l |> <| valueCount := Z.of_nat (length l) |>) in *. rewrite (get_Some s a n0) in E by (rewrite N1; by rewrite lookup_insert_eq). cbn [mbind outcome_bind] in E. unfold CmpNow in E. cbv zeta in E. cbn iota in E.
  apply logged_nodes in E; [|intros _ r2 Elog]. 2: { destruct (CmpFindValue _ nm) as [written| | |]; cbn [mbind outcome_bind] in Elog; try done. destruct written as [i|]; cbn [deref mbind outcome_bind] in Elog; [|done]. destruct (_ !! i) as [v|]; cbn [deref mbind outcome_bind] in Elog; [|done].
    unfold CmpLogSetValue in Elog. destruct (get_node _ a); cbn [mbind outcome_bind] in Elog; try done. by apply CmpLogRecord_nodes in Elog. }
  eexists. split; [rewrite E; apply lookup_insert_eq|]. split; [done|]. intros nm'. change (values _) with l at 1. destruct (value_set_ok _ _ _ _ _ (nk_values _ Hok) (nk_sorted _ Hok) Hvok Hset) as [_ Hs']. by apply held_set; [apply Hok|..].
Qed.

Lemma NtDeleteValueKey_holds r r' object a Length nm : reg_ok r -> handle_ok r object -> string_read (UserString Length nm) ->
  object KEY_SET_VALUE = inr a -> NtDeleteValueKey r object (UserString Length nm) = Ok (STATUS_SUCCESS, r') ->
  now_holds r r' a (fun nm' before => if bool_decide (fold_name nm' = fold_name nm) then None else before).
Proof.
  intros G Hh (Hu & Hl & H16) Ho E n En. assert (Hnm : name_ok nm) by (split; [done|lia]). pose proof (rg_tree _ _ (go_registry _ G)) as T. pose proof (tr_node _ _ T _ _ En) as Hok.
  unfold NtDeleteValueKey in E. destruct (_ <? Length); [done|]. unfold CmpReferenceKey in E. rewrite Ho, (get_Some _ _ _ En) in E. cbn [mbind outcome_bind] in E. destruct (deleted n && _); [done|].
  destruct (CmpRemoveValue_spec 0 (cm r) a n nm T En Hnm) as (removed & s & Es & T1 & A1 & _ & Hr). rewrite Es in E. cbn [mbind outcome_bind] in E. destruct removed; [|done]. destruct Hr as (i & v & l & Hi & Hfv & -> & N1). cbn [negb] in E.
  rewrite (get_Some s a (n <| values := delete i (values n) |> <| valueCount := Z.of_nat (length (delete i (values n))) |>)) in E by (rewrite N1; by rewrite lookup_insert_eq). cbn [mbind outcome_bind] in E. unfold CmpNow in E. cbv zeta in E. cbn iota in E.
  apply logged_nodes in E; [|intros _ r2 Elog]. 2: { unfold CmpLogDeleteValue in Elog. destruct (get_node _ a); cbn [mbind outcome_bind] in Elog; try done. by apply CmpLogRecord_nodes in Elog. }
  eexists. split; [rewrite E; apply lookup_insert_eq|]. split; [done|]. intros nm'. change (values _) with (delete i (values n)) at 1. by apply (held_delete _ _ _ v); [apply Hok|..].
Qed.
Lemma unbuilt_query r object Length nm infoClass out L : Length <= CMP_MAX_VALUE_NAME_BYTES -> value_class_built infoClass = false ->
  NtQueryValueKey r object (UserString Length nm) infoClass out L (Some STATUS_SUCCESS) STATUS_SUCCESS = Ok (STATUS_INVALID_PARAMETER, None, out).
Proof. intros HL Hb. unfold NtQueryValueKey. by rewrite (proj2 (Z.ltb_ge _ _)), probe_granted, Hb by done. Qed.

(** After a call that left [a] with [holds], a query of it sees [holds]. *)
Lemma query_after r r' object a n Length' nm' holds : reg_ok r -> reg_ok r' -> object KEY_QUERY_VALUE = inr a -> nodes (cm r) !! a = Some n -> deleted n = false -> string_read (UserString Length' nm') -> Length' <= CMP_MAX_VALUE_NAME_BYTES ->
  now_holds r r' a holds -> forall infoClass out L, fits L out ->
  ((forall before, holds nm' before = before) -> NtQueryValueKey r' object (UserString Length' nm') infoClass out L (Some STATUS_SUCCESS) STATUS_SUCCESS = NtQueryValueKey r object (UserString Length' nm') infoClass out L (Some STATUS_SUCCESS) STATUS_SUCCESS) /\
  (forall x, value_class_built infoClass = true -> (forall before, holds nm' before = x) -> NtQueryValueKey r' object (UserString Length' nm') infoClass out L (Some STATUS_SUCCESS) STATUS_SUCCESS =
     Ok (match x with Some (type, data) => shown out L (value_reply (mkVALUE nm' type data) infoClass) | None => (STATUS_OBJECT_NAME_NOT_FOUND, None, out) end)).
Proof.
  intros G G' Ho En Hd (Hu & Hl & H16) HL Hn infoClass out L Hf. assert (Hnm : name_ok nm') by (split; [done|lia]). destruct (Hn n En) as (n' & En' & Hd' & Hh). rewrite Hd in Hd'. split.
  - intros Hsame. destruct (value_class_built infoClass) eqn:Hb; [|by rewrite !unbuilt_query]. rewrite (query_held r' _ a n'), (query_held r _ a n) by done. by rewrite Hh, Hsame.
  - intros x Hb Hx. rewrite (query_held r' _ a n') by done. by rewrite Hh, Hx.
Qed.

(** A KeyValueFullInformation with the name as the caller spelled it. *)
Definition full_value nm (type : Z) data : list Z :=
  (dword 0 ++ dword type ++ dword (20 + 2 * Z.of_nat (length nm)) ++ dword (Z.of_nat (length data)) ++ dword (2 * Z.of_nat (length nm))) ++ unit_bytes nm ++ data.

(** C7. What a client set is what it reads.  After a NtSetValueKey that succeeded,
    a query of the key under the same name in any case, with a buffer for the
    whole, gives the type and exactly the bytes that were set; after a
    NtDeleteValueKey that succeeded it finds no value; and queries of every other
    name, of any class, into any buffer, answer after either call as before it. *)
Theorem set_then_query r r' object a Length nm Length' nm' (type : Z) data : reg_ok r -> handle_ok r object -> object KEY_SET_VALUE = inr a -> object KEY_QUERY_VALUE = inr a ->
  string_read (UserString Length nm) -> string_read (UserString Length' nm') -> Length' <= CMP_MAX_VALUE_NAME_BYTES -> is_u32 type -> Forall is_u8 data -> Z.of_nat (length data) < 2 ^ 32 ->
  let query r infoClass out L := NtQueryValueKey r object (UserString Length' nm') infoClass out L (Some STATUS_SUCCESS) STATUS_SUCCESS in
  (NtSetValueKey r object (UserString Length nm) type (inr data) = Ok (STATUS_SUCCESS, r') ->
     (fold_name nm' = fold_name nm -> forall out L, fits L out -> size (full_value nm' type data) <= L -> L < 2 ^ 32 ->
        query r' KeyValueFullInformation out L = Ok (STATUS_SUCCESS, Some (size (full_value nm' type data)), overlay out (full_value nm' type data))) /\
     (fold_name nm' <> fold_name nm -> forall infoClass out L, fits L out -> query r' infoClass out L = query r infoClass out L)) /\
  (NtDeleteValueKey r object (UserString Length nm) = Ok (STATUS_SUCCESS, r') ->
     (fold_name nm' = fold_name nm -> forall infoClass out L, fits L out -> value_class_built infoClass = true -> query r' infoClass out L = Ok (STATUS_OBJECT_NAME_NOT_FOUND, None, out)) /\
     (fold_name nm' <> fold_name nm -> forall infoClass out L, fits L out -> query r' infoClass out L = query r infoClass out L)).
Proof.
  intros G Hh Hs Hq Hnm Hnm' HL Htype Hd8 Hdl query. destruct (go_open _ G a (Hh _ _ Hs)) as [n En]. destruct (deleted n) eqn:Hd.
  { assert (Hgone : forall x, CmpReferenceKey r object x false = match object x with inl status => Ok (inl status) | inr b => m ← get_node (cm r) b; Ok (if deleted m && negb false then inl STATUS_KEY_DELETED else inr b) end) by done.
    split; [unfold NtSetValueKey|unfold NtDeleteValueKey]; (destruct (_ <? Length); [done|]); by rewrite Hgone, Hs, (get_Some _ _ _ En); run; rewrite Hd. }
  split; intros E.
  - destruct (NtSetValueKey_step r object (UserString Length nm) type (inr data) G Hh Hnm Htype) as (status & r0 & E0 & S0); [by intros bytes [= <-]|]. rewrite E in E0. injection E0 as <- <-.
    pose proof (NtSetValueKey_holds r r' object a Length nm type data G Hh Hnm Htype Hd8 Hdl Hs E) as Hn. split; intros Hf.
    + intros out L Hfits Hsz H32. destruct (query_after r r' object a n Length' nm' _ G (ss_ok _ _ _ S0) Hq En Hd Hnm' HL Hn KeyValueFullInformation out L Hfits) as [_ Hx]. unfold query. rewrite (Hx (Some (type, data))); [|done|intros before; by rewrite bool_decide_eq_true_2]. f_equal. apply shown_whole; [exact Hsz|]. exact (Z.le_lt_trans _ _ _ Hsz H32).
    + intros infoClass out L Hfits. destruct (query_after r r' object a n Length' nm' _ G (ss_ok _ _ _ S0) Hq En Hd Hnm' HL Hn infoClass out L Hfits) as [Hx _]. apply Hx. intros before. by rewrite bool_decide_eq_false_2.
  - destruct (NtDeleteValueKey_step r object (UserString Length nm) G Hh Hnm) as (status & r0 & E0 & S0). rewrite E in E0. injection E0 as <- <-.
    pose proof (NtDeleteValueKey_holds r r' object a Length nm G Hh Hnm Hs E) as Hn. split; intros Hf infoClass out L Hfits; [intros Hb|]; destruct (query_after r r' object a n Length' nm' _ G (ss_ok _ _ _ S0) Hq En Hd Hnm' HL Hn infoClass out L Hfits) as [Hsame Hx].
    + apply (Hx None); [done|]. intros before. by rewrite bool_decide_eq_true_2.
    + apply Hsame. intros before. by rewrite bool_decide_eq_false_2.
Qed.
End services.

(** ** A key A with a value v below an open root *)

Section sample.
#[local] Existing Instances quiet_machine quiet_volume.

Definition root_attributes : OBJECT_ATTRIBUTES := mkATTRIBUTES STATUS_SUCCESS true (Some (18, registryPrefix)) None 0 (inr (1, [])).

Definition open_calls : list CALL :=
  [CreateKey STATUS_SUCCESS 1 (Some sample_attributes) 0 STATUS_SUCCESS STATUS_SUCCESS STATUS_SUCCESS;
   SetValueKey (fun _ => inr 2) (UserString 2 [0x76]) 1 (inr [1; 2; 3]);
   OpenKeyEx STATUS_SUCCESS 1 (Some root_attributes) STATUS_SUCCESS STATUS_SUCCESS].

Definition busy : REG := Eval vm_compute in match run_calls (CmpSetHiveReady sample_registry) open_calls with Ok r => r | _ => sample_registry end.

Lemma open_calls_ok : calls_ok (CmpSetHiveReady sample_registry) open_calls.
Proof.
  split; [split; [intros attr [= <-]|by split]|intros status r' E; vm_compute in E; injection E as _ <-; split; [|intros status' r'' E; vm_compute in E; injection E as _ <-; split; [|done]]].
  - split; [intros Length path [= _ <-]|split; [done|intros base remaining [= <- <-]]].
    + apply (units_below (2 ^ 16)); reflexivity.
    + split; [exists (mkNODE 0 [] [] 0 0 0 0 false false false []); split; reflexivity|apply (units_below (2 ^ 16)); reflexivity].
  - split; [intros access a [= <-]; left|]. split; [split; [apply (units_below (2 ^ 16)); reflexivity|cbn [length]; lia]|]. split; [unfold is_u32; lia|]. intros bytes [= <-]. split; [apply (units_below 256); reflexivity|cbn [length]; lia].
  - intros attr [= <-]. split; [intros Length path [= _ <-]|split; [done|intros base remaining [= <- <-]]].
    + apply (units_below (2 ^ 16)); reflexivity.
    + split; [eexists; split; reflexivity|constructor].
Qed.

Lemma busy_ok : reg_ok busy.
Proof. destruct (run_calls_spec open_calls (CmpSetHiveReady sample_registry) sample_start open_calls_ok) as (r' & E & G & _). vm_compute in E. injection E as <-. exact G. Qed.

Lemma busy_bodies : bodies busy = [1; 2].
Proof. reflexivity. Qed.

Lemma busy_handle a : a ∈ bodies busy -> handle_ok busy (fun _ => inr a).
Proof. intros Ha access b [= <-]. exact Ha. Qed.

Lemma short_name c : 0 <= c < 2 ^ 16 -> string_read (UserString 2 [c]).
Proof. intros Hc. split; [by constructor|]. cbn [length]. lia. Qed.

(** A buffer one byte short of the reply, in a longer piece of memory. *)
Lemma short_buffers_witness :
  let out := repeat 0xFF 16 in
  exists x, query_value_answer busy (fun _ => inr 2) (Some STATUS_SUCCESS) STATUS_SUCCESS 14 (UserString 2 [0x76]) KeyValuePartialInformation x /\
    says busy STATUS_BUFFER_TOO_SMALL x out 14 (keeps busy (NtQueryValueKey busy (fun _ => inr 2) (UserString 2 [0x76]) KeyValuePartialInformation out 14 (Some STATUS_SUCCESS) STATUS_SUCCESS)) /\
    NtQueryValueKey busy (fun _ => inr 2) (UserString 2 [0x76]) KeyValuePartialInformation out 14 (Some STATUS_SUCCESS) STATUS_SUCCESS =
      Ok (STATUS_BUFFER_OVERFLOW, Some 15, [0; 0; 0; 0; 1; 0; 0; 0; 3; 0; 0; 0; 1; 2; 0xFF; 0xFF]).
Proof.
  intros out. destruct (short_buffers busy (fun _ => inr 2) (Some STATUS_SUCCESS) STATUS_SUCCESS out 14 busy_ok) as (Hv & _); [apply busy_handle; rewrite busy_bodies; set_solver|unfold fits, out; cbn [length repeat]; lia|].
  destruct (Hv (UserString 2 [0x76]) KeyValuePartialInformation) as (x & Hx & Hs); [apply short_name; lia|]. exists x. split; [exact Hx|]. split; [exact Hs|]. vm_compute. reflexivity.
Defined.

Lemma enumeration_complete_witness : exists names, StronglySorted name_before names /\ (exists nm, nm ∈ names /\ fold_name nm = fold_name [0x61]) /\
  NtEnumerateKey busy (fun _ => inr 1) (Z.of_nat (length names)) KeyBasicInformation [] 0 (Some STATUS_SUCCESS) STATUS_SUCCESS [] = Ok ((STATUS_NO_MORE_ENTRIES, None, []), busy).
Proof.
  destruct (enumeration_complete busy (fun _ => inr 1) 1 (match nodes (cm busy) !! 1 with Some n => n | None => lone_node end) busy_ok) as (names & longest & _ & _ & _ & Hend & Hs & Hfind); [apply busy_handle; rewrite busy_bodies; set_solver|reflexivity..|].
  exists names. split; [exact Hs|]. split; [|by apply Hend]. apply Hfind; [split; [repeat constructor; lia|reflexivity]|]. exists 2. split; [vm_compute; reflexivity|done].
Defined.

Lemma set_then_query_witness : exists r', NtSetValueKey busy (fun _ => inr 2) (UserString 2 [0x56]) 3 (inr [9]) = Ok (STATUS_SUCCESS, r') /\
  NtQueryValueKey r' (fun _ => inr 2) (UserString 2 [0x76]) KeyValueFullInformation (repeat 0 24) 24 (Some STATUS_SUCCESS) STATUS_SUCCESS = Ok (STATUS_SUCCESS, Some 23, overlay (repeat 0 24) (full_value [0x76] 3 [9])).
Proof.
  eexists. split; [vm_compute; reflexivity|]. match goal with |- NtQueryValueKey ?r _ _ _ _ _ _ _ = _ => set (r' := r) end.
  refine (proj1 (proj1 (set_then_query busy r' (fun _ => inr 2) 2 2 [0x56] 2 [0x76] 3 [9] busy_ok _ eq_refl eq_refl _ _ _ _ _ _) _) _ _ _ _ _ _).
  - apply busy_handle. rewrite busy_bodies. set_solver.
  - apply short_name. lia.
  - apply short_name. lia.
  - done.
  - unfold is_u32. lia.
  - apply (units_below 256). reflexivity.
  - done.
  - vm_compute. reflexivity.
  - vm_compute. reflexivity.
  - done.
  - done.
  - done.
Defined.
End sample.
